(* ===== verification/_CoqProject ===== *)
-Q . S2P
Prelude.v
Ringbuf.v
RingbufByte.v
RingbufChain.v
RingbufNoSplit.v
RingbufSplit.v
RingbufTake.v
RingbufItems.v
RingbufApi.v
EspTimer.v
EspTimerInv.v
EspTimerRun.v
EspTimerSpec.v
LogLevel.v
LogCaches.v
LogSpec.v
EspEvent.v
EspEventTree.v
EspEventSpec.v
EspEventRefine.v
EspEventProps.v
EspEventDefault.v
Dm9051.v
Dm9051New.v
Dm9051Safe.v
Dm9051Rx.v
Dm9051Regs.v
Dm9051Tx.v
Ota.v
OtaSpec.v
OtaBoot.v
Flash.v
Partition.v
PartitionSpec.v
PartitionAccess.v
PartitionTable.v
PartitionRegion.v
OtaWrite.v
OtaWriteSpec.v
OtaUpdate.v
ImageSha.v
ImageShaSpec.v
ImageFlash.v
Image.v
ImageSpec.v
ImageFormat.v
ImageRam.v
ImageProps.v
ImageCases.v
ImageOta.v
EthPhy.v
Eth.v
EthSpec.v
EthLife.v
EthDm9051.v
EthChip.v
EthSafe.v
ConsoleSplit.v
ConsoleCmd.v
ConsoleSpec.v
ConsoleProps.v
Vfs.v
VfsCalls.v
VfsSpec.v
VfsInv.v
VfsProps.v
VfsSelect.v
VfsSelectProps.v
VfsSelectReport.v
VfsSelectCases.v
HttpdUri.v
HttpdProps.v
Pthread.v
PthreadLock.v
PthreadProps.v
PthreadTls.v
