(* ===== verification/Prelude.v ===== *)
(** * Core services of ESP-IDF: a verification development

    ESP-IDF is the framework of the ESP32 chips.  This development models services of it
    that applications and drivers build on, in the C code of [components/], and proves
    what makes them correct.  File names below are those under [components/].

    ** The parts and how they work together

    - Ring buffers ([esp_ringbuf/ringbuf.c]) pass bytes or items between tasks and ISRs.
    - High-resolution timers ([esp_timer/src/esp_timer.c]) keep two sorted lists of armed
      timers, one per dispatch method, and run the callbacks of those that expire.
    - Log levels ([log/src/log_level]) decide for each tag whether a message is printed: a
      linked list of the levels that were set with one of two caches in front.
    - Event loops ([esp_event/esp_event.c], [default_event_loop.c]) run the handlers
      registered for an event, in the order of registration.
    - The Ethernet driver for the DM9051 ([esp_eth/src/spi/dm9051/esp_eth_mac_dm9051.c])
      exchanges frames with the chip over SPI, polled with a timer or by an interrupt.
    - The Ethernet driver above it ([esp_eth/src/esp_eth.c]) joins a MAC and a PHY
      ([esp_eth/src/phy/esp_eth_phy_802_3.c], [spi/dm9051/esp_eth_phy_dm9051.c]) through a
      mediator, follows the link with a timer and reports it as events.
    - Partitions ([esp_partition/partition.c], [partition_target.c]) divide the flash
      according to the table in flash, which the bootloader checks too
      ([bootloader_support/src/flash_partitions.c]).
    - Updates over the air ([app_update/esp_ota_ops.c]) write an image into a partition
      and select it in otadata; the bootloader ([bootloader_support/src/
      bootloader_utility.c], [bootloader_common_loader.c],
      [bootloader/subproject/main/bootloader_start.c]) chooses the application to start
      from otadata and rolls back what is not confirmed.
    - Images ([bootloader_support/src/esp_image_format.c]) are verified by an update and by
      the bootloader before it loads them into RAM, with digests ([bootloader_sha.c]) and
      mappings of flash ([bootloader_support/bootloader_flash/src/bootloader_flash.c]) that
      exist once for applications and once for the bootloader.
    - The virtual file system ([vfs/vfs.c]) gives file systems and sockets one name space
      and one table of descriptors, and lets select wait on several of them.
    - POSIX threads ([pthread/pthread.c], [pthread_cond_var.c], [pthread_rwlock.c],
      [pthread_semaphore.c], [pthread_local_storage.c]) give mutexes, condition variables,
      read-write locks built from both, semaphores and values local to a thread on top of
      the semaphores of FreeRTOS.
    - The console ([console/split_argv.c], [console/commands.c]) cuts a line into arguments
      and runs the command that the first one names.
    - The HTTP server chooses the handler of a request by its path and method
      ([esp_http_server/src/httpd_uri.c]).

    ** How code is modelled

    [Prelude] has the monad [M] of C code: state passing with four outcomes, a normal
    return, a failed assertion, a bad memory access and the end of the fuel.  [wp] is total
    correctness, so a theorem in terms of it shows that the code returns, that no assertion
    fails, that no access is out of bounds and that fuel suffices.  Integers are [Z] with
    the wrap-around of their C type written out ([u8], [u32], [u64], [i8], [i32], [i64]).
    Structures are records with the fields of the C code, pointers are integers into a map
    or addresses in a byte memory, and errors are [esp_err_t].  A function keeps its name;
    a loop or a part of a function that is a definition of its own says which one it is.
    A critical section is one step.  Calls of POSIX threads that may wait are machines: a
    program counter per place where another thread can run, and a step function that says
    whether the thread blocks, goes on or returns; [PthreadLock] puts the threads together
    as a relation of steps in any order.  What the code calls and does not define is a class or
    a parameter: [SpiDriver], [RxChip], [RegChip] and [ViewChip] for the DM9051 (the
    flag of a received frame stays clear once it is cleared until the next frame, an access
    to the PHY is busy for a while, the status of the link latches low), [EthMac] with
    [ReliableMac] between the Ethernet driver and a MAC (the DM9051 on a [ViewChip], and a
    simulated MAC) and [SafeMac] for a MAC of which nothing is known but that it returns, [FlashDriver] with [FlashLaws] for the flash (with a NOR flash as
    instance), [LogCache] with [LogCacheLaws] between the log list and its caches,
    [SetLaws], [SelectLaws],
    [TasksLaws] and [QuietTasks] between select, the file systems and other tasks,
    [ImageFlash] with [ImageFlashLaws] and [ShaDriver] with [ShaLaws] between the
    verification of images and the flash and digests below it, [WorkingFlash] for a flash
    that does not fail, [Sha256] for the compression function of SHA-256, [ota_env] for what
    surrounds otadata, and functions for callbacks, handlers and digests.  The answers of
    allocations and of the flash are lists in the state, so that every failure is covered.

    ** The files

    - [Ringbuf]: the state [Ringbuffer_t], the storage as a byte memory and the whole of
      [ringbuf.c] but task lists.  [RingbufByte], [RingbufChain], [RingbufNoSplit],
      [RingbufSplit], [RingbufTake], [RingbufItems]: byte buffers refine a FIFO of bytes,
      no-split and allow-split buffers a FIFO of items, for clients that hold several items
      and return them in any order.  [RingbufApi]: free size, sends that wait while other
      tasks work, and an acquired item that becomes readable early.
    - [EspTimer]: the lists, start, stop, restart and delete, the alarm and the processing
      of expired timers.  [EspTimerInv], [EspTimerRun], [EspTimerSpec]: lists stay sorted
      and complete, the alarm is that of the first timer, expired timers run in order,
      and the loop ends when callbacks and time let it.
    - [LogLevel]: the list and both caches.  [LogCaches]: each cache satisfies
      [LogCacheLaws].  [LogSpec]: with any such cache the levels refine a map from tags.
    - [EspEvent]: the tree of handlers, posting and running.  [EspEventTree],
      [EspEventSpec], [EspEventRefine], [EspEventProps]: a loop refines the list of its
      registrations with a queue, as the header file documents it, and no block of memory is
      lost; the cases in which the code and the documentation differ are theorems of their
      own.  [EspEventDefault]: the
      default loop.
    - [Dm9051], [Dm9051New]: the driver object and its creation.  [Dm9051Safe],
      [Dm9051Rx], [Dm9051Regs], [Dm9051Tx]: what holds with any chip, and what reception,
      the filters and transmission do with a chip as its header describes it.
    - [EthPhy]: the state of the Ethernet driver, its mediator and the functions of the
      802.3 PHY and of the DM9051 PHY.  [Eth]: the user functions.  [EthSpec]: rules for
      them with a MAC that does what it is asked, and the detection of the PHY.
      [EthLife]: an invariant of all runs of the API, of the link timer and of arriving
      frames, what a tick does, and an uninstall that fails half way.  [EthDm9051]: the
      DM9051 as the MAC, and an event that cannot be posted.  [EthChip]: with a chip that
      works as its data sheet says the DM9051 satisfies [ReliableMac], so the invariant
      holds of the driver, the PHY, the MAC and the chip together.  [EthSafe]: with a
      [SafeMac], refused events and failed allocations no call faults.
    - [Ota]: otadata, selection and rollback, in the application and in the bootloader.
      [OtaSpec]: a selected slot boots, and a loss of power at any moment leaves the old or
      the new one.  [OtaBoot]: the cycle of update, boot and confirmation, the search for
      an image, agreement of application and bootloader, and the slot of the next update.
    - [Flash]: the interface of the flash driver, its laws and the NOR flash.
    - [Partition]: loading the table, iterators, registration, access and copying.
      [PartitionSpec]: iteration is a filter of the list, registration keeps partitions
      apart.  [PartitionAccess]: access is confined to the partition, what is written is
      read back, a copy is a copy.  [PartitionTable]: a table that was written is accepted
      by the bootloader and loaded as it was.  [PartitionRegion]: the check of a region
      against read-only partitions, and instances on a NOR flash.
    - [OtaWrite]: opening, writing and closing an update over [Partition] and [Ota].
      [OtaWriteSpec], [OtaUpdate]: however an image is cut into pieces, an update that
      succeeds has put it into its partition (otadata is a field [otasel] of its own, and what
      an update erases there is stated next to the flash); the case in which the last block goes into a
      sector that was not erased.
    - [ImageSha]: SHA-256 over its compression function, and the digests of applications,
      of the newer chips and of the ESP32.  [ImageShaSpec]: each satisfies [ShaLaws]; the
      blocks that the engine of the ESP32 gets are those of the standard.  [ImageFlash]:
      reading and mapping flash, twice, both with [ImageFlashLaws].
    - [Image]: the whole of [esp_image_format.c] without signatures.  [ImageSpec]: rules for
      its functions and what [image_load] accepts, in terms of flash.  [ImageFormat]: the
      file format, as bytes of a file, and that the code accepts exactly such files.
      [ImageRam]: the masked copies in RAM and the addresses that may be loaded.
      [ImageProps]: verification is sound and complete, and loading puts the segments where
      they belong.  [ImageCases]: an image, and what the code gets wrong.  [ImageOta]: an
      update that verifies with [Image] leaves an image of the format in its partition.
    - [ConsoleSplit]: the splitting of a line in place, which is the list of its words, and
      the inverse of quoting.  [ConsoleCmd]: the list of commands on the heap.
      [ConsoleSpec], [ConsoleProps]: the list refines a table, a line makes one call,
      that of the command it names, and a registration that keeps a freed hint.
    - [Vfs]: the registry, the table of descriptors and the choice by path.  [VfsCalls]:
      the calls on files, directories and terminals.  [VfsSpec], [VfsInv], [VfsProps]: an
      invariant of all sequences of calls with the ownership of memory, the longest prefix,
      a file from opening to closing, and what removal and registration get wrong.
      [VfsSelect]: select.  [VfsSelectProps]: it returns and gives its memory back.
      [VfsSelectReport]: it reports what is ready.  [VfsSelectCases]: the time it waits,
      instances, and what it leaves behind.
    - [Pthread]: mutexes, condition variables, read-write locks, semaphores, [pthread_once]
      and the times of calls that wait.  [PthreadLock]: the threads on a read-write lock and
      the invariant of all their interleavings.  [PthreadProps]: writers exclude all others,
      some thread can always go on, a wait on a condition variable with a clock, and
      the cases in which a call is not what POSIX says.  [PthreadTls]: keys and values of a
      thread, as maps, and destructors at its end.
    - [HttpdUri]: templates, the array of handlers and the choice for a request.
      [HttpdProps]: the meaning of templates, the array as a table, and a registration
      that runs out of memory.

    ** Bounds

    Recursion over a list or a count of retries is structural.  Other loops have fuel: the
    length of a chain of blocks plus one for ring buffers ([ring_fuel]), the length of the
    list of partitions plus two for iterators, a round per possible sequence number for
    [esp_rewrite_ota_data], three turns per byte for [esp_partition_copy] (a mapping may
    fail twice in a row), the length of the line plus one for [esp_console_split_argv],
    three more turns than pages for the pieces of a segment, the length of the data plus two
    for the blocks of a digest, the random words to come plus two for the choice of the
    obfuscation, the cost that a bound on the destructors gives each value of a thread for
    the cleanup at its end, and an argument for the loops that depend on callbacks or on the
    chip, where the theorems say how much is enough.  Sizes are below [2 ^ 31], which is
    beyond the memory and the flash of the chips.  The counters of a read-write lock have
    eight bits: its theorems are for at most 127 threads, and one shows what happens with
    more readers.

    ** Configurations

    Ring buffers in RAM; timers with ISR dispatch and without profiling; log levels that
    can be changed at run time, with built-in checks; event loops without profiling and
    with posting from ISRs; Ethernet with the transmit mutex; updates with rollback and
    without anti-rollback; images without signatures and without anti-rollback, for all chips in the model and for the ESP32 in the theorems on
    verifying and loading, where the description of the application is not looked at
    (the checks of load addresses are for chips whose D/IRAM is not inverted); partition
    tables with MD5 sums; the virtual file system with directories, terminals and select;
    the console with sorted and unsorted help; the HTTP server without WebSockets.

    ** Not modelled

    Register access, the FreeRTOS kernel and third-party code are outside: their functions
    are primitives or parameters of the models that use them.  Output of text and traces
    are left out.  Of the modelled parts: anti-rollback, secure boot and signatures,
    digests of partitions, emulation on a host, task lists of ring buffers,
    profiling.  A call of the Ethernet API and a tick of its timer are one step each.  The
    functions of file systems do not call back into the virtual file system, and a call of
    it is one step, except that other tasks run while select waits.  The text of the help
    command and of the dump functions, event descriptors, line editing, and the sessions
    and messages of the HTTP server are left out.  The glue of the Ethernet driver to the
    network interface, the creation and joining of POSIX threads, power management locks and the SD card protocol are
    not modelled yet; the network clients, the wireless stacks and the drivers of
    peripherals rest on hardware or closed code. *)
From Stdlib Require Import ZArith Lia.
From stdpp Require Import base numbers option list.

Open Scope Z_scope.

(** ** Machine integers

    [size_t], [uint32_t] and [UBaseType_t] are 32-bit on every ESP32 target;
    [BaseType_t] and [ptrdiff_t] are the signed 32-bit type. *)

Definition u8 (z : Z) : Z := z mod 2 ^ 8.
Definition u16 (z : Z) : Z := z mod 2 ^ 16.
Definition u32 (z : Z) : Z := z mod 2 ^ 32.
Definition u64 (z : Z) : Z := z mod 2 ^ 64.
Definition i8 (z : Z) : Z := (z + 2 ^ 7) mod 2 ^ 8 - 2 ^ 7.
Definition i32 (z : Z) : Z := (z + 2 ^ 31) mod 2 ^ 32 - 2 ^ 31.
Definition i64 (z : Z) : Z := (z + 2 ^ 63) mod 2 ^ 64 - 2 ^ 63.

(** [flag x m] is the C test [(x & m) != 0]. *)
Definition flag (x m : Z) : bool := negb (Z.land x m =? 0).

(** [x & ~m] on 32-bit words. *)
Definition clear (x m : Z) : Z := Z.ldiff x m.

(** ** Error codes ([components/esp_common/include/esp_err.h]) *)

Inductive esp_err_t : Type :=
| ESP_OK
| ESP_FAIL
| ESP_ERR_NO_MEM
| ESP_ERR_INVALID_ARG
| ESP_ERR_INVALID_STATE
| ESP_ERR_INVALID_SIZE
| ESP_ERR_NOT_FOUND
| ESP_ERR_NOT_SUPPORTED
| ESP_ERR_TIMEOUT
| ESP_ERR_INVALID_RESPONSE
| ESP_ERR_INVALID_CRC
| ESP_ERR_INVALID_VERSION
| ESP_ERR_INVALID_MAC
| ESP_ERR_NOT_FINISHED
| ESP_ERR_NOT_ALLOWED
| ESP_ERR_OTHER (code : Z).

#[export] Instance esp_err_eq_dec : EqDecision esp_err_t.
Proof. solve_decision. Defined.

(** ** A state monad for C code that can stop

    [Done s a] is a normal return with final state [s]; the three other
    outcomes are a failed [configASSERT]/[assert] (the system aborts), an access
    outside the object the code may touch, and exhaustion of the fuel of a
    loop.  Correctness theorems prove [Done]. *)

Inductive res (S A : Type) : Type :=
| Done (s : S) (a : A)
| AssertFailed
| MemFault
| OutOfFuel.
Arguments Done {S A} s a.
Arguments AssertFailed {S A}.
Arguments MemFault {S A}.
Arguments OutOfFuel {S A}.

Definition M (S A : Type) : Type := S → res S A.

#[export] Instance M_ret {S : Type} : MRet (M S) := λ A (a : A) (s : S), Done s a.
#[export] Instance M_bind {S : Type} : MBind (M S) := λ A B (k : A → M S B) (m : M S A) (s : S),
  match m s with
  | Done s' a => k a s'
  | AssertFailed => AssertFailed
  | MemFault => MemFault
  | OutOfFuel => OutOfFuel
  end.

Definition get {S : Type} : M S S := λ s, Done s s.
Definition gets {S A : Type} (f : S → A) : M S A := λ s, Done s (f s).
Definition modify {S : Type} (f : S → S) : M S unit := λ s, Done (f s) ().
Definition assertM {S : Type} (b : bool) : M S unit := λ s, if b then Done s () else AssertFailed.
Definition fault {S A : Type} : M S A := λ _, MemFault.
Definition whenM {S : Type} (b : bool) (m : M S unit) : M S unit := if b then m else mret ().

(** Code on a part of the state. *)
Definition zoom {S T A : Type} (part : S → T) (put : T → S → S) (m : M T A) : M S A := λ s,
  match m (part s) with
  | Done t a => Done (put t s) a
  | AssertFailed => AssertFailed
  | MemFault => MemFault
  | OutOfFuel => OutOfFuel
  end.

(** A C loop: the body maps the locals to the next locals ([inl]) or leaves
    the loop ([inr]). *)
Fixpoint iterM {S L R : Type} (fuel : nat) (body : L → M S (L + R)) (l : L) : M S R :=
  match fuel with
  | O => λ _, OutOfFuel
  | Datatypes.S n =>
      r ← body l;
      match r with
      | inl l' => iterM n body l'
      | inr x => mret x
      end
  end.

(** ** Total-correctness triples *)

Definition wp {S A : Type} (m : M S A) (s : S) (Q : A → S → Prop) : Prop :=
  match m s with
  | Done s' a => Q a s'
  | _ => False
  end.

(** ** Byte memory *)

Definition mem : Type := Z → Z.

Definition st8 (m : mem) (a v : Z) : mem := λ i, if i =? a then v else m i.

Definition ld32 (m : mem) (a : Z) : Z :=
  m a + 2 ^ 8 * m (a + 1) + 2 ^ 16 * m (a + 2) + 2 ^ 24 * m (a + 3).

Definition st32 (m : mem) (a v : Z) : mem := λ i,
  if (a <=? i) && (i <? a + 4) then (v / 2 ^ (8 * (i - a))) mod 2 ^ 8 else m i.

(** [memcpy(a, bs, length bs)] *)
Definition stbytes (m : mem) (a : Z) (bs : list Z) : mem := λ i,
  if (a <=? i) && (i <? a + Z.of_nat (length bs)) then bs !!! Z.to_nat (i - a) else m i.

(** The [n] bytes at [a]. *)
Definition ldbytes (m : mem) (a n : Z) : list Z :=
  (λ k, m (a + Z.of_nat k)) <$> seq 0 (Z.to_nat n).

(** The length of a list as a C size. *)
Definition zlen {A : Type} (l : list A) : Z := Z.of_nat (length l).

(** ** Lemmas *)

Create HintDb esp.

Section wp_rules.
Context {S : Type}.
Implicit Types s : S.

Lemma wp_ret {A} (a : A) s (Q : A → S → Prop) : Q a s → wp (mret a) s Q.
Proof. done. Qed.

Lemma wp_bind {A B} (m : M S A) (k : A → M S B) s Q :
  wp m s (λ a s', wp (k a) s' Q) → wp (m ≫= k) s Q.
Proof. unfold wp, mbind, M_bind. by destruct (m s). Qed.

Lemma wp_mono {A} (m : M S A) s (Q Q' : A → S → Prop) :
  wp m s Q → (∀ a s', Q a s' → Q' a s') → wp m s Q'.
Proof. unfold wp. destruct (m s); naive_solver. Qed.

Lemma wp_and {A} (m : M S A) s (Q Q' : A → S → Prop) :
  wp m s Q → wp m s Q' → wp m s (λ a s', Q a s' ∧ Q' a s').
Proof. unfold wp. by destruct (m s). Qed.

Lemma wp_get s (Q : S → S → Prop) : Q s s → wp get s Q.
Proof. done. Qed.

Lemma wp_gets {A} (f : S → A) s Q : Q (f s) s → wp (gets f) s Q.
Proof. done. Qed.

Lemma wp_modify (f : S → S) s Q : Q () (f s) → wp (modify f) s Q.
Proof. done. Qed.

Lemma wp_assert (b : bool) s Q : b = true → Q () s → wp (assertM b) s Q.
Proof. unfold wp, assertM. by intros ->. Qed.

Lemma wp_when (b : bool) (m : M S unit) s Q :
  (b = true → wp m s Q) → (b = false → Q () s) → wp (whenM b m) s Q.
Proof. unfold whenM. destruct b; intros H1 H2; [by apply H1 | by apply H2]. Qed.

Lemma wp_zoom {T A} (part : S → T) (put : T → S → S) (m : M T A) s (Q : A → S → Prop) :
  wp m (part s) (λ a t, Q a (put t s)) → wp (zoom part put m) s Q.
Proof. unfold wp, zoom. by destruct (m (part s)). Qed.

(** Loop rule: an invariant indexed by a bound on the remaining iterations. *)
Lemma wp_iter {L R} (body : L → M S (L + R)) (I : nat → L → S → Prop) (Q : R → S → Prop) :
  (∀ n l s, I n l s →
     wp (body l) s (λ r s', match r with
                            | inl l' => ∃ n', (n' < n)%nat ∧ I n' l' s'
                            | inr x => Q x s'
                            end)) →
  ∀ fuel n l s, I n l s → (n < fuel)%nat → wp (iterM fuel body l) s Q.
Proof.
  intros Hbody. induction fuel as [|fuel IH]; intros n l s HI Hn; [lia|].
  simpl. apply wp_bind. eapply wp_mono; [by eapply Hbody|].
  intros [l'|x] s' Hr; simpl in *; [|by apply wp_ret].
  destruct Hr as (n' & Hlt & HI'). eapply IH; [exact HI'|lia].
Qed.

(** Safety without termination: the run may only fail by exhausting its fuel. *)
Definition wlp {A} (m : M S A) s (Q : A → S → Prop) : Prop :=
  match m s with Done s' a => Q a s' | OutOfFuel => True | _ => False end.

Lemma wlp_wp {A} (m : M S A) s Q : wp m s Q → wlp m s Q.
Proof. unfold wp, wlp. by destruct (m s). Qed.

Lemma wlp_bind {A B} (m : M S A) (k : A → M S B) s Q :
  wlp m s (λ a s', wlp (k a) s' Q) → wlp (m ≫= k) s Q.
Proof. unfold wlp, mbind, M_bind. by destruct (m s). Qed.

Lemma wlp_iter {L R} (body : L → M S (L + R)) (I : L → S → Prop) (Q : R → S → Prop) :
  (∀ l s, I l s → wp (body l) s (λ r s', match r with inl l' => I l' s' | inr x => Q x s' end)) →
  ∀ fuel l s, I l s → wlp (iterM fuel body l) s Q.
Proof.
  intros Hbody. induction fuel as [|fuel IH]; intros l s HI; [done|]. simpl.
  apply wlp_bind. eapply wlp_wp, wp_mono; [by apply Hbody|].
  intros [l'|x] s' Hr; simpl in *; [by apply IH|]. by apply wlp_wp, wp_ret.
Qed.

Lemma wp_done {A} (m : M S A) s Q : wp m s Q → ∃ a s', m s = Done s' a ∧ Q a s'.
Proof. unfold wp. destruct (m s); naive_solver. Qed.

End wp_rules.

(** Symbolic execution of the straight-line constructs. *)
Ltac wp_step :=
  lazymatch goal with
  | |- wp (_ ≫= _) _ _ => apply wp_bind
  | |- wp (mret _) _ _ => apply wp_ret
  | |- wp get _ _ => apply wp_get
  | |- wp (gets _) _ _ => apply wp_gets
  | |- wp (modify _) _ _ => apply wp_modify
  end; cbv beta.
Ltac wp_steps := repeat wp_step.

(** *** Integers *)

Lemma i8_small z : -128 ≤ z < 128 → i8 z = z.
Proof. intros. unfold i8. rewrite Z.mod_small by lia. lia. Qed.

Lemma u32_small z : 0 ≤ z < 2 ^ 32 → u32 z = z.
Proof. intros. by apply Z.mod_small. Qed.

Lemma u32_range z : 0 ≤ u32 z < 2 ^ 32.
Proof. unfold u32. apply Z.mod_pos_bound. lia. Qed.

Lemma u64_small z : 0 ≤ z < 2 ^ 64 → u64 z = z.
Proof. intros. by apply Z.mod_small. Qed.

Lemma i32_small z : - 2 ^ 31 ≤ z < 2 ^ 31 → i32 z = z.
Proof. intros. unfold i32. rewrite Z.mod_small; lia. Qed.

Lemma i64_small z : - 2 ^ 63 ≤ z < 2 ^ 63 → i64 z = z.
Proof. intros. unfold i64. rewrite Z.mod_small; lia. Qed.

(** *** Memory *)

Lemma ld32_st32_eq m a v : 0 ≤ v < 2 ^ 32 → ld32 (st32 m a v) a = v.
Proof.
  intros Hv. unfold ld32, st32.
  rewrite !(proj2 (Z.leb_le _ _)) by lia. rewrite !(proj2 (Z.ltb_lt _ _)) by lia.
  cbn [andb].
  replace (8 * (a - a)) with 0 by lia. replace (8 * (a + 1 - a)) with 8 by lia.
  replace (8 * (a + 2 - a)) with 16 by lia. replace (8 * (a + 3 - a)) with 24 by lia.
  change (2 ^ 0) with 1. change (2 ^ 8) with 256. change (2 ^ 16) with 65536.
  change (2 ^ 24) with 16777216. change (2 ^ 32) with 4294967296 in Hv.
  Z.to_euclidean_division_equations. lia.
Qed.

Lemma ld32_ext m m' a :
  (∀ i, a ≤ i < a + 4 → m i = m' i) → ld32 m a = ld32 m' a.
Proof. intros H. unfold ld32. rewrite !H by lia. done. Qed.

Lemma st32_other m a v i : i < a ∨ a + 4 ≤ i → st32 m a v i = m i.
Proof. intros. unfold st32. destruct (Z.leb_spec a i), (Z.ltb_spec i (a + 4)); simpl; lia || done. Qed.

Lemma stbytes_other m a bs i :
  i < a ∨ a + Z.of_nat (length bs) ≤ i → stbytes m a bs i = m i.
Proof.
  intros. unfold stbytes.
  destruct (Z.leb_spec a i), (Z.ltb_spec i (a + Z.of_nat (length bs))); simpl; lia || done.
Qed.

Lemma ld32_st32_ne m a b v : b + 4 ≤ a ∨ a + 4 ≤ b → ld32 (st32 m a v) b = ld32 m b.
Proof. intros. apply ld32_ext. intros. apply st32_other. lia. Qed.

Lemma ld32_stbytes_ne m a b bs :
  b + 4 ≤ a ∨ a + Z.of_nat (length bs) ≤ b → ld32 (stbytes m a bs) b = ld32 m b.
Proof. intros. apply ld32_ext. intros. apply stbytes_other. lia. Qed.

Lemma ldbytes_ext m m' a n :
  (∀ i, a ≤ i < a + n → m i = m' i) → ldbytes m a n = ldbytes m' a n.
Proof.
  intros H. unfold ldbytes. apply list_fmap_ext. intros i x Hx.
  apply lookup_seq in Hx as [-> Hx]. apply H. lia.
Qed.

Lemma length_ldbytes m a n : length (ldbytes m a n) = Z.to_nat n.
Proof. unfold ldbytes. by rewrite length_fmap, length_seq. Qed.

Lemma ldbytes_app m a n k :
  0 ≤ n → 0 ≤ k → ldbytes m a (n + k) = ldbytes m a n ++ ldbytes m (a + n) k.
Proof.
  intros. unfold ldbytes. rewrite Z2Nat.inj_add, seq_app, fmap_app by lia. f_equal.
  apply list_eq. intros i. rewrite !list_lookup_fmap, !Nat.add_0_l.
  destruct (decide (i < Z.to_nat k)%nat).
  - rewrite !lookup_seq_lt by lia. simpl. do 2 f_equal. lia.
  - rewrite !lookup_seq_ge by lia. done.
Qed.

Lemma ldbytes_0 m a : ldbytes m a 0 = [].
Proof. done. Qed.

Lemma ldbytes_stbytes_eq m a bs :
  ldbytes (stbytes m a bs) a (zlen bs) = bs.
Proof.
  apply list_eq. intros i. unfold ldbytes, zlen. rewrite list_lookup_fmap, Nat2Z.id.
  destruct (decide (i < length bs)%nat) as [Hi|Hi].
  - rewrite lookup_seq_lt by lia. simpl. unfold stbytes.
    rewrite (proj2 (Z.leb_le _ _)), (proj2 (Z.ltb_lt _ _)) by lia. simpl.
    replace (Z.to_nat (a + Z.of_nat i - a)) with i by lia.
    by rewrite list_lookup_lookup_total_lt.
  - rewrite lookup_seq_ge, lookup_ge_None_2 by lia. done.
Qed.

(** *** Lengths *)

Lemma zlen_nonneg {A} (l : list A) : 0 ≤ zlen l.
Proof. unfold zlen. lia. Qed.
Lemma zlen_app {A} (l k : list A) : zlen (l ++ k) = zlen l + zlen k.
Proof. unfold zlen. rewrite length_app. lia. Qed.
Lemma zlen_nil {A} : zlen (@nil A) = 0.
Proof. done. Qed.
Lemma zlen_cons {A} (x : A) l : zlen (x :: l) = 1 + zlen l.
Proof. unfold zlen. simpl. lia. Qed.
Lemma zlen_take {A} n (l : list A) : 0 ≤ n ≤ zlen l → zlen (take (Z.to_nat n) l) = n.
Proof. unfold zlen. rewrite length_take. lia. Qed.
Lemma zlen_drop {A} n (l : list A) : 0 ≤ n ≤ zlen l → zlen (drop (Z.to_nat n) l) = zlen l - n.
Proof. unfold zlen. rewrite length_drop. lia. Qed.

(** *** Bit flags *)

Lemma flag_lor_self x m : m ≠ 0 → flag (Z.lor x m) m = true.
Proof.
  intros Hm. unfold flag. rewrite Z.land_lor_distr_l, Z.land_diag.
  destruct (Z.eqb_spec (Z.lor (Z.land x m) m) 0) as [E|]; [|done].
  apply Z.lor_eq_0_iff in E as [_ E]. done.
Qed.

(** Setting or clearing bits leaves the test of a disjoint mask unchanged. *)
Lemma flag_lor_disjoint x m k : Z.land m k = 0 → flag (Z.lor x m) k = flag x k.
Proof. intros H. unfold flag. by rewrite Z.land_lor_distr_l, H, Z.lor_0_r. Qed.

Lemma flag_ldiff_disjoint x m k : Z.land m k = 0 → flag (Z.ldiff x m) k = flag x k.
Proof.
  intros H. unfold flag. do 2 f_equal. apply Z.bits_inj'. intros n Hn.
  rewrite !Z.land_spec, Z.ldiff_spec.
  assert (Z.testbit m n && Z.testbit k n = false) as Hb.
  { rewrite <- Z.land_spec, H. apply Z.bits_0. }
  destruct (Z.testbit x n), (Z.testbit m n), (Z.testbit k n); simpl in *; congruence.
Qed.

Lemma flag_ldiff_self x m : flag (Z.ldiff x m) m = false.
Proof.
  unfold flag. rewrite (proj2 (Z.eqb_eq _ _)); [done|]. apply Z.bits_inj'. intros n Hn.
  rewrite Z.land_spec, Z.ldiff_spec, Z.bits_0. by destruct (Z.testbit x n), (Z.testbit m n).
Qed.

(** Testing two masks at once. *)
Lemma flag_lor_mask x m k : flag x (Z.lor m k) = flag x m || flag x k.
Proof.
  unfold flag. rewrite Z.land_lor_distr_r, <- negb_andb. f_equal.
  destruct (Z.eqb_spec (Z.land x m) 0) as [->|H]; simpl; [done|].
  apply Z.eqb_neq. intros E. by apply Z.lor_eq_0_iff in E as [? _].
Qed.

(** Joining a high and a low part. *)
Lemma lor_shiftl_small h l n : 0 ≤ n → 0 ≤ l < 2 ^ n → Z.lor (Z.shiftl h n) l = h * 2 ^ n + l.
Proof.
  intros Hn Hl. assert (Hland : Z.land (Z.shiftl h n) l = 0).
  { apply Z.bits_inj'. intros m Hm. rewrite Z.land_spec, Z.bits_0.
    destruct (Z.lt_ge_cases m n) as [Hlt|Hge]; [by rewrite Z.shiftl_spec_low|].
    rewrite <- (Z.mod_small l (2 ^ n)), Z.mod_pow2_bits_high by lia. apply andb_false_r. }
  rewrite <- Z.lxor_lor, <- Z.add_nocarry_lxor by done. by rewrite Z.shiftl_mul_pow2.
Qed.

(** Reading one byte of a memory after [memcpy]. *)
Lemma stbytes_in m a bs i :
  a ≤ i < a + zlen bs → stbytes m a bs i = bs !!! Z.to_nat (i - a).
Proof.
  unfold zlen. intros. unfold stbytes.
  by rewrite (proj2 (Z.leb_le _ _)), (proj2 (Z.ltb_lt _ _)) by lia.
Qed.

(** The bytes read from memory are a given list when each byte is. *)
Lemma ldbytes_eq m a bs :
  (∀ i, 0 ≤ i < zlen bs → m (a + i) = bs !!! Z.to_nat i) → ldbytes m a (zlen bs) = bs.
Proof.
  intros H. apply list_eq. intros i. unfold ldbytes, zlen in *.
  rewrite list_lookup_fmap, Nat2Z.id.
  destruct (decide (i < length bs)%nat) as [Hi|Hi].
  - rewrite lookup_seq_lt by lia. simpl. rewrite H by lia. rewrite Nat2Z.id.
    symmetry. by apply list_lookup_lookup_total_lt.
  - rewrite lookup_seq_ge, lookup_ge_None_2 by lia. done.
Qed.

(** Reading a byte of what was read. *)
Lemma ldbytes_lookup m a n i : 0 ≤ i < n → ldbytes m a n !!! Z.to_nat i = m (a + i).
Proof.
  intros Hi. apply list_lookup_total_correct. unfold ldbytes. rewrite list_lookup_fmap, lookup_seq_lt by lia. simpl.
  by rewrite Z2Nat.id by lia.
Qed.

Lemma zlen_ldbytes m a n : 0 ≤ n → zlen (ldbytes m a n) = n.
Proof. intros. unfold zlen. rewrite length_ldbytes. lia. Qed.

Lemma ldbytes_pointwise m m' a a' n : (∀ i, 0 ≤ i < n → m (a + i) = m' (a' + i)) → ldbytes m a n = ldbytes m' a' n.
Proof. intros H. unfold ldbytes. apply list_fmap_ext. intros k v [-> Hk]%lookup_seq. apply H. lia. Qed.

Lemma ldbytes_st32_ne m a n c v :
  c + 4 ≤ a ∨ a + n ≤ c → ldbytes (st32 m c v) a n = ldbytes m a n.
Proof. intros. apply ldbytes_ext. intros. apply st32_other. lia. Qed.

Lemma ldbytes_stbytes_ne m a n c bs :
  c + zlen bs ≤ a ∨ a + n ≤ c → ldbytes (stbytes m c bs) a n = ldbytes m a n.
Proof. unfold zlen. intros. apply ldbytes_ext. intros. apply stbytes_other. lia. Qed.

Lemma ldbytes_stbytes_at m a n c bs :
  a = c → n = zlen bs → ldbytes (stbytes m c bs) a n = bs.
Proof. intros -> ->. apply ldbytes_stbytes_eq. Qed.

(** *** Lists *)

Lemma filter_all {A} (P : A → Prop) `{!∀ x, Decision (P x)} l : Forall P l → filter P l = l.
Proof. induction 1; [done|]. rewrite filter_cons_True by done. by f_equal. Qed.

Lemma insert_split {A} (l : list A) i x y :
  l !! i = Some y → ∃ l1 l2, l = l1 ++ y :: l2 ∧ length l1 = i ∧ <[i := x]> l = l1 ++ x :: l2.
Proof.
  intros H. exists (take i l), (drop (S i) l). pose proof (lookup_lt_Some _ _ _ H).
  split_and!; [by rewrite take_drop_middle|rewrite length_take; lia|by apply insert_take_drop].
Qed.

Lemma filter_none {A} (P : A → Prop) `{!∀ x, Decision (P x)} l : Forall (λ x, ¬ P x) l → filter P l = [].
Proof. induction 1; [done|]. by rewrite filter_cons_False. Qed.
