(* ===== verification/Ringbuf.v ===== *)
(** * The ring buffer of [components/esp_ringbuf/ringbuf.c]

    The state record has the C structure's fields; pointers are absolute byte
    addresses ([Z]), and the storage area is a byte memory in which the item
    headers of no-split and allow-split buffers live next to the data, exactly
    as in C.  Every access to the storage is checked against
    [pucHead, pucTail); [configASSERT] is a possible outcome.  The five function
    pointers installed by [prvInitializeNewRingbuffer] are determined by the
    buffer type, kept in [xType].

    A critical section ([portENTER_CRITICAL] ... [portEXIT_CRITICAL]) is one
    definition, hence one atomic step. *)
From Stdlib Require Import ZArith Lia.
From stdpp Require Import base numbers option list.
From S2P Require Import Prelude.

Open Scope Z_scope.

(** ** Constants and data *)

Definition rbALIGN_MASK : Z := 3.
Definition rbALIGN_SIZE (xSize : Z) : Z := Z.ldiff (u32 (xSize + rbALIGN_MASK)) rbALIGN_MASK.
Definition rbCHECK_ALIGNED (pvPtr : Z) : bool := Z.land pvPtr rbALIGN_MASK =? 0.

Definition rbALLOW_SPLIT_FLAG : Z := 1.
Definition rbBYTE_BUFFER_FLAG : Z := 2.
Definition rbBUFFER_FULL_FLAG : Z := 4.
Definition rbBUFFER_STATIC_FLAG : Z := 8.
Definition rbUSING_QUEUE_SET : Z := 16.

Definition rbITEM_FREE_FLAG : Z := 1.
Definition rbITEM_DUMMY_DATA_FLAG : Z := 2.
Definition rbITEM_SPLIT_FLAG : Z := 4.
Definition rbITEM_WRITTEN_FLAG : Z := 8.

(** [sizeof(ItemHeader_t)]: [xItemLen] at offset 0, [uxItemFlags] at offset 4. *)
Definition rbHEADER_SIZE : Z := 8.

Inductive RingbufferType_t : Type :=
| RINGBUF_TYPE_NOSPLIT
| RINGBUF_TYPE_ALLOWSPLIT
| RINGBUF_TYPE_BYTEBUF.

#[export] Instance RingbufferType_eq_dec : EqDecision RingbufferType_t.
Proof. solve_decision. Defined.

(** A blocked task, as the event lists see it: handle and priority. *)
Record TCB_t : Type := mkTCB { tcb_handle : Z; uxPriority : Z }.

Record Ringbuffer_t : Type := mkRB {
  xSize : Z;
  xMaxItemSize : Z;
  uxRingbufferFlags : Z;
  xType : RingbufferType_t;
  pucAcquire : Z;
  pucWrite : Z;
  pucRead : Z;
  pucFree : Z;
  pucHead : Z;
  pucTail : Z;
  xItemsWaiting : Z;
  xTasksWaitingToSend : list TCB_t;
  xTasksWaitingToReceive : list TCB_t;
  xQueueSet : option Z;
  storage : mem
}.

Definition set_flags (v : Z) (r : Ringbuffer_t) : Ringbuffer_t :=
  mkRB (xSize r) (xMaxItemSize r) v (xType r) (pucAcquire r) (pucWrite r) (pucRead r) (pucFree r)
    (pucHead r) (pucTail r) (xItemsWaiting r) (xTasksWaitingToSend r) (xTasksWaitingToReceive r)
    (xQueueSet r) (storage r).
Definition set_acquire (v : Z) (r : Ringbuffer_t) : Ringbuffer_t :=
  mkRB (xSize r) (xMaxItemSize r) (uxRingbufferFlags r) (xType r) v (pucWrite r) (pucRead r) (pucFree r)
    (pucHead r) (pucTail r) (xItemsWaiting r) (xTasksWaitingToSend r) (xTasksWaitingToReceive r)
    (xQueueSet r) (storage r).
Definition set_write (v : Z) (r : Ringbuffer_t) : Ringbuffer_t :=
  mkRB (xSize r) (xMaxItemSize r) (uxRingbufferFlags r) (xType r) (pucAcquire r) v (pucRead r) (pucFree r)
    (pucHead r) (pucTail r) (xItemsWaiting r) (xTasksWaitingToSend r) (xTasksWaitingToReceive r)
    (xQueueSet r) (storage r).
Definition set_read (v : Z) (r : Ringbuffer_t) : Ringbuffer_t :=
  mkRB (xSize r) (xMaxItemSize r) (uxRingbufferFlags r) (xType r) (pucAcquire r) (pucWrite r) v (pucFree r)
    (pucHead r) (pucTail r) (xItemsWaiting r) (xTasksWaitingToSend r) (xTasksWaitingToReceive r)
    (xQueueSet r) (storage r).
Definition set_free (v : Z) (r : Ringbuffer_t) : Ringbuffer_t :=
  mkRB (xSize r) (xMaxItemSize r) (uxRingbufferFlags r) (xType r) (pucAcquire r) (pucWrite r) (pucRead r) v
    (pucHead r) (pucTail r) (xItemsWaiting r) (xTasksWaitingToSend r) (xTasksWaitingToReceive r)
    (xQueueSet r) (storage r).
Definition set_waiting (v : Z) (r : Ringbuffer_t) : Ringbuffer_t :=
  mkRB (xSize r) (xMaxItemSize r) (uxRingbufferFlags r) (xType r) (pucAcquire r) (pucWrite r) (pucRead r)
    (pucFree r) (pucHead r) (pucTail r) v (xTasksWaitingToSend r) (xTasksWaitingToReceive r)
    (xQueueSet r) (storage r).
Definition set_waiting_send (v : list TCB_t) (r : Ringbuffer_t) : Ringbuffer_t :=
  mkRB (xSize r) (xMaxItemSize r) (uxRingbufferFlags r) (xType r) (pucAcquire r) (pucWrite r) (pucRead r)
    (pucFree r) (pucHead r) (pucTail r) (xItemsWaiting r) v (xTasksWaitingToReceive r)
    (xQueueSet r) (storage r).
Definition set_waiting_recv (v : list TCB_t) (r : Ringbuffer_t) : Ringbuffer_t :=
  mkRB (xSize r) (xMaxItemSize r) (uxRingbufferFlags r) (xType r) (pucAcquire r) (pucWrite r) (pucRead r)
    (pucFree r) (pucHead r) (pucTail r) (xItemsWaiting r) (xTasksWaitingToSend r) v
    (xQueueSet r) (storage r).
Definition set_queue_set (v : option Z) (r : Ringbuffer_t) : Ringbuffer_t :=
  mkRB (xSize r) (xMaxItemSize r) (uxRingbufferFlags r) (xType r) (pucAcquire r) (pucWrite r) (pucRead r)
    (pucFree r) (pucHead r) (pucTail r) (xItemsWaiting r) (xTasksWaitingToSend r) (xTasksWaitingToReceive r)
    v (storage r).
Definition set_storage (v : mem) (r : Ringbuffer_t) : Ringbuffer_t :=
  mkRB (xSize r) (xMaxItemSize r) (uxRingbufferFlags r) (xType r) (pucAcquire r) (pucWrite r) (pucRead r)
    (pucFree r) (pucHead r) (pucTail r) (xItemsWaiting r) (xTasksWaitingToSend r) (xTasksWaitingToReceive r)
    (xQueueSet r) v.

(** ** Access to the storage area *)

Definition RB (A : Type) : Type := M Ringbuffer_t A.

Definition load32 (a : Z) : RB Z := λ r,
  if (pucHead r <=? a) && (a + 4 <=? pucTail r) then Done r (ld32 (storage r) a) else MemFault.

Definition store32 (a v : Z) : RB unit := λ r,
  if (pucHead r <=? a) && (a + 4 <=? pucTail r)
  then Done (set_storage (st32 (storage r) a v) r) () else MemFault.

(** [memcpy(dst, src, n)] into the storage; [src] is the caller's buffer. *)
Definition memcpy_in (dst : Z) (src : list Z) (n : Z) : RB unit := λ r,
  if ((n =? 0) || ((pucHead r <=? dst) && (dst + n <=? pucTail r))) && (n <=? zlen src)
  then Done (set_storage (stbytes (storage r) dst (take (Z.to_nat n) src)) r) () else MemFault.

(** Fields of the [ItemHeader_t] at [p]. *)
Definition get_xItemLen (p : Z) : RB Z := load32 p.
Definition get_uxItemFlags (p : Z) : RB Z := load32 (p + 4).
Definition put_xItemLen (p v : Z) : RB unit := store32 p v.
Definition put_uxItemFlags (p v : Z) : RB unit := store32 (p + 4) v.

(** [p - q < rbHEADER_SIZE]: the pointer difference is converted to [size_t]. *)
Definition less_than_header (p q : Z) : bool := u32 (p - q) <? rbHEADER_SIZE.

Definition is_full (r : Ringbuffer_t) : bool := flag (uxRingbufferFlags r) rbBUFFER_FULL_FLAG.
Definition set_full (r : Ringbuffer_t) : Ringbuffer_t :=
  set_flags (Z.lor (uxRingbufferFlags r) rbBUFFER_FULL_FLAG) r.
Definition clear_full (r : Ringbuffer_t) : Ringbuffer_t :=
  set_flags (Z.ldiff (uxRingbufferFlags r) rbBUFFER_FULL_FLAG) r.

(** ** Static functions *)

Definition prvInitializeNewRingbuffer (xBufferSize : Z) (xBufferType : RingbufferType_t)
    (pucRingbufferStorage : Z) (contents : mem) : Ringbuffer_t :=
  {| xSize := xBufferSize;
     xMaxItemSize :=
       match xBufferType with
       | RINGBUF_TYPE_NOSPLIT => u32 (rbALIGN_SIZE (xBufferSize / 2) - rbHEADER_SIZE)
       | RINGBUF_TYPE_ALLOWSPLIT => u32 (xBufferSize - rbHEADER_SIZE * 2)
       | RINGBUF_TYPE_BYTEBUF => xBufferSize
       end;
     uxRingbufferFlags :=
       match xBufferType with
       | RINGBUF_TYPE_NOSPLIT => 0
       | RINGBUF_TYPE_ALLOWSPLIT => Z.lor 0 rbALLOW_SPLIT_FLAG
       | RINGBUF_TYPE_BYTEBUF => Z.lor 0 rbBYTE_BUFFER_FLAG
       end;
     xType := xBufferType;
     pucAcquire := pucRingbufferStorage;
     pucWrite := pucRingbufferStorage;
     pucRead := pucRingbufferStorage;
     pucFree := pucRingbufferStorage;
     pucHead := pucRingbufferStorage;
     pucTail := pucRingbufferStorage + xBufferSize;
     xItemsWaiting := 0;
     xTasksWaitingToSend := [];
     xTasksWaitingToReceive := [];
     xQueueSet := None;
     storage := contents |}.

Definition prvGetFreeSize : RB Z :=
  r ← get;
  let xReturn :=
    if is_full r then 0
    else
      let xFreeSize := i32 (pucFree r - pucAcquire r) in
      u32 (if xFreeSize <=? 0 then i32 (xFreeSize + xSize r) else xFreeSize) in
  assertM (xReturn <=? xSize r);;
  mret xReturn.

Definition prvCheckItemFitsDefault (xItemSize : Z) : RB bool :=
  r ← get;
  assertM (rbCHECK_ALIGNED (pucAcquire r));;
  assertM ((pucHead r <=? pucAcquire r) && (pucAcquire r <? pucTail r));;
  let xTotalItemSize := u32 (rbALIGN_SIZE xItemSize + rbHEADER_SIZE) in
  mret
    (if pucAcquire r =? pucFree r then negb (is_full r)
     else if pucAcquire r <? pucFree r then xTotalItemSize <=? u32 (pucFree r - pucAcquire r)
     else if xTotalItemSize <=? u32 (pucTail r - pucAcquire r) then true
     else if flag (uxRingbufferFlags r) rbALLOW_SPLIT_FLAG
     then u32 (xTotalItemSize + rbHEADER_SIZE) <=? u32 (xSize r - (pucAcquire r - pucFree r))
     else xTotalItemSize <=? u32 (pucFree r - pucHead r)).

Definition prvCheckItemFitsByteBuffer (xItemSize : Z) : RB bool :=
  r ← get;
  assertM ((pucHead r <=? pucAcquire r) && (pucAcquire r <? pucTail r));;
  mret
    (if pucAcquire r =? pucFree r then negb (is_full r)
     else if pucAcquire r <? pucFree r then xItemSize <=? u32 (pucFree r - pucAcquire r)
     else xItemSize <=? u32 (xSize r - (pucAcquire r - pucFree r))).

(** Wrap a pointer to the head when no header fits before the tail. *)
Definition wrap_acquire : RB unit :=
  modify (λ r, if less_than_header (pucTail r) (pucAcquire r) then set_acquire (pucHead r) r else r).
Definition wrap_write : RB unit :=
  modify (λ r, if less_than_header (pucTail r) (pucWrite r) then set_write (pucHead r) r else r).
Definition wrap_read : RB unit :=
  modify (λ r, if less_than_header (pucTail r) (pucRead r) then set_read (pucHead r) r else r).
Definition wrap_free : RB unit :=
  modify (λ r, if less_than_header (pucTail r) (pucFree r) then set_free (pucHead r) r else r).

Definition mark_full : RB unit :=
  modify (λ r, if pucAcquire r =? pucFree r then set_full r else r).

Definition prvAcquireItemNoSplit (xItemSize : Z) : RB Z :=
  r ← get;
  let xAlignedItemSize := rbALIGN_SIZE xItemSize in
  let xRemLen := u32 (pucTail r - pucAcquire r) in
  assertM (rbCHECK_ALIGNED (pucAcquire r));;
  assertM ((pucHead r <=? pucAcquire r) && (pucAcquire r <? pucTail r));;
  assertM (rbHEADER_SIZE <=? xRemLen);;
  whenM (xRemLen <? u32 (xAlignedItemSize + rbHEADER_SIZE))
    (put_uxItemFlags (pucAcquire r) rbITEM_DUMMY_DATA_FLAG;;
     put_xItemLen (pucAcquire r) 0;;
     modify (set_acquire (pucHead r)));;
  pxHeader ← gets pucAcquire;
  put_xItemLen pxHeader xItemSize;;
  put_uxItemFlags pxHeader 0;;
  let item_address := pxHeader + rbHEADER_SIZE in
  modify (set_acquire (pxHeader + (rbHEADER_SIZE + xAlignedItemSize)));;
  wrap_acquire;;
  mark_full;;
  mret item_address.

(** One iteration of the loop that moves [pucWrite] over written and dummy
    items; [inr] is the exit of the loop. *)
Definition write_advance_step (pxCurHeader : Z) : RB (Z + unit) :=
  uxItemFlags ← get_uxItemFlags pxCurHeader;
  if flag uxItemFlags rbITEM_WRITTEN_FLAG || flag uxItemFlags rbITEM_DUMMY_DATA_FLAG then
    (if flag uxItemFlags rbITEM_DUMMY_DATA_FLAG then
       put_uxItemFlags pxCurHeader (Z.lor uxItemFlags rbITEM_WRITTEN_FLAG);;
       modify (λ r, set_write (pucHead r) r)
     else
       xItemLen ← get_xItemLen pxCurHeader;
       modify (λ r, set_write (pucWrite r + (rbALIGN_SIZE xItemLen + rbHEADER_SIZE)) r);;
       r ← get;
       assertM (pucWrite r <=? pucHead r + xSize r));;
    wrap_write;;
    r ← get;
    if pucWrite r =? pucAcquire r then mret (inr ()) else mret (inl (pucWrite r))
  else mret (inr ()).

(** Every iteration moves over at least a header, so a full turn takes at most
    [xSize / rbHEADER_SIZE] iterations, plus one for the exit test. *)
Definition ring_fuel (r : Ringbuffer_t) : nat := Z.to_nat (xSize r / rbHEADER_SIZE) + 2.

Definition prvSendItemDoneNoSplit (pucItem : Z) : RB unit :=
  r ← get;
  assertM (rbCHECK_ALIGNED pucItem);;
  assertM (pucHead r <=? pucItem);;
  assertM (pucItem <=? pucTail r);;
  let pxCurHeader := pucItem - rbHEADER_SIZE in
  xItemLen ← get_xItemLen pxCurHeader;
  assertM (xItemLen <=? xMaxItemSize r);;
  uxItemFlags ← get_uxItemFlags pxCurHeader;
  assertM (negb (flag uxItemFlags rbITEM_DUMMY_DATA_FLAG));;
  assertM (negb (flag uxItemFlags rbITEM_WRITTEN_FLAG));;
  put_uxItemFlags pxCurHeader (Z.lor (clear uxItemFlags rbITEM_SPLIT_FLAG) rbITEM_WRITTEN_FLAG);;
  modify (λ r, set_waiting (i32 (xItemsWaiting r + 1)) r);;
  r ← get;
  iterM (ring_fuel r) write_advance_step (pucWrite r).

Definition prvCopyItemNoSplit (pucItem : list Z) (xItemSize : Z) : RB unit :=
  item_addr ← prvAcquireItemNoSplit xItemSize;
  memcpy_in item_addr pucItem xItemSize;;
  prvSendItemDoneNoSplit item_addr.

Definition prvCopyItemAllowSplit (pucItem : list Z) (xItemSize : Z) : RB unit :=
  r ← get;
  let xAlignedItemSize := rbALIGN_SIZE xItemSize in
  let xRemLen := u32 (pucTail r - pucAcquire r) in
  assertM (rbCHECK_ALIGNED (pucAcquire r));;
  assertM ((pucHead r <=? pucAcquire r) && (pucAcquire r <? pucTail r));;
  assertM (rbHEADER_SIZE <=? xRemLen);;
  part ←
    (if xRemLen <? u32 (xAlignedItemSize + rbHEADER_SIZE) then
       let pxFirstHeader := pucAcquire r in
       put_uxItemFlags pxFirstHeader 0;;
       put_xItemLen pxFirstHeader (xRemLen - rbHEADER_SIZE);;
       modify (set_acquire (pucAcquire r + rbHEADER_SIZE));;
       let xRemLen := xRemLen - rbHEADER_SIZE in
       part ←
         (if 0 <? xRemLen then
            memcpy_in (pucAcquire r + rbHEADER_SIZE) pucItem xRemLen;;
            modify (λ r, set_waiting (i32 (xItemsWaiting r + 1)) r);;
            uxItemFlags ← get_uxItemFlags pxFirstHeader;
            put_uxItemFlags pxFirstHeader (Z.lor uxItemFlags rbITEM_SPLIT_FLAG);;
            mret (drop (Z.to_nat xRemLen) pucItem, u32 (xItemSize - xRemLen), u32 (xAlignedItemSize - xRemLen))
          else
            uxItemFlags ← get_uxItemFlags pxFirstHeader;
            put_uxItemFlags pxFirstHeader (Z.lor uxItemFlags rbITEM_DUMMY_DATA_FLAG);;
            mret (pucItem, xItemSize, xAlignedItemSize));
       modify (λ r, set_acquire (pucHead r) r);;
       mret part
     else mret (pucItem, xItemSize, xAlignedItemSize));
  let '(pucItem, xItemSize, xAlignedItemSize) := part in
  pxSecondHeader ← gets pucAcquire;
  put_xItemLen pxSecondHeader xItemSize;;
  put_uxItemFlags pxSecondHeader 0;;
  modify (λ r, set_acquire (pucAcquire r + rbHEADER_SIZE) r);;
  memcpy_in (pxSecondHeader + rbHEADER_SIZE) pucItem xItemSize;;
  modify (λ r, set_waiting (i32 (xItemsWaiting r + 1)) r);;
  modify (λ r, set_acquire (pucAcquire r + xAlignedItemSize) r);;
  wrap_acquire;;
  mark_full;;
  modify (λ r, set_write (pucAcquire r) r).

Definition prvCopyItemByteBuf (pucItem : list Z) (xItemSize : Z) : RB unit :=
  r ← get;
  assertM ((pucHead r <=? pucAcquire r) && (pucAcquire r <? pucTail r));;
  let xRemLen := u32 (pucTail r - pucAcquire r) in
  part ←
    (if xRemLen <? xItemSize then
       memcpy_in (pucAcquire r) pucItem xRemLen;;
       modify (λ r, set_waiting (i32 (xItemsWaiting r + xRemLen)) r);;
       modify (λ r, set_acquire (pucHead r) r);;
       mret (drop (Z.to_nat xRemLen) pucItem, u32 (xItemSize - xRemLen))
     else mret (pucItem, xItemSize));
  let '(pucItem, xItemSize) := part in
  dst ← gets pucAcquire;
  memcpy_in dst pucItem xItemSize;;
  modify (λ r, set_waiting (i32 (xItemsWaiting r + xItemSize)) r);;
  modify (λ r, set_acquire (pucAcquire r + xItemSize) r);;
  modify (λ r, if pucAcquire r =? pucTail r then set_acquire (pucHead r) r else r);;
  mark_full;;
  modify (λ r, set_write (pucAcquire r) r).

Definition prvCheckItemAvail : RB bool :=
  r ← get;
  if flag (uxRingbufferFlags r) rbBYTE_BUFFER_FLAG && negb (pucRead r =? pucFree r) then mret false
  else if (0 <? xItemsWaiting r) && (negb (pucRead r =? pucWrite r) || is_full r) then
    if negb (flag (uxRingbufferFlags r) (Z.lor rbBYTE_BUFFER_FLAG rbALLOW_SPLIT_FLAG)) then
      uxItemFlags ← get_uxItemFlags (pucRead r);
      if negb (flag uxItemFlags rbITEM_WRITTEN_FLAG) then mret false else mret true
    else mret true
  else mret false.

(** Returns the item's address, its size and whether it is the first part of a
    split item. *)
Definition prvGetItemDefault : RB (Z * Z * bool) :=
  r ← get;
  let pxHeader := pucRead r in
  assertM ((0 <? xItemsWaiting r) && (negb (pucRead r =? pucWrite r) || is_full r));;
  assertM (rbCHECK_ALIGNED (pucRead r));;
  assertM ((pucHead r <=? pucRead r) && (pucRead r <? pucTail r));;
  xItemLen ← get_xItemLen pxHeader;
  uxItemFlags ← get_uxItemFlags pxHeader;
  assertM ((xItemLen <=? xMaxItemSize r) || flag uxItemFlags rbITEM_DUMMY_DATA_FLAG);;
  pxHeader ←
    (if flag uxItemFlags rbITEM_DUMMY_DATA_FLAG then
       modify (set_read (pucHead r));;
       xItemLen ← get_xItemLen (pucHead r);
       assertM (xItemLen <=? xMaxItemSize r);;
       mret (pucHead r)
     else mret pxHeader);
  let pcReturn := pxHeader + rbHEADER_SIZE in
  xItemLen ← get_xItemLen pxHeader;
  assertM (if xItemLen =? 0 then (pucHead r <=? pcReturn) && (pcReturn <=? pucTail r)
           else (pucHead r <=? pcReturn) && (pcReturn <? pucTail r));;
  modify (λ r, set_waiting (i32 (xItemsWaiting r - 1)) r);;
  uxItemFlags ← get_uxItemFlags pxHeader;
  let xIsSplit := flag uxItemFlags rbITEM_SPLIT_FLAG in
  modify (λ r, set_read (pucRead r + (rbHEADER_SIZE + rbALIGN_SIZE xItemLen)) r);;
  wrap_read;;
  mret (pcReturn, xItemLen, xIsSplit).

Definition prvGetItemByteBuf (xMaxSize : Z) : RB (Z * Z) :=
  r ← get;
  assertM ((0 <? xItemsWaiting r) && (negb (pucRead r =? pucWrite r) || is_full r));;
  assertM ((pucHead r <=? pucRead r) && (pucRead r <? pucTail r));;
  assertM (pucRead r =? pucFree r);;
  let ret := pucRead r in
  if (pucWrite r <? pucRead r) || is_full r then
    if (xMaxSize =? 0) || (u32 (pucTail r - pucRead r) <=? xMaxSize) then
      modify (set_waiting (i32 (xItemsWaiting r - (pucTail r - pucRead r))));;
      modify (set_read (pucHead r));;
      mret (ret, u32 (pucTail r - pucRead r))
    else
      modify (set_waiting (i32 (xItemsWaiting r - xMaxSize)));;
      modify (set_read (pucRead r + xMaxSize));;
      mret (ret, xMaxSize)
  else
    if (xMaxSize =? 0) || (u32 (pucWrite r - pucRead r) <=? xMaxSize) then
      modify (set_waiting (i32 (xItemsWaiting r - (pucWrite r - pucRead r))));;
      modify (set_read (pucWrite r));;
      mret (ret, u32 (pucWrite r - pucRead r))
    else
      modify (set_waiting (i32 (xItemsWaiting r - xMaxSize)));;
      modify (set_read (pucRead r + xMaxSize));;
      mret (ret, xMaxSize).

(** One iteration of the loop that moves [pucFree]; the locals are
    [pxCurHeader], [allow_advance_free_pointer] and [freed_any]. *)
Definition free_advance_step (locals : Z * bool * bool) : RB (Z * bool * bool + bool) :=
  let '(pxCurHeader, allow_advance_free_pointer, freed_any) := locals in
  uxItemFlags ← get_uxItemFlags pxCurHeader;
  r ← get;
  if flag uxItemFlags (Z.lor rbITEM_FREE_FLAG rbITEM_DUMMY_DATA_FLAG) &&
     (negb (pucFree r =? pucRead r) || allow_advance_free_pointer)
  then
    (if flag uxItemFlags rbITEM_DUMMY_DATA_FLAG then
       put_uxItemFlags pxCurHeader (Z.lor uxItemFlags rbITEM_FREE_FLAG);;
       modify (λ r, set_free (pucHead r) r)
     else
       xItemLen ← get_xItemLen pxCurHeader;
       modify (λ r, set_free (pucFree r + (rbALIGN_SIZE xItemLen + rbHEADER_SIZE)) r);;
       r ← get;
       assertM (pucFree r <=? pucHead r + xSize r));;
    wrap_free;;
    r ← get;
    mret (inl (pucFree r, false, true))
  else mret (inr freed_any).

Definition prvReturnItemDefault (pucItem : Z) : RB unit :=
  r ← get;
  assertM (rbCHECK_ALIGNED pucItem);;
  assertM (pucHead r <=? pucItem);;
  assertM (pucItem <=? pucTail r);;
  let pxCurHeader := pucItem - rbHEADER_SIZE in
  xItemLen ← get_xItemLen pxCurHeader;
  assertM (xItemLen <=? xMaxItemSize r);;
  uxItemFlags ← get_uxItemFlags pxCurHeader;
  assertM (negb (flag uxItemFlags rbITEM_DUMMY_DATA_FLAG));;
  assertM (negb (flag uxItemFlags rbITEM_FREE_FLAG));;
  put_uxItemFlags pxCurHeader (Z.lor (clear uxItemFlags rbITEM_SPLIT_FLAG) rbITEM_FREE_FLAG);;
  r ← get;
  let allow_advance_free_pointer := is_full r || (xItemsWaiting r =? 0) in
  freed_any ← iterM (ring_fuel r) free_advance_step (pucFree r, allow_advance_free_pointer, false);
  modify (λ r, if is_full r && (freed_any : bool) then clear_full r else r).

Definition prvReturnItemByteBuf (pucItem : Z) : RB unit :=
  r ← get;
  assertM (pucHead r <=? pucItem);;
  assertM (pucItem <? pucTail r);;
  modify (set_free (pucRead r));;
  modify (λ r, if is_full r then clear_full r else r).

(** The clamp shared by the two item-buffer variants. *)
Definition clamp_free (xFreeSize max : Z) : Z :=
  if xFreeSize <? 0 then 0 else if max <? xFreeSize then max else xFreeSize.

Definition prvGetCurMaxSizeNoSplit (r : Ringbuffer_t) : Z :=
  if is_full r then 0
  else
    let xFreeSize :=
      if pucAcquire r <? pucFree r then i32 (pucFree r - pucAcquire r)
      else
        let xSize1 := u32 (pucTail r - pucAcquire r) in
        let xSize2 := u32 (pucFree r - pucHead r) in
        i32 (if xSize2 <? xSize1 then xSize1 else xSize2) in
    clamp_free (i32 (xFreeSize - rbHEADER_SIZE)) (xMaxItemSize r).

Definition prvGetCurMaxSizeAllowSplit (r : Ringbuffer_t) : Z :=
  if is_full r then 0
  else
    let xFreeSize :=
      if (pucAcquire r =? pucHead r) && (pucFree r =? pucHead r) then i32 (xSize r - rbHEADER_SIZE)
      else if pucAcquire r <? pucFree r then i32 ((pucFree r - pucAcquire r) - rbHEADER_SIZE)
      else i32 ((pucFree r - pucHead r) + (pucTail r - pucAcquire r) - rbHEADER_SIZE * 2) in
    clamp_free xFreeSize (xMaxItemSize r).

Definition prvGetCurMaxSizeByteBuf (r : Ringbuffer_t) : Z :=
  if is_full r then 0
  else
    let xFreeSize := i32 (pucFree r - pucAcquire r) in
    u32 (if xFreeSize <=? 0 then i32 (xFreeSize + xSize r) else xFreeSize).

(** ** The function pointers installed by [prvInitializeNewRingbuffer] *)

Definition xCheckItemFits (xItemSize : Z) : RB bool :=
  t ← gets xType;
  match t with
  | RINGBUF_TYPE_BYTEBUF => prvCheckItemFitsByteBuffer xItemSize
  | _ => prvCheckItemFitsDefault xItemSize
  end.

Definition vCopyItem (pucItem : list Z) (xItemSize : Z) : RB unit :=
  t ← gets xType;
  match t with
  | RINGBUF_TYPE_NOSPLIT => prvCopyItemNoSplit pucItem xItemSize
  | RINGBUF_TYPE_ALLOWSPLIT => prvCopyItemAllowSplit pucItem xItemSize
  | RINGBUF_TYPE_BYTEBUF => prvCopyItemByteBuf pucItem xItemSize
  end.

Definition pvGetItem (xMaxSize : Z) : RB (Z * Z * bool) :=
  t ← gets xType;
  match t with
  | RINGBUF_TYPE_BYTEBUF => x ← prvGetItemByteBuf xMaxSize; mret (x, false)
  | _ => prvGetItemDefault
  end.

Definition vReturnItem (pucItem : Z) : RB unit :=
  t ← gets xType;
  match t with
  | RINGBUF_TYPE_BYTEBUF => prvReturnItemByteBuf pucItem
  | _ => prvReturnItemDefault pucItem
  end.

Definition xGetCurMaxSize : RB Z :=
  gets (λ r, match xType r with
             | RINGBUF_TYPE_NOSPLIT => prvGetCurMaxSizeNoSplit r
             | RINGBUF_TYPE_ALLOWSPLIT => prvGetCurMaxSizeAllowSplit r
             | RINGBUF_TYPE_BYTEBUF => prvGetCurMaxSizeByteBuf r
             end).

(** ** Blocking

    [vTaskPlaceOnEventList] inserts the calling task in priority order (after the
    tasks of the same priority); [xTaskRemoveFromEventList] takes the first.  The
    scheduler's answer to "must the running task yield to the unblocked one" is
    the parameter [yield_required]. *)

Fixpoint vTaskPlaceOnEventList (self : TCB_t) (l : list TCB_t) : list TCB_t :=
  match l with
  | [] => [self]
  | t :: l' => if uxPriority self <=? uxPriority t then t :: vTaskPlaceOnEventList self l' else self :: l
  end.

(** What a sender gets back: [xReturn], the acquired address and the queue set
    to notify once the critical section is left. *)
Record send_result : Type := mkSend { sr_return : bool; sr_item : option Z; sr_notify : option Z }.
Definition send_failed : send_result := mkSend false None None.

(** What a receiver gets back: the first part and, for split items, the second. *)
Record recv_result : Type := mkRecv { rr_item1 : Z; rr_size1 : Z; rr_item2 : option (Z * Z) }.

(** What happens to a task that blocks: the answer of [xTaskCheckForTimeOut]
    ([None] when it timed out, [Some] of the remaining ticks otherwise) and the
    effect on the ring buffer of the other tasks until it runs again. *)
Definition wait_env : Type := list (option Z * (Ringbuffer_t → Ringbuffer_t)).

Section kernel.
Context (yield_required : TCB_t → bool).

(** Unblock the first task waiting to receive; the result says whether the
    running task has to yield. *)
Definition unblock_receiver : RB bool :=
  r ← get;
  match xTasksWaitingToReceive r with
  | [] => mret false
  | t :: l => modify (set_waiting_recv l);; mret (yield_required t)
  end.

Definition unblock_sender : RB bool :=
  r ← get;
  match xTasksWaitingToSend r with
  | [] => mret false
  | t :: l => modify (set_waiting_send l);; mret (yield_required t)
  end.

(** The queue set to notify, or the unblocking of a receiver when there is none. *)
Definition notify_receivers : RB (option Z * bool) :=
  r ← get;
  match xQueueSet r with
  | Some q => mret (Some q, false)
  | None => y ← unblock_receiver; mret (None, y)
  end.

(** [pvItem = None] acquires, [Some bytes] sends.  [Some] is the result of the
    call, [None] a caller that is still blocked when [env] ends. *)
Fixpoint prvSendAcquireGeneric (self : TCB_t) (pvItem : option (list Z)) (xItemSize : Z)
    (env : wait_env) (xTicksToWait : Z) {struct env} : RB (option send_result) :=
  fits ← xCheckItemFits xItemSize;
  if (fits : bool) then
    match pvItem with
    | None => a ← prvAcquireItemNoSplit xItemSize; mret (Some (mkSend true (Some a) None))
    | Some bytes =>
        vCopyItem bytes xItemSize;;
        n ← notify_receivers;
        mret (Some (mkSend true None (fst n)))
    end
  else if xTicksToWait =? 0 then mret (Some send_failed)
  else
    match env with
    | [] => mret None
    | (None, _) :: _ => mret (Some send_failed)
    | (Some ticks, others) :: env' =>
        modify (λ r, set_waiting_send (vTaskPlaceOnEventList self (xTasksWaitingToSend r)) r);;
        modify others;;
        prvSendAcquireGeneric self pvItem xItemSize env' ticks
    end.

(** The retrieval done inside the critical section of both receive functions. *)
Definition retrieve (xMaxSize : Z) : RB recv_result :=
  r ← get;
  first ← (if flag (uxRingbufferFlags r) rbBYTE_BUFFER_FLAG then pvGetItem xMaxSize else pvGetItem 0);
  let '(pvItem1, xItemSize1, xIsSplit) := first in
  r ← get;
  if flag (uxRingbufferFlags r) rbALLOW_SPLIT_FLAG && xIsSplit then
    second ← pvGetItem 0;
    let '(pvItem2, xItemSize2, xIsSplit) := second in
    assertM (pvItem2 <? pvItem1);;
    assertM (negb xIsSplit);;
    mret (mkRecv pvItem1 xItemSize1 (Some (pvItem2, xItemSize2)))
  else mret (mkRecv pvItem1 xItemSize1 None).

(** [Some None] is a return of [pdFALSE]. *)
Fixpoint prvReceiveGeneric (self : TCB_t) (xMaxSize : Z) (env : wait_env) (xTicksToWait : Z)
    {struct env} : RB (option (option recv_result)) :=
  avail ← prvCheckItemAvail;
  if (avail : bool) then x ← retrieve xMaxSize; mret (Some (Some x))
  else if xTicksToWait =? 0 then mret (Some None)
  else
    match env with
    | [] => mret None
    | (None, _) :: _ => mret (Some None)
    | (Some ticks, others) :: env' =>
        modify (λ r, set_waiting_recv (vTaskPlaceOnEventList self (xTasksWaitingToReceive r)) r);;
        modify others;;
        prvReceiveGeneric self xMaxSize env' ticks
    end.

Definition prvReceiveGenericFromISR (xMaxSize : Z) : RB (option recv_result) :=
  avail ← prvCheckItemAvail;
  if (avail : bool) then x ← retrieve xMaxSize; mret (Some x) else mret None.

(** ** Public functions

    The handle arguments are the state itself; a [NULL] data pointer is [None].
    [malloc] answers [None] when the heap is exhausted. *)

Definition xRingbufferCreate (calloc_ok : bool) (malloc : Z → option Z) (contents : mem)
    (xBufferSize : Z) (xBufferType : RingbufferType_t) : M unit (option Ringbuffer_t) :=
  assertM (0 <? xBufferSize);;
  let xBufferSize :=
    if decide (xBufferType = RINGBUF_TYPE_BYTEBUF) then xBufferSize else rbALIGN_SIZE xBufferSize in
  match calloc_ok, malloc xBufferSize with
  | true, Some p => mret (Some (prvInitializeNewRingbuffer xBufferSize xBufferType p contents))
  | _, _ => mret None
  end.

Definition xRingbufferCreateNoSplit (calloc_ok : bool) (malloc : Z → option Z) (contents : mem)
    (xItemSize xItemNum : Z) : M unit (option Ringbuffer_t) :=
  xRingbufferCreate calloc_ok malloc contents
    (u32 (u32 (rbALIGN_SIZE xItemSize + rbHEADER_SIZE) * xItemNum)) RINGBUF_TYPE_NOSPLIT.

Definition xRingbufferCreateStatic (xBufferSize : Z) (xBufferType : RingbufferType_t)
    (pucRingbufferStorage : option Z) (pxStaticRingbuffer : bool) (contents : mem) : M unit Ringbuffer_t :=
  assertM (0 <? xBufferSize);;
  match pucRingbufferStorage, pxStaticRingbuffer with
  | Some p, true =>
      assertM (bool_decide (xBufferType = RINGBUF_TYPE_BYTEBUF) || rbCHECK_ALIGNED xBufferSize);;
      let r := prvInitializeNewRingbuffer xBufferSize xBufferType p contents in
      mret (set_flags (Z.lor (uxRingbufferFlags r) rbBUFFER_STATIC_FLAG) r)
  | _, _ => λ _, AssertFailed
  end.

Definition is_nosplit (r : Ringbuffer_t) : bool :=
  negb (flag (uxRingbufferFlags r) (Z.lor rbBYTE_BUFFER_FLAG rbALLOW_SPLIT_FLAG)).

Definition xRingbufferSendAcquire (self : TCB_t) (xItemSize : Z) (env : wait_env) (xTicksToWait : Z) :
    RB (option send_result) :=
  r ← get;
  assertM (is_nosplit r);;
  if xMaxItemSize r <? xItemSize then mret (Some send_failed)
  else prvSendAcquireGeneric self None xItemSize env xTicksToWait.

Definition xRingbufferSendComplete (pvItem : option Z) : RB send_result :=
  r ← get;
  match pvItem with
  | None => λ _, AssertFailed
  | Some p =>
      assertM (is_nosplit r);;
      prvSendItemDoneNoSplit p;;
      n ← notify_receivers;
      mret (mkSend true None (fst n))
  end.

(** The argument checks of the two send functions; [inl] is an early return. *)
Definition send_checks (pvItem : option (list Z)) (xItemSize : Z) : RB (bool + list Z) :=
  r ← get;
  assertM (bool_decide (is_Some pvItem) || (xItemSize =? 0));;
  if xMaxItemSize r <? xItemSize then mret (inl false)
  else if flag (uxRingbufferFlags r) rbBYTE_BUFFER_FLAG && (xItemSize =? 0) then mret (inl true)
  else mret (inr (default [] pvItem)).

Definition xRingbufferSend (self : TCB_t) (pvItem : option (list Z)) (xItemSize : Z)
    (env : wait_env) (xTicksToWait : Z) : RB (option send_result) :=
  c ← send_checks pvItem xItemSize;
  match c with
  | inl b => mret (Some (mkSend b None None))
  | inr bytes => prvSendAcquireGeneric self (Some bytes) xItemSize env xTicksToWait
  end.

(** The boolean is the value given to [*pxHigherPriorityTaskWoken] (set or left). *)
Definition xRingbufferSendFromISR (pvItem : option (list Z)) (xItemSize : Z) : RB (send_result * bool) :=
  c ← send_checks pvItem xItemSize;
  match c with
  | inl b => mret (mkSend b None None, false)
  | inr bytes =>
      fits ← xCheckItemFits xItemSize;
      if (fits : bool) then
        vCopyItem bytes xItemSize;;
        n ← notify_receivers;
        mret (mkSend true None (fst n), snd n)
      else mret (send_failed, false)
  end.

Definition xRingbufferReceive (self : TCB_t) (env : wait_env) (xTicksToWait : Z) :
    RB (option (option recv_result)) :=
  r ← get;
  assertM (negb (flag (uxRingbufferFlags r) rbALLOW_SPLIT_FLAG));;
  prvReceiveGeneric self 0 env xTicksToWait.

Definition xRingbufferReceiveFromISR : RB (option recv_result) :=
  r ← get;
  assertM (negb (flag (uxRingbufferFlags r) rbALLOW_SPLIT_FLAG));;
  prvReceiveGenericFromISR 0.

Definition xRingbufferReceiveSplit (self : TCB_t) (env : wait_env) (xTicksToWait : Z) :
    RB (option (option recv_result)) :=
  r ← get;
  assertM (flag (uxRingbufferFlags r) rbALLOW_SPLIT_FLAG);;
  prvReceiveGeneric self 0 env xTicksToWait.

Definition xRingbufferReceiveSplitFromISR : RB (option recv_result) :=
  r ← get;
  assertM (flag (uxRingbufferFlags r) rbALLOW_SPLIT_FLAG);;
  prvReceiveGenericFromISR 0.

Definition xRingbufferReceiveUpTo (self : TCB_t) (env : wait_env) (xTicksToWait xMaxSize : Z) :
    RB (option (option recv_result)) :=
  r ← get;
  assertM (flag (uxRingbufferFlags r) rbBYTE_BUFFER_FLAG);;
  if xMaxSize =? 0 then mret (Some None) else prvReceiveGeneric self xMaxSize env xTicksToWait.

Definition xRingbufferReceiveUpToFromISR (xMaxSize : Z) : RB (option recv_result) :=
  r ← get;
  assertM (flag (uxRingbufferFlags r) rbBYTE_BUFFER_FLAG);;
  if xMaxSize =? 0 then mret None else prvReceiveGenericFromISR xMaxSize.

Definition vRingbufferReturnItem (pvItem : option Z) : RB unit :=
  match pvItem with
  | None => λ _, AssertFailed
  | Some p => vReturnItem p;; _ ← unblock_sender; mret ()
  end.

(** The boolean is the value given to [*pxHigherPriorityTaskWoken] (set or left). *)
Definition vRingbufferReturnItemFromISR (pvItem : option Z) : RB bool :=
  match pvItem with
  | None => λ _, AssertFailed
  | Some p => vReturnItem p;; unblock_sender
  end.

End kernel.

(** The addresses given back to the heap: the storage and, for the structure
    itself, [None]. *)
Definition vRingbufferDelete (r : Ringbuffer_t) : list (option Z) :=
  if negb (flag (uxRingbufferFlags r) rbBUFFER_STATIC_FLAG) then [Some (pucHead r); None] else [].

Definition xRingbufferGetMaxItemSize : RB Z := gets xMaxItemSize.

Definition xRingbufferGetCurFreeSize : RB Z := xGetCurMaxSize.

Definition xRingbufferAddToQueueSetRead (queueSet : Z) : RB bool :=
  r ← get;
  match xQueueSet r with
  | Some _ => mret false
  | None =>
      avail ← prvCheckItemAvail;
      if (avail : bool) then mret false else modify (set_queue_set (Some queueSet));; mret true
  end.

Definition xRingbufferRemoveFromQueueSetRead (queueSet : Z) : RB bool :=
  r ← get;
  if bool_decide (xQueueSet r ≠ Some queueSet) then mret false
  else
    avail ← prvCheckItemAvail;
    if (avail : bool) then mret false else modify (set_queue_set None);; mret true.

(** The five values written through the non-[NULL] out-parameters: free, read,
    write and acquire offsets, and the number of items waiting. *)
Definition vRingbufferGetInfo : RB (Z * Z * Z * Z * Z) :=
  gets (λ r, (u32 (pucFree r - pucHead r), u32 (pucRead r - pucHead r), u32 (pucWrite r - pucHead r),
              u32 (pucAcquire r - pucHead r), u32 (xItemsWaiting r))).

Definition xRingbufferGetStaticBuffer (r : Ringbuffer_t) : option Z :=
  if flag (uxRingbufferFlags r) rbBUFFER_STATIC_FLAG then Some (pucHead r) else None.

Definition xRingbufferCreateWithCaps (struct_ok : bool) (heap_caps_malloc : Z → option Z) (contents : mem)
    (xBufferSize : Z) (xBufferType : RingbufferType_t) : M unit (option Ringbuffer_t) :=
  let xBufferSize :=
    if decide (xBufferType = RINGBUF_TYPE_BYTEBUF) then xBufferSize else rbALIGN_SIZE xBufferSize in
  match struct_ok, heap_caps_malloc xBufferSize with
  | true, Some p =>
      r ← xRingbufferCreateStatic xBufferSize xBufferType (Some p) true contents;
      mret (Some r)
  | _, _ => mret None
  end.

(** The storage freed by [vRingbufferDeleteWithCaps] (the structure is freed too). *)
Definition vRingbufferDeleteWithCaps (r : Ringbuffer_t) : M unit (list (option Z)) :=
  match xRingbufferGetStaticBuffer r with
  | Some p => mret (vRingbufferDelete r ++ [None; Some p])
  | None => λ _, AssertFailed
  end.
