(* ===== verification/RingbufByte.v ===== *)
(** * Byte buffers refine a bounded byte FIFO

    The abstract state of a [RINGBUF_TYPE_BYTEBUF] buffer is the pair of the
    bytes handed out and not yet returned ([held]) and the bytes waiting
    ([queue]).  [byte_rel] relates it to the concrete structure; each operation
    preserves the relation and has the effect of the abstract one. *)
From Stdlib Require Import ZArith Lia.
From stdpp Require Import base numbers option list.
From S2P Require Import Prelude Ringbuf.

Open Scope Z_scope.

(** An offset of at most two turns, brought back into the storage. *)
Definition wr (size x : Z) : Z := if size <=? x then x - size else x.

Record byte_abs : Type := mkByteAbs { held : list Z; queue : list Z }.

Record byte_rel (r : Ringbuffer_t) (a : byte_abs) : Prop := {
  br_type : xType r = RINGBUF_TYPE_BYTEBUF;
  br_byte : flag (uxRingbufferFlags r) rbBYTE_BUFFER_FLAG = true;
  br_nosplit : flag (uxRingbufferFlags r) rbALLOW_SPLIT_FLAG = false;
  br_size : 0 < xSize r < 2 ^ 31;
  br_max : xMaxItemSize r = xSize r;
  br_tail : pucTail r = pucHead r + xSize r;
  br_cap : zlen (held a) + zlen (queue a) ≤ xSize r;
  br_free : pucHead r ≤ pucFree r < pucTail r;
  br_held : pucFree r + zlen (held a) ≤ pucTail r;
  br_read : pucRead r = pucHead r + wr (xSize r) (pucFree r - pucHead r + zlen (held a));
  br_write : pucWrite r =
    pucHead r + wr (xSize r) (pucFree r - pucHead r + zlen (held a) + zlen (queue a));
  br_acquire : pucAcquire r = pucWrite r;
  br_waiting : xItemsWaiting r = zlen (queue a);
  br_full : is_full r = (xSize r =? zlen (held a) + zlen (queue a));
  br_data : ∀ i, 0 ≤ i < zlen (held a) + zlen (queue a) →
    storage r (pucHead r + wr (xSize r) (pucFree r - pucHead r + i)) =
    (held a ++ queue a) !!! Z.to_nat i
}.

(** The abstract operations. *)
Definition abs_send (size : Z) (a : byte_abs) (bs : list Z) : option byte_abs :=
  if zlen (held a) + zlen (queue a) + zlen bs <=? size
  then Some (mkByteAbs (held a) (queue a ++ bs)) else None.

Definition abs_return (a : byte_abs) : byte_abs := mkByteAbs [] (queue a).

(** The number of bytes one retrieval hands out: the contiguous part, at most
    [xMaxSize] when that is not zero. *)
Definition chunk (r : Ringbuffer_t) (a : byte_abs) (xMaxSize : Z) : Z :=
  let contiguous := Z.min (zlen (queue a)) (pucTail r - pucRead r) in
  if xMaxSize =? 0 then contiguous else Z.min xMaxSize contiguous.

(** A client that uses a byte buffer the way the API asks: it sends chunks of
    bytes, receives up to a maximum, and returns what it received (and nothing
    else).  It never waits. *)
Inductive client_op : Type :=
| ClientSend (bs : list Z)
| ClientReceive (xMaxSize : Z)
| ClientReturn.

(** The client's view: the pointer it holds, all the bytes the buffer accepted
    and all the bytes it read. *)
Record client : Type := mkClient { c_ptr : option Z; c_sent : list Z; c_received : list Z }.

Section client_run.
Context (yield_required : TCB_t → bool) (self : TCB_t).

Definition client_step (c : client) (op : client_op) : RB client :=
  match op with
  | ClientSend bs =>
      x ← xRingbufferSend yield_required self (Some bs) (zlen bs) [] 0;
      mret (match x with
            | Some res => if sr_return res then mkClient (c_ptr c) (c_sent c ++ bs) (c_received c) else c
            | None => c
            end)
  | ClientReceive xMaxSize =>
      x ← xRingbufferReceiveUpTo self [] 0 (u32 xMaxSize);
      m ← gets storage;
      mret (match x with
            | Some (Some res) =>
                mkClient (Some (rr_item1 res)) (c_sent c)
                  (c_received c ++ ldbytes m (rr_item1 res) (rr_size1 res))
            | _ => c
            end)
  | ClientReturn =>
      match c_ptr c with
      | None => mret c
      | Some p =>
          vRingbufferReturnItem yield_required (Some p);;
          mret (mkClient None (c_sent c) (c_received c))
      end
  end.

Fixpoint client_run (c : client) (ops : list client_op) : RB client :=
  match ops with
  | [] => mret c
  | op :: ops' => c' ← client_step c op; client_run c' ops'
  end.
End client_run.

(** ** Lemmas *)

Lemma wr_spec size x : wr size x = x ∧ x < size ∨ wr size x = x - size ∧ size ≤ x.
Proof. unfold wr. destruct (Z.leb_spec size x); lia. Qed.

(** Give [lia] the two cases of every [wr] in sight. *)
Ltac wr_facts :=
  repeat match goal with
         | |- context [wr ?s ?x] =>
             lazymatch goal with H : wr s x = x ∧ _ ∨ _ |- _ => fail | _ => pose proof (wr_spec s x) end
         | _ : context [wr ?s ?x] |- _ =>
             lazymatch goal with H : wr s x = x ∧ _ ∨ _ |- _ => fail | _ => pose proof (wr_spec s x) end
         end.
(** Reduce projections and setters on an explicit structure. *)
Ltac rb_cbn := unfold is_full, set_full, clear_full in *; cbn [
  xSize xMaxItemSize uxRingbufferFlags xType pucAcquire pucWrite pucRead pucFree pucHead pucTail
  xItemsWaiting xTasksWaitingToSend xTasksWaitingToReceive xQueueSet storage
  set_flags set_acquire set_write set_read set_free set_waiting set_waiting_send set_waiting_recv
  set_queue_set set_storage held queue fst snd] in *.
Ltac rb_steps := repeat (wp_step; rb_cbn).
Ltac wp_if :=
  match goal with |- context [if ?b then _ else _] => destruct b eqn:? end; rb_cbn; rb_steps.
Ltac rb_flags :=
  rewrite ?flag_lor_self, ?flag_ldiff_self, ?flag_lor_disjoint, ?flag_ldiff_disjoint by done;
  rewrite ?zlen_app, ?zlen_nil; wr_facts;
  repeat match goal with |- context [i32 ?x] => rewrite (i32_small x) by lia end.
Ltac rb_destruct r := destruct r as [sz mx fl ty ac wt rd fr hd tl iw ws wv qs st].
Ltac split_ifs := repeat match goal with |- context [if ?b then _ else _] => destruct b eqn:? end.

(** What the data operations leave alone. *)
Record same_env (r r' : Ringbuffer_t) : Prop := {
  se_type : xType r' = xType r;
  se_head : pucHead r' = pucHead r;
  se_size : xSize r' = xSize r;
  se_send : xTasksWaitingToSend r' = xTasksWaitingToSend r;
  se_recv : xTasksWaitingToReceive r' = xTasksWaitingToReceive r;
  se_set : xQueueSet r' = xQueueSet r
}.

Lemma wp_memcpy_in dst src n r (Q : () → Ringbuffer_t → Prop) :
  0 ≤ n ≤ zlen src →
  n = 0 ∨ pucHead r ≤ dst ∧ dst + n ≤ pucTail r →
  Q () (set_storage (stbytes (storage r) dst (take (Z.to_nat n) src)) r) →
  wp (memcpy_in dst src n) r Q.
Proof.
  intros Hn Hd HQ. unfold wp, memcpy_in.
  assert (((n =? 0) || ((pucHead r <=? dst) && (dst + n <=? pucTail r))) && (n <=? zlen src) = true)
    as -> by lia. done.
Qed.

(** Writing [bs] after the contents [l] of the ring, in one or two pieces. *)
Section ring_append.
Context (st : mem) (hd sz off : Z) (l bs : list Z).
Hypothesis Hoff : 0 ≤ off < sz.
Hypothesis Hcap : zlen l + zlen bs ≤ sz.
Hypothesis Hold : ∀ i, 0 ≤ i < zlen l → st (hd + wr sz (off + i)) = l !!! Z.to_nat i.
Let k := wr sz (off + zlen l).

Lemma ring_append_one :
  zlen bs ≤ sz - k →
  ∀ i, 0 ≤ i < zlen (l ++ bs) →
  stbytes st (hd + k) (take (Z.to_nat (zlen bs)) bs) (hd + wr sz (off + i)) = (l ++ bs) !!! Z.to_nat i.
Proof.
  intros Hk i Hi. pose proof (zlen_nonneg l). subst k. rewrite zlen_app in Hi. wr_facts.
  destruct (Z.lt_ge_cases i (zlen l)).
  - rewrite lookup_total_app_l by (unfold zlen in *; lia).
    rewrite stbytes_other by (rewrite length_take; unfold zlen in *; lia). apply Hold. lia.
  - rewrite lookup_total_app_r by (unfold zlen in *; lia).
    rewrite stbytes_in by (rewrite zlen_take; lia).
    rewrite lookup_total_take_lt by lia. f_equal. unfold zlen in *. lia.
Qed.

Lemma ring_append_two :
  sz - k < zlen bs →
  ∀ i, 0 ≤ i < zlen (l ++ bs) →
  stbytes (stbytes st (hd + k) (take (Z.to_nat (sz - k)) bs)) hd
    (take (Z.to_nat (zlen bs - (sz - k))) (drop (Z.to_nat (sz - k)) bs)) (hd + wr sz (off + i)) =
  (l ++ bs) !!! Z.to_nat i.
Proof.
  intros Hk i Hi. pose proof (zlen_nonneg l). subst k. rewrite zlen_app in Hi. wr_facts.
  assert (zlen (drop (Z.to_nat (sz - wr sz (off + zlen l))) bs) = zlen bs - (sz - wr sz (off + zlen l)))
    as Hd by (rewrite zlen_drop; lia).
  destruct (Z.lt_ge_cases i (zlen l)).
  - rewrite lookup_total_app_l by (unfold zlen in *; lia).
    rewrite 2!stbytes_other by (rewrite length_take; unfold zlen in *; lia). apply Hold. lia.
  - rewrite lookup_total_app_r by (unfold zlen in *; lia).
    destruct (Z.lt_ge_cases (i - zlen l) (sz - wr sz (off + zlen l))).
    + rewrite stbytes_other by (rewrite length_take; unfold zlen in *; lia).
      rewrite stbytes_in by (rewrite zlen_take; lia).
      rewrite lookup_total_take_lt by lia. f_equal. unfold zlen in *. lia.
    + rewrite stbytes_in by (rewrite zlen_take; lia).
      rewrite lookup_total_take_lt, lookup_total_drop by lia. f_equal. unfold zlen in *. lia.
Qed.
End ring_append.

Section byte_buffer.
Context (r : Ringbuffer_t) (a : byte_abs).
Hypothesis Hrel : byte_rel r a.

(** The fit test is exact: it holds when the bytes fit beside the held and the
    waiting ones. *)
Lemma fits_byte n :
  0 < n ≤ xSize r →
  wp (xCheckItemFits n) r (λ b r', r' = r ∧
    b = (zlen (held a) + zlen (queue a) + n <=? xSize r)).
Proof.
  intros Hn. destruct Hrel. unfold xCheckItemFits, prvCheckItemFitsByteBuffer.
  pose proof (zlen_nonneg (held a)). pose proof (zlen_nonneg (queue a)).
  wp_steps. rewrite br_type0. wp_steps. wr_facts.
  apply wp_assert; [lia|]. wp_steps. split; [done|].
  rewrite br_full0. split_ifs; rewrite ?u32_small by lia; lia.
Qed.

(** Copying appends to the queue. *)
Lemma copy_byte bs :
  0 < zlen bs → zlen (held a) + zlen (queue a) + zlen bs ≤ xSize r →
  wp (vCopyItem bs (zlen bs)) r (λ _ r',
    byte_rel r' (mkByteAbs (held a) (queue a ++ bs)) ∧ same_env r r').
Proof.
  intros Hn Hfit. destruct a as [h q]. rb_destruct r. destruct Hrel. rb_cbn. subst ty.
  unfold vCopyItem, prvCopyItemByteBuf, mark_full.
  pose proof (zlen_nonneg h). pose proof (zlen_nonneg q). wr_facts.
  rb_steps. apply wp_assert; [lia|]. rewrite u32_small by lia. rb_steps.
  assert (ac = hd + wr sz (fr - hd + zlen (h ++ q))) as Hac
    by (rewrite zlen_app, Z.add_assoc; lia).
  assert (tl - ac = sz - wr sz (fr - hd + zlen (h ++ q))) as Hrem by lia.
  destruct (Z.ltb_spec (tl - ac) (zlen bs)).
  - rb_steps. apply wp_memcpy_in; rb_cbn; [lia..|]. rb_steps. rewrite u32_small by lia. 
    apply wp_memcpy_in; rb_cbn; [rewrite ?zlen_drop; lia..|]. rb_steps.
    repeat wp_if. all: (split; [split|split]); rb_cbn; rb_flags; try done; try lia.
    all: try (rewrite br_full0; lia).
    all: intros i Hi; rewrite Hrem in *; rewrite Hac, app_assoc.
    all: apply ring_append_two; rewrite ?zlen_app in *; auto with lia.
  - rb_steps. apply wp_memcpy_in; rb_cbn; [lia..|]. rb_steps.
    repeat wp_if. all: (split; [split|split]); rb_cbn; rb_flags; try done; try lia.
    all: try (rewrite br_full0; lia).
    all: intros i Hi; rewrite Hrem in *; rewrite Hac, app_assoc.
    all: apply ring_append_one; rewrite ?zlen_app in *; auto with lia.
Qed.

(** Data is available when nothing is held and something waits. *)
Lemma avail_byte :
  wp prvCheckItemAvail r (λ b r', r' = r ∧ b = (zlen (held a) =? 0) && (0 <? zlen (queue a))).
Proof.
  destruct a as [h q]. rb_destruct r. destruct Hrel. rb_cbn. subst ty.
  unfold prvCheckItemAvail. pose proof (zlen_nonneg h). pose proof (zlen_nonneg q).
  rb_steps. rewrite br_byte0, br_full0. wr_facts.
  assert (flag fl (Z.lor rbBYTE_BUFFER_FLAG rbALLOW_SPLIT_FLAG) = true) as ->.
  { unfold flag in *. rewrite Z.land_lor_distr_r.
    destruct (Z.eqb_spec (Z.lor (Z.land fl rbBYTE_BUFFER_FLAG) (Z.land fl rbALLOW_SPLIT_FLAG)) 0) as [E|];
      [|done].
    apply Z.lor_eq_0_iff in E as [E _]. by rewrite E in br_byte0. }
  cbn [andb negb].
  split_ifs; apply wp_ret; (split; [done|lia]).
Qed.

Lemma get_byte xMaxSize :
  0 ≤ xMaxSize → held a = [] → 0 < zlen (queue a) →
  wp (prvGetItemByteBuf xMaxSize) r (λ x r',
    x = (pucRead r, chunk r a xMaxSize) ∧ 0 < chunk r a xMaxSize ≤ zlen (queue a) ∧
    byte_rel r' (mkByteAbs (take (Z.to_nat (chunk r a xMaxSize)) (queue a))
                           (drop (Z.to_nat (chunk r a xMaxSize)) (queue a))) ∧
    ldbytes (storage r') (pucRead r) (chunk r a xMaxSize) =
      take (Z.to_nat (chunk r a xMaxSize)) (queue a) ∧
    same_env r r').
Proof.
  intros Hm Hh Hq. unfold chunk. destruct a as [h q]. rb_destruct r. destruct Hrel. rb_cbn. subst ty h.
  unfold prvGetItemByteBuf. rewrite ?zlen_nil in *. wr_facts. rb_steps. rewrite br_full0.
  apply wp_assert; [lia|]. rb_steps. apply wp_assert; [lia|]. rb_steps. apply wp_assert; [lia|]. rb_steps.
  assert (rd = fr) as -> by lia.
  match goal with |- context [take (Z.to_nat ?x) q] => remember x as n eqn:Hn end.
  assert (n = xMaxSize ∧ xMaxSize ≠ 0 ∨ n = Z.min (zlen q) (tl - fr)) as Hn'
    by (rewrite Hn; split_ifs; lia).
  assert (0 < n ≤ zlen q ∧ fr + n ≤ tl ∧ (xMaxSize ≠ 0 → n ≤ xMaxSize)) as Hnb
    by (rewrite Hn; split_ifs; lia).
  clear Hn.
  assert (ldbytes st fr n = take (Z.to_nat n) q) as Hdata.
  { rewrite <- (zlen_take n q) at 1 by lia. apply ldbytes_eq. intros i Hi. rewrite zlen_take in Hi by lia.
    rewrite lookup_total_take_lt by lia. rewrite app_nil_l in br_data0. rewrite <- br_data0 by lia.
    f_equal. wr_facts. lia. }
  wp_if; rewrite ?u32_small by lia; wp_if.
  all: split; [f_equal; lia|]; split; [lia|]; split; [|split; [done|by split]].
  all: split; rb_cbn; rewrite ?take_drop, ?zlen_take, ?zlen_drop by lia; rb_flags; try done; try lia.
  all: try (intros i Hi; apply br_data0; lia).
  all: try (rewrite br_full0; lia).
Qed.

(** Returning frees what was held. *)
Lemma return_byte p :
  pucHead r ≤ p < pucTail r → held a ≠ [] →
  wp (vReturnItem p) r (λ _ r', byte_rel r' (abs_return a) ∧ same_env r r').
Proof.
  intros Hp Hh. destruct a as [h q]. rb_destruct r. destruct Hrel. rb_cbn. subst ty.
  unfold vReturnItem, prvReturnItemByteBuf, abs_return.
  assert (0 < zlen h) by (destruct h; [done|rewrite zlen_cons; pose proof (zlen_nonneg h); lia]).
  pose proof (zlen_nonneg q). wr_facts.
  rb_steps. apply wp_assert; [lia|]. rb_steps. apply wp_assert; [lia|]. rb_steps. wp_if.
  all: split; [split|by split]; rb_cbn; rb_flags; try done; try lia.
  all: try (rewrite Heqb; lia).
  all: intros i Hi; change (zlen (@nil Z)) with 0 in Hi; specialize (br_data0 (zlen h + i) ltac:(lia)).
  all: rewrite lookup_total_app_r in br_data0 by (unfold zlen; lia).
  all: replace (Z.to_nat (zlen h + i) - length h)%nat with (Z.to_nat i) in br_data0 by (unfold zlen; lia).
  all: rewrite app_nil_l, <- br_data0; f_equal; wr_facts; lia.
Qed.

End byte_buffer.

Definition frame (r r' : Ringbuffer_t) : Prop := pucHead r' = pucHead r ∧ xSize r' = xSize r.

#[export] Instance frame_preorder : PreOrder frame.
Proof. split; [by split|]. intros x y z [] []. split; congruence. Qed.

Lemma same_env_frame r r' : same_env r r' → frame r r'.
Proof. by intros []. Qed.

Lemma byte_rel_tail r r' a a' : frame r r' → byte_rel r a → byte_rel r' a' → pucTail r' = pucTail r.
Proof. intros [] [] []. congruence. Qed.

(** The relation does not look at the lists of blocked tasks. *)
Lemma byte_rel_waiting_recv r a l : byte_rel r a → byte_rel (set_waiting_recv l r) a.
Proof. intros []. by split. Qed.
Lemma byte_rel_waiting_send r a l : byte_rel r a → byte_rel (set_waiting_send l r) a.
Proof. intros []. by split. Qed.

Lemma notify_byte yr r a (Q : option Z * bool → Ringbuffer_t → Prop) :
  byte_rel r a → (∀ x r', byte_rel r' a → frame r r' → Q x r') → wp (notify_receivers yr) r Q.
Proof.
  intros Hr HQ. unfold notify_receivers, unblock_receiver. wp_steps.
  destruct (xQueueSet r); wp_steps; [by apply HQ|].
  destruct (xTasksWaitingToReceive r); wp_steps; apply HQ; by try apply byte_rel_waiting_recv.
Qed.

Lemma unblock_sender_byte yr r a (Q : bool → Ringbuffer_t → Prop) :
  byte_rel r a → (∀ x r', byte_rel r' a → frame r r' → Q x r') → wp (unblock_sender yr) r Q.
Proof.
  intros Hr HQ. unfold unblock_sender. wp_steps.
  destruct (xTasksWaitingToSend r); wp_steps; apply HQ; by try apply byte_rel_waiting_send.
Qed.

(** [xRingbufferSend] on a byte buffer, without waiting. *)
Lemma send_byte yr self r a bs :
  byte_rel r a →
  wp (xRingbufferSend yr self (Some bs) (zlen bs) [] 0) r (λ x r',
    match abs_send (xSize r) a bs with
    | Some a' => byte_rel r' a' ∧ frame r r' ∧ ∃ n, x = Some (mkSend true None n)
    | None => byte_rel r' a ∧ frame r r' ∧ x = Some send_failed
    end).
Proof.
  intros Hr. unfold xRingbufferSend, send_checks, abs_send. pose proof Hr as [].
  pose proof (zlen_nonneg (held a)). pose proof (zlen_nonneg (queue a)). pose proof (zlen_nonneg bs).
  wp_steps. apply wp_assert; [done|]. wp_steps. rewrite br_max0, br_byte0.
  destruct (Z.ltb_spec (xSize r) (zlen bs)).
  { wp_steps. by rewrite (proj2 (Z.leb_gt _ _)) by lia. }
  destruct (Z.eqb_spec (zlen bs) 0) as [E|]; simpl; wp_steps.
  { rewrite (proj2 (Z.leb_le _ _)) by lia. split; [|split; [done|by eexists]].
    destruct bs; [|unfold zlen in E; simpl in *; lia]. rewrite app_nil_r. by destruct a. }
  eapply wp_mono; [apply (fits_byte r a Hr); lia|]. intros b r' [-> ->].
  destruct (Z.leb_spec (zlen (held a) + zlen (queue a) + zlen bs) (xSize r)); wp_steps; [|done].
  eapply wp_mono; [apply (copy_byte r a Hr); lia|]. intros _ r' [Hr' He]. wp_steps.
  eapply notify_byte; [exact Hr'|]. intros x r'' Hr'' Hf. wp_steps.
  split; [done|]. split; [|by eexists]. by etrans; [apply same_env_frame|].
Qed.

(** [xRingbufferReceiveUpTo], without waiting: nothing while bytes are held or
    none wait, otherwise the next [chunk]. *)
Lemma receive_byte self r a m :
  byte_rel r a → 0 ≤ m →
  wp (xRingbufferReceiveUpTo self [] 0 m) r (λ x r',
    if (m =? 0) || negb ((zlen (held a) =? 0) && (0 <? zlen (queue a)))
    then x = Some None ∧ r' = r
    else ∃ p n, x = Some (Some (mkRecv p n None)) ∧ 0 < n ≤ m ∧ n ≤ zlen (queue a) ∧
      pucHead r' ≤ p < pucTail r' ∧ frame r r' ∧
      ldbytes (storage r') p n = take (Z.to_nat n) (queue a) ∧
      byte_rel r' (mkByteAbs (take (Z.to_nat n) (queue a)) (drop (Z.to_nat n) (queue a)))).
Proof.
  intros Hr Hm. unfold xRingbufferReceiveUpTo. pose proof Hr as [].
  wp_steps. apply wp_assert; [done|]. wp_steps. destruct (Z.eqb_spec m 0); simpl; wp_steps; [done|].
  eapply wp_mono; [apply (avail_byte r a Hr)|]. intros b r' [-> ->].
  destruct ((zlen (held a) =? 0) && (0 <? zlen (queue a))) eqn:Hav; simpl; wp_steps; [|done].
  apply andb_true_iff in Hav as [Hh Hq].
  unfold retrieve, pvGetItem. wp_steps. rewrite br_byte0. wp_steps. rewrite br_type0. wp_steps.
  assert (held a = []) as Hh0 by (destruct (held a); [done|unfold zlen in Hh; simpl in Hh; lia]).
  eapply wp_mono; [apply (get_byte r a Hr m Hm Hh0); lia|].
  intros x r' (-> & Hn & Hr' & Hd & []). wp_steps.
  pose proof Hr' as Hr''. destruct Hr''. rewrite br_nosplit1. simpl. wp_steps.
  exists (pucRead r), (chunk r a m). split; [done|].
  assert (chunk r a m ≤ m) by (unfold chunk; split_ifs; lia).
  repeat split; try done; try lia; rewrite ?br_tail1, ?se_head0, ?se_size0; wr_facts; rewrite Hh0, ?zlen_nil in *; lia.
Qed.

Lemma init_byte sz p m :
  0 < sz < 2 ^ 31 →
  byte_rel (prvInitializeNewRingbuffer sz RINGBUF_TYPE_BYTEBUF p m) (mkByteAbs [] []).
Proof.
  intros Hsz. unfold prvInitializeNewRingbuffer. split; rb_cbn; try done; try lia.
  all: change (zlen (@nil Z)) with 0 in *; wr_facts; try lia.
  change (Z.lor 0 rbBYTE_BUFFER_FLAG) with 2. change (flag 2 rbBUFFER_FULL_FLAG) with false. lia.
Qed.

(** The client holds a pointer exactly when bytes are held, and has read
    everything it sent except what still waits. *)
Record client_inv (c : client) (r : Ringbuffer_t) (a : byte_abs) : Prop := {
  ci_rel : byte_rel r a;
  ci_ptr : match c_ptr c with Some p => held a ≠ [] ∧ pucHead r ≤ p < pucTail r | None => held a = [] end;
  ci_fifo : c_sent c = c_received c ++ queue a
}.

Lemma client_step_ok yr self c op r a :
  client_inv c r a →
  wp (client_step yr self c op) r (λ c' r', ∃ a', client_inv c' r' a' ∧ frame r r').
Proof.
  intros [Hr Hp Hf]. destruct op as [bs|m|]; simpl.
  - wp_steps. eapply wp_mono; [by apply send_byte|]. intros x r' H. wp_steps.
    unfold abs_send in H. destruct (_ <=? _).
    + destruct H as (Hr' & Hfr & n & ->). exists (mkByteAbs (held a) (queue a ++ bs)).
      split; [|done]. split; simpl; [done| |by rewrite Hf, app_assoc].
      by rewrite (byte_rel_tail _ _ _ _ Hfr Hr Hr'), (proj1 Hfr).
    + destruct H as (Hr' & Hfr & ->). exists a. split; [|done]. split; simpl; [done| |done].
      by rewrite (byte_rel_tail _ _ _ _ Hfr Hr Hr'), (proj1 Hfr).
  - wp_steps. eapply wp_mono; [apply (receive_byte self r a (u32 m)); [done|apply u32_range]|].
    intros x r' H. wp_steps. destruct (_ || _).
    + destruct H as [-> ->]. exists a. split; [by split|done].
    + destruct H as (p & n & -> & Hn & Hn' & Hb & Hfr & Hd & Hr'). eexists. split; [|done].
      split; [exact Hr'| |]; simpl.
      * split; [|done]. intros E. apply (f_equal zlen) in E. rewrite zlen_take, zlen_nil in E; lia.
      * by rewrite Hd, <- app_assoc, take_drop.
  - destruct (c_ptr c) as [p|] eqn:Ep; wp_steps; [|exists a; split; [split; rewrite ?Ep; done|done]].
    unfold vRingbufferReturnItem. destruct Hp as [Hh Hp]. wp_steps.
    eapply wp_mono; [by apply (return_byte r a Hr)|]. intros _ r' [Hr' He]. wp_steps.
    eapply unblock_sender_byte; [exact Hr'|]. intros _ r'' Hr'' Hfr. wp_steps.
    exists (abs_return a). split; [by split|]. by etrans; [apply same_env_frame|].
Qed.

Lemma client_run_ok yr self ops c r a :
  client_inv c r a →
  wp (client_run yr self c ops) r (λ c' r', ∃ a', client_inv c' r' a' ∧ frame r r').
Proof.
  revert c r a. induction ops as [|op ops IH]; intros c r a H; simpl; wp_steps; [by exists a|].
  eapply wp_mono; [by eapply client_step_ok|]. intros c' r' (a' & H' & Hf).
  eapply wp_mono; [by eapply IH|]. intros c'' r'' (a'' & H'' & Hf''). exists a''. split; [done|by etrans].
Qed.

(** C2: a byte buffer is a FIFO of bytes.  Whatever a well-behaved client does
    with a freshly created byte buffer, no assertion fails, no byte outside the
    storage is touched, and the bytes it has read, followed by the bytes that
    wait in the buffer, are exactly the bytes the buffer accepted, in order;
    what is held and what waits never exceeds the buffer's size. *)
Theorem byte_buffer_fifo (yr : TCB_t → bool) (self : TCB_t) (sz p : Z) (contents : mem) (ops : list client_op) :
  0 < sz < 2 ^ 31 →
  ∃ r' c' a',
    client_run yr self (mkClient None [] []) ops
      (prvInitializeNewRingbuffer sz RINGBUF_TYPE_BYTEBUF p contents) = Done r' c' ∧
    byte_rel r' a' ∧
    c_sent c' = c_received c' ++ queue a' ∧
    zlen (held a') + zlen (queue a') ≤ sz.
Proof.
  intros Hsz. pose proof (init_byte sz p contents Hsz) as Hi.
  assert (client_inv (mkClient None [] []) (prvInitializeNewRingbuffer sz RINGBUF_TYPE_BYTEBUF p contents)
    (mkByteAbs [] [])) as Hc by by split.
  pose proof (client_run_ok yr self ops _ _ _ Hc) as H.
  apply wp_done in H as (c' & r' & E & a' & [Hr _ Hf] & Hfr). exists r', c', a'.
  split; [done|]. split; [done|]. split; [done|]. pose proof (br_cap _ _ Hr). destruct Hfr as [_ Hfr]. simpl in *. lia.
Qed.

Lemma byte_buffer_fifo_witness :
  0 < 6 < 2 ^ 31 ∧
  ∃ r' c' a',
    client_run (λ _, false) (mkTCB 1 1) (mkClient None [] [])
      [ClientSend [1; 2; 3; 4]; ClientReceive 3; ClientReturn; ClientSend [5; 6; 7]; ClientReceive 9]
      (prvInitializeNewRingbuffer 6 RINGBUF_TYPE_BYTEBUF 4096 (λ _, 0)) = Done r' c' ∧
    byte_rel r' a' ∧ c_sent c' = c_received c' ++ queue a' ∧ zlen (held a') + zlen (queue a') ≤ 6.
Proof. split; [lia|]. apply byte_buffer_fifo. lia. Defined.
