(* ===== verification/RingbufChain.v ===== *)
(** * The chain of blocks of no-split and allow-split buffers

    The storage of an item buffer is a chain of blocks, each a header followed
    by data, that starts at [pucFree] and ends at [pucAcquire], wrapping at most
    once.  The blocks up to [pucRead] have been handed out ([out]), the rest wait
    ([wait]).  [ring_core] states that the bytes of the storage, the pointers and
    the flags describe such a chain. *)
From Stdlib Require Import ZArith Lia.
From stdpp Require Import base numbers option list sorting.
From S2P Require Import Prelude Ringbuf RingbufByte.

Open Scope Z_scope.

(** ** Blocks *)

Record blk : Type := mkBlk { b_off : Z; b_len : Z; b_flags : Z; b_data : list Z }.

Definition is_dummy (b : blk) : bool := flag (b_flags b) rbITEM_DUMMY_DATA_FLAG.
Definition is_freed (b : blk) : bool := flag (b_flags b) rbITEM_FREE_FLAG.

(** Bytes of the ring a block takes up, including the unusable rest at the end
    of the storage. *)
Definition ext (sz : Z) (b : blk) : Z :=
  if is_dummy b then sz - b_off b
  else
    let e := rbHEADER_SIZE + rbALIGN_SIZE (b_len b) in
    if sz - (b_off b + e) <? rbHEADER_SIZE then sz - b_off b else e.

Definition next (sz : Z) (b : blk) : Z := wr sz (b_off b + ext sz b).

Fixpoint total (sz : Z) (bs : list blk) : Z :=
  match bs with [] => 0 | b :: bs' => ext sz b + total sz bs' end.

Record blk_ok (sz mx : Z) (b : blk) : Prop := {
  bo_off : 0 ≤ b_off b;
  bo_align : b_off b mod 4 = 0;
  bo_room : b_off b + rbHEADER_SIZE ≤ sz;
  bo_len : 0 ≤ b_len b ≤ mx ∧ b_len b < 2 ^ 30;
  bo_flags : 0 ≤ b_flags b < 16;
  bo_data : is_dummy b = false →
    b_off b + (rbHEADER_SIZE + rbALIGN_SIZE (b_len b)) ≤ sz ∧ zlen (b_data b) = b_len b
}.

Fixpoint chain (sz mx : Z) (p : Z) (bs : list blk) (q : Z) : Prop :=
  match bs with
  | [] => p = q
  | b :: bs' => b_off b = p ∧ blk_ok sz mx b ∧ chain sz mx (next sz b) bs' q
  end.

(** The block as the storage holds it. *)
Record stored (st : mem) (hd : Z) (b : blk) : Prop := {
  so_len : ld32 st (hd + b_off b) = b_len b;
  so_flags : ld32 st (hd + b_off b + 4) = b_flags b;
  so_data : is_dummy b = false → ldbytes st (hd + b_off b + rbHEADER_SIZE) (b_len b) = b_data b
}.

Definition count_items (bs : list blk) : Z := zlen (filter (λ b, is_dummy b = false) bs).

Definition set_b_flags (v : Z) (b : blk) : blk := mkBlk (b_off b) (b_len b) v (b_data b).

(** ** The structure invariant *)

Record ring_core (r : Ringbuffer_t) (out wait : list blk) : Prop := {
  rc_type : xType r = RINGBUF_TYPE_NOSPLIT ∨ xType r = RINGBUF_TYPE_ALLOWSPLIT;
  rc_byte : flag (uxRingbufferFlags r) rbBYTE_BUFFER_FLAG = false;
  rc_split : flag (uxRingbufferFlags r) rbALLOW_SPLIT_FLAG =
             bool_decide (xType r = RINGBUF_TYPE_ALLOWSPLIT);
  rc_size : 16 ≤ xSize r < 2 ^ 30;
  rc_modsz : xSize r mod 4 = 0;
  rc_max : xMaxItemSize r =
    match xType r with
    | RINGBUF_TYPE_NOSPLIT => rbALIGN_SIZE (xSize r / 2) - rbHEADER_SIZE
    | _ => xSize r - 2 * rbHEADER_SIZE
    end;
  rc_head : pucHead r mod 4 = 0;
  rc_tail : pucTail r = pucHead r + xSize r;
  rc_free : 0 ≤ pucFree r - pucHead r ∧ pucFree r - pucHead r + rbHEADER_SIZE ≤ xSize r ∧
            pucFree r mod 4 = 0;
  rc_out : chain (xSize r) (xMaxItemSize r) (pucFree r - pucHead r) out (pucRead r - pucHead r);
  rc_wait : chain (xSize r) (xMaxItemSize r) (pucRead r - pucHead r) wait (pucWrite r - pucHead r);
  rc_acquire : pucAcquire r = pucWrite r;
  rc_total : total (xSize r) (out ++ wait) ≤ xSize r;
  rc_stored : Forall (stored (storage r) (pucHead r)) (out ++ wait);
  rc_count : xItemsWaiting r = count_items wait
}.

(** A waiting item is one block, possibly after a dummy block, or (allow-split)
    two blocks, the second at the start of the storage. *)
Inductive group (t : RingbufferType_t) : list blk → list Z → Prop :=
| group_one b :
    b_flags b = (if decide (t = RINGBUF_TYPE_NOSPLIT) then rbITEM_WRITTEN_FLAG else 0) →
    group t [b] (b_data b)
| group_dummy d b :
    b_flags d = Z.lor rbITEM_DUMMY_DATA_FLAG
                  (if decide (t = RINGBUF_TYPE_NOSPLIT) then rbITEM_WRITTEN_FLAG else 0) →
    b_flags b = (if decide (t = RINGBUF_TYPE_NOSPLIT) then rbITEM_WRITTEN_FLAG else 0) →
    group t [d; b] (b_data b)
| group_split b1 b2 :
    t = RINGBUF_TYPE_ALLOWSPLIT → b_flags b1 = rbITEM_SPLIT_FLAG → b_flags b2 = 0 → b_off b2 = 0 →
    group t [b1; b2] (b_data b1 ++ b_data b2).

(** The waiting blocks, item by item. *)
Inductive waiting (t : RingbufferType_t) : list blk → list (list Z) → Prop :=
| waiting_nil : waiting t [] []
| waiting_cons g d bs ds : group t g d → waiting t bs ds → waiting t (g ++ bs) (d :: ds).

(** ** Arithmetic *)

Ltac Zify.zify_post_hook ::= Z.to_euclidean_division_equations.

Lemma align_spec x : 0 ≤ x < 2 ^ 31 → rbALIGN_SIZE x mod 4 = 0 ∧ x ≤ rbALIGN_SIZE x < x + 4.
Proof.
  intros Hx. unfold rbALIGN_SIZE, rbALIGN_MASK. rewrite u32_small by lia.
  change 3 with (Z.ones 2). rewrite Z.ldiff_ones_r by lia.
  rewrite Z.shiftl_mul_pow2, Z.shiftr_div_pow2 by lia. change (Z.ones 2) with 3. change (2 ^ 2) with 4. lia.
Qed.

Lemma aligned_spec p : rbCHECK_ALIGNED p = (p mod 4 =? 0).
Proof. unfold rbCHECK_ALIGNED, rbALIGN_MASK. change 3 with (Z.ones 2). by rewrite Z.land_ones by lia. Qed.

Lemma less_than_header_spec p q :
  0 ≤ p - q < 2 ^ 32 → less_than_header p q = (p - q <? rbHEADER_SIZE).
Proof. intros. unfold less_than_header. by rewrite u32_small by lia. Qed.

(** Facts about the size of a well-formed block. *)
Lemma ext_spec sz mx b :
  blk_ok sz mx b → sz < 2 ^ 30 → sz mod 4 = 0 →
  rbHEADER_SIZE ≤ ext sz b ∧ b_off b + ext sz b ≤ sz ∧ ext sz b mod 4 = 0 ∧
  (is_dummy b = false → rbHEADER_SIZE + b_len b ≤ ext sz b) ∧
  (b_off b + ext sz b = sz ∨ b_off b + ext sz b + rbHEADER_SIZE ≤ sz).
Proof.
  intros [] Hsz H4. unfold ext, rbHEADER_SIZE in *. destruct (is_dummy b) eqn:Ed.
  - repeat split; try lia; try done.
  - specialize (bo_data0 eq_refl) as [Hd _]. pose proof (align_spec (b_len b) ltac:(lia)).
    destruct (Z.ltb_spec (sz - (b_off b + (8 + rbALIGN_SIZE (b_len b)))) 8); repeat split; lia.
Qed.

Section chains.
Context (sz mx : Z).
Hypothesis Hsz : 16 ≤ sz < 2 ^ 30.
Hypothesis Hsz4 : sz mod 4 = 0.

Lemma total_app l k : total sz (l ++ k) = total sz l + total sz k.
Proof. induction l; simpl; lia. Qed.

Lemma chain_app p l k q : chain sz mx p (l ++ k) q ↔ ∃ x, chain sz mx p l x ∧ chain sz mx x k q.
Proof.
  revert p. induction l as [|b l IH]; intros p; simpl.
  - split; [by exists p|]. by intros (x & -> & ?).
  - rewrite IH. split; [intros (? & ? & x & ? & ?)|intros (x & (? & ? & ?) & ?)]; eauto 10.
Qed.

Lemma chain_total_nonneg p l q : chain sz mx p l q → 0 ≤ total sz l ∧ (l ≠ [] → rbHEADER_SIZE ≤ total sz l).
Proof.
  revert p. induction l as [|b l IH]; intros p; simpl; [done|].
  intros (_ & Hb & Hc). apply IH in Hc as [Hc _]. pose proof (ext_spec _ _ _ Hb ltac:(lia) Hsz4).
  unfold rbHEADER_SIZE in *. split; lia.
Qed.

(** Positions that can hold a header. *)
Definition pos_ok (p : Z) : Prop := 0 ≤ p ∧ p + rbHEADER_SIZE ≤ sz ∧ p mod 4 = 0.

Lemma next_pos b : blk_ok sz mx b → pos_ok (next sz b).
Proof.
  intros Hb. pose proof (ext_spec _ _ _ Hb ltac:(lia) Hsz4). destruct Hb.
  unfold pos_ok, next, rbHEADER_SIZE in *. wr_facts. lia.
Qed.

(** The end of a chain that makes at most one turn. *)
Lemma chain_end p l q :
  pos_ok p → chain sz mx p l q → total sz l ≤ sz → pos_ok q ∧ q = wr sz (p + total sz l).
Proof.
  revert p. induction l as [|b l IH]; intros p Hp; simpl.
  - intros -> _. split; [done|]. destruct Hp. unfold rbHEADER_SIZE in *. wr_facts. lia.
  - intros (Ho & Hb & Hc) Ht. pose proof (chain_total_nonneg _ _ _ Hc) as [H0 H1].
    destruct (IH _ (next_pos _ Hb) Hc) as [Hq ->].
    { pose proof (ext_spec _ _ _ Hb ltac:(lia) Hsz4). unfold rbHEADER_SIZE in *. lia. }
    split; [done|]. pose proof (ext_spec _ _ _ Hb ltac:(lia) Hsz4). unfold next, rbHEADER_SIZE in *.
    destruct Hp. wr_facts. lia.
Qed.

(** A block of a chain sits at a position counted from the start of the chain,
    brought back into the storage, and does not cross its end. *)
Lemma chain_pos p l q b :
  pos_ok p → chain sz mx p l q → total sz l ≤ sz → b ∈ l →
  ∃ v, p ≤ v ∧ v + ext sz b ≤ p + total sz l ∧
       (b_off b = v ∧ v + ext sz b ≤ sz ∨ b_off b = v - sz ∧ sz ≤ v) ∧ blk_ok sz mx b.
Proof.
  revert p. induction l as [|c l IH]; intros p Hp; simpl; [by intros _ _ ?%not_elem_of_nil|].
  intros (Ho & Hc & Hl) Ht [->|Hb]%elem_of_cons.
  - exists p. pose proof (chain_total_nonneg _ _ _ Hl).
    pose proof (ext_spec _ _ _ Hc ltac:(lia) Hsz4). split_and!; [lia|lia|left; lia|done].
  - pose proof (ext_spec _ _ _ Hc ltac:(lia) Hsz4). pose proof (next_pos _ Hc) as Hn.
    destruct (IH _ Hn Hl ltac:(unfold rbHEADER_SIZE in *; lia) Hb) as (v & H1 & H2 & H3 & H4).
    assert (b_off c + ext sz c = sz ∧ next sz c = 0 ∨ next sz c = b_off c + ext sz c) as [[Hw Hz]|Hz].
    { unfold next. wr_facts. unfold pos_ok, rbHEADER_SIZE in *. lia. }
    + exists (v + sz). destruct Hp. pose proof (ext_spec _ _ _ H4 ltac:(lia) Hsz4).
      unfold rbHEADER_SIZE in *. split_and!; [lia|lia| |done]. lia.
    + exists v. unfold rbHEADER_SIZE in *. split_and!; [lia|lia|lia|done].
Qed.

(** Two blocks of a chain do not overlap. *)
Lemma chain_disjoint p l1 b l2 q c :
  pos_ok p → chain sz mx p (l1 ++ b :: l2) q → total sz (l1 ++ b :: l2) ≤ sz → c ∈ l1 ++ l2 →
  b_off c + ext sz c ≤ b_off b ∨ b_off b + ext sz b ≤ b_off c.
Proof.
  intros Hp Hc Ht Hin. apply chain_app in Hc as (x & H1 & Hx & Hb & H2).
  rewrite total_app in Ht. simpl in Ht.
  pose proof (chain_total_nonneg _ _ _ H1) as [T1 _]. pose proof (chain_total_nonneg _ _ _ H2) as [T2 _].
  pose proof (ext_spec _ _ _ Hb ltac:(lia) Hsz4) as He.
  destruct (chain_end _ _ _ Hp H1) as [Hpx Ex]; [unfold rbHEADER_SIZE in *; lia|].
  apply elem_of_app in Hin as [Hin|Hin].
  - destruct (chain_pos _ _ _ _ Hp H1 ltac:(unfold rbHEADER_SIZE in *; lia) Hin) as (v & V1 & V2 & V3 & V4).
    pose proof (ext_spec _ _ _ V4 ltac:(lia) Hsz4). destruct Hp. unfold rbHEADER_SIZE in *. wr_facts. lia.
  - destruct (chain_pos _ _ _ _ (next_pos _ Hb) H2 ltac:(unfold rbHEADER_SIZE in *; lia) Hin)
      as (v & V1 & V2 & V3 & V4).
    pose proof (ext_spec _ _ _ V4 ltac:(lia) Hsz4). destruct Hp. unfold next, rbHEADER_SIZE in *.
    wr_facts. lia.
Qed.
End chains.

(** A block is untouched by writes outside its bytes. *)
Lemma stored_ext sz mx st st' hd b :
  blk_ok sz mx b → sz < 2 ^ 30 → sz mod 4 = 0 →
  (∀ x, hd + b_off b ≤ x < hd + b_off b + ext sz b → st' x = st x) →
  stored st hd b → stored st' hd b.
Proof.
  intros Hb Hsz H4 Hx [Hl Hf Hd]. pose proof (ext_spec _ _ _ Hb Hsz H4) as (E1 & E2 & E3 & E4 & _).
  unfold rbHEADER_SIZE in *. split.
  - rewrite <- Hl. apply ld32_ext. intros. apply Hx. lia.
  - rewrite <- Hf. apply ld32_ext. intros. apply Hx. lia.
  - intros Hn. rewrite <- (Hd Hn). apply ldbytes_ext. intros. apply Hx. specialize (E4 Hn). lia.
Qed.

(** ** Storage accesses *)

Lemma wp_load32 a r (Q : Z → Ringbuffer_t → Prop) :
  pucHead r ≤ a → a + 4 ≤ pucTail r → Q (ld32 (storage r) a) r → wp (load32 a) r Q.
Proof.
  intros H1 H2 HQ. unfold wp, load32. by rewrite !(proj2 (Z.leb_le _ _)) by lia.
Qed.

Lemma wp_store32 a v r (Q : unit → Ringbuffer_t → Prop) :
  pucHead r ≤ a → a + 4 ≤ pucTail r → Q () (set_storage (st32 (storage r) a v) r) → wp (store32 a v) r Q.
Proof.
  intros H1 H2 HQ. unfold wp, store32. by rewrite !(proj2 (Z.leb_le _ _)) by lia.
Qed.

(** Where a pointer ends up after the wrap-around test. *)
Definition adv (tl hd p : Z) : Z := if tl - p <? rbHEADER_SIZE then hd else p.

Lemma adv_spec tl hd p : adv tl hd p = hd ∧ tl - p < 8 ∨ adv tl hd p = p ∧ 8 ≤ tl - p.
Proof. unfold adv, rbHEADER_SIZE. destruct (Z.ltb_spec (tl - p) 8); lia. Qed.

Section wraps.
Context (r : Ringbuffer_t) (Q : unit → Ringbuffer_t → Prop).

Lemma wp_wrap_acquire :
  0 ≤ pucTail r - pucAcquire r < 2 ^ 32 →
  Q () (set_acquire (adv (pucTail r) (pucHead r) (pucAcquire r)) r) → wp wrap_acquire r Q.
Proof.
  intros H HQ. unfold wrap_acquire. apply wp_modify. rewrite less_than_header_spec by lia.
  unfold adv in HQ. destruct (_ <? _); [done|by destruct r].
Qed.

Lemma wp_wrap_write :
  0 ≤ pucTail r - pucWrite r < 2 ^ 32 →
  Q () (set_write (adv (pucTail r) (pucHead r) (pucWrite r)) r) → wp wrap_write r Q.
Proof.
  intros H HQ. unfold wrap_write. apply wp_modify. rewrite less_than_header_spec by lia.
  unfold adv in HQ. destruct (_ <? _); [done|by destruct r].
Qed.

Lemma wp_wrap_read :
  0 ≤ pucTail r - pucRead r < 2 ^ 32 →
  Q () (set_read (adv (pucTail r) (pucHead r) (pucRead r)) r) → wp wrap_read r Q.
Proof.
  intros H HQ. unfold wrap_read. apply wp_modify. rewrite less_than_header_spec by lia.
  unfold adv in HQ. destruct (_ <? _); [done|by destruct r].
Qed.

Lemma wp_wrap_free :
  0 ≤ pucTail r - pucFree r < 2 ^ 32 →
  Q () (set_free (adv (pucTail r) (pucHead r) (pucFree r)) r) → wp wrap_free r Q.
Proof.
  intros H HQ. unfold wrap_free. apply wp_modify. rewrite less_than_header_spec by lia.
  unfold adv in HQ. destruct (_ <? _); [done|by destruct r].
Qed.

Lemma wp_mark_full :
  Q () (set_flags (if pucAcquire r =? pucFree r then Z.lor (uxRingbufferFlags r) rbBUFFER_FULL_FLAG
                   else uxRingbufferFlags r) r) → wp mark_full r Q.
Proof.
  intros HQ. unfold mark_full. apply wp_modify. destruct (_ =? _); [done|by destruct r].
Qed.
End wraps.

(** Evaluate header fields through the writes that precede the read. *)
Ltac mem_simpl :=
  repeat match goal with
  | |- context [ld32 (st32 ?m ?a ?v) ?b] =>
      first [ rewrite (ld32_st32_ne m a b v) by lia
            | replace b with a by lia;
              rewrite (ld32_st32_eq m a v)
                by first [lia | split; [by apply Z.leb_le | by apply Z.ltb_lt]] ]
  | |- context [ld32 (stbytes ?m ?a ?bs) ?b] =>
      rewrite (ld32_stbytes_ne m a b bs) by (fold (zlen bs); lia)
  end.

(** A byte outside every written range. *)
Ltac mem_other :=
  repeat match goal with
  | |- st32 ?m ?a ?v ?i = _ => rewrite (st32_other m a v i) by lia
  | |- stbytes ?m ?a ?bs ?i = _ => rewrite (stbytes_other m a bs i) by (fold (zlen bs); lia)
  end; done.

(** Evaluate data through the writes that precede the read. *)
Ltac data_simpl :=
  repeat match goal with
  | |- context [ldbytes (st32 ?m ?c ?v) ?a ?n] => rewrite (ldbytes_st32_ne m a n c v) by lia
  | |- context [ldbytes (stbytes ?m ?c ?bs) ?a ?n] =>
      first [ rewrite (ldbytes_stbytes_ne m a n c bs) by lia
            | rewrite (ldbytes_stbytes_at m a n c bs) by lia ]
  end.

(** A block that has just been written is stored as such. *)
Ltac stored_tac :=
  split; cbn [b_off b_len b_flags b_data]; unfold rbHEADER_SIZE;
  [ mem_simpl; done | mem_simpl; done | intros _; data_simpl; done ].

(** Decide flag tests on known words. *)
Ltac flag_eval :=
  repeat match goal with
  | |- context [flag ?x ?m] =>
      let v := eval vm_compute in (flag x m) in
      lazymatch v with
      | true => change (flag x m) with true
      | false => change (flag x m) with false
      end
  end; cbn [andb orb negb].

(** Execute header accesses, leaving only bounds that are not linear. *)
Ltac hdr_step :=
  lazymatch goal with
  | |- wp (get_xItemLen _) _ _ => apply wp_load32; rb_cbn; [lia|lia|]; mem_simpl
  | |- wp (get_uxItemFlags _) _ _ => apply wp_load32; rb_cbn; [lia|lia|]; mem_simpl
  | |- wp (put_xItemLen _ _) _ _ => apply wp_store32; rb_cbn; [lia|lia|]
  | |- wp (put_uxItemFlags _ _) _ _ => apply wp_store32; rb_cbn; [lia|lia|]
  | |- wp (assertM _) _ _ => apply wp_assert; [solve [lia | done | rewrite aligned_spec; lia]|]
  | |- wp wrap_acquire _ _ => apply wp_wrap_acquire; rb_cbn; [lia|]
  | |- wp wrap_write _ _ => apply wp_wrap_write; rb_cbn; [lia|]
  | |- wp wrap_read _ _ => apply wp_wrap_read; rb_cbn; [lia|]
  | |- wp wrap_free _ _ => apply wp_wrap_free; rb_cbn; [lia|]
  | |- wp mark_full _ _ => apply wp_mark_full; rb_cbn
  | |- _ => wp_step
  end; rb_cbn; unfold rbHEADER_SIZE in *.
Ltac hdr_steps := repeat hdr_step.

(** ** Adding blocks *)

(** The free space seen by the sender. *)
Record placement (sz A T n : Z) (split : bool) : Prop := {
  pl_one : rbHEADER_SIZE + rbALIGN_SIZE n ≤ sz - A →
    T + (if sz - (A + (rbHEADER_SIZE + rbALIGN_SIZE n)) <? rbHEADER_SIZE then sz - A
         else rbHEADER_SIZE + rbALIGN_SIZE n) ≤ sz;
  pl_two : sz - A < rbHEADER_SIZE + rbALIGN_SIZE n →
    if split then T + 2 * rbHEADER_SIZE + rbALIGN_SIZE n ≤ sz
    else T + (sz - A) + (rbHEADER_SIZE + rbALIGN_SIZE n) ≤ sz
}.

(** The fields of the invariant, under fixed names. *)
Ltac core_facts H :=
  pose proof (rc_type _ _ _ H) as Ktype; pose proof (rc_byte _ _ _ H) as Kbyte;
  pose proof (rc_split _ _ _ H) as Ksplit; pose proof (rc_size _ _ _ H) as Ksize;
  pose proof (rc_modsz _ _ _ H) as Kmod; pose proof (rc_max _ _ _ H) as Kmax;
  pose proof (rc_head _ _ _ H) as Khead; pose proof (rc_tail _ _ _ H) as Ktail;
  pose proof (rc_free _ _ _ H) as Kfree; pose proof (rc_out _ _ _ H) as Kout;
  pose proof (rc_wait _ _ _ H) as Kwait; pose proof (rc_acquire _ _ _ H) as Kacq;
  pose proof (rc_total _ _ _ H) as Ktotal; pose proof (rc_stored _ _ _ H) as Kstored;
  pose proof (rc_count _ _ _ H) as Kcount.

(** Pointers of a structure that satisfies the invariant. *)
Lemma core_pointers r out wait :
  ring_core r out wait →
  pos_ok (xSize r) (pucFree r - pucHead r) ∧ pos_ok (xSize r) (pucRead r - pucHead r) ∧
  pos_ok (xSize r) (pucWrite r - pucHead r) ∧
  pucRead r = pucHead r + wr (xSize r) (pucFree r - pucHead r + total (xSize r) out) ∧
  pucWrite r = pucHead r + wr (xSize r) (pucFree r - pucHead r + total (xSize r) (out ++ wait)) ∧
  0 ≤ total (xSize r) out ∧ 0 ≤ total (xSize r) wait.
Proof.
  intros []. assert (pos_ok (xSize r) (pucFree r - pucHead r)) as Hf by (unfold pos_ok; lia).
  assert (chain (xSize r) (xMaxItemSize r) (pucFree r - pucHead r) (out ++ wait) (pucWrite r - pucHead r))
    as Hc by (apply chain_app; eauto).
  pose proof (chain_total_nonneg _ _ rc_size0 rc_modsz0 _ _ _ rc_out0) as [T1 _].
  pose proof (chain_total_nonneg _ _ rc_size0 rc_modsz0 _ _ _ rc_wait0) as [T2 _].
  rewrite total_app in *.
  destruct (chain_end _ _ rc_size0 rc_modsz0 _ _ _ Hf rc_out0) as [P1 E1]; [lia|].
  destruct (chain_end _ _ rc_size0 rc_modsz0 _ _ _ Hf Hc) as [P2 E2]; [rewrite total_app; lia|].
  rewrite total_app in E2. split_and!; try done; lia.
Qed.

Lemma max_item_small r out wait : ring_core r out wait →
  0 ≤ xMaxItemSize r ≤ xSize r - rbHEADER_SIZE.
Proof.
  intros []. rewrite rc_max0. unfold rbHEADER_SIZE. pose proof (align_spec (xSize r / 2) ltac:(lia)).
  destruct rc_type0 as [-> | ->]; lia.
Qed.

(** When the fit test succeeds the item can be placed. *)
Lemma fits_items r out wait n :
  ring_core r out wait → is_full r = (xSize r =? total (xSize r) (out ++ wait)) →
  0 ≤ n ≤ xMaxItemSize r →
  wp (xCheckItemFits n) r (λ b r', r' = r ∧
    (b = true → placement (xSize r) (pucAcquire r - pucHead r) (total (xSize r) (out ++ wait)) n
                  (bool_decide (xType r = RINGBUF_TYPE_ALLOWSPLIT)))).
Proof.
  intros Hr Hfull Hn. pose proof (core_pointers _ _ _ Hr) as (Pf & Pr & Pw & Er & Ew & T1 & T2).
  pose proof (max_item_small _ _ _ Hr) as Hmx. pose proof (align_spec n) as Ha.
  destruct Hr. unfold xCheckItemFits.
  assert (wp (prvCheckItemFitsDefault n) r (λ b r', r' = r ∧
    (b = true → placement (xSize r) (pucAcquire r - pucHead r) (total (xSize r) (out ++ wait)) n
                  (bool_decide (xType r = RINGBUF_TYPE_ALLOWSPLIT))))) as H.
  2: { wp_steps. destruct rc_type0 as [E|E]; rewrite E in H |- *; exact H. }
  unfold prvCheckItemFitsDefault, pos_ok, rbHEADER_SIZE in *. wp_steps.
  rewrite aligned_spec. apply wp_assert; [lia|]. wp_steps. apply wp_assert; [lia|]. wp_steps.
  split; [done|]. rewrite Hfull, rc_split0. specialize (Ha ltac:(lia)).
  rewrite (u32_small (rbALIGN_SIZE n + 8)) by lia.
  pose proof (align_spec (xSize r / 2) ltac:(lia)).
  rewrite total_app in *. wr_facts.
  intros Hb; split; unfold rbHEADER_SIZE; intros Hp.
  all: destruct (Z.eqb_spec (pucAcquire r) (pucFree r)).
  - split_ifs; lia.
  - assert (total (xSize r) out + total (xSize r) wait < xSize r) by lia.
    destruct (Z.ltb_spec (pucAcquire r) (pucFree r)); [|split_ifs; lia].
    rewrite u32_small in Hb by lia. split_ifs; lia.
  - destruct rc_type0 as [E|E]; rewrite E in *; simpl in *; lia.
  - destruct (Z.ltb_spec (pucAcquire r) (pucFree r)); [rewrite u32_small in Hb by lia; split_ifs; lia|].
    rewrite u32_small in Hb by lia. rewrite (proj2 (Z.leb_gt _ _)) in Hb by lia.
    rewrite !u32_small in Hb by lia.
    destruct rc_type0 as [E|E]; rewrite E in *; simpl in *; lia.
Qed.

(** The parts of the structure fixed at creation. *)
Record same_struct (r r' : Ringbuffer_t) : Prop := {
  ss_type : xType r' = xType r;
  ss_size : xSize r' = xSize r;
  ss_max : xMaxItemSize r' = xMaxItemSize r;
  ss_head : pucHead r' = pucHead r;
  ss_tail : pucTail r' = pucTail r;
  ss_byte : flag (uxRingbufferFlags r') rbBYTE_BUFFER_FLAG = flag (uxRingbufferFlags r) rbBYTE_BUFFER_FLAG;
  ss_split : flag (uxRingbufferFlags r') rbALLOW_SPLIT_FLAG = flag (uxRingbufferFlags r) rbALLOW_SPLIT_FLAG
}.

#[export] Instance same_struct_preorder : PreOrder same_struct.
Proof. split; [by split|]. intros x y z [] []. split; congruence. Qed.

(** The memory [st'] differs from [st] only inside the blocks [g]. *)
Definition confined (sz hd : Z) (g : list blk) (st st' : mem) : Prop :=
  ∀ x, (∀ b, b ∈ g → x < hd + b_off b ∨ hd + b_off b + ext sz b ≤ x) → st' x = st x.

Lemma core_append r r' out wait g q :
  ring_core r out wait →
  chain (xSize r) (xMaxItemSize r) (pucWrite r - pucHead r) g q →
  total (xSize r) (out ++ wait ++ g) ≤ xSize r →
  confined (xSize r) (pucHead r) g (storage r) (storage r') →
  Forall (stored (storage r') (pucHead r)) g →
  same_struct r r' → pucFree r' = pucFree r → pucRead r' = pucRead r →
  pucWrite r' = pucHead r + q → pucAcquire r' = pucWrite r' →
  xItemsWaiting r' = count_items (wait ++ g) →
  ring_core r' out (wait ++ g).
Proof.
  intros Hr Hc Ht Hm Hg [] Hf Hrd Hw Ha Hi. pose proof (core_pointers _ _ _ Hr) as (Pf & _).
  destruct Hr.
  assert (chain (xSize r) (xMaxItemSize r) (pucFree r - pucHead r) ((out ++ wait) ++ g) q) as Hall.
  { apply chain_app. exists (pucWrite r - pucHead r). split; [|done]. apply chain_app. eauto. }
  split; rewrite ?ss_type0, ?ss_size0, ?ss_max0, ?ss_head0, ?ss_tail0, ?ss_byte0, ?ss_split0, ?Hf, ?Hrd, ?Hw;
    try done; try lia.
  - apply chain_app. exists (pucWrite r - pucHead r). split; [done|].
    by replace (pucHead r + q - pucHead r) with q by lia.
  - rewrite app_assoc. apply Forall_app. split; [|done]. apply Forall_forall. intros c Hin.
    rewrite Forall_forall in rc_stored0.
    assert (blk_ok (xSize r) (xMaxItemSize r) c) as Hok.
    { destruct (chain_pos _ _ rc_size0 rc_modsz0 _ _ _ c Pf Hall) as (v & _ & _ & _ & H);
        [by rewrite <- app_assoc|apply elem_of_app; auto|done]. }
    eapply stored_ext; [exact Hok|lia|done| |by apply rc_stored0].
    intros x Hx. apply Hm. intros b Hb. apply list_elem_of_split in Hb as (g1 & g2 & ->).
    rewrite app_assoc in Hall. rewrite app_assoc, app_assoc in Ht.
    pose proof (chain_disjoint _ _ rc_size0 rc_modsz0 _ _ _ _ _ c Pf Hall Ht) as Hdis.
    rewrite <- app_assoc in Hdis. specialize (Hdis ltac:(apply elem_of_app; auto)). lia.
Qed.

Lemma count_bound sz mx p l q :
  16 ≤ sz < 2 ^ 30 → sz mod 4 = 0 → chain sz mx p l q → 0 ≤ count_items l ∧ 8 * count_items l ≤ total sz l.
Proof.
  intros Hsz H4. revert p. induction l as [|b l IH]; intros p; simpl; [done|].
  intros (_ & Hb & Hc). apply IH in Hc. pose proof (ext_spec _ _ _ Hb ltac:(lia) H4).
  unfold count_items, rbHEADER_SIZE in *. rewrite filter_cons. case_decide; rewrite ?zlen_cons; lia.
Qed.

Lemma count_app l k : count_items (l ++ k) = count_items l + count_items k.
Proof. unfold count_items. by rewrite filter_app, zlen_app. Qed.

(** What a successful copy of one item does. *)
Definition appended (r r' : Ringbuffer_t) (out wait : list blk) (bs : list Z) : Prop :=
  ∃ g, group (xType r) g bs ∧ ring_core r' out (wait ++ g) ∧
       is_full r' = (xSize r =? total (xSize r) (out ++ wait ++ g)) ∧ same_struct r r'.

(** The next position, as the code computes it. *)
Lemma next_adv sz mx b hd :
  blk_ok sz mx b → is_dummy b = false → sz < 2 ^ 30 →
  hd + next sz b = adv (hd + sz) hd (hd + b_off b + (rbHEADER_SIZE + rbALIGN_SIZE (b_len b))).
Proof.
  intros [] Hd Hsz. unfold next, ext, adv, rbHEADER_SIZE in *. rewrite Hd. destruct (bo_data0 Hd) as [Hr _].
  pose proof (align_spec (b_len b) ltac:(lia)).
  split_ifs; wr_facts; lia.
Qed.

Lemma appended_intro r r' out wait g bs q :
  ring_core r out wait → is_full r = (xSize r =? total (xSize r) (out ++ wait)) →
  group (xType r) g bs → chain (xSize r) (xMaxItemSize r) (pucWrite r - pucHead r) g q →
  total (xSize r) (out ++ wait) + total (xSize r) g ≤ xSize r →
  confined (xSize r) (pucHead r) g (storage r) (storage r') →
  Forall (stored (storage r') (pucHead r)) g →
  xType r' = xType r → xSize r' = xSize r → xMaxItemSize r' = xMaxItemSize r →
  pucHead r' = pucHead r → pucTail r' = pucTail r → pucFree r' = pucFree r → pucRead r' = pucRead r →
  pucWrite r' = pucHead r + q → pucAcquire r' = pucWrite r' →
  xItemsWaiting r' = xItemsWaiting r + count_items g →
  uxRingbufferFlags r' = (if pucAcquire r' =? pucFree r' then Z.lor (uxRingbufferFlags r) rbBUFFER_FULL_FLAG
                          else uxRingbufferFlags r) →
  appended r r' out wait bs.
Proof.
  intros Hr Hfull Hg Hc Ht Hm Hs E1 E2 E3 E4 E5 E6 E7 Hw Ha Hi Hfl.
  assert (g ≠ []) as Hne by (by inversion Hg).
  assert (same_struct r r') as Hss.
  { split; try done; rewrite Hfl; destruct (pucAcquire r' =? pucFree r'); try done; by apply flag_lor_disjoint. }
  assert (ring_core r' out (wait ++ g)) as Hr'.
  { eapply core_append; eauto; [rewrite app_assoc, total_app; lia|].
    rewrite count_app. pose proof (rc_count _ _ _ Hr). lia. }
  exists g. split_and!; try done.
  pose proof (core_pointers _ _ _ Hr') as (Pf & _ & _ & _ & Ew & T1 & T2).
  destruct Hr. pose proof (chain_total_nonneg _ _ rc_size0 rc_modsz0 _ _ _ Hc) as [_ Hpos].
  specialize (Hpos Hne).
  pose proof (chain_total_nonneg _ _ rc_size0 rc_modsz0 _ _ _ rc_out0) as [T3 _].
  pose proof (chain_total_nonneg _ _ rc_size0 rc_modsz0 _ _ _ rc_wait0) as [T4 _].
  rewrite E2, !total_app, E4, E6 in Ew. rewrite !total_app in Hfull, Ht. rewrite !total_app.
  rewrite E2, E4, E6 in Pf.
  unfold is_full, pos_ok, rbHEADER_SIZE in *. rewrite Hfl, Ha, Ew, E6.
  match goal with |- context [if ?b then _ else _] => destruct b eqn:Eb end; wr_facts.
  - rewrite flag_lor_self by done. lia.
  - rewrite Hfull. lia.
Qed.

