(* ===== verification/RingbufNoSplit.v ===== *)
(** * Copying an item into a no-split buffer

    [prvCopyItemNoSplit] acquires space, copies and completes the item: the chain
    grows by one block, or by a dummy block and a block when the item does not
    fit before the end of the storage. *)
From Stdlib Require Import ZArith Lia.
From stdpp Require Import base numbers option list sorting.
From S2P Require Import Prelude Ringbuf RingbufByte RingbufChain.

Open Scope Z_scope.

Lemma copy_nosplit r out wait bs :
  ring_core r out wait → xType r = RINGBUF_TYPE_NOSPLIT →
  is_full r = (xSize r =? total (xSize r) (out ++ wait)) → zlen bs ≤ xMaxItemSize r →
  placement (xSize r) (pucAcquire r - pucHead r) (total (xSize r) (out ++ wait)) (zlen bs) false →
  wp (prvCopyItemNoSplit bs (zlen bs)) r (λ _ r', appended r r' out wait bs).
Proof.
  intros Hr Hty Hfull Hmax [Hone Htwo].
  pose proof (core_pointers _ _ _ Hr) as (Pf & Pr & Pw & Er & Ew & T1 & T2).
  pose proof (max_item_small _ _ _ Hr) as Hmx. 
  pose proof (align_spec (zlen bs)) as Ha. pose proof (zlen_nonneg bs).
  rb_destruct r. core_facts Hr. rb_cbn. subst ty. unfold pos_ok, rbHEADER_SIZE in *.
  specialize (Ha ltac:(lia)). rewrite total_app in *.
  destruct (count_bound _ _ _ _ _ Ksize Kmod Kwait) as [C0 C1].
  unfold prvCopyItemNoSplit, prvAcquireItemNoSplit. hdr_steps.
  rewrite ?u32_small by lia. hdr_steps.
  destruct (Z.ltb_spec (tl - ac) (rbALIGN_SIZE (zlen bs) + 8)); simpl; hdr_steps.
  2: { apply wp_memcpy_in; rb_cbn; [lia..|]. rewrite take_ge by (unfold zlen; lia). 
       unfold prvSendItemDoneNoSplit. hdr_steps.
       unfold ring_fuel. rewrite Nat.add_comm. simpl. hdr_steps. unfold write_advance_step at 1. hdr_steps.
       flag_eval. hdr_steps. pose proof (adv_spec tl hd (ac + (8 + rbALIGN_SIZE (zlen bs)))). subst ac.
       rewrite (Z.add_comm 8), Z.eqb_refl. hdr_steps.
       set (b := mkBlk (wt - hd) (zlen bs) rbITEM_WRITTEN_FLAG bs).
       assert (blk_ok sz mx b) as Hb by (split; simpl; unfold rbHEADER_SIZE; try lia; done).
       pose proof (next_adv sz mx b hd Hb eq_refl ltac:(lia)) as Hnx. simpl in Hnx. unfold rbHEADER_SIZE in Hnx.
       eapply (appended_intro _ _ _ _ [b] _ (next sz b)); rb_cbn; try done; try lia.
       + by rewrite total_app.
       + by apply (group_one _ b).
       + rewrite total_app. simpl. rewrite Z.add_0_r. apply Hone. lia.
       + intros x Hx. specialize (Hx b ltac:(rewrite elem_of_cons; auto)). simpl in Hx.
         pose proof (ext_spec _ _ _ Hb ltac:(lia) Kmod) as (_ & _ & _ & Hex & _).
         specialize (Hex eq_refl). simpl in Hex. unfold rbHEADER_SIZE in Hex. mem_other.
       + apply Forall_singleton. unfold b. stored_tac.
       + rewrite Hnx, <- Ktail. f_equal. lia.
       + rewrite i32_small by lia. done. }
  apply wp_memcpy_in; rb_cbn; [lia..|]. rewrite take_ge by (unfold zlen; lia).
  unfold prvSendItemDoneNoSplit. hdr_steps. subst ac.
  assert (rbALIGN_SIZE (zlen bs) + 8 ≤ wt - hd) by lia.
  unfold ring_fuel. rewrite Nat.add_comm. simpl. hdr_steps. unfold write_advance_step at 1. hdr_steps.
  flag_eval. hdr_steps. 
  pose proof (adv_spec tl hd (hd + (8 + rbALIGN_SIZE (zlen bs)))).
  pose proof (adv_spec tl hd hd).
  rewrite (proj2 (Z.eqb_neq _ _)) by lia. hdr_steps.
  unfold write_advance_step at 1. hdr_steps. flag_eval. hdr_steps.
  replace (adv tl hd hd) with hd in * by lia.
  rewrite (Z.add_comm 8), Z.eqb_refl. hdr_steps.
  set (d := mkBlk (wt - hd) 0 (Z.lor rbITEM_DUMMY_DATA_FLAG rbITEM_WRITTEN_FLAG) []).
  set (b := mkBlk 0 (zlen bs) rbITEM_WRITTEN_FLAG bs).
  assert (blk_ok sz mx d) as Hd by (split; simpl; unfold rbHEADER_SIZE; try lia; done).
  assert (blk_ok sz mx b) as Hb by (split; simpl; unfold rbHEADER_SIZE; try lia; done).
  pose proof (next_adv sz mx b hd Hb eq_refl ltac:(lia)) as Hnx. simpl in Hnx. unfold rbHEADER_SIZE in Hnx.
  pose proof (ext_spec _ _ _ Hb ltac:(lia) Kmod) as (_ & _ & _ & Hex & _).
  specialize (Hex eq_refl). simpl in Hex. unfold rbHEADER_SIZE in Hex.
  assert (ext sz d = sz - (wt - hd)) as Hexd by done.
  assert (ext sz b = 8 + rbALIGN_SIZE (zlen bs)) as Hexb.
  { unfold ext. simpl. unfold rbHEADER_SIZE. rewrite (proj2 (Z.ltb_ge _ _)) by lia. done. }
  assert (next sz d = 0) as Hnd by (unfold next; rewrite Hexd; simpl; wr_facts; lia).
  eapply (appended_intro _ _ _ _ [d; b] _ (next sz b)); rb_cbn; try done; try lia.
  + by rewrite total_app.
  + by apply (group_dummy _ d b).
  + rewrite total_app. cbn [total]. lia.
  + intros x Hx. pose proof (Hx b ltac:(rewrite !elem_of_cons; auto)) as Hx1.
    specialize (Hx d ltac:(rewrite !elem_of_cons; auto)). simpl in Hx, Hx1. mem_other.
  + rewrite !Forall_cons. split_and!; [unfold d; stored_tac|unfold b; stored_tac|done].
  + rewrite Hnx, <- Ktail. f_equal. lia.
  + rewrite i32_small by lia. done.
Qed.
