(* ===== verification/RingbufSplit.v ===== *)
(** * Copying an item into an allow-split buffer

    [prvCopyItemAllowSplit] appends the item to the chain as one block, as a
    dummy block and a block, or as two blocks. *)
From Stdlib Require Import ZArith Lia.
From stdpp Require Import base numbers option list.
From S2P Require Import Prelude Ringbuf RingbufByte RingbufChain.

Open Scope Z_scope.

Lemma align_sub n k : 0 ≤ k ≤ n → n < 2 ^ 30 → k mod 4 = 0 → rbALIGN_SIZE (n - k) = rbALIGN_SIZE n - k.
Proof. intros. pose proof (align_spec n ltac:(lia)). pose proof (align_spec (n - k) ltac:(lia)). lia. Qed.

Lemma copy_allowsplit r out wait bs :
  ring_core r out wait → xType r = RINGBUF_TYPE_ALLOWSPLIT →
  is_full r = (xSize r =? total (xSize r) (out ++ wait)) → zlen bs ≤ xMaxItemSize r →
  placement (xSize r) (pucAcquire r - pucHead r) (total (xSize r) (out ++ wait)) (zlen bs) true →
  wp (prvCopyItemAllowSplit bs (zlen bs)) r (λ _ r', appended r r' out wait bs).
Proof.
  intros Hr Hty Hfull Hmax [Hone Htwo].
  pose proof (core_pointers _ _ _ Hr) as (Pf & Pr & Pw & Er & Ew & T1 & T2).
  pose proof (max_item_small _ _ _ Hr) as Hmx.
  pose proof (align_spec (zlen bs)) as Ha. pose proof (zlen_nonneg bs).
  rb_destruct r. core_facts Hr. rb_cbn. subst ty ac. unfold pos_ok, rbHEADER_SIZE in *.
  specialize (Ha ltac:(lia)). rewrite total_app in *.
  destruct (count_bound _ _ _ _ _ Ksize Kmod Kwait) as [C0 C1].
  unfold prvCopyItemAllowSplit. hdr_steps.
  rewrite ?u32_small by lia. hdr_steps.
  destruct (Z.ltb_spec (tl - wt) (rbALIGN_SIZE (zlen bs) + 8)); hdr_steps.
  - destruct (Z.ltb_spec 0 (tl - wt - 8)); hdr_steps.
    + apply wp_memcpy_in; rb_cbn; [lia..|]. hdr_steps. rewrite !u32_small by lia. 
      apply wp_memcpy_in; rb_cbn; [rewrite ?zlen_drop; lia..|]. hdr_steps.
      assert (zlen bs - (tl - wt - 8) = zlen (drop (Z.to_nat (tl - wt - 8)) bs)) as Hdl
        by (rewrite zlen_drop; lia).
      rewrite (take_ge (drop _ _)) by (rewrite Hdl; unfold zlen; lia).
      set (b1 := mkBlk (wt - hd) (tl - wt - 8) rbITEM_SPLIT_FLAG (take (Z.to_nat (tl - wt - 8)) bs)).
      set (b2 := mkBlk 0 (zlen bs - (tl - wt - 8)) 0 (drop (Z.to_nat (tl - wt - 8)) bs)).
      pose proof (align_sub (zlen bs) (tl - wt - 8) ltac:(lia) ltac:(lia) ltac:(lia)) as Has.
      pose proof (align_spec (tl - wt - 8) ltac:(lia)) as Ha1.
      assert (zlen (take (Z.to_nat (tl - wt - 8)) bs) = tl - wt - 8) as Htl by (apply zlen_take; lia).
      assert (blk_ok sz mx b1) as Hk1 by (split; simpl; unfold rbHEADER_SIZE; try done; try lia).
      assert (blk_ok sz mx b2) as Hk2 by (split; simpl; unfold rbHEADER_SIZE; try done; try lia).
      pose proof (next_adv sz mx b2 hd Hk2 eq_refl ltac:(lia)) as Hnx. simpl in Hnx. unfold rbHEADER_SIZE in Hnx.
      assert (ext sz b1 = sz - (wt - hd)) as Hex1.
      { unfold ext. simpl. unfold rbHEADER_SIZE. rewrite (proj2 (Z.ltb_lt _ _)) by lia. done. }
      assert (ext sz b2 = 8 + (rbALIGN_SIZE (zlen bs) - (tl - wt - 8))) as Hex2.
      { unfold ext. simpl. unfold rbHEADER_SIZE. rewrite (proj2 (Z.ltb_ge _ _)) by lia. lia. }
      assert (next sz b1 = 0) as Hn1 by (unfold next; rewrite Hex1; simpl; wr_facts; lia).
      eapply (appended_intro _ _ _ _ [b1; b2] _ (next sz b2)); rb_cbn; try done; try lia.
      * by rewrite total_app.
      * rewrite <- (take_drop (Z.to_nat (tl - wt - 8)) bs) at 1. by apply (group_split _ b1 b2).
      * rewrite total_app. cbn [total]. lia.
      * intros x Hx. pose proof (Hx b1 ltac:(rewrite !elem_of_cons; auto)) as Hx1.
        specialize (Hx b2 ltac:(rewrite !elem_of_cons; auto)). simpl in Hx, Hx1. mem_other.
      * constructor; [unfold b1; stored_tac|constructor; [unfold b2; stored_tac|constructor]].
      * rewrite Hnx, <- Ktail. f_equal. lia.
      * rewrite !i32_small by (rewrite ?i32_small by lia; lia). change (count_items [b1; b2]) with 2. lia.
    + apply wp_memcpy_in; rb_cbn; [lia..|]. hdr_steps. rewrite take_ge by (unfold zlen; lia).
      assert (tl = wt + 8) as Htl8 by lia. replace (tl - wt - 8) with 0 in * by lia.
      set (d := mkBlk (wt - hd) 0 rbITEM_DUMMY_DATA_FLAG []).
      set (b := mkBlk 0 (zlen bs) 0 bs).
      assert (blk_ok sz mx d) as Hk1 by (split; simpl; unfold rbHEADER_SIZE; try done; try lia).
      assert (blk_ok sz mx b) as Hk2 by (split; simpl; unfold rbHEADER_SIZE; try done; try lia).
      pose proof (next_adv sz mx b hd Hk2 eq_refl ltac:(lia)) as Hnx. simpl in Hnx. unfold rbHEADER_SIZE in Hnx.
      assert (ext sz d = sz - (wt - hd)) as Hex1 by done.
      assert (ext sz b = 8 + rbALIGN_SIZE (zlen bs)) as Hex2.
      { unfold ext. simpl. unfold rbHEADER_SIZE. rewrite (proj2 (Z.ltb_ge _ _)) by lia. lia. }
      assert (next sz d = 0) as Hn1 by (unfold next; rewrite Hex1; simpl; wr_facts; lia).
      eapply (appended_intro _ _ _ _ [d; b] _ (next sz b)); rb_cbn; try done; try lia.
      * by rewrite total_app.
      * by apply (group_dummy _ d b).
      * rewrite total_app. cbn [total]. lia.
      * intros x Hx. pose proof (Hx d ltac:(rewrite !elem_of_cons; auto)) as Hx1.
        specialize (Hx b ltac:(rewrite !elem_of_cons; auto)). simpl in Hx, Hx1. mem_other.
      * constructor; [unfold d; stored_tac|constructor; [unfold b; stored_tac|constructor]].
      * rewrite Hnx, <- Ktail. f_equal. lia.
      * rewrite i32_small by lia. done.
  - apply wp_memcpy_in; rb_cbn; [lia..|]. hdr_steps. rewrite take_ge by (unfold zlen; lia).
    set (b := mkBlk (wt - hd) (zlen bs) 0 bs).
    assert (blk_ok sz mx b) as Hb by (split; simpl; unfold rbHEADER_SIZE; try done; try lia).
    pose proof (next_adv sz mx b hd Hb eq_refl ltac:(lia)) as Hnx. simpl in Hnx. unfold rbHEADER_SIZE in Hnx.
    eapply (appended_intro _ _ _ _ [b] _ (next sz b)); rb_cbn; try done; try lia.
    + by rewrite total_app.
    + by apply (group_one _ b).
    + rewrite total_app. simpl. rewrite Z.add_0_r. apply Hone. lia.
    + intros x Hx. specialize (Hx b ltac:(rewrite elem_of_cons; auto)). simpl in Hx.
      pose proof (ext_spec _ _ _ Hb ltac:(lia) Kmod) as (_ & _ & _ & Hex & _).
      specialize (Hex eq_refl). simpl in Hex. unfold rbHEADER_SIZE in Hex. mem_other.
    + apply Forall_singleton. unfold b. stored_tac.
    + rewrite Hnx, <- Ktail. f_equal. lia.
    + rewrite i32_small by lia. done.
Qed.
