(* ===== verification/RingbufTake.v ===== *)
(** * Retrieving and returning items

    [prvGetItemDefault] moves blocks from the waiting part of the chain to the
    part handed out; [prvReturnItemDefault] marks a block as free and drops the
    free blocks at the front of the chain. *)
From Stdlib Require Import ZArith Lia.
From stdpp Require Import base numbers option list.
From S2P Require Import Prelude Ringbuf RingbufByte RingbufChain.

Open Scope Z_scope.

(** What a retrieval leaves unchanged. *)
Definition taken (r r' : Ringbuffer_t) (out wait : list blk) : Prop :=
  ring_core r' out wait ∧ same_struct r r' ∧ uxRingbufferFlags r' = uxRingbufferFlags r ∧
  storage r' = storage r.

(** A waiting block is stored, in bounds and followed by the rest of the chain. *)
Lemma wait_block r out b rest :
  ring_core r out (b :: rest) →
  b_off b = pucRead r - pucHead r ∧ blk_ok (xSize r) (xMaxItemSize r) b ∧
  stored (storage r) (pucHead r) b ∧
  chain (xSize r) (xMaxItemSize r) (next (xSize r) b) rest (pucWrite r - pucHead r).
Proof.
  intros H. destruct (rc_wait _ _ _ H) as (H1 & H2 & H3). split_and!; try done.
  pose proof (rc_stored _ _ _ H) as Hs. rewrite Forall_app in Hs. destruct Hs as [_ Hs].
  by inversion Hs.
Qed.

(** Moving the read pointer past the first waiting block. *)
Lemma core_take r r' out b rest :
  ring_core r out (b :: rest) →
  same_struct r r' → storage r' = storage r → pucFree r' = pucFree r → pucWrite r' = pucWrite r →
  pucAcquire r' = pucAcquire r → pucRead r' = pucHead r + next (xSize r) b →
  xItemsWaiting r' = xItemsWaiting r - (if is_dummy b then 0 else 1) →
  ring_core r' (out ++ [b]) rest.
Proof.
  intros H [S1 S2 S3 S4 S5 S6 S7] E1 E2 E3 E4 E5 E6. destruct (wait_block _ _ _ _ H) as (Ho & Hb & Hs & Hc).
  core_facts H. assert (pucHead r + next (xSize r) b - pucHead r = next (xSize r) b) as En by lia.
  split; rewrite ?S1, ?S2, ?S3, ?S4, ?S5, ?S6, ?S7, ?E1, ?E2, ?E3, ?E4, ?E5, ?En; try done.
  - apply chain_app. exists (pucRead r - pucHead r). done.
  - by rewrite <- app_assoc.
  - by rewrite <- app_assoc.
  - rewrite E6, Kcount. unfold count_items. rewrite filter_cons.
    destruct (is_dummy b); simpl; [lia|]. rewrite zlen_cons. lia.
Qed.

(** The first waiting block can be retrieved. *)
Lemma wait_ready r out wait :
  ring_core r out wait → is_full r = (xSize r =? total (xSize r) (out ++ wait)) → wait ≠ [] →
  negb (pucRead r =? pucWrite r) || is_full r = true.
Proof.
  intros H Hf Hne. pose proof (core_pointers _ _ _ H) as (Pf & _ & _ & Er & Ew & T1 & T2).
  core_facts H. pose proof (chain_total_nonneg _ _ Ksize Kmod _ _ _ Kwait) as [_ Hw]. specialize (Hw Hne).
  rewrite Hf. rewrite total_app in *. unfold pos_ok, rbHEADER_SIZE in *. wr_facts. lia.
Qed.

Lemma get_block r out b rest :
  ring_core r out (b :: rest) → is_full r = (xSize r =? total (xSize r) (out ++ b :: rest)) →
  is_dummy b = false →
  wp prvGetItemDefault r (λ x r',
    x = (pucHead r + b_off b + rbHEADER_SIZE, b_len b, flag (b_flags b) rbITEM_SPLIT_FLAG) ∧
    taken r r' (out ++ [b]) rest).
Proof.
  intros H Hf Hd. destruct (wait_block _ _ _ _ H) as (Ho & Hb & Hs & Hc).
  pose proof (wait_ready _ _ _ H Hf ltac:(done)) as Hav.
  pose proof (core_pointers _ _ _ H) as (Pf & Pr & Pw & _).
  pose proof (next_adv _ _ _ (pucHead r) Hb Hd ltac:(pose proof (rc_size _ _ _ H); lia)) as Hnx.
  assert (0 < xItemsWaiting r ≤ xSize r) as Hi.
  { core_facts H. pose proof (count_bound _ _ _ _ _ Ksize Kmod Kwait). rewrite Kcount.
    pose proof (core_pointers _ _ _ H) as (_ & _ & _ & _ & _ & T1 & T2). rewrite total_app in Ktotal.
    unfold count_items in *. rewrite filter_cons in *. rewrite decide_True in * by done.
    rewrite zlen_cons in *. pose proof (zlen_nonneg (filter (λ b, is_dummy b = false) rest)). lia. }
  pose proof (core_take r) as Htake. destruct Hs as [Sl Sf Sd].
  destruct Hb as [B1 B2 B3 B4 B5 B6]. specialize (B6 Hd) as [B6 B7].
  core_facts H. pose proof (align_spec (b_len b) ltac:(lia)) as Ha.
  unfold prvGetItemDefault, pos_ok, rbHEADER_SIZE, get_xItemLen, get_uxItemFlags in *.
  assert (pucHead r + b_off b = pucRead r) as Hrd by lia. rewrite Hrd in *.
  wp_steps. apply wp_assert; [rewrite Hav; lia|]. wp_steps. apply wp_assert; [rewrite aligned_spec; lia|].
  wp_steps. apply wp_assert; [lia|]. wp_steps. apply wp_load32; [lia|lia|]. wp_steps.
  apply wp_load32; [lia|lia|]. rewrite Sl, Sf. unfold is_dummy in Hd. rewrite Hd. wp_steps.
  apply wp_assert; [lia|]. wp_steps. apply wp_load32; [lia|lia|]. rewrite Sl. wp_steps.
  apply wp_assert; [split_ifs; lia|]. wp_steps. apply wp_load32; cbn; [lia|lia|]. rewrite Sf. wp_steps.
  apply wp_wrap_read; cbn; [lia|]. wp_steps. split; [done|].
  split_and!; [eapply Htake; try exact H; cbn; try done|by split|done..].
  - by rewrite Hnx, <- Ktail.
  - unfold is_dummy. rewrite Hd, i32_small by lia. done.
Qed.

Lemma get_dummy r out d b rest :
  ring_core r out (d :: b :: rest) → is_full r = (xSize r =? total (xSize r) (out ++ d :: b :: rest)) →
  is_dummy d = true → is_dummy b = false →
  wp prvGetItemDefault r (λ x r',
    x = (pucHead r + b_off b + rbHEADER_SIZE, b_len b, flag (b_flags b) rbITEM_SPLIT_FLAG) ∧
    taken r r' (out ++ [d; b]) rest).
Proof.
  intros H Hf Hdd Hd. destruct (wait_block _ _ _ _ H) as (Ho & Hb & Hs & Hc).
  pose proof (wait_ready _ _ _ H Hf ltac:(done)) as Hav.
  pose proof (core_pointers _ _ _ H) as (Pf & Pr & Pw & _).
  assert (next (xSize r) d = 0) as Hn0.
  { unfold next, ext. rewrite Hdd. wr_facts. lia. }
  set (r1 := set_read (pucHead r) r).
  assert (ring_core r1 (out ++ [d]) (b :: rest)) as H1.
  { eapply core_take; [exact H|by split|done|done|done|done|cbn; lia|cbn; rewrite Hdd; lia]. }
  destruct (wait_block _ _ _ _ H1) as (Ho' & Hb' & Hs' & Hc').
  assert (0 < xItemsWaiting r ≤ xSize r) as Hi.
  { core_facts H1. pose proof (count_bound _ _ _ _ _ Ksize Kmod Kwait). cbn in *. rewrite Kcount.
    pose proof (core_pointers _ _ _ H1) as (_ & _ & _ & _ & _ & T1 & T2). cbn in T1, T2.
    rewrite total_app in Ktotal. cbn [total] in *.
    unfold count_items in *. rewrite filter_cons in *. rewrite decide_True in * by done.
    rewrite zlen_cons in *. pose proof (zlen_nonneg (filter (λ b, is_dummy b = false) rest)). lia. }
  pose proof (next_adv _ _ _ (pucHead r) Hb' Hd ltac:(pose proof (rc_size _ _ _ H); cbn; lia)) as Hnx.
  pose proof (core_take r1) as Htake. destruct Hs as [Sl Sf _]. destruct Hs' as [Sl' Sf' _].
  destruct Hb' as [B1 B2 B3 B4 B5 B6]. specialize (B6 Hd) as [B6 B7]. cbn in *.
  core_facts H. pose proof (align_spec (b_len b) ltac:(lia)) as Ha.
  unfold prvGetItemDefault, pos_ok, rbHEADER_SIZE, get_xItemLen, get_uxItemFlags in *.
  assert (pucHead r + b_off d = pucRead r) as Hrd by lia. rewrite Hrd in *.
  assert (b_off b = 0) as Hb0 by lia. rewrite Hb0, Z.add_0_r in *.
  wp_steps. apply wp_assert; [rewrite Hav; lia|]. wp_steps. apply wp_assert; [rewrite aligned_spec; lia|].
  wp_steps. apply wp_assert; [lia|]. wp_steps. apply wp_load32; [lia|lia|]. wp_steps.
  apply wp_load32; [lia|lia|]. unfold is_dummy in Hdd. rewrite Sl, Sf, Hdd. wp_steps.
  apply wp_assert; [lia|]. wp_steps. apply wp_load32; cbn; [lia|lia|]. rewrite Sl'. wp_steps.
  apply wp_assert; [lia|]. wp_steps. apply wp_load32; cbn; [lia|lia|]. rewrite Sl'. wp_steps.
  apply wp_assert; [split_ifs; lia|]. wp_steps. apply wp_load32; cbn; [lia|lia|]. rewrite Sf'. wp_steps.
  apply wp_wrap_read; cbn; [lia|]. wp_steps. split; [done|].
  split_and!; [|by split|done..].
  replace (out ++ [d; b]) with ((out ++ [d]) ++ [b]) by (by rewrite <- app_assoc).
  eapply Htake; try exact H1; cbn; try done.
  - by rewrite Hnx, <- Ktail.
  - rewrite Hd, i32_small by lia. done.
Qed.

(** ** Returning *)

(** The flags of a returned block. *)
Definition freed_flags (f : Z) : Z := Z.lor (clear f rbITEM_SPLIT_FLAG) rbITEM_FREE_FLAG.

Definition freeable (b : blk) : bool := is_freed b || is_dummy b.

(** Header flags are four bits, so facts about them can be checked one by one. *)
Lemma four_bits (P : Z → Prop) :
  Forall P [0;1;2;3;4;5;6;7;8;9;10;11;12;13;14;15] → ∀ f, 0 ≤ f < 16 → P f.
Proof.
  intros H f Hf. rewrite Forall_forall in H. apply H. rewrite !elem_of_cons. lia.
Qed.

Lemma freed_flags_facts f : 0 ≤ f < 16 →
  0 ≤ freed_flags f < 16 ∧ flag (freed_flags f) rbITEM_FREE_FLAG = true ∧
  flag (freed_flags f) rbITEM_DUMMY_DATA_FLAG = flag f rbITEM_DUMMY_DATA_FLAG.
Proof. revert f. apply four_bits. repeat (constructor; [split_and!; done|]). constructor. Qed.

Lemma freeable_flag f : 0 ≤ f < 16 →
  flag f (Z.lor rbITEM_FREE_FLAG rbITEM_DUMMY_DATA_FLAG) =
  flag f rbITEM_FREE_FLAG || flag f rbITEM_DUMMY_DATA_FLAG.
Proof. revert f. apply four_bits. repeat (constructor; [done|]). constructor. Qed.

(** Changing the flags of one block handed out. *)
Lemma core_mark r l1 b l2 wait v :
  ring_core r (l1 ++ b :: l2) wait → is_dummy b = false →
  0 ≤ v < 16 → flag v rbITEM_DUMMY_DATA_FLAG = false →
  ring_core (set_storage (st32 (storage r) (pucHead r + b_off b + 4) v) r)
    (l1 ++ set_b_flags v b :: l2) wait.
Proof.
  intros H Hd Hv Hvd. pose proof (core_pointers _ _ _ H) as (Pf & _). core_facts H.
  set (b' := set_b_flags v b).
  assert (is_dummy b' = false) as Hd' by done.
  assert (ext (xSize r) b' = ext (xSize r) b) as Hext by (unfold ext; by rewrite Hd, Hd').
  assert (next (xSize r) b' = next (xSize r) b) as Hnext by (unfold next; by rewrite Hext).
  apply chain_app in Kout as (x & C1 & Hx & Hb & C2).
  assert (blk_ok (xSize r) (xMaxItemSize r) b') as Hb'.
  { destruct Hb as [B1 B2 B3 B4 B5 B6]. split; try done. intros _. by apply B6. }
  assert (chain (xSize r) (xMaxItemSize r) (pucFree r - pucHead r) (l1 ++ b :: (l2 ++ wait))
            (pucWrite r - pucHead r)) as Hall.
  { apply chain_app. exists x. split; [done|]. cbn [chain]. split_and!; [done|done|].
    apply chain_app. by exists (pucRead r - pucHead r). }
  rewrite <- app_assoc in Ktotal, Kstored. simpl in Ktotal, Kstored.
  pose proof (ext_spec _ _ _ Hb ltac:(lia) Kmod) as (E1 & E2 & _ & E4 & _). specialize (E4 Hd).
  unfold rbHEADER_SIZE in E1, E4.
  split; cbn; try done.
  - apply chain_app. exists x. split; [done|]. cbn [chain]. by rewrite Hnext.
  - rewrite <- app_assoc. simpl. rewrite total_app in *. cbn [total] in *. by rewrite Hext.
  - rewrite <- app_assoc. simpl. rewrite Forall_app, Forall_cons in *.
    destruct Kstored as (S1 & S2 & S3).
    assert (∀ c, c ∈ l1 ++ (l2 ++ wait) → stored (storage r) (pucHead r) c →
      stored (st32 (storage r) (pucHead r + b_off b + 4) v) (pucHead r) c) as Hother.
    { intros c Hc Hs.
      pose proof (chain_disjoint _ _ Ksize Kmod _ _ _ _ _ c Pf Hall Ktotal Hc) as Hdis.
      assert (blk_ok (xSize r) (xMaxItemSize r) c) as Hok.
      { destruct (chain_pos _ _ Ksize Kmod _ _ _ c Pf Hall Ktotal) as (w & _ & _ & _ & Hw); [|done].
        rewrite elem_of_app, elem_of_cons. rewrite elem_of_app in Hc. tauto. }
      eapply stored_ext; [exact Hok|lia|done| |exact Hs]. intros y Hy. apply st32_other. lia. }
    split_and!.
    + rewrite Forall_forall in *. intros c Hc. apply Hother; [apply elem_of_app; auto|by apply S1].
    + destruct S2 as [Sl Sf Sd]. split; cbn.
      * by rewrite ld32_st32_ne by lia.
      * apply ld32_st32_eq. lia.
      * intros _. rewrite ldbytes_st32_ne; [by apply Sd|]. unfold rbHEADER_SIZE. lia.
    + rewrite Forall_forall in *. intros c Hc. apply Hother; [apply elem_of_app; auto|by apply S3].
Qed.

(** Dropping the first block of the chain; the code may still write its header. *)
Lemma core_drop r r' b out wait :
  ring_core r (b :: out) wait →
  same_struct r r' → confined (xSize r) (pucHead r) [b] (storage r) (storage r') →
  pucFree r' = pucHead r + next (xSize r) b → pucRead r' = pucRead r → pucWrite r' = pucWrite r →
  pucAcquire r' = pucAcquire r → xItemsWaiting r' = xItemsWaiting r →
  ring_core r' out wait.
Proof.
  intros H [S1 S2 S3 S4 S5 S6 S7] Hm E1 E2 E3 E4 E5.
  pose proof (core_pointers _ _ _ H) as (Pf & _). core_facts H.
  destruct Kout as (Ho & Hb & Hc). pose proof (next_pos _ _ Ksize Kmod _ Hb) as Pn.
  pose proof (ext_spec _ _ _ Hb ltac:(lia) Kmod) as (X1 & _).
  assert (chain (xSize r) (xMaxItemSize r) (pucFree r - pucHead r) ([] ++ b :: (out ++ wait))
            (pucWrite r - pucHead r)) as Hall.
  { cbn [app chain]. split_and!; [done|done|]. apply chain_app. by exists (pucRead r - pucHead r). }
  assert (pucHead r + next (xSize r) b - pucHead r = next (xSize r) b) as En by lia.
  simpl in Ktotal, Kstored. rewrite Forall_cons in Kstored. destruct Kstored as [_ Kstored].
  unfold pos_ok, rbHEADER_SIZE in *.
  split; rewrite ?S1, ?S2, ?S3, ?S4, ?S5, ?S6, ?S7, ?E1, ?E2, ?E3, ?E4, ?E5, ?En; try done; try lia.
  - unfold rbHEADER_SIZE. lia.
  - rewrite Forall_forall in *. intros c Hin. specialize (Kstored c Hin).
    pose proof (chain_disjoint _ _ Ksize Kmod _ [] _ _ _ c Pf Hall Ktotal Hin) as Hdis.
    assert (blk_ok (xSize r) (xMaxItemSize r) c) as Hok.
    { destruct (chain_pos _ _ Ksize Kmod _ _ _ c Pf Hall Ktotal) as (w & _ & _ & _ & Hw); [|done].
      simpl. rewrite elem_of_cons. auto. }
    eapply stored_ext; [exact Hok|lia|done| |exact Kstored]. intros y Hy. apply Hm.
    intros b' ->%list_elem_of_singleton. lia.
Qed.

(** One iteration of the loop on a chain that starts with a free or dummy block
    drops that block. *)
Lemma free_step_drop r b out wait allow freed :
  ring_core r (b :: out) wait → freeable b = true →
  pucFree r ≠ pucRead r ∨ allow = true →
  wp (free_advance_step (pucFree r, allow, freed)) r (λ x r',
    x = inl (pucFree r', false, true) ∧ ring_core r' out wait ∧ same_struct r r' ∧
    uxRingbufferFlags r' = uxRingbufferFlags r).
Proof.
  intros H Hfr Hal. pose proof (core_pointers _ _ _ H) as (Pf & _). core_facts H.
  pose proof (core_drop r) as Hdrop. destruct Kout as (Ho & Hb & Hc).
  rewrite Forall_app, Forall_cons in Kstored. destruct Kstored as ((Sb & _) & _).
  destruct Sb as [Sl Sf _].
  pose proof (ext_spec _ _ _ Hb ltac:(lia) Kmod) as (X1 & _).
  assert (pucHead r + b_off b = pucFree r) as Hpf by lia. rewrite Hpf in *.
  unfold free_advance_step, pos_ok, rbHEADER_SIZE in *. wp_steps.
  apply wp_load32; [lia|lia|]. wp_steps. rewrite Sf.
  rewrite freeable_flag by apply Hb. unfold freeable, is_freed, is_dummy in Hfr. rewrite Hfr.
  assert (negb (pucFree r =? pucRead r) || allow = true) as -> by (destruct Hal as [?| ->]; lia).
  simpl. destruct (flag (b_flags b) rbITEM_DUMMY_DATA_FLAG) eqn:Hd.
  - wp_steps. apply wp_store32; [lia|lia|]. wp_steps.
    assert (next (xSize r) b = 0) as Hn0.
    { unfold next, ext. unfold is_dummy. rewrite Hd. wr_facts. lia. }
    apply wp_wrap_free; cbn; [lia|]. wp_steps.
    pose proof (adv_spec (pucTail r) (pucHead r) (pucHead r)).
    split_and!; [done| |by split|done].
    eapply Hdrop; try exact H; cbn; try done; try lia. 
    intros x Hx. specialize (Hx b ltac:(rewrite elem_of_cons; auto)). apply st32_other. lia.
  - pose proof (next_adv _ _ _ (pucHead r) Hb Hd ltac:(lia)) as Hnx.
    destruct Hb as [B1 B2 B3 B4 B5 B6]. specialize (B6 Hd) as [B6 _].
    pose proof (align_spec (b_len b) ltac:(lia)) as Ha. unfold rbHEADER_SIZE in *.
    wp_steps. apply wp_load32; [lia|lia|]. rewrite Sl. wp_steps. apply wp_assert; [cbn; lia|]. wp_steps.
    apply wp_wrap_free; cbn; [lia|]. wp_steps.
    split_and!; [done| |by split|done].
    eapply Hdrop; try exact H; cbn; try done.
    rewrite Hnx, <- Ktail, Hpf. f_equal. lia.
Qed.

Lemma length_bound sz mx p l q :
  16 ≤ sz < 2 ^ 30 → sz mod 4 = 0 → chain sz mx p l q → 8 * zlen l ≤ total sz l.
Proof.
  intros Hsz H4. revert p. induction l as [|b l IH]; intros p; simpl; [done|].
  intros (_ & Hb & Hc). apply IH in Hc. pose proof (ext_spec _ _ _ Hb ltac:(lia) H4).
  unfold rbHEADER_SIZE in *. rewrite zlen_cons. lia.
Qed.

(** The free pointer is back at the read pointer only after a full turn. *)
Lemma free_eq_read r b out wait :
  ring_core r (b :: out) wait → pucFree r = pucRead r → total (xSize r) (b :: out) = xSize r.
Proof.
  intros H He. pose proof (core_pointers _ _ _ H) as (Pf & _ & _ & Er & _ & _ & T2). core_facts H.
  pose proof (chain_total_nonneg _ _ Ksize Kmod _ _ _ Kout) as [_ Hpos]. specialize (Hpos ltac:(done)).
  rewrite total_app in Ktotal. unfold pos_ok, rbHEADER_SIZE in *. wr_facts. lia.
Qed.

(** The loop drops exactly the free and dummy blocks at the front. *)
Lemma free_loop r out wait allow :
  ring_core r out wait → out ≠ [] → (pucFree r = pucRead r → allow = true) →
  wp (iterM (ring_fuel r) free_advance_step (pucFree r, allow, false)) r (λ freed r',
    ∃ pre out', out = pre ++ out' ∧ Forall (λ b, freeable b = true) pre ∧
      freed = negb (bool_decide (pre = [])) ∧
      ring_core r' out' wait ∧ same_struct r r' ∧ uxRingbufferFlags r' = uxRingbufferFlags r).
Proof.
  intros H Hne Hal.
  set (I := λ (n : nat) (l : Z * bool * bool) (s : Ringbuffer_t), ∃ pre out',
    out = pre ++ out' ∧ Forall (λ b, freeable b = true) pre ∧ n = length out' ∧
    l = (pucFree s, bool_decide (pre = []) && allow, negb (bool_decide (pre = []))) ∧
    ring_core s out' wait ∧ same_struct r s ∧ uxRingbufferFlags s = uxRingbufferFlags r ∧
    (pre = [] → s = r)).
  apply (wp_iter _ I) with (n := length out).
  - intros n l s (pre & out' & -> & Hpre & -> & -> & Hs & Hss & Hfl & Hsr).
    pose proof (core_pointers _ _ _ Hs) as (Pf & _). core_facts Hs.
    destruct out' as [|b out']; [|destruct (freeable b) eqn:Hb].
    + (* nothing left: the pointer has reached [pucRead] *)
      assert (pre ≠ []) as Hp by (by rewrite app_nil_r in Hne).
      rewrite (bool_decide_eq_false_2 (pre = [])) by done.
      unfold free_advance_step, pos_ok, rbHEADER_SIZE in *. wp_steps. apply wp_load32; [lia|lia|]. wp_steps.
      rewrite (proj2 (Z.eqb_eq (pucFree s) (pucRead s))) by (simpl in Kout; lia).
      rewrite andb_false_r. wp_steps. exists pre, []. split_and!; try done.
      by rewrite bool_decide_eq_false_2.
    + eapply wp_mono; [eapply free_step_drop; try exact Hs; try done|].
      { destruct (decide (pucFree s = pucRead s)) as [He|]; [right|by left].
        destruct pre as [|c pre]; [rewrite (Hsr eq_refl) in He; by rewrite Hal|exfalso].
        pose proof (free_eq_read _ _ _ _ Hs He) as Ht. destruct Hss as [S1 S2 S3 S4 S5 S6 S7].
        rewrite S2 in Ht. pose proof (rc_out _ _ _ H) as Ho. apply chain_app in Ho as (x & Hc & _).
        pose proof (chain_total_nonneg _ _ (rc_size _ _ _ H) (rc_modsz _ _ _ H) _ _ _ Hc) as [_ Hc'].
        specialize (Hc' ltac:(done)). pose proof (rc_total _ _ _ H) as Htot.
        pose proof (core_pointers _ _ _ H) as (_ & _ & _ & _ & _ & _ & T2).
        rewrite !total_app in Htot. unfold rbHEADER_SIZE in *. lia. }
      intros x s' (-> & Hs' & Hss' & Hfl'). exists (length out'). split; [simpl; lia|].
      exists (pre ++ [b]), out'. assert (pre ++ [b] ≠ []) by (by destruct pre).
      rewrite (bool_decide_eq_false_2 (pre ++ [b] = [])) by done.
      split_and!; try done; [by rewrite <- app_assoc|apply Forall_app; split; [done|by constructor]| |].
      * by etrans.
      * congruence.
    + (* the first block is still in use *)
      destruct Kout as (Ho & Hbo & _). pose proof Kstored as Ks.
      rewrite Forall_app, Forall_cons in Ks. destruct Ks as ((Sb & _) & _). destruct Sb as [_ Sf _].
      unfold free_advance_step, pos_ok, rbHEADER_SIZE in *. wp_steps. apply wp_load32; [lia|lia|]. wp_steps.
      replace (pucFree s + 4) with (pucHead s + b_off b + 4) by lia. rewrite Sf, freeable_flag by apply Hbo.
      unfold freeable, is_freed, is_dummy in Hb. rewrite Hb. simpl. wp_steps.
      by exists pre, (b :: out').
  - exists [], out. by split_and!.
  - core_facts H. pose proof (length_bound _ _ _ _ _ Ksize Kmod Kout) as Hl.
    pose proof (core_pointers _ _ _ H) as (_ & _ & _ & _ & _ & _ & T2). rewrite total_app in Ktotal.
    unfold ring_fuel, rbHEADER_SIZE, zlen in *. lia.
Qed.

Lemma clear_full_struct r : same_struct r (clear_full r).
Proof. split; cbn; try done; by apply flag_ldiff_disjoint. Qed.

Lemma core_clear_full r out wait : ring_core r out wait → ring_core (clear_full r) out wait.
Proof.
  intros H. core_facts H. destruct (clear_full_struct r) as [_ _ _ _ _ S6 S7].
  by split; rewrite ?S6, ?S7.
Qed.

(** Returning a block that was handed out. *)
Lemma return_block r l1 b l2 wait :
  ring_core r (l1 ++ b :: l2) wait →
  is_full r = (xSize r =? total (xSize r) ((l1 ++ b :: l2) ++ wait)) →
  freeable b = false →
  wp (prvReturnItemDefault (pucHead r + b_off b + rbHEADER_SIZE)) r (λ _ r', ∃ pre out',
    l1 ++ set_b_flags (freed_flags (b_flags b)) b :: l2 = pre ++ out' ∧
    Forall (λ b, freeable b = true) pre ∧ ring_core r' out' wait ∧
    is_full r' = (xSize r =? total (xSize r) (out' ++ wait)) ∧ same_struct r r').
Proof.
  intros H Hfull Hb. unfold freeable in Hb. apply orb_false_iff in Hb as [Hnf Hnd].
  core_facts H. apply chain_app in Kout as (x & C1 & Hx & Hok & C2).
  rewrite <- app_assoc, Forall_app in Kstored. simpl in Kstored. rewrite Forall_cons in Kstored.
  destruct Kstored as (_ & Sb & _). destruct Sb as [Sl Sf _].
  destruct (freed_flags_facts (b_flags b) (bo_flags _ _ _ Hok)) as (F1 & F2 & F3).
  pose proof (core_mark _ _ _ _ _ _ H Hnd F1 ltac:(rewrite F3; exact Hnd)) as Hmark.
  assert (total (xSize r) ((l1 ++ set_b_flags (freed_flags (b_flags b)) b :: l2) ++ wait) =
          total (xSize r) ((l1 ++ b :: l2) ++ wait)) as Htot.
  { rewrite !total_app. cbn [total]. do 3 f_equal. unfold ext.
    replace (is_dummy (set_b_flags (freed_flags (b_flags b)) b)) with (is_dummy b)
      by (symmetry; exact F3). done. }
  destruct Hok as [B1 B2 B3 B4 B5 B6]. specialize (B6 Hnd) as [B6 _].
  pose proof (align_spec (b_len b) ltac:(lia)) as Ha. unfold is_dummy, is_freed in *.
  unfold prvReturnItemDefault, rbHEADER_SIZE in *.
  replace (pucHead r + b_off b + 8 - 8) with (pucHead r + b_off b) by lia.
  wp_steps. apply wp_assert; [rewrite aligned_spec; lia|]. wp_steps. apply wp_assert; [lia|].
  wp_steps. apply wp_assert; [lia|]. wp_steps. apply wp_load32; [lia|lia|]. rewrite Sl. wp_steps.
  apply wp_assert; [lia|]. wp_steps. apply wp_load32; [lia|lia|]. rewrite Sf, Hnd, Hnf. wp_steps.
  apply wp_assert; [done|]. wp_steps. apply wp_assert; [done|]. wp_steps.
  apply wp_store32; [lia|lia|]. wp_steps.
  set (r1 := set_storage _ r) in *.
  eapply wp_mono; [apply (free_loop r1 _ wait _ Hmark); [by destruct l1|]|].
  { intros He. apply orb_true_iff. left.
    destruct (l1 ++ set_b_flags (freed_flags (b_flags b)) b :: l2) as [|c l] eqn:El; [by destruct l1|].
    pose proof (free_eq_read _ _ _ _ Hmark He) as Ht. change (is_full r1) with (is_full r).
    pose proof (core_pointers _ _ _ Hmark) as (_ & _ & _ & _ & _ & _ & T2). cbn in Ht, T2.
    rewrite Hfull, <- Htot, total_app. rewrite <- Htot, total_app in Ktotal. cbn [total] in *. lia. }
  intros freed s (pre & out' & El & Hpre & -> & Hs & Hss & Hfl). wp_steps.
  exists pre, out'.
  assert (same_struct r s) as Hrs by (etrans; [|exact Hss]; by split).
  assert (is_full s = is_full r) as Hfs by (unfold is_full; by rewrite Hfl).
  rewrite Hfs. destruct pre as [|c pre]; simpl in El |- *.
  { rewrite andb_false_r. split_and!; try done. by rewrite Hfs, Hfull, <- Htot, El. }
  rewrite andb_true_r.
  assert (total (xSize r) (out' ++ wait) < xSize r) as Hlt.
  { rewrite <- Htot, El in Ktotal. pose proof (rc_out _ _ _ Hmark) as Ho. rewrite El in Ho.
    change (c :: pre ++ out') with ((c :: pre) ++ out') in *. apply chain_app in Ho as (y & Hc & _).
    pose proof (chain_total_nonneg _ _ Ksize Kmod _ _ _ Hc) as [_ Hc']. specialize (Hc' ltac:(done)).
    rewrite !total_app in *. unfold rbHEADER_SIZE in *. lia. }
  destruct (is_full r) eqn:Hfr.
  - split_and!; [done|done|by apply core_clear_full| |].
    + unfold is_full, clear_full. cbn. rewrite flag_ldiff_self. lia.
    + etrans; [exact Hrs|apply clear_full_struct].
  - split_and!; try done. rewrite Hfs. lia.
Qed.
