(* ===== verification/RingbufItems.v ===== *)
(** * No-split and allow-split buffers refine a FIFO of items

    The operations of the API on an item buffer act as those of a FIFO of items.
    A client that sends, receives and returns items in any order observes exactly
    that, and what it holds is never overwritten. *)
From Stdlib Require Import ZArith Lia.
From stdpp Require Import base numbers option list.
From S2P Require Import Prelude Ringbuf RingbufByte RingbufChain RingbufSplit RingbufNoSplit RingbufTake.

Open Scope Z_scope.

(** The refinement relation: the items waiting are [items]. *)
Record items_rel (r : Ringbuffer_t) (out wait : list blk) (items : list (list Z)) : Prop := {
  ir_core : ring_core r out wait;
  ir_full : is_full r = (xSize r =? total (xSize r) (out ++ wait));
  ir_wait : waiting (xType r) wait items
}.

(** What the client of a block sees: the address of its data and the data. *)
Definition piece (hd : Z) (b : blk) : Z * list Z := (hd + b_off b + rbHEADER_SIZE, b_data b).

(** The blocks handed out and not returned. *)
Definition live (out : list blk) : list blk := filter (λ b, freeable b = false) out.

(** A client of an item buffer: it sends items, receives them and returns the
    [k]-th piece it holds.  It never waits. *)
Inductive item_op : Type :=
| ItemSend (bs : list Z)
| ItemReceive
| ItemReturn (k : nat).

(** The pieces it holds (address and the bytes it read there), all the items the
    buffer accepted and all the items it received. *)
Record item_client : Type := mkItemClient {
  ic_held : list (Z * list Z); ic_sent : list (list Z); ic_received : list (list Z)
}.

Section client_run.
Context (yield_required : TCB_t → bool) (self : TCB_t).

Definition receive_item : RB (option (option recv_result)) :=
  t ← gets xType;
  match t with
  | RINGBUF_TYPE_ALLOWSPLIT => xRingbufferReceiveSplit self [] 0
  | _ => xRingbufferReceive self [] 0
  end.

(** The pieces of a received item, read from the storage. *)
Definition read_pieces (m : mem) (x : recv_result) : list (Z * list Z) :=
  (rr_item1 x, ldbytes m (rr_item1 x) (rr_size1 x)) ::
  match rr_item2 x with Some (p, n) => [(p, ldbytes m p n)] | None => [] end.

Definition item_step (c : item_client) (op : item_op) : RB item_client :=
  match op with
  | ItemSend bs =>
      x ← xRingbufferSend yield_required self (Some bs) (zlen bs) [] 0;
      mret (match x with
            | Some res => if sr_return res then mkItemClient (ic_held c) (ic_sent c ++ [bs]) (ic_received c) else c
            | None => c
            end)
  | ItemReceive =>
      x ← receive_item;
      m ← gets storage;
      mret (match x with
            | Some (Some res) =>
                mkItemClient (ic_held c ++ read_pieces m res) (ic_sent c)
                  (ic_received c ++ [concat (read_pieces m res).*2])
            | _ => c
            end)
  | ItemReturn k =>
      match ic_held c !! k with
      | None => mret c
      | Some (p, _) =>
          vRingbufferReturnItem yield_required (Some p);;
          mret (mkItemClient (delete k (ic_held c)) (ic_sent c) (ic_received c))
      end
  end.

Fixpoint item_run (c : item_client) (ops : list item_op) : RB item_client :=
  match ops with
  | [] => mret c
  | op :: ops' => c' ← item_step c op; item_run c' ops'
  end.
End client_run.

(** ** Lemmas *)

Lemma waiting_snoc t w ds g d : waiting t w ds → group t g d → waiting t (w ++ g) (ds ++ [d]).
Proof.
  induction 1 as [|g' d' bs ds' Hg' Hw IH]; intros Hg; simpl.
  - rewrite <- (app_nil_r g). by repeat constructor.
  - rewrite <- app_assoc. constructor; [done|by apply IH].
Qed.

(** The lists of blocked tasks do not matter. *)
Lemma items_rel_waiting_recv r out wait items l :
  items_rel r out wait items → items_rel (set_waiting_recv l r) out wait items.
Proof. intros [H1 H2 H3]. core_facts H1. by split; [split|..]. Qed.
Lemma items_rel_waiting_send r out wait items l :
  items_rel r out wait items → items_rel (set_waiting_send l r) out wait items.
Proof. intros [H1 H2 H3]. core_facts H1. by split; [split|..]. Qed.

Lemma notify_items yr r out wait items (Q : option Z * bool → Ringbuffer_t → Prop) :
  items_rel r out wait items →
  (∀ x r', items_rel r' out wait items → same_struct r r' → Q x r') → wp (notify_receivers yr) r Q.
Proof.
  intros Hr HQ. unfold notify_receivers, unblock_receiver. wp_steps.
  destruct (xQueueSet r); wp_steps; [by apply HQ|].
  destruct (xTasksWaitingToReceive r); wp_steps; apply HQ; try done; by try apply items_rel_waiting_recv.
Qed.

Lemma unblock_sender_items yr r out wait items (Q : bool → Ringbuffer_t → Prop) :
  items_rel r out wait items →
  (∀ x r', items_rel r' out wait items → same_struct r r' → Q x r') → wp (unblock_sender yr) r Q.
Proof.
  intros Hr HQ. unfold unblock_sender. wp_steps.
  destruct (xTasksWaitingToSend r); wp_steps; apply HQ; try done; by try apply items_rel_waiting_send.
Qed.

(** An attempt to send that passed the fit test appends the item. *)
Lemma attempt_items yr r out wait items bs :
  items_rel r out wait items → zlen bs ≤ xMaxItemSize r → xCheckItemFits (zlen bs) r = Done r true →
  wp (vCopyItem bs (zlen bs);; n ← notify_receivers yr; mret (Some (mkSend true None (fst n)))) r (λ x r',
    same_struct r r' ∧ ∃ n wait', x = Some (mkSend true None n) ∧ items_rel r' out wait' (items ++ [bs])).
Proof.
  intros Hr Hmx Hfit. pose proof Hr as [Hc Hf Hw]. pose proof (zlen_nonneg bs). core_facts Hc.
  assert (placement (xSize r) (pucAcquire r - pucHead r) (total (xSize r) (out ++ wait)) (zlen bs)
            (bool_decide (xType r = RINGBUF_TYPE_ALLOWSPLIT))) as Hpl.
  { pose proof (fits_items r out wait (zlen bs) Hc Hf ltac:(lia)) as H0. unfold wp in H0.
    rewrite Hfit in H0. by apply H0. }
  unfold vCopyItem. wp_steps.
  assert (wp (match xType r with
       | RINGBUF_TYPE_NOSPLIT => prvCopyItemNoSplit bs (zlen bs)
       | RINGBUF_TYPE_ALLOWSPLIT => prvCopyItemAllowSplit bs (zlen bs)
       | RINGBUF_TYPE_BYTEBUF => prvCopyItemByteBuf bs (zlen bs)
       end) r (λ _ r', appended r r' out wait bs)) as Hcopy.
  { destruct Ktype as [E|E]; rewrite E in Hpl |- *.
    - by apply copy_nosplit.
    - by apply copy_allowsplit. }
  eapply wp_mono; [exact Hcopy|]. intros _ r' (g & Hg & Hc' & Hf' & Hss). wp_steps.
  pose proof Hss as [S1 S2 S3 S4 S5 S6 S7].
  eapply (notify_items _ _ out (wait ++ g) (items ++ [bs])).
  { split; [done|by rewrite S2|]. rewrite S1. by apply waiting_snoc. }
  intros n r'' Hr'' Hss'. wp_steps. split; [by etrans|by eexists _, _].
Qed.

(** The fit test always gives an answer. *)
Lemma fits_total r out wait items n :
  items_rel r out wait items → 0 ≤ n ≤ xMaxItemSize r → ∃ b, xCheckItemFits n r = Done r b.
Proof.
  intros [Hc Hf _] Hn. pose proof (fits_items r out wait n Hc Hf Hn) as H.
  apply wp_done in H as (b & r' & E & -> & _). by exists b.
Qed.

(** Other tasks leave a well-formed buffer. *)
Definition respects (f : Ringbuffer_t → Ringbuffer_t) : Prop :=
  ∀ r out wait items, items_rel r out wait items →
    same_struct r (f r) ∧ ∃ out' wait' items', items_rel (f r) out' wait' items'.

(** Whether the fit test says yes. *)
Definition fits (n : Z) (r : Ringbuffer_t) : bool := match xCheckItemFits n r with Done _ b => b | _ => false end.

(** The buffer after a task that waits to send was woken up for each entry of [env]. *)
Fixpoint others (self : TCB_t) (env : wait_env) (r : Ringbuffer_t) : Ringbuffer_t :=
  match env with
  | [] => r
  | (_, f) :: env' => others self env' (f (set_waiting_send (vTaskPlaceOnEventList self (xTasksWaitingToSend r)) r))
  end.

(** Whether the time is over after [k] wake-ups. *)
Definition time_over (ticks : Z) (env : wait_env) (k : nat) : bool :=
  match env !! k with
  | Some (None, _) => true
  | _ => match k with
         | O => ticks =? 0
         | S j => match env !! j with Some (Some t, _) => t =? 0 | _ => false end
         end
  end.

(** A send that waits ended after [k] wake-ups: before that the item did not fit; if it
    fits then it was appended to what the buffer holds, and otherwise the buffer is as the
    others left it and the send gave up because the time was over, or it still waits. *)
Definition sent_after (self : TCB_t) (bs : list Z) (env : wait_env) (ticks : Z) (r : Ringbuffer_t) (k : nat)
    (x : option send_result) (r' : Ringbuffer_t) : Prop :=
  let r0 := others self (take k env) r in
  (k ≤ length env)%nat ∧
  (∀ j, (j < k)%nat → fits (zlen bs) (others self (take j env) r) = false) ∧
  (∃ out wait items, items_rel r0 out wait items) ∧
  if fits (zlen bs) r0 then
    (∃ n, x = Some (mkSend true None n)) ∧
    ∀ out wait items, items_rel r0 out wait items → ∃ wait', items_rel r' out wait' (items ++ [bs])
  else r' = r0 ∧ if time_over ticks env k then x = Some send_failed else x = None ∧ k = length env.

(** A send with any waiting time. *)
Lemma send_generic_items yr self bs env ticks r out wait items :
  Forall (λ e, respects (snd e)) env → items_rel r out wait items → zlen bs ≤ xMaxItemSize r →
  wp (prvSendAcquireGeneric yr self (Some bs) (zlen bs) env ticks) r (λ x r', ∃ k, sent_after self bs env ticks r k x r').
Proof.
  intros Henv. revert ticks r out wait items.
  assert (∀ env ticks r out wait items, items_rel r out wait items → zlen bs ≤ xMaxItemSize r →
    xCheckItemFits (zlen bs) r = Done r true →
    wp (vCopyItem bs (zlen bs);; n ← notify_receivers yr; mret (Some (mkSend true None (fst n)))) r
      (λ x r', ∃ k, sent_after self bs env ticks r k x r')) as Hnow.
  { intros e ticks r out wait items Hr Hmx Hfit.
    pose proof (attempt_items yr r out wait items bs Hr Hmx Hfit) as H.
    apply wp_done in H as (x & r' & E & _ & n & wait' & -> & _). unfold wp. rewrite E.
    exists 0%nat. unfold sent_after, fits. rewrite take_0. cbn [others]. rewrite Hfit.
    split_and!; [lia|lia|eauto|eauto|]. intros out1 wait1 items1 Hr1.
    pose proof (attempt_items yr r out1 wait1 items1 bs Hr1 Hmx Hfit) as H. unfold wp in H. rewrite E in H. naive_solver. }
  induction Henv as [|[o f] env Hf Henv IH]; intros ticks r out wait items Hr Hmx;
    destruct (fits_total _ _ _ _ (zlen bs) Hr (conj (zlen_nonneg bs) Hmx)) as [[] Hfit];
    cbn [prvSendAcquireGeneric]; apply wp_bind; unfold wp at 1; rewrite Hfit; try by eapply Hnow.
  - assert (∀ x, (if ticks =? 0 then x = Some send_failed else x = None) → ∃ k, sent_after self bs [] ticks r k x r) as H.
    { intros x Hx. exists 0%nat. unfold sent_after, fits, time_over. cbn. rewrite Hfit.
      split_and!; [lia|lia|eauto|done|]. by destruct (ticks =? 0). }
    destruct (ticks =? 0); wp_steps; by apply H.
  - destruct (ticks =? 0) eqn:Et.
    { wp_steps. exists 0%nat. unfold sent_after, fits, time_over. cbn. rewrite Hfit, Et.
      split_and!; [lia|lia|eauto|done|]. by destruct o. }
    destruct o as [t|].
    2:{ wp_steps. exists 0%nat. unfold sent_after, fits, time_over. cbn. rewrite Hfit. split_and!; [lia|lia|eauto|done..]. }
    wp_steps.
    pose proof (items_rel_waiting_send _ _ _ _ (vTaskPlaceOnEventList self (xTasksWaitingToSend r)) Hr) as Hr0.
    destruct (Hf _ _ _ _ Hr0) as (Hss & out' & wait' & items' & Hr'). simpl in Hr'.
    eapply wp_mono; [eapply IH; [exact Hr'|]|].
    { exact (eq_ind_r (λ m, zlen bs ≤ m) Hmx (ss_max _ _ Hss)). }
    intros x r' (k & Hk & Hbefore & Hrel & Hend). exists (S k). unfold sent_after. cbn [take others length].
    split_and!; [lia| |done|].
    + intros [|j] Hj; [cbn; unfold fits; by rewrite Hfit|]. cbn [take others]. apply Hbefore. lia.
    + case_match; [done|]. destruct Hend as [-> Hend]. split; [done|].
      assert (time_over ticks ((Some t, f) :: env) (S k) = time_over t env k) as ->.
      { by destruct k. }
      case_match; [done|]. destruct Hend. split; [done|lia].
Qed.

(** Sending without waiting: the item is appended or nothing happens. *)
Lemma send_items yr self r out wait items bs :
  items_rel r out wait items →
  wp (xRingbufferSend yr self (Some bs) (zlen bs) [] 0) r (λ x r',
    same_struct r r' ∧
    ((∃ n wait', x = Some (mkSend true None n) ∧ items_rel r' out wait' (items ++ [bs])) ∨
     x = Some send_failed ∧ items_rel r' out wait items ∧
     (xMaxItemSize r < zlen bs ∨ xCheckItemFits (zlen bs) r = Done r false))).
Proof.
  intros Hr. pose proof Hr as [Hc Hf Hw]. unfold xRingbufferSend, send_checks. core_facts Hc.
  wp_steps. apply wp_assert; [done|]. wp_steps. rewrite Kbyte. simpl.
  destruct (Z.ltb_spec (xMaxItemSize r) (zlen bs)); wp_steps; [split; [done|right]; by auto|].
  destruct (fits_total _ _ _ _ (zlen bs) Hr ltac:(pose proof (zlen_nonneg bs); lia)) as [[] Hfit];
    unfold wp at 1; rewrite Hfit; [|wp_steps; split; [done|right]; by auto].
  eapply wp_mono; [by apply (attempt_items yr r out wait items)|].
  intros x r' (Hss & n & wait' & -> & Hr'). split; [done|]. eauto.
Qed.

(** Sending with any waiting time, through the public function. *)
Lemma send_waiting_items yr self r out wait items bs env ticks :
  items_rel r out wait items → Forall (λ e, respects (snd e)) env →
  wp (xRingbufferSend yr self (Some bs) (zlen bs) env ticks) r (λ x r',
    if xMaxItemSize r <? zlen bs then x = Some send_failed ∧ r' = r
    else ∃ k, sent_after self bs env ticks r k x r').
Proof.
  intros Hr Henv. pose proof Hr as [Hc Hf Hw]. unfold xRingbufferSend, send_checks. core_facts Hc.
  wp_steps. apply wp_assert; [done|]. wp_steps. rewrite Kbyte. simpl.
  destruct (Z.ltb_spec (xMaxItemSize r) (zlen bs)); wp_steps; [done|].
  by eapply send_generic_items.
Qed.

Lemma waiting_inv t w d ds :
  waiting t w (d :: ds) → ∃ g w', w = g ++ w' ∧ group t g d ∧ waiting t w' ds.
Proof. inversion 1; subst. eauto. Qed.

Lemma waiting_empty t w : waiting t w [] → w = [].
Proof. by inversion 1. Qed.

(** Every waiting item shows in the counter, and its first block is complete. *)
Lemma group_head t g d :
  group t g d → ∃ b g', g = b :: g' ∧ 0 < count_items g ∧
    (t = RINGBUF_TYPE_NOSPLIT → flag (b_flags b) rbITEM_WRITTEN_FLAG = true).
Proof.
  intros [b Hb|e b He Hb|b1 b2 -> H1 H2 H3]; eexists _, _; (split; [reflexivity|]);
    unfold count_items, is_dummy; rewrite ?filter_cons, ?filter_nil.
  - rewrite Hb. case_decide; (split; [by vm_compute|]); intros; [done|congruence].
  - rewrite He, Hb. case_decide; (split; [by vm_compute|]); intros; [done|congruence].
  - rewrite H1, H2. split; [by vm_compute|done].
Qed.

(** The live blocks of an item are its pieces. *)
Lemma group_live t g d :
  group t g d → (t = RINGBUF_TYPE_NOSPLIT ∨ t = RINGBUF_TYPE_ALLOWSPLIT) →
  concat (b_data <$> live g) = d.
Proof.
  intros [b Hb|e b He Hb|b1 b2 -> H1 H2 H3] Ht; unfold live, freeable, is_freed, is_dummy;
    rewrite ?filter_cons, ?filter_nil.
  - rewrite Hb. destruct Ht as [-> | ->]; simpl; by rewrite app_nil_r.
  - rewrite He, Hb. destruct Ht as [-> | ->]; simpl; by rewrite app_nil_r.
  - rewrite H1, H2. simpl. by rewrite app_nil_r.
Qed.

Lemma count_nonneg l : 0 ≤ count_items l.
Proof. apply zlen_nonneg. Qed.

(** An item is available exactly when one waits. *)
Lemma avail_items r out wait items :
  items_rel r out wait items →
  wp prvCheckItemAvail r (λ b r', r' = r ∧ b = negb (bool_decide (items = []))).
Proof.
  intros [Hc Hf Hw]. pose proof (wait_ready _ _ _ Hc Hf) as Hrdy. core_facts Hc.
  unfold prvCheckItemAvail. wp_steps. rewrite Kbyte. simpl.
  destruct items as [|d items].
  { apply waiting_empty in Hw as ->. rewrite Kcount. simpl. by wp_steps. }
  apply waiting_inv in Hw as (g & w' & -> & Hg & Hw). apply group_head in Hg as (b & g' & -> & Hn & Hwr).
  rewrite Kcount, count_app, (proj2 (Z.ltb_lt 0 _)) by (pose proof (count_nonneg w'); lia).
  rewrite Hrdy by done. simpl in *.
  destruct (wait_block _ _ _ _ Hc) as (Ho & [_ _ Hroom _ _ _] & [_ Sf _] & _). unfold rbHEADER_SIZE in *.
  pose proof (core_pointers _ _ _ Hc) as (_ & Pr & _). unfold pos_ok in Pr.
  assert (flag (uxRingbufferFlags r) (Z.lor rbBYTE_BUFFER_FLAG rbALLOW_SPLIT_FLAG) =
          bool_decide (xType r = RINGBUF_TYPE_ALLOWSPLIT)) as ->.
  { by rewrite flag_lor_mask, Kbyte, Ksplit. }
  destruct Ktype as [E|E]; rewrite E in *; simpl; [|by wp_steps].
  wp_steps. apply wp_load32; [lia|lia|]. replace (pucRead r + 4) with (pucHead r + b_off b + 4) by lia.
  rewrite Sf, Hwr by done. by wp_steps.
Qed.

(** What a receive gives: the first waiting item, now handed out. *)
Definition received_item (r r' : Ringbuffer_t) (out wait : list blk) (d : list Z) (items : list (list Z))
    (x : recv_result) : Prop :=
  ∃ g wait', wait = g ++ wait' ∧ items_rel r' (out ++ g) wait' items ∧
    read_pieces (storage r) x = piece (pucHead r) <$> live g ∧ concat (read_pieces (storage r) x).*2 = d.

(** The bytes of a block read by its client. *)
Lemma read_block m hd b n :
  stored m hd b → is_dummy b = false → n = b_len b →
  (hd + b_off b + rbHEADER_SIZE, ldbytes m (hd + b_off b + rbHEADER_SIZE) n) = piece hd b.
Proof. intros [_ _ H] Hd ->. unfold piece. by rewrite H. Qed.

(** The second part of a split item lies before the first. *)
Lemma split_order r out b1 b2 rest :
  ring_core r out (b1 :: b2 :: rest) → b_off b2 = 0 → 0 < b_off b1.
Proof.
  intros Hc H2. core_facts Hc. pose proof (core_pointers _ _ _ Hc) as (_ & Pr & _ & _ & _ & T1 & _).
  rewrite total_app in Ktotal.
  pose proof (chain_disjoint _ _ Ksize Kmod _ [] _ _ _ b2 Pr Kwait ltac:(simpl in *; lia)
    ltac:(apply elem_of_app; right; rewrite elem_of_cons; auto)) as Hd.
  destruct Kwait as (_ & B1 & _ & B2 & _).
  pose proof (ext_spec _ _ _ B1 ltac:(lia) Kmod). pose proof (ext_spec _ _ _ B2 ltac:(lia) Kmod).
  pose proof (bo_off _ _ _ B1). unfold rbHEADER_SIZE in *. lia.
Qed.

Lemma retrieve_items r out wait d items :
  items_rel r out wait (d :: items) →
  wp (retrieve 0) r (λ x r', same_struct r r' ∧ storage r' = storage r ∧
    received_item r r' out wait d items x).
Proof.
  intros [Hc Hf Hw]. core_facts Hc. apply waiting_inv in Hw as (g & wait' & -> & Hg & Hw).
  pose proof (group_live _ _ _ Hg Ktype) as Hlive.
  assert (∀ x r', taken r r' (out ++ g) wait' →
    read_pieces (storage r) x = piece (pucHead r) <$> live g →
    same_struct r r' ∧ storage r' = storage r ∧ received_item r r' out (g ++ wait') d items x) as Hdone.
  { intros x r' (T1 & T2 & T3 & T4) Hx. split_and!; [done..|]. exists g, wait'. split_and!; [done| |done|].
    - pose proof T2 as [S1 S2 _ _ _ _ _]. split; [done| |by rewrite S1].
      unfold is_full in *. by rewrite T3, Hf, S2, app_assoc.
    - rewrite Hx, <- Hlive. by rewrite <- list_fmap_compose. }
  assert (∀ Q, wp prvGetItemDefault r Q → wp (pvGetItem 0) r Q) as Hget.
  { intros Q HQ. unfold pvGetItem. wp_steps. by destruct Ktype as [-> | ->]. }
  unfold retrieve. wp_steps. rewrite Kbyte.
  rewrite Forall_app, Forall_app in Kstored. destruct Kstored as (_ & Ksg & _).
  destruct Hg as [b Hb|e b He Hb|b1 b2 Et H1 H2 H3].
  - assert (is_dummy b = false ∧ freeable b = false ∧ flag (b_flags b) rbITEM_SPLIT_FLAG = false) as (D1 & D2 & D3).
    { unfold freeable, is_dummy, is_freed. rewrite Hb. by case_decide. }
    apply Hget. eapply wp_mono; [by apply (get_block r out b wait')|]. intros x r' [-> Ht]. wp_steps.
    rewrite D3, andb_false_r. wp_steps. apply Hdone; [done|]. unfold live. rewrite filter_cons_True by done.
    rewrite Forall_singleton in Ksg. unfold read_pieces; simpl. f_equal. by apply read_block.
  - assert (is_dummy e = true ∧ is_dummy b = false ∧ freeable e = true ∧ freeable b = false ∧
            flag (b_flags b) rbITEM_SPLIT_FLAG = false) as (D0 & D1 & D2' & D2 & D3).
    { unfold freeable, is_dummy, is_freed. rewrite He, Hb. by case_decide. }
    apply Hget. eapply wp_mono; [by apply (get_dummy r out e b wait')|]. intros x r' [-> Ht]. wp_steps.
    rewrite D3, andb_false_r. wp_steps. apply Hdone; [done|]. unfold live.
    rewrite filter_cons_False by (by rewrite D2'). rewrite filter_cons_True by done.
    rewrite !Forall_cons in Ksg. destruct Ksg as (_ & Ksb & _).
    unfold read_pieces; simpl. f_equal. by apply read_block.
  - assert (is_dummy b1 = false ∧ is_dummy b2 = false ∧ freeable b1 = false ∧ freeable b2 = false)
      as (D1 & D1' & D2 & D2').
    { unfold freeable, is_dummy, is_freed. by rewrite H1, H2. }
    apply Hget. eapply wp_mono; [by apply (get_block r out b1 (b2 :: wait'))|].
    intros x r1 [-> (T1 & T2 & T3 & T4)]. wp_steps. rewrite T3, Ksplit, Et, H1. simpl. wp_steps.
    pose proof T2 as [S1 S2 _ S4 _ _ _]. unfold pvGetItem. wp_steps. rewrite S1, Et.
    eapply wp_mono; [apply (get_block r1 (out ++ [b1]) b2 wait' T1); [|done]|].
    { unfold is_full in *. by rewrite T3, Hf, S2, <- app_assoc. }
    intros x r2 [-> (U1 & U2 & U3 & U4)]. wp_steps. rewrite H2, H3, S4. simpl.
    apply wp_assert; [|wp_steps; apply wp_assert; [done|]].
    { pose proof (split_order _ _ _ _ _ Hc H3). lia. }
    wp_steps. apply Hdone.
    + split_and!; [by rewrite <- app_assoc in U1|by etrans|congruence|congruence].
    + unfold live. rewrite !filter_cons_True by done. rewrite !Forall_cons in Ksg. destruct Ksg as (K1 & K2 & _).
      unfold read_pieces; simpl. rewrite <- (read_block _ _ _ _ K1 D1 eq_refl), <- (read_block _ _ _ _ K2 D1' eq_refl).
      by rewrite H3.
Qed.

Lemma receive_items self r out wait items :
  items_rel r out wait items →
  wp (receive_item self) r (λ x r', same_struct r r' ∧ storage r' = storage r ∧
    match items with
    | [] => x = Some None ∧ r' = r
    | d :: items' => ∃ res, x = Some (Some res) ∧ received_item r r' out wait d items' res
    end).
Proof.
  intros Hr. pose proof Hr as [Hc _ _]. core_facts Hc.
  assert (wp (prvReceiveGeneric self 0 [] 0) r (λ x r', same_struct r r' ∧ storage r' = storage r ∧
    match items with
    | [] => x = Some None ∧ r' = r
    | d :: items' => ∃ res, x = Some (Some res) ∧ received_item r r' out wait d items' res
    end)) as H.
  { simpl. wp_steps. eapply wp_mono; [by apply (avail_items r out wait items)|]. intros b r' [-> ->].
    destruct items as [|d items]; simpl; wp_steps; [done|].
    eapply wp_mono; [by apply retrieve_items|]. intros x r' (H1 & H2 & H3). wp_steps. split_and!; eauto. }
  unfold receive_item, xRingbufferReceive, xRingbufferReceiveSplit. wp_steps.
  destruct Ktype as [E|E]; rewrite E in Ksplit |- *; wp_steps; rewrite Ksplit; (apply wp_assert; [done|]); by wp_steps.
Qed.

Lemma live_freeable l : Forall (λ b, freeable b = true) l → filter (λ b, freeable b = false) l = [].
Proof. induction 1 as [|b l Hb _ IH]; [done|]. rewrite filter_cons_False; [done|by rewrite Hb]. Qed.

(** Returning a live block. *)
Lemma return_items yr r out wait items b :
  items_rel r out wait items → b ∈ live out →
  wp (vRingbufferReturnItem yr (Some (fst (piece (pucHead r) b)))) r (λ _ r', ∃ out',
    items_rel r' out' wait items ∧ same_struct r r' ∧ live out ≡ₚ b :: live out').
Proof.
  intros [Hc Hf Hw] Hin. unfold live in Hin. apply list_elem_of_filter in Hin as [Hb Hin].
  apply list_elem_of_split in Hin as (l1 & l2 & ->). unfold vRingbufferReturnItem, vReturnItem. wp_steps.
  assert (wp (prvReturnItemDefault (fst (piece (pucHead r) b))) r (λ _ r', ∃ out',
    items_rel r' out' wait items ∧ same_struct r r' ∧ live (l1 ++ b :: l2) ≡ₚ b :: live out')) as H.
  { eapply wp_mono; [by apply (return_block r l1 b l2 wait)|].
    intros _ r' (pre & out' & El & Hpre & Hc' & Hf' & Hss). exists out'. pose proof Hss as [S1 S2 _ _ _ _ _].
    split_and!; [split; [done|by rewrite S2|by rewrite S1]|done|].
    assert (live (l1 ++ b :: l2) ≡ₚ b :: live (l1 ++ set_b_flags (freed_flags (b_flags b)) b :: l2)) as ->.
    { unfold live. rewrite !filter_app, filter_cons_True, filter_cons_False by
        (try done; core_facts Hc; apply chain_app in Kout as (? & _ & _ & Hok & _);
         unfold freeable, is_freed; simpl;
         by rewrite (proj1 (proj2 (freed_flags_facts _ (bo_flags _ _ _ Hok))))).
      by rewrite Permutation_middle. }
    rewrite El. unfold live. rewrite filter_app.
    by rewrite (live_freeable pre). }
  core_facts Hc.
  assert (∀ Q, wp (prvReturnItemDefault (fst (piece (pucHead r) b))) r Q →
    wp (match xType r with
        | RINGBUF_TYPE_BYTEBUF => prvReturnItemByteBuf (fst (piece (pucHead r) b))
        | _ => prvReturnItemDefault (fst (piece (pucHead r) b)) end) r Q) as Hret.
  { intros Q HQ. by destruct Ktype as [-> | ->]. }
  apply Hret. eapply wp_mono; [exact H|]. intros _ r' (out' & Hr' & Hss & Hp). wp_steps.
  eapply unblock_sender_items; [exact Hr'|]. intros _ r'' Hr'' Hss'. wp_steps. exists out'.
  split_and!; [done|by etrans|done].
Qed.

Lemma init_items sz t p m :
  t = RINGBUF_TYPE_NOSPLIT ∨ t = RINGBUF_TYPE_ALLOWSPLIT →
  16 ≤ sz < 2 ^ 30 → sz mod 4 = 0 → p mod 4 = 0 →
  items_rel (prvInitializeNewRingbuffer sz t p m) [] [] [].
Proof.
  intros Ht Hsz H4 Hp. pose proof (align_spec (sz / 2) ltac:(lia)) as Ha.
  unfold prvInitializeNewRingbuffer.
  destruct Ht as [-> | ->]; (split; [split|..]); rb_cbn; unfold rbHEADER_SIZE in *; try done; try lia;
    first [by left|by right|rewrite u32_small by lia; lia|by constructor
          |change (total sz ([] ++ [])) with 0; lia
          |change (total sz ([] ++ [])) with 0; rewrite (proj2 (Z.eqb_neq sz 0)) by lia; by vm_compute].
Qed.

(** The client holds exactly the live blocks and has received everything the
    buffer accepted except what still waits. *)
Record item_inv (c : item_client) (r : Ringbuffer_t) (out wait : list blk) (items : list (list Z)) : Prop := {
  ii_rel : items_rel r out wait items;
  ii_held : ic_held c ≡ₚ piece (pucHead r) <$> live out;
  ii_fifo : ic_sent c = ic_received c ++ items
}.

Lemma item_step_ok yr self c op r out wait items :
  item_inv c r out wait items →
  wp (item_step yr self c op) r (λ c' r', same_struct r r' ∧ ∃ out' wait' items', item_inv c' r' out' wait' items').
Proof.
  intros [Hr Hh Hf]. destruct op as [bs| |k]; unfold item_step.
  - apply wp_bind. eapply wp_mono; [by apply send_items|]. intros x r' (Hss & [(n & wait' & -> & Hr')|(-> & Hr' & _)]);
      wp_steps; (split; [done|]); pose proof Hss as [_ _ _ S4 _ _ _]; do 3 eexists; split; rewrite ?S4; try done.
    simpl. by rewrite Hf, app_assoc.
  - apply wp_bind. eapply wp_mono; [by apply receive_items|]. intros x r' (Hss & Hst & H). wp_steps. split; [done|].
    pose proof Hss as [_ _ _ S4 _ _ _]. destruct items as [|d items].
    { destruct H as [-> ->]. by exists out, wait, []. }
    destruct H as (res & -> & g & wait' & -> & Hr' & Hp & Hd). exists (out ++ g), wait', items.
    split; cbn [ic_held ic_sent ic_received]; [done| |]; rewrite ?Hst, ?S4.
    + unfold live. by rewrite filter_app, fmap_app, Hh, Hp.
    + subst d. by rewrite Hf, <- app_assoc.
  - destruct (ic_held c !! k) as [[q ds]|] eqn:Ek; [|wp_steps; split; [done|by exists out, wait, items]].
    pose proof (list_elem_of_lookup_2 _ _ _ Ek) as Hin. rewrite Hh in Hin.
    apply list_elem_of_fmap in Hin as (b & Eb & Hin).
    replace q with (fst (piece (pucHead r) b)) by (by rewrite <- Eb).
    apply wp_bind. eapply wp_mono; [by apply return_items|]. intros _ r' (out' & Hr' & Hss & Hp). wp_steps. split; [done|].
    pose proof Hss as [_ _ _ S4 _ _ _]. exists out', wait, items. split; [done| |done].
    cbn [ic_held]. rewrite S4. apply (Permutation_cons_inv (a := (q, ds))).
    rewrite <- (delete_Permutation _ _ _ Ek), Hh, Eb, Hp. done.
Qed.

Lemma item_run_ok yr self ops c r out wait items :
  item_inv c r out wait items →
  wp (item_run yr self c ops) r (λ c' r', same_struct r r' ∧ ∃ out' wait' items', item_inv c' r' out' wait' items').
Proof.
  revert c r out wait items. induction ops as [|op ops IH]; intros c r out wait items H; simpl; wp_steps; [split; [done|by eexists _, _, _]|].
  eapply wp_mono; [by eapply item_step_ok|]. intros c' r' (Hs & out' & wait' & items' & H').
  eapply wp_mono; [by eapply IH|]. intros c'' r'' (Hs' & H''). split; [by etrans|done].
Qed.

(** What the client holds is still in the storage. *)
Lemma held_intact c r out wait items p d :
  item_inv c r out wait items → (p, d) ∈ ic_held c → ldbytes (storage r) p (zlen d) = d.
Proof.
  intros [[Hc _ _] Hh _] Hin. rewrite Hh in Hin. apply list_elem_of_fmap in Hin as (b & [= -> ->] & Hin).
  apply list_elem_of_filter in Hin as [Hb Hin]. unfold freeable in Hb. apply orb_false_iff in Hb as [_ Hd].
  core_facts Hc. rewrite Forall_forall in Kstored. destruct (Kstored b) as [_ _ Sd]; [apply elem_of_app; auto|].
  apply list_elem_of_split in Hin as (l1 & l2 & ->). apply chain_app in Kout as (? & _ & _ & Hok & _).
  destruct (bo_data _ _ _ Hok Hd) as [_ ->]. by apply Sd.
Qed.

(** C1: no-split and allow-split buffers are FIFOs of items.  Whatever a client
    does with a freshly created buffer by sending, receiving and returning items
    in any order, no assertion fails, no byte outside the storage is touched, no
    loop runs forever; the items it received (a split item joined from its two
    pieces), followed by those waiting, are exactly the items accepted, in
    order; and every piece it holds still has the bytes it had when received. *)
Theorem item_buffer_fifo (yr : TCB_t → bool) (self : TCB_t) (t : RingbufferType_t) (sz p : Z)
    (contents : mem) (ops : list item_op) :
  t = RINGBUF_TYPE_NOSPLIT ∨ t = RINGBUF_TYPE_ALLOWSPLIT →
  16 ≤ sz < 2 ^ 30 → sz mod 4 = 0 → p mod 4 = 0 →
  ∃ r' c' out wait items,
    item_run yr self (mkItemClient [] [] []) ops (prvInitializeNewRingbuffer sz t p contents) = Done r' c' ∧
    items_rel r' out wait items ∧
    ic_sent c' = ic_received c' ++ items ∧
    (∀ q d, (q, d) ∈ ic_held c' → ldbytes (storage r') q (zlen d) = d).
Proof.
  intros Ht Hsz H4 Hp. pose proof (init_items sz t p contents Ht Hsz H4 Hp) as Hi.
  pose proof (item_run_ok yr self ops (mkItemClient [] [] []) _ _ _ _ ltac:(by split)) as H.
  apply wp_done in H as (c' & r' & E & Hs & out & wait & items & Hinv).
  exists r', c', out, wait, items. split_and!; [done|by destruct Hinv|by destruct Hinv|].
  intros q d. by eapply held_intact.
Qed.

Lemma item_buffer_fifo_witness :
  16 ≤ 64 < 2 ^ 30 ∧
  ∃ r' c' out wait items,
    item_run (λ _, false) (mkTCB 1 1) (mkItemClient [] [] [])
      [ItemSend [1; 2; 3; 4]; ItemSend [5; 6]; ItemReceive; ItemReturn 0; ItemReceive; ItemSend [7]]
      (prvInitializeNewRingbuffer 64 RINGBUF_TYPE_NOSPLIT 4096 (λ _, 0)) = Done r' c' ∧
    items_rel r' out wait items ∧ ic_sent c' = ic_received c' ++ items ∧
    (∀ q d, (q, d) ∈ ic_held c' → ldbytes (storage r') q (zlen d) = d).
Proof. split; [lia|]. apply item_buffer_fifo; [by left|lia|done|done]. Defined.
