(* ===== verification/RingbufApi.v ===== *)
(** * Contracts of the ring buffer API

    What [xRingbufferGetCurFreeSize] promises, sends and receives that wait while
    other tasks use the buffer, and the order in which acquired items become
    readable. *)
From Stdlib Require Import ZArith Lia.
From stdpp Require Import base numbers option list.
From S2P Require Import Prelude Ringbuf RingbufByte RingbufChain RingbufTake RingbufItems.

Open Scope Z_scope.

(** ** The current free size *)

(** A well-formed buffer of any type. *)
Definition well_formed (r : Ringbuffer_t) : Prop :=
  (∃ a, byte_rel r a) ∨ (∃ out wait items, items_rel r out wait items).

Ltac split_ifs_in H := repeat match type of H with context [if ?b then _ else _] => destruct b eqn:? end.

(** An item no larger than the reported size passes the fit test. *)
Lemma cur_max_fits r out wait items n m :
  items_rel r out wait items → xGetCurMaxSize r = Done r m → 0 < n ≤ m →
  n ≤ xMaxItemSize r ∧ xCheckItemFits n r = Done r true.
Proof.
  intros [Hc Hf _] Hm Hn. pose proof (core_pointers _ _ _ Hc) as (Pf & Pr & Pw & Er & Ew & T1 & T2).
  pose proof (max_item_small _ _ _ Hc) as Hmx. core_facts Hc. unfold pos_ok, rbHEADER_SIZE in *.
  assert (n ≤ xMaxItemSize r) as Hle.
  { unfold xGetCurMaxSize, gets in Hm. injection Hm as <-.
    unfold prvGetCurMaxSizeNoSplit, prvGetCurMaxSizeAllowSplit, clamp_free in Hn.
    destruct Ktype as [E|E]; rewrite E in Hn; split_ifs_in Hn; split_ifs; lia. }
  split; [done|].
  pose proof (align_spec n ltac:(lia)) as Ha. pose proof (align_spec (xSize r / 2) ltac:(lia)) as Ha2.
  assert (wp (xCheckItemFits n) r (λ b r', b = true ∧ r' = r)) as Hfit.
  2: { apply wp_done in Hfit as (b & r' & E & -> & ->). done. }
  assert (wp (prvCheckItemFitsDefault n) r (λ b r', b = true ∧ r' = r)) as Hfit.
  2: { unfold xCheckItemFits. wp_steps. by destruct Ktype as [-> | ->]. }
  unfold prvCheckItemFitsDefault, rbHEADER_SIZE. wp_steps. rewrite aligned_spec. apply wp_assert; [lia|]. wp_steps.
  apply wp_assert; [lia|]. wp_steps. split; [|done].
  unfold xGetCurMaxSize, gets in Hm. injection Hm as <-. rewrite Ksplit.
  unfold prvGetCurMaxSizeNoSplit, prvGetCurMaxSizeAllowSplit, clamp_free, rbHEADER_SIZE in *.
  destruct (is_full r) eqn:Hfull; [exfalso; destruct Ktype as [E|E]; rewrite E in Hn; lia|].
  destruct (Z.eqb_spec (pucAcquire r) (pucFree r)); [done|].
  rewrite (u32_small (rbALIGN_SIZE n + 8)) by lia.
  destruct (Z.ltb_spec (pucAcquire r) (pucFree r)).
  - rewrite u32_small by lia. destruct Ktype as [E|E]; rewrite E in Hn; cbn [andb] in Hn.
    + rewrite !i32_small in Hn by (rewrite ?i32_small; lia). split_ifs_in Hn; split_ifs; lia.
    + rewrite (proj2 (Z.eqb_neq (pucFree r) (pucHead r))), andb_false_r in Hn by lia.
      rewrite !i32_small in Hn by (rewrite ?i32_small; lia). split_ifs_in Hn; split_ifs; lia.
  - rewrite !u32_small in * by lia. destruct Ktype as [E|E]; rewrite E in Hn, Kmax |- *; cbv iota in Kmax.
    + destruct (Z.ltb_spec (pucFree r - pucHead r) (pucTail r - pucAcquire r));
        rewrite !i32_small in Hn by (rewrite ?i32_small; lia); split_ifs_in Hn; split_ifs; lia.
    + rewrite !i32_small in Hn by lia. rewrite bool_decide_true, ?u32_small by (done || lia).
      destruct (_ && _) eqn:Eh in Hn; split_ifs_in Hn; split_ifs; lia.
Qed.

(** an item or a run of bytes no larger than what [xRingbufferGetCurFreeSize]
    reports is accepted by a send that does not wait, in every well-formed
    buffer of any of the three types, and leaves a well-formed buffer. *)
Theorem cur_free_size_accepted (yr : TCB_t → bool) (self : TCB_t) (r : Ringbuffer_t) (bs : list Z) (m : Z) :
  well_formed r → xRingbufferGetCurFreeSize r = Done r m → 0 < zlen bs ≤ m →
  ∃ r' n, xRingbufferSend yr self (Some bs) (zlen bs) [] 0 r = Done r' (Some (mkSend true None n)) ∧
    well_formed r'.
Proof.
  intros [[a Hr]|(out & wait & items & Hr)] Hm Hn.
  - pose proof (send_byte yr self r a bs Hr) as H. unfold abs_send in H.
    destruct (Z.leb_spec (zlen (held a) + zlen (queue a) + zlen bs) (xSize r)) as [Hle|Hgt].
    + apply wp_done in H as (x & r' & E & Hr' & _ & n & ->). exists r', n. split; [done|left; eauto].
    + exfalso. pose proof Hr as []. pose proof (zlen_nonneg (held a)). pose proof (zlen_nonneg (queue a)).
      unfold xRingbufferGetCurFreeSize, xGetCurMaxSize, gets, prvGetCurMaxSizeByteBuf in Hm.
      rewrite br_type, br_full in Hm. injection Hm as Hm.
      destruct (Z.eqb_spec (xSize r) (zlen (held a) + zlen (queue a))); [lia|].
      rewrite (i32_small (pucFree r - _)) in Hm by (wr_facts; lia).
      destruct (Z.leb_spec (pucFree r - pucAcquire r) 0);
        rewrite ?(i32_small (pucFree r - _ + _)), u32_small in Hm by (wr_facts; lia); wr_facts; lia.
  - destruct (cur_max_fits _ _ _ _ _ _ Hr Hm Hn) as [Hle Hfit].
    pose proof (send_items yr self r out wait items bs Hr) as H.
    apply wp_done in H as (x & r' & E & _ & [(n & wait' & -> & Hr')|(-> & _ & [H|H])]);
      [|lia|congruence].
    exists r', n. split; [done|right; eauto].
Qed.

(** A no-split buffer of 64 bytes at address 4096 that holds a 4-byte item. *)
Definition example_buffer : Ringbuffer_t :=
  match xRingbufferSend (λ _, false) (mkTCB 1 1) (Some [1; 2; 3; 4]) (zlen [1; 2; 3; 4]) [] 0
          (prvInitializeNewRingbuffer 64 RINGBUF_TYPE_NOSPLIT 4096 (λ _, 0)) with
  | Done r _ => r
  | _ => prvInitializeNewRingbuffer 64 RINGBUF_TYPE_NOSPLIT 4096 (λ _, 0)
  end.

Lemma example_buffer_rel : ∃ out wait items, items_rel example_buffer out wait items ∧ length items = 1%nat.
Proof.
  pose proof (init_items 64 RINGBUF_TYPE_NOSPLIT 4096 (λ _, 0) (or_introl eq_refl) ltac:(lia) eq_refl eq_refl) as Hi.
  pose proof (send_items (λ _, false) (mkTCB 1 1) _ _ _ _ [1; 2; 3; 4] Hi) as H.
  apply wp_done in H as (x & r' & E & _ & [(n & wait' & -> & Hr')|(-> & _ & [H|H])]);
    [|vm_compute in H; discriminate H|vm_compute in H; discriminate H].
  unfold example_buffer. rewrite E. exists [], wait', ([] ++ [[1; 2; 3; 4]]). split; [exact Hr'|reflexivity].
Qed.

Lemma example_free_size : xRingbufferGetCurFreeSize example_buffer = Done example_buffer 24.
Proof.
  unfold xRingbufferGetCurFreeSize, xGetCurMaxSize, gets. apply (f_equal (Done example_buffer)). vm_compute. reflexivity.
Qed.

Lemma cur_free_size_accepted_witness :
  xRingbufferGetCurFreeSize example_buffer = Done example_buffer 24 ∧
  ∃ r' n, xRingbufferSend (λ _, false) (mkTCB 1 1) (Some (repeat 7 24)) (zlen (repeat 7 24)) [] 0 example_buffer =
    Done r' (Some (mkSend true None n)) ∧ well_formed r'.
Proof.
  split; [exact example_free_size|]. apply (cur_free_size_accepted _ _ _ _ 24).
  - right. destruct example_buffer_rel as (out & wait & items & H & _). by exists out, wait, items.
  - exact example_free_size.
  - split; vm_compute; [done|discriminate].
Defined.

(** ** Waiting *)

(** C35: a send to a no-split or allow-split buffer that waits, whatever the other tasks do
    meanwhile as long as they leave a well-formed buffer, never fails an assertion nor
    touches memory outside the storage.  It ends after some wake-ups, before each of which
    the item did not fit.  If the item fits then, the send returns [pdTRUE] and the buffer is
    the FIFO that the others have left with the item appended at its end: nothing of theirs
    is lost.  If it does not fit, the buffer is as the others have left it, and the send
    returns [pdFALSE] when its time is over and is still waiting otherwise.  An item larger
    than the largest allowed one is refused at once. *)
Theorem blocking_send_safe (yr : TCB_t → bool) (self : TCB_t) (r : Ringbuffer_t) (out wait : list blk)
    (items : list (list Z)) (bs : list Z) (env : wait_env) (xTicksToWait : Z) :
  items_rel r out wait items → Forall (λ e, respects (snd e)) env →
  ∃ r' x, xRingbufferSend yr self (Some bs) (zlen bs) env xTicksToWait r = Done r' x ∧
    if xMaxItemSize r <? zlen bs then x = Some send_failed ∧ r' = r
    else ∃ k, sent_after self bs env xTicksToWait r k x r'.
Proof.
  intros Hr Henv. pose proof (send_waiting_items yr self r out wait items bs env xTicksToWait Hr Henv) as H.
  apply wp_done in H as (x & r' & E & H). by exists r', x.
Qed.

(** Another task that takes the first item out and gives its first piece back. *)
Definition consume_step : RB unit :=
  x ← receive_item (mkTCB 2 1);
  match x with
  | Some (Some res) => vRingbufferReturnItem (λ _, false) (Some (rr_item1 res));; mret ()
  | _ => mret ()
  end.
Definition consume (r : Ringbuffer_t) : Ringbuffer_t := match consume_step r with Done r' _ => r' | _ => r end.

Lemma consume_items r out wait items :
  items_rel r out wait items →
  same_struct r (consume r) ∧ ∃ out' wait', items_rel (consume r) out' wait' (tail items).
Proof.
  intros Hr. assert (wp consume_step r (λ _ r', same_struct r r' ∧ ∃ out' wait', items_rel r' out' wait' (tail items))) as H.
  2: { unfold consume. apply wp_done in H as (x & r' & -> & H). exact H. }
  unfold consume_step. apply wp_bind. eapply wp_mono; [by apply receive_items|]. intros x r' (Hss & Hst & H).
  pose proof Hss as [_ _ _ S4 _ _ _]. destruct items as [|d items].
  { destruct H as [-> ->]. apply wp_ret. split; [done|]. by exists out, wait. }
  destruct H as (res & -> & g & wait' & -> & Hr' & Hp & _).
  assert (∃ b, b ∈ live (out ++ g) ∧ rr_item1 res = fst (piece (pucHead r) b)) as (b & Hb & Hi).
  { destruct (live g) as [|b l] eqn:El; [discriminate Hp|]. exists b. split.
    - unfold live in *. rewrite filter_app, El. apply elem_of_app. right. by left.
    - unfold read_pieces in Hp. cbn in Hp. by injection Hp as Hp _ _. }
  rewrite Hi, <- S4. apply wp_bind. eapply wp_mono; [by apply return_items|]. intros _ r'' (out' & Hr'' & Hss' & _).
  apply wp_ret. split; [by etrans|]. by exists out', wait'.
Qed.

Lemma consume_respects : respects consume.
Proof. intros r out wait items Hr. destruct (consume_items _ _ _ _ Hr) as (Hss & out' & wait' & H). eauto. Qed.

(** The buffer of 64 bytes with a second item of 24 bytes, which leaves no room for a third. *)
Definition full_buffer : Ringbuffer_t :=
  match xRingbufferSend (λ _, false) (mkTCB 1 1) (Some (repeat 8 24)) (zlen (repeat 8 24)) [] 0 example_buffer with
  | Done r _ => r
  | _ => example_buffer
  end.

Lemma full_buffer_rel : ∃ out wait items, items_rel full_buffer out wait items ∧ length items = 2%nat.
Proof.
  destruct example_buffer_rel as (out & wait & items & Hi & Hone).
  pose proof (send_items (λ _, false) (mkTCB 1 1) _ _ _ _ (repeat 8 24) Hi) as H.
  assert (xMaxItemSize example_buffer = 24) as Hmax by (vm_compute; reflexivity).
  assert (fits (zlen (repeat 8 24)) example_buffer = true) as Hfit by (vm_compute; reflexivity).
  apply wp_done in H as (x & r' & E & _ & [(n & wait' & -> & Hr')|(-> & _ & [H|H])]).
  2: { rewrite Hmax in H. discriminate H. }
  2: { unfold fits in Hfit. rewrite H in Hfit. discriminate Hfit. }
  unfold full_buffer. rewrite E. exists out, wait', (items ++ [repeat 8 24]). split; [exact Hr'|].
  by rewrite length_app, Hone.
Qed.

(** The sender of a third item of 24 bytes is woken up twice, each time after one item was
    taken; the first time there is still no room. *)
Lemma blocking_send_safe_witness :
  ∃ r' out wait n,
    xRingbufferSend (λ _, false) (mkTCB 1 1) (Some (repeat 9 24)) (zlen (repeat 9 24))
      [(Some 5, consume); (Some 3, consume); (None, id)] 10 full_buffer = Done r' (Some (mkSend true None n)) ∧
    items_rel r' out wait [repeat 9 24].
Proof.
  destruct full_buffer_rel as (out & wait & items & H & Htwo).
  assert (tail (tail items) = []) as Ht by (clear -Htwo; by destruct items as [|? [|? [|? ?]]]).
  clear Htwo. rename Ht into Htwo.
  assert (respects id) as Hid by (intros r o w i Hr; split; [done|by exists o, w, i]).
  destruct (blocking_send_safe (λ _, false) (mkTCB 1 1) full_buffer out wait items (repeat 9 24)
    [(Some 5, consume); (Some 3, consume); (None, id)] 10 H) as (r' & x & E & Hx).
  { repeat (apply Forall_cons; split; [first [exact consume_respects|exact Hid]|]). constructor. }
  replace (xMaxItemSize full_buffer <? zlen (repeat 9 24)) with false in Hx by (vm_compute; reflexivity).
  destruct Hx as (k & Hk & Hbefore & _ & Hend).
  set (env := [(Some 5, consume); (Some 3, consume); (None, id)]) in *. set (self := mkTCB 1 1) in *.
  assert (fits (zlen (repeat 9 24)) (others self (take 0 env) full_buffer) = false) as F0 by (vm_compute; reflexivity).
  assert (fits (zlen (repeat 9 24)) (others self (take 1 env) full_buffer) = false) as F1 by (vm_compute; reflexivity).
  assert (fits (zlen (repeat 9 24)) (others self (take 2 env) full_buffer) = true) as F2 by (vm_compute; reflexivity).
  assert (k = 2%nat ∨ k = 0%nat ∨ k = 1%nat) as Hk2.
  { destruct (decide (2 < k)%nat) as [Hgt|]; [|lia]. rewrite (Hbefore 2%nat Hgt) in F2. discriminate F2. }
  destruct Hk2 as [->|[->| ->]].
  - rewrite F2 in Hend. destruct Hend as [(n & ->) Hend].
    destruct (consume_items _ _ _ _ (items_rel_waiting_send _ _ _ _ (vTaskPlaceOnEventList self (xTasksWaitingToSend full_buffer)) H))
      as (_ & o1 & w1 & H1).
    destruct (consume_items _ _ _ _ (items_rel_waiting_send _ _ _ _
      (vTaskPlaceOnEventList self (xTasksWaitingToSend (consume (set_waiting_send
         (vTaskPlaceOnEventList self (xTasksWaitingToSend full_buffer)) full_buffer)))) H1)) as (_ & o2 & w2 & H2).
    destruct (Hend _ _ _ H2) as (w3 & H3). exists r', o2, w3, n. split; [exact E|].
    rewrite Htwo in H3. exact H3.
  - rewrite F0 in Hend. destruct Hend as [_ [_ Hend]]. discriminate Hend.
  - rewrite F1 in Hend. destruct Hend as [_ [_ Hend]]. discriminate Hend.
Defined.

(** ** Acquired items *)

Definition flags_at (a : Z) (r : Ringbuffer_t) : Z := ld32 (storage r) (a + 4).

(** Two items are acquired around the end of the storage of a 64-byte buffer and
    only the second one is completed; then the receiver asks for an item. *)
Definition acquire_across_end : RB (option (option recv_result)) :=
  let yr := (λ _, false) : TCB_t → bool in
  let self := mkTCB 1 1 in
  xRingbufferSend yr self (Some (repeat 1 16)) 16 [] 0;;
  xRingbufferSend yr self (Some (repeat 2 16)) 16 [] 0;;
  xRingbufferReceive self [] 0;;
  xRingbufferReceive self [] 0;;
  vRingbufferReturnItem yr (Some 4104);;
  vRingbufferReturnItem yr (Some 4128);;
  xRingbufferSendAcquire yr self 12 [] 0;;
  xRingbufferSendAcquire yr self 4 [] 0;;
  xRingbufferSendComplete yr (Some 4124);;
  xRingbufferReceive self [] 0.

(** the promise that an acquired item cannot be read before it is completed
    does not hold across the end of the storage.  The receiver is handed the
    12-byte item acquired first, at 4104, although only the item at 4124 was
    completed and the header of the first one, at 4096, is not marked written. *)
Theorem acquired_item_read_early :
  ∃ r' x,
    acquire_across_end (prvInitializeNewRingbuffer 64 RINGBUF_TYPE_NOSPLIT 4096 (λ _, 0)) =
      Done r' (Some (Some x)) ∧
    rr_item1 x = 4104 ∧ rr_size1 x = 12 ∧ flag (flags_at 4096 r') rbITEM_WRITTEN_FLAG = false.
Proof.
  assert (match acquire_across_end (prvInitializeNewRingbuffer 64 RINGBUF_TYPE_NOSPLIT 4096 (λ _, 0)) with
          | Done r' (Some (Some x)) =>
              (rr_item1 x =? 4104) && (rr_size1 x =? 12) && negb (flag (flags_at 4096 r') rbITEM_WRITTEN_FLAG)
          | _ => false
          end = true) as H by (vm_compute; reflexivity).
  destruct (acquire_across_end _) as [r' [[x|]|]| | |]; [|discriminate H..].
  exists r', x. apply andb_true_iff in H as [H Hf]. apply andb_true_iff in H as [Hi Hs].
  split_and!; [done|by apply Z.eqb_eq|by apply Z.eqb_eq|by apply negb_true_iff].
Qed.

