(* ===== verification/EspTimer.v ===== *)
(** * High-resolution timers

    Model of [components/esp_timer/src/esp_timer.c] and of the alarm bookkeeping of
    [esp_timer_impl_common.c] and [esp_timer_impl_systimer.c], in the configuration
    with ISR dispatch ([CONFIG_ESP_TIMER_SUPPORTS_ISR_DISPATCH_METHOD]), a single ISR
    handler and without profiling ([CONFIG_ESP_TIMER_PROFILING]).

    The timers live in a heap of structures; [s_timers] holds, for each dispatch
    method, the handles of the armed timers in list order.  Linking a timer that is
    linked, unlinking one that is not, and following a dangling handle are memory
    faults.  Every function runs inside the critical section of its list; a callback
    runs outside of it and is the parameter [run_callback], whose effect includes that
    of the other tasks meanwhile.  The clock is a field that only the environment
    moves. *)
From Stdlib Require Import ZArith Lia.
From stdpp Require Import base numbers option list gmap.
From S2P Require Import Prelude.

Open Scope Z_scope.

Definition EVENT_ID_DELETE_TIMER : Z := 0xF0DE1E1E.
Definition FL_ISR_DISPATCH_METHOD : Z := 1.
Definition FL_SKIP_UNHANDLED_EVENTS : Z := 2.
Definition UINT64_MAX : Z := 2 ^ 64 - 1.
Definition INT64_MAX : Z := 2 ^ 63 - 1.

Inductive esp_timer_dispatch_t : Type := ESP_TIMER_TASK | ESP_TIMER_ISR.

#[export] Instance dispatch_eq_dec : EqDecision esp_timer_dispatch_t.
Proof. solve_decision. Defined.

(** [callback] is the union of the callback pointer and [event_id]. *)
Record esp_timer : Type := mkTimer {
  alarm : Z; period : Z; flags : Z; callback : Z; arg : Z
}.

(** The value stored in the 56-bit field [period]. *)
Definition u56 (z : Z) : Z := z mod 2 ^ 56.

Definition set_alarm_period (a p : Z) (t : esp_timer) : esp_timer :=
  mkTimer a (u56 p) (flags t) (callback t) (arg t).

Definition dispatch_of (t : esp_timer) : esp_timer_dispatch_t :=
  if flag (flags t) FL_ISR_DISPATCH_METHOD then ESP_TIMER_ISR else ESP_TIMER_TASK.

(** [fired] records the alarm, callback and argument of every callback run. *)
Record tstate : Type := mkTS {
  heap : gmap Z esp_timer;
  s_timers : esp_timer_dispatch_t → list Z;
  s_timer_task : bool;
  timestamp_id : esp_timer_dispatch_t → Z;
  alarm_target : Z;
  now : Z;
  s_isr_dispatch_need_yield : bool;
  task_notified : bool;
  fired : list (Z * Z * Z)
}.

Definition upd {A : Type} (d : esp_timer_dispatch_t) (v : A) (f : esp_timer_dispatch_t → A) :
    esp_timer_dispatch_t → A := λ d', if decide (d' = d) then v else f d'.

Definition set_heap (h : gmap Z esp_timer) (s : tstate) : tstate :=
  mkTS h (s_timers s) (s_timer_task s) (timestamp_id s) (alarm_target s) (now s)
    (s_isr_dispatch_need_yield s) (task_notified s) (fired s).
Definition set_list (d : esp_timer_dispatch_t) (l : list Z) (s : tstate) : tstate :=
  mkTS (heap s) (upd d l (s_timers s)) (s_timer_task s) (timestamp_id s) (alarm_target s) (now s)
    (s_isr_dispatch_need_yield s) (task_notified s) (fired s).
Definition set_task (b : bool) (s : tstate) : tstate :=
  mkTS (heap s) (s_timers s) b (timestamp_id s) (alarm_target s) (now s)
    (s_isr_dispatch_need_yield s) (task_notified s) (fired s).
Definition set_timestamp (d : esp_timer_dispatch_t) (v : Z) (s : tstate) : tstate :=
  mkTS (heap s) (s_timers s) (s_timer_task s) (upd d v (timestamp_id s)) (alarm_target s) (now s)
    (s_isr_dispatch_need_yield s) (task_notified s) (fired s).
Definition set_target (v : Z) (s : tstate) : tstate :=
  mkTS (heap s) (s_timers s) (s_timer_task s) (timestamp_id s) v (now s)
    (s_isr_dispatch_need_yield s) (task_notified s) (fired s).
Definition set_now (v : Z) (s : tstate) : tstate :=
  mkTS (heap s) (s_timers s) (s_timer_task s) (timestamp_id s) (alarm_target s) v
    (s_isr_dispatch_need_yield s) (task_notified s) (fired s).
Definition set_need_yield (b : bool) (s : tstate) : tstate :=
  mkTS (heap s) (s_timers s) (s_timer_task s) (timestamp_id s) (alarm_target s) (now s)
    b (task_notified s) (fired s).
Definition set_notified (b : bool) (s : tstate) : tstate :=
  mkTS (heap s) (s_timers s) (s_timer_task s) (timestamp_id s) (alarm_target s) (now s)
    (s_isr_dispatch_need_yield s) b (fired s).
Definition log_fired (e : Z * Z * Z) (s : tstate) : tstate :=
  mkTS (heap s) (s_timers s) (s_timer_task s) (timestamp_id s) (alarm_target s) (now s)
    (s_isr_dispatch_need_yield s) (task_notified s) (fired s ++ [e]).

Definition TM (A : Type) : Type := M tstate A.

(** ** Memory and lists *)

Definition deref (h : Z) : TM esp_timer := λ s,
  match heap s !! h with Some t => Done s t | None => MemFault end.

Definition put (h : Z) (t : esp_timer) : TM unit := λ s,
  match heap s !! h with Some _ => Done (set_heap (<[h := t]> (heap s)) s) () | None => MemFault end.

Definition free_timer (h : Z) : TM unit := λ s,
  match heap s !! h with Some _ => Done (set_heap (delete h (heap s)) s) () | None => MemFault end.

Definition linked (s : tstate) (h : Z) : bool :=
  bool_decide (h ∈ s_timers s ESP_TIMER_TASK) || bool_decide (h ∈ s_timers s ESP_TIMER_ISR).

(** [LIST_REMOVE]: the links of the element say which list it is in. *)
Definition LIST_REMOVE (h : Z) : TM unit := λ s,
  if bool_decide (h ∈ s_timers s ESP_TIMER_TASK)
  then Done (set_list ESP_TIMER_TASK (filter (λ x, x ≠ h) (s_timers s ESP_TIMER_TASK)) s) ()
  else if bool_decide (h ∈ s_timers s ESP_TIMER_ISR)
  then Done (set_list ESP_TIMER_ISR (filter (λ x, x ≠ h) (s_timers s ESP_TIMER_ISR)) s) ()
  else MemFault.

Definition LIST_FIRST (d : esp_timer_dispatch_t) : TM (option Z) := gets (λ s, head (s_timers s d)).

(** ** The hardware alarm *)

Definition esp_timer_impl_get_time : TM Z := gets now.
Definition esp_timer_impl_get_min_period_us : Z := 50.

Definition esp_timer_impl_set_alarm_id (timestamp : Z) (d : esp_timer_dispatch_t) : TM unit :=
  modify (set_timestamp d timestamp);;
  modify (λ s, set_target (Z.min (timestamp_id s ESP_TIMER_TASK) (timestamp_id s ESP_TIMER_ISR)) s).

Definition esp_timer_impl_try_to_set_next_alarm : TM unit :=
  s ← get;
  let '(now_alarm_idx, next_alarm_idx) :=
    if timestamp_id s ESP_TIMER_TASK <? timestamp_id s ESP_TIMER_ISR
    then (ESP_TIMER_TASK, ESP_TIMER_ISR) else (ESP_TIMER_ISR, ESP_TIMER_TASK) in
  if negb (timestamp_id s next_alarm_idx =? UINT64_MAX)
  then esp_timer_impl_set_alarm_id UINT64_MAX now_alarm_idx
  else modify (set_timestamp now_alarm_idx UINT64_MAX).

(** ** The timer lists *)

Definition is_initialized : TM bool := gets s_timer_task.

Definition timer_armed (h : Z) : TM bool := t ← deref h; mret (0 <? alarm t).

(** Where the list traversal of [timer_insert] puts a timer with alarm [a]. *)
Fixpoint insert_pos (h a : Z) (l : list Z) : TM (list Z) :=
  match l with
  | [] => mret [h]
  | it :: l' =>
      t ← deref it;
      if a <? alarm t then mret (h :: it :: l')
      else rest ← insert_pos h a l'; mret (it :: rest)
  end.

Definition timer_insert (h : Z) (without_update_alarm : bool) : TM esp_err_t :=
  t ← deref h;
  let d := dispatch_of t in
  s ← get;
  (if linked s h then fault else mret ());;
  l ← insert_pos h (alarm t) (s_timers s d);
  modify (set_list d l);;
  first ← LIST_FIRST d;
  (if negb without_update_alarm && bool_decide (first = Some h)
   then esp_timer_impl_set_alarm_id (alarm t) d else mret ());;
  mret ESP_OK.

Definition timer_remove (h : Z) : TM esp_err_t :=
  t ← deref h;
  let d := dispatch_of t in
  first_timer ← LIST_FIRST d;
  LIST_REMOVE h;;
  put h (set_alarm_period 0 0 t);;
  (if bool_decide (first_timer = Some h) then
     first_timer ← LIST_FIRST d;
     next_timestamp ← match first_timer with
                      | Some f => tf ← deref f; mret (alarm tf)
                      | None => mret UINT64_MAX
                      end;
     esp_timer_impl_set_alarm_id next_timestamp d
   else mret ());;
  mret ESP_OK.

Definition set_alarm (a : Z) (t : esp_timer) : esp_timer :=
  mkTimer a (period t) (flags t) (callback t) (arg t).

(** ** Public operations

    A [NULL] handle is [None].  [fresh] is what [heap_caps_calloc] answers. *)

Record esp_timer_create_args_t : Type := mkCreateArgs {
  ca_callback : Z; ca_arg : Z; ca_dispatch_method : Z; ca_skip_unhandled_events : bool
}.

Definition ESP_TIMER_MAX : Z := 2.

Definition esp_timer_create (args : option esp_timer_create_args_t) (out_handle : bool) (fresh : option Z) :
    TM (esp_err_t * option Z) :=
  init ← is_initialized;
  if negb init then mret (ESP_ERR_INVALID_STATE, None)
  else
    match args with
    | None => mret (ESP_ERR_INVALID_ARG, None)
    | Some args =>
        if (ca_callback args =? 0) || negb out_handle ||
           (ca_dispatch_method args <? 0) || (ESP_TIMER_MAX <=? ca_dispatch_method args)
        then mret (ESP_ERR_INVALID_ARG, None)
        else
          match fresh with
          | None => mret (ESP_ERR_NO_MEM, None)
          | Some h =>
              let t := mkTimer 0 0
                (Z.lor (if ca_dispatch_method args =? 0 then 0 else FL_ISR_DISPATCH_METHOD)
                       (if ca_skip_unhandled_events args then FL_SKIP_UNHANDLED_EVENTS else 0))
                (ca_callback args) (ca_arg args) in
              modify (λ s, set_heap (<[h := t]> (heap s)) s);;
              mret (ESP_OK, Some h)
          end
    end.

Definition esp_timer_restart (timer : option Z) (timeout_us : Z) : TM esp_err_t :=
  match timer with
  | None => mret ESP_ERR_INVALID_ARG
  | Some h =>
      init ← is_initialized;
      if negb init then mret ESP_ERR_INVALID_STATE
      else
        armed ← timer_armed h;
        if negb armed then mret ESP_ERR_INVALID_STATE
        else
          now ← esp_timer_impl_get_time;
          t ← deref h;
          let period := period t in
          _ ← timer_remove h;
          t ← deref h;
          (if negb (period =? 0) then
             let new_period := Z.max timeout_us esp_timer_impl_get_min_period_us in
             put h (set_alarm_period (u64 (now + new_period)) new_period t)
           else put h (set_alarm_period (u64 (now + timeout_us)) 0 t));;
          timer_insert h false
  end.

Definition esp_timer_start_once (timer : option Z) (timeout_us : Z) : TM esp_err_t :=
  match timer with
  | None => mret ESP_ERR_INVALID_ARG
  | Some h =>
      init ← is_initialized;
      if negb init then mret ESP_ERR_INVALID_STATE
      else
        now ← esp_timer_impl_get_time;
        let alarm := u64 (now + timeout_us) in
        armed ← timer_armed h;
        if (armed : bool) then mret ESP_ERR_INVALID_STATE
        else
          t ← deref h;
          put h (set_alarm_period alarm 0 t);;
          timer_insert h false
  end.

Definition esp_timer_start_periodic (timer : option Z) (period_us : Z) : TM esp_err_t :=
  match timer with
  | None => mret ESP_ERR_INVALID_ARG
  | Some h =>
      init ← is_initialized;
      if negb init then mret ESP_ERR_INVALID_STATE
      else
        let period_us := Z.max period_us esp_timer_impl_get_min_period_us in
        now ← esp_timer_impl_get_time;
        let alarm := u64 (now + period_us) in
        armed ← timer_armed h;
        if (armed : bool) then mret ESP_ERR_INVALID_STATE
        else
          t ← deref h;
          put h (set_alarm_period alarm period_us t);;
          timer_insert h false
  end.

Definition esp_timer_stop (timer : option Z) : TM esp_err_t :=
  match timer with
  | None => mret ESP_ERR_INVALID_ARG
  | Some h =>
      init ← is_initialized;
      if negb init then mret ESP_ERR_INVALID_STATE
      else
        armed ← timer_armed h;
        if negb armed then mret ESP_ERR_INVALID_STATE else timer_remove h
  end.

Definition esp_timer_delete (timer : option Z) : TM esp_err_t :=
  match timer with
  | None => mret ESP_ERR_INVALID_ARG
  | Some h =>
      now ← esp_timer_impl_get_time;
      armed ← timer_armed h;
      if (armed : bool) then mret ESP_ERR_INVALID_STATE
      else
        t ← deref h;
        put h (mkTimer (u64 now) 0 (clear (flags t) FL_ISR_DISPATCH_METHOD) EVENT_ID_DELETE_TIMER (arg t));;
        timer_insert h false
  end.

(** ** Dispatch *)

Section dispatch.
Context (run_callback : Z → Z → tstate → tstate).

(** One iteration of the loop; the local is [processed], and leaving the loop
    gives it with [it]. *)
Definition process_step (d : esp_timer_dispatch_t) (processed : bool) : TM (bool + (bool * option Z)) :=
  first ← LIST_FIRST d;
  now ← esp_timer_impl_get_time;
  match first with
  | None => mret (inr (processed, None))
  | Some it =>
      t ← deref it;
      if now <? alarm t then mret (inr (processed, Some it))
      else
        LIST_REMOVE it;;
        if callback t =? EVENT_ID_DELETE_TIMER then
          free_timer it;; mret (inl true)
        else
          (if 0 <? period t then
             let skipped := i32 (u64 (now - alarm t) / period t) in
             let a := if flag (flags t) FL_SKIP_UNHANDLED_EVENTS && (1 <? skipped)
                      then u64 (now + period t) else u64 (alarm t + period t) in
             put it (set_alarm a t);;
             _ ← timer_insert it true;
             mret ()
           else put it (set_alarm 0 t));;
          modify (λ s, run_callback (callback t) (arg t) (log_fired (alarm t, callback t, arg t) s));;
          mret (inl true)
  end.

Definition timer_process_alarm (fuel : nat) (d : esp_timer_dispatch_t) : TM bool :=
  x ← iterM fuel (process_step d) false;
  let '(processed, it) := x in
  match it with
  | Some h =>
      t ← deref h;
      if bool_decide (d = ESP_TIMER_TASK) || processed
      then esp_timer_impl_set_alarm_id (alarm t) d else mret ()
  | None => if (processed : bool) then esp_timer_impl_set_alarm_id UINT64_MAX d else mret ()
  end;;
  mret processed.

(** One wake-up of [timer_task]. *)
Definition timer_task (fuel : nat) : TM unit :=
  s ← get;
  if task_notified s then
    modify (set_notified false);;
    _ ← timer_process_alarm fuel ESP_TIMER_TASK;
    mret ()
  else mret ().

Definition esp_timer_isr_dispatch_need_yield : TM unit := modify (set_need_yield true).

(** The result is whether the handler asks for a context switch;
    [notify_wakes] is the answer of [vTaskNotifyGiveFromISR]. *)
Definition timer_alarm_handler (fuel : nat) (notify_wakes : bool) : TM bool :=
  esp_timer_impl_try_to_set_next_alarm;;
  isr_timers_processed ← timer_process_alarm fuel ESP_TIMER_ISR;
  woken ← gets s_isr_dispatch_need_yield;
  modify (set_need_yield false);;
  if negb isr_timers_processed then
    modify (set_notified true);; mret (woken || notify_wakes)
  else mret woken.
End dispatch.

(** ** Start-up: [task_created] is the answer of [xTaskCreatePinnedToCore] and
    [impl_init] that of [esp_timer_impl_init]. *)

Definition init_timer_task (task_created : bool) : TM esp_err_t :=
  init ← is_initialized;
  if (init : bool) then mret ESP_ERR_INVALID_STATE
  else if task_created then modify (set_task true);; mret ESP_OK
  else mret ESP_ERR_NO_MEM.

Definition deinit_timer_task : TM unit := modify (set_task false).

Definition esp_timer_init (task_created : bool) (impl_init : esp_err_t) : TM esp_err_t :=
  err ← init_timer_task task_created;
  if decide (err = ESP_OK) then
    if decide (impl_init = ESP_OK) then mret ESP_OK
    else deinit_timer_task;; mret impl_init
  else mret err.

Definition esp_timer_deinit : TM esp_err_t :=
  init ← is_initialized;
  if negb init then mret ESP_ERR_INVALID_STATE
  else
    s ← get;
    if negb (bool_decide (s_timers s ESP_TIMER_TASK = [])) then mret ESP_ERR_INVALID_STATE
    else if negb (bool_decide (s_timers s ESP_TIMER_ISR = [])) then mret ESP_ERR_INVALID_STATE
    else deinit_timer_task;; mret ESP_OK.

(** ** Queries *)

Definition esp_timer_get_next_alarm : TM Z :=
  let step d next_alarm :=
    it ← LIST_FIRST d;
    match it with
    | Some h => t ← deref h; mret (if alarm t <? u64 next_alarm then i64 (alarm t) else next_alarm)
    | None => mret next_alarm
    end in
  next_alarm ← step ESP_TIMER_TASK INT64_MAX;
  step ESP_TIMER_ISR next_alarm.

(** The first timer of a list that may wake the CPU up. *)
Fixpoint first_waking (l : list Z) : TM (option esp_timer) :=
  match l with
  | [] => mret None
  | h :: l' =>
      t ← deref h;
      if negb (flag (flags t) FL_SKIP_UNHANDLED_EVENTS) then mret (Some t) else first_waking l'
  end.

Definition esp_timer_get_next_alarm_for_wake_up : TM Z :=
  let step d next_alarm :=
    l ← gets (λ s, s_timers s d);
    it ← first_waking l;
    mret (match it with
          | Some t => if alarm t <? u64 next_alarm then i64 (alarm t) else next_alarm
          | None => next_alarm
          end) in
  next_alarm ← step ESP_TIMER_TASK INT64_MAX;
  step ESP_TIMER_ISR next_alarm.

(** [period] and [expiry] say whether the out-pointer is not [NULL]. *)
Definition esp_timer_get_period (timer : option Z) (period_out : bool) : TM (esp_err_t * option Z) :=
  match timer, period_out with
  | Some h, true => t ← deref h; mret (ESP_OK, Some (period t))
  | _, _ => mret (ESP_ERR_INVALID_ARG, None)
  end.

Definition esp_timer_get_expiry_time (timer : option Z) (expiry_out : bool) : TM (esp_err_t * option Z) :=
  match timer, expiry_out with
  | Some h, true =>
      t ← deref h;
      if 0 <? period t then mret (ESP_ERR_NOT_SUPPORTED, None) else mret (ESP_OK, Some (alarm t))
  | _, _ => mret (ESP_ERR_INVALID_ARG, None)
  end.

Definition esp_timer_is_active (timer : option Z) : TM bool :=
  match timer with None => mret false | Some h => timer_armed h end.
