(* ===== verification/EspTimerInv.v ===== *)
(** * The timer lists stay sorted and complete

    The invariant of the timer service: a timer is linked exactly when it is armed,
    in the list of its dispatch method, and both lists are ordered by alarm.  The
    hardware alarm is programmed for the earliest armed timer. *)
From Stdlib Require Import ZArith Lia Sorted.
From stdpp Require Import base numbers option list gmap sorting relations.
From S2P Require Import Prelude EspTimer.

Open Scope Z_scope.

Definition alarm_at (s : tstate) (h : Z) : Z := default 0 (alarm <$> heap s !! h).

Definition by_alarm (s : tstate) : relation Z := λ x y, alarm_at s x ≤ alarm_at s y.

(** The invariant; [skip] is a timer being moved by the operation in progress. *)
Record timers_ok (skip : option Z) (s : tstate) : Prop := {
  tk_linked : ∀ d h, h ∈ s_timers s d → ∃ t, heap s !! h = Some t ∧ 0 < alarm t ∧ dispatch_of t = d;
  tk_armed : ∀ h t, skip ≠ Some h → heap s !! h = Some t → 0 < alarm t → h ∈ s_timers s (dispatch_of t);
  tk_skip : ∀ h d, skip = Some h → h ∉ s_timers s d;
  tk_nodup : ∀ d, NoDup (s_timers s d);
  tk_order : ∀ d, StronglySorted (by_alarm s) (s_timers s d);
  tk_range : ∀ h t, heap s !! h = Some t → 0 ≤ alarm t < 2 ^ 64 ∧ 0 ≤ period t < 2 ^ 56
}.

(** The alarm kept for dispatch method [d] is that of its first timer. *)
Definition programmed (s : tstate) (d : esp_timer_dispatch_t) : Prop :=
  timestamp_id s d = match s_timers s d with [] => UINT64_MAX | h :: _ => alarm_at s h end.

Definition target_ok (s : tstate) : Prop :=
  alarm_target s = Z.min (timestamp_id s ESP_TIMER_TASK) (timestamp_id s ESP_TIMER_ISR).

(** What operations on timers leave alone. *)
Definition unhurried (s s' : tstate) : Prop :=
  now s' = now s ∧ fired s' = fired s ∧ s_timer_task s' = s_timer_task s.

(** Keeping the hardware alarm right for the methods in [D]. *)
Definition keeps_alarms (D : esp_timer_dispatch_t → Prop) (s s' : tstate) : Prop :=
  (∀ d, D d → programmed s d → programmed s' d) ∧ (target_ok s → target_ok s').

(** ** Memory *)

Lemma wp_deref h t s (Q : esp_timer → tstate → Prop) : heap s !! h = Some t → Q t s → wp (deref h) s Q.
Proof. intros H HQ. unfold wp, deref. by rewrite H. Qed.

Lemma wp_put h t0 t s (Q : () → tstate → Prop) :
  heap s !! h = Some t0 → Q () (set_heap (<[h := t]> (heap s)) s) → wp (put h t) s Q.
Proof. intros H HQ. unfold wp, put. by rewrite H. Qed.

Lemma alarm_at_lookup s h t : heap s !! h = Some t → alarm_at s h = alarm t.
Proof. intros H. unfold alarm_at. by rewrite H. Qed.

Lemma alarm_at_put s h t h' :
  alarm_at (set_heap (<[h := t]> (heap s)) s) h' = if decide (h' = h) then alarm t else alarm_at s h'.
Proof. unfold alarm_at. simpl. case_decide; subst; by simplify_map_eq. Qed.

(** ** Sorted insertion *)

(** The list [timer_insert] builds. *)
Fixpoint insert_list (f : Z → Z) (h a : Z) (l : list Z) : list Z :=
  match l with
  | [] => [h]
  | it :: l' => if a <? f it then h :: it :: l' else it :: insert_list f h a l'
  end.

Lemma insert_pos_spec s h a l (Q : list Z → tstate → Prop) :
  Forall (λ x, is_Some (heap s !! x)) l → Q (insert_list (alarm_at s) h a l) s → wp (insert_pos h a l) s Q.
Proof.
  intros Hl. revert Q. induction Hl as [|it l [t Ht] _ IH]; intros Q HQ; simpl in *; wp_steps; [done|].
  apply (wp_deref _ t); [done|]. rewrite (alarm_at_lookup _ _ _ Ht) in HQ.
  destruct (_ <? _); wp_steps; [done|]. apply IH. by wp_steps.
Qed.

Lemma insert_list_perm f h a l : insert_list f h a l ≡ₚ h :: l.
Proof.
  induction l as [|x l IH]; simpl; [done|]. destruct (_ <? _); [done|]. rewrite IH. constructor.
Qed.

Lemma insert_list_sorted f h l :
  StronglySorted (λ x y, f x ≤ f y) l → StronglySorted (λ x y, f x ≤ f y) (insert_list f h (f h) l).
Proof.
  induction 1 as [|x l Hl IH Hx]; simpl; [by repeat constructor|].
  destruct (Z.ltb_spec (f h) (f x)).
  - constructor; [by constructor|]. constructor; [lia|]. eapply Forall_impl; [exact Hx|]. simpl. lia.
  - constructor; [done|]. rewrite insert_list_perm. by constructor.
Qed.

(** The new first timer is the inserted one or the old first. *)
Lemma insert_list_head f h a l :
  ∃ l', insert_list f h a l = h :: l' ∨ ∃ x l0, l = x :: l0 ∧ insert_list f h a l = x :: l'.
Proof.
  destruct l as [|x l]; simpl; [by exists []; left|].
  destruct (_ <? _); eexists; [by left|right; by eexists _, _].
Qed.

Lemma StronglySorted_ext {A} (R R' : relation A) l :
  (∀ x y, x ∈ l → y ∈ l → R x y → R' x y) → StronglySorted R l → StronglySorted R' l.
Proof.
  intros H Hs. induction Hs as [|x l Hl IH Hx]; constructor.
  - apply IH. intros y z Hy Hz. apply H; by apply elem_of_cons; right.
  - rewrite Forall_forall in Hx |- *. intros y Hy.
    apply H; [by apply elem_of_cons; left|by apply elem_of_cons; right|by apply Hx].
Qed.

Lemma StronglySorted_filter {A} (R : relation A) (P : A → Prop) `{!∀ x, Decision (P x)} l :
  StronglySorted R l → StronglySorted R (filter P l).
Proof.
  induction 1 as [|x l Hl IH Hx]; [constructor|]. rewrite filter_cons. case_decide; [|done].
  constructor; [done|]. rewrite Forall_forall in Hx |- *. intros y [_ Hy]%list_elem_of_filter. by apply Hx.
Qed.

(** ** The transfers between the invariant and its relaxed form *)

(** An unarmed timer may be taken as the one being moved. *)
Lemma ok_skip s h t : timers_ok None s → heap s !! h = Some t → alarm t = 0 → timers_ok (Some h) s.
Proof.
  intros [] Ht Ha. split; try done; [intros h' t' _; by apply tk_armed0|].
  intros ? d [= <-] Hin. destruct (tk_linked0 _ _ Hin) as (t' & Ht' & ? & _). simplify_eq. lia.
Qed.

(** Changing the timer being moved. *)
Lemma ok_put s h t :
  timers_ok (Some h) s → 0 ≤ alarm t < 2 ^ 64 → 0 ≤ period t < 2 ^ 56 →
  timers_ok (Some h) (set_heap (<[h := t]> (heap s)) s).
Proof.
  intros [] Ha Hp. split; simpl; try done.
  - intros d h' Hin. rewrite lookup_insert_ne; [by apply tk_linked0|]. intros ->. by apply (tk_skip0 h' d).
  - intros h' t' Hne. rewrite lookup_insert_ne by congruence. by apply tk_armed0.
  - intros d. eapply StronglySorted_ext; [|apply tk_order0]. intros x y Hx Hy. unfold by_alarm.
    rewrite !alarm_at_put, !decide_False; [done|..]; intros ->; by eapply tk_skip0.
  - intros h' t'. destruct (decide (h' = h)) as [->|]; [rewrite lookup_insert_eq; by intros [= <-]|].
    rewrite lookup_insert_ne by done. apply tk_range0.
Qed.

(** The timer being moved may stay out when it is not armed. *)
Lemma ok_disarmed s h :
  timers_ok (Some h) s → (∀ t, heap s !! h = Some t → alarm t = 0) → timers_ok None s.
Proof.
  intros [] Ha. split; try done. intros h' t' _ Ht' Hpos. destruct (decide (h' = h)) as [->|].
  - rewrite (Ha _ Ht') in Hpos. lia.
  - apply tk_armed0; [congruence|done|done].
Qed.

Lemma programmed_ext s s' d :
  timestamp_id s' d = timestamp_id s d → s_timers s' d = s_timers s d →
  (∀ h, h ∈ s_timers s d → alarm_at s' h = alarm_at s h) → programmed s d → programmed s' d.
Proof.
  intros Ht Hl Ha Hp. unfold programmed in *. rewrite Ht, Hl, Hp.
  destruct (s_timers s d) as [|h l]; [done|]. by rewrite Ha by (apply elem_of_cons; auto).
Qed.

(** ** Linking and unlinking *)

Lemma linked_false s h : timers_ok (Some h) s → linked s h = false.
Proof.
  intros []. unfold linked. rewrite !bool_decide_false; [done|..]; by apply tk_skip0.
Qed.

(** Unlinking an armed timer. *)
Lemma wp_remove s h t (Q : () → tstate → Prop) :
  timers_ok None s → heap s !! h = Some t → 0 < alarm t →
  (timers_ok (Some h) (set_list (dispatch_of t) (filter (λ x, x ≠ h) (s_timers s (dispatch_of t))) s) →
   Q () (set_list (dispatch_of t) (filter (λ x, x ≠ h) (s_timers s (dispatch_of t))) s)) →
  wp (LIST_REMOVE h) s Q.
Proof.
  intros Hok Ht Ha HQ. pose proof Hok as [].
  pose proof (tk_armed0 h t ltac:(done) Ht Ha) as Hin.
  assert (∀ d, h ∈ s_timers s d → d = dispatch_of t) as Hd.
  { intros d Hd. destruct (tk_linked0 _ _ Hd) as (t' & Ht' & _ & <-). by simplify_eq. }
  assert (wp (LIST_REMOVE h) s (λ _ s',
    s' = set_list (dispatch_of t) (filter (λ x, x ≠ h) (s_timers s (dispatch_of t))) s)) as Hrm.
  { unfold wp, LIST_REMOVE. destruct (dispatch_of t) eqn:Ed.
    - by rewrite bool_decide_true.
    - rewrite bool_decide_false; [by rewrite bool_decide_true|]. intros Hc. by apply Hd in Hc. }
  eapply wp_mono; [exact Hrm|]. intros [] s' ->. apply HQ.
  assert (∀ d, upd (dispatch_of t) (filter (λ x, x ≠ h) (s_timers s (dispatch_of t))) (s_timers s) d =
               filter (λ x, x ≠ h) (s_timers s d)) as Hl.
  { intros d. unfold upd. case_decide as E; [by subst|]. symmetry. apply filter_all, Forall_forall.
    intros x Hx ->. by apply Hd in Hx. }
  split; unfold set_list; simpl; try done.
  - intros d h'. rewrite Hl. intros [_ Hx]%list_elem_of_filter. by apply tk_linked0.
  - intros h' t' Hne Ht' Ha'. rewrite Hl. apply list_elem_of_filter. split; [congruence|by apply tk_armed0].
  - intros h' d [= <-]. rewrite Hl. by intros [? _]%list_elem_of_filter.
  - intros d. rewrite Hl. by apply NoDup_filter.
  - intros d. rewrite Hl. by apply StronglySorted_filter.
Qed.

Lemma wp_set_alarm_id a d s (Q : () → tstate → Prop) :
  (∀ tg, tg = Z.min (upd d a (timestamp_id s) ESP_TIMER_TASK) (upd d a (timestamp_id s) ESP_TIMER_ISR) →
   Q () (set_target tg (set_timestamp d a s))) → wp (esp_timer_impl_set_alarm_id a d) s Q.
Proof. intros HQ. unfold esp_timer_impl_set_alarm_id. wp_steps. by apply HQ. Qed.

(** Linking the timer being moved. *)
Lemma insert_ok s h t quiet (Q : esp_err_t → tstate → Prop) :
  timers_ok (Some h) s → heap s !! h = Some t → 0 < alarm t →
  (∀ s', timers_ok None s' → heap s' = heap s → unhurried s s' →
     s_timers s' = upd (dispatch_of t) (insert_list (alarm_at s) h (alarm t) (s_timers s (dispatch_of t))) (s_timers s) →
     keeps_alarms (λ d, quiet = false ∨ d ≠ dispatch_of t) s s' → Q ESP_OK s') →
  wp (timer_insert h quiet) s Q.
Proof.
  intros Hok Ht Ha HQ. pose proof Hok as []. unfold timer_insert. wp_steps.
  apply (wp_deref _ t); [done|]. wp_steps. rewrite (linked_false _ _ Hok). wp_steps.
  set (d := dispatch_of t) in *. set (l := insert_list (alarm_at s) h (alarm t) (s_timers s d)).
  assert (Forall (λ x, is_Some (heap s !! x)) (s_timers s d)) as Hall.
  { apply Forall_forall. intros x Hx. destruct (tk_linked0 _ _ Hx) as (t' & -> & _). by eexists. }
  apply insert_pos_spec; [done|]. fold l. wp_steps.
  assert (∀ ts tg, timers_ok None (mkTS (heap s) (upd d l (s_timers s)) (s_timer_task s) ts tg (now s)
            (s_isr_dispatch_need_yield s) (task_notified s) (fired s))) as Hok'.
  { intros ts tg. split; simpl; try done.
    - intros d' h'. unfold upd. case_decide as E; [subst d'|by apply tk_linked0].
      unfold l. rewrite insert_list_perm. intros [->|Hx]%elem_of_cons; [by exists t|by apply tk_linked0].
    - intros h' t' _ Ht' Ha'. unfold upd. destruct (decide (h' = h)) as [->|Hne].
      + assert (t' = t) as -> by congruence. rewrite decide_True by done. unfold l. rewrite insert_list_perm.
        apply elem_of_cons. auto.
      + case_decide as E; [|apply tk_armed0; congruence]. unfold l. rewrite insert_list_perm. apply elem_of_cons.
        right. rewrite <- E. apply tk_armed0; congruence.
    - intros d'. unfold upd. case_decide; [|done]. unfold l. rewrite insert_list_perm.
      constructor; [by apply tk_skip0|done].
    - intros d'. unfold upd. case_decide; [|apply tk_order0]. unfold l.
      rewrite <- (alarm_at_lookup _ _ _ Ht). apply insert_list_sorted, tk_order0. }
  unfold LIST_FIRST. wp_steps. cbn [s_timers set_list].
  destruct (bool_decide (head (upd d l (s_timers s) d) = Some h)) eqn:Ehd.
  2: { rewrite andb_false_r. wp_steps. apply HQ; try done; [apply Hok'|].
       split; [|done]. intros d' _ Hp. unfold programmed in *. simpl. unfold upd in *.
       rewrite decide_True in Ehd by done. destruct (decide (d' = d)) as [->|]; [|done].
       destruct (insert_list_head (alarm_at s) h (alarm t) (s_timers s d)) as (l' & [El|(x & l0 & E0 & El)]).
       - fold l in El. rewrite El in Ehd. by rewrite bool_decide_true in Ehd.
       - fold l in El. rewrite El. rewrite E0 in Hp. exact Hp. }
  destruct quiet; cbn [negb andb].
  - wp_steps. apply HQ; try done; [apply Hok'|]. split; [|done]. intros d' [?|Hne] Hp; [done|].
    unfold programmed in *. simpl. unfold upd. by rewrite decide_False by done.
  - wp_steps. apply wp_set_alarm_id. intros tg Htg. wp_steps. apply HQ; try done; [apply Hok'|]. split.
    + intros d' _ Hp. unfold programmed in *. simpl. unfold upd in *. destruct (decide (d' = d)) as [->|]; [|done].
      rewrite decide_True in Ehd by done. apply bool_decide_eq_true in Ehd. destruct l as [|x l']; [done|].
      injection Ehd as ->. unfold alarm_at. simpl. by rewrite Ht.
    + done.
Qed.

(** The first element of a list without [h]. *)
Lemma head_filter_ne (h f : Z) l : f ≠ h → ∃ l', filter (λ x, x ≠ h) (f :: l) = f :: l'.
Proof. intros Hne. rewrite filter_cons_True by done. by eexists. Qed.

(** Unlinking an armed timer and disarming it. *)
Lemma remove_ok s h t (Q : esp_err_t → tstate → Prop) :
  timers_ok None s → heap s !! h = Some t → 0 < alarm t →
  (∀ s', timers_ok None s' → heap s' = <[h := set_alarm_period 0 0 t]> (heap s) → unhurried s s' →
     s_timers s' = upd (dispatch_of t) (filter (λ x, x ≠ h) (s_timers s (dispatch_of t))) (s_timers s) →
     keeps_alarms (λ _, True) s s' → Q ESP_OK s') →
  wp (timer_remove h) s Q.
Proof.
  intros Hok Ht Ha HQ. unfold timer_remove, LIST_FIRST. wp_steps. apply (wp_deref _ t); [done|]. wp_steps.
  apply (wp_remove _ _ t); [done..|]. intros Hsk. wp_steps.
  eapply wp_put; [exact Ht|]. wp_steps.
  set (d := dispatch_of t) in *. set (l := filter (λ x, x ≠ h) (s_timers s d)) in *.
  pose proof (ok_put _ h (set_alarm_period 0 0 t) Hsk ltac:(simpl; lia) ltac:(by vm_compute)) as Hput.
  assert (∀ ts tg, timers_ok None (set_target tg (mkTS (<[h := set_alarm_period 0 0 t]> (heap s))
            (upd d l (s_timers s)) (s_timer_task s) ts tg (now s)
            (s_isr_dispatch_need_yield s) (task_notified s) (fired s)))) as Hok'.
  { intros ts tg. apply (ok_disarmed _ h); [destruct Hput; by split|]. simpl. intros t'.
    rewrite lookup_insert_eq. by intros [= <-]. }
  cbn [heap set_list set_heap] in *.
  assert (∀ x, x ≠ h → alarm_at (set_heap (<[h := set_alarm_period 0 0 t]> (heap s)) s) x = alarm_at s x) as Hal.
  { intros x Hx. rewrite alarm_at_put. by rewrite decide_False. }
  destruct (bool_decide (head (s_timers s d) = Some h)) eqn:Ehd.
  2: { wp_steps. apply HQ; try done; [apply (Hok' (timestamp_id s) (alarm_target s))|].
       split; [|done]. intros d' _. destruct (decide (d' = d)) as [->|Hne].
       - unfold programmed. simpl. unfold upd. rewrite decide_True by done. intros ->. unfold l.
         destruct (s_timers s d) as [|f l0]; [done|]. rewrite bool_decide_eq_false in Ehd.
         assert (f ≠ h) as Hf by (intros ->; by apply Ehd). destruct (head_filter_ne h f l0 Hf) as [l' ->].
         symmetry. by apply (Hal f).
       - apply programmed_ext; simpl; [done|unfold upd; by rewrite decide_False|].
         intros x Hx. apply (Hal x). intros ->. pose proof (tk_skip _ _ Hsk h d' eq_refl) as Hn.
         simpl in Hn. unfold upd in Hn. by rewrite decide_False in Hn. }
  wp_steps. cbn [s_timers set_list set_heap].
  assert (∀ a, a = match l with [] => UINT64_MAX | f :: _ => alarm_at (set_heap (<[h := set_alarm_period 0 0 t]> (heap s)) s) f end →
    wp (esp_timer_impl_set_alarm_id a d)
       (set_heap (<[h := set_alarm_period 0 0 t]> (heap s)) (set_list d l s)) (λ _ s', Q ESP_OK s')) as Hset.
  { intros a Ea. apply wp_set_alarm_id. intros tg Htg. apply HQ; try done; [apply (Hok' (upd d a (timestamp_id s)) tg)|].
    split; [|done]. intros d' _ Hp. unfold programmed in *. simpl. unfold upd.
    destruct (decide (d' = d)) as [->|Hne]; [done|]. rewrite Hp. destruct (s_timers s d') as [|f l0] eqn:El; [done|].
    symmetry. apply (Hal f). intros ->. pose proof (tk_skip _ _ Hsk h d' eq_refl) as Hn.
    simpl in Hn. unfold upd in Hn. rewrite decide_False, El in Hn by done. apply Hn, elem_of_cons. auto. }
  unfold upd. rewrite decide_True by done. destruct l as [|f l'] eqn:El; wp_steps; simpl; wp_steps.
  - eapply wp_mono; [by apply Hset|]. intros ? s' HQ'. by wp_steps.
  - assert (f ∈ upd d (f :: l') (s_timers s) d) as Hf.
    { unfold upd. rewrite decide_True by done. apply elem_of_cons. auto. }
    destruct (tk_linked _ _ Hput d f) as (tf & Htf & _); [exact Hf|]. simpl in Htf.
    apply (wp_deref _ tf); [exact Htf|]. wp_steps.
    eapply wp_mono; [apply Hset|]; [|intros ? s' HQ'; by wp_steps]. unfold alarm_at. simpl. by rewrite Htf.
Qed.
