(* ===== verification/EspTimerRun.v ===== *)
(** * Runs of the timer service

    Every sequence of calls of the API, with time passing in between, keeps the
    invariant; processing an alarm runs what has expired and nothing else, and
    leaves the next alarm programmed. *)
From Stdlib Require Import ZArith Lia Sorted.
From stdpp Require Import base numbers option list gmap sorting relations.
From S2P Require Import Prelude EspTimer EspTimerInv.

Open Scope Z_scope.

(** ** The calls of the API *)

Inductive timer_op : Type :=
| OpCreate (args : option esp_timer_create_args_t) (out_handle : bool) (fresh : option Z)
| OpStartOnce (h : option Z) (timeout_us : Z)
| OpStartPeriodic (h : option Z) (period_us : Z)
| OpRestart (h : option Z) (timeout_us : Z)
| OpStop (h : option Z)
| OpDelete (h : option Z).

Definition run_op (op : timer_op) : TM esp_err_t :=
  match op with
  | OpCreate args out fresh => x ← esp_timer_create args out fresh; mret (fst x)
  | OpStartOnce h t => esp_timer_start_once h t
  | OpStartPeriodic h p => esp_timer_start_periodic h p
  | OpRestart h t => esp_timer_restart h t
  | OpStop h => esp_timer_stop h
  | OpDelete h => esp_timer_delete h
  end.

(** A handle the client may use: [NULL] or a timer that is not freed. *)
Definition valid (s : tstate) (h : option Z) : Prop :=
  match h with Some h => is_Some (heap s !! h) | None => True end.

(** What the client owes: valid handles, and times within 2{^56} microseconds. *)
Definition op_ok (s : tstate) (op : timer_op) : Prop :=
  match op with
  | OpCreate _ _ fresh => match fresh with Some h => heap s !! h = None | None => True end
  | OpStartOnce h t | OpStartPeriodic h t | OpRestart h t => valid s h ∧ 0 ≤ t < 2 ^ 56
  | OpStop h | OpDelete h => valid s h
  end.

(** One call, or time passing. *)
Inductive api_step : tstate → tstate → Prop :=
| step_op op s s' r : op_ok s op → run_op op s = Done s' r → api_step s s'
| step_time s n : now s ≤ n < 2 ^ 63 → api_step s (set_now n s).

(** The state of the service between operations. *)
Definition good (s : tstate) : Prop := timers_ok None s ∧ 0 < now s < 2 ^ 63.

(** ** Lemmas *)

Lemma keeps_alarms_trans D s1 s2 s3 : keeps_alarms D s1 s2 → keeps_alarms D s2 s3 → keeps_alarms D s1 s3.
Proof. intros [A1 B1] [A2 B2]. split; auto. Qed.

Lemma keeps_alarms_weaken (D D' : esp_timer_dispatch_t → Prop) s s' :
  (∀ d, D' d → D d) → keeps_alarms D s s' → keeps_alarms D' s s'.
Proof. intros H [A B]. split; auto. Qed.

(** Changing an unlinked timer. *)
Lemma put_keeps s h t D :
  timers_ok (Some h) s → keeps_alarms D s (set_heap (<[h := t]> (heap s)) s).
Proof.
  intros Hok. split; [|done]. intros d _. apply programmed_ext; try done. intros x Hx.
  rewrite alarm_at_put, decide_False; [done|]. intros ->. by apply (tk_skip _ _ Hok h d).
Qed.

(** Arming an unarmed timer and linking it. *)
Lemma arm_ok s h t t' :
  timers_ok None s → heap s !! h = Some t → alarm t = 0 → 0 < alarm t' < 2 ^ 64 → 0 ≤ period t' < 2 ^ 56 →
  wp (put h t';; timer_insert h false) s (λ r s', r = ESP_OK ∧ timers_ok None s' ∧ unhurried s s' ∧
    heap s' = <[h := t']> (heap s) ∧ keeps_alarms (λ _, True) s s').
Proof.
  intros Hok Ht Ha Ha' Hp. pose proof (ok_skip _ _ _ Hok Ht Ha) as Hsk. wp_steps.
  eapply wp_put; [done|]. pose proof (ok_put _ h t' Hsk ltac:(lia) Hp) as Hsk'.
  eapply insert_ok; [exact Hsk'|by apply lookup_insert_eq|lia|].
  intros s' Hok' Eh Hu _ Hk. split; [done|]. split; [done|]. split; [done|]. split; [done|].
  eapply keeps_alarms_trans; [by apply put_keeps|]. eapply keeps_alarms_weaken; [|exact Hk]. by intros ? _; left.
Qed.

Definition preserved (s s' : tstate) : Prop :=
  timers_ok None s' ∧ unhurried s s' ∧ keeps_alarms (λ _, True) s s'.

Lemma preserved_refl s : timers_ok None s → preserved s s.
Proof. by split. Qed.

Lemma u56_range z : 0 ≤ u56 z < 2 ^ 56.
Proof. apply Z.mod_pos_bound. lia. Qed.

(** A new timer, not armed. *)
Lemma create_preserved s h t :
  timers_ok None s → heap s !! h = None → alarm t = 0 → 0 ≤ period t < 2 ^ 56 →
  preserved s (set_heap (<[h := t]> (heap s)) s).
Proof.
  intros Hok Hh Ha Hp.
  assert (timers_ok (Some h) s) as Hsk.
  { pose proof Hok as []. split; try done; [intros h' t' _; by apply tk_armed|]. intros ? d [= <-] Hin.
    destruct (tk_linked _ _ Hin) as (t' & Ht' & _). congruence. }
  split; [|split; [done|by apply put_keeps]].
  apply (ok_disarmed _ h); [apply ok_put; [done|lia|done]|].
  simpl. intros t'. rewrite lookup_insert_eq. by intros [= <-].
Qed.

Lemma arm_preserved s h t t' :
  timers_ok None s → heap s !! h = Some t → alarm t = 0 → 0 < alarm t' < 2 ^ 64 → 0 ≤ period t' < 2 ^ 56 →
  wp (put h t';; timer_insert h false) s (λ _ s', preserved s s').
Proof.
  intros. eapply wp_mono; [by eapply arm_ok|]. intros r s' (_ & P1 & P2 & _ & P3). by split.
Qed.

(** Follow the checks that precede the work of a call. *)
Ltac api_checks Hok :=
  unfold is_initialized, esp_timer_impl_get_time, timer_armed; wp_steps;
  try (destruct (negb _); wp_steps; [by apply preserved_refl|]).
Ltac api_armed Hok t0 Ht0 :=
  apply (wp_deref _ t0); [done|]; wp_steps; pose proof (tk_range _ _ Hok _ _ Ht0);
  destruct (Z.ltb_spec 0 (alarm t0)); cbn [negb]; wp_steps.

(** Every call keeps the invariant and returns. *)
Lemma op_preserved s op :
  good s → op_ok s op → wp (run_op op) s (λ _ s', preserved s s').
Proof.
  intros [Hok Hnow] Hop. pose proof u56_range as H56.
  destruct op as [args out fresh|[h|] t|[h|] p|[h|] t|[h|]|[h|]]; simpl in *; wp_steps;
    try (by apply preserved_refl).
  - unfold esp_timer_create. api_checks Hok.
    destruct args as [args|]; wp_steps; [|by apply preserved_refl].
    destruct (_ || _); wp_steps; [by apply preserved_refl|].
    destruct fresh as [h|]; wp_steps; [|by apply preserved_refl]. by apply create_preserved.
  - destruct Hop as [[t0 Ht0] Ht]. api_checks Hok. api_armed Hok t0 Ht0; [by apply preserved_refl|].
    apply (wp_deref _ t0); [done|]. apply (arm_preserved _ _ t0); simpl; try done; try lia.
    rewrite u64_small; lia.
  - destruct Hop as [[t0 Ht0] Ht]. api_checks Hok. api_armed Hok t0 Ht0; [by apply preserved_refl|].
    apply (wp_deref _ t0); [done|].
    apply (arm_preserved _ _ t0); simpl; unfold esp_timer_impl_get_min_period_us; try done; try lia.
    rewrite u64_small; lia.
  - destruct Hop as [[t0 Ht0] Ht]. api_checks Hok. api_armed Hok t0 Ht0; [|by apply preserved_refl].
    apply (wp_deref _ t0); [done|]. wp_steps.
    eapply remove_ok; [done|done|lia|]. intros s' Hok' Eh Hu _ Hk. wp_steps.
    set (t1 := set_alarm_period 0 0 t0) in *.
    assert (heap s' !! h = Some t1) as Ht1 by (rewrite Eh; apply lookup_insert_eq).
    apply (wp_deref _ t1); [done|].
    assert (∀ t', 0 < alarm t' < 2 ^ 64 → 0 ≤ period t' < 2 ^ 56 →
      wp (put h t';; timer_insert h false) s' (λ _ s'', preserved s s'')) as Harm.
    { intros t' H1 H2. eapply wp_mono; [by apply (arm_preserved _ _ t1)|]. intros _ s'' (P1 & P2 & P3).
      split; [done|]. split; [|by eapply keeps_alarms_trans].
      destruct Hu as (U1 & U2 & U3), P2 as (V1 & V2 & V3). unfold unhurried. by rewrite V1, V2, V3. }
    destruct (negb _); apply Harm; simpl; unfold esp_timer_impl_get_min_period_us; try done; rewrite u64_small; lia.
  - destruct Hop as [t0 Ht0]. api_checks Hok. api_armed Hok t0 Ht0; [|by apply preserved_refl].
    eapply remove_ok; [done|done|lia|]. intros s' Hok' Eh Hu _ Hk. by split.
  - destruct Hop as [t0 Ht0]. api_checks Hok. api_armed Hok t0 Ht0; [by apply preserved_refl|].
    apply (wp_deref _ t0); [done|]. apply (arm_preserved _ _ t0); simpl; try done; try lia.
    rewrite u64_small; lia.
Qed.

Lemma step_good s s' : good s → api_step s s' →
  good s' ∧ keeps_alarms (λ _, True) s s' ∧ now s ≤ now s'.
Proof.
  intros Hg Hst. revert Hg. destruct Hst as [op s s' r Hop E|s n Hn]; intros Hg.
  - pose proof (op_preserved _ _ Hg Hop) as H. unfold wp in H. rewrite E in H.
    destruct Hg as [_ Hnow], H as (H1 & (H2 & _) & H3). unfold good. rewrite H2. split; [by split|]. split; [done|lia].
  - destruct Hg as [[] Hnow]. split; [split; [by split|simpl; lia]|]. split; [by split|simpl; lia].
Qed.

Lemma steps_good s s' : rtc api_step s s' → good s →
  good s' ∧ keeps_alarms (λ _, True) s s' ∧ now s ≤ now s'.
Proof.
  induction 1 as [s|s1 s2 s3 H1 _ IH]; intros Hg; [by split|].
  destruct (step_good _ _ Hg H1) as (G2 & K2 & N2). destruct (IH G2) as (G3 & K3 & N3).
  split; [done|]. split; [by eapply keeps_alarms_trans|lia].
Qed.

(** ** Processing an alarm *)

(** What becomes of an expired timer that is not being deleted. *)
Definition rearm (now : Z) (t : esp_timer) : esp_timer :=
  if 0 <? period t then
    let skipped := i32 (u64 (now - alarm t) / period t) in
    set_alarm (if flag (flags t) FL_SKIP_UNHANDLED_EVENTS && (1 <? skipped)
               then u64 (now + period t) else u64 (alarm t + period t)) t
  else set_alarm 0 t.

Section process.
Context (run_callback : Z → Z → tstate → tstate) (d : esp_timer_dispatch_t).

(** The alarm of the other dispatch method. *)
Definition others_kept (s s' : tstate) : Prop := keeps_alarms (λ d', d' ≠ d) s s'.

Lemma others_trans s1 s2 s3 : others_kept s1 s2 → others_kept s2 s3 → others_kept s1 s3.
Proof. apply keeps_alarms_trans. Qed.

Lemma others_weaken s s' : keeps_alarms (λ _, True) s s' → others_kept s s'.
Proof. by apply keeps_alarms_weaken. Qed.

(** Removing and freeing keep the other list's alarm. *)
Lemma set_list_others s l : others_kept s (set_list d l s).
Proof.
  split; [|done]. intros d' Hne. apply programmed_ext; try done. simpl. unfold upd. by rewrite decide_False.
Qed.

Lemma free_others s h : (∀ d', h ∉ s_timers s d') → others_kept s (set_heap (delete h (heap s)) s).
Proof.
  intros Hh. split; [|done]. intros d' Hne. apply programmed_ext; try done. simpl. intros x Hx.
  unfold alarm_at. simpl. rewrite lookup_delete_ne; [done|]. intros ->. by apply (Hh d').
Qed.

Lemma ok_free s h : timers_ok (Some h) s → timers_ok None (set_heap (delete h (heap s)) s).
Proof.
  intros []. split; simpl; try done.
  - intros d' h' Hin. rewrite lookup_delete_ne; [by apply tk_linked|]. intros ->. by apply (tk_skip h' d').
  - intros h' t' _. rewrite lookup_delete_Some. intros [Hne Ht']. apply tk_armed; [congruence|done].
  - intros d'. eapply StronglySorted_ext; [|apply tk_order]. intros x y Hx Hy. unfold by_alarm, alarm_at. simpl.
    rewrite !lookup_delete_ne; [done|..]; intros ->; by eapply tk_skip.
  - intros h' t'. rewrite lookup_delete_Some. intros [_ ?]. by eapply tk_range.
Qed.

Lemma good_log s e : good s → good (log_fired e s).
Proof. intros [[] Hn]. split; [by split|done]. Qed.

(** The alarm of a timer that expired and was rearmed. *)
Lemma rearm_range n t :
  0 ≤ period t < 2 ^ 56 → 0 < alarm t ≤ n → n < 2 ^ 63 →
  0 ≤ alarm (rearm n t) < 2 ^ 64 ∧ period (rearm n t) = period t ∧
  (0 < period t → alarm t < alarm (rearm n t)) ∧ (period t = 0 → alarm (rearm n t) = 0).
Proof.
  intros Hp Ha Hn. unfold rearm. destruct (Z.ltb_spec 0 (period t)); simpl.
  - rewrite !(u64_small (_ + _)) by lia. destruct (_ && _); lia.
  - split_and!; lia.
Qed.

(** The effect of the critical section around one callback. *)
Record handled (s s1 : tstate) (h : Z) (t : esp_timer) (l : list Z) : Prop := {
  hd_good : good s1;
  hd_others : others_kept s s1;
  hd_now : now s1 = now s;
  hd_heap : heap s1 = if callback t =? EVENT_ID_DELETE_TIMER then delete h (heap s)
                      else <[h := rearm (now s) t]> (heap s);
  hd_fired : fired s1 = if callback t =? EVENT_ID_DELETE_TIMER then fired s
                        else fired s ++ [(alarm t, callback t, arg t)];
  hd_list : s_timers s1 d ≡ₚ
    if negb (callback t =? EVENT_ID_DELETE_TIMER) && (0 <? period t) then h :: l else l
}.

(** One iteration, by cases. *)
Lemma process_step_cases s b (Q : bool + bool * option Z → tstate → Prop) :
  good s →
  (s_timers s d = [] → Q (inr (b, None)) s) →
  (∀ h t l, s_timers s d = h :: l → heap s !! h = Some t → now s < alarm t → Q (inr (b, Some h)) s) →
  (∀ h t l s1, s_timers s d = h :: l → heap s !! h = Some t → 0 < alarm t ≤ now s → handled s s1 h t l →
     Q (inl true) (if callback t =? EVENT_ID_DELETE_TIMER then s1 else run_callback (callback t) (arg t) s1)) →
  wp (process_step run_callback d b) s Q.
Proof.
  intros [Hok Hnow] H0 H1 H2. unfold process_step, LIST_FIRST, esp_timer_impl_get_time. wp_steps.
  destruct (s_timers s d) as [|h l] eqn:El; simpl; wp_steps; [by apply H0|].
  destruct (tk_linked _ _ Hok d h) as (t & Ht & Ha & Hd); [rewrite El; apply elem_of_cons; auto|].
  apply (wp_deref _ t); [done|].
  destruct (Z.ltb_spec (now s) (alarm t)); wp_steps; [by eapply H1|].
  pose proof (tk_range _ _ Hok _ _ Ht) as [_ Hp].
  pose proof (rearm_range (now s) t Hp ltac:(lia) ltac:(lia)) as (R1 & R2 & R3 & R4).
  assert (filter (λ x, x ≠ h) (s_timers s d) = l) as Hl.
  { rewrite El, filter_cons_False by (by intros []). apply filter_all, Forall_forall. intros x Hx ->.
    pose proof (tk_nodup _ _ Hok d) as Hnd. rewrite El in Hnd. by apply NoDup_cons in Hnd as [? _]. }
  apply (wp_remove _ _ t); [done..|]. rewrite Hd, Hl. intros Hsk.
  specialize (H2 h t l). set (s1 := set_list d l s) in *.
  assert (heap s1 !! h = Some t) as Ht1 by done.
  assert (s_timers s1 d = l) as Hl1 by (simpl; unfold upd; by rewrite decide_True).
  destruct (callback t =? EVENT_ID_DELETE_TIMER) eqn:Ecb.
  { wp_steps. unfold wp at 1, free_timer. rewrite Ht1. apply wp_ret. apply H2; try done.
    split; rewrite ?Ecb; try done.
    - split; [by apply ok_free|done].
    - eapply others_trans; [apply set_list_others|]. apply free_others. intros d'. by apply (tk_skip _ _ Hsk).
    - simpl. unfold upd. by rewrite decide_True. }
  pose proof (ok_put _ h (rearm (now s) t) Hsk R1 ltac:(by rewrite R2)) as Hput.
  set (s2 := set_heap (<[h := rearm (now s) t]> (heap s1)) s1) in *.
  assert (others_kept s s2) as Hk2.
  { eapply others_trans; [apply set_list_others|]. by apply put_keeps. }
  wp_steps. destruct (0 <? period t) eqn:Eper.
  - eapply wp_bind, wp_put; [exact Ht1|].
    replace (set_heap _ s1) with s2 by (unfold s2, rearm; by rewrite Eper).
    wp_steps. apply Z.ltb_lt in Eper. pose proof (R3 Eper) as Hlt.
    eapply insert_ok; [exact Hput|by apply lookup_insert_eq|lia|].
    intros s3 Hok3 Eh3 (U1 & U2 & U3) El3 Hk3. wp_steps. apply H2; [done|done|lia|].
    assert (dispatch_of (rearm (now s) t) = d) as Hd'.
    { rewrite <- Hd. unfold rearm. by destruct (0 <? period t). }
    split; rewrite ?Ecb; simpl.
    + apply good_log. split; [done|]. rewrite U1. exact Hnow.
    + eapply others_trans; [exact Hk2|]. eapply keeps_alarms_weaken; [|exact Hk3]. intros d' Hne.
      rewrite Hd'. by right.
    + by rewrite U1.
    + by rewrite Eh3.
    + by rewrite U2.
    + rewrite (proj2 (Z.ltb_lt _ _)) by done. rewrite El3, Hd'. unfold upd at 1. rewrite decide_True by done.
      rewrite insert_list_perm. simpl. unfold upd. by rewrite decide_True.
  - eapply wp_put; [exact Ht1|]. replace (set_heap _ s1) with s2 by (unfold s2, rearm; by rewrite Eper).
    wp_steps. apply H2; [done|done|lia|]. apply Z.ltb_ge in Eper.
    split; rewrite ?Ecb; simpl; try done.
    + apply good_log. split; [|done]. apply (ok_disarmed _ h); [done|]. intros t'.
      simpl. rewrite lookup_insert_eq. intros [= <-]. apply R4. lia.
    + rewrite (proj2 (Z.ltb_ge _ _)) by done. unfold upd. by rewrite decide_True.
Qed.

(** Setting the alarm of [d] after the loop. *)
Lemma finish_alarm s a (Q : () → tstate → Prop) :
  good s → a = match s_timers s d with [] => UINT64_MAX | h :: _ => alarm_at s h end →
  (∀ s', good s' → programmed s' d → target_ok s' → others_kept s s' → heap s' = heap s →
     s_timers s' = s_timers s → now s' = now s → fired s' = fired s → Q () s') →
  wp (esp_timer_impl_set_alarm_id a d) s Q.
Proof.
  intros [Hok Hn] Ha HQ. apply wp_set_alarm_id. intros tg Htg. apply HQ; try done.
  - split; [by destruct Hok; split|done].
  - unfold programmed. simpl. unfold upd. by rewrite decide_True.
  - split; [|done]. intros d' Hne. apply programmed_ext; try done. simpl. unfold upd. by rewrite decide_False.
Qed.

(** No timer of the list is due when its first one is not. *)
Lemma none_due s h t l :
  timers_ok None s → s_timers s d = h :: l → heap s !! h = Some t → now s < alarm t →
  ∀ h' t', h' ∈ s_timers s d → heap s !! h' = Some t' → now s < alarm t'.
Proof.
  intros Hok El Ht Hlt h' t' Hin Ht'. pose proof (tk_order _ _ Hok d) as Hs. rewrite El in Hs, Hin.
  apply elem_of_cons in Hin as [->|Hin]; [congruence|].
  apply StronglySorted_inv in Hs as [_ Hs]. rewrite Forall_forall in Hs. specialize (Hs _ Hin).
  unfold by_alarm in Hs. rewrite (alarm_at_lookup _ _ _ Ht), (alarm_at_lookup _ _ _ Ht') in Hs. lia.
Qed.

(** The state in which the loop leaves. *)
Definition loop_exit (s : tstate) (x : bool * option Z) : Prop :=
  match snd x with
  | None => s_timers s d = []
  | Some h => ∃ t l, s_timers s d = h :: l ∧ heap s !! h = Some t ∧ now s < alarm t
  end.

(** What the end of [timer_process_alarm] does with it. *)
Lemma process_tail s0 s x (Q : bool → tstate → Prop) :
  good s → others_kept s0 s → loop_exit s x → (fst x = false → s = s0) →
  (∀ s', good s' → (∀ d', programmed s0 d' → programmed s' d') → (target_ok s0 → target_ok s') →
     heap s' = heap s → s_timers s' = s_timers s → now s' = now s → fired s' = fired s →
     (∀ h t, h ∈ s_timers s' d → heap s' !! h = Some t → now s' < alarm t) → Q (fst x) s') →
  wp (let '(processed, it) := x in
      match it with
      | Some h =>
          t ← deref h;
          if bool_decide (d = ESP_TIMER_TASK) || processed
          then esp_timer_impl_set_alarm_id (alarm t) d else mret ()
      | None => if (processed : bool) then esp_timer_impl_set_alarm_id UINT64_MAX d else mret ()
      end;;
      mret processed) s Q.
Proof.
  intros Hg Hk Hx Hsame HQ.
  assert (∀ s', others_kept s s' → programmed s' d → ∀ d', programmed s0 d' → programmed s' d') as Hprog.
  { intros s' [Hk' _] Hp d' Hd'. destruct (decide (d' = d)) as [->|Hne]; [done|].
    apply Hk'; [done|]. by apply Hk. }
  destruct x as [b [h|]]; simpl in *.
  - destruct Hx as (t & l & El & Ht & Hlt). pose proof (none_due _ _ _ _ (proj1 Hg) El Ht Hlt) as Hdue.
    wp_steps. apply (wp_deref _ t); [done|]. destruct (_ || _) eqn:Eb; wp_steps.
    + apply finish_alarm; [done|rewrite El; symmetry; by apply alarm_at_lookup|].
      intros s' G1 G2 G3 G4 G5 G6 G7 G8. wp_steps. apply HQ; try done; [by apply Hprog|].
      by rewrite G5, G6, G7.
    + apply orb_false_iff in Eb as [_ ->]. rewrite (Hsame eq_refl) in *. by apply HQ.
  - assert (∀ h t, h ∈ s_timers s d → heap s !! h = Some t → now s < alarm t) as Hdue.
    { rewrite Hx. by intros h t ?%not_elem_of_nil. }
    destruct b; wp_steps; [|rewrite (Hsame eq_refl) in *; by apply HQ].
    apply finish_alarm; [done|by rewrite Hx|].
    intros s' G1 G2 G3 G4 G5 G6 G7 G8. wp_steps. apply HQ; try done; [by apply Hprog|].
    by rewrite G5, G6, G7.
Qed.

(** Callbacks that use the API. *)
Section api_callbacks.
Hypothesis callback_api : ∀ c a s, good s → rtc api_step s (run_callback c a s).

Lemma process_safe fuel s :
  good s →
  wlp (timer_process_alarm run_callback fuel d) s (λ processed s',
    good s' ∧ (∀ d', programmed s d' → programmed s' d') ∧ (target_ok s → target_ok s') ∧
    now s ≤ now s' ∧ (processed = false → heap s' = heap s ∧ s_timers s' = s_timers s) ∧
    (∀ h t, h ∈ s_timers s' d → heap s' !! h = Some t → now s' < alarm t)).
Proof.
  intros Hg. unfold timer_process_alarm. apply wlp_bind.
  pose (I := λ (b : bool) s', good s' ∧ others_kept s s' ∧ now s ≤ now s' ∧ (b = false → s' = s)).
  apply (wlp_iter _ I); [|refine (conj Hg (conj _ (conj _ _))); [by split|lia|done]].
  intros b s1 (G1 & K1 & N1 & S1). apply process_step_cases; [done|..].
  - intros El. apply wlp_wp, (process_tail s _ (b, None)); try done.
    intros s' G' P' T' E1 E2 E3 E4 D'. refine (conj G' (conj P' (conj T' (conj _ (conj _ D'))))); [rewrite E3; lia|].
    simpl. intros ->. by rewrite (S1 eq_refl) in *.
  - intros h t l El Ht Hlt. apply wlp_wp, (process_tail s _ (b, Some h)); try done; [by exists t, l|].
    intros s' G' P' T' E1 E2 E3 E4 D'. refine (conj G' (conj P' (conj T' (conj _ (conj _ D'))))); [rewrite E3; lia|].
    simpl. intros ->. by rewrite (S1 eq_refl) in *.
  - intros h t l s2 El Ht Ha [G2 K2 N2 _ _ _].
    assert (I true s2) as I2.
    { refine (conj G2 (conj _ (conj _ _))); [by eapply others_trans|lia|done]. }
    destruct (_ =? _); [done|].
    destruct (steps_good _ _ (callback_api (callback t) (arg t) _ G2) G2) as (G3 & K3 & N3).
    refine (conj G3 (conj _ (conj _ _))); [|lia|done].
    eapply others_trans; [by eapply others_trans|]. by apply others_weaken.
Qed.
End api_callbacks.

(** Callbacks that leave the timers and the clock alone. *)
Section quiet_callbacks.
Hypothesis callback_quiet : ∀ c a s,
  heap (run_callback c a s) = heap s ∧ s_timers (run_callback c a s) = s_timers s ∧
  now (run_callback c a s) = now s ∧ fired (run_callback c a s) = fired s.

(** How often a timer is due at time [n]. *)
Definition due (n : Z) (t : esp_timer) : nat :=
  if alarm t <=? n then
    if 0 <? period t then S (Z.to_nat ((n - alarm t) / period t)) else 1
  else 0.

Definition due_at (s : tstate) (h : Z) : nat :=
  match heap s !! h with Some t => due (now s) t | None => 0 end.

Definition expirations (s : tstate) : nat := sum_list_with (due_at s) (s_timers s d).

Lemma sum_list_with_ext {A} (f g : A → nat) l : (∀ x, x ∈ l → f x = g x) → sum_list_with f l = sum_list_with g l.
Proof.
  induction l as [|x l IH]; intros H; simpl; [done|]. rewrite (H x) by (apply elem_of_cons; auto).
  f_equal. apply IH. intros y Hy. apply H, elem_of_cons. auto.
Qed.

Lemma due_rearm n t :
  0 ≤ period t < 2 ^ 56 → 0 < alarm t ≤ n → n < 2 ^ 63 → 0 < period t → (due n (rearm n t) < due n t)%nat.
Proof.
  intros Hp Ha Hn Hpos. unfold due at 2. rewrite (proj2 (Z.leb_le _ _)), (proj2 (Z.ltb_lt _ _)) by lia.
  unfold due, rearm. rewrite (proj2 (Z.ltb_lt _ _)) by lia. simpl. rewrite !(u64_small (_ + _)) by lia.
  destruct (_ && _).
  - rewrite (proj2 (Z.leb_gt _ _)) by lia. lia.
  - destruct (Z.leb_spec (alarm t + period t) n); [|lia].
    rewrite (proj2 (Z.ltb_lt _ _)) by lia.
    replace (n - alarm t) with (n - (alarm t + period t) + 1 * period t) by lia.
    rewrite Z.div_add by lia. pose proof (Z.div_pos (n - (alarm t + period t)) (period t)). lia.
Qed.

(** Each iteration uses up at least one expiration. *)
Lemma expirations_step s s1 h t l :
  good s → s_timers s d = h :: l → heap s !! h = Some t → 0 < alarm t ≤ now s → handled s s1 h t l →
  (expirations s1 < expirations s)%nat.
Proof.
  intros [Hok Hn] El Ht Ha [_ _ Hnow Hh _ Hl]. unfold expirations. rewrite El. cbn [sum_list_with].
  pose proof (tk_nodup _ _ Hok d) as Hnd. rewrite El in Hnd. apply NoDup_cons in Hnd as [Hnin _].
  pose proof (tk_range _ _ Hok _ _ Ht) as [_ Hp].
  assert (sum_list_with (due_at s1) l = sum_list_with (due_at s) l) as Hsum.
  { apply sum_list_with_ext. intros x Hx. unfold due_at. rewrite Hnow, Hh.
    assert (x ≠ h) by (by intros ->). destruct (_ =? _); [by rewrite lookup_delete_ne|by rewrite lookup_insert_ne]. }
  assert (due_at s h = due (now s) t) as Hdue by (unfold due_at; by rewrite Ht).
  assert (1 ≤ due (now s) t)%nat as H1.
  { unfold due. rewrite (proj2 (Z.leb_le _ _)) by lia. destruct (_ <? _); lia. }
  rewrite Hl, Hdue. destruct (callback t =? EVENT_ID_DELETE_TIMER) eqn:Ecb; simpl; [lia|].
  destruct (Z.ltb_spec 0 (period t)); simpl; [|lia].
  pose proof (due_rearm (now s) t Hp Ha ltac:(lia) ltac:(lia)).
  assert (due_at s1 h = due (now s) (rearm (now s) t)) as ->.
  { unfold due_at. by rewrite Hnow, Hh, lookup_insert_eq. }
  lia.
Qed.

(** The callbacks run so far, by alarm, and the timers still in the list. *)
Definition in_order (s0 s : tstate) : Prop :=
  ∃ new, fired s = fired s0 ++ new ∧ Forall (λ e, fst (fst e) ≤ now s0) new ∧
    StronglySorted (λ e e', fst (fst e) ≤ fst (fst e')) new ∧
    (length new + expirations s ≤ expirations s0)%nat ∧
    ∀ e h, e ∈ new → h ∈ s_timers s d → fst (fst e) ≤ alarm_at s h.

Lemma StronglySorted_snoc {A} (R : relation A) l x :
  StronglySorted R l → Forall (λ y, R y x) l → StronglySorted R (l ++ [x]).
Proof.
  induction 1 as [|y l Hl IH Hy]; intros Hx; simpl; [by repeat constructor|].
  rewrite Forall_cons in Hx. destruct Hx as [Hyx Hx]. constructor; [by apply IH|].
  apply Forall_app. split; [done|by constructor].
Qed.

Lemma in_order_step s0 s s1 h t l :
  good s → now s = now s0 → in_order s0 s → s_timers s d = h :: l → heap s !! h = Some t →
  0 < alarm t ≤ now s → handled s s1 h t l → in_order s0 s1.
Proof.
  intros Hg Hs0 (new & Ef & Hle & Hsort & Hlen & Hbelow) El Ht Ha Hh.
  pose proof (expirations_step _ _ _ _ _ Hg El Ht Ha Hh) as Hexp. destruct Hg as [Hok Hn].
  destruct Hh as [_ _ _ Hheap Hf Hl].
  pose proof (tk_order _ _ Hok d) as Hs. rewrite El in Hs. apply StronglySorted_inv in Hs as [_ Hs].
  rewrite Forall_forall in Hs. unfold by_alarm in Hs. rewrite (alarm_at_lookup _ _ _ Ht) in Hs.
  pose proof (tk_range _ _ Hok _ _ Ht) as [_ Hp].
  pose proof (rearm_range (now s) t Hp Ha ltac:(lia)) as (_ & _ & R3 & _).
  pose proof (tk_nodup _ _ Hok d) as Hnd. rewrite El in Hnd. apply NoDup_cons in Hnd as [Hnin _].
  assert (∀ x, x ∈ l → alarm_at s1 x = alarm_at s x) as Hal.
  { intros x Hx. unfold alarm_at. rewrite Hheap. assert (x ≠ h) by (by intros ->).
    destruct (_ =? _); [by rewrite lookup_delete_ne|by rewrite lookup_insert_ne]. }
  assert (∀ x, x ∈ s_timers s1 d → alarm t ≤ alarm_at s1 x) as Hnext.
  { intros x. rewrite Hl. destruct (callback t =? EVENT_ID_DELETE_TIMER) eqn:Ecb; simpl.
    - intros Hx. rewrite Hal by done. by apply Hs.
    - destruct (Z.ltb_spec 0 (period t)); [|intros Hx; rewrite Hal by done; by apply Hs].
      intros [->|Hx]%elem_of_cons; [|rewrite Hal by done; by apply Hs].
      unfold alarm_at. rewrite Hheap, lookup_insert_eq. simpl. specialize (R3 ltac:(lia)). lia. }
  assert (∀ e, e ∈ new → fst (fst e) ≤ alarm t) as Hbt.
  { intros e He. rewrite <- (alarm_at_lookup _ _ _ Ht). apply Hbelow; [done|]. rewrite El. apply elem_of_cons. auto. }
  destruct (callback t =? EVENT_ID_DELETE_TIMER) eqn:Ecb.
  - exists new. split_and!; [by rewrite Hf|done|done|lia|]. intros e x He Hx.
    specialize (Hbt _ He). specialize (Hnext _ Hx). lia.
  - exists (new ++ [(alarm t, callback t, arg t)]). rewrite length_app. simpl. split_and!.
    + by rewrite Hf, Ef, app_assoc.
    + apply Forall_app. split; [done|]. constructor; [simpl; lia|done].
    + apply StronglySorted_snoc; [done|]. by apply Forall_forall.
    + lia.
    + intros e x [He|He]%elem_of_app Hx; specialize (Hnext _ Hx).
      * specialize (Hbt _ He). lia.
      * apply list_elem_of_singleton in He as ->. simpl. lia.
Qed.

Lemma process_total fuel s :
  good s → (expirations s < fuel)%nat →
  wp (timer_process_alarm run_callback fuel d) s (λ _ s',
    good s' ∧ in_order s s' ∧ now s' = now s ∧
    (∀ h t, h ∈ s_timers s' d → heap s' !! h = Some t → now s < alarm t)).
Proof.
  intros Hg Hfuel. unfold timer_process_alarm. apply wp_bind.
  pose (I := λ (n : nat) (b : bool) s', n = expirations s' ∧ good s' ∧ in_order s s' ∧ now s' = now s).
  apply (wp_iter _ I) with (n := expirations s); [| |done].
  2: { refine (conj eq_refl (conj Hg (conj _ eq_refl))). exists []. rewrite app_nil_r.
       split_and!; try done; [constructor|by intros ? ? ?%not_elem_of_nil]. }
  intros n b s1 (-> & G1 & O1 & N1).
  assert (∀ it, loop_exit s1 (b, it) → wp (let '(processed, it) := (b, it) in
      match it with
      | Some h =>
          t ← deref h;
          if bool_decide (d = ESP_TIMER_TASK) || processed
          then esp_timer_impl_set_alarm_id (alarm t) d else mret ()
      | None => if (processed : bool) then esp_timer_impl_set_alarm_id UINT64_MAX d else mret ()
      end;;
      mret processed) s1 (λ _ s', good s' ∧ in_order s s' ∧ now s' = now s ∧
    (∀ h t, h ∈ s_timers s' d → heap s' !! h = Some t → now s < alarm t))) as Htail.
  { intros it Hx. apply (process_tail s1 s1 (b, it)); [done|by split|done|done|].
    intros s' G' _ _ E1 E2 E3 E4 D'. refine (conj G' (conj _ (conj _ _))); [|congruence|by rewrite <- N1, <- E3].
    destruct O1 as (new & F1 & F2 & F3 & F4 & F5). exists new. split_and!; [congruence|done|done| |].
    - unfold expirations, due_at in *. by rewrite E1, E2, E3.
    - intros e h He. rewrite E2. intros Hh. unfold alarm_at. rewrite E1. by apply F5. }
  apply process_step_cases; [done|..].
  - intros El. by apply (Htail None).
  - intros h t l El Ht Hlt. apply (Htail (Some h)). by exists t, l.
  - intros h t l s2 El Ht Ha Hh. pose proof (expirations_step _ _ _ _ _ G1 El Ht Ha Hh) as Hexp.
    pose proof (in_order_step s _ _ _ _ _ G1 N1 O1 El Ht Ha Hh) as O2. destruct Hh as [G2 _ N2 _ _ _].
    destruct (_ =? _).
    + exists (expirations s2). split; [done|]. refine (conj eq_refl (conj G2 (conj O2 _))). congruence.
    + destruct (callback_quiet (callback t) (arg t) s2) as (Q1 & Q2 & Q3 & Q4).
      set (s3 := run_callback (callback t) (arg t) s2) in *.
      assert (expirations s3 = expirations s2) as E3 by (unfold expirations, due_at; by rewrite Q1, Q2, Q3).
      exists (expirations s3). split; [lia|]. refine (conj eq_refl (conj _ (conj _ _))); [| |congruence].
      * destruct G2 as [[] Hn2]. split; [|by rewrite Q3].
        split; rewrite ?Q1, ?Q2; try done. unfold by_alarm, alarm_at in *. by rewrite Q1.
      * destruct O2 as (new & F1 & F2 & F3 & F4 & F5). exists new. split_and!; [congruence|done|done|lia|].
        intros e x He. rewrite Q2. intros Hx. unfold alarm_at. rewrite Q1. by apply F5.
Qed.
End quiet_callbacks.
End process.
