(* ===== verification/EspTimerSpec.v ===== *)
(** * What the timer service promises

    The theorems about [esp_timer.c] as a whole: its invariant along every run of the
    API, the processing of alarms, and the queries used to plan sleep. *)
From Stdlib Require Import ZArith Lia Sorted.
From stdpp Require Import base numbers option list gmap sorting relations.
From S2P Require Import Prelude EspTimer EspTimerInv EspTimerRun.

Open Scope Z_scope.

(** The service after [esp_timer_init], at time [n]. *)
Definition started (n : Z) : tstate :=
  mkTS ∅ (λ _, []) true (λ _, UINT64_MAX) UINT64_MAX n false false [].

Lemma started_good n : 0 < n < 2 ^ 63 → good (started n) ∧ (∀ d, programmed (started n) d) ∧ target_ok (started n).
Proof.
  intros Hn. split; [|by split]. split; [|done].
  split; simpl; intros.
  - by apply not_elem_of_nil in H.
  - by rewrite lookup_empty in H0.
  - apply not_elem_of_nil.
  - constructor.
  - constructor.
  - by rewrite lookup_empty in H.
Qed.

(** The programmed alarm, in terms of the armed timers. *)
Lemma target_earliest s :
  timers_ok None s → (∀ d, programmed s d) → target_ok s →
  (∀ h t, heap s !! h = Some t → 0 < alarm t → alarm_target s ≤ alarm t) ∧
  (alarm_target s = UINT64_MAX ∨ ∃ h t, heap s !! h = Some t ∧ 0 < alarm t ∧ alarm t = alarm_target s).
Proof.
  intros Hok Hp Ht. unfold target_ok in Ht.
  assert (∀ h t, heap s !! h = Some t → 0 < alarm t → timestamp_id s (dispatch_of t) ≤ alarm t) as Hle.
  { intros h t Hh Ha. rewrite Hp. pose proof (tk_armed _ _ Hok h t ltac:(done) Hh Ha) as Hin.
    pose proof (tk_order _ _ Hok (dispatch_of t)) as Hs. destruct (s_timers s (dispatch_of t)) as [|f l].
    { by apply not_elem_of_nil in Hin. }
    rewrite <- (alarm_at_lookup _ _ _ Hh). apply elem_of_cons in Hin as [->|Hin]; [done|].
    apply StronglySorted_inv in Hs as [_ Hs]. rewrite Forall_forall in Hs. by apply Hs. }
  split.
  - intros h t Hh Ha. specialize (Hle _ _ Hh Ha). rewrite Ht. destruct (dispatch_of t); lia.
  - assert (∀ d, timestamp_id s d = UINT64_MAX ∨
      ∃ h t, heap s !! h = Some t ∧ 0 < alarm t ∧ alarm t = timestamp_id s d) as Hex.
    { intros d. pose proof (Hp d) as Hd. unfold programmed in Hd. destruct (s_timers s d) as [|f l] eqn:El; [by left|right].
      destruct (tk_linked _ _ Hok d f) as (t & Hf & Ha & _); [rewrite El; apply elem_of_cons; auto|].
      exists f, t. split_and!; try done. rewrite Hd. symmetry. by apply alarm_at_lookup. }
    rewrite Ht. destruct (Z.min_spec (timestamp_id s ESP_TIMER_TASK) (timestamp_id s ESP_TIMER_ISR)) as [[_ ->]|[_ ->]];
      apply Hex.
Qed.

(** C4: along every run of the API from the start of the service, with time passing
    between the calls, a timer is linked exactly when it is armed, in the list of its
    dispatch method, the lists are sorted by alarm without duplicates, and the
    hardware alarm is set for the earliest armed timer; every call with a valid
    handle returns without following a dangling pointer or corrupting a list. *)
Theorem timer_service_invariant (n : Z) (s : tstate) :
  0 < n < 2 ^ 63 → rtc api_step (started n) s →
  timers_ok None s ∧ (∀ d, programmed s d) ∧
  (∀ h t, heap s !! h = Some t → 0 < alarm t → alarm_target s ≤ alarm t) ∧
  (alarm_target s = UINT64_MAX ∨ ∃ h t, heap s !! h = Some t ∧ 0 < alarm t ∧ alarm t = alarm_target s) ∧
  (∀ op, op_ok s op → ∃ s' r, run_op op s = Done s' r).
Proof.
  intros Hn Hrun. destruct (started_good n Hn) as (Hg & Hp & Ht).
  destruct (steps_good _ _ Hrun Hg) as (Hg' & [Kp Kt] & _).
  assert (∀ d, programmed s d) as Hp' by (intros d; by apply Kp).
  destruct (target_earliest s (proj1 Hg') Hp' (Kt Ht)) as [T1 T2].
  refine (conj (proj1 Hg') (conj Hp' (conj T1 (conj T2 _)))).
  intros op Hop. pose proof (op_preserved s op Hg' Hop) as H. apply wp_done in H as (r & s' & E & _). eauto.
Qed.

(** A service with one periodic timer, created and started. *)
Definition one_periodic : tstate :=
  match (x ← esp_timer_create (Some (mkCreateArgs 0x400D0000 7 0 false)) true (Some 64);
         esp_timer_start_periodic (Some 64) 1000) (started 100) with
  | Done s _ => s
  | _ => started 100
  end.

Lemma one_periodic_reach : rtc api_step (started 100) one_periodic.
Proof.
  eapply rtc_l.
  { eapply (step_op (OpCreate (Some (mkCreateArgs 0x400D0000 7 0 false)) true (Some 64))); reflexivity. }
  eapply rtc_l; [|apply rtc_refl].
  eapply (step_op (OpStartPeriodic (Some 64) 1000) _ _ ESP_OK); [|vm_compute; reflexivity].
  split; [by eexists|lia].
Qed.

Lemma timer_service_invariant_witness :
  heap one_periodic !! 64 = Some (mkTimer 1100 1000 0 0x400D0000 7) ∧
  timers_ok None one_periodic ∧ (∀ d, programmed one_periodic d) ∧
  (∀ h t, heap one_periodic !! h = Some t → 0 < alarm t → alarm_target one_periodic ≤ alarm t) ∧
  (alarm_target one_periodic = UINT64_MAX ∨
   ∃ h t, heap one_periodic !! h = Some t ∧ 0 < alarm t ∧ alarm t = alarm_target one_periodic) ∧
  (∀ op, op_ok one_periodic op → ∃ s' r, run_op op one_periodic = Done s' r).
Proof.
  split; [reflexivity|]. apply (timer_service_invariant 100); [lia|apply one_periodic_reach].
Defined.

(** processing the alarms of one dispatch method, with callbacks (and other
    tasks meanwhile) that do anything the API allows, never follows a dangling
    pointer nor corrupts a list.  When it returns, the invariant holds, no timer of
    that method is due any more, the next alarm of both methods is programmed again,
    and nothing changed when nothing was processed. *)
Theorem timer_process_alarm_safe (run_callback : Z → Z → tstate → tstate) (d : esp_timer_dispatch_t)
    (fuel : nat) (s : tstate) :
  (∀ c a s, good s → rtc api_step s (run_callback c a s)) → good s →
  match timer_process_alarm run_callback fuel d s with
  | Done s' processed =>
      good s' ∧ (∀ d', programmed s d' → programmed s' d') ∧ (target_ok s → target_ok s') ∧
      (processed = false → heap s' = heap s ∧ s_timers s' = s_timers s) ∧
      (∀ h t, h ∈ s_timers s' d → heap s' !! h = Some t → now s' < alarm t)
  | OutOfFuel => True
  | _ => False
  end.
Proof.
  intros Hcb Hg. pose proof (process_safe run_callback d Hcb fuel s Hg) as H. unfold wlp in H.
  destruct (timer_process_alarm _ _ _ _); try done. destruct H as (H1 & H2 & H3 & _ & H4 & H5).
  by refine (conj H1 (conj H2 (conj H3 (conj H4 H5)))).
Qed.

(** A callback that restarts its own timer through the API. *)
Definition restart_callback (c a : Z) (s : tstate) : tstate :=
  match heap s !! 64 with
  | Some _ => match run_op (OpRestart (Some 64) 1000) s with Done s' _ => s' | _ => s end
  | None => s
  end.

Lemma restart_callback_api c a s : good s → rtc api_step s (restart_callback c a s).
Proof.
  intros Hg. unfold restart_callback. destruct (heap s !! 64) as [t|] eqn:Ht; [|apply rtc_refl].
  assert (op_ok s (OpRestart (Some 64) 1000)) as Hop by (split; [by eexists|lia]).
  pose proof (op_preserved s _ Hg Hop) as H. apply wp_done in H as (r & s' & E & _). rewrite E.
  apply rtc_once. by eapply step_op.
Qed.

Lemma one_periodic_good : good one_periodic.
Proof.
  destruct (started_good 100 ltac:(lia)) as [Hg _]. by destruct (steps_good _ _ one_periodic_reach Hg).
Qed.

Lemma timer_process_alarm_safe_witness :
  good one_periodic ∧
  match timer_process_alarm restart_callback 10 ESP_TIMER_TASK one_periodic with
  | Done s' processed =>
      good s' ∧ (∀ d', programmed one_periodic d' → programmed s' d') ∧ (target_ok one_periodic → target_ok s') ∧
      (processed = false → heap s' = heap one_periodic ∧ s_timers s' = s_timers one_periodic) ∧
      (∀ h t, h ∈ s_timers s' ESP_TIMER_TASK → heap s' !! h = Some t → now s' < alarm t)
  | OutOfFuel => True
  | _ => False
  end.
Proof.
  split; [exact one_periodic_good|].
  apply timer_process_alarm_safe; [exact restart_callback_api|exact one_periodic_good].
Defined.

(** C39: with callbacks that leave the timers alone, processing ends after at most
    as many iterations as there are expirations, runs the callbacks in the order of
    their alarms, never one that is not due and never more often than due, and no
    timer is due when it returns. *)
Theorem timer_process_alarm_in_order (run_callback : Z → Z → tstate → tstate) (d : esp_timer_dispatch_t)
    (fuel : nat) (s : tstate) :
  (∀ c a s, heap (run_callback c a s) = heap s ∧ s_timers (run_callback c a s) = s_timers s ∧
            now (run_callback c a s) = now s ∧ fired (run_callback c a s) = fired s) →
  good s → (expirations d s < fuel)%nat →
  ∃ s' processed new, timer_process_alarm run_callback fuel d s = Done s' processed ∧
    fired s' = fired s ++ new ∧ Forall (λ e, fst (fst e) ≤ now s) new ∧
    StronglySorted (λ e e', fst (fst e) ≤ fst (fst e')) new ∧ (length new ≤ expirations d s)%nat ∧
    (∀ h t, h ∈ s_timers s' d → heap s' !! h = Some t → now s < alarm t).
Proof.
  intros Hcb Hg Hfuel. pose proof (process_total run_callback d Hcb fuel s Hg Hfuel) as H.
  apply wp_done in H as (b & s' & E & _ & (new & F1 & F2 & F3 & F4 & _) & _ & H).
  exists s', b, new. split_and!; try done. lia.
Qed.

(** The timer of [one_periodic], four periods late. *)
Lemma late_good : good (set_now 4200 one_periodic).
Proof.
  apply (step_good one_periodic); [exact one_periodic_good|]. apply step_time. vm_compute. by split.
Qed.

Lemma timer_process_alarm_in_order_witness :
  expirations ESP_TIMER_TASK (set_now 4200 one_periodic) = 4%nat ∧
  ∃ s' processed new, timer_process_alarm (λ _ _ s, s) 5 ESP_TIMER_TASK (set_now 4200 one_periodic) = Done s' processed ∧
    fired s' = fired (set_now 4200 one_periodic) ++ new ∧
    Forall (λ e, fst (fst e) ≤ now (set_now 4200 one_periodic)) new ∧
    StronglySorted (λ e e', fst (fst e) ≤ fst (fst e')) new ∧
    (length new ≤ expirations ESP_TIMER_TASK (set_now 4200 one_periodic))%nat ∧
    (∀ h t, h ∈ s_timers s' ESP_TIMER_TASK → heap s' !! h = Some t → now (set_now 4200 one_periodic) < alarm t).
Proof.
  split; [reflexivity|]. apply timer_process_alarm_in_order; [done|exact late_good|vm_compute; lia].
Defined.

(** A periodic timer that asks for unhandled events to be skipped, 2{^31} periods of
    50 microseconds late (a little under 30 hours). *)
Definition late_skipping : tstate :=
  mkTS {[ 64 := mkTimer 1000 50 FL_SKIP_UNHANDLED_EVENTS 0x400D0000 7 ]}
    (λ d, match d with ESP_TIMER_TASK => [64] | ESP_TIMER_ISR => [] end) true
    (λ d, match d with ESP_TIMER_TASK => 1000 | ESP_TIMER_ISR => UINT64_MAX end) 1000
    (1000 + 50 * 2 ^ 31) false false [].

(** the count of missed periods is kept in an [int]: when 2{^31} periods were
    missed it is negative, the backlog of a timer with [skip_unhandled_events] is not
    skipped, and the timer is rearmed one period after its old alarm instead of one
    period from now; with one period less it is skipped. *)
Theorem skip_unhandled_overflow :
  (∃ s', process_step (λ _ _ s, s) ESP_TIMER_TASK false late_skipping = Done s' (inl true) ∧
     alarm_at s' 64 = 1050 ∧ alarm_at s' 64 < now s') ∧
  (∃ s', process_step (λ _ _ s, s) ESP_TIMER_TASK false (set_now (now late_skipping - 50) late_skipping) =
      Done s' (inl true) ∧ alarm_at s' 64 = now late_skipping).
Proof.
  split; eexists; (split; [vm_compute; reflexivity|]); vm_compute; by split.
Qed.

(** ** Planning sleep *)

(** The first timer of a sorted list that may wake the CPU up has the least alarm of
    those that may. *)
Lemma first_waking_spec s l (Q : option esp_timer → tstate → Prop) :
  Forall (λ h, is_Some (heap s !! h)) l → StronglySorted (by_alarm s) l →
  (∀ x, match x with
        | None => ∀ h t, h ∈ l → heap s !! h = Some t → flag (flags t) FL_SKIP_UNHANDLED_EVENTS = true
        | Some t0 => (∃ h, h ∈ l ∧ heap s !! h = Some t0) ∧ flag (flags t0) FL_SKIP_UNHANDLED_EVENTS = false ∧
            ∀ h t, h ∈ l → heap s !! h = Some t → flag (flags t) FL_SKIP_UNHANDLED_EVENTS = false → alarm t0 ≤ alarm t
        end → Q x s) →
  wp (first_waking l) s Q.
Proof.
  intros Hl Hs. revert Hl. induction Hs as [|h l Hs IH Hh]; intros Hl HQ; simpl.
  - wp_steps. apply HQ. by intros ? ? ?%not_elem_of_nil.
  - rewrite Forall_cons in Hl. destruct Hl as [[t Ht] Hl]. wp_steps. apply (wp_deref _ t); [done|].
    destruct (flag (flags t) FL_SKIP_UNHANDLED_EVENTS) eqn:Ef; simpl.
    + apply IH; [done|]. intros x Hx. apply HQ. destruct x as [t0|].
      * destruct Hx as ((h0 & Hin & Hh0) & Hf0 & Hmin). split_and!; [exists h0|done|].
        { split; [apply elem_of_cons; auto|done]. }
        intros h' t' [->|Hin']%elem_of_cons Ht' Hf'; [congruence|by eapply Hmin].
      * intros h' t' [->|Hin']%elem_of_cons Ht'; [congruence|by eapply Hx].
    + wp_steps. apply HQ. split_and!; [exists h; split; [apply elem_of_cons; auto|done]|done|].
      intros h' t' [->|Hin']%elem_of_cons Ht' _; [assert (t' = t) as -> by congruence; lia|].
      rewrite Forall_forall in Hh. specialize (Hh _ Hin'). unfold by_alarm in Hh.
      by rewrite (alarm_at_lookup _ _ _ Ht), (alarm_at_lookup _ _ _ Ht') in Hh.
Qed.

(** The timers the CPU must be awake for. *)
Definition waking (s : tstate) (t : esp_timer) : Prop :=
  (∃ h, heap s !! h = Some t) ∧ 0 < alarm t ∧ flag (flags t) FL_SKIP_UNHANDLED_EVENTS = false.

Definition next_waking (s : tstate) (d : esp_timer_dispatch_t) (v0 v : Z) : Prop :=
  v ≤ v0 ∧ (∀ t, waking s t → dispatch_of t = d → v ≤ alarm t) ∧
  (v = v0 ∨ ∃ t, waking s t ∧ alarm t = v).

Lemma wake_step s d v0 (Q : Z → tstate → Prop) :
  timers_ok None s → (∀ h t, heap s !! h = Some t → alarm t < 2 ^ 63) → 0 ≤ v0 < 2 ^ 63 →
  (∀ v, 0 ≤ v < 2 ^ 63 → next_waking s d v0 v → Q v s) →
  wp (l ← gets (λ s, s_timers s d); it ← first_waking l;
      mret (match it with
            | Some t => if alarm t <? u64 v0 then i64 (alarm t) else v0
            | None => v0
            end)) s Q.
Proof.
  intros Hok Hsm Hv0 HQ. wp_steps. apply first_waking_spec; [|apply Hok|].
  { apply Forall_forall. intros h Hin. destruct (tk_linked _ _ Hok _ _ Hin) as (t & -> & _). by eexists. }
  intros x Hx. wp_steps. destruct x as [t0|].
  - destruct Hx as ((h0 & Hin & Hh0) & Hf0 & Hmin). pose proof (Hsm _ _ Hh0) as Hsm0.
    destruct (tk_linked _ _ Hok _ _ Hin) as (t1 & Ht1 & Ha & Hd). assert (t1 = t0) as -> by congruence.
    assert (∀ t, waking s t → dispatch_of t = d → alarm t0 ≤ alarm t) as Hle.
    { intros t ((h & Hh) & Hpos & Hf) Hdt. eapply Hmin; [|exact Hh|exact Hf]. rewrite <- Hdt.
      by apply (tk_armed _ _ Hok). }
    rewrite u64_small by lia. rewrite i64_small by lia.
    destruct (Z.ltb_spec (alarm t0) v0); apply HQ; try lia; (split; [lia|]); split.
    + done.
    + right. exists t0. split; [|done]. split_and!; [by exists h0|done|done].
    + intros t Hw Hd'. specialize (Hle _ Hw Hd'). lia.
    + by left.
  - apply HQ; [lia|]. split; [lia|]. split; [|by left]. intros t ((h & Hh) & Hpos & Hf) Hdt.
    assert (flag (flags t) FL_SKIP_UNHANDLED_EVENTS = true) as Hc; [|congruence].
    eapply Hx; [|exact Hh]. rewrite <- Hdt. by apply (tk_armed _ _ Hok).
Qed.

(** the alarm for which the CPU must wake up is no later than any armed timer
    that does not skip unhandled events, and it is the alarm of such a timer unless
    there is none. *)
Theorem next_alarm_for_wake_up_earliest (s : tstate) :
  timers_ok None s → (∀ h t, heap s !! h = Some t → alarm t < 2 ^ 63) →
  ∃ v, esp_timer_get_next_alarm_for_wake_up s = Done s v ∧
    (∀ t, waking s t → v ≤ alarm t) ∧
    (v = INT64_MAX ∨ ∃ t, waking s t ∧ alarm t = v).
Proof.
  intros Hok Hsm.
  assert (wp esp_timer_get_next_alarm_for_wake_up s (λ v s', s' = s ∧
    (∀ t, waking s t → v ≤ alarm t) ∧ (v = INT64_MAX ∨ ∃ t, waking s t ∧ alarm t = v))) as H.
  2: { apply wp_done in H as (v & s' & E & -> & H). by exists v. }
  unfold esp_timer_get_next_alarm_for_wake_up. apply wp_bind.
  apply wake_step; [done|done|unfold INT64_MAX; lia|]. intros v1 Hv1 (L1 & M1 & A1).
  apply wake_step; [done|done|done|]. intros v2 Hv2 (L2 & M2 & A2). split_and!; [done| |].
  - intros t Ht. destruct (dispatch_of t) eqn:Ed; [|by apply M2]. specialize (M1 _ Ht Ed). lia.
  - destruct A2 as [->|A2]; [exact A1|by right].
Qed.

Lemma next_alarm_for_wake_up_earliest_witness :
  ∃ v, esp_timer_get_next_alarm_for_wake_up one_periodic = Done one_periodic v ∧
    (∀ t, waking one_periodic t → v ≤ alarm t) ∧
    (v = INT64_MAX ∨ ∃ t, waking one_periodic t ∧ alarm t = v).
Proof.
  apply next_alarm_for_wake_up_earliest; [apply one_periodic_good|].
  intros h t Ht. assert (t = mkTimer 1100 1000 0 0x400D0000 7) as ->; [|by vm_compute].
  change (heap one_periodic) with ({[ 64 := mkTimer 1100 1000 0 0x400D0000 7 ]} : gmap Z esp_timer) in Ht.
  by apply lookup_singleton_Some in Ht as [_ <-].
Defined.
