(* ===== verification/LogLevel.v ===== *)
(** * Log levels of tags

    Model of [components/log/src/log_level]: the linked list of the levels set for
    tags, the two caches in front of it (an array and a binary min-heap) and
    [tag_log_level.c], which combines them, in the configuration with dynamic level
    control and built-in checks.  A tag is the address of a string: the list and the
    updates of a cache compare strings, the lookups in a cache compare addresses.
    The contents of the strings are the parameter [str]; they do not change. *)
From Stdlib Require Import ZArith Lia.
From stdpp Require Import base numbers option list strings.
From S2P Require Import Prelude.

Open Scope Z_scope.

Definition ESP_LOG_NONE : Z := 0.
Definition ESP_LOG_LEVEL_LEN : Z := 3.

(** ** The linked list ([linked_list/log_linked_list.c])

    [malloc_ok] is the answer of [malloc]. *)
Module LinkedList.

Definition s_log_tags : Type := list (string * Z).

Fixpoint esp_log_linked_list_get_level (tag : string) (l : s_log_tags) : option Z :=
  match l with
  | [] => None
  | (t, level) :: l' => if decide (t = tag) then Some level else esp_log_linked_list_get_level tag l'
  end.

(** [None] when the tag is not in the list. *)
Fixpoint set_log_level (tag : string) (level : Z) (l : s_log_tags) : option s_log_tags :=
  match l with
  | [] => None
  | (t, v) :: l' =>
      if decide (t = tag) then Some ((t, u8 level) :: l')
      else l'' ← set_log_level tag level l'; Some ((t, v) :: l'')
  end.

Definition add_to_list (malloc_ok : bool) (tag : string) (level : Z) (l : s_log_tags) :
    s_log_tags * esp_err_t :=
  if malloc_ok then ((tag, u8 level) :: l, ESP_OK) else (l, ESP_ERR_NO_MEM).

Definition esp_log_linked_list_set_level (malloc_ok : bool) (tag : string) (level : Z) (l : s_log_tags) :
    s_log_tags * bool :=
  match set_log_level tag level l with
  | Some l' => (l', true)
  | None => let '(l', err) := add_to_list malloc_ok tag level l in (l', bool_decide (err = ESP_OK))
  end.

(** The loop frees one entry per turn. *)
Fixpoint esp_log_linked_list_clean (l : s_log_tags) : s_log_tags :=
  match l with [] => [] | _ :: l' => esp_log_linked_list_clean l' end.

End LinkedList.

(** ** The interface of a cache *)

Class LogCache (C : Type) : Type := {
  esp_log_cache_set_level : (Z → string) → Z → Z → M C unit;
  esp_log_cache_get_level : Z → M C (option Z);
  esp_log_cache_clean : M C unit;
  esp_log_cache_add : Z → Z → M C unit
}.

(** What the levels of tags rely on: the live entries of a cache, how each operation
    changes them, and the invariant of the cache. *)
Class LogCacheLaws (C : Type) `{LogCache C} : Type := {
  cache_ok : C → Prop;
  cache_entries : C → list (Z * Z);
  cache_nodup c : cache_ok c → NoDup (cache_entries c).*1;
  cache_get_law c p : cache_ok c →
    wp (esp_log_cache_get_level p) c (λ r c', cache_ok c' ∧ cache_entries c' ≡ₚ cache_entries c ∧
      match r with
      | Some v => (p, v) ∈ cache_entries c
      | None => p ∉ (cache_entries c).*1
      end);
  cache_set_law c str p v : cache_ok c → 0 ≤ v < 2 ^ ESP_LOG_LEVEL_LEN →
    wp (esp_log_cache_set_level str p v) c (λ _ c', cache_ok c' ∧
      ((∀ q, q ∈ (cache_entries c).*1 → str q ≠ str p) ∧ cache_entries c' = cache_entries c ∨
       ∃ l1 q w l2, cache_entries c = l1 ++ (q, w) :: l2 ∧ str q = str p ∧
                    cache_entries c' = l1 ++ (q, v) :: l2));
  cache_clean_law c : cache_ok c →
    wp esp_log_cache_clean c (λ _ c', cache_ok c' ∧ cache_entries c' = []);
  cache_add_law c p v : cache_ok c → p ∉ (cache_entries c).*1 → 0 ≤ v < 2 ^ ESP_LOG_LEVEL_LEN →
    wp (esp_log_cache_add p v) c (λ _ c', cache_ok c' ∧
      ∀ e, e ∈ cache_entries c' → e = (p, v) ∨ e ∈ cache_entries c)
}.

(** ** The array cache ([cache/log_array.c]) *)
Module ArrayCache.

Record array_entry_t : Type := mkArrayEntry { a_tag : Z; a_level : Z }.
#[global] Instance array_entry_inhabited : Inhabited array_entry_t := populate (mkArrayEntry 0 0).

(** The size of the cache is a parameter of the build. *)
Record array_t : Type := mkArray {
  ARRAY_CACHE_SIZE : nat; s_cache : list array_entry_t; s_cache_entry_count : Z
}.

Definition ENTRY_COUNT (c : array_t) : nat :=
  if Z.of_nat (ARRAY_CACHE_SIZE c) <=? s_cache_entry_count c then ARRAY_CACHE_SIZE c
  else Z.to_nat (s_cache_entry_count c).

(** An access outside the array is a memory fault. *)
Definition array_entry (i : nat) : M array_t array_entry_t := λ c,
  match s_cache c !! i with Some e => Done c e | None => MemFault end.
Definition array_put (i : nat) (e : array_entry_t) : M array_t unit := λ c,
  match s_cache c !! i with
  | Some _ => Done (mkArray (ARRAY_CACHE_SIZE c) (<[i := e]> (s_cache c)) (s_cache_entry_count c)) ()
  | None => MemFault
  end.

(** [for (i = 0; i < entry_count; ++i)], with [n] iterations left. *)
Fixpoint array_set_loop (str : Z → string) (t v : Z) (n i : nat) : M array_t unit :=
  match n with
  | O => mret ()
  | S n' =>
      e ← array_entry i;
      if decide (str (a_tag e) = str t) then array_put i (mkArrayEntry (a_tag e) v)
      else array_set_loop str t v n' (S i)
  end.

Definition array_set_level (str : Z → string) (t v : Z) : M array_t unit :=
  c ← get; array_set_loop str t v (ENTRY_COUNT c) 0.

Fixpoint array_get_loop (t : Z) (n i : nat) : M array_t (option Z) :=
  match n with
  | O => mret None
  | S n' =>
      e ← array_entry i;
      if a_tag e =? t then mret (Some (a_level e)) else array_get_loop t n' (S i)
  end.

Definition array_get_level (t : Z) : M array_t (option Z) :=
  c ← get; array_get_loop t (ENTRY_COUNT c) 0.

Definition array_clean : M array_t unit :=
  modify (λ c, mkArray (ARRAY_CACHE_SIZE c) (s_cache c) 0).

Definition array_add (t v : Z) : M array_t unit :=
  c ← get;
  array_put (Z.to_nat (s_cache_entry_count c mod Z.of_nat (ARRAY_CACHE_SIZE c))) (mkArrayEntry t v);;
  modify (λ c, mkArray (ARRAY_CACHE_SIZE c) (s_cache c) (u32 (s_cache_entry_count c + 1)));;
  modify (λ c, if s_cache_entry_count c =? 2 ^ 32 - 1
               then mkArray (ARRAY_CACHE_SIZE c) (s_cache c) (Z.of_nat (ARRAY_CACHE_SIZE c)) else c).

#[global] Instance array_cache : LogCache array_t := {
  esp_log_cache_set_level := array_set_level;
  esp_log_cache_get_level := array_get_level;
  esp_log_cache_clean := array_clean;
  esp_log_cache_add := array_add
}.

End ArrayCache.

(** ** The binary min-heap cache ([cache/log_binary_heap.c]) *)
Module HeapCache.

Definition MAX_GENERATION : Z := 2 ^ (32 - ESP_LOG_LEVEL_LEN) - 1.

Record heap_entry_t : Type := mkEntry { tag : Z; level : Z; generation : Z }.
#[global] Instance heap_entry_inhabited : Inhabited heap_entry_t := populate (mkEntry 0 0 0).

(** The bit fields of an entry. *)
Definition pack (t v g : Z) : heap_entry_t :=
  mkEntry t (v mod 2 ^ ESP_LOG_LEVEL_LEN) (g mod 2 ^ (32 - ESP_LOG_LEVEL_LEN)).

Record heap_t : Type := mkHeap {
  TAG_CACHE_SIZE : nat;
  s_log_cache : list heap_entry_t;
  s_log_cache_max_generation : Z;
  s_log_cache_entry_count : nat;
  s_log_cache_misses : Z
}.

Definition set_cache (l : list heap_entry_t) (c : heap_t) : heap_t :=
  mkHeap (TAG_CACHE_SIZE c) l (s_log_cache_max_generation c) (s_log_cache_entry_count c) (s_log_cache_misses c).
Definition set_max_generation (g : Z) (c : heap_t) : heap_t :=
  mkHeap (TAG_CACHE_SIZE c) (s_log_cache c) g (s_log_cache_entry_count c) (s_log_cache_misses c).
Definition set_entry_count (n : nat) (c : heap_t) : heap_t :=
  mkHeap (TAG_CACHE_SIZE c) (s_log_cache c) (s_log_cache_max_generation c) n (s_log_cache_misses c).
Definition set_misses (n : Z) (c : heap_t) : heap_t :=
  mkHeap (TAG_CACHE_SIZE c) (s_log_cache c) (s_log_cache_max_generation c) (s_log_cache_entry_count c) n.

Definition heap_entry (i : nat) : M heap_t heap_entry_t := λ c,
  match s_log_cache c !! i with Some e => Done c e | None => MemFault end.
Definition heap_put (i : nat) (e : heap_entry_t) : M heap_t unit := λ c,
  match s_log_cache c !! i with
  | Some _ => Done (set_cache (<[i := e]> (s_log_cache c)) c) ()
  | None => MemFault
  end.

(** The check at the head of both search loops. *)
Definition check_order (i : nat) : M heap_t unit :=
  match i with
  | O => mret ()
  | S j =>
      p ← heap_entry (j / 2); e ← heap_entry i; assertM (generation p <? generation e)
  end.

Definition heap_swap (i j : nat) : M heap_t unit :=
  tmp ← heap_entry i; ej ← heap_entry j; heap_put i ej;; heap_put j tmp.

Definition bubble_step (index : nat) : M heap_t (nat + unit) :=
  c ← get;
  if decide (index < TAG_CACHE_SIZE c / 2)%nat then
    let left_index := (index * 2 + 1)%nat in
    let right_index := (left_index + 1)%nat in
    l ← heap_entry left_index; r ← heap_entry right_index;
    let next := if generation l <? generation r then left_index else right_index in
    heap_swap index next;; mret (inl next)
  else mret (inr ()).

(** The index at least doubles, so [TAG_CACHE_SIZE + 1] iterations are enough. *)
Definition heap_bubble_down (index : nat) : M heap_t unit :=
  c ← get; iterM (S (TAG_CACHE_SIZE c)) bubble_step index.

(** [for (i = 0; i < count; ++i) s_log_cache[i].generation = i] *)
Fixpoint renumber (n i : nat) : M heap_t unit :=
  match n with
  | O => mret ()
  | S n' =>
      e ← heap_entry i;
      heap_put i (pack (tag e) (level e) (Z.of_nat i));; renumber n' (S i)
  end.

Definition fix_cache_generation_overflow : M heap_t unit :=
  c ← get;
  renumber (s_log_cache_entry_count c) 0;;
  modify (λ c, set_max_generation (Z.of_nat (s_log_cache_entry_count c)) c).

Definition check_generation : M heap_t unit :=
  c ← get;
  if s_log_cache_max_generation c =? MAX_GENERATION then fix_cache_generation_overflow else mret ().

Fixpoint heap_set_loop (str : Z → string) (t v : Z) (n i : nat) : M heap_t unit :=
  match n with
  | O => mret ()
  | S n' =>
      check_order i;;
      e ← heap_entry i;
      if decide (str (tag e) = str t) then heap_put i (pack (tag e) v (generation e))
      else heap_set_loop str t v n' (S i)
  end.

Definition heap_set_level (str : Z → string) (t v : Z) : M heap_t unit :=
  c ← get; heap_set_loop str t v (s_log_cache_entry_count c) 0.

(** The index at which the search loop stops. *)
Fixpoint heap_get_loop (t : Z) (n i : nat) : M heap_t nat :=
  match n with
  | O => mret i
  | S n' =>
      check_order i;;
      e ← heap_entry i;
      if tag e =? t then mret i else heap_get_loop t n' (S i)
  end.

Definition heap_get_level (t : Z) : M heap_t (option Z) :=
  c ← get;
  i ← heap_get_loop t (s_log_cache_entry_count c) 0;
  if decide (i = s_log_cache_entry_count c) then
    modify (λ c, set_misses (u32 (s_log_cache_misses c + 1)) c);; mret None
  else
    e ← heap_entry i;
    let result := level e in
    (if decide (s_log_cache_entry_count c = TAG_CACHE_SIZE c) then
       heap_put i (pack (tag e) (level e) (s_log_cache_max_generation c));;
       modify (λ c, set_max_generation (u32 (s_log_cache_max_generation c + 1)) c);;
       heap_bubble_down i;;
       check_generation
     else mret ());;
    mret (Some result).

Definition heap_clean : M heap_t unit :=
  modify (λ c, mkHeap (TAG_CACHE_SIZE c) (s_log_cache c) 0 0 0).

Definition heap_add (t v : Z) : M heap_t unit :=
  c ← get;
  let generation := s_log_cache_max_generation c in
  modify (set_max_generation (u32 (generation + 1)));;
  (if decide (s_log_cache_entry_count c < TAG_CACHE_SIZE c)%nat then
     heap_put (s_log_cache_entry_count c) (pack t v generation);;
     modify (λ c, set_entry_count (S (s_log_cache_entry_count c)) c)
   else
     heap_put 0 (pack t v generation);;
     heap_bubble_down 0);;
  check_generation.

#[global] Instance heap_cache : LogCache heap_t := {
  esp_log_cache_set_level := heap_set_level;
  esp_log_cache_get_level := heap_get_level;
  esp_log_cache_clean := heap_clean;
  esp_log_cache_add := heap_add
}.

End HeapCache.

(** ** Tags and levels ([tag_log_level.c], [log_level.c]) *)

Record log_state (C : Type) : Type := mkLog {
  esp_log_default_level : Z; s_master_log_level : Z; s_log_tags : LinkedList.s_log_tags; log_cache : C
}.
Arguments mkLog {C} _ _ _ _.
Arguments esp_log_default_level {C} _.
Arguments s_master_log_level {C} _.
Arguments s_log_tags {C} _.
Arguments log_cache {C} _.

Section tag_level.
Context {C : Type} `{LogCache C} (str : Z → string).

(** Run an operation of the cache on the cache of the state. *)
Definition on_cache {A : Type} (m : M C A) : M (log_state C) A := λ s,
  match m (log_cache s) with
  | Done c a => Done (mkLog (esp_log_default_level s) (s_master_log_level s) (s_log_tags s) c) a
  | AssertFailed => AssertFailed
  | MemFault => MemFault
  | OutOfFuel => OutOfFuel
  end.

Definition set_tags (l : LinkedList.s_log_tags) (s : log_state C) : log_state C :=
  mkLog (esp_log_default_level s) (s_master_log_level s) l (log_cache s).

Definition esp_log_set_default_level (level : Z) : M (log_state C) unit :=
  modify (λ s, mkLog level (s_master_log_level s) (s_log_tags s) (log_cache s)).

Definition esp_log_get_level_master : M (log_state C) Z := gets s_master_log_level.
Definition esp_log_set_level_master (level : Z) : M (log_state C) unit :=
  modify (λ s, mkLog (esp_log_default_level s) level (s_log_tags s) (log_cache s)).

(** [None] is a [NULL] tag. *)
Definition log_level_set (malloc_ok : bool) (tag : option Z) (level : Z) : M (log_state C) unit :=
  match tag with
  | None => mret ()
  | Some p =>
      if decide (str p = "*"%string) then
        esp_log_set_default_level level;;
        modify (λ s, set_tags (LinkedList.esp_log_linked_list_clean (s_log_tags s)) s);;
        on_cache esp_log_cache_clean
      else
        s ← get;
        let '(l, success) :=
          LinkedList.esp_log_linked_list_set_level malloc_ok (str p) level (s_log_tags s) in
        modify (set_tags l);;
        if (success : bool) then on_cache (esp_log_cache_set_level str p level) else mret ()
  end.

(** [lock_ok] is the answer of [esp_log_impl_lock_timeout]. *)
Definition log_level_get (tag : option Z) (timeout lock_ok : bool) : M (log_state C) Z :=
  level_for_tag ← gets esp_log_default_level;
  match tag with
  | None => mret level_for_tag
  | Some p =>
      if timeout && negb lock_ok then mret ESP_LOG_NONE
      else
        hit ← on_cache (esp_log_cache_get_level p);
        match hit with
        | Some level => mret level
        | None =>
            s ← get;
            let level :=
              default level_for_tag (LinkedList.esp_log_linked_list_get_level (str p) (s_log_tags s)) in
            on_cache (esp_log_cache_add p level);;
            mret level
        end
  end.

Definition esp_log_level_set := log_level_set.
Definition esp_log_level_get (tag : option Z) : M (log_state C) Z := log_level_get tag false true.
Definition esp_log_level_get_timeout (tag : option Z) (lock_ok : bool) : M (log_state C) Z :=
  log_level_get tag true lock_ok.

Definition esp_log_is_tag_loggable (level : Z) (tag : option Z) (lock_ok : bool) : M (log_state C) bool :=
  v ← esp_log_level_get_timeout tag lock_ok;
  mret ((level <=? v) && (ESP_LOG_NONE <? level)).

End tag_level.
