(* ===== verification/LogCaches.v ===== *)
(** * The two caches of log levels satisfy the interface

    The array cache and the binary min-heap cache keep their own invariants, never
    access memory outside their arrays, never fail the built-in heap check, and
    satisfy [LogCacheLaws]. *)
From Stdlib Require Import ZArith Lia.
From stdpp Require Import base numbers option list strings.
From S2P Require Import Prelude LogLevel.

Open Scope Z_scope.

(** ** Arrays *)

(** Writing inside the live part of an array. *)
Lemma take_insert_split {A} (l : list A) n i x y :
  (i < n)%nat → l !! i = Some y →
  ∃ l1 l2, take n l = l1 ++ y :: l2 ∧ take n (<[i := x]> l) = l1 ++ x :: l2.
Proof.
  intros Hi Hy. destruct (insert_split (take n l) i x y) as (l1 & l2 & H1 & _ & H2).
  { by rewrite lookup_take_lt. }
  exists l1, l2. split; [done|]. rewrite <- H2. by apply take_insert_lt.
Qed.

Lemma elem_of_take_lookup {A} (l : list A) n x : x ∈ take n l → ∃ i, (i < n)%nat ∧ l !! i = Some x.
Proof.
  intros (i & Hi)%list_elem_of_lookup. pose proof (lookup_lt_Some _ _ _ Hi) as Hl. rewrite length_take in Hl.
  exists i. split; [lia|]. by rewrite lookup_take_lt in Hi by lia.
Qed.

Lemma NoDup_replace {A} (l1 l2 : list A) x y : NoDup (l1 ++ x :: l2) → y ∉ l1 ++ x :: l2 → NoDup (l1 ++ y :: l2).
Proof.
  rewrite !NoDup_app, !NoDup_cons. intros (H1 & H2 & H3 & H4) Hy.
  rewrite elem_of_app, elem_of_cons in Hy. split_and!; [done| |tauto|done].
  intros z Hz [->|Hz']%elem_of_cons; [tauto|]. apply (H2 z Hz). apply elem_of_cons. auto.
Qed.

(** ** The array cache *)
Module ArrayLaws.
Import ArrayCache.

Definition pair_of (e : array_entry_t) : Z * Z := (a_tag e, a_level e).

Definition live (c : array_t) : list array_entry_t := take (ENTRY_COUNT c) (s_cache c).

Record ok (c : array_t) : Prop := {
  ok_size : (0 < Z.of_nat (ARRAY_CACHE_SIZE c) < 2 ^ 32 - 1);
  ok_length : length (s_cache c) = ARRAY_CACHE_SIZE c;
  ok_count : 0 ≤ s_cache_entry_count c < 2 ^ 32 - 1;
  ok_nodup : NoDup (a_tag <$> live c)
}.

Lemma count_le c : ok c → (ENTRY_COUNT c ≤ length (s_cache c))%nat.
Proof. intros []. unfold ENTRY_COUNT. destruct (Z.leb_spec (Z.of_nat (ARRAY_CACHE_SIZE c)) (s_cache_entry_count c)); lia. Qed.

Lemma set_loop_spec c str t v n i (Q : unit → array_t → Prop) :
  (i + n ≤ length (s_cache c))%nat →
  ((∀ k e, (i ≤ k < i + n)%nat → s_cache c !! k = Some e → str (a_tag e) ≠ str t) → Q () c) →
  (∀ k e, (i ≤ k < i + n)%nat → s_cache c !! k = Some e → str (a_tag e) = str t →
     Q () (mkArray (ARRAY_CACHE_SIZE c) (<[k := mkArrayEntry (a_tag e) v]> (s_cache c)) (s_cache_entry_count c))) →
  wp (array_set_loop str t v n i) c Q.
Proof.
  revert i. induction n as [|n IH]; intros i Hlen Hno Hyes; simpl; wp_steps; [apply Hno; lia|].
  destruct (lookup_lt_is_Some_2 (s_cache c) i) as [e He]; [lia|]. unfold wp at 1, array_entry. rewrite He.
  case_decide as Ht.
  - unfold wp, array_put. rewrite He. apply Hyes; [lia|done|done].
  - apply IH; [lia| |].
    + intros Hrest. apply Hno. intros k e' Hk Hk'. destruct (decide (k = i)) as [->|].
      * congruence.
      * apply (Hrest k); [lia|done].
    + intros k e' Hk. apply Hyes. lia.
Qed.

Lemma get_loop_spec c t n i (Q : option Z → array_t → Prop) :
  (i + n ≤ length (s_cache c))%nat →
  ((∀ k e, (i ≤ k < i + n)%nat → s_cache c !! k = Some e → a_tag e ≠ t) → Q None c) →
  (∀ k e, (i ≤ k < i + n)%nat → s_cache c !! k = Some e → a_tag e = t → Q (Some (a_level e)) c) →
  wp (array_get_loop t n i) c Q.
Proof.
  revert i. induction n as [|n IH]; intros i Hlen Hno Hyes; simpl; wp_steps; [apply Hno; lia|].
  destruct (lookup_lt_is_Some_2 (s_cache c) i) as [e He]; [lia|]. unfold wp at 1, array_entry. rewrite He.
  destruct (Z.eqb_spec (a_tag e) t) as [Ht|Ht].
  - wp_steps. apply (Hyes i); [lia|done|done].
  - apply IH; [lia| |].
    + intros Hrest. apply Hno. intros k e' Hk Hk'. destruct (decide (k = i)) as [->|]; [congruence|].
      apply (Hrest k); [lia|done].
    + intros k e' Hk. apply Hyes. lia.
Qed.

Lemma fst_pair l : (pair_of <$> l).*1 = a_tag <$> l.
Proof. by rewrite <- list_fmap_compose. Qed.

Lemma get_law c p : ok c →
  wp (array_get_level p) c (λ r c', ok c' ∧ pair_of <$> live c' ≡ₚ pair_of <$> live c ∧
    match r with Some v => (p, v) ∈ pair_of <$> live c | None => p ∉ (pair_of <$> live c).*1 end).
Proof.
  intros Hok. unfold array_get_level. wp_steps. pose proof (count_le c Hok).
  apply get_loop_spec; [lia| |].
  - intros Hno. split; [done|]. split; [done|]. rewrite fst_pair.
    intros (e & -> & (i & Hi & He)%elem_of_take_lookup)%list_elem_of_fmap. by apply (Hno i e); [lia|..].
  - intros k e Hk He <-. split; [done|]. split; [done|]. apply list_elem_of_fmap. exists e. split; [done|].
    apply list_elem_of_lookup. exists k. unfold live. by rewrite lookup_take_lt by lia.
Qed.

Lemma set_law c str p v : ok c →
  wp (array_set_level str p v) c (λ _ c', ok c' ∧
    ((∀ q, q ∈ (pair_of <$> live c).*1 → str q ≠ str p) ∧ pair_of <$> live c' = pair_of <$> live c ∨
     ∃ l1 q w l2, pair_of <$> live c = l1 ++ (q, w) :: l2 ∧ str q = str p ∧
                  pair_of <$> live c' = l1 ++ (q, v) :: l2)).
Proof.
  intros Hok. unfold array_set_level. wp_steps. pose proof (count_le c Hok).
  apply set_loop_spec; [lia| |].
  - intros Hno. split; [done|]. left. split; [|done]. intros q. rewrite fst_pair.
    intros (e & -> & (i & Hi & He)%elem_of_take_lookup)%list_elem_of_fmap. by apply (Hno i e); [lia|..].
  - intros k e Hk He Hs.
    destruct (take_insert_split (s_cache c) (ENTRY_COUNT c) k (mkArrayEntry (a_tag e) v) e ltac:(lia) He)
      as (l1 & l2 & E1 & E2).
    destruct Hok. split.
    + split; simpl; try done; [by rewrite length_insert|]. unfold live, ENTRY_COUNT in *. simpl.
      rewrite E2. rewrite E1 in ok_nodup0. by rewrite fmap_app, fmap_cons in *.
    + right. exists (pair_of <$> l1), (a_tag e), (a_level e), (pair_of <$> l2). unfold live at 1. rewrite E1.
      split; [by rewrite fmap_app|]. split; [done|]. unfold live, ENTRY_COUNT in *. simpl. rewrite E2.
      by rewrite fmap_app.
Qed.

Lemma clean_law c : ok c → wp array_clean c (λ _ c', ok c' ∧ pair_of <$> live c' = []).
Proof.
  intros []. unfold array_clean. wp_steps. assert (live (mkArray (ARRAY_CACHE_SIZE c) (s_cache c) 0) = []) as E.
  { unfold live, ENTRY_COUNT. simpl. destruct (Z.leb_spec (Z.of_nat (ARRAY_CACHE_SIZE c)) 0); [lia|done]. }
  split; [|by rewrite E]. split; simpl; try done. rewrite E. constructor.
Qed.

(** The live entries after an insertion at the next position. *)
Lemma add_law c p v : ok c → p ∉ (pair_of <$> live c).*1 →
  wp (array_add p v) c (λ _ c', ok c' ∧ ∀ e, e ∈ pair_of <$> live c' → e = (p, v) ∨ e ∈ pair_of <$> live c).
Proof.
  intros Hok Hp. pose proof Hok as []. rewrite fst_pair in Hp. unfold array_add. wp_steps.
  set (sz := ARRAY_CACHE_SIZE c) in *. set (cnt := s_cache_entry_count c) in *.
  set (i := Z.to_nat (cnt mod Z.of_nat sz)).
  assert (i < sz)%nat as Hi.
  { pose proof (Z.mod_pos_bound cnt (Z.of_nat sz) ltac:(lia)). lia. }
  destruct (lookup_lt_is_Some_2 (s_cache c) i) as [e0 He0]; [lia|].
  unfold wp at 1, array_put. rewrite He0. wp_steps. cbn [s_cache_entry_count ARRAY_CACHE_SIZE s_cache].
  fold sz cnt. rewrite u32_small by lia.
  assert (∀ cnt', 0 ≤ cnt' < 2 ^ 32 - 1 → cnt' = cnt + 1 ∨ Z.of_nat sz ≤ cnt ∧ cnt' = Z.of_nat sz →
    ok (mkArray sz (<[i := mkArrayEntry p v]> (s_cache c)) cnt') ∧
    ∀ e, e ∈ pair_of <$> live (mkArray sz (<[i := mkArrayEntry p v]> (s_cache c)) cnt') →
      e = (p, v) ∨ e ∈ pair_of <$> live c) as Hgen.
  { intros cnt' Hr Hcnt'.
    assert (∃ l1 l2 old, (live c = l1 ++ old ++ l2) ∧
      live (mkArray sz (<[i := mkArrayEntry p v]> (s_cache c)) cnt') = l1 ++ mkArrayEntry p v :: l2 ∧
      (length old ≤ 1)%nat) as (l1 & l2 & old & E1 & E2 & Hold).
    { unfold live, ENTRY_COUNT. cbn [s_cache_entry_count ARRAY_CACHE_SIZE s_cache]. fold sz cnt.
      destruct (Z.leb_spec (Z.of_nat sz) cnt) as [Hfull|Hpart].
      - rewrite (proj2 (Z.leb_le (Z.of_nat sz) cnt')) by lia.
        destruct (take_insert_split (s_cache c) sz i (mkArrayEntry p v) e0 Hi He0) as (l1 & l2 & E1 & E2).
        exists l1, l2, [e0]. split_and!; [by rewrite E1|done|simpl; lia].
      - assert (cnt' = cnt + 1) as -> by lia.
        assert (i = Z.to_nat cnt) as Ei by (unfold i; by rewrite Z.mod_small by lia).
        exists (take i (s_cache c)), [], []. rewrite !app_nil_r.
        assert ((if Z.of_nat sz <=? cnt + 1 then sz else Z.to_nat (cnt + 1)) = S i) as ->.
        { destruct (Z.leb_spec (Z.of_nat sz) (cnt + 1)); lia. }
        split_and!; [by rewrite Ei| |simpl; lia].
        rewrite (take_S_r _ _ (mkArrayEntry p v)) by (apply list_lookup_insert_eq; lia).
        by rewrite take_insert_ge by lia. }
    split.
    - split; cbn [s_cache_entry_count ARRAY_CACHE_SIZE s_cache]; try done; [by rewrite length_insert|].
      rewrite E2. rewrite E1 in ok_nodup0, Hp. rewrite fmap_app, fmap_cons. cbn [a_tag].
      rewrite !fmap_app in *. destruct old as [|o [|]]; simpl in *; [| |lia].
      + rewrite <- Permutation_middle. by constructor.
      + by eapply NoDup_replace.
    - intros e. rewrite E2, E1, !fmap_app, fmap_cons, !elem_of_app, elem_of_cons. cbn. tauto. }
  destruct (Z.eqb_spec (cnt + 1) (2 ^ 32 - 1)); apply Hgen; lia.
Qed.

#[global] Instance array_laws : LogCacheLaws array_t.
Proof.
  refine {| cache_ok := ok; cache_entries := λ c, pair_of <$> live c |}.
  - intros c []. by rewrite fst_pair.
  - apply get_law.
  - intros. by apply set_law.
  - apply clean_law.
  - intros. by apply add_law.
Defined.
End ArrayLaws.

(** ** The heap cache *)
Module HeapLaws.
Import HeapCache.

Definition pair_of (e : heap_entry_t) : Z * Z := (tag e, level e).

Definition live (c : heap_t) : list heap_entry_t := take (s_log_cache_entry_count c) (s_log_cache c).

(** The generation at an index. *)
Definition gen (l : list heap_entry_t) (i : nat) : Z := generation (l !!! i).

Definition parent (i : nat) : nat := (i - 1) / 2.

(** The order of a min-heap on the first [n] entries. *)
Definition heap_ordered (l : list heap_entry_t) (n : nat) : Prop :=
  ∀ i, (0 < i < n)%nat → gen l (parent i) < gen l i.

(** The invariant, with the generation counter up to [b]. *)
Record ok_upto (b : Z) (c : heap_t) : Prop := {
  ok_odd : Nat.Odd (TAG_CACHE_SIZE c);
  ok_size : Z.of_nat (TAG_CACHE_SIZE c) < 2 ^ 20;
  ok_length : length (s_log_cache c) = TAG_CACHE_SIZE c;
  ok_count : (s_log_cache_entry_count c ≤ TAG_CACHE_SIZE c)%nat;
  ok_max : 0 ≤ s_log_cache_max_generation c ≤ b;
  ok_levels : Forall (λ e, 0 ≤ level e < 2 ^ ESP_LOG_LEVEL_LEN) (live c);
  ok_gens : Forall (λ e, 0 ≤ generation e < s_log_cache_max_generation c) (live c);
  ok_inj : ∀ i j, (i < s_log_cache_entry_count c)%nat → (j < s_log_cache_entry_count c)%nat →
    gen (s_log_cache c) i = gen (s_log_cache c) j → i = j;
  ok_heap : heap_ordered (s_log_cache c) (s_log_cache_entry_count c);
  ok_nodup : NoDup (tag <$> live c)
}.

Definition ok : heap_t → Prop := ok_upto (MAX_GENERATION - 1).

Lemma heap_fst_pair l : (pair_of <$> l).*1 = tag <$> l.
Proof. by rewrite <- list_fmap_compose. Qed.

Lemma wp_entry i c (Q : heap_entry_t → heap_t → Prop) :
  (i < length (s_log_cache c))%nat → Q (s_log_cache c !!! i) c → wp (heap_entry i) c Q.
Proof.
  intros Hi HQ. unfold wp, heap_entry. by rewrite (list_lookup_lookup_total_lt _ _ Hi).
Qed.

Lemma wp_put_entry i e c (Q : unit → heap_t → Prop) :
  (i < length (s_log_cache c))%nat → Q () (set_cache (<[i := e]> (s_log_cache c)) c) → wp (heap_put i e) c Q.
Proof.
  intros Hi HQ. unfold wp, heap_put. by rewrite (list_lookup_lookup_total_lt _ _ Hi).
Qed.

Lemma gen_insert l i e j : (i < length l)%nat →
  gen (<[i := e]> l) j = if decide (j = i) then generation e else gen l j.
Proof.
  intros Hi. unfold gen. case_decide as E; [subst; by rewrite list_lookup_total_insert_eq|].
  by rewrite list_lookup_total_insert_ne by congruence.
Qed.

(** ** Swapping *)

Lemma swap_Permutation {A} (l : list A) i j x y :
  l !! i = Some x → l !! j = Some y → <[j := x]> (<[i := y]> l) ≡ₚ l.
Proof.
  intros Hx Hy. pose proof (lookup_lt_Some _ _ _ Hx). pose proof (lookup_lt_Some _ _ _ Hy).
  apply Permutation_inj. split; [by rewrite !length_insert|].
  exists (λ k, if decide (k = i) then j else if decide (k = j) then i else k). split.
  - intros a b. repeat case_decide; subst; congruence.
  - intros k. destruct (decide (k = j)) as [->|Hkj].
    + rewrite list_lookup_insert_eq by (by rewrite length_insert). repeat case_decide; subst; congruence.
    + rewrite list_lookup_insert_ne by done. destruct (decide (k = i)) as [->|Hki].
      * rewrite list_lookup_insert_eq by done. congruence.
      * by rewrite list_lookup_insert_ne by done.
Qed.

(** ** Bubbling down *)

(** A heap but for the element at [k], which has the largest generation. *)
Record almost (l : list heap_entry_t) (n k : nat) : Prop := {
  al_other : ∀ i, (0 < i < n)%nat → parent i ≠ k → gen l (parent i) < gen l i;
  al_child : ∀ i, (0 < i < n)%nat → parent i = k → (0 < k)%nat → gen l (parent k) < gen l i;
  al_top : ∀ i, (i < n)%nat → i ≠ k → gen l i < gen l k;
  al_inj : ∀ i j, (i < n)%nat → (j < n)%nat → gen l i = gen l j → i = j
}.

(** What swapping with the smaller child keeps. *)
Lemma almost_step l n k nx ot :
  length l = n → almost l n k → (nx < n)%nat → (ot < n)%nat → nx ≠ ot → parent nx = k → parent ot = k →
  (0 < nx)%nat → (0 < ot)%nat → (∀ i, (0 < i < n)%nat → parent i = k → i = nx ∨ i = ot) →
  gen l nx < gen l ot →
  almost (<[nx := l !!! k]> (<[k := l !!! nx]> l)) n nx.
Proof.
  intros Hlen [A1 A2 A3 A4] Hnx Hot Hne Pnx Pot Znx Zot Hch Hlt.
  assert (k < nx)%nat as Hk by (subst k; unfold parent; apply Nat.Div0.div_lt_upper_bound; lia).
  assert (∀ i, gen (<[nx := l !!! k]> (<[k := l !!! nx]> l)) i =
    if decide (i = nx) then gen l k else if decide (i = k) then gen l nx else gen l i) as Hg.
  { intros i. rewrite gen_insert by (rewrite length_insert; lia). case_decide; [done|].
    rewrite gen_insert by lia. by case_decide. }
  assert (∀ i, (0 < i)%nat → (parent i < i)%nat) as Hpar.
  { intros i Hi. unfold parent. apply Nat.Div0.div_lt_upper_bound; lia. }
  split.
  - intros i Hi Hp. rewrite !Hg. rewrite (decide_False (P := parent i = nx)) by done.
    destruct (decide (i = nx)) as [->|Hi1].
    + rewrite decide_True by done. apply A3; [done|lia].
    + destruct (decide (i = k)) as [->|Hi2].
      * rewrite decide_False by (specialize (Hpar k); lia). apply A2; [lia|done|lia].
      * destruct (decide (parent i = k)) as [Hpk|Hpk]; [|by apply A1].
        destruct (Hch i Hi Hpk) as [-> | ->]; [done|done].
  - intros i Hi Hp _. rewrite !Hg. rewrite Pnx.
    pose proof (Hpar i ltac:(lia)).
    rewrite (decide_False (P := k = nx)), (decide_True (P := k = k)) by lia.
    rewrite !decide_False by lia. rewrite <- Hp. apply A1; [done|lia].
  - intros i Hi Hn. rewrite !Hg. rewrite (decide_False (P := i = nx)), (decide_True (P := nx = nx)) by done.
    destruct (decide (i = k)) as [->|]; [|by apply A3]. apply A3; [done|lia].
  - intros i j Hi Hj. rewrite !Hg.
    destruct (decide (i = nx)), (decide (j = nx)), (decide (i = k)), (decide (j = k)); subst; try done; try lia;
      intros E; apply A4 in E; lia.
Qed.

Lemma almost_done l n k : almost l n k → (n / 2 ≤ k)%nat → Nat.Odd n → heap_ordered l n.
Proof.
  intros [A1 _ _ _] Hk [m Hm] i Hi. apply A1; [done|]. unfold parent. intros E.
  assert (n / 2 = m)%nat as En by (subst n; rewrite Nat.mul_comm, Nat.div_add_l; [simpl; lia|lia]).
  pose proof (Nat.Div0.div_le_mono (i - 1) (2 * m - 1) 2 ltac:(lia)) as Hle.
  assert ((2 * m - 1) / 2 < m)%nat by (apply Nat.Div0.div_lt_upper_bound; lia). lia.
Qed.

Lemma bubble_down_spec c k (Q : unit → heap_t → Prop) :
  length (s_log_cache c) = TAG_CACHE_SIZE c → Nat.Odd (TAG_CACHE_SIZE c) →
  almost (s_log_cache c) (TAG_CACHE_SIZE c) k → (k < TAG_CACHE_SIZE c)%nat →
  (∀ l, l ≡ₚ s_log_cache c → heap_ordered l (TAG_CACHE_SIZE c) →
     (∀ i j, (i < TAG_CACHE_SIZE c)%nat → (j < TAG_CACHE_SIZE c)%nat → gen l i = gen l j → i = j) →
     Q () (set_cache l c)) →
  wp (heap_bubble_down k) c Q.
Proof.
  intros Hlen Hodd Hal Hk HQ. unfold heap_bubble_down. wp_steps.
  set (n := TAG_CACHE_SIZE c) in *.
  pose (I := λ (m index : nat) c', ∃ l, c' = set_cache l c ∧ l ≡ₚ s_log_cache c ∧ almost l n index ∧
    m = (n - index)%nat ∧ (index < n)%nat).
  apply (wp_iter _ I) with (n := (n - k)%nat); [| |lia].
  2: { exists (s_log_cache c). split_and!; try done. by destruct c. }
  intros m index c' (l & -> & Hp & Ha & -> & Hi). unfold bubble_step. wp_steps. cbn [TAG_CACHE_SIZE set_cache].
  fold n. assert (length l = n) as Hll by (by rewrite Hp).
  case_decide as Hhalf.
  2: { wp_steps. apply HQ; [done| |apply Ha]. eapply almost_done; [exact Ha|lia|done]. }
  assert (index * 2 + 2 < n)%nat as Hr.
  { destruct Hodd as [m Hm]. assert (n / 2 = m)%nat as En; [|lia].
    rewrite Hm, Nat.mul_comm, Nat.div_add_l; [simpl; lia|lia]. }
  wp_steps. apply wp_entry; [simpl; lia|]. wp_steps. apply wp_entry; [simpl; lia|]. wp_steps.
  cbn [s_log_cache set_cache].
  set (li := (index * 2 + 1)%nat). set (ri := (li + 1)%nat).
  assert (parent li = index ∧ parent ri = index) as [Pl Pr].
  { unfold parent, ri, li. replace (index * 2 + 1 - 1)%nat with (index * 2)%nat by lia.
    replace (index * 2 + 1 + 1 - 1)%nat with (index * 2 + 1)%nat by lia.
    rewrite Nat.div_mul, Nat.div_add_l by lia. simpl. lia. }
  assert (∀ i, (0 < i < n)%nat → parent i = index → i = li ∨ i = ri) as Hch.
  { intros i Hi0 Hpi. unfold parent in Hpi. pose proof (Nat.div_mod (i - 1) 2 ltac:(lia)) as Hdm.
    pose proof (Nat.mod_upper_bound (i - 1) 2 ltac:(lia)). unfold ri, li. lia. }
  assert (∀ nx ot, (nx < n)%nat → (ot < n)%nat → nx ≠ ot → parent nx = index → parent ot = index →
    (index < nx)%nat → (0 < ot)%nat → (∀ i, (0 < i < n)%nat → parent i = index → i = nx ∨ i = ot) →
    gen l nx < gen l ot →
    wp (heap_swap index nx) (set_cache l c) (λ _ c', wp (mret (inl nx)) c' (λ r s', match r with
       | inl l' => ∃ n', (n' < n - index)%nat ∧ I n' l' s' | inr x => Q x s' end))) as Hstep.
  { intros nx ot N1 N2 N3 N4 N5 N6 N7 N8 N9. unfold heap_swap. wp_steps. apply wp_entry; [simpl; lia|]. wp_steps.
    apply wp_entry; [simpl; lia|]. wp_steps. apply wp_put_entry; [simpl; lia|]. wp_steps.
    apply wp_put_entry; [simpl; rewrite length_insert; lia|]. wp_steps. cbn [s_log_cache set_cache].
    exists (n - nx)%nat. split; [lia|].
    exists (<[nx := l !!! index]> (<[index := l !!! nx]> l)). split_and!; [done| | |done|done].
    - rewrite swap_Permutation; [done|by apply list_lookup_lookup_total_lt; lia..].
    - eapply (almost_step _ _ _ _ ot); try done. lia. }
  destruct (Z.ltb_spec (generation (l !!! li)) (generation (l !!! ri))).
  - apply (Hstep li ri); try done; unfold ri, li; lia.
  - apply (Hstep ri li); try done; try (unfold ri, li; lia).
    + intros i Hi0 Hpi. destruct (Hch i Hi0 Hpi); auto.
    + unfold gen. assert (gen l li ≠ gen l ri) as Hne; [|unfold gen in Hne; lia].
      intros E. apply (al_inj _ _ _ Ha) in E; unfold ri, li in *; lia.
Qed.

(** ** Renumbering *)

Lemma pack_id t v g : 0 ≤ v < 2 ^ ESP_LOG_LEVEL_LEN → 0 ≤ g < 2 ^ (32 - ESP_LOG_LEVEL_LEN) → pack t v g = mkEntry t v g.
Proof. intros. unfold pack. by rewrite !Z.mod_small by lia. Qed.

Lemma renumber_spec n i c (Q : unit → heap_t → Prop) :
  (i + n ≤ length (s_log_cache c))%nat → Z.of_nat (i + n) < 2 ^ 20 →
  (∀ j, (i ≤ j < i + n)%nat → 0 ≤ level (s_log_cache c !!! j) < 2 ^ ESP_LOG_LEVEL_LEN) →
  (∀ l, pair_of <$> l = pair_of <$> s_log_cache c → (∀ j, (j < i)%nat → l !!! j = s_log_cache c !!! j) →
     (∀ j, (i ≤ j < i + n)%nat → gen l j = Z.of_nat j) → Q () (set_cache l c)) →
  wp (renumber n i) c Q.
Proof.
  revert i c. induction n as [|n IH]; intros i c Hlen Hsz Hlv HQ; simpl; wp_steps.
  { assert (set_cache (s_log_cache c) c = c) as <- by (by destruct c). apply HQ; try done. lia. }
  apply wp_entry; [lia|]. wp_steps. apply wp_put_entry; [lia|].
  rewrite pack_id by (unfold ESP_LOG_LEVEL_LEN; try apply Hlv; lia).
  set (e := s_log_cache c !!! i) in *.
  apply IH; cbn [s_log_cache set_cache]; rewrite ?length_insert; [lia|lia| |].
  - intros j Hj. rewrite list_lookup_total_insert_ne by lia. apply Hlv. lia.
  - intros l Hl Hlt Hge. change (set_cache l (set_cache _ c)) with (set_cache l c). apply HQ.
    + rewrite Hl. rewrite list_fmap_insert. cbn [pair_of tag level].
      apply list_insert_id. rewrite list_lookup_fmap, (list_lookup_lookup_total_lt _ i) by lia. done.
    + intros j Hj. rewrite Hlt by lia. by rewrite list_lookup_total_insert_ne by lia.
    + intros j Hj. destruct (decide (j = i)) as [->|]; [|apply Hge; lia].
      unfold gen. rewrite Hlt by lia. by rewrite list_lookup_total_insert_eq by lia.
Qed.

(** The same pairs have the same tags and levels. *)
Lemma pairs_tags l l' n : pair_of <$> l = pair_of <$> l' → tag <$> take n l = tag <$> take n l'.
Proof.
  intros H. rewrite <- !heap_fst_pair, !fmap_take. by rewrite H.
Qed.

Lemma check_generation_spec c (Q : unit → heap_t → Prop) :
  ok_upto MAX_GENERATION c →
  (∀ c', ok c' → pair_of <$> live c' = pair_of <$> live c → Q () c') → wp check_generation c Q.
Proof.
  intros Hok HQ. pose proof Hok as []. unfold check_generation. wp_steps.
  destruct (Z.eqb_spec (s_log_cache_max_generation c) MAX_GENERATION) as [E|E].
  2: { wp_steps. apply HQ; [|done]. split; try done. lia. }
  unfold fix_cache_generation_overflow. wp_steps. apply renumber_spec; [lia|lia| |].
  { intros j Hj. rewrite Forall_forall in ok_levels0. apply ok_levels0.
    apply list_elem_of_lookup. exists j. unfold live. rewrite lookup_take_lt by lia.
    apply list_lookup_lookup_total_lt. lia. }
  intros l Hl _ Hge. wp_steps. cbn [set_cache s_log_cache_entry_count].
  set (n := s_log_cache_entry_count c) in *.
  assert (length l = length (s_log_cache c)) as Hlen by (by rewrite <- (length_fmap pair_of l), Hl, length_fmap).
  assert (pair_of <$> take n l = pair_of <$> take n (s_log_cache c)) as Hpairs.
  { by rewrite !fmap_take, Hl. }
  apply HQ; [|done]. unfold ok, MAX_GENERATION, ESP_LOG_LEVEL_LEN in *. split; simpl; fold n; try done; try lia.
  - unfold live in *. simpl. fold n in ok_levels0 |- *.
    assert (Forall (λ p, 0 ≤ snd p < 2 ^ 3) (pair_of <$> take n l)) as HF.
    { rewrite Hpairs. by apply Forall_fmap. }
    by apply Forall_fmap in HF.
  - unfold live. simpl. fold n. apply Forall_forall. intros e (i & Hi & He)%elem_of_take_lookup.
    assert (generation e = Z.of_nat i) as ->; [|lia]. rewrite <- (Hge i) by lia. unfold gen.
    by rewrite (list_lookup_total_correct _ _ _ He).
  - intros i j Hi Hj. rewrite !Hge by lia. lia.
  - intros i Hi. assert (parent i < i)%nat by (unfold parent; apply Nat.Div0.div_lt_upper_bound; lia).
    rewrite !Hge by lia. lia.
  - unfold live. simpl. fold n. rewrite <- heap_fst_pair, Hpairs, heap_fst_pair. exact ok_nodup0.
Qed.

(** ** The operations *)

Lemma check_order_ok b c i (Q : unit → heap_t → Prop) :
  ok_upto b c → (i < s_log_cache_entry_count c)%nat → Q () c → wp (check_order i) c Q.
Proof.
  intros [] Hi HQ. destruct i as [|j]; unfold check_order; wp_steps; [done|].
  assert (j / 2 < S j)%nat by (apply Nat.Div0.div_lt_upper_bound; lia).
  apply wp_entry; [lia|]. wp_steps. apply wp_entry; [lia|]. apply wp_assert; [|done]. apply Z.ltb_lt.
  specialize (ok_heap0 (S j) ltac:(lia)). unfold parent in ok_heap0.
  by replace (S j - 1)%nat with j in ok_heap0 by lia.
Qed.

Lemma heap_set_loop_spec b c str t v n i (Q : unit → heap_t → Prop) :
  ok_upto b c → (i + n = s_log_cache_entry_count c)%nat →
  ((∀ k, (i ≤ k < i + n)%nat → str (tag (s_log_cache c !!! k)) ≠ str t) → Q () c) →
  (∀ k, (i ≤ k < i + n)%nat → str (tag (s_log_cache c !!! k)) = str t →
     Q () (set_cache (<[k := pack (tag (s_log_cache c !!! k)) v (generation (s_log_cache c !!! k))]> (s_log_cache c)) c)) →
  wp (heap_set_loop str t v n i) c Q.
Proof.
  intros Hok. revert i. induction n as [|n IH]; intros i Hn Hno Hyes; simpl; wp_steps; [apply Hno; lia|].
  pose proof Hok as []. eapply check_order_ok; [done|lia|]. wp_steps. apply wp_entry; [lia|].
  case_decide as Ht; [apply wp_put_entry; [lia|]; apply Hyes; [lia|done]|].
  apply IH; [lia| |].
  - intros Hrest. apply Hno. intros k Hk. destruct (decide (k = i)) as [->|]; [done|apply Hrest; lia].
  - intros k Hk. apply Hyes. lia.
Qed.

Lemma heap_get_loop_spec b c t n i (Q : nat → heap_t → Prop) :
  ok_upto b c → (i + n = s_log_cache_entry_count c)%nat →
  ((∀ k, (i ≤ k < i + n)%nat → tag (s_log_cache c !!! k) ≠ t) → Q (i + n)%nat c) →
  (∀ k, (i ≤ k < i + n)%nat → tag (s_log_cache c !!! k) = t → Q k c) →
  wp (heap_get_loop t n i) c Q.
Proof.
  intros Hok. revert i. induction n as [|n IH]; intros i Hn Hno Hyes; simpl; wp_steps.
  { rewrite <- (Nat.add_0_r i). apply Hno. lia. }
  pose proof Hok as []. eapply check_order_ok; [done|lia|]. wp_steps. apply wp_entry; [lia|].
  destruct (Z.eqb_spec (tag (s_log_cache c !!! i)) t) as [Ht|Ht]; [wp_steps; apply Hyes; [lia|done]|].
  apply IH; [lia| |].
  - intros Hrest. replace (S i + n)%nat with (i + S n)%nat by lia. apply Hno. intros k Hk.
    destruct (decide (k = i)) as [->|]; [done|apply Hrest; lia].
  - intros k Hk. apply Hyes. lia.
Qed.

Lemma live_lookup b c e : ok_upto b c → e ∈ live c →
  ∃ k, (k < s_log_cache_entry_count c)%nat ∧ e = s_log_cache c !!! k.
Proof.
  intros [] (k & Hk & He)%elem_of_take_lookup. exists k. split; [done|]. symmetry. by apply list_lookup_total_correct.
Qed.

Lemma lookup_live b c k : ok_upto b c → (k < s_log_cache_entry_count c)%nat → s_log_cache c !!! k ∈ live c.
Proof.
  intros [] Hk. apply list_elem_of_lookup. exists k. unfold live. rewrite lookup_take_lt by done.
  apply list_lookup_lookup_total_lt. lia.
Qed.

(** Raising the generation of a live entry of a full heap to the top. *)
Lemma almost_raise b c k e :
  ok_upto b c → s_log_cache_entry_count c = TAG_CACHE_SIZE c → (k < TAG_CACHE_SIZE c)%nat →
  generation e = s_log_cache_max_generation c →
  (∀ i, (0 < i < TAG_CACHE_SIZE c)%nat → parent i = k → (0 < k)%nat →
     gen (s_log_cache c) (parent k) < gen (s_log_cache c) i) →
  almost (<[k := e]> (s_log_cache c)) (TAG_CACHE_SIZE c) k.
Proof.
  intros Hok Hfull Hk He Hchild. pose proof Hok as []. set (l := s_log_cache c) in *.
  assert (∀ i, (i < TAG_CACHE_SIZE c)%nat → gen l i < generation e) as Htop.
  { intros i Hi. rewrite He. rewrite Forall_forall in ok_gens0.
    apply (ok_gens0 (l !!! i)). apply (lookup_live _ _ _ Hok). lia. }
  rewrite Hfull in *.
  assert (∀ j, gen (<[k := e]> l) j = if decide (j = k) then generation e else gen l j) as Hg.
  { intros j. apply gen_insert. lia. }
  assert (∀ i, (0 < i)%nat → (parent i < i)%nat) as Hpar.
  { intros i Hi. unfold parent. apply Nat.Div0.div_lt_upper_bound; lia. }
  split.
  - intros i Hi Hp. rewrite !Hg, (decide_False (P := parent i = k)) by done. case_decide as E; [|by apply ok_heap0].
    apply Htop. specialize (Hpar i). lia.
  - intros i Hi Hp Hk0. rewrite !Hg. pose proof (Hpar k Hk0). pose proof (Hpar i ltac:(lia)).
    rewrite !decide_False by lia. by apply Hchild.
  - intros i Hi Hne. rewrite !Hg, decide_False, decide_True by done. by apply Htop.
  - intros i j Hi Hj. rewrite !Hg. repeat case_decide; subst; try done.
    + intros E. specialize (Htop j Hj). lia.
    + intros E. specialize (Htop i Hi). lia.
    + by apply ok_inj0.
Qed.

Lemma heap_child b c i k : ok_upto b c → s_log_cache_entry_count c = TAG_CACHE_SIZE c →
  (0 < i < TAG_CACHE_SIZE c)%nat → parent i = k → (0 < k)%nat →
  gen (s_log_cache c) (parent k) < gen (s_log_cache c) i.
Proof.
  intros [] Hfull Hi Hp Hk. rewrite Hfull in *.
  assert (parent i < i)%nat by (unfold parent; apply Nat.Div0.div_lt_upper_bound; lia).
  pose proof (ok_heap0 k ltac:(lia)). pose proof (ok_heap0 i Hi). rewrite Hp in *. lia.
Qed.

(** A full heap whose array was permuted into heap order again. *)
Lemma ok_bubbled c k e l :
  ok c → s_log_cache_entry_count c = TAG_CACHE_SIZE c → (k < TAG_CACHE_SIZE c)%nat →
  generation e = s_log_cache_max_generation c → 0 ≤ level e < 2 ^ ESP_LOG_LEVEL_LEN →
  NoDup (tag <$> <[k := e]> (s_log_cache c)) →
  l ≡ₚ <[k := e]> (s_log_cache c) → heap_ordered l (TAG_CACHE_SIZE c) →
  (∀ i j, (i < TAG_CACHE_SIZE c)%nat → (j < TAG_CACHE_SIZE c)%nat → gen l i = gen l j → i = j) →
  ok_upto MAX_GENERATION (set_cache l (set_max_generation (s_log_cache_max_generation c + 1) c)).
Proof.
  intros Hok Hfull Hk He Hlv Hnd Hp Hord Hinj. pose proof Hok as [].
  assert (live c = s_log_cache c) as Hlive by (unfold live; rewrite take_ge; [done|lia]).
  assert (length l = TAG_CACHE_SIZE c) as Hlen by (rewrite Hp, length_insert; done).
  assert (take (s_log_cache_entry_count c) l = l) as Ht by (apply take_ge; lia).
  rewrite Hlive in *.
  assert (∀ P : heap_entry_t → Prop, P e → Forall P (s_log_cache c) → Forall P l) as HF.
  { intros P Pe Hall. rewrite Hp. by apply Forall_insert. }
  unfold MAX_GENERATION, ESP_LOG_LEVEL_LEN in *.
  split; unfold live; cbn [set_cache set_max_generation s_log_cache_entry_count s_log_cache TAG_CACHE_SIZE s_log_cache_max_generation];
    rewrite ?Ht, ?Hfull; try done; try lia.
  - by apply HF.
  - apply HF; [lia|]. eapply Forall_impl; [exact ok_gens0|]. simpl. lia.
  - by rewrite Hp.
Qed.

Lemma heap_get_law c p : ok c →
  wp (heap_get_level p) c (λ r c', ok c' ∧ pair_of <$> live c' ≡ₚ pair_of <$> live c ∧
    match r with Some v => (p, v) ∈ pair_of <$> live c | None => p ∉ (pair_of <$> live c).*1 end).
Proof.
  intros Hok. pose proof Hok as []. unfold heap_get_level. wp_steps.
  eapply heap_get_loop_spec; [exact Hok|done| |].
  - intros Hno. rewrite decide_True by done. wp_steps. split; [|split; [done|]].
    + by split.
    + rewrite heap_fst_pair. intros (e & -> & He)%list_elem_of_fmap.
      destruct (live_lookup _ _ _ Hok He) as (k & Hk & ->). by apply (Hno k); [lia|].
  - intros k Hk Htag. rewrite decide_False by lia. wp_steps. apply wp_entry; [lia|]. wp_steps.
    pose proof (lookup_live _ _ _ Hok (proj2 Hk)) as Hlive. set (e := s_log_cache c !!! k) in *.
    assert ((p, level e) ∈ pair_of <$> live c) as Hres.
    { apply list_elem_of_fmap. exists e. split; [|done]. unfold pair_of. by rewrite Htag. }
    rewrite Forall_forall in ok_levels0. pose proof (ok_levels0 e Hlive) as Hlv.
    case_decide as Hfull; wp_steps; [|done].
    apply wp_put_entry; [lia|]. wp_steps. cbn [set_cache s_log_cache_max_generation].
    rewrite pack_id by (unfold MAX_GENERATION, ESP_LOG_LEVEL_LEN in *; lia).
    rewrite u32_small by (unfold MAX_GENERATION, ESP_LOG_LEVEL_LEN in *; lia).
    set (e' := mkEntry (tag e) (level e) (s_log_cache_max_generation c)).
    assert (live c = s_log_cache c) as Hall by (unfold live; rewrite take_ge; [done|lia]).
    assert (pair_of <$> <[k := e']> (s_log_cache c) = pair_of <$> s_log_cache c) as Hsame.
    { rewrite list_fmap_insert. apply list_insert_id. rewrite list_lookup_fmap.
      rewrite (list_lookup_lookup_total_lt _ k) by lia. done. }
    eapply bubble_down_spec; cbn [set_cache set_max_generation s_log_cache TAG_CACHE_SIZE];
      [by rewrite length_insert|done| |lia|].
    { eapply almost_raise; [exact Hok|done|lia|done|]. intros i Hi Hp Hk0. by eapply heap_child. }
    intros l Hp Hord Hinj. wp_steps. apply check_generation_spec.
    { eapply (ok_bubbled c k e'); try done; [lia|]. rewrite <- heap_fst_pair, Hsame, heap_fst_pair, <- Hall. done. }
    intros c' Hok' Hlive'. wp_steps. split; [done|]. split; [|done]. rewrite Hlive'.
    unfold live at 1. cbn. rewrite take_ge by (rewrite Hp, length_insert; lia). rewrite Hp, Hsame, Hall. done.
Qed.

Lemma heap_set_law c str p v : ok c → 0 ≤ v < 2 ^ ESP_LOG_LEVEL_LEN →
  wp (heap_set_level str p v) c (λ _ c', ok c' ∧
    ((∀ q, q ∈ (pair_of <$> live c).*1 → str q ≠ str p) ∧ pair_of <$> live c' = pair_of <$> live c ∨
     ∃ l1 q w l2, pair_of <$> live c = l1 ++ (q, w) :: l2 ∧ str q = str p ∧
                  pair_of <$> live c' = l1 ++ (q, v) :: l2)).
Proof.
  intros Hok Hv. pose proof Hok as []. unfold heap_set_level. wp_steps.
  eapply heap_set_loop_spec; [exact Hok|done| |].
  - intros Hno. split; [done|]. left. split; [|done]. intros q. rewrite heap_fst_pair.
    intros (e & -> & He)%list_elem_of_fmap. destruct (live_lookup _ _ _ Hok He) as (k & Hk & ->). apply Hno. lia.
  - intros k Hk Hs. pose proof (lookup_live _ _ _ Hok (proj2 Hk)) as Hlive. set (e := s_log_cache c !!! k) in *.
    rewrite Forall_forall in ok_gens0. pose proof (ok_gens0 e Hlive) as Hg.
    rewrite pack_id by (unfold MAX_GENERATION, ESP_LOG_LEVEL_LEN in *; lia).
    set (e' := mkEntry (tag e) v (generation e)).
    assert (s_log_cache c !! k = Some e) as He by (apply list_lookup_lookup_total_lt; lia).
    destruct (take_insert_split (s_log_cache c) (s_log_cache_entry_count c) k e' e ltac:(lia) He)
      as (l1 & l2 & E1 & E2).
    assert (∀ i, gen (<[k := e']> (s_log_cache c)) i = gen (s_log_cache c) i) as Hgen.
    { intros i. rewrite gen_insert by lia. by case_decide as E; [subst|]. }
    assert (∀ P : heap_entry_t → Prop, P e' → Forall P (live c) → Forall P (l1 ++ e' :: l2)) as HF.
    { intros P Pe Hall. unfold live in Hall. rewrite E1 in Hall. rewrite Forall_app, Forall_cons in *. tauto. }
    split.
    + split; unfold live in *; cbn [set_cache s_log_cache_entry_count s_log_cache TAG_CACHE_SIZE s_log_cache_max_generation];
        try done; rewrite ?E2, ?length_insert; try done.
      * by apply HF.
      * apply HF; [done|]. by apply Forall_forall.
      * intros i j Hi Hj. rewrite !Hgen. by apply ok_inj0.
      * intros i Hi. rewrite !Hgen. by apply ok_heap0.
      * rewrite E1 in ok_nodup0. by rewrite fmap_app, fmap_cons in *.
    + right. exists (pair_of <$> l1), (tag e), (level e), (pair_of <$> l2). unfold live at 1. rewrite E1.
      split; [by rewrite fmap_app|]. split; [done|]. unfold live. cbn. rewrite E2. by rewrite fmap_app.
Qed.

Lemma heap_clean_law c : ok c → wp heap_clean c (λ _ c', ok c' ∧ pair_of <$> live c' = []).
Proof.
  intros []. unfold heap_clean. wp_steps. split; [|done]. unfold MAX_GENERATION, ESP_LOG_LEVEL_LEN in *.
  split; unfold live; simpl; try done; try lia; try constructor; intros i; lia.
Qed.

(** Adding to a heap that is not full. *)
Lemma ok_appended c p v :
  ok c → (s_log_cache_entry_count c < TAG_CACHE_SIZE c)%nat → p ∉ (tag <$> live c) → 0 ≤ v < 2 ^ ESP_LOG_LEVEL_LEN →
  let n := s_log_cache_entry_count c in
  let e := mkEntry p v (s_log_cache_max_generation c) in
  take (S n) (<[n := e]> (s_log_cache c)) = live c ++ [e] ∧
  ok_upto MAX_GENERATION (mkHeap (TAG_CACHE_SIZE c) (<[n := e]> (s_log_cache c))
    (s_log_cache_max_generation c + 1) (S n) (s_log_cache_misses c)).
Proof.
  intros Hok Hn Hp Hv n e. pose proof Hok as [].
  assert (take (S n) (<[n := e]> (s_log_cache c)) = live c ++ [e]) as Ht.
  { rewrite (take_S_r _ _ e) by (apply list_lookup_insert_eq; lia). by rewrite take_insert_ge by lia. }
  split; [done|].
  assert (∀ i, (i < n)%nat → gen (<[n := e]> (s_log_cache c)) i = gen (s_log_cache c) i) as Hg.
  { intros i Hi. rewrite gen_insert by lia. rewrite decide_False; [done|lia]. }
  assert (gen (<[n := e]> (s_log_cache c)) n = s_log_cache_max_generation c) as Hgn.
  { rewrite gen_insert by lia. by rewrite decide_True. }
  assert (∀ i, (i < n)%nat → gen (s_log_cache c) i < s_log_cache_max_generation c) as Hlt.
  { intros i Hi. rewrite Forall_forall in ok_gens0. apply ok_gens0. by eapply lookup_live. }
  unfold MAX_GENERATION, ESP_LOG_LEVEL_LEN in *.
  split; unfold live; cbn [s_log_cache_entry_count s_log_cache TAG_CACHE_SIZE s_log_cache_max_generation];
    rewrite ?Ht, ?length_insert; try done; try lia.
  - apply Forall_app. split; [done|]. by constructor.
  - apply Forall_app. split; [eapply Forall_impl; [exact ok_gens0|simpl; lia]|]. constructor; [simpl; lia|done].
  - intros i j Hi Hj. destruct (decide (i = n)) as [->|], (decide (j = n)) as [->|]; try done;
      rewrite ?Hgn, ?Hg by lia; intros E.
    + specialize (Hlt j ltac:(lia)). lia.
    + specialize (Hlt i ltac:(lia)). lia.
    + apply ok_inj0; [lia|lia|done].
  - intros i Hi. assert (parent i < i)%nat by (unfold parent; apply Nat.Div0.div_lt_upper_bound; lia).
    rewrite (Hg (parent i)) by lia. destruct (decide (i = n)) as [->|]; [rewrite Hgn; apply Hlt; lia|].
    rewrite Hg by lia. apply ok_heap0. lia.
  - rewrite fmap_app. rewrite Permutation_app_comm. by constructor.
Qed.

Lemma heap_add_law c p v : ok c → p ∉ (pair_of <$> live c).*1 → 0 ≤ v < 2 ^ ESP_LOG_LEVEL_LEN →
  wp (heap_add p v) c (λ _ c', ok c' ∧ ∀ e, e ∈ pair_of <$> live c' → e = (p, v) ∨ e ∈ pair_of <$> live c).
Proof.
  intros Hok Hp Hv. rewrite heap_fst_pair in Hp. pose proof Hok as []. unfold heap_add. wp_steps.
  rewrite u32_small by (unfold MAX_GENERATION, ESP_LOG_LEVEL_LEN in *; lia).
  rewrite pack_id by (unfold MAX_GENERATION, ESP_LOG_LEVEL_LEN in *; lia).
  set (e := mkEntry p v (s_log_cache_max_generation c)).
  case_decide as Hn; wp_steps.
  - apply wp_put_entry; [simpl; lia|]. wp_steps. cbn.
    destruct (ok_appended c p v Hok Hn Hp Hv) as [Ht Hok'].
    apply check_generation_spec; [exact Hok'|]. intros c' Hok'' ->. split; [done|].
    intros x Hx. assert (x ∈ pair_of <$> (live c ++ [e])) as Hx' by (unfold e; rewrite <- Ht; exact Hx).
    rewrite fmap_app, elem_of_app in Hx'. destruct Hx' as [?|Hx']; [by right|left].
    by apply list_elem_of_singleton in Hx'.
  - assert (s_log_cache_entry_count c = TAG_CACHE_SIZE c) as Hfull by lia.
    assert (0 < TAG_CACHE_SIZE c)%nat as Hpos by (destruct ok_odd0; lia).
    assert (live c = s_log_cache c) as Hall by (unfold live; rewrite take_ge; [done|lia]).
    apply wp_put_entry; [simpl; lia|]. cbn [set_max_generation s_log_cache].
    destruct (lookup_lt_is_Some_2 (s_log_cache c) 0) as [e0 He0]; [lia|].
    destruct (insert_split (s_log_cache c) 0 e e0 He0) as (l1 & l2 & E1 & El & E2).
    destruct l1; [|done]. simpl in *. rewrite Hall in *.
    eapply bubble_down_spec; cbn [set_cache set_max_generation s_log_cache TAG_CACHE_SIZE];
      [by rewrite length_insert|done| |lia|].
    { eapply almost_raise; [exact Hok|done|lia|done|]. intros i Hi Hpi Hk0. lia. }
    intros l Hpm Hord Hinj. apply check_generation_spec.
    { eapply (ok_bubbled c 0%nat e); try done. rewrite E1 in ok_nodup0, Hp. rewrite E2.
      rewrite fmap_cons, ?NoDup_cons, ?elem_of_cons in *. cbn in *. tauto. }
    intros c' Hok' ->. split; [done|]. unfold live. cbn.
    rewrite take_ge by (rewrite Hpm, length_insert; lia). intros x. rewrite Hpm, E2, E1, !fmap_cons, !elem_of_cons.
    cbn. tauto.
Qed.

#[global] Instance heap_laws : LogCacheLaws heap_t.
Proof.
  refine {| cache_ok := ok; cache_entries := λ c, pair_of <$> live c |}.
  - intros c []. by rewrite heap_fst_pair.
  - apply heap_get_law.
  - apply heap_set_law.
  - apply heap_clean_law.
  - apply heap_add_law.
Defined.
End HeapLaws.
