(* ===== verification/LogSpec.v ===== *)
(** * What the log levels promise

    A log-level map as the specification, the refinement of it by the linked list
    with any cache that satisfies the interface, and the case in which the cache is
    stale. *)
From Stdlib Require Import ZArith Lia.
From stdpp Require Import base numbers option list strings gmap.
From S2P Require Import Prelude LogLevel LogCaches.

Open Scope Z_scope.

(** ** The specification: a default level and the levels set for tags *)

Record levels : Type := mkLevels { lv_default : Z; lv_tags : gmap string Z }.

Inductive log_op : Type :=
| LogSet (malloc_ok : bool) (tag : option Z) (level : Z)
| LogGet (tag : option Z).

Section spec.
Context (str : Z → string).

Definition level_of (l : levels) (tag : option Z) : Z :=
  match tag with
  | None => lv_default l
  | Some p => default (lv_default l) (lv_tags l !! str p)
  end.

(** A new tag needs memory; a level that is not stored is not set. *)
Definition set_level (l : levels) (malloc_ok : bool) (tag : option Z) (level : Z) : levels :=
  match tag with
  | None => l
  | Some p =>
      if decide (str p = "*"%string) then mkLevels level ∅
      else if malloc_ok || bool_decide (is_Some (lv_tags l !! str p))
      then mkLevels (lv_default l) (<[str p := level]> (lv_tags l)) else l
  end.

(** The answers of the queries of a run. *)
Fixpoint spec_run (l : levels) (ops : list log_op) : list Z :=
  match ops with
  | [] => []
  | LogSet ok tag v :: ops' => spec_run (set_level l ok tag v) ops'
  | LogGet tag :: ops' => level_of l tag :: spec_run l ops'
  end.

Definition in_range (op : log_op) : Prop :=
  match op with LogSet _ _ v => 0 ≤ v < 2 ^ ESP_LOG_LEVEL_LEN | LogGet _ => True end.

(** The tags an operation uses. *)
Definition uses (T : list Z) (op : log_op) : Prop :=
  match op with LogSet _ (Some p) _ | LogGet (Some p) => p ∈ T | _ => True end.
End spec.

(** ** The run of the code *)

Fixpoint log_run {C : Type} `{LogCache C} (str : Z → string) (ops : list log_op) : M (log_state C) (list Z) :=
  match ops with
  | [] => mret []
  | LogSet ok tag v :: ops' => esp_log_level_set str ok tag v;; log_run str ops'
  | LogGet tag :: ops' =>
      v ← esp_log_level_get str tag; rest ← log_run str ops'; mret (v :: rest)
  end.

(** ** The linked list implements the map *)

Module ListLemmas.
Import LinkedList.

Lemma get_set t v l l' : set_log_level t v l = Some l' → 0 ≤ v < 2 ^ ESP_LOG_LEVEL_LEN →
  ∀ t', esp_log_linked_list_get_level t' l' =
        if decide (t' = t) then Some v else esp_log_linked_list_get_level t' l.
Proof.
  intros H Hv. assert (u8 v = v) as Hu by (apply Z.mod_small; unfold ESP_LOG_LEVEL_LEN in *; lia).
  revert l' H. induction l as [|[t0 v0] l IH]; intros l' H t'; simpl in *; [done|].
  case_decide as E.
  - injection H as <-. simpl. rewrite Hu. subst t0. repeat case_decide; congruence.
  - destruct (set_log_level t v l) as [l''|] eqn:El; simpl in H; [|done]. injection H as <-. simpl.
    rewrite IH by done. repeat case_decide; congruence.
Qed.

Lemma set_none t v l : set_log_level t v l = None → esp_log_linked_list_get_level t l = None.
Proof.
  induction l as [|[t0 v0] l IH]; simpl; [done|]. case_decide; [done|].
  destruct (set_log_level t v l); [done|]. intros _. by apply IH.
Qed.

Lemma set_some t v l l' : set_log_level t v l = Some l' → is_Some (esp_log_linked_list_get_level t l).
Proof.
  revert l'. induction l as [|[t0 v0] l IH]; intros l'; simpl; [done|]. case_decide; [by eexists|].
  destruct (set_log_level t v l); [|done]. intros _. by eapply IH.
Qed.

(** The list holds the map. *)
Definition holds (l : s_log_tags) (m : gmap string Z) : Prop :=
  ∀ t, esp_log_linked_list_get_level t l = m !! t.

Lemma holds_set l m t v ok :
  holds l m → 0 ≤ v < 2 ^ ESP_LOG_LEVEL_LEN →
  let '(l', success) := esp_log_linked_list_set_level ok t v l in
  success = ok || bool_decide (is_Some (m !! t)) ∧ holds l' (if success then <[t := v]> m else m).
Proof.
  intros Hm Hv. assert (u8 v = v) as Hu by (apply Z.mod_small; unfold ESP_LOG_LEVEL_LEN in *; lia).
  unfold esp_log_linked_list_set_level. destruct (set_log_level t v l) as [l'|] eqn:E.
  - pose proof (set_some _ _ _ _ E) as Hs. rewrite Hm in Hs. rewrite bool_decide_true by done.
    rewrite orb_true_r. split; [done|]. intros t'. rewrite (get_set _ _ _ _ E Hv), Hm.
    destruct (decide (t' = t)) as [->|]; [by rewrite lookup_insert_eq|by rewrite lookup_insert_ne].
  - pose proof (set_none _ _ _ E) as Hn. rewrite Hm in Hn. rewrite Hn.
    unfold add_to_list. destruct ok; simpl; [|done]. split; [done|]. intros t'. simpl. rewrite Hu.
    case_decide as Et; [subst; by rewrite lookup_insert_eq|by rewrite lookup_insert_ne, Hm].
Qed.

Lemma clean_nil l : esp_log_linked_list_clean l = [].
Proof. by induction l. Qed.
End ListLemmas.
Import ListLemmas.

(** ** The refinement *)

Section refinement.
Context {C : Type} `{LogCacheLaws C} (str : Z → string) (T : list Z).
Hypothesis interned : ∀ p q, p ∈ T → q ∈ T → str p = str q → p = q.

Record coherent (s : log_state C) (l : levels) : Prop := {
  co_default : esp_log_default_level s = lv_default l;
  co_list : holds (s_log_tags s) (lv_tags l);
  co_range : 0 ≤ lv_default l < 2 ^ ESP_LOG_LEVEL_LEN ∧
             map_Forall (λ _ v, 0 ≤ v < 2 ^ ESP_LOG_LEVEL_LEN) (lv_tags l);
  co_cache : cache_ok (log_cache s);
  co_entries : ∀ p v, (p, v) ∈ cache_entries (log_cache s) → p ∈ T ∧ v = level_of str l (Some p)
}.

Lemma wp_on_cache {A} (m : M C A) s (Q : A → log_state C → Prop) :
  wp m (log_cache s) (λ a c, Q a (mkLog (esp_log_default_level s) (s_master_log_level s) (s_log_tags s) c)) →
  wp (on_cache m) s Q.
Proof. unfold wp, on_cache. by destruct (m (log_cache s)). Qed.

Lemma level_of_range l tag s : coherent s l → 0 ≤ level_of str l tag < 2 ^ ESP_LOG_LEVEL_LEN.
Proof.
  intros [_ _ [Hd Hm] _ _]. destruct tag as [p|]; [|done]. simpl.
  destruct (lv_tags l !! str p) as [v|] eqn:E; [|done]. simpl. by apply (Hm _ _ E).
Qed.

Lemma get_refines s l tag :
  coherent s l → uses T (LogGet tag) →
  wp (esp_log_level_get str tag) s (λ v s', v = level_of str l tag ∧ coherent s' l).
Proof.
  intros Hc Hu. pose proof (level_of_range l tag s Hc) as Hr. pose proof Hc as [].
  unfold esp_log_level_get, log_level_get. wp_steps. destruct tag as [p|]; cbn [andb]; wp_steps; [|done]. simpl in Hu.
  apply wp_on_cache. eapply wp_mono; [by apply cache_get_law|]. intros r c (Hok & Hperm & Hres).
  destruct r as [v|]; wp_steps.
  - destruct (co_entries0 _ _ Hres) as [_ ->]. split; [done|]. split; simpl; try done.
    intros q w. rewrite Hperm. apply co_entries0.
  - apply wp_on_cache. cbn [s_log_tags log_cache]. rewrite co_list0, co_default0.
    eapply wp_mono; [apply cache_add_law; [done| |exact Hr]|].
    { by rewrite Hperm. }
    intros [] c' [Hok' Hsub]. wp_steps. split; [simpl; by rewrite ?co_list0, ?co_default0|]. split; simpl; try done.
    intros q w [[= -> ->]|Hin]%Hsub; [done|]. rewrite Hperm in Hin. by apply co_entries0.
Qed.

Lemma set_refines s l ok tag v :
  coherent s l → uses T (LogSet ok tag v) → 0 ≤ v < 2 ^ ESP_LOG_LEVEL_LEN →
  wp (esp_log_level_set str ok tag v) s (λ _ s', coherent s' (set_level str l ok tag v)).
Proof.
  intros Hc Hu Hv. pose proof Hc as []. unfold esp_log_level_set, log_level_set, set_level.
  destruct tag as [p|]; wp_steps; [|done]. simpl in Hu. case_decide as Estar.
  { unfold esp_log_set_default_level. wp_steps. apply wp_on_cache. eapply wp_mono; [by apply cache_clean_law|].
    intros [] c [Hok Hnil]. split; simpl; try done.
    - rewrite clean_nil. intros t. by rewrite lookup_empty.
    - intros q w. rewrite Hnil. by intros ?%not_elem_of_nil. }
  wp_steps. pose proof (holds_set (s_log_tags s) (lv_tags l) (str p) v ok co_list0 Hv) as Hset.
  destruct (LinkedList.esp_log_linked_list_set_level ok (str p) v (s_log_tags s)) as [l' success].
  destruct Hset as [<- Hm]. wp_steps. destruct success; wp_steps; [|by split].
  apply wp_on_cache. cbn [log_cache set_tags]. eapply wp_mono; [by apply cache_set_law|].
  intros [] c' [Hok' Hent]. pose proof (cache_nodup _ co_cache0) as Hnd. split; simpl; try done.
  - split; [apply co_range0|]. by apply map_Forall_insert_2; [|apply co_range0].
  - intros q w Hin.
    assert (∀ w', (q, w') ∈ cache_entries (log_cache s) → str q ≠ str p →
      q ∈ T ∧ w' = default (lv_default l) (<[str p := v]> (lv_tags l) !! str q)) as Hother.
    { intros w' Hw' Hne. destruct (co_entries0 _ _ Hw') as [HT ->]. split; [done|]. simpl.
      by rewrite lookup_insert_ne by done. }
    destruct Hent as [[Hno E]|(l1 & q0 & w0 & l2 & E1 & Hstr & E2)].
    + rewrite E in Hin. apply Hother; [done|]. apply Hno. apply list_elem_of_fmap. by exists (q, w).
    + assert (q0 ∈ T) as HT0.
      { apply (co_entries0 q0 w0). rewrite E1. apply elem_of_app. right. apply elem_of_cons. auto. }
      assert (q0 = p) as -> by (by apply interned). rewrite E2 in Hin. rewrite E1 in Hnd, Hother.
      rewrite fmap_app, fmap_cons in Hnd. cbn in Hnd.
      assert ((q, w) = (p, v) ∨ (q, w) ∈ l1 ++ l2) as [[= -> ->]|Hin'].
      { rewrite elem_of_app, elem_of_cons in Hin. rewrite elem_of_app. tauto. }
      * split; [done|]. by rewrite lookup_insert_eq.
      * apply Hother; [rewrite elem_of_app in Hin'; rewrite elem_of_app, elem_of_cons; tauto|].
        intros Hs. assert (q ∈ T) as HTq.
        { apply (co_entries0 q w). rewrite E1. rewrite elem_of_app in Hin'. rewrite elem_of_app, elem_of_cons. tauto. }
        assert (q = p) as -> by (by apply interned). rewrite <- Permutation_middle in Hnd.
        apply NoDup_cons in Hnd as [Hnin _]. apply Hnin. rewrite <- fmap_app. apply list_elem_of_fmap. by exists (p, w).
Qed.

Lemma run_refines ops s l :
  coherent s l → Forall in_range ops → Forall (uses T) ops →
  wp (log_run str ops) s (λ vs s', vs = spec_run str l ops).
Proof.
  intros Hc Hr Hu. revert s l Hc. induction ops as [|op ops IH]; intros s l Hc; simpl; wp_steps; [done|].
  rewrite Forall_cons in Hr, Hu. destruct Hr as [Hr0 Hr], Hu as [Hu0 Hu]. destruct op as [ok tag v|tag]; wp_steps.
  - eapply wp_mono; [by apply set_refines|]. intros [] s' Hc'. by apply IH.
  - eapply wp_mono; [by apply get_refines|]. intros v s' [-> Hc']. wp_steps.
    eapply wp_mono; [by apply IH|]. intros vs s'' ->. by wp_steps.
Qed.

(** C5: with either cache, and with any cache that satisfies the interface, the log
    levels behave as a map from tag strings to levels with a default: whatever the
    sequence of updates (each of which may find no memory) and queries, every query
    answers the level last set for the tag, or the default, as long as equal tags
    are the same string object. *)
Theorem log_levels_refine (c : C) (d m : Z) (ops : list log_op) :
  cache_ok c → cache_entries c = [] → 0 ≤ d < 2 ^ ESP_LOG_LEVEL_LEN →
  Forall in_range ops → Forall (uses T) ops →
  ∃ s', log_run str ops (mkLog d m [] c) = Done s' (spec_run str (mkLevels d ∅) ops).
Proof.
  intros Hok Hnil Hd Hr Hu.
  assert (coherent (mkLog d m [] c) (mkLevels d ∅)) as Hc.
  { split; simpl; [done|done|split; [done|apply map_Forall_empty]|done|].
    intros p v. rewrite Hnil. by intros ?%not_elem_of_nil. }
  pose proof (run_refines ops _ _ Hc Hr Hu) as H'. apply wp_done in H' as (vs & s' & E & ->). eauto.
Qed.
End refinement.

(** An empty heap cache of 31 entries and an empty array cache of 31 entries. *)
Definition empty_heap (n : nat) : HeapCache.heap_t :=
  HeapCache.mkHeap n (replicate n (HeapCache.mkEntry 0 0 0)) 0 0 0.
Definition empty_array (n : nat) : ArrayCache.array_t :=
  ArrayCache.mkArray n (replicate n (ArrayCache.mkArrayEntry 0 0)) 0.

Lemma empty_heap_ok n : Nat.Odd n → Z.of_nat n < 2 ^ 20 → HeapLaws.ok (empty_heap n).
Proof.
  intros Hodd Hn. split; unfold HeapLaws.live; simpl; try done; try lia; try constructor.
  - by rewrite length_replicate.
  - intros i Hi. lia.
Qed.

(** Two tags, at addresses 1 and 2. *)
Definition two_tags (p : Z) : string := if p =? 1 then "wifi"%string else "phy"%string.

Lemma log_levels_refine_witness :
  ∃ s', log_run two_tags
    [LogGet (Some 1); LogSet true (Some 1) 4; LogGet (Some 1); LogGet (Some 2); LogSet false (Some 2) 1; LogGet (Some 2)]
    (mkLog 3 3 [] (empty_heap 31)) = Done s' [3; 4; 3; 3].
Proof.
  apply (log_levels_refine two_tags [1; 2]).
  - intros p q. rewrite !elem_of_cons, !elem_of_nil. unfold two_tags. intros [-> | [-> |[]]] [-> | [-> |[]]]; done.
  - apply empty_heap_ok; [by exists 15%nat|lia].
  - done.
  - unfold ESP_LOG_LEVEL_LEN. lia.
  - unfold in_range, ESP_LOG_LEVEL_LEN. repeat (apply Forall_cons; split; [lia || done|]). constructor.
  - repeat (apply Forall_cons; split; [simpl; rewrite ?elem_of_cons; auto|]). constructor.
Defined.

(** ** The caches compare addresses *)

(** The same tag defined in two files: two string objects, at 1 and 2, with the same
    contents. *)
Definition same_tag (p : Z) : string := "wifi"%string.

(** with either cache, when a tag exists as two string objects and both were
    looked up, setting its level updates only one of the two cached entries, and
    queries through the other keep answering the old level, which is not what the
    map of levels says. *)
Theorem stale_level_after_set :
  let ops := [LogGet (Some 1); LogGet (Some 2); LogSet true (Some 2) 5; LogGet (Some 1); LogGet (Some 2)] in
  (∃ s', log_run same_tag ops (mkLog 3 3 [] (empty_heap 31)) = Done s' [3; 3; 5; 3]) ∧
  (∃ s', log_run same_tag ops (mkLog 3 3 [] (empty_array 31)) = Done s' [3; 3; 5; 3]) ∧
  spec_run same_tag (mkLevels 3 ∅) ops = [3; 3; 5; 5].
Proof.
  split; [|split]; [eexists; vm_compute; reflexivity|eexists; vm_compute; reflexivity|reflexivity].
Qed.

(** ** The built-in checks of the heap *)

(** What [tag_log_level.c] does with a cache: a query that misses adds the entry. *)
Inductive cache_op : Type :=
| CacheQuery (p level : Z)
| CacheSet (p level : Z)
| CacheClean.

Definition cache_step {C : Type} `{LogCache C} (str : Z → string) (op : cache_op) : M C unit :=
  match op with
  | CacheQuery p v =>
      hit ← esp_log_cache_get_level p;
      match hit with Some _ => mret () | None => esp_log_cache_add p v end
  | CacheSet p v => esp_log_cache_set_level str p v
  | CacheClean => esp_log_cache_clean
  end.

Fixpoint cache_run {C : Type} `{LogCache C} (str : Z → string) (ops : list cache_op) : M C unit :=
  match ops with [] => mret () | op :: ops' => cache_step str op;; cache_run str ops' end.

Definition op_level (op : cache_op) : Z :=
  match op with CacheQuery _ v | CacheSet _ v => v | CacheClean => 0 end.

Lemma cache_run_ok {C : Type} `{LogCacheLaws C} str ops c :
  cache_ok c → Forall (λ op, 0 ≤ op_level op < 2 ^ ESP_LOG_LEVEL_LEN) ops →
  wp (cache_run str ops) c (λ _ c', cache_ok c').
Proof.
  intros Hc Hl. revert c Hc. induction Hl as [|op ops Hop _ IH]; intros c Hc; simpl; wp_steps; [done|].
  assert (wp (cache_step str op) c (λ _ c', cache_ok c')) as Hstep.
  2: { eapply wp_mono; [exact Hstep|]. intros [] c'. apply IH. }
  destruct op as [p v|p v|]; simpl in *; wp_steps.
  - eapply wp_mono; [by apply cache_get_law|]. intros r c' (Hok & Hperm & Hr). destruct r; wp_steps; [done|].
    eapply wp_mono; [apply cache_add_law; [done|by rewrite Hperm|done]|]. by intros [] ? [? _].
  - eapply wp_mono; [by apply cache_set_law|]. by intros [] ? [? _].
  - eapply wp_mono; [by apply cache_clean_law|]. by intros [] ? [? _].
Qed.

(** the heap cache keeps its entries in min-heap order of their generations.
    For every odd size, whatever is looked up, updated and evicted, and however often
    the 29-bit generation counter overflows, no built-in check fails, no index leaves
    the array and every loop ends. *)
Theorem heap_cache_checks (str : Z → string) (n : nat) (ops : list cache_op) :
  Nat.Odd n → Z.of_nat n < 2 ^ 20 → Forall (λ op, 0 ≤ op_level op < 2 ^ ESP_LOG_LEVEL_LEN) ops →
  ∃ c', cache_run str ops (empty_heap n) = Done c' () ∧
    (HeapCache.s_log_cache_entry_count c' ≤ length (HeapCache.s_log_cache c'))%nat ∧
    (∀ i, (0 < i < HeapCache.s_log_cache_entry_count c')%nat →
       HeapCache.generation (HeapCache.s_log_cache c' !!! ((i - 1) / 2)%nat) <
       HeapCache.generation (HeapCache.s_log_cache c' !!! i)).
Proof.
  intros Hodd Hn Hops.
  pose proof (cache_run_ok str ops (empty_heap n) (empty_heap_ok n Hodd Hn) Hops) as H.
  apply wp_done in H as ([] & c' & E & [_ _ Hlen Hcnt _ _ _ _ Hord _]). exists c'. split; [done|]. split; [lia|].
  exact Hord.
Qed.

Lemma heap_cache_checks_witness :
  Nat.Odd 3 ∧
  ∃ c', cache_run two_tags
      [CacheQuery 1 3; CacheQuery 2 3; CacheQuery 3 1; CacheQuery 4 2; CacheQuery 2 3; CacheSet 1 5; CacheQuery 1 5]
      (empty_heap 3) = Done c' () ∧
    (HeapCache.s_log_cache_entry_count c' ≤ length (HeapCache.s_log_cache c'))%nat ∧
    (∀ i, (0 < i < HeapCache.s_log_cache_entry_count c')%nat →
       HeapCache.generation (HeapCache.s_log_cache c' !!! ((i - 1) / 2)%nat) <
       HeapCache.generation (HeapCache.s_log_cache c' !!! i)).
Proof.
  split; [by exists 1%nat|]. apply heap_cache_checks; [by exists 1%nat|lia|].
  unfold op_level, ESP_LOG_LEVEL_LEN. repeat (apply Forall_cons; split; [lia|]). constructor.
Defined.
