(* ===== verification/EspEvent.v ===== *)
(** * Event loops

    Model of [components/esp_event/esp_event.c] (without profiling, with posting from
    ISRs).  The handlers of a loop are a tree of lists: loop nodes, base nodes and id
    nodes, with handlers at each level.  Bases are addresses.  The heap is a supply of
    answers of [calloc] and the number of blocks in use.  A handler that runs may post
    events and mark handlers as unregistered; that effect is the parameter
    [run_handler], and the traversal of the tree goes over the handlers present when
    the event is taken from the queue, reading their marks as it reaches them. *)
From Stdlib Require Import ZArith Lia.
From stdpp Require Import base numbers option list.
From S2P Require Import Prelude.

Open Scope Z_scope.

Definition ESP_EVENT_ANY_ID : Z := -1.

(** The addresses of the two internal bases; [ESP_EVENT_ANY_BASE] is [NULL]. *)
Definition ESP_EVENT_ANY_BASE : Z := 0.
Definition esp_event_any_base : Z := 1.
Definition esp_event_handler_cleanup : Z := 2.

(** ** Data *)

(** A handler node with its context, whose address is [h_ctx]. *)
Record esp_event_handler_node_t : Type := mkHandler {
  h_ctx : Z; h_handler : Z; h_arg : Z; unregistered : bool
}.
Record esp_event_id_node_t : Type := mkIdNode { id_id : Z; id_handlers : list esp_event_handler_node_t }.
Record esp_event_base_node_t : Type := mkBaseNode {
  bn_base : Z; bn_handlers : list esp_event_handler_node_t; id_nodes : list esp_event_id_node_t
}.
Record esp_event_loop_node_t : Type := mkLoopNode {
  ln_handlers : list esp_event_handler_node_t; base_nodes : list esp_event_base_node_t
}.

(** The context named by a request to unregister: its address, and the handler it
    holds, which is what legacy requests compare. *)
Record handler_key : Type := mkKey { k_ctx : Z; k_handler : Z; k_legacy : bool }.

Record esp_event_remove_handler_context_t : Type := mkRemove {
  rm_base : Z; rm_id : Z; rm_key : handler_key
}.

(** The data of a post: none, a copy on the heap, a word stored in the post itself,
    or a heap copy of a removal request. *)
Inductive esp_event_post_data_t : Type :=
| NoData
| HeapData (bytes : list Z)
| InlineData (bytes : list Z)
| RemoveRequest (ctx : esp_event_remove_handler_context_t).

Record esp_event_post_instance_t : Type := mkPost {
  p_base : Z; p_id : Z; p_data : esp_event_post_data_t
}.

(** [executed] records the handler contexts run and the events they got. *)
Record esp_event_loop_instance_t : Type := mkLoop {
  loop_nodes : list esp_event_loop_node_t;
  queue : list esp_event_post_instance_t;
  queue_size : nat;
  task : option Z;
  running_task : option Z;
  supply : list bool;
  next_block : Z;
  blocks : Z;
  executed : list (Z * esp_event_post_instance_t)
}.

Definition set_nodes (l : list esp_event_loop_node_t) (s : esp_event_loop_instance_t) : esp_event_loop_instance_t :=
  mkLoop l (queue s) (queue_size s) (task s) (running_task s) (supply s) (next_block s) (blocks s) (executed s).
Definition set_queue (q : list esp_event_post_instance_t) (s : esp_event_loop_instance_t) : esp_event_loop_instance_t :=
  mkLoop (loop_nodes s) q (queue_size s) (task s) (running_task s) (supply s) (next_block s) (blocks s) (executed s).
Definition set_running (t : option Z) (s : esp_event_loop_instance_t) : esp_event_loop_instance_t :=
  mkLoop (loop_nodes s) (queue s) (queue_size s) (task s) t (supply s) (next_block s) (blocks s) (executed s).
Definition set_heap (sup : list bool) (nxt n : Z) (s : esp_event_loop_instance_t) : esp_event_loop_instance_t :=
  mkLoop (loop_nodes s) (queue s) (queue_size s) (task s) (running_task s) sup nxt n (executed s).
Definition log_executed (e : Z * esp_event_post_instance_t) (s : esp_event_loop_instance_t) : esp_event_loop_instance_t :=
  mkLoop (loop_nodes s) (queue s) (queue_size s) (task s) (running_task s) (supply s) (next_block s) (blocks s)
    (executed s ++ [e]).

Definition EV (A : Type) : Type := M esp_event_loop_instance_t A.

(** ** The heap *)

Definition calloc : EV (option Z) := λ s,
  match supply s with
  | true :: sup => Done (set_heap sup (next_block s + 16) (blocks s + 1) s) (Some (next_block s))
  | false :: sup => Done (set_heap sup (next_block s) (blocks s) s) None
  | [] => Done s None
  end.

(** Free [n] blocks. *)
Definition free_blocks (n : Z) : EV unit :=
  modify (λ s, set_heap (supply s) (next_block s) (blocks s - n) s).

(** ** Registration

    Each function gives back the list or node it changed. *)

(** Overwrite the argument of the first node with the same handler. *)
Fixpoint overwrite_arg (event_handler arg : Z) (l : list esp_event_handler_node_t) :
    option (list esp_event_handler_node_t) :=
  match l with
  | [] => None
  | it :: l' =>
      if h_handler it =? event_handler
      then Some (mkHandler (h_ctx it) (h_handler it) arg (unregistered it) :: l')
      else l'' ← overwrite_arg event_handler arg l'; Some (it :: l'')
  end.

(** The second component is what is written through [handler_ctx]. *)
Definition handler_instances_add (handlers : list esp_event_handler_node_t) (event_handler arg : Z) (legacy : bool) :
    EV (esp_err_t * option Z * list esp_event_handler_node_t) :=
  handler_instance ← calloc;
  match handler_instance with
  | None => mret (ESP_ERR_NO_MEM, None, handlers)
  | Some _ =>
      context ← calloc;
      match context with
      | None => free_blocks 1;; mret (ESP_ERR_NO_MEM, None, handlers)
      | Some ctx =>
          match (if legacy then overwrite_arg event_handler arg handlers else None) with
          | Some handlers' => free_blocks 2;; mret (ESP_OK, None, handlers')
          | None => mret (ESP_OK, Some ctx, handlers ++ [mkHandler ctx event_handler arg false])
          end
      end
  end.

(** The index of the last element that satisfies [f]. *)
Fixpoint find_last {A : Type} (f : A → bool) (l : list A) : option nat :=
  match l with
  | [] => None
  | x :: l' =>
      match find_last f l' with
      | Some i => Some (S i)
      | None => if f x then Some O else None
      end
  end.

Definition base_node_add_handler (base_node : esp_event_base_node_t) (id event_handler arg : Z) (legacy : bool) :
    EV (esp_err_t * option Z * esp_event_base_node_t) :=
  if id =? ESP_EVENT_ANY_ID then
    r ← handler_instances_add (bn_handlers base_node) event_handler arg legacy;
    let '(err, ctx, hs) := r in
    mret (err, ctx, mkBaseNode (bn_base base_node) hs (id_nodes base_node))
  else
    match find_last (λ it, id_id it =? id) (id_nodes base_node) with
    | None =>
        id_node ← calloc;
        match id_node with
        | None => mret (ESP_ERR_NO_MEM, None, base_node)
        | Some _ =>
            r ← handler_instances_add [] event_handler arg legacy;
            let '(err, ctx, hs) := r in
            if decide (err = ESP_OK) then
              mret (err, ctx, mkBaseNode (bn_base base_node) (bn_handlers base_node)
                                (id_nodes base_node ++ [mkIdNode id hs]))
            else free_blocks 1;; mret (err, ctx, base_node)
        end
    | Some i =>
        match id_nodes base_node !! i with
        | None => fault
        | Some it =>
            r ← handler_instances_add (id_handlers it) event_handler arg legacy;
            let '(err, ctx, hs) := r in
            mret (err, ctx, mkBaseNode (bn_base base_node) (bn_handlers base_node)
                              (<[i := mkIdNode (id_id it) hs]> (id_nodes base_node)))
        end
    end.

Definition is_nil {A : Type} (l : list A) : bool := match l with [] => true | _ => false end.

Definition loop_node_add_handler (loop_node : esp_event_loop_node_t) (base id event_handler arg : Z) (legacy : bool) :
    EV (esp_err_t * option Z * esp_event_loop_node_t) :=
  if (base =? esp_event_any_base) && (id =? ESP_EVENT_ANY_ID) then
    r ← handler_instances_add (ln_handlers loop_node) event_handler arg legacy;
    let '(err, ctx, hs) := r in
    mret (err, ctx, mkLoopNode hs (base_nodes loop_node))
  else
    let base_node := find_last (λ it, bn_base it =? base) (base_nodes loop_node) in
    let last_base_node := last (base_nodes loop_node) in
    let found := i ← base_node; base_nodes loop_node !! i in
    let fresh_needed :=
      match last_base_node, found with
      | None, _ | _, None => true
      | Some last, Some b =>
          (negb (is_nil (id_nodes b)) && (id =? ESP_EVENT_ANY_ID)) ||
          (negb (bn_base last =? base) && negb (is_nil (id_nodes last)) && (id =? ESP_EVENT_ANY_ID))
      end in
    if fresh_needed then
      base_node ← calloc;
      match base_node with
      | None => mret (ESP_ERR_NO_MEM, None, loop_node)
      | Some _ =>
          r ← base_node_add_handler (mkBaseNode base [] []) id event_handler arg legacy;
          let '(err, ctx, bn) := r in
          if decide (err = ESP_OK) then
            mret (err, ctx, mkLoopNode (ln_handlers loop_node) (base_nodes loop_node ++ [bn]))
          else free_blocks 1;; mret (err, ctx, loop_node)
      end
    else
      match base_node, found with
      | Some i, Some b =>
          r ← base_node_add_handler b id event_handler arg legacy;
          let '(err, ctx, bn) := r in
          mret (err, ctx, mkLoopNode (ln_handlers loop_node) (<[i := bn]> (base_nodes loop_node)))
      | _, _ => fault
      end.

(** The result is the error code and the context written through [handler_ctx_arg]. *)
Definition esp_event_handler_register_with_internal (event_base event_id event_handler arg : Z) (legacy : bool) :
    EV (esp_err_t * option Z) :=
  assertM (negb (event_handler =? 0));;
  if (event_base =? ESP_EVENT_ANY_BASE) && negb (event_id =? ESP_EVENT_ANY_ID)
  then mret (ESP_ERR_INVALID_ARG, None)
  else
    let event_base := if event_base =? ESP_EVENT_ANY_BASE then esp_event_any_base else event_base in
    s ← get;
    let is_loop_level_handler := (event_base =? esp_event_any_base) && (event_id =? ESP_EVENT_ANY_ID) in
    let last_loop_node := last (loop_nodes s) in
    if match last_loop_node with
       | None => true
       | Some ln => negb (is_nil (base_nodes ln)) && is_loop_level_handler
       end
    then
      loop_node ← calloc;
      match loop_node with
      | None => mret (ESP_ERR_NO_MEM, None)
      | Some _ =>
          r ← loop_node_add_handler (mkLoopNode [] []) event_base event_id event_handler arg legacy;
          let '(err, ctx, ln) := r in
          (if decide (err = ESP_OK) then modify (λ s, set_nodes (loop_nodes s ++ [ln]) s)
           else free_blocks 1);;
          mret (err, ctx)
      end
    else
      match last_loop_node with
      | None => fault
      | Some ln =>
          r ← loop_node_add_handler ln event_base event_id event_handler arg legacy;
          let '(err, ctx, ln') := r in
          modify (λ s, set_nodes (<[pred (length (loop_nodes s)) := ln']> (loop_nodes s)) s);;
          mret (err, ctx)
      end.

Definition esp_event_handler_register_with (event_base event_id event_handler arg : Z) : EV esp_err_t :=
  r ← esp_event_handler_register_with_internal event_base event_id event_handler arg true; mret (fst r).

Definition esp_event_handler_instance_register_with (event_base event_id event_handler arg : Z) :
    EV (esp_err_t * option Z) :=
  esp_event_handler_register_with_internal event_base event_id event_handler arg false.

(** ** Unregistration *)

Definition key_matches (k : handler_key) (it : esp_event_handler_node_t) : bool :=
  if k_legacy k then h_handler it =? k_handler k else h_ctx it =? k_ctx k.

(** [None] is [ESP_ERR_NOT_FOUND]; the number is how many blocks were freed. *)
Fixpoint handler_instances_remove (k : handler_key) (handlers : list esp_event_handler_node_t) :
    option (list esp_event_handler_node_t * Z) :=
  match handlers with
  | [] => None
  | it :: l => if key_matches k it then Some (l, 2)
               else '(l', n) ← handler_instances_remove k l; Some (it :: l', n)
  end.

Fixpoint remove_from_ids (id : Z) (k : handler_key) (l : list esp_event_id_node_t) :
    option (list esp_event_id_node_t * Z) :=
  match l with
  | [] => None
  | it :: l' =>
      match (if id_id it =? id then handler_instances_remove k (id_handlers it) else None) with
      | Some (hs, n) => if is_nil hs then Some (l', n + 1) else Some (mkIdNode (id_id it) hs :: l', n)
      | None => '(l'', n) ← remove_from_ids id k l'; Some (it :: l'', n)
      end
  end.

Definition base_node_remove_handler (base_node : esp_event_base_node_t) (id : Z) (k : handler_key) :
    option (esp_event_base_node_t * Z) :=
  if id =? ESP_EVENT_ANY_ID then
    '(hs, n) ← handler_instances_remove k (bn_handlers base_node);
    Some (mkBaseNode (bn_base base_node) hs (id_nodes base_node), n)
  else
    '(ids, n) ← remove_from_ids id k (id_nodes base_node);
    Some (mkBaseNode (bn_base base_node) (bn_handlers base_node) ids, n).

Fixpoint remove_from_bases (base id : Z) (k : handler_key) (l : list esp_event_base_node_t) :
    option (list esp_event_base_node_t * Z) :=
  match l with
  | [] => None
  | it :: l' =>
      match (if bn_base it =? base then base_node_remove_handler it id k else None) with
      | Some (bn, n) =>
          if is_nil (bn_handlers bn) && is_nil (id_nodes bn) then Some (l', n + 1) else Some (bn :: l', n)
      | None => '(l'', n) ← remove_from_bases base id k l'; Some (it :: l'', n)
      end
  end.

Definition loop_node_remove_handler (loop_node : esp_event_loop_node_t) (base id : Z) (k : handler_key) :
    option (esp_event_loop_node_t * Z) :=
  if (base =? esp_event_any_base) && (id =? ESP_EVENT_ANY_ID) then
    '(hs, n) ← handler_instances_remove k (ln_handlers loop_node);
    Some (mkLoopNode hs (base_nodes loop_node), n)
  else
    '(bases, n) ← remove_from_bases base id k (base_nodes loop_node);
    Some (mkLoopNode (ln_handlers loop_node) bases, n).

Fixpoint remove_from_loops (ctx : esp_event_remove_handler_context_t) (l : list esp_event_loop_node_t) :
    option (list esp_event_loop_node_t * Z) :=
  match l with
  | [] => None
  | it :: l' =>
      match loop_node_remove_handler it (rm_base ctx) (rm_id ctx) (rm_key ctx) with
      | Some (ln, n) =>
          if is_nil (base_nodes ln) && is_nil (ln_handlers ln) then Some (l', n + 1) else Some (ln :: l', n)
      | None => '(l'', n) ← remove_from_loops ctx l'; Some (it :: l'', n)
      end
  end.

Definition loop_remove_handler (ctx : esp_event_remove_handler_context_t) : EV esp_err_t :=
  s ← get;
  match remove_from_loops ctx (loop_nodes s) with
  | Some (l, n) => modify (set_nodes l);; free_blocks n;; mret ESP_OK
  | None => mret ESP_ERR_NOT_FOUND
  end.

(** How many blocks the removal of everything in a list or node frees. *)
Definition handler_instances_remove_all (handlers : list esp_event_handler_node_t) : Z := 2 * zlen handlers.

Fixpoint remove_all_ids (l : list esp_event_id_node_t) : Z :=
  match l with [] => 0 | it :: l' => handler_instances_remove_all (id_handlers it) + 1 + remove_all_ids l' end.

Definition base_node_remove_all_handler (base_node : esp_event_base_node_t) : Z :=
  handler_instances_remove_all (bn_handlers base_node) + remove_all_ids (id_nodes base_node).

Fixpoint remove_all_bases (l : list esp_event_base_node_t) : Z :=
  match l with [] => 0 | it :: l' => base_node_remove_all_handler it + 1 + remove_all_bases l' end.

Definition loop_node_remove_all_handler (loop_node : esp_event_loop_node_t) : Z :=
  handler_instances_remove_all (ln_handlers loop_node) + remove_all_bases (base_nodes loop_node).

Fixpoint remove_all_loops (l : list esp_event_loop_node_t) : Z :=
  match l with [] => 0 | it :: l' => loop_node_remove_all_handler it + 1 + remove_all_loops l' end.

(** ** Posting

    [wait] is what happens when the queue is full and the caller may wait: [None]
    when the time runs out, [Some others] with the effect of the other tasks until
    there is room.  [mutex_ok] is the answer of [xSemaphoreTakeRecursive]. *)

Definition xQueueSendToBack (post : esp_event_post_instance_t) (ticks_to_wait : Z)
    (wait : option (esp_event_loop_instance_t → esp_event_loop_instance_t)) : EV bool :=
  s ← get;
  if decide (length (queue s) < queue_size s)%nat then modify (λ s, set_queue (queue s ++ [post]) s);; mret true
  else if ticks_to_wait =? 0 then mret false
  else match wait with
       | None => mret false
       | Some others =>
           modify others;;
           s ← get;
           if decide (length (queue s) < queue_size s)%nat
           then modify (λ s, set_queue (queue s ++ [post]) s);; mret true else mret false
       end.

Definition post_instance_delete (post : esp_event_post_instance_t) : EV unit :=
  match p_data post with
  | HeapData _ | RemoveRequest _ => free_blocks 1
  | _ => mret ()
  end.

(** What the caller passes as data: nothing, bytes, or a removal request. *)
Definition needs_copy (d : esp_event_post_data_t) : bool :=
  match d with HeapData (_ :: _) | RemoveRequest _ => true | _ => false end.

Section calls.
Context (self : Z) (mutex_ok : bool) (wait : option (esp_event_loop_instance_t → esp_event_loop_instance_t)).

Definition esp_event_post_to (event_base event_id : Z) (event_data : esp_event_post_data_t) (ticks_to_wait : Z) :
    EV esp_err_t :=
  if (event_base =? ESP_EVENT_ANY_BASE) || (event_id =? ESP_EVENT_ANY_ID) then mret ESP_ERR_INVALID_ARG
  else
    copy ← (if needs_copy event_data then c ← calloc; mret (Some c) else mret None);
    match copy with
    | Some None => mret ESP_ERR_NO_MEM
    | _ =>
        let post := mkPost event_base event_id (match copy with Some _ => event_data | None => NoData end) in
        s ← get;
        result ←
          match task s with
          | None =>
              if mutex_ok then
                if decide (running_task s = Some self) then xQueueSendToBack post 0 wait
                else xQueueSendToBack post ticks_to_wait wait
              else mret false
          | Some t => if t =? self then xQueueSendToBack post 0 wait
                      else xQueueSendToBack post ticks_to_wait wait
          end;
        if negb result then post_instance_delete post;; mret ESP_ERR_TIMEOUT else mret ESP_OK
    end.

(** The data fits in a word. *)
Definition esp_event_isr_post_to (event_base event_id : Z) (event_data : option (list Z)) : EV esp_err_t :=
  if (event_base =? ESP_EVENT_ANY_BASE) || (event_id =? ESP_EVENT_ANY_ID) then mret ESP_ERR_INVALID_ARG
  else if 4 <? zlen (default [] event_data) then mret ESP_ERR_INVALID_ARG
  else
    let post := mkPost event_base event_id
      (match event_data with Some ((_ :: _) as bytes) => InlineData bytes | _ => NoData end) in
    result ← xQueueSendToBack post 0 None;
    if negb result then post_instance_delete post;; mret ESP_FAIL else mret ESP_OK.

(** *** Unregistration while the loop runs *)

(** The first handler of a list that matches, else what was found before. *)
Definition search_handlers (k : handler_key) (found : option Z) (l : list esp_event_handler_node_t) : option Z :=
  match list_find (λ it, key_matches k it = true) l with Some (_, it) => Some (h_ctx it) | None => found end.

Fixpoint search_ids (id : Z) (k : handler_key) (found : option Z) (l : list esp_event_id_node_t) : option Z :=
  match l with
  | [] => found
  | it :: l' =>
      search_ids id k (if id_id it =? id then search_handlers k found (id_handlers it) else found) l'
  end.

Fixpoint search_bases (base id : Z) (k : handler_key) (found : option Z) (l : list esp_event_base_node_t) : option Z :=
  match l with
  | [] => found
  | it :: l' =>
      if bn_base it =? base then
        match search_handlers k found (bn_handlers it) with
        | Some ctx => Some ctx
        | None => search_bases base id k (search_ids id k None (id_nodes it)) l'
        end
      else search_bases base id k found l'
  end.

Fixpoint search_loops (base id : Z) (k : handler_key) (found : option Z) (l : list esp_event_loop_node_t) : option Z :=
  match l with
  | [] => found
  | it :: l' =>
      match search_handlers k found (ln_handlers it) with
      | Some ctx => Some ctx
      | None => search_loops base id k (search_bases base id k None (base_nodes it)) l'
      end
  end.

(** All handlers of the tree. *)
Definition base_all (bn : esp_event_base_node_t) : list esp_event_handler_node_t :=
  bn_handlers bn ++ concat (id_handlers <$> id_nodes bn).
Definition loop_all (ln : esp_event_loop_node_t) : list esp_event_handler_node_t :=
  ln_handlers ln ++ concat (base_all <$> base_nodes ln).
Definition all_handlers (l : list esp_event_loop_node_t) : list esp_event_handler_node_t :=
  concat (loop_all <$> l).

Definition mark (ctx : Z) (it : esp_event_handler_node_t) : esp_event_handler_node_t :=
  if h_ctx it =? ctx then mkHandler (h_ctx it) (h_handler it) (h_arg it) true else it.
Definition mark_base (ctx : Z) (bn : esp_event_base_node_t) : esp_event_base_node_t :=
  mkBaseNode (bn_base bn) (mark ctx <$> bn_handlers bn)
    ((λ i, mkIdNode (id_id i) (mark ctx <$> id_handlers i)) <$> id_nodes bn).
Definition mark_loop (ctx : Z) (ln : esp_event_loop_node_t) : esp_event_loop_node_t :=
  mkLoopNode (mark ctx <$> ln_handlers ln) (mark_base ctx <$> base_nodes ln).

(** The [unregistered] flag of the node with context [ctx]. *)
Definition is_marked (ctx : Z) (s : esp_event_loop_instance_t) : bool :=
  match list_find (λ it, h_ctx it = ctx) (all_handlers (loop_nodes s)) with
  | Some (_, it) => unregistered it
  | None => false
  end.

Definition portMAX_DELAY : Z := 0xFFFFFFFF.

Definition find_and_unregister_handler (ctx : esp_event_remove_handler_context_t) : EV esp_err_t :=
  s ← get;
  match search_loops (rm_base ctx) (rm_id ctx) (rm_key ctx) None (loop_nodes s) with
  | None => mret ESP_ERR_NOT_FOUND
  | Some found =>
      if is_marked found s then mret ESP_OK
      else
        modify (λ s, set_nodes (mark_loop found <$> loop_nodes s) s);;
        k ← (if k_legacy (rm_key ctx) then
               copy ← calloc;
               mret (c ← copy; Some (mkKey c (k_handler (rm_key ctx)) true))
             else mret (Some (rm_key ctx)));
        match k with
        | None => mret ESP_ERR_NO_MEM
        | Some k =>
            esp_event_post_to esp_event_handler_cleanup 0
              (RemoveRequest (mkRemove (rm_base ctx) (rm_id ctx) k)) portMAX_DELAY
        end
  end.

(** [mutex_free] is the answer of [xSemaphoreTake(loop->mutex, 0)]. *)
Definition esp_event_handler_unregister_with_internal (event_base event_id : Z) (k : handler_key) (mutex_free : bool) :
    EV esp_err_t :=
  if (event_base =? ESP_EVENT_ANY_BASE) && negb (event_id =? ESP_EVENT_ANY_ID) then mret ESP_ERR_INVALID_ARG
  else
    let event_base := if event_base =? ESP_EVENT_ANY_BASE then esp_event_any_base else event_base in
    let ctx := mkRemove event_base event_id k in
    if mutex_free then loop_remove_handler ctx else find_and_unregister_handler ctx.

(** The context of the legacy call is a local variable; 8 stands for its address. *)
Definition esp_event_handler_unregister_with (event_base event_id event_handler : Z) (mutex_free : bool) : EV esp_err_t :=
  esp_event_handler_unregister_with_internal event_base event_id (mkKey 8 event_handler true) mutex_free.

Definition esp_event_handler_instance_unregister_with (event_base event_id : Z) (handler_ctx_arg : option Z)
    (mutex_free : bool) : EV esp_err_t :=
  match handler_ctx_arg with
  | None => mret ESP_ERR_INVALID_ARG
  | Some c => esp_event_handler_unregister_with_internal event_base event_id (mkKey c 0 false) mutex_free
  end.

(** ** Dispatch *)

Context (run_handler : Z → esp_event_post_instance_t → esp_event_loop_instance_t → esp_event_loop_instance_t).

Definition handler_execute (handler : esp_event_handler_node_t) (post : esp_event_post_instance_t) : EV unit :=
  modify (λ s, run_handler (h_ctx handler) post (log_executed (h_ctx handler, post) s)).

(** The handlers of an event, in the order of the traversal. *)
Definition id_matching (id : Z) (l : list esp_event_id_node_t) : list esp_event_handler_node_t :=
  match list_find (λ it, id_id it = id) l with Some (_, it) => id_handlers it | None => [] end.
Definition base_matching (base id : Z) (bn : esp_event_base_node_t) : list esp_event_handler_node_t :=
  if bn_base bn =? base then bn_handlers bn ++ id_matching id (id_nodes bn) else [].
Definition loop_matching (base id : Z) (ln : esp_event_loop_node_t) : list esp_event_handler_node_t :=
  ln_handlers ln ++ concat (base_matching base id <$> base_nodes ln).
Definition matching (base id : Z) (l : list esp_event_loop_node_t) : list esp_event_handler_node_t :=
  concat (loop_matching base id <$> l).

Fixpoint execute_all (post : esp_event_post_instance_t) (l : list esp_event_handler_node_t) : EV unit :=
  match l with
  | [] => mret ()
  | h :: l' =>
      s ← get;
      (if negb (is_marked (h_ctx h) s) then handler_execute h post else mret ());;
      execute_all post l'
  end.

(** What is done with one post. *)
Definition dispatch (post : esp_event_post_instance_t) : EV unit :=
  (if p_base post =? esp_event_handler_cleanup then
     match p_data post with
     | RemoveRequest ctx =>
         _ ← loop_remove_handler ctx;
         if k_legacy (rm_key ctx) then free_blocks 1 else mret ()
     | _ => λ _, AssertFailed
     end
   else mret ());;
  modify (set_running (Some self));;
  s ← get;
  execute_all post (matching (p_base post) (p_id post) (loop_nodes s));;
  post_instance_delete post.

(** [env] gives, for each turn of the loop, the effect of the other tasks while it
    waits for an event and the tick count after the event; [None] is a loop that is
    still running when [env] ends. *)
Fixpoint esp_event_loop_run (env : list ((esp_event_loop_instance_t → esp_event_loop_instance_t) * Z))
    (ticks_to_run remaining_ticks marker : Z) : EV (option esp_err_t) :=
  match env with
  | [] => mret None
  | (others, end_) :: env' =>
      s ← get;
      (if is_nil (queue s) then modify others else mret ());;
      s ← get;
      match queue s with
      | [] => if ticks_to_run =? portMAX_DELAY then mret None else mret (Some ESP_OK)
      | post :: q =>
          modify (set_queue q);;
          dispatch post;;
          let remaining_ticks' :=
            if ticks_to_run =? portMAX_DELAY then remaining_ticks else remaining_ticks - u32 (end_ - marker) in
          if negb (ticks_to_run =? portMAX_DELAY) && (remaining_ticks' <=? 0) then mret (Some ESP_OK)
          else
            modify (set_running None);;
            esp_event_loop_run env' ticks_to_run remaining_ticks' end_
      end
  end.

(** The data of the posts still in the queue. *)
Fixpoint drop_posts (q : list esp_event_post_instance_t) : EV unit :=
  match q with [] => mret () | post :: q' => post_instance_delete post;; drop_posts q' end.

(** The structure, its queue and its mutex are not counted in [blocks]. *)
Definition esp_event_loop_delete : EV esp_err_t :=
  s ← get;
  free_blocks (remove_all_loops (loop_nodes s));;
  modify (set_nodes []);;
  drop_posts (queue s);;
  modify (set_queue []);;
  mret ESP_OK.

End calls.

(** ** Creation: the answers of [calloc], [xQueueCreate], [xSemaphoreCreateRecursiveMutex]
    and, when a task is asked for, of [xTaskCreatePinnedToCore]. *)
Definition esp_event_loop_create (args event_loop : bool) (queue_size : nat) (alloc_ok queue_ok mutex_created : bool)
    (task_wanted : bool) (task_created : option Z) (sup : list bool) :
    esp_err_t * option esp_event_loop_instance_t :=
  if negb args then (ESP_ERR_INVALID_ARG, None)
  else if negb event_loop then (ESP_ERR_INVALID_ARG, None)
  else if negb alloc_ok then (ESP_ERR_NO_MEM, None)
  else if negb queue_ok then (ESP_ERR_NO_MEM, None)
  else if negb mutex_created then (ESP_ERR_NO_MEM, None)
  else
    match task_wanted, task_created with
    | true, None => (ESP_FAIL, None)
    | true, Some t => (ESP_OK, Some (mkLoop [] [] queue_size (Some t) None sup 4096 0 []))
    | false, _ => (ESP_OK, Some (mkLoop [] [] queue_size None None sup 4096 0 []))
    end.
