(* ===== verification/EspEventTree.v ===== *)
(** * The tree of handlers as a list of registrations

    [tree_regs] lists the handlers of a tree with the base and id they are registered
    for.  The traversal of an event runs those that match it; adding a handler puts it
    last among those that match any event it matches; removing one only takes it out. *)
From Stdlib Require Import ZArith Lia.
From stdpp Require Import base numbers option list.
From S2P Require Import Prelude EspEvent.

Open Scope Z_scope.

Abbreviation hnode := esp_event_handler_node_t.

(** A registration: base, id and node. *)
Record reg : Type := mkReg { rg_base : Z; rg_id : Z; rg_node : hnode }.

Definition regs_at (b i : Z) (l : list hnode) : list reg := mkReg b i <$> l.

Definition id_regs (b : Z) (it : esp_event_id_node_t) : list reg := regs_at b (id_id it) (id_handlers it).
Definition base_regs (bn : esp_event_base_node_t) : list reg :=
  regs_at (bn_base bn) ESP_EVENT_ANY_ID (bn_handlers bn) ++ concat (id_regs (bn_base bn) <$> id_nodes bn).
Definition loop_regs (ln : esp_event_loop_node_t) : list reg :=
  regs_at esp_event_any_base ESP_EVENT_ANY_ID (ln_handlers ln) ++ concat (base_regs <$> base_nodes ln).
Definition tree_regs (l : list esp_event_loop_node_t) : list reg := concat (loop_regs <$> l).

(** The events a registration is for. *)
Definition matches (b i : Z) (r : reg) : Prop :=
  rg_base r = esp_event_any_base ∧ rg_id r = ESP_EVENT_ANY_ID ∨
  rg_base r = b ∧ (rg_id r = ESP_EVENT_ANY_ID ∨ rg_id r = i).

#[export] Instance matches_dec b i r : Decision (matches b i r).
Proof. unfold matches. apply _. Defined.

(** Well-formed nodes: no internal base or id, no id twice. *)
Record base_wf (bn : esp_event_base_node_t) : Prop := {
  bw_base : bn_base bn ≠ esp_event_any_base;
  bw_ids : Forall (λ it, id_id it ≠ ESP_EVENT_ANY_ID) (id_nodes bn);
  bw_nodup : NoDup (id_id <$> id_nodes bn)
}.
Definition loop_wf (ln : esp_event_loop_node_t) : Prop := Forall base_wf (base_nodes ln).
Definition tree_wf (l : list esp_event_loop_node_t) : Prop := Forall loop_wf l.

(** ** Filtering *)

Lemma filter_regs_all b i b' i' l :
  matches b i (mkReg b' i' (mkHandler 0 0 0 false)) → filter (matches b i) (regs_at b' i' l) = regs_at b' i' l.
Proof. intros H. apply filter_all. apply Forall_fmap, Forall_forall. intros h _. exact H. Qed.

Lemma filter_regs_none b i b' i' l :
  ¬ matches b i (mkReg b' i' (mkHandler 0 0 0 false)) → filter (matches b i) (regs_at b' i' l) = [].
Proof. intros H. apply filter_none, Forall_fmap, Forall_forall. intros h _. exact H. Qed.

Lemma filter_concat {A B} (P : B → Prop) `{!∀ x, Decision (P x)} (f : A → list B) l :
  filter P (concat (f <$> l)) = concat ((λ x, filter P (f x)) <$> l).
Proof. induction l as [|x l IH]; simpl; [done|]. rewrite filter_app. f_equal. exact IH. Qed.

Lemma concat_fmap_cons {A B} (f : A → list B) x l : concat (f <$> x :: l) = f x ++ concat (f <$> l).
Proof. done. Qed.

Lemma concat_fmap_app {A B} (f : A → list B) l k : concat (f <$> l ++ k) = concat (f <$> l) ++ concat (f <$> k).
Proof. by rewrite fmap_app, concat_app. Qed.

Lemma concat_nil_all {A B} (f : A → list B) l : Forall (λ x, f x = []) l → concat (f <$> l) = [].
Proof. induction 1 as [|x l Hx _ IH]; simpl; [done|]. rewrite Hx. exact IH. Qed.

(** The registrations of a base node for an event of another base. *)
Lemma base_other b i bn : base_wf bn → bn_base bn ≠ b → filter (matches b i) (base_regs bn) = [].
Proof.
  intros [Hb _ _] Hne. unfold base_regs. rewrite filter_app, filter_concat.
  rewrite filter_regs_none by (unfold matches; simpl; tauto). apply concat_nil_all, Forall_forall. intros it _.
  apply filter_regs_none. unfold matches; simpl; tauto.
Qed.

Lemma ids_other b i l :
  b ≠ esp_event_any_base → Forall (λ it, id_id it ≠ ESP_EVENT_ANY_ID) l → Forall (λ it, id_id it ≠ i) l →
  concat ((λ it, filter (matches b i) (id_regs b it)) <$> l) = [].
Proof.
  intros Hb Hany Hne. apply concat_nil_all. rewrite Forall_forall in *. intros it Hit.
  apply filter_regs_none. unfold matches; simpl. specialize (Hany _ Hit). specialize (Hne _ Hit). simpl in *. tauto.
Qed.

(** The traversal of the id nodes stops at the only node with the id. *)
Lemma ids_matching b i l :
  b ≠ esp_event_any_base → Forall (λ it, id_id it ≠ ESP_EVENT_ANY_ID) l → NoDup (id_id <$> l) →
  concat ((λ it, filter (matches b i) (id_regs b it)) <$> l) = regs_at b i (id_matching i l).
Proof.
  intros Hb. induction l as [|it l IH]; intros Hany Hnd; [done|].
  rewrite Forall_cons in Hany. destruct Hany as [Hany1 Hany]. rewrite fmap_cons, NoDup_cons in Hnd.
  destruct Hnd as [Hnin Hnd]. unfold id_matching. rewrite concat_fmap_cons. cbn [list_find].
  case_decide as E.
  - rewrite ids_other; [|done|done|].
    + rewrite app_nil_r. unfold id_regs. rewrite E. simpl. apply filter_regs_all. unfold matches; simpl; tauto.
    + apply Forall_forall. intros x Hx Hxi. apply Hnin. rewrite E, <- Hxi. by apply list_elem_of_fmap_2.
  - rewrite IH by done. unfold id_matching. unfold id_regs.
    rewrite filter_regs_none by (unfold matches; simpl in *; tauto).
    destruct (list_find (λ it0, id_id it0 = i) l) as [[k x]|]; done.
Qed.

Lemma base_matching_regs b i bn :
  base_wf bn → filter (matches b i) (base_regs bn) = regs_at (bn_base bn) ESP_EVENT_ANY_ID [] ++
    (if bn_base bn =? b then regs_at b ESP_EVENT_ANY_ID (bn_handlers bn) ++ regs_at b i (id_matching i (id_nodes bn))
     else []).
Proof.
  intros Hwf. simpl. destruct (Z.eqb_spec (bn_base bn) b) as [E|E]; [|by apply base_other].
  destruct Hwf as [Hb Hany Hnd]. unfold base_regs. rewrite filter_app, filter_concat, E in *.
  rewrite filter_regs_all by (unfold matches; simpl; tauto). by rewrite ids_matching.
Qed.

Lemma node_regs_at b i l : rg_node <$> regs_at b i l = l.
Proof. unfold regs_at. rewrite <- list_fmap_compose. apply list_fmap_id. Qed.

Lemma fmap_concat {A B C} (g : B → C) (f : A → list B) l : g <$> concat (f <$> l) = concat ((λ x, g <$> f x) <$> l).
Proof. induction l as [|x l IH]; simpl; [done|]. rewrite fmap_app. f_equal. exact IH. Qed.

(** The traversal runs exactly the registrations that match. *)
Lemma matching_regs b i l :
  tree_wf l → matching b i l = rg_node <$> filter (matches b i) (tree_regs l).
Proof.
  intros Hwf. unfold matching, tree_regs. rewrite filter_concat, fmap_concat. f_equal.
  apply list_fmap_ext. intros k ln Hln. unfold tree_wf in Hwf. rewrite Forall_forall in Hwf.
  pose proof (Hwf ln (list_elem_of_lookup_2 _ _ _ Hln)) as Hl. unfold loop_wf in Hl. rewrite Forall_forall in Hl.
  unfold loop_matching, loop_regs. rewrite filter_app, filter_concat, fmap_app, fmap_concat.
  rewrite filter_regs_all by (unfold matches; simpl; tauto). rewrite node_regs_at. do 2 f_equal.
  apply list_fmap_ext. intros j bn Hbn. rewrite base_matching_regs by (by eapply Hl, list_elem_of_lookup_2).
  unfold base_matching. simpl. destruct (bn_base bn =? b); [|done]. by rewrite fmap_app, !node_regs_at.
Qed.

(** ** Adding *)

(** [r] was added last among the registrations of every event it matches. *)
Definition grows (l l' : list reg) (r : reg) : Prop :=
  l' ≡ₚ r :: l ∧ ∀ b i, filter (matches b i) l' = filter (matches b i) l ++ filter (matches b i) [r].

Lemma grows_snoc l r : grows l (l ++ [r]) r.
Proof. split; [by rewrite Permutation_app_comm|]. intros b i. by rewrite filter_app. Qed.

(** Adding in the middle, before registrations for other events. *)
Lemma grows_context p l l' q r :
  grows l l' r → (∀ b i, matches b i r → filter (matches b i) q = []) → grows (p ++ l ++ q) (p ++ l' ++ q) r.
Proof.
  intros [Hp Hf] Hq. split.
  - rewrite Hp. simpl. symmetry. apply Permutation_middle.
  - intros b i. rewrite !filter_app, Hf. destruct (decide (matches b i r)) as [Hm|Hm].
    + rewrite (Hq _ _ Hm), !app_nil_r. by rewrite app_assoc.
    + rewrite (filter_cons_False _ _ [] Hm), filter_nil, !app_nil_r. done.
Qed.

Lemma grows_before p l l' r : grows l l' r → grows (p ++ l) (p ++ l') r.
Proof.
  intros H. pose proof (grows_context p l l' [] r H) as H'. rewrite !app_nil_r in H'. by apply H'.
Qed.

(** Only the heap moved, by [n] blocks. *)
Record heap_moved (n : Z) (s s' : esp_event_loop_instance_t) : Prop := {
  hm_state : s' = set_heap (supply s') (next_block s') (blocks s + n) s;
  hm_next : next_block s ≤ next_block s'
}.

Lemma heap_moved_refl s : heap_moved 0 s s.
Proof. split; [|lia]. destruct s. unfold set_heap. simpl. f_equal. lia. Qed.

Lemma heap_moved_trans n m s1 s2 s3 : heap_moved n s1 s2 → heap_moved m s2 s3 → heap_moved (n + m) s1 s3.
Proof.
  intros [E1 L1] [E2 L2]. split; [|lia]. rewrite E2, E1. unfold set_heap. simpl. f_equal. lia.
Qed.

Lemma heap_moved_nodes n s s' : heap_moved n s s' → loop_nodes s' = loop_nodes s ∧ queue s' = queue s ∧
  blocks s' = blocks s + n.
Proof. intros [E _]. rewrite E. done. Qed.

Lemma wp_calloc s (Q : option Z → esp_event_loop_instance_t → Prop) :
  (∀ s', heap_moved 1 s s' → next_block s < next_block s' → Q (Some (next_block s)) s') →
  (∀ s', heap_moved 0 s s' → Q None s') → wp calloc s Q.
Proof.
  intros H1 H0. unfold wp, calloc. destruct (supply s) as [|[] sup] eqn:E.
  - apply H0, heap_moved_refl.
  - apply H1; [split; simpl; [done|lia]|simpl; lia].
  - apply H0. split; simpl; [|lia]. unfold set_heap. simpl. f_equal. lia.
Qed.

Lemma wp_free n s (Q : unit → esp_event_loop_instance_t → Prop) :
  (∀ s', heap_moved (- n) s s' → next_block s' = next_block s → Q () s') → wp (free_blocks n) s Q.
Proof. intros HQ. unfold free_blocks. wp_steps. apply HQ; [split; simpl; [done|lia]|done]. Qed.

(** A context allocated between two states. *)
Definition fresh_between (s s' : esp_event_loop_instance_t) (c : Z) : Prop := next_block s ≤ c < next_block s'.

Lemma handlers_add_ok hs h a s (Q : esp_err_t * option Z * list hnode → esp_event_loop_instance_t → Prop) :
  (∀ c s', fresh_between s s' c → heap_moved 2 s s' → Q (ESP_OK, Some c, hs ++ [mkHandler c h a false]) s') →
  (∀ s', heap_moved 0 s s' → Q (ESP_ERR_NO_MEM, None, hs) s') →
  wp (handler_instances_add hs h a false) s Q.
Proof.
  intros H1 H0. unfold handler_instances_add. wp_steps. apply wp_calloc; [|intros s' Hs; wp_steps; by apply H0].
  intros s1 M1 L1. wp_steps. apply wp_calloc.
  - intros s2 M2 L2. wp_steps. apply H1; [|exact (heap_moved_trans 1 1 _ _ _ M1 M2)].
    unfold fresh_between. destruct M1, M2. lia.
  - intros s2 M2. wp_steps. apply wp_free. intros s3 M3 _. wp_steps. apply H0.
    pose proof (heap_moved_trans _ _ _ _ _ (heap_moved_trans _ _ _ _ _ M1 M2) M3) as M. exact M.
Qed.

(** ** Searching from the end *)

Lemma find_last_some {A} (f : A → bool) l i :
  find_last f l = Some i →
  ∃ l1 x l2, l = l1 ++ x :: l2 ∧ length l1 = i ∧ f x = true ∧ Forall (λ y, f y = false) l2.
Proof.
  revert i. induction l as [|y l IH]; intros i; simpl; [done|].
  destruct (find_last f l) as [j|] eqn:E.
  - intros [= <-]. destruct (IH j eq_refl) as (l1 & x & l2 & -> & <- & Hx & Hl).
    by exists (y :: l1), x, l2.
  - destruct (f y) eqn:Ey; [|done]. intros [= <-]. exists [], y, l. split_and!; try done.
    clear IH. revert E. induction l as [|z l IH]; simpl; [done|]. destruct (find_last f l); [done|].
    destruct (f z) eqn:Ez; [done|]. intros _. constructor; [done|]. by apply IH.
Qed.

Lemma find_last_none {A} (f : A → bool) l : find_last f l = None → Forall (λ y, f y = false) l.
Proof.
  induction l as [|z l IH]; simpl; [done|]. destruct (find_last f l); [done|].
  destruct (f z) eqn:Ez; [done|]. intros _. constructor; [done|by apply IH].
Qed.

(** ** Adding to a base node *)

(** The result of an addition: the node [x'] has [r] in addition to what [x] had. *)
Record added {X} (wf : X → Prop) (regs : X → list reg) (cost : X → Z) (x x' : X) (r : reg) (n : Z) : Prop := {
  ad_wf : wf x';
  ad_grows : grows (regs x) (regs x') r;
  ad_cost : cost x' = cost x + n
}.

Lemma zlen_snoc {A} (l : list A) x : zlen (l ++ [x]) = zlen l + 1.
Proof. by rewrite zlen_app. Qed.

Lemma remove_all_ids_app l k : remove_all_ids (l ++ k) = remove_all_ids l + remove_all_ids k.
Proof. induction l as [|x l IH]; simpl; [done|]. rewrite IH. lia. Qed.

Lemma remove_all_bases_app l k : remove_all_bases (l ++ k) = remove_all_bases l + remove_all_bases k.
Proof. induction l as [|x l IH]; simpl; [done|]. rewrite IH. lia. Qed.

Lemma remove_all_loops_app l k : remove_all_loops (l ++ k) = remove_all_loops l + remove_all_loops k.
Proof. induction l as [|x l IH]; simpl; [done|]. rewrite IH. lia. Qed.

Lemma added_base_level bn h a c :
  base_wf bn → id_nodes bn = [] →
  added base_wf base_regs base_node_remove_all_handler bn
    (mkBaseNode (bn_base bn) (bn_handlers bn ++ [mkHandler c h a false]) (id_nodes bn))
    (mkReg (bn_base bn) ESP_EVENT_ANY_ID (mkHandler c h a false)) 2.
Proof.
  intros [] Hnil. split.
  - by split.
  - unfold base_regs, regs_at. simpl. rewrite Hnil. simpl. rewrite !app_nil_r, fmap_app. apply grows_snoc.
  - unfold base_node_remove_all_handler, handler_instances_remove_all. simpl. rewrite zlen_snoc. lia.
Qed.

Lemma added_new_id bn id h a c :
  base_wf bn → id ≠ ESP_EVENT_ANY_ID → Forall (λ it, (id_id it =? id) = false) (id_nodes bn) →
  added base_wf base_regs base_node_remove_all_handler bn
    (mkBaseNode (bn_base bn) (bn_handlers bn) (id_nodes bn ++ [mkIdNode id [mkHandler c h a false]]))
    (mkReg (bn_base bn) id (mkHandler c h a false)) 3.
Proof.
  intros [] Hid Hnone. split.
  - split; simpl; [done|apply Forall_app; split; [done|by constructor]|].
    rewrite fmap_app. simpl. rewrite Permutation_app_comm. constructor; [|done].
    intros (it & -> & Hit)%list_elem_of_fmap. rewrite Forall_forall in Hnone. specialize (Hnone _ Hit). lia.
  - unfold base_regs. simpl. rewrite concat_fmap_app, app_assoc. simpl. apply grows_snoc.
  - unfold base_node_remove_all_handler, handler_instances_remove_all. simpl. rewrite remove_all_ids_app. simpl.
    unfold handler_instances_remove_all. change (zlen [mkHandler c h a false]) with 1. lia.
Qed.

Lemma added_old_id bn l1 it l2 id h a c :
  base_wf bn → id_nodes bn = l1 ++ it :: l2 → id_id it = id →
  added base_wf base_regs base_node_remove_all_handler bn
    (mkBaseNode (bn_base bn) (bn_handlers bn)
       (l1 ++ mkIdNode id (id_handlers it ++ [mkHandler c h a false]) :: l2))
    (mkReg (bn_base bn) id (mkHandler c h a false)) 2.
Proof.
  intros [Hb Hids Hnd] El <-. rewrite El in Hids, Hnd. rewrite Forall_app, Forall_cons in Hids.
  destruct Hids as (Hi1 & Hi & Hi2). split.
  - split; simpl; [done|by apply Forall_app; split; [|constructor]|]. by rewrite fmap_app, fmap_cons in *.
  - unfold base_regs. simpl. rewrite El, !concat_fmap_app, !concat_fmap_cons.
    rewrite !(app_assoc (regs_at (bn_base bn) ESP_EVENT_ANY_ID (bn_handlers bn))). apply grows_context.
    + unfold id_regs, regs_at. simpl. rewrite fmap_app. apply grows_snoc.
    + intros b i Hm. rewrite filter_concat. unfold matches in Hm. simpl in Hm.
      destruct Hm as [[? _]|[<- [?|<-]]]; [done|done|].
      apply ids_other; [done|done|]. rewrite fmap_app, fmap_cons in Hnd. rewrite NoDup_app, NoDup_cons in Hnd.
      destruct Hnd as (_ & _ & Hnin & _). apply Forall_forall. intros x Hx E. apply Hnin.
      rewrite <- E. by apply list_elem_of_fmap_2.
  - unfold base_node_remove_all_handler. simpl. rewrite El, !remove_all_ids_app. simpl.
    unfold handler_instances_remove_all. rewrite zlen_snoc. lia.
Qed.

Lemma base_add_ok bn id h a s (Q : esp_err_t * option Z * esp_event_base_node_t → esp_event_loop_instance_t → Prop) :
  base_wf bn → (id = ESP_EVENT_ANY_ID → id_nodes bn = []) →
  (∀ c n bn' s', fresh_between s s' c → heap_moved n s s' → bn_base bn' = bn_base bn →
     added base_wf base_regs base_node_remove_all_handler bn bn' (mkReg (bn_base bn) id (mkHandler c h a false)) n →
     Q (ESP_OK, Some c, bn') s') →
  (∀ s', heap_moved 0 s s' → Q (ESP_ERR_NO_MEM, None, bn) s') →
  wp (base_node_add_handler bn id h a false) s Q.
Proof.
  intros Hwf Hany H1 H0. unfold base_node_add_handler.
  destruct (Z.eqb_spec id ESP_EVENT_ANY_ID) as [->|Hid].
  { wp_steps. apply handlers_add_ok.
    - intros c s' Hc Hs. wp_steps. eapply H1; [done|exact Hs|done|]. by apply added_base_level; [|apply Hany].
    - intros s' Hs. wp_steps. destruct bn. by apply H0. }
  destruct (find_last _ _) as [i|] eqn:E.
  - apply find_last_some in E as (l1 & it & l2 & El & <- & Hit & _). apply Z.eqb_eq in Hit.
    rewrite El, list_lookup_middle by done. wp_steps. apply handlers_add_ok.
    + intros c s' Hc Hs. wp_steps. rewrite insert_app_r_alt, Nat.sub_diag by lia. simpl. rewrite Hit.
      eapply H1; [done|exact Hs|done|]. by eapply added_old_id.
    + intros s' Hs. wp_steps. rewrite insert_app_r_alt, Nat.sub_diag by lia. simpl.
      destruct bn, it. simpl in *. subst. by apply H0.
  - apply find_last_none in E. wp_steps. apply wp_calloc; [|intros s' Hs; wp_steps; by apply H0].
    intros s1 M1 L1. wp_steps. apply handlers_add_ok.
    + intros c s' Hc Hs. wp_steps. rewrite decide_True by done. wp_steps.
      eapply H1; [|exact (heap_moved_trans 1 2 _ _ _ M1 Hs)|done|by apply added_new_id].
      unfold fresh_between in *. lia.
    + intros s' Hs. wp_steps. rewrite decide_False by done. wp_steps. apply wp_free. intros s2 M2 _. wp_steps.
      apply H0. exact (heap_moved_trans _ _ _ _ _ (heap_moved_trans _ _ _ _ _ M1 Hs) M2).
Qed.

(** ** Adding to a loop node *)

Abbreviation loop_added := (added loop_wf loop_regs loop_node_remove_all_handler).

Lemma loop_added_level ln h a c :
  loop_wf ln → base_nodes ln = [] →
  loop_added ln (mkLoopNode (ln_handlers ln ++ [mkHandler c h a false]) (base_nodes ln))
    (mkReg esp_event_any_base ESP_EVENT_ANY_ID (mkHandler c h a false)) 2.
Proof.
  intros Hwf Hnil. split; [done| |].
  - unfold loop_regs, regs_at. simpl. rewrite Hnil. simpl. rewrite !app_nil_r, fmap_app. apply grows_snoc.
  - unfold loop_node_remove_all_handler, handler_instances_remove_all. simpl. rewrite zlen_snoc. lia.
Qed.

Abbreviation base_added := (added base_wf base_regs base_node_remove_all_handler).

(** A base node with one more handler in its place, when no later node has its base. *)
Lemma loop_added_base ln l1 b b' l2 r n :
  loop_wf ln → base_nodes ln = l1 ++ b :: l2 → base_added b b' r n →
  rg_base r = bn_base b → Forall (λ y, (bn_base y =? bn_base b) = false) l2 →
  loop_added ln (mkLoopNode (ln_handlers ln) (l1 ++ b' :: l2)) r n.
Proof.
  unfold loop_wf. intros Hwf El [Hw Hg Hc] Hr Hl2. rewrite El, Forall_app, Forall_cons in Hwf.
  destruct Hwf as (Hw1 & Hb & Hw2). split.
  - unfold loop_wf. simpl. by rewrite Forall_app, Forall_cons.
  - unfold loop_regs. simpl. rewrite El, !concat_fmap_app, !concat_fmap_cons.
    rewrite !(app_assoc (regs_at esp_event_any_base ESP_EVENT_ANY_ID (ln_handlers ln))). apply grows_context; [done|].
    intros b0 i Hm. rewrite filter_concat. apply concat_nil_all. rewrite Forall_forall in *. intros y Hy.
    apply base_other; [by apply Hw2|]. specialize (Hl2 _ Hy). destruct Hb. unfold matches in Hm. rewrite Hr in Hm.
    destruct Hm as [[? _]|[<- _]]; [done|]. simpl in *. lia.
  - unfold loop_node_remove_all_handler. simpl. rewrite El, !remove_all_bases_app. simpl. lia.
Qed.

Lemma loop_added_new_base ln b' r n base :
  loop_wf ln → base_added (mkBaseNode base [] []) b' r n →
  loop_added ln (mkLoopNode (ln_handlers ln) (base_nodes ln ++ [b'])) r (n + 1).
Proof.
  intros Hwf [Hw Hg Hc]. split.
  - unfold loop_wf. simpl. rewrite Forall_app. split; [done|by constructor].
  - unfold loop_regs. simpl. rewrite concat_fmap_app. simpl. rewrite app_nil_r, !app_assoc.
    pose proof (grows_before (regs_at esp_event_any_base ESP_EVENT_ANY_ID (ln_handlers ln)
      ++ concat (base_regs <$> base_nodes ln)) _ _ _ Hg) as H. by rewrite app_nil_r in H.
  - unfold loop_node_remove_all_handler. simpl. rewrite remove_all_bases_app. simpl.
    change (base_node_remove_all_handler (mkBaseNode base [] [])) with 0 in Hc. lia.
Qed.

Lemma new_base_wf base : base ≠ esp_event_any_base → base_wf (mkBaseNode base [] []).
Proof. split; simpl; [done|constructor|constructor]. Qed.

Lemma is_nil_true {A} (l : list A) : is_nil l = true → l = [].
Proof. by destruct l. Qed.

Lemma loop_add_ok ln B id h a s (Q : esp_err_t * option Z * esp_event_loop_node_t → esp_event_loop_instance_t → Prop) :
  loop_wf ln → (B = esp_event_any_base → id = ESP_EVENT_ANY_ID ∧ base_nodes ln = []) →
  (∀ c n ln' s', fresh_between s s' c → heap_moved n s s' →
     loop_added ln ln' (mkReg B id (mkHandler c h a false)) n → Q (ESP_OK, Some c, ln') s') →
  (∀ s', heap_moved 0 s s' → Q (ESP_ERR_NO_MEM, None, ln) s') →
  wp (loop_node_add_handler ln B id h a false) s Q.
Proof.
  intros Hwf Hany H1 H0. unfold loop_node_add_handler.
  destruct (Z.eqb_spec B esp_event_any_base) as [->|HB].
  { destruct (Hany eq_refl) as [-> Hnil]. rewrite Z.eqb_refl. simpl. wp_steps. apply handlers_add_ok.
    - intros c s' Hc Hs. wp_steps. eapply H1; [done|exact Hs|by apply loop_added_level].
    - intros s' Hs. wp_steps. destruct ln. by apply H0. }
  simpl. destruct (match last (base_nodes ln) with Some _ => _ | None => _ end) eqn:Efresh.
  - wp_steps. apply wp_calloc; [|intros s' Hs; wp_steps; by apply H0]. intros s1 M1 L1. wp_steps.
    apply base_add_ok; [by apply new_base_wf|done| |].
    + intros c n bn' s' Hc Hs _ Hadd. wp_steps. rewrite decide_True by done. wp_steps.
      eapply H1; [|exact (heap_moved_trans _ _ _ _ _ M1 Hs)|rewrite Z.add_comm; by eapply loop_added_new_base].
      unfold fresh_between in *. lia.
    + intros s' Hs. wp_steps. rewrite decide_False by done. wp_steps. apply wp_free. intros s2 M2 _. wp_steps.
      apply H0. exact (heap_moved_trans _ _ _ _ _ (heap_moved_trans _ _ _ _ _ M1 Hs) M2).
  - destruct (last (base_nodes ln)) as [lb|]; [|done].
    destruct (find_last _ _) as [i|] eqn:E; [|done]. simpl in *.
    apply find_last_some in E as (l1 & b & l2 & El & <- & Hb & Hl2). apply Z.eqb_eq in Hb. subst B.
    rewrite El, list_lookup_middle in * by done. apply orb_false_iff in Efresh as [Enil _].
    assert (Hbwf : base_wf b).
    { unfold loop_wf in Hwf. rewrite El, Forall_app, Forall_cons in Hwf. tauto. }
    wp_steps. apply base_add_ok; [done| | |].
    + intros ->. rewrite Z.eqb_refl, andb_true_r, negb_false_iff in Enil. by apply is_nil_true.
    + intros c n bn' s' Hc Hs Hbase Hadd. wp_steps. rewrite insert_app_r_alt, Nat.sub_diag by lia. simpl.
      eapply H1; [done|exact Hs|by eapply loop_added_base].
    + intros s' Hs. wp_steps. rewrite insert_app_r_alt, Nat.sub_diag by lia. simpl.
      destruct ln. simpl in *. subst. by apply H0.
Qed.

(** ** Registration *)

(** The base under which a registration is stored. *)
Definition stored_base (b : Z) : Z := if b =? ESP_EVENT_ANY_BASE then esp_event_any_base else b.

(** Adding to the last loop node, or as a new loop node. *)
Lemma tree_added_last l0 ln ln' r n :
  tree_wf (l0 ++ [ln]) → loop_added ln ln' r n →
  added tree_wf tree_regs remove_all_loops (l0 ++ [ln]) (l0 ++ [ln']) r n.
Proof.
  unfold tree_wf. rewrite Forall_app. intros [Hw0 _] [Hw Hg Hc]. split.
  - unfold tree_wf. rewrite Forall_app. split; [done|by constructor].
  - unfold tree_regs. rewrite !concat_fmap_app. simpl. rewrite !app_nil_r. by apply grows_before.
  - rewrite !remove_all_loops_app. simpl. lia.
Qed.

Lemma tree_added_new l ln' r n :
  tree_wf l → loop_added (mkLoopNode [] []) ln' r n →
  added tree_wf tree_regs remove_all_loops l (l ++ [ln']) r (n + 1).
Proof.
  intros Hw0 [Hw Hg Hc]. split.
  - unfold tree_wf in *. rewrite Forall_app. split; [done|by constructor].
  - unfold tree_regs. rewrite !concat_fmap_app. simpl. rewrite !app_nil_r.
    pose proof (grows_before (concat (loop_regs <$> l)) _ _ _ Hg) as H. by rewrite app_nil_r in H.
  - rewrite remove_all_loops_app. simpl. change (loop_node_remove_all_handler (mkLoopNode [] [])) with 0 in Hc. lia.
Qed.

(** What a registration does to a loop: the tree gets the registration and the heap
    the blocks it is made of; on failure nothing changes but the supply of the heap. *)
Definition loop_registered (s s' : esp_event_loop_instance_t) (r : reg) : Prop :=
  ∃ l' n, s' = set_heap (supply s') (next_block s') (blocks s + n) (set_nodes l' s) ∧
    added tree_wf tree_regs remove_all_loops (loop_nodes s) l' r n ∧ fresh_between s s' (h_ctx (rg_node r)).

Lemma moved_nodes n s s' l :
  heap_moved n s s' → set_nodes l s' = set_heap (supply s') (next_block s') (blocks s + n) (set_nodes l s).
Proof. intros [E _]. rewrite E. done. Qed.

Lemma register_ok B id h a s (Q : esp_err_t * option Z → esp_event_loop_instance_t → Prop) :
  tree_wf (loop_nodes s) → h ≠ 0 → B ≠ esp_event_any_base → (B = ESP_EVENT_ANY_BASE → id = ESP_EVENT_ANY_ID) →
  (∀ c s', loop_registered s s' (mkReg (stored_base B) id (mkHandler c h a false)) → Q (ESP_OK, Some c) s') →
  (∀ s', heap_moved 0 s s' → Q (ESP_ERR_NO_MEM, None) s') →
  wp (esp_event_handler_instance_register_with B id h a) s Q.
Proof.
  intros Hwf Hh HB Hid H1 H0.
  unfold esp_event_handler_instance_register_with, esp_event_handler_register_with_internal.
  wp_steps. apply wp_assert; [by apply negb_true_iff, Z.eqb_neq|].
  replace ((B =? ESP_EVENT_ANY_BASE) && negb (id =? ESP_EVENT_ANY_ID)) with false.
  2:{ destruct (Z.eqb_spec B ESP_EVENT_ANY_BASE) as [E|]; [|done]. by rewrite (Hid E). }
  fold (stored_base B).
  assert (Hlvl : stored_base B = esp_event_any_base → id = ESP_EVENT_ANY_ID).
  { unfold stored_base. destruct (Z.eqb_spec B ESP_EVENT_ANY_BASE); [by auto|done]. }
  wp_steps. destruct (match last (loop_nodes s) with Some _ => _ | None => _ end) eqn:Enew.
  - wp_steps. apply wp_calloc; [|intros s' Hs; wp_steps; by apply H0]. intros s1 M1 L1. wp_steps.
    apply loop_add_ok; [constructor|auto| |].
    + intros c n ln' s' Hc Hs Hadd. wp_steps. rewrite decide_True by done. wp_steps. apply H1.
      pose proof (heap_moved_trans _ _ _ _ _ M1 Hs) as M.
      exists (loop_nodes s ++ [ln']), (1 + n). destruct (heap_moved_nodes _ _ _ M) as (-> & _). split; [|split].
      * exact (moved_nodes _ _ _ _ M).
      * rewrite Z.add_comm. by apply tree_added_new.
      * unfold fresh_between in *. simpl. lia.
    + intros s' Hs. wp_steps. rewrite decide_False by done. apply wp_free. intros s2 M2 _. wp_steps.
      apply H0. exact (heap_moved_trans _ _ _ _ _ (heap_moved_trans _ _ _ _ _ M1 Hs) M2).
  - destruct (last (loop_nodes s)) as [ln|] eqn:El; [|done].
    apply last_Some in El as [l0 El]. rewrite El in Hwf. pose proof Hwf as Hwf0.
    unfold tree_wf in Hwf0. rewrite Forall_app, Forall_singleton in Hwf0. destruct Hwf0 as [_ Hlw].
    assert (Hins : ∀ x, <[pred (length (l0 ++ [ln])) := x]> (l0 ++ [ln]) = l0 ++ [x]).
    { intros x. rewrite length_app. simpl. rewrite insert_app_r_alt by lia.
      replace (pred (length l0 + 1) - length l0)%nat with O by lia. done. }
    wp_steps. apply loop_add_ok; [done| | |].
    + intros E. split; [by auto|]. rewrite E, (Hlvl E) in Enew. simpl in Enew.
      rewrite andb_true_r, negb_false_iff in Enew. by apply is_nil_true.
    + intros c n ln' s' Hc Hs Hadd. wp_steps. destruct (heap_moved_nodes _ _ _ Hs) as (En & _).
      rewrite En, El, Hins. apply H1. exists (l0 ++ [ln']), n. split; [|split].
      * exact (moved_nodes _ _ _ _ Hs).
      * rewrite El. by apply tree_added_last.
      * unfold fresh_between in *. simpl. lia.
    + intros s' Hs. wp_steps. destruct (heap_moved_nodes _ _ _ Hs) as (En & _). rewrite En, El, Hins.
      apply H0. pose proof Hs as [Es Hn]. split; [|simpl; lia]. simpl. rewrite Es at 1. rewrite <- El. by destruct s.
Qed.

(** ** Removing *)

(** [l'] is [l] without the first element that satisfies [P]. *)
Definition taken {A} (P : A → Prop) (l l' : list A) : Prop :=
  ∃ p x q, l = p ++ x :: q ∧ l' = p ++ q ∧ P x ∧ Forall (λ y, ¬ P y) p.

Lemma taken_app_l {A} (P : A → Prop) l l' q : taken P l l' → taken P (l ++ q) (l' ++ q).
Proof.
  intros (p & x & q0 & -> & -> & Hx & Hp). exists p, x, (q0 ++ q). by rewrite <- !app_assoc.
Qed.

Lemma taken_app_r {A} (P : A → Prop) p l l' : Forall (λ y, ¬ P y) p → taken P l l' → taken P (p ++ l) (p ++ l').
Proof.
  intros Hf (p0 & x & q0 & -> & -> & Hx & Hp). exists (p ++ p0), x, q0. rewrite <- !app_assoc. split_and!; try done.
  by apply Forall_app.
Qed.

(** The registrations a request to remove is about. *)
Definition is_reg (B id : Z) (k : handler_key) (r : reg) : Prop :=
  rg_base r = B ∧ rg_id r = id ∧ key_matches k (rg_node r) = true.

#[export] Instance is_reg_dec B id k r : Decision (is_reg B id k r).
Proof. unfold is_reg. apply _. Defined.

(** The result of a removal: one registration less and its blocks freed, or there was
    none. *)
Definition removed {X} (wf : X → Prop) (regs : X → list reg) (cost : X → Z) (P : reg → Prop) (x : X)
    (res : option (X * Z)) : Prop :=
  match res with
  | Some (x', n) => taken P (regs x) (regs x') ∧ cost x' = cost x - n ∧ wf x'
  | None => Forall (λ r, ¬ P r) (regs x)
  end.

Lemma not_reg_at B id k b i l : (b ≠ B ∨ i ≠ id) → Forall (λ r, ¬ is_reg B id k r) (regs_at b i l).
Proof. intros H. apply Forall_fmap, Forall_forall. intros h _ (? & ? & _). simpl in *. tauto. Qed.

Lemma handlers_remove_ok B id k l :
  removed (λ _, True) (regs_at B id) handler_instances_remove_all (is_reg B id k) l (handler_instances_remove k l).
Proof.
  induction l as [|it l IH]; [constructor|]. cbn [handler_instances_remove].
  destruct (key_matches k it) eqn:E.
  - split; [|split; [|done]].
    + exists [], (mkReg B id it), (regs_at B id l). by split_and!.
    + unfold handler_instances_remove_all. rewrite zlen_cons. lia.
  - assert (Hn : ¬ is_reg B id k (mkReg B id it)) by (intros (_ & _ & H); simpl in H; congruence).
    destruct (handler_instances_remove k l) as [[l' n]|]; simpl in *.
    + destruct IH as (Ht & Hc & _). split; [|split; [|done]].
      * apply (taken_app_r _ [mkReg B id it]); [by constructor|done].
      * unfold handler_instances_remove_all in *. rewrite !zlen_cons. lia.
    + by constructor.
Qed.

Lemma regs_at_nil b i : regs_at b i [] = [].
Proof. done. Qed.

Abbreviation ids_wf := (λ l, Forall (λ it, id_id it ≠ ESP_EVENT_ANY_ID) l ∧ NoDup (id_id <$> l)).

(** Removal keeps or drops id nodes. *)
Lemma ids_remove_sub id k l l' n :
  remove_from_ids id k l = Some (l', n) → sublist (id_id <$> l') (id_id <$> l).
Proof.
  revert l' n. induction l as [|it l IH]; intros l' n; cbn [remove_from_ids]; [done|].
  destruct (if id_id it =? id then _ else None) as [[hs m]|].
  - destruct (is_nil hs); intros [= <- <-]; [by apply sublist_cons|done].
  - destruct (remove_from_ids id k l) as [[l0 m]|]; [|done]. simpl. intros [= <- <-].
    rewrite !fmap_cons. by apply sublist_skip, (IH l0 m).
Qed.

Lemma sublist_in {A} (l' l : list A) x : sublist l' l → x ∈ l' → x ∈ l.
Proof. induction 1 as [|y l1 l2 _ IH|y l1 l2 _ IH]; rewrite ?elem_of_cons; naive_solver. Qed.

Lemma sublist_nodup {A} (l' l : list A) : sublist l' l → NoDup l → NoDup l'.
Proof.
  induction 1 as [|y l1 l2 H IH|y l1 l2 H IH]; rewrite ?NoDup_cons; [done| |by intros [_ ?]; auto]. intros [Hn Hd]. split; [|by auto].
  intros Hx. by eapply Hn, sublist_in.
Qed.

Lemma ids_wf_sub l l' :
  sublist (id_id <$> l') (id_id <$> l) → ids_wf l → ids_wf l'.
Proof.
  intros Hs [Ha Hn]. split; [|by eapply sublist_nodup]. rewrite Forall_forall in *. intros it Hit.
  assert (id_id it ∈ id_id <$> l) as (it' & -> & ?)%list_elem_of_fmap; [|by apply Ha].
  eapply sublist_in; [exact Hs|by apply list_elem_of_fmap_2].
Qed.

Lemma ids_remove_ok B id k l :
  ids_wf l →
  removed ids_wf (λ l, concat (id_regs B <$> l)) remove_all_ids (is_reg B id k) l (remove_from_ids id k l).
Proof.
  intros Hwf. assert (Hsub : ∀ l' n, remove_from_ids id k l = Some (l', n) → ids_wf l').
  { intros l' n E. by eapply ids_wf_sub, Hwf; eapply ids_remove_sub. }
  assert (H : removed (λ _, True) (λ l, concat (id_regs B <$> l)) remove_all_ids (is_reg B id k) l (remove_from_ids id k l)).
  2:{ destruct (remove_from_ids id k l) as [[l' n]|]; [|done]. destruct H as (H1 & H2 & _).
      split; [done|split; [done|exact (Hsub _ _ eq_refl)]]. }
  clear Hsub Hwf. induction l as [|it l IH]; [constructor|]. cbn [remove_from_ids]. unfold removed.
  assert (Hskip : Forall (λ r, ¬ is_reg B id k r) (id_regs B it) →
    removed (λ _, True) (λ l, concat (id_regs B <$> l)) remove_all_ids (is_reg B id k) (it :: l)
      ('(l'', n) ← remove_from_ids id k l; Some (it :: l'', n))).
  { intros Hit. destruct (remove_from_ids id k l) as [[l' n]|]; simpl in *.
    - destruct IH as (Ht & Hc & _). split; [by apply taken_app_r|split; [lia|done]].
    - by apply Forall_app. }
  destruct (Z.eqb_spec (id_id it) id) as [E|E].
  - pose proof (handlers_remove_ok B id k (id_handlers it)) as Hh.
    destruct (handler_instances_remove k (id_handlers it)) as [[hs n]|].
    + destruct Hh as (Ht & Hc & _). destruct (is_nil hs) eqn:En.
      * apply is_nil_true in En as ->. split; [|split; [|done]].
        -- rewrite concat_fmap_cons. apply (taken_app_l _ _ []). unfold id_regs. by rewrite E.
        -- simpl. unfold handler_instances_remove_all in *. rewrite (@zlen_nil hnode) in Hc. lia.
      * split; [|split; [|done]].
        -- rewrite !concat_fmap_cons. apply taken_app_l. unfold id_regs. simpl. by rewrite E.
        -- simpl. lia.
    + apply Hskip. unfold id_regs. by rewrite E.
  - apply Hskip, not_reg_at. tauto.
Qed.

Lemma base_remove_ok B id k bn :
  base_wf bn → bn_base bn = B →
  removed (λ bn', base_wf bn' ∧ bn_base bn' = B) base_regs base_node_remove_all_handler (is_reg B id k) bn
    (base_node_remove_handler bn id k).
Proof.
  intros [Hb Hids Hnd] E. unfold base_node_remove_handler, base_regs. rewrite E.
  destruct (Z.eqb_spec id ESP_EVENT_ANY_ID) as [->|Hid].
  - pose proof (handlers_remove_ok B ESP_EVENT_ANY_ID k (bn_handlers bn)) as Hh.
    destruct (handler_instances_remove k (bn_handlers bn)) as [[hs n]|]; simpl in *.
    + destruct Hh as (Ht & Hc & _). rewrite E. split; [by apply taken_app_l|]. split; [|by split; subst; split].
      unfold base_node_remove_all_handler in *. simpl. lia.
    + rewrite E. apply Forall_app. split; [done|]. apply Forall_concat, Forall_fmap.
      eapply Forall_impl; [exact Hids|]. intros it Hit. apply not_reg_at. by right.
  - pose proof (ids_remove_ok B id k (id_nodes bn) (conj Hids Hnd)) as Hh.
    destruct (remove_from_ids id k (id_nodes bn)) as [[ids n]|]; simpl in *.
    + destruct Hh as (Ht & Hc & Hw1 & Hw2). rewrite E. split; [|split; [|by split; subst; split]].
      * apply taken_app_r; [|done]. apply not_reg_at. by right.
      * unfold base_node_remove_all_handler in *. simpl. lia.
    + rewrite E. apply Forall_app. split; [|done]. apply not_reg_at. by right.
Qed.

Lemma base_other_reg B id k bn : bn_base bn ≠ B → Forall (λ r, ¬ is_reg B id k r) (base_regs bn).
Proof.
  intros E. apply Forall_app. split; [by apply not_reg_at; left|]. apply Forall_concat, Forall_fmap, Forall_forall.
  intros it _. apply not_reg_at. by left.
Qed.

Lemma bases_remove_ok B id k l :
  Forall base_wf l →
  removed (Forall base_wf) (λ l, concat (base_regs <$> l)) remove_all_bases (is_reg B id k) l
    (remove_from_bases B id k l).
Proof.
  induction 1 as [|bn l Hbn Hl IH]; [constructor|]. cbn [remove_from_bases]. unfold removed.
  assert (Hskip : Forall (λ r, ¬ is_reg B id k r) (base_regs bn) →
    removed (Forall base_wf) (λ l, concat (base_regs <$> l)) remove_all_bases (is_reg B id k) (bn :: l)
      ('(l'', n) ← remove_from_bases B id k l; Some (bn :: l'', n))).
  { intros Hit. destruct (remove_from_bases B id k l) as [[l' n]|]; simpl in *.
    - destruct IH as (Ht & Hc & Hw). split; [by apply taken_app_r|split; [lia|by constructor]].
    - by apply Forall_app. }
  destruct (Z.eqb_spec (bn_base bn) B) as [E|E]; [|by apply Hskip, base_other_reg].
  pose proof (base_remove_ok B id k bn Hbn E) as Hh.
  destruct (base_node_remove_handler bn id k) as [[bn' n]|]; [|by apply Hskip].
  destruct Hh as (Ht & Hc & Hw & _). destruct (is_nil (bn_handlers bn') && is_nil (id_nodes bn')) eqn:En.
  - apply andb_true_iff in En as [E1%is_nil_true E2%is_nil_true]. destruct bn' as [b hs ids]. simpl in *. subst hs ids.
    split; [|split; [|done]].
    + exact (taken_app_l _ _ [] _ Ht).
    + unfold base_node_remove_all_handler, handler_instances_remove_all in *. simpl in *. rewrite (@zlen_nil hnode) in Hc. lia.
  - split; [|split; [|by constructor]].
    + rewrite !concat_fmap_cons. by apply taken_app_l.
    + simpl. lia.
Qed.

Lemma loop_remove_ok B id k ln :
  loop_wf ln →
  removed loop_wf loop_regs loop_node_remove_all_handler (is_reg B id k) ln (loop_node_remove_handler ln B id k).
Proof.
  intros Hwf. unfold loop_node_remove_handler, loop_regs.
  destruct ((B =? esp_event_any_base) && (id =? ESP_EVENT_ANY_ID)) eqn:E.
  - apply andb_true_iff in E as [->%Z.eqb_eq ->%Z.eqb_eq].
    pose proof (handlers_remove_ok esp_event_any_base ESP_EVENT_ANY_ID k (ln_handlers ln)) as Hh.
    destruct (handler_instances_remove k (ln_handlers ln)) as [[hs n]|]; simpl in *.
    + destruct Hh as (Ht & Hc & _). split; [by apply taken_app_l|]. split; [|done].
      unfold loop_node_remove_all_handler in *. simpl. lia.
    + apply Forall_app. split; [done|]. apply Forall_concat, Forall_fmap. eapply Forall_impl; [exact Hwf|].
      intros bn []. by apply base_other_reg.
  - pose proof (bases_remove_ok B id k (base_nodes ln) Hwf) as Hh.
    assert (Hlvl : Forall (λ r, ¬ is_reg B id k r) (regs_at esp_event_any_base ESP_EVENT_ANY_ID (ln_handlers ln))).
    { apply not_reg_at. apply andb_false_iff in E as [?%Z.eqb_neq|?%Z.eqb_neq]; auto. }
    destruct (remove_from_bases B id k (base_nodes ln)) as [[bs n]|]; simpl in *.
    + destruct Hh as (Ht & Hc & Hw). split; [by apply taken_app_r|split; [|done]].
      unfold loop_node_remove_all_handler in *. simpl. lia.
    + by apply Forall_app.
Qed.

Lemma tree_remove_ok ctx l :
  tree_wf l →
  removed tree_wf tree_regs remove_all_loops (is_reg (rm_base ctx) (rm_id ctx) (rm_key ctx)) l
    (remove_from_loops ctx l).
Proof.
  unfold tree_regs. induction 1 as [|ln l Hln Hl IH]; [constructor|]. cbn [remove_from_loops]. unfold removed.
  pose proof (loop_remove_ok (rm_base ctx) (rm_id ctx) (rm_key ctx) ln Hln) as Hh.
  destruct (loop_node_remove_handler ln _ _ _) as [[ln' n]|].
  - destruct Hh as (Ht & Hc & Hw). destruct (is_nil (base_nodes ln') && is_nil (ln_handlers ln')) eqn:En.
    + apply andb_true_iff in En as [E1%is_nil_true E2%is_nil_true]. destruct ln' as [hs bs]. simpl in *. subst hs bs.
      split; [|split; [|done]].
      * exact (taken_app_l _ _ [] _ Ht).
      * unfold loop_node_remove_all_handler, handler_instances_remove_all in *. simpl in *. rewrite (@zlen_nil hnode) in Hc. lia.
    + split; [|split; [|by constructor]].
      * rewrite !concat_fmap_cons. by apply taken_app_l.
      * simpl. lia.
  - destruct (remove_from_loops ctx l) as [[l' n]|]; simpl in *.
    + destruct IH as (Ht & Hc & Hw). split; [by apply taken_app_r|split; [lia|by constructor]].
    + by apply Forall_app.
Qed.
