(* ===== verification/EspEventSpec.v ===== *)
(** * What an event loop promises

    The abstract loop is the list of its registrations in the order they were made,
    the queue of events and the record of the handlers run.  [esp_event.c] implements
    it: handlers of an event run in the order of registration, a handler that is
    unregistered no longer runs, and every heap block belongs to a registration or to
    a queued event. *)
From Stdlib Require Import ZArith Lia.
From stdpp Require Import base numbers option list.
From S2P Require Import Prelude EspEvent EspEventTree.

Open Scope Z_scope.

Abbreviation post_t := esp_event_post_instance_t.
Abbreviation ctx_of := (λ r : reg, h_ctx (rg_node r)).

(** ** Calls

    What tasks and handlers ask of a loop.  [Busy] calls are possible while the loop
    runs, handlers included: the mutex of the loop is then taken. *)
Inductive busy_op : Type :=
| Post (base id : Z) (bytes : list Z)
| IsrPost (base id : Z) (bytes : list Z)
| UnregisterRunning (base id ctx : Z).

Inductive op : Type :=
| Busy (o : busy_op)
| Register (base id handler arg : Z)
| Unregister (base id ctx : Z)
| RunOne.

(** The internal bases are static variables of [esp_event.c]. *)
Definition user_base (b : Z) : Prop := b ≠ esp_event_any_base ∧ b ≠ esp_event_handler_cleanup.
Definition user_busy (o : busy_op) : Prop :=
  match o with Post b _ _ | IsrPost b _ _ | UnregisterRunning b _ _ => user_base b end.
Definition user_op (o : op) : Prop :=
  match o with
  | Busy o => user_busy o
  | Register b _ h _ => user_base b ∧ h ≠ 0
  | Unregister b _ _ => user_base b
  | RunOne => True
  end.

(** [self] is the task that runs the loop and its handlers; [script] says what the
    handler with a context does with an event; [capacity] is the size of the queue. *)
Section loop.
Context (self : Z) (script : Z → post_t → list busy_op) (capacity : nat).

(** A call that would wait for room in the queue is answered as if the time had run
    out; it can be repeated. *)
Definition do_busy (o : busy_op) : EV esp_err_t :=
  match o with
  | Post b i bytes => esp_event_post_to self true None b i (HeapData bytes) portMAX_DELAY
  | IsrPost b i bytes => esp_event_isr_post_to b i (Some bytes)
  | UnregisterRunning b i c => esp_event_handler_instance_unregister_with self true None b i (Some c) false
  end.

Fixpoint do_script (l : list busy_op) (s : esp_event_loop_instance_t) : esp_event_loop_instance_t :=
  match l with
  | [] => s
  | o :: l' => match do_busy o s with Done s' _ => do_script l' s' | _ => s end
  end.

Definition run_handler (c : Z) (post : post_t) (s : esp_event_loop_instance_t) : esp_event_loop_instance_t :=
  do_script (script c post) s.

(** The answer of a call: its error code and, for a registration, the context. *)
Definition do_op (o : op) : EV (esp_err_t * option Z) :=
  match o with
  | Busy o => e ← do_busy o; mret (e, None)
  | Register b i h a => esp_event_handler_instance_register_with b i h a
  | Unregister b i c => e ← esp_event_handler_instance_unregister_with self true None b i (Some c) true; mret (e, None)
  | RunOne => r ← esp_event_loop_run self run_handler [(λ s, s, 0)] portMAX_DELAY 0 0; mret (default ESP_OK r, None)
  end.

Fixpoint do_ops (l : list op) : EV (list (esp_err_t * option Z)) :=
  match l with
  | [] => mret []
  | o :: l' => r ← do_op o; rs ← do_ops l'; mret (r :: rs)
  end.

(** ** The loop as it is coded

    The rules describe every step of the code, also those that the documentation
    excludes; the documented loop follows below. *)

Record loop_spec : Type := mkSpec { regs : list reg; pending : list post_t; ran : list (Z * post_t) }.

Definition mark_reg (c : Z) (r : reg) : reg := mkReg (rg_base r) (rg_id r) (mark c (rg_node r)).
Definition marked (c : Z) (l : list reg) : Prop := Exists (λ r, ctx_of r = c ∧ unregistered (rg_node r) = true) l.

Definition instance_key (c : Z) : handler_key := mkKey c 0 false.
Definition cleanup_post (b i c : Z) : post_t :=
  mkPost esp_event_handler_cleanup 0 (RemoveRequest (mkRemove (stored_base b) i (instance_key c))).

Definition add_post (p : post_t) (A : loop_spec) : loop_spec := mkSpec (regs A) (pending A ++ [p]) (ran A).

(** A post enters the queue, or there is no memory or no room and nothing changes. *)
Inductive enqueue (p : post_t) (A : loop_spec) : esp_err_t → loop_spec → Prop :=
| enqueue_ok : (length (pending A) < capacity)%nat → enqueue p A ESP_OK (add_post p A)
| enqueue_full e : (capacity ≤ length (pending A))%nat → e ∈ [ESP_ERR_TIMEOUT; ESP_FAIL] → enqueue p A e A
| enqueue_no_mem : enqueue p A ESP_ERR_NO_MEM A.

Definition any_event (b i : Z) : Prop := b = ESP_EVENT_ANY_BASE ∨ i = ESP_EVENT_ANY_ID.

Inductive spec_busy (A : loop_spec) : busy_op → esp_err_t → loop_spec → Prop :=
| spec_post b i bytes e A' :
    ¬ any_event b i → enqueue (mkPost b i (match bytes with [] => NoData | _ => HeapData bytes end)) A e A' →
    spec_busy A (Post b i bytes) e A'
| spec_post_any b i bytes : any_event b i → spec_busy A (Post b i bytes) ESP_ERR_INVALID_ARG A
| spec_isr b i bytes e A' :
    ¬ any_event b i → zlen bytes ≤ 4 →
    enqueue (mkPost b i (match bytes with [] => NoData | _ => InlineData bytes end)) A e A' →
    spec_busy A (IsrPost b i bytes) e A'
| spec_isr_bad b i bytes :
    any_event b i ∨ 4 < zlen bytes → spec_busy A (IsrPost b i bytes) ESP_ERR_INVALID_ARG A
| spec_unreg b i c e A' :
    (b = ESP_EVENT_ANY_BASE → i = ESP_EVENT_ANY_ID) → ¬ marked c (regs A) →
    Exists (λ r, matches (stored_base b) i r ∧ ctx_of r = c) (regs A) →
    enqueue (cleanup_post b i c) (mkSpec (mark_reg c <$> regs A) (pending A) (ran A)) e A' →
    spec_busy A (UnregisterRunning b i c) e A'
| spec_unreg_again b i c :
    (b = ESP_EVENT_ANY_BASE → i = ESP_EVENT_ANY_ID) → marked c (regs A) →
    Exists (λ r, matches (stored_base b) i r ∧ ctx_of r = c) (regs A) →
    spec_busy A (UnregisterRunning b i c) ESP_OK A
| spec_unreg_none b i c :
    (b = ESP_EVENT_ANY_BASE → i = ESP_EVENT_ANY_ID) →
    Forall (λ r, ¬ (matches (stored_base b) i r ∧ ctx_of r = c)) (regs A) →
    spec_busy A (UnregisterRunning b i c) ESP_ERR_NOT_FOUND A
| spec_unreg_bad b i c :
    b = ESP_EVENT_ANY_BASE → i ≠ ESP_EVENT_ANY_ID → spec_busy A (UnregisterRunning b i c) ESP_ERR_INVALID_ARG A.

Inductive spec_script : list busy_op → loop_spec → loop_spec → Prop :=
| script_nil A : spec_script [] A A
| script_cons o l e A A1 A' : spec_busy A o e A1 → spec_script l A1 A' → spec_script (o :: l) A A'.

(** The handlers of an event run in order, except those marked when their turn comes. *)
Inductive spec_run (p : post_t) : list reg → loop_spec → loop_spec → Prop :=
| run_nil A : spec_run p [] A A
| run_skip r l A A' : marked (ctx_of r) (regs A) → spec_run p l A A' → spec_run p (r :: l) A A'
| run_one r l A A1 A' :
    ¬ marked (ctx_of r) (regs A) →
    spec_script (script (ctx_of r) p) (mkSpec (regs A) (pending A) (ran A ++ [(ctx_of r, p)])) A1 →
    spec_run p l A1 A' → spec_run p (r :: l) A A'.

Definition without (b i c : Z) (l : list reg) : list reg := filter (λ r, ¬ is_reg b i (instance_key c) r) l.

(** The registrations left when a post is taken from the queue. *)
Definition clean (p : post_t) (l : list reg) : list reg :=
  match p_data p with
  | RemoveRequest r => without (rm_base r) (rm_id r) (k_ctx (rm_key r)) l
  | _ => l
  end.

Inductive spec_op (A : loop_spec) : op → esp_err_t * option Z → loop_spec → Prop :=
| spec_of_busy o e A' : spec_busy A o e A' → spec_op A (Busy o) (e, None) A'
| spec_reg b i h a c :
    (b = ESP_EVENT_ANY_BASE → i = ESP_EVENT_ANY_ID) → c ∉ (ctx_of <$> regs A) →
    spec_op A (Register b i h a) (ESP_OK, Some c)
      (mkSpec (regs A ++ [mkReg (stored_base b) i (mkHandler c h a false)]) (pending A) (ran A))
| spec_reg_fails b i h a :
    (b = ESP_EVENT_ANY_BASE → i = ESP_EVENT_ANY_ID) → spec_op A (Register b i h a) (ESP_ERR_NO_MEM, None) A
| spec_reg_bad b i h a :
    b = ESP_EVENT_ANY_BASE → i ≠ ESP_EVENT_ANY_ID → spec_op A (Register b i h a) (ESP_ERR_INVALID_ARG, None) A
| spec_unregister b i c :
    (b = ESP_EVENT_ANY_BASE → i = ESP_EVENT_ANY_ID) →
    Exists (is_reg (stored_base b) i (instance_key c)) (regs A) →
    spec_op A (Unregister b i c) (ESP_OK, None) (mkSpec (without (stored_base b) i c (regs A)) (pending A) (ran A))
| spec_unregister_none b i c :
    (b = ESP_EVENT_ANY_BASE → i = ESP_EVENT_ANY_ID) →
    Forall (λ r, ¬ is_reg (stored_base b) i (instance_key c) r) (regs A) →
    spec_op A (Unregister b i c) (ESP_ERR_NOT_FOUND, None) A
| spec_unregister_bad b i c :
    b = ESP_EVENT_ANY_BASE → i ≠ ESP_EVENT_ANY_ID → spec_op A (Unregister b i c) (ESP_ERR_INVALID_ARG, None) A
| spec_idle : pending A = [] → spec_op A RunOne (ESP_OK, None) A
| spec_event p q A' :
    pending A = p :: q →
    spec_run p (filter (matches (p_base p) (p_id p)) (clean p (regs A))) (mkSpec (clean p (regs A)) q (ran A)) A' →
    spec_op A RunOne (ESP_OK, None) A'.

Inductive spec_ops : list op → list (esp_err_t * option Z) → loop_spec → loop_spec → Prop :=
| ops_nil A : spec_ops [] [] A A
| ops_cons o l r rs A A1 A' : spec_op A o r A1 → spec_ops l rs A1 A' → spec_ops (o :: l) (r :: rs) A A'.

(** ** The loop as it is documented

    [esp_event.h] asks that an instance is unregistered with the arguments it was
    registered with.  No state, [None], stands for what is not promised: after an
    unregistration with other arguments from a running handler, or after one whose request
    could not be queued. *)

Definition registered (b i c : Z) (A : loop_spec) : Prop := Exists (is_reg (stored_base b) i (instance_key c)) (regs A).
(** The instance is registered, with other arguments. *)
Definition misused (b i c : Z) (A : loop_spec) : Prop := ¬ registered b i c A ∧ c ∈ (ctx_of <$> regs A).

Inductive doc_busy (A : loop_spec) : busy_op → esp_err_t → option loop_spec → Prop :=
| doc_post b i bytes e A' :
    ¬ any_event b i → enqueue (mkPost b i (match bytes with [] => NoData | _ => HeapData bytes end)) A e A' →
    doc_busy A (Post b i bytes) e (Some A')
| doc_post_any b i bytes : any_event b i → doc_busy A (Post b i bytes) ESP_ERR_INVALID_ARG (Some A)
| doc_isr b i bytes e A' :
    ¬ any_event b i → zlen bytes ≤ 4 →
    enqueue (mkPost b i (match bytes with [] => NoData | _ => InlineData bytes end)) A e A' →
    doc_busy A (IsrPost b i bytes) e (Some A')
| doc_isr_bad b i bytes : any_event b i ∨ 4 < zlen bytes → doc_busy A (IsrPost b i bytes) ESP_ERR_INVALID_ARG (Some A)
| doc_unreg b i c A' :
    registered b i c A → ¬ marked c (regs A) →
    enqueue (cleanup_post b i c) (mkSpec (mark_reg c <$> regs A) (pending A) (ran A)) ESP_OK A' →
    doc_busy A (UnregisterRunning b i c) ESP_OK (Some A')
| doc_unreg_again b i c : registered b i c A → marked c (regs A) → doc_busy A (UnregisterRunning b i c) ESP_OK (Some A)
| doc_unreg_none b i c :
    (b = ESP_EVENT_ANY_BASE → i = ESP_EVENT_ANY_ID) → c ∉ (ctx_of <$> regs A) →
    doc_busy A (UnregisterRunning b i c) ESP_ERR_NOT_FOUND (Some A)
| doc_unreg_bad b i c :
    b = ESP_EVENT_ANY_BASE → i ≠ ESP_EVENT_ANY_ID → doc_busy A (UnregisterRunning b i c) ESP_ERR_INVALID_ARG (Some A)
| doc_unreg_refused b i c e :
    registered b i c A → ¬ marked c (regs A) → e = ESP_ERR_NO_MEM ∨ (capacity ≤ length (pending A))%nat →
    doc_busy A (UnregisterRunning b i c) e None
| doc_unreg_misused b i c e : misused b i c A → doc_busy A (UnregisterRunning b i c) e None.

Inductive doc_script : list busy_op → option loop_spec → option loop_spec → Prop :=
| doc_script_nil A : doc_script [] A A
| doc_script_cons o l e A A1 A' : doc_busy A o e A1 → doc_script l A1 A' → doc_script (o :: l) (Some A) A'
| doc_script_lost l : doc_script l None None.

(** The handlers of an event run in order, except those unregistered when their turn
    comes. *)
Inductive doc_run (p : post_t) : list reg → option loop_spec → option loop_spec → Prop :=
| doc_run_nil A : doc_run p [] A A
| doc_run_skip r l A A' : marked (ctx_of r) (regs A) → doc_run p l (Some A) A' → doc_run p (r :: l) (Some A) A'
| doc_run_one r l A A1 A' :
    ¬ marked (ctx_of r) (regs A) →
    doc_script (script (ctx_of r) p) (Some (mkSpec (regs A) (pending A) (ran A ++ [(ctx_of r, p)]))) A1 →
    doc_run p l A1 A' → doc_run p (r :: l) (Some A) A'
| doc_run_lost l : doc_run p l None None.

Inductive doc_op (A : loop_spec) : op → esp_err_t * option Z → option loop_spec → Prop :=
| doc_of_busy o e A' : doc_busy A o e A' → doc_op A (Busy o) (e, None) A'
| doc_reg b i h a c :
    (b = ESP_EVENT_ANY_BASE → i = ESP_EVENT_ANY_ID) → c ∉ (ctx_of <$> regs A) →
    doc_op A (Register b i h a) (ESP_OK, Some c)
      (Some (mkSpec (regs A ++ [mkReg (stored_base b) i (mkHandler c h a false)]) (pending A) (ran A)))
| doc_reg_fails b i h a :
    (b = ESP_EVENT_ANY_BASE → i = ESP_EVENT_ANY_ID) → doc_op A (Register b i h a) (ESP_ERR_NO_MEM, None) (Some A)
| doc_reg_bad b i h a :
    b = ESP_EVENT_ANY_BASE → i ≠ ESP_EVENT_ANY_ID → doc_op A (Register b i h a) (ESP_ERR_INVALID_ARG, None) (Some A)
| doc_unregister b i c :
    registered b i c A →
    doc_op A (Unregister b i c) (ESP_OK, None) (Some (mkSpec (without (stored_base b) i c (regs A)) (pending A) (ran A)))
| doc_unregister_none b i c :
    (b = ESP_EVENT_ANY_BASE → i = ESP_EVENT_ANY_ID) → ¬ registered b i c A → doc_op A (Unregister b i c) (ESP_ERR_NOT_FOUND, None) (Some A)
| doc_unregister_bad b i c :
    b = ESP_EVENT_ANY_BASE → i ≠ ESP_EVENT_ANY_ID → doc_op A (Unregister b i c) (ESP_ERR_INVALID_ARG, None) (Some A)
| doc_idle : pending A = [] → doc_op A RunOne (ESP_OK, None) (Some A)
| doc_event p q A' :
    pending A = p :: q →
    doc_run p (filter (matches (p_base p) (p_id p)) (clean p (regs A))) (Some (mkSpec (clean p (regs A)) q (ran A))) A' →
    doc_op A RunOne (ESP_OK, None) A'.

Inductive doc_ops : list op → list (esp_err_t * option Z) → option loop_spec → option loop_spec → Prop :=
| doc_ops_nil A : doc_ops [] [] A A
| doc_ops_cons o l r rs A A1 A' : doc_op A o r A1 → doc_ops l rs A1 A' → doc_ops (o :: l) (r :: rs) (Some A) A'
| doc_ops_lost l rs : length rs = length l → doc_ops l rs None None.

(** ** A step of the code is documented, or leaves what is promised *)

Definition maybe (A : loop_spec) (oA : option loop_spec) : Prop := oA = Some A ∨ oA = None.

Lemma is_reg_matches B i c r : is_reg B i (instance_key c) r → matches B i r ∧ ctx_of r = c.
Proof.
  intros (<- & <- & Hk). unfold key_matches in Hk. cbn in Hk. apply Z.eqb_eq in Hk. split; [|done]. unfold matches. tauto.
Qed.

(** An instance that is found by a search is registered or misused. *)
Lemma found_registered b i c A :
  Exists (λ r, matches (stored_base b) i r ∧ ctx_of r = c) (regs A) → registered b i c A ∨ misused b i c A.
Proof.
  intros H. destruct (decide (registered b i c A)) as [|Hn]; [by left|right]. split; [done|].
  apply Exists_exists in H as (r & Hr & _ & <-). by apply (list_elem_of_fmap_2 ctx_of).
Qed.

Lemma busy_documented A o e A' : spec_busy A o e A' → ∃ oA, doc_busy A o e oA ∧ maybe A' oA.
Proof.
  intros [b i bytes e' A1 Ha Hq|b i bytes Ha|b i bytes e' A1 Ha Hl Hq|b i bytes Ha|b i c e' A1 Hb Hm Hf Hq|b i c Hb Hm Hf|b i c Hb Hf|b i c Hb Hi].
  1-4: by eexists; split; [constructor|left].
  - destruct (found_registered _ _ _ _ Hf) as [Hreg|Hmis]; [|by exists None; split; [apply doc_unreg_misused|right]].
    inversion Hq as [Hroom|e'' Hfull|]; subst.
    + eexists. split; [|by left]. by apply doc_unreg.
    + exists None. split; [|by right]. apply doc_unreg_refused; [done|done|by right].
    + exists None. split; [|by right]. apply doc_unreg_refused; [done|done|by left].
  - destruct (found_registered _ _ _ _ Hf) as [Hreg|Hmis]; [by eexists; split; [apply doc_unreg_again|left]|].
    by exists None; split; [apply doc_unreg_misused|right].
  - destruct (decide (c ∈ (ctx_of <$> regs A))) as [Hin|Hin]; [|by eexists; split; [apply doc_unreg_none|left]].
    exists None. split; [|by right]. apply doc_unreg_misused. split; [|done]. intros (r & Hr & Hreg)%Exists_exists.
    rewrite Forall_forall in Hf. apply (Hf r Hr). by apply is_reg_matches.
  - eexists. split; [by apply doc_unreg_bad|by left].
Qed.

Lemma script_documented l A A' : spec_script l A A' → ∃ oA, doc_script l (Some A) oA ∧ maybe A' oA.
Proof.
  induction 1 as [A|o l e A A1 A' Hb _ (oA & Hd & Hm)]; [by eexists; split; [constructor|left]|].
  destruct (busy_documented _ _ _ _ Hb) as (oB & Hdb & [->| ->]).
  - exists oA. split; [by econstructor|done].
  - exists None. split; [by eapply doc_script_cons; [|apply doc_script_lost]|by right].
Qed.

Lemma run_documented p l A A' : spec_run p l A A' → ∃ oA, doc_run p l (Some A) oA ∧ maybe A' oA.
Proof.
  induction 1 as [A|r l A A' Hr _ (oA & Hd & Hm)|r l A A1 A' Hr Hs _ (oA & Hd & Hm)]; [by eexists; split; [constructor|left]| |].
  - exists oA. split; [by apply doc_run_skip|done].
  - destruct (script_documented _ _ _ Hs) as (oB & Hds & [->| ->]).
    + exists oA. split; [by eapply doc_run_one|done].
    + exists None. split; [by eapply doc_run_one; [|exact Hds|apply doc_run_lost]|by right].
Qed.

Lemma op_documented A o r A' : spec_op A o r A' → ∃ oA, doc_op A o r oA ∧ maybe A' oA.
Proof.
  intros [o' e A1 Hb|b i h a c Hi Hc|b i h a Hi|b i h a Hb Hi|b i c Hi He|b i c Hi Hf|b i c Hb Hi|He|p q A1 He Hr].
  - destruct (busy_documented _ _ _ _ Hb) as (oA & Hd & Hm). exists oA. by split; [constructor|].
  - eexists. split; [by apply doc_reg|by left].
  - eexists. split; [by apply doc_reg_fails|by left].
  - eexists. split; [by apply doc_reg_bad|by left].
  - eexists. split; [by apply doc_unregister|by left].
  - eexists. split; [apply doc_unregister_none; [done|]|by left]. by apply Forall_Exists_neg in Hf.
  - eexists. split; [by apply doc_unregister_bad|by left].
  - eexists. split; [by apply doc_idle|by left].
  - destruct (run_documented _ _ _ _ Hr) as (oA & Hd & Hm). exists oA. split; [by eapply doc_event|done].
Qed.

Lemma spec_ops_length l rs A A' : spec_ops l rs A A' → length rs = length l.
Proof. induction 1; cbn; lia. Qed.

Lemma ops_documented l rs A A' : spec_ops l rs A A' → ∃ oA, doc_ops l rs (Some A) oA ∧ maybe A' oA.
Proof.
  induction 1 as [A|o l r rs A A1 A' Ho Hl (oA & Hd & Hm)]; [by eexists; split; [constructor|left]|].
  destruct (op_documented _ _ _ _ Ho) as (oB & Hdo & [->| ->]).
  - exists oA. split; [by econstructor|done].
  - exists None. split; [|by right]. eapply doc_ops_cons; [exact Hdo|]. apply doc_ops_lost. by eapply spec_ops_length.
Qed.

End loop.
