(* ===== verification/EspEventRefine.v ===== *)
(** * The event loop refines its abstract specification

    [repr] relates the tree, the queue and the heap of a loop to the abstract loop;
    each call keeps it. *)
From Stdlib Require Import ZArith Lia.
From stdpp Require Import base numbers option list.
From S2P Require Import Prelude EspEvent EspEventTree EspEventSpec.

Open Scope Z_scope.

(** The blocks that hold the data of queued events. *)
Definition post_cost (p : post_t) : Z := match p_data p with HeapData _ | RemoveRequest _ => 1 | _ => 0 end.
Fixpoint queue_cost (q : list post_t) : Z := match q with [] => 0 | p :: q' => post_cost p + queue_cost q' end.

Lemma queue_cost_snoc q p : queue_cost (q ++ [p]) = queue_cost q + post_cost p.
Proof. induction q as [|x q IH]; simpl; lia. Qed.

(** Posts to the cleanup base are removal requests by instance, and only they are. *)
Definition good_post (p : post_t) : Prop :=
  match p_data p with
  | RemoveRequest r => p_base p = esp_event_handler_cleanup ∧ ∃ c, rm_key r = instance_key c
  | _ => p_base p ≠ esp_event_handler_cleanup
  end.

(** [extra] counts the blocks of the event in hand. *)
Record repr (capacity : nat) (extra : Z) (s : esp_event_loop_instance_t) (A : loop_spec) : Prop := {
  rp_wf : tree_wf (loop_nodes s);
  rp_perm : tree_regs (loop_nodes s) ≡ₚ regs A;
  rp_order : ∀ b i, filter (matches b i) (tree_regs (loop_nodes s)) = filter (matches b i) (regs A);
  rp_nodup : NoDup (ctx_of <$> regs A);
  rp_fresh : Forall (λ r, ctx_of r < next_block s) (regs A);
  rp_blocks : blocks s = remove_all_loops (loop_nodes s) + queue_cost (queue s) + extra;
  rp_size : queue_size s = capacity;
  rp_queue : queue s = pending A;
  rp_posts : Forall good_post (pending A);
  rp_ran : executed s = ran A
}.

Section refine.
Context (self : Z) (script : Z → post_t → list busy_op) (capacity : nat).
Implicit Types (s : esp_event_loop_instance_t) (A : loop_spec).

Abbreviation repr := (repr capacity).

(** ** The heap and the queue *)

Lemma repr_heap x n s s' A : repr x s A → heap_moved n s s' → repr (x + n) s' A.
Proof.
  intros [] [E Hn]. rewrite E. split; try done; simpl.
  - eapply Forall_impl; [exact rp_fresh0|]. simpl. intros. lia.
  - rewrite rp_blocks0. lia.
Qed.

Lemma repr_eq x y s A : repr x s A → x = y → repr y s A.
Proof. by intros ? <-. Qed.

Lemma repr_enqueue x s A p :
  repr (x + post_cost p) s A → good_post p → repr x (set_queue (queue s ++ [p]) s) (add_post p A).
Proof.
  intros [] Hp. split; try done; simpl.
  - rewrite queue_cost_snoc. lia.
  - by rewrite rp_queue0.
  - apply Forall_app. split; [done|by constructor].
Qed.

(** Sending without waiting for room. *)
Lemma send_ok x s A p t :
  repr (x + post_cost p) s A → good_post p →
  wp (xQueueSendToBack p t None) s (λ b s',
    if b then (length (pending A) < capacity)%nat ∧ repr x s' (add_post p A)
    else (capacity ≤ length (pending A))%nat ∧ repr (x + post_cost p) s' A).
Proof.
  intros HR Hp. pose proof (rp_queue _ _ _ _ HR) as Eq. pose proof (rp_size _ _ _ _ HR) as Es.
  unfold xQueueSendToBack. wp_steps. rewrite Eq, Es. case_decide.
  - wp_steps. split; [done|]. by apply repr_enqueue.
  - assert (capacity ≤ length (pending A))%nat by lia. destruct (t =? 0); by wp_steps.
Qed.

Lemma delete_ok x s A p : repr (x + post_cost p) s A → wp (post_instance_delete p) s (λ _ s', repr x s' A).
Proof.
  intros HR. unfold post_instance_delete. destruct (p_data p) eqn:E; try (wp_steps; eapply repr_eq; [exact HR|];
    unfold post_cost; rewrite E; lia).
  all: apply wp_free; intros s' M _; eapply repr_eq; [by eapply repr_heap|]; unfold post_cost; rewrite E; lia.
Qed.

Abbreviation enqueue := (enqueue capacity).

(** A post of data that fits its kind. *)
Lemma post_to_ok x s A b i d t :
  repr x s A → ¬ any_event b i →
  let p := mkPost b i (if needs_copy d then d else NoData) in
  post_cost p = (if needs_copy d then 1 else 0) → good_post p →
  wp (esp_event_post_to self true None b i d t) s (λ e s', ∃ A', enqueue p A e A' ∧ repr x s' A').
Proof.
  intros HR Hany p Hc Hp. unfold esp_event_post_to.
  replace ((b =? ESP_EVENT_ANY_BASE) || (i =? ESP_EVENT_ANY_ID)) with false.
  2:{ symmetry. apply orb_false_iff. unfold any_event in Hany. split; apply Z.eqb_neq; tauto. }
  assert (Hsend : ∀ s1, repr (x + post_cost p) s1 A →
    wp (match task s1 with
        | Some t0 => if t0 =? self then xQueueSendToBack p 0 None else xQueueSendToBack p t None
        | None => if decide (running_task s1 = Some self) then xQueueSendToBack p 0 None
                  else xQueueSendToBack p t None
        end) s1 (λ result s2,
          wp (if negb result then post_instance_delete p;; mret ESP_ERR_TIMEOUT else mret ESP_OK) s2
            (λ e s', ∃ A', enqueue p A e A' ∧ repr x s' A'))).
  { intros s1 H1. eapply wp_mono with (Q := λ (b : bool) s',
      if b then (length (pending A) < capacity)%nat ∧ repr x s' (add_post p A)
      else (capacity ≤ length (pending A))%nat ∧ repr (x + post_cost p) s' A).
    - destruct (task s1) as [t0|]; [destruct (t0 =? self)|case_decide]; exact (send_ok x s1 A p _ H1 Hp).
    - intros [] s2 [Hlen H2]; simpl; wp_steps.
      + exists (add_post p A). split; [by constructor|done].
      + eapply wp_mono; [by apply delete_ok|]. intros u s3 H3. wp_steps. exists A. split; [|done].
        apply enqueue_full; [done|]. by left. }
  destruct (needs_copy d) eqn:En.
  - wp_steps. apply wp_calloc.
    + intros s1 M1 _. wp_steps. apply Hsend. rewrite Hc. by eapply repr_heap.
    + intros s1 M1. wp_steps. exists A. split; [apply enqueue_no_mem|]. eapply repr_eq; [by eapply repr_heap|]. lia.
  - wp_steps. apply Hsend. eapply repr_eq; [exact HR|]. lia.
Qed.

(** ** Marks *)

Lemma mark_ctx c h : h_ctx (mark c h) = h_ctx h.
Proof. unfold mark. by destruct (h_ctx h =? c). Qed.

Lemma mark_regs_at c b i l : regs_at b i (mark c <$> l) = mark_reg c <$> regs_at b i l.
Proof. unfold regs_at. rewrite <- !list_fmap_compose. by apply list_fmap_ext. Qed.

Lemma mark_base_regs c bn : base_regs (mark_base c bn) = mark_reg c <$> base_regs bn.
Proof.
  unfold base_regs. simpl. rewrite fmap_app, mark_regs_at, fmap_concat, <- list_fmap_compose. do 2 f_equal.
  apply list_fmap_ext. intros j it _. unfold id_regs. simpl. apply mark_regs_at.
Qed.

Lemma mark_tree_regs c l : tree_regs (mark_loop c <$> l) = mark_reg c <$> tree_regs l.
Proof.
  unfold tree_regs. rewrite fmap_concat, <- list_fmap_compose. f_equal. apply list_fmap_ext. intros j ln _.
  unfold compose, loop_regs. simpl. rewrite fmap_app, mark_regs_at, fmap_concat, <- list_fmap_compose. do 2 f_equal.
  apply list_fmap_ext. intros j' bn _. apply mark_base_regs.
Qed.

Lemma mark_tree_wf c l : tree_wf l → tree_wf (mark_loop c <$> l).
Proof.
  intros H. apply Forall_fmap. eapply Forall_impl; [exact H|]. intros ln Hln. apply Forall_fmap.
  eapply Forall_impl; [exact Hln|]. intros bn []. split; simpl; [done|by apply Forall_fmap|].
  by rewrite <- list_fmap_compose.
Qed.

Lemma mark_ids_cost c l :
  remove_all_ids ((λ i, mkIdNode (id_id i) (mark c <$> id_handlers i)) <$> l) = remove_all_ids l.
Proof.
  induction l as [|it l IH]; [done|]. rewrite fmap_cons. cbn [remove_all_ids id_handlers]. rewrite IH.
  unfold handler_instances_remove_all, zlen. by rewrite length_fmap.
Qed.

Lemma mark_bases_cost c l : remove_all_bases (mark_base c <$> l) = remove_all_bases l.
Proof.
  induction l as [|bn l IH]; [done|]. rewrite fmap_cons. cbn [remove_all_bases]. rewrite IH.
  unfold base_node_remove_all_handler, mark_base, handler_instances_remove_all, zlen. simpl.
  by rewrite mark_ids_cost, length_fmap.
Qed.

Lemma mark_tree_cost c l : remove_all_loops (mark_loop c <$> l) = remove_all_loops l.
Proof.
  induction l as [|ln l IH]; [done|]. rewrite fmap_cons. cbn [remove_all_loops]. rewrite IH.
  unfold loop_node_remove_all_handler, mark_loop, handler_instances_remove_all, zlen. simpl.
  by rewrite mark_bases_cost, length_fmap.
Qed.

Lemma mark_filter c b i (l : list reg) : filter (matches b i) (mark_reg c <$> l) = mark_reg c <$> filter (matches b i) l.
Proof.
  induction l as [|r l IH]; [done|]. rewrite fmap_cons. destruct (decide (matches b i r)) as [H|H].
  - rewrite !filter_cons_True by done. by rewrite fmap_cons, IH.
  - rewrite !filter_cons_False by done. done.
Qed.

Lemma mark_ctxs c (l : list reg) : ctx_of <$> (mark_reg c <$> l) = ctx_of <$> l.
Proof. rewrite <- list_fmap_compose. apply list_fmap_ext. intros j r _. apply mark_ctx. Qed.

Lemma repr_mark x s A c :
  repr x s A → repr x (set_nodes (mark_loop c <$> loop_nodes s) s) (mkSpec (mark_reg c <$> regs A) (pending A) (ran A)).
Proof.
  intros []. split; try done; simpl.
  - by apply mark_tree_wf.
  - rewrite mark_tree_regs. by apply fmap_Permutation.
  - intros b i. by rewrite mark_tree_regs, !mark_filter, rp_order0.
  - by rewrite mark_ctxs.
  - apply Forall_fmap. eapply Forall_impl; [exact rp_fresh0|]. intros r Hr. simpl. by rewrite mark_ctx.
  - by rewrite mark_tree_cost.
Qed.

(** ** Reading marks *)

Lemma all_handlers_regs l : all_handlers l = rg_node <$> tree_regs l.
Proof.
  unfold all_handlers, tree_regs. rewrite fmap_concat. f_equal. apply list_fmap_ext. intros j ln _.
  unfold loop_all, loop_regs. rewrite fmap_app, node_regs_at, fmap_concat. do 2 f_equal.
  apply list_fmap_ext. intros j' bn _. unfold base_all, base_regs. rewrite fmap_app, node_regs_at, fmap_concat.
  do 2 f_equal. apply list_fmap_ext. intros j'' it _. unfold id_regs. by rewrite node_regs_at.
Qed.

Lemma marked_perm c (l l' : list reg) : l ≡ₚ l' → marked c l ↔ marked c l'.
Proof. intros H. unfold marked. rewrite !Exists_exists. setoid_rewrite H. done. Qed.

Lemma is_marked_spec x s A c : repr x s A → is_marked c s = true ↔ marked c (regs A).
Proof.
  intros []. rewrite <- (marked_perm _ _ _ rp_perm0). unfold is_marked. rewrite all_handlers_regs.
  assert (Hnd : NoDup (ctx_of <$> tree_regs (loop_nodes s))) by by rewrite rp_perm0.
  clear - Hnd. induction (tree_regs (loop_nodes s)) as [|r l IH]; simpl.
  - split; [done|by intros ?%Exists_nil].
  - unfold marked. rewrite Exists_cons. rewrite fmap_cons, NoDup_cons in Hnd. destruct Hnd as [Hn Hnd].
    case_decide as E; simpl.
    + split; [by left|]. intros [[_ ?]|He]; [done|]. exfalso. apply Hn. rewrite E.
      apply Exists_exists in He as (r' & Hr' & <- & _). by apply (list_elem_of_fmap_2 ctx_of).
    + rewrite <- (IH Hnd). change (list_fmap reg hnode rg_node l) with (rg_node <$> l).
      destruct (list_find _ (rg_node <$> l)) as [[j h]|]; simpl; (split; [by right|]; intros [[? _]|?]; done).
Qed.

(** ** Searching for a handler to mark *)

(** What a search for the context [c] gives after the registrations [l]. *)
Definition found_in (B i c : Z) (l : list reg) (found : option Z) : option Z :=
  if bool_decide (Exists (λ r, matches B i r ∧ ctx_of r = c) l) then Some c else found.

Lemma found_in_app B i c l k found :
  found_in B i c (l ++ k) found = found_in B i c k (found_in B i c l found).
Proof.
  unfold found_in. rewrite (bool_decide_ext _ _ (Exists_app _ l k)).
  rewrite bool_decide_or. by destruct (bool_decide _), (bool_decide _).
Qed.

Lemma found_in_none B i c l found : Forall (λ r, ¬ matches B i r) l → found_in B i c l found = found.
Proof.
  intros H. unfold found_in. rewrite bool_decide_eq_false_2; [done|].
  intros (r & Hr & Hm & _)%Exists_exists. rewrite Forall_forall in H. by eapply H.
Qed.

Lemma found_in_some B i c l : found_in B i c l (Some c) = Some c.
Proof. unfold found_in. by destruct (bool_decide _). Qed.

Lemma search_handlers_ok B i c b j l found :
  (∀ h, matches B i (mkReg b j h)) →
  search_handlers (instance_key c) found l = found_in B i c (regs_at b j l) found.
Proof.
  intros Hm. unfold search_handlers. induction l as [|h l IH]; [done|]. cbn [list_find].
  unfold regs_at. rewrite fmap_cons. change (mkReg b j <$> l) with (regs_at b j l).
  change (?x :: regs_at b j l) with ([x] ++ regs_at b j l). rewrite found_in_app.
  case_decide as E; simpl in E.
  - apply Z.eqb_eq in E. unfold found_in at 2. rewrite bool_decide_eq_true_2; [by rewrite E, found_in_some|].
    apply Exists_cons. left. split; [apply Hm|done].
  - unfold found_in at 2. rewrite bool_decide_eq_false_2.
    2:{ rewrite Exists_cons, Exists_nil. intros [[_ Hc]|[]]. simpl in Hc. apply E, Z.eqb_eq. by rewrite Hc. }
    rewrite <- IH. destruct (list_find _ l) as [[n h']|]; done.
Qed.

Lemma search_ids_ok B i c l found :
  B ≠ esp_event_any_base → Forall (λ it, id_id it ≠ ESP_EVENT_ANY_ID) l →
  search_ids i (instance_key c) found l = found_in B i c (concat (id_regs B <$> l)) found.
Proof.
  intros HB Hl. revert found. induction Hl as [|it l Hit Hl IH]; intros found; [done|].
  cbn [search_ids]. rewrite concat_fmap_cons, found_in_app, IH. f_equal.
  destruct (Z.eqb_spec (id_id it) i) as [E|E].
  - apply search_handlers_ok. intros h. right. simpl. tauto.
  - rewrite found_in_none; [done|]. apply Forall_fmap, Forall_forall. intros h _. unfold matches. simpl in *. tauto.
Qed.

Abbreviation none_or c := (λ found : option Z, found = None ∨ found = Some c).

Lemma found_in_none_or B i c l found : none_or c found → none_or c (found_in B i c l found).
Proof. unfold found_in. destruct (bool_decide _); [by right|done]. Qed.

Lemma search_bases_ok B i c l found :
  Forall base_wf l → none_or c found →
  search_bases B i (instance_key c) found l = found_in B i c (concat (base_regs <$> l)) found.
Proof.
  intros Hl. revert found. induction Hl as [|bn l [Hb Hids _] Hl IH]; intros found Hf; [done|].
  cbn [search_bases]. rewrite concat_fmap_cons. destruct (Z.eqb_spec (bn_base bn) B) as [<-|E].
  - unfold base_regs. rewrite !found_in_app.
    rewrite (search_handlers_ok (bn_base bn) i c (bn_base bn) ESP_EVENT_ANY_ID) by (intros h; right; simpl; tauto).
    pose proof (found_in_none_or (bn_base bn) i c (regs_at (bn_base bn) ESP_EVENT_ANY_ID (bn_handlers bn)) _ Hf) as Hg.
    destruct Hg as [-> | ->]; [|by rewrite !found_in_some].
    rewrite (search_ids_ok (bn_base bn)) by done. apply IH, found_in_none_or. by left.
  - rewrite found_in_app, (found_in_none _ _ _ (base_regs bn)); [by apply IH|].
    apply Forall_app. split; [|apply Forall_concat, Forall_fmap, Forall_forall; intros it _];
      apply Forall_fmap, Forall_forall; intros h _; unfold matches; simpl; tauto.
Qed.

Lemma search_loops_ok B i c l found :
  tree_wf l → none_or c found →
  search_loops B i (instance_key c) found l = found_in B i c (tree_regs l) found.
Proof.
  intros Hl. revert found. unfold tree_regs. induction Hl as [|ln l Hln Hl IH]; intros found Hf; [done|].
  cbn [search_loops]. rewrite concat_fmap_cons. unfold loop_regs. rewrite !found_in_app.
  rewrite (search_handlers_ok B i c esp_event_any_base ESP_EVENT_ANY_ID) by (intros h; left; simpl; tauto).
  pose proof (found_in_none_or B i c (regs_at esp_event_any_base ESP_EVENT_ANY_ID (ln_handlers ln)) _ Hf) as Hg.
  destruct Hg as [-> | ->]; [|by rewrite !found_in_some].
  rewrite search_bases_ok by (done || by left). apply IH, found_in_none_or. by left.
Qed.

(** ** Calls while the loop runs *)

Abbreviation spec_busy := (spec_busy capacity).

Lemma unregister_running_ok x s A b i c :
  repr x s A → user_base b → (b = ESP_EVENT_ANY_BASE → i = ESP_EVENT_ANY_ID) →
  wp (find_and_unregister_handler self true None (mkRemove (stored_base b) i (instance_key c))) s
    (λ e s', ∃ A', spec_busy A (UnregisterRunning b i c) e A' ∧ repr x s' A').
Proof.
  intros HR Hb Hi. unfold find_and_unregister_handler. wp_steps. cbn [rm_base rm_id rm_key].
  rewrite search_loops_ok; [|by eapply rp_wf|by left]. unfold found_in.
  pose proof (rp_perm _ _ _ _ HR) as Hp.
  case_bool_decide as He.
  - assert (He' : Exists (λ r, matches (stored_base b) i r ∧ ctx_of r = c) (regs A)).
    { rewrite Exists_exists in *. setoid_rewrite <- Hp. done. }
    destruct (is_marked c s) eqn:Em.
    + wp_steps. exists A. split; [|done]. apply spec_unreg_again; [done|by apply (is_marked_spec _ _ _ _ HR)|done].
    + wp_steps. cbn [k_legacy instance_key]. wp_steps. apply (repr_mark _ _ _ c) in HR as HR'.
      eapply wp_mono; [apply post_to_ok; [exact HR'|by intros []|done|]|].
      * split; [done|]. by eexists.
      * intros e s' (A' & Hq & HA'). exists A'. split; [|done]. apply spec_unreg; [done| |done|exact Hq].
        intros Hm%(is_marked_spec _ _ _ _ HR). congruence.
  - wp_steps. exists A. split; [|done]. apply spec_unreg_none; [done|].
    rewrite <- Hp. by apply Forall_Exists_neg.
Qed.

Lemma bad_args b i : (b =? ESP_EVENT_ANY_BASE) && negb (i =? ESP_EVENT_ANY_ID) =
  bool_decide (b = ESP_EVENT_ANY_BASE ∧ i ≠ ESP_EVENT_ANY_ID).
Proof. destruct (Z.eqb_spec b ESP_EVENT_ANY_BASE), (Z.eqb_spec i ESP_EVENT_ANY_ID); simpl; case_bool_decide; done || tauto. Qed.

Lemma any_args b i : (b =? ESP_EVENT_ANY_BASE) || (i =? ESP_EVENT_ANY_ID) = bool_decide (any_event b i).
Proof.
  unfold any_event. destruct (Z.eqb_spec b ESP_EVENT_ANY_BASE), (Z.eqb_spec i ESP_EVENT_ANY_ID); simpl;
    case_bool_decide; done || tauto.
Qed.

Lemma isr_ok x s A b i bytes :
  repr x s A → user_base b →
  wp (esp_event_isr_post_to b i (Some bytes)) s (λ e s', ∃ A', spec_busy A (IsrPost b i bytes) e A' ∧ repr x s' A').
Proof.
  intros HR [_ Hb]. unfold esp_event_isr_post_to. rewrite any_args. case_bool_decide as Ha; simpl.
  { wp_steps. exists A. split; [|done]. apply spec_isr_bad. by left. }
  destruct (Z.ltb_spec 4 (zlen bytes)).
  { wp_steps. exists A. split; [|done]. apply spec_isr_bad. by right. }
  wp_steps. set (p := mkPost b i _).
  assert (Hp : good_post p) by (subst p; by destruct bytes).
  assert (Hc : post_cost p = 0) by (subst p; by destruct bytes).
  eapply wp_mono; [apply (send_ok x s A p); [|done]; rewrite Hc, Z.add_0_r; exact HR|].
  intros [] s' [Hl H']; simpl.
  - wp_steps. eexists. split; [|exact H']. apply spec_isr; [done|done|]. by constructor.
  - wp_steps. eapply wp_mono; [by apply delete_ok|]. intros u s2 H2. wp_steps. exists A. split; [|done].
    apply spec_isr; [done|done|]. apply enqueue_full; [done|]. right. by left.
Qed.

Lemma do_busy_ok x s A o :
  repr x s A → user_busy o → wp (do_busy self o) s (λ e s', ∃ A', spec_busy A o e A' ∧ repr x s' A').
Proof.
  intros HR Hu. destruct o as [b i bytes|b i bytes|b i c]; simpl in *.
  - destruct (decide (any_event b i)) as [Ha|Ha].
    + unfold esp_event_post_to. rewrite any_args, bool_decide_eq_true_2 by done. wp_steps.
      exists A. split; [by apply spec_post_any|done].
    + destruct Hu as [_ Hu].
      eapply wp_mono; [apply post_to_ok; [exact HR|done|by destruct bytes|by destruct bytes]|].
      intros e s' (A' & Hq & H'). exists A'. split; [|done]. apply spec_post; [done|].
      by destruct bytes.
  - by apply isr_ok.
  - unfold esp_event_handler_unregister_with_internal. rewrite bad_args. case_bool_decide as Ha.
    + wp_steps. exists A. split; [|done]. destruct Ha. by apply spec_unreg_bad.
    + apply unregister_running_ok; [done|done|]. intros ->. destruct (decide (i = ESP_EVENT_ANY_ID)); tauto.
Qed.

Lemma do_script_ok x s A l :
  repr x s A → Forall user_busy l →
  ∃ A', spec_script capacity l A A' ∧ repr x (do_script self l s) A'.
Proof.
  intros HR Hl. revert s A HR. induction Hl as [|o l Ho Hl IH]; intros s A HR; simpl.
  { exists A. split; [constructor|done]. }
  destruct (wp_done _ _ _ (do_busy_ok x s A o HR Ho)) as (e & s1 & -> & A1 & Hs1 & HR1).
  destruct (IH s1 A1 HR1) as (A' & Hs & HR'). exists A'. split; [by econstructor|done].
Qed.

(** ** Running the handlers of an event *)

Hypothesis script_user : ∀ c p, Forall user_busy (script c p).

Lemma execute_all_ok x p l s A :
  repr x s A →
  wp (execute_all (run_handler self script) p (rg_node <$> l)) s
    (λ _ s', ∃ A', spec_run script capacity p l A A' ∧ repr x s' A').
Proof.
  revert s A. induction l as [|r l IH]; intros s A HR.
  { simpl. wp_steps. exists A. split; [constructor|done]. }
  rewrite fmap_cons. cbn [execute_all]. wp_steps. pose proof (is_marked_spec _ _ _ (ctx_of r) HR) as Hm.
  simpl in Hm. destruct (is_marked (h_ctx (rg_node r)) s) eqn:Em; simpl.
  - wp_steps. eapply wp_mono; [by apply IH|]. intros u s' (A' & H1 & H2). exists A'. split; [|done].
    apply run_skip; [by apply Hm|done].
  - unfold handler_execute. wp_steps.
    assert (HR1 : repr x (log_executed (h_ctx (rg_node r), p) s)
              (mkSpec (regs A) (pending A) (ran A ++ [(ctx_of r, p)]))).
    { destruct HR. split; try done. simpl. by f_equal. }
    destruct (do_script_ok _ _ _ _ HR1 (script_user (h_ctx (rg_node r)) p)) as (A1 & Hs & HR2).
    eapply wp_mono; [by apply IH|]. intros u s' (A' & H1 & H2). exists A'. split; [|done].
    eapply run_one; [|exact Hs|exact H1]. intros Hx%Hm. congruence.
Qed.

(** ** Removal *)

Lemma taken_nodup B i c l l' :
  NoDup (ctx_of <$> l) → taken (is_reg B i (instance_key c)) l l' →
  l' = without B i c l ∧ Exists (is_reg B i (instance_key c)) l.
Proof.
  intros Hnd (p & r & q & -> & -> & Hr & Hp). split; [|by apply Exists_app; right; left].
  unfold without. rewrite filter_app, filter_all by done. rewrite filter_cons_False by tauto. f_equal.
  symmetry. apply filter_all, Forall_forall. intros r' Hr' (_ & _ & Hk').
  rewrite fmap_app, fmap_cons in Hnd. apply NoDup_app in Hnd as (_ & _ & Hnd). apply NoDup_cons in Hnd as [Hn _].
  apply Hn. destruct Hr as (_ & _ & Hk). unfold key_matches in *. simpl in *. apply Z.eqb_eq in Hk, Hk'.
  rewrite Hk, <- Hk'. by apply (list_elem_of_fmap_2 ctx_of).
Qed.

Lemma filter_comm {X} (P Q : X → Prop) `{!∀ x, Decision (P x)} `{!∀ x, Decision (Q x)} (l : list X) :
  filter P (filter Q l) = filter Q (filter P l).
Proof. rewrite !list_filter_filter. apply list_filter_iff. tauto. Qed.

Lemma without_ctxs B i c l : sublist (ctx_of <$> without B i c l) (ctx_of <$> l).
Proof. apply fmap_sublist, sublist_filter. Qed.

Lemma repr_without x n s A B i c l' :
  repr x s A → tree_wf l' → taken (is_reg B i (instance_key c)) (tree_regs (loop_nodes s)) (tree_regs l') →
  remove_all_loops l' = remove_all_loops (loop_nodes s) - n →
  repr x (set_heap (supply s) (next_block s) (blocks s - n) (set_nodes l' s))
    (mkSpec (without B i c (regs A)) (pending A) (ran A)) ∧ Exists (is_reg B i (instance_key c)) (regs A).
Proof.
  intros [] Hwf Ht Hc.
  assert (Hnd : NoDup (ctx_of <$> tree_regs (loop_nodes s))) by by rewrite rp_perm0.
  destruct (taken_nodup _ _ _ _ _ Hnd Ht) as [E He].
  split; [|by rewrite <- rp_perm0]. split; try done; simpl.
  - rewrite E. unfold without. by rewrite rp_perm0.
  - intros b j. rewrite E. unfold without. rewrite !(filter_comm (matches b j)). by rewrite rp_order0.
  - eapply sublist_nodup; [apply without_ctxs|done].
  - unfold without. rewrite Forall_forall in *. intros r [_ Hr]%list_elem_of_filter. by apply rp_fresh0.
  - lia.
Qed.

Lemma remove_handler_ok x s A B i c :
  repr x s A →
  wp (loop_remove_handler (mkRemove B i (instance_key c))) s (λ e s',
    repr x s' (mkSpec (without B i c (regs A)) (pending A) (ran A)) ∧
    (e = ESP_OK ∧ Exists (is_reg B i (instance_key c)) (regs A) ∨
     e = ESP_ERR_NOT_FOUND ∧ Forall (λ r, ¬ is_reg B i (instance_key c) r) (regs A))).
Proof.
  intros HR. unfold loop_remove_handler. wp_steps.
  pose proof (tree_remove_ok (mkRemove B i (instance_key c)) _ (rp_wf _ _ _ _ HR)) as Hr.
  destruct (remove_from_loops _ _) as [[l' n]|]; simpl in Hr.
  - destruct Hr as (Ht & Hc & Hw). unfold free_blocks. wp_steps.
    destruct (repr_without _ _ _ _ _ _ _ _ HR Hw Ht Hc) as [H1 H2]. split; [exact H1|by left].
  - wp_steps. rewrite (rp_perm _ _ _ _ HR) in Hr. split; [|by right].
    unfold without. rewrite filter_all by done. by destruct A.
Qed.

(** ** Taking an event *)

Lemma repr_running x s A t : repr x s A → repr x (set_running t s) A.
Proof. by intros []. Qed.

Lemma matching_ok x s A b i :
  repr x s A → matching b i (loop_nodes s) = rg_node <$> filter (matches b i) (regs A).
Proof. intros []. by rewrite matching_regs, rp_order0. Qed.

Lemma dispatch_ok s A p :
  repr (post_cost p) s A → good_post p →
  wp (dispatch self (run_handler self script) p) s (λ _ s', ∃ A',
    spec_run script capacity p (filter (matches (p_base p) (p_id p)) (clean p (regs A)))
      (mkSpec (clean p (regs A)) (pending A) (ran A)) A' ∧ repr 0 s' A').
Proof.
  intros HR Hp. unfold dispatch. apply wp_bind.
  assert (Hrest : ∀ s1, repr (post_cost p) s1 (mkSpec (clean p (regs A)) (pending A) (ran A)) →
    wp (modify (set_running (Some self));; s ← get;
        execute_all (run_handler self script) p (matching (p_base p) (p_id p) (loop_nodes s));;
        post_instance_delete p) s1 (λ _ s', ∃ A',
      spec_run script capacity p (filter (matches (p_base p) (p_id p)) (clean p (regs A)))
        (mkSpec (clean p (regs A)) (pending A) (ran A)) A' ∧ repr 0 s' A')).
  { intros s1 H1. wp_steps. apply (repr_running _ _ _ (Some self)) in H1.
    rewrite (matching_ok _ _ _ (p_base p) (p_id p) H1). simpl.
    eapply wp_mono; [by apply execute_all_ok|]. intros u s2 (A' & Hrun & H2). simpl.
    eapply wp_mono; [by apply (delete_ok 0)|]. intros u' s3 H3. by exists A'. }
  unfold good_post in Hp. destruct (Z.eqb_spec (p_base p) esp_event_handler_cleanup) as [E|E].
  - destruct (p_data p) as [| | |[B i k]] eqn:Ed; try done. destruct Hp as (_ & c & Ek). simpl in Ek. subst k.
    wp_steps. eapply wp_mono; [by apply remove_handler_ok|]. intros e s1 [H1 _]. simpl. apply wp_ret.
    apply Hrest. unfold clean. by rewrite Ed.
  - apply wp_ret, Hrest. unfold clean. destruct (p_data p); try (by destruct A). by destruct Hp.
Qed.

Lemma run_one_ok s A :
  repr 0 s A → wp (do_op self script RunOne) s (λ r s', ∃ A', spec_op script capacity A RunOne r A' ∧ repr 0 s' A').
Proof.
  intros HR. simpl. pose proof (rp_queue _ _ _ _ HR) as Eq. wp_steps.
  assert (Hid : wp (if is_nil (queue s) then modify (λ s, s) else mret ()) s (λ _ s', s' = s)).
  { destruct (is_nil (queue s)); by wp_steps. }
  eapply wp_mono; [exact Hid|]. intros u s' ->. wp_steps. clear Hid u.
  destruct (queue s) as [|p q] eqn:Eqs.
  - wp_steps. exists A. split; [by apply spec_idle|done].
  - wp_steps. destruct A as [rs pend rn]. simpl in Eq. subst pend.
    assert (H1 : repr (post_cost p) (set_queue q s) (mkSpec rs q rn)).
    { destruct HR. rewrite Eqs in *. simpl in *. split; try done; simpl; [lia|].
      by apply Forall_cons in rp_posts0 as [_ ?]. }
    assert (Hp : good_post p) by (apply rp_posts in HR; by apply Forall_cons in HR as [? _]).
    eapply wp_mono; [by apply dispatch_ok|]. intros u s2 (A' & Hrun & H2). simpl. wp_steps. simpl.
    exists A'. split; [by eapply spec_event|]. by apply repr_running.
Qed.

(** ** All calls *)

Lemma repr_registered s s' A r :
  repr 0 s A → loop_registered s s' r →
  repr 0 s' (mkSpec (regs A ++ [r]) (pending A) (ran A)) ∧ ctx_of r ∉ (ctx_of <$> regs A).
Proof.
  intros [] (l' & n & E & [Hw [Hp Hg] Hc] & [Hf1 Hf2]).
  assert (Hnin : ctx_of r ∉ (ctx_of <$> regs A)).
  { intros (r' & E' & Hr')%list_elem_of_fmap. rewrite Forall_forall in rp_fresh0. specialize (rp_fresh0 _ Hr').
    simpl in *. lia. }
  split; [|done]. rewrite E. split; try done; simpl.
  - rewrite Hp, rp_perm0. by rewrite Permutation_app_comm.
  - intros b i. by rewrite Hg, filter_app, rp_order0.
  - rewrite fmap_app. simpl. rewrite Permutation_app_comm. simpl. by constructor.
  - apply Forall_app. split; [|by constructor]. eapply Forall_impl; [exact rp_fresh0|]. simpl. intros. lia.
  - lia.
Qed.

Lemma do_op_ok s A o :
  repr 0 s A → user_op o → wp (do_op self script o) s (λ r s', ∃ A', spec_op script capacity A o r A' ∧ repr 0 s' A').
Proof.
  intros HR Hu. destruct o as [o|b i h a|b i c|]; [| | |by apply run_one_ok]; simpl in Hu.
  - simpl. wp_steps. eapply wp_mono; [by apply do_busy_ok|]. intros e s' (A' & H1 & H2). simpl. wp_steps.
    exists A'. split; [by constructor|done].
  - destruct Hu as [[Hb _] Hh]. destruct (decide (b = ESP_EVENT_ANY_BASE ∧ i ≠ ESP_EVENT_ANY_ID)) as [Ha|Ha].
    + simpl. unfold esp_event_handler_instance_register_with, esp_event_handler_register_with_internal. wp_steps.
      apply wp_assert; [by apply negb_true_iff, Z.eqb_neq|]. rewrite bad_args, bool_decide_eq_true_2 by done. wp_steps.
      exists A. split; [|done]. destruct Ha. by apply spec_reg_bad.
    + assert (Hi : b = ESP_EVENT_ANY_BASE → i = ESP_EVENT_ANY_ID).
      { intros ->. destruct (decide (i = ESP_EVENT_ANY_ID)); tauto. }
      apply register_ok; [by eapply rp_wf|done|done|done| |].
      * intros c s' Hr. destruct (repr_registered _ _ _ _ HR Hr) as [H1 H2].
        eexists. split; [|exact H1]. by apply spec_reg.
      * intros s' Hm. exists A. split; [by apply spec_reg_fails|]. eapply repr_eq; [by eapply repr_heap|done].
  - simpl. wp_steps. unfold esp_event_handler_unregister_with_internal. rewrite bad_args. case_bool_decide as Ha.
    + wp_steps. exists A. split; [|done]. destruct Ha. by apply spec_unregister_bad.
    + assert (Hi : b = ESP_EVENT_ANY_BASE → i = ESP_EVENT_ANY_ID).
      { intros ->. destruct (decide (i = ESP_EVENT_ANY_ID)); tauto. }
      eapply wp_mono; [by apply remove_handler_ok|]. intros e s' [H1 [[-> H2]|[-> H2]]]; simpl; wp_steps.
      * eexists. split; [|exact H1]. by apply spec_unregister.
      * exists A. split; [by apply spec_unregister_none|]. unfold without in H1. rewrite filter_all in H1 by done.
        by destruct A.
Qed.

Lemma do_ops_ok s A l :
  repr 0 s A → Forall user_op l →
  wp (do_ops self script l) s (λ rs s', ∃ A', spec_ops script capacity l rs A A' ∧ repr 0 s' A').
Proof.
  intros HR Hl. revert s A HR. induction Hl as [|o l Ho Hl IH]; intros s A HR; simpl.
  { wp_steps. exists A. split; [constructor|done]. }
  wp_steps. eapply wp_mono; [by apply do_op_ok|]. intros r s1 (A1 & H1 & HR1). simpl. wp_steps.
  eapply wp_mono; [by apply IH|]. intros rs s2 (A' & H2 & HR2). simpl. wp_steps.
  exists A'. split; [by econstructor|done].
Qed.

(** ** Deletion *)

Lemma drop_posts_ok q s : wp (drop_posts q) s (λ _ s', heap_moved (- queue_cost q) s s').
Proof.
  revert s. induction q as [|p q IH]; intros s; simpl.
  { wp_steps. apply heap_moved_refl. }
  wp_steps. assert (H : wp (post_instance_delete p) s (λ _ s', heap_moved (- post_cost p) s s')).
  { unfold post_instance_delete, post_cost. destruct (p_data p); try (wp_steps; apply heap_moved_refl).
    all: apply wp_free; by intros. }
  eapply wp_mono; [exact H|]. intros u s1 M1. simpl. eapply wp_mono; [by apply IH|]. intros u' s2 M2. simpl in *.
  replace (- (post_cost p + queue_cost q)) with (- post_cost p + - queue_cost q) by lia.
  by eapply heap_moved_trans.
Qed.

Lemma delete_loop_ok s A : repr 0 s A → wp esp_event_loop_delete s (λ e s', e = ESP_OK ∧ blocks s' = 0 ∧
  loop_nodes s' = [] ∧ queue s' = []).
Proof.
  intros []. unfold esp_event_loop_delete, free_blocks. wp_steps.
  eapply wp_mono; [apply drop_posts_ok|]. intros u s' M. simpl. wp_steps.
  destruct (heap_moved_nodes _ _ _ M) as (E1 & _ & E3). simpl in *. split_and!; try done. lia.
Qed.

End refine.
