(* ===== verification/EspEventProps.v ===== *)
(** * Event loops: the main theorems *)
From Stdlib Require Import ZArith Lia.
From stdpp Require Import base numbers option list.
From S2P Require Import Prelude EspEvent EspEventTree EspEventSpec EspEventRefine.

Open Scope Z_scope.

(** A loop just created, with a task of its own or not. *)
Definition created (capacity : nat) (task_wanted : bool) (t : option Z) (sup : list bool)
    (s : esp_event_loop_instance_t) : Prop :=
  esp_event_loop_create true true capacity true true true task_wanted t sup = (ESP_OK, Some s).

Lemma created_repr capacity w t sup s : created capacity w t sup s → repr capacity 0 s (mkSpec [] [] []).
Proof.
  unfold created, esp_event_loop_create. simpl. destruct w; [destruct t as [t|]; [|done]|];
    intros [= <-]; split; try done; simpl; constructor.
Qed.


(** No memory is lost.  After any such sequence, deleting the loop gives back
    every block that registrations, posts and deferred unregistrations took. *)
Theorem event_loop_no_leak self script capacity w t sup s ops :
  (∀ c p, Forall user_busy (script c p)) → created capacity w t sup s → Forall user_op ops →
  wp (do_ops self script ops;; esp_event_loop_delete) s (λ e s', e = ESP_OK ∧ blocks s' = blocks s).
Proof.
  intros Hs Hc Hops. pose proof (created_repr _ _ _ _ _ Hc) as HR. apply wp_bind.
  eapply wp_mono; [by apply do_ops_ok|]. intros rs s1 (A' & _ & HR1). simpl.
  eapply wp_mono; [by eapply delete_loop_ok|]. intros e s' (-> & -> & _). split; [done|].
  apply rp_blocks in HR as ->. unfold created, esp_event_loop_create in Hc. simpl in Hc.
  destruct w; [destruct t as [t|]; [|done]|]; by injection Hc as <-.
Qed.

(** ** Examples *)

(** Base 100; the handler with context 4192 unregisters itself on event 5. *)
Definition example_script (c : Z) (p : post_t) : list busy_op :=
  if (c =? 4192) && (p_id p =? 5) then [UnregisterRunning 100 5 4192; Post 100 6 [1; 2]] else [].

Lemma example_script_user c p : Forall user_busy (example_script c p).
Proof.
  unfold example_script. destruct ((c =? 4192) && (p_id p =? 5)); repeat constructor; done.
Qed.

Definition example_ops : list op :=
  [Register 0 (-1) 11 0; Register 100 5 12 0; Busy (Post 100 5 [7]); RunOne; RunOne; RunOne; Unregister 0 (-1) 4128].

Definition example_loop : esp_event_loop_instance_t := mkLoop [] [] 4 None None (replicate 20 true) 4096 0 [].

Lemma example_ops_user : Forall user_op example_ops.
Proof. repeat constructor; done. Qed.


Lemma event_loop_no_leak_witness :
  wp (do_ops 1 example_script example_ops;; esp_event_loop_delete) example_loop (λ e s', e = ESP_OK ∧ blocks s' = blocks example_loop).
Proof.
  apply (event_loop_no_leak 1 example_script 4 false None (replicate 20 true));
    [exact example_script_user|reflexivity|exact example_ops_user].
Defined.

(** The internal event of a deferred unregistration reaches the handlers
    registered for any base: here a handler that unregisters itself makes the other
    handler run for an event of the base [esp_event_handler_cleanup]. *)
Theorem cleanup_event_delivered :
  ∃ s' rs p, do_ops 1 example_script example_ops example_loop = Done s' rs ∧
    (4128, p) ∈ executed s' ∧ p_base p = esp_event_handler_cleanup.
Proof.
  eexists _, _, (cleanup_post 100 5 4192). split; [vm_compute; reflexivity|]. split; [|done].
  cbn [executed]. do 2 apply list_elem_of_further. apply list_elem_of_here.
Qed.

(** The same function, 11, for all events and for the event 5 of base 100. *)
Definition legacy_setup : EV unit :=
  _ ← esp_event_handler_register_with 0 (-1) 11 0;
  _ ← esp_event_handler_register_with 100 5 11 0;
  mret ().

(** One turn of the loop with handlers that do nothing. *)
Definition quiet_turn : EV unit :=
  _ ← esp_event_loop_run 1 (λ _ _ s, s) [(λ s, s, 0)] portMAX_DELAY 0 0; mret ().

(** A legacy unregistration for one event that is made while the loop runs can
    disable another registration of the same function: after the call for event 5 of
    base 100 and the cleanup, the registration for that event is gone and the
    registration for all events is still there but marked, so it never runs again.
    With the mutex free the same call leaves it alone. *)
Theorem running_unregister_disables_other :
  ∃ s1 s2,
    (legacy_setup;; e ← esp_event_handler_unregister_with 1 true None 100 5 11 false; quiet_turn;; mret e)
      example_loop = Done s1 ESP_OK ∧
    tree_regs (loop_nodes s1) = [mkReg esp_event_any_base ESP_EVENT_ANY_ID (mkHandler 4128 11 0 true)] ∧
    (legacy_setup;; esp_event_handler_unregister_with 1 true None 100 5 11 true) example_loop = Done s2 ESP_OK ∧
    tree_regs (loop_nodes s2) = [mkReg esp_event_any_base ESP_EVENT_ANY_ID (mkHandler 4128 11 0 false)].
Proof. eexists _, _. split_and!; vm_compute; reflexivity. Qed.

(** A handler that fills a queue of one post and then unregisters itself. *)
Definition filling_script (c : Z) (p : post_t) : list busy_op :=
  if p_id p =? 5 then [Post 100 6 []; UnregisterRunning 100 5 c] else [].

(** A handler that unregisters itself when the queue is full gets
    [ESP_ERR_TIMEOUT] and stays marked; when the call is repeated with room in the queue
    it answers [ESP_OK] and queues nothing, so the handler is never removed. *)
Theorem failed_unregister_sticks :
  let loop := mkLoop [] [] 1 None None (replicate 20 true) 4096 0 [] in
  let setup := do_ops 1 filling_script [Register 100 5 11 0; Busy (Post 100 5 [])] in
  (∃ s1, (setup;; modify (λ s, set_running (Some 1) (set_queue [] s));; do_busy 1 (Post 100 6 []);;
          do_busy 1 (UnregisterRunning 100 5 4160)) loop = Done s1 ESP_ERR_TIMEOUT) ∧
  (∃ s2, (setup;; do_ops 1 filling_script [RunOne; RunOne; Busy (UnregisterRunning 100 5 4160); RunOne]) loop =
      Done s2 [(ESP_OK, None); (ESP_OK, None); (ESP_OK, None); (ESP_OK, None)] ∧
    queue s2 = [] ∧ tree_regs (loop_nodes s2) = [mkReg 100 5 (mkHandler 4160 11 0 true)]).
Proof. split; eexists; [|split_and!]; vm_compute; reflexivity. Qed.

(** A legacy registration of a handler that is already registered for all events
    does not overwrite its argument when a handler for a base was registered in
    between: a second registration is added, and an event runs the handler twice. *)
Theorem legacy_register_duplicates :
  ∃ s', (_ ← esp_event_handler_register_with 0 (-1) 11 1;
         _ ← esp_event_handler_register_with 100 (-1) 12 0;
         _ ← esp_event_handler_register_with 0 (-1) 11 2;
         mret ()) example_loop = Done s' () ∧
    h_handler <$> matching 100 5 (loop_nodes s') = [11; 12; 11].
Proof. eexists. split_and!; vm_compute; reflexivity. Qed.
