(* ===== verification/EspEventDefault.v ===== *)
(** * The default event loop

    Model of [components/esp_event/default_event_loop.c]: the variable [s_default_loop]
    is the state, and each call works on the loop it holds. *)
From Stdlib Require Import ZArith Lia.
From stdpp Require Import base numbers option list.
From S2P Require Import Prelude EspEvent EspEventTree EspEventSpec EspEventRefine.

Open Scope Z_scope.

Definition s_default_loop : Type := option esp_event_loop_instance_t.

(** Run a call on the default loop; [bad] is the answer when there is none. *)
Definition with_default {A : Type} (bad : A) (m : EV A) : M s_default_loop A := λ d,
  match d with
  | None => Done None bad
  | Some s =>
      match m s with
      | Done s' a => Done (Some s') a
      | AssertFailed => AssertFailed
      | MemFault => MemFault
      | OutOfFuel => OutOfFuel
      end
  end.

Section calls.
Context (self : Z) (mutex_ok : bool) (wait : option (esp_event_loop_instance_t → esp_event_loop_instance_t)).

Definition esp_event_handler_register (event_base event_id event_handler arg : Z) : M s_default_loop esp_err_t :=
  with_default ESP_ERR_INVALID_STATE (esp_event_handler_register_with event_base event_id event_handler arg).

Definition esp_event_handler_instance_register (event_base event_id event_handler arg : Z) :
    M s_default_loop (esp_err_t * option Z) :=
  with_default (ESP_ERR_INVALID_STATE, None)
    (esp_event_handler_instance_register_with event_base event_id event_handler arg).

Definition esp_event_handler_unregister (event_base event_id event_handler : Z) (mutex_free : bool) :
    M s_default_loop esp_err_t :=
  with_default ESP_ERR_INVALID_STATE
    (esp_event_handler_unregister_with self mutex_ok wait event_base event_id event_handler mutex_free).

Definition esp_event_handler_instance_unregister (event_base event_id : Z) (context : option Z) (mutex_free : bool) :
    M s_default_loop esp_err_t :=
  with_default ESP_ERR_INVALID_STATE
    (esp_event_handler_instance_unregister_with self mutex_ok wait event_base event_id context mutex_free).

Definition esp_event_post (event_base event_id : Z) (event_data : esp_event_post_data_t) (ticks_to_wait : Z) :
    M s_default_loop esp_err_t :=
  with_default ESP_ERR_INVALID_STATE (esp_event_post_to self mutex_ok wait event_base event_id event_data ticks_to_wait).

Definition esp_event_isr_post (event_base event_id : Z) (event_data : option (list Z)) : M s_default_loop esp_err_t :=
  with_default ESP_ERR_INVALID_STATE (esp_event_isr_post_to event_base event_id event_data).

(** The answers of [calloc], [xQueueCreate], [xSemaphoreCreateRecursiveMutex] and
    [xTaskCreatePinnedToCore], and the supply of the heap for the loop. *)
Definition esp_event_loop_create_default (queue_size : nat) (alloc_ok queue_ok mutex_created : bool)
    (task_created : option Z) (sup : list bool) : M s_default_loop esp_err_t := λ d,
  match d with
  | Some _ => Done d ESP_ERR_INVALID_STATE
  | None =>
      let '(err, loop) := esp_event_loop_create true true queue_size alloc_ok queue_ok mutex_created true task_created sup in
      if decide (err = ESP_OK) then Done loop ESP_OK else Done d err
  end.

Definition esp_event_loop_delete_default : M s_default_loop esp_err_t := λ d,
  match d with
  | None => Done d ESP_ERR_INVALID_STATE
  | Some s =>
      match esp_event_loop_delete s with
      | Done s' err => if decide (err = ESP_OK) then Done None ESP_OK else Done (Some s') err
      | AssertFailed => AssertFailed
      | MemFault => MemFault
      | OutOfFuel => OutOfFuel
      end
  end.

End calls.

(** ** Sessions *)

Inductive default_op : Type :=
| Create (alloc_ok queue_ok mutex_created : bool) (task_created : option Z) (sup : list bool)
| Delete
| Call (o : op).

Section session.
Context (self : Z) (script : Z → post_t → list busy_op) (capacity : nat).
Hypothesis script_user : ∀ c p, Forall user_busy (script c p).

(** The calls of [do_op] through the functions of the default loop; [RunOne] is a turn
    of the task of the loop. *)
Definition do_default (o : default_op) : M s_default_loop (esp_err_t * option Z) :=
  match o with
  | Create a q m t sup => e ← esp_event_loop_create_default capacity a q m t sup; mret (e, None)
  | Delete => e ← esp_event_loop_delete_default; mret (e, None)
  | Call (Busy (Post b i bytes)) => e ← esp_event_post self true None b i (HeapData bytes) portMAX_DELAY; mret (e, None)
  | Call (Busy (IsrPost b i bytes)) => e ← esp_event_isr_post b i (Some bytes); mret (e, None)
  | Call (Busy (UnregisterRunning b i c)) =>
      e ← esp_event_handler_instance_unregister self true None b i (Some c) false; mret (e, None)
  | Call (Register b i h a) => esp_event_handler_instance_register b i h a
  | Call (Unregister b i c) =>
      e ← esp_event_handler_instance_unregister self true None b i (Some c) true; mret (e, None)
  | Call RunOne =>
      e ← with_default ESP_ERR_INVALID_STATE
            (r ← esp_event_loop_run self (run_handler self script) [(λ s, s, 0)] portMAX_DELAY 0 0; mret (default ESP_OK r));
      mret (e, None)
  end.

Definition user_default (o : default_op) : Prop := match o with Call o => user_op o | _ => True end.

(** The abstract default loop. *)
Inductive spec_default : option loop_spec → default_op → esp_err_t * option Z → option loop_spec → Prop :=
| default_create a q m t sup : spec_default None (Create a q m t sup) (ESP_OK, None) (Some (mkSpec [] [] []))
| default_create_fails a q m t sup e :
    e ∈ [ESP_ERR_NO_MEM; ESP_FAIL] → spec_default None (Create a q m t sup) (e, None) None
| default_create_again A a q m t sup :
    spec_default (Some A) (Create a q m t sup) (ESP_ERR_INVALID_STATE, None) (Some A)
| default_delete A : spec_default (Some A) Delete (ESP_OK, None) None
| default_delete_none : spec_default None Delete (ESP_ERR_INVALID_STATE, None) None
| default_call A o r A' : spec_op script capacity A o r A' → spec_default (Some A) (Call o) r (Some A')
| default_call_none o : spec_default None (Call o) (ESP_ERR_INVALID_STATE, None) None.

Definition default_repr (d : s_default_loop) (a : option loop_spec) : Prop :=
  match d, a with
  | None, None => True
  | Some s, Some A => repr capacity 0 s A
  | _, _ => False
  end.

(** The calls on an existing loop are those of the loop. *)
Lemma do_default_call o s : do_default (Call o) (Some s) =
  match do_op self script o s with
  | Done s' r => Done (Some s') r
  | AssertFailed => AssertFailed
  | MemFault => MemFault
  | OutOfFuel => OutOfFuel
  end.
Proof.
  destruct o as [[]| | |]; unfold do_default, do_op, do_busy, esp_event_post, esp_event_isr_post,
    esp_event_handler_instance_unregister, esp_event_handler_instance_register, with_default, mbind, M_bind, mret, M_ret;
    repeat (case_match; simplify_eq; try done).
Qed.

Lemma do_default_none o : do_default (Call o) None = Done None (ESP_ERR_INVALID_STATE, None).
Proof. by destruct o as [[]| | |]. Qed.

Lemma default_created_repr w t sup a q m s :
  esp_event_loop_create true true capacity a q m w t sup = (ESP_OK, Some s) → repr capacity 0 s (mkSpec [] [] []).
Proof.
  unfold esp_event_loop_create. simpl. destruct a, q, m, w; try done; [destruct t; [|done]|];
    intros [= <-]; split; try done; simpl; constructor.
Qed.

(** The default loop refines an optional abstract loop: creation and deletion
    succeed only in the right state, every call without a default loop is answered
    [ESP_ERR_INVALID_STATE], and every call with one behaves as on that loop. *)
Theorem default_loop_refines o d a :
  default_repr d a → user_default o →
  wp (do_default o) d (λ r d', ∃ a', spec_default a o r a' ∧ default_repr d' a').
Proof.
  intros HR Hu. destruct d as [s|], a as [A|]; try done.
  - destruct o as [a q m t sup| |o].
    + unfold wp. simpl. exists (Some A). split; [constructor|done].
    + destruct (wp_done _ _ _ (delete_loop_ok _ _ _ HR)) as (e & s' & E & -> & _). unfold wp. simpl.
      unfold mbind, M_bind, esp_event_loop_delete_default. rewrite E. simpl. exists None. split; [constructor|done].
    + unfold wp. rewrite do_default_call.
      destruct (wp_done _ _ _ (do_op_ok self script capacity script_user s A o HR Hu)) as (r & s' & -> & A' & H1 & H2).
      exists (Some A'). split; [by constructor|done].
  - destruct o as [a q m t sup| |o].
    + unfold wp. simpl. unfold mbind, M_bind, esp_event_loop_create_default.
      destruct (esp_event_loop_create _ _ _ _ _ _ _ _ _) as [err [s|]] eqn:E.
      * destruct (decide (err = ESP_OK)) as [->|Hne]; simpl.
        -- exists (Some (mkSpec [] [] [])). split; [constructor|]. by eapply default_created_repr.
        -- exfalso. revert E. unfold esp_event_loop_create. destruct a, q, m; try done. by destruct t; intros [= <-].
      * assert (err ∈ [ESP_ERR_NO_MEM; ESP_FAIL]) as Herr.
        { revert E. unfold esp_event_loop_create. simpl. destruct a, q, m, t; intros [= <-]; repeat constructor. }
        destruct (decide (err = ESP_OK)) as [->|Hne]; simpl.
        -- exfalso. rewrite !elem_of_cons, elem_of_nil in Herr. destruct Herr as [?|[?|[]]]; done.
        -- exists None. split; [by constructor|done].
    + unfold wp. simpl. exists None. split; [constructor|done].
    + unfold wp. rewrite do_default_none. exists None. split; [constructor|done].
Qed.

End session.

Lemma default_loop_refines_witness :
  wp (do_default 1 (λ _ _, []) 4 (Create true true true (Some 1) [])) None
    (λ r d', ∃ a', spec_default (λ _ _, []) 4 None (Create true true true (Some 1) []) r a' ∧ default_repr 4 d' a').
Proof.
  apply (default_loop_refines 1 (λ _ _, []) 4); [constructor|exact I|exact I].
Defined.
