(* ===== verification/Dm9051.v ===== *)
(** * The DM9051 Ethernet MAC driver

    Model of [components/esp_eth/src/spi/dm9051/esp_eth_mac_dm9051.c].  The chip is
    behind the functions [spi.read] and [spi.write] of the driver, which the class
    [SpiDriver] stands for; the default functions are [dm9051_spi_read] and
    [dm9051_spi_write] on top of the SPI master.  The state is the driver object, the
    chip and what the driver asks of the system: locks, clock, heap, GPIO, poll timer,
    the mediator and the frames given to the stack. *)
From Stdlib Require Import ZArith Lia.
From stdpp Require Import base numbers option list.
From S2P Require Import Prelude.

Open Scope Z_scope.

(** ** Constants of [dm9051.h], of the driver and of [esp_eth_spec.h] *)

Definition DM9051_NCR : Z := 0x00.
Definition DM9051_NSR : Z := 0x01.
Definition DM9051_TCR : Z := 0x02.
Definition DM9051_RCR : Z := 0x05.
Definition DM9051_BPTR : Z := 0x08.
Definition DM9051_FCTR : Z := 0x09.
Definition DM9051_FCR : Z := 0x0A.
Definition DM9051_EPCR : Z := 0x0B.
Definition DM9051_EPAR : Z := 0x0C.
Definition DM9051_EPDRL : Z := 0x0D.
Definition DM9051_EPDRH : Z := 0x0E.
Definition DM9051_WCR : Z := 0x0F.
Definition DM9051_PAR : Z := 0x10.
Definition DM9051_MAR : Z := 0x16.
Definition DM9051_GPR : Z := 0x1F.
Definition DM9051_VIDL : Z := 0x28.
Definition DM9051_VIDH : Z := 0x29.
Definition DM9051_PIDL : Z := 0x2A.
Definition DM9051_PIDH : Z := 0x2B.
Definition DM9051_TCR2 : Z := 0x2D.
Definition DM9051_ATCR : Z := 0x30.
Definition DM9051_TCSCR : Z := 0x31.
Definition DM9051_RCSCSR : Z := 0x32.
Definition DM9051_INTCR : Z := 0x39.
Definition DM9051_RLENCR : Z := 0x52.
Definition DM9051_BCASTCR : Z := 0x53.
Definition DM9051_INTCKCR : Z := 0x54.
Definition DM9051_MPTRCR : Z := 0x55.
Definition DM9051_MLEDCR : Z := 0x57.
Definition DM9051_MEMSCR : Z := 0x59.
Definition DM9051_MRCMDX : Z := 0x70.
Definition DM9051_MRCMDX1 : Z := 0x71.
Definition DM9051_MRCMD : Z := 0x72.
Definition DM9051_MRRL : Z := 0x74.
Definition DM9051_MRRH : Z := 0x75.
Definition DM9051_MWCMD : Z := 0x78.
Definition DM9051_TXPLL : Z := 0x7C.
Definition DM9051_TXPLH : Z := 0x7D.
Definition DM9051_ISR : Z := 0x7E.
Definition DM9051_IMR : Z := 0x7F.
Definition DM9051_SPI_RD : Z := 0.
Definition DM9051_SPI_WR : Z := 1.
Definition NCR_RST : Z := 1.
Definition NSR_WAKEST : Z := 32.
Definition NSR_TX2END : Z := 8.
Definition NSR_TX1END : Z := 4.
Definition NSR_RXRDY : Z := 1.
Definition RCR_DIS_LONG : Z := 32.
Definition RCR_DIS_CRC : Z := 16.
Definition RCR_ALL_MCAST : Z := 8.
Definition RCR_PRMSC : Z := 2.
Definition RCR_RXEN : Z := 1.
Definition RSR_RF : Z := 128.
Definition RSR_RWTO : Z := 16.
Definition RSR_CE : Z := 2.
Definition RSR_FOE : Z := 1.
Definition FCR_FLOW_ENABLE : Z := 0x39.
Definition EPCR_EPOS : Z := 8.
Definition EPCR_ERPRR : Z := 4.
Definition EPCR_ERPRW : Z := 2.
Definition EPCR_ERRE : Z := 1.
Definition TCR2_RLCP : Z := 64.
Definition ATCR_AUTO_TX : Z := 128.
Definition MPTRCR_RST_TX : Z := 2.
Definition MPTRCR_RST_RX : Z := 1.
Definition ISR_PR : Z := 1.
Definition IMR_PAR : Z := 128.
Definition IMR_PRI : Z := 1.
Definition MLEDCR_MOD3 : Z := 128.
Definition MLEDCR_LED_TYPE_01 : Z := 1.
Definition ISR_CLR_STATUS : Z := Z.lor (Z.lor (Z.lor (Z.lor 32 8) 4) 2) 1.
Definition DM9051_PHY_OPERATION_TIMEOUT_US : Z := 1000.
Definition DM9051_RX_MEM_START_ADDR : Z := 3072.
Definition DM9051_RX_MEM_MAX_SIZE : Z := 16384.
Definition DM9051_HASH_FILTER_TABLE_SIZE : nat := 64.
Definition ETH_ADDR_LEN : nat := 6.
Definition ETH_CRC_LEN : Z := 4.
Definition ETH_MAX_PACKET_SIZE : Z := 14 + 4 + 1500 + 4.

(** ** Access to the chip *)

(** The functions [emac->spi.read] and [emac->spi.write]: command, address and length
    or data.  A read gives data even when it fails. *)
Class SpiDriver (dev : Type) : Type := {
  spi_read : Z → Z → nat → dev → dev * esp_err_t * list Z;
  spi_write : Z → Z → list Z → dev → dev * esp_err_t
}.

(** *** The default functions, on the SPI master

    [polling_transmit] is [spi_device_polling_transmit]; it gives the bytes received.
    [rx_init] is what the union of [rx_buffer] and [rx_data] holds before. *)
Section default_spi.
Context {bus : Type} (take_lock : bus → bus * bool) (give_lock : bus → bus).
Context (polling_transmit : Z → Z → list Z + nat → bus → bus * esp_err_t * list Z) (rx_init : list Z).

Definition dm9051_spi_lock (b : bus) : bus * bool := take_lock b.
Definition dm9051_spi_unlock (b : bus) : bus := give_lock b.

Definition dm9051_spi_write (cmd addr : Z) (value : list Z) (b : bus) : bus * esp_err_t :=
  let '(b, locked) := dm9051_spi_lock b in
  if locked then
    let '(b, e, _) := polling_transmit cmd addr (inl value) b in
    (dm9051_spi_unlock b, if decide (e = ESP_OK) then ESP_OK else ESP_FAIL)
  else (b, ESP_ERR_TIMEOUT).

Definition dm9051_spi_read (cmd addr : Z) (len : nat) (b : bus) : bus * esp_err_t * list Z :=
  let '(b, locked) := dm9051_spi_lock b in
  if locked then
    let '(b, e, data) := polling_transmit cmd addr (inr len) b in
    (dm9051_spi_unlock b, if decide (e = ESP_OK) then ESP_OK else ESP_FAIL, data)
  else (b, ESP_ERR_TIMEOUT, rx_init).

#[local] Instance default_spi : SpiDriver bus := {| spi_read := dm9051_spi_read; spi_write := dm9051_spi_write |}.

End default_spi.

(** ** State *)

Inductive eth_state_t : Type := ETH_STATE_LLINIT | ETH_STATE_DEINIT | ETH_STATE_LINK | ETH_STATE_SPEED | ETH_STATE_DUPLEX | ETH_STATE_PAUSE.

(** [poll_timer] is whether the timer exists and is active; [rx_buffer] has the size it
    was allocated with. *)
Record emac_dm9051_t : Type := mkEmac {
  eth : bool;
  sw_reset_timeout_ms : Z;
  int_gpio_num : Z;
  poll_timer : option bool;
  addr : list Z;
  packets_remain : bool;
  flow_ctrl_enabled : bool;
  rx_buffer : list Z;
  hash_filter_cnt : list Z
}.

(** What the driver shares with the system: the next answers of [xSemaphoreTake], which
    succeeds after them, and whether the mutex is held, the readings of
    [esp_timer_get_time], the ISR handler, the calls to the mediator with its answers, the
    answers of [malloc] and the frames passed up. *)
Record dm9051_state (dev : Type) : Type := mkSt {
  emac : emac_dm9051_t;
  chip : dev;
  mutex_answers : list bool;
  mutex_held : bool;
  clock : nat → Z;
  isr_installed : bool;
  mediator_answers : list esp_err_t;
  mediator_calls : list eth_state_t;
  heap_answers : list bool;
  stack_input : list (list Z)
}.
Arguments mkSt {dev}.
Arguments emac {dev}.
Arguments chip {dev}.
Arguments mutex_answers {dev}.
Arguments mutex_held {dev}.
Arguments clock {dev}.
Arguments isr_installed {dev}.
Arguments mediator_answers {dev}.
Arguments mediator_calls {dev}.
Arguments heap_answers {dev}.
Arguments stack_input {dev}.

Section driver.
Context {dev : Type} `{SpiDriver dev}.

Abbreviation st := (dm9051_state dev).
Definition D (A : Type) : Type := M st A.

Definition set_emac (e : emac_dm9051_t) (s : st) : st :=
  mkSt e (chip s) (mutex_answers s) (mutex_held s) (clock s) (isr_installed s) (mediator_answers s) (mediator_calls s) (heap_answers s) (stack_input s).
Definition set_chip (c : dev) (s : st) : st :=
  mkSt (emac s) c (mutex_answers s) (mutex_held s) (clock s) (isr_installed s) (mediator_answers s) (mediator_calls s) (heap_answers s) (stack_input s).
Definition set_mutex (l : list bool) (b : bool) (s : st) : st :=
  mkSt (emac s) (chip s) l b (clock s) (isr_installed s) (mediator_answers s) (mediator_calls s) (heap_answers s) (stack_input s).
Definition set_clock (l : nat → Z) (s : st) : st :=
  mkSt (emac s) (chip s) (mutex_answers s) (mutex_held s) l (isr_installed s) (mediator_answers s) (mediator_calls s) (heap_answers s) (stack_input s).
Definition set_isr (b : bool) (s : st) : st :=
  mkSt (emac s) (chip s) (mutex_answers s) (mutex_held s) (clock s) b (mediator_answers s) (mediator_calls s) (heap_answers s) (stack_input s).
Definition set_mediator (l : list esp_err_t) (c : list eth_state_t) (s : st) : st :=
  mkSt (emac s) (chip s) (mutex_answers s) (mutex_held s) (clock s) (isr_installed s) l c (heap_answers s) (stack_input s).
Definition set_heap_answers (l : list bool) (s : st) : st :=
  mkSt (emac s) (chip s) (mutex_answers s) (mutex_held s) (clock s) (isr_installed s) (mediator_answers s) (mediator_calls s) l (stack_input s).
Definition push_frame (f : list Z) (s : st) : st :=
  mkSt (emac s) (chip s) (mutex_answers s) (mutex_held s) (clock s) (isr_installed s) (mediator_answers s) (mediator_calls s) (heap_answers s) (stack_input s ++ [f]).

Definition with_addr (a : list Z) (e : emac_dm9051_t) : emac_dm9051_t :=
  mkEmac (eth e) (sw_reset_timeout_ms e) (int_gpio_num e) (poll_timer e) a (packets_remain e) (flow_ctrl_enabled e) (rx_buffer e) (hash_filter_cnt e).
Definition with_eth (b : bool) (e : emac_dm9051_t) : emac_dm9051_t :=
  mkEmac b (sw_reset_timeout_ms e) (int_gpio_num e) (poll_timer e) (addr e) (packets_remain e) (flow_ctrl_enabled e) (rx_buffer e) (hash_filter_cnt e).
Definition with_poll_timer (t : option bool) (e : emac_dm9051_t) : emac_dm9051_t :=
  mkEmac (eth e) (sw_reset_timeout_ms e) (int_gpio_num e) t (addr e) (packets_remain e) (flow_ctrl_enabled e) (rx_buffer e) (hash_filter_cnt e).
Definition with_packets_remain (b : bool) (e : emac_dm9051_t) : emac_dm9051_t :=
  mkEmac (eth e) (sw_reset_timeout_ms e) (int_gpio_num e) (poll_timer e) (addr e) b (flow_ctrl_enabled e) (rx_buffer e) (hash_filter_cnt e).
Definition with_flow_ctrl (b : bool) (e : emac_dm9051_t) : emac_dm9051_t :=
  mkEmac (eth e) (sw_reset_timeout_ms e) (int_gpio_num e) (poll_timer e) (addr e) (packets_remain e) b (rx_buffer e) (hash_filter_cnt e).
Definition with_rx_buffer (l : list Z) (e : emac_dm9051_t) : emac_dm9051_t :=
  mkEmac (eth e) (sw_reset_timeout_ms e) (int_gpio_num e) (poll_timer e) (addr e) (packets_remain e) (flow_ctrl_enabled e) l (hash_filter_cnt e).
Definition with_hash_cnt (l : list Z) (e : emac_dm9051_t) : emac_dm9051_t :=
  mkEmac (eth e) (sw_reset_timeout_ms e) (int_gpio_num e) (poll_timer e) (addr e) (packets_remain e) (flow_ctrl_enabled e) (rx_buffer e) l.

Definition mod_emac (f : emac_dm9051_t → emac_dm9051_t) : D unit := modify (λ s, set_emac (f (emac s)) s).

(** ** Early exits: [ESP_GOTO_ON_ERROR] and [ESP_GOTO_ON_FALSE] *)

Definition on_error {B : Type} (fail : esp_err_t → D B) (m : D esp_err_t) (k : D B) : D B :=
  e ← m; if decide (e = ESP_OK) then k else fail e.
Definition on_error_val {A B : Type} (fail : esp_err_t → D B) (m : D (esp_err_t * A)) (k : A → D B) : D B :=
  r ← m; if decide (r.1 = ESP_OK) then k r.2 else fail r.1.

(** The functions that return the error as it is. *)
Definition then_ (m k : D esp_err_t) : D esp_err_t := on_error (λ e, mret e) m k.
Definition then_val {A : Type} (m : D (esp_err_t * A)) (k : A → D esp_err_t) : D esp_err_t := on_error_val (λ e, mret e) m k.

(** ** Registers and memory of the chip *)

(** Exactly [len] bytes. *)
Definition as_bytes (len : nat) (data : list Z) : list Z := resize len 0 (u8 <$> data).

Definition bus_read (reg : Z) (len : nat) : D (esp_err_t * list Z) := λ s,
  let '(c, e, data) := spi_read DM9051_SPI_RD reg len (chip s) in
  Done (set_chip c s) (e, as_bytes len data).
Definition bus_write (reg : Z) (data : list Z) : D esp_err_t := λ s,
  let '(c, e) := spi_write DM9051_SPI_WR reg data (chip s) in
  Done (set_chip c s) e.

Definition dm9051_register_write (reg_addr value : Z) : D esp_err_t := bus_write reg_addr [u8 value].
Definition dm9051_register_read (reg_addr : Z) : D (esp_err_t * Z) :=
  r ← bus_read reg_addr 1; mret (r.1, r.2 !!! O).
Definition dm9051_memory_write (buffer : list Z) : D esp_err_t := bus_write DM9051_MWCMD buffer.
Definition dm9051_memory_read (len : Z) : D (esp_err_t * list Z) := bus_read DM9051_MRCMD (Z.to_nat len).

Definition dm9051_mutex_lock : D bool :=
  s ← get;
  match mutex_answers s with
  | false :: l => modify (set_mutex l (mutex_held s));; mret false
  | l => modify (set_mutex (tail l) true);; mret true
  end.
Definition dm9051_mutex_unlock : D unit := modify (λ s, set_mutex (mutex_answers s) false s).

(** ** Set-up *)

(** The loops over the registers of the address and of the hash table. *)
Fixpoint get_mac_from (i n : nat) : D esp_err_t :=
  match n with
  | O => mret ESP_OK
  | S n' =>
      r ← dm9051_register_read (DM9051_PAR + Z.of_nat i);
      mod_emac (λ e, with_addr (<[i := r.2]> (addr e)) e);;
      if decide (r.1 = ESP_OK) then get_mac_from (S i) n' else mret r.1
  end.
Definition dm9051_get_mac_addr : D esp_err_t := get_mac_from 0 ETH_ADDR_LEN.

Fixpoint set_mac_from (i n : nat) : D esp_err_t :=
  match n with
  | O => mret ESP_OK
  | S n' =>
      s ← get;
      then_ (dm9051_register_write (DM9051_PAR + Z.of_nat i) (addr (emac s) !!! i)) (set_mac_from (S i) n')
  end.
Definition dm9051_set_mac_addr : D esp_err_t := set_mac_from 0 ETH_ADDR_LEN.

Fixpoint clear_mar_from (i n : nat) : D esp_err_t :=
  match n with
  | O => mret ESP_OK
  | S n' => then_ (dm9051_register_write (DM9051_MAR + Z.of_nat i) 0) (clear_mar_from (S i) n')
  end.
Definition dm9051_clear_multicast_table : D esp_err_t := clear_mar_from 0 8.

(** [crc32] is [esp_rom_crc32_le(0, addr, ETH_ADDR_LEN)]. *)
Definition hash_of (crc32 : list Z → Z) (a : list Z) : Z := Z.land (u32 (Z.lnot (crc32 a))) 0x3F.

Definition dm9051_hash_filter_modify (crc32 : list Z → Z) (a : list Z) (add : bool) : D esp_err_t :=
  let hash_value := hash_of crc32 a in
  let hash_group := hash_value / 8 in
  let hash_bit := hash_value mod 8 in
  then_val (dm9051_register_read (DM9051_MAR + hash_group)) (λ mar,
    s ← get;
    let cnt := hash_filter_cnt (emac s) in
    let i := Z.to_nat hash_value in
    match cnt !! i with
    | None => fault
    | Some c =>
        if add then
          mod_emac (with_hash_cnt (<[i := u8 (c + 1)]> cnt));;
          dm9051_register_write (DM9051_MAR + hash_group) (Z.lor mar (Z.shiftl 1 hash_bit))
        else
          mod_emac (with_hash_cnt (<[i := u8 (c - 1)]> cnt));;
          dm9051_register_write (DM9051_MAR + hash_group)
            (if u8 (c - 1) =? 0 then Z.ldiff mar (Z.shiftl 1 hash_bit) else mar)
    end).

Definition emac_dm9051_add_mac_filter (crc32 : list Z → Z) (a : list Z) : D esp_err_t :=
  then_ (dm9051_hash_filter_modify crc32 a true) (mret ESP_OK).
Definition emac_dm9051_rm_mac_filter (crc32 : list Z → Z) (a : list Z) : D esp_err_t :=
  then_ (dm9051_hash_filter_modify crc32 a false) (mret ESP_OK).

(** At most [n] polls of the reset bit. *)
Fixpoint wait_reset (n : nat) : D esp_err_t :=
  match n with
  | O => mret ESP_ERR_TIMEOUT
  | S n' => then_val (dm9051_register_read DM9051_NCR) (λ ncr, if negb (flag ncr NCR_RST) then mret ESP_OK else wait_reset n')
  end.
Definition dm9051_reset : D esp_err_t :=
  s ← get;
  then_ (dm9051_register_write DM9051_GPR 0x00)
  (then_ (dm9051_register_write DM9051_NCR NCR_RST)
    (wait_reset (Z.to_nat (sw_reset_timeout_ms (emac s) / 10)))).

Definition dm9051_verify_id : D esp_err_t :=
  then_val (dm9051_register_read DM9051_VIDL) (λ id0,
  then_val (dm9051_register_read DM9051_VIDH) (λ id1,
  if negb ((id1 =? 0x0A) && (id0 =? 0x46)) then mret ESP_ERR_INVALID_VERSION else
  then_val (dm9051_register_read DM9051_PIDL) (λ id0,
  then_val (dm9051_register_read DM9051_PIDH) (λ id1,
  if negb ((id1 =? 0x90) && (id0 =? 0x51)) then mret ESP_ERR_INVALID_VERSION else mret ESP_OK)))).

(** The writes of [dm9051_setup_default], in order. *)
Fixpoint write_registers (l : list (Z * Z)) : D esp_err_t :=
  match l with
  | [] => mret ESP_OK
  | (r, v) :: l' => then_ (dm9051_register_write r v) (write_registers l')
  end.
Definition dm9051_setup_default : D esp_err_t :=
  write_registers [(DM9051_NCR, 0x00); (DM9051_WCR, 0x00); (DM9051_TCR, 0x00); (DM9051_IMR, IMR_PAR);
    (DM9051_RCR, Z.lor RCR_DIS_LONG RCR_DIS_CRC); (DM9051_TCR2, TCR2_RLCP); (DM9051_ATCR, ATCR_AUTO_TX);
    (DM9051_TCSCR, 0x00); (DM9051_RCSCSR, 0x00); (DM9051_INTCR, 0x00); (DM9051_INTCKCR, 0x83); (DM9051_RLENCR, 0x00);
    (DM9051_MEMSCR, 0x00); (DM9051_NSR, NSR_WAKEST); (DM9051_MLEDCR, Z.lor MLEDCR_MOD3 MLEDCR_LED_TYPE_01);
    (DM9051_BCASTCR, 0xc0)].

Definition dm9051_enable_flow_ctrl (enable : bool) : D esp_err_t :=
  if enable then write_registers [(DM9051_BPTR, 0x3F); (DM9051_FCTR, 0x38); (DM9051_FCR, FCR_FLOW_ENABLE)]
  else write_registers [(DM9051_FCR, 0)].

(** Read, change and write back the receive control register. *)
Definition update_rcr (f : Z → Z) : D esp_err_t :=
  then_val (dm9051_register_read DM9051_RCR) (λ rcr, dm9051_register_write DM9051_RCR (f rcr)).

Definition emac_dm9051_start : D esp_err_t :=
  then_ (write_registers [(DM9051_MPTRCR, Z.lor MPTRCR_RST_RX MPTRCR_RST_TX); (DM9051_ISR, ISR_CLR_STATUS);
                          (DM9051_IMR, Z.lor IMR_PAR IMR_PRI)])
    (update_rcr (λ rcr, Z.lor rcr RCR_RXEN)).

Definition emac_dm9051_stop : D esp_err_t :=
  then_ (dm9051_register_write DM9051_IMR IMR_PAR) (update_rcr (λ rcr, Z.ldiff rcr RCR_RXEN)).

Definition emac_dm9051_set_mediator (m : bool) : D esp_err_t :=
  if negb m then mret ESP_ERR_INVALID_ARG else mod_emac (with_eth true);; mret ESP_OK.

(** ** The PHY registers *)

(** The [do ... while] loop on [EPCR]; the local is the time waited. *)
Definition phy_wait_step (timeout_us : Z) (to : Z) : D (Z + esp_err_t) :=
  on_error_val (λ e, mret (inr e)) (dm9051_register_read DM9051_EPCR) (λ epcr,
    let to := to + 100 in
    if flag epcr EPCR_ERRE && (to <? timeout_us) then mret (inl to)
    else mret (inr (if negb (flag epcr EPCR_ERRE) then ESP_OK else ESP_ERR_TIMEOUT))).
Definition emac_dm9051_phy_access_compl (timeout_us : Z) : D esp_err_t :=
  then_val (dm9051_register_read DM9051_EPCR) (λ epcr,
    if flag epcr EPCR_ERRE then iterM (S (Z.to_nat timeout_us)) (phy_wait_step timeout_us) 0 else mret ESP_OK).

(** Run [m] with the mutex. *)
Definition phy_locked (m : D esp_err_t) : D esp_err_t :=
  locked ← dm9051_mutex_lock;
  if negb locked then mret ESP_ERR_TIMEOUT
  else e ← m; dm9051_mutex_unlock;; mret e.

Definition epar (phy_addr phy_reg : Z) : Z := u8 (Z.lor (Z.land (u32 (Z.shiftl phy_addr 6)) 0xFF) phy_reg).

Definition emac_dm9051_write_phy_reg (phy_addr phy_reg reg_value : Z) : D esp_err_t :=
  phy_locked
    (then_ (emac_dm9051_phy_access_compl DM9051_PHY_OPERATION_TIMEOUT_US)
    (then_ (write_registers [(DM9051_EPAR, epar phy_addr phy_reg); (DM9051_EPDRL, Z.land reg_value 0xFF);
                             (DM9051_EPDRH, Z.land (Z.shiftr reg_value 8) 0xFF);
                             (DM9051_EPCR, Z.lor EPCR_EPOS EPCR_ERPRW)])
      (emac_dm9051_phy_access_compl DM9051_PHY_OPERATION_TIMEOUT_US))).

(** [reg_value] is whether the pointer is not null; the result has what is stored there. *)
Definition emac_dm9051_read_phy_reg (phy_addr phy_reg : Z) (reg_value : bool) : D (esp_err_t * option Z) :=
  if negb reg_value then mret (ESP_ERR_INVALID_ARG, None)
  else
    locked ← dm9051_mutex_lock;
    if negb locked then mret (ESP_ERR_TIMEOUT, None)
    else
      let err e : D (esp_err_t * option Z) := mret (e, None) in
      r ← on_error err (emac_dm9051_phy_access_compl DM9051_PHY_OPERATION_TIMEOUT_US)
        (on_error err (write_registers [(DM9051_EPAR, epar phy_addr phy_reg); (DM9051_EPCR, Z.lor EPCR_EPOS EPCR_ERPRR)])
        (on_error err (emac_dm9051_phy_access_compl DM9051_PHY_OPERATION_TIMEOUT_US)
        (on_error_val err (dm9051_register_read DM9051_EPDRH) (λ value_h,
         on_error_val err (dm9051_register_read DM9051_EPDRL) (λ value_l,
           mret (ESP_OK, Some (Z.lor (Z.shiftl value_h 8) value_l)))))));
      dm9051_mutex_unlock;; mret r.

(** ** Control *)

Definition emac_dm9051_set_addr (a : option (list Z)) : D esp_err_t :=
  match a with
  | None => mret ESP_ERR_INVALID_ARG
  | Some a => mod_emac (with_addr a);; then_ dm9051_set_mac_addr (mret ESP_OK)
  end.

Definition emac_dm9051_get_addr (a : bool) : D (esp_err_t * list Z) :=
  if negb a then mret (ESP_ERR_INVALID_ARG, []) else s ← get; mret (ESP_OK, addr (emac s)).

Inductive eth_link_t : Type := ETH_LINK_UP | ETH_LINK_DOWN | ETH_LINK_OTHER.
Inductive eth_speed_t : Type := ETH_SPEED_10M | ETH_SPEED_100M | ETH_SPEED_OTHER.
Inductive eth_duplex_t : Type := ETH_DUPLEX_HALF | ETH_DUPLEX_FULL | ETH_DUPLEX_OTHER.

(** [esp_timer_start_periodic] and [esp_timer_stop] on the poll timer, which exists:
    they fail when it is already started or not started. *)
Definition start_poll_timer : D esp_err_t :=
  s ← get;
  match poll_timer (emac s) with
  | Some false => mod_emac (with_poll_timer (Some true));; mret ESP_OK
  | _ => mret ESP_ERR_INVALID_STATE
  end.
Definition stop_poll_timer : D esp_err_t :=
  s ← get;
  match poll_timer (emac s) with
  | Some true => mod_emac (with_poll_timer (Some false));; mret ESP_OK
  | _ => mret ESP_ERR_INVALID_STATE
  end.

Definition emac_dm9051_set_link (link : eth_link_t) : D esp_err_t :=
  s ← get;
  let has_timer := match poll_timer (emac s) with Some _ => true | None => false end in
  match link with
  | ETH_LINK_UP => then_ emac_dm9051_start (if has_timer then then_ start_poll_timer (mret ESP_OK) else mret ESP_OK)
  | ETH_LINK_DOWN => then_ emac_dm9051_stop (if has_timer then then_ stop_poll_timer (mret ESP_OK) else mret ESP_OK)
  | ETH_LINK_OTHER => mret ESP_ERR_INVALID_ARG
  end.

Definition emac_dm9051_set_speed (speed : eth_speed_t) : D esp_err_t :=
  match speed with ETH_SPEED_OTHER => mret ESP_ERR_INVALID_ARG | _ => mret ESP_OK end.
Definition emac_dm9051_set_duplex (duplex : eth_duplex_t) : D esp_err_t :=
  match duplex with ETH_DUPLEX_OTHER => mret ESP_ERR_INVALID_ARG | _ => mret ESP_OK end.

Definition emac_dm9051_set_promiscuous (enable : bool) : D esp_err_t :=
  update_rcr (λ rcr, if enable then Z.lor rcr RCR_PRMSC else Z.ldiff rcr RCR_PRMSC).
Definition emac_dm9051_set_all_multicast (enable : bool) : D esp_err_t :=
  update_rcr (λ rcr, if enable then Z.lor rcr RCR_ALL_MCAST else Z.ldiff rcr RCR_ALL_MCAST).

Definition emac_dm9051_enable_flow_ctrl (enable : bool) : D esp_err_t := mod_emac (with_flow_ctrl enable);; mret ESP_OK.
Definition emac_dm9051_set_peer_pause_ability (ability : Z) : D esp_err_t :=
  s ← get;
  _ ← dm9051_enable_flow_ctrl (flow_ctrl_enabled (emac s) && negb (ability =? 0));
  mret ESP_OK.

(** ** Transmission *)

Definition esp_timer_get_time : D Z := λ s, Done (set_clock (λ n, clock s (S n)) s) (clock s O).

(** The wait for a free transmit slot; [fuel] bounds the polls. *)
Definition nsr_wait_step (wait_time : Z) (_ : unit) : D (unit + esp_err_t * Z) :=
  on_error_val (λ e, mret (inr (e, 0))) (dm9051_register_read DM9051_NSR) (λ nsr,
    let reg_nsr := Z.land nsr (Z.lor NSR_TX2END NSR_TX1END) in
    if reg_nsr =? 0 then
      t ← esp_timer_get_time;
      if t - wait_time <? 100 then mret (inl ()) else mret (inr (ESP_OK, reg_nsr))
    else mret (inr (ESP_OK, reg_nsr))).

Definition emac_dm9051_transmit (fuel : nat) (buf : list Z) (length : Z) : D esp_err_t :=
  if negb (length <=? ETH_MAX_PACKET_SIZE) then mret ESP_ERR_INVALID_ARG
  else
    wait_time ← esp_timer_get_time;
    then_val (iterM fuel (nsr_wait_step wait_time) ()) (λ reg_nsr,
      if reg_nsr =? 0 then mret ESP_ERR_INVALID_STATE
      else
        then_ (if reg_nsr =? Z.lor NSR_TX2END NSR_TX1END then dm9051_register_write DM9051_MPTRCR MPTRCR_RST_TX else mret ESP_OK)
        (then_ (write_registers [(DM9051_TXPLL, Z.land length 0xFF); (DM9051_TXPLH, Z.land (Z.shiftr length 8) 0xFF)])
          (dm9051_memory_write (take (Z.to_nat length) buf)))).

(** ** Reception *)

Definition dm9051_skip_recv_frame (rx_length : Z) : D esp_err_t :=
  then_val (dm9051_register_read DM9051_MRRH) (λ mrrh,
  then_val (dm9051_register_read DM9051_MRRL) (λ mrrl,
    let a := u16 (Z.lor (Z.shiftl mrrh 8) mrrl + rx_length) in
    let a := if DM9051_RX_MEM_MAX_SIZE <? a then u16 (a - DM9051_RX_MEM_MAX_SIZE + DM9051_RX_MEM_START_ADDR) else a in
    write_registers [(DM9051_MRRL, Z.land a 0xFF); (DM9051_MRRH, Z.shiftr a 8)])).

Definition dm9051_flush_recv_queue : D esp_err_t :=
  then_ emac_dm9051_stop (then_ (dm9051_register_write DM9051_MPTRCR MPTRCR_RST_RX) emac_dm9051_start).

(** [memory_read] into the receive buffer. *)
Definition read_rx_buffer (rx_len : Z) : D esp_err_t :=
  s ← get;
  if zlen (rx_buffer (emac s)) <? rx_len then fault
  else
    r ← dm9051_memory_read rx_len;
    mod_emac (λ e, with_rx_buffer (r.2 ++ drop (length r.2) (rx_buffer e)) e);;
    mret r.1.

Definition rx_error_mask : Z := Z.lor (Z.lor (Z.lor RSR_RF RSR_RWTO) RSR_CE) RSR_FOE.

(** One turn of the loop; the local is [try_again], the result the error and the size. *)
Definition rx_step (try_again : bool) : D (bool + esp_err_t * Z) :=
  let err e : D (bool + esp_err_t * Z) := mret (inr (e, 0)) in
  let again (b : bool) size : D (bool + esp_err_t * Z) := mret (if b then inl true else inr (ESP_OK, size)) in
  on_error_val err (dm9051_register_read DM9051_NSR) (λ reg_nsr,
    if negb (flag reg_nsr NSR_RXRDY) then again try_again 0
    else
      on_error_val err (dm9051_register_read DM9051_MRCMDX) (λ _,
      on_error_val err (dm9051_register_read DM9051_MRCMDX1) (λ rxbyte,
        if negb (rxbyte =? 0x01) then on_error err dm9051_flush_recv_queue (err ESP_FAIL)
        else
          on_error_val err (dm9051_memory_read 4) (λ header,
            let rx_len := u16 (header !!! 2%nat + Z.shiftl (header !!! 3%nat) 8) in
            if negb (rx_len <=? ETH_MAX_PACKET_SIZE) then on_error err dm9051_flush_recv_queue (err ESP_FAIL)
            else
              on_error err (read_rx_buffer rx_len)
                (if flag (header !!! 1%nat) rx_error_mask then _ ← dm9051_skip_recv_frame rx_len; again true 0
                 else again try_again rx_len))))).

Definition dm9051_frame_to_rx_buffer (fuel : nat) : D (esp_err_t * Z) := iterM fuel rx_step false.

(** Where the caller wants the frame: the buffer of the driver, or one of its own with
    its length, which may be null. *)
Inductive rx_dest : Type :=
| Internal
| External (capacity : Z) (null : bool).

(** The error, the length stored through [length] and the bytes copied to the caller. *)
Definition emac_dm9051_receive (fuel : nat) (buf : rx_dest) : D (esp_err_t * Z * list Z) :=
  mod_emac (with_packets_remain false);;
  let err e : D (esp_err_t * Z * list Z) := mret (e, 0, []) in
  on_error_val err (dm9051_frame_to_rx_buffer fuel) (λ byte_count,
    if byte_count =? 0 then err ESP_OK
    else
      let rx_len := u16 (byte_count - ETH_CRC_LEN) in
      s ← get;
      copied ←
        match buf with
        | Internal => mret (Some (rx_len, []))
        | External _ true => mret None
        | External capacity false =>
            let copy_len := if capacity <? rx_len then u16 capacity else rx_len in
            if zlen (rx_buffer (emac s)) <? copy_len then fault
            else mret (Some (copy_len, take (Z.to_nat copy_len) (rx_buffer (emac s))))
        end;
      match copied with
      | None => err ESP_ERR_INVALID_ARG
      | Some (len, bytes) =>
          on_error_val err (dm9051_register_read DM9051_NSR) (λ reg_nsr,
            mod_emac (with_packets_remain (flag reg_nsr NSR_RXRDY));;
            mret (ESP_OK, len, bytes))
      end).

(** ** The task *)

Definition malloc : D bool :=
  s ← get;
  match heap_answers s with
  | b :: l => modify (set_heap_answers l);; mret b
  | [] => mret false
  end.

(** One turn of the inner loop. *)
Definition task_receive_step (fuel : nat) (_ : unit) : D (unit + unit) :=
  r ← emac_dm9051_receive fuel Internal;
  let '(e, buf_len, _) := r in
  (if decide (e = ESP_OK) then
     if 0 <? buf_len then
       buffer ← malloc;
       if (buffer : bool) then
         s ← get;
         if zlen (rx_buffer (emac s)) <? buf_len then fault
         else modify (push_frame (take (Z.to_nat buf_len) (rx_buffer (emac s))))
       else mret ()
     else mret ()
   else mret ());;
  s ← get;
  mret (if packets_remain (emac s) then inl () else inr ()).

(** One turn of the outer loop, after the wait: [woken] is whether there was a
    notification or, in interrupt mode, an asserted interrupt line. *)
Definition emac_dm9051_task (fuel : nat) (woken : bool) : D unit :=
  s ← get;
  if (0 <=? int_gpio_num (emac s)) && negb woken then mret ()
  else
    status ← dm9051_register_read DM9051_ISR;
    _ ← dm9051_register_write DM9051_ISR status.2;
    if flag status.2 ISR_PR then iterM fuel (task_receive_step fuel) () else mret ().

(** ** Life of the driver *)

(** [eth->on_state_changed]. *)
Definition on_state_changed (state : eth_state_t) : D esp_err_t :=
  s ← get;
  match mediator_answers s with
  | e :: l => modify (set_mediator l (mediator_calls s ++ [state]));; mret e
  | [] => modify (set_mediator [] (mediator_calls s ++ [state]));; mret ESP_OK
  end.

Definition emac_dm9051_init : D esp_err_t :=
  s ← get;
  let interrupts := 0 <=? int_gpio_num (emac s) in
  (if interrupts then modify (set_isr true) else mret ());;
  ret ← then_ (on_state_changed ETH_STATE_LLINIT)
    (then_ dm9051_reset (then_ dm9051_verify_id (then_ dm9051_setup_default
      (then_ dm9051_clear_multicast_table dm9051_get_mac_addr))));
  if decide (ret = ESP_OK) then mret ESP_OK
  else
    (if interrupts then modify (set_isr false) else mret ());;
    _ ← on_state_changed ETH_STATE_DEINIT;
    mret ret.

Definition emac_dm9051_deinit : D esp_err_t :=
  s ← get;
  _ ← emac_dm9051_stop;
  (if 0 <=? int_gpio_num (emac s) then modify (set_isr false) else mret ());;
  (if decide (poll_timer (emac s) = Some true) then mod_emac (with_poll_timer (Some false)) else mret ());;
  _ ← on_state_changed ETH_STATE_DEINIT;
  mret ESP_OK.

End driver.
