(* ===== verification/Dm9051New.v ===== *)
(** * Creation and deletion of the DM9051 driver

    Model of [dm9051_spi_init], [dm9051_spi_deinit], [esp_eth_mac_new_dm9051] and
    [emac_dm9051_del]: the state is the list of resources held, and a supply of
    answers of the functions that acquire them. *)
From Stdlib Require Import ZArith Lia.
From stdpp Require Import base numbers option list.
From S2P Require Import Prelude Dm9051.

Open Scope Z_scope.

Inductive resource : Type :=
| EmacMem | SpiMem | SpiDevice | SpiLock | CustomSpi | RegMutex | RxTask | RxBuffer | PollTimer.

#[export] Instance resource_eq_dec : EqDecision resource.
Proof. solve_decision. Defined.

Record res_state : Type := mkRes { held : list resource; answers : list bool }.
Definition RS (A : Type) : Type := M res_state A.

(** Acquire a resource: the next answer says whether it works. *)
Definition acquire (r : resource) : RS bool := λ s,
  match answers s with
  | true :: l => Done (mkRes (r :: held s) l) true
  | false :: l => Done (mkRes (held s) l) false
  | [] => Done s false
  end.

Fixpoint remove_one (r : resource) (l : list resource) : list resource :=
  match l with [] => [] | x :: l' => if decide (x = r) then l' else x :: remove_one r l' end.

(** Releasing what is not held is a fault. *)
Definition release (r : resource) : RS unit := λ s,
  if decide (r ∈ held s) then Done (mkRes (remove_one r (held s)) (answers s)) () else MemFault.

Definition release_if (b : bool) (r : resource) : RS unit := if b then release r else mret ().

(** The parts of the configuration that are looked at. *)
Record eth_dm9051_config_t : Type := mkConfig {
  cfg_int_gpio_num : Z; cfg_poll_period_ms : Z; command_bits : Z; address_bits : Z; custom_spi_driver : bool
}.

Definition dm9051_spi_init (c : eth_dm9051_config_t) : RS bool :=
  spi ← acquire SpiMem;
  if negb spi then mret false
  else if negb ((command_bits c =? 0) && (address_bits c =? 0)) && negb ((command_bits c =? 1) && (address_bits c =? 7))
  then release SpiMem;; mret false
  else
    hdl ← acquire SpiDevice;
    if negb hdl then release SpiMem;; mret false
    else
      lock ← acquire SpiLock;
      if negb lock then release SpiMem;; mret false else mret true.

Definition dm9051_spi_deinit : RS unit := release SpiDevice;; release SpiLock;; release SpiMem.

Definition spi_init (c : eth_dm9051_config_t) : RS bool :=
  if custom_spi_driver c then acquire CustomSpi else dm9051_spi_init c.
Definition spi_deinit (c : eth_dm9051_config_t) : RS unit :=
  if custom_spi_driver c then release CustomSpi else dm9051_spi_deinit.

(** The clean-up at [err], with what the object holds by then. *)
Definition new_err (c : eth_dm9051_config_t) (poll_timer rx_task spi_ctx mutex rx_buffer : bool) : RS (option unit) :=
  release_if poll_timer PollTimer;;
  release_if rx_task RxTask;;
  (if spi_ctx then spi_deinit c else mret ());;
  release_if mutex RegMutex;;
  release_if rx_buffer RxBuffer;;
  release EmacMem;;
  mret None.

(** [Some ()] is a driver object. *)
Definition esp_eth_mac_new_dm9051 (dm9051_config : option eth_dm9051_config_t) (mac_config : bool) : RS (option unit) :=
  match dm9051_config with
  | None => mret None
  | Some c =>
      if negb mac_config then mret None
      else if negb (xorb (0 <=? cfg_int_gpio_num c) (0 <? cfg_poll_period_ms c)) then mret None
      else
        emac ← acquire EmacMem;
        if negb emac then mret None
        else
          ctx ← spi_init c;
          if negb ctx then new_err c false false false false false
          else
            mutex ← acquire RegMutex;
            if negb mutex then new_err c false false true false false
            else
              task ← acquire RxTask;
              if negb task then new_err c false false true true false
              else
                buf ← acquire RxBuffer;
                if negb buf then new_err c false true true true false
                else if cfg_int_gpio_num c <? 0 then
                  timer ← acquire PollTimer;
                  if negb timer then new_err c false true true true true else mret (Some ())
                else mret (Some ())
  end.

Definition emac_dm9051_del (c : eth_dm9051_config_t) : RS esp_err_t :=
  release_if (cfg_int_gpio_num c <? 0) PollTimer;;
  release RxTask;;
  spi_deinit c;;
  release RegMutex;;
  release RxBuffer;;
  release EmacMem;;
  mret ESP_OK.

(** ** Properties *)

(** The answers of [new] in one place: the leak needs the SPI lock to be refused. *)
Definition lock_refused (c : eth_dm9051_config_t) (ans : list bool) : Prop :=
  custom_spi_driver c = false ∧ take 3 ans = [true; true; true] ∧ ans !! 3%nat ≠ Some true.

(** Run the code on the next answer, and close the cases that end there. *)
Ltac next_answer ans :=
  destruct ans as [|[] ans]; try solve [by cbv].

(** Creation of the driver is all or nothing: with every configuration and every
    pattern of failures but one (the lock of the default SPI functions), a failed
    creation holds nothing, and deleting a created driver gives back everything.  No
    path releases what it does not hold. *)
Theorem dm9051_new_balanced gpio period cb ab custom ans :
  let c := mkConfig gpio period cb ab custom in
  ¬ lock_refused c ans →
  wp (esp_eth_mac_new_dm9051 (Some c) true) (mkRes [] ans) (λ r s,
    match r with
    | None => held s = []
    | Some _ => wp (emac_dm9051_del c) s (λ e s', e = ESP_OK ∧ held s' = [])
    end).
Proof.
  intros c Hl. subst c.
  unfold esp_eth_mac_new_dm9051, emac_dm9051_del, spi_init, dm9051_spi_init. cbn [cfg_int_gpio_num cfg_poll_period_ms
    command_bits address_bits custom_spi_driver negb].
  destruct (xorb (0 <=? gpio) (0 <? period)); [|done].
  destruct (negb ((cb =? 0) && (ab =? 0)) && negb ((cb =? 1) && (ab =? 7))), (gpio <? 0), custom;
    do 8 (try next_answer ans).
  all: exfalso; apply Hl; split; [done|split; [done|by intros [=]]].
Qed.

Lemma dm9051_new_balanced_witness :
  wp (esp_eth_mac_new_dm9051 (Some (mkConfig 4 0 0 0 false)) true) (mkRes [] [true; true; true; true; true; true; false])
    (λ r s, match r with
            | None => held s = []
            | Some _ => wp (emac_dm9051_del (mkConfig 4 0 0 0 false)) s (λ e s', e = ESP_OK ∧ held s' = [])
            end).
Proof. apply (dm9051_new_balanced 4 0 0 0 false). by intros (_ & _ & []). Defined.

(** When the lock of the default SPI functions cannot be created, creation fails
    and the device stays on the SPI bus: nothing can remove it any more. *)
Theorem dm9051_new_leaks_device gpio period :
  xorb (0 <=? gpio) (0 <? period) = true →
  ∃ s, esp_eth_mac_new_dm9051 (Some (mkConfig gpio period 0 0 false)) true (mkRes [] [true; true; true; false]) = Done s None ∧
    held s = [SpiDevice].
Proof.
  intros Hx. unfold esp_eth_mac_new_dm9051. cbn [cfg_int_gpio_num cfg_poll_period_ms negb]. rewrite Hx.
  eexists. split; [reflexivity|reflexivity].
Qed.

Lemma dm9051_new_leaks_device_witness :
  ∃ s, esp_eth_mac_new_dm9051 (Some (mkConfig 4 0 0 0 false)) true (mkRes [] [true; true; true; false]) = Done s None ∧
    held s = [SpiDevice].
Proof. exact (dm9051_new_leaks_device 4 0 eq_refl). Defined.
