(* ===== verification/Dm9051Safe.v ===== *)
(** * The DM9051 driver with any chip

    What holds whatever the chip and the SPI driver answer: register sequences change
    nothing but the chip, the waits for the PHY end, the mutex is released on every
    path, and what the receive loop does once it has seen an erroneous frame. *)
From Stdlib Require Import ZArith Lia.
From stdpp Require Import base numbers option list.
From S2P Require Import Prelude Dm9051.

Open Scope Z_scope.

Section any_chip.
Context {dev : Type} `{SpiDriver dev}.
Abbreviation st := (dm9051_state dev).
Implicit Types s : st.

(** ** Only the chip changes *)

Definition chip_only s s' : Prop := s' = set_chip (chip s') s.

Lemma chip_only_refl s : chip_only s s.
Proof. by destruct s. Qed.

Lemma chip_only_trans s1 s2 s3 : chip_only s1 s2 → chip_only s2 s3 → chip_only s1 s3.
Proof. unfold chip_only. intros E1 E2. rewrite E2, E1. done. Qed.

(** [m] ends and changes only the chip. *)
Definition on_chip {A} (m : D (dev := dev) A) : Prop := ∀ s, wp m s (λ _ s', chip_only s s').

Lemma on_chip_ret {A} (a : A) : on_chip (mret a).
Proof. intros s. apply chip_only_refl. Qed.

Lemma on_chip_bind {A B} (m : D A) (k : A → D B) : on_chip m → (∀ a, on_chip (k a)) → on_chip (m ≫= k).
Proof.
  intros Hm Hk s. apply wp_bind. eapply wp_mono; [apply Hm|]. intros a s1 H1.
  eapply wp_mono; [apply Hk|]. intros b s2 H2. exact (chip_only_trans _ _ _ H1 H2).
Qed.

Lemma on_chip_error {A} (fail : esp_err_t → D A) m k :
  (∀ e, on_chip (fail e)) → on_chip m → on_chip k → on_chip (on_error fail m k).
Proof. intros. apply on_chip_bind; [done|]. intros e. by case_decide. Qed.

Lemma on_chip_error_val {A B} (fail : esp_err_t → D B) (m : D (esp_err_t * A)) k :
  (∀ e, on_chip (fail e)) → on_chip m → (∀ a, on_chip (k a)) → on_chip (on_error_val fail m k).
Proof. intros. apply on_chip_bind; [done|]. intros [e a]. by case_decide. Qed.

Lemma on_chip_read r n : on_chip (bus_read r n).
Proof. intros s. unfold wp, bus_read. by destruct (spi_read _ _ _ _) as [[c e] d]. Qed.

Lemma on_chip_write r d : on_chip (bus_write r d).
Proof. intros s. unfold wp, bus_write. by destruct (spi_write _ _ _ _) as [c e]. Qed.

Lemma on_chip_reg_read r : on_chip (dm9051_register_read r).
Proof. apply on_chip_bind; [apply on_chip_read|]. intros. apply on_chip_ret. Qed.

Lemma on_chip_reg_write r v : on_chip (dm9051_register_write r v).
Proof. apply on_chip_write. Qed.

Lemma on_chip_then m k : on_chip m → on_chip k → on_chip (then_ m k).
Proof. intros. apply on_chip_error; [|done|done]. intros. apply on_chip_ret. Qed.

Lemma on_chip_then_val {A} (m : D (esp_err_t * A)) k : on_chip m → (∀ a, on_chip (k a)) → on_chip (then_val m k).
Proof. intros. apply on_chip_error_val; [|done|done]. intros. apply on_chip_ret. Qed.

#[local] Hint Resolve on_chip_ret on_chip_reg_read on_chip_reg_write on_chip_then on_chip_then_val
  on_chip_error on_chip_error_val : esp.

Lemma on_chip_writes l : on_chip (write_registers l).
Proof. induction l as [|[r v] l IH]; simpl; auto with esp. Qed.

Lemma on_chip_rcr f : on_chip (update_rcr f).
Proof. unfold update_rcr. auto with esp. Qed.

#[local] Hint Resolve on_chip_writes on_chip_rcr : esp.

Lemma on_chip_start : on_chip emac_dm9051_start.
Proof. unfold emac_dm9051_start. auto with esp. Qed.

Lemma on_chip_stop : on_chip emac_dm9051_stop.
Proof. unfold emac_dm9051_stop. auto with esp. Qed.

#[local] Hint Resolve on_chip_start on_chip_stop : esp.

Lemma on_chip_flush : on_chip dm9051_flush_recv_queue.
Proof. unfold dm9051_flush_recv_queue. auto with esp. Qed.

Lemma on_chip_skip n : on_chip (dm9051_skip_recv_frame n).
Proof. unfold dm9051_skip_recv_frame. auto with esp. Qed.

(** The wait for the PHY ends: it polls every 100 us until the time is over. *)
Lemma on_chip_phy_compl t : 0 ≤ t → on_chip (emac_dm9051_phy_access_compl t).
Proof.
  intros Ht. apply on_chip_error_val; [intros; apply on_chip_ret|apply on_chip_reg_read|]. intros epcr.
  destruct (flag epcr EPCR_ERRE); [|apply on_chip_ret]. intros s.
  apply (wp_iter _ (λ n to s', chip_only s s' ∧ n = Z.to_nat (t - to) ∧ 0 ≤ to)) with (n := Z.to_nat t); [| |lia].
  - intros n to s1 (Hc & -> & Hto). unfold phy_wait_step, on_error_val. apply wp_bind.
    eapply wp_mono; [apply on_chip_reg_read|]. intros [e v] s2 H2. simpl.
    assert (chip_only s s2) by exact (chip_only_trans _ _ _ Hc H2).
    case_decide; [|by wp_steps]. destruct (flag v EPCR_ERRE && (to + 100 <? t)) eqn:E; wp_steps; [|done].
    apply andb_true_iff in E as [_ E%Z.ltb_lt]. exists (Z.to_nat (t - (to + 100))). split; [lia|]. split; [done|lia].
  - split; [apply chip_only_refl|]. split; [f_equal; lia|lia].
Qed.

(** The wait of the driver. *)
Lemma on_chip_phy_wait : on_chip (emac_dm9051_phy_access_compl DM9051_PHY_OPERATION_TIMEOUT_US).
Proof. by apply on_chip_phy_compl. Qed.

#[local] Hint Resolve on_chip_phy_wait : esp.

(** One access, when its outcome is known. *)
Lemma wp_reg_read r s c e v (Q : esp_err_t * Z → st → Prop) :
  spi_read DM9051_SPI_RD r 1 (chip s) = (c, e, [v]) → Q (e, u8 v) (set_chip c s) → wp (dm9051_register_read r) s Q.
Proof. intros E HQ. unfold dm9051_register_read, bus_read. apply wp_bind. unfold wp. by rewrite E. Qed.

Lemma wp_reg_write r v s c e (Q : esp_err_t → st → Prop) :
  spi_write DM9051_SPI_WR r [u8 v] (chip s) = (c, e) → Q e (set_chip c s) → wp (dm9051_register_write r v) s Q.
Proof. intros E HQ. unfold dm9051_register_write, bus_write, wp. by rewrite E. Qed.

(** ** The mutex *)

(** The mutex is taken and given back: the driver state and the lock are as before. *)
Definition lock_balanced s s' : Prop := mutex_held s' = mutex_held s ∧ emac s' = emac s.

Lemma locked_balanced {A} (m : D A) (k : A → D A) s (fail : A) :
  mutex_held s = false → on_chip m → (∀ a, k a = (dm9051_mutex_unlock;; mret a)) →
  wp (locked ← dm9051_mutex_lock; if negb locked then mret fail else a ← m; k a) s (λ _ s', lock_balanced s s').
Proof.
  intros Hfree Hm Hk. wp_steps. unfold dm9051_mutex_lock. wp_steps.
  destruct (mutex_answers s) as [|[] l]; wp_steps; cbn [negb]; wp_steps; [| |done];
    (eapply wp_mono; [apply Hm|]; intros a s' Hs; rewrite Hk; unfold dm9051_mutex_unlock; wp_steps; split; simpl; [done|by rewrite Hs]).
Qed.

(** Reading and writing a PHY register always ends, whatever the chip answers and
    at whatever access it fails, and gives back the mutex. *)
Theorem phy_mutex_balanced s pa pr v b :
  mutex_held s = false →
  wp (emac_dm9051_write_phy_reg pa pr v) s (λ _ s', lock_balanced s s') ∧
  wp (emac_dm9051_read_phy_reg pa pr b) s (λ _ s', lock_balanced s s').
Proof.
  intros Hfree. split.
  - unfold emac_dm9051_write_phy_reg, phy_locked. apply locked_balanced; [done| |done].
    auto 10 with esp.
  - unfold emac_dm9051_read_phy_reg. destruct b; cbn [negb]; [|by wp_steps].
    apply locked_balanced; [done| |done].
    auto 10 with esp.
Qed.

(** ** The receive loop *)

Definition buffer_ok s : Prop := zlen (rx_buffer (emac s)) = ETH_MAX_PACKET_SIZE.

Lemma as_bytes_length n d : length (as_bytes n d) = n.
Proof. apply length_resize. Qed.

Lemma chip_only_buffer s s' : chip_only s s' → buffer_ok s → buffer_ok s'.
Proof. unfold buffer_ok. by intros ->. Qed.

Lemma read_rx_buffer_ok n s :
  buffer_ok s → 0 ≤ n ≤ ETH_MAX_PACKET_SIZE → wp (read_rx_buffer n) s (λ _ s', buffer_ok s').
Proof.
  intros Hb Hn. unfold read_rx_buffer. wp_steps. rewrite Hb, (proj2 (Z.ltb_ge _ _)) by lia. wp_steps.
  unfold dm9051_memory_read, bus_read, wp. destruct (spi_read _ _ _ _) as [[c e] d]. simpl.
  unfold buffer_ok in *. simpl. rewrite zlen_app. unfold zlen in *. rewrite length_drop, as_bytes_length. lia.
Qed.

(** A turn of the loop is memory safe, and after an erroneous frame it never ends the
    loop with success. *)
Lemma rx_step_ok b s :
  buffer_ok s →
  wp (rx_step b) s (λ r s', buffer_ok s' ∧ (b = true → ∀ size, r ≠ inr (ESP_OK, size)) ∧ r ≠ inl false ∧
    ∀ e size, r = inr (e, size) → 0 ≤ size ≤ ETH_MAX_PACKET_SIZE).
Proof.
  intros Hb. unfold rx_step.
  set (Q := λ (r : bool + esp_err_t * Z) (s' : st), _).
  assert (Herr : ∀ e s', e ≠ ESP_OK → buffer_ok s' → Q (inr (e, 0)) s').
  { intros e s' He Hs. split; [done|]. split; [intros _ size [= ->]; done|]. split; [done|].
    intros e' size [= <- <-]. done. }
  assert (Hagain : ∀ b' size s', (b = true → b' = true) → buffer_ok s' → 0 ≤ size ≤ ETH_MAX_PACKET_SIZE →
    Q (if b' then inl true else inr (ESP_OK, size)) s').
  { intros b' size s' Hbb Hs Hz. split; [done|]. destruct b'; split; try done; [|split; [done|]].
    - by intros E%Hbb.
    - by intros e' size' [= <- <-]. }
  assert (Hflush : ∀ s', buffer_ok s' →
    wp (on_error (λ e, mret (inr (e, 0))) dm9051_flush_recv_queue (mret (inr (ESP_FAIL, 0)))) s' Q).
  { intros s' Hs. unfold on_error. apply wp_bind. eapply wp_mono; [apply on_chip_flush|]. intros e s2 H2. simpl.
    apply (chip_only_buffer _ _ H2) in Hs. case_decide; wp_steps; by apply Herr. }
  unfold on_error_val at 1. apply wp_bind. eapply wp_mono; [apply on_chip_reg_read|]. intros [e nsr] s1 H1. simpl.
  apply (chip_only_buffer _ _ H1) in Hb. case_decide; [|by wp_steps; apply Herr].
  destruct (flag nsr NSR_RXRDY); simpl; [|wp_steps; by apply Hagain].
  do 2 (unfold on_error_val at 1; apply wp_bind; eapply wp_mono; [apply on_chip_reg_read|];
    intros [? ?] ? Hs; simpl; apply (chip_only_buffer _ _ Hs) in Hb; clear Hs; case_decide; [|by wp_steps; apply Herr]).
  destruct (_ =? 1); simpl; [|by apply Hflush].
  unfold on_error_val at 1. apply wp_bind. eapply wp_mono; [apply on_chip_read|]. intros [e4 hd] s4 H4. simpl.
  apply (chip_only_buffer _ _ H4) in Hb. case_decide; [|by wp_steps; apply Herr].
  set (len := u16 _). assert (0 ≤ len) by (unfold len, u16; apply Z.mod_pos_bound; lia).
  destruct (Z.leb_spec len ETH_MAX_PACKET_SIZE); simpl; [|by apply Hflush].
  unfold on_error at 1. apply wp_bind. eapply wp_mono; [by apply read_rx_buffer_ok|]. intros e5 s5 Hb5. simpl.
  case_decide; [|by wp_steps; apply Herr].
  destruct (flag _ rx_error_mask); wp_steps; [|by apply Hagain].
  eapply wp_mono; [apply on_chip_skip|]. intros e6 s6 Hsk. simpl. wp_steps.
  apply (Hagain true 0); [done|exact (chip_only_buffer _ _ Hsk Hb5)|done].
Qed.

(** The loop never touches memory outside the receive buffer, whatever the chip says. *)
Lemma frame_to_rx_buffer_safe fuel s :
  buffer_ok s → wlp (dm9051_frame_to_rx_buffer fuel) s (λ r s', buffer_ok s' ∧ 0 ≤ r.2 ≤ ETH_MAX_PACKET_SIZE).
Proof.
  intros Hb. apply (wlp_iter _ (λ _ s', buffer_ok s')); [|done].
  intros b s1 H1. eapply wp_mono; [by apply rx_step_ok|]. intros [b'|[e z]] s2 (H2 & _ & _ & H3); [done|].
  split; [done|]. by eapply H3.
Qed.

(** Once [try_again] is set the loop does not end with success. *)
Lemma try_again_never_succeeds fuel s s' size :
  buffer_ok s → iterM fuel rx_step true s = Done s' (ESP_OK, size) → False.
Proof.
  revert s. induction fuel as [|fuel IH]; intros s Hb; [done|]. simpl. unfold mbind, M_bind.
  destruct (wp_done _ _ _ (rx_step_ok true s Hb)) as (r & s1 & -> & Hb1 & Hr & Hf & _).
  destruct r as [[]|[e z]]; [by apply IH|done|]. unfold mret, M_ret. intros [= -> -> ->]. by eapply Hr.
Qed.

(** Once the receive loop has seen an erroneous frame it cannot return a frame any
    more: every run that ends reports an error, whatever frames follow, because
    [try_again] is never reset. *)
Theorem error_frame_blocks_receive fuel s s1 s' r :
  buffer_ok s → rx_step false s = Done s1 (inl true) →
  dm9051_frame_to_rx_buffer fuel s = Done s' r → r.1 ≠ ESP_OK.
Proof.
  intros Hb Hstep Hrun E. destruct r as [e size]. simpl in E. subst e.
  destruct fuel as [|fuel]; [done|]. unfold dm9051_frame_to_rx_buffer in Hrun. simpl in Hrun.
  unfold mbind, M_bind in Hrun. rewrite Hstep in Hrun.
  destruct (wp_done _ _ _ (rx_step_ok false s Hb)) as (r & s2 & E2 & Hb2 & _). rewrite Hstep in E2.
  injection E2 as <- <-. by eapply try_again_never_succeeds.
Qed.

End any_chip.
