(* ===== verification/Dm9051Rx.v ===== *)
(** * Reception with the DM9051

    [RxChip] states what the comments of [dm9051.h] say of the receive memory: NSR tells
    whether a frame is ready, ISR whether one was received since its bit was last cleared,
    which is done by writing the bit back, MRCMDX and MRCMDX1 show the next byte, MRCMD
    reads bytes and moves the read address, which MRRH and MRRL hold and which returns
    to the start of the receive memory at its end (IMR_PAR).  No frame arrives during a
    turn of the task.  With such a chip the task passes up the frames in order. *)
From Stdlib Require Import ZArith Lia.
From stdpp Require Import base numbers option list.
From S2P Require Import Prelude Dm9051 Dm9051Safe.

Open Scope Z_scope.

(** The read address after [n] bytes. *)
Definition rx_advance (p n : Z) : Z :=
  if DM9051_RX_MEM_MAX_SIZE <=? p + n then p + n - DM9051_RX_MEM_MAX_SIZE + DM9051_RX_MEM_START_ADDR else p + n.

Class RxChip (dev : Type) `{SpiDriver dev} : Type := {
  rx_bytes : dev → list Z;
  rx_ptr : dev → Z;
  received : dev → bool;
  read_ready c :
    ∃ c' v, spi_read DM9051_SPI_RD DM9051_NSR 1 c = (c', ESP_OK, [v]) ∧ 0 ≤ v < 256 ∧
      flag v NSR_RXRDY = bool_decide (rx_bytes c ≠ []) ∧ rx_bytes c' = rx_bytes c ∧ rx_ptr c' = rx_ptr c ∧ received c' = received c;
  read_interrupt c :
    ∃ c' v, spi_read DM9051_SPI_RD DM9051_ISR 1 c = (c', ESP_OK, [v]) ∧ 0 ≤ v < 256 ∧
      flag v ISR_PR = received c ∧ rx_bytes c' = rx_bytes c ∧ rx_ptr c' = rx_ptr c ∧ received c' = received c;
  clear_interrupt c v :
    ∃ c', spi_write DM9051_SPI_WR DM9051_ISR [v] c = (c', ESP_OK) ∧ rx_bytes c' = rx_bytes c ∧
      received c' = received c && negb (flag v ISR_PR);
  peek c r : r = DM9051_MRCMDX ∨ r = DM9051_MRCMDX1 →
    ∃ c', spi_read DM9051_SPI_RD r 1 c = (c', ESP_OK, [default 0 (head (rx_bytes c))]) ∧ rx_bytes c' = rx_bytes c ∧
      rx_ptr c' = rx_ptr c ∧ received c' = received c;
  read_memory c n : (n ≤ length (rx_bytes c))%nat →
    ∃ c', spi_read DM9051_SPI_RD DM9051_MRCMD n c = (c', ESP_OK, take n (rx_bytes c)) ∧ rx_bytes c' = drop n (rx_bytes c) ∧
      rx_ptr c' = rx_advance (rx_ptr c) (Z.of_nat n) ∧ received c' = received c;
  read_ptr_high c : ∃ c', spi_read DM9051_SPI_RD DM9051_MRRH 1 c = (c', ESP_OK, [rx_ptr c / 256]) ∧ rx_ptr c' = rx_ptr c;
  read_ptr_low c : ∃ c', spi_read DM9051_SPI_RD DM9051_MRRL 1 c = (c', ESP_OK, [rx_ptr c mod 256]) ∧ rx_ptr c' = rx_ptr c;
  write_ptr_high c v : ∃ c', spi_write DM9051_SPI_WR DM9051_MRRH [v] c = (c', ESP_OK) ∧ rx_ptr c' = v * 256 + rx_ptr c mod 256;
  write_ptr_low c v : ∃ c', spi_write DM9051_SPI_WR DM9051_MRRL [v] c = (c', ESP_OK) ∧ rx_ptr c' = rx_ptr c / 256 * 256 + v
}.

Definition is_byte (z : Z) : Prop := 0 ≤ z < 256.

(** A frame in the receive memory: the header of [dm9051_rx_header_t] and the data,
    which end with the 4 bytes of the CRC. *)
Record rx_frame : Type := mkFrame { f_status : Z; f_data : list Z }.
Definition frame_bytes (f : rx_frame) : list Z :=
  [1; f_status f; zlen (f_data f) mod 256; zlen (f_data f) / 256] ++ f_data f.
Definition frame_payload (f : rx_frame) : list Z := take (Z.to_nat (zlen (f_data f) - ETH_CRC_LEN)) (f_data f).

Record frame_wf (f : rx_frame) : Prop := {
  fw_status : is_byte (f_status f);
  fw_data : Forall is_byte (f_data f);
  fw_len : zlen (f_data f) ≤ ETH_MAX_PACKET_SIZE
}.
(** A frame without errors that is longer than its CRC. *)
Definition good_frame (f : rx_frame) : Prop :=
  frame_wf f ∧ ETH_CRC_LEN < zlen (f_data f) ∧ flag (f_status f) rx_error_mask = false.

Section rx.
Context {dev : Type} `{RxChip dev}.
Abbreviation st := (dm9051_state dev).
Implicit Types s : st.

Lemma as_bytes_id l : Forall is_byte l → as_bytes (length l) l = l.
Proof.
  intros Hl. unfold as_bytes. replace (u8 <$> l) with l; [by rewrite resize_all|].
  symmetry. rewrite <- (list_fmap_id l) at 2. apply list_fmap_ext. intros i x Hx.
  rewrite Forall_forall in Hl. apply Z.mod_small, Hl. by eapply list_elem_of_lookup_2.
Qed.

(** ** Reading the chip *)

Lemma wp_read_ready s (Q : esp_err_t * Z → st → Prop) :
  (∀ c v, flag v NSR_RXRDY = bool_decide (rx_bytes (chip s) ≠ []) → rx_bytes c = rx_bytes (chip s) →
    rx_ptr c = rx_ptr (chip s) → received c = received (chip s) → Q (ESP_OK, v) (set_chip c s)) →
  wp (dm9051_register_read DM9051_NSR) s Q.
Proof.
  intros HQ. destruct (read_ready (chip s)) as (c & v & E & Hv & Hf & Hrx & Hp & Hi).
  eapply wp_reg_read; [exact E|]. apply HQ; [|done..]. unfold u8. by rewrite Z.mod_small.
Qed.

(** The interrupt status is read and written back. *)
Lemma wp_take_interrupt s (k : Z → D unit) (Q : unit → st → Prop) :
  (∀ c v, flag v ISR_PR = received (chip s) → rx_bytes c = rx_bytes (chip s) → received c = false → wp (k v) (set_chip c s) Q) →
  wp (status ← dm9051_register_read DM9051_ISR; _ ← dm9051_register_write DM9051_ISR status.2; k status.2) s Q.
Proof.
  intros HQ. destruct (read_interrupt (chip s)) as (c1 & v & E1 & Hv & Hf & Hr1 & _ & Hi1). apply wp_bind.
  eapply wp_reg_read; [exact E1|]. cbn [snd]. assert (u8 v = v) as -> by (unfold u8; by rewrite Z.mod_small). apply wp_bind.
  destruct (clear_interrupt c1 v) as (c2 & E2 & Hr2 & Hi2). eapply wp_reg_write; [cbn [chip set_chip]; unfold u8; rewrite Z.mod_small by done; exact E2|].
  apply (HQ c2); [done|congruence|]. rewrite Hi2, Hi1, Hf. by destruct (received (chip s)).
Qed.

Lemma wp_peek r s (Q : esp_err_t * Z → st → Prop) x l :
  r = DM9051_MRCMDX ∨ r = DM9051_MRCMDX1 → rx_bytes (chip s) = x :: l → is_byte x →
  (∀ c : dev, rx_bytes c = rx_bytes (chip s) → rx_ptr c = rx_ptr (chip s) → received c = received (chip s) → Q (ESP_OK, x) (set_chip c s)) →
  wp (dm9051_register_read r) s Q.
Proof.
  intros Hr Hx Hb HQ. destruct (peek (chip s) r Hr) as (c & E & Hrx & Hp & Hi).
  eapply wp_reg_read; [rewrite E, Hx; done|]. unfold u8. rewrite Z.mod_small by done. by apply HQ.
Qed.

Lemma wp_memory_read n l rest s (Q : esp_err_t * list Z → st → Prop) :
  rx_bytes (chip s) = l ++ rest → Forall is_byte l → n = zlen l →
  (∀ c : dev, rx_bytes c = rest → rx_ptr c = rx_advance (rx_ptr (chip s)) n → received c = received (chip s) → Q (ESP_OK, l) (set_chip c s)) →
  wp (dm9051_memory_read n) s Q.
Proof.
  intros Hx Hb -> HQ. unfold zlen. destruct (read_memory (chip s) (length l)) as (c & E & Hrx & Hp & Hi).
  { rewrite Hx, length_app. lia. }
  unfold dm9051_memory_read, bus_read, wp. rewrite Nat2Z.id, E, Hx, take_app_length.
  rewrite as_bytes_id by done. apply HQ; [|done..]. rewrite Hrx, Hx. by apply drop_app_length.
Qed.

(** ** One frame *)

(** The header gives the length back. *)
Lemma header_length f :
  frame_wf f →
  u16 (frame_bytes f !!! 2%nat + Z.shiftl (frame_bytes f !!! 3%nat) 8) = zlen (f_data f).
Proof.
  intros [_ _ Hl]. simpl. rewrite Z.shiftl_mul_pow2 by lia. unfold u16, ETH_MAX_PACKET_SIZE in *.
  pose proof (zlen_nonneg (f_data f)). change (2 ^ 8) with 256. change (2 ^ 16) with 65536.
  rewrite Z.mod_small; [rewrite (Z.div_mod (zlen (f_data f)) 256) at 3; lia|].
  Z.to_euclidean_division_equations. lia.
Qed.

Lemma header_bytes f : frame_wf f → Forall is_byte (take 4 (frame_bytes f)).
Proof.
  intros [Hs _ Hl]. simpl. pose proof (zlen_nonneg (f_data f)). unfold ETH_MAX_PACKET_SIZE, is_byte in *.
  repeat constructor; try lia; Z.to_euclidean_division_equations; lia.
Qed.

(** Reading the data of a frame into the receive buffer. *)
Lemma wp_read_rx_buffer l rest s (Q : esp_err_t → st → Prop) :
  buffer_ok s → rx_bytes (chip s) = l ++ rest → Forall is_byte l → zlen l ≤ ETH_MAX_PACKET_SIZE →
  (∀ c : dev, rx_bytes c = rest → rx_ptr c = rx_advance (rx_ptr (chip s)) (zlen l) → received c = received (chip s) →
     Q ESP_OK (set_emac (with_rx_buffer (l ++ drop (length l) (rx_buffer (emac s))) (emac s)) (set_chip c s))) →
  wp (read_rx_buffer (zlen l)) s Q.
Proof.
  intros Hb Hx Hby Hl HQ. unfold read_rx_buffer. wp_steps. rewrite Hb, (proj2 (Z.ltb_ge _ _)) by lia. wp_steps.
  apply (wp_memory_read _ l rest); [done|done|done|]. intros c Hc Hp Hi. unfold mod_emac. wp_steps. simpl. by apply HQ.
Qed.

(** A frame at the head of the receive memory. *)
Lemma rx_step_frame (b : bool) f rest s (Q : bool + esp_err_t * Z → st → Prop) :
  buffer_ok s → frame_wf f → rx_bytes (chip s) = frame_bytes f ++ rest →
  (∀ c : dev, rx_bytes c = rest → rx_ptr c = rx_advance (rx_advance (rx_ptr (chip s)) 4) (zlen (f_data f)) →
     received c = received (chip s) →
     let s1 := set_emac (with_rx_buffer (f_data f ++ drop (length (f_data f)) (rx_buffer (emac s))) (emac s)) (set_chip c s) in
     if flag (f_status f) rx_error_mask
     then wp (dm9051_skip_recv_frame (zlen (f_data f))) s1 (λ _ s', Q (inl true) s')
     else Q (if b then inl true else inr (ESP_OK, zlen (f_data f))) s1) →
  wp (rx_step b) s Q.
Proof.
  intros Hb Hwf Hx HQ. pose proof (header_length f Hwf) as Hlen. pose proof (header_bytes f Hwf) as Hhd.
  destruct Hwf as [Hs Hd Hl]. unfold rx_step, on_error_val, on_error.
  wp_steps. apply wp_read_ready. intros c1 v1 Hv1 Hr1 Hp1 Hi1. rewrite decide_True by done. cbn [snd].
  rewrite Hx in Hv1. rewrite Hv1, bool_decide_eq_true_2 by done.
  cbn [negb]. wp_steps. rewrite Hx in Hr1. simpl in Hr1.
  eapply wp_peek; [by left|exact Hr1|done|]. intros c2 Hr2 Hp2 Hi2. rewrite decide_True by done. wp_steps.
  simpl in Hr2. rewrite Hr1 in Hr2.
  eapply wp_peek; [by right|exact Hr2|done|]. intros c3 Hr3 Hp3 Hi3. rewrite decide_True by done. cbn [snd negb Z.eqb Pos.eqb].
  simpl in Hr3. rewrite Hr2 in Hr3. wp_steps.
  apply (wp_memory_read 4 (take 4 (frame_bytes f)) (f_data f ++ rest)); [exact Hr3|done|done|].
  intros c4 Hr4 Hp4 Hi4. rewrite decide_True by done. cbn [snd]. change (take 4 (frame_bytes f) !!! 2%nat) with (frame_bytes f !!! 2%nat).
  change (take 4 (frame_bytes f) !!! 3%nat) with (frame_bytes f !!! 3%nat).
  change (take 4 (frame_bytes f) !!! 1%nat) with (f_status f). rewrite Hlen.
  rewrite (proj2 (Z.leb_le _ _)) by done. cbn [negb]. wp_steps.
  apply (wp_read_rx_buffer (f_data f) rest); [done|done|done|done|]. intros c5 Hr5 Hp5 Hi5. rewrite decide_True by done.
  simpl in Hp1, Hp2, Hp3, Hp4, Hp5. rewrite Hp4, Hp3, Hp2, Hp1 in Hp5. simpl in Hi1, Hi2, Hi3, Hi4, Hi5. rewrite Hi4, Hi3, Hi2, Hi1 in Hi5. specialize (HQ c5 Hr5 Hp5 Hi5). cbv zeta in HQ. destruct (flag (f_status f) rx_error_mask); wp_steps; [|exact HQ].
  eapply wp_mono; [exact HQ|]. intros e s' HQ'. by wp_steps.
Qed.

(** ** [emac_dm9051_receive] and the task *)

(** Only the chip and the receive state of the driver change. *)
Definition rx_frame_stored (f : rx_frame) (rest : list Z) s s' : Prop :=
  rx_bytes (chip s') = rest ∧ buffer_ok s' ∧
  take (length (f_data f)) (rx_buffer (emac s')) = f_data f ∧
  packets_remain (emac s') = bool_decide (rest ≠ []) ∧
  stack_input s' = stack_input s ∧ heap_answers s' = heap_answers s ∧ received (chip s') = received (chip s).

Lemma receive_frame_any f rest fuel s :
  buffer_ok s → frame_wf f → flag (f_status f) rx_error_mask = false → 0 < zlen (f_data f) →
  rx_bytes (chip s) = frame_bytes f ++ rest →
  wp (emac_dm9051_receive (S fuel) Internal) s (λ r s',
    r = (ESP_OK, u16 (zlen (f_data f) - ETH_CRC_LEN), []) ∧ rx_frame_stored f rest s s').
Proof.
  intros Hb Hwf Hst Hpos Hx. unfold emac_dm9051_receive, mod_emac, on_error_val, dm9051_frame_to_rx_buffer.
  cbn [iterM]. wp_steps. eapply (rx_step_frame false f rest); [done|done|exact Hx|]. intros c1 Hc1 _ Hi1. cbv zeta. rewrite Hst.
  wp_steps. rewrite decide_True by done. cbn [snd]. rewrite (proj2 (Z.eqb_neq _ _)) by lia. wp_steps.
  apply wp_read_ready. intros c2 v2 Hv2 Hc2 _ Hi2. rewrite decide_True by done. wp_steps.
  simpl in *. split; [done|]. unfold rx_frame_stored, buffer_ok in *. simpl. rewrite Hc2, Hc1. split_and!; try done.
  - destruct Hwf as [_ _ Hl]. rewrite zlen_app. unfold zlen in *. rewrite length_drop. lia.
  - by rewrite take_app_length.
  - by rewrite Hv2, Hc1.
  - congruence.
Qed.

Lemma payload_of_buffer f l :
  good_frame f → take (length (f_data f)) l = f_data f →
  take (Z.to_nat (u16 (zlen (f_data f) - ETH_CRC_LEN))) l = frame_payload f.
Proof.
  intros ([_ _ Hl] & Hlo & _) Ht. unfold frame_payload, u16, ETH_CRC_LEN, ETH_MAX_PACKET_SIZE in *.
  rewrite Z.mod_small by lia. rewrite <- Ht at 3. rewrite take_take. f_equal. unfold zlen in *. lia.
Qed.

(** What the stack gets of [frames] with the answers [heap] of the allocations: a frame
    without a buffer is dropped. *)
Fixpoint delivered (heap : list bool) (frames : list rx_frame) : list (list Z) :=
  match frames, heap with
  | [], _ => []
  | f :: frames', true :: heap' => frame_payload f :: delivered heap' frames'
  | _ :: frames', _ => delivered (tail heap) frames'
  end.

Lemma delivered_cons h f l :
  delivered h (f :: l) = (if default false (head h) then [frame_payload f] else []) ++ delivered (tail h) l.
Proof. by destruct h as [|[] h]. Qed.

(** The allocation and the copy of a frame. *)
Lemma wp_pass_up n s (k : D (unit + unit)) Q :
  buffer_ok s → n ≤ ETH_MAX_PACKET_SIZE →
  (∀ s', s' = set_heap_answers (tail (heap_answers s)) s ∧ default false (head (heap_answers s)) = false ∨
         s' = push_frame (take (Z.to_nat n) (rx_buffer (emac s))) (set_heap_answers (tail (heap_answers s)) s) ∧
         default false (head (heap_answers s)) = true → wp k s' Q) →
  wp (buffer ← malloc;
      (if (buffer : bool) then
         s ← get;
         if zlen (rx_buffer (emac s)) <? n then fault
         else modify (push_frame (take (Z.to_nat n) (rx_buffer (emac s))))
       else mret ())) s (λ _ s', wp k s' Q).
Proof.
  intros Hb Hn HQ. unfold malloc. wp_steps. destruct (heap_answers s) as [|[] h] eqn:Eh; wp_steps.
  - apply HQ. left. split; [|done]. destruct s. cbn in *. by subst.
  - simpl. rewrite (proj2 (Z.ltb_ge _ _)) by (simpl; rewrite Hb; lia). wp_steps. apply HQ. by right.
  - apply HQ. by left.
Qed.

(** The inner loop of the task with [frames] in the receive memory. *)
Lemma task_receives frames s fuel n :
  buffer_ok s → Forall good_frame frames → frames ≠ [] → rx_bytes (chip s) = concat (frame_bytes <$> frames) →
  (length frames ≤ fuel)%nat →
  wp (iterM fuel (task_receive_step (S n)) ()) s (λ _ s',
    stack_input s' = stack_input s ++ delivered (heap_answers s) frames ∧ rx_bytes (chip s') = [] ∧
    received (chip s') = received (chip s)).
Proof.
  intros Hb Hgood. revert s fuel Hb. induction Hgood as [|f l Hf Hl IH]; intros s fuel Hb Hne Hx Hfuel; [done|].
  destruct fuel as [|fuel]; [simpl in Hfuel; lia|]. clear Hne. rewrite fmap_cons in Hx. cbn [concat] in Hx.
  pose proof Hf as (Hwf & Hlo & Hst). cbn [iterM]. apply wp_bind. unfold task_receive_step. apply wp_bind.
  eapply wp_mono; [apply (receive_frame_any f (concat (frame_bytes <$> l))); try done|].
  { unfold ETH_CRC_LEN in *. lia. }
  intros r s1 (-> & Hrx & Hb1 & Htake & Hrem & Hstk & Hhp & Hi). cbv beta iota. rewrite decide_True by done.
  pose proof Hwf as [_ _ Hl1]. assert (Hu : u16 (zlen (f_data f) - ETH_CRC_LEN) = zlen (f_data f) - ETH_CRC_LEN).
  { unfold u16, ETH_CRC_LEN, ETH_MAX_PACKET_SIZE in *. apply Z.mod_small. lia. }
  rewrite (proj2 (Z.ltb_lt _ _)) by (rewrite Hu; lia). apply wp_bind. apply wp_pass_up; [done|rewrite Hu; unfold ETH_CRC_LEN in *; lia|].
  rewrite (payload_of_buffer f), Hhp by done. intros s2 Hs2. wp_steps.
  assert (stack_input s2 ++ delivered (heap_answers s2) l = stack_input s ++ delivered (heap_answers s) (f :: l) ∧
    buffer_ok s2 ∧ rx_bytes (chip s2) = concat (frame_bytes <$> l) ∧ received (chip s2) = received (chip s) ∧
    packets_remain (emac s2) = packets_remain (emac s1)) as (E & Hb2 & Hx2 & Hi2 & Hrem2).
  { rewrite delivered_cons, <- Hstk. destruct Hs2 as [[-> ->]|[-> ->]]; split_and!; try done. simpl. by rewrite <- app_assoc. }
  rewrite Hrem2, Hrem. case_bool_decide as Hnil; cbv beta iota.
  - eapply wp_mono; [apply IH; [done| |done|simpl in Hfuel; lia]|]; [by intros ->; apply Hnil|].
    intros u s' (H1 & H2 & H3). split_and!; [by rewrite H1|done|congruence].
  - wp_steps. destruct l as [|f2 l]; [|done]. rewrite app_nil_r in E. by split_and!.
Qed.

(** C7: with a chip as its header describes it and while no other frame arrives: when a
    receive interrupt is pending and the receive memory holds frames without errors, each
    longer than its CRC, a turn of the task that is not a timeout passes their payloads to
    the stack, once each and in order, except for the frames whose buffer cannot be
    allocated, which are dropped; it leaves the receive memory empty and the interrupt
    cleared.  When no receive interrupt is pending it passes nothing up. *)
Theorem dm9051_task_delivers frames s fuel :
  buffer_ok s → Forall good_frame frames → rx_bytes (chip s) = concat (frame_bytes <$> frames) →
  (0 < length frames ≤ fuel)%nat →
  wp (emac_dm9051_task fuel true) s (λ _ s',
    received (chip s') = false ∧
    if received (chip s)
    then stack_input s' = stack_input s ++ delivered (heap_answers s) frames ∧ rx_bytes (chip s') = []
    else stack_input s' = stack_input s ∧ rx_bytes (chip s') = rx_bytes (chip s)).
Proof.
  intros Hb Hgood Hx Hfuel. destruct fuel as [|fuel]; [lia|]. unfold emac_dm9051_task. apply wp_bind, wp_get.
  rewrite andb_false_r.
  apply (wp_take_interrupt s (λ v, if flag v ISR_PR then iterM (S fuel) (task_receive_step (S fuel)) () else mret ())). intros c v Hv Hc Hi. rewrite Hv.
  destruct (received (chip s)); [|by apply wp_ret].
  eapply wp_mono; [apply (task_receives frames _ (S fuel) fuel); [done|done|by destruct frames; [simpl in Hfuel; lia|]|simpl; congruence|lia]|].
  intros u s' (H1 & H2 & H3). split_and!; [by rewrite H3|done..].
Qed.

(** A header that announces 1 to 3 bytes makes the task read past the end of the
    receive buffer: the length without the CRC wraps around in 16 bits. *)
Theorem short_frame_overreads f rest s fuel :
  buffer_ok s → frame_wf f → flag (f_status f) rx_error_mask = false → 0 < zlen (f_data f) < ETH_CRC_LEN →
  rx_bytes (chip s) = frame_bytes f ++ rest → head (heap_answers s) = Some true →
  task_receive_step (S fuel) () s = MemFault.
Proof.
  intros Hb Hwf Hst Hlen Hx Hheap. unfold task_receive_step.
  destruct (wp_done _ _ _ (receive_frame_any f rest fuel s Hb Hwf Hst ltac:(lia) Hx)) as
    (r & s1 & E & -> & Hrx & Hb1 & _ & _ & _ & Hhp & _).
  unfold mbind, M_bind. rewrite E. rewrite decide_True by done.
  assert (Hu : u16 (zlen (f_data f) - ETH_CRC_LEN) = 65532 + zlen (f_data f)).
  { unfold u16, ETH_CRC_LEN in *. change (2 ^ 16) with 65536. Z.to_euclidean_division_equations. lia. }
  rewrite Hu, (proj2 (Z.ltb_lt _ _)) by lia. unfold malloc, get, mbind, M_bind, modify, mret, M_ret. rewrite Hhp.
  destruct (heap_answers s) as [|h hl]; [done|]. simpl in Hheap. injection Hheap as ->. simpl. rewrite Hb1.
  rewrite (proj2 (Z.ltb_lt _ _)) by (unfold ETH_MAX_PACKET_SIZE; lia). done.
Qed.

(** ** The read address *)

(** Skipping moves the read address; it returns to the start only beyond the end. *)
Lemma skip_pointer n s :
  DM9051_RX_MEM_START_ADDR ≤ rx_ptr (chip s) < DM9051_RX_MEM_MAX_SIZE → 0 ≤ n ≤ ETH_MAX_PACKET_SIZE →
  wp (dm9051_skip_recv_frame n) s (λ e s', e = ESP_OK ∧
    rx_ptr (chip s') = if decide (rx_ptr (chip s) + n = DM9051_RX_MEM_MAX_SIZE) then DM9051_RX_MEM_MAX_SIZE
                       else rx_advance (rx_ptr (chip s)) n).
Proof.
  intros Hp Hn. unfold dm9051_skip_recv_frame, then_val, on_error_val. wp_steps.
  destruct (read_ptr_high (chip s)) as (c1 & E1 & Hp1). eapply wp_reg_read; [exact E1|]. rewrite decide_True by done.
  wp_steps. destruct (read_ptr_low c1) as (c2 & E2 & Hp2). eapply wp_reg_read; [exact E2|]. rewrite decide_True by done.
  cbn [snd]. rewrite Hp1 in *.
  unfold DM9051_RX_MEM_START_ADDR, DM9051_RX_MEM_MAX_SIZE, ETH_MAX_PACKET_SIZE in *.
  set (p := rx_ptr (chip s)) in *.
  assert (Ha : Z.lor (Z.shiftl (u8 (p / 256)) 8) (u8 (p mod 256)) = p).
  { unfold u8. rewrite (Z.mod_small (p / 256)), (Z.mod_small (p mod 256)), lor_shiftl_small;
      change (2 ^ 8) with 256; Z.to_euclidean_division_equations; lia. }
  rewrite Ha. unfold u16. rewrite (Z.mod_small (p + n)) by lia.
  set (a := if _ <? _ then _ else _).
  assert (Hr : 0 ≤ a < 65536 ∧ a = if decide (p + n = 16384) then 16384 else rx_advance p n).
  { unfold a, rx_advance, DM9051_RX_MEM_MAX_SIZE, DM9051_RX_MEM_START_ADDR.
    destruct (Z.ltb_spec 16384 (p + n)), (Z.leb_spec 16384 (p + n)), (decide (p + n = 16384)); try lia.
    rewrite Z.mod_small; lia. }
  destruct Hr as [Ha2 <-]. clearbody a. cbn [write_registers]. unfold then_, on_error. wp_steps.
  destruct (write_ptr_low c2 (u8 (Z.land a 255))) as (c3 & E3 & Hp3). eapply wp_reg_write; [exact E3|].
  rewrite decide_True by done. wp_steps. destruct (write_ptr_high c3 (u8 (Z.shiftr a 8))) as (c4 & E4 & Hp4).
  eapply wp_reg_write; [exact E4|]. rewrite decide_True by done. wp_steps. split; [done|]. simpl.
  rewrite Hp4, Hp3. change 255 with (Z.ones 8). rewrite Z.land_ones, Z.shiftr_div_pow2 by lia. unfold u8.
  change (2 ^ 8) with 256. Z.to_euclidean_division_equations. lia.
Qed.

(** An erroneous frame is skipped twice: its data are read into the receive buffer,
    which moves the read address past it, and then [dm9051_skip_recv_frame] moves the
    address by the length again, into the frames that follow. *)
Theorem error_frame_skipped_twice b f rest s :
  buffer_ok s → frame_wf f → flag (f_status f) rx_error_mask = true → rx_bytes (chip s) = frame_bytes f ++ rest →
  DM9051_RX_MEM_START_ADDR ≤ rx_ptr (chip s) → rx_ptr (chip s) + 4 + 2 * zlen (f_data f) < DM9051_RX_MEM_MAX_SIZE →
  wp (rx_step b) s (λ r s', r = inl true ∧ rx_ptr (chip s') = rx_ptr (chip s) + 4 + 2 * zlen (f_data f)).
Proof.
  intros Hb Hwf Hst Hx Hlo Hhi. pose proof (zlen_nonneg (f_data f)) as Hz.
  assert (Hadv : ∀ p n, p + n < DM9051_RX_MEM_MAX_SIZE → rx_advance p n = p + n).
  { intros p n Hpn. unfold rx_advance. by rewrite (proj2 (Z.leb_gt _ _)). }
  eapply rx_step_frame; [done|done|exact Hx|]. intros c _ Hp _. cbv zeta. rewrite Hst.
  rewrite !Hadv in Hp by (rewrite ?Hadv; lia). destruct Hwf as [_ _ Hl].
  eapply wp_mono; [apply skip_pointer; simpl; lia|]. intros e s' [_ Hs']. split; [done|]. rewrite Hs'. simpl.
  rewrite decide_False by lia. rewrite Hp, Hadv; lia.
Qed.

(** When a skipped frame ends exactly at the end of the receive memory, the read
    address is left one past the end instead of at the start. *)
Theorem skip_misses_wrap n s :
  DM9051_RX_MEM_START_ADDR ≤ rx_ptr (chip s) < DM9051_RX_MEM_MAX_SIZE → 0 ≤ n ≤ ETH_MAX_PACKET_SIZE →
  rx_ptr (chip s) + n = DM9051_RX_MEM_MAX_SIZE →
  wp (dm9051_skip_recv_frame n) s (λ e s', e = ESP_OK ∧ rx_ptr (chip s') = DM9051_RX_MEM_MAX_SIZE ∧
    rx_advance (rx_ptr (chip s)) n = DM9051_RX_MEM_START_ADDR).
Proof.
  intros Hp Hn E. eapply wp_mono; [by apply skip_pointer|]. intros e s' [-> Hs]. split; [done|].
  rewrite decide_True in Hs by done. split; [done|]. unfold rx_advance. rewrite E. done.
Qed.

End rx.

(** ** A chip that satisfies the laws *)

Record example_chip : Type := mkChip { c_rx : list Z; c_ptr : Z; c_isr : bool }.

Definition example_read (cmd reg : Z) (len : nat) (c : example_chip) : example_chip * esp_err_t * list Z :=
  if reg =? DM9051_NSR then (c, ESP_OK, [if decide (c_rx c = []) then 0 else 1])
  else if reg =? DM9051_ISR then (c, ESP_OK, [if c_isr c then 1 else 0])
  else if (reg =? DM9051_MRCMDX) || (reg =? DM9051_MRCMDX1) then (c, ESP_OK, [default 0 (head (c_rx c))])
  else if reg =? DM9051_MRCMD then
    (mkChip (drop len (c_rx c)) (rx_advance (c_ptr c) (Z.of_nat len)) (c_isr c), ESP_OK, take len (c_rx c))
  else if reg =? DM9051_MRRH then (c, ESP_OK, [c_ptr c / 256])
  else if reg =? DM9051_MRRL then (c, ESP_OK, [c_ptr c mod 256])
  else (c, ESP_OK, replicate len 0).

Definition example_write (cmd reg : Z) (data : list Z) (c : example_chip) : example_chip * esp_err_t :=
  let v := default 0 (head data) in
  if reg =? DM9051_MRRH then (mkChip (c_rx c) (v * 256 + c_ptr c mod 256) (c_isr c), ESP_OK)
  else if reg =? DM9051_MRRL then (mkChip (c_rx c) (c_ptr c / 256 * 256 + v) (c_isr c), ESP_OK)
  else if reg =? DM9051_ISR then (mkChip (c_rx c) (c_ptr c) (c_isr c && negb (flag v ISR_PR)), ESP_OK)
  else (c, ESP_OK).

#[export] Instance example_spi : SpiDriver example_chip := {| spi_read := example_read; spi_write := example_write |}.

#[export] Instance example_rx : RxChip example_chip.
Proof.
  refine {| rx_bytes := c_rx; rx_ptr := c_ptr; received := c_isr |}.
  - intros c. exists c, (if decide (c_rx c = []) then 0 else 1). split; [done|].
    destruct (decide (c_rx c = [])) as [E|E]; split_and!; try done.
    + rewrite E. by rewrite bool_decide_eq_false_2 by tauto.
    + by rewrite bool_decide_eq_true_2.
  - intros c. exists c, (if c_isr c then 1 else 0). split; [done|]. by destruct (c_isr c).
  - intros c v. by eexists.
  - intros c r Hr. exists c. destruct Hr as [-> | ->]; done.
  - intros c n Hn. by eexists.
  - intros c. by exists c.
  - intros c. by exists c.
  - intros c v. by eexists.
  - intros c v. by eexists.
Defined.

(** A driver with the given bytes in the receive memory. *)
Definition example_state (l : list Z) (p : Z) : dm9051_state example_chip :=
  mkSt (mkEmac true 100 4 None (replicate 6 0) false false (replicate 1522 0) (replicate 64 0)) (mkChip l p true)
    [true; true] false Z.of_nat true [] [] [true; false; true] [].

Definition example_frame (status n : Z) : rx_frame := mkFrame status ((λ i, Z.of_nat i mod 256) <$> seq 1 (Z.to_nat n)).

Lemma example_frame_wf status n : is_byte status → 0 ≤ n ≤ ETH_MAX_PACKET_SIZE → frame_wf (example_frame status n).
Proof.
  intros Hs Hn. split; [done| |].
  - apply Forall_fmap, Forall_forall. intros i _. apply Z.mod_pos_bound. lia.
  - unfold zlen. simpl. rewrite length_fmap, length_seq. lia.
Qed.

(** Of three frames the second gets no buffer. *)
Lemma dm9051_task_delivers_witness :
  let frames := [example_frame 0 64; example_frame 0 70; example_frame 0 66] in
  let s := example_state (concat (frame_bytes <$> frames)) 3072 in
  wp (emac_dm9051_task 5 true) s (λ _ s',
    stack_input s' = frame_payload <$> [example_frame 0 64; example_frame 0 66] ∧ rx_bytes (chip s') = [] ∧ received (chip s') = false).
Proof.
  intros frames s. eapply wp_mono; [apply (dm9051_task_delivers frames); [reflexivity| |reflexivity|simpl; lia]|].
  - repeat constructor; try (vm_compute; done); intros.
    all: apply example_frame_wf; unfold is_byte, ETH_MAX_PACKET_SIZE; lia.
  - intros u s' (Hi & H1 & H2). split_and!; [exact H1|done|done].
Defined.

Lemma short_frame_overreads_witness :
  task_receive_step 1 () (example_state (frame_bytes (example_frame 0 2) ++ []) 3072) = MemFault.
Proof.
  apply (short_frame_overreads (example_frame 0 2) []); try reflexivity.
  - apply example_frame_wf; unfold is_byte, ETH_MAX_PACKET_SIZE; lia.
  - by vm_compute.
Defined.

Lemma error_frame_skipped_twice_witness :
  let s := example_state (frame_bytes (example_frame 2 64) ++ frame_bytes (example_frame 0 70)) 3072 in
  wp (rx_step false) s (λ r s', r = inl true ∧ rx_ptr (chip s') = rx_ptr (chip s) + 4 + 2 * zlen (f_data (example_frame 2 64))).
Proof.
  apply (error_frame_skipped_twice false (example_frame 2 64) (frame_bytes (example_frame 0 70))); try reflexivity.
  - apply example_frame_wf; unfold is_byte, ETH_MAX_PACKET_SIZE; lia.
Defined.

Lemma skip_misses_wrap_witness :
  let s := example_state [] 16000 in
  wp (dm9051_skip_recv_frame 384) s (λ e s', e = ESP_OK ∧ rx_ptr (chip s') = DM9051_RX_MEM_MAX_SIZE ∧
    rx_advance (rx_ptr (chip s)) 384 = DM9051_RX_MEM_START_ADDR).
Proof. apply (skip_misses_wrap 384); vm_compute; (by split) || done. Defined.

(** An erroneous frame followed by a byte that starts no frame. *)
Definition blocked_state : dm9051_state example_chip := example_state (frame_bytes (example_frame 2 64) ++ [7]) 3072.

Lemma error_frame_blocks_receive_witness :
  ∃ s' r, dm9051_frame_to_rx_buffer 5 blocked_state = Done s' r ∧ r.1 ≠ ESP_OK.
Proof.
  eexists _, _. split; [vm_compute; reflexivity|].
  eapply (error_frame_blocks_receive 5 blocked_state); [reflexivity|vm_compute; reflexivity|vm_compute; reflexivity].
Defined.

Lemma phy_mutex_balanced_witness :
  wp (emac_dm9051_write_phy_reg 1 0 0x1234) blocked_state (λ _ s', lock_balanced blocked_state s') ∧
  wp (emac_dm9051_read_phy_reg 1 0 true) blocked_state (λ _ s', lock_balanced blocked_state s').
Proof. apply (phy_mutex_balanced blocked_state 1 0 0x1234 true). reflexivity. Defined.
