(* ===== verification/Dm9051Regs.v ===== *)
(** * Receive control and the multicast filter of the DM9051

    [RegChip] states that RCR and the hash table MAR are plain registers: a read gives
    what was written last, and writes to other registers than NCR leave them alone.
    With such a chip RCR follows the calls of the driver and a bit of the hash table is
    set exactly when an address with that hash is in the filter. *)
From Stdlib Require Import ZArith Lia.
From stdpp Require Import base numbers option list.
From S2P Require Import Prelude Dm9051 Dm9051Safe.

Open Scope Z_scope.

Definition plain_reg (r : Z) : Prop := r = DM9051_RCR ∨ DM9051_MAR ≤ r < DM9051_MAR + 8.

Class RegChip (dev : Type) `{SpiDriver dev} : Type := {
  reg : dev → Z → Z;
  read_reg c r : plain_reg r →
    ∃ c', spi_read DM9051_SPI_RD r 1 c = (c', ESP_OK, [reg c r]) ∧ ∀ r', plain_reg r' → reg c' r' = reg c r';
  write_reg c r v : r ≠ DM9051_NCR →
    ∃ c', spi_write DM9051_SPI_WR r [v] c = (c', ESP_OK) ∧ ∀ r', plain_reg r' → reg c' r' = if r' =? r then v else reg c r'
}.

(** ** Operations *)

Inductive rx_op : Type := Start | Stop | Promiscuous (b : bool) | AllMulticast (b : bool).

Definition do_rx_op {dev} `{SpiDriver dev} (o : rx_op) : D (dev := dev) esp_err_t :=
  match o with
  | Start => emac_dm9051_start
  | Stop => emac_dm9051_stop
  | Promiscuous b => emac_dm9051_set_promiscuous b
  | AllMulticast b => emac_dm9051_set_all_multicast b
  end.

Fixpoint do_rx_ops {dev} `{SpiDriver dev} (l : list rx_op) : D (dev := dev) esp_err_t :=
  match l with [] => mret ESP_OK | o :: l' => then_ (do_rx_op o) (do_rx_ops l') end.

(** The bit of RCR an operation sets, and to what. *)
Definition rx_op_bit (o : rx_op) : Z * bool :=
  match o with Start => (0, true) | Stop => (0, false) | Promiscuous b => (1, b) | AllMulticast b => (3, b) end.

(** The last operation on bit [i] wins. *)
Fixpoint rcr_bit (l : list rx_op) (i : Z) (b : bool) : bool :=
  match l with
  | [] => b
  | o :: l' => rcr_bit l' i (if i =? (rx_op_bit o).1 then (rx_op_bit o).2 else b)
  end.

Section regs.
Context {dev : Type} `{RegChip dev}.
Abbreviation st := (dm9051_state dev).
Implicit Types s : st.

(** Only the chip changed, and its plain registers are given by [f]. *)
Definition regs_are (f : Z → Z) s s' : Prop := chip_only s s' ∧ ∀ r, plain_reg r → reg (chip s') r = f r.

Lemma wp_read_plain r s (Q : esp_err_t * Z → st → Prop) :
  plain_reg r → (∀ s', regs_are (reg (chip s)) s s' → Q (ESP_OK, u8 (reg (chip s) r)) s') →
  wp (dm9051_register_read r) s Q.
Proof.
  intros Hr HQ. destruct (read_reg (chip s) r Hr) as (c & E & Hc). eapply wp_reg_read; [exact E|]. by apply HQ.
Qed.

Lemma wp_write_plain r v s (Q : esp_err_t → st → Prop) :
  r ≠ DM9051_NCR → (∀ s', regs_are (λ r', if r' =? r then u8 v else reg (chip s) r') s s' → Q ESP_OK s') →
  wp (dm9051_register_write r v) s Q.
Proof.
  intros Hr HQ. destruct (write_reg (chip s) r (u8 v) Hr) as (c & E & Hc). eapply wp_reg_write; [exact E|]. by apply HQ.
Qed.

Lemma regs_are_trans f g s1 s2 s3 :
  regs_are f s1 s2 → (∀ r, plain_reg r → g r = f r) → regs_are (reg (chip s2)) s2 s3 → regs_are g s1 s3.
Proof.
  intros [C1 F1] Hg [C2 F2]. split; [by eapply chip_only_trans|]. intros r Hr. by rewrite F2, F1, Hg.
Qed.

(** A sequence of writes to other registers. *)
Lemma wp_write_others l s (Q : esp_err_t → st → Prop) :
  Forall (λ rv, rv.1 ≠ DM9051_NCR ∧ ¬ plain_reg rv.1) l → (∀ s', regs_are (reg (chip s)) s s' → Q ESP_OK s') →
  wp (write_registers l) s Q.
Proof.
  intros Hl. revert s. induction Hl as [|[r v] l [Hr Hp] Hl IH]; intros s HQ; simpl.
  { wp_steps. apply HQ. split; [apply chip_only_refl|done]. }
  unfold then_, on_error. wp_steps. apply wp_write_plain; [done|]. intros s1 [C1 F1]. rewrite decide_True by done.
  apply IH. intros s2 H2. apply HQ. eapply regs_are_trans; [split; [exact C1|exact F1]| |exact H2].
  intros r' Hr'. simpl. destruct (Z.eqb_spec r' r) as [->|]; [by simpl in Hp|done].
Qed.

Lemma update_rcr_ok f s (Q : esp_err_t → st → Prop) :
  (∀ s', regs_are (λ r, if r =? DM9051_RCR then u8 (f (u8 (reg (chip s) DM9051_RCR))) else reg (chip s) r) s s' →
     Q ESP_OK s') →
  wp (update_rcr f) s Q.
Proof.
  intros HQ. unfold update_rcr, then_val, on_error_val. wp_steps. apply wp_read_plain; [by left|].
  intros s1 [C1 F1]. rewrite decide_True by done. apply wp_write_plain; [done|]. intros s2 [C2 F2]. apply HQ.
  split; [by eapply chip_only_trans|]. intros r Hr. rewrite F2 by done. cbn [snd]. by destruct (r =? DM9051_RCR); [|apply F1].
Qed.

(** ** Receive control *)

Definition rx_op_fun (o : rx_op) (rcr : Z) : Z :=
  let '(i, b) := rx_op_bit o in if b then Z.lor rcr (2 ^ i) else Z.ldiff rcr (2 ^ i).

Lemma rx_op_ok o s (Q : esp_err_t → st → Prop) :
  (∀ s', reg (chip s') DM9051_RCR = u8 (rx_op_fun o (u8 (reg (chip s) DM9051_RCR))) → chip_only s s' → Q ESP_OK s') →
  wp (do_rx_op o) s Q.
Proof.
  intros HQ. assert (Hp : plain_reg DM9051_RCR) by by left.
  assert (Hrest : ∀ s1, regs_are (reg (chip s)) s s1 → wp (update_rcr (rx_op_fun o)) s1 Q).
  { intros s1 [C1 F1]. apply update_rcr_ok. intros s2 [C2 F2]. apply HQ; [|by eapply chip_only_trans].
    rewrite F2, F1 by done. done. }
  assert (Hrefl : regs_are (reg (chip s)) s s) by (split; [apply chip_only_refl|done]).
  destruct o as [| |b|b]; simpl.
  - unfold emac_dm9051_start, then_, on_error. apply wp_bind. apply wp_write_others.
    + do 3 (apply Forall_cons; split; [split; [done|by intros [E|[_ E]]]|]).
      by apply Forall_nil.
    + intros s1 H1. rewrite decide_True by done. exact (Hrest s1 H1).
  - unfold emac_dm9051_stop, then_, on_error. apply wp_bind. apply wp_write_plain; [done|]. intros s1 [C1 F1].
    rewrite decide_True by done. apply Hrest. split; [done|]. intros r Hr. rewrite F1 by done.
    destruct (Z.eqb_spec r DM9051_IMR) as [->|]; [|done].
    unfold plain_reg, DM9051_RCR, DM9051_MAR, DM9051_IMR in Hr. lia.
  - unfold emac_dm9051_set_promiscuous. destruct b; exact (Hrest s Hrefl).
  - unfold emac_dm9051_set_all_multicast. destruct b; exact (Hrest s Hrefl).
Qed.

Lemma rx_op_testbit o rcr i :
  0 ≤ i < 8 → Z.testbit (u8 (rx_op_fun o (u8 rcr))) i =
    if i =? (rx_op_bit o).1 then (rx_op_bit o).2 else Z.testbit rcr i.
Proof.
  intros Hi. unfold u8. rewrite Z.mod_pow2_bits_low by lia. unfold rx_op_fun.
  assert (Hn : 0 ≤ (rx_op_bit o).1) by (destruct o; simpl; lia).
  destruct (rx_op_bit o) as [n b]. simpl in *. destruct b.
  - rewrite Z.lor_spec, Z.mod_pow2_bits_low, Z.pow2_bits_eqb by lia.
    rewrite (Z.eqb_sym i n). destruct (n =? i); [apply orb_true_r|apply orb_false_r].
  - rewrite Z.ldiff_spec, Z.mod_pow2_bits_low, Z.pow2_bits_eqb by lia.
    rewrite (Z.eqb_sym i n). destruct (n =? i); simpl; [apply andb_false_r|apply andb_true_r].
Qed.

(** Through any sequence of start, stop, promiscuous and all-multicast calls each
    of the three bits of RCR has the value of the last call about it, and the other
    bits keep theirs. *)
Theorem rx_control_bits l s :
  wp (do_rx_ops l) s (λ e s', e = ESP_OK ∧ emac s' = emac s ∧ ∀ i, 0 ≤ i < 8 →
    Z.testbit (reg (chip s') DM9051_RCR) i = rcr_bit l i (Z.testbit (reg (chip s) DM9051_RCR) i)).
Proof.
  revert s. induction l as [|o l IH]; intros s; simpl; [by wp_steps|]. unfold then_, on_error. wp_steps.
  apply rx_op_ok. intros s1 E1 C1. rewrite decide_True by done.
  eapply wp_mono; [apply IH|]. intros e s2 (-> & He & Hb). split; [done|]. split; [by rewrite He, C1|].
  intros i Hi. rewrite Hb by done. by rewrite E1, rx_op_testbit.
Qed.

(** ** The multicast filter *)

Context (crc32 : list Z → Z).
Abbreviation hash := (hash_of crc32).

Lemma hash_range a : 0 ≤ hash a < 64.
Proof. unfold hash_of. change 0x3F with (Z.ones 6). rewrite Z.land_ones by lia. apply Z.mod_pos_bound. lia. Qed.

(** How many addresses of the filter have hash [h]. *)
Definition bucket (h : Z) (l : list (list Z)) : Z := zlen (filter (λ a, hash a = h) l).

Definition mar_bit (c : dev) (h : Z) : bool := Z.testbit (reg c (DM9051_MAR + h / 8)) (h mod 8).

(** The counters count the addresses, and a bit is set when its counter is not 0. *)
Definition filter_ok s (l : list (list Z)) : Prop :=
  length (hash_filter_cnt (emac s)) = 64%nat ∧
  (∀ h, 0 ≤ h < 64 → hash_filter_cnt (emac s) !! Z.to_nat h = Some (bucket h l) ∧ bucket h l < 256) ∧
  (∀ h, 0 ≤ h < 64 → mar_bit (chip s) h = (0 <? bucket h l)).

Definition modify_op (a : list Z) (add : bool) : D esp_err_t :=
  if add then emac_dm9051_add_mac_filter crc32 a else emac_dm9051_rm_mac_filter crc32 a.

Lemma bucket_cons h a l : bucket h (a :: l) = bucket h l + if decide (hash a = h) then 1 else 0.
Proof.
  unfold bucket. rewrite filter_cons. destruct (decide (hash a = h)); [rewrite zlen_cons; lia|lia].
Qed.

Lemma bucket_perm h l l' : l ≡ₚ l' → bucket h l = bucket h l'.
Proof. intros E. unfold bucket, zlen. by rewrite E. Qed.

Lemma bucket_nonneg h l : 0 ≤ bucket h l.
Proof. apply zlen_nonneg. Qed.

(** One bit of the table is set or cleared. *)
Lemma mar_update (set : bool) mar k i :
  0 ≤ k < 8 → 0 ≤ i < 8 →
  Z.testbit (u8 (if set then Z.lor (u8 mar) (Z.shiftl 1 k) else Z.ldiff (u8 mar) (Z.shiftl 1 k))) i =
    if i =? k then set else Z.testbit mar i.
Proof.
  intros Hk Hi. unfold u8. rewrite Z.mod_pow2_bits_low by lia. rewrite Z.shiftl_1_l. rewrite (Z.eqb_sym i k). destruct set.
  - rewrite Z.lor_spec, Z.mod_pow2_bits_low, Z.pow2_bits_eqb by lia.
    destruct (k =? i); [apply orb_true_r|apply orb_false_r].
  - rewrite Z.ldiff_spec, Z.mod_pow2_bits_low, Z.pow2_bits_eqb by lia.
    destruct (k =? i); simpl; [apply andb_false_r|apply andb_true_r].
Qed.

(** The state after the counter of [h] became [n] and its bit [b]. *)
Definition filter_written s (h n : Z) (b : bool) s' : Prop :=
  hash_filter_cnt (emac s') = <[Z.to_nat h := n]> (hash_filter_cnt (emac s)) ∧
  ∀ h', 0 ≤ h' < 64 → mar_bit (chip s') h' = if h' =? h then b else mar_bit (chip s) h'.

Lemma mar_plain h : 0 ≤ h < 64 → plain_reg (DM9051_MAR + h / 8).
Proof. intros Hh. right. Z.to_euclidean_division_equations. lia. Qed.

(** What a write of the register of [h] does to the table. *)
Lemma mar_bit_write s s' h v b :
  0 ≤ h < 64 →
  (∀ r, plain_reg r → reg (chip s') r = if r =? DM9051_MAR + h / 8 then u8 v else reg (chip s) r) →
  (∀ i, 0 ≤ i < 8 → Z.testbit (u8 v) i = if i =? h mod 8 then b else Z.testbit (reg (chip s) (DM9051_MAR + h / 8)) i) →
  ∀ h', 0 ≤ h' < 64 → mar_bit (chip s') h' = if h' =? h then b else mar_bit (chip s) h'.
Proof.
  intros Hh Hr Hv h' Hh'. unfold mar_bit. rewrite Hr by by apply mar_plain.
  destruct (Z.eqb_spec (DM9051_MAR + h' / 8) (DM9051_MAR + h / 8)) as [E|E].
  - rewrite Hv by (apply Z.mod_pos_bound; lia). replace (h' / 8) with (h / 8) by lia.
    destruct (Z.eqb_spec (h' mod 8) (h mod 8)), (Z.eqb_spec h' h); try done; exfalso;
      Z.to_euclidean_division_equations; lia.
  - destruct (Z.eqb_spec h' h) as [->|]; [by destruct E|done].
Qed.

Lemma hash_modify_ok a add s l (Q : esp_err_t → st → Prop) :
  filter_ok s l → (add = true → bucket (hash a) l < 255) → (add = false → 0 < bucket (hash a) l) →
  (∀ s', filter_written s (hash a) (bucket (hash a) l + if add then 1 else -1)
           (if add then true else 1 <? bucket (hash a) l) s' → Q ESP_OK s') →
  wp (modify_op a add) s Q.
Proof.
  intros (Hlen & Hcnt & Hbit) Hadd Hrm HQ. pose proof (hash_range a) as Hh. set (h := hash a) in *.
  pose proof (bucket_nonneg h l) as Hnn.
  assert (Hgo : wp (dm9051_hash_filter_modify crc32 a add) s (λ e s', e = ESP_OK ∧ Q ESP_OK s')).
  { unfold dm9051_hash_filter_modify. fold h. unfold then_val, on_error_val. wp_steps.
    apply wp_read_plain; [by apply mar_plain|]. intros s1 [C1 F1]. rewrite decide_True by done. cbn [snd]. wp_steps.
    destruct (Hcnt h Hh) as [Hch Hlt]. rewrite C1. simpl. rewrite Hch.
    pose proof (mar_plain h Hh) as Hpl.
    destruct add; unfold mod_emac; wp_steps.
    - apply wp_write_plain; [unfold DM9051_MAR, DM9051_NCR; Z.to_euclidean_division_equations; lia|].
      intros s2 [C2 F2]. split; [done|]. apply HQ. split.
      + rewrite C2, C1. simpl. unfold u8. by rewrite Z.mod_small by (specialize (Hadd eq_refl); lia).
      + eapply (mar_bit_write s s2 h _ true); [done| |].
        * intros r Hr. rewrite F2 by done. simpl. by destruct (r =? _); [|apply F1].
        * intros i Hi. apply (mar_update true); [apply Z.mod_pos_bound; lia|done].
    - apply wp_write_plain; [unfold DM9051_MAR, DM9051_NCR; Z.to_euclidean_division_equations; lia|].
      specialize (Hrm eq_refl). intros s2 [C2 F2]. split; [done|]. apply HQ. split.
      + rewrite C2, C1. simpl. unfold u8. by rewrite Z.mod_small by lia.
      + assert (Hu : u8 (bucket h l - 1) = bucket h l - 1) by (apply Z.mod_small; lia). rewrite Hu in F2.
        eapply (mar_bit_write s s2 h _ (1 <? bucket h l)); [done| |].
        * intros r Hr. rewrite F2 by done. simpl. by destruct (r =? _); [|apply F1].
        * intros i Hi. destruct (Z.eqb_spec (bucket h l - 1) 0) as [E|E].
          -- rewrite (mar_update false) by (done || (apply Z.mod_pos_bound; lia)).
             rewrite (proj2 (Z.ltb_ge 1 _)) by lia. done.
          -- unfold u8. rewrite !Z.mod_pow2_bits_low by lia. rewrite (proj2 (Z.ltb_lt 1 _)) by lia.
             destruct (Z.eqb_spec i (h mod 8)) as [->|]; [|done].
             specialize (Hbit h Hh). unfold mar_bit in Hbit. rewrite Hbit. apply Z.ltb_lt. lia. }
  unfold modify_op. destruct add; unfold emac_dm9051_add_mac_filter, emac_dm9051_rm_mac_filter, then_, on_error; wp_steps;
    (eapply wp_mono; [exact Hgo|]); intros e s' [-> HQ']; simpl; by wp_steps.
Qed.

(** The filter after an address is added or one occurrence of it removed. *)
Lemma filter_ok_step s s' l l' h n b :
  filter_ok s l → filter_written s h n b s' → 0 ≤ h < 64 → bucket h l' = n → n < 256 → b = (0 <? n) →
  (∀ h', h' ≠ h → bucket h' l' = bucket h' l) → filter_ok s' l'.
Proof.
  intros (Hlen & Hcnt & Hbit) [Hc Hm] Hh Hn Hlt -> Hother. split; [by rewrite Hc, length_insert|]. split.
  - intros h' Hh'. rewrite Hc. destruct (decide (h' = h)) as [->|Hne].
    + rewrite Hn. split; [|done]. apply list_lookup_insert_eq. rewrite Hlen. lia.
    + rewrite list_lookup_insert_ne by lia. rewrite Hother by done. by apply Hcnt.
  - intros h' Hh'. rewrite Hm by done. destruct (Z.eqb_spec h' h) as [->|Hne]; [by rewrite Hn|].
    rewrite Hother by done. by apply Hbit.
Qed.

(** *** Sequences of calls *)

(** [l] is the list of addresses in the filter; an address is removed once for each
    time it was added, and at most 255 are in the filter. *)
Inductive filter_run : list (list Z * bool) → list (list Z) → list (list Z) → Prop :=
| run_done l : filter_run [] l l
| run_add a ops l l' :
    (length l < 255)%nat → filter_run ops (a :: l) l' → filter_run ((a, true) :: ops) l l'
| run_remove a ops l l1 l' :
    l ≡ₚ a :: l1 → filter_run ops l1 l' → filter_run ((a, false) :: ops) l l'.

Fixpoint do_filter_ops (ops : list (list Z * bool)) : D esp_err_t :=
  match ops with [] => mret ESP_OK | (a, add) :: ops' => then_ (modify_op a add) (do_filter_ops ops') end.

Lemma bucket_le h l : bucket h l ≤ zlen l.
Proof. unfold bucket, zlen. pose proof (length_filter (λ a, hash a = h) l). lia. Qed.

Lemma filter_run_ok ops l l' s :
  filter_run ops l l' → filter_ok s l → wp (do_filter_ops ops) s (λ e s', e = ESP_OK ∧ filter_ok s' l').
Proof.
  intros Hr. revert s. induction Hr as [l|a ops l l' Hlen Hr IH|a ops l l1 l' Hp Hr IH]; intros s Hok; simpl.
  - by wp_steps.
  - unfold then_, on_error. wp_steps. pose proof (bucket_le (hash a) l) as Hb. unfold zlen in Hb.
    apply (hash_modify_ok a true s l); [done|lia|done|]. intros s1 H1. rewrite decide_True by done. apply IH.
    eapply filter_ok_step; [done|exact H1|apply hash_range| | | |].
    + by rewrite bucket_cons, decide_True.
    + lia.
    + symmetry. apply Z.ltb_lt. pose proof (bucket_nonneg (hash a) l). lia.
    + intros h Hh. rewrite bucket_cons, decide_False by done. lia.
  - unfold then_, on_error. wp_steps.
    assert (Hb : ∀ h, bucket h l = bucket h l1 + if decide (hash a = h) then 1 else 0).
    { intros h. by rewrite (bucket_perm _ _ _ Hp), bucket_cons. }
    pose proof (Hb (hash a)) as Ha. rewrite decide_True in Ha by done. pose proof (bucket_nonneg (hash a) l1) as Hnn.
    apply (hash_modify_ok a false s l); [done|done|lia|]. intros s1 H1. rewrite decide_True by done. apply IH.
    eapply filter_ok_step; [done|exact H1|apply hash_range|lia| | |].
    + destruct Hok as (_ & Hc & _). destruct (Hc _ (hash_range a)). lia.
    + rewrite Ha. destruct (Z.ltb_spec 1 (bucket (hash a) l1 + 1)), (Z.ltb_spec 0 (bucket (hash a) l1 + 1 + -1)); lia || done.
    + intros h Hh. rewrite Hb, decide_False by done. lia.
Qed.

Lemma clear_table_ok i n s :
  (i + n = 8)%nat → (∀ h, 0 ≤ h < Z.of_nat i * 8 → mar_bit (chip s) h = false) →
  wp (clear_mar_from i n) s (λ e s', e = ESP_OK ∧ emac s' = emac s ∧ ∀ h, 0 ≤ h < 64 → mar_bit (chip s') h = false).
Proof.
  revert i s. induction n as [|n IH]; intros i s Hi Hz; cbn [clear_mar_from].
  - wp_steps. split; [done|]. split; [done|]. intros h Hh. apply Hz. lia.
  - unfold then_, on_error. wp_steps. apply wp_write_plain; [unfold DM9051_MAR, DM9051_NCR; lia|]. intros s1 [C1 F1].
    rewrite decide_True by done. eapply wp_mono; [apply (IH (S i)); [lia|]|].
    + intros h Hh. unfold mar_bit. rewrite F1 by (apply mar_plain; lia).
      destruct (Z.eqb_spec (DM9051_MAR + h / 8) (DM9051_MAR + Z.of_nat i)) as [E|E]; [apply Z.bits_0|].
      apply Hz. Z.to_euclidean_division_equations. lia.
    + intros e s' (-> & He & H8). split; [done|]. split; [by rewrite He, C1|done].
Qed.

(** After the table was cleared with all counters 0, any sequence of additions and
    matching removals of at most 255 addresses leaves the bit of a hash set exactly when
    an address of the filter has that hash; no call fails. *)
Theorem hash_filter_tracks ops l s :
  hash_filter_cnt (emac s) = replicate 64 0 → filter_run ops [] l →
  wp (then_ dm9051_clear_multicast_table (do_filter_ops ops)) s (λ e s', e = ESP_OK ∧
    ∀ h, 0 ≤ h < 64 → mar_bit (chip s') h = true ↔ ∃ a, a ∈ l ∧ hash a = h).
Proof.
  intros Hcnt Hr. unfold then_, on_error. wp_steps. unfold dm9051_clear_multicast_table.
  eapply wp_mono; [apply (clear_table_ok 0 8); [done|lia]|]. intros e s1 (-> & He & Hz). simpl.
  assert (filter_ok s1 []) as Hok.
  { split; [by rewrite He, Hcnt|]. split; [|intros h Hh; by apply Hz].
    intros h Hh. rewrite He, Hcnt. split; [|done]. apply lookup_replicate. split; [done|lia]. }
  eapply wp_mono; [by apply (filter_run_ok ops [] l)|]. intros e s' (-> & _ & _ & Hb). split; [done|].
  intros h Hh. rewrite Hb, Z.ltb_lt by done. unfold bucket, zlen. split.
  - intros Hpos. destruct (filter (λ a, hash a = h) l) as [|a k] eqn:E; [simpl in Hpos; lia|].
    assert (Ha : a ∈ filter (λ a, hash a = h) l) by (rewrite E; left). apply list_elem_of_filter in Ha as [? ?]. by exists a.
  - intros (a & Ha & E). assert (Hin : a ∈ filter (λ a, hash a = h) l) by by apply list_elem_of_filter.
    destruct (filter (λ a, hash a = h) l); [by apply not_elem_of_nil in Hin|simpl; lia].
Qed.

End regs.

(** ** A chip of plain registers *)

Definition reg_chip : Type := Z → Z.

(** NCR clears its reset bit at once; the identification registers are those of the
    DM9051. *)
Definition reg_chip_read (cmd r : Z) (len : nat) (c : reg_chip) : reg_chip * esp_err_t * list Z :=
  (c, ESP_OK, [if r =? DM9051_NCR then 0 else c r]).
Definition reg_chip_write (cmd r : Z) (data : list Z) (c : reg_chip) : reg_chip * esp_err_t :=
  (λ r', if r' =? r then default 0 (head data) else c r', ESP_OK).

#[export] Instance reg_chip_spi : SpiDriver reg_chip := {| spi_read := reg_chip_read; spi_write := reg_chip_write |}.

#[export] Instance reg_chip_regs : RegChip reg_chip.
Proof.
  refine {| reg := λ c r, c r |}.
  - intros c r Hr. exists c. simpl. unfold reg_chip_read. split; [|done].
    destruct (Z.eqb_spec r DM9051_NCR) as [->|]; [|done]. destruct Hr as [?|[? _]]; done.
  - intros c r v _. by eexists.
Defined.

Definition chip_ids : reg_chip := λ r,
  if r =? DM9051_VIDL then 0x46 else if r =? DM9051_VIDH then 0x0A
  else if r =? DM9051_PIDL then 0x51 else if r =? DM9051_PIDH then 0x90 else 0.

Definition reg_chip_state : dm9051_state reg_chip :=
  mkSt (mkEmac true 100 4 None (replicate 6 0) false false (replicate 1522 0) (replicate 64 0)) chip_ids
    [] false Z.of_nat true [] [] [] [].

Lemma hash_filter_tracks_witness :
  wp (then_ dm9051_clear_multicast_table (do_filter_ops (λ a, a !!! O) [([5], true); ([9], true); ([5], false)])) reg_chip_state
    (λ e s', e = ESP_OK ∧ ∀ h, 0 ≤ h < 64 → mar_bit (chip s') h = true ↔ ∃ a, a ∈ [[9]] ∧ hash_of (λ a, a !!! O) a = h).
Proof.
  apply (hash_filter_tracks (λ a, a !!! O)); [reflexivity|].
  apply run_add; [simpl; lia|]. apply run_add; [simpl; lia|].
  eapply run_remove; [apply Permutation_swap|apply run_done].
Defined.

(** The counters of the multicast filter survive a new initialisation, which clears
    the table: after add, deinit and init, adding an address and removing it again leaves
    its bit set. *)
Theorem filter_counts_survive_init :
  wp (e1 ← emac_dm9051_init; e2 ← emac_dm9051_add_mac_filter (λ _, 0) [1]; e3 ← emac_dm9051_deinit;
      e4 ← emac_dm9051_init; e5 ← emac_dm9051_add_mac_filter (λ _, 0) [1]; e6 ← emac_dm9051_rm_mac_filter (λ _, 0) [1];
      mret [e1; e2; e3; e4; e5; e6]) reg_chip_state
    (λ r s, r = replicate 6 ESP_OK ∧ mar_bit (chip s) (hash_of (λ _, 0) [1]) = true).
Proof. vm_compute. split; reflexivity. Qed.
