(* ===== verification/Dm9051Tx.v ===== *)
(** * Transmission with the DM9051

    A chip with a record of the writes it gets shows what the driver sends. *)
From Stdlib Require Import ZArith Lia.
From stdpp Require Import base numbers option list.
From S2P Require Import Prelude Dm9051 Dm9051Safe.

Open Scope Z_scope.

(** Any chip, with the register and data of every write. *)
#[export] Instance traced_spi {dev} `{SpiDriver dev} : SpiDriver (dev * list (Z * list Z)) := {|
  spi_read cmd r len c := let '(d, e, data) := spi_read cmd r len c.1 in ((d, c.2), e, data);
  spi_write cmd r data c := let '(d, e) := spi_write cmd r data c.1 in ((d, c.2 ++ [(r, data)]), e)
|}.

Section tx.
Context {dev : Type} `{SpiDriver dev}.
Abbreviation st := (dm9051_state (dev * list (Z * list Z))).
Implicit Types s : st.

Definition writes s : list (Z * list Z) := (chip s).2.

Lemma traced_write r v s :
  wp (dm9051_register_write r v) s (λ _ s', writes s' = writes s ++ [(r, [u8 v])] ∧ chip_only s s').
Proof.
  unfold dm9051_register_write, bus_write, wp. simpl. by destruct (spi_write _ _ _ _) as [d e].
Qed.

Lemma traced_read r s : wp (dm9051_register_read r) s (λ _ s', writes s' = writes s ∧ chip_only s s').
Proof.
  unfold dm9051_register_read, bus_read, mbind, M_bind, wp. simpl. by destruct (spi_read _ _ _ _) as [[d e] l].
Qed.

(** The writes of a sequence that succeeds. *)
Definition as_writes (l : list (Z * Z)) : list (Z * list Z) := (λ rv, (rv.1, [u8 rv.2])) <$> l.

Lemma traced_writes l s : wp (write_registers l) s (λ e s', e = ESP_OK → writes s' = writes s ++ as_writes l).
Proof.
  revert s. induction l as [|[r v] l IH]; intros s; cbn [write_registers].
  { wp_steps. intros _. by rewrite app_nil_r. }
  unfold then_, on_error. wp_steps. eapply wp_mono; [apply traced_write|]. intros e s1 [H1 _]. simpl.
  case_decide; [|by wp_steps]. eapply wp_mono; [apply IH|]. intros e2 s2 H2 E.
  rewrite H2, H1, <- app_assoc by done. done.
Qed.

Lemma traced_memory_write l s : wp (dm9051_memory_write l) s (λ _ s', writes s' = writes s ++ [(DM9051_MWCMD, l)]).
Proof. unfold dm9051_memory_write, bus_write, wp. simpl. by destruct (spi_write _ _ _ _) as [d e]. Qed.

(** Waiting for a free slot writes nothing. *)
Lemma wait_writes_nothing t fuel s :
  match iterM fuel (nsr_wait_step t) () s with Done s' _ => writes s' = writes s | _ => True end.
Proof.
  revert s. induction fuel as [|fuel IH]; intros s; [done|]. cbn [iterM]. unfold mbind, M_bind at 1.
  unfold nsr_wait_step, on_error_val, mbind, M_bind at 1.
  destruct (wp_done _ _ _ (traced_read DM9051_NSR s)) as ([e v] & s1 & -> & H1 & _). cbn [fst snd].
  case_decide; [|done]. destruct (Z.land v _ =? 0); [|done]. unfold esp_timer_get_time, mbind, M_bind.
  destruct (clock s1 O - t <? 100); [|done].
  unfold mret, M_ret. specialize (IH (set_clock (λ n, clock s1 (S n)) s1)). destruct (iterM fuel _ _ _); try done.
  by rewrite IH, <- H1.
Qed.

(** The accesses of [emac_dm9051_transmit] after the wait. *)
Definition tx_tail (reset : bool) (buf : list Z) (length : Z) : list (Z * list Z) :=
  (if reset then [(DM9051_MPTRCR, [MPTRCR_RST_TX])] else []) ++
  [(DM9051_TXPLL, [length mod 256]); (DM9051_TXPLH, [length / 256]); (DM9051_MWCMD, take (Z.to_nat length) buf)].

Lemma tx_lengths length :
  0 ≤ length ≤ ETH_MAX_PACKET_SIZE →
  as_writes [(DM9051_TXPLL, Z.land length 0xFF); (DM9051_TXPLH, Z.land (Z.shiftr length 8) 0xFF)] =
    [(DM9051_TXPLL, [length mod 256]); (DM9051_TXPLH, [length / 256])].
Proof.
  intros Hl. unfold as_writes, ETH_MAX_PACKET_SIZE in *. simpl. change 255 with (Z.ones 8).
  rewrite !Z.land_ones, Z.shiftr_div_pow2 by lia. unfold u8. change (2 ^ 8) with 256.
  rewrite !Z.mod_mod by lia. rewrite (Z.mod_small (length / 256)); [done|]. Z.to_euclidean_division_equations. lia.
Qed.

(** A transmission that succeeds has written the length of the frame and then
    exactly its bytes, after resetting the transmit address at most; a frame that is too
    long is refused without any access to the chip. *)
Theorem transmit_writes_frame fuel buf length s :
  0 ≤ length →
  (ETH_MAX_PACKET_SIZE < length → emac_dm9051_transmit fuel buf length s = Done s ESP_ERR_INVALID_ARG) ∧
  (∀ s', emac_dm9051_transmit fuel buf length s = Done s' ESP_OK →
     ∃ reset, writes s' = writes s ++ tx_tail reset buf length).
Proof.
  intros Hl. unfold emac_dm9051_transmit. destruct (Z.leb_spec length ETH_MAX_PACKET_SIZE) as [Hle|Hgt]; [|done].
  split; [lia|]. intros s'. cbn [negb]. unfold mbind, M_bind at 1, esp_timer_get_time.
  set (t := clock s O). set (s0 := set_clock (λ n, clock s (S n)) s). unfold then_val, on_error_val, mbind, M_bind at 1.
  pose proof (wait_writes_nothing t fuel s0) as Hw. destruct (iterM fuel _ _ _) as [s1 [e nsr]| | |]; try done.
  cbn [fst snd]. case_decide as E; [|intros [= -> ->]; done]. destruct (nsr =? 0); [done|].
  intros Hrun. exists (nsr =? Z.lor NSR_TX2END NSR_TX1END). rewrite <- (Hw : writes s1 = writes s).
  assert (Hgo : wp (then_ (if nsr =? Z.lor NSR_TX2END NSR_TX1END then dm9051_register_write DM9051_MPTRCR MPTRCR_RST_TX
                           else mret ESP_OK)
      (then_ (write_registers [(DM9051_TXPLL, Z.land length 0xFF); (DM9051_TXPLH, Z.land (Z.shiftr length 8) 0xFF)])
        (dm9051_memory_write (take (Z.to_nat length) buf)))) s1
      (λ e s', e = ESP_OK → writes s' = writes s1 ++ tx_tail (nsr =? Z.lor NSR_TX2END NSR_TX1END) buf length)).
  { unfold then_ at 1, on_error. apply wp_bind.
    eapply wp_mono with (Q := λ _ s2, writes s2 = writes s1 ++
      if nsr =? Z.lor NSR_TX2END NSR_TX1END then [(DM9051_MPTRCR, [MPTRCR_RST_TX])] else []).
    - destruct (nsr =? _); [|wp_steps; by rewrite app_nil_r]. eapply wp_mono; [apply traced_write|]. by intros ? ? [? _].
    - intros e1 s2 H2. case_decide; [|by wp_steps]. unfold then_, on_error. apply wp_bind.
      eapply wp_mono; [apply traced_writes|]. intros e3 s3 H3. simpl. case_decide; [|by wp_steps].
      eapply wp_mono; [apply traced_memory_write|]. intros e4 s4 H4 _. simpl in H4.
      rewrite H4, H3, tx_lengths, H2 by done. unfold tx_tail. by rewrite <- !app_assoc. }
  destruct (wp_done _ _ _ Hgo) as (e2 & s2 & E2 & H2). rewrite Hrun in E2. injection E2 as <- <-. by apply H2.
Qed.

End tx.

(** A chip whose transmit slots are free. *)
Definition idle_chip : Type := unit.
#[export] Instance idle_spi : SpiDriver idle_chip := {|
  spi_read cmd r len c := (c, ESP_OK, replicate len 12);
  spi_write cmd r data c := (c, ESP_OK)
|}.

Definition idle_state : dm9051_state (idle_chip * list (Z * list Z)) :=
  mkSt (mkEmac true 100 4 None (replicate 6 0) false false (replicate 1522 0) (replicate 64 0)) ((), [])
    [] false Z.of_nat true [] [] [] [].

Lemma transmit_writes_frame_witness :
  (ETH_MAX_PACKET_SIZE < 3 → emac_dm9051_transmit 4 [7; 8; 9] 3 idle_state = Done idle_state ESP_ERR_INVALID_ARG) ∧
  (∀ s', emac_dm9051_transmit 4 [7; 8; 9] 3 idle_state = Done s' ESP_OK →
     ∃ reset, writes s' = writes idle_state ++ tx_tail reset [7; 8; 9] 3).
Proof. apply (transmit_writes_frame 4 [7; 8; 9] 3 idle_state). lia. Defined.

(** The run of the witness succeeds. *)
Example transmit_example :
  wp (emac_dm9051_transmit 4 [7; 8; 9] 3) idle_state (λ e s', e = ESP_OK ∧ writes s' = tx_tail true [7; 8; 9] 3).
Proof. vm_compute. split; reflexivity. Qed.
