(* ===== verification/Ota.v ===== *)
(** * OTA slots: which application boots

    Model of the functions of [components/app_update/esp_ota_ops.c],
    [components/bootloader_support/src/bootloader_common_loader.c] and
    [components/bootloader_support/src/bootloader_utility.c] that read and write the
    two sectors of the otadata partition, with rollback and without anti-rollback.  An
    application partition is its subtype.  The flash records every intermediate content
    of otadata, which is what a loss of power leaves. *)
From Stdlib Require Import ZArith Lia.
From stdpp Require Import base numbers option list list_numbers.
From S2P Require Import Prelude.

Open Scope Z_scope.

Definition UINT32_MAX : Z := 0xFFFFFFFF.

Definition ESP_OTA_IMG_NEW : Z := 0.
Definition ESP_OTA_IMG_PENDING_VERIFY : Z := 1.
Definition ESP_OTA_IMG_VALID : Z := 2.
Definition ESP_OTA_IMG_INVALID : Z := 3.
Definition ESP_OTA_IMG_ABORTED : Z := 4.

Definition ESP_PARTITION_SUBTYPE_APP_FACTORY : Z := 0x00.
Definition ESP_PARTITION_SUBTYPE_APP_OTA_MIN : Z := 0x10.
Definition ESP_PARTITION_SUBTYPE_APP_OTA_MAX : Z := 0x20.
Definition ESP_PARTITION_SUBTYPE_APP_TEST : Z := 0x20.

Definition FACTORY_INDEX : Z := -1.
Definition TEST_APP_INDEX : Z := -2.
Definition INVALID_INDEX : Z := -99.
Definition MAX_OTA_SLOTS : Z := 16.

(** An entry of otadata; [seq_label] is never read. *)
Record esp_ota_select_entry_t : Type := mkSel { ota_seq : Z; ota_state : Z; crc : Z }.

Definition erased_entry : esp_ota_select_entry_t := mkSel UINT32_MAX UINT32_MAX UINT32_MAX.

Definition two_otadata : Type := esp_ota_select_entry_t * esp_ota_select_entry_t.
Definition entry (d : two_otadata) (i : Z) : esp_ota_select_entry_t := if i =? 0 then d.1 else d.2.
Definition set_entry (d : two_otadata) (i : Z) (e : esp_ota_select_entry_t) : two_otadata :=
  if i =? 0 then (e, d.2) else (d.1, e).

(** The other of two entries, [(~i) & 1]. *)
Definition other_otadata (i : Z) : Z := Z.land (Z.lnot i) 1.

(** The flash: otadata, the answers of erases and writes, the contents of otadata so
    far, and the application partitions that were erased. *)
Record ota_flash : Type := mkFlash {
  otadata : two_otadata; flash_answers : list esp_err_t; history : list two_otadata; erased_apps : list Z
}.
Definition OT (A : Type) : Type := M ota_flash A.

(** What the code finds around otadata: [seq_crc] is [esp_rom_crc32_le] over a sequence
    number; [torn] is what a sector holds during an erase or a write and after one that
    failed; [app] says which application subtypes are in the partition table, without
    duplicates and empty partitions; [image_ok] whether [esp_image_verify] accepts an
    application partition and [other_image_ok] whether it accepts a partition of another
    type; [has_otadata] whether the table has otadata, [app_mmap] and [boot_mmap] whether
    the application and the bootloader can map it; [running] is the running application
    and [loads] whether the bootloader can load the image of an application. *)
Record ota_env : Type := mkEnv {
  seq_crc : Z → Z;
  torn : esp_ota_select_entry_t;
  app : Z → bool;
  image_ok : Z → bool;
  other_image_ok : bool;
  has_otadata : bool;
  app_mmap : bool;
  boot_mmap : bool;
  running : Z;
  loads : Z → bool
}.

(** ** [bootloader_common_loader.c] *)
Section ota.
Context (E : ota_env).

Definition bootloader_common_ota_select_crc (s : esp_ota_select_entry_t) : Z := seq_crc E (ota_seq s).

Definition bootloader_common_ota_select_invalid (s : esp_ota_select_entry_t) : bool :=
  (ota_seq s =? UINT32_MAX) || (ota_state s =? ESP_OTA_IMG_INVALID) || (ota_state s =? ESP_OTA_IMG_ABORTED).

Definition bootloader_common_ota_select_valid (s : esp_ota_select_entry_t) : bool :=
  negb (bootloader_common_ota_select_invalid s) && (crc s =? bootloader_common_ota_select_crc s).

Definition bootloader_common_select_otadata (d : two_otadata) (valid0 valid1 max : bool) : Z :=
  if valid0 && valid1 then
    let condition := if max then Z.max (ota_seq d.1) (ota_seq d.2) else Z.min (ota_seq d.1) (ota_seq d.2) in
    if condition =? ota_seq d.1 then 0 else 1
  else if valid0 then 0 else if valid1 then 1 else -1.

Definition bootloader_common_get_active_otadata (d : two_otadata) : Z :=
  bootloader_common_select_otadata d (bootloader_common_ota_select_valid d.1) (bootloader_common_ota_select_valid d.2) true.

(** ** Flash operations *)

Definition put_otadata (d : two_otadata) : OT unit :=
  modify (λ s, mkFlash d (flash_answers s) (history s ++ [d]) (erased_apps s)).

Definition next_flash_answer : OT esp_err_t := λ s,
  match flash_answers s with
  | e :: l => Done (mkFlash (otadata s) l (history s) (erased_apps s)) e
  | [] => Done s ESP_OK
  end.

(** Bring sector [i] to [e]. *)
Definition sector_op (i : Z) (e : esp_ota_select_entry_t) : OT esp_err_t :=
  s ← get;
  put_otadata (set_entry (otadata s) i (torn E));;
  err ← next_flash_answer;
  if decide (err = ESP_OK) then put_otadata (set_entry (otadata s) i e);; mret ESP_OK else mret err.

Definition erase_otadata_sector (i : Z) : OT esp_err_t := sector_op i erased_entry.
Definition write_otadata_sector (i : Z) (e : esp_ota_select_entry_t) : OT esp_err_t := sector_op i e.

(** Erase all of otadata, sector by sector. *)
Definition erase_otadata : OT esp_err_t :=
  e ← erase_otadata_sector 0;
  if decide (e = ESP_OK) then erase_otadata_sector 1 else mret e.

(** ** [esp_ota_ops.c] *)

Definition is_ota_partition (p : Z) : bool :=
  (ESP_PARTITION_SUBTYPE_APP_OTA_MIN <=? p) && (p <? ESP_PARTITION_SUBTYPE_APP_OTA_MAX).

Definition read_otadata : OT (option two_otadata) :=
  s ← get; mret (if has_otadata E && app_mmap E then Some (otadata s) else None).

Definition ESP_ERR_OTA_VALIDATE_FAILED : esp_err_t := ESP_ERR_OTHER 0x1503.

Definition image_validate (p : Z) : esp_err_t := if image_ok E p then ESP_OK else ESP_ERR_OTA_VALIDATE_FAILED.

Definition set_new_state_otadata : Z := ESP_OTA_IMG_NEW.

Definition rewrite_ota_seq (d : two_otadata) (seq sec_id : Z) : OT esp_err_t :=
  if 1 <? sec_id then mret ESP_ERR_INVALID_ARG
  else
    let e := mkSel seq (ota_state (entry d sec_id)) (seq_crc E seq) in
    ret ← erase_otadata_sector sec_id;
    if decide (ret = ESP_OK) then write_otadata_sector sec_id e else mret ret.

(** The loop looks at one subtype more than there are slots. *)
Fixpoint count_from (n : nat) (count : Z) : OT Z :=
  if app E (ESP_PARTITION_SUBTYPE_APP_OTA_MIN + count) then
    match n with
    | O => λ _, AssertFailed
    | S n' => count_from n' (count + 1)
    end
  else mret count.
Definition esp_ota_get_app_partition_count : OT Z := count_from 16 0.

(** The least [i] from the given one on with [seq <= base + i * n]. *)
Fixpoint seq_rounds (fuel : nat) (seq base n i : Z) : OT Z :=
  match fuel with
  | O => λ _, OutOfFuel
  | S fuel' => if u32 (base + u32 (i * n)) <? seq then seq_rounds fuel' seq base n (i + 1) else mret i
  end.

Definition SUB_TYPE_ID (subtype : Z) : Z := Z.land subtype 0x0F.

Definition esp_rewrite_ota_data (subtype : Z) : OT esp_err_t :=
  two ← read_otadata;
  match two with
  | None => mret ESP_ERR_NOT_FOUND
  | Some d =>
      ota_app_count ← esp_ota_get_app_partition_count;
      if ota_app_count <=? SUB_TYPE_ID subtype then mret ESP_ERR_INVALID_ARG
      else
        let active_otadata := bootloader_common_get_active_otadata d in
        if negb (active_otadata =? -1) then
          let seq := ota_seq (entry d active_otadata) in
          let base := (SUB_TYPE_ID subtype + 1) mod ota_app_count in
          i ← seq_rounds (Z.to_nat (seq / ota_app_count) + 2) seq base ota_app_count 0;
          let next_otadata := other_otadata active_otadata in
          let e := entry d next_otadata in
          rewrite_ota_seq (set_entry d next_otadata (mkSel (ota_seq e) set_new_state_otadata (crc e)))
            (u32 (base + u32 (i * ota_app_count))) next_otadata
        else
          let e := entry d 0 in
          rewrite_ota_seq (set_entry d 0 (mkSel (ota_seq e) set_new_state_otadata (crc e))) (SUB_TYPE_ID subtype + 1) 0
  end.

(** [None] is a null pointer, [Some None] a partition that is not an application. *)
Definition esp_ota_set_boot_partition (partition : option (option Z)) : OT esp_err_t :=
  match partition with
  | None => mret ESP_ERR_INVALID_ARG
  | Some None => mret (if other_image_ok E then ESP_ERR_INVALID_ARG else ESP_ERR_OTA_VALIDATE_FAILED)
  | Some (Some p) =>
      if decide (image_validate p = ESP_OK) then
        if p =? ESP_PARTITION_SUBTYPE_APP_FACTORY then
          if has_otadata E then erase_otadata else mret ESP_ERR_NOT_FOUND
        else esp_rewrite_ota_data p
      else mret ESP_ERR_OTA_VALIDATE_FAILED
  end.

(** The OTA subtypes from [s] on. *)
Fixpoint first_ota (n : nat) (s : Z) : option Z :=
  match n with
  | O => None
  | S n' => if app E s then Some s else first_ota n' (s + 1)
  end.

Definition find_default_boot_partition : option Z :=
  if app E ESP_PARTITION_SUBTYPE_APP_FACTORY then Some ESP_PARTITION_SUBTYPE_APP_FACTORY
  else match first_ota 16 ESP_PARTITION_SUBTYPE_APP_OTA_MIN with
       | Some s => Some s
       | None => if app E ESP_PARTITION_SUBTYPE_APP_TEST then Some ESP_PARTITION_SUBTYPE_APP_TEST else None
       end.

Definition find_first_app (p : Z) : option Z := if app E p then Some p else None.

(** The slot of a sequence number. *)
Definition slot_of (seq n : Z) : Z := u32 (seq - 1) mod n.

Definition esp_ota_get_boot_partition : OT (option Z) :=
  two ← read_otadata;
  match two with
  | None => mret None
  | Some d =>
      ota_app_count ← esp_ota_get_app_partition_count;
      if (bootloader_common_ota_select_invalid d.1 && bootloader_common_ota_select_invalid d.2) || (ota_app_count =? 0)
      then mret find_default_boot_partition
      else
        let active_otadata := bootloader_common_get_active_otadata d in
        if negb (active_otadata =? -1) then
          mret (find_first_app (ESP_PARTITION_SUBTYPE_APP_OTA_MIN + slot_of (ota_seq (entry d active_otadata)) ota_app_count))
        else mret find_default_boot_partition
  end.

(** The loop over the OTA subtypes: the default so far and whether the next is the
    result. *)
Fixpoint next_update (n : nat) (t start_from : Z) (default_ota : option Z) (next_is_result : bool) : option Z :=
  match n with
  | O => default_ota
  | S n' =>
      if app E t then
        let default_ota := match default_ota with None => Some t | _ => default_ota end in
        if t =? start_from then next_update n' (t + 1) start_from default_ota true
        else if next_is_result then Some t
        else next_update n' (t + 1) start_from default_ota next_is_result
      else next_update n' (t + 1) start_from default_ota next_is_result
  end.

(** [start_from] is a partition of the table, or none for the running one. *)
Definition esp_ota_get_next_update_partition (start_from : option Z) : option Z :=
  next_update 16 ESP_PARTITION_SUBTYPE_APP_OTA_MIN (default (running E) start_from) None false.

Definition esp_ota_check_rollback_is_possible : OT bool :=
  two ← read_otadata;
  match two with
  | None => mret false
  | Some d =>
      ota_app_count ← esp_ota_get_app_partition_count;
      if ota_app_count =? 0 then mret false
      else
        let active_ota := bootloader_common_get_active_otadata d in
        if active_ota =? -1 then mret false
        else
          let last := entry d (other_otadata active_ota) in
          if negb (bootloader_common_ota_select_valid last) then
            mret (app E ESP_PARTITION_SUBTYPE_APP_FACTORY && image_ok E ESP_PARTITION_SUBTYPE_APP_FACTORY)
          else
            let p := ESP_PARTITION_SUBTYPE_APP_OTA_MIN + slot_of (ota_seq last) ota_app_count in
            mret (app E p && image_ok E p)
  end.

Definition ESP_ERR_OTA_ROLLBACK_FAILED : esp_err_t := ESP_ERR_OTHER 0x1505.

Definition esp_ota_current_ota_is_workable (valid : bool) : OT esp_err_t :=
  two ← read_otadata;
  match two with
  | None => mret ESP_ERR_NOT_FOUND
  | Some d =>
      let active := bootloader_common_get_active_otadata d in
      count ← (if negb (active =? -1) then esp_ota_get_app_partition_count else mret 0);
      if negb (active =? -1) && negb (count =? 0) then
        let e := entry d active in
        if valid && negb (ota_state e =? ESP_OTA_IMG_VALID) then
          rewrite_ota_seq (set_entry d active (mkSel (ota_seq e) ESP_OTA_IMG_VALID (crc e))) (ota_seq e) active
        else if negb valid then
          possible ← esp_ota_check_rollback_is_possible;
          if negb possible then mret ESP_ERR_OTA_ROLLBACK_FAILED
          else rewrite_ota_seq (set_entry d active (mkSel (ota_seq e) ESP_OTA_IMG_INVALID (crc e))) (ota_seq e) active
        else mret ESP_OK
      else mret ESP_FAIL
  end.

Definition esp_ota_mark_app_valid_cancel_rollback : OT esp_err_t := esp_ota_current_ota_is_workable true.
Definition esp_ota_mark_app_invalid_rollback : OT esp_err_t := esp_ota_current_ota_is_workable false.

Definition check_invalid_otadata (s : esp_ota_select_entry_t) : bool :=
  negb (ota_seq s =? UINT32_MAX) && (crc s =? bootloader_common_ota_select_crc s) &&
  ((ota_state s =? ESP_OTA_IMG_INVALID) || (ota_state s =? ESP_OTA_IMG_ABORTED)).

Definition get_last_invalid_otadata (d : two_otadata) : Z :=
  bootloader_common_select_otadata d (check_invalid_otadata d.1) (check_invalid_otadata d.2) false.

Definition esp_ota_get_last_invalid_partition : OT (option Z) :=
  two ← read_otadata;
  match two with
  | None => mret None
  | Some d =>
      let invalid := get_last_invalid_otadata d in
      ota_app_count ← esp_ota_get_app_partition_count;
      if negb (invalid =? -1) && negb (ota_app_count =? 0) then
        let p := ESP_PARTITION_SUBTYPE_APP_OTA_MIN + slot_of (ota_seq (entry d invalid)) ota_app_count in
        mret (if app E p && image_ok E p then Some p else None)
      else mret None
  end.

(** [out] is whether the pointer for the result is not null. *)
Definition esp_ota_get_state_partition (partition : option Z) (out : bool) : OT (esp_err_t * Z) :=
  match partition with
  | None => mret (ESP_ERR_INVALID_ARG, 0)
  | Some p =>
      if negb out then mret (ESP_ERR_INVALID_ARG, 0)
      else if negb (is_ota_partition p) then mret (ESP_ERR_NOT_SUPPORTED, 0)
      else
        ota_app_count ← esp_ota_get_app_partition_count;
        two ← read_otadata;
        match two with
        | None => mret (ESP_ERR_NOT_FOUND, 0)
        | Some d =>
            if ota_app_count =? 0 then mret (ESP_ERR_NOT_FOUND, 0)
            else
              let req := p - ESP_PARTITION_SUBTYPE_APP_OTA_MIN in
              let hit e := (slot_of (ota_seq e) ota_app_count =? req) && (crc e =? bootloader_common_ota_select_crc e) in
              if hit d.1 then mret (ESP_OK, ota_state d.1)
              else if hit d.2 then mret (ESP_OK, ota_state d.2)
              else mret (ESP_ERR_NOT_FOUND, 0)
        end
  end.

Definition erase_last_boot_app_partition (skip_app_part_erase : bool) : OT esp_err_t :=
  two ← read_otadata;
  match two with
  | None => mret ESP_FAIL
  | Some d =>
      let active := bootloader_common_get_active_otadata d in
      ota_app_count ← esp_ota_get_app_partition_count;
      if (active =? -1) || (ota_app_count =? 0) then mret ESP_FAIL
      else
        let inactive := other_otadata active in
        let e := entry d inactive in
        if (ota_seq e =? UINT32_MAX) || negb (crc e =? bootloader_common_ota_select_crc e) then mret ESP_FAIL
        else
          let p := ESP_PARTITION_SUBTYPE_APP_OTA_MIN + slot_of (ota_seq e) ota_app_count in
          if negb (app E p) then mret ESP_FAIL
          else if p =? running E then mret ESP_FAIL
          else
            err ← (if negb skip_app_part_erase then
                     modify (λ s, mkFlash (otadata s) (flash_answers s) (history s) (erased_apps s ++ [p]));; next_flash_answer
                   else mret ESP_OK);
            if decide (err = ESP_OK) then erase_otadata_sector inactive else mret err
  end.
Definition esp_ota_erase_last_boot_app_partition : OT esp_err_t := erase_last_boot_app_partition false.
Definition esp_ota_invalidate_inactive_ota_data_slot : OT esp_err_t := erase_last_boot_app_partition true.

(** ** [bootloader_utility.c] *)

(** The number of OTA partitions the bootloader counts in the partition table. *)
Definition app_count : Z :=
  zlen (filter (λ i, app E (ESP_PARTITION_SUBTYPE_APP_OTA_MIN + i) = true) (seqZ 0 MAX_OTA_SLOTS)).

(** A failed write is only logged. *)
Definition write_otadata (i : Z) (e : esp_ota_select_entry_t) : OT unit :=
  err ← erase_otadata_sector i;
  if decide (err = ESP_OK) then _ ← write_otadata_sector i e; mret () else mret ().

(** An unconfirmed application is given up at the second boot. *)
Definition abort_pending (d : two_otadata) (i : Z) : OT two_otadata :=
  let e := entry d i in
  if ota_state e =? ESP_OTA_IMG_PENDING_VERIFY then
    let e' := mkSel (ota_seq e) ESP_OTA_IMG_ABORTED (crc e) in
    write_otadata i e';; mret (set_entry d i e')
  else mret d.

Definition initial_or_bad (e : esp_ota_select_entry_t) : bool :=
  (ota_seq e =? UINT32_MAX) || negb (crc e =? bootloader_common_ota_select_crc e).

(** The index to boot and [ota_has_initial_contents], which is false at start-up. *)
Definition bootloader_utility_get_selected_boot_partition : OT (Z * bool) :=
  if negb (has_otadata E) then mret (FACTORY_INDEX, false)
  else if negb (boot_mmap E) then mret (INVALID_INDEX, false)
  else
    s ← get;
    d ← abort_pending (otadata s) 0;
    d ← abort_pending d 1;
    if (bootloader_common_ota_select_invalid d.1 && bootloader_common_ota_select_invalid d.2) || (app_count =? 0) then
      if app E ESP_PARTITION_SUBTYPE_APP_FACTORY then mret (FACTORY_INDEX, false)
      else mret (0, initial_or_bad d.1 && initial_or_bad d.2)
    else
      let active := bootloader_common_get_active_otadata d in
      if negb (active =? -1) then
        let e := entry d active in
        let boot_index := slot_of (ota_seq e) app_count in
        (if ota_state e =? ESP_OTA_IMG_NEW
         then write_otadata active (mkSel (ota_seq e) ESP_OTA_IMG_PENDING_VERIFY (crc e)) else mret ());;
        mret (boot_index, false)
      else mret (FACTORY_INDEX, false).

(** The partition of an index, if it has one. *)
Definition index_to_partition (index : Z) : option Z :=
  if index =? FACTORY_INDEX then find_first_app ESP_PARTITION_SUBTYPE_APP_FACTORY
  else if index =? TEST_APP_INDEX then find_first_app ESP_PARTITION_SUBTYPE_APP_TEST
  else if (0 <=? index) && (index <? MAX_OTA_SLOTS) && (index <? app_count)
  then find_first_app (ESP_PARTITION_SUBTYPE_APP_OTA_MIN + index) else None.

Definition try_load_index (index : Z) : option Z :=
  p ← index_to_partition index; if loads E p then Some p else None.

Definition set_actual_ota_seq (ota_has_initial_contents : bool) (index : Z) : OT unit :=
  if (FACTORY_INDEX <? index) && ota_has_initial_contents
  then write_otadata 0 (mkSel (index + 1) ESP_OTA_IMG_VALID (seq_crc E (index + 1))) else mret ().

(** The first index of a list that loads. *)
Fixpoint try_indices (initial : bool) (l : list Z) : OT (option Z) :=
  match l with
  | [] => mret None
  | i :: l' =>
      match try_load_index i with
      | Some p => set_actual_ota_seq initial i;; mret (Some p)
      | None => try_indices initial l'
      end
  end.

(** Downwards from [start_index] to the factory application, then upwards. *)
Definition down_indices (start_index : Z) : list Z :=
  (λ k, start_index - Z.of_nat k) <$> seq 0 (Z.to_nat (start_index - FACTORY_INDEX + 1)).
Definition up_indices (start_index : Z) : list Z :=
  (λ k, start_index + 1 + Z.of_nat k) <$> seq 0 (Z.to_nat (app_count - (start_index + 1))).

(** The partition that is started; [None] is a reset. *)
Definition bootloader_utility_load_boot_image (start_index : Z) (initial : bool) : OT (option Z) :=
  if start_index =? TEST_APP_INDEX then mret (try_load_index TEST_APP_INDEX)
  else
    r ← try_indices initial (down_indices start_index);
    match r with
    | Some p => mret (Some p)
    | None =>
        r ← try_indices initial (up_indices start_index);
        match r with
        | Some p => mret (Some p)
        | None => mret (try_load_index TEST_APP_INDEX)
        end
    end.

(** ** [bootloader_start.c]: from the partition table to the application, without the
    pins for a factory reset and for the test application. *)
Definition call_start_cpu0 : OT (option Z) :=
  r ← bootloader_utility_get_selected_boot_partition;
  if r.1 =? INVALID_INDEX then mret None else bootloader_utility_load_boot_image r.1 r.2.

End ota.
