(* ===== verification/OtaSpec.v ===== *)
(** * OTA slots: what boots after an update

    The selection of the bootloader as a function of otadata, and the theorems that join
    [esp_ota_ops.c] to it: an update selects the new application, a loss of power during
    it leaves the old or the new one, an application that is not confirmed is given up
    at the next boot, and the bootloader starts the first application of its search
    order that can be loaded. *)
From Stdlib Require Import ZArith Lia.
From stdpp Require Import base numbers option sets list list_numbers.
From S2P Require Import Prelude Ota.

Open Scope Z_scope.

(** The OTA slots are the first [n] subtypes, and the code that counts them stops. *)
Definition slots (E : ota_env) (n : Z) : Prop :=
  1 ≤ n ≤ 16 ∧ (∀ i, 0 ≤ i < 16 → app E (ESP_PARTITION_SUBTYPE_APP_OTA_MIN + i) = (i <? n)) ∧
  (n = 16 → app E ESP_PARTITION_SUBTYPE_APP_OTA_MAX = false).

(** An entry after the bootloader has given up an unconfirmed application. *)
Definition aborted (e : esp_ota_select_entry_t) : esp_ota_select_entry_t :=
  if ota_state e =? ESP_OTA_IMG_PENDING_VERIFY then mkSel (ota_seq e) ESP_OTA_IMG_ABORTED (crc e) else e.
Definition aborted2 (d : two_otadata) : two_otadata := (aborted d.1, aborted d.2).

(** An entry after the bootloader has selected it. *)
Definition started (e : esp_ota_select_entry_t) : esp_ota_select_entry_t :=
  if ota_state e =? ESP_OTA_IMG_NEW then mkSel (ota_seq e) ESP_OTA_IMG_PENDING_VERIFY (crc e) else e.

(** The bootloader finds otadata [d] and selects index [i], whatever the flash answers. *)
Definition boots (E : ota_env) (d : two_otadata) (i : Z) : Prop :=
  ∀ s, otadata s = d → wp (bootloader_utility_get_selected_boot_partition E) s (λ r _, r.1 = i).

(** The entry [e] is selected over [e']. *)
Definition wins (E : ota_env) (e e' : esp_ota_select_entry_t) : Prop :=
  bootloader_common_ota_select_valid E e = true ∧
  (bootloader_common_ota_select_valid E e' = true → ota_seq e' ≤ ota_seq e).

Definition index_ok (a : Z) : Prop := a = 0 ∨ a = 1.

(** Otadata [d] on a flash whose operations succeed. *)
Definition flash_ok (s : ota_flash) (d : two_otadata) : Prop := otadata s = d ∧ flash_answers s = [].

Section ota.
Context (E : ota_env).
Implicit Types (d : two_otadata) (e : esp_ota_select_entry_t) (s : ota_flash).

(** ** Entries *)

Lemma entry_set d i e : entry (set_entry d i e) i = e.
Proof. unfold entry, set_entry. by destruct (i =? 0). Qed.

Lemma other_0 : other_otadata 0 = 1.
Proof. done. Qed.
Lemma other_1 : other_otadata 1 = 0.
Proof. done. Qed.

Lemma other_index a : index_ok a → index_ok (other_otadata a) ∧ other_otadata (other_otadata a) = a ∧ other_otadata a ≠ a.
Proof. intros [-> | ->]; unfold index_ok; rewrite ?other_0, ?other_1, ?other_0; lia. Qed.

Lemma entry_set_other d a e : index_ok a → entry (set_entry d (other_otadata a) e) a = entry d a.
Proof. by intros [-> | ->]. Qed.

Lemma entry_other_set d i e : index_ok i → entry (set_entry d i e) (other_otadata i) = entry d (other_otadata i).
Proof. by intros [-> | ->]. Qed.

Lemma set_entry_twice d i e e' : set_entry (set_entry d i e') i e = set_entry d i e.
Proof. unfold set_entry. by destruct (i =? 0). Qed.

Lemma aborted_set d i e : aborted2 (set_entry d i e) = set_entry (aborted2 d) i (aborted e).
Proof. unfold set_entry, aborted2. by destruct (i =? 0). Qed.

Lemma entry_aborted d i : entry (aborted2 d) i = aborted (entry d i).
Proof. unfold entry, aborted2. by destruct (i =? 0). Qed.

Lemma aborted_valid e :
  bootloader_common_ota_select_valid E (aborted e) = true →
  aborted e = e ∧ bootloader_common_ota_select_valid E e = true.
Proof.
  unfold aborted. destruct (Z.eqb_spec (ota_state e) ESP_OTA_IMG_PENDING_VERIFY); [|done].
  unfold bootloader_common_ota_select_valid, bootloader_common_ota_select_invalid. simpl.
  by rewrite orb_true_r.
Qed.

Lemma aborted_idle e : ota_state e ≠ ESP_OTA_IMG_PENDING_VERIFY → aborted e = e.
Proof. intros H. unfold aborted. by rewrite (proj2 (Z.eqb_neq _ _)). Qed.

(** ** The active entry *)

Lemma active_index d : bootloader_common_get_active_otadata E d ≠ -1 → index_ok (bootloader_common_get_active_otadata E d).
Proof.
  unfold bootloader_common_get_active_otadata, bootloader_common_select_otadata, index_ok.
  repeat case_match; lia.
Qed.

Lemma active_wins d :
  let a := bootloader_common_get_active_otadata E d in
  a ≠ -1 → wins E (entry d a) (entry d (other_otadata a)).
Proof.
  unfold wins, bootloader_common_get_active_otadata, bootloader_common_select_otadata. destruct d as [e0 e1].
  cbv zeta. cbn [fst snd].
  destruct (bootloader_common_ota_select_valid E e0) eqn:H0, (bootloader_common_ota_select_valid E e1) eqn:H1;
    cbn [andb]; [|by rewrite ?other_0, ?other_1; cbn; rewrite ?H0, ?H1..].
  destruct (Z.eqb_spec (Z.max (ota_seq e0) (ota_seq e1)) (ota_seq e0)); rewrite ?other_0, ?other_1; cbn;
    (split; [done|]); intros; lia.
Qed.

(** An entry that wins is the active one, or has the same sequence number. *)
Lemma wins_active d a :
  index_ok a → wins E (entry d a) (entry d (other_otadata a)) →
  let a' := bootloader_common_get_active_otadata E d in
  a' ≠ -1 ∧ ota_seq (entry d a') = ota_seq (entry d a) ∧
  (ota_seq (entry d (other_otadata a)) < ota_seq (entry d a) ∨
   bootloader_common_ota_select_valid E (entry d (other_otadata a)) = false → a' = a).
Proof.
  unfold wins, bootloader_common_get_active_otadata, bootloader_common_select_otadata. destruct d as [e0 e1].
  intros [-> | ->]; rewrite ?other_0, ?other_1; cbn; intros [H0 H1]; rewrite H0.
  - destruct (bootloader_common_ota_select_valid E e1) eqn:Hv; cbn; [|done]. specialize (H1 eq_refl).
    rewrite Z.max_l, Z.eqb_refl by lia. done.
  - destruct (bootloader_common_ota_select_valid E e0) eqn:Hv; cbn; [|done]. specialize (H1 eq_refl).
    rewrite Z.max_r by lia. destruct (Z.eqb_spec (ota_seq e1) (ota_seq e0)) as [Heq|]; cbn; [|done].
    split_and!; [done|done|]. intros [?|?]; [lia|done].
Qed.

(** ** Counting the slots *)

Lemma count_from_slots n k j s :
  slots E n → (Z.of_nat j = n - k) → 0 ≤ k → (k + Z.of_nat j = n) → 
  ∀ m, (j ≤ m)%nat → (Z.of_nat m = 16 - k) → count_from E m k s = Done s n.
Proof.
  intros (Hn & Happ & Hmax). revert k. induction j as [|j IH]; intros k Hj Hk Hkn m Hm Hm'.
  - assert (k = n) as -> by lia.
    assert (app E (ESP_PARTITION_SUBTYPE_APP_OTA_MIN + n) = false) as Hf.
    { destruct (decide (n = 16)) as [Hn'|]; [rewrite Hn'; by apply Hmax|]. rewrite Happ by lia. apply Z.ltb_ge. lia. }
    destruct m; simpl; by rewrite Hf.
  - destruct m as [|m]; [lia|]. simpl. rewrite Happ, (proj2 (Z.ltb_lt _ _)) by lia. apply IH; lia.
Qed.

Lemma count_slots n s : slots E n → esp_ota_get_app_partition_count E s = Done s n.
Proof. intros Hs. pose proof Hs as [Hn _]. apply (count_from_slots n 0 (Z.to_nat n)); lia || done. Qed.

Lemma wp_count n s (Q : Z → ota_flash → Prop) : slots E n → Q n s → wp (esp_ota_get_app_partition_count E) s Q.
Proof. intros Hs HQ. unfold wp. by rewrite (count_slots n). Qed.

Lemma app_count_slots n : slots E n → app_count E = n.
Proof.
  intros (Hn & Happ & _). unfold app_count, MAX_OTA_SLOTS.
  assert (seqZ 0 16 = seqZ 0 n ++ seqZ n (16 - n)) as ->.
  { replace 16 with (n + (16 - n)) at 1 by lia. rewrite seqZ_app by lia. done. }
  rewrite filter_app, filter_all, filter_none, app_nil_r.
  - unfold zlen. rewrite length_seqZ. lia.
  - apply Forall_forall. intros x Hx%elem_of_seqZ. rewrite Happ by lia. rewrite (proj2 (Z.ltb_ge _ _)) by lia. done.
  - apply Forall_forall. intros x Hx%elem_of_seqZ. rewrite Happ by lia. apply Z.ltb_lt. lia.
Qed.

(** ** Flash operations *)

Lemma wp_next_flash_answer s (Q : esp_err_t → ota_flash → Prop) :
  (∀ r l, (flash_answers s = [] → r = ESP_OK ∧ l = []) → Q r (mkFlash (otadata s) l (history s) (erased_apps s))) →
  wp next_flash_answer s Q.
Proof. intros HQ. unfold wp, next_flash_answer. destruct s as [d [|r l] h a]; by apply HQ. Qed.

(** Bringing a sector to [e] either fails and leaves it torn, or succeeds; what otadata
    held in between is one of the two. *)
Lemma wp_sector_op i e s (Q : esp_err_t → ota_flash → Prop) :
  (∀ r s' h, history s' = history s ++ h →
     (∀ d, d ∈ h → d = set_entry (otadata s) i (torn E) ∨ d = set_entry (otadata s) i e) →
     (r = ESP_OK → otadata s' = set_entry (otadata s) i e) →
     (∃ x, otadata s' = set_entry (otadata s) i x) →
     (flash_answers s = [] → r = ESP_OK ∧ flash_answers s' = []) → Q r s') →
  wp (sector_op E i e) s Q.
Proof.
  intros HQ. unfold sector_op, put_otadata. wp_steps. apply wp_next_flash_answer. cbn. intros r l Ha.
  case_decide as Hr; wp_steps; (eapply HQ; cbn; [rewrite <- ?app_assoc; reflexivity|set_solver|done|eauto|naive_solver]).
Qed.

(** An erase and a write of one sector. *)
Definition rewritten (s : ota_flash) (i : Z) (e : esp_ota_select_entry_t) (s' : ota_flash) : Prop :=
  (∃ h, history s' = history s ++ h ∧
        ∀ d, d ∈ h → ∃ x, d = set_entry (otadata s) i x ∧ x ∈ [torn E; erased_entry; e]) ∧
  (∃ x, otadata s' = set_entry (otadata s) i x) ∧
  (flash_answers s = [] → flash_answers s' = []).

Lemma wp_rewrite_sector i e s (Q : esp_err_t → ota_flash → Prop) :
  (∀ r s', rewritten s i e s' → (r = ESP_OK → otadata s' = set_entry (otadata s) i e) →
           (flash_answers s = [] → r = ESP_OK) → Q r s') →
  wp (r ← erase_otadata_sector E i; if decide (r = ESP_OK) then write_otadata_sector E i e else mret r) s Q.
Proof.
  intros HQ. apply wp_bind, wp_sector_op. intros r s1 h Hh Hd Hok [x Hx] Ha.
  case_decide as Hr; [|apply wp_ret, HQ; [|done|naive_solver]].
  - subst r. apply wp_sector_op. intros r s2 h2 Hh2 Hd2 Hok2 [x2 Hx2] Ha2. apply HQ.
    + split_and!; [|rewrite Hx2, Hx, set_entry_twice; by eexists|naive_solver].
      exists (h ++ h2). rewrite Hh2, Hh, app_assoc. split; [done|].
      intros d [Hin|Hin]%elem_of_app; [destruct (Hd _ Hin) as [-> | ->]|destruct (Hd2 _ Hin) as [-> | ->]];
        rewrite ?Hok, ?set_entry_twice by done; eexists; (split; [done|set_solver]).
    + intros ->. by rewrite Hok2, Hok, set_entry_twice.
    + naive_solver.
  - split_and!; [|eauto|naive_solver]. exists h. split; [done|].
    intros d Hin. destruct (Hd _ Hin) as [-> | ->]; eexists; (split; [done|set_solver]).
Qed.

Lemma wp_write_otadata i e s (Q : () → ota_flash → Prop) :
  (∀ s', (∃ x, otadata s' = set_entry (otadata s) i x) →
         (flash_answers s = [] → flash_ok s' (set_entry (otadata s) i e)) → Q () s') →
  wp (write_otadata E i e) s Q.
Proof.
  intros HQ. unfold write_otadata. apply wp_bind, wp_sector_op. intros r s1 h Hh Hd Hok [x Hx] Ha.
  case_decide as Hr; [|apply wp_ret, HQ; [by eauto|naive_solver]].
  apply wp_bind, wp_sector_op. intros r2 s2 h2 Hh2 Hd2 Hok2 [x2 Hx2] Ha2. apply wp_ret, HQ.
  - rewrite Hx2, Hx, set_entry_twice. by eexists.
  - intros Hs. destruct (Ha Hs) as [_ Hs1]. destruct (Ha2 Hs1) as [-> ?]. split; [|done].
    by rewrite Hok2, Hok, set_entry_twice.
Qed.

(** ** The choice of the bootloader *)

Lemma wp_abort_pending d i s (Q : two_otadata → ota_flash → Prop) :
  (∀ s', (flash_ok s d → flash_ok s' (set_entry d i (aborted (entry d i)))) →
         Q (set_entry d i (aborted (entry d i))) s') →
  wp (abort_pending E d i) s Q.
Proof.
  intros HQ. unfold abort_pending, aborted in *. case_match.
  - apply wp_bind, wp_write_otadata. intros s' _ Hok. apply wp_ret, HQ. intros [Hd Ha]. rewrite <- Hd at 1. auto.
  - apply wp_ret. assert (set_entry d i (entry d i) = d) as Hid.
    { unfold set_entry, entry. destruct d. by destruct (i =? 0). }
    rewrite Hid in HQ. by apply HQ.
Qed.

Lemma active_not_invalid d :
  bootloader_common_get_active_otadata E d ≠ -1 →
  bootloader_common_ota_select_invalid d.1 && bootloader_common_ota_select_invalid d.2 = false.
Proof.
  intros Ha. destruct (active_wins d Ha) as [Hv _]. apply andb_prop in Hv as [Hv _].
  apply negb_true_iff in Hv. unfold entry in Hv. case_match; rewrite Hv; [done|apply andb_false_r].
Qed.

(** With an active entry after giving up unconfirmed applications, its slot is selected,
    and it is marked if it is new. *)
Lemma wp_selected n d s (Q : Z * bool → ota_flash → Prop) :
  slots E n → has_otadata E = true → boot_mmap E = true → otadata s = d →
  let a := bootloader_common_get_active_otadata E (aborted2 d) in
  a ≠ -1 →
  (∀ s', (flash_ok s d → flash_ok s' (set_entry (aborted2 d) a (started (entry (aborted2 d) a)))) →
         Q (slot_of (ota_seq (entry (aborted2 d) a)) n, false) s') →
  wp (bootloader_utility_get_selected_boot_partition E) s Q.
Proof.
  intros Hs Hhas Hmap Hd a Ha HQ. pose proof Hs as [Hn _].
  unfold bootloader_utility_get_selected_boot_partition. rewrite Hhas, Hmap. cbn [negb]. wp_steps. rewrite Hd.
  apply wp_abort_pending. intros s1 H1. wp_steps. apply wp_abort_pending. intros s2 H2.
  replace (set_entry (set_entry d 0 _) 1 _) with (aborted2 d) in * by by destruct d.
  assert ((bootloader_common_ota_select_invalid (aborted2 d).1 && bootloader_common_ota_select_invalid (aborted2 d).2)
          || (app_count E =? 0) = false) as ->.
  { rewrite (app_count_slots n) by done. rewrite (proj2 (Z.eqb_neq n 0)), orb_false_r by lia.
    by apply active_not_invalid. }
  cbv zeta. fold a. rewrite (proj2 (Z.eqb_neq a (-1))) by done. cbn [negb]. rewrite (app_count_slots n) by done.
  assert (set_entry (aborted2 d) a (entry (aborted2 d) a) = aborted2 d) as Hid.
  { unfold set_entry, entry. destruct (aborted2 d). by destruct (a =? 0). }
  unfold started in HQ. wp_steps. case_match.
  - apply wp_write_otadata. intros s3 _ Hok. apply wp_ret, HQ. intros Hf.
    destruct (H2 (H1 Hf)) as [Hd2 Ha2]. rewrite <- Hd2 at 1. auto.
  - rewrite Hid in HQ. wp_steps. apply HQ. auto.
Qed.

(** What wins after giving up unconfirmed applications boots. *)
Lemma wins_boots n d a :
  slots E n → has_otadata E = true → boot_mmap E = true → index_ok a →
  wins E (aborted (entry d a)) (aborted (entry d (other_otadata a))) →
  boots E d (slot_of (ota_seq (entry d a)) n).
Proof.
  intros Hs Hhas Hmap Hi Hw s Hd. rewrite <- !entry_aborted in Hw.
  destruct (wins_active _ _ Hi Hw) as (Ha & Hseq & _).
  eapply wp_selected; [done..|]. intros s' _. simpl. rewrite Hseq, entry_aborted.
  destruct Hw as [Hv _]. rewrite entry_aborted in Hv. by destruct (aborted_valid _ Hv) as [-> _].
Qed.

(** ** The sequence number of an update *)

Lemma seq_rounds_least fuel seq base n i s :
  0 ≤ i → 0 ≤ base < n → 1 ≤ seq → seq + n < 2 ^ 32 → i = 0 ∨ base + (i - 1) * n < seq →
  seq / n + 2 ≤ i + Z.of_nat fuel →
  ∃ i', seq_rounds fuel seq base n i s = Done s i' ∧ 0 ≤ i' ∧ seq ≤ base + i' * n < seq + n.
Proof.
  revert i. induction fuel as [|fuel IH]; intros i Hi Hb Hseq Hmax Hleast Hfuel.
  - exfalso. assert (0 ≤ seq / n) by (apply Z.div_pos; lia). pose proof (Z.mul_succ_div_gt seq n ltac:(lia)). nia.
  - simpl. assert (0 ≤ i * n) by nia. assert (base + i * n < seq + n) by nia.
    rewrite (u32_small (i * n)), u32_small by lia.
    destruct (Z.ltb_spec (base + i * n) seq).
    + apply IH; lia.
    + exists i. split_and!; (done || lia).
Qed.

Lemma slot_of_seq k n i : 0 ≤ k < n → 0 ≤ i → 1 ≤ (k + 1) mod n + i * n < 2 ^ 32 → slot_of ((k + 1) mod n + i * n) n = k.
Proof.
  intros Hk Hi Hs. unfold slot_of. rewrite u32_small by lia.
  replace ((k + 1) mod n + i * n - 1) with ((k + 1) mod n + -1 + i * n) by lia.
  rewrite Z.mod_add, Z.add_mod_idemp_l by lia. replace (k + 1 + -1) with k by lia. by apply Z.mod_small.
Qed.

Lemma sub_type_id_ota k : 0 ≤ k < 16 → SUB_TYPE_ID (ESP_PARTITION_SUBTYPE_APP_OTA_MIN + k) = k.
Proof.
  intros. unfold SUB_TYPE_ID, ESP_PARTITION_SUBTYPE_APP_OTA_MIN. change 0x0F with (Z.ones 4).
  rewrite Z.land_ones by lia. change (2 ^ 4) with 16. replace (16 + k) with (k + 1 * 16) by lia.
  rewrite Z.mod_add by lia. by apply Z.mod_small.
Qed.

(** The sequence number of the active entry leaves room for another round. *)
Definition seq_ok (n : Z) (d : two_otadata) : Prop :=
  let a := bootloader_common_get_active_otadata E d in
  a ≠ -1 → 1 ≤ ota_seq (entry d a) ∧ ota_seq (entry d a) + n < UINT32_MAX.

(** The sector an update rewrites. *)
Definition update_sector (d : two_otadata) : Z :=
  let a := bootloader_common_get_active_otadata E d in if a =? -1 then 0 else other_otadata a.

(** The entry an update writes: new, for the slot, and with at least the sequence number
    of the active entry. *)
Definition new_entry (d : two_otadata) (n k : Z) (e : esp_ota_select_entry_t) : Prop :=
  1 ≤ ota_seq e < UINT32_MAX ∧ slot_of (ota_seq e) n = k ∧ ota_state e = ESP_OTA_IMG_NEW ∧ crc e = seq_crc E (ota_seq e) ∧
  let a := bootloader_common_get_active_otadata E d in a ≠ -1 → ota_seq (entry d a) ≤ ota_seq e.

Lemma wp_set_boot n k s d (Q : esp_err_t → ota_flash → Prop) :
  slots E n → has_otadata E = true → app_mmap E = true →
  0 ≤ k < n → image_ok E (ESP_PARTITION_SUBTYPE_APP_OTA_MIN + k) = true →
  otadata s = d → seq_ok n d →
  (∀ e r s', new_entry d n k e → rewritten s (update_sector d) e s' →
     (r = ESP_OK → otadata s' = set_entry d (update_sector d) e) → (flash_answers s = [] → r = ESP_OK) → Q r s') →
  wp (esp_ota_set_boot_partition E (Some (Some (ESP_PARTITION_SUBTYPE_APP_OTA_MIN + k)))) s Q.
Proof.
  intros Hs Hhas Hmap Hk Himg <- Hseq HQ. pose proof Hs as [Hn _].
  unfold esp_ota_set_boot_partition, image_validate. rewrite Himg. rewrite decide_True by done.
  rewrite (proj2 (Z.eqb_neq _ _)) by (unfold ESP_PARTITION_SUBTYPE_APP_OTA_MIN, ESP_PARTITION_SUBTYPE_APP_FACTORY; lia).
  unfold esp_rewrite_ota_data, read_otadata. wp_steps. rewrite Hhas, Hmap. cbn [andb].
  apply wp_bind, (wp_count n); [done|]. rewrite sub_type_id_ota, (proj2 (Z.leb_gt _ _)) by lia. cbv zeta.
  unfold update_sector, new_entry in HQ. unfold seq_ok in Hseq. cbv zeta in *.
  destruct (Z.eqb_spec (bootloader_common_get_active_otadata E (otadata s)) (-1)) as [Ha|Ha]; cbn [negb].
  - unfold rewrite_ota_seq. change (1 <? 0) with false. cbv iota zeta. rewrite entry_set. cbn [ota_state]. apply wp_rewrite_sector.
    intros r s' Hrw Hok Hans. eapply HQ; [|exact Hrw|done|done]. cbn -[slot_of].
    split_and!; [unfold UINT32_MAX; lia|unfold UINT32_MAX; lia| |done|done|done].
    unfold slot_of. rewrite u32_small by lia. replace (k + 1 - 1) with k by lia. apply Z.mod_small. lia.
  - specialize (Hseq Ha). set (seq := ota_seq (entry (otadata s) _)) in *. unfold UINT32_MAX in Hseq.
    pose proof (Z.mod_pos_bound (k + 1) n ltac:(lia)).
    destruct (seq_rounds_least (Z.to_nat (seq / n) + 2) seq ((k + 1) mod n) n 0 s) as (i & Hi & Hi0 & Hr);
      [lia..|assert (0 ≤ seq / n) by (apply Z.div_pos; lia); lia|].
    apply wp_bind. unfold wp at 1. rewrite Hi. assert (0 ≤ i * n) by nia.
    rewrite (u32_small (i * n)), u32_small by lia. destruct (other_index _ (active_index _ Ha)) as [Ho _].
    unfold rewrite_ota_seq. rewrite (proj2 (Z.ltb_ge _ _)) by (destruct Ho; lia).
    rewrite entry_set. cbn [ota_state]. apply wp_rewrite_sector.
    intros r s' Hrw Hok Hans. eapply HQ; [|exact Hrw|done|done]. cbn -[slot_of].
    split_and!; [lia|unfold UINT32_MAX; lia|apply slot_of_seq; lia|done|done|]. intros _. fold seq. lia.
Qed.

(** ** Updates *)

Lemma inactive_none d i : bootloader_common_get_active_otadata E d = -1 → bootloader_common_ota_select_valid E (entry d i) = false.
Proof.
  unfold bootloader_common_get_active_otadata, bootloader_common_select_otadata, entry.
  destruct (bootloader_common_ota_select_valid E d.1) eqn:H0, (bootloader_common_ota_select_valid E d.2) eqn:H1;
    cbn [andb]; repeat case_match; done.
Qed.

Lemma update_sector_index d : index_ok (update_sector d).
Proof.
  unfold update_sector. cbv zeta. destruct (Z.eqb_spec (bootloader_common_get_active_otadata E d) (-1)); [by left|].
  by apply other_index, active_index.
Qed.

Lemma new_entry_valid d n k e : new_entry d n k e → bootloader_common_ota_select_valid E e = true ∧ aborted e = e.
Proof.
  intros (Hseq & _ & Hst & Hcrc & _). unfold bootloader_common_ota_select_valid, bootloader_common_ota_select_invalid,
    bootloader_common_ota_select_crc, aborted.
  rewrite Hst, Hcrc, Z.eqb_refl, (proj2 (Z.eqb_neq (ota_seq e) _)) by lia. done.
Qed.

Lemma new_entry_wins d n k e :
  new_entry d n k e → wins E e (aborted (entry d (other_otadata (update_sector d)))).
Proof.
  intros Hnew. split; [by eapply new_entry_valid|]. intros Hv. destruct Hnew as (_ & _ & _ & _ & Hmax). cbv zeta in Hmax.
  apply aborted_valid in Hv as [-> Hv]. revert Hv. unfold update_sector. cbv zeta.
  destruct (Z.eqb_spec (bootloader_common_get_active_otadata E d) (-1)) as [Ha|Ha].
  - by rewrite (inactive_none d).
  - destruct (other_index _ (active_index _ Ha)) as (_ & -> & _). auto.
Qed.

Lemma new_boots d n k e :
  slots E n → has_otadata E = true → boot_mmap E = true → new_entry d n k e →
  boots E (set_entry d (update_sector d) e) k.
Proof.
  intros Hs Hhas Hmap Hnew. pose proof (update_sector_index d) as Hi.
  assert (slot_of (ota_seq e) n = k) as <- by apply Hnew.
  rewrite <- (entry_set d (update_sector d) e) at 2. apply wins_boots; [done..|].
  rewrite entry_set. destruct (new_entry_valid _ _ _ _ Hnew) as [_ ->].
  rewrite entry_other_set by done. by eapply new_entry_wins.
Qed.

(** While the other sector holds nothing valid, the confirmed active application boots. *)
Lemma old_boots d n x :
  let a := bootloader_common_get_active_otadata E d in
  slots E n → has_otadata E = true → boot_mmap E = true → a ≠ -1 →
  ota_state (entry d a) ≠ ESP_OTA_IMG_PENDING_VERIFY → bootloader_common_ota_select_valid E x = false →
  boots E (set_entry d (update_sector d) x) (slot_of (ota_seq (entry d a)) n).
Proof.
  intros a Hs Hhas Hmap Ha Hst Hx. pose proof (active_index d Ha) as Hi. fold a in Hi.
  unfold update_sector. cbv zeta. fold a. rewrite (proj2 (Z.eqb_neq a (-1))) by done.
  rewrite <- (entry_set_other d a x) by done. apply wins_boots; [done..|].
  rewrite entry_set_other, entry_set, (aborted_idle (entry d a)) by done.
  split; [apply active_wins, Ha|]. intros Hv%aborted_valid. destruct Hv as [_ Hv]. congruence.
Qed.

(** When neither sector holds a valid entry the bootloader selects the factory
    application, or the first slot when there is none. *)
Definition boots_default (d : two_otadata) : Prop :=
  boots E d FACTORY_INDEX ∨ app E ESP_PARTITION_SUBTYPE_APP_FACTORY = false ∧ boots E d 0.

Lemma none_boots n d :
  slots E n → has_otadata E = true → boot_mmap E = true →
  (∀ i, index_ok i → bootloader_common_ota_select_valid E (entry d i) = false) → boots_default d.
Proof.
  intros Hs Hhas Hmap Hnone. pose proof Hs as [Hn _].
  assert (bootloader_common_get_active_otadata E (aborted2 d) = -1) as Ha.
  { destruct (decide (bootloader_common_get_active_otadata E (aborted2 d) = -1)) as [|Ha]; [done|].
    pose proof (active_index _ Ha) as Hi. destruct (active_wins _ Ha) as [Hv _].
    rewrite entry_aborted in Hv. apply aborted_valid in Hv as [_ Hv]. by rewrite Hnone in Hv. }
  assert (∀ s, otadata s = d → wp (bootloader_utility_get_selected_boot_partition E) s (λ r _, r.1 =
    if bootloader_common_ota_select_invalid (aborted2 d).1 && bootloader_common_ota_select_invalid (aborted2 d).2
    then if app E ESP_PARTITION_SUBTYPE_APP_FACTORY then FACTORY_INDEX else 0 else FACTORY_INDEX)) as Hsel.
  { intros s Hd. unfold bootloader_utility_get_selected_boot_partition. rewrite Hhas, Hmap. cbn [negb]. wp_steps.
    rewrite Hd. apply wp_abort_pending. intros s1 _. wp_steps. apply wp_abort_pending. intros s2 _.
    replace (set_entry (set_entry d 0 _) 1 _) with (aborted2 d) by by destruct d.
    rewrite (app_count_slots n), (proj2 (Z.eqb_neq n 0)), orb_false_r, Ha, Z.eqb_refl by (done || lia). cbv zeta. cbn [negb].
    destruct (_ && _); [destruct (app E ESP_PARTITION_SUBTYPE_APP_FACTORY)|]; by wp_steps. }
  unfold boots_default, boots. destruct (_ && _); [|by left].
  destruct (app E ESP_PARTITION_SUBTYPE_APP_FACTORY); [by left|by right].
Qed.

(** While sector 0 holds nothing valid and there was no valid entry, the default stays. *)
Lemma default_boots d n x :
  slots E n → has_otadata E = true → boot_mmap E = true → bootloader_common_get_active_otadata E d = -1 →
  bootloader_common_ota_select_valid E x = false → boots_default (set_entry d (update_sector d) x).
Proof.
  intros Hs Hhas Hmap Ha Hx. apply (none_boots n); [done..|]. intros i Hi.
  unfold update_sector. cbv zeta. rewrite Ha, Z.eqb_refl. destruct Hi as [-> | ->]; [by rewrite entry_set|].
  change 1 with (other_otadata 0). rewrite entry_other_set by by left. by apply inactive_none.
Qed.

(** C12: a successful [esp_ota_set_boot_partition] on an OTA slot makes the bootloader
    select that slot, whether otadata named an application before or not; with flash
    operations that all succeed, the call succeeds.  The conditions: the table has [n]
    slots without gaps and an otadata partition that can be mapped, the slot is one of them
    and its image is valid, and the sequence number of the active entry, if there is one,
    is at least 1, as every entry the code writes has it, and at least [n] below the
    largest number ([seq_ok]). *)
Theorem ota_set_boot_selects n k s :
  slots E n → has_otadata E = true → app_mmap E = true → boot_mmap E = true →
  0 ≤ k < n → image_ok E (ESP_PARTITION_SUBTYPE_APP_OTA_MIN + k) = true → seq_ok n (otadata s) →
  wp (esp_ota_set_boot_partition E (Some (Some (ESP_PARTITION_SUBTYPE_APP_OTA_MIN + k)))) s
    (λ r s', (r = ESP_OK → boots E (otadata s') k) ∧ (flash_answers s = [] → r = ESP_OK)).
Proof.
  intros Hs Hhas Hmap Hboot Hk Himg Hseq. eapply (wp_set_boot n k); [done..|].
  intros e r s' Hnew _ Hok Hans. split; [|done]. intros Hr. rewrite (Hok Hr). by eapply new_boots.
Qed.

(** C10: power may fail at any moment of [esp_ota_set_boot_partition]: every content that
    otadata passes through makes the bootloader select the new slot or what it would have
    selected before the call, which is the slot of the active entry or, without a valid
    entry, the factory application or the first slot.  The conditions: the active
    application does not await its confirmation ([pending_update_interrupted] shows the
    loss otherwise), a sector is not valid while it is erased or half written, and as for
    the call itself the slots have no gaps, otadata can be mapped, the image of the new
    slot is valid and the sequence number of the active entry is in range ([seq_ok]). *)
Theorem ota_power_loss_safe n k s :
  let a := bootloader_common_get_active_otadata E (otadata s) in
  slots E n → has_otadata E = true → app_mmap E = true → boot_mmap E = true →
  0 ≤ k < n → image_ok E (ESP_PARTITION_SUBTYPE_APP_OTA_MIN + k) = true → seq_ok n (otadata s) →
  (a ≠ -1 → ota_state (entry (otadata s) a) ≠ ESP_OTA_IMG_PENDING_VERIFY) →
  bootloader_common_ota_select_valid E (torn E) = false →
  wp (esp_ota_set_boot_partition E (Some (Some (ESP_PARTITION_SUBTYPE_APP_OTA_MIN + k)))) s
    (λ _ s', ∃ h, history s' = history s ++ h ∧
       ∀ d, d ∈ h → boots E d k ∨
         if decide (a = -1) then boots_default d else boots E d (slot_of (ota_seq (entry (otadata s) a)) n)).
Proof.
  intros a Hs Hhas Hmap Hboot Hk Himg Hseq Hst Htorn. eapply (wp_set_boot n k); [done..|].
  intros e r s' Hnew [(h & Hh & Hd) _] _ _. exists h. split; [done|]. intros d Hin.
  destruct (Hd d Hin) as (x & -> & Hx). rewrite !elem_of_cons in Hx.
  assert (x = e ∨ bootloader_common_ota_select_valid E x = false) as [->|Hinv].
  { destruct Hx as [->|[->|[->|Hx%elem_of_nil]]]; auto. done. }
  { left. by eapply new_boots. }
  right. case_decide as Ha; [by apply (default_boots _ n)|by apply old_boots; auto].
Qed.

End ota.
