(* ===== verification/OtaBoot.v ===== *)
(** * OTA slots: rollback, the search for an image, the next slot

    Cycles of update, boot and confirmation, the order in which the bootloader tries the
    applications, and the slot an update goes to. *)
From Stdlib Require Import ZArith Lia.
From stdpp Require Import base numbers option sets list list_numbers.
From S2P Require Import Prelude Ota OtaSpec.

Open Scope Z_scope.

Section ota.
Context (E : ota_env).
Implicit Types (d : two_otadata) (e x y : esp_ota_select_entry_t) (s : ota_flash).

(** ** Loading *)

Lemma index_to_partition_slot n i :
  slots E n → 0 ≤ i < n → index_to_partition E i = Some (ESP_PARTITION_SUBTYPE_APP_OTA_MIN + i).
Proof.
  intros Hs Hi. pose proof Hs as (Hn & Happ & _). unfold index_to_partition, find_first_app.
  rewrite (app_count_slots E n) by done. unfold FACTORY_INDEX, TEST_APP_INDEX, MAX_OTA_SLOTS.
  rewrite !(proj2 (Z.eqb_neq _ _)), (proj2 (Z.leb_le _ _)), !(proj2 (Z.ltb_lt _ _)) by lia. cbn [andb].
  by rewrite Happ, (proj2 (Z.ltb_lt _ _)) by lia.
Qed.

Lemma try_load_slot n i :
  slots E n → 0 ≤ i < n → loads E (ESP_PARTITION_SUBTYPE_APP_OTA_MIN + i) = true →
  try_load_index E i = Some (ESP_PARTITION_SUBTYPE_APP_OTA_MIN + i).
Proof. intros Hs Hi Hl. unfold try_load_index. rewrite (index_to_partition_slot n) by done. cbn -[Z.add]. by rewrite Hl. Qed.

Lemma down_indices_cons i : -1 ≤ i → ∃ l, down_indices i = i :: l.
Proof.
  intros. unfold down_indices, FACTORY_INDEX. replace (Z.to_nat (i - -1 + 1)) with (S (Z.to_nat (i + 1))) by lia.
  simpl. rewrite Z.sub_0_r. by eexists.
Qed.

Lemma load_start n i s :
  slots E n → 0 ≤ i < n → loads E (ESP_PARTITION_SUBTYPE_APP_OTA_MIN + i) = true →
  bootloader_utility_load_boot_image E i false s = Done s (Some (ESP_PARTITION_SUBTYPE_APP_OTA_MIN + i)).
Proof.
  intros Hs Hi Hl. unfold bootloader_utility_load_boot_image, TEST_APP_INDEX.
  rewrite (proj2 (Z.eqb_neq _ _)) by lia. destruct (down_indices_cons i) as [l ->]; [lia|]. cbn [try_indices].
  rewrite (try_load_slot n i) by done. unfold set_actual_ota_seq. by rewrite andb_false_r.
Qed.

(** ** One boot *)

(** The entry [x] of sector [a] is the one that boots, alone at its sequence number. *)
Definition leads (d : two_otadata) (a : Z) : Prop :=
  index_ok a ∧ bootloader_common_ota_select_valid E (entry d a) = true ∧
  (bootloader_common_ota_select_valid E (entry d (other_otadata a)) = true →
   ota_seq (entry d (other_otadata a)) < ota_seq (entry d a)).

Lemma leads_active d a : leads d a → bootloader_common_get_active_otadata E d = a ∧ a ≠ -1.
Proof.
  intros (Hi & Hv & Hlt). assert (a ≠ -1) by (destruct Hi; lia). split; [|done].
  assert (wins E (entry d a) (entry d (other_otadata a))) as Hw by (split; [done|intros Ho; specialize (Hlt Ho); lia]).
  destruct (wins_active E d a Hi Hw) as (_ & _ & Ha). apply Ha.
  destruct (bootloader_common_ota_select_valid E (entry d (other_otadata a))); [left; auto|by right].
Qed.

Lemma wp_boot n d a s (Q : option Z → ota_flash → Prop) :
  slots E n → has_otadata E = true → boot_mmap E = true → flash_ok s d →
  leads (aborted2 d) a →
  let i := slot_of (ota_seq (entry d a)) n in
  loads E (ESP_PARTITION_SUBTYPE_APP_OTA_MIN + i) = true →
  (∀ s', flash_ok s' (set_entry (aborted2 d) a (started (aborted (entry d a)))) →
         Q (Some (ESP_PARTITION_SUBTYPE_APP_OTA_MIN + i)) s') →
  wp (call_start_cpu0 E) s Q.
Proof.
  intros Hs Hhas Hmap Hf Hl i Hld HQ. pose proof Hs as [Hn _]. destruct (leads_active _ _ Hl) as [Hact Ha].
  destruct Hl as (_ & Hv & _). rewrite entry_aborted in Hv. destruct (aborted_valid E _ Hv) as [Hab _].
  unfold call_start_cpu0. apply wp_bind. eapply (wp_selected E n d); [done|done|done|apply Hf|by rewrite Hact|].
  rewrite Hact, entry_aborted, Hab in *. intros s' Hs'. cbn [fst snd]. fold i.
  assert (0 ≤ i < n) by (apply Z.mod_pos_bound; lia).
  unfold INVALID_INDEX. rewrite (proj2 (Z.eqb_neq _ _)) by lia.
  unfold wp. rewrite (load_start n) by done. auto.
Qed.

(** ** Confirmation *)

Lemma wp_confirm n d a s (v : bool) (Q : esp_err_t → ota_flash → Prop) :
  slots E n → has_otadata E = true → app_mmap E = true → flash_ok s d → leads d a →
  ota_state (entry d a) ≠ ESP_OTA_IMG_VALID →
  (v = false → esp_ota_check_rollback_is_possible E s = Done s true) →
  (∀ s', flash_ok s' (set_entry d a (mkSel (ota_seq (entry d a)) (if v then ESP_OTA_IMG_VALID else ESP_OTA_IMG_INVALID)
                                       (seq_crc E (ota_seq (entry d a))))) → Q ESP_OK s') →
  wp (esp_ota_current_ota_is_workable E v) s Q.
Proof.
  intros Hs Hhas Hmap [Hd Hans] Hl Hst Hposs HQ. pose proof Hs as [Hn _]. destruct (leads_active _ _ Hl) as [Hact Ha].
  unfold esp_ota_current_ota_is_workable, read_otadata. wp_steps. rewrite Hhas, Hmap, Hd. cbn [andb]. cbv zeta.
  rewrite Hact, (proj2 (Z.eqb_neq a _)) by done. cbn [negb]. wp_steps. apply (wp_count E n); [done|].
  rewrite (proj2 (Z.eqb_neq n _)), (proj2 (Z.eqb_neq (ota_state _) _)) by (done || lia). cbn [negb andb].
  assert (∀ st, wp (rewrite_ota_seq E (set_entry d a (mkSel (ota_seq (entry d a)) st (crc (entry d a)))) (ota_seq (entry d a)) a) s
            (λ r s', r = ESP_OK ∧ flash_ok s' (set_entry d a (mkSel (ota_seq (entry d a)) st (seq_crc E (ota_seq (entry d a))))))) as Hrw.
  { intros st. unfold rewrite_ota_seq. rewrite (proj2 (Z.ltb_ge _ _)) by (destruct Hl as [[] _]; lia).
    rewrite entry_set. cbn [ota_state]. apply wp_rewrite_sector. intros r s' (_ & _ & Hans') Hok Hr.
    split; [by apply Hr|]. rewrite Hd in Hok. split; auto. }
  destruct v; cbn [andb negb].
  - eapply wp_mono; [apply Hrw|]. cbv beta. intros r s' [-> ?]. auto.
  - apply wp_bind. unfold wp at 1. rewrite Hposs by done. cbn [negb].
    eapply wp_mono; [apply Hrw|]. cbv beta. intros r s' [-> ?]. auto.
Qed.

(** With a valid other entry whose image is intact a rollback is possible. *)
Lemma rollback_possible n d a s :
  slots E n → has_otadata E = true → app_mmap E = true → flash_ok s d → leads d a →
  bootloader_common_ota_select_valid E (entry d (other_otadata a)) = true →
  image_ok E (ESP_PARTITION_SUBTYPE_APP_OTA_MIN + slot_of (ota_seq (entry d (other_otadata a))) n) = true →
  esp_ota_check_rollback_is_possible E s = Done s true.
Proof.
  intros Hs Hhas Hmap [Hd _] Hl Hv Himg. pose proof Hs as (Hn & Happ & _). destruct (leads_active _ _ Hl) as [Hact Ha].
  unfold esp_ota_check_rollback_is_possible, read_otadata, mbind, M_bind, get, mret, M_ret. rewrite Hhas, Hmap, Hd. cbn [andb].
  rewrite (count_slots E n), (proj2 (Z.eqb_neq n _)), Hact, (proj2 (Z.eqb_neq a _)), Hv by (done || lia). cbn [negb].
  rewrite Himg, Happ, (proj2 (Z.ltb_lt _ _)); [done|..]; pose proof (Z.mod_pos_bound (u32 (ota_seq (entry d (other_otadata a)) - 1)) n);
    unfold slot_of; lia.
Qed.

(** ** Cycles of update and boot *)

(** The partitions started by a number of boots. *)
Fixpoint reboots (m : nat) : OT (list (option Z)) :=
  match m with
  | O => mret []
  | S m' => b ← call_start_cpu0 E; l ← reboots m'; mret (b :: l)
  end.

(** Slot [j] boots, and booting does not change that. *)
Definition settled (n j : Z) (s : ota_flash) : Prop :=
  ∃ d a, flash_ok s d ∧ leads (aborted2 d) a ∧ ota_state (entry d a) ≠ ESP_OTA_IMG_NEW ∧ slot_of (ota_seq (entry d a)) n = j.

Lemma aborted_twice e : aborted (aborted e) = aborted e.
Proof. unfold aborted. destruct (ota_state e =? ESP_OTA_IMG_PENDING_VERIFY) eqn:He; [done|]. by rewrite He. Qed.

Lemma settled_boot n j s :
  slots E n → has_otadata E = true → boot_mmap E = true → loads E (ESP_PARTITION_SUBTYPE_APP_OTA_MIN + j) = true →
  settled n j s →
  wp (call_start_cpu0 E) s (λ b s', b = Some (ESP_PARTITION_SUBTYPE_APP_OTA_MIN + j) ∧ settled n j s').
Proof.
  intros Hs Hhas Hmap Hld (d & a & Hf & Hl & Hst & <-). eapply wp_boot; [done..|]. intros s' Hs'. split; [done|].
  destruct Hl as (Hi & Hv & Hlt). rewrite !entry_aborted in *. destruct (aborted_valid E _ Hv) as [Hab _]. rewrite Hab in *.
  assert (started (entry d a) = entry d a) as Hstd by (unfold started; by rewrite (proj2 (Z.eqb_neq _ _))).
  rewrite Hstd in Hs'. eexists _, a. split; [exact Hs'|]. rewrite entry_set. split_and!; [|done..].
  unfold leads. rewrite !entry_aborted, entry_set, entry_other_set, entry_aborted, aborted_twice, Hab by done. done.
Qed.

Lemma settled_reboots n j s m :
  slots E n → has_otadata E = true → boot_mmap E = true → loads E (ESP_PARTITION_SUBTYPE_APP_OTA_MIN + j) = true →
  settled n j s → wp (reboots m) s (λ l _, l = replicate m (Some (ESP_PARTITION_SUBTYPE_APP_OTA_MIN + j))).
Proof.
  intros Hs Hhas Hmap Hld. revert s. induction m as [|m IH]; intros s Hset; simpl; [by apply wp_ret|].
  apply wp_bind. eapply wp_mono; [by apply (settled_boot n j)|]. intros b s' [-> Hset']. apply wp_bind.
  eapply wp_mono; [by apply IH|]. intros l s2 ->. by apply wp_ret.
Qed.

(** The new application of slot [k] has been booted once and is not yet confirmed. *)
Definition unconfirmed (n k : Z) (d : two_otadata) (s : ota_flash) : Prop :=
  let a := bootloader_common_get_active_otadata E d in
  ∃ e, new_entry E d n k e ∧ ota_seq (entry d a) < ota_seq e ∧ flash_ok s (set_entry (aborted2 d) (other_otadata a) (started e)).

Section cycle.
Context (n k : Z) (s : ota_flash) (d := otadata s) (a := bootloader_common_get_active_otadata E d)
  (j := slot_of (ota_seq (entry d a)) n).
Hypothesis Hslots : slots E n.
Hypothesis Hhas : has_otadata E = true.
Hypothesis Happ : app_mmap E = true.
Hypothesis Hboot : boot_mmap E = true.
Hypothesis Hk : 0 ≤ k < n.
Hypothesis Himg : image_ok E (ESP_PARTITION_SUBTYPE_APP_OTA_MIN + k) = true.
Hypothesis Hseq : seq_ok E n d.
Hypothesis Hans : flash_answers s = [].
Hypothesis Ha : a ≠ -1.
Hypothesis Hst : ota_state (entry d a) = ESP_OTA_IMG_VALID.
Hypothesis Hjk : j ≠ k.
Hypothesis Hloadk : loads E (ESP_PARTITION_SUBTYPE_APP_OTA_MIN + k) = true.

Lemma update_boot :
  wp (r ← esp_ota_set_boot_partition E (Some (Some (ESP_PARTITION_SUBTYPE_APP_OTA_MIN + k)));
      b ← call_start_cpu0 E; mret (r, b)) s
    (λ o s1, o = (ESP_OK, Some (ESP_PARTITION_SUBTYPE_APP_OTA_MIN + k)) ∧ unconfirmed n k d s1).
Proof.
  pose proof (active_index E d Ha) as Hi. destruct (other_index _ Hi) as (Hoi & Hoo & _). fold a in Hoo, Hoi.
  apply wp_bind. eapply (wp_set_boot E n k); [done..|]. intros e r s1 Hnew (_ & _ & Hans1) Hok Hr.
  assert (r = ESP_OK) as -> by auto. specialize (Hok eq_refl). revert Hok. unfold update_sector. cbv zeta.
  fold d a. rewrite (proj2 (Z.eqb_neq a _)) by done. intros Hok.
  destruct (new_entry_valid E _ _ _ _ Hnew) as [Hv Hab]. pose proof Hnew as (_ & Hslot & _ & _ & Hmax).
  specialize (Hmax Ha). fold d a in Hmax.
  assert (ota_seq (entry d a) < ota_seq e) as Hlt.
  { destruct (decide (ota_seq (entry d a) = ota_seq e)) as [He|]; [|lia]. exfalso. apply Hjk. unfold j. by rewrite He. }
  apply wp_bind. eapply (wp_boot n _ (other_otadata a)); [done|done|done|split; [exact Hok|by apply Hans1]|..].
  - unfold leads. rewrite !entry_aborted, entry_set, Hoo, entry_set_other, Hab by done. split_and!; [done|done|].
    intros [-> _]%aborted_valid. done.
  - by rewrite entry_set, Hslot.
  - intros s2 Hs2. rewrite aborted_set, set_entry_twice, entry_set, Hab in Hs2. apply wp_ret.
    rewrite entry_set, Hslot. split; [done|]. exists e. done.
Qed.

Lemma unconfirmed_settles s1 : unconfirmed n k d s1 → settled n j s1.
Proof.
  pose proof (active_index E d Ha) as Hi. fold a in Hi.
  intros (e & Hnew & Hlt & Hf). fold a in Hf, Hlt. eexists _, a. split; [exact Hf|].
  pose proof (active_wins E d Ha) as [Hv _]. fold a in Hv.
  assert (aborted (entry d a) = entry d a) as Hab by (apply aborted_idle; by rewrite Hst).
  unfold leads. rewrite !entry_aborted, entry_set_other, entry_set, entry_aborted, aborted_twice, Hab by done.
  split_and!; [done|done| |by rewrite Hst|done].
  destruct Hnew as (_ & _ & Hn & _). unfold started. rewrite Hn.
  unfold bootloader_common_ota_select_valid, bootloader_common_ota_select_invalid. cbn. by rewrite orb_true_r.
Qed.

Lemma unconfirmed_leads s1 :
  unconfirmed n k d s1 → ∃ d1, flash_ok s1 d1 ∧ leads d1 (other_otadata a) ∧
    entry d1 a = entry d a ∧ bootloader_common_ota_select_valid E (entry d a) = true ∧
    ota_state (entry d1 (other_otadata a)) = ESP_OTA_IMG_PENDING_VERIFY ∧
    1 ≤ ota_seq (entry d1 (other_otadata a)) < UINT32_MAX ∧
    slot_of (ota_seq (entry d1 (other_otadata a))) n = k ∧ ota_seq (entry d a) < ota_seq (entry d1 (other_otadata a)).
Proof.
  pose proof (active_index E d Ha) as Hi. fold a in Hi. destruct (other_index _ Hi) as (Hoi & Hoo & _).
  intros (e & Hnew & Hlt & Hf). fold a in Hf, Hlt. eexists. split; [exact Hf|].
  pose proof (active_wins E d Ha) as [Hv _]. fold a in Hv.
  assert (aborted (entry d a) = entry d a) as Hab by (apply aborted_idle; by rewrite Hst).
  destruct (new_entry_valid E _ _ _ _ Hnew) as [Hve _]. destruct Hnew as (Hsq & Hslot & Hn & Hcrc & _).
  unfold leads. rewrite Hoo, entry_set, entry_set_other, entry_aborted, Hab by done.
  assert (started e = mkSel (ota_seq e) ESP_OTA_IMG_PENDING_VERIFY (crc e)) as -> by (unfold started; by rewrite Hn).
  cbn [ota_seq ota_state]. split_and!; try done; [|lia..].
  revert Hve. unfold bootloader_common_ota_select_valid, bootloader_common_ota_select_invalid. cbn. rewrite Hn. cbn.
  by rewrite !orb_false_r.
Qed.

Lemma unconfirmed_valid s1 :
  unconfirmed n k d s1 → wp (esp_ota_mark_app_valid_cancel_rollback E) s1 (λ r s2, r = ESP_OK ∧ settled n k s2).
Proof.
  pose proof (active_index E d Ha) as Hi. fold a in Hi. destruct (other_index _ Hi) as (Hoi & Hoo & _).
  intros (d1 & Hf & Hl & Hea & Hva & Hpend & Hrange & Hslot & Hlt)%unconfirmed_leads.
  eapply (wp_confirm n d1 _ s1 true); [done..|by rewrite Hpend|done|]. intros s2 Hs2. split; [done|].
  eexists _, _. split; [exact Hs2|]. unfold leads. rewrite !entry_aborted, !entry_set, Hoo, entry_set_other, Hea by done.
  cbn [ota_state ota_seq]. split_and!; [done| |intros [-> _]%aborted_valid; exact Hlt|done|done].
  unfold bootloader_common_ota_select_valid, bootloader_common_ota_select_invalid, bootloader_common_ota_select_crc. cbn.
  rewrite Z.eqb_refl, (proj2 (Z.eqb_neq (ota_seq _) _)) by lia. done.
Qed.

Lemma unconfirmed_invalid s1 :
  image_ok E (ESP_PARTITION_SUBTYPE_APP_OTA_MIN + j) = true →
  unconfirmed n k d s1 → wp (esp_ota_mark_app_invalid_rollback E) s1 (λ r s2, r = ESP_OK ∧ settled n j s2).
Proof.
  pose proof (active_index E d Ha) as Hi. fold a in Hi. destruct (other_index _ Hi) as (Hoi & Hoo & _).
  intros Hij (d1 & Hf & Hl & Hea & Hva & Hpend & Hrange & Hslot & Hlt)%unconfirmed_leads.
  eapply (wp_confirm n d1 _ s1 false); [done..|by rewrite Hpend| |].
  - intros _. eapply rollback_possible; [done..| |]; rewrite Hoo, Hea; done.
  - intros s2 Hs2. split; [done|]. exists (set_entry d1 (other_otadata a) (mkSel (ota_seq (entry d1 (other_otadata a)))
      ESP_OTA_IMG_INVALID (seq_crc E (ota_seq (entry d1 (other_otadata a)))))), a. split; [exact Hs2|].
    unfold leads. rewrite !entry_aborted, entry_set_other, entry_set, Hea by done.
    assert (aborted (entry d a) = entry d a) as Hab by (apply aborted_idle; by rewrite Hst).
    rewrite Hab. split_and!; [done|done| |by rewrite Hst|done].
    unfold bootloader_common_ota_select_valid, bootloader_common_ota_select_invalid. cbn. by rewrite orb_true_r.
Qed.
End cycle.

(** C11: An update of a confirmed application starts the new application at the next
    boot.  Without a confirmation every later boot starts the old one again; after
    [esp_ota_mark_app_valid_cancel_rollback] every later boot starts the new one; after
    [esp_ota_mark_app_invalid_rollback] every later boot starts the old one. *)
Theorem ota_rollback_cycle n k s m :
  let d := otadata s in
  let a := bootloader_common_get_active_otadata E d in
  let j := slot_of (ota_seq (entry d a)) n in
  let part i := ESP_PARTITION_SUBTYPE_APP_OTA_MIN + i in
  slots E n → has_otadata E = true → app_mmap E = true → boot_mmap E = true → 0 ≤ k < n → j ≠ k →
  (∀ i, i = j ∨ i = k → image_ok E (part i) = true ∧ loads E (part i) = true) →
  seq_ok E n d → flash_answers s = [] → a ≠ -1 → ota_state (entry d a) = ESP_OTA_IMG_VALID →
  wp (r ← esp_ota_set_boot_partition E (Some (Some (part k))); b ← call_start_cpu0 E; mret (r, b)) s (λ o s1,
    o = (ESP_OK, Some (part k)) ∧
    wp (reboots m) s1 (λ l _, l = replicate m (Some (part j))) ∧
    wp (esp_ota_mark_app_valid_cancel_rollback E) s1 (λ r s2,
      r = ESP_OK ∧ wp (reboots m) s2 (λ l _, l = replicate m (Some (part k)))) ∧
    wp (esp_ota_mark_app_invalid_rollback E) s1 (λ r s2,
      r = ESP_OK ∧ wp (reboots m) s2 (λ l _, l = replicate m (Some (part j))))).
Proof.
  intros d a j part Hs Hhas Happ Hboot Hk Hjk Hok Hseq Hans Ha Hst.
  destruct (Hok k) as [Hik Hlk]; [by right|]. destruct (Hok j) as [Hij Hlj]; [by left|].
  eapply wp_mono; [by apply (update_boot n k s)|]. intros o s1 [-> Hun]. split_and!; [done|..].
  - eapply settled_reboots; [done..|]. by apply (unconfirmed_settles n k s).
  - eapply wp_mono; [by apply (unconfirmed_valid n k s)|]. intros r s2 [-> Hset]. split; [done|by apply (settled_reboots n)].
  - eapply wp_mono; [by apply (unconfirmed_invalid n k s)|]. intros r s2 [-> Hset]. split; [done|by apply (settled_reboots n)].
Qed.

(** ** The search for an image *)

(** The place of an index in the search from [start]. *)
Definition rank (start i : Z) : Z :=
  if i =? TEST_APP_INDEX then Z.max (app_count E) start + 2 else if i <=? start then start - i else i + 1.

Lemma try_indices_first initial l s :
  wp (try_indices E initial l) s (λ r _,
    match r with
    | Some p => ∃ k i, l !! k = Some i ∧ try_load_index E i = Some p ∧
                ∀ k' i', (k' < k)%nat → l !! k' = Some i' → try_load_index E i' = None
    | None => ∀ i, i ∈ l → try_load_index E i = None
    end).
Proof.
  revert s. induction l as [|i l IH]; intros s; cbn [try_indices]; [apply wp_ret; set_solver|].
  destruct (try_load_index E i) as [p|] eqn:Hi.
  - apply wp_bind. apply (wp_mono _ _ (λ _ _, True)).
    + unfold set_actual_ota_seq. case_match; [by apply wp_write_otadata|by apply wp_ret].
    + intros _ s' _. apply wp_ret. exists 0%nat, i. split_and!; [done|done|]. lia.
  - eapply wp_mono; [apply IH|]. intros [p|] s'.
    + intros (k & i0 & Hk & Hp & Hbefore). exists (S k), i0. split_and!; [done|done|].
      intros [|k'] i' Hlt Hl; [by simplify_eq/=|]. apply (Hbefore k'); [lia|done].
    + intros Hnone i' [->|Hin]%elem_of_cons; auto.
Qed.

Lemma down_lookup start k i :
  -1 ≤ start → down_indices start !! k = Some i ↔ i = start - Z.of_nat k ∧ -1 ≤ i.
Proof.
  intros Hst. unfold down_indices, FACTORY_INDEX. rewrite list_lookup_fmap. split.
  - intros (k' & Hk & ->)%fmap_Some. apply lookup_seq in Hk. lia.
  - intros [-> Hi]. rewrite lookup_seq_lt by lia. done.
Qed.

Lemma up_lookup start k i :
  up_indices E start !! k = Some i ↔ i = start + 1 + Z.of_nat k ∧ i < app_count E.
Proof.
  unfold up_indices. rewrite list_lookup_fmap. split.
  - intros (k' & Hk & ->)%fmap_Some. apply lookup_seq in Hk. lia.
  - intros [-> Hi]. rewrite lookup_seq_lt by lia. done.
Qed.

Lemma index_none i : app_count E ≤ i → 0 ≤ i → try_load_index E i = None.
Proof.
  intros H1 H2. unfold try_load_index, index_to_partition, FACTORY_INDEX, TEST_APP_INDEX.
  rewrite !(proj2 (Z.eqb_neq _ _)) by lia. rewrite (proj2 (Z.ltb_ge i (app_count E))) by lia.
  by rewrite andb_false_r.
Qed.

Lemma loaded_index i p : try_load_index E i = Some p → FACTORY_INDEX ≤ i ∨ i = TEST_APP_INDEX.
Proof.
  unfold try_load_index, index_to_partition, FACTORY_INDEX, TEST_APP_INDEX. intros Hp.
  destruct (decide (-1 ≤ i ∨ i = -2)) as [|Hi]; [done|]. exfalso. revert Hp.
  rewrite !(proj2 (Z.eqb_neq _ _)), (proj2 (Z.leb_gt 0 i)) by lia. done.
Qed.

(** The search from the factory application or a slot. *)
Lemma search_from start initial s :
  FACTORY_INDEX ≤ start →
  wp (bootloader_utility_load_boot_image E start initial) s (λ r _,
    match r with
    | Some p => ∃ i, try_load_index E i = Some p ∧
                ∀ i', FACTORY_INDEX ≤ i' ∨ i' = TEST_APP_INDEX → rank start i' < rank start i → try_load_index E i' = None
    | None => ∀ i, FACTORY_INDEX ≤ i ∨ i = TEST_APP_INDEX → try_load_index E i = None
    end).
Proof.
  intros Hst. unfold FACTORY_INDEX, bootloader_utility_load_boot_image in *.
  rewrite (proj2 (Z.eqb_neq _ _)) by (unfold TEST_APP_INDEX; lia).
  apply wp_bind. eapply wp_mono; [apply try_indices_first|]. intros [p|] s1; cbv beta iota.
  { intros (k & i & Hk & Hp & Hbefore). apply wp_ret. exists i. split; [done|]. intros i' Hi' Hr.
    apply down_lookup in Hk as [-> Hi]; [|done]. unfold rank, TEST_APP_INDEX in *.
    apply (Hbefore (Z.to_nat (start - i'))); [|apply down_lookup; [done|]]; repeat case_match; lia. }
  intros Hdown. apply wp_bind. eapply wp_mono; [apply try_indices_first|].
  assert (∀ i, -1 ≤ i ≤ start → try_load_index E i = None) as Hd.
  { intros i Hi. apply Hdown. apply list_elem_of_lookup. exists (Z.to_nat (start - i)). apply down_lookup; lia. }
  intros [p|] s2; cbv beta iota.
  { intros (k & i & Hk & Hp & Hbefore). apply wp_ret. exists i. split; [done|]. intros i' Hi' Hr.
    apply up_lookup in Hk as [-> Hi]. destruct (decide (-1 ≤ i' ≤ start)); [auto|].
    unfold rank, TEST_APP_INDEX in *.
    apply (Hbefore (Z.to_nat (i' - (start + 1)))); [|apply up_lookup]; repeat case_match; lia. }
  intros Hup. apply wp_ret.
  assert (∀ i, -1 ≤ i → try_load_index E i = None) as Ho.
  { intros i Hi. destruct (decide (i ≤ start)); [apply Hd; lia|].
    destruct (decide (i < app_count E)); [|apply index_none; lia].
    apply Hup, list_elem_of_lookup. exists (Z.to_nat (i - (start + 1))). apply up_lookup. lia. }
  destruct (try_load_index E TEST_APP_INDEX) as [p|] eqn:Ht.
  - exists TEST_APP_INDEX. split; [done|]. intros i' [Hi'| ->] Hr; [auto|lia].
  - intros i [Hi| ->]; auto.
Qed.

(** The indices that are tried from [start]: all, or only the test application when that
    one was asked for. *)
Definition searched (start i : Z) : Prop := i = TEST_APP_INDEX ∨ FACTORY_INDEX ≤ i ∧ start ≠ TEST_APP_INDEX.

(** C13: from the factory application or a slot, the bootloader starts the loadable
    partition that comes first in the search: downwards from the start index to the factory
    application, then upwards through the other OTA slots, then the test application.  It
    resets only when none of them can be loaded.  From the index of the test application,
    which a pin selects, it starts the test application or resets: it does not turn to the
    other applications. *)
Theorem boot_image_search start initial s :
  FACTORY_INDEX ≤ start ∨ start = TEST_APP_INDEX →
  wp (bootloader_utility_load_boot_image E start initial) s (λ r _,
    match r with
    | Some p => ∃ i, searched start i ∧ try_load_index E i = Some p ∧
                ∀ i', searched start i' → rank start i' < rank start i → try_load_index E i' = None
    | None => ∀ i, searched start i → try_load_index E i = None
    end).
Proof.
  unfold searched. intros [Hst| ->].
  - eapply wp_mono; [by apply search_from|].
    assert (start ≠ TEST_APP_INDEX) by (unfold FACTORY_INDEX, TEST_APP_INDEX in *; lia).
    intros [p|] _; cbv beta iota; [|naive_solver]. intros (i & Hp & Hbefore). exists i. split_and!; [|done|naive_solver].
    by apply loaded_index in Hp as [|]; [right|left].
  - unfold bootloader_utility_load_boot_image. rewrite Z.eqb_refl. apply wp_ret.
    destruct (try_load_index E TEST_APP_INDEX) as [p|] eqn:Ht; [|naive_solver].
    exists TEST_APP_INDEX. split_and!; [by left|done|]. intros i' [->|[_ ?]]; [lia|done].
Qed.

(** ** The view of the application *)

Lemma load_here i initial s p :
  -1 ≤ i → try_load_index E i = Some p → wp (bootloader_utility_load_boot_image E i initial) s (λ r _, r = Some p).
Proof.
  intros Hi Hp. eapply wp_mono; [by apply search_from|]. intros [q|] _.
  - intros (i' & Hq & Hbefore). destruct (decide (i' = i)) as [->|Hne]; [congruence|].
    assert (try_load_index E i = None); [|congruence]. apply Hbefore; [by left|].
    destruct (decide (-1 ≤ i' ∨ i' = TEST_APP_INDEX)) as [Hi'|Hi'].
    + unfold rank, TEST_APP_INDEX in *. repeat case_match; lia.
    + by apply loaded_index in Hq.
  - intros Hnone. rewrite Hnone in Hp by (by left). done.
Qed.

Lemma try_load_app p i :
  app E p = true → (∀ p, app E p = true → loads E p = true) → index_to_partition E i = find_first_app E p →
  try_load_index E i = Some p.
Proof. intros Hp Hl Hi. unfold try_load_index. rewrite Hi. unfold find_first_app. rewrite Hp. cbn. by rewrite Hl. Qed.

Lemma slot_of_range (z n : Z) : 0 < n → 0 ≤ slot_of z n < n.
Proof. intros. by apply Z.mod_pos_bound. Qed.

Lemma slot_app n i : slots E n → 0 ≤ i < n → app E (ESP_PARTITION_SUBTYPE_APP_OTA_MIN + i) = true.
Proof. intros (Hn & Happ & _) Hi. rewrite Happ by lia. apply Z.ltb_lt. lia. Qed.

(** What the application reports. *)
Lemma get_boot_partition_eq n s :
  slots E n → has_otadata E = true → app_mmap E = true →
  let d := otadata s in
  let a := bootloader_common_get_active_otadata E d in
  esp_ota_get_boot_partition E s = Done s
    (if decide (a = -1) then find_default_boot_partition E
     else Some (ESP_PARTITION_SUBTYPE_APP_OTA_MIN + slot_of (ota_seq (entry d a)) n)).
Proof.
  intros Hs Hhas Happ d a. pose proof Hs as (Hn & _).
  unfold esp_ota_get_boot_partition, read_otadata, mbind, M_bind, get, mret, M_ret. rewrite Hhas, Happ. cbn [andb].
  rewrite (count_slots E n), (proj2 (Z.eqb_neq n 0)), orb_false_r by (done || lia). fold d a.
  case_decide as Ha.
  - rewrite Ha. by destruct (_ && _).
  - assert (bootloader_common_ota_select_invalid d.1 && bootloader_common_ota_select_invalid d.2 = false) as ->
      by by apply (active_not_invalid E).
    rewrite (proj2 (Z.eqb_neq a _)) by done. cbn [negb]. unfold find_first_app.
    rewrite (slot_app n); [done..|]. apply slot_of_range. lia.
Qed.

(** The default of the bootloader is the default of the application. *)
Lemma load_default n i initial s :
  slots E n → (∀ p, app E p = true → loads E p = true) →
  i = FACTORY_INDEX ∨ i = 0 ∧ app E ESP_PARTITION_SUBTYPE_APP_FACTORY = false →
  wp (bootloader_utility_load_boot_image E i initial) s (λ r _, r = find_default_boot_partition E).
Proof.
  intros Hs Hld Hi. pose proof Hs as [Hn _].
  assert (app E ESP_PARTITION_SUBTYPE_APP_OTA_MIN = true) as H0 by (apply (slot_app n 0); [done|lia]).
  assert (try_load_index E 0 = Some ESP_PARTITION_SUBTYPE_APP_OTA_MIN) as Ht0.
  { apply (try_load_slot n 0); [done|lia|]. by apply Hld. }
  unfold find_default_boot_partition. cbn [first_ota]. rewrite H0.
  destruct (app E ESP_PARTITION_SUBTYPE_APP_FACTORY) eqn:Hf.
  - destruct Hi as [->|[_ ?]]; [|done]. by apply load_here, try_load_app.
  - destruct Hi as [->|[-> _]]; [|by apply load_here].
    eapply wp_mono; [by apply search_from|].
    intros [q|] _; [|intros Hno; rewrite Hno in Ht0 by (left; unfold FACTORY_INDEX; lia); done].
    intros (i & Hq & Hbefore). destruct (decide (i = 0)) as [->|Hne]; [congruence|]. exfalso.
    unfold try_load_index, index_to_partition in Hq. destruct (Z.eqb_spec i FACTORY_INDEX) as [_|Hne'].
    { revert Hq. unfold find_first_app. by rewrite Hf. }
    rewrite Hbefore in Ht0; [done|left; unfold FACTORY_INDEX; lia|].
    unfold rank, TEST_APP_INDEX, FACTORY_INDEX in *. rewrite (app_count_slots E n) in * by done.
    destruct (i =? -2) eqn:Hi2; [repeat case_match; lia|].
    destruct (Z.leb_spec 0 i); [|done]. repeat case_match; lia.
Qed.

(** C14: When every application of the table can be loaded and no application awaits its
    confirmation, the bootloader starts the partition that
    [esp_ota_get_boot_partition] reports, whatever otadata holds. *)
Theorem boot_partition_agrees n s :
  slots E n → has_otadata E = true → app_mmap E = true → boot_mmap E = true →
  (∀ p, app E p = true → loads E p = true) → aborted2 (otadata s) = otadata s →
  wp (call_start_cpu0 E) s (λ b _, esp_ota_get_boot_partition E s = Done s b).
Proof.
  intros Hs Hhas Happ Hboot Hld Hab. pose proof Hs as (Hn & _). rewrite (get_boot_partition_eq n) by done.
  unfold call_start_cpu0. apply wp_bind. case_decide as Ha.
  - unfold bootloader_utility_get_selected_boot_partition. rewrite Hhas, Hboot. cbn [negb]. wp_steps.
    apply wp_abort_pending. intros s1 _. wp_steps. apply wp_abort_pending. intros s2 _.
    replace (set_entry (set_entry (otadata s) 0 _) 1 _) with (aborted2 (otadata s)) by by destruct (otadata s).
    rewrite Hab, (app_count_slots E n), (proj2 (Z.eqb_neq n 0)), orb_false_r, Ha, Z.eqb_refl by (done || lia). cbv zeta. cbn [negb].
    destruct (_ && _); [destruct (app E ESP_PARTITION_SUBTYPE_APP_FACTORY) eqn:Hf|]; wp_steps; cbn [fst snd];
      (change (FACTORY_INDEX =? INVALID_INDEX) with false || change (0 =? INVALID_INDEX) with false); cbv iota;
      (eapply wp_mono; [apply (load_default n); auto|]); by intros ? ? ->.
  - eapply (wp_selected E n (otadata s)); [done..|by rewrite Hab|]. intros s' _. rewrite Hab. cbn [fst snd].
    set (i := slot_of _ n). assert (0 ≤ i < n) by (apply slot_of_range; lia).
    unfold INVALID_INDEX. rewrite (proj2 (Z.eqb_neq _ _)) by lia.
    unfold wp. rewrite (load_start n); [done..|]. by apply Hld, (slot_app n).
Qed.

(** ** The slot of the next update *)

Lemma first_ota_spec m t :
  match first_ota E m t with
  | Some p => t ≤ p < t + Z.of_nat m ∧ app E p = true ∧ ∀ q, t ≤ q < p → app E q = false
  | None => ∀ q, t ≤ q < t + Z.of_nat m → app E q = false
  end.
Proof.
  revert t. induction m as [|m IH]; intros t; cbn [first_ota]; [lia|]. destruct (app E t) eqn:Ht.
  - split_and!; [lia..|done|lia].
  - specialize (IH (t + 1)). destruct (first_ota E m (t + 1)) as [p|].
    + destruct IH as (Hp & Ha & Hq). split_and!; [lia..|done|]. intros q Hr. destruct (decide (q = t)) as [->|]; [done|]. apply Hq. lia.
    + intros q Hr. destruct (decide (q = t)) as [->|]; [done|]. apply IH. lia.
Qed.

(** Past the start partition the first one is the result. *)
Lemma next_update_after m t start (x : Z) :
  start < t → next_update E m t start (Some x) true = Some (default x (first_ota E m t)).
Proof.
  revert t. induction m as [|m IH]; intros t Hlt; cbn [next_update first_ota]; [done|].
  destruct (app E t); [|apply IH; lia]. by rewrite (proj2 (Z.eqb_neq _ _)) by lia.
Qed.

(** Up to the start partition the first one is remembered. *)
Lemma next_update_until m t start (x : option Z) :
  app E start = true → t ≤ start < t + Z.of_nat m →
  next_update E m t start x false =
    Some (default (default start (from_option Some (first_ota E m t) x)) (first_ota E (Z.to_nat (t + Z.of_nat m - start - 1)) (start + 1))).
Proof.
  intros Hs. revert t x. induction m as [|m IH]; intros t x Hr; [lia|]. cbn [next_update first_ota].
  destruct (decide (t = start)) as [->|Hne].
  - rewrite Hs, Z.eqb_refl. replace (Z.to_nat _) with m by lia.
    destruct x as [x|]; cbn [from_option default]; by rewrite next_update_after by lia.
  - destruct (app E t) eqn:Ht.
    + rewrite (proj2 (Z.eqb_neq _ _)) by lia. rewrite IH by lia. replace (t + 1 + Z.of_nat m) with (t + Z.of_nat (S m)) by lia.
      by destruct x.
    + rewrite IH by lia. replace (t + 1 + Z.of_nat m) with (t + Z.of_nat (S m)) by lia. done.
Qed.

(** From an OTA partition the next update goes to the OTA partition that follows it
    cyclically in the order of the slots; it is another partition whenever there is
    one. *)
Theorem next_update_cyclic start :
  is_ota_partition start = true → app E start = true →
  ∃ r, esp_ota_get_next_update_partition E (Some start) = Some r ∧ is_ota_partition r = true ∧ app E r = true ∧
       (∀ q, is_ota_partition q = true → app E q = true → (r - start - 1) mod 16 ≤ (q - start - 1) mod 16) ∧
       ((∃ q, is_ota_partition q = true ∧ app E q = true ∧ q ≠ start) → r ≠ start).
Proof.
  unfold is_ota_partition, esp_ota_get_next_update_partition, ESP_PARTITION_SUBTYPE_APP_OTA_MIN, ESP_PARTITION_SUBTYPE_APP_OTA_MAX.
  setoid_rewrite andb_true_iff. setoid_rewrite Z.leb_le. setoid_rewrite Z.ltb_lt. intros Hota Happ.
  cbn [default from_option id]. rewrite next_update_until by (done || lia). cbn [from_option].
  eexists. split; [reflexivity|].
  assert (∀ q, 0x10 ≤ q < 0x20 → (q - start - 1) mod 16 = if decide (start < q) then q - start - 1 else q - start + 15) as Hmod.
  { intros q Hq. case_decide; [apply Z.mod_small; lia|]. symmetry. apply (Z.mod_unique _ _ (-1)); lia. }
  pose proof (first_ota_spec (Z.to_nat (0x10 + Z.of_nat 16 - start - 1)) (start + 1)) as Hnext.
  destruct (first_ota E _ (start + 1)) as [p|]; cbn [default from_option id].
  - destruct Hnext as (Hp & Hap & Hq). split_and!; [lia|lia|done| |intros _; lia].
    intros q Hqr Hqa. rewrite !Hmod by lia. repeat case_decide; try lia.
    destruct (decide (p ≤ q)); [lia|]. rewrite Hq in Hqa by lia. done.
  - pose proof (first_ota_spec 16 0x10) as Hfirst. destruct (first_ota E 16 0x10) as [p|]; cbn [default from_option id].
    2: { rewrite Hfirst in Happ by lia. done. }
    destruct Hfirst as (Hp & Hap & Hq).
    assert (p ≤ start) as Hps. { destruct (decide (p ≤ start)); [done|]. rewrite Hq in Happ by lia. done. }
    assert (∀ q, 0x10 ≤ q < 0x20 → app E q = true → p ≤ q ≤ start) as Hall.
    { intros q Hqr Hqa. split; [destruct (decide (p ≤ q)); [done|]; rewrite Hq in Hqa by lia; done|].
      destruct (decide (q ≤ start)); [done|]. rewrite Hnext in Hqa by lia. done. }
    split_and!; [lia|lia|done| |].
    + intros q Hqr Hqa. specialize (Hall q Hqr Hqa). rewrite !Hmod by lia. repeat case_decide; lia.
    + intros (q & Hqr & Hqa & Hne) ->. specialize (Hall q Hqr Hqa). lia.
Qed.

(** With all sixteen OTA slots and a test application in the table, whose subtype
    follows the one of the last slot, counting the slots fails its assertion, and with
    it every attempt to select another application. *)
Theorem ota_count_asserts s p :
  (∀ i, 0 ≤ i < 16 → app E (ESP_PARTITION_SUBTYPE_APP_OTA_MIN + i) = true) → app E ESP_PARTITION_SUBTYPE_APP_TEST = true →
  has_otadata E = true → app_mmap E = true → image_ok E p = true → p ≠ ESP_PARTITION_SUBTYPE_APP_FACTORY →
  esp_ota_get_app_partition_count E s = AssertFailed ∧ esp_ota_set_boot_partition E (Some (Some p)) s = AssertFailed.
Proof.
  intros Hall Htest Hhas Happ Himg Hp.
  assert (∀ m k, Z.of_nat m = 16 - k → 0 ≤ k → count_from E m k s = AssertFailed) as Hcount.
  { induction m as [|m IH]; intros k Hk Hk0; cbn [count_from].
    - assert (k = 16) as -> by lia. change (ESP_PARTITION_SUBTYPE_APP_OTA_MIN + 16) with ESP_PARTITION_SUBTYPE_APP_TEST.
      by rewrite Htest.
    - rewrite Hall by lia. apply IH; lia. }
  assert (esp_ota_get_app_partition_count E s = AssertFailed) as Hc by (by apply Hcount). split; [done|].
  unfold esp_ota_set_boot_partition, image_validate. rewrite Himg, decide_True, (proj2 (Z.eqb_neq _ _)) by done.
  unfold esp_rewrite_ota_data, read_otadata, mbind, M_bind, get, mret, M_ret. rewrite Hhas, Happ. cbn [andb]. by rewrite Hc.
Qed.

End ota.

(** ** Witnesses: a factory application and two slots, the first of them running *)

Definition example_env : ota_env :=
  mkEnv (λ z, Z.lxor z 0x5A5A) (mkSel 0 0 0) (λ p, (p =? 0x00) || (p =? 0x10) || (p =? 0x11)) (λ _, true) false
    true true true 0x10 (λ _, true).

Definition example_flash : ota_flash := mkFlash (mkSel 1 ESP_OTA_IMG_VALID 0x5A5B, erased_entry) [] [] [].

Lemma example_slots : slots example_env 2.
Proof.
  split_and!; [lia|lia| |lia]. intros i Hi. cbn [app example_env]. unfold ESP_PARTITION_SUBTYPE_APP_OTA_MIN.
  destruct (Z.eqb_spec (0x10 + i) 0x00), (Z.eqb_spec (0x10 + i) 0x10), (Z.eqb_spec (0x10 + i) 0x11),
    (Z.ltb_spec i 2); cbn; lia || done.
Qed.

Lemma example_seq_ok : seq_ok example_env 2 (otadata example_flash).
Proof. intros _. vm_compute. split; congruence. Qed.

Lemma ota_set_boot_selects_witness :
  wp (esp_ota_set_boot_partition example_env (Some (Some 0x11))) example_flash
    (λ r s', (r = ESP_OK → boots example_env (otadata s') 1) ∧ (flash_answers example_flash = [] → r = ESP_OK)).
Proof.
  apply (ota_set_boot_selects example_env 2 1); [apply example_slots|done|done|done|lia|done|apply example_seq_ok].
Defined.

Lemma ota_power_loss_safe_witness :
  wp (esp_ota_set_boot_partition example_env (Some (Some 0x11))) example_flash
    (λ _ s', ∃ h, history s' = [] ++ h ∧ ∀ d, d ∈ h → boots example_env d 1 ∨ boots example_env d 0).
Proof.
  apply (ota_power_loss_safe example_env 2 1 example_flash);
    [apply example_slots|done|done|done|lia|done|apply example_seq_ok|done|done].
Defined.

(** The application of slot 1 awaits its confirmation, slot 0 holds the one before it. *)
Definition pending_flash : ota_flash :=
  mkFlash (mkSel 1 ESP_OTA_IMG_VALID 0x5A5B, mkSel 2 ESP_OTA_IMG_PENDING_VERIFY 0x5A58) [] [] [].

(** When the active application awaits its confirmation, selecting another one overwrites
    the entry of the application to roll back to: if power fails before the new entry is
    complete, the next boot gives up the pending application and finds no valid entry.  It
    selects the factory application, neither the old slot nor the new one; without the call
    it would have gone back to slot 0. *)
Theorem pending_update_interrupted :
  boots example_env (otadata pending_flash) 0 ∧
  match esp_ota_set_boot_partition example_env (Some (Some 0x10)) pending_flash with
  | Done s' r => r = ESP_OK ∧ ∃ d, d ∈ history s' ∧ boots example_env d FACTORY_INDEX
  | _ => False
  end.
Proof.
  split.
  - apply (wins_boots example_env 2 (otadata pending_flash) 0); [apply example_slots|done|done|by left|]. by split.
  - let x := eval vm_compute in (esp_ota_set_boot_partition example_env (Some (Some 0x10)) pending_flash) in
      replace (esp_ota_set_boot_partition _ _ _) with x by (vm_compute; reflexivity).
    split; [done|]. eexists. split; [left|].
    intros [d ans h er] Hd. cbn in Hd. subst d. destruct ans as [|[] [|[] ans]]; vm_compute; reflexivity.
Qed.

Lemma ota_rollback_cycle_witness :
  wp (r ← esp_ota_set_boot_partition example_env (Some (Some 0x11)); b ← call_start_cpu0 example_env; mret (r, b)) example_flash
    (λ o s1, o = (ESP_OK, Some 0x11) ∧
      wp (reboots example_env 3) s1 (λ l _, l = replicate 3 (Some 0x10)) ∧
      wp (esp_ota_mark_app_valid_cancel_rollback example_env) s1 (λ r s2,
        r = ESP_OK ∧ wp (reboots example_env 3) s2 (λ l _, l = replicate 3 (Some 0x11))) ∧
      wp (esp_ota_mark_app_invalid_rollback example_env) s1 (λ r s2,
        r = ESP_OK ∧ wp (reboots example_env 3) s2 (λ l _, l = replicate 3 (Some 0x10)))).
Proof.
  apply (ota_rollback_cycle example_env 2 1 example_flash 3);
    [apply example_slots|done|done|done|lia|done|done|apply example_seq_ok|done|done|done].
Defined.

Lemma boot_image_search_witness :
  wp (bootloader_utility_load_boot_image example_env 1 false) example_flash (λ r _,
    match r with
    | Some p => ∃ i, searched 1 i ∧ try_load_index example_env i = Some p ∧
                ∀ i', searched 1 i' → rank example_env 1 i' < rank example_env 1 i → try_load_index example_env i' = None
    | None => ∀ i, searched 1 i → try_load_index example_env i = None
    end).
Proof. apply (boot_image_search example_env 1 false). unfold FACTORY_INDEX. lia. Defined.

Lemma boot_partition_agrees_witness :
  wp (call_start_cpu0 example_env) example_flash (λ b _, esp_ota_get_boot_partition example_env example_flash = Done example_flash b).
Proof. apply (boot_partition_agrees example_env 2); [apply example_slots|done|done|done|done|reflexivity]. Defined.

Lemma next_update_cyclic_witness :
  ∃ r, esp_ota_get_next_update_partition example_env (Some 0x10) = Some r ∧ is_ota_partition r = true ∧ app example_env r = true ∧
       (∀ q, is_ota_partition q = true → app example_env q = true → (r - 0x10 - 1) mod 16 ≤ (q - 0x10 - 1) mod 16) ∧
       ((∃ q, is_ota_partition q = true ∧ app example_env q = true ∧ q ≠ 0x10) → r ≠ 0x10).
Proof. apply (next_update_cyclic example_env 0x10); reflexivity. Defined.

(** A table with all sixteen slots and the test application. *)
Definition full_env : ota_env :=
  mkEnv (λ z, z) (mkSel 0 0 1) (λ p, (0x10 <=? p) && (p <=? 0x20)) (λ _, true) false true true true 0x10 (λ _, true).

Lemma ota_count_asserts_witness :
  esp_ota_get_app_partition_count full_env example_flash = AssertFailed ∧
  esp_ota_set_boot_partition full_env (Some (Some 0x11)) example_flash = AssertFailed.
Proof.
  apply ota_count_asserts; [|done|done|done|done|done]. intros i Hi. cbn [app full_env].
  unfold ESP_PARTITION_SUBTYPE_APP_OTA_MIN. by rewrite !(proj2 (Z.leb_le _ _)) by lia.
Defined.
