(* ===== verification/Flash.v ===== *)
(** * Flash memory: what the partition layer relies on

    The interface of [components/spi_flash/esp_flash_api.c] and [flash_mmap.c] as a class
    of operations on an abstract flash state, with the laws its headers document, and a
    NOR flash that satisfies them. *)
From Stdlib Require Import ZArith Lia.
From stdpp Require Import base numbers option list.
From S2P Require Import Prelude.

Open Scope Z_scope.

(** The chip the system starts from. *)
Definition esp_flash_default_chip : Z := 0.

Definition SPI_FLASH_SEC_SIZE : Z := 4096.

(** [raw] is the content of a chip by address, [decrypted] what the cache makes of the
    content of the default chip, [blank] whether a byte was erased and not written since.
    A mapping is the memory it shows, by flash address; the callers release it before
    anything else, so the number of free pages stays the same. *)
Class FlashDriver (F : Type) : Type := {
  chip_size : Z → Z;
  esp_flash_encryption_enabled : bool;
  raw : F → Z → mem;
  decrypted : mem → mem;
  blank : F → Z → Z → bool;
  esp_flash_read : Z → Z → Z → M F (esp_err_t * list Z);
  esp_flash_write : Z → Z → list Z → M F esp_err_t;
  esp_flash_write_encrypted : Z → Z → list Z → M F esp_err_t;
  esp_flash_erase_region : Z → Z → Z → M F esp_err_t;
  spi_flash_mmap : Z → Z → M F (esp_err_t * mem);
  spi_flash_mmap_get_free_pages : F → Z
}.

Section interface.
Context {F : Type} `{!FlashDriver F}.

(** The content is the same. *)
Definition flash_eq (f f' : F) : Prop :=
  spi_flash_mmap_get_free_pages f' = spi_flash_mmap_get_free_pages f ∧
  ∀ c x, raw f' c x = raw f c x ∧ blank f' c x = blank f c x.

(** The content is the same but for [n] bytes of a chip. *)
Definition flash_eq_but (c a n : Z) (f f' : F) : Prop :=
  spi_flash_mmap_get_free_pages f' = spi_flash_mmap_get_free_pages f ∧
  ∀ c' x, ¬ (c' = c ∧ a ≤ x < a + n) → raw f' c' x = raw f c' x ∧ blank f' c' x = blank f c' x.

(** What a reader sees of the default chip, or of another one, with and without the
    decryption of the cache. *)
Definition seen (enc : bool) (f : F) (c : Z) : mem := if enc then decrypted (raw f c) else raw f c.

Definition all_blank (f : F) (c a n : Z) : Prop := ∀ x, a ≤ x < a + n → blank f c x = true.

Definition is_byte (z : Z) : Prop := 0 ≤ z < 2 ^ 8.
End interface.

(** A mapping covers whole pages. *)
Definition MMU_PAGE_SIZE : Z := 0x10000.
Definition whole_pages (n : Z) : Z := (n + (MMU_PAGE_SIZE - 1)) / MMU_PAGE_SIZE * MMU_PAGE_SIZE.

Lemma whole_pages_ge n : n ≤ whole_pages n.
Proof.
  unfold whole_pages, MMU_PAGE_SIZE. pose proof (Z.div_mod (n + (0x10000 - 1)) 0x10000).
  pose proof (Z.mod_pos_bound (n + (0x10000 - 1)) 0x10000). lia.
Qed.

(** The laws: an operation ends, changes at most its range, and does what it is for when
    it succeeds.  Bytes are decrypted in aligned blocks of 16. *)
Class FlashLaws (F : Type) `{!FlashDriver F} : Prop := {
  raw_byte f c x : is_byte (raw f c x);
  decrypted_byte m x : is_byte (m x) → is_byte (decrypted m x);
  decrypted_local m m' x :
    (∀ y, y / 16 = x / 16 → m y = m' y) → decrypted m x = decrypted m' x;
  read_law f c a n (Q : esp_err_t * list Z → F → Prop) :
    (∀ r bs f', flash_eq f f' → (r = ESP_OK → bs = ldbytes (raw f c) a n) → Q (r, bs) f') →
    wp (esp_flash_read c a n) f Q;
  write_law f c a bs (Q : esp_err_t → F → Prop) :
    Forall is_byte bs →
    (∀ r f', flash_eq_but c a (zlen bs) f f' →
       (r = ESP_OK → all_blank f c a (zlen bs) → ldbytes (raw f' c) a (zlen bs) = bs) → Q r f') →
    wp (esp_flash_write c a bs) f Q;
  write_encrypted_law f a bs (Q : esp_err_t → F → Prop) :
    Forall is_byte bs →
    (∀ r f', flash_eq_but esp_flash_default_chip a (zlen bs) f f' →
       (r = ESP_OK → a mod 16 = 0 ∧ (zlen bs) mod 16 = 0) →
       (r = ESP_OK → all_blank f esp_flash_default_chip a (zlen bs) →
        ldbytes (decrypted (raw f' esp_flash_default_chip)) a (zlen bs) = bs) → Q r f') →
    wp (esp_flash_write_encrypted esp_flash_default_chip a bs) f Q;
  erase_law f c a n (Q : esp_err_t → F → Prop) :
    (∀ r f', flash_eq_but c a n f f' → (r = ESP_OK → all_blank f' c a n) → Q r f') →
    wp (esp_flash_erase_region c a n) f Q;
  mmap_law f a n (Q : esp_err_t * mem → F → Prop) :
    (∀ r m f', flash_eq f f' →
       (r = ESP_OK → ∀ x, a ≤ x < a + whole_pages n → m x = seen esp_flash_encryption_enabled f esp_flash_default_chip x) → Q (r, m) f') →
    wp (spi_flash_mmap a n) f Q
}.

Section lemmas.
Context {F : Type} `{!FlashDriver F}.
Implicit Types f : F.

#[export] Instance flash_eq_equiv : Equivalence (flash_eq (F := F)).
Proof.
  split.
  - done.
  - intros f f' [Hp H]. split; [done|]. intros c x. destruct (H c x). by split.
  - intros f1 f2 f3 [Hp1 H1] [Hp2 H2]. split; [congruence|]. intros c x. destruct (H1 c x), (H2 c x). split; congruence.
Qed.

Lemma flash_eq_but_refl c a n f : flash_eq_but c a n f f.
Proof. done. Qed.

Lemma flash_eq_but_of c a n f f' : flash_eq f f' → flash_eq_but c a n f f'.
Proof. intros [Hp H]. split; [done|]. intros c' x _. apply H. Qed.

Lemma flash_eq_but_trans c a n f1 f2 f3 : flash_eq_but c a n f1 f2 → flash_eq_but c a n f2 f3 → flash_eq_but c a n f1 f3.
Proof.
  intros [Hp1 H1] [Hp2 H2]. split; [congruence|]. intros c' x Hx. destruct (H1 c' x Hx), (H2 c' x Hx). split; congruence.
Qed.

Lemma flash_eq_but_mono c a n a' n' f f' :
  a' ≤ a → a + n ≤ a' + n' → flash_eq_but c a n f f' → flash_eq_but c a' n' f f'.
Proof. intros ? ? [Hp H]. split; [done|]. intros c' x Hx. apply H. intros [-> ?]. apply Hx. split; [done|lia]. Qed.

Lemma all_blank_eq c a n f f' : flash_eq f f' → all_blank f c a n → all_blank f' c a n.
Proof. intros [_ H] Hb x Hx. destruct (H c x) as [_ ->]. auto. Qed.

Lemma all_blank_but c a n c' a' n' f f' :
  flash_eq_but c' a' n' f f' → c ≠ c' ∨ a + n ≤ a' ∨ a' + n' ≤ a → all_blank f c a n → all_blank f' c a n.
Proof. intros [_ H] Hd Hb x Hx. destruct (H c x) as [_ ->]; [lia|auto]. Qed.

Lemma all_blank_sub c a n a' n' f : all_blank f c a n → a ≤ a' → a' + n' ≤ a + n → all_blank f c a' n'.
Proof. intros H ? ? x Hx. apply H. lia. Qed.

Context `{!FlashLaws F}.

Lemma seen_byte enc f c x : is_byte (seen enc f c x).
Proof. unfold seen. destruct enc; [apply decrypted_byte|]; apply raw_byte. Qed.

(** What a reader sees outside a changed range; with decryption the range is in whole
    blocks. *)
Lemma seen_but enc c0 c a n f f' x :
  flash_eq_but c a n f f' → (enc = true → a mod 16 = 0 ∧ n mod 16 = 0) → c0 ≠ c ∨ x < a ∨ a + n ≤ x →
  seen enc f' c0 x = seen enc f c0 x.
Proof.
  intros [_ H] Hal Hx. unfold seen. destruct enc; [|apply H; lia].
  destruct (Hal eq_refl) as [Ha Hn]. apply decrypted_local. intros y Hy. apply H. intros [-> Hr]. destruct Hx as [Hx|Hx]; [done|].
  pose proof (Z.div_mod a 16 ltac:(lia)). pose proof (Z.div_mod n 16 ltac:(lia)). pose proof (Z.div_mod x 16 ltac:(lia)).
  pose proof (Z.div_mod y 16 ltac:(lia)). pose proof (Z.mod_pos_bound x 16 ltac:(lia)). pose proof (Z.mod_pos_bound y 16 ltac:(lia)). lia.
Qed.

Lemma seen_eq enc c f f' x : flash_eq f f' → seen enc f' c x = seen enc f c x.
Proof. intros [_ H]. unfold seen. destruct enc; [apply decrypted_local; intros y _|]; apply H. Qed.

End lemmas.

(** ** A NOR flash

    Writing clears bits, erasing sets them, [answers] are the results of the operations
    to come.  A failed operation has no effect.  The cipher masks each byte. *)
Record nor : Type := mkNor { nor_bytes : Z → mem; nor_answers : list esp_err_t; nor_pages : Z }.

Definition nor_answer : M nor esp_err_t := λ s,
  match nor_answers s with
  | [] => Done s ESP_OK
  | r :: l => Done (mkNor (nor_bytes s) l (nor_pages s)) r
  end.

Definition nor_change (c a n : Z) (v : Z → Z → Z) : M nor esp_err_t :=
  r ← nor_answer;
  if decide (r = ESP_OK) then
    modify (λ s, mkNor (λ c' x, if (c' =? c) && (a <=? x) && (x <? a + n) then v (u8 (nor_bytes s c' x)) (x - a) else nor_bytes s c' x)
                   (nor_answers s) (nor_pages s));; mret ESP_OK
  else mret r.

Definition nor_mask : Z := 0x5A.

#[export] Instance nor_driver : FlashDriver nor := {|
  chip_size _ := 0x400000;
  esp_flash_encryption_enabled := true;
  raw f c x := u8 (nor_bytes f c x);
  decrypted m x := Z.lxor (m x) nor_mask;
  blank f c x := u8 (nor_bytes f c x) =? 0xFF;
  esp_flash_read c a n := r ← nor_answer; s ← get; mret (r, ldbytes (λ x, u8 (nor_bytes s c x)) a n);
  esp_flash_write c a bs := nor_change c a (zlen bs) (λ old i, Z.land old (bs !!! Z.to_nat i));
  esp_flash_write_encrypted c a bs :=
    if negb (a mod 16 =? 0) then mret ESP_ERR_INVALID_ARG
    else if negb (zlen bs mod 16 =? 0) then mret ESP_ERR_INVALID_SIZE
    else nor_change c a (zlen bs) (λ old i, Z.land old (Z.lxor (bs !!! Z.to_nat i) nor_mask));
  esp_flash_erase_region c a n := nor_change c a n (λ _ _, 0xFF);
  spi_flash_mmap a n := r ← nor_answer; s ← get; mret (r, λ x, Z.lxor (u8 (nor_bytes s esp_flash_default_chip x)) nor_mask);
  spi_flash_mmap_get_free_pages f := nor_pages f
|}.

Lemma wp_nor_answer s (Q : esp_err_t → nor → Prop) :
  (∀ r s', flash_eq s s' → Q r s') → wp nor_answer s Q.
Proof. intros HQ. unfold wp, nor_answer. destruct (nor_answers s); by apply HQ. Qed.

Lemma wp_nor_change c a n v s (Q : esp_err_t → nor → Prop) :
  (∀ r s', flash_eq_but c a n s s' →
     (r = ESP_OK → ∀ x, a ≤ x < a + n → u8 (nor_bytes s' c x) = u8 (v (u8 (nor_bytes s c x)) (x - a))) → Q r s') →
  wp (nor_change c a n v) s Q.
Proof.
  intros HQ. unfold nor_change. apply wp_bind, wp_nor_answer. intros r s1 [Hp H1]. case_decide.
  - wp_steps. apply HQ.
    + split; [done|]. intros c' x Hx. cbn. replace ((c' =? c) && (a <=? x) && (x <? a + n)) with false; [apply H1|].
      symmetry. rewrite !andb_false_iff, Z.eqb_neq, Z.leb_gt, Z.ltb_ge. lia.
    + intros _ x Hx. cbn. rewrite Z.eqb_refl, (proj2 (Z.leb_le _ _)), (proj2 (Z.ltb_lt _ _)) by lia. cbn.
      by rewrite (proj1 (H1 c x) : u8 (nor_bytes s1 c x) = u8 (nor_bytes s c x)).
  - wp_steps. apply HQ; [by apply flash_eq_but_of; split|done].
Qed.

(** Writing a byte on blank flash stores it. *)
Lemma land_blank b : is_byte b → Z.land 0xFF b = b.
Proof. intros [? ?]. rewrite Z.land_comm. change 0xFF with (Z.ones 8). rewrite Z.land_ones by lia. apply Z.mod_small. lia. Qed.

Lemma lxor_byte b : is_byte b → is_byte (Z.lxor b nor_mask).
Proof.
  intros [H0 H8]. split; [apply Z.lxor_nonneg; unfold nor_mask; lia|].
  destruct (decide (Z.lxor b nor_mask = 0)) as [->|Hne]; [lia|].
  assert (0 ≤ Z.lxor b nor_mask) by (apply Z.lxor_nonneg; unfold nor_mask; lia).
  apply Z.log2_lt_pow2; [lia|]. eapply Z.le_lt_trans; [apply Z.log2_lxor; [lia|done]|].
  apply Z.max_lub_lt; [|done]. destruct (decide (b = 0)) as [->|]; [done|]. apply Z.log2_lt_pow2; lia.
Qed.

#[export] Instance nor_laws : FlashLaws nor.
Proof.
  split.
  - intros f c x. apply Z.mod_pos_bound. lia.
  - intros m x Hb. by apply lxor_byte.
  - intros m m' x H. cbn. by rewrite (H x).
  - intros f c a n Q HQ. apply wp_bind, wp_nor_answer. intros r s1 H1. wp_steps. apply HQ; [done|].
    intros _. apply ldbytes_ext. intros x _. apply (proj2 H1 c x).
  - intros f c a bs Q Hb HQ. apply wp_nor_change. intros r s' Hbut Hval. apply HQ; [done|]. intros -> Hblank.
    apply ldbytes_eq. intros i Hi. cbn. rewrite Hval by (done || lia). replace (a + i - a) with i by lia.
    specialize (Hblank (a + i) ltac:(lia)). cbn in Hblank. apply Z.eqb_eq in Hblank. rewrite Hblank.
    assert (is_byte (bs !!! Z.to_nat i)) as Hbi by (rewrite Forall_forall in Hb; apply Hb, list_elem_of_lookup_total_2; unfold zlen in Hi; lia).
    rewrite land_blank by done. by apply Z.mod_small.
  - intros f a bs Q Hb HQ. cbn. destruct (a mod 16 =? 0) eqn:Ha; cbn [negb].
    2: { apply wp_ret, HQ; [apply flash_eq_but_refl|done|done]. }
    destruct (zlen bs mod 16 =? 0) eqn:Hn; cbn [negb]; [|apply wp_ret, HQ; [apply flash_eq_but_refl|done|done]].
    apply wp_nor_change. intros r s' Hbut Hval. apply HQ; [done|by rewrite <- !Z.eqb_eq, Ha, Hn|]. intros -> Hblank.
    apply ldbytes_eq. intros i Hi. cbn. rewrite Hval by (done || lia). replace (a + i - a) with i by lia.
    specialize (Hblank (a + i) ltac:(lia)). cbn in Hblank. apply Z.eqb_eq in Hblank. rewrite Hblank.
    assert (is_byte (bs !!! Z.to_nat i)) as Hbi by (rewrite Forall_forall in Hb; apply Hb, list_elem_of_lookup_total_2; unfold zlen in Hi; lia).
    apply lxor_byte in Hbi. rewrite land_blank by done. unfold u8. rewrite Z.mod_small by done.
    by rewrite Z.lxor_assoc, Z.lxor_nilpotent, Z.lxor_0_r.
  - intros f c a n Q HQ. apply wp_nor_change. intros r s' Hbut Hval. apply HQ; [done|]. intros -> x Hx. cbn.
    by rewrite Hval.
  - intros f a n Q HQ. apply wp_bind, wp_nor_answer. intros r s1 H1. wp_steps. apply HQ; [done|].
    intros _ x _. cbn. f_equal. apply (proj2 H1 esp_flash_default_chip x).
Qed.
