(* ===== verification/Partition.v ===== *)
(** * Partitions: the table, iterators and access

    Model of [components/esp_partition/partition.c] and [partition_target.c] with MD5
    sums in the table, over the flash interface of [Flash].  A pointer is an integer;
    [heap] has the partition structures, [iters] the iterators, and the list of
    partitions is the list of its pointers.  Dereferencing a pointer that is not
    allocated is a memory fault. *)
From Stdlib Require Import ZArith Lia.
From stdpp Require Import base numbers option list gmap.
From S2P Require Import Prelude Flash.

Open Scope Z_scope.

Definition ESP_PARTITION_TYPE_APP : Z := 0x00.
Definition ESP_PARTITION_TYPE_DATA : Z := 0x01.
Definition ESP_PARTITION_TYPE_BOOTLOADER : Z := 0x02.
Definition ESP_PARTITION_TYPE_PARTITION_TABLE : Z := 0x03.
Definition ESP_PARTITION_TYPE_ANY : Z := 0xff.
Definition ESP_PARTITION_SUBTYPE_DATA_OTA : Z := 0x00.
Definition ESP_PARTITION_SUBTYPE_DATA_NVS_KEYS : Z := 0x04.
Definition ESP_PARTITION_SUBTYPE_DATA_TEE_OTA : Z := 0x90.
Definition ESP_PARTITION_SUBTYPE_ANY : Z := 0xff.

Definition ESP_PARTITION_MAGIC : Z := 0x50AA.
Definition ESP_PARTITION_MAGIC_MD5 : Z := 0xEBEB.
Definition PART_FLAG_ENCRYPTED : Z := 1.
Definition PART_FLAG_READONLY : Z := 2.
Definition ESP_PARTITION_MD5_OFFSET : Z := 16.
Definition ESP_ROM_MD5_DIGEST_LEN : Z := 16.
Definition ESP_PARTITION_TABLE_OFFSET : Z := 0x8000.
Definition ESP_PARTITION_TABLE_MAX_LEN : Z := 0xC00.
Definition SIZE_MAX : Z := 0xFFFFFFFF.

(** A string is the list of its characters without the final zero. *)
Record esp_partition_t : Type := mkPart {
  flash_chip : Z; type : Z; subtype : Z; address : Z; size : Z; erase_size : Z;
  label : list Z; encrypted : bool; readonly : bool
}.

Record partition_list_item_t : Type := mkItem { info : esp_partition_t; user_registered : bool }.

Record esp_partition_iterator_opaque_t : Type := mkIter {
  it_type : Z; it_subtype : Z; it_label : option (list Z); next_item : option Z; it_info : option Z
}.

(** An entry of the table in flash. *)
Record esp_partition_info_t : Type := mkInfo {
  magic : Z; info_type : Z; info_subtype : Z; pos_offset : Z; pos_size : Z; info_label : list Z; flags : Z
}.
Definition sizeof_info : Z := 32.

Definition decode_info (m : mem) (a : Z) : esp_partition_info_t :=
  mkInfo (m a + 2 ^ 8 * m (a + 1)) (m (a + 2)) (m (a + 3)) (ld32 m (a + 4)) (ld32 m (a + 8)) (ldbytes m (a + 12) 16)
    (ld32 m (a + 28)).

(** The characters of a string up to the first zero. *)
Fixpoint c_string (l : list Z) : list Z :=
  match l with
  | [] => []
  | c :: l' => if c =? 0 then [] else c :: c_string l'
  end.

(** [(x + (align - 1)) & ~(align - 1)] on 32 bits. *)
Definition ALIGN_UP (num align : Z) : Z := Z.ldiff (u32 (num + (align - 1))) (align - 1).

(** [intptr_t] is signed. *)
Definition bootloader_util_regions_overlap {S : Type} (start1 end1 start2 end2 : Z) : M S bool :=
  assertM (i32 start1 <? i32 end1);;
  assertM (i32 start2 <? i32 end2);;
  mret ((i32 start2 <? i32 end1) && (i32 start1 <? i32 end2)).

Section partition.
Context {F : Type} `{!FlashDriver F}.

Record pstate : Type := mkPS {
  s_partition_list : list Z;
  heap : gmap Z partition_list_item_t;
  iters : gmap Z esp_partition_iterator_opaque_t;
  next_ptr : Z;
  allocs : list bool;
  fl : F
}.
Definition PT (A : Type) : Type := M pstate A.

(** ** Memory and flash *)

Definition with_list (l : list Z) (s : pstate) : pstate := mkPS l (heap s) (iters s) (next_ptr s) (allocs s) (fl s).
Definition with_heap (h : gmap Z partition_list_item_t) (s : pstate) : pstate :=
  mkPS (s_partition_list s) h (iters s) (next_ptr s) (allocs s) (fl s).
Definition with_iters (h : gmap Z esp_partition_iterator_opaque_t) (s : pstate) : pstate :=
  mkPS (s_partition_list s) (heap s) h (next_ptr s) (allocs s) (fl s).
Definition with_flash (f : F) (s : pstate) : pstate :=
  mkPS (s_partition_list s) (heap s) (iters s) (next_ptr s) (allocs s) f.

(** An allocation gives a fresh pointer, or none. *)
Definition alloc : PT (option Z) := λ s,
  let s' := mkPS (s_partition_list s) (heap s) (iters s) (next_ptr s + 1) (tail (allocs s)) (fl s) in
  if default true (head (allocs s)) then Done s' (Some (next_ptr s)) else Done s' None.

Definition deref (p : Z) : PT partition_list_item_t := λ s,
  match heap s !! p with Some i => Done s i | None => MemFault end.
Definition deref_iter (p : Z) : PT esp_partition_iterator_opaque_t := λ s,
  match iters s !! p with Some i => Done s i | None => MemFault end.
Definition free_item (p : Z) : PT unit := _ ← deref p; modify (λ s, with_heap (delete p (heap s)) s).
Definition store_iter (p : Z) (i : esp_partition_iterator_opaque_t) : PT unit :=
  modify (λ s, with_iters (<[p := i]> (iters s)) s).

(** An operation of the flash. *)
Definition on_flash {A : Type} (m : M F A) : PT A := λ s,
  match m (fl s) with
  | Done f a => Done (with_flash f s) a
  | AssertFailed => AssertFailed
  | MemFault => MemFault
  | OutOfFuel => OutOfFuel
  end.

(** The elements of a list from [p] on. *)
Fixpoint from_ptr (p : Z) (l : list Z) : option (list Z) :=
  match l with
  | [] => None
  | q :: l' => if q =? p then Some l else from_ptr p l'
  end.

(** ** [partition.c]: loading the table *)

(** [md5] is the digest of the ROM. *)
Context (md5 : list Z → list Z).

Definition is_partition_encrypted (encryption_config : bool) (type subtype : Z) : bool :=
  if negb esp_flash_encryption_enabled then false
  else if (type =? ESP_PARTITION_TYPE_APP)
          || (type =? ESP_PARTITION_TYPE_BOOTLOADER)
          || (type =? ESP_PARTITION_TYPE_PARTITION_TABLE)
          || ((type =? ESP_PARTITION_TYPE_DATA) && (subtype =? ESP_PARTITION_SUBTYPE_DATA_OTA))
          || ((type =? ESP_PARTITION_TYPE_DATA) && (subtype =? ESP_PARTITION_SUBTYPE_DATA_TEE_OTA))
          || ((type =? ESP_PARTITION_TYPE_DATA) && (subtype =? ESP_PARTITION_SUBTYPE_DATA_NVS_KEYS))
  then true else encryption_config.

(** The structure made from an entry of the table. *)
Definition part_of_info (e : esp_partition_info_t) : esp_partition_t :=
  mkPart esp_flash_default_chip (info_type e) (info_subtype e) (pos_offset e) (pos_size e) SPI_FLASH_SEC_SIZE
    (c_string (info_label e)) (is_partition_encrypted (flag (flags e) PART_FLAG_ENCRYPTED) (info_type e) (info_subtype e))
    (flag (flags e) PART_FLAG_READONLY).

(** The loop over at most [n] entries from address [a] on: the error, the address of the
    MD5 entry, the items so far and the bytes that go into the digest. *)
Fixpoint load_loop (n : nat) (m : mem) (a : Z) (items : list Z) (hashed : list Z) :
    PT (esp_err_t * option Z * list Z * list Z) :=
  match n with
  | O => mret (ESP_OK, None, items, hashed)
  | S n' =>
      let entry := decode_info m a in
      if magic entry =? ESP_PARTITION_MAGIC_MD5 then mret (ESP_OK, Some a, items, hashed)
      else if negb (magic entry =? ESP_PARTITION_MAGIC) then mret (ESP_OK, None, items, hashed)
      else
        let hashed := hashed ++ ldbytes m a sizeof_info in
        item ← alloc;
        match item with
        | None => mret (ESP_ERR_NO_MEM, None, items, hashed)
        | Some p =>
            modify (λ s, with_heap (<[p := mkItem (part_of_info entry) false]> (heap s)) s);;
            load_loop n' m (a + sizeof_info) (items ++ [p]) hashed
        end
  end.

Fixpoint free_items (l : list Z) : PT unit :=
  match l with
  | [] => mret ()
  | p :: l' => free_item p;; free_items l'
  end.

Definition load_partitions : PT esp_err_t :=
  let partition_align_pg_size := Z.ldiff ESP_PARTITION_TABLE_OFFSET (MMU_PAGE_SIZE - 1) in
  let partition_pad := ESP_PARTITION_TABLE_OFFSET - partition_align_pg_size in
  r ← on_flash (spi_flash_mmap partition_align_pg_size SPI_FLASH_SEC_SIZE);
  let '(err, m) := r in
  if decide (err = ESP_OK) then
    r ← load_loop (Z.to_nat (SPI_FLASH_SEC_SIZE / sizeof_info)) m (partition_align_pg_size + partition_pad) [] [];
    let '(err, md5_part, items, hashed) := r in
    let err := match md5_part with
               | None => ESP_ERR_NOT_FOUND
               | Some a => if decide (md5 hashed = ldbytes m (a + ESP_PARTITION_MD5_OFFSET) ESP_ROM_MD5_DIGEST_LEN)
                           then err else ESP_ERR_INVALID_STATE
               end in
    if decide (err = ESP_OK) then modify (with_list items);; mret ESP_OK
    else free_items items;; mret err
  else mret err.

Definition esp_partition_unload_all : PT unit :=
  s ← get;
  free_items (s_partition_list s);;
  modify (with_list []);;
  s ← get;
  assertM (match s_partition_list s with [] => true | _ => false end).

Definition ensure_partitions_loaded : PT esp_err_t :=
  s ← get;
  match s_partition_list s with
  | [] => load_partitions
  | _ => mret ESP_OK
  end.

(** ** [partition.c]: iterators *)

Definition iterator_create (type subtype : Z) (label : option (list Z)) : PT (option Z) :=
  it ← alloc;
  match it with
  | None => mret None
  | Some p =>
      s ← get;
      store_iter p (mkIter type subtype label (head (s_partition_list s)) None);;
      mret (Some p)
  end.

Definition esp_partition_iterator_release (it : option Z) : PT unit :=
  match it with
  | None => mret ()
  | Some p => _ ← deref_iter p; modify (λ s, with_iters (delete p (iters s)) s)
  end.

Definition esp_partition_get (it : option Z) : PT (option Z) :=
  match it with
  | None => λ _, AssertFailed
  | Some p => i ← deref_iter p; mret (it_info i)
  end.

Definition matches (i : esp_partition_iterator_opaque_t) (p : esp_partition_t) : bool :=
  negb (negb (it_type i =? ESP_PARTITION_TYPE_ANY) && negb (it_type i =? type p))
  && negb (negb (it_subtype i =? ESP_PARTITION_SUBTYPE_ANY) && negb (it_subtype i =? subtype p))
  && match it_label i with None => true | Some l => bool_decide (l = label p) end.

(** The first match of a list of items, with the items after it. *)
Fixpoint next_match (i : esp_partition_iterator_opaque_t) (l : list Z) : PT (option (Z * list Z)) :=
  match l with
  | [] => mret None
  | p :: l' => item ← deref p; if matches i (info item) then mret (Some (p, l')) else next_match i l'
  end.

Definition esp_partition_next (it : Z) : PT (option Z) :=
  i ← deref_iter it;
  match next_item i with
  | None => esp_partition_iterator_release (Some it);; mret None
  | Some p =>
      s ← get;
      match from_ptr p (s_partition_list s) with
      | None => fault
      | Some l =>
          r ← next_match i l;
          match r with
          | None =>
              store_iter it (mkIter (it_type i) (it_subtype i) (it_label i) None (it_info i));;
              esp_partition_iterator_release (Some it);; mret None
          | Some (q, rest) =>
              store_iter it (mkIter (it_type i) (it_subtype i) (it_label i) (head rest) (Some q));;
              mret (Some it)
          end
      end
  end.

Definition esp_partition_find (type subtype : Z) (label : option (list Z)) : PT (option Z) :=
  err ← ensure_partitions_loaded;
  if decide (err = ESP_OK) then
    if (type =? ESP_PARTITION_TYPE_ANY) && negb (subtype =? ESP_PARTITION_SUBTYPE_ANY) then mret None
    else
      it ← iterator_create type subtype label;
      match it with
      | None => mret None
      | Some p => esp_partition_next p
      end
  else mret None.

Definition esp_partition_find_first (type subtype : Z) (label : option (list Z)) : PT (option Z) :=
  it ← esp_partition_find type subtype label;
  match it with
  | None => mret None
  | Some _ =>
      res ← esp_partition_get it;
      esp_partition_iterator_release it;;
      mret res
  end.

(** The loop of [esp_partition_verify]; every turn moves the iterator on. *)
Fixpoint verify_loop (fuel : nat) (partition : esp_partition_t) (it : option Z) : PT (option Z) :=
  match fuel with
  | O => λ _, OutOfFuel
  | S fuel' =>
      match it with
      | None => esp_partition_iterator_release None;; mret None
      | Some i =>
          p ← esp_partition_get it;
          match p with
          | None => fault
          | Some q =>
              item ← deref q;
              if (flash_chip (info item) =? flash_chip partition) && (address (info item) =? address partition)
                 && (size partition =? size (info item)) && Bool.eqb (encrypted partition) (encrypted (info item))
              then esp_partition_iterator_release it;; mret (Some q)
              else it ← esp_partition_next i; verify_loop fuel' partition it
          end
      end
  end.

Definition esp_partition_verify (partition : option Z) : PT (option Z) :=
  match partition with
  | None => λ _, AssertFailed
  | Some p =>
      item ← deref p;
      let partition := info item in
      let label := match label partition with [] => None | l => Some l end in
      it ← esp_partition_find (type partition) (subtype partition) label;
      s ← get;
      verify_loop (S (S (length (s_partition_list s)))) partition it
  end.

(** ** [partition.c]: partitions of other chips *)

(** The loop that looks for an overlap: whether there is one. *)
Fixpoint overlaps_some (chip offset sz : Z) (l : list Z) : PT bool :=
  match l with
  | [] => mret false
  | p :: l' =>
      item ← deref p;
      let i := info item in
      hit ← (if flash_chip i =? chip
             then bootloader_util_regions_overlap offset (u32 (offset + sz)) (address i) (u32 (address i + size i))
             else mret false);
      if (hit : bool) then mret true else overlaps_some chip offset sz l'
  end.

(** [chip] is none for a null pointer.  The result is the error and what is stored in
    [out_partition] if that is not null. *)
Definition esp_partition_register_external (chip : option Z) (offset sz : Z) (lbl : list Z) (typ subtyp : Z) :
    PT (esp_err_t * option Z) :=
  let chip := default esp_flash_default_chip chip in
  if chip_size chip <? u32 (offset + sz) then mret (ESP_ERR_INVALID_SIZE, None)
  else
    err ← ensure_partitions_loaded;
    if decide (err = ESP_OK) then
      item ← alloc;
      match item with
      | None => mret (ESP_ERR_NO_MEM, None)
      | Some p =>
          let part := mkPart chip typ subtyp offset sz SPI_FLASH_SEC_SIZE (take 16 lbl)
                        (if chip =? esp_flash_default_chip then is_partition_encrypted false typ subtyp else false) false in
          modify (λ s, with_heap (<[p := mkItem part true]> (heap s)) s);;
          s ← get;
          hit ← overlaps_some chip offset sz (s_partition_list s);
          if (hit : bool) then free_item p;; mret (ESP_ERR_INVALID_ARG, None)
          else modify (λ s, with_list (s_partition_list s ++ [p]) s);; mret (ESP_OK, Some p)
      end
    else mret (err, None).

Definition esp_partition_deregister_external (partition : option Z) : PT esp_err_t :=
  s ← get;
  match partition with
  | None => mret ESP_ERR_NOT_FOUND
  | Some p =>
      if decide (p ∈ s_partition_list s) then
        item ← deref p;
        if negb (user_registered item) then mret ESP_ERR_INVALID_ARG
        else
          modify (λ s, with_list (filter (λ q, q ≠ p) (s_partition_list s)) s);;
          free_item p;; mret ESP_OK
      else mret ESP_ERR_NOT_FOUND
  end.

(** ** [partition_target.c] *)

(** [assert(partition != NULL)] and the structure behind the pointer. *)
Definition the_partition (partition : option Z) : PT esp_partition_t :=
  match partition with
  | None => λ _, AssertFailed
  | Some p => item ← deref p; mret (info item)
  end.

(** The checks of a range, without those of an erase. *)
Definition check_range (part : esp_partition_t) (offset sz : Z) : esp_err_t :=
  if size part <? offset then ESP_ERR_INVALID_ARG
  else if size part - offset <? sz then ESP_ERR_INVALID_SIZE else ESP_OK.

(** A mapping by offset; [munmap] has no effect on the data. *)
Definition esp_partition_mmap (partition : option Z) (offset sz : Z) : PT (esp_err_t * mem) :=
  part ← the_partition partition;
  let err := check_range part offset sz in
  if decide (err = ESP_OK) then
    if negb (flash_chip part =? esp_flash_default_chip) then mret (ESP_ERR_NOT_SUPPORTED, λ _, 0)
    else
      let phys_addr := u32 (address part + offset) in
      let region_offset := Z.land phys_addr (MMU_PAGE_SIZE - 1) in
      let mmap_addr := Z.ldiff phys_addr (MMU_PAGE_SIZE - 1) in
      r ← on_flash (spi_flash_mmap mmap_addr (u32 (sz + region_offset)));
      mret (r.1, λ i, r.2 (mmap_addr + region_offset + i))
  else mret (err, λ _, 0).

Definition esp_partition_read (partition : option Z) (src_offset sz : Z) : PT (esp_err_t * list Z) :=
  part ← the_partition partition;
  let err := check_range part src_offset sz in
  if decide (err = ESP_OK) then
    if negb (encrypted part) then on_flash (esp_flash_read (flash_chip part) (u32 (address part + src_offset)) sz)
    else if negb (flash_chip part =? esp_flash_default_chip) then mret (ESP_ERR_NOT_SUPPORTED, [])
    else
      r ← esp_partition_mmap partition src_offset sz;
      if decide (r.1 = ESP_OK) then mret (ESP_OK, ldbytes r.2 0 sz) else mret (r.1, [])
  else mret (err, []).

Definition esp_partition_write (partition : option Z) (dst_offset : Z) (src : list Z) : PT esp_err_t :=
  part ← the_partition partition;
  if readonly part then mret ESP_ERR_NOT_ALLOWED
  else
    let err := check_range part dst_offset (zlen src) in
    if decide (err = ESP_OK) then
      let dst_offset := u32 (address part + dst_offset) in
      if negb (encrypted part) then on_flash (esp_flash_write (flash_chip part) dst_offset src)
      else if negb (flash_chip part =? esp_flash_default_chip) then mret ESP_ERR_NOT_SUPPORTED
      else on_flash (esp_flash_write_encrypted (flash_chip part) dst_offset src)
    else mret err.

Definition esp_partition_read_raw (partition : option Z) (src_offset sz : Z) : PT (esp_err_t * list Z) :=
  part ← the_partition partition;
  let err := check_range part src_offset sz in
  if decide (err = ESP_OK) then on_flash (esp_flash_read (flash_chip part) (u32 (address part + src_offset)) sz)
  else mret (err, []).

Definition esp_partition_write_raw (partition : option Z) (dst_offset : Z) (src : list Z) : PT esp_err_t :=
  part ← the_partition partition;
  if readonly part then mret ESP_ERR_NOT_ALLOWED
  else
    let err := check_range part dst_offset (zlen src) in
    if decide (err = ESP_OK) then on_flash (esp_flash_write (flash_chip part) (u32 (address part + dst_offset)) src)
    else mret err.

Definition esp_partition_erase_range (partition : option Z) (offset sz : Z) : PT esp_err_t :=
  part ← the_partition partition;
  if readonly part then mret ESP_ERR_NOT_ALLOWED
  else
    let err := check_range part offset sz in
    if decide (err = ESP_OK) then
      if negb (sz mod SPI_FLASH_SEC_SIZE =? 0) then mret ESP_ERR_INVALID_SIZE
      else if negb (offset mod SPI_FLASH_SEC_SIZE =? 0) then mret ESP_ERR_INVALID_ARG
      else on_flash (esp_flash_erase_region (flash_chip part) (u32 (address part + offset)) sz)
    else mret err.

(** The loop over all partitions; the iterator is left behind when a read-only partition
    is hit. *)
Fixpoint writable_loop (fuel : nat) (addr sz : Z) (it : option Z) : PT bool :=
  match fuel with
  | O => λ _, OutOfFuel
  | S fuel' =>
      match it with
      | None => mret true
      | Some i =>
          p ← esp_partition_get it;
          part ← the_partition p;
          if readonly part
             && (((address part <=? addr) && (addr <? u32 (address part + size part)))
                 || ((addr <? address part) && (address part <? u32 (addr + sz))))
          then mret false
          else it ← esp_partition_next i; writable_loop fuel' addr sz it
      end
  end.

Definition esp_partition_is_flash_region_writable (addr sz : Z) : PT bool :=
  it ← esp_partition_find ESP_PARTITION_TYPE_ANY ESP_PARTITION_SUBTYPE_ANY None;
  s ← get;
  writable_loop (S (S (length (s_partition_list s)))) addr sz it.

(** [running] is the running partition. *)
Definition esp_partition_main_flash_region_safe (running : esp_partition_t) (addr sz : Z) : bool :=
  if addr <=? ESP_PARTITION_TABLE_OFFSET + ESP_PARTITION_TABLE_MAX_LEN then false
  else if (address running <=? addr) && (addr <? u32 (address running + size running)) then false
  else if (addr <? address running) && (address running <? u32 (addr + sz)) then false
  else true.

(** ** [partition.c]: copying *)

(** One turn of the copy loop: the locals are the offsets, what is left, the free pages
    and the failed attempts. *)
Definition copy_step (dest_part src_part : option Z) (l : Z * Z * Z * Z * Z) : PT (Z * Z * Z * Z * Z + esp_err_t) :=
  let '(src_current_offset, dest_current_offset, remaining_size, pages, attempts) := l in
  let chunk_size := Z.min remaining_size (u32 (pages * MMU_PAGE_SIZE)) in
  r ← esp_partition_mmap src_part src_current_offset chunk_size;
  if decide (r.1 = ESP_OK) then
    error ← esp_partition_write dest_part dest_current_offset (ldbytes r.2 0 chunk_size);
    if decide (error = ESP_OK) then
      let left := u32 (remaining_size - chunk_size) in
      mret (if 0 <? left
            then inl (u32 (src_current_offset + chunk_size), u32 (dest_current_offset + chunk_size), left, pages, 0)
            else inr ESP_OK)
    else mret (inr error)
  else
    s ← get;
    let pages := spi_flash_mmap_get_free_pages (fl s) in
    if 3 <=? attempts + 1 then mret (inr r.1)
    else mret (inl (src_current_offset, dest_current_offset, remaining_size, pages, attempts + 1)).

Definition esp_partition_copy (fuel : nat) (dest_part : option Z) (dest_offset : Z) (src_part : option Z) (src_offset sz : Z) :
    PT esp_err_t :=
  if decide (src_part = None ∨ dest_part = None ∨ src_part = dest_part) then mret ESP_ERR_INVALID_ARG
  else
    src ← the_partition src_part;
    dest ← the_partition dest_part;
    if (size src <? src_offset) || (size dest <? dest_offset) then mret ESP_ERR_INVALID_SIZE
    else if negb (flash_chip src =? esp_flash_default_chip) then mret ESP_ERR_NOT_SUPPORTED
    else
      let dest_erase_size := if sz =? SIZE_MAX then u32 (size dest - dest_offset) else sz in
      let sz := if sz =? SIZE_MAX then u32 (size src - src_offset) else sz in
      if (size src <? src_offset + sz) || (size dest <? dest_offset + sz) then mret ESP_ERR_INVALID_SIZE
      else
        error ← esp_partition_erase_range dest_part dest_offset (ALIGN_UP dest_erase_size SPI_FLASH_SEC_SIZE);
        if decide (error = ESP_OK) then
          s ← get;
          let pages := spi_flash_mmap_get_free_pages (fl s) in
          if 0 <? sz then iterM fuel (copy_step dest_part src_part) (src_offset, dest_offset, sz, pages, 0)
          else mret ESP_OK
        else mret error.

End partition.
Arguments pstate F : clear implicits.
Arguments PT F A : clear implicits.
