(* ===== verification/PartitionSpec.v ===== *)
(** * Partitions: what lookup and registration guarantee

    The invariant of the list of partitions, iteration as a filter of the list, and
    registration that keeps partitions apart. *)
From Stdlib Require Import ZArith Lia.
From stdpp Require Import base numbers option list gmap sets.
From S2P Require Import Prelude Flash Partition.

Open Scope Z_scope.

Section spec.
Context {F : Type} `{!FlashDriver F}.
Implicit Types (s : pstate F) (p q it : Z) (l : list Z) (i : esp_partition_iterator_opaque_t).

(** ** The invariant *)

(** A partition inside its chip; only partitions of the default chip are encrypted. *)
Record part_ok (x : esp_partition_t) : Prop := {
  ok_address : 0 ≤ address x;
  ok_size : 0 < size x;
  ok_end : address x + size x ≤ chip_size (flash_chip x) < 2 ^ 31;
  ok_encrypted : encrypted x = true → esp_flash_encryption_enabled = true ∧ flash_chip x = esp_flash_default_chip
}.

Definition apart (x y : esp_partition_t) : Prop :=
  flash_chip x = flash_chip y → address x + size x ≤ address y ∨ address y + size y ≤ address x.

Record wf (s : pstate F) : Prop := {
  wf_nodup : NoDup (s_partition_list s);
  wf_items p : p ∈ s_partition_list s → ∃ x, heap s !! p = Some x ∧ part_ok (info x);
  wf_heap p x : heap s !! p = Some x → p < next_ptr s;
  wf_iters p i : iters s !! p = Some i → p < next_ptr s;
  wf_apart p q x y : p ∈ s_partition_list s → q ∈ s_partition_list s → p ≠ q →
    heap s !! p = Some x → heap s !! q = Some y → apart (info x) (info y)
}.

(** ** Rules *)

Lemma wp_on_flash {A} (m : M F A) s (Q : A → pstate F → Prop) :
  wp m (fl s) (λ a f, Q a (with_flash f s)) → wp (on_flash m) s Q.
Proof. unfold wp, on_flash. by destruct (m (fl s)). Qed.

Lemma wp_alloc s (Q : option Z → pstate F → Prop) :
  let s' := mkPS (s_partition_list s) (heap s) (iters s) (next_ptr s + 1) (tail (allocs s)) (fl s) in
  (head (allocs s) ≠ Some false → Q (Some (next_ptr s)) s') → (head (allocs s) = Some false → Q None s') → wp alloc s Q.
Proof. intros s' H1 H2. unfold wp, alloc. fold s'. destruct (head (allocs s)) as [[]|]; cbn; auto. Qed.

Lemma wp_deref_item p x s (Q : partition_list_item_t → pstate F → Prop) : heap s !! p = Some x → Q x s → wp (deref p) s Q.
Proof. intros Hp HQ. unfold wp, deref. by rewrite Hp. Qed.

Lemma wp_deref_iter p i s (Q : esp_partition_iterator_opaque_t → pstate F → Prop) :
  iters s !! p = Some i → Q i s → wp (deref_iter p) s Q.
Proof. intros Hp HQ. unfold wp, deref_iter. by rewrite Hp. Qed.

Lemma wp_the_partition p x s (Q : esp_partition_t → pstate F → Prop) :
  heap s !! p = Some x → Q (info x) s → wp (the_partition (Some p)) s Q.
Proof. intros Hp HQ. apply wp_bind. by eapply wp_deref_item. Qed.

Lemma wp_release it i s (Q : unit → pstate F → Prop) :
  iters s !! it = Some i → Q () (with_iters (delete it (iters s)) s) → wp (esp_partition_iterator_release (Some it)) s Q.
Proof. intros Hi HQ. apply wp_bind. eapply wp_deref_iter; [done|]. by wp_steps. Qed.

Lemma wp_get_iter it i s (Q : option Z → pstate F → Prop) :
  iters s !! it = Some i → Q (it_info i) s → wp (esp_partition_get (Some it)) s Q.
Proof. intros Hi HQ. apply wp_bind. eapply wp_deref_iter; [done|]. by wp_steps. Qed.

(** ** Iteration *)

(** Whether a pointer of the list matches the constraints of an iterator. *)
Definition sel (h : gmap Z partition_list_item_t) i p : bool :=
  match h !! p with Some x => matches i (info x) | None => false end.

Definition selected (h : gmap Z partition_list_item_t) i l : list Z := filter (λ p, sel h i p = true) l.

(** The first selected element and what follows it. *)
Fixpoint split_first (f : Z → bool) l : option (Z * list Z) :=
  match l with
  | [] => None
  | p :: l' => if f p then Some (p, l') else split_first f l'
  end.

Lemma next_match_eq i l s :
  (∀ p, p ∈ l → is_Some (heap s !! p)) → next_match i l s = Done s (split_first (sel (heap s) i) l).
Proof.
  intros Hl. induction l as [|p l IH]; [done|]. destruct (Hl p) as [x Hx]; [set_solver|].
  cbn. unfold mbind, M_bind, deref, sel. rewrite Hx. destruct (matches i (info x)); [done|]. apply IH. set_solver.
Qed.

Lemma selected_split h i l :
  match split_first (sel h i) l with
  | None => selected h i l = []
  | Some (q, l') => selected h i l = q :: selected h i l' ∧ ∃ l0, l = l0 ++ q :: l'
  end.
Proof.
  unfold selected. induction l as [|p l IH]; [done|]. cbn [split_first]. destruct (sel h i p) eqn:Hp.
  - rewrite filter_cons_True by done. split; [done|]. by exists [].
  - rewrite filter_cons_False by congruence. destruct (split_first (sel h i) l) as [[q l']|]; [|done].
    destruct IH as [-> [l0 ->]]. split; [done|]. by exists (p :: l0).
Qed.

Lemma from_ptr_suffix p l0 l : NoDup (l0 ++ p :: l) → from_ptr p (l0 ++ p :: l) = Some (p :: l).
Proof.
  induction l0 as [|q l0 IH]; cbn; intros Hnd; [by rewrite Z.eqb_refl|].
  apply NoDup_cons in Hnd as [Hq Hnd]. rewrite (proj2 (Z.eqb_neq q p)) by set_solver. auto.
Qed.

(** The iterator [it] is [i], and will go on with the end [l] of the list. *)
Definition iter_at s it i l : Prop :=
  iters s !! it = Some i ∧ next_item i = head l ∧ ∃ l0, s_partition_list s = l0 ++ l.

Definition moved i l p : esp_partition_iterator_opaque_t := mkIter (it_type i) (it_subtype i) (it_label i) (head l) (Some p).

Lemma sel_moved h i l p q : sel h (moved i l p) q = sel h i q.
Proof. done. Qed.

Lemma wp_next s it i l (Q : option Z → pstate F → Prop) :
  wf s → iter_at s it i l →
  (selected (heap s) i l = [] → Q None (with_iters (delete it (iters s)) s)) →
  (∀ q l0 l', selected (heap s) i l = q :: selected (heap s) i l' → l = l0 ++ q :: l' →
     Q (Some it) (with_iters (<[it := moved i l' q]> (iters s)) s)) →
  wp (esp_partition_next it) s Q.
Proof.
  intros Hwf (Hi & Hnext & l0 & Hl) Hnone Hsome. unfold esp_partition_next. apply wp_bind.
  eapply wp_deref_iter; [done|]. rewrite Hnext. destruct l as [|p l]; cbn [head].
  { apply wp_bind. eapply wp_release; [done|]. wp_steps. by apply Hnone. }
  wp_steps. rewrite Hl, from_ptr_suffix by (rewrite <- Hl; apply Hwf). apply wp_bind. unfold wp at 1.
  rewrite next_match_eq.
  2: { intros q Hq. destruct (wf_items s Hwf q) as (x & -> & _); [rewrite Hl; set_solver|done]. }
  pose proof (selected_split (heap s) i (p :: l)) as Hsplit.
  destruct (split_first _ _) as [[q l']|].
  - destruct Hsplit as [Hsel [l1 Hl1]]. unfold store_iter. wp_steps. by apply (Hsome q l1 l').
  - unfold store_iter. wp_steps. eapply wp_release; [by apply lookup_insert_eq|]. wp_steps.
    cbn. rewrite delete_insert_eq. by apply Hnone.
Qed.

(** The loop of a client: all partitions an iterator gives. *)
Fixpoint collect (fuel : nat) (it : option Z) : PT F (list Z) :=
  match fuel with
  | O => λ _, OutOfFuel
  | S fuel' =>
      match it with
      | None => mret []
      | Some k =>
          p ← esp_partition_get it;
          it' ← esp_partition_next k;
          l ← collect fuel' it';
          mret (option_list p ++ l)
      end
  end.

Lemma wf_with_iters s h : wf s → (∀ p i, h !! p = Some i → p < next_ptr s) → wf (with_iters h s).
Proof. intros [] Hh. by split. Qed.

Lemma wf_insert_iter s it i i0 : wf s → iters s !! it = Some i0 → wf (with_iters (<[it := i]> (iters s)) s).
Proof.
  intros Hwf Hit. apply wf_with_iters; [done|]. intros p i' [[<- _]|[_ Hp]]%lookup_insert_Some; by eapply (wf_iters s).
Qed.

Lemma wp_collect s it i l q fuel :
  wf s → iter_at s it i l → it_info i = Some q → (S (length l) < fuel)%nat →
  wp (collect fuel (Some it)) s (λ r s', r = q :: selected (heap s) i l ∧ s' = with_iters (delete it (iters s)) s).
Proof.
  revert s i l q. induction fuel as [|fuel IH]; intros s i l q Hwf Hit Hq Hlen; [lia|]. cbn [collect].
  pose proof Hit as (Hi & _ & l0 & Hl).
  wp_steps. eapply wp_get_iter; [done|]. rewrite Hq. wp_steps. eapply wp_next; [done|done|..].
  - intros ->. destruct fuel; [lia|]. cbn [collect]. by wp_steps.
  - intros q' l1 l' Hsel ->. wp_steps. eapply wp_mono.
    { eapply (IH _ (moved i l' q') l' q').
      - by eapply wf_insert_iter.
      - split_and!; [by apply lookup_insert_eq|done|]. exists (l0 ++ l1 ++ [q']). cbn. rewrite Hl. by rewrite <- !app_assoc.
      - done.
      - rewrite length_app in Hlen. cbn in Hlen. lia. }
    intros r s' [-> ->]. wp_steps. split; [cbn; by rewrite Hsel|]. unfold with_iters. cbn. f_equal. by rewrite delete_insert_eq.
Qed.

Lemma wf_bump s al : wf s → wf (mkPS (s_partition_list s) (heap s) (iters s) (next_ptr s + 1) al (fl s)).
Proof.
  intros [W1 W2 W3 W4 W5]. split; cbn; [done|done| | |done].
  - intros p x Hx. apply W3 in Hx. lia.
  - intros p i Hi. apply W4 in Hi. lia.
Qed.

Section find.
Context (md5 : list Z → list Z).

Lemma wp_loaded s (Q : esp_err_t → pstate F → Prop) :
  s_partition_list s ≠ [] → Q ESP_OK s → wp (ensure_partitions_loaded md5) s Q.
Proof. intros Hne HQ. unfold ensure_partitions_loaded. wp_steps. destruct (s_partition_list s); [done|]. by wp_steps. Qed.

(** What [esp_partition_find] looks for. *)
Definition query (t st : Z) (lb : option (list Z)) : esp_partition_iterator_opaque_t := mkIter t st lb None None.

Lemma wp_find s t st lb (Q : option Z → pstate F → Prop) :
  wf s → s_partition_list s ≠ [] → (t = ESP_PARTITION_TYPE_ANY → st = ESP_PARTITION_SUBTYPE_ANY) →
  (∀ s1, s1 = mkPS (s_partition_list s) (heap s) (iters s) (next_ptr s + 1) (tail (allocs s)) (fl s) →
    (head (allocs s) = Some false → Q None s1) ∧
    (selected (heap s) (query t st lb) (s_partition_list s) = [] → Q None s1) ∧
    (∀ q l0 l', selected (heap s) (query t st lb) (s_partition_list s) = q :: selected (heap s) (query t st lb) l' →
       s_partition_list s = l0 ++ q :: l' →
       Q (Some (next_ptr s)) (with_iters (<[next_ptr s := mkIter t st lb (head l') (Some q)]> (iters s)) s1))) →
  wp (esp_partition_find md5 t st lb) s Q.
Proof.
  intros Hwf Hne Hany HQ. specialize (HQ _ eq_refl) as (Hfail & Hnone & Hsome).
  unfold esp_partition_find. apply wp_bind, wp_loaded; [done|]. rewrite decide_True by done.
  replace ((t =? ESP_PARTITION_TYPE_ANY) && negb (st =? ESP_PARTITION_SUBTYPE_ANY)) with false.
  2: { destruct (Z.eqb_spec t ESP_PARTITION_TYPE_ANY) as [Ht|]; [|done]. by rewrite (Hany Ht), Z.eqb_refl. }
  unfold iterator_create. wp_steps. apply wp_alloc; [|intros; wp_steps; auto].
  intros Hok. unfold store_iter. wp_steps. match goal with |- wp _ ?st _ => set (s1 := st) end.
  assert (iters s !! next_ptr s = None) as Hfresh.
  { destruct (iters s !! next_ptr s) eqn:E; [|done]. apply (wf_iters s Hwf) in E. lia. }
  assert (wf s1) as Hwf1.
  { destruct Hwf as [W1 W2 W3 W4 W5]. split; cbn; [done|done| | |done].
    - intros p x Hx. apply W3 in Hx. lia.
    - intros p i [[<- _]|[_ Hp]]%lookup_insert_Some; [lia|]. apply W4 in Hp. lia. }
  assert (iter_at s1 (next_ptr s) (mkIter t st lb (head (s_partition_list s)) None) (s_partition_list s)) as Hat.
  { split_and!; [by apply lookup_insert_eq|done|by exists []]. }
  eapply wp_next; [exact Hwf1|exact Hat|..].
  - intros Hsel. unfold with_iters. cbn. rewrite delete_insert_id by done. by apply Hnone.
  - intros q l0 l' Hsel Hl. unfold with_iters. cbn. rewrite insert_insert_eq. by apply (Hsome q l0 l').
Qed.

(** Iterating over the partitions with [esp_partition_find] and [esp_partition_next]
    gives exactly the registered partitions of the wanted type, subtype and label, once
    each and in the order of the table, and leaves no iterator behind;
    [esp_partition_find_first] gives the first of them. *)
Theorem partition_enumeration s t st lb :
  wf s → s_partition_list s ≠ [] → (t = ESP_PARTITION_TYPE_ANY → st = ESP_PARTITION_SUBTYPE_ANY) →
  head (allocs s) ≠ Some false →
  let found := selected (heap s) (query t st lb) (s_partition_list s) in
  let same s' := s_partition_list s' = s_partition_list s ∧ heap s' = heap s ∧ iters s' = iters s ∧ fl s' = fl s in
  wp (it ← esp_partition_find md5 t st lb; collect (S (S (length (s_partition_list s)))) it) s (λ r s', r = found ∧ same s') ∧
  wp (esp_partition_find_first md5 t st lb) s (λ r s', r = head found ∧ same s').
Proof.
  intros Hwf Hne Hany Hok found same.
  assert (iters s !! next_ptr s = None) as Hfresh.
  { destruct (iters s !! next_ptr s) eqn:E; [|done]. apply (wf_iters s Hwf) in E. lia. }
  split; apply wp_bind; apply wp_find; try done; intros s1 ->; (split_and!; [done|..]).
  - intros Hnil. fold found in Hnil. cbn [collect]. apply wp_ret. by rewrite Hnil.
  - intros q l0 l' Hsel Hl. fold found in Hsel. set (s1 := with_iters _ _).
    eapply wp_mono; [eapply (wp_collect s1 (next_ptr s) (mkIter t st lb (head l') (Some q)) l' q)|].
    + destruct Hwf as [W1 W2 W3 W4 W5]. split; cbn; [done|done| | |done].
      * intros p x Hx. apply W3 in Hx. lia.
      * intros p i [[<- _]|[_ Hp]]%lookup_insert_Some; [lia|]. apply W4 in Hp. lia.
    + split_and!; [by apply lookup_insert_eq|done|]. exists (l0 ++ [q]). cbn. rewrite Hl. by rewrite <- app_assoc.
    + done.
    + rewrite Hl, length_app. cbn. lia.
    + cbn. intros r s' [-> ->]. split; [by rewrite Hsel|]. split_and!; cbn; try done. by rewrite delete_insert_id.
  - intros Hnil. fold found in Hnil. wp_steps. by rewrite Hnil.
  - intros q l0 l' Hsel Hl. fold found in Hsel. wp_steps. eapply wp_get_iter; [by apply lookup_insert_eq|]. wp_steps.
    eapply wp_release; [by apply lookup_insert_eq|]. wp_steps. split; [by rewrite Hsel|].
    split_and!; cbn; try done. by rewrite delete_insert_id.
Qed.

(** ** Checking a pointer *)

Definition same_part (x y : esp_partition_t) : bool :=
  (flash_chip x =? flash_chip y) && (address x =? address y) && (size y =? size x) && Bool.eqb (encrypted y) (encrypted x).

(** Pointers of the list to the same place are the same. *)
Lemma same_part_eq s p q x y :
  wf s → p ∈ s_partition_list s → q ∈ s_partition_list s → heap s !! p = Some x → heap s !! q = Some y →
  same_part (info x) (info y) = true → p = q.
Proof.
  intros Hwf Hp Hq Hx Hy Hsame. unfold same_part in Hsame. rewrite !andb_true_iff, !Z.eqb_eq in Hsame.
  destruct Hsame as [[[Hc Ha] Hs] _]. destruct (decide (p = q)) as [|Hne]; [done|].
  destruct (wf_items s Hwf p Hp) as (x' & Hx' & Hok). rewrite Hx in Hx'. injection Hx' as <-.
  pose proof (wf_apart s Hwf p q x y Hp Hq Hne Hx Hy Hc). pose proof (ok_size _ Hok). lia.
Qed.

Lemma wp_verify_loop s it i l q p x fuel :
  wf s → iter_at s it i l → it_info i = Some q → q ∈ s_partition_list s → p ∈ s_partition_list s → heap s !! p = Some x →
  p = q ∨ p ∈ selected (heap s) i l → (S (length l) < fuel)%nat →
  wp (verify_loop fuel (info x) (Some it)) s (λ r s', r = Some p ∧ s' = with_iters (delete it (iters s)) s).
Proof.
  revert s i l q. induction fuel as [|fuel IH]; intros s i l q Hwf Hit Hq Hql Hp Hx Hin Hlen; [lia|]. cbn [verify_loop].
  pose proof Hit as (Hi & _ & l0 & Hl). wp_steps. eapply wp_get_iter; [done|]. rewrite Hq.
  destruct (wf_items s Hwf q Hql) as (y & Hy & _). wp_steps. eapply wp_deref_item; [done|].
  change ((_ && _) && _) with (same_part (info y) (info x)). destruct (same_part (info y) (info x)) eqn:Hs.
  - wp_steps. eapply wp_release; [done|]. wp_steps. split; [|done]. f_equal. by eapply same_part_eq.
  - assert (p ≠ q) as Hne.
    { intros ->. simplify_eq. unfold same_part in Hs. by rewrite !Z.eqb_refl, eqb_reflx in Hs. }
    destruct Hin as [|Hin]; [done|]. wp_steps. eapply wp_next; [done|done|..].
    + intros Hnil. rewrite Hnil in Hin. by apply not_elem_of_nil in Hin.
    + intros q' l1 l' Hsel ->. eapply wp_mono.
      { eapply (IH _ (moved i l' q') l' q').
        - by eapply wf_insert_iter.
        - split_and!; [by apply lookup_insert_eq|done|]. exists (l0 ++ l1 ++ [q']). cbn. rewrite Hl. by rewrite <- !app_assoc.
        - done.
        - cbn. rewrite Hl. set_solver.
        - done.
        - done.
        - rewrite Hsel in Hin. set_solver.
        - rewrite length_app in Hlen. cbn in Hlen. lia. }
      intros r s' [-> ->]. split; [done|]. unfold with_iters. cbn. f_equal. by rewrite delete_insert_eq.
Qed.

(** [esp_partition_verify] gives back a registered partition itself, and nothing is
    left behind. *)
Theorem partition_verify_registered s p x :
  wf s → p ∈ s_partition_list s → heap s !! p = Some x → head (allocs s) ≠ Some false →
  (type (info x) = ESP_PARTITION_TYPE_ANY → subtype (info x) = ESP_PARTITION_SUBTYPE_ANY) →
  wp (esp_partition_verify md5 (Some p)) s (λ r s',
    r = Some p ∧ s_partition_list s' = s_partition_list s ∧ heap s' = heap s ∧ iters s' = iters s ∧ fl s' = fl s).
Proof.
  intros Hwf Hp Hx Hok Hany. assert (s_partition_list s ≠ []) as Hne by (intros E; rewrite E in Hp; by apply not_elem_of_nil in Hp).
  assert (iters s !! next_ptr s = None) as Hfresh.
  { destruct (iters s !! next_ptr s) eqn:E; [|done]. apply (wf_iters s Hwf) in E. lia. }
  set (lb := match label (info x) with [] => None | lb => Some lb end).
  assert (p ∈ selected (heap s) (query (type (info x)) (subtype (info x)) lb) (s_partition_list s)) as Hsel.
  { apply list_elem_of_filter. split; [|done]. unfold sel. rewrite Hx. unfold matches. cbn.
    rewrite !Z.eqb_refl, !andb_false_r. cbn. subst lb. destruct (label (info x)); [done|]. by apply bool_decide_eq_true. }
  unfold esp_partition_verify. apply wp_bind. eapply wp_deref_item; [done|]. cbv zeta. fold lb. apply wp_bind.
  apply wp_find; try done. intros s1 ->. split_and!; [done| |].
  - intros Hnil. rewrite Hnil in Hsel. by apply not_elem_of_nil in Hsel.
  - intros q l0 l' Hq Hl. wp_steps. cbn [s_partition_list with_iters]. set (s1 := with_iters _ _).
    eapply wp_mono; [eapply (wp_verify_loop s1 (next_ptr s) (mkIter _ _ lb (head l') (Some q)) l' q p x)|].
    + destruct Hwf as [W1 W2 W3 W4 W5]. split; cbn; [done|done| | |done].
      * intros p' x' Hx'. apply W3 in Hx'. lia.
      * intros p' i [[<- _]|[_ Hp']]%lookup_insert_Some; [lia|]. apply W4 in Hp'. lia.
    + split_and!; [by apply lookup_insert_eq|done|]. exists (l0 ++ [q]). cbn. rewrite Hl. by rewrite <- app_assoc.
    + done.
    + cbn. rewrite Hl. set_solver.
    + done.
    + done.
    + rewrite Hq in Hsel. apply elem_of_cons in Hsel. done.
    + rewrite Hl, length_app. cbn. lia.
    + cbn. intros r s' [-> ->]. split_and!; cbn; try done. by rewrite delete_insert_id.
Qed.

(** ** Registration *)

(** The range overlaps the partition behind [p]. *)
Definition hits (h : gmap Z partition_list_item_t) (chip offset sz p : Z) : bool :=
  match h !! p with
  | Some x => (flash_chip (info x) =? chip) && (address (info x) <? offset + sz) && (offset <? address (info x) + size (info x))
  | None => false
  end.

Lemma overlaps_some_eq s chip offset sz l :
  0 ≤ offset → 0 < sz → offset + sz < 2 ^ 31 → (∀ p, p ∈ l → ∃ x, heap s !! p = Some x ∧ part_ok (info x)) →
  overlaps_some chip offset sz l s = Done s (existsb (hits (heap s) chip offset sz) l).
Proof.
  intros Ho Hs He Hl. induction l as [|p l IH]; [done|]. destruct (Hl p) as (x & Hx & Hok); [set_solver|].
  pose proof (ok_address _ Hok). pose proof (ok_size _ Hok). pose proof (ok_end _ Hok).
  cbn. unfold hits at 1. unfold mbind, M_bind, deref. rewrite Hx.
  destruct (Z.eqb_spec (flash_chip (info x)) chip) as [Hc|Hc]; cbn [andb orb mret M_ret].
  - unfold bootloader_util_regions_overlap, mbind, M_bind, assertM, mret, M_ret.
    rewrite !u32_small, !i32_small by lia. rewrite !(proj2 (Z.ltb_lt _ _)) by lia.
    destruct ((address (info x) <? offset + sz) && (offset <? address (info x) + size (info x))); [done|].
    apply IH. set_solver.
  - apply IH. set_solver.
Qed.

Lemma hits_insert h p x chip offset sz l :
  p ∉ l → existsb (hits (<[p := x]> h) chip offset sz) l = existsb (hits h chip offset sz) l.
Proof.
  intros Hp. induction l as [|q l IH]; [done|]. cbn. rewrite IH by set_solver. f_equal. unfold hits.
  by rewrite lookup_insert_ne by set_solver.
Qed.

Definition new_part (chip offset sz : Z) (lbl : list Z) (t st : Z) : esp_partition_t :=
  mkPart chip t st offset sz SPI_FLASH_SEC_SIZE (take 16 lbl)
    (if chip =? esp_flash_default_chip then is_partition_encrypted false t st else false) false.

Lemma encrypted_enabled b t st : is_partition_encrypted b t st = true → esp_flash_encryption_enabled = true.
Proof. unfold is_partition_encrypted. by destruct esp_flash_encryption_enabled. Qed.

(** Registering a partition is refused when it does not fit on its chip, when there
    is no memory and exactly when it overlaps a registered partition of the same chip;
    otherwise it is added at the end of the list.  In every case the partitions stay
    inside their chips and apart from each other, and nothing is lost. *)
Theorem partition_register_wf s chip offset sz lbl t st :
  let c := default esp_flash_default_chip chip in
  let fits := negb (chip_size c <? offset + sz) in
  let free := negb (existsb (hits (heap s) c offset sz) (s_partition_list s)) in
  wf s → s_partition_list s ≠ [] → 0 ≤ offset → 0 < sz → offset + sz < 2 ^ 31 → chip_size c < 2 ^ 31 →
  wp (esp_partition_register_external md5 chip offset sz lbl t st) s (λ r s',
    wf s' ∧ iters s' = iters s ∧ fl s' = fl s ∧
    if fits && free && default true (head (allocs s))
    then r = (ESP_OK, Some (next_ptr s)) ∧ s_partition_list s' = s_partition_list s ++ [next_ptr s] ∧
         heap s' = <[next_ptr s := mkItem (new_part c offset sz lbl t st) true]> (heap s)
    else r.1 = (if negb fits then ESP_ERR_INVALID_SIZE
                else if default true (head (allocs s)) then ESP_ERR_INVALID_ARG else ESP_ERR_NO_MEM) ∧
         s_partition_list s' = s_partition_list s ∧ heap s' = heap s).
Proof.
  intros c fits free Hwf Hne Ho Hs He Hcs. unfold esp_partition_register_external. cbv zeta. fold c.
  rewrite u32_small by lia. subst fits. destruct (Z.ltb_spec (chip_size c) (offset + sz)); cbn [negb andb]; [by wp_steps|].
  wp_steps. apply wp_loaded; [done|]. rewrite decide_True by done. wp_steps.
  assert (heap s !! next_ptr s = None) as Hfresh.
  { destruct (heap s !! next_ptr s) eqn:E; [|done]. apply (wf_heap s Hwf) in E. lia. }
  assert (next_ptr s ∉ s_partition_list s) as Hnew.
  { intros Hin. destruct (wf_items s Hwf _ Hin) as (x & Hx & _). congruence. }
  pose proof Hwf as [W1 W2 W3 W4 W5].
  apply wp_alloc; intros Hal.
  2: { rewrite Hal. cbn [default from_option id]. rewrite andb_false_r. wp_steps. cbn. split_and!; try done; [by apply (wf_bump s (tail (allocs s)))|..]. }
  assert (default true (head (allocs s)) = true) as -> by (by destruct (head (allocs s)) as [[]|]). rewrite andb_true_r.
  wp_steps. fold (new_part c offset sz lbl t st). unfold wp at 1. rewrite overlaps_some_eq; [|lia..|].
  2: { intros p Hp. cbn. rewrite lookup_insert_ne; [by apply W2|]. intros E. apply Hnew. by rewrite E. }
  cbn [heap s_partition_list with_heap]. rewrite hits_insert by done. subst free.
  destruct (existsb (hits (heap s) c offset sz) (s_partition_list s)) eqn:Hfree; cbn [negb andb].
  - unfold free_item. wp_steps. eapply wp_deref_item; [by apply lookup_insert_eq|]. wp_steps. cbn. rewrite delete_insert_id by done.
    split_and!; try done; [by apply (wf_bump s (tail (allocs s)))|..].
  - wp_steps. cbn. split_and!; try done.
    assert (∀ p x, p ∈ s_partition_list s → heap s !! p = Some x → apart (info x) (new_part c offset sz lbl t st)) as Hap.
    { intros p x Hp Hx Hc. cbn in Hc.
      assert (hits (heap s) c offset sz p = false) as Hh.
      { destruct (hits (heap s) c offset sz p) eqn:E; [|done]. rewrite <- Hfree. symmetry. apply existsb_exists.
        exists p. split; [by apply list_elem_of_In|done]. }
      unfold hits in Hh. rewrite Hx, Hc, Z.eqb_refl in Hh. cbn in Hh |- *. apply andb_false_iff in Hh. rewrite !Z.ltb_ge in Hh. lia. }
    split; cbn.
    + apply NoDup_app. split_and!; [done|set_solver|apply NoDup_singleton].
    + intros p [Hp|Hp%list_elem_of_singleton]%elem_of_app.
      * rewrite lookup_insert_ne by (intros E; apply Hnew; by rewrite E). auto.
      * subst. rewrite lookup_insert_eq. eexists. split; [done|]. cbn. split; cbn; try lia.
        destruct (Z.eqb_spec c esp_flash_default_chip); [|done]. intros Henc. by apply encrypted_enabled in Henc.
    + intros p x [[<- _]|[_ Hx]]%lookup_insert_Some; [lia|]. apply W3 in Hx. lia.
    + intros p i Hi. apply W4 in Hi. lia.
    + intros p q x y Hp Hq Hpq Hx Hy. apply lookup_insert_Some in Hx, Hy.
      rewrite elem_of_app, list_elem_of_singleton in Hp, Hq.
      destruct Hx as [[<- <-]|[Hx1 Hx]], Hy as [[<- <-]|[Hy1 Hy]]; [done|..].
      * intros Hc. symmetry in Hc. destruct Hq as [Hq|Hq]; [|congruence]. destruct (Hap q y Hq Hy Hc) as [?|?]; [by right|by left].
      * destruct Hp as [Hp|Hp]; [|congruence]. by apply (Hap p).
      * destruct Hp as [Hp|Hp], Hq as [Hq|Hq]; [|congruence..]. by apply (W5 p q).
Qed.

End find.
End spec.
