(* ===== verification/PartitionAccess.v ===== *)
(** * Partitions: reading, writing, erasing and copying

    Access through a partition stays inside it, what is written is read back, a copy is
    a copy, and the check of a region against read-only partitions. *)
From Stdlib Require Import ZArith Lia.
From stdpp Require Import base numbers option list gmap sets.
From S2P Require Import Prelude Flash Partition PartitionSpec.

Open Scope Z_scope.

Section access.
Context {F : Type} `{!FlashDriver F, !FlashLaws F}.
Implicit Types (s : pstate F) (f : F) (p : Z) (x y : partition_list_item_t).

Lemma with_flash_id s : with_flash (fl s) s = s.
Proof. by destruct s. Qed.

Lemma check_range_ok x off sz : check_range (info x) off sz = ESP_OK ↔ off ≤ size (info x) ∧ sz ≤ size (info x) - off.
Proof.
  unfold check_range. destruct (Z.ltb_spec (size (info x)) off); [split; [done|lia]|].
  destruct (Z.ltb_spec (size (info x) - off) sz); split; (done || lia).
Qed.

(** ** Single operations *)

Lemma wp_mmap p x off sz s (Q : esp_err_t * mem → pstate F → Prop) :
  heap s !! p = Some x → part_ok (info x) → 0 ≤ off → 0 ≤ sz →
  (∀ r m f, flash_eq (fl s) f →
     (r = ESP_OK → off + sz ≤ size (info x) ∧ flash_chip (info x) = esp_flash_default_chip ∧
        ∀ i, 0 ≤ i < sz → m i = seen esp_flash_encryption_enabled (fl s) esp_flash_default_chip (address (info x) + off + i)) →
     Q (r, m) (with_flash f s)) →
  wp (esp_partition_mmap (Some p) off sz) s Q.
Proof.
  intros Hp Hok Ho Hs HQ. pose proof (ok_address _ Hok). pose proof (ok_end _ Hok). unfold esp_partition_mmap. apply wp_bind.
  eapply wp_the_partition; [done|]. cbv zeta. case_decide as Hc.
  2: { wp_steps. rewrite <- (with_flash_id s). by apply HQ. }
  apply check_range_ok in Hc. destruct (Z.eqb_spec (flash_chip (info x)) esp_flash_default_chip); cbn [negb].
  2: { wp_steps. rewrite <- (with_flash_id s). by apply HQ. }
  rewrite (u32_small (address (info x) + off)) by lia. set (phys := address (info x) + off) in *.
  assert (Z.ldiff phys (MMU_PAGE_SIZE - 1) + Z.land phys (MMU_PAGE_SIZE - 1) = phys) as Hsplit.
  { change (MMU_PAGE_SIZE - 1) with (Z.ones 16). rewrite Z.ldiff_ones_r, Z.land_ones, Z.shiftl_mul_pow2, Z.shiftr_div_pow2 by lia.
    pose proof (Z.div_mod phys (2 ^ 16)). lia. }
  assert (0 ≤ Z.land phys (MMU_PAGE_SIZE - 1) < 2 ^ 16) as Hland.
  { change (MMU_PAGE_SIZE - 1) with (Z.ones 16). rewrite Z.land_ones by lia. apply Z.mod_pos_bound. lia. }
  rewrite u32_small by lia. apply wp_bind, wp_on_flash, mmap_law. intros r m f Hf Hm. wp_steps. apply HQ; [done|].
  cbn. intros Hr. split_and!; [lia|done|]. intros i Hi. rewrite Hsplit. apply Hm; [done|]. pose proof (whole_pages_ge (sz + Z.land phys (MMU_PAGE_SIZE - 1))). lia.
Qed.

Lemma wp_part_read p x off sz s (Q : esp_err_t * list Z → pstate F → Prop) :
  heap s !! p = Some x → part_ok (info x) → 0 ≤ off → 0 ≤ sz →
  (∀ r bs f, flash_eq (fl s) f →
     (r = ESP_OK → off + sz ≤ size (info x) ∧
        bs = ldbytes (seen (encrypted (info x)) (fl s) (flash_chip (info x))) (address (info x) + off) sz) →
     Q (r, bs) (with_flash f s)) →
  wp (esp_partition_read (Some p) off sz) s Q.
Proof.
  intros Hp Hok Ho Hs HQ. pose proof (ok_address _ Hok). pose proof (ok_end _ Hok). unfold esp_partition_read. apply wp_bind.
  eapply wp_the_partition; [done|]. cbv zeta. case_decide as Hc.
  2: { wp_steps. rewrite <- (with_flash_id s). by apply HQ. }
  apply check_range_ok in Hc. destruct (encrypted (info x)) eqn:He; cbn [negb].
  - destruct (ok_encrypted _ Hok He) as [Hen Hchip]. rewrite Hchip, Z.eqb_refl. cbn [negb]. apply wp_bind.
    eapply wp_mmap; [done..|]. intros r m f Hf Hm. cbn [fst snd]. case_decide as Hr; [|wp_steps; by apply HQ].
    wp_steps. apply HQ; [done|]. intros _. destruct (Hm Hr) as (? & ? & Hb). split; [lia|].
    rewrite Hen in Hb. rewrite Hchip. unfold ldbytes. apply list_fmap_ext. intros k v Hk%lookup_seq. rewrite Z.add_0_l. apply Hb. lia.
  - rewrite u32_small by lia. apply wp_on_flash, read_law. intros r bs f Hf Hbs. apply HQ; [done|].
    intros Hr. split; [lia|]. by apply Hbs.
Qed.

Lemma wp_part_read_raw p x off sz s (Q : esp_err_t * list Z → pstate F → Prop) :
  heap s !! p = Some x → part_ok (info x) → 0 ≤ off → 0 ≤ sz →
  (∀ r bs f, flash_eq (fl s) f →
     (r = ESP_OK → off + sz ≤ size (info x) ∧ bs = ldbytes (raw (fl s) (flash_chip (info x))) (address (info x) + off) sz) →
     Q (r, bs) (with_flash f s)) →
  wp (esp_partition_read_raw (Some p) off sz) s Q.
Proof.
  intros Hp Hok Ho Hs HQ. pose proof (ok_address _ Hok). pose proof (ok_end _ Hok). unfold esp_partition_read_raw. apply wp_bind.
  eapply wp_the_partition; [done|]. cbv zeta. case_decide as Hc.
  2: { wp_steps. rewrite <- (with_flash_id s). by apply HQ. }
  apply check_range_ok in Hc. rewrite u32_small by lia. apply wp_on_flash, read_law. intros r bs f Hf Hbs. apply HQ; [done|].
  intros Hr. split; [lia|]. by apply Hbs.
Qed.

(** What a write through a partition does to the flash. *)
Definition written (enc : bool) x off (bs : list Z) f f' (r : esp_err_t) : Prop :=
  flash_eq_but (flash_chip (info x)) (address (info x) + off) (zlen bs) f f' ∧
  (flash_eq f f' ∨ off + zlen bs ≤ size (info x) ∧ readonly (info x) = false) ∧
  (r = ESP_OK → off + zlen bs ≤ size (info x) ∧ readonly (info x) = false ∧
     (enc = true → (address (info x) + off) mod 16 = 0 ∧ zlen bs mod 16 = 0) ∧
     (all_blank f (flash_chip (info x)) (address (info x) + off) (zlen bs) →
      ldbytes (seen enc f' (flash_chip (info x))) (address (info x) + off) (zlen bs) = bs)).

Lemma wp_part_write p x off bs s (Q : esp_err_t → pstate F → Prop) :
  heap s !! p = Some x → part_ok (info x) → 0 ≤ off → Forall is_byte bs →
  (∀ r f, written (encrypted (info x)) x off bs (fl s) f r → Q r (with_flash f s)) →
  wp (esp_partition_write (Some p) off bs) s Q.
Proof.
  intros Hp Hok Ho Hb HQ. pose proof (ok_address _ Hok). pose proof (ok_end _ Hok). pose proof (zlen_nonneg bs).
  assert (∀ r, r ≠ ESP_OK → Q r s) as Herr.
  { intros r Hr. rewrite <- (with_flash_id s). apply HQ. split_and!; [apply flash_eq_but_refl|by left|done]. }
  unfold esp_partition_write. apply wp_bind. eapply wp_the_partition; [done|].
  destruct (readonly (info x)) eqn:Hro; [wp_steps; by apply Herr|]. cbv zeta. case_decide as Hc; [|wp_steps; by apply Herr].
  apply check_range_ok in Hc. rewrite u32_small by lia. destruct (encrypted (info x)) eqn:He; cbn [negb].
  - destruct (ok_encrypted _ Hok He) as [Hen Hchip]. rewrite Hchip, Z.eqb_refl. cbn [negb].
    apply wp_on_flash, write_encrypted_law; [done|]. intros r f Hbut Hal Hval. apply HQ. unfold written.
    rewrite Hchip. split_and!; [done|right; split; [lia|done]|]. intros Hr. destruct (Hal Hr). split_and!; [lia|done|done|auto].
  - apply wp_on_flash, write_law; [done|]. intros r f Hbut Hval. apply HQ. split_and!; [done|right; split; [lia|done]|].
    intros Hr. split_and!; [lia|done|done|auto].
Qed.

Lemma wp_part_write_raw p x off bs s (Q : esp_err_t → pstate F → Prop) :
  heap s !! p = Some x → part_ok (info x) → 0 ≤ off → Forall is_byte bs →
  (∀ r f, written false x off bs (fl s) f r → Q r (with_flash f s)) →
  wp (esp_partition_write_raw (Some p) off bs) s Q.
Proof.
  intros Hp Hok Ho Hb HQ. pose proof (ok_address _ Hok). pose proof (ok_end _ Hok). pose proof (zlen_nonneg bs).
  assert (∀ r, r ≠ ESP_OK → Q r s) as Herr.
  { intros r Hr. rewrite <- (with_flash_id s). apply HQ. split_and!; [apply flash_eq_but_refl|by left|done]. }
  unfold esp_partition_write_raw. apply wp_bind. eapply wp_the_partition; [done|].
  destruct (readonly (info x)) eqn:Hro; [wp_steps; by apply Herr|]. cbv zeta. case_decide as Hc; [|wp_steps; by apply Herr].
  apply check_range_ok in Hc. rewrite u32_small by lia. apply wp_on_flash, write_law; [done|].
  intros r f Hbut Hval. apply HQ. split_and!; [done|right; split; [lia|done]|]. intros Hr. split_and!; [lia|done|done|auto].
Qed.

Definition erased x off sz f f' (r : esp_err_t) : Prop :=
  flash_eq_but (flash_chip (info x)) (address (info x) + off) sz f f' ∧
  (flash_eq f f' ∨ off + sz ≤ size (info x) ∧ readonly (info x) = false) ∧
  (r = ESP_OK → off + sz ≤ size (info x) ∧ readonly (info x) = false ∧
     off mod SPI_FLASH_SEC_SIZE = 0 ∧ sz mod SPI_FLASH_SEC_SIZE = 0 ∧
     all_blank f' (flash_chip (info x)) (address (info x) + off) sz).

Lemma wp_part_erase p x off sz s (Q : esp_err_t → pstate F → Prop) :
  heap s !! p = Some x → part_ok (info x) → 0 ≤ off → 0 ≤ sz →
  (∀ r f, erased x off sz (fl s) f r → Q r (with_flash f s)) →
  wp (esp_partition_erase_range (Some p) off sz) s Q.
Proof.
  intros Hp Hok Ho Hs HQ. pose proof (ok_address _ Hok). pose proof (ok_end _ Hok).
  assert (∀ r, r ≠ ESP_OK → Q r s) as Herr.
  { intros r Hr. rewrite <- (with_flash_id s). apply HQ. split_and!; [apply flash_eq_but_refl|by left|done]. }
  unfold esp_partition_erase_range. apply wp_bind. eapply wp_the_partition; [done|].
  destruct (readonly (info x)) eqn:Hro; [wp_steps; by apply Herr|]. cbv zeta. case_decide as Hc; [|wp_steps; by apply Herr].
  apply check_range_ok in Hc. destruct (Z.eqb_spec (sz mod SPI_FLASH_SEC_SIZE) 0); cbn [negb]; [|wp_steps; by apply Herr].
  destruct (Z.eqb_spec (off mod SPI_FLASH_SEC_SIZE) 0); cbn [negb]; [|wp_steps; by apply Herr].
  rewrite u32_small by lia. apply wp_on_flash, erase_law. intros r f Hbut Hbl. apply HQ. split_and!; [done|right; split; [lia|done]|].
  intros Hr. split_and!; [lia|done|done|done|auto].
Qed.

(** ** Confinement *)

Inductive access : Type :=
| ARead (off sz : Z)
| AReadRaw (off sz : Z)
| AMmap (off sz : Z)
| AWrite (off : Z) (bs : list Z)
| AWriteRaw (off : Z) (bs : list Z)
| AErase (off sz : Z).

Definition run_access p (a : access) : PT F unit :=
  match a with
  | ARead off sz => _ ← esp_partition_read (Some p) off sz; mret ()
  | AReadRaw off sz => _ ← esp_partition_read_raw (Some p) off sz; mret ()
  | AMmap off sz => _ ← esp_partition_mmap (Some p) off sz; mret ()
  | AWrite off bs => _ ← esp_partition_write (Some p) off bs; mret ()
  | AWriteRaw off bs => _ ← esp_partition_write_raw (Some p) off bs; mret ()
  | AErase off sz => _ ← esp_partition_erase_range (Some p) off sz; mret ()
  end.

Fixpoint run_accesses p (l : list access) : PT F unit :=
  match l with
  | [] => mret ()
  | a :: l' => run_access p a;; run_accesses p l'
  end.

(** The arguments are unsigned and bytes. *)
Definition access_ok (a : access) : Prop :=
  match a with
  | ARead off sz | AReadRaw off sz | AMmap off sz | AErase off sz => 0 ≤ off ∧ 0 ≤ sz
  | AWrite off bs | AWriteRaw off bs => 0 ≤ off ∧ Forall is_byte bs
  end.

Lemma inside x off n f f' :
  0 ≤ off → flash_eq_but (flash_chip (info x)) (address (info x) + off) n f f' →
  flash_eq f f' ∨ off + n ≤ size (info x) ∧ readonly (info x) = false →
  flash_eq_but (flash_chip (info x)) (address (info x)) (size (info x)) f f' ∧ (readonly (info x) = true → flash_eq f f').
Proof.
  intros Ho Hbut [Heq|[Hle Hro]]; [split; [by apply flash_eq_but_of|done]|].
  split; [|congruence]. eapply flash_eq_but_mono; [..|exact Hbut]; lia.
Qed.

Lemma run_access_inside p x a s :
  heap s !! p = Some x → part_ok (info x) → access_ok a →
  wp (run_access p a) s (λ _ s', ∃ f, s' = with_flash f s ∧
    flash_eq_but (flash_chip (info x)) (address (info x)) (size (info x)) (fl s) f ∧ (readonly (info x) = true → flash_eq (fl s) f)).
Proof.
  intros Hp Hok Ha. destruct a; destruct Ha as [H1 H2]; apply wp_bind.
  - eapply wp_part_read; [done..|]. intros r bs f Hf _. wp_steps. eexists. split_and!; [done|by apply flash_eq_but_of|done].
  - eapply wp_part_read_raw; [done..|]. intros r bs f Hf _. wp_steps. eexists. split_and!; [done|by apply flash_eq_but_of|done].
  - eapply wp_mmap; [done..|]. intros r m f Hf _. wp_steps. eexists. split_and!; [done|by apply flash_eq_but_of|done].
  - eapply wp_part_write; [done..|]. intros r f (Hbut & Hin & _). wp_steps. eexists. split; [done|]. eauto using inside.
  - eapply wp_part_write_raw; [done..|]. intros r f (Hbut & Hin & _). wp_steps. eexists. split; [done|]. eauto using inside.
  - eapply wp_part_erase; [done..|]. intros r f (Hbut & Hin & _). wp_steps. eexists. split; [done|]. eauto using inside.
Qed.

(** C34: Any sequence of reads, mappings, writes and erases through a partition, raw or
    not and with any offsets and sizes, ends and changes no byte of flash outside the
    partition, and none at all when the partition is read-only. *)
Theorem partition_access_confined p x l s :
  heap s !! p = Some x → part_ok (info x) → Forall access_ok l →
  wp (run_accesses p l) s (λ _ s', ∃ f, s' = with_flash f s ∧
    flash_eq_but (flash_chip (info x)) (address (info x)) (size (info x)) (fl s) f ∧ (readonly (info x) = true → flash_eq (fl s) f)).
Proof.
  intros Hp Hok Hl. revert s Hp. induction Hl as [|a l Ha Hl IH]; intros s Hp; cbn [run_accesses].
  - wp_steps. exists (fl s). split_and!; [by rewrite with_flash_id|apply flash_eq_but_refl|done].
  - apply wp_bind. eapply wp_mono; [by eapply run_access_inside|]. intros _ s1 (f1 & -> & Hbut1 & Hro1).
    eapply wp_mono; [by apply IH|]. intros _ s2 (f2 & -> & Hbut2 & Hro2). exists f2. split_and!; [done| |].
    + by eapply flash_eq_but_trans.
    + intros Hro. etrans; [by apply Hro1|]. by apply Hro2.
Qed.

(** Bytes written into an erased range of a partition, encrypted or not, are read
    back, when the operations succeed. *)
Theorem partition_write_read p x eo es off bs s :
  heap s !! p = Some x → part_ok (info x) → 0 ≤ eo → 0 ≤ es → eo ≤ off → off + zlen bs ≤ eo + es → Forall is_byte bs →
  wp (e ← esp_partition_erase_range (Some p) eo es;
      w ← esp_partition_write (Some p) off bs;
      r ← esp_partition_read (Some p) off (zlen bs); mret (e, w, r)) s
    (λ '(e, w, r) _, e = ESP_OK → w = ESP_OK → r.1 = ESP_OK → r.2 = bs).
Proof.
  intros Hp Hok Heo Hes Ho Hin Hb. pose proof (zlen_nonneg bs). apply wp_bind. eapply wp_part_erase; [done..|].
  intros e f1 (_ & _ & He). apply wp_bind. eapply wp_part_write; [done|done|lia|done|]. intros w f2 (_ & _ & Hw). apply wp_bind.
  eapply wp_part_read; [done|done|lia|lia|]. intros r bs' f3 _ Hr. wp_steps. cbn. intros -> -> ->.
  destruct (He eq_refl) as (_ & _ & _ & _ & Hbl), (Hw eq_refl) as (_ & _ & _ & Hval), (Hr eq_refl) as [_ ->].
  cbn. apply Hval. eapply all_blank_sub; [exact Hbl|lia..].
Qed.

(** ** Copying *)

Lemma align_up_ge n : 0 ≤ n < 2 ^ 31 → n ≤ ALIGN_UP n SPI_FLASH_SEC_SIZE.
Proof.
  intros Hn. unfold ALIGN_UP, SPI_FLASH_SEC_SIZE. rewrite u32_small by lia. change (4096 - 1) with (Z.ones 12).
  rewrite Z.ldiff_ones_r, Z.shiftl_mul_pow2, Z.shiftr_div_pow2 by lia. change (Z.ones 12) with 4095.
  pose proof (Z.div_mod (n + 4095) (2 ^ 12)). pose proof (Z.mod_pos_bound (n + 4095) (2 ^ 12)). lia.
Qed.

Section copy.
Context (ps pd : Z) (x y : partition_list_item_t) (so do n : Z) (s : pstate F).
Hypothesis Hx : heap s !! ps = Some x.
Hypothesis Hy : heap s !! pd = Some y.
Hypothesis Hokx : part_ok (info x).
Hypothesis Hoky : part_ok (info y).
Hypothesis Hapart : apart (info x) (info y).
Hypothesis Haligned : address (info y) mod 16 = 0 ∧ size (info y) mod 16 = 0.
Hypothesis Hso : 0 ≤ so.
Hypothesis Hdo : 0 ≤ do.
Hypothesis Hpages : 1 ≤ spi_flash_mmap_get_free_pages (fl s) < 2 ^ 16.
Hypothesis Hsrc : so + n ≤ size (info x).
Hypothesis Hdst : do + n ≤ size (info y).
Hypothesis Hdef : flash_chip (info x) = esp_flash_default_chip.

(** What the mapping shows of the source. *)
Definition source (i : Z) : Z := seen esp_flash_encryption_enabled (fl s) esp_flash_default_chip (address (info x) + so + i).

(** [k] bytes are copied, the rest of the range is blank. *)
Definition copied (k : Z) (f : F) : Prop :=
  flash_eq_but (flash_chip (info y)) (address (info y)) (size (info y)) (fl s) f ∧
  (∀ i, 0 ≤ i < k → seen (encrypted (info y)) f (flash_chip (info y)) (address (info y) + do + i) = source i) ∧
  all_blank f (flash_chip (info y)) (address (info y) + do + k) (n - k).

(** The source is not changed by the copy. *)
Lemma source_same k f i :
  copied k f → 0 ≤ i < n → seen esp_flash_encryption_enabled f esp_flash_default_chip (address (info x) + so + i) = source i.
Proof.
  intros (Hbut & _ & _) Hi. eapply seen_but; [exact Hbut|done|]. pose proof (ok_size _ Hokx).
  destruct (decide (flash_chip (info y) = esp_flash_default_chip)) as [Hc|]; [|by left; congruence]. right.
  destruct Hapart as [?|?]; [congruence|lia..].
Qed.

Lemma copied_write k c f f' bs :
  copied k f → 0 ≤ k → 0 ≤ c → k + c ≤ n → zlen bs = c → (∀ i, 0 ≤ i < c → bs !!! Z.to_nat i = source (k + i)) →
  written (encrypted (info y)) y (do + k) bs f f' ESP_OK → copied (k + c) f'.
Proof.
  intros (Hbut & Hdone & Hbl) Hk Hc Hkc Hlen Hbs (Hbut' & Hin & Hok). destruct (Hok eq_refl) as (Hle & Hro & Hal & Hval).
  replace (address (info y) + (do + k)) with (address (info y) + do + k) in * by lia. rewrite Hlen in *. split_and!.
  - eapply flash_eq_but_trans; [exact Hbut|]. eapply flash_eq_but_mono; [..|exact Hbut']; lia.
  - intros i Hi. destruct (decide (i < k)) as [Hik|Hik].
    + rewrite <- Hdone by lia. eapply seen_but; [exact Hbut'|done|right; lia].
    + specialize (Hval ltac:(eapply all_blank_sub; [exact Hbl|lia..])).
      replace (address (info y) + do + i) with (address (info y) + do + k + (i - k)) by lia.
      rewrite <- (ldbytes_lookup _ _ c) by lia. rewrite Hval, Hbs by lia. f_equal. lia.
  - eapply all_blank_but; [exact Hbut'|lia|]. eapply all_blank_sub; [exact Hbl|lia..].
Qed.

(** The state of the loop: what is left and the failed attempts bound the turns to come. *)
Definition copying (m : nat) (l : Z * Z * Z * Z * Z) (t : pstate F) : Prop :=
  ∃ rem att f, l = (so + (n - rem), do + (n - rem), rem, spi_flash_mmap_get_free_pages (fl s), att) ∧
    0 < rem ≤ n ∧ 0 ≤ att < 3 ∧ t = with_flash f s ∧ copied (n - rem) f ∧ Z.of_nat m = 3 * rem + 2 - att.

Lemma copy_step_ok m l t :
  copying m l t →
  wp (copy_step (Some pd) (Some ps) l) t (λ r t',
    match r with
    | inl l' => ∃ m', (m' < m)%nat ∧ copying m' l' t'
    | inr e => ∃ f, t' = with_flash f s ∧ flash_eq_but (flash_chip (info y)) (address (info y)) (size (info y)) (fl s) f ∧
                    (e = ESP_OK → copied n f)
    end).
Proof.
  intros (rem & att & f & -> & Hrem & Hatt & -> & Hcop & Hm). unfold copy_step.
  pose proof (ok_end _ Hokx). pose proof (ok_address _ Hokx). pose proof (ok_end _ Hoky). pose proof (ok_address _ Hoky).
  set (c := Z.min rem (u32 (spi_flash_mmap_get_free_pages (fl s) * MMU_PAGE_SIZE))).
  assert (0 < c ≤ rem) as Hc by (subst c; unfold MMU_PAGE_SIZE; rewrite u32_small; lia).
  apply wp_bind. eapply wp_mmap; [exact Hx|done|lia|lia|]. intros r mm f1 Hf1 Hmap. cbn [fst snd].
  assert (copied (n - rem) f1) as Hcop1.
  { destruct Hcop as (Hc1 & Hc2 & Hc3). split_and!.
    - eapply flash_eq_but_trans; [exact Hc1|by apply flash_eq_but_of].
    - intros i Hi. rewrite <- Hc2 by done. by apply seen_eq.
    - by eapply all_blank_eq. }
  case_decide as Hr.
  - destruct (Hmap Hr) as (_ & _ & Hbytes). apply wp_bind.
    assert (∀ i, 0 ≤ i < c → mm i = source (n - rem + i)) as Hsrcb.
    { intros i Hi. rewrite Hbytes by done. cbn. rewrite <- (source_same (n - rem) f) by (done || lia). f_equal. lia. }
    eapply wp_part_write; [exact Hy|done|lia| |].
    + apply Forall_forall. intros b Hb. apply list_elem_of_lookup in Hb as [k Hb]. unfold ldbytes in Hb.
      rewrite list_lookup_fmap in Hb. apply fmap_Some in Hb as (k' & Hk & ->). apply lookup_seq in Hk as [-> Hk].
      rewrite Hsrcb by lia. apply seen_byte.
    + intros e f2 Hw. case_decide as He.
      * subst e. assert (copied (n - rem + c) f2) as Hcop2.
        { eapply (copied_write (n - rem) c f1 f2 (ldbytes mm 0 c)); [done|lia|lia|lia|apply zlen_ldbytes; lia| |exact Hw].
          intros i Hi. rewrite ldbytes_lookup by lia. by apply Hsrcb. }
        rewrite (u32_small (rem - c)), !u32_small by lia. wp_steps. destruct (Z.ltb_spec 0 (rem - c)).
        -- exists (Z.to_nat (3 * (rem - c) + 2)). split; [lia|]. exists (rem - c), 0, f2. split_and!; [|lia..|done| |lia].
           ++ replace (n - (rem - c)) with (n - rem + c) by lia. by rewrite !Z.add_assoc.
           ++ replace (n - (rem - c)) with (n - rem + c) by lia. done.
        -- exists f2. split_and!; [done|apply Hcop2|]. intros _. replace n with (n - rem + c) by lia. done.
      * wp_steps. exists f2. split_and!; [done| |done]. destruct Hw as (Hbut & Hin & _). eapply flash_eq_but_trans; [apply Hcop1|].
        eapply (inside y (do + (n - rem))); [lia|exact Hbut|exact Hin].
  - wp_steps. cbn [fl with_flash]. destruct (Z.leb_spec 3 (att + 1)); wp_steps.
    + exists f1. split_and!; [done|apply Hcop1|done].
    + exists (pred m). split; [lia|]. exists rem, (att + 1), f1. split_and!; [|lia..|done|done|lia].
      destruct Hcop1 as [[Hp _] _]. by rewrite Hp.
Qed.

End copy.

(** [esp_partition_copy] ends and changes nothing outside the destination; when it
    succeeds, the range of the destination reads as the range of the source did. *)
Theorem partition_copy_copies fuel ps pd x y so do sz s :
  let n := if sz =? SIZE_MAX then size (info x) - so else sz in
  heap s !! ps = Some x → heap s !! pd = Some y → ps ≠ pd → part_ok (info x) → part_ok (info y) → apart (info x) (info y) →
  address (info y) mod 16 = 0 → size (info y) mod 16 = 0 → encrypted (info x) = esp_flash_encryption_enabled →
  1 ≤ spi_flash_mmap_get_free_pages (fl s) < 2 ^ 16 → 0 ≤ so → 0 ≤ do → 0 ≤ sz → 3 * n + 2 < Z.of_nat fuel →
  wp (esp_partition_copy fuel (Some pd) do (Some ps) so sz) s (λ r s', ∃ f, s' = with_flash f s ∧
    flash_eq_but (flash_chip (info y)) (address (info y)) (size (info y)) (fl s) f ∧
    (r = ESP_OK → ldbytes (seen (encrypted (info y)) f (flash_chip (info y))) (address (info y) + do) n =
                  ldbytes (seen (encrypted (info x)) (fl s) (flash_chip (info x))) (address (info x) + so) n)).
Proof.
  intros n Hx Hy Hne Hokx Hoky Hap Hal1 Hal2 Henc Hpages Hso Hdo Hsz Hfuel.
  pose proof (ok_end _ Hokx). pose proof (ok_address _ Hokx). pose proof (ok_end _ Hoky). pose proof (ok_address _ Hoky).
  assert (∀ r, r ≠ ESP_OK → ∃ f, s = with_flash f s ∧
    flash_eq_but (flash_chip (info y)) (address (info y)) (size (info y)) (fl s) f ∧
    (r = ESP_OK → ldbytes (seen (encrypted (info y)) f (flash_chip (info y))) (address (info y) + do) n =
                  ldbytes (seen (encrypted (info x)) (fl s) (flash_chip (info x))) (address (info x) + so) n)) as Herr.
  { intros r Hr. exists (fl s). split_and!; [by rewrite with_flash_id|apply flash_eq_but_refl|done]. }
  unfold esp_partition_copy. rewrite decide_False by (intros [?|[?|?]]; congruence).
  apply wp_bind. eapply wp_the_partition; [done|]. apply wp_bind. eapply wp_the_partition; [done|].
  destruct (Z.ltb_spec (size (info x)) so); cbn [orb]; [by apply wp_ret, Herr|].
  destruct (Z.ltb_spec (size (info y)) do); cbn [orb]; [by apply wp_ret, Herr|].
  destruct (Z.eqb_spec (flash_chip (info x)) esp_flash_default_chip) as [Hdef|]; cbn [negb]; [|by apply wp_ret, Herr].
  rewrite !u32_small by lia. fold n. cbv zeta.
  destruct (Z.ltb_spec (size (info x)) (so + n)); cbn [orb]; [by apply wp_ret, Herr|].
  destruct (Z.ltb_spec (size (info y)) (do + n)); cbn [orb]; [by apply wp_ret, Herr|].
  set (es := if sz =? SIZE_MAX then size (info y) - do else sz).
  assert (n ≤ ALIGN_UP es SPI_FLASH_SEC_SIZE) as Hes.
  { assert (n ≤ es < 2 ^ 31) by (subst n es; destruct (sz =? SIZE_MAX); lia).
    etrans; [|apply align_up_ge]; [lia|]. split; [|lia]. subst n es. destruct (sz =? SIZE_MAX); lia. }
  assert (0 ≤ n) as Hn by (subst n; destruct (sz =? SIZE_MAX); lia). clearbody n es.
  apply wp_bind. eapply wp_part_erase; [done|done|done|lia|].
  intros e f1 (Hbut & Hin & Hbl). destruct (inside y do _ _ _ Hdo Hbut Hin) as [Hbut1 _].
  case_decide as He; [|apply wp_ret; exists f1; split_and!; done]. wp_steps. cbn [fl with_flash].
  destruct Hbut1 as [Hpg Hbut1]. rewrite Hpg.
  assert (copied x y so do n s 0 f1) as Hcop.
  { split_and!; [by split|lia|]. rewrite Z.add_0_r, Z.sub_0_r. destruct (Hbl He) as (_ & _ & _ & _ & Hb).
    eapply all_blank_sub; [exact Hb|lia..]. }
  assert (∀ f, copied x y so do n s n f → ldbytes (seen (encrypted (info y)) f (flash_chip (info y))) (address (info y) + do) n =
                  ldbytes (seen (encrypted (info x)) (fl s) (flash_chip (info x))) (address (info x) + so) n) as Hend.
  { intros f (_ & Hb & _). apply ldbytes_pointwise. intros i Hi. rewrite Hb by done. unfold source. by rewrite Henc, Hdef. }
  destruct (Z.ltb_spec 0 n).
  - eapply wp_mono.
    { eapply (wp_iter _ (copying x y so do n s)); [|exists n, 0, f1|]; cycle 1.
      - split_and!; [by rewrite Z.sub_diag, !Z.add_0_r|lia..|done|by rewrite Z.sub_diag|rewrite Z2Nat.id; [reflexivity|lia]].
      - lia.
      - intros m l t Hl. eapply copy_step_ok; [exact Hx|exact Hy|done..|]; done. }
    cbv beta. intros r s' (f & -> & Hbutf & Hcopf). exists f. split_and!; [done|done|auto].
  - wp_steps. exists f1. split_and!; [done|done|]. intros _. apply Hend. assert (n = 0) as -> by lia. done.
Qed.

End access.
