(* ===== verification/PartitionTable.v ===== *)
(** * Partitions: the table in flash

    The table as bytes, [esp_partition_table_verify] of
    [components/bootloader_support/src/flash_partitions.c], and what the bootloader and
    the application make of a table: a table that was written for a list of entries is
    accepted and gives those entries; any other content leaves nothing behind. *)
From Stdlib Require Import ZArith Lia.
From stdpp Require Import base numbers option list gmap sets.
From S2P Require Import Prelude Flash Partition PartitionSpec.

Open Scope Z_scope.

Definition PART_TYPE_END : Z := 0xff.
Definition PART_SUBTYPE_END : Z := 0xff.
Definition ESP_PARTITION_TABLE_MAX_ENTRIES : Z := ESP_PARTITION_TABLE_MAX_LEN / sizeof_info.

Section verify.
Context {F : Type} `{!FlashDriver F} (md5 : list Z → list Z).

(** The loop from entry [num_parts] on, [n] entries being left; the result is the error
    and the number of partitions. *)
Fixpoint table_verify_loop (n : nat) (table : mem) (a num_parts md5_found : Z) : esp_err_t * Z :=
  match n with
  | O => (ESP_ERR_INVALID_STATE, 0)
  | S n' =>
      let part := decode_info table (a + num_parts * sizeof_info) in
      if magic part =? ESP_PARTITION_MAGIC then
        if (chip_size esp_flash_default_chip <? pos_offset part)
           || (chip_size esp_flash_default_chip <? u32 (pos_offset part + pos_size part)) then (ESP_ERR_INVALID_SIZE, 0)
        else table_verify_loop n' table a (num_parts + 1) md5_found
      else if magic part =? ESP_PARTITION_MAGIC_MD5 then
        if negb (md5_found =? 0) then (ESP_ERR_INVALID_STATE, 0)
        else if decide (ldbytes table (a + num_parts * sizeof_info + ESP_PARTITION_MD5_OFFSET) 16
                        = md5 (ldbytes table a (num_parts * sizeof_info)))
        then table_verify_loop n' table a (num_parts + 1) 1
        else (ESP_ERR_INVALID_STATE, 0)
      else if negb (num_parts =? 0) && (magic part =? 0xFFFF) && (info_type part =? PART_TYPE_END)
              && (info_subtype part =? PART_SUBTYPE_END)
      then (ESP_OK, num_parts - md5_found)
      else (ESP_ERR_INVALID_STATE, 0)
  end.

Definition esp_partition_table_verify (table : mem) (a : Z) : esp_err_t * Z :=
  table_verify_loop (Z.to_nat ESP_PARTITION_TABLE_MAX_ENTRIES) table a 0 0.
End verify.

(** ** The table as bytes *)

Definition le16 (z : Z) : list Z := [z mod 2 ^ 8; z / 2 ^ 8 mod 2 ^ 8].
Definition le32 (z : Z) : list Z := [z mod 2 ^ 8; z / 2 ^ 8 mod 2 ^ 8; z / 2 ^ 16 mod 2 ^ 8; z / 2 ^ 24 mod 2 ^ 8].

Definition encode_info (e : esp_partition_info_t) : list Z :=
  le16 (magic e) ++ [info_type e; info_subtype e] ++ le32 (pos_offset e) ++ le32 (pos_size e) ++ info_label e ++ le32 (flags e).

Definition encode_all (es : list esp_partition_info_t) : list Z := es ≫= encode_info.

(** The entry with the digest, and the end of the table. *)
Definition md5_entry (digest : list Z) : list Z := [0xEB; 0xEB] ++ replicate 14 0xFF ++ digest.
Definition end_entry : list Z := replicate 32 0xFF.

Definition table_of (md5 : list Z → list Z) (es : list esp_partition_info_t) : list Z :=
  encode_all es ++ md5_entry (md5 (encode_all es)) ++ end_entry.

Record info_ok (e : esp_partition_info_t) : Prop := {
  ok_magic : magic e = ESP_PARTITION_MAGIC;
  ok_type : 0 ≤ info_type e < 2 ^ 8;
  ok_subtype : 0 ≤ info_subtype e < 2 ^ 8;
  ok_pos : 0 ≤ pos_offset e < 2 ^ 32;
  ok_sz : 0 ≤ pos_size e < 2 ^ 32;
  ok_label : length (info_label e) = 16%nat;
  ok_flags : 0 ≤ flags e < 2 ^ 32
}.

Lemma length_encode_info e : info_ok e → zlen (encode_info e) = 32.
Proof. intros H. unfold zlen, encode_info. rewrite !length_app, (ok_label e H). done. Qed.

(** The memory holds a list of bytes at an address. *)
Definition holds (m : mem) (a : Z) (bs : list Z) : Prop := ∀ i, 0 ≤ i < zlen bs → m (a + i) = bs !!! Z.to_nat i.

Lemma holds_app m a bs bs' : holds m a (bs ++ bs') ↔ holds m a bs ∧ holds m (a + zlen bs) bs'.
Proof.
  unfold holds. rewrite zlen_app. pose proof (zlen_nonneg bs). split.
  - intros H1. split; intros i Hi.
    + rewrite H1 by (pose proof (zlen_nonneg bs'); lia). apply lookup_total_app_l. unfold zlen in Hi. lia.
    + rewrite <- Z.add_assoc, H1 by lia. rewrite lookup_total_app_r by (unfold zlen; lia). f_equal. unfold zlen. lia.
  - intros [H1 H2] i Hi. destruct (decide (i < zlen bs)).
    + rewrite H1 by lia. symmetry. apply lookup_total_app_l. unfold zlen in *. lia.
    + replace (a + i) with (a + zlen bs + (i - zlen bs)) by lia. rewrite H2 by lia.
      rewrite lookup_total_app_r by (unfold zlen in *; lia). f_equal. unfold zlen. lia.
Qed.

Lemma holds_ldbytes m a bs : holds m a bs → ldbytes m a (zlen bs) = bs.
Proof. intros H. apply ldbytes_eq. exact H. Qed.

Lemma holds_cons m a b bs : holds m a (b :: bs) ↔ m a = b ∧ holds m (a + 1) bs.
Proof.
  change (b :: bs) with ([b] ++ bs). rewrite holds_app. apply and_iff_compat_r. unfold holds. split.
  - intros H. rewrite <- (Z.add_0_r a) at 1. rewrite H by (unfold zlen; cbn; lia). done.
  - intros <- i Hi. assert (i = 0) as -> by (unfold zlen in Hi; cbn in Hi; lia). by rewrite Z.add_0_r.
Qed.

Lemma holds_le32 m a z : 0 ≤ z < 2 ^ 32 → holds m a (le32 z) → ld32 m a = z.
Proof.
  intros Hz. unfold le32. rewrite !holds_cons, <- !Z.add_assoc. intros (H0 & H1 & H2 & H3 & _).
  unfold ld32. change (1 + 1) with 2 in *. change (1 + (1 + 1)) with 3 in *. change (1 + 2) with 3 in *. rewrite H0, H1, H2, H3.
  change (2 ^ 8) with 256. change (2 ^ 16) with 65536. change (2 ^ 24) with 16777216. change (2 ^ 32) with 4294967296 in Hz.
  Z.to_euclidean_division_equations. lia.
Qed.

(** Decoding gives back an encoded entry. *)
Lemma decode_encode_info m a e : info_ok e → holds m a (encode_info e) → decode_info m a = e.
Proof.
  intros [Hm Ht Hst Hp Hs Hlb Hf] H. unfold encode_info, le16 in H. cbn [app] in H.
  rewrite !holds_cons, !holds_app, <- !Z.add_assoc in H. change (1 + (1 + (1 + 1))) with 4 in H. change (1 + (1 + 1)) with 3 in H.
  change (1 + 1) with 2 in H. destruct H as (H0 & H1 & H2 & H3 & H4 & H8 & H12 & H28).
  change (4 + zlen (le32 (pos_offset e))) with 8 in *. change (8 + zlen (le32 (pos_size e))) with 12 in *.
  change (4 + (zlen (le32 (pos_offset e)) + zlen (le32 (pos_size e)))) with 12 in *.
  unfold decode_info. destruct e as [em et est ep es el ef]. cbn in *. f_equal.
  - rewrite H0, H1, Hm. done.
  - done.
  - done.
  - by apply holds_le32.
  - by apply holds_le32.
  - change 16 with (Z.of_nat 16). rewrite <- Hlb. by apply holds_ldbytes.
  - apply holds_le32; [done|]. match type of H28 with holds _ ?b _ => replace (a + 28) with b; [done|] end.
    unfold zlen. rewrite Hlb. cbn. lia.
Qed.

Lemma encode_all_cons e es : encode_all (e :: es) = encode_info e ++ encode_all es.
Proof. done. Qed.

Lemma zlen_encode_all es : Forall info_ok es → zlen (encode_all es) = 32 * zlen es.
Proof.
  induction 1 as [|e es He Hes IH]; [done|]. rewrite encode_all_cons, zlen_app, zlen_cons, length_encode_info by done. lia.
Qed.

Lemma decode_md5_entry m a digest : holds m a (md5_entry digest) → magic (decode_info m a) = ESP_PARTITION_MAGIC_MD5.
Proof. unfold md5_entry. cbn [app]. rewrite !holds_cons. intros (H0 & H1 & _). cbn. by rewrite H0, H1. Qed.

Lemma decode_md5_first m a digest rest :
  holds m a (encode_all [] ++ md5_entry digest ++ rest) → magic (decode_info m a) = ESP_PARTITION_MAGIC_MD5.
Proof. intros [Hh _]%(holds_app m a (md5_entry digest) rest). by eapply decode_md5_entry. Qed.

Lemma decode_end_entry m a :
  holds m a end_entry →
  magic (decode_info m a) = 0xFFFF ∧ info_type (decode_info m a) = PART_TYPE_END ∧ info_subtype (decode_info m a) = PART_SUBTYPE_END.
Proof.
  unfold end_entry. cbn [replicate]. rewrite !holds_cons, <- !Z.add_assoc. intros (H0 & H1 & H2 & H3 & _).
  change (1 + (1 + 1)) with 3 in *. change (1 + 1) with 2 in *. cbn. by rewrite H0, H1, H2, H3.
Qed.

Section table.
Context {F : Type} `{!FlashDriver F} (md5 : list Z → list Z).
Hypothesis md5_len : ∀ l, length (md5 l) = 16%nat.
Implicit Types (s : pstate F) (es : list esp_partition_info_t).

Lemma holds_md5 m a l : holds m a (md5_entry (md5 l)) → ldbytes m (a + ESP_PARTITION_MD5_OFFSET) 16 = md5 l.
Proof.
  intros Hm. unfold md5_entry in Hm. rewrite app_assoc in Hm. apply holds_app in Hm as [_ Hd]. apply holds_ldbytes in Hd.
  assert (zlen (md5 l) = 16) as Hl by (unfold zlen; by rewrite md5_len). rewrite Hl in Hd. exact Hd.
Qed.

(** ** Verification *)

Lemma verify_entries es rest table a k n :
  Forall info_ok es →
  Forall (λ e, pos_offset e + pos_size e ≤ chip_size esp_flash_default_chip < 2 ^ 32) es →
  0 ≤ k → holds table (a + k * 32) (encode_all es ++ rest) → (length es ≤ n)%nat →
  table_verify_loop md5 n table a k 0 = table_verify_loop md5 (n - length es) table a (k + zlen es) 0.
Proof.
  intros Hes. revert k n. induction Hes as [|e es He Hes IH]; intros k n Hfit Hk Hh Hn.
  { by rewrite Nat.sub_0_r, Z.add_0_r. }
  apply Forall_cons in Hfit as [Hfe Hfit]. rewrite encode_all_cons, <- app_assoc in Hh. apply holds_app in Hh as [Hhe Hh].
  rewrite length_encode_info in Hh by done. destruct n as [|n]; [cbn in Hn; lia|]. cbn [table_verify_loop].
  unfold sizeof_info. rewrite (decode_encode_info _ _ e) by done. rewrite (ok_magic e He), Z.eqb_refl.
  pose proof (ok_pos e He). pose proof (ok_sz e He).
  rewrite u32_small, !(proj2 (Z.ltb_ge _ _)) by lia. cbn [orb]. rewrite IH; [|done|lia| |cbn in Hn; lia].
  - cbn [length]. rewrite Nat.sub_succ. f_equal. rewrite zlen_cons. lia.
  - replace (a + (k + 1) * 32) with (a + k * 32 + 32) by lia. done.
Qed.

Lemma table_verified es table a :
  Forall info_ok es → Forall (λ e, pos_offset e + pos_size e ≤ chip_size esp_flash_default_chip < 2 ^ 32) es →
  (length es + 2 ≤ Z.to_nat ESP_PARTITION_TABLE_MAX_ENTRIES)%nat → holds table a (table_of md5 es) →
  esp_partition_table_verify md5 table a = (ESP_OK, zlen es).
Proof.
  intros Hes Hfit Hn Hh. unfold esp_partition_table_verify. set (max := Z.to_nat _) in *.
  rewrite (verify_entries es (md5_entry (md5 (encode_all es)) ++ end_entry)); [|done|done|lia| |lia].
  2: { by rewrite Z.add_0_r. }
  unfold table_of in Hh. rewrite !holds_app, zlen_encode_all in Hh by done. destruct Hh as (Hall & Hmd5 & Hend).
  rewrite Z.add_0_l. destruct (max - length es)%nat as [|[|r]] eqn:Hr; [lia|lia|]. cbn [table_verify_loop].
  unfold sizeof_info. replace (zlen es * 32) with (32 * zlen es) by lia.
  rewrite (decode_md5_entry _ _ _ Hmd5). change (ESP_PARTITION_MAGIC_MD5 =? ESP_PARTITION_MAGIC) with false.
  rewrite Z.eqb_refl. cbn [negb]. rewrite decide_True.
  2: { rewrite (holds_md5 _ _ _ Hmd5). rewrite <- (zlen_encode_all es) by done.
       by rewrite (holds_ldbytes _ _ _ Hall). }
  replace ((zlen es + 1) * 32) with (32 * zlen es + 32) by lia. rewrite Z.add_assoc.
  replace (zlen (md5_entry (md5 (encode_all es)))) with 32 in Hend.
  2: { unfold md5_entry, zlen. rewrite !length_app, md5_len. done. }
  destruct (decode_end_entry _ _ Hend) as (-> & -> & ->).
  change (0xFFFF =? ESP_PARTITION_MAGIC) with false. change (0xFFFF =? ESP_PARTITION_MAGIC_MD5) with false.
  rewrite (proj2 (Z.eqb_neq (zlen es + 1) 0)) by (pose proof (zlen_nonneg es); lia). rewrite !Z.eqb_refl. cbn [negb andb].
  f_equal. lia.
Qed.

(** ** Loading *)

(** The heap has grown by exactly the new items. *)
Definition grown s (new : list Z) s' : Prop :=
  s_partition_list s' = s_partition_list s ∧ iters s' = iters s ∧ fl s' = fl s ∧ NoDup new ∧
  (∀ p, p ∈ new → next_ptr s ≤ p < next_ptr s' ∧ is_Some (heap s' !! p)) ∧
  (∀ p, p ∉ new → heap s' !! p = heap s !! p).

Lemma grown_refl s : grown s [] s.
Proof. split_and!; try done; [constructor|set_solver]. Qed.

Lemma load_loop_ok n m a items hashed s :
  (∀ p x, heap s !! p = Some x → p < next_ptr s) →
  wp (load_loop n m a items hashed) s (λ '(err, md5_part, items', hashed') s', ∃ new,
    items' = items ++ new ∧ grown s new s' ∧ next_ptr s ≤ next_ptr s' ∧
    (Forall (λ b, b = true) (allocs s) → err = ESP_OK) ∧
    (∀ es rest, Forall info_ok es → (length es < n)%nat →
       holds m a (encode_all es ++ md5_entry (md5 (hashed ++ encode_all es)) ++ rest) → err = ESP_OK →
       md5_part = Some (a + 32 * zlen es) ∧ hashed' = hashed ++ encode_all es ∧
       Forall2 (λ p e, heap s' !! p = Some (mkItem (part_of_info e) false)) new es)).
Proof.
  revert a items hashed s. induction n as [|n IH]; intros a items hashed s Hfresh; cbn [load_loop].
  { wp_steps. exists []. split_and!; [by rewrite app_nil_r|apply grown_refl|lia|done|intros; lia]. }
  destruct (Z.eqb_spec (magic (decode_info m a)) ESP_PARTITION_MAGIC_MD5) as [Hmd5|Hmd5].
  { wp_steps. exists []. split_and!; [by rewrite app_nil_r|apply grown_refl|lia|done|].
    intros es rest Hes Hlen Hh _. destruct es as [|e es]; [by rewrite Z.add_0_r, app_nil_r|].
    exfalso. apply Forall_cons in Hes as [He _]. rewrite encode_all_cons, <- app_assoc in Hh. apply holds_app in Hh as [Hhe _].
    rewrite (decode_encode_info _ _ e) in Hmd5 by done. rewrite (ok_magic e He) in Hmd5. done. }
  destruct (Z.eqb_spec (magic (decode_info m a)) ESP_PARTITION_MAGIC) as [Hmag|Hmag]; cbn [negb].
  2: { wp_steps. exists []. split_and!; [by rewrite app_nil_r|apply grown_refl|lia|done|].
       intros es rest Hes Hlen Hh _. exfalso. destruct es as [|e es].
       - apply Hmd5. by eapply decode_md5_first.
       - apply Forall_cons in Hes as [He _]. rewrite encode_all_cons, <- app_assoc in Hh. apply holds_app in Hh as [Hhe _].
         apply Hmag. rewrite (decode_encode_info _ _ e) by done. apply He. }
  apply wp_bind, wp_alloc; intros Hal.
  2: { wp_steps. exists []. split_and!; [by rewrite app_nil_r| |cbn; lia| |done].
       { split_and!; try done; [constructor|set_solver]. }
       intros Hall. exfalso. destruct (allocs s) as [|b l]; [done|]. apply Forall_cons in Hall as [-> _]. done. }
  wp_steps. eapply wp_mono; [apply IH|].
  { cbn. intros p x [[<- _]|[_ Hx]]%lookup_insert_Some; [lia|]. apply Hfresh in Hx. lia. }
  intros [[[err md5_part] items'] hashed'] s' (new & -> & Hgrown & Hnext & Hall & Htab). cbn in Hnext.
  destruct Hgrown as (Hl & Hi & Hfl & Hnd & Hin & Hout). cbn in Hl, Hi, Hfl, Hin, Hout, Hall.
  assert (next_ptr s ∉ new) as Hnot. { intros Hn. destruct (Hin _ Hn). lia. }
  exists (next_ptr s :: new). split_and!.
  - by rewrite <- app_assoc.
  - split_and!; try done; [by constructor| |].
    + intros p [->|Hp]%elem_of_cons; [|destruct (Hin p Hp); split; [lia|done]].
      split; [lia|]. rewrite Hout by done. rewrite lookup_insert_eq. done.
    + intros p [Hp Hp']%not_elem_of_cons. rewrite Hout by done. by rewrite lookup_insert_ne.
  - lia.
  - intros Ha. apply Hall. destruct (allocs s); [done|]. by apply Forall_cons in Ha as [_ Ha].
  - intros es rest Hes Hlen Hh Herr. destruct es as [|e es].
    { exfalso. apply Hmd5. by eapply decode_md5_first. }
    apply Forall_cons in Hes as [He Hes]. rewrite encode_all_cons, <- app_assoc in Hh. apply holds_app in Hh as [Hhe Hh].
    assert (ldbytes m a sizeof_info = encode_info e) as Hld.
    { unfold sizeof_info. rewrite <- (length_encode_info e) by done. by apply holds_ldbytes. }
    rewrite Hld in Htab. rewrite length_encode_info in Hh by done.
    destruct (Htab es rest) as (-> & -> & Hf2); [done|cbn in Hlen; lia| |done|].
    { rewrite <- app_assoc. done. }
    split_and!; [f_equal; rewrite zlen_cons; unfold sizeof_info; lia|by rewrite <- app_assoc|].
    constructor; [|done]. rewrite Hout by done. rewrite lookup_insert_eq. by rewrite (decode_encode_info _ _ e).
Qed.

Lemma wp_free_items l s (Q : unit → pstate F → Prop) :
  NoDup l → (∀ p, p ∈ l → is_Some (heap s !! p)) →
  (∀ h, (∀ p, p ∈ l → h !! p = None) → (∀ p, p ∉ l → h !! p = heap s !! p) → Q () (with_heap h s)) → wp (free_items l) s Q.
Proof.
  revert s. induction l as [|p l IH]; intros s Hnd Hl HQ; cbn [free_items].
  { wp_steps. replace s with (with_heap (heap s) s) by by destruct s. apply HQ; set_solver. }
  apply NoDup_cons in Hnd as [Hp Hnd]. destruct (Hl p) as [x Hx]; [set_solver|]. unfold free_item. wp_steps.
  eapply wp_deref_item; [done|]. wp_steps. apply IH; [done| |].
  - intros q Hq. cbn. rewrite lookup_delete_ne by set_solver. apply Hl. set_solver.
  - intros h Hin Hout. cbn in *. apply (HQ h).
    + intros q [->|Hq]%elem_of_cons; [|auto]. rewrite Hout by done. apply lookup_delete_eq.
    + intros q [Hqp Hq]%not_elem_of_cons. rewrite Hout by done. by rewrite lookup_delete_ne.
Qed.

Context `{!FlashLaws F}.

(** C33: A partition table written for a list of entries is accepted by the bootloader's
    check with that number of partitions, and loading it gives exactly those partitions
    in order, unless the mapping fails or memory runs out.  Whatever the flash holds,
    loading either succeeds or leaves the memory and the empty list as they were. *)
Theorem partition_table_roundtrip es s :
  Forall info_ok es → (length es + 2 ≤ Z.to_nat ESP_PARTITION_TABLE_MAX_ENTRIES)%nat →
  Forall (λ e, pos_offset e + pos_size e ≤ chip_size esp_flash_default_chip < 2 ^ 32) es →
  s_partition_list s = [] → (∀ p x, heap s !! p = Some x → p < next_ptr s) →
  let table := seen esp_flash_encryption_enabled (fl s) esp_flash_default_chip in
  wp (ensure_partitions_loaded md5) s (λ r s', iters s' = iters s ∧ flash_eq (fl s) (fl s') ∧
    (r ≠ ESP_OK → s_partition_list s' = [] ∧ heap s' = heap s) ∧
    (holds table ESP_PARTITION_TABLE_OFFSET (table_of md5 es) →
       esp_partition_table_verify md5 table ESP_PARTITION_TABLE_OFFSET = (ESP_OK, zlen es) ∧
       (r = ESP_OK → Forall2 (λ p e, heap s' !! p = Some (mkItem (part_of_info e) false)) (s_partition_list s') es) ∧
       (Forall (λ b, b = true) (allocs s) → (∃ m f, spi_flash_mmap 0 SPI_FLASH_SEC_SIZE (fl s) = Done f (ESP_OK, m)) → r = ESP_OK))).
Proof.
  intros Hes Hlen Hfit Hempty Hfresh table. unfold ensure_partitions_loaded. wp_steps. rewrite Hempty.
  unfold load_partitions. change (Z.ldiff ESP_PARTITION_TABLE_OFFSET (MMU_PAGE_SIZE - 1)) with 0. cbv zeta.
  pose proof (table_verified es table ESP_PARTITION_TABLE_OFFSET Hes Hfit Hlen) as Hver.
  change (Z.to_nat ESP_PARTITION_TABLE_MAX_ENTRIES) with 96%nat in Hlen.
  apply wp_bind, wp_on_flash.
  assert (wp (spi_flash_mmap 0 SPI_FLASH_SEC_SIZE) (fl s) (λ r f, flash_eq (fl s) f ∧
    ((∃ m f, spi_flash_mmap 0 SPI_FLASH_SEC_SIZE (fl s) = Done f (ESP_OK, m)) → r.1 = ESP_OK) ∧
    (r.1 = ESP_OK → ∀ x, 0 ≤ x < MMU_PAGE_SIZE → r.2 x = table x))) as Hmap.
  { pose proof (mmap_law (fl s) 0 SPI_FLASH_SEC_SIZE (λ r f, flash_eq (fl s) f ∧
      (r.1 = ESP_OK → ∀ x, 0 ≤ x < MMU_PAGE_SIZE → r.2 x = table x))) as Hm.
    unfold wp in *. destruct (spi_flash_mmap 0 SPI_FLASH_SEC_SIZE (fl s)) as [f r| | |];
      [|by apply Hm; intros ? ? ? ? Hx; split; [|intros Hr x Hr'; apply Hx; [done|exact Hr']]..].
    destruct Hm as [Hm1 Hm2]; [|split_and!; [done|by intros (m' & f' & [= -> ->])|done]].
    intros ? ? ? ? Hx. split; [done|]. intros Hr x Hr'. apply Hx; [done|exact Hr']. }
  eapply wp_mono; [exact Hmap|]. clear Hmap. intros [err m] f (Hf & Hok & Hm). cbn [fst snd] in *. cbv beta iota.
  case_decide as Herr; [|wp_steps; split_and!; [done|done|done|]; intros Hh; split_and!; [auto|done|]; intros _ Hex; by apply Hok].
  specialize (Hm Herr). apply wp_bind. eapply wp_mono; [by apply load_loop_ok|].
  intros [[[err2 md5_part] items] hashed] s2 (new & -> & Hgrown & _ & Hall & Htab). cbn [app] in *.
  destruct Hgrown as (Hl & Hi & Hfl & Hnd & Hin & Hout). cbn in Hl, Hi, Hfl, Hall, Hout.
  change (0 + (ESP_PARTITION_TABLE_OFFSET - 0)) with ESP_PARTITION_TABLE_OFFSET in *.
  set (err3 := match md5_part with None => ESP_ERR_NOT_FOUND | Some _ => _ end).
  assert (holds table ESP_PARTITION_TABLE_OFFSET (table_of md5 es) → err2 = ESP_OK →
    err3 = ESP_OK ∧ Forall2 (λ p e, heap s2 !! p = Some (mkItem (part_of_info e) false)) new es) as Hgood.
  { intros Hh ->. assert (holds m ESP_PARTITION_TABLE_OFFSET (table_of md5 es)) as Hh'.
    { intros i Hi'. rewrite Hm; [by apply Hh|].
      assert (zlen (table_of md5 es) ≤ ESP_PARTITION_TABLE_MAX_LEN).
      { unfold table_of. rewrite !zlen_app, zlen_encode_all by done. unfold md5_entry, end_entry, zlen.
        rewrite !length_app, !length_replicate, md5_len. cbn [length]. unfold ESP_PARTITION_TABLE_MAX_LEN. lia. }
      unfold ESP_PARTITION_TABLE_OFFSET, MMU_PAGE_SIZE, ESP_PARTITION_TABLE_MAX_LEN in *. lia. }
    destruct (Htab es end_entry) as (-> & -> & Hf2); [done|change (Z.to_nat (SPI_FLASH_SEC_SIZE / sizeof_info)) with 128%nat; lia|done|done|].
    split; [|done]. subst err3.
    rewrite decide_True; [done|]. unfold table_of in Hh'. apply holds_app in Hh' as [_ Hh']. rewrite zlen_encode_all in Hh' by done.
    apply holds_app in Hh' as [Hd _]. symmetry. by apply holds_md5. }
  assert (err2 ≠ ESP_OK → err3 ≠ ESP_OK) as Hbad by (subst err3; intros ?; destruct md5_part; [case_decide; done|done]).
  case_decide as Herr3.
  - wp_steps. cbn. split_and!; [done|by rewrite Hfl|done|]. intros Hh. split_and!; [auto| |done]. intros _. apply Hgood; [done|].
    destruct (decide (err2 = ESP_OK)); [done|]. by apply Hbad in Herr3.
  - apply wp_bind, wp_free_items; [done|by intros p Hp; apply Hin|]. intros h Hhin Hhout. wp_steps. cbn.
    split_and!; [done|by rewrite Hfl|intros _; split; [congruence|]|].
    + apply map_eq. intros p. destruct (decide (p ∈ new)) as [Hp|Hp].
      * rewrite Hhin by done. destruct (heap s !! p) eqn:E; [|done]. apply Hfresh in E. destruct (Hin p Hp) as [Hr _].
        cbn in Hr. lia.
      * rewrite Hhout by done. by apply Hout.
    + intros Hh. split_and!; [auto|done|]. intros Ha _. destruct (Hgood Hh (Hall Ha)) as [? _]. done.
Qed.

End table.
