(* ===== verification/PartitionRegion.v ===== *)
(** * Partitions: regions, a limit of registration, witnesses

    The check of a region of flash against the read-only partitions, cases in which the
    code does not do what it should, and the instances of the theorems on a NOR flash. *)
From Stdlib Require Import ZArith Lia.
From stdpp Require Import base numbers option list gmap sets.
From S2P Require Import Prelude Flash Partition PartitionSpec PartitionAccess PartitionTable.

Open Scope Z_scope.

Section region.
Context {F : Type} `{!FlashDriver F} (md5 : list Z → list Z).
Implicit Types (s : pstate F) (p q it : Z) (l : list Z) (i : esp_partition_iterator_opaque_t).

(** The region overlaps a read-only partition. *)
Definition blocks (h : gmap Z partition_list_item_t) (addr sz p : Z) : bool :=
  match h !! p with
  | Some x => readonly (info x) && (address (info x) <? addr + sz) && (addr <? address (info x) + size (info x))
  | None => false
  end.

Definition any_query : esp_partition_iterator_opaque_t := query ESP_PARTITION_TYPE_ANY ESP_PARTITION_SUBTYPE_ANY None.

Lemma selected_any h l i :
  it_type i = ESP_PARTITION_TYPE_ANY → it_subtype i = ESP_PARTITION_SUBTYPE_ANY → it_label i = None →
  (∀ p, p ∈ l → is_Some (h !! p)) → selected h i l = l.
Proof.
  intros Ht Hst Hlb Hl. apply filter_all, Forall_forall. intros p Hp. destruct (Hl p Hp) as [x Hx]. unfold sel, matches.
  by rewrite Hx, Ht, Hst, Hlb.
Qed.

Lemma wp_writable_loop s it i l q addr sz fuel :
  wf s → iter_at s it i l → it_info i = Some q → q ∈ s_partition_list s →
  it_type i = ESP_PARTITION_TYPE_ANY → it_subtype i = ESP_PARTITION_SUBTYPE_ANY → it_label i = None →
  0 ≤ addr → 0 < sz → addr + sz < 2 ^ 32 → (S (length l) < fuel)%nat →
  wp (writable_loop fuel addr sz (Some it)) s (λ b s',
    b = negb (existsb (blocks (heap s) addr sz) (q :: l)) ∧
    s_partition_list s' = s_partition_list s ∧ heap s' = heap s ∧ fl s' = fl s ∧
    if (b : bool) then iters s' = delete it (iters s) else is_Some (iters s' !! it)).
Proof.
  revert s i l q. induction fuel as [|fuel IH]; intros s i l q Hwf Hit Hq Hql Ht Hst Hlb Ha Hs He Hlen; [lia|]. cbn [writable_loop].
  pose proof Hit as (Hi & _ & l0 & Hl). wp_steps. eapply wp_get_iter; [done|]. rewrite Hq.
  destruct (wf_items s Hwf q Hql) as (y & Hy & Hok). wp_steps. eapply wp_the_partition; [done|].
  pose proof (ok_address _ Hok). pose proof (ok_size _ Hok). pose proof (ok_end _ Hok). rewrite !u32_small by lia.
  assert (readonly (info y)
    && (((address (info y) <=? addr) && (addr <? address (info y) + size (info y)))
        || ((addr <? address (info y)) && (address (info y) <? addr + sz))) = blocks (heap s) addr sz q) as ->.
  { unfold blocks. rewrite Hy. destruct (readonly (info y)); [|done]. cbn [andb].
    destruct (Z.leb_spec (address (info y)) addr), (Z.ltb_spec addr (address (info y) + size (info y))),
      (Z.ltb_spec addr (address (info y))), (Z.ltb_spec (address (info y)) (addr + sz)); cbn; lia || done. }
  cbn [existsb]. destruct (blocks (heap s) addr sz q) eqn:Hb; cbn [orb negb].
  - wp_steps. split_and!; try done.
  - assert (selected (heap s) i l = l) as Hsel.
    { apply selected_any; [done..|]. intros p Hp. destruct (wf_items s Hwf p) as (x & -> & _); [rewrite Hl; set_solver|done]. }
    wp_steps. eapply wp_next; [done|done|..].
    + rewrite Hsel. intros ->. destruct fuel; [lia|]. cbn [writable_loop]. wp_steps. cbn. split_and!; done.
    + intros q' l1 l' Hq' Hl1. rewrite Hsel in Hq'. assert (l = q' :: l') as ->.
      { rewrite Hq'. f_equal. apply selected_any; [done..|]. intros p Hp.
        destruct (wf_items s Hwf p) as (x & -> & _); [rewrite Hl, Hl1; set_solver|done]. }
      eapply wp_mono.
      { eapply (IH _ (moved i l' q') l' q'); try done.
        - by eapply wf_insert_iter.
        - split_and!; [by apply lookup_insert_eq|done|]. exists (l0 ++ [q']). cbn. rewrite Hl. by rewrite <- app_assoc.
        - cbn. rewrite Hl. set_solver.
        - cbn in Hlen. lia. }
      cbn. intros b s' (-> & ? & ? & ? & Hit'). split_and!; try done. case_match; [|done].
      rewrite Hit'. by rewrite delete_insert_eq.
Qed.

(** [esp_partition_is_flash_region_writable] refuses a region exactly when it
    overlaps a read-only partition.  When it does, it leaves the iterator allocated. *)
Theorem region_writable_checks s addr sz :
  wf s → s_partition_list s ≠ [] → head (allocs s) ≠ Some false → 0 ≤ addr → 0 < sz → addr + sz < 2 ^ 32 →
  wp (esp_partition_is_flash_region_writable md5 addr sz) s (λ b s',
    b = negb (existsb (blocks (heap s) addr sz) (s_partition_list s)) ∧
    s_partition_list s' = s_partition_list s ∧ heap s' = heap s ∧ fl s' = fl s ∧
    if (b : bool) then iters s' = iters s else iters s !! next_ptr s = None ∧ is_Some (iters s' !! next_ptr s)).
Proof.
  intros Hwf Hne Hok Ha Hs He. unfold esp_partition_is_flash_region_writable.
  assert (iters s !! next_ptr s = None) as Hfresh.
  { destruct (iters s !! next_ptr s) eqn:E; [|done]. apply (wf_iters s Hwf) in E. lia. }
  assert (∀ l, (∀ p, p ∈ l → p ∈ s_partition_list s) → selected (heap s) any_query l = l) as Hall.
  { intros l Hl. apply selected_any; [done..|]. intros p Hp. destruct (wf_items s Hwf p) as (x & -> & _); [by apply Hl|done]. }
  apply wp_bind, wp_find; [done|done|done|]. intros s1 ->. fold any_query. split_and!; [done| |].
  - rewrite Hall by done. done.
  - intros q l0 l' Hq Hl. rewrite Hall in Hq by done. rewrite Hall in Hq by (rewrite Hl; set_solver).
    wp_steps. cbn [s_partition_list with_iters]. set (s1 := with_iters _ _).
    eapply wp_mono; [eapply (wp_writable_loop s1 (next_ptr s) (mkIter _ _ None (head l') (Some q)) l' q)|]; try done.
    + destruct (wf_bump s (tail (allocs s)) Hwf) as [W1 W2 W3 W4 W5]. split; cbn; [done|done|done| |done].
      intros p' i [[<- _]|[_ Hp']]%lookup_insert_Some; [lia|by eapply W4].
    + split_and!; [by apply lookup_insert_eq|done|]. exists [q]. done.
    + cbn. rewrite Hq. set_solver.
    + rewrite Hq. cbn. lia.
    + subst s1. cbn [heap with_iters iters s_partition_list fl]. rewrite <- Hq. intros b s' (-> & Hl' & Hh & Hfl & Hit).
      split_and!; [done..|]. destruct (negb _); [|done]. rewrite Hit. by rewrite delete_insert_id.
Qed.

(** The sum of offset and size wraps around in the check of the size: on a chip
    without partitions a range that ends beyond 4 GiB is accepted. *)
Theorem register_wraps s c offset sz lbl t st :
  wf s → s_partition_list s ≠ [] → head (allocs s) ≠ Some false →
  (∀ p x, p ∈ s_partition_list s → heap s !! p = Some x → flash_chip (info x) ≠ c) →
  2 ^ 32 ≤ offset + sz → u32 (offset + sz) ≤ chip_size c < 2 ^ 32 →
  wp (esp_partition_register_external md5 (Some c) offset sz lbl t st) s (λ r s',
    r = (ESP_OK, Some (next_ptr s)) ∧ ∃ x, heap s' !! next_ptr s = Some x ∧ chip_size (flash_chip (info x)) < address (info x) + size (info x)).
Proof.
  intros Hwf Hne Hok Hc Hwrap Hfit. unfold esp_partition_register_external. cbn [default from_option id].
  rewrite (proj2 (Z.ltb_ge _ _)) by lia. apply wp_bind, wp_loaded; [done|]. rewrite decide_True by done.
  assert (next_ptr s ∉ s_partition_list s) as Hnew.
  { intros Hin. destruct (wf_items s Hwf _ Hin) as (x & Hx & _). apply (wf_heap s Hwf) in Hx. lia. }
  apply wp_bind, wp_alloc; [|done]. intros _. wp_steps. cbn [s_partition_list with_heap].
  match goal with |- wp (overlaps_some _ _ _ _) ?st _ => set (s1 := st) end.
  assert (∀ l, (∀ p, p ∈ l → p ∈ s_partition_list s) → overlaps_some c offset sz l s1 = Done s1 false) as Hov.
  { induction l as [|p l IH]; intros Hl; [done|]. destruct (wf_items s Hwf p) as (x & Hx & _); [apply Hl; set_solver|].
    cbn. unfold mbind, M_bind, deref. subst s1. cbn. rewrite lookup_insert_ne by (intros E; apply Hnew; rewrite E; apply Hl; set_solver).
    rewrite Hx. rewrite (proj2 (Z.eqb_neq _ _)) by (apply (Hc p x); [apply Hl; set_solver|done]). cbn. apply IH. set_solver. }
  unfold wp at 1. rewrite Hov by done. wp_steps. subst s1. cbn. split; [done|]. rewrite lookup_insert_eq.
  eexists. split; [done|]. cbn. lia.
Qed.

End region.

(** ** A NOR flash with three partitions *)

Definition item1 : partition_list_item_t := mkItem (mkPart 0 ESP_PARTITION_TYPE_APP 0x10 0x10000 0x10000 4096 [97] true false) false.
Definition item2 : partition_list_item_t := mkItem (mkPart 0 ESP_PARTITION_TYPE_APP 0x11 0x20000 0x10000 4096 [98] true false) false.
Definition item3 : partition_list_item_t := mkItem (mkPart 0 ESP_PARTITION_TYPE_DATA 0x82 0x30000 0x10000 4096 [] false true) false.
Definition example_heap : gmap Z partition_list_item_t := {[ 1 := item1; 2 := item2; 3 := item3 ]}.

Definition example_parts (pages : Z) : pstate nor :=
  mkPS [1; 2; 3] example_heap ∅ 4 [] (mkNor (λ _ _, 0xFF) [] pages).

Lemma example_wf pages : wf (example_parts pages).
Proof.
  assert (∀ p x, heap (example_parts pages) !! p = Some x → (p = 1 ∨ p = 2 ∨ p = 3) ∧ part_ok (info x)) as Hall.
  { intros p x Hx. cbn in Hx. unfold example_heap in Hx. rewrite !lookup_insert_Some, lookup_singleton_Some in Hx.
    destruct Hx as [[<- <-]|[_ [[<- <-]|[_ [<- <-]]]]]; (split; [lia|]); split; cbn; (lia || done). }
  split.
  - cbn. by apply (bool_decide_unpack _).
  - cbn [s_partition_list example_parts]. intros p Hp. rewrite !elem_of_cons in Hp.
    destruct Hp as [->|[->|[->|Hp%elem_of_nil]]]; [..|done]; (eexists; split; [reflexivity|split; cbn; (lia || done)]).
  - intros p x Hx. destruct (Hall p x Hx) as [Hp _]. cbn. lia.
  - by intros p i Hi.
  - intros p q x y _ _ Hpq Hx Hy Hc. cbn in Hx, Hy. unfold example_heap in Hx, Hy. rewrite !lookup_insert_Some, lookup_singleton_Some in Hx, Hy.
    destruct Hx as [[<- <-]|[_ [[<- <-]|[_ [<- <-]]]]], Hy as [[<- <-]|[_ [[<- <-]|[_ [<- <-]]]]]; cbn; lia.
Qed.

Definition example_md5 (l : list Z) : list Z := replicate 16 (u8 (foldr Z.add 0 l)).

Lemma partition_enumeration_witness :
  wp (it ← esp_partition_find example_md5 ESP_PARTITION_TYPE_APP ESP_PARTITION_SUBTYPE_ANY None; collect 5 it) (example_parts 4)
    (λ r s', r = [1; 2] ∧ iters s' = ∅).
Proof.
  eapply wp_mono; [apply (partition_enumeration example_md5 (example_parts 4)); [apply example_wf|done..]|].
  cbv beta. intros r s' (-> & _ & _ & -> & _). done.
Defined.

Lemma partition_verify_registered_witness :
  wp (esp_partition_verify example_md5 (Some 2)) (example_parts 4) (λ r s', r = Some 2).
Proof.
  eapply wp_mono; [apply (partition_verify_registered example_md5 (example_parts 4) 2 item2); [apply example_wf|cbn; set_solver|reflexivity|done|done]|].
  cbv beta. intros r s' (-> & _). done.
Defined.

Lemma partition_register_wf_witness :
  wp (esp_partition_register_external example_md5 None 0x2F000 0x2000 [99] 0x40 0) (example_parts 4)
    (λ r s', r.1 = ESP_ERR_INVALID_ARG ∧ s_partition_list s' = [1; 2; 3]).
Proof.
  eapply wp_mono; [apply (partition_register_wf example_md5 (example_parts 4) None 0x2F000 0x2000 [99] 0x40 0); [apply example_wf|done|lia|lia|lia|done]|].
  cbv beta. intros r s' (_ & _ & _ & H). exact (conj (proj1 H) (proj1 (proj2 H))).
Defined.

Lemma partition_access_confined_witness :
  wp (run_accesses 1 [AErase 0 4096; AWrite 16 (replicate 16 7); ARead 0x10000 1]) (example_parts 4) (λ _ s', ∃ f,
    s' = with_flash f (example_parts 4) ∧ flash_eq_but 0 0x10000 0x10000 (fl (example_parts 4)) f ∧
    (false = true → flash_eq (fl (example_parts 4)) f)).
Proof.
  apply (partition_access_confined 1 item1 [AErase 0 4096; AWrite 16 (replicate 16 7); ARead 0x10000 1] (example_parts 4)); [reflexivity|split; cbn; (lia || done)|].
  repeat constructor; try lia; cbn; unfold is_byte; lia.
Defined.

Lemma partition_write_read_witness :
  wp (e ← esp_partition_erase_range (Some 1) 0 4096;
      w ← esp_partition_write (Some 1) 16 (replicate 16 7);
      r ← esp_partition_read (Some 1) 16 16; mret (e, w, r)) (example_parts 4)
    (λ '(e, w, r) _, e = ESP_OK → w = ESP_OK → r.1 = ESP_OK → r.2 = replicate 16 7).
Proof.
  apply (partition_write_read 1 item1 0 4096 16 (replicate 16 7) (example_parts 4)); [reflexivity|split; cbn; (lia || done)|lia|lia|lia|unfold zlen; cbn; lia|].
  repeat constructor; unfold is_byte; lia.
Defined.

Lemma partition_copy_copies_witness :
  wp (esp_partition_copy 200 (Some 2) 0 (Some 1) 0 48) (example_parts 4) (λ r s', ∃ f, s' = with_flash f (example_parts 4) ∧
    flash_eq_but 0 0x20000 0x10000 (fl (example_parts 4)) f ∧
    (r = ESP_OK → ldbytes (seen true f 0) (0x20000 + 0) 48 = ldbytes (seen true (fl (example_parts 4)) 0) (0x10000 + 0) 48)).
Proof.
  apply (partition_copy_copies 200 1 2 item1 item2 0 0 48 (example_parts 4));
    [reflexivity|reflexivity|done|split; cbn; (lia || done)|split; cbn; (lia || done)| |done..|cbn; lia|lia|lia|lia|cbn; lia].
  intros _. cbn. lia.
Defined.

Lemma region_writable_checks_witness :
  wp (esp_partition_is_flash_region_writable example_md5 0x2FFF0 0x20) (example_parts 4) (λ b s',
    b = false ∧ iters (example_parts 4) !! 4 = None ∧ is_Some (iters s' !! 4)).
Proof.
  eapply wp_mono; [apply (region_writable_checks example_md5 (example_parts 4) 0x2FFF0 0x20); [apply example_wf|done|done|lia|lia|lia]|].
  cbv beta. intros b s' (Hb & _ & _ & _ & Hit). vm_compute in Hb. subst b. exact (conj eq_refl Hit).
Defined.

Lemma register_wraps_witness :
  wp (esp_partition_register_external example_md5 (Some 1) 0xFFFFF000 0x2000 [99] 0x40 0) (example_parts 4) (λ r s',
    r = (ESP_OK, Some 4) ∧ ∃ x, heap s' !! 4 = Some x ∧ 0x400000 < address (info x) + size (info x)).
Proof.
  eapply wp_mono; [apply (register_wraps example_md5 (example_parts 4) 1 0xFFFFF000 0x2000 [99] 0x40 0);
    [apply example_wf|done|done| |lia|split; vm_compute; congruence]|cbv beta; intros r s' H; exact H].
  cbn [s_partition_list example_parts]. intros p x Hp Hx. rewrite !elem_of_cons in Hp.
  destruct Hp as [->|[->|[->|Hp%elem_of_nil]]]; [..|done]; injection Hx as <-; done.
Defined.

(** A flash that holds the table of one entry. *)
Definition example_entry : esp_partition_info_t := mkInfo ESP_PARTITION_MAGIC 0 0x10 0x10000 0x10000 (replicate 16 97) 0.
Definition table_parts : pstate nor :=
  mkPS [] ∅ ∅ 1 []
    (mkNor (λ _ a, Z.lxor (table_of example_md5 [example_entry] !!! Z.to_nat (a - ESP_PARTITION_TABLE_OFFSET)) nor_mask) [] 4).

Lemma partition_table_roundtrip_witness :
  wp (ensure_partitions_loaded example_md5) table_parts (λ r s', r = ESP_OK ∧
    Forall2 (λ p e, heap s' !! p = Some (mkItem (part_of_info e) false)) (s_partition_list s') [example_entry]).
Proof.
  eapply wp_mono; [apply (partition_table_roundtrip example_md5 (λ l, length_replicate _ _) [example_entry] table_parts)|].
  - repeat constructor; cbn; lia.
  - change (Z.to_nat ESP_PARTITION_TABLE_MAX_ENTRIES) with 96%nat. cbn. lia.
  - repeat constructor; cbn; lia.
  - done.
  - by intros p x Hx.
  - cbv beta. intros r s' (_ & _ & _ & H). destruct H as (_ & H1 & H2).
    + intros i Hi. assert (i < 96) as Hi' by exact (proj2 Hi). cbn [fl table_parts seen].
      assert (∃ k, i = Z.of_nat k ∧ (k < 96)%nat) as (k & -> & Hk) by (exists (Z.to_nat i); lia).
      do 96 (destruct k as [|k]; [reflexivity|]). lia.
    + assert (r = ESP_OK) as -> by (apply H2; [constructor|by eexists _, _]). split; [done|]. by apply H1.
Defined.
