(* ===== verification/OtaWrite.v ===== *)
(** * OTA updates: writing an image

    Model of the functions of [components/app_update/esp_ota_ops.c] that write an image
    into a partition, with rollback, over the partitions of [Partition] and the otadata
    of [Ota].  The open updates are the list of their entries, the newest first; a
    handle stands for the first entry that has it. *)
From Stdlib Require Import ZArith Lia.
From stdpp Require Import base numbers option list gmap.
From S2P Require Import Prelude Ota Flash Partition PartitionTable.

Open Scope Z_scope.

Definition OTA_SIZE_UNKNOWN : Z := 0xffffffff.
Definition OTA_WITH_SEQUENTIAL_WRITES : Z := 0xfffffffe.
Definition ESP_ERR_OTA_PARTITION_CONFLICT : esp_err_t := ESP_ERR_OTHER 0x1501.
Definition ESP_ERR_OTA_ROLLBACK_INVALID_STATE : esp_err_t := ESP_ERR_OTHER 0x1506.
Definition ESP_IMAGE_HEADER_MAGIC : Z := 0xE9.

(** The partitions are pointers to the structures of [Partition]. *)
Record ota_ops_entry_t : Type := mkOps {
  ops_handle : Z; staging : Z; final : Z; finalize_with_copy : bool; need_erase : bool; wrote_size : Z;
  partial_bytes : Z; ota_resumption : bool; partial_data : list Z
}.

Definition with_wrote (n : Z) (it : ota_ops_entry_t) : ota_ops_entry_t :=
  mkOps (ops_handle it) (staging it) (final it) (finalize_with_copy it) (need_erase it) n (partial_bytes it)
    (ota_resumption it) (partial_data it).
Definition with_partial (n : Z) (bs : list Z) (it : ota_ops_entry_t) : ota_ops_entry_t :=
  mkOps (ops_handle it) (staging it) (final it) (finalize_with_copy it) (need_erase it) (wrote_size it) n
    (ota_resumption it) bs.
Definition with_final (p : Z) (copy : bool) (it : ota_ops_entry_t) : ota_ops_entry_t :=
  mkOps (ops_handle it) (staging it) p copy (need_erase it) (wrote_size it) (partial_bytes it)
    (ota_resumption it) (partial_data it).
Definition with_need_erase (b : bool) (it : ota_ops_entry_t) : ota_ops_entry_t :=
  mkOps (ops_handle it) (staging it) (final it) (finalize_with_copy it) b (wrote_size it) (partial_bytes it)
    (ota_resumption it) (partial_data it).
Definition with_resumption (n : Z) (it : ota_ops_entry_t) : ota_ops_entry_t :=
  mkOps (ops_handle it) (staging it) (final it) (finalize_with_copy it) (need_erase it) n (partial_bytes it)
    true (partial_data it).

Definition get_ota_ops_entry (handle : Z) (l : list ota_ops_entry_t) : option ota_ops_entry_t :=
  head (filter (λ it, ops_handle it = handle) l).

(** The list with the first entry of a handle replaced, or removed. *)
Fixpoint put_first (handle : Z) (new : list ota_ops_entry_t) (l : list ota_ops_entry_t) : list ota_ops_entry_t :=
  match l with
  | [] => []
  | it :: l' => if ops_handle it =? handle then new ++ l' else it :: put_first handle new l'
  end.

Section ota_write.
Context {F : Type} `{!FlashDriver F}.

(** [md5] is the digest of the ROM, [E] what surrounds otadata, [image_verify] whether
    [esp_image_verify] accepts what is at a place of flash, [phys_offs] where the running
    code is and [PRIMARY_BOOTLOADER_OFFSET] that of the build. *)
Context (md5 : list Z → list Z) (E : ota_env) (image_verify : F → Z → Z → bool) (phys_offs : option Z)
  (PRIMARY_BOOTLOADER_OFFSET : Z).

(** The state: the list of updates, the last handle, the cached running partition, the
    settings of the image code and of the flash, the partitions with their flash, and
    otadata.  The two sectors of the otadata partition are only in [otasel], as the entries
    they hold: an operation on them shows there and not in the bytes of [parts]. *)
Record wstate : Type := mkWS {
  s_ota_ops_entries : list ota_ops_entry_t;
  s_ota_ops_last_handle : Z;
  curr_partition : option Z;
  bootloader_partition_offset : Z;
  dangerous_write_protection : bool;
  parts : pstate F;
  otasel : ota_flash
}.
Definition OW (A : Type) : Type := M wstate A.

Definition with_entries (l : list ota_ops_entry_t) (s : wstate) : wstate :=
  mkWS l (s_ota_ops_last_handle s) (curr_partition s) (bootloader_partition_offset s) (dangerous_write_protection s) (parts s) (otasel s).
Definition with_parts (t : pstate F) (s : wstate) : wstate :=
  mkWS (s_ota_ops_entries s) (s_ota_ops_last_handle s) (curr_partition s) (bootloader_partition_offset s) (dangerous_write_protection s) t (otasel s).
Definition with_sel (t : ota_flash) (s : wstate) : wstate :=
  mkWS (s_ota_ops_entries s) (s_ota_ops_last_handle s) (curr_partition s) (bootloader_partition_offset s) (dangerous_write_protection s) (parts s) t.

Definition on_parts {A : Type} (m : PT F A) : OW A := zoom parts with_parts m.
Definition on_sel {A : Type} (m : OT A) : OW A := zoom otasel with_sel m.

Definition esp_image_bootloader_offset_set (offset : Z) : OW unit :=
  modify (λ s, mkWS (s_ota_ops_entries s) (s_ota_ops_last_handle s) (curr_partition s) offset (dangerous_write_protection s) (parts s) (otasel s)).
Definition esp_flash_set_dangerous_write_protection (b : bool) : OW unit :=
  modify (λ s, mkWS (s_ota_ops_entries s) (s_ota_ops_last_handle s) (curr_partition s) (bootloader_partition_offset s) b (parts s) (otasel s)).

Definition put_entry (handle : Z) (it : ota_ops_entry_t) : OW unit :=
  modify (λ s, with_entries (put_first handle [it] (s_ota_ops_entries s)) s).
Definition remove_entry (handle : Z) : OW unit :=
  modify (λ s, with_entries (put_first handle [] (s_ota_ops_entries s)) s).

Definition part_info (p : Z) : OW esp_partition_t := on_parts (the_partition (Some p)).

Definition is_ota_app (part : esp_partition_t) : bool := (type part =? ESP_PARTITION_TYPE_APP) && is_ota_partition (subtype part).

(** ** The running partition *)

Fixpoint running_loop (fuel : nat) (phys : Z) (it : option Z) : PT F Z :=
  match fuel with
  | O => λ _, OutOfFuel
  | S fuel' =>
      match it with
      | None => λ _, AssertFailed
      | Some i =>
          p ← esp_partition_get it;
          match p with
          | None => fault
          | Some q =>
              item ← deref q;
              if (address (info item) <=? phys) && (phys <? u32 (address (info item) + size (info item)))
              then esp_partition_iterator_release it;; mret q
              else it ← esp_partition_next i; running_loop fuel' phys it
          end
      end
  end.

Definition esp_ota_get_running_partition : OW Z :=
  s ← get;
  match curr_partition s with
  | Some p => mret p
  | None =>
      match phys_offs with
      | None => λ _, AssertFailed
      | Some phys =>
          p ← on_parts (it ← esp_partition_find md5 ESP_PARTITION_TYPE_APP ESP_PARTITION_SUBTYPE_ANY None;
                        match it with
                        | None => λ _, AssertFailed
                        | Some _ => t ← get; running_loop (S (S (length (s_partition_list t)))) phys it
                        end);
          modify (λ s, mkWS (s_ota_ops_entries s) (s_ota_ops_last_handle s) (Some p) (bootloader_partition_offset s)
                         (dangerous_write_protection s) (parts s) (otasel s));;
          mret p
      end
  end.

(** ** Opening an update *)

(** The handle of the new entry. *)
Definition esp_ota_init_entry (partition : Z) : OW (option ota_ops_entry_t) :=
  mem ← on_parts alloc;
  match mem with
  | None => mret None
  | Some _ =>
      s ← get;
      let h := u32 (s_ota_ops_last_handle s + 1) in
      let it := mkOps h partition partition false false 0 0 false (replicate 16 0) in
      modify (λ s, mkWS (it :: s_ota_ops_entries s) h (curr_partition s) (bootloader_partition_offset s)
                     (dangerous_write_protection s) (parts s) (otasel s));;
      mret (Some it)
  end.

(** The settings for an update of the bootloader or of the partition table, whose image
    is at [addr]. *)
Definition prepare_special (part : esp_partition_t) (addr : Z) : OW unit :=
  whenM (type part =? ESP_PARTITION_TYPE_BOOTLOADER) (esp_image_bootloader_offset_set addr);;
  whenM ((type part =? ESP_PARTITION_TYPE_BOOTLOADER) || (type part =? ESP_PARTITION_TYPE_PARTITION_TABLE))
    (esp_flash_set_dangerous_write_protection false).

(** The checks of [esp_ota_begin] on the partition of an application. *)
Definition begin_checks (p : Z) (part : esp_partition_t) : OW esp_err_t :=
  if type part =? ESP_PARTITION_TYPE_APP then
    if negb (is_ota_app part) then mret ESP_ERR_INVALID_ARG
    else
      running ← esp_ota_get_running_partition;
      if p =? running then mret ESP_ERR_OTA_PARTITION_CONFLICT
      else
        running_part ← part_info running;
        st ← on_sel (esp_ota_get_state_partition E (Some (subtype running_part)) true);
        if decide (st = (ESP_OK, ESP_OTA_IMG_PENDING_VERIFY)) then mret ESP_ERR_OTA_ROLLBACK_INVALID_STATE
        else mret ESP_OK
  else mret ESP_OK.

(** [out] is whether [out_handle] is not null; the result is the error and what is stored
    there. *)
Definition esp_ota_begin (partition : option Z) (image_size : Z) (out : bool) : OW (esp_err_t * option Z) :=
  if negb out then mret (ESP_ERR_INVALID_ARG, None)
  else
    match partition with
    | None => mret (ESP_ERR_INVALID_ARG, None)
    | Some p =>
        partition ← on_parts (esp_partition_verify md5 (Some p));
        match partition with
        | None => mret (ESP_ERR_NOT_FOUND, None)
        | Some p =>
            part ← part_info p;
            err ← begin_checks p part;
            if decide (err = ESP_OK) then
              new_entry ← esp_ota_init_entry p;
              match new_entry with
              | None => mret (ESP_ERR_NO_MEM, None)
              | Some it =>
                  let h := ops_handle it in
                  put_entry h (with_need_erase (image_size =? OTA_WITH_SEQUENTIAL_WRITES) it);;
                  prepare_special part (address part);;
                  err ← (if negb (image_size =? OTA_WITH_SEQUENTIAL_WRITES) then
                           let sz := if (image_size =? 0) || (image_size =? OTA_SIZE_UNKNOWN) then size part
                                     else ALIGN_UP image_size (erase_size part) in
                           on_parts (esp_partition_erase_range (Some p) 0 sz)
                         else mret ESP_OK);
                  if decide (err = ESP_OK) then
                    (if is_ota_app part then _ ← on_sel (esp_ota_invalidate_inactive_ota_data_slot E); mret () else mret ());;
                    mret (ESP_OK, Some h)
                  else mret (err, Some h)
              end
            else mret (err, None)
        end
    end.

Definition esp_ota_resume (partition : option Z) (sz image_offset : Z) (out : bool) : OW (esp_err_t * option Z) :=
  if negb out then mret (ESP_ERR_INVALID_ARG, None)
  else
    match partition with
    | None => mret (ESP_ERR_INVALID_ARG, None)
    | Some p =>
        part ← part_info p;
        if size part <? image_offset then mret (ESP_ERR_INVALID_ARG, None)
        else
          partition ← on_parts (esp_partition_verify md5 (Some p));
          match partition with
          | None => mret (ESP_ERR_NOT_FOUND, None)
          | Some p =>
              part ← part_info p;
              if (type part =? ESP_PARTITION_TYPE_APP) && negb (is_ota_app part) then mret (ESP_ERR_INVALID_ARG, None)
              else
                running ← esp_ota_get_running_partition;
                if p =? running then mret (ESP_ERR_OTA_PARTITION_CONFLICT, None)
                else
                  new_entry ← esp_ota_init_entry p;
                  match new_entry with
                  | None => mret (ESP_ERR_NO_MEM, None)
                  | Some it =>
                      prepare_special part (address part);;
                      put_entry (ops_handle it)
                        (with_need_erase (sz =? OTA_WITH_SEQUENTIAL_WRITES) (with_resumption image_offset it));;
                      mret (ESP_OK, Some (ops_handle it))
                  end
          end
    end.

Definition esp_ota_set_final_partition (handle : Z) (final_part : option Z) (copy : bool) : OW esp_err_t :=
  s ← get;
  match final_part with
  | None => mret ESP_ERR_INVALID_ARG
  | Some f =>
      match get_ota_ops_entry handle (s_ota_ops_entries s) with
      | None => mret ESP_ERR_NOT_FOUND
      | Some it =>
          if negb (ota_resumption it) && negb (wrote_size it =? 0) then mret ESP_ERR_INVALID_STATE
          else if negb (staging it =? f) then
            verified ← on_parts (esp_partition_verify md5 (Some f));
            match verified with
            | None => mret ESP_ERR_NOT_FOUND
            | Some f =>
                put_entry handle (with_final f copy it);;
                fpart ← part_info f;
                spart ← part_info (staging it);
                prepare_special fpart (address spart);;
                mret ESP_OK
            end
          else mret ESP_OK
      end
  end.

(** ** Writing *)

(** Erase the sectors that a write of [sz] bytes reaches first. *)
Definition erase_ahead (it : ota_ops_entry_t) (sz : Z) : OW esp_err_t :=
  part ← part_info (staging it);
  let es := erase_size part in
  let first_sector := wrote_size it / es in
  let last_sector := u32 (u32 (wrote_size it + sz) - 1) / es in
  if wrote_size it mod es =? 0 then
    on_parts (esp_partition_erase_range (Some (staging it)) (wrote_size it) (u32 (u32 (u32 (last_sector - first_sector) + 1) * es)))
  else if negb (first_sector =? last_sector) then
    on_parts (esp_partition_erase_range (Some (staging it)) (u32 (u32 (first_sector + 1) * es)) (u32 (u32 (last_sector - first_sector) * es)))
  else mret ESP_OK.

(** The first bytes of an image; a table whose first piece has one byte is read beyond
    its end. *)
Definition check_magic (it : ota_ops_entry_t) (data : list Z) : OW esp_err_t :=
  if (wrote_size it =? 0) && (partial_bytes it =? 0) then
    part ← part_info (final it);
    if (type part =? ESP_PARTITION_TYPE_APP) || (type part =? ESP_PARTITION_TYPE_BOOTLOADER) then
      mret (if data !!! 0%nat =? ESP_IMAGE_HEADER_MAGIC then ESP_OK else ESP_ERR_OTA_VALIDATE_FAILED)
    else if type part =? ESP_PARTITION_TYPE_PARTITION_TABLE then
      match data with
      | b0 :: b1 :: _ => mret (if b0 + 2 ^ 8 * b1 =? ESP_PARTITION_MAGIC then ESP_OK else ESP_ERR_OTA_VALIDATE_FAILED)
      | _ => fault
      end
    else mret ESP_OK
  else mret ESP_OK.

Definition write_out (it : ota_ops_entry_t) (data : list Z) : OW esp_err_t :=
  ret ← on_parts (esp_partition_write (Some (staging it)) (wrote_size it) data);
  if decide (ret = ESP_OK) then put_entry (ops_handle it) (with_wrote (u32 (wrote_size it + zlen data)) it);; mret ESP_OK
  else mret ret.

(** Fill the buffer of a partial block: the result of the call if it ends here, or the
    entry and the data that are left. *)
Definition fill_partial (it : ota_ops_entry_t) (data : list Z) : OW (esp_err_t + ota_ops_entry_t * list Z) :=
  if negb (partial_bytes it =? 0) then
    let copy_len := Z.min (16 - partial_bytes it) (zlen data) in
    let it := with_partial (u8 (partial_bytes it + copy_len))
                (list_inserts (Z.to_nat (partial_bytes it)) (take (Z.to_nat copy_len) data) (partial_data it)) it in
    put_entry (ops_handle it) it;;
    if negb (partial_bytes it =? 16) then mret (inl ESP_OK)
    else
      ret ← on_parts (esp_partition_write (Some (staging it)) (wrote_size it) (partial_data it));
      if decide (ret = ESP_OK) then
        let it := with_wrote (u32 (wrote_size it + 16)) (with_partial 0 (replicate 16 0xFF) it) in
        put_entry (ops_handle it) it;;
        mret (inr (it, drop (Z.to_nat copy_len) data))
      else mret (inl ret)
  else mret (inr (it, data)).

(** With flash encryption only whole blocks of 16 bytes are written. *)
Definition write_blocks (it : ota_ops_entry_t) (data : list Z) : OW esp_err_t :=
  r ← fill_partial it data;
  match r with
  | inl ret => mret ret
  | inr (it, data) =>
      let rest := zlen data mod 16 in
      let sz := zlen data - rest in
      let it := with_partial rest (if negb (rest =? 0) then list_inserts 0 (drop (Z.to_nat sz) data) (partial_data it)
                                   else partial_data it) it in
      put_entry (ops_handle it) it;;
      write_out it (take (Z.to_nat sz) data)
  end.

Definition esp_ota_write (handle : Z) (data : option (list Z)) : OW esp_err_t :=
  match data with
  | None => mret ESP_ERR_INVALID_ARG
  | Some [] => mret ESP_OK
  | Some data =>
      s ← get;
      match get_ota_ops_entry handle (s_ota_ops_entries s) with
      | None => mret ESP_ERR_INVALID_ARG
      | Some it =>
          ret ← (if need_erase it then erase_ahead it (zlen data) else mret ESP_OK);
          if decide (ret = ESP_OK) then
            ret ← check_magic it data;
            if decide (ret = ESP_OK) then
              if esp_flash_encryption_enabled then write_blocks it data else write_out it data
            else mret ret
          else mret ret
      end
  end.

Definition esp_ota_write_with_offset (handle : Z) (data : option (list Z)) (offset : Z) : OW esp_err_t :=
  match data with
  | None => mret ESP_ERR_INVALID_ARG
  | Some data =>
      s ← get;
      match get_ota_ops_entry handle (s_ota_ops_entries s) with
      | None => mret ESP_ERR_INVALID_ARG
      | Some it =>
          assertM (negb (need_erase it));;
          if esp_flash_encryption_enabled && negb (zlen data mod 16 =? 0) then mret ESP_ERR_INVALID_ARG
          else
            ret ← on_parts (esp_partition_write (Some (staging it)) offset data);
            if decide (ret = ESP_OK) then put_entry handle (with_wrote (u32 (wrote_size it + zlen data)) it);; mret ESP_OK
            else mret ret
      end
  end.

(** ** Closing an update *)

Definition esp_ota_abort (handle : Z) : OW esp_err_t :=
  s ← get;
  match get_ota_ops_entry handle (s_ota_ops_entries s) with
  | None => mret ESP_ERR_NOT_FOUND
  | Some _ => remove_entry handle;; mret ESP_OK
  end.

Definition ota_verify_partition (it : ota_ops_entry_t) : OW esp_err_t :=
  fpart ← part_info (final it);
  if (type fpart =? ESP_PARTITION_TYPE_APP) || (type fpart =? ESP_PARTITION_TYPE_BOOTLOADER) then
    spart ← part_info (staging it);
    s ← get;
    mret (if image_verify (fl (parts s)) (address spart) (size spart) then ESP_OK else ESP_ERR_OTA_VALIDATE_FAILED)
  else if type fpart =? ESP_PARTITION_TYPE_PARTITION_TABLE then
    r ← on_parts (esp_partition_mmap (Some (staging it)) 0 ESP_PARTITION_TABLE_MAX_LEN);
    if decide (r.1 = ESP_OK) then
      mret (if decide ((esp_partition_table_verify md5 r.2 0).1 = ESP_OK) then ESP_OK else ESP_ERR_OTA_VALIDATE_FAILED)
    else mret r.1
  else mret ESP_OK.

(** Write the last block, padded, when one is buffered: the entry or an error. *)
Definition flush_partial (it : ota_ops_entry_t) : OW (esp_err_t + ota_ops_entry_t) :=
  if 0 <? partial_bytes it then
    ret ← on_parts (esp_partition_write (Some (staging it)) (wrote_size it) (partial_data it));
    if decide (ret = ESP_OK) then mret (inr (with_wrote (u32 (wrote_size it + 16)) (with_partial 0 (partial_data it) it)))
    else mret (inl ESP_ERR_INVALID_STATE)
  else mret (inr it).

(** Everything of [esp_ota_end] before its clean-up. *)
Definition finish (it : ota_ops_entry_t) : OW esp_err_t :=
  if wrote_size it =? 0 then mret ESP_ERR_INVALID_ARG
  else
    r ← flush_partial it;
    match r with
    | inl err => mret err
    | inr it =>
        ret ← ota_verify_partition it;
        if decide (ret = ESP_OK) then
          if finalize_with_copy it then
            fpart ← part_info (final it);
            on_parts (esp_partition_copy (Z.to_nat (3 * size fpart + 3)) (Some (final it)) 0 (Some (staging it)) 0 (size fpart))
          else mret ESP_OK
        else mret ret
    end.

Definition esp_ota_end (handle : Z) : OW esp_err_t :=
  s ← get;
  match get_ota_ops_entry handle (s_ota_ops_entries s) with
  | None => mret ESP_ERR_NOT_FOUND
  | Some it =>
      ret ← finish it;
      fpart ← part_info (final it);
      whenM (type fpart =? ESP_PARTITION_TYPE_BOOTLOADER) (esp_image_bootloader_offset_set PRIMARY_BOOTLOADER_OFFSET);;
      remove_entry handle;;
      mret ret
  end.

End ota_write.
Arguments wstate F : clear implicits.
Arguments OW F A : clear implicits.
