(* ===== verification/OtaWriteSpec.v ===== *)
(** * OTA updates: the image that is written

    However an image is cut into pieces, an update that succeeds has put it into its
    partition; nothing outside of the partition changes, and the update leaves no entry
    behind. *)
From Stdlib Require Import ZArith Lia.
From stdpp Require Import base numbers option list gmap sets.
From S2P Require Import Prelude Ota OtaSpec Flash Partition PartitionSpec PartitionAccess PartitionTable OtaWrite.

Open Scope Z_scope.

(** ** The list of entries *)

Lemma get_put_first h it l : ops_handle it = h → is_Some (get_ota_ops_entry h l) → get_ota_ops_entry h (put_first h [it] l) = Some it.
Proof.
  unfold get_ota_ops_entry. intros Hh. induction l as [|a l IH]; [by intros []|]. cbn [put_first].
  destruct (Z.eqb_spec (ops_handle a) h) as [Ha|Ha]; [intros _; cbn [Datatypes.app]; by rewrite filter_cons_True|].
  rewrite !filter_cons_False by done. apply IH.
Qed.

Lemma put_first_twice h it new l : ops_handle it = h → put_first h new (put_first h [it] l) = put_first h new l.
Proof.
  intros Hh. induction l as [|a l IH]; [done|]. cbn [put_first]. destruct (Z.eqb_spec (ops_handle a) h) as [Ha|Ha]; cbn [put_first Datatypes.app].
  - rewrite Hh, Z.eqb_refl. done.
  - rewrite (proj2 (Z.eqb_neq _ _)) by done. by rewrite IH.
Qed.

Lemma put_first_same h it l : get_ota_ops_entry h l = Some it → put_first h [it] l = l.
Proof.
  unfold get_ota_ops_entry. induction l as [|a l IH]; [done|]. cbn [put_first]. destruct (Z.eqb_spec (ops_handle a) h) as [Ha|Ha].
  - rewrite filter_cons_True by done. cbn. by intros [= ->].
  - rewrite filter_cons_False by done. intros H. by rewrite IH.
Qed.

Lemma take_list_inserts {B} (i : nat) (k l : list B) :
  (i + length k ≤ length l)%nat → take (i + length k) (list_inserts i k l) = take i l ++ k.
Proof.
  intros Hl. apply list_eq. intros j. destruct (decide (j < i + length k)%nat) as [Hj|Hj].
  - rewrite lookup_take_lt by done. destruct (decide (j < i)%nat).
    + rewrite list_lookup_inserts_lt, lookup_app_l, lookup_take_lt by (rewrite ?length_take; lia). done.
    + rewrite list_lookup_inserts, lookup_app_r by (rewrite ?length_take; lia). f_equal. rewrite length_take. lia.
  - rewrite !lookup_ge_None_2; [done|rewrite length_app, length_take; lia|rewrite length_take, length_inserts; lia].
Qed.

(** ** Sectors *)

(** The end of the last sector that [n] bytes touch. *)
Definition sectors (n : Z) : Z := (n + 4095) / 4096 * 4096.

Lemma sectors_ge n : n ≤ sectors n < n + 4096.
Proof. unfold sectors. pose proof (Z.div_mod (n + 4095) 4096). pose proof (Z.mod_pos_bound (n + 4095) 4096). lia. Qed.

Lemma sectors_mod n : sectors n mod 4096 = 0.
Proof. unfold sectors. apply Z.mod_mul. lia. Qed.

Lemma sectors_mono n m : n ≤ m → sectors n ≤ sectors m.
Proof. intros. unfold sectors. assert ((n + 4095) / 4096 ≤ (m + 4095) / 4096) by (apply Z.div_le_mono; lia). lia. Qed.

Lemma sectors_last n : 0 < n → sectors n = ((n - 1) / 4096 + 1) * 4096.
Proof. intros. unfold sectors. f_equal. replace (n + 4095) with (n - 1 + 1 * 4096) by lia. by rewrite Z.div_add by lia. Qed.

(** A sector boundary passed by whole blocks is passed by the bytes. *)
Lemma sectors_blocks n m : n mod 16 = 0 → n < m + 16 → sectors n ≤ sectors m.
Proof.
  intros Hn Hm. unfold sectors. cut ((n + 4095) / 4096 ≤ (m + 4095) / 4096); [lia|].
  Z.to_euclidean_division_equations. nia.
Qed.

Lemma mod_4096_16 n : n mod 4096 = 0 → n mod 16 = 0.
Proof. intros. Z.to_euclidean_division_equations. lia. Qed.

Section spec.
Context {F : Type} `{!FlashDriver F, !FlashLaws F}.
Implicit Types (s : wstate F) (f : F) (it : ota_ops_entry_t) (l data image : list Z).

Lemma wp_on_parts {A} (m : PT F A) s (Q : A → wstate F → Prop) :
  wp m (parts s) (λ a t, Q a (with_parts t s)) → wp (on_parts m) s Q.
Proof. apply wp_zoom. Qed.

Lemma wp_on_sel {A} (m : OT A) s (Q : A → wstate F → Prop) :
  wp m (otasel s) (λ a t, Q a (with_sel t s)) → wp (on_sel m) s Q.
Proof. apply wp_zoom. Qed.

Lemma wp_part_info p x s (Q : esp_partition_t → wstate F → Prop) :
  heap (parts s) !! p = Some x → Q (info x) s → wp (part_info p) s Q.
Proof. intros Hp HQ. apply wp_on_parts. eapply wp_the_partition; [done|]. by destruct s. Qed.

(** ** What is stored in the partition *)

Section partition.
Context (p : Z) (x : partition_list_item_t) (cap : Z).
Context (Hok : part_ok (info x)) (Hes : erase_size (info x) = 4096) (Hal : address (info x) mod 16 = 0)
  (Henc : encrypted (info x) = esp_flash_encryption_enabled).
Notation A := (address (info x)).
Notation chip := (flash_chip (info x)).
Notation enc := (encrypted (info x)).

(** The partition starts with [l], followed by [k] blank bytes or by blank bytes to its
    end. *)
Definition stored f l (k : Z) : Prop :=
  ldbytes (seen enc f chip) A (zlen l) = l ∧
  ∀ i, A + zlen l ≤ i < A + zlen l + k → i < A + size (info x) → blank f chip i = true.

Lemma stored_sub f l k k' : k' ≤ k → stored f l k → stored f l k'.
Proof. intros Hk [Hl Hb]. split; [done|]. intros i Hi. apply Hb. lia. Qed.

Lemma stored_write f f' l k bs :
  zlen bs ≤ k → stored f l k → written enc x (zlen l) bs f f' ESP_OK → stored f' (l ++ bs) (k - zlen bs).
Proof.
  intros Hk [Hl Hb] (Hbut & _ & Hw). destruct (Hw eq_refl) as (Hin & _ & Hal16 & Hval). pose proof (zlen_nonneg l). pose proof (zlen_nonneg bs).
  split.
  - rewrite zlen_app, ldbytes_app by lia. f_equal.
    + rewrite <- Hl at 2. apply ldbytes_ext. intros i Hi. by eapply seen_but; [exact Hbut| |lia].
    + apply Hval. intros i Hi. apply Hb; lia.
  - rewrite zlen_app. intros i Hi Hi'. destruct Hbut as [_ Hbut]. destruct (Hbut chip i) as [_ ->]; [lia|]. apply Hb; lia.
Qed.

(** Erasing the sectors after the blank bytes. *)
Lemma stored_erase f f' l k n :
  0 ≤ k → (zlen l + k) mod 4096 = 0 → stored f l k → erased x (zlen l + k) n f f' ESP_OK → stored f' l (k + n).
Proof.
  intros Hk0 Hk [Hl Hb] (Hbut & _ & Hw). destruct (Hw eq_refl) as (_ & _ & _ & Hn & Hbl). pose proof (zlen_nonneg l). split.
  - rewrite <- Hl at 2. apply ldbytes_ext. intros i Hi. eapply seen_but; [exact Hbut| |lia].
    intros _. split; [|by apply mod_4096_16].
    rewrite Z.add_mod, Hal by lia. rewrite (mod_4096_16 _ Hk). done.
  - intros i Hi Hi'. destruct (decide (i < A + zlen l + k)).
    + destruct Hbut as [_ Hbut]. destruct (Hbut chip i) as [_ ->]; [lia|]. apply Hb; lia.
    + apply Hbl. lia.
Qed.

(** ** The entry of the update *)

Record ops_ok it : Prop := {
  ops_data : length (partial_data it) = 16%nat;
  ops_bytes : Forall is_byte (partial_data it);
  ops_wrote : 0 ≤ wrote_size it;
  ops_partial : 0 ≤ partial_bytes it ≤ 16;
  ops_staging : staging it = p;
  ops_final : final it = p;
  ops_copy : finalize_with_copy it = false
}.

Definition same_ops it it' : Prop :=
  ops_handle it' = ops_handle it ∧ need_erase it' = need_erase it.

(** The blank bytes after the first [w]. *)
Definition room it (w : Z) : Z := if need_erase it then sectors w - w else cap - w.

(** The entry and the partition hold the image so far. *)
Definition holds_image it image f : Prop :=
  ∃ l, wrote_size it = zlen l ∧ partial_bytes it < 16 ∧ (enc = false → partial_bytes it = 0) ∧ (enc = true → zlen l mod 16 = 0) ∧
    image = l ++ take (Z.to_nat (partial_bytes it)) (partial_data it) ∧ stored f l (room it (zlen l)).

Definition confined f f' : Prop := flash_eq_but chip A (size (info x)) f f'.

(** The state with another entry and flash. *)
Definition upd s it f : wstate F :=
  with_entries (put_first (ops_handle it) [it] (s_ota_ops_entries s)) (with_parts (with_flash f (parts s)) s).

Lemma upd_upd s it f it' f' : ops_handle it' = ops_handle it → upd (upd s it f) it' f' = upd s it' f'.
Proof. intros Hh. unfold upd, with_entries, with_parts. cbn. by rewrite Hh, put_first_twice. Qed.

Lemma upd_same s it : get_ota_ops_entry (ops_handle it) (s_ota_ops_entries s) = Some it → upd s it (fl (parts s)) = s.
Proof. intros Hit. unfold upd, with_entries, with_parts. cbn. rewrite put_first_same by done. destruct s as [? ? ? ? ? [] ?]. done. Qed.

Lemma same_ops_trans it1 it2 it3 : same_ops it1 it2 → same_ops it2 it3 → same_ops it1 it3.
Proof. intros [? ?] [? ?]. split; congruence. Qed.

Lemma confined_trans f1 f2 f3 : confined f1 f2 → confined f2 f3 → confined f1 f3.
Proof. apply flash_eq_but_trans. Qed.

Context (s : wstate F) (Hp : heap (parts s) !! p = Some x).

Lemma wp_put_ops it it' f (Q : () → wstate F → Prop) :
  ops_handle it' = ops_handle it → Q () (upd s it' f) → wp (put_entry (ops_handle it') it') (upd s it f) Q.
Proof.
  intros Hh HQ. apply wp_modify. rewrite <- (upd_upd s it f it' f) in HQ by done. exact HQ.
Qed.

Lemma wp_write it f w data (Q : esp_err_t → wstate F → Prop) :
  0 ≤ w → Forall is_byte data →
  (∀ r f', confined f f' → written enc x w data f f' r → Q r (upd s it f')) →
  wp (on_parts (esp_partition_write (Some p) w data)) (upd s it f) Q.
Proof.
  intros Hw Hb HQ. apply wp_on_parts. eapply wp_part_write; [done|done|done|done|]. intros r f' Hwr.
  apply (HQ r f'); [|done]. destruct Hwr as (Hbut & Hin & _). by destruct (inside x w (zlen data) f f').
Qed.

Lemma wp_erase it f off sz (Q : esp_err_t → wstate F → Prop) :
  0 ≤ off → 0 ≤ sz →
  (∀ r f', confined f f' → erased x off sz f f' r → Q r (upd s it f')) →
  wp (on_parts (esp_partition_erase_range (Some p) off sz)) (upd s it f) Q.
Proof.
  intros Hw Hb HQ. apply wp_on_parts. eapply wp_part_erase; [done|done|done|done|]. intros r f' Her.
  apply (HQ r f'); [|done]. destruct Her as (Hbut & Hin & _). by destruct (inside x off sz f f').
Qed.

(** ** Erasing ahead *)

Lemma wp_erase_ahead it f l sz (Q : esp_err_t → wstate F → Prop) :
  staging it = p → wrote_size it = zlen l → stored f l (sectors (zlen l) - zlen l) → 0 < sz → zlen l + sz < 2 ^ 31 →
  (∀ r f', confined f f' → (r = ESP_OK → stored f' l (sectors (zlen l + sz) - zlen l)) → Q r (upd s it f')) →
  wp (erase_ahead it sz) (upd s it f) Q.
Proof.
  intros Hst Hw Hf Hsz Hb HQ. pose proof (zlen_nonneg l) as Hl. unfold erase_ahead. rewrite Hst, Hw.
  apply wp_bind. eapply wp_part_info; [done|]. cbv zeta. rewrite Hes.
  pose proof (sectors_last (zlen l + sz) ltac:(lia)) as Hend. pose proof (sectors_ge (zlen l + sz)).
  rewrite (u32_small (zlen l + sz)), (u32_small (zlen l + sz - 1)) by lia. set (last := (zlen l + sz - 1) / 4096) in *.
  pose proof (Z.div_mod (zlen l) 4096 ltac:(lia)) as Hdm. pose proof (Z.mod_pos_bound (zlen l) 4096 ltac:(lia)).
  set (first := zlen l / 4096) in *. assert (first ≤ last) by (apply Z.div_le_mono; lia). assert (0 ≤ first) by (apply Z.div_pos; lia).
  destruct (Z.eqb_spec (zlen l mod 4096) 0) as [Hm|Hm].
  - assert (sectors (zlen l) = zlen l) as Hsec.
    { clear -Hm. unfold sectors. Z.to_euclidean_division_equations. lia. }
    rewrite (u32_small (last - first)), (u32_small (last - first + 1)), (u32_small ((last - first + 1) * 4096)) by lia.
    apply wp_erase; [lia|lia|]. intros r f' Hc Her. apply HQ; [done|]. intros ->.
    replace (sectors (zlen l + sz) - zlen l) with (0 + (last - first + 1) * 4096) by lia.
    eapply (stored_erase f f' l 0); [lia|by rewrite Z.add_0_r| |by rewrite Z.add_0_r].
    eapply stored_sub; [|exact Hf]. lia.
  - assert (sectors (zlen l) = (first + 1) * 4096) as Hsec.
    { subst first. clear -Hm. unfold sectors. Z.to_euclidean_division_equations. lia. }
    destruct (Z.eqb_spec first last) as [Hfl|Hfl]; cbn [negb].
    + apply wp_ret, HQ; [apply flash_eq_but_refl|]. intros _. eapply stored_sub; [|exact Hf]. lia.
    + rewrite (u32_small (first + 1)), (u32_small ((first + 1) * 4096)), (u32_small (last - first)), (u32_small ((last - first) * 4096)) by lia.
      apply wp_erase; [lia|lia|]. intros r f' Hc Her. apply HQ; [done|]. intros ->.
      replace (sectors (zlen l + sz) - zlen l) with (sectors (zlen l) - zlen l + (last - first) * 4096) by lia.
      eapply stored_erase; [lia| |exact Hf|].
      * replace (zlen l + (sectors (zlen l) - zlen l)) with (sectors (zlen l)) by lia. apply sectors_mod.
      * replace (zlen l + (sectors (zlen l) - zlen l)) with ((first + 1) * 4096) by lia. done.
Qed.

(** ** Writing *)

Lemma wp_write_out it f l k data (Q : esp_err_t → wstate F → Prop) :
  ops_ok it → wrote_size it = zlen l → stored f l k → zlen data ≤ k → (enc = true → zlen l mod 16 = 0) →
  zlen l + zlen data < 2 ^ 31 → Forall is_byte data →
  (∀ r it' f', confined f f' → ops_ok it' → same_ops it it' →
     (r = ESP_OK → it' = with_wrote (zlen (l ++ data)) it ∧ stored f' (l ++ data) (k - zlen data)) → Q r (upd s it' f')) →
  wp (write_out it data) (upd s it f) Q.
Proof.
  intros Hit Hw Hf Hk Hmod Hb Hbytes HQ. pose proof (zlen_nonneg l). pose proof (zlen_nonneg data). unfold write_out.
  rewrite (ops_staging it Hit), Hw. apply wp_bind, wp_write; [lia|done|]. intros r f' Hc Hwr. case_decide as Hr.
  - subst r. apply wp_bind. apply (wp_put_ops it (with_wrote _ it)); [done|]. apply wp_ret, HQ; [done| |done|].
    + destruct Hit. split; cbn; try done. apply u32_range.
    + intros _. rewrite u32_small, zlen_app by lia. split; [done|]. by eapply stored_write.
  - apply wp_ret, HQ; [done|done|done|done].
Qed.

Lemma take_16 it : ops_ok it → take 16 (partial_data it) = partial_data it.
Proof. intros Hit. apply take_ge. rewrite (ops_data it Hit). lia. Qed.

Lemma zlen_partial it n : ops_ok it → 0 ≤ n ≤ 16 → zlen (take (Z.to_nat n) (partial_data it)) = n.
Proof. intros Hit Hn. apply zlen_take. unfold zlen. rewrite (ops_data it Hit). lia. Qed.

(** Filling the buffer appends to it. *)
Lemma partial_append it n new :
  ops_ok it → 0 ≤ n → n + zlen new ≤ 16 →
  take (Z.to_nat (n + zlen new)) (list_inserts (Z.to_nat n) new (partial_data it)) = take (Z.to_nat n) (partial_data it) ++ new.
Proof.
  intros Hit Hn Hle. unfold zlen in *. replace (Z.to_nat (n + Z.of_nat (length new))) with (Z.to_nat n + length new)%nat by lia.
  apply take_list_inserts. rewrite (ops_data it Hit). lia.
Qed.

Lemma ops_ok_partial it n m new :
  ops_ok it → 0 ≤ n ≤ 16 → Forall is_byte new → ops_ok (with_partial n (list_inserts m new (partial_data it)) it).
Proof. intros [H1 H2 H3 H4 H5 H6 H7] Hn Hb. split; cbn; [by rewrite length_inserts|by apply Forall_inserts|done|lia|done..]. Qed.

Definition filled it l k data f' it' (r : esp_err_t + ota_ops_entry_t * list Z) : Prop :=
  match r with
  | inl e => e = ESP_OK → wrote_size it' = zlen l ∧ partial_bytes it' < 16 ∧ stored f' l k ∧
      take (Z.to_nat (partial_bytes it')) (partial_data it') = take (Z.to_nat (partial_bytes it)) (partial_data it) ++ data
  | inr (it2, data2) => it2 = it' ∧ partial_bytes it' = 0 ∧ Forall is_byte data2 ∧ ∃ l2,
      wrote_size it' = zlen l2 ∧ zlen l2 mod 16 = 0 ∧ stored f' l2 (k - (zlen l2 - zlen l)) ∧
      l ++ take (Z.to_nat (partial_bytes it)) (partial_data it) ++ data = l2 ++ data2
  end.

Lemma wp_fill_partial it f l k data (Q : esp_err_t + ota_ops_entry_t * list Z → wstate F → Prop) :
  ops_ok it → partial_bytes it < 16 → wrote_size it = zlen l → zlen l mod 16 = 0 → stored f l k →
  (partial_bytes it + zlen data) / 16 * 16 ≤ k → zlen l + 16 < 2 ^ 31 → Forall is_byte data →
  (∀ r it' f', confined f f' → ops_ok it' → same_ops it it' → filled it l k data f' it' r → Q r (upd s it' f')) →
  wp (fill_partial it data) (upd s it f) Q.
Proof.
  intros Hit Hpb Hw Hmod Hf Hk Hb Hbytes HQ. pose proof (zlen_nonneg l). pose proof (zlen_nonneg data). pose proof (ops_partial it Hit).
  unfold fill_partial. destruct (Z.eqb_spec (partial_bytes it) 0) as [Hz|Hz]; cbn [negb].
  { apply wp_ret, HQ; [apply flash_eq_but_refl|done|done|]. split_and!; [done|done|done|]. exists l. rewrite Hz. cbn.
    split_and!; [done|done| |done]. by rewrite Z.sub_diag, Z.sub_0_r. }
  set (n := Z.min (16 - partial_bytes it) (zlen data)). set (new := take (Z.to_nat n) data).
  assert (zlen new = n) as Hnew by (apply zlen_take; lia).
  assert (Forall is_byte new) as Hbn by (by apply Forall_take).
  unfold u8. rewrite (Z.mod_small (partial_bytes it + n)) by lia.
  pose proof (ops_ok_partial it (partial_bytes it + n) (Z.to_nat (partial_bytes it)) new Hit ltac:(lia) Hbn) as Hit1.
  pose proof (partial_append it (partial_bytes it) new Hit ltac:(lia) ltac:(lia)) as Happ. rewrite Hnew in Happ.
  set (it1 := with_partial (partial_bytes it + n) _ it) in *. apply wp_bind, wp_put_ops; [done|].
  change (partial_bytes it1) with (partial_bytes it + n).
  destruct (Z.eqb_spec (partial_bytes it + n) 16) as [H16|H16]; cbn [negb].
  - change (staging it1) with (staging it). change (wrote_size it1) with (wrote_size it). rewrite (ops_staging it Hit), Hw.
    apply wp_bind, wp_write; [lia|by apply ops_bytes|]. intros r f' Hc Hwr. case_decide as Hr.
    + subst r. apply wp_bind. apply (wp_put_ops it1 (with_wrote (u32 (zlen l + 16)) (with_partial 0 (replicate 16 255) it1))); [done|].
      rewrite u32_small by lia. rewrite H16 in Happ. change (Z.to_nat 16) with 16%nat in Happ.
      assert (zlen (partial_data it1) = 16) as Hd by (unfold zlen; by rewrite (ops_data it1 Hit1)).
      apply wp_ret, HQ; [done| |done|].
      * split; [done|by apply (Forall_replicate _ 16)|cbn; lia|cbn; lia|exact (ops_staging it Hit)|exact (ops_final it Hit)|exact (ops_copy it Hit)].
      * split_and!; [done|done|by apply Forall_drop|]. exists (l ++ partial_data it1). rewrite zlen_app, Hd. cbn [wrote_size with_wrote].
        split_and!; [done|by rewrite <- (Z.mul_1_l 16) at 1; rewrite Z.mod_add| |].
        -- replace (k - (zlen l + 16 - zlen l)) with (k - zlen (partial_data it1)) by lia. eapply stored_write; [|done|done].
           rewrite Hd. pose proof (Z.div_le_mono 16 (partial_bytes it + zlen data) 16 ltac:(lia) ltac:(lia)). change (16 / 16) with 1 in *. lia.
        -- change (list_inserts _ new _) with (partial_data it1) in Happ. rewrite (take_16 it1 Hit1) in Happ.
           rewrite Happ, <- !app_assoc. subst new. by rewrite take_drop.
    + apply wp_ret, HQ; [done|done|done|]. done.
  - apply wp_ret, HQ; [apply flash_eq_but_refl|done|done|]. intros _. cbn. split_and!; [done|lia|done|].
    rewrite Happ. f_equal. apply take_ge. unfold zlen in *. lia.
Qed.

Lemma wp_write_blocks it f l k data (Q : esp_err_t → wstate F → Prop) :
  ops_ok it → partial_bytes it < 16 → wrote_size it = zlen l → zlen l mod 16 = 0 → stored f l k →
  (partial_bytes it + zlen data) / 16 * 16 ≤ k → zlen l + partial_bytes it + zlen data + 16 < 2 ^ 31 → Forall is_byte data →
  (∀ r it' f', confined f f' → ops_ok it' → same_ops it it' →
     (r = ESP_OK → ∃ l', wrote_size it' = zlen l' ∧ partial_bytes it' < 16 ∧ zlen l' mod 16 = 0 ∧
        l ++ take (Z.to_nat (partial_bytes it)) (partial_data it) ++ data = l' ++ take (Z.to_nat (partial_bytes it')) (partial_data it') ∧
        stored f' l' (k - (zlen l' - zlen l))) → Q r (upd s it' f')) →
  wp (write_blocks it data) (upd s it f) Q.
Proof.
  intros Hit Hpb Hw Hmod Hf Hk Hb Hbytes HQ. pose proof (zlen_nonneg l). pose proof (zlen_nonneg data). pose proof (ops_partial it Hit).
  unfold write_blocks. apply wp_bind. eapply (wp_fill_partial it f l k data); [done..|lia|done|].
  intros r it1 f1 Hc1 Hit1 Hsame1 Hr. destruct r as [e|[it2 data2]]; cbn in Hr.
  { apply wp_ret, HQ; [done..|]. intros He. destruct (Hr He) as (Hw1 & Hp1 & Hs1 & Ht). exists l.
    split_and!; [done|done|done|by rewrite Ht|]. by rewrite Z.sub_diag, Z.sub_0_r. }
  destruct Hr as (-> & Hp1 & Hb2 & l2 & Hw1 & Hm2 & Hs2 & Happ).
  assert (zlen l + partial_bytes it + zlen data = zlen l2 + zlen data2) as Hlen.
  { rewrite <- !zlen_app, <- Happ, !zlen_app, zlen_partial by (done || lia). lia. }
  pose proof (zlen_nonneg l2). pose proof (zlen_nonneg data2). set (rest := zlen data2 mod 16). set (sz := zlen data2 - rest).
  assert (0 ≤ rest < 16) by (apply Z.mod_pos_bound; lia). assert (0 ≤ sz) by (pose proof (Z.mod_le (zlen data2) 16); lia).
  set (it2 := with_partial rest _ it1).
  assert (ops_ok it2) as Hit2.
  { subst it2. destruct (Z.eqb_spec rest 0); cbn [negb]; [destruct Hit1; split; cbn; (done || lia)|].
    apply ops_ok_partial; [done|lia|by apply Forall_drop]. }
  assert (take (Z.to_nat rest) (partial_data it2) = drop (Z.to_nat sz) data2) as Hrest.
  { subst it2. cbn. destruct (Z.eqb_spec rest 0) as [Hz|Hz]; cbn [negb].
    - rewrite Hz. symmetry. apply drop_ge. unfold zlen in *. lia.
    - pose proof (partial_append it1 0 (drop (Z.to_nat sz) data2) Hit1) as Ha. rewrite zlen_drop in Ha by lia.
      replace (0 + (zlen data2 - sz)) with rest in Ha by lia. apply Ha; lia. }
  apply wp_bind. apply (wp_put_ops it1); [done|].
  eapply (wp_write_out it2 f1 l2 _ (take (Z.to_nat sz) data2)); [done|done|exact Hs2| |done| |by apply Forall_take|].
  - rewrite zlen_take by lia. subst sz rest. clear -Hk Hlen Hm2 Hmod. Z.to_euclidean_division_equations. lia.
  - rewrite zlen_take by lia. lia.
  - intros r it3 f3 Hc3 Hit3 Hsame3 Hr. apply HQ; [by eapply confined_trans|done|by eapply same_ops_trans, Hsame3|].
    intros Hok'. destruct (Hr Hok') as [-> Hs3]. exists (l2 ++ take (Z.to_nat sz) data2). cbn [wrote_size with_wrote partial_bytes partial_data].
    change (partial_bytes it2) with rest. rewrite Hrest. rewrite zlen_app, zlen_take in * by lia. split_and!; [done|lia| | |].
    + subst sz rest. clear -Hm2. Z.to_euclidean_division_equations. lia.
    + by rewrite <- app_assoc, take_drop.
    + replace (k - (zlen l2 + sz - zlen l)) with (k - (zlen l2 - zlen l) - sz) by lia. done.
Qed.

Context (Happ : type (info x) = ESP_PARTITION_TYPE_APP).

Lemma wp_check_magic it f data (Q : esp_err_t → wstate F → Prop) :
  ops_ok it → (∀ r, Q r (upd s it f)) → wp (check_magic it data) (upd s it f) Q.
Proof.
  intros Hit HQ. unfold check_magic. destruct (_ && _); [|by apply wp_ret]. rewrite (ops_final it Hit).
  apply wp_bind. eapply wp_part_info; [done|]. rewrite Happ. cbn. by apply wp_ret.
Qed.

(** One call of [esp_ota_write] appends to the image. *)
Lemma wp_ota_write it f image data (Q : esp_err_t → wstate F → Prop) :
  is_Some (get_ota_ops_entry (ops_handle it) (s_ota_ops_entries s)) →
  ops_ok it → holds_image it image f → zlen image + zlen data + 16 < 2 ^ 31 → Forall is_byte data →
  (need_erase it = false → zlen image + zlen data ≤ cap) →
  (∀ r it' f', confined f f' → ops_ok it' → same_ops it it' → (r = ESP_OK → holds_image it' (image ++ data) f') → Q r (upd s it' f')) →
  wp (esp_ota_write (ops_handle it) (Some data)) (upd s it f) Q.
Proof.
  intros Hget Hit (l & Hw & Hpb & Hpb0 & Hmod & -> & Hf) Hb Hbytes Hcap HQ. pose proof (zlen_nonneg l). pose proof (ops_partial it Hit).
  rewrite zlen_app, zlen_partial in * by (done || lia).
  destruct data as [|b data]; [apply wp_ret, HQ; [apply flash_eq_but_refl|done|done|]; intros _; rewrite app_nil_r; by exists l|].
  cbn [esp_ota_write]. set (d := b :: data) in *. assert (0 < zlen d) by (unfold d; rewrite zlen_cons; pose proof (zlen_nonneg data); lia).
  clearbody d. wp_steps. cbn [s_ota_ops_entries upd with_entries]. rewrite get_put_first by done.
  set (k := if need_erase it then sectors (zlen l + zlen d) - zlen l else cap - zlen l). apply wp_bind.
  assert (wp (if need_erase it then erase_ahead it (zlen d) else mret ESP_OK) (upd s it f)
    (λ r s', ∃ f', s' = upd s it f' ∧ confined f f' ∧ (r = ESP_OK → stored f' l k))) as Herase.
  { unfold room in Hf. subst k. destruct (need_erase it).
    - eapply wp_erase_ahead; [by apply ops_staging|done|done|lia|lia|]. intros r f' Hc Hs'. eauto.
    - apply wp_ret. exists f. split_and!; [done|apply flash_eq_but_refl|done]. }
  eapply wp_mono; [exact Herase|]. clear Herase Hf. intros r s1 (f1 & -> & Hc1 & Hs1). case_decide as Hr.
  2: { apply wp_ret, HQ; [done|done|done|done]. }
  specialize (Hs1 Hr). apply wp_bind, wp_check_magic; [done|]. intros r2. case_decide as Hr2.
  2: { apply wp_ret, HQ; [done|done|done|done]. }
  rewrite <- Henc. destruct enc eqn:He.
  - assert ((partial_bytes it + zlen d) / 16 * 16 ≤ k) as Hk.
    { subst k. specialize (Hmod eq_refl). destruct (need_erase it).
      - set (n := (partial_bytes it + zlen d) / 16 * 16). assert (sectors (zlen l + n) ≤ sectors (zlen l + zlen d)).
        { apply sectors_blocks; subst n; clear -Hmod Hpb; Z.to_euclidean_division_equations; lia. }
        pose proof (sectors_ge (zlen l + n)). lia.
      - specialize (Hcap eq_refl). pose proof (Z.div_mod (partial_bytes it + zlen d) 16). pose proof (Z.mod_pos_bound (partial_bytes it + zlen d) 16). lia. }
    eapply wp_write_blocks; [done|done|done|by apply Hmod|exact Hs1|done|lia|done|].
    intros r3 it' f' Hc Hit' Hsame Hr3. apply HQ; [by eapply confined_trans|done|done|]. intros Hok3.
    destruct (Hr3 Hok3) as (l' & Hw' & Hp' & Hm' & Happ' & Hs'). exists l'. rewrite He. rewrite <- app_assoc.
    split_and!; [done|done|done|done|done|].
    assert (zlen l + partial_bytes it + zlen d = zlen l' + partial_bytes it') as Hlen.
    { rewrite <- (zlen_partial it (partial_bytes it)), <- (zlen_partial it' (partial_bytes it')), <- !zlen_app by (done || (pose proof (ops_partial it' Hit'); lia)).
      by rewrite <- app_assoc, Happ'. }
    pose proof (ops_partial it' Hit'). eapply stored_sub; [|exact Hs']. unfold room. subst k. destruct Hsame as [_ ->].
    destruct (need_erase it); [|lia]. assert (sectors (zlen l') ≤ sectors (zlen l + zlen d)); [|lia].
    apply sectors_blocks; [done|]. lia.
  - rewrite (Hpb0 eq_refl) in *. cbn [Z.to_nat take] in *. rewrite app_nil_r in *.
    eapply wp_write_out; [done|done|exact Hs1| |congruence|lia|done|].
    + subst k. destruct (need_erase it); [pose proof (sectors_ge (zlen l + zlen d)); lia|specialize (Hcap eq_refl); lia].
    + intros r3 it' f' Hc Hit' Hsame Hr3. apply HQ; [by eapply confined_trans|done|done|]. intros Hok3.
      destruct (Hr3 Hok3) as [-> Hs']. exists (l ++ d). cbn [wrote_size with_wrote partial_bytes]. rewrite (Hpb0 eq_refl), He.
      cbn [Z.to_nat take]. rewrite app_nil_r. split_and!; [done|lia|done|done|done|].
      eapply stored_sub; [|exact Hs']. unfold room. subst k. cbn [need_erase with_wrote]. rewrite zlen_app. destruct (need_erase it); lia.
Qed.

(** ** All pieces, and the end *)

Fixpoint ota_write_all (h : Z) (chunks : list (list Z)) : OW F esp_err_t :=
  match chunks with
  | [] => mret ESP_OK
  | c :: l =>
      r ← esp_ota_write h (Some c);
      if decide (r = ESP_OK) then ota_write_all h l else mret r
  end.

Lemma wp_ota_write_all chunks it f image :
  is_Some (get_ota_ops_entry (ops_handle it) (s_ota_ops_entries s)) →
  ops_ok it → holds_image it image f → zlen (image ++ concat chunks) + 16 < 2 ^ 31 → Forall (Forall is_byte) chunks →
  (need_erase it = false → zlen (image ++ concat chunks) ≤ cap) →
  wp (ota_write_all (ops_handle it) chunks) (upd s it f) (λ r s', ∃ it' f', s' = upd s it' f' ∧ confined f f' ∧ ops_ok it' ∧
    same_ops it it' ∧ (r = ESP_OK → holds_image it' (image ++ concat chunks) f')).
Proof.
  revert it f image. induction chunks as [|c chunks IH]; intros it f image Hget Hit Him Hlen Hb Hcap; cbn [ota_write_all concat].
  - apply wp_ret. exists it, f. rewrite app_nil_r. split_and!; [done|apply flash_eq_but_refl|done|done|done].
  - cbn [concat] in Hlen, Hcap. rewrite !zlen_app in Hlen, Hcap. apply Forall_cons in Hb as [Hb1 Hb2]. pose proof (zlen_nonneg (concat chunks)).
    apply wp_bind. eapply wp_ota_write; [done|done|exact Him|lia|done|intros Hn; specialize (Hcap Hn); lia|].
    intros r it1 f1 Hc1 Hit1 Hs1 Hr. case_decide as Hok1.
    + specialize (Hr Hok1). pose proof Hs1 as [Hh1 Hn1]. rewrite <- Hh1. rewrite <- Hh1 in Hget.
      eapply wp_mono; [apply (IH it1 f1 (image ++ c)); [done|done|done| |done|]|].
      * rewrite !zlen_app. lia.
      * rewrite !zlen_app, Hn1. intros Hn. specialize (Hcap Hn). lia.
      * intros r' s' (it' & f' & -> & Hc & Hit' & Hs' & Hr'). exists it', f'. rewrite app_assoc.
        split_and!; [done|by eapply confined_trans|done|by eapply same_ops_trans|done].
    + apply wp_ret. exists it1, f1. by split_and!.
Qed.

Context (md5 : list Z → list Z) (image_verify : F → Z → Z → bool) (PRIMARY_BOOTLOADER_OFFSET : Z).

(** The last block fits into what is erased. *)
Definition end_fits it image : Prop :=
  if need_erase it then enc = true → ¬ 0 < zlen image mod 4096 < 16 else enc = true → (zlen image + 15) / 16 * 16 ≤ cap.

Definition image_in image f : Prop := ldbytes (seen enc f chip) A (zlen image) = image ∧ image_verify f A (size (info x)) = true.

Lemma stored_prefix f image l k : stored f (image ++ l) k → ldbytes (seen enc f chip) A (zlen image) = image.
Proof.
  intros [Hl _]. pose proof (zlen_nonneg image). pose proof (zlen_nonneg l). rewrite zlen_app, ldbytes_app in Hl by lia.
  apply app_inj_1 in Hl as [Hl _]; [done|]. rewrite length_ldbytes. unfold zlen. lia.
Qed.

Lemma wp_flush it f (Q : esp_err_t + ota_ops_entry_t → wstate F → Prop) :
  ops_ok it →
  (∀ r f', confined f f' →
     (∀ it', r = inr it' → final it' = p ∧ staging it' = p ∧ finalize_with_copy it' = false ∧
        ∀ image, holds_image it image f → end_fits it image → ldbytes (seen enc f' chip) A (zlen image) = image) →
     (r ≠ inl ESP_OK) → Q r (upd s it f')) →
  wp (flush_partial it) (upd s it f) Q.
Proof.
  intros Hit HQ. pose proof (ops_partial it Hit). unfold flush_partial. destruct (Z.ltb_spec 0 (partial_bytes it)).
  - rewrite (ops_staging it Hit). apply wp_bind, wp_write; [by apply ops_wrote|by apply ops_bytes|]. intros r f' Hc Hwr.
    case_decide as Hr; [|by apply wp_ret, HQ]. subst r. apply wp_ret, HQ; [done| |done]. intros it' [= <-]. cbn.
    split_and!; [by apply ops_final|by apply ops_staging|by apply ops_copy|].
    intros image (l & Hw & Hpb & Hpb0 & Hmod & -> & Hs) Hfit. rewrite Hw in Hwr.
    assert (enc = true) as He by (destruct enc; [done|specialize (Hpb0 eq_refl); lia]). specialize (Hmod He).
    assert (zlen (partial_data it) = 16) as H16 by (unfold zlen; by rewrite (ops_data it Hit)).
    assert (stored f' (l ++ partial_data it) (room it (zlen l) - zlen (partial_data it))) as Hs'.
    { eapply stored_write; [|exact Hs|exact Hwr]. rewrite H16. unfold end_fits in Hfit. unfold room.
      rewrite zlen_app, zlen_partial in Hfit by (done || lia). destruct (need_erase it); specialize (Hfit He).
      - unfold sectors. clear -Hfit Hmod Hpb H0. Z.to_euclidean_division_equations. lia.
      - clear -Hfit Hmod Hpb H0. Z.to_euclidean_division_equations. lia. }
    rewrite <- (take_drop (Z.to_nat (partial_bytes it)) (partial_data it)), app_assoc in Hs' at 1. by eapply stored_prefix.
  - apply wp_ret, HQ; [apply flash_eq_but_refl| |done]. intros it' [= <-].
    split_and!; [by apply ops_final|by apply ops_staging|by apply ops_copy|].
    intros image (l & Hw & Hpb & Hpb0 & Hmod & -> & Hs) _. replace (partial_bytes it) with 0 by lia. cbn [Z.to_nat take].
    rewrite app_nil_r. apply Hs.
Qed.

Definition ended s it f : wstate F :=
  with_entries (put_first (ops_handle it) [] (s_ota_ops_entries s)) (with_parts (with_flash f (parts s)) s).

(** [esp_ota_end] removes the entry; when it succeeds the image is in place and valid. *)
Lemma wp_ota_end it f :
  is_Some (get_ota_ops_entry (ops_handle it) (s_ota_ops_entries s)) → ops_ok it →
  wp (esp_ota_end md5 image_verify PRIMARY_BOOTLOADER_OFFSET (ops_handle it)) (upd s it f) (λ r s', ∃ f', s' = ended s it f' ∧ confined f f' ∧
    ∀ image, holds_image it image f → end_fits it image → r = ESP_OK → image_in image f').
Proof.
  intros Hget Hit. unfold esp_ota_end. wp_steps. cbn [s_ota_ops_entries upd with_entries]. rewrite get_put_first by done.
  apply wp_bind.
  assert (wp (finish md5 image_verify it) (upd s it f) (λ r s', ∃ f', s' = upd s it f' ∧ confined f f' ∧
    ∀ image, holds_image it image f → end_fits it image → r = ESP_OK → image_in image f')) as Hfin.
  { unfold finish. destruct (_ =? 0); [apply wp_ret; exists f; split_and!; [done|apply flash_eq_but_refl|done]|].
    apply wp_bind, wp_flush; [done|]. intros r f' Hc Hr Hne. destruct r as [e|it']; [apply wp_ret; exists f'; split_and!; [done|done|congruence]|].
    destruct (Hr it' eq_refl) as (Hfi & Hst & Hco & Him). apply wp_bind. unfold ota_verify_partition. rewrite Hfi, Hst.
    apply wp_bind. eapply wp_part_info; [done|]. rewrite Happ. cbn [Z.eqb orb ESP_PARTITION_TYPE_APP].
    apply wp_bind. eapply wp_part_info; [done|]. wp_steps. cbn [parts upd with_entries with_parts fl with_flash].
    rewrite Hco. case_decide as Hv; apply wp_ret; exists f'; (split_and!; [done|done|]); intros image Hi Hf Hr'; [|done].
    split; [by apply Him|]. by destruct (image_verify _ _ _). }
  eapply wp_mono; [exact Hfin|]. clear Hfin. intros r s' (f' & -> & Hc & Him).
  rewrite (ops_final it Hit). apply wp_bind. eapply wp_part_info; [done|]. rewrite Happ. cbn [Z.eqb ESP_PARTITION_TYPE_APP ESP_PARTITION_TYPE_BOOTLOADER whenM].
  wp_steps. exists f'. split_and!; [|done|done]. unfold ended, upd, with_entries, with_parts. cbn. by rewrite put_first_twice.
Qed.

End partition.
End spec.
