(* ===== verification/OtaUpdate.v ===== *)
(** * OTA updates: from begin to end

    A whole update: [esp_ota_begin], the pieces of the image, [esp_ota_end], with an
    abort when a step fails; and the case in which the last block is written into a
    sector that was not erased. *)
From Stdlib Require Import ZArith Lia.
From stdpp Require Import base numbers option list gmap sets.
From S2P Require Import Prelude Ota OtaSpec OtaBoot Flash Partition PartitionSpec PartitionAccess PartitionTable PartitionRegion OtaWrite OtaWriteSpec.

Open Scope Z_scope.

Lemma ota_state_unchanged E n q t : slots E n → wp (esp_ota_get_state_partition E (Some q) true) t (λ _ t', t' = t).
Proof.
  intros Hs. unfold esp_ota_get_state_partition. cbn [negb]. destruct (is_ota_partition q); cbn [negb]; [|by apply wp_ret].
  apply wp_bind. eapply wp_count; [done|]. unfold read_otadata. wp_steps. destruct (_ && _); [|by apply wp_ret].
  cbv zeta. repeat (case_match; [by apply wp_ret|]). by apply wp_ret.
Qed.

(** Otadata [d] before and [d'] after the entry that is not active was erased, or left as it
    is: the active entry stays. *)
Definition inactive_erased (E : ota_env) (d d' : two_otadata) : Prop :=
  let a := bootloader_common_get_active_otadata E d in
  d' = d ∨ a ≠ -1 ∧ entry d' a = entry d a ∧ entry d' (other_otadata a) ∈ [torn E; erased_entry].

Lemma invalidate_erases E n t :
  slots E n → wp (esp_ota_invalidate_inactive_ota_data_slot E) t (λ _ t', inactive_erased E (otadata t) (otadata t')).
Proof.
  intros Hs. unfold esp_ota_invalidate_inactive_ota_data_slot, erase_last_boot_app_partition, read_otadata, inactive_erased. wp_steps.
  destruct (_ && _); [|apply wp_ret; by left]. cbv zeta. apply wp_bind. eapply wp_count; [done|].
  destruct (Z.eqb_spec (bootloader_common_get_active_otadata E (otadata t)) (-1)) as [|Ha]; cbn [orb]; [apply wp_ret; by left|].
  repeat (case_match; [apply wp_ret; by left|]). cbn [negb]. wp_steps. rewrite decide_True by done.
  pose proof (active_index E _ Ha) as Hi. unfold erase_otadata_sector, sector_op, put_otadata. wp_steps.
  apply wp_next_flash_answer. cbn. intros e l _.
  case_decide; wp_steps; right; cbn [otadata]; rewrite entry_set_other, entry_set by done; set_solver.
Qed.

Section update.
Context {F : Type} `{!FlashDriver F, !FlashLaws F}.
Context (md5 : list Z → list Z) (E : ota_env) (image_verify : F → Z → Z → bool) (phys_offs : option Z)
  (PRIMARY_BOOTLOADER_OFFSET : Z).
Implicit Types (s : wstate F) (f : F).

(** How an application makes an update. *)
Definition ota_update (p image_size : Z) (chunks : list (list Z)) : OW F esp_err_t :=
  r ← esp_ota_begin md5 E phys_offs (Some p) image_size true;
  match r with
  | (e, None) => mret e
  | (e, Some h) =>
      r ← (if decide (e = ESP_OK) then ota_write_all h chunks else mret e);
      if decide (r = ESP_OK) then esp_ota_end md5 image_verify PRIMARY_BOOTLOADER_OFFSET h
      else _ ← esp_ota_abort h; mret r
  end.

Section begin.
Context (s : wstate F) (p r n image_size : Z) (x y : partition_list_item_t).

(** A registered OTA partition and another application that runs. *)
Record ready : Prop := {
  ready_wf : wf (parts s);
  ready_in : p ∈ s_partition_list (parts s);
  ready_heap : heap (parts s) !! p = Some x;
  ready_app : is_ota_app (info x) = true;
  ready_sectors : erase_size (info x) = 4096;
  ready_aligned : address (info x) mod 16 = 0;
  ready_encrypted : encrypted (info x) = esp_flash_encryption_enabled;
  ready_memory : head (allocs (parts s)) ≠ Some false;
  ready_running : curr_partition s = Some r;
  ready_running_heap : heap (parts s) !! r = Some y;
  ready_slots : slots E n
}.

(** What [esp_ota_begin] erases when it does not erase as it goes, and how many bytes
    are blank then, up to the end of the partition. *)
Definition begin_erases : Z :=
  if (image_size =? 0) || (image_size =? OTA_SIZE_UNKNOWN) then size (info x) else ALIGN_UP image_size 4096.
Definition begin_blank : Z :=
  if (image_size =? 0) || (image_size =? OTA_SIZE_UNKNOWN) then 2 ^ 31 else ALIGN_UP image_size 4096.

Definition begun (e : esp_err_t) (h : option Z) s' : Prop :=
  heap (parts s') !! p = Some x ∧ heap (parts s') = heap (parts s) ∧ confined x (fl (parts s)) (fl (parts s')) ∧
  inactive_erased E (otadata (otasel s)) (otadata (otasel s')) ∧
  match h with
  | None => e ≠ ESP_OK ∧ s_ota_ops_entries s' = s_ota_ops_entries s
  | Some h => ∃ it, ops_handle it = h ∧ ops_ok p it ∧ need_erase it = (image_size =? OTA_WITH_SEQUENTIAL_WRITES) ∧ p ≠ r ∧
      s_ota_ops_entries s' = it :: s_ota_ops_entries s ∧ (e = ESP_OK → holds_image x begin_blank it [] (fl (parts s')))
  end.

Lemma wp_begin (Q : esp_err_t * option Z → wstate F → Prop) :
  ready → 0 ≤ image_size < 2 ^ 32 → (∀ e h s', begun e h s' → Q (e, h) s') →
  wp (esp_ota_begin md5 E phys_offs (Some p) image_size true) s Q.
Proof.
  intros [Hwf Hin Hx Happ Hes Hal Henc Hmem Hrun Hy Hsl] Hsz HQ. unfold esp_ota_begin. cbn [negb]. apply wp_bind, wp_on_parts.
  assert (type (info x) = ESP_PARTITION_TYPE_APP) as Ht by (unfold is_ota_app in Happ; apply andb_true_iff in Happ as [?%Z.eqb_eq _]; done).
  destruct (wf_items _ Hwf p Hin) as (x' & Hx' & Hok). rewrite Hx in Hx'. injection Hx' as <-.
  eapply wp_mono; [apply (partition_verify_registered md5 (parts s) p x); [done..|rewrite Ht; done]|].
  intros v t (-> & _ & Hheap & _ & Hfl). apply wp_bind. eapply wp_part_info; [by rewrite <- Hheap in Hx|].
  set (s1 := with_parts t s). unfold begin_checks. rewrite Ht, Happ. cbn [Z.eqb ESP_PARTITION_TYPE_APP negb].
  assert (∀ e s3, e ≠ ESP_OK → heap (parts s3) = heap t → fl (parts s3) = fl t → s_ota_ops_entries s3 = s_ota_ops_entries s →
    otasel s3 = otasel s → begun e None s3) as Herr.
  { intros e s3 He H1 H2 H3 H4. split_and!; [congruence|congruence|rewrite H2, Hfl; apply flash_eq_but_refl|left; by rewrite H4|done|done]. }
  apply wp_bind. unfold esp_ota_get_running_partition. wp_steps. cbn [curr_partition s1 with_parts]. rewrite Hrun. wp_steps.
  destruct (Z.eqb_spec p r) as [Hpr|Hpr]; [by wp_steps; apply HQ, Herr|].
  wp_steps. eapply wp_part_info; [cbn; by rewrite Hheap|]. wp_steps. apply wp_on_sel.
  eapply wp_mono; [by eapply ota_state_unchanged|]. intros st t2 ->. cbv beta.
  case_decide; wp_steps; [by apply HQ, Herr|]. rewrite decide_True by done. unfold esp_ota_init_entry. wp_steps.
  apply wp_on_parts, wp_alloc; [intros _|intros _; by wp_steps; apply HQ, Herr].
  wp_steps. cbn [s_ota_ops_last_handle ops_handle]. set (h := u32 (s_ota_ops_last_handle s + 1)).
  unfold put_entry, prepare_special. rewrite Ht. cbn [Z.eqb ESP_PARTITION_TYPE_APP ESP_PARTITION_TYPE_BOOTLOADER ESP_PARTITION_TYPE_PARTITION_TABLE orb whenM].
  wp_steps. cbn [s_ota_ops_entries put_first ops_handle with_entries with_need_erase staging final finalize_with_copy wrote_size partial_bytes ota_resumption partial_data].
  rewrite Z.eqb_refl. cbn [Datatypes.app].
  set (it := mkOps h p p false (image_size =? OTA_WITH_SEQUENTIAL_WRITES) 0 0 false (replicate 16 0)).
  assert (ops_ok p it) as Hit by (split; cbn; [done|repeat constructor; done|lia|lia|done..]).
  match goal with |- wp _ ?st _ => set (s2 := st) end.
  assert (∀ e f, confined x (fl t) f → (e = ESP_OK → holds_image x begin_blank it [] f) →
    ∀ s3, parts s3 = with_flash f (parts s2) → s_ota_ops_entries s3 = s_ota_ops_entries s2 →
    inactive_erased E (otadata (otasel s)) (otadata (otasel s3)) → begun e (Some h) s3) as Hdone.
  { intros e f Hc Hh s3 H1 H2 H3. split_and!; rewrite ?H1; [cbn; congruence|done|cbn; rewrite <- Hfl; done|done|].
    exists it. rewrite H2. by split_and!. }
  assert (wp (if negb (image_size =? OTA_WITH_SEQUENTIAL_WRITES)
    then on_parts (esp_partition_erase_range (Some p) 0
           (if (image_size =? 0) || (image_size =? OTA_SIZE_UNKNOWN) then size (info x) else ALIGN_UP image_size (erase_size (info x))))
    else mret ESP_OK) s2 (λ e s', ∃ f, s' = with_parts (with_flash f (parts s2)) s2 ∧ confined x (fl t) f ∧
      (e = ESP_OK → holds_image x begin_blank it [] f))) as Herase.
  { assert (need_erase it = (image_size =? OTA_WITH_SEQUENTIAL_WRITES)) as Hne by done.
    assert (∀ f, stored x f [] (room begin_blank it 0) → holds_image x begin_blank it [] f) as Hempty.
    { intros f Hf. exists []. by split_and!. }
    clearbody it.
    rewrite Hes. fold begin_erases. destruct (image_size =? OTA_WITH_SEQUENTIAL_WRITES) eqn:Hseq; cbn [negb].
    - apply wp_ret. exists (fl t). split_and!; [done|apply flash_eq_but_refl|]. intros _. apply Hempty. unfold room.
      rewrite Hne. split; [done|]. intros i Hi. change (zlen []) with 0 in Hi. change (sectors 0) with 0 in Hi. lia.
    - apply wp_on_parts. eapply wp_part_erase; [cbn; by rewrite Hheap|done|lia| |].
      + unfold begin_erases, ALIGN_UP. pose proof (ok_size _ Hok). case_match; [lia|]. apply Z.ldiff_nonneg. left. apply u32_range.
      + intros e f (Hbut & Hins & Hd). exists f. destruct (inside x 0 begin_erases (fl t) f) as [Hc _]; [lia|done|done|].
        split_and!; [done|done|]. intros He. apply Hempty. unfold room. rewrite Hne.
        split; [done|]. destruct (Hd He) as (_ & _ & _ & _ & Hbl).
        intros i Hi Hi'. apply Hbl. unfold begin_blank, begin_erases in *. change (zlen []) with 0 in Hi. destruct (_ || _); lia. }
  eapply wp_mono; [exact Herase|]. clear Herase. intros e s' (f & -> & Hc & Hh). cbv beta. case_decide as He.
  - wp_steps. apply wp_on_sel. eapply wp_mono; [by eapply invalidate_erases|]. intros r3 t3 Ht3. wp_steps.
    apply HQ. subst e. by eapply Hdone.
  - wp_steps. apply HQ. eapply Hdone; [done..|by left].
Qed.
End begin.

(** An abort removes the entry. *)
Lemma wp_abort s it f (Q : esp_err_t → wstate F → Prop) :
  is_Some (get_ota_ops_entry (ops_handle it) (s_ota_ops_entries s)) → Q ESP_OK (ended s it f) →
  wp (esp_ota_abort (ops_handle it)) (upd s it f) Q.
Proof.
  intros Hget HQ. unfold esp_ota_abort. wp_steps. cbn [s_ota_ops_entries upd with_entries]. rewrite get_put_first by done.
  unfold remove_entry. wp_steps. unfold ended, upd, with_entries, with_parts in *. cbn in *. by rewrite put_first_twice.
Qed.

Lemma align_up_sectors n : 0 ≤ n < 2 ^ 31 → ALIGN_UP n 4096 = sectors n.
Proof.
  intros Hn. unfold ALIGN_UP. rewrite u32_small by lia. change (4096 - 1) with (Z.ones 12).
  rewrite Z.ldiff_ones_r, Z.shiftl_mul_pow2, Z.shiftr_div_pow2 by lia. done.
Qed.

(** What is blank after [esp_ota_begin] has room for the image in whole blocks. *)
Lemma begin_blank_enough image_size n :
  0 ≤ n → n + 16 < 2 ^ 31 → image_size = 0 ∨ image_size = OTA_SIZE_UNKNOWN ∨ n ≤ image_size < 2 ^ 31 →
  n ≤ (n + 15) / 16 * 16 ≤ begin_blank image_size.
Proof.
  intros Hn Hn16 H. set (b := (n + 15) / 16 * 16).
  assert (n ≤ b < n + 16 ∧ b mod 16 = 0) as (Hb & Hmod) by (subst b; clear; Z.to_euclidean_division_equations; lia).
  split; [lia|]. unfold begin_blank. destruct (Z.eqb_spec image_size 0); cbn [orb]; [lia|].
  destruct (Z.eqb_spec image_size OTA_SIZE_UNKNOWN); [lia|]. destruct H as [?|[?|H]]; [done|done|].
  rewrite align_up_sectors by lia. pose proof (sectors_ge b). pose proof (sectors_blocks b image_size Hmod). lia.
Qed.

(** An update with [esp_ota_begin], any pieces of an image and [esp_ota_end] that
    succeeds has put the image into the partition, where it is found valid; the partition
    is not the running one.  It succeeds or not, nothing outside of the partition and of
    otadata is changed, of otadata at most the entry that is not active, and no entry of an
    update is left.  With erasing as it goes and flash
    encryption, the image must not end within the first 16 bytes of a sector. *)
Theorem ota_update_writes_image s p r n image_size x y chunks :
  ready s p r n x y → 0 ≤ image_size < 2 ^ 32 → Forall (Forall is_byte) chunks → zlen (concat chunks) + 16 < 2 ^ 31 →
  (if image_size =? OTA_WITH_SEQUENTIAL_WRITES
   then esp_flash_encryption_enabled = true → ¬ 0 < zlen (concat chunks) mod 4096 < 16
   else image_size = 0 ∨ image_size = OTA_SIZE_UNKNOWN ∨ zlen (concat chunks) ≤ image_size < 2 ^ 31) →
  wp (ota_update p image_size chunks) s (λ e s',
    s_ota_ops_entries s' = s_ota_ops_entries s ∧ heap (parts s') = heap (parts s) ∧
    flash_eq_but (flash_chip (info x)) (address (info x)) (size (info x)) (fl (parts s)) (fl (parts s')) ∧
    inactive_erased E (otadata (otasel s)) (otadata (otasel s')) ∧
    (e = ESP_OK → p ≠ r ∧
       ldbytes (seen (encrypted (info x)) (fl (parts s')) (flash_chip (info x))) (address (info x)) (zlen (concat chunks)) = concat chunks ∧
       image_verify (fl (parts s')) (address (info x)) (size (info x)) = true)).
Proof.
  intros Hready Hsz Hb Hlen Hcond. unfold ota_update. apply wp_bind, (wp_begin s p r n image_size x y); [done|done|].
  destruct Hready as [Hwf Hin Hx Happ Hes Hal Henc]. intros e h s' (Hx' & Hheap & Hc & Hsel & Hm).
  destruct h as [h|]; [|destruct Hm; by apply wp_ret]. destruct Hm as (it & <- & Hit & Hne & Hpr & Hent & Hhold).
  destruct (wf_items _ Hwf p Hin) as (x' & Hx2 & Hok). rewrite Hx in Hx2. injection Hx2 as <-.
  assert (type (info x) = ESP_PARTITION_TYPE_APP) as Ht by (unfold is_ota_app in Happ; apply andb_true_iff in Happ as [?%Z.eqb_eq _]; done).
  assert (get_ota_ops_entry (ops_handle it) (s_ota_ops_entries s') = Some it) as Hget.
  { unfold get_ota_ops_entry. by rewrite Hent, filter_cons_True. }
  assert (is_Some (get_ota_ops_entry (ops_handle it) (s_ota_ops_entries s'))) as Hsome by eauto.
  assert (∀ it' f e', same_ops it it' → confined x (fl (parts s')) f →
    (e' = ESP_OK → image_in x image_verify (concat chunks) f) →
    let s'' := ended s' it' f in
    s_ota_ops_entries s'' = s_ota_ops_entries s ∧ heap (parts s'') = heap (parts s) ∧ confined x (fl (parts s)) (fl (parts s'')) ∧
    inactive_erased E (otadata (otasel s)) (otadata (otasel s'')) ∧
    (e' = ESP_OK → p ≠ r ∧ image_in x image_verify (concat chunks) (fl (parts s'')))) as Hend.
  { intros it' f e' [Hh _] Hc' Him. cbn. rewrite Hent, Hh. cbn [put_first]. rewrite Z.eqb_refl. cbn [Datatypes.app].
    split_and!; [done|done|by eapply confined_trans|done|]. intros He. split; [done|by apply Him]. }
  rewrite <- (upd_same s' it Hget). apply wp_bind. case_decide as He.
  2: { apply wp_ret. rewrite decide_False by done. apply wp_bind, wp_abort; [done|]. apply wp_ret.
       apply (Hend it _ e); [done|apply flash_eq_but_refl|done]. }
  pose proof (zlen_nonneg (concat chunks)).
  eapply wp_mono; [eapply (wp_ota_write_all p x (begin_blank image_size)); [done..|by apply Hhold|cbn; lia|done|]|].
  { cbn. rewrite Hne. intros Hseq. rewrite Hseq in Hcond. pose proof (begin_blank_enough image_size (zlen (concat chunks))). lia. }
  intros r2 s2 (it2 & f2 & -> & Hc2 & Hit2 & Hs2 & Him2). pose proof Hs2 as [Hh2 Hn2]. rewrite <- Hh2. rewrite <- Hh2 in Hsome. case_decide as Hr2.
  - eapply wp_mono; [by apply (wp_ota_end p x (begin_blank image_size))|]. intros r3 s3 (f3 & -> & Hc3 & Him3).
    apply (Hend it2 f3 r3); [done|by eapply confined_trans|]. intros Hr3. apply Him3; [by apply Him2| |done].
    unfold end_fits. rewrite Hn2, Hne. cbn [Datatypes.app]. rewrite Henc. case_match; [done|]. intros _.
    pose proof (begin_blank_enough image_size (zlen (concat chunks))). lia.
  - apply wp_bind, wp_abort; [done|]. apply wp_ret. by apply (Hend it2 f2 r2).
Qed.
End update.

(** ** Updates on a NOR flash *)

(** The second OTA slot is updated while the first runs; the flash was never erased. *)
Definition example_ws : wstate nor :=
  mkWS [] 0 (Some 1) 0x1000 true (with_flash (mkNor (λ _ _, 0) [] 4) (example_parts 4)) example_flash.

Lemma example_ready : ready example_env example_ws 2 1 2 item2 item1.
Proof.
  split; [|cbn; set_solver|done..|apply example_slots]. destruct (example_wf 4) as [W1 W2 W3 W4 W5]. by split.
Qed.

Definition example_update (image_size : Z) (chunks : list (list Z)) : OW nor esp_err_t :=
  ota_update example_md5 example_env (λ _ _ _, true) None 0x1000 2 image_size chunks.

Lemma ota_update_writes_image_witness :
  wp (example_update OTA_WITH_SEQUENTIAL_WRITES [[0xE9; 1; 2]; replicate 20 7; []; [3]]) example_ws (λ e s',
    s_ota_ops_entries s' = [] ∧
    (e = ESP_OK → ldbytes (seen true (fl (parts s')) 0) 0x20000 24 = [0xE9; 1; 2] ++ replicate 20 7 ++ [3])).
Proof.
  unfold example_update. refine (wp_mono _ _ _ _ (ota_update_writes_image example_md5 example_env (λ _ _ _, true) None 0x1000 example_ws 2 1 2
    OTA_WITH_SEQUENTIAL_WRITES item2 item1 [[0xE9; 1; 2]; replicate 20 7; []; [3]] _ _ _ _ _) _).
  - apply example_ready.
  - unfold OTA_WITH_SEQUENTIAL_WRITES. lia.
  - repeat constructor; unfold is_byte; lia.
  - vm_compute. reflexivity.
  - cbn. intros _. vm_compute. intros [_ H]. discriminate H.
  - cbv beta. intros e s' (He & _ & _ & _ & Him). split; [exact He|]. intros Hok. exact (proj1 (proj2 (Him Hok))).
Defined.

(** With flash encryption and erasing as it goes, [esp_ota_end] writes the last bytes
    of an image into a sector that was not erased, when the image ends within the first
    16 bytes of a sector and its last piece fits into the sectors before: the update
    succeeds and the bytes are wrong. *)
Theorem ota_end_writes_unerased :
  let chunks := [0xE9 :: replicate 4094 1; [1; 1]] in
  wp (example_update OTA_WITH_SEQUENTIAL_WRITES chunks) example_ws (λ e s',
    e = ESP_OK ∧ zlen (concat chunks) = 4097 ∧ seen true (fl (parts s')) 0 (0x20000 + 4095) = 1 ∧
    seen true (fl (parts s')) 0 (0x20000 + 4096) ≠ 1).
Proof. vm_compute. split_and!; done. Qed.
