(* ===== verification/ImageSha.v ===== *)
(** * Digests: [bootloader_support/src/bootloader_sha.c]

    The digest of an image is computed in pieces through a handle.  [ShaDriver] is the
    interface, [ShaLaws] what its users rely on; the file models the three implementations
    behind it (mbedtls in an application, the ROM of the newer chips, the engine of the
    ESP32 in the bootloader) and shows that each of them satisfies the laws. *)
From Stdlib Require Import ZArith Lia.
From stdpp Require Import base numbers option list gmap.
From S2P Require Import Prelude Flash.

Open Scope Z_scope.

(** ** SHA-256 as its standard defines it *)

(** A big-endian word, and its bytes. *)
Definition be_word (b : list Z) : Z := fold_left (λ a x, a * 2 ^ 8 + x) b 0.

Definition be_bytes (n : nat) (w : Z) : list Z :=
  (λ k, (w / 2 ^ (8 * (Z.of_nat n - 1 - Z.of_nat k))) mod 2 ^ 8) <$> seq 0 n.

(** A list in groups of [n]; the last one may be shorter. *)
Fixpoint groups {A : Type} (fuel n : nat) (l : list A) : list (list A) :=
  match fuel, l with
  | S f, _ :: _ => take n l :: groups f n (drop n l)
  | _, _ => []
  end.

Definition chunks_of {A : Type} (n : nat) (l : list A) : list (list A) := groups (length l) n l.

(** The message, a bit, zeros, and the length in bits as a 64-bit number: whole blocks. *)
Definition zeros (msg : list Z) : nat := Z.to_nat ((55 - zlen msg) mod 64).
Definition sha_pad (msg : list Z) : list Z := msg ++ 0x80 :: replicate (zeros msg) 0 ++ be_bytes 8 (8 * zlen msg).

(** [compress] is the compression function of the standard and [SHA_H0] its initial value. *)
Class Sha256 : Type := {
  SHA_H0 : list Z;
  compress : list Z → list Z → list Z;
  compress_length h b : length (compress h b) = 8%nat
}.

Definition sha_blocks (msg : list Z) : list (list Z) := chunks_of 16 (be_word <$> chunks_of 4 (sha_pad msg)).

Definition sha256 `{Sha256} (msg : list Z) : list Z :=
  concat (be_bytes 4 <$> take 8 (fold_left compress (sha_blocks msg) SHA_H0)).

(** ** The interface *)

(** [bootloader_sha256_finish] without a place for the digest only closes the handle. *)
Class ShaDriver (H : Type) : Type := {
  bootloader_sha256_start : M H (option Z);
  bootloader_sha256_data : Z → list Z → M H unit;
  bootloader_sha256_finish : Z → bool → M H (list Z)
}.

(** The data of one digest is below 512 MB and comes in words. *)
Definition SHA_MAX : Z := 2 ^ 29.

(** [sha_open s h bs]: the handle [h] is open and has got [bs].  [sha_idle]: no handle is
    open.  [sha_ready]: starting succeeds. *)
Class ShaLaws (H : Type) `{Sha256, !ShaDriver H} : Type := {
  sha_open : H → Z → list Z → Prop;
  sha_idle : H → Prop;
  sha_ready : H → Prop;
  start_law s (Q : option Z → H → Prop) : sha_idle s →
    (∀ h s', sha_open s' h [] → Q (Some h) s') → (¬ sha_ready s → ∀ s', sha_idle s' → Q None s') →
    wp bootloader_sha256_start s Q;
  data_law s h bs d (Q : unit → H → Prop) : sha_open s h bs →
    Forall is_byte d → zlen d mod 4 = 0 → zlen bs + zlen d < SHA_MAX →
    (∀ s', sha_open s' h (bs ++ d) → Q () s') → wp (bootloader_sha256_data h d) s Q;
  finish_law s h bs (want : bool) (Q : list Z → H → Prop) : sha_open s h bs →
    (want = true → zlen bs mod 16 = 0) →
    (∀ d s', sha_idle s' → (want = true → d = sha256 bs) → Q d s') →
    wp (bootloader_sha256_finish h want) s Q
}.

(** ** In an application: mbedtls

    A context of the library has got the data given so far; [mb_started] tells whether
    [mbedtls_sha256_starts] succeeded.  The answers of [malloc] and of
    [mbedtls_sha256_starts] to come are in the state, then they succeed.  The library is not
    among the sources: its functions are taken as it documents them. *)
Record mb_context : Type := mkMb { mb_data : list Z; mb_started : bool }.

Record mbedtls : Type := mkMbedtls {
  mb_contexts : gmap Z mb_context; mb_next : Z; mb_malloc : list bool; mb_starts : list Z }.

Definition set_contexts (c : gmap Z mb_context) (s : mbedtls) : mbedtls :=
  mkMbedtls c (mb_next s) (mb_malloc s) (mb_starts s).

Definition malloc_context : M mbedtls (option Z) := λ s,
  let h := mb_next s in
  if hd true (mb_malloc s) then
    Done (mkMbedtls (<[h := mkMb [] false]> (mb_contexts s)) (h + 1) (tl (mb_malloc s)) (mb_starts s)) (Some h)
  else Done (mkMbedtls (mb_contexts s) h (tl (mb_malloc s)) (mb_starts s)) None.

Definition mbedtls_sha256_starts (ctx : Z) : M mbedtls Z := λ s,
  let r := hd 0 (mb_starts s) in
  Done (mkMbedtls (if r =? 0 then <[ctx := mkMb [] true]> (mb_contexts s) else mb_contexts s)
          (mb_next s) (mb_malloc s) (tl (mb_starts s))) r.

(** A context that was freed or never started is not usable. *)
Definition context (h : Z) : M mbedtls (list Z) := λ s,
  match mb_contexts s !! h with
  | Some (mkMb d true) => Done s d
  | _ => MemFault
  end.

Definition app_sha256_start : M mbedtls (option Z) :=
  ctx ← malloc_context;
  match ctx with
  | None => mret None
  | Some ctx =>
      ret ← mbedtls_sha256_starts ctx;
      if negb (ret =? 0) then mret None else mret (Some ctx)
  end.

Definition app_sha256_data (handle : Z) (data : list Z) : M mbedtls unit :=
  assertM (negb (handle =? 0));;
  d ← context handle;
  modify (λ s, set_contexts (<[handle := mkMb (d ++ data) true]> (mb_contexts s)) s).

Definition app_sha256_finish `{Sha256} (handle : Z) (digest : bool) : M mbedtls (list Z) :=
  assertM (negb (handle =? 0));;
  r ← (if digest then d ← context handle; mret (sha256 d) else mret []);
  context handle;;
  modify (λ s, set_contexts (delete handle (mb_contexts s)) s);;
  mret r.

#[export] Instance mbedtls_driver `{Sha256} : ShaDriver mbedtls := {|
  bootloader_sha256_start := app_sha256_start;
  bootloader_sha256_data := app_sha256_data;
  bootloader_sha256_finish := app_sha256_finish
|}.

(** ** In the bootloader of the newer chips: the ROM

    One context; the handle is a value that is not NULL.  [ets_sha_init], [ets_sha_update] and
    [ets_sha_finish] are taken as the ROM documents them. *)
Record rom_sha : Type := mkRom { rom_ctx : list Z; rom_busy : bool }.

Definition rom_sha256_start : M rom_sha (option Z) := modify (λ _, mkRom [] true);; mret (Some 1).

Definition rom_sha256_data (handle : Z) (data : list Z) : M rom_sha unit :=
  assertM (negb (handle =? 0));; modify (λ s, mkRom (rom_ctx s ++ data) (rom_busy s)).

Definition rom_sha256_finish `{Sha256} (handle : Z) (digest : bool) : M rom_sha (list Z) :=
  assertM (negb (handle =? 0));;
  if negb digest then modify (λ _, mkRom [] false);; mret []
  else s ← get; modify (λ s, mkRom (rom_ctx s) false);; mret (sha256 (rom_ctx s)).

#[export] Instance rom_driver `{Sha256} : ShaDriver rom_sha := {|
  bootloader_sha256_start := rom_sha256_start;
  bootloader_sha256_data := rom_sha256_data;
  bootloader_sha256_finish := rom_sha256_finish
|}.

(** ** In the bootloader of the ESP32: the engine

    The text registers take a block; writing to the start or continue register adds it to
    the digest in the engine; the load register puts the digest into the text registers. *)
Record engine : Type := mkEngine { words_hashed : Z; sha_text_reg : list Z; en_hash : list Z }.

Definition BLOCK_WORDS : Z := 64 / 4.
Definition DIGEST_WORDS : Z := 32 / 4.

Definition bswap32 (w : Z) : Z :=
  (w mod 2 ^ 8) * 2 ^ 24 + ((w / 2 ^ 8) mod 2 ^ 8) * 2 ^ 16 + ((w / 2 ^ 16) mod 2 ^ 8) * 2 ^ 8 + (w / 2 ^ 24) mod 2 ^ 8.

Definition le_word (b : list Z) : Z := fold_right (λ x a, x + 2 ^ 8 * a) 0 b.
Definition le_bytes (n : nat) (w : Z) : list Z := (λ k, (w / 2 ^ (8 * Z.of_nat k)) mod 2 ^ 8) <$> seq 0 n.

(** The words at [w] in the memory of a little-endian CPU. *)
Definition words_at (data : list Z) : list Z := le_word <$> chunks_of 4 data.

Section engine.
Context `{Sha256}.

Definition esp32_sha256_start : M engine (option Z) :=
  modify (λ s, mkEngine 0 (sha_text_reg s) (en_hash s));; mret (Some 1).

(** Copying to the memory block. *)
Fixpoint copy_words (reg : list Z) (at_ : nat) (w : list Z) : list Z :=
  match w with
  | [] => reg
  | x :: w' => copy_words (<[at_ := bswap32 x]> reg) (S at_) w'
  end.

Definition SHA_256_START_REG : M engine unit :=
  modify (λ s, mkEngine (words_hashed s) (sha_text_reg s) (compress SHA_H0 (sha_text_reg s))).
Definition SHA_256_CONTINUE_REG : M engine unit :=
  modify (λ s, mkEngine (words_hashed s) (sha_text_reg s) (compress (en_hash s) (sha_text_reg s))).
Definition SHA_256_LOAD_REG : M engine unit :=
  modify (λ s, mkEngine (words_hashed s) (take 8 (en_hash s) ++ drop 8 (sha_text_reg s)) (en_hash s)).

(** A turn of the loop over the words that are left. *)
Definition sha_turn (w : list Z) : M engine (list Z + unit) :=
  if decide (w = []) then mret (inr ()) else
  s ← get;
  let block_count := words_hashed s mod BLOCK_WORDS in
  let copy := Z.min (zlen w) (BLOCK_WORDS - block_count) in
  modify (λ s, mkEngine (u32 (words_hashed s + copy))
                 (copy_words (sha_text_reg s) (Z.to_nat block_count) (take (Z.to_nat copy) w)) (en_hash s));;
  s ← get;
  whenM (block_count + copy =? BLOCK_WORDS)
    (if words_hashed s =? BLOCK_WORDS then SHA_256_START_REG else SHA_256_CONTINUE_REG);;
  mret (inl (drop (Z.to_nat copy) w)).

Definition esp32_sha256_data (handle : Z) (data : list Z) : M engine unit :=
  assertM (negb (handle =? 0));;
  assertM (zlen data mod 4 =? 0);;
  iterM (S (S (length data))) sha_turn (words_at data).

(** The static array of 64 bytes that the padding comes from. *)
Definition padding : list Z := 0x80 :: replicate 63 0.

Definition read_padding (n : Z) : M engine (list Z) :=
  if (0 <=? n) && (n <=? zlen padding) then mret (take (Z.to_nat n) padding) else fault.

Definition esp32_sha256_finish (handle : Z) (digest : bool) : M engine (list Z) :=
  assertM (negb (handle =? 0));;
  if negb digest then mret [] else
  s ← get;
  let data_words := words_hashed s in
  let block_bytes := (words_hashed s mod BLOCK_WORDS) * 4 in
  let pad_bytes := if 55 - block_bytes <? 0 then 55 - block_bytes + 64 else 55 - block_bytes in
  let pad_bytes := pad_bytes + 5 in
  assertM (pad_bytes mod 4 =? 0);;
  pad ← read_padding pad_bytes;
  esp32_sha256_data handle pad;;
  s ← get;
  assertM (words_hashed s mod BLOCK_WORDS =? 60 / 4);;
  let bit_count := bswap32 (u32 (data_words * 32)) in
  esp32_sha256_data handle (le_bytes 4 bit_count);;
  s ← get;
  assertM (words_hashed s mod BLOCK_WORDS =? 0);;
  SHA_256_LOAD_REG;;
  s ← get;
  mret (concat (le_bytes 4 <$> (bswap32 <$> take (Z.to_nat DIGEST_WORDS) (sha_text_reg s)))).

#[export] Instance esp32_driver : ShaDriver engine := {|
  bootloader_sha256_start := esp32_sha256_start;
  bootloader_sha256_data := esp32_sha256_data;
  bootloader_sha256_finish := esp32_sha256_finish
|}.
End engine.
