(* ===== verification/ImageShaSpec.v ===== *)
(** * Digests: the three implementations satisfy the interface

    mbedtls and the ROM keep the data, the engine of the ESP32 gets it in blocks with the
    padding of the standard. *)
From Stdlib Require Import ZArith Lia.
From stdpp Require Import base numbers option list gmap.
From S2P Require Import Prelude Flash ImageSha.

Open Scope Z_scope.

(** ** Groups *)

Section groups.
Context {A : Type}.
Implicit Types l k : list A.

Lemma groups_fuel n f l : (0 < n)%nat → (length l ≤ f)%nat → groups f n l = chunks_of n l.
Proof.
  intros Hn. unfold chunks_of. remember (length l) as m eqn:Hm. revert f l Hm.
  induction m as [m IH] using lt_wf_ind; intros f l Hm Hf.
  destruct l as [|x l]; [by destruct f, m|]. destruct m as [|m]; [done|]. destruct f as [|f]; [lia|].
  cbn [groups]. f_equal. assert (length (drop n (x :: l)) < S m)%nat by (rewrite length_drop; lia).
  rewrite (IH _ ltac:(eassumption) f) by lia. symmetry. by apply (IH (length (drop n (x :: l)))); lia.
Qed.

Lemma chunks_nil n : chunks_of n (@nil A) = [].
Proof. done. Qed.

Lemma chunks_step n l : (0 < n)%nat → l ≠ [] → chunks_of n l = take n l :: chunks_of n (drop n l).
Proof.
  intros Hn Hl. destruct l as [|x l]; [done|]. unfold chunks_of at 1. cbn [length groups]. f_equal.
  apply groups_fuel; [done|]. rewrite length_drop. simpl. lia.
Qed.

Lemma chunks_app n l k : (0 < n)%nat → (length l mod n = 0)%nat → chunks_of n (l ++ k) = chunks_of n l ++ chunks_of n k.
Proof.
  intros Hn. remember (length l) as m eqn:Hm. revert l Hm.
  induction m as [m IH] using lt_wf_ind; intros l Hm Hmod.
  destruct l as [|x l]; [done|]. assert (n ≤ m)%nat.
  { destruct (Nat.lt_ge_cases m n) as [Hlt|]; [|done]. rewrite Nat.mod_small in Hmod by done. simpl in Hm. lia. }
  rewrite (chunks_step n ((x :: l) ++ k)), (chunks_step n (x :: l)) by done.
  rewrite take_app_le, drop_app_le by lia. cbn [app]. f_equal.
  apply (IH (m - n)%nat); [lia|rewrite length_drop; lia|].
  rewrite <- (Nat.Div0.mod_add (m - n) 1 n). replace (m - n + 1 * n)%nat with m by lia. done.
Qed.

Lemma chunks_single n l : (0 < n)%nat → length l = n → chunks_of n l = [l].
Proof.
  intros Hn Hl. rewrite chunks_step by (done || (intros ->; simpl in Hl; lia)). rewrite firstn_all2, skipn_all2 by lia. done.
Qed.

Lemma length_chunks n l q : (0 < n)%nat → length l = (q * n)%nat → length (chunks_of n l) = q.
Proof.
  intros Hn. revert l. induction q as [|q IH]; intros l Hl; [destruct l; [done|discriminate]|].
  rewrite chunks_step by (done || (intros ->; simpl in Hl; lia)). cbn [length]. f_equal. apply IH.
  rewrite length_drop. lia.
Qed.

Lemma chunks_full n l : (0 < n)%nat → (length l mod n = 0)%nat → Forall (λ c, length c = n) (chunks_of n l).
Proof.
  intros Hn. remember (length l) as m eqn:Hm. revert l Hm.
  induction m as [m IH] using lt_wf_ind; intros l Hm Hmod.
  destruct l as [|x l]; [constructor|]. assert (n ≤ m)%nat.
  { destruct (Nat.lt_ge_cases m n) as [Hlt|]; [|done]. rewrite Nat.mod_small in Hmod by done. simpl in Hm. lia. }
  rewrite chunks_step by done. constructor; [rewrite length_take; lia|].
  apply (IH (m - n)%nat); [lia|rewrite length_drop; lia|].
  rewrite <- (Nat.Div0.mod_add (m - n) 1 n). replace (m - n + 1 * n)%nat with m by lia. done.
Qed.

Lemma chunks_concat n l : (0 < n)%nat → concat (chunks_of n l) = l.
Proof.
  intros Hn. remember (length l) as m eqn:Hm. revert l Hm.
  induction m as [m IH] using lt_wf_ind; intros l Hm.
  destruct l as [|x l]; [done|]. rewrite chunks_step by done. cbn [concat].
  rewrite (IH (length (drop n (x :: l)))); [by rewrite take_drop|rewrite length_drop; cbn [length] in *; lia|done].
Qed.
End groups.

(** ** Bytes and words *)

Lemma bswap_bytes w : le_bytes 4 (bswap32 w) = be_bytes 4 w.
Proof.
  unfold le_bytes, be_bytes, bswap32. cbn [fmap list_fmap seq].
  change (Z.of_nat 4 - 1 - Z.of_nat 0) with 3. change (Z.of_nat 4 - 1 - Z.of_nat 1) with 2.
  change (Z.of_nat 4 - 1 - Z.of_nat 2) with 1. change (Z.of_nat 4 - 1 - Z.of_nat 3) with 0.
  change (8 * Z.of_nat 0) with 0. change (8 * Z.of_nat 1) with 8. change (8 * Z.of_nat 2) with 16.
  change (8 * Z.of_nat 3) with 24. change (8 * 3) with 24. change (8 * 2) with 16. change (8 * 1) with 8. change (8 * 0) with 0.
  change (2 ^ 0) with 1. change (2 ^ 8) with 256. change (2 ^ 16) with 65536. change (2 ^ 24) with 16777216.
  do 4 (apply (f_equal2 cons); [Z.to_euclidean_division_equations; lia|]). done.
Qed.

Lemma bswap_word b : length b = 4%nat → Forall is_byte b → bswap32 (le_word b) = be_word b.
Proof.
  intros Hl Hb. destruct b as [|b0 [|b1 [|b2 [|b3 [|]]]]]; try discriminate.
  repeat match goal with H : Forall _ (_ :: _) |- _ => apply Forall_cons in H as [? H] end.
  unfold is_byte in *. unfold bswap32, le_word, be_word. cbn [fold_left fold_right].
  change (2 ^ 8) with 256 in *. change (2 ^ 16) with 65536. change (2 ^ 24) with 16777216.
  Z.to_euclidean_division_equations; lia.
Qed.

Lemma be_bytes_byte n w : Forall is_byte (be_bytes n w).
Proof. apply Forall_fmap, Forall_true. intros k. apply Z.mod_pos_bound. lia. Qed.

Lemma be_bytes_8 w : 0 ≤ w < 2 ^ 32 → be_bytes 8 w = [0; 0; 0; 0] ++ be_bytes 4 w.
Proof.
  intros Hw. unfold be_bytes. cbn [fmap list_fmap seq app].
  do 4 (apply (f_equal2 cons); [rewrite Z.div_small; [done|]; split; [lia|]; eapply Z.lt_le_trans; [apply Hw|]; by apply Z.pow_le_mono_r|]).
  reflexivity.
Qed.

(** ** The engine of the ESP32 *)

Section engine.
Context `{Sha256}.

Lemma copy_words_spec w reg i : (i + length w ≤ length reg)%nat →
  copy_words reg i w = take i reg ++ (bswap32 <$> w) ++ drop (i + length w) reg.
Proof.
  revert reg i. induction w as [|x w IH]; intros reg i Hl; cbn [copy_words length fmap list_fmap app] in *.
  - rewrite Nat.add_0_r. by rewrite take_drop.
  - rewrite IH by (rewrite length_insert; lia).
    rewrite (take_S_r (<[i := bswap32 x]> reg) i (bswap32 x)) by (apply list_lookup_insert_eq; lia).
    rewrite take_insert_ge by lia. rewrite drop_insert_lt by lia.
    rewrite <- app_assoc. cbn [app]. by replace (S i + length w)%nat with (i + S (length w))%nat by lia.
Qed.

(** The engine has got the words [ws]: whole blocks are in the digest, the others in the
    text registers. *)
Record fed (s : engine) (ws : list Z) : Prop := mkFed {
  fed_count : words_hashed s = zlen ws;
  fed_small : zlen ws < 2 ^ 32;
  fed_regs : length (sha_text_reg s) = 16%nat;
  fed_part : take (length ws mod 16) (sha_text_reg s) = drop (16 * (length ws / 16)) ws;
  fed_hash : (16 ≤ length ws)%nat →
    en_hash s = fold_left compress (chunks_of 16 (take (16 * (length ws / 16)) ws)) SHA_H0 }.

(** More words, up to the end of the block. *)
Lemma fed_more s ws (t : list Z) b : fed s ws → b = (length ws mod 16)%nat → (b + length t ≤ 16)%nat →
  zlen ws + zlen t < 2 ^ 32 →
  let regs := copy_words (sha_text_reg s) b t in
  let n := zlen ws + zlen t in
  fed (mkEngine n regs
         (if decide (b + length t = 16)%nat then compress (if n =? 16 then SHA_H0 else en_hash s) regs else en_hash s))
      (ws ++ (bswap32 <$> t)).
Proof.
  intros [Hc Hs Hr Hp Hh] -> Hle Hsm regs n.
  pose proof (Nat.div_mod_eq (length ws) 16) as Hdm. pose proof (Nat.mod_upper_bound (length ws) 16 ltac:(lia)) as Hub.
  set (q := (length ws / 16)%nat) in *. set (b := (length ws mod 16)%nat) in *. set (t' := bswap32 <$> t).
  assert (length t' = length t) as Ht' by apply length_fmap.
  assert (regs = take b (sha_text_reg s) ++ t' ++ drop (b + length t) (sha_text_reg s)) as Hregs by (apply copy_words_spec; lia).
  assert (length (take b (sha_text_reg s)) = b) as Hlb by (rewrite length_take; lia).
  assert (length (ws ++ t') = (16 * q + (b + length t))%nat) as Hlen by (rewrite length_app; lia).
  destruct (decide (b + length t = 16)%nat) as [Hfull|Hnot].
  - assert (regs = drop (16 * q) ws ++ t') as Hblock.
    { rewrite Hregs, (drop_ge (sha_text_reg s)), app_nil_r by lia. by rewrite Hp. }
    assert (length (ws ++ t') / 16 = S q)%nat as Hq by (rewrite Hlen, Hfull; replace (16 * q + 16)%nat with (S q * 16)%nat by lia; apply Nat.div_mul; lia).
    assert (length (ws ++ t') mod 16 = 0)%nat as Hm by (rewrite Hlen, Hfull; replace (16 * q + 16)%nat with (S q * 16)%nat by lia; apply Nat.Div0.mod_mul).
    split; cbn [words_hashed sha_text_reg en_hash].
    + unfold n. rewrite zlen_app. unfold t'. unfold zlen. rewrite length_fmap. lia.
    + rewrite zlen_app. unfold zlen in *. lia.
    + rewrite Hblock, length_app, length_drop. lia.
    + rewrite Hm, Hq, drop_ge by lia. done.
    + intros _. rewrite Hq, (take_ge (ws ++ t')) by lia.
      rewrite <- (take_drop (16 * q) ws) at 1. rewrite <- app_assoc, <- Hblock, chunks_app.
      2: lia. 2: { rewrite length_take, Nat.min_l by lia. rewrite Nat.mul_comm. apply Nat.Div0.mod_mul. }
      rewrite fold_left_app, (chunks_single 16 regs) by (rewrite ?Hblock, ?length_app, ?length_drop; lia).
      cbn [fold_left]. f_equal. destruct (Z.eqb_spec n 16) as [Hn|Hn].
      * assert (q = 0)%nat as -> by (unfold n, zlen in Hn; lia). done.
      * apply Hh. unfold n, zlen in Hn. lia.
  - assert (length (ws ++ t') / 16 = q)%nat as Hq by (rewrite Hlen, (Nat.mul_comm 16), Nat.div_add_l, Nat.div_small by lia; lia).
    assert (length (ws ++ t') mod 16 = b + length t)%nat as Hm.
    { rewrite Hlen, Nat.add_comm, (Nat.mul_comm 16), Nat.Div0.mod_add. apply Nat.mod_small. lia. }
    split; cbn [words_hashed sha_text_reg en_hash].
    + unfold n. rewrite zlen_app. unfold t'. unfold zlen. rewrite length_fmap. lia.
    + rewrite zlen_app. unfold zlen in *. lia.
    + rewrite Hregs, !length_app, length_drop, Hlb. lia.
    + rewrite Hm, Hq, Hregs, app_assoc, take_app_length' by (rewrite length_app; lia).
      rewrite Hp, drop_app_le by lia. done.
    + intros H16. rewrite Hq, take_app_le by lia. apply Hh. rewrite Hlen in H16. destruct q; lia.
Qed.

Lemma sha_turn_spec s ws w : fed s ws → w ≠ [] → zlen ws + zlen w < 2 ^ 32 →
  wp (sha_turn w) s (λ r s', ∃ t w', w = t ++ w' ∧ t ≠ [] ∧ r = inl w' ∧ fed s' (ws ++ (bswap32 <$> t))).
Proof.
  intros Hf Hw Hsm. unfold sha_turn. rewrite decide_False by done. wp_step. wp_step.
  pose proof (fed_count _ _ Hf) as Hc. set (b := (length ws mod 16)%nat).
  pose proof (Nat.mod_upper_bound (length ws) 16 ltac:(lia)).
  assert (words_hashed s mod BLOCK_WORDS = Z.of_nat b) as Hb.
  { rewrite Hc. unfold zlen, b, BLOCK_WORDS. change (64 / 4) with 16. by rewrite Nat2Z.inj_mod. }
  rewrite Hb. set (c := Z.min (zlen w) (BLOCK_WORDS - Z.of_nat b)). unfold BLOCK_WORDS in c. change (64 / 4) with 16 in c.
  assert (0 < zlen w) by (destruct w; [done|]; rewrite zlen_cons; pose proof (zlen_nonneg w); lia).
  set (t := take (Z.to_nat c) w). assert (zlen t = c) as Ht by (apply zlen_take; lia).
  pose proof (fed_more s ws t b Hf eq_refl ltac:(unfold zlen in *; lia) ltac:(lia)) as Hmore. cbv zeta in Hmore.
  rewrite Nat2Z.id. wp_step. wp_step. wp_step. wp_step.
  assert (u32 (words_hashed s + c) = zlen ws + zlen t) as Hu.
  { rewrite Hc, Ht. apply u32_small. pose proof (zlen_nonneg ws). lia. }
  rewrite Hu. cbn [words_hashed sha_text_reg en_hash]. wp_step.
  assert (∀ s', fed s' (ws ++ (bswap32 <$> t)) →
    wp (mret (inl (B := unit) (drop (Z.to_nat c) w))) s' (λ r s', ∃ t w', w = t ++ w' ∧ t ≠ [] ∧ r = inl w' ∧ fed s' (ws ++ (bswap32 <$> t)))) as Hend.
  { intros s' Hs'. apply wp_ret. exists t, (drop (Z.to_nat c) w). split_and!; [symmetry; apply take_drop| |done|done].
    intros Ht0. rewrite Ht0 in Ht. change (zlen []) with 0 in Ht. lia. }
  unfold BLOCK_WORDS. change (64 / 4) with 16. rewrite <- Ht in *.
  apply wp_when; intros Hfull; [apply Z.eqb_eq in Hfull|apply Z.eqb_neq in Hfull].
  - rewrite decide_True in Hmore by (unfold zlen in *; lia).
    destruct (zlen ws + zlen t =? 16); unfold SHA_256_START_REG, SHA_256_CONTINUE_REG; wp_step; by apply Hend.
  - rewrite decide_False in Hmore by (unfold zlen in *; lia). by apply Hend.
Qed.

Lemma chunks_bytes n (d : list Z) : (0 < n)%nat → Forall is_byte d → Forall (Forall is_byte) (chunks_of n d).
Proof. intros Hn Hd. rewrite <- (chunks_concat n d Hn) in Hd. by apply Forall_concat in Hd. Qed.

Lemma words_swapped d : Forall is_byte d → (length d mod 4 = 0)%nat → bswap32 <$> words_at d = be_word <$> chunks_of 4 d.
Proof.
  intros Hd Hm. unfold words_at. rewrite <- list_fmap_compose. apply list_fmap_ext. intros i b Hb.
  pose proof (chunks_full 4 d ltac:(lia) Hm) as Hfull. pose proof (chunks_bytes 4 d ltac:(lia) Hd) as Hbs.
  rewrite Forall_lookup in Hfull, Hbs. cbn. apply bswap_word; eauto.
Qed.

Lemma mod_nat (k : nat) (m : Z) (n : nat) : Z.of_nat n = m → (0 < n)%nat → Z.of_nat k mod m = 0 → (k mod n = 0)%nat.
Proof. intros <- Hn Hm. rewrite <- Nat2Z.inj_mod in Hm. lia. Qed.

Lemma length_words d : (length d mod 4 = 0)%nat → length (words_at d) = (length d / 4)%nat.
Proof.
  intros Hm. unfold words_at. rewrite length_fmap. apply length_chunks; [lia|].
  pose proof (Nat.div_mod_eq (length d) 4). lia.
Qed.

Lemma esp32_data_spec s ws h d : fed s ws → h ≠ 0 → Forall is_byte d → zlen d mod 4 = 0 → zlen ws + zlen d < 2 ^ 32 →
  wp (esp32_sha256_data h d) s (λ _ s', fed s' (ws ++ (be_word <$> chunks_of 4 d))).
Proof.
  intros Hf Hh Hd Hm Hsm. unfold esp32_sha256_data. rewrite (proj2 (Z.eqb_neq h 0)) by done. wp_step.
  apply wp_assert; [done|]. rewrite Hm. wp_step. apply wp_assert; [done|].
  assert (length d mod 4 = 0)%nat as Hm' by (apply (mod_nat _ 4); [done|lia|done]).
  pose proof (length_words d Hm') as Hlw.
  assert (length d / 4 ≤ length d)%nat by (apply Nat.Div0.div_le_upper_bound; lia).
  apply (wp_iter sha_turn (λ n w s, n = length w ∧ ∃ t, words_at d = t ++ w ∧ fed s (ws ++ (bswap32 <$> t))))
    with (n := length (words_at d)); [|split; [done|]|lia].
  - intros n w s' [-> (t & Ht & Hfed)]. destruct (decide (w = [])) as [->|Hw].
    + unfold sha_turn. rewrite decide_True by done. apply wp_ret. rewrite app_nil_r in Ht. subst t.
      by rewrite words_swapped in Hfed.
    + assert (length t + length w = length d / 4)%nat by (rewrite <- Hlw, Ht, length_app; lia).
      eapply wp_mono; [eapply sha_turn_spec; [exact Hfed|done|]|].
      * rewrite zlen_app. unfold zlen in *. rewrite length_fmap. lia.
      * intros r s'' (t' & w' & -> & Ht' & -> & Hfed'). exists (length w'). split.
        -- rewrite length_app. destruct t'; [done|]. simpl. lia.
        -- split; [done|]. exists (t ++ t'). rewrite fmap_app, app_assoc, <- (app_assoc t). by split.
  - exists []. split; [done|]. by rewrite app_nil_r.
Qed.

(** The padding of the code is that of the standard. *)
Lemma pad_split msg : 0 ≤ 8 * zlen msg < 2 ^ 32 →
  sha_pad msg = msg ++ (0x80 :: replicate (zeros msg + 4) 0) ++ be_bytes 4 (8 * zlen msg).
Proof.
  intros Hl. unfold sha_pad. rewrite be_bytes_8 by done. f_equal. cbn [app]. f_equal.
  rewrite replicate_add, <- app_assoc. done.
Qed.

Lemma take_padding n : (1 ≤ n ≤ 64)%nat → take n padding = 0x80 :: replicate (n - 1) 0.
Proof.
  intros Hn. unfold padding. destruct n as [|n]; [lia|]. cbn [take]. f_equal.
  rewrite take_replicate. f_equal. lia.
Qed.

Lemma pad_bytes_zeros n : 0 ≤ n → n mod 4 = 0 → n mod 64 ≠ 56 →
  let p := 55 - n mod 64 in
  (if p <? 0 then p + 64 else p) + 5 = (55 - n) mod 64 + 5 ∧ (55 - n) mod 64 + 5 ≤ 64 ∧ ((55 - n) mod 64 + 5) mod 4 = 0.
Proof.
  intros Hn H4 H56 p. destruct (Z.ltb_spec p 0); unfold p in *; Z.to_euclidean_division_equations; lia.
Qed.

Lemma fold_compress_length bl h : bl ≠ [] → length (fold_left compress bl h) = 8%nat.
Proof.
  intros Hne. destruct (exists_last Hne) as (l & b & ->). rewrite fold_left_app. apply compress_length.
Qed.

Lemma words_count bs : zlen bs mod 4 = 0 → 4 * zlen (be_word <$> chunks_of 4 bs) = zlen bs.
Proof.
  intros Hm. assert (length bs mod 4 = 0)%nat as Hm' by (apply (mod_nat _ 4); [done|lia|done]).
  pose proof (length_words bs Hm') as Hl. unfold words_at in Hl. rewrite length_fmap in Hl.
  unfold zlen. rewrite length_fmap, Hl. pose proof (Nat.div_mod_eq (length bs) 4). lia.
Qed.

(** The words that the code gives to the engine in the end. *)
Lemma padded_words bs : zlen bs mod 4 = 0 → 8 * zlen bs < 2 ^ 32 → ((55 - zlen bs) mod 64 + 5) mod 4 = 0 →
  (be_word <$> chunks_of 4 bs) ++ (be_word <$> chunks_of 4 (0x80 :: replicate (zeros bs + 4) 0))
    ++ (be_word <$> chunks_of 4 (be_bytes 4 (8 * zlen bs))) = be_word <$> chunks_of 4 (sha_pad bs).
Proof.
  intros Hm Hs Hp. pose proof (zlen_nonneg bs). rewrite pad_split by lia.
  assert (length bs mod 4 = 0)%nat by (apply (mod_nat _ 4); [done|lia|done]).
  rewrite (chunks_app 4 bs), fmap_app by (done || lia). f_equal.
  rewrite (chunks_app 4), fmap_app; [done|lia|]. apply (mod_nat _ 4); [done|lia|].
  cbn [length]. rewrite length_replicate. unfold zeros. pose proof (Z.mod_pos_bound (55 - zlen bs) 64).
  replace (Z.of_nat (S (Z.to_nat ((55 - zlen bs) mod 64) + 4))) with ((55 - zlen bs) mod 64 + 5) by lia. done.
Qed.

Lemma esp32_finish_spec s h bs : fed s (be_word <$> chunks_of 4 bs) → h ≠ 0 → zlen bs mod 4 = 0 → zlen bs < SHA_MAX →
  zlen bs mod 64 ≠ 56 → wp (esp32_sha256_finish h true) s (λ d s', d = sha256 bs ∧ length (sha_text_reg s') = 16%nat).
Proof.
  intros Hf Hh Hm Hsm H56. unfold SHA_MAX in Hsm. pose proof (zlen_nonneg bs) as Hnn. unfold esp32_sha256_finish.
  rewrite (proj2 (Z.eqb_neq h 0)) by done. wp_step. apply wp_assert; [done|]. cbn [negb]. wp_step. wp_step.
  pose proof (words_count bs Hm) as Hw. rewrite (fed_count _ _ Hf).
  assert (zlen (be_word <$> chunks_of 4 bs) mod BLOCK_WORDS * 4 = zlen bs mod 64) as ->.
  { rewrite <- Hw. unfold BLOCK_WORDS. change (64 / 4) with 16. change 64 with (4 * 16). rewrite Zmult_mod_distr_l. lia. }
  destruct (pad_bytes_zeros (zlen bs) Hnn Hm H56) as (Hpad & Hle & Hp4). rewrite Hpad. set (n := (55 - zlen bs) mod 64 + 5) in *.
  assert (0 ≤ (55 - zlen bs) mod 64 < 64) by (apply Z.mod_pos_bound; lia).
  rewrite Hp4. wp_step. apply wp_assert; [done|]. wp_step. unfold read_padding.
  change (zlen padding) with 64. rewrite (proj2 (Z.leb_le 0 n)), (proj2 (Z.leb_le n 64)) by lia. cbn [andb]. wp_step. wp_step.
  set (ws := be_word <$> chunks_of 4 bs) in *.
  assert (take (Z.to_nat n) padding = 0x80 :: replicate (zeros bs + 4) 0) as Htp.
  { rewrite take_padding by lia. do 2 f_equal. unfold zeros. lia. }
  assert (zlen (0x80 :: replicate (zeros bs + 4) 0) = n) as Hpl.
  { rewrite zlen_cons. unfold zlen. rewrite length_replicate. unfold zeros. lia. }
  rewrite Htp. eapply wp_mono; [apply (esp32_data_spec s ws); [done|done| |by rewrite Hpl|rewrite Hpl; lia]|].
  { constructor; [by unfold is_byte|]. apply Forall_replicate. by unfold is_byte. }
  intros [] s1 Hf1. wp_step. wp_step. pose proof (words_count (0x80 :: replicate (zeros bs + 4) 0)) as Hpw. rewrite Hpl in Hpw.
  specialize (Hpw Hp4). rewrite (fed_count _ _ Hf1), zlen_app. set (pw := be_word <$> chunks_of 4 (0x80 :: replicate (zeros bs + 4) 0)) in *.
  assert (zlen ws + zlen pw = 16 * ((zlen bs + n + 4) / 64) - 1) as Hcnt by (unfold n in *; Z.to_euclidean_division_equations; lia).
  wp_step. apply wp_assert.
  { rewrite Hcnt. unfold BLOCK_WORDS. apply Z.eqb_eq. change (64 / 4) with 16. change (60 / 4) with 15.
    Z.to_euclidean_division_equations; lia. }
  rewrite (u32_small (zlen ws * 32)) by lia. replace (zlen ws * 32) with (8 * zlen bs) by lia. rewrite bswap_bytes.
  wp_step. eapply wp_mono; [apply (esp32_data_spec s1 (ws ++ pw)); [done|done|apply be_bytes_byte|done|]|].
  { rewrite zlen_app. change (zlen (be_bytes 4 _)) with 4. lia. }
  intros [] s2 Hf2. rewrite <- app_assoc in Hf2. unfold ws, pw in Hf2. rewrite padded_words in Hf2 by (done || lia).
  assert (zlen (be_word <$> chunks_of 4 (sha_pad bs)) = 16 * ((zlen bs + n + 4) / 64)) as Htot.
  { rewrite <- padded_words by (done || lia). fold ws pw. rewrite !zlen_app. change (zlen (be_word <$> chunks_of 4 (be_bytes 4 _))) with 1. lia. }
  wp_step. wp_step. rewrite (fed_count _ _ Hf2), Htot. wp_step. apply wp_assert.
  { unfold BLOCK_WORDS. change (64 / 4) with 16. rewrite Z.mul_comm, Z_mod_mult. done. }
  unfold SHA_256_LOAD_REG. wp_steps. cbn [sha_text_reg]. rewrite <- list_fmap_compose.
  set (all := be_word <$> chunks_of 4 (sha_pad bs)) in *.
  assert (∃ q, length all = (S q * 16)%nat) as (q & Hq).
  { exists (Z.to_nat ((zlen bs + n + 4) / 64) - 1)%nat. unfold zlen in Htot. assert (1 ≤ (zlen bs + n + 4) / 64); [|unfold zlen in *; lia].
    unfold n in *. Z.to_euclidean_division_equations; lia. }
  assert (en_hash s2 = fold_left compress (sha_blocks bs) SHA_H0) as Hen.
  { rewrite (fed_hash _ _ Hf2) by lia. unfold sha_blocks. fold all. rewrite Hq, Nat.div_mul, take_ge by lia. done. }
  rewrite Hen. unfold sha256. change (Z.to_nat DIGEST_WORDS) with 8%nat.
  assert (length (fold_left compress (sha_blocks bs) SHA_H0) = 8%nat) as H8.
  { apply fold_compress_length. unfold sha_blocks. fold all. intros Hnil.
    pose proof (length_chunks 16 all (S q) ltac:(lia) Hq) as Hlc. by rewrite Hnil in Hlc. }
  split; [|rewrite length_app, length_take, length_drop, (fed_regs _ _ Hf2); lia]. f_equal.
  rewrite take_app_le by (rewrite length_take; lia). rewrite take_take. change (8 `min` 8)%nat with 8%nat.
  apply list_fmap_ext. intros i w _. apply bswap_bytes.
Qed.

Definition esp32_open (s : engine) (h : Z) (bs : list Z) : Prop :=
  h = 1 ∧ Forall is_byte bs ∧ zlen bs mod 4 = 0 ∧ zlen bs < SHA_MAX ∧ fed s (be_word <$> chunks_of 4 bs).

Lemma esp32_start_spec s : length (sha_text_reg s) = 16%nat →
  wp esp32_sha256_start s (λ r s', r = Some 1 ∧ esp32_open s' 1 []).
Proof.
  intros Hl. unfold esp32_sha256_start. wp_steps. split; [done|]. split_and!; [done|done|done|done|].
  split; cbn; [done|done|done|done|lia].
Qed.

Lemma esp32_open_data s h bs d : esp32_open s h bs → Forall is_byte d → zlen d mod 4 = 0 → zlen bs + zlen d < SHA_MAX →
  wp (esp32_sha256_data h d) s (λ _ s', esp32_open s' h (bs ++ d)).
Proof.
  unfold SHA_MAX. intros (-> & Hb & Hm & Hs & Hf) Hd Hmd Hsm. pose proof (words_count bs Hm). pose proof (zlen_nonneg bs).
  eapply wp_mono; [apply (esp32_data_spec _ _ _ _ Hf); (done || lia)|]. intros [] s' Hf'. unfold esp32_open, SHA_MAX.
  rewrite zlen_app, chunks_app, fmap_app.
  - split_and!; [done|by apply Forall_app|rewrite Z.add_mod, Hm, Hmd; done|done|done].
  - lia.
  - apply (mod_nat _ 4); [done|lia|done].
Qed.

#[export] Instance esp32_laws : ShaLaws engine.
Proof.
  refine {| sha_open := esp32_open; sha_idle s := length (sha_text_reg s) = 16%nat; sha_ready _ := True |}.
  - intros s Q Hi Hopen _. eapply wp_mono; [by apply esp32_start_spec|]. intros r s' [-> Ho]. by apply Hopen.
  - intros s h bs d Q Ho Hd Hm Hs HQ. eapply wp_mono; [by eapply esp32_open_data|]. intros [] s' Ho'. by apply HQ.
  - intros s h bs [] Q (-> & Hb & Hm & Hs & Hf) Hw HQ.
    + specialize (Hw eq_refl). eapply wp_mono; [apply (esp32_finish_spec _ _ _ Hf); try done|].
      { intros H56. pose proof (Z.div_mod (zlen bs) 64). pose proof (Z.div_mod (zlen bs) 16). lia. }
      intros d s' [-> Hl]. by apply HQ.
    + unfold wp. cbn. apply HQ; [apply Hf|done].
Defined.

(** ** The library and the ROM *)

(** A context that is not started belongs to nobody. *)
Definition mb_wf (s : mbedtls) : Prop := 0 < mb_next s ∧ ∀ h c, mb_contexts s !! h = Some c → 0 < h < mb_next s.

Definition mb_none_open (s : mbedtls) : Prop := ∀ h c, mb_contexts s !! h = Some c → mb_started c = false.

Definition mb_open (s : mbedtls) (h : Z) (bs : list Z) : Prop :=
  mb_wf s ∧ mb_contexts s !! h = Some (mkMb bs true) ∧
  ∀ h' c, h' ≠ h → mb_contexts s !! h' = Some c → mb_started c = false.

#[export] Instance mbedtls_laws : ShaLaws mbedtls.
Proof.
  refine {| sha_open := mb_open; sha_idle s := mb_wf s ∧ mb_none_open s;
            sha_ready s := hd true (mb_malloc s) = true ∧ hd 0 (mb_starts s) = 0 |}.
  - intros s Q [[Hp Hwf] Hno] Hopen Hfail. unfold wp. cbn. unfold app_sha256_start, malloc_context, mbind, M_bind, mbedtls_sha256_starts.
    assert (∀ h c m st, 0 < h < mb_next s + 1 → ∀ h' c', <[h := c]> (mb_contexts s) !! h' = Some c' →
      0 < h' < mb_next (mkMbedtls (<[h := c]> (mb_contexts s)) (mb_next s + 1) m st)) as Hins.
    { intros h c m st Hh h' c' Hl. cbn. apply lookup_insert_Some in Hl as [[<- _]|[_ Hl]]; [lia|]. apply Hwf in Hl. lia. }
    destruct (hd true (mb_malloc s)) eqn:Em; cbn.
    + destruct (Z.eqb_spec (hd 0 (mb_starts s)) 0) as [E0|E0]; cbn.
      * apply Hopen. split; [split; cbn; [lia|]|split; cbn; [by rewrite lookup_insert_eq|]].
        -- rewrite insert_insert_eq. apply (Hins _ _ [] []); lia.
        -- intros h' c Hne. rewrite insert_insert_eq, lookup_insert_ne by done. apply Hno.
      * apply Hfail; [tauto|]. split; [split; cbn; [lia|apply (Hins _ _ [] []); lia]|]. intros h' c. cbn.
        intros [[_ <-]|[_ Hl]]%lookup_insert_Some; [done|by eapply Hno].
    + apply Hfail; [naive_solver|]. done.
  - intros s h bs d Q ((Hp & Hwf) & Hh & Hno) Hd Hm Hs HQ. unfold wp. cbn. unfold app_sha256_data, mbind, M_bind.
    pose proof (Hwf _ _ Hh). unfold assertM. rewrite (proj2 (Z.eqb_neq h 0)) by lia. cbn. unfold context. rewrite Hh. cbn.
    apply HQ. split; [split; cbn; [done|]|split; cbn; [by rewrite lookup_insert_eq|]].
    + intros h' c [[<- _]|[_ Hl]]%lookup_insert_Some; [done|by eapply Hwf].
    + intros h' c Hne. rewrite lookup_insert_ne by done. by apply Hno.
  - intros s h bs want Q ((Hp & Hwf) & Hh & Hno) _ HQ. unfold wp. cbn. unfold app_sha256_finish, mbind, M_bind.
    pose proof (Hwf _ _ Hh). unfold assertM. rewrite (proj2 (Z.eqb_neq h 0)) by lia. cbn.
    destruct want; unfold context; cbn; rewrite ?Hh; cbn; rewrite ?Hh; cbn; apply HQ; try done;
      (split; [split; cbn; [done|]|]; intros h' c; cbn; intros [Hne Hl]%lookup_delete_Some; [by eapply Hwf|by eapply Hno; [|exact Hl]]).
Defined.

#[export] Instance rom_laws : ShaLaws rom_sha.
Proof.
  refine {| sha_open s h bs := h = 1 ∧ rom_busy s = true ∧ rom_ctx s = bs; sha_idle s := rom_busy s = false; sha_ready _ := True |}.
  - intros s Q _ Hopen _. by apply Hopen.
  - intros s h bs d Q (-> & Hb & <-) _ _ _ HQ. by apply HQ.
  - intros s h bs [] Q (-> & Hb & <-) _ HQ; by apply HQ.
Defined.
End engine.

(** ** Properties *)

(** A digest over pieces of data. *)
Section digest.
Context `{Sha256} {T : Type} `{!ShaDriver T}.

Fixpoint data_all (h : Z) (pieces : list (list Z)) : M T unit :=
  match pieces with
  | [] => mret ()
  | d :: l => bootloader_sha256_data h d;; data_all h l
  end.

Definition digest_of (pieces : list (list Z)) : M T (option (list Z)) :=
  h ← bootloader_sha256_start;
  match h with
  | None => mret None
  | Some h => data_all h pieces;; d ← bootloader_sha256_finish h true; mret (Some d)
  end.
End digest.

Definition piece_ok (d : list Z) : Prop := Forall is_byte d ∧ zlen d mod 4 = 0.

Section props.
Context `{Sha256}.

Lemma data_all_spec pieces s h bs : esp32_open s h bs → Forall piece_ok pieces → zlen bs + zlen (concat pieces) < SHA_MAX →
  wp (data_all h pieces) s (λ _ s', esp32_open s' h (bs ++ concat pieces)).
Proof.
  revert s bs. induction pieces as [|d l IH]; intros s bs Ho Hp Hs; cbn [data_all concat] in *.
  - apply wp_ret. by rewrite app_nil_r.
  - apply Forall_cons in Hp as [[Hd Hm] Hl]. rewrite zlen_app in Hs. pose proof (zlen_nonneg (concat l)).
    wp_step. eapply wp_mono; [apply esp32_open_data; (done || lia)|]. intros [] s1 Ho1.
    eapply wp_mono; [apply IH; [done|done|rewrite zlen_app; lia]|]. intros [] s2 Ho2. by rewrite app_assoc.
Qed.

(** C20: however the data is cut into pieces of whole words, the engine of the ESP32 gets the
    blocks of the padded message in order, and the digest that the code reads from it is
    SHA-256 of the data.  No assertion fails and no access is out of bounds, if the length
    is below 512 MB and is not 56 modulo 64. *)
Theorem esp32_digest pieces s :
  length (sha_text_reg s) = 16%nat → Forall piece_ok pieces →
  zlen (concat pieces) < SHA_MAX → zlen (concat pieces) mod 64 ≠ 56 →
  wp (digest_of pieces) s (λ r _, r = Some (sha256 (concat pieces))).
Proof.
  intros Hl Hp Hs H56. unfold digest_of. wp_step. eapply wp_mono; [by apply esp32_start_spec|].
  intros r s1 [-> Ho]. wp_step. eapply wp_mono; [by apply data_all_spec|]. intros [] s2 (_ & Hb & Hm & Hs2 & Hf).
  wp_step. eapply wp_mono; [by apply (esp32_finish_spec _ _ _ Hf)|]. intros d s3 [-> _]. by apply wp_ret.
Qed.

(** When the length is 56 modulo 64 the code takes 68 bytes from an array of 64. *)
Theorem esp32_padding_overrun s bs :
  esp32_open s 1 bs → zlen bs mod 64 = 56 → esp32_sha256_finish 1 true s = MemFault.
Proof.
  intros (_ & Hb & Hm & Hs & Hf) H56. unfold esp32_sha256_finish, mbind, M_bind, assertM, get. cbn.
  rewrite (fed_count _ _ Hf). pose proof (words_count bs Hm) as Hw.
  assert (zlen (be_word <$> chunks_of 4 bs) mod BLOCK_WORDS * 4 = 56) as ->; [|done].
  rewrite <- H56, <- Hw. unfold BLOCK_WORDS. change (64 / 4) with 16. change 64 with (4 * 16).
  rewrite Zmult_mod_distr_l. lia.
Qed.

(** When the library cannot start a digest, the memory of its context is lost. *)
Theorem sha256_start_leaks s r :
  mb_wf s → hd true (mb_malloc s) = true → hd 0 (mb_starts s) = r → r ≠ 0 →
  wp app_sha256_start s (λ h s', h = None ∧ size (mb_contexts s') = S (size (mb_contexts s)) ∧ mb_contexts s ⊆ mb_contexts s').
Proof.
  intros [Hp Hwf] Hm Hr Hne. unfold wp, app_sha256_start, malloc_context, mbind, M_bind, mbedtls_sha256_starts.
  rewrite Hm. cbn. rewrite Hr, (proj2 (Z.eqb_neq r 0)) by done. cbn.
  assert (mb_contexts s !! mb_next s = None) as Hfresh.
  { destruct (mb_contexts s !! mb_next s) as [c|] eqn:E; [|done]. apply Hwf in E. lia. }
  split_and!; [done|by apply map_size_insert_None|by apply insert_subseteq].
Qed.
End props.

(** *** Witnesses: a compression function that can be evaluated *)

(** It mixes the words of the block into the state; only its length matters here. *)
Definition mix (h b : list Z) : list Z :=
  (λ i, u32 (2 * (h !!! i) + (b !!! i) + 3 * (b !!! (i + 8)%nat) + Z.of_nat i)) <$> seq 0 8.

Definition mix_sha : Sha256 := {| SHA_H0 := replicate 8 1; compress := mix; compress_length h b := eq_refl |}.
#[local] Existing Instance mix_sha.

Definition engine0 : engine := mkEngine 7 (replicate 16 0xAA) [].

Lemma esp32_digest_witness :
  (∃ s', digest_of [[1;2;3;4]; replicate 72 7; []] engine0 = Done s' (Some (sha256 ([1;2;3;4] ++ replicate 72 7)))) ∧
  wp (digest_of [[1;2;3;4]; replicate 72 7; []]) engine0 (λ r _, r = Some (sha256 (concat [[1;2;3;4]; replicate 72 7; []]))).
Proof.
  split; [eexists; vm_compute; reflexivity|].
  apply (esp32_digest [[1;2;3;4]; replicate 72 7; []] engine0); [done| |done|done].
  repeat constructor; unfold is_byte; lia.
Defined.

Lemma esp32_padding_overrun_witness :
  ∃ s : engine, digest_of [replicate 56 7] engine0 = MemFault ∧ esp32_sha256_finish 1 true s = MemFault.
Proof.
  exists (mkEngine 14 (replicate 14 (be_word [7;7;7;7]) ++ [0xAA; 0xAA]) []). split; [vm_compute; reflexivity|].
  apply (esp32_padding_overrun _ (replicate 56 7)); [|reflexivity].
  split_and!; [done|by apply Forall_replicate|done|done|split; vm_compute; [done|done|done|done|]].
  intros Hle. lia.
Defined.

Definition mbedtls0 : mbedtls := mkMbedtls ∅ 1 [] [-1].

Lemma sha256_start_leaks_witness :
  wp app_sha256_start mbedtls0 (λ h s', h = None ∧ size (mb_contexts s') = S (size (mb_contexts mbedtls0)) ∧
    mb_contexts mbedtls0 ⊆ mb_contexts s').
Proof. apply (sha256_start_leaks mbedtls0 (-1)); [by split|done|done|done]. Defined.
