(* ===== verification/ImageFlash.v ===== *)
(** * Reading flash for images: [bootloader_support/bootloader_flash/src/bootloader_flash.c]

    Images are read and mapped through functions that exist twice: for applications on top
    of the flash driver, for the bootloader on the MMU.  [ImageFlash] is their interface,
    [ImageFlashLaws] what the verification of images relies on, and both versions satisfy
    it. *)
From Stdlib Require Import ZArith Lia.
From stdpp Require Import base numbers option list.
From S2P Require Import Prelude Flash.

Open Scope Z_scope.

(** ** The interface *)

(** A mapping is the memory it shows, by flash address, and the address of its end. *)
Class ImageFlash (F : Type) : Type := {
  bootloader_flash_read : Z → Z → M F (esp_err_t * list Z);
  bootloader_mmap : Z → Z → M F (option (mem * Z));
  bootloader_munmap : M F unit;
  bootloader_mmap_get_free_pages : F → Z
}.

(** The pages that a mapping of [n] bytes at [a] needs are there. *)
Definition page_room (pages a n : Z) : Prop := a mod MMU_PAGE_SIZE + n ≤ pages * MMU_PAGE_SIZE.

(** [content]: what a reader sees.  [idle]: nothing is mapped, [busy]: something is.
    [works f k]: operations on the first [k] bytes succeed, as long as they are on whole
    words and pages are free. *)
Class ImageFlashLaws (F : Type) `{!ImageFlash F} : Type := {
  content : F → mem;
  idle : F → Prop;
  busy : F → Prop;
  works : F → Z → Prop;
  content_byte f x : is_byte (content f x);
  image_read_law f a n (Q : esp_err_t * list Z → F → Prop) : idle f → 0 ≤ a → 0 ≤ n → a + n < 2 ^ 32 →
    (∀ r bs f', idle f' → (∀ x, content f' x = content f x) →
       bootloader_mmap_get_free_pages f' = bootloader_mmap_get_free_pages f →
       (∀ k, works f k → works f' k ∧
          (a mod 4 = 0 → n mod 4 = 0 → a + n ≤ k → page_room (bootloader_mmap_get_free_pages f) a n → r = ESP_OK)) →
       (r = ESP_OK → bs = ldbytes (content f) a n) → Q (r, bs) f') →
    wp (bootloader_flash_read a n) f Q;
  image_mmap_law f a n (Q : option (mem * Z) → F → Prop) : idle f → 0 ≤ a → 0 < n → a + n < 2 ^ 32 →
    (∀ f', idle f' → (∀ x, content f' x = content f x) →
       bootloader_mmap_get_free_pages f' = bootloader_mmap_get_free_pages f →
       (∀ k, works f k → works f' k) →
       (∀ k, works f k → a + n ≤ k → page_room (bootloader_mmap_get_free_pages f) a n → False) → Q None f') →
    (∀ m e f', busy f' → (∀ x, content f' x = content f x) →
       bootloader_mmap_get_free_pages f' = bootloader_mmap_get_free_pages f →
       (∀ k, works f k → works f' k) → a + n ≤ e → (∀ x, a ≤ x < e → m x = content f x) → Q (Some (m, e)) f') →
    wp (bootloader_mmap a n) f Q;
  image_munmap_law f (Q : unit → F → Prop) : busy f →
    (∀ f', idle f' → (∀ x, content f' x = content f x) →
       bootloader_mmap_get_free_pages f' = bootloader_mmap_get_free_pages f →
       (∀ k, works f k → works f' k) → Q () f') →
    wp bootloader_munmap f Q
}.

(** ** In an application: on the flash driver *)

(** The flash and the handle [map] of the mapping in use. *)
Record app_flash (F : Type) : Type := mkApp { app_fl : F; map_handle : bool }.
Arguments mkApp {F} app_fl map_handle.
Arguments app_fl {F} a.
Arguments map_handle {F} a.

Section app.
Context {F : Type} `{!FlashDriver F}.

Definition flashA {A} (m : M F A) : M (app_flash F) A := zoom app_fl (λ f s, mkApp f (map_handle s)) m.

(** Of [spi_flash/esp_flash_api.c]: reading through the cache. *)
Definition esp_flash_read_encrypted (address length : Z) : M F (esp_err_t * list Z) :=
  if chip_size esp_flash_default_chip <? u32 (address + length) then mret (ESP_ERR_INVALID_SIZE, []) else
  if length =? 0 then mret (ESP_OK, []) else
  let map_src := clear address (MMU_PAGE_SIZE - 1) in
  let map_size := u32 (length + (address - map_src)) in
  r ← spi_flash_mmap map_src map_size;
  if decide (r.1 = ESP_OK) then mret (ESP_OK, ldbytes r.2 address length) else mret (r.1, []).

Definition app_flash_read (src size : Z) : M (app_flash F) (esp_err_t * list Z) :=
  if esp_flash_encryption_enabled then flashA (esp_flash_read_encrypted src size)
  else flashA (esp_flash_read esp_flash_default_chip src size).

Definition app_mmap (src_addr size : Z) : M (app_flash F) (option (mem * Z)) :=
  s ← get;
  if map_handle s then mret None else
  let src_page := clear src_addr (MMU_PAGE_SIZE - 1) in
  let size := u32 (size + (src_addr - src_page)) in
  r ← flashA (spi_flash_mmap src_page size);
  if decide (r.1 = ESP_OK) then
    modify (λ s, mkApp (app_fl s) true);;
    mret (Some (r.2, src_page + whole_pages size))
  else mret None.

Definition app_munmap : M (app_flash F) unit := modify (λ s, mkApp (app_fl s) false).

#[export] Instance app_image_flash : ImageFlash (app_flash F) := {|
  bootloader_flash_read := app_flash_read;
  bootloader_mmap := app_mmap;
  bootloader_munmap := app_munmap;
  bootloader_mmap_get_free_pages s := spi_flash_mmap_get_free_pages (app_fl s)
|}.
End app.

(** ** In the bootloader: on the MMU

    [bf_window] is the page that the entry reserved for reading shows. *)
Record boot_flash : Type := mkBoot {
  bf_window : Z; mapped : bool; current_mapped_size : Z; current_read_mapping : Z }.

Section boot.
(** [flash]: what the cache makes of the flash; [MMAP_MMU_SIZE]: the size of the memory for mappings; [valid_region]: the check of the
    MMU driver, [mmu_ll_check_valid_ext_vaddr_region], for a mapping of a size. *)
Context (flash : mem) (MMAP_MMU_SIZE : Z) (valid_region : Z → bool).

Definition MMU_FREE_PAGES : Z := MMAP_MMU_SIZE / MMU_PAGE_SIZE.

Definition boot_mmap (src_paddr size : Z) : M boot_flash (option (mem * Z)) :=
  s ← get;
  if mapped s then mret None else
  if MMAP_MMU_SIZE <? size then mret None else
  let src_paddr_aligned := clear src_paddr (MMU_PAGE_SIZE - 1) in
  let size_after_paddr_aligned := u32 ((src_paddr - src_paddr_aligned) + size) in
  if negb (valid_region size_after_paddr_aligned) then mret None else
  let actual_mapped_len := whole_pages size_after_paddr_aligned in
  modify (λ s, mkBoot (bf_window s) true actual_mapped_len (current_read_mapping s));;
  mret (Some (flash, src_paddr_aligned + actual_mapped_len)).

Definition boot_munmap : M boot_flash unit :=
  s ← get;
  whenM (mapped s) (modify (λ s, mkBoot (bf_window s) false 0 (current_read_mapping s))).

(** A turn of the loop: the window moves to the page of the word. *)
Definition read_word (word_src : Z) : M boot_flash (list Z) :=
  let map_at := clear word_src (MMU_PAGE_SIZE - 1) in
  s ← get;
  whenM (negb (map_at =? current_read_mapping s))
    (modify (λ s, mkBoot map_at (mapped s) (current_mapped_size s) map_at));;
  s ← get;
  modify (λ s, mkBoot (bf_window s) (mapped s) (current_mapped_size s) (2 ^ 32 - 1));;
  mret (ldbytes flash (bf_window s + (word_src - map_at)) 4).

Fixpoint read_words (src : Z) (n : nat) : M boot_flash (list Z) :=
  match n with
  | O => mret []
  | S n => w ← read_word (u32 src); l ← read_words (src + 4) n; mret (w ++ l)
  end.

(** The destinations of the code are aligned. *)
Definition boot_flash_read (src_addr size : Z) : M boot_flash (esp_err_t * list Z) :=
  if flag src_addr 3 then mret (ESP_FAIL, []) else
  if flag size 3 then mret (ESP_FAIL, []) else
  bs ← read_words src_addr (Z.to_nat (size / 4));
  mret (ESP_OK, bs).

Definition boot_image_flash : ImageFlash boot_flash := {|
  bootloader_flash_read := boot_flash_read;
  bootloader_mmap := boot_mmap;
  bootloader_munmap := boot_munmap;
  bootloader_mmap_get_free_pages _ := MMU_FREE_PAGES
|}.
End boot.

(** ** Lemmas *)

Lemma flag_mod4 x : flag x 3 = negb (x mod 4 =? 0).
Proof. unfold flag. f_equal. f_equal. change 3 with (Z.ones 2). by rewrite Z.land_ones by lia. Qed.

Lemma clear_page x : clear x (MMU_PAGE_SIZE - 1) = x - x mod MMU_PAGE_SIZE.
Proof.
  unfold clear, MMU_PAGE_SIZE. change (0x10000 - 1) with (Z.ones 16). rewrite Z.ldiff_ones_r by lia.
  rewrite Z.shiftl_mul_pow2, Z.shiftr_div_pow2 by lia. change (2 ^ 16) with 0x10000.
  pose proof (Z.div_mod x 0x10000). lia.
Qed.

Lemma page_mod x : 0 ≤ x mod MMU_PAGE_SIZE < MMU_PAGE_SIZE.
Proof. apply Z.mod_pos_bound. unfold MMU_PAGE_SIZE. lia. Qed.

(** *** The version for applications *)

(** A flash whose operations succeed, as far as pages are free. *)
Class WorkingFlash (F : Type) `{!FlashDriver F} : Type := {
  working : F → Prop;
  working_read f c a n : working f →
    wp (esp_flash_read c a n) f (λ r f', working f' ∧ (0 ≤ a → a + n ≤ chip_size c → r.1 = ESP_OK));
  working_mmap f a n : working f →
    wp (spi_flash_mmap a n) f (λ r f', working f' ∧
      (0 ≤ a → a + n ≤ chip_size esp_flash_default_chip → n ≤ spi_flash_mmap_get_free_pages f * MMU_PAGE_SIZE → r.1 = ESP_OK))
}.

#[export] Instance nor_working : WorkingFlash nor.
Proof.
  refine {| working f := nor_answers f = [] |}.
  - intros [b l p] c a n Hw. cbn in Hw. subst l. done.
  - intros [b l p] a n Hw. cbn in Hw. subst l. done.
Defined.

Section app_laws.
Context {F : Type} `{!FlashDriver F, !FlashLaws F, !WorkingFlash F}.
Implicit Types s : app_flash F.

Definition app_content s : mem := seen esp_flash_encryption_enabled (app_fl s) esp_flash_default_chip.
Definition app_works s (k : Z) : Prop := working (app_fl s) ∧ k ≤ chip_size esp_flash_default_chip.

Lemma app_read_encrypted_law f a n : 0 ≤ a → 0 ≤ n → a + n < 2 ^ 32 →
  wp (esp_flash_read_encrypted a n) f (λ r f', flash_eq f f' ∧
    (r.1 = ESP_OK → r.2 = ldbytes (seen esp_flash_encryption_enabled f esp_flash_default_chip) a n)).
Proof.
  intros Ha Hn Hs. unfold esp_flash_read_encrypted. case_match; [by apply wp_ret|].
  destruct (Z.eqb_spec n 0) as [->|]; [by apply wp_ret|]. rewrite clear_page. pose proof (page_mod a).
  assert (a mod MMU_PAGE_SIZE ≤ a) by (by apply Z.mod_le).
  rewrite u32_small by lia. wp_step. apply mmap_law. intros r m f' Heq Hm.
  cbn [fst snd]. case_decide; apply wp_ret; (split; [done|]); intros Hr; cbn in *; [|done].
  apply ldbytes_ext. intros x Hx. apply Hm; [done|]. pose proof (whole_pages_ge (n + (a - (a - a mod MMU_PAGE_SIZE)))). lia.
Qed.

Lemma app_read_encrypted_works f a n : working f → 0 ≤ a → 0 ≤ n → a + n < 2 ^ 32 →
  wp (esp_flash_read_encrypted a n) f (λ r f', working f' ∧
    (a + n ≤ chip_size esp_flash_default_chip → page_room (spi_flash_mmap_get_free_pages f) a n → r.1 = ESP_OK)).
Proof.
  intros Hw Ha Hn Hs. unfold esp_flash_read_encrypted, page_room. rewrite u32_small by lia.
  case_match eqn:E; [apply wp_ret; split; [done|]; apply Z.ltb_lt in E; lia|].
  destruct (Z.eqb_spec n 0) as [->|]; [by apply wp_ret|]. rewrite clear_page. pose proof (page_mod a).
  assert (a mod MMU_PAGE_SIZE ≤ a) by (by apply Z.mod_le). rewrite u32_small by lia. wp_step.
  eapply wp_mono; [by apply working_mmap|]. intros [r m] f' [Hw' Hok]. cbn [fst snd] in *.
  case_decide; apply wp_ret; (split; [done|]); cbn; [done|]. intros. apply Hok; lia.
Qed.

Lemma app_content_eq s f b : flash_eq (app_fl s) f → ∀ x, app_content (mkApp f b) x = app_content s x.
Proof. intros Heq x. by apply seen_eq. Qed.

#[export] Instance app_image_laws : ImageFlashLaws (app_flash F).
Proof.
  refine {| content := app_content; idle s := map_handle s = false; busy s := map_handle s = true; works := app_works |}.
  - intros s x. apply seen_byte.
  - intros [f b] a n Q Hi Ha Hn Hs HQ. cbn in Hi. subst b. unfold bootloader_flash_read. cbn. unfold app_flash_read.
    assert (∀ r f', flash_eq f f' → (r.1 = ESP_OK → r.2 = ldbytes (app_content (mkApp f false)) a n) →
      (working f → working f' ∧ (a + n ≤ chip_size esp_flash_default_chip → page_room (spi_flash_mmap_get_free_pages f) a n → r.1 = ESP_OK)) →
      Q r (mkApp f' false)) as HQ'.
    { intros [r bs] f' Heq Hbs Hw. apply HQ; [done|by apply (app_content_eq (mkApp f false))|by destruct Heq|..|done].
      intros k [Hwf Hk]. cbn in *. destruct (Hw Hwf) as [Hw' Hok]. split; [by split|]. intros _ _ ? ?. apply Hok; [lia|done]. }
    destruct esp_flash_encryption_enabled eqn:Henc; unfold flashA; apply wp_zoom; cbn [app_fl map_handle].
    + assert (wp (esp_flash_read_encrypted a n) f (λ r f', (flash_eq f f' ∧ (r.1 = ESP_OK → r.2 = ldbytes (app_content (mkApp f false)) a n)) ∧
        (working f → working f' ∧ (a + n ≤ chip_size esp_flash_default_chip → page_room (spi_flash_mmap_get_free_pages f) a n → r.1 = ESP_OK)))) as Hwp.
      { apply wp_and; [by apply app_read_encrypted_law|]. pose proof (app_read_encrypted_law f a n Ha Hn Hs) as Hd.
        pose proof (λ Hw, app_read_encrypted_works f a n Hw Ha Hn Hs) as Hwk. unfold wp in *. destruct (esp_flash_read_encrypted a n f); done. }
      eapply wp_mono; [exact Hwp|]. intros r f' [[? ?] ?]. by apply HQ'.
    + assert (wp (esp_flash_read esp_flash_default_chip a n) f (λ r f', flash_eq f f' ∧ (r.1 = ESP_OK → r.2 = ldbytes (raw f esp_flash_default_chip) a n))) as Hd.
      { apply read_law. by intros. }
      assert (wp (esp_flash_read esp_flash_default_chip a n) f (λ r f', working f → working f' ∧ (0 ≤ a → a + n ≤ chip_size esp_flash_default_chip → r.1 = ESP_OK))) as Hwk.
      { pose proof (λ Hw, working_read f esp_flash_default_chip a n Hw) as Hw. unfold wp in *. by destruct (esp_flash_read _ a n f). }
      eapply wp_mono; [apply (wp_and _ _ _ _ Hd Hwk)|]. intros r f' [[Heq Hbs] Hw]. apply HQ'; [done| |].
      * unfold app_content, seen. by rewrite Henc.
      * intros Hwf. destruct (Hw Hwf) as [? Hok]. split; [done|]. intros ? _. by apply Hok.
  - intros [f b] a n Q Hi Ha Hn Hs HN HS. cbn in Hi. subst b. cbn. unfold app_mmap. wp_step. wp_step. cbn [map_handle].
    rewrite clear_page. pose proof (page_mod a). assert (a mod MMU_PAGE_SIZE ≤ a) by (by apply Z.mod_le).
    rewrite u32_small by lia. set (p := a - a mod MMU_PAGE_SIZE). set (sz := n + (a - p)). wp_step.
    unfold flashA. apply wp_zoom. cbn [app_fl map_handle].
    assert (wp (spi_flash_mmap p sz) f (λ r f', flash_eq f f' ∧ (r.1 = ESP_OK → ∀ x, p ≤ x < p + whole_pages sz → r.2 x = app_content (mkApp f false) x))) as Hd.
    { apply mmap_law. by intros. }
    assert (wp (spi_flash_mmap p sz) f (λ r f', working f → working f' ∧
      (p + sz ≤ chip_size esp_flash_default_chip → sz ≤ spi_flash_mmap_get_free_pages f * MMU_PAGE_SIZE → r.1 = ESP_OK))) as Hwk.
    { pose proof (λ Hw, working_mmap f p sz Hw) as Hw. unfold wp in *. destruct (spi_flash_mmap p sz f); try done.
      intros Hwf. destruct (Hw Hwf) as [? Hok]. split; [done|]. apply Hok. lia. }
    eapply wp_mono; [apply (wp_and _ _ _ _ Hd Hwk)|]. intros [r m] f' [[Heq Hm] Hw]. cbn [fst snd] in *. case_decide as Hr.
    + wp_steps. pose proof (whole_pages_ge sz). apply HS; [done|by apply (app_content_eq (mkApp f false))|by destruct Heq| |lia|].
      * intros k [Hwf Hk]. split; [by apply Hw|done].
      * intros x Hx. apply Hm; [done|lia].
    + apply wp_ret, HN; [done|by apply (app_content_eq (mkApp f false))|by destruct Heq|intros k [Hwf Hk]; split; [by apply Hw|done]|].
      intros k [Hwf Hk] Hle Hroom. cbn in *. unfold page_room in Hroom. destruct (Hw Hwf) as [_ Hok]. apply Hr, Hok; lia.
  - intros [f b] Q Hb HQ. apply HQ; done.
Defined.
End app_laws.

(** *** The version for the bootloader *)

Section boot_laws.
Context (flash : mem) (MMAP_MMU_SIZE : Z) (valid_region : Z → bool).
Context (flash_byte : ∀ x, is_byte (flash x))
  (valid_ok : ∀ n, 0 < n ≤ MMAP_MMU_SIZE → valid_region n = true).

Lemma read_word_spec a s : 0 ≤ a → current_read_mapping s = 2 ^ 32 - 1 →
  wp (read_word flash a) s (λ bs s', bs = ldbytes flash a 4 ∧ mapped s' = mapped s ∧ current_read_mapping s' = 2 ^ 32 - 1).
Proof.
  intros Ha Hc. unfold read_word. wp_step. wp_step. rewrite Hc, clear_page.
  assert (a - a mod MMU_PAGE_SIZE ≠ 2 ^ 32 - 1) as Hne.
  { unfold MMU_PAGE_SIZE. pose proof (Z.div_mod a 0x10000). lia. }
  rewrite (proj2 (Z.eqb_neq _ _) Hne). cbn [negb whenM]. wp_steps. cbn.
  split_and!; [|done|done]. f_equal. lia.
Qed.

Lemma read_words_spec n a s : 0 ≤ a → a + 4 * Z.of_nat n < 2 ^ 32 → current_read_mapping s = 2 ^ 32 - 1 →
  wp (read_words flash a n) s (λ bs s', bs = ldbytes flash a (4 * Z.of_nat n) ∧ mapped s' = mapped s ∧ current_read_mapping s' = 2 ^ 32 - 1).
Proof.
  revert a s. induction n as [|n IH]; intros a s Ha Hs Hc; cbn [read_words]; [by apply wp_ret|].
  rewrite u32_small by lia. wp_step. eapply wp_mono; [by apply read_word_spec|]. intros w s1 (-> & Hm1 & Hc1).
  wp_step. eapply wp_mono; [apply IH; (done || lia)|]. intros l s2 (-> & Hm2 & Hc2). apply wp_ret.
  split_and!; [|congruence|done]. rewrite <- ldbytes_app by lia. f_equal. lia.
Qed.

Definition boot_image_laws : @ImageFlashLaws boot_flash (boot_image_flash flash MMAP_MMU_SIZE valid_region).
Proof.
  refine {| content _ := flash; idle s := mapped s = false ∧ current_read_mapping s = 2 ^ 32 - 1;
            busy s := mapped s = true ∧ current_read_mapping s = 2 ^ 32 - 1; works _ _ := True |}.
  - intros _ x. apply flash_byte.
  - intros s a n Q [Hm Hc] Ha Hn Hs HQ. cbn in *. unfold boot_flash_read. rewrite !flag_mod4.
    destruct (Z.eqb_spec (a mod 4) 0) as [Ha4|]; cbn [negb]; [|apply wp_ret, HQ; [done|done|done|tauto|done]].
    destruct (Z.eqb_spec (n mod 4) 0) as [Hn4|]; cbn [negb]; [|apply wp_ret, HQ; [done|done|done|tauto|done]].
    assert (4 * Z.of_nat (Z.to_nat (n / 4)) = n) as Hw by (Z.to_euclidean_division_equations; lia).
    wp_step. eapply wp_mono; [apply read_words_spec; (done || lia)|]. intros bs s' (-> & Hm' & Hc'). rewrite Hw.
    apply wp_ret, HQ; [split; congruence|done|done|done|done].
  - intros s a n Q [Hm Hc] Ha Hn Hs HN HS. cbn in *. unfold boot_mmap. wp_step. wp_step. rewrite Hm, clear_page.
    pose proof (page_mod a). assert (a mod MMU_PAGE_SIZE ≤ a) by (by apply Z.mod_le).
    assert (MMU_FREE_PAGES MMAP_MMU_SIZE * MMU_PAGE_SIZE ≤ MMAP_MMU_SIZE).
    { unfold MMU_FREE_PAGES, MMU_PAGE_SIZE. pose proof (Z.div_mod MMAP_MMU_SIZE 0x10000).
      pose proof (Z.mod_pos_bound MMAP_MMU_SIZE 0x10000). lia. }
    unfold page_room in HN.
    destruct (Z.ltb_spec MMAP_MMU_SIZE n); [apply wp_ret, HN; [done|done|done|done|intros; lia]|].
    rewrite u32_small by lia. destruct (valid_region _) eqn:Ev; cbn [negb].
    + wp_steps. pose proof (whole_pages_ge (a - (a - a mod MMU_PAGE_SIZE) + n)). apply HS; try done. lia.
    + apply wp_ret, HN; [done|done|done|done|]. intros k _ _ Hroom. rewrite valid_ok in Ev by lia. done.
  - intros s Q [Hb Hc] HQ. cbn. unfold boot_munmap. wp_step. wp_step. rewrite Hb. cbn [whenM]. wp_step. by apply HQ.
Defined.
End boot_laws.
