(* ===== verification/Image.v ===== *)
(** * Application images: [bootloader_support/src/esp_image_format.c]

    Reading, verifying and loading the image of an application or of the bootloader: the
    header, the segments with their checksum and digest, and the copies in RAM.  The
    configuration is without signatures and without anti-rollback.  Messages are left out,
    and with them the argument [silent]. *)
From Stdlib Require Import ZArith Lia.
From stdpp Require Import base numbers option list.
From S2P Require Import Prelude Flash ImageFlash ImageSha.

Open Scope Z_scope.

(** ** Data *)

Definition ESP_ERR_IMAGE_BASE : Z := 0x2000.
Definition ESP_ERR_IMAGE_INVALID : esp_err_t := ESP_ERR_OTHER (ESP_ERR_IMAGE_BASE + 2).

Definition ESP_IMAGE_HEADER_MAGIC : Z := 0xE9.
Definition ESP_IMAGE_MAX_SEGMENTS : Z := 16.
Definition HASH_LEN : Z := 32.
Definition ESP_ROM_CHECKSUM_INITIAL : Z := 0xEF.
Definition STACK_LOAD_HEADROOM : Z := 32768.
Definition ESP_APP_DESC_MAGIC_WORD : Z := 0xABCD5432.

(** [esp_image_header_t] is packed: its 24 bytes, with the fields that the code uses. *)
Definition sizeof_image_header : Z := 24.
Definition esp_image_header_t : Type := list Z.
Definition le16_at (b : list Z) (i : nat) : Z := b !!! i + 2 ^ 8 * b !!! S i.

Definition magic (h : esp_image_header_t) : Z := h !!! 0%nat.
Definition segment_count (h : esp_image_header_t) : Z := h !!! 1%nat.
Definition chip_id (h : esp_image_header_t) : Z := le16_at h 12.
Definition min_chip_rev_full (h : esp_image_header_t) : Z := le16_at h 15.
Definition max_chip_rev_full (h : esp_image_header_t) : Z := le16_at h 17.
Definition hash_appended (h : esp_image_header_t) : Z := h !!! 23%nat.

Record esp_image_segment_header_t : Type := mkSegment { load_addr : Z; data_len : Z }.
Definition sizeof_segment_header : Z := 8.

#[export] Instance segment_inhabited : Inhabited esp_image_segment_header_t := populate (mkSegment 0 0).

Definition segment_of (b : list Z) : esp_image_segment_header_t :=
  mkSegment (le_word (take 4 b)) (le_word (take 4 (drop 4 b))).

(** Offsets in [esp_app_desc_t]. *)
Definition off_min_efuse_blk_rev_full : Z := 176.
Definition off_max_efuse_blk_rev_full : Z := 178.
Definition off_mmu_page_size : Z := 180.

Record esp_image_metadata_t : Type := mkMetadata {
  start_addr : Z; image : esp_image_header_t;
  segments : list esp_image_segment_header_t; segment_data : list Z;
  image_len : Z; image_digest : list Z; mmu_page_size : Z }.

(** What [bzero] leaves. *)
Definition metadata0 : esp_image_metadata_t :=
  mkMetadata 0 (replicate 24 0) (replicate 16 (mkSegment 0 0)) (replicate 16 0) 0 (replicate 32 0) 0.

Definition set_start (a : Z) (d : esp_image_metadata_t) : esp_image_metadata_t :=
  mkMetadata a (image d) (segments d) (segment_data d) (image_len d) (image_digest d) (mmu_page_size d).
Definition set_image (h : esp_image_header_t) (d : esp_image_metadata_t) : esp_image_metadata_t :=
  mkMetadata (start_addr d) h (segments d) (segment_data d) (image_len d) (image_digest d) (mmu_page_size d).
Definition set_segment (i : nat) (x : esp_image_segment_header_t) (d : esp_image_metadata_t) : esp_image_metadata_t :=
  mkMetadata (start_addr d) (image d) (<[i := x]> (segments d)) (segment_data d) (image_len d) (image_digest d) (mmu_page_size d).
Definition set_segment_data (i : nat) (a : Z) (d : esp_image_metadata_t) : esp_image_metadata_t :=
  mkMetadata (start_addr d) (image d) (segments d) (<[i := a]> (segment_data d)) (image_len d) (image_digest d) (mmu_page_size d).
Definition set_len (n : Z) (d : esp_image_metadata_t) : esp_image_metadata_t :=
  mkMetadata (start_addr d) (image d) (segments d) (segment_data d) n (image_digest d) (mmu_page_size d).
Definition set_digest (b : list Z) (d : esp_image_metadata_t) : esp_image_metadata_t :=
  mkMetadata (start_addr d) (image d) (segments d) (segment_data d) (image_len d) b (mmu_page_size d).
Definition set_page_size (n : Z) (d : esp_image_metadata_t) : esp_image_metadata_t :=
  mkMetadata (start_addr d) (image d) (segments d) (segment_data d) (image_len d) (image_digest d) n.

Inductive esp_image_load_mode_t : Type :=
| ESP_IMAGE_VERIFY | ESP_IMAGE_VERIFY_SILENT | ESP_IMAGE_LOAD | ESP_IMAGE_LOAD_NO_VALIDATE.

#[export] Instance mode_eq_dec : EqDecision esp_image_load_mode_t.
Proof. solve_decision. Defined.

Inductive esp_image_type : Type := ESP_IMAGE_BOOTLOADER | ESP_IMAGE_APPLICATION.

Record esp_partition_pos_t : Type := mkPos { pos_offset : Z; pos_size : Z }.

(** A range of addresses, [low] included and [high] not. *)
Record region : Type := mkRegion { low : Z; high : Z }.

(** The chip, the build and what the code asks the hardware.  A region that a chip does not
    have is empty. *)
Record img_cfg : Type := mkCfg {
  BOOTLOADER_BUILD : bool;
  CONFIG_IDF_TARGET_ESP32 : bool;
  SOC_MMU_PAGE_SIZE_CONFIGURABLE : bool;
  CONFIG_IDF_FIRMWARE_CHIP_ID : Z;
  ESP_IMAGE_MAX_FLASH_ADDR_SIZE : Z;
  ESP_PRIMARY_BOOTLOADER_OFFSET : Z;
  ESP_BOOTLOADER_SIZE : Z;
  recovery_bootloader : option Z;
  SOC_IROM : region; SOC_DROM : region; SOC_EXTRAM : region;
  SOC_DRAM : region; SOC_IRAM : region; SOC_DIRAM_DRAM : region; SOC_DIRAM_IRAM : region;
  SOC_RTC_IRAM : region; SOC_RTC_DRAM : region; SOC_RTC_DATA : region; SOC_TCM : region;
  SOC_DIRAM_INVERTED : bool;
  dram_data : region; loader_text : region; ROM_STACK_START : Z; esp_cpu_sp : Z;
  efuse_chip_revision : Z; disable_wafer_version_major : bool;
  efuse_blk_version : Z; disable_blk_version_major : bool;
  dbgr_is_attached : bool;
  deep_sleep_reset : bool }.

(** The state: flash, digests, the metadata of the caller, the checksum of [image_load],
    RAM, the words that obfuscate it, the random words to come (then [1] and [1]) and the
    offset of the bootloader. *)
Record img (F H : Type) : Type := mkImg {
  ifl : F; isha : H; data : esp_image_metadata_t; checksum_word : Z;
  ram : mem; ram_obfs_value : Z * Z; randoms : list (Z * Z); s_bootloader_partition_offset : Z }.
Arguments mkImg {F H} ifl isha data checksum_word ram ram_obfs_value randoms s_bootloader_partition_offset.
Arguments ifl {F H} i.
Arguments isha {F H} i.
Arguments data {F H} i.
Arguments checksum_word {F H} i.
Arguments ram {F H} i.
Arguments ram_obfs_value {F H} i.
Arguments randoms {F H} i.
Arguments s_bootloader_partition_offset {F H} i.

Section image.
Context {F H : Type} `{!ImageFlash F} `{!ShaDriver H} (C : img_cfg).

Abbreviation IM := (M (img F H)).
Implicit Types s : img F H.

Definition set_fl (f : F) s : img F H :=
  mkImg f (isha s) (data s) (checksum_word s) (ram s) (ram_obfs_value s) (randoms s) (s_bootloader_partition_offset s).
Definition set_sha (h : H) s : img F H :=
  mkImg (ifl s) h (data s) (checksum_word s) (ram s) (ram_obfs_value s) (randoms s) (s_bootloader_partition_offset s).
Definition set_data (d : esp_image_metadata_t) s : img F H :=
  mkImg (ifl s) (isha s) d (checksum_word s) (ram s) (ram_obfs_value s) (randoms s) (s_bootloader_partition_offset s).
Definition set_checksum (w : Z) s : img F H :=
  mkImg (ifl s) (isha s) (data s) w (ram s) (ram_obfs_value s) (randoms s) (s_bootloader_partition_offset s).
Definition set_ram (m : mem) s : img F H :=
  mkImg (ifl s) (isha s) (data s) (checksum_word s) m (ram_obfs_value s) (randoms s) (s_bootloader_partition_offset s).
Definition set_obfs (o : Z * Z) (r : list (Z * Z)) s : img F H :=
  mkImg (ifl s) (isha s) (data s) (checksum_word s) (ram s) o r (s_bootloader_partition_offset s).
Definition set_boot_offset (o : Z) s : img F H :=
  mkImg (ifl s) (isha s) (data s) (checksum_word s) (ram s) (ram_obfs_value s) (randoms s) o.

Definition flashI {A} (m : M F A) : IM A := zoom ifl set_fl m.
Definition shaI {A} (m : M H A) : IM A := zoom isha set_sha m.
Definition on_data (f : esp_image_metadata_t → esp_image_metadata_t) : IM unit := modify (λ s, set_data (f (data s)) s).

(** The next step if the last one succeeded. *)
Definition ok_then {A} (r : esp_err_t) (fail : esp_err_t → IM A) (k : IM A) : IM A :=
  if decide (r = ESP_OK) then k else fail r.

(** ** Offsets and addresses *)

Definition esp_image_bootloader_offset_get : IM Z := gets s_bootloader_partition_offset.

Definition esp_image_bootloader_offset_set (offset : Z) : IM unit := modify (set_boot_offset offset).

Definition is_bootloader (offset : Z) s : bool :=
  (offset =? ESP_PRIMARY_BOOTLOADER_OFFSET C) || (offset =? s_bootloader_partition_offset s)
  || match recovery_bootloader C with Some o => offset =? o | None => false end.

(** Unsigned and signed comparison with a region. *)
Definition in_u32 (r : region) (a : Z) : bool := (low r <=? a) && (a <? high r).
Definition in_ptr (r : region) (p : Z) : bool := (low r <=? i32 p) && (i32 p <? high r).

Definition should_map (load_addr : Z) : bool :=
  in_u32 (SOC_IROM C) load_addr || in_u32 (SOC_DROM C) load_addr || in_u32 (SOC_EXTRAM C) load_addr.

Definition should_load (load_addr : Z) : bool :=
  let load_rtc_memory := negb (deep_sleep_reset C) in
  if should_map load_addr then false else
  if load_addr <? 0x10000000 then false else
  if negb load_rtc_memory then
    if in_u32 (SOC_RTC_IRAM C) load_addr then false else
    if in_u32 (SOC_RTC_DRAM C) load_addr then false else
    if in_u32 (SOC_RTC_DATA C) load_addr then false else true
  else true.

(** D/IRAM has addresses on both buses; on some chips the words are in reverse order. *)
Definition esp_ptr_in_diram_iram (p : Z) : bool :=
  if low (SOC_DIRAM_IRAM C) =? low (SOC_DIRAM_DRAM C) then false else in_ptr (SOC_DIRAM_IRAM C) p.

Definition diram_dram_to_iram (p : Z) : Z :=
  i32 (if SOC_DIRAM_INVERTED C then low (SOC_DIRAM_IRAM C) + (high (SOC_DIRAM_DRAM C) - p) - 4
       else low (SOC_DIRAM_IRAM C) + (p - low (SOC_DIRAM_DRAM C))).

Definition diram_iram_to_dram (p : Z) : Z :=
  i32 (if SOC_DIRAM_INVERTED C then low (SOC_DIRAM_DRAM C) + (high (SOC_DIRAM_IRAM C) - p) - 4
       else low (SOC_DIRAM_DRAM C) + (p - low (SOC_DIRAM_IRAM C))).

Definition bootloader_util_regions_overlap (start1 end1 start2 end2 : Z) : IM bool :=
  assertM (start1 <? end1);;
  assertM (start2 <? end2);;
  mret ((start2 <? end1) && (start1 <? end2)).

(** [verify_load_addresses] with the recursive call as a parameter; addresses are signed. *)
Definition check_load_range (recursive : Z → Z → IM bool) (no_recurse : bool) (load_addr load_end : Z) : IM bool :=
  let load_inclusive_end := i32 (load_end - 1) in
  if load_end =? load_addr then mret true else
  assertM (load_addr <? load_end);;
  if in_ptr (SOC_DRAM C) load_addr && in_ptr (SOC_DRAM C) load_inclusive_end then
    stack ← bootloader_util_regions_overlap (i32 (esp_cpu_sp C - STACK_LOAD_HEADROOM)) (ROM_STACK_START C) load_addr load_end;
    if (stack : bool) then mret false else
    clobber ← bootloader_util_regions_overlap (low (dram_data C)) (high (dram_data C)) load_addr load_end;
    if (clobber : bool) then mret false else
    if no_recurse then mret true else
    diram ← bootloader_util_regions_overlap (low (SOC_DIRAM_DRAM C)) (high (SOC_DIRAM_DRAM C)) load_addr load_end;
    if negb diram then mret true else
    let iram_load_addr := if in_ptr (SOC_DIRAM_DRAM C) load_addr then diram_dram_to_iram load_addr
                          else diram_dram_to_iram (low (SOC_DIRAM_DRAM C)) in
    let iram_load_end := if in_ptr (SOC_DIRAM_DRAM C) load_inclusive_end then diram_dram_to_iram load_end
                         else diram_dram_to_iram (high (SOC_DIRAM_DRAM C)) in
    if iram_load_end <? iram_load_addr then recursive iram_load_end iram_load_addr
    else recursive iram_load_addr iram_load_end
  else if in_ptr (SOC_IRAM C) load_addr && in_ptr (SOC_IRAM C) load_inclusive_end then
    loader ← bootloader_util_regions_overlap (low (loader_text C)) (high (loader_text C)) load_addr load_end;
    if (loader : bool) then mret false else
    if no_recurse then mret true else
    diram ← bootloader_util_regions_overlap (low (SOC_DIRAM_IRAM C)) (high (SOC_DIRAM_IRAM C)) load_addr load_end;
    if negb diram then mret true else
    let dram_load_addr := if esp_ptr_in_diram_iram load_addr then diram_iram_to_dram load_addr
                          else diram_iram_to_dram (low (SOC_DIRAM_IRAM C)) in
    let dram_load_end := if esp_ptr_in_diram_iram load_inclusive_end then diram_iram_to_dram load_end
                         else diram_iram_to_dram (high (SOC_DIRAM_IRAM C)) in
    if dram_load_end <? dram_load_addr then recursive dram_load_end dram_load_addr
    else recursive dram_load_addr dram_load_end
  else
    mret (in_ptr (SOC_RTC_IRAM C) load_addr && in_ptr (SOC_RTC_IRAM C) load_inclusive_end
      || in_ptr (SOC_RTC_DRAM C) load_addr && in_ptr (SOC_RTC_DRAM C) load_inclusive_end
      || in_ptr (SOC_RTC_DATA C) load_addr && in_ptr (SOC_RTC_DATA C) load_inclusive_end
      || in_ptr (SOC_TCM C) load_addr && in_ptr (SOC_TCM C) load_inclusive_end).

(** The recursive call does not recurse. *)
Definition verify_load_addresses (load_addr load_end : Z) : IM bool :=
  check_load_range (check_load_range (λ _ _, fault) true) false load_addr load_end.

(** ** Is the image for this chip? ([bootloader_common_loader.c]) *)

Definition IS_FIELD_SET (rev_full : Z) : bool := negb (rev_full =? 65535) && negb (rev_full =? 0).

Definition bootloader_common_check_chip_revision_validity (img_hdr : esp_image_header_t) (check_max_revision : bool) : bool :=
  let revision := efuse_chip_revision C in
  let min_rev := min_chip_rev_full img_hdr in
  if negb (min_rev <=? revision) then false else
  if check_max_revision then
    let max_rev := max_chip_rev_full img_hdr in
    if IS_FIELD_SET max_rev && (max_rev <? revision) && negb (disable_wafer_version_major C) then false else true
  else true.

Definition bootloader_common_check_chip_validity (img_hdr : esp_image_header_t) (type : esp_image_type) : esp_err_t :=
  if negb (CONFIG_IDF_FIRMWARE_CHIP_ID C =? chip_id img_hdr) then ESP_FAIL
  else
    match type with
    | ESP_IMAGE_APPLICATION => if bootloader_common_check_chip_revision_validity img_hdr true then ESP_OK else ESP_FAIL
    | ESP_IMAGE_BOOTLOADER => if bootloader_common_check_chip_revision_validity img_hdr false then ESP_OK else ESP_FAIL
    end.

Definition bootloader_common_check_efuse_blk_validity (min_rev_full max_rev_full : Z) : esp_err_t :=
  let revision := efuse_blk_version C in
  if IS_FIELD_SET min_rev_full && negb (min_rev_full <=? revision) then ESP_FAIL else
  if IS_FIELD_SET max_rev_full && (max_rev_full <? revision) && negb (disable_blk_version_major C) then ESP_FAIL
  else ESP_OK.

(** ** The header *)

Definition verify_image_header (src_addr : Z) (image : esp_image_header_t) : IM esp_err_t :=
  s ← get;
  if negb (magic image =? ESP_IMAGE_HEADER_MAGIC) then mret ESP_ERR_IMAGE_INVALID else
  let image_type := if is_bootloader src_addr s then ESP_IMAGE_BOOTLOADER else ESP_IMAGE_APPLICATION in
  ok_then (bootloader_common_check_chip_validity image image_type) mret
  (if ESP_IMAGE_MAX_SEGMENTS <? segment_count image then mret ESP_ERR_IMAGE_INVALID else mret ESP_OK).

(** [sha_wanted]: the caller gave a place for a handle.  The handle is a result. *)
Definition process_image_header (part_offset : Z) (sha_wanted do_verify : bool) : IM (esp_err_t * option Z) :=
  on_data (λ _, set_start part_offset metadata0);;
  r ← flashI (bootloader_flash_read part_offset sizeof_image_header);
  if decide (r.1 = ESP_OK) then
    on_data (set_image r.2);;
    let finish (sha_handle : option Z) : IM (esp_err_t * option Z) :=
      on_data (set_len sizeof_image_header);; mret (ESP_OK, sha_handle) in
    if do_verify then
      let verify (sha_handle : option Z) : IM (esp_err_t * option Z) :=
        e ← verify_image_header part_offset r.2;
        if decide (e = ESP_OK) then finish sha_handle else mret (e, sha_handle) in
      if negb (hash_appended r.2 =? 0) && sha_wanted then
        h ← shaI bootloader_sha256_start;
        match h with
        | None => mret (ESP_ERR_NO_MEM, None)
        | Some h => shaI (bootloader_sha256_data h r.2);; verify (Some h)
        end
      else verify None
    else finish None
  else mret (r.1, None).

(** ** A segment *)

(** A word of a mapping; behind its end nothing is mapped. *)
Definition map_word (m : mem * Z) (a : Z) : IM Z := if a + 4 <=? m.2 then mret (ld32 m.1 a) else fault.
Definition map_bytes (m : mem * Z) (a n : Z) : IM (list Z) := if a + n <=? m.2 then mret (ldbytes m.1 a n) else fault.

Definition verify_segment_header (index : nat) (segment : esp_image_segment_header_t) (segment_data_offs : Z) : IM esp_err_t :=
  if negb (Z.land (data_len segment) 3 =? 0) || (ESP_IMAGE_MAX_FLASH_ADDR_SIZE C <=? data_len segment) then mret ESP_ERR_IMAGE_INVALID else
  s ← get;
  let check : IM esp_err_t :=
    s ← get;
    let page_size := mmu_page_size (data s) in
    if should_map (load_addr segment) then
      if page_size =? 0 then fault else
      if negb (segment_data_offs mod page_size =? load_addr segment mod page_size) then mret ESP_ERR_IMAGE_INVALID
      else mret ESP_OK
    else mret ESP_OK in
  if SOC_MMU_PAGE_SIZE_CONFIGURABLE C then
    if decide (index = 0%nat) then
      if negb (is_bootloader (start_addr (data s)) s) then
        r ← flashI (bootloader_flash_read segment_data_offs 4);
        ok_then r.1 mret
        (p ← flashI (bootloader_flash_read (u32 (segment_data_offs + off_mmu_page_size)) 4);
         ok_then p.1 mret
         (let page_log := Z.land (le_word p.2) 0xFF in
          if negb (le_word r.2 =? ESP_APP_DESC_MAGIC_WORD) then mret ESP_FAIL else
          if 0 <? page_log then
            if page_log <? 32 then on_data (set_page_size (2 ^ page_log));; check else fault
          else on_data (set_page_size MMU_PAGE_SIZE);; check))
      else on_data (set_page_size MMU_PAGE_SIZE);; check
    else check
  else on_data (set_page_size MMU_PAGE_SIZE);; check.

(** [SHA_CHUNK] and the loop over the words of a piece that is mapped at [src]. *)
Definition SHA_CHUNK : Z := 1024.

Definition obfs_word s (w_i : Z) : Z :=
  if flag w_i 1 then (ram_obfs_value s).1 else (ram_obfs_value s).2.

Definition data_word (m : mem * Z) (src dest len : Z) (do_load : bool) (sha_handle : option Z) (checksum : bool) (i : Z) : IM unit :=
  let w_i := i / 4 in
  w ← map_word m (src + 4 * w_i);
  whenM checksum (modify (λ s, set_checksum (Z.lxor (checksum_word s) w) s));;
  whenM (BOOTLOADER_BUILD C && do_load)
    (modify (λ s, set_ram (st32 (ram s) (u32 (dest + 4 * w_i)) (Z.lxor w (obfs_word s w_i))) s));;
  match sha_handle with
  | Some h =>
      if i mod SHA_CHUNK =? 0 then
        bs ← map_bytes m (src + 4 * w_i) (Z.min SHA_CHUNK (len - i));
        shaI (bootloader_sha256_data h bs)
      else mret ()
  | None => mret ()
  end.

Fixpoint data_words (m : mem * Z) (src dest len : Z) (do_load : bool) (sha_handle : option Z) (checksum : bool) (i : Z) (n : nat) : IM unit :=
  match n with
  | O => mret ()
  | S n =>
      data_word m src dest len do_load sha_handle checksum i;;
      data_words m src dest len do_load sha_handle checksum (i + 4) n
  end.

Definition bootloader_fill_random : IM unit := modify (λ s,
  match randoms s with
  | [] => set_obfs (1, 1) [] s
  | o :: r => set_obfs o r s
  end).

(** The loop that chooses the words for obfuscation. *)
Definition setup_obfs : IM unit :=
  s ← get;
  iterM (S (S (length (randoms s)))) (λ _ : unit,
    s ← get;
    if ((ram_obfs_value s).1 =? 0) || ((ram_obfs_value s).2 =? 0)
    then bootloader_fill_random;; mret (inl ()) else mret (inr ())) ().

Definition process_segment_data (segment : nat) (load_addr data_addr data_len : Z) (do_load : bool)
    (sha_handle : option Z) (checksum : bool) : IM esp_err_t :=
  if negb do_load && negb checksum then mret ESP_OK else
  m ← flashI (bootloader_mmap data_addr data_len);
  match m with
  | None => mret ESP_FAIL
  | Some m =>
      if negb checksum && negb (from_option (λ _, true) false sha_handle) then
        bs ← map_bytes m data_addr data_len;
        modify (λ s, set_ram (stbytes (ram s) load_addr bs) s);;
        flashI bootloader_munmap;;
        mret ESP_OK
      else
        whenM (BOOTLOADER_BUILD C) setup_obfs;;
        s ← get;
        let go : IM esp_err_t :=
          data_words m data_addr load_addr data_len do_load sha_handle checksum 0 (Z.to_nat ((data_len + 3) / 4));;
          flashI bootloader_munmap;;
          mret ESP_OK in
        if bool_decide (segment = 0%nat) && negb (is_bootloader (start_addr (data s)) s) && negb (CONFIG_IDF_TARGET_ESP32 C) then
          bs ← map_bytes m (data_addr + off_min_efuse_blk_rev_full) 4;
          let ret := bootloader_common_check_efuse_blk_validity (le_word (take 2 bs)) (le_word (drop 2 bs)) in
          if decide (ret = ESP_OK) then go else flashI bootloader_munmap;; mret ret
        else go
  end.

(** A turn of the loop over the pieces of a segment: the address in flash and the length
    that remain. *)
Definition segment_turn (index : nat) (load_addr free_page_count : Z) (do_load : bool) (sha_handle : option Z) (checksum : bool)
    (l : Z * Z) : IM ((Z * Z) + esp_err_t) :=
  let '(data_addr, data_len_remain) := l in
  if data_len_remain <=? 0 then mret (inr ESP_OK) else
  let offset_page := if negb (Z.land data_addr (MMU_PAGE_SIZE - 1) =? 0) then 1 else 0 in
  let max_pages := if offset_page <? free_page_count then free_page_count - offset_page else 0 in
  if max_pages =? 0 then mret (inr ESP_ERR_NO_MEM) else
  let max_image_len := if max_pages * MMU_PAGE_SIZE <? 2 ^ 32 then max_pages * MMU_PAGE_SIZE else 2 ^ 32 - 1 in
  let data_len := Z.min data_len_remain max_image_len in
  r ← process_segment_data index load_addr data_addr data_len do_load sha_handle checksum;
  if decide (r = ESP_OK) then mret (inl (u32 (data_addr + data_len), data_len_remain - data_len))
  else mret (inr r).

(** Writing the header of a segment, and the address of its data: the arrays have 16
    elements. *)
Definition put_segment (i : nat) (x : esp_image_segment_header_t) : IM unit :=
  if decide (Z.of_nat i < ESP_IMAGE_MAX_SEGMENTS) then on_data (set_segment i x) else fault.

Definition put_segment_data (i : nat) (a : Z) : IM unit :=
  if decide (Z.of_nat i < ESP_IMAGE_MAX_SEGMENTS) then on_data (set_segment_data i a) else fault.

Definition process_segment (index : nat) (flash_addr : Z) (do_load : bool) (sha_handle : option Z) (checksum : bool) : IM esp_err_t :=
  r ← flashI (bootloader_flash_read flash_addr sizeof_segment_header);
  ok_then r.1 mret
  (let header := segment_of r.2 in
   put_segment index header;;
   match sha_handle with Some h => shaI (bootloader_sha256_data h r.2) | None => mret () end;;
   let data_addr := u32 (flash_addr + sizeof_segment_header) in
   e ← verify_segment_header index header data_addr;
   ok_then e mret
   (if negb (data_len header mod 4 =? 0) then mret ESP_ERR_IMAGE_INVALID else
    let do_load := do_load && should_load (load_addr header) in
    valid ← (if BOOTLOADER_BUILD C && do_load && (0 <? data_len header)
             then verify_load_addresses (i32 (load_addr header)) (i32 (load_addr header + data_len header)) else mret true);
    if negb valid then mret ESP_ERR_IMAGE_INVALID else
    s ← get;
    let free_page_count := bootloader_mmap_get_free_pages (ifl s) in
    iterM (Z.to_nat (data_len header / MMU_PAGE_SIZE) + 3)
      (segment_turn index (load_addr header) free_page_count do_load sha_handle checksum) (data_addr, data_len header))).

(** The loop of [process_segments] from the segment [i] at [next_addr], [n] to go. *)
Fixpoint segments_loop (i : nat) (next_addr : Z) (n : nat) (do_load : bool) (sha_handle : option Z) (checksum : bool) : IM (esp_err_t * Z) :=
  match n with
  | O => mret (ESP_OK, next_addr)
  | S n =>
      e ← process_segment i next_addr do_load sha_handle checksum;
      if decide (e = ESP_OK) then
        let next_addr := u32 (next_addr + sizeof_segment_header) in
        put_segment_data i next_addr;;
        s ← get;
        segments_loop (S i) (u32 (next_addr + data_len (segments (data s) !!! i))) n do_load sha_handle checksum
      else mret (e, next_addr)
  end.

Definition process_segments (do_load : bool) (sha_handle : option Z) (checksum : bool) : IM esp_err_t :=
  s ← get;
  let d := data s in
  let start_segments := u32 (start_addr d + image_len d) in
  r ← segments_loop 0 start_segments (Z.to_nat (segment_count (image d))) do_load sha_handle checksum;
  if decide (r.1 = ESP_OK) then
    let end_addr := r.2 in
    if end_addr <? start_addr d then mret ESP_ERR_IMAGE_INVALID else
    on_data (λ d, set_len (u32 (image_len d + (end_addr - start_segments))) d);;
    mret ESP_OK
  else mret r.1.

(** ** The checksum and the digest *)

Definition process_checksum (sha_handle : option Z) (checksum_word : Z) (skip_check_checksum : bool) : IM esp_err_t :=
  s ← get;
  let unpadded_length := image_len (data s) in
  let length := u32 (unpadded_length + 1) in
  let length := clear (u32 (length + 15)) 15 in
  let length := u32 (length - unpadded_length) in
  r ← (if negb skip_check_checksum || from_option (λ _, true) false sha_handle
       then flashI (bootloader_flash_read (u32 (start_addr (data s) + unpadded_length)) length)
       else mret (ESP_OK, replicate 16 0));
  ok_then r.1 mret
  (let buf := r.2 in
   let read_checksum := buf !!! Z.to_nat (length - 1) in
   let calc_checksum := u8 (Z.lxor (Z.lxor (Z.lxor (Z.shiftr checksum_word 24) (Z.shiftr checksum_word 16))
                                       (Z.shiftr checksum_word 8)) (Z.shiftr checksum_word 0)) in
   if negb skip_check_checksum && negb (calc_checksum =? read_checksum) then mret ESP_ERR_IMAGE_INVALID else
   match sha_handle with
   | Some h => shaI (bootloader_sha256_data h (take (Z.to_nat length) buf))
   | None => mret ()
   end;;
   on_data (λ d, set_len (u32 (image_len d + length)) d);;
   mret ESP_OK).

Definition process_appended_hash_and_sig (part_len : Z) (do_verify : bool) : IM esp_err_t :=
  s ← get;
  let check : IM esp_err_t :=
    s ← get;
    if part_len <? image_len (data s) then mret ESP_ERR_IMAGE_INVALID else mret ESP_OK in
  if negb (hash_appended (image (data s)) =? 0) then
    if do_verify then
      r ← flashI (bootloader_flash_read (u32 (start_addr (data s) + image_len (data s))) HASH_LEN);
      ok_then r.1 mret
      (on_data (set_digest r.2);; on_data (λ d, set_len (u32 (image_len d + HASH_LEN)) d);; check)
    else on_data (λ d, set_len (u32 (image_len d + HASH_LEN)) d);; check
  else check.

Definition verify_simple_hash (sha_handle : Z) : IM esp_err_t :=
  image_hash ← shaI (bootloader_sha256_finish sha_handle true);
  s ← get;
  if decide (image_digest (data s) = image_hash) then mret ESP_OK else mret ESP_ERR_IMAGE_INVALID.

(** ** Loading *)

(** The loop that restores the words of a segment in RAM. *)
Fixpoint deobfuscate_words (addr : Z) (j : Z) (n : nat) : IM unit :=
  match n with
  | O => mret ()
  | S n =>
      modify (λ s, set_ram (st32 (ram s) (u32 (addr + 4 * j)) (Z.lxor (ld32 (ram s) (u32 (addr + 4 * j))) (obfs_word s j))) s);;
      deobfuscate_words addr (j + 1) n
  end.

Fixpoint deobfuscate (i : nat) (n : nat) : IM unit :=
  match n with
  | O => mret ()
  | S n =>
      s ← get;
      match segments (data s) !! i with
      | None => fault
      | Some x =>
          whenM (should_load (load_addr x)) (deobfuscate_words (load_addr x) 0 (Z.to_nat (data_len x / 4)));;
          deobfuscate (S i) n
      end
  end.

(** The label [err] of [image_load]. *)
Definition load_failed (err : esp_err_t) (sha_handle : option Z) : IM esp_err_t :=
  match sha_handle with
  | Some h => shaI (bootloader_sha256_finish h false);; mret ()
  | None => mret ()
  end;;
  on_data (λ _, metadata0);;
  mret (if decide (err = ESP_OK) then ESP_ERR_IMAGE_INVALID else err).

(** The end of [image_load] when everything was read: [verify_sha] and what follows. *)
Definition load_end (do_load verify_sha : bool) (sha_handle : option Z) : IM esp_err_t :=
  r ← (match sha_handle with
       | Some h =>
           if verify_sha && negb (dbgr_is_attached C) then verify_simple_hash h
           else shaI (bootloader_sha256_finish h false);; mret ESP_OK
       | None => mret ESP_OK
       end);
  if decide (r = ESP_OK) then
    s ← get;
    whenM (BOOTLOADER_BUILD C && do_load && negb ((ram_obfs_value s).1 =? 0) && negb ((ram_obfs_value s).2 =? 0))
      (deobfuscate 0 (Z.to_nat (segment_count (image (data s)))));;
    mret ESP_OK
  else load_failed r None.

Definition image_load (mode : esp_image_load_mode_t) (part : option esp_partition_pos_t) (has_data : bool) : IM esp_err_t :=
  let do_load := BOOTLOADER_BUILD C && bool_decide (mode = ESP_IMAGE_LOAD ∨ mode = ESP_IMAGE_LOAD_NO_VALIDATE) in
  let do_verify := if BOOTLOADER_BUILD C then
      bool_decide (mode = ESP_IMAGE_LOAD ∨ mode = ESP_IMAGE_VERIFY ∨ mode = ESP_IMAGE_VERIFY_SILENT) else true in
  match part with
  | None => mret ESP_ERR_INVALID_ARG
  | Some part =>
      if negb has_data then mret ESP_ERR_INVALID_ARG else
      modify (set_checksum ESP_ROM_CHECKSUM_INITIAL);;
      s ← get;
      let verify_sha := negb (is_bootloader (pos_offset part) s) && do_verify in
      if ESP_IMAGE_MAX_FLASH_ADDR_SIZE C <? pos_size part then load_failed ESP_ERR_INVALID_ARG None else
      h ← process_image_header (pos_offset part) verify_sha do_verify;
      let sha_handle := h.2 in
      let failed err := load_failed err sha_handle in
      ok_then h.1 failed
      (e ← process_segments do_load sha_handle do_verify;
       ok_then e failed
       (let skip_check_checksum := negb do_verify || dbgr_is_attached C in
        s ← get;
        e ← process_checksum sha_handle (checksum_word s) skip_check_checksum;
        ok_then e failed
        (e ← process_appended_hash_and_sig (pos_size part) do_verify;
         ok_then e failed (load_end do_load verify_sha sha_handle))))
  end.

Definition bootloader_load_image (skip_validate : bool) (part : option esp_partition_pos_t) (has_data : bool) : IM esp_err_t :=
  if negb (BOOTLOADER_BUILD C) then mret ESP_FAIL
  else image_load (if skip_validate then ESP_IMAGE_LOAD_NO_VALIDATE else ESP_IMAGE_LOAD) part has_data.

Definition bootloader_load_image_no_verify (part : option esp_partition_pos_t) (has_data : bool) : IM esp_err_t :=
  if BOOTLOADER_BUILD C then image_load ESP_IMAGE_LOAD_NO_VALIDATE part has_data else mret ESP_FAIL.

Definition esp_image_verify (mode : esp_image_load_mode_t) (part : option esp_partition_pos_t) (has_data : bool) : IM esp_err_t :=
  image_load mode part has_data.

Definition esp_image_get_metadata (part : option esp_partition_pos_t) (has_data : bool) : IM esp_err_t :=
  match part with
  | None => mret ESP_ERR_INVALID_ARG
  | Some part =>
      if negb has_data || (ESP_IMAGE_MAX_FLASH_ADDR_SIZE C <? pos_size part) then mret ESP_ERR_INVALID_ARG else
      h ← process_image_header (pos_offset part) false false;
      ok_then h.1 mret
      (e ← process_segments false None false;
       ok_then e mret
       (e ← process_checksum None 0 true;
        ok_then e mret (process_appended_hash_and_sig (pos_size part) true)))
  end.

Definition esp_image_verify_bootloader_data (has_data : bool) : IM esp_err_t :=
  if negb has_data then mret ESP_ERR_INVALID_ARG else
  esp_image_verify ESP_IMAGE_VERIFY (Some (mkPos (ESP_PRIMARY_BOOTLOADER_OFFSET C) (ESP_BOOTLOADER_SIZE C))) has_data.

(** The metadata is a local variable here; the result is the length too. *)
Definition esp_image_verify_bootloader : IM (esp_err_t * Z) :=
  err ← esp_image_verify_bootloader_data true;
  s ← get;
  mret (err, if decide (err = ESP_OK) then image_len (data s) else 0).
End image.

Definition esp_image_get_flash_size (app_flash_size : Z) : Z :=
  match app_flash_size with
  | 0 => 1 * 1024 * 1024
  | 1 => 2 * 1024 * 1024
  | 2 => 4 * 1024 * 1024
  | 3 => 8 * 1024 * 1024
  | 4 => 16 * 1024 * 1024
  | 5 => 32 * 1024 * 1024
  | 6 => 64 * 1024 * 1024
  | 7 => 128 * 1024 * 1024
  | _ => 0
  end.
