(* ===== verification/ImageSpec.v ===== *)
(** * Application images: rules for the functions

    What each function of [Image] does to the state, on any flash that satisfies
    [ImageFlashLaws] and with any digest that satisfies [ShaLaws]: the outcome when it
    succeeds, and that it succeeds when the flash works and the data is as it should be. *)
From Stdlib Require Import ZArith Lia.
From stdpp Require Import base numbers option list.
From S2P Require Import Prelude Flash ImageFlash ImageSha Image.

Open Scope Z_scope.

(** ** Words *)

(** The [n] words at [a] of a memory. *)
Definition words_of (c : mem) (a : Z) (n : nat) : list Z := (λ k, ld32 c (a + 4 * Z.of_nat k)) <$> seq 0 n.

Lemma words_of_S c a n : words_of c a (S n) = ld32 c a :: words_of c (a + 4) n.
Proof.
  unfold words_of. cbn [seq fmap list_fmap]. f_equal; [f_equal; lia|].
  rewrite <- fmap_S_seq, <- list_fmap_compose. apply list_fmap_ext. intros i k _. unfold compose. f_equal. lia.
Qed.

Lemma words_of_add c a n k : words_of c a (n + k) = words_of c a n ++ words_of c (a + 4 * Z.of_nat n) k.
Proof.
  revert a. induction n as [|n IH]; intros a; [change (words_of c a 0) with (@nil Z); cbn [Nat.add app]; f_equal; lia|].
  cbn [Nat.add]. rewrite !words_of_S, IH. cbn [app]. do 2 f_equal. f_equal. lia.
Qed.

Lemma words_of_ext c c' a n : (∀ x, a ≤ x < a + 4 * Z.of_nat n → c x = c' x) → words_of c a n = words_of c' a n.
Proof.
  revert a. induction n as [|n IH]; intros a Hx; [done|]. rewrite !words_of_S. f_equal.
  - apply ld32_ext. intros x Hr. apply Hx. lia.
  - apply IH. intros x Hr. apply Hx. lia.
Qed.

(** The words in RAM: word [j] is masked with one of two words. *)
Definition mask_of (o : Z * Z) (j : Z) : Z := if flag j 1 then o.1 else o.2.

Fixpoint masked_copy (o : Z * Z) (dest j : Z) (ws : list Z) (m : mem) : mem :=
  match ws with
  | [] => m
  | w :: l => masked_copy o dest (j + 1) l (st32 m (u32 (dest + 4 * j)) (Z.lxor w (mask_of o j)))
  end.

Lemma masked_copy_app o dest j ws ws' m :
  masked_copy o dest j (ws ++ ws') m = masked_copy o dest (j + zlen ws) ws' (masked_copy o dest j ws m).
Proof.
  revert j m. induction ws as [|w l IH]; intros j m; [by rewrite Z.add_0_r|].
  cbn [app masked_copy]. rewrite IH, zlen_cons. f_equal. lia.
Qed.

(** ** The state *)

Section rules.
Context {F H : Type} `{!ImageFlash F} `{!ImageFlashLaws F} `{!Sha256} `{!ShaDriver H} `{!ShaLaws H}.
Context (C : img_cfg).

(** The flash shows [c], has a mapping in use or not, and has [P] free pages; if [up], it works on its first [K] bytes. *)
Context (c : mem) (P K : Z) (up : Prop).

Abbreviation IM := (M (img F H)).
Implicit Types s : img F H.

Record flash_ok (map : bool) (f : F) : Prop := mkFlashOk {
  fo_idle : if map then busy f else idle f;
  fo_content x : content f x = c x;
  fo_pages : bootloader_mmap_get_free_pages f = P;
  fo_works : up → works f K }.

(** The handle, if there is one, has got [bs]; otherwise one can be opened if [up]. *)
Definition sha_at (h : option Z) (bs : list Z) (x : H) : Prop :=
  match h with Some h => sha_open x h bs | None => sha_idle x ∧ (up → sha_ready x) end.

(** All of the state. *)
Record at_ (map : bool) (h : option Z) (bs : list Z) (d : esp_image_metadata_t) (ck : Z) (m : mem) (o : Z * Z) (off : Z) s : Prop := mkAt {
  at_flash : flash_ok map (ifl s);
  at_sha : sha_at h bs (isha s);
  at_data : data s = d;
  at_ck : checksum_word s = ck;
  at_ram : ram s = m;
  at_obfs : ram_obfs_value s = o;
  at_off : s_bootloader_partition_offset s = off }.

(** Without a handle there is no digest. *)
Lemma at_none b bs bs' d ck m o off s : at_ b None bs d ck m o off s → at_ b None bs' d ck m o off s.
Proof. intros []. by split. Qed.

Context (c_byte : ∀ x, is_byte (c x)).

Lemma ldbytes_content b f a n : flash_ok b f → ldbytes (content f) a n = ldbytes c a n.
Proof. intros Hf. apply ldbytes_ext. intros x _. apply Hf. Qed.

Lemma read_rule h bs d ck m o off a n s : at_ false h bs d ck m o off s → 0 ≤ a → 0 ≤ n → a + n < 2 ^ 32 →
  wp (flashI (bootloader_flash_read a n)) s (λ r s', at_ false h bs d ck m o off s' ∧
    (r.1 = ESP_OK → r.2 = ldbytes c a n) ∧ (up → a mod 4 = 0 → n mod 4 = 0 → a + n ≤ K → page_room P a n → r.1 = ESP_OK)).
Proof.
  intros [Hf Hs Hd Hc Hm Ho Hoff] Ha Hn Hlt. unfold flashI. apply wp_zoom. apply image_read_law; [apply (fo_idle _ _ Hf)|done..|].
  intros r b f' Hi Hcon Hp Hw Hb. destruct Hf as [Hi0 Hc0 Hp0 Hw0]. split_and!.
  - split; cbn; try done. split; [done|intros x; rewrite Hcon; apply Hc0|congruence|]. intros Hup. by apply Hw, Hw0.
  - cbn. intros Hr. rewrite Hb by done. by apply ldbytes_ext; intros; rewrite Hc0.
  - cbn. intros Hup ? ? ? ?. destruct (Hw K (Hw0 Hup)) as [_ Hok]. apply Hok; try done. congruence.
Qed.

Lemma sha_rule b h bs x d ck m o off s : at_ b (Some h) bs d ck m o off s →
  Forall is_byte x → zlen x mod 4 = 0 → zlen bs + zlen x < SHA_MAX →
  wp (shaI (bootloader_sha256_data h x)) s (λ _ s', at_ b (Some h) (bs ++ x) d ck m o off s').
Proof.
  intros [Hf Hs Hd Hc Hm Ho Hoff] Hb H4 Hlt. unfold shaI. apply wp_zoom. eapply data_law; [exact Hs|done|done|done|].
  intros x' Hx'. by split.
Qed.

Lemma ldbytes_byte a n : Forall is_byte (ldbytes c a n).
Proof. apply Forall_fmap, Forall_true. intros k. apply c_byte. Qed.

(** ** The words of a piece *)

(** How far the digest is when the loop is at [i]. *)
Definition hashed_to (len i : Z) : Z := Z.min len ((i + (SHA_CHUNK - 1)) / SHA_CHUNK * SHA_CHUNK).

Lemma hashed_to_0 len : 0 ≤ len → hashed_to len 0 = 0.
Proof. intros Hl. unfold hashed_to, SHA_CHUNK. change ((0 + (1024 - 1)) / 1024 * 1024) with 0. lia. Qed.

Lemma hashed_to_len len : hashed_to len len = len.
Proof.
  unfold hashed_to, SHA_CHUNK. pose proof (Z.div_mod (len + (1024 - 1)) 1024). pose proof (Z.mod_pos_bound (len + (1024 - 1)) 1024). lia.
Qed.

Lemma hashed_to_step len i : 0 ≤ i → i mod 4 = 0 → i < len →
  if i mod SHA_CHUNK =? 0 then hashed_to len i = i ∧ hashed_to len (i + 4) = i + Z.min SHA_CHUNK (len - i)
  else hashed_to len (i + 4) = hashed_to len i.
Proof.
  intros Hi H4 Hlt. unfold hashed_to, SHA_CHUNK. destruct (Z.eqb_spec (i mod 1024) 0) as [E|E].
  - assert ((i + (1024 - 1)) / 1024 * 1024 = i) by (Z.to_euclidean_division_equations; lia).
    assert ((i + 4 + (1024 - 1)) / 1024 * 1024 = i + 1024) by (Z.to_euclidean_division_equations; lia). lia.
  - f_equal. f_equal. Z.to_euclidean_division_equations; lia.
Qed.

(** A mapping that shows the flash from [a] on. *)
Definition shows (m : mem * Z) (a n : Z) : Prop := a + n ≤ m.2 ∧ ∀ x, a ≤ x < m.2 → m.1 x = c x.

Lemma map_word_rule m a n x s (Q : Z → img F H → Prop) : shows m a n → a ≤ x → x + 4 ≤ a + n → Q (ld32 c x) s → wp (map_word m x) s Q.
Proof.
  intros [He Hm] Hx Hx' HQ. unfold map_word. rewrite (proj2 (Z.leb_le _ _)) by lia. apply wp_ret.
  rewrite (ld32_ext m.1 c x); [done|]. intros y Hy. apply Hm. lia.
Qed.

Lemma map_bytes_rule m a n x k s (Q : list Z → img F H → Prop) : shows m a n → a ≤ x → x + k ≤ a + n → Q (ldbytes c x k) s → wp (map_bytes m x k) s Q.
Proof.
  intros [He Hm] Hx Hx' HQ. unfold map_bytes. rewrite (proj2 (Z.leb_le _ _)) by lia. apply wp_ret.
  rewrite (ldbytes_ext m.1 c); [done|]. intros y Hy. apply Hm. lia.
Qed.

Lemma data_word_rule b m src dest len (ld sum : bool) i h bs d ck r o off s :
  at_ b h (bs ++ ldbytes c src (hashed_to len i)) d ck r o off s → shows m src len → 0 ≤ i → i mod 4 = 0 → i + 4 ≤ len → len mod 4 = 0 →
  zlen bs + len < SHA_MAX →
  wp (data_word C m src dest len ld h sum i) s (λ _ s',
    at_ b h (bs ++ ldbytes c src (hashed_to len (i + 4))) d (if sum then Z.lxor ck (ld32 c (src + i)) else ck)
      (if BOOTLOADER_BUILD C && ld then st32 r (u32 (dest + i)) (Z.lxor (ld32 c (src + i)) (mask_of o (i / 4))) else r) o off s').
Proof.
  intros Hat Hm Hi H4 Hle Hl4 Hsz. pose proof (hashed_to_step len i Hi H4 ltac:(lia)) as Hstep.
  unfold data_word. replace (4 * (i / 4)) with i by (Z.to_euclidean_division_equations; lia).
  wp_step. eapply map_word_rule; [exact Hm|lia|lia|]. wp_step.
  assert (wp (whenM sum (modify (λ s, set_checksum (Z.lxor (checksum_word s) (ld32 c (src + i))) s))) s (λ _ s',
    at_ b h (bs ++ ldbytes c src (hashed_to len i)) d (if sum then Z.lxor ck (ld32 c (src + i)) else ck) r o off s')) as Hck.
  { apply wp_when; intros Hs; rewrite ?Hs; [|done]. wp_step. destruct Hat. split; cbn; try done. by f_equal. }
  eapply wp_mono; [exact Hck|]. intros [] s1 Hat1. wp_step.
  eapply (wp_mono _ _ (λ _ s', at_ b h (bs ++ ldbytes c src (hashed_to len i)) d (if sum then Z.lxor ck (ld32 c (src + i)) else ck)
      (if BOOTLOADER_BUILD C && ld then st32 r (u32 (dest + i)) (Z.lxor (ld32 c (src + i)) (mask_of o (i / 4))) else r) o off s')).
  { apply wp_when; intros Hs; rewrite Hs; [|done]. wp_step. destruct Hat1. split; cbn; try done. unfold obfs_word, mask_of. by subst. }
  intros [] s2 Hat2. destruct h as [h|]; [|apply wp_ret; by eapply at_none].
  destruct (i mod SHA_CHUNK =? 0).
  - destruct Hstep as [E1 E2]. wp_step. eapply map_bytes_rule; [exact Hm|lia|unfold SHA_CHUNK; lia|].
    assert (0 ≤ Z.min SHA_CHUNK (len - i)) by (unfold SHA_CHUNK; lia).
    eapply wp_mono; [apply (sha_rule _ _ _ _ _ _ _ _ _ _ Hat2)|].
    + apply ldbytes_byte.
    + rewrite zlen_ldbytes by done. unfold SHA_CHUNK. Z.to_euclidean_division_equations; lia.
    + rewrite zlen_app, !zlen_ldbytes by lia. rewrite E1. unfold SHA_CHUNK in *. lia.
    + intros [] s3 Hat3. rewrite E1 in Hat3. rewrite E2, ldbytes_app, app_assoc by lia. done.
  - apply wp_ret. by rewrite Hstep.
Qed.

(** The loop from [i] on. *)
Lemma data_words_rule b m src dest len (ld sum : bool) h bs d o off n i ck r s :
  at_ b h (bs ++ ldbytes c src (hashed_to len i)) d ck r o off s → shows m src len → 0 ≤ i → i mod 4 = 0 → i + 4 * Z.of_nat n = len →
  zlen bs + len < SHA_MAX →
  wp (data_words C m src dest len ld h sum i n) s (λ _ s',
    at_ b h (bs ++ ldbytes c src len) d (if sum then fold_left Z.lxor (words_of c (src + i) n) ck else ck)
      (if BOOTLOADER_BUILD C && ld then masked_copy o dest (i / 4) (words_of c (src + i) n) r else r) o off s').
Proof.
  intros Hat Hm Hi H4 Hlen Hsz. revert i ck r s Hat Hi H4 Hlen.
  induction n as [|n IH]; intros i ck r s Hat Hi H4 Hlen; cbn [data_words].
  - apply wp_ret. replace i with len in * by lia. rewrite hashed_to_len in Hat. by destruct sum, (BOOTLOADER_BUILD C && ld).
  - wp_step. eapply wp_mono; [apply (data_word_rule b _ _ dest len ld sum i h bs d ck r o off s Hat); try done; try lia|].
    { subst len. Z.to_euclidean_division_equations; lia. }
    intros [] s1 Hat1. eapply wp_mono; [apply (IH _ _ _ _ Hat1)|]; [lia|Z.to_euclidean_division_equations; lia|lia|].
    intros [] s2 Hat2. rewrite words_of_S. cbn [fold_left masked_copy].
    replace (src + i + 4) with (src + (i + 4)) by lia. replace (i / 4 + 1) with ((i + 4) / 4) by (Z.to_euclidean_division_equations; lia).
    replace (dest + 4 * (i / 4)) with (dest + i) by (Z.to_euclidean_division_equations; lia).
    by destruct sum, (BOOTLOADER_BUILD C && ld).
Qed.

(** ** A piece of a segment *)

(** The words for obfuscation are chosen once. *)
Lemma setup_obfs_rule b h bs d ck m o off s : at_ b h bs d ck m o off s →
  wp setup_obfs s (λ _ s', ∃ o', at_ b h bs d ck m o' off s' ∧ o'.1 ≠ 0 ∧ o'.2 ≠ 0 ∧ (o.1 ≠ 0 → o.2 ≠ 0 → o' = o)).
Proof.
  intros Hat. unfold setup_obfs. wp_step. wp_step.
  apply (wp_iter _ (λ n _ s', ∃ o', at_ b h bs d ck m o' off s' ∧ (o.1 ≠ 0 → o.2 ≠ 0 → o' = o) ∧
      ((o'.1 ≠ 0 ∧ o'.2 ≠ 0) ∨ (length (randoms s') < n)%nat))) with (n := S (length (randoms s))); [| |lia].
  - intros n [] s1 (o1 & Hat1 & Hsame & Hn). wp_step. wp_step. rewrite (at_obfs _ _ _ _ _ _ _ _ _ Hat1).
    destruct (Z.eqb_spec o1.1 0) as [E1|E1], (Z.eqb_spec o1.2 0) as [E2|E2]; cbn [orb].
    4: { apply wp_ret. by exists o1. }
    all: destruct Hn as [[? ?]|Hn]; [done|]; unfold bootloader_fill_random; wp_steps;
      destruct (randoms s1) as [|[x y] l] eqn:Er; cbn [length] in Hn; exists (n - 1)%nat; (split; [lia|]).
    all: (eexists; split; [destruct Hat1; split; cbn; try done|]; split; [intros Ha Hb; rewrite (Hsame Ha Hb) in *; done|]).
    all: first [left; done|right; cbn; lia].
  - exists o. split_and!; [done|done|right; lia].
Qed.


(** What stays when the words for obfuscation are chosen. *)
Definition obfs_kept (o o' : Z * Z) : Prop := o.1 ≠ 0 → o.2 ≠ 0 → o' = o.

Lemma obfs_kept_trans o1 o2 o3 : (o2.1 ≠ 0 → o2.2 ≠ 0 → o3 = o2) → obfs_kept o1 o2 → obfs_kept o1 o3.
Proof. intros H23 H12 Ha Hb. specialize (H12 Ha Hb). subst o2. auto. Qed.

Definition load_ram (ld : bool) (o : Z * Z) (dest : Z) (ws : list Z) (m : mem) : mem :=
  if BOOTLOADER_BUILD C && ld then masked_copy o dest 0 ws m else m.

Lemma mmap_rule h bs d ck m o off a n s (Q : option (mem * Z) → img F H → Prop) :
  at_ false h bs d ck m o off s → 0 ≤ a → 0 < n → a + n < 2 ^ 32 →
  (∀ s', at_ false h bs d ck m o off s' → (up → a + n ≤ K → page_room P a n → False) → Q None s') →
  (∀ x s', at_ true h bs d ck m o off s' → shows x a n → Q (Some x) s') →
  wp (flashI (bootloader_mmap a n)) s Q.
Proof.
  intros [Hf Hs Hd Hc Hm Ho Hoff] Ha Hn Hlt HN HS. unfold flashI. apply wp_zoom. destruct Hf as [Hi0 Hc0 Hp0 Hw0].
  apply image_mmap_law; [exact Hi0|done..| |].
  - intros f' Hi Hcon Hp Hk Hw. apply HN.
    + split; cbn; try done. split; [done|intros y; rewrite Hcon; apply Hc0|congruence|]. intros Hup. by apply Hk, Hw0.
    + intros Hup Hle Hroom. apply (Hw K); [by apply Hw0|done|by rewrite Hp0].
  - intros x e f' Hb Hcon Hp Hw Hle Hx. apply HS.
    + split; cbn; try done. split; [done|intros y; rewrite Hcon; apply Hc0|congruence|]. intros Hup. by apply Hw, Hw0.
    + split; [done|]. intros y Hy. cbn in *. by rewrite Hx, Hc0.
Qed.

Lemma munmap_rule h bs d ck m o off s : at_ true h bs d ck m o off s →
  wp (flashI bootloader_munmap) s (λ _ s', at_ false h bs d ck m o off s').
Proof.
  intros [[Hi0 Hc0 Hp0 Hw0] Hs Hd Hc Hm Ho Hoff]. unfold flashI. apply wp_zoom. apply image_munmap_law; [exact Hi0|].
  intros f' Hi Hcon Hp Hw. split; cbn; try done. split; [done|intros y; rewrite Hcon; apply Hc0|congruence|].
  intros Hup. by apply Hw, Hw0.
Qed.

Context (esp32 : CONFIG_IDF_TARGET_ESP32 C = true).

(** A piece of a segment, with the checksum: it is in the digest, in the checksum and,
    masked, in RAM. *)
Lemma segment_data_rule i dest a n ld h bs d ck m o off s :
  at_ false h bs d ck m o off s → 0 ≤ a → 0 < n → a + n < 2 ^ 32 → n mod 4 = 0 → zlen bs + n < SHA_MAX →
  wp (process_segment_data C i dest a n ld h true) s (λ r s',
    ∃ bs' ck' m' o', at_ false h bs' d ck' m' o' off s' ∧ obfs_kept o o' ∧ (BOOTLOADER_BUILD C && ld = false → m' = m) ∧
      (r = ESP_OK → bs' = bs ++ ldbytes c a n ∧ ck' = fold_left Z.lxor (words_of c a (Z.to_nat (n / 4))) ck ∧
         m' = load_ram ld o' dest (words_of c a (Z.to_nat (n / 4))) m ∧ (BOOTLOADER_BUILD C = true → o'.1 ≠ 0 ∧ o'.2 ≠ 0)) ∧
      (up → a + n ≤ K → page_room P a n → r = ESP_OK)).
Proof.
  intros Hat Ha Hn Hlt H4 Hsz. unfold process_segment_data. rewrite andb_false_r. wp_step.
  eapply mmap_rule; [exact Hat|done|done|done| |].
  { intros s1 Hat1 Hno. apply wp_ret. exists bs, ck, m, o. split_and!; [done|done|done|done|]. intros. by destruct Hno. }
  intros x s1 Hat1 Hx. cbn [negb andb]. wp_step.
  eapply (wp_mono _ _ (λ _ s', ∃ o', at_ true h bs d ck m o' off s' ∧ obfs_kept o o' ∧ (BOOTLOADER_BUILD C = true → o'.1 ≠ 0 ∧ o'.2 ≠ 0))).
  { apply wp_when; intros HB.
    - eapply wp_mono; [by apply setup_obfs_rule|]. intros [] s2 (o' & Hat2 & H1 & H2 & Hk). by exists o'.
    - exists o. split_and!; [done|done|]. by rewrite HB. }
  intros [] s2 (o' & Hat2 & Hk & Hne). wp_step. wp_step. rewrite esp32. cbn [negb]. rewrite andb_false_r. wp_step.
  replace ((n + 3) / 4) with (n / 4) by (Z.to_euclidean_division_equations; lia).
  eapply wp_mono; [apply (data_words_rule true x a dest n ld true h bs d o' off (Z.to_nat (n / 4)) 0 ck m s2)|].
  { rewrite hashed_to_0 by lia. rewrite ldbytes_0, app_nil_r. done. }
  { done. } { lia. } { done. } { Z.to_euclidean_division_equations; lia. } { done. }
  intros [] s3 Hat3. rewrite Z.add_0_r in Hat3. change (0 / 4) with 0 in Hat3. wp_step.
  eapply wp_mono; [by apply munmap_rule|]. intros [] s4 Hat4. apply wp_ret.
  do 4 eexists. split; [exact Hat4|]. split_and!; try done. by intros ->.
Qed.

(** ** The pieces of a segment *)

Definition pieces_left (rem : Z) : nat := Z.to_nat ((rem + (MMU_PAGE_SIZE - 1)) / MMU_PAGE_SIZE).

Lemma pieces_left_step rem n : 0 < n ≤ rem → (n = rem ∨ MMU_PAGE_SIZE ≤ n) → (pieces_left (rem - n) < pieces_left rem)%nat.
Proof. unfold pieces_left, MMU_PAGE_SIZE. intros Hn Hc. Z.to_euclidean_division_equations; lia. Qed.

Lemma land_page a : Z.land a (MMU_PAGE_SIZE - 1) = a mod MMU_PAGE_SIZE.
Proof. unfold MMU_PAGE_SIZE. change (0x10000 - 1) with (Z.ones 16). by rewrite Z.land_ones by lia. Qed.

(** The length of the next piece. *)
Lemma piece_len a rem : 0 ≤ a → 0 < rem → a + rem < 2 ^ 32 → rem mod 4 = 0 → 0 ≤ P →
  let offset_page := if negb (Z.land a (MMU_PAGE_SIZE - 1) =? 0) then 1 else 0 in
  let max_pages := if offset_page <? P then P - offset_page else 0 in
  let max_image_len := if max_pages * MMU_PAGE_SIZE <? 2 ^ 32 then max_pages * MMU_PAGE_SIZE else 2 ^ 32 - 1 in
  let n := Z.min rem max_image_len in
  (max_pages = 0 ∧ P < 2) ∨
  (max_pages ≠ 0 ∧ 0 < n ≤ rem ∧ n mod 4 = 0 ∧ (n = rem ∨ MMU_PAGE_SIZE ≤ n) ∧ page_room P a n ∧
   (rem ≤ (P - 1) * MMU_PAGE_SIZE → n = rem)).
Proof.
  intros Ha Hr Hlt H4 HP offset_page max_pages max_image_len n. pose proof (page_mod a) as Hpm.
  assert (offset_page = 0 ∧ a mod MMU_PAGE_SIZE = 0 ∨ offset_page = 1) as Hop.
  { unfold offset_page. rewrite land_page. destruct (Z.eqb_spec (a mod MMU_PAGE_SIZE) 0); cbn; auto. }
  clearbody offset_page. unfold page_room, n, max_image_len. unfold MMU_PAGE_SIZE in *.
  assert (max_pages = if offset_page <? P then P - offset_page else 0) as Hmp by done. clearbody max_pages.
  destruct (Z.ltb_spec offset_page P) as [Hlo|Hlo]; [right|left; lia]. subst max_pages.
  destruct (Z.ltb_spec ((P - offset_page) * 0x10000) (2 ^ 32)); split_and!; Z.to_euclidean_division_equations; lia.
Qed.

Lemma pieces_rule i dest a n ld h bs d ck m o off s :
  at_ false h bs d ck m o off s → 0 ≤ a → 0 ≤ n → a + n < 2 ^ 32 → n mod 4 = 0 → zlen bs + n < SHA_MAX → 0 ≤ P →
  wp (iterM (Z.to_nat (n / MMU_PAGE_SIZE) + 3) (segment_turn C i dest P ld h true) (a, n)) s (λ r s',
    ∃ bs' ck' m' o', at_ false h bs' d ck' m' o' off s' ∧ obfs_kept o o' ∧ (BOOTLOADER_BUILD C && ld = false → m' = m) ∧
      (r = ESP_OK → bs' = bs ++ ldbytes c a n ∧ ck' = fold_left Z.lxor (words_of c a (Z.to_nat (n / 4))) ck ∧
         (n ≤ (P - 1) * MMU_PAGE_SIZE → m' = load_ram ld o' dest (words_of c a (Z.to_nat (n / 4))) m) ∧
         (BOOTLOADER_BUILD C = true → 0 < n → o'.1 ≠ 0 ∧ o'.2 ≠ 0)) ∧
      (up → a + n ≤ K → 2 ≤ P → r = ESP_OK)).
Proof.
  intros Hat Ha Hn Hlt H4 Hsz HP.
  set (I := λ (k : nat) (l : Z * Z) (s' : img F H), k = pieces_left l.2 ∧ 0 ≤ l.2 ≤ n ∧ l.2 mod 4 = 0 ∧ l.1 = a + (n - l.2) ∧
    ∃ m' o', at_ false h (bs ++ ldbytes c a (n - l.2)) d (fold_left Z.lxor (words_of c a (Z.to_nat ((n - l.2) / 4))) ck) m' o' off s' ∧
      obfs_kept o o' ∧ (BOOTLOADER_BUILD C && ld = false → m' = m) ∧
      (l.2 = n → m' = m) ∧ (n ≤ (P - 1) * MMU_PAGE_SIZE → l.2 = n ∨ l.2 = 0 ∧ m' = load_ram ld o' dest (words_of c a (Z.to_nat (n / 4))) m) ∧
      (BOOTLOADER_BUILD C = true → l.2 < n → o'.1 ≠ 0 ∧ o'.2 ≠ 0)).
  apply (wp_iter _ I) with (n := pieces_left n); unfold I.
  3: { unfold pieces_left, MMU_PAGE_SIZE. Z.to_euclidean_division_equations; lia. }
  2: { cbn. split_and!; try done; try lia. rewrite Z.sub_diag. exists m, o. rewrite ldbytes_0, app_nil_r. split_and!; try done; [auto|lia]. }
  intros k [a' rem] s1 (-> & Hrem & Hr4 & Ha' & m1 & o1 & Hat1 & Hk1 & Hnl & Hfirst & Hone & Hne). cbn [fst snd] in *. unfold segment_turn.
  destruct (Z.leb_spec rem 0) as [Hz|Hpos].
  { apply wp_ret. assert (rem = 0) as -> by lia. rewrite !Z.sub_0_r in *. do 4 eexists. split; [exact Hat1|]. split_and!; try done.
    intros _. split_and!; try done. intros Hfit. destruct (Hone Hfit) as [Heq|[_ Hm]]; [|done].
    rewrite (Hfirst Heq), <- Heq. unfold load_ram. by destruct (_ && _). }
  pose proof (piece_len a' rem ltac:(lia) Hpos ltac:(lia) Hr4 HP) as Hpl. cbv zeta in Hpl.
  match type of Hpl with (?x = 0 ∧ _) ∨ _ => set (max_pages := x) in * end.
  match type of Hpl with _ ∨ (_ ∧ _ < ?x ≤ _ ∧ _) => set (p := x) in * end. clearbody max_pages p.
  destruct Hpl as [[-> HP2]|(Hmp & Hp & Hp4 & Hpc & Hroom & Hsingle)].
  { apply wp_ret. do 4 eexists. split; [exact Hat1|]. split_and!; try done. lia. }
  rewrite (proj2 (Z.eqb_neq _ _) Hmp). wp_step.
  assert (0 ≤ n - rem) by lia.
  eapply wp_mono; [apply (segment_data_rule i dest a' p ld _ _ _ _ _ _ _ _ Hat1); try done; try lia|].
  { rewrite zlen_app, zlen_ldbytes by lia. lia. }
  intros r s2 (bs2 & ck2 & m2 & o2 & Hat2 & Hk2 & Hnl2 & Hok & Hup).
  assert (obfs_kept o o2) as Hk by (by eapply obfs_kept_trans).
  assert (BOOTLOADER_BUILD C && ld = false → m2 = m) as Hnl' by (intros Hb; rewrite (Hnl2 Hb); auto).
  case_decide as Hr; apply wp_ret.
  2: { do 4 eexists. split; [exact Hat2|]. split_and!; try done. intros Hu HK _. apply Hup; [done|lia|done]. }
  destruct (Hok Hr) as (-> & -> & -> & Hne2). exists (pieces_left (rem - p)). split; [by apply pieces_left_step|].
  assert (n - (rem - p) = n - rem + p) as Heq by lia. cbn [fst snd]. split_and!; [done|lia|lia| | |].
  - Z.to_euclidean_division_equations; lia.
  - rewrite u32_small by lia. lia.
  - exists (load_ram ld o2 dest (words_of c a' (Z.to_nat (p / 4))) m1), o2. rewrite Heq. split_and!; try done.
    + rewrite ldbytes_app, app_assoc by lia. rewrite <- Ha'.
      replace (Z.to_nat ((n - rem + p) / 4)) with (Z.to_nat ((n - rem) / 4) + Z.to_nat (p / 4))%nat by (Z.to_euclidean_division_equations; lia).
      rewrite words_of_add, fold_left_app.
      replace (a + 4 * Z.of_nat (Z.to_nat ((n - rem) / 4))) with a' by (Z.to_euclidean_division_equations; lia). done.
    + lia.
    + intros Hfit. right. destruct (Hone Hfit) as [->|[? _]]; [|lia]. rewrite Hsingle, (Hfirst eq_refl) by lia.
      split; [lia|]. by replace a' with a by lia.
    + intros HB _. by apply Hne2.
Qed.

(** ** A segment *)

Context (fixed_page : SOC_MMU_PAGE_SIZE_CONFIGURABLE C = false).

(** What the code asks of a segment whose data is at [a]. *)
Record header_ok (x : esp_image_segment_header_t) (a : Z) : Prop := mkHeaderOk {
  ho_words : data_len x mod 4 = 0;
  ho_max : data_len x < ESP_IMAGE_MAX_FLASH_ADDR_SIZE C;
  ho_map : should_map C (load_addr x) = true → a mod MMU_PAGE_SIZE = load_addr x mod MMU_PAGE_SIZE }.

Lemma land3 x : Z.land x 3 = x mod 4.
Proof. change 3 with (Z.ones 2). by rewrite Z.land_ones by lia. Qed.

Lemma at_data_set b h bs d ck m o off s d' : at_ b h bs d ck m o off s → at_ b h bs d' ck m o off (set_data d' s).
Proof. intros []. by split. Qed.

Lemma on_data_rule b h bs d ck m o off s f : at_ b h bs d ck m o off s →
  wp (on_data f) s (λ _ s', at_ b h bs (f d) ck m o off s').
Proof. intros Hat. unfold on_data. wp_step. rewrite (at_data _ _ _ _ _ _ _ _ _ Hat). by eapply at_data_set. Qed.

Lemma verify_segment_header_rule i x a h bs d ck m o off s : at_ false h bs d ck m o off s →
  wp (verify_segment_header C i x a) s (λ r s', ∃ d', at_ false h bs d' ck m o off s' ∧
    (r = ESP_OK ↔ header_ok x a) ∧ (r = ESP_OK → d' = set_page_size MMU_PAGE_SIZE d)).
Proof.
  intros Hat. unfold verify_segment_header. rewrite land3, fixed_page.
  destruct (Z.eqb_spec (data_len x mod 4) 0) as [H4|H4], (Z.leb_spec (ESP_IMAGE_MAX_FLASH_ADDR_SIZE C) (data_len x)) as [Hle|Hlt]; cbn [negb orb].
  2: { wp_step. wp_step. wp_step. eapply wp_mono; [by eapply on_data_rule|]. intros [] s1 Hat1. wp_step. wp_step.
    rewrite (at_data _ _ _ _ _ _ _ _ _ Hat1). cbn [set_page_size mmu_page_size].
    destruct (should_map C (load_addr x)) eqn:Em.
    - rewrite (proj2 (Z.eqb_neq MMU_PAGE_SIZE 0)) by done.
      destruct (Z.eqb_spec (a mod MMU_PAGE_SIZE) (load_addr x mod MMU_PAGE_SIZE)); cbn [negb]; apply wp_ret;
        eexists; (split; [exact Hat1|]); (split; [|done]); split; try done.
      intros [_ _ Hmap]. by rewrite Hmap in n.
    - apply wp_ret. eexists. split; [exact Hat1|]. split; [|done]. split; [|done]. intros _. split; [done|done|]. by rewrite Em. }
  all: apply wp_ret; exists d; (split; [done|]); (split; [|done]); split; [done|]; intros [? ? _]; lia.
Qed.

(** Loading to these addresses is accepted. *)
Definition range_ok (x : esp_image_segment_header_t) : Prop := ∀ s,
  verify_load_addresses C (i32 (load_addr x)) (i32 (load_addr x + data_len x)) s = Done s true.

Definition loaded (ld : bool) (x : esp_image_segment_header_t) : bool := ld && should_load C (load_addr x).

Lemma le_word_range b : Forall is_byte b → 0 ≤ le_word b < 2 ^ (8 * zlen b).
Proof.
  induction b as [|y b IH]; intros Hb; [done|]. apply Forall_cons in Hb as [Hy Hb]. specialize (IH Hb). unfold is_byte in Hy.
  unfold le_word in *. cbn [fold_right]. rewrite zlen_cons. pose proof (zlen_nonneg b).
  replace (8 * (1 + zlen b)) with (8 + 8 * zlen b) by lia. rewrite Z.pow_add_r by lia. nia.
Qed.

Lemma segment_of_range a : 0 ≤ load_addr (segment_of (ldbytes c a 8)) < 2 ^ 32 ∧ 0 ≤ data_len (segment_of (ldbytes c a 8)) < 2 ^ 32.
Proof.
  assert (length (ldbytes c a 8) = 8%nat) as Hl by (rewrite length_ldbytes; done). pose proof (ldbytes_byte a 8) as Hb.
  split; cbn.
  - pose proof (le_word_range (take 4 (ldbytes c a 8)) ltac:(by apply Forall_take)) as Hr. unfold zlen in Hr. rewrite length_take, Hl in Hr. done.
  - pose proof (le_word_range (take 4 (drop 4 (ldbytes c a 8))) ltac:(by apply Forall_take, Forall_drop)) as Hr.
    unfold zlen in Hr. rewrite length_take, length_drop, Hl in Hr. done.
Qed.

Lemma sha_opt_rule b h bs x d ck m o off s : at_ b h bs d ck m o off s →
  Forall is_byte x → zlen x mod 4 = 0 → zlen bs + zlen x < SHA_MAX →
  wp (match h with Some h => shaI (bootloader_sha256_data h x) | None => mret () end) s (λ _ s', at_ b h (bs ++ x) d ck m o off s').
Proof.
  intros Hat Hx H4 Hlt. destruct h as [h|]; [by apply sha_rule|]. apply wp_ret. by eapply at_none.
Qed.

Lemma small_room a n : 2 ≤ P → n ≤ MMU_PAGE_SIZE → page_room P a n.
Proof. intros HP Hn. unfold page_room. pose proof (page_mod a). unfold MMU_PAGE_SIZE in *. lia. Qed.

Context (max_flash : 0 ≤ ESP_IMAGE_MAX_FLASH_ADDR_SIZE C).

Lemma segment_rule i fa ld h bs d ck m o off s :
  let x := segment_of (ldbytes c fa 8) in
  at_ false h bs d ck m o off s → 0 ≤ fa → fa + 8 + ESP_IMAGE_MAX_FLASH_ADDR_SIZE C < 2 ^ 32 → (i < 16)%nat →
  zlen bs + 8 + ESP_IMAGE_MAX_FLASH_ADDR_SIZE C < SHA_MAX → 0 ≤ P →
  (BOOTLOADER_BUILD C && loaded ld x = true → 0 < data_len x → range_ok x) →
  wp (process_segment C i fa ld h true) s (λ r s',
    ∃ bs' d' ck' m' o', at_ false h bs' d' ck' m' o' off s' ∧ obfs_kept o o' ∧ (BOOTLOADER_BUILD C && ld = false → m' = m) ∧
      (r = ESP_OK → header_ok x (fa + 8) ∧ d' = set_page_size MMU_PAGE_SIZE (set_segment i x d) ∧
         bs' = bs ++ ldbytes c fa (8 + data_len x) ∧
         ck' = fold_left Z.lxor (words_of c (fa + 8) (Z.to_nat (data_len x / 4))) ck ∧
         (data_len x ≤ (P - 1) * MMU_PAGE_SIZE →
            m' = load_ram (loaded ld x) o' (load_addr x) (words_of c (fa + 8) (Z.to_nat (data_len x / 4))) m) ∧
         (BOOTLOADER_BUILD C = true → 0 < data_len x → o'.1 ≠ 0 ∧ o'.2 ≠ 0)) ∧
      (up → fa mod 4 = 0 → header_ok x (fa + 8) → fa + 8 + data_len x ≤ K → 2 ≤ P → r = ESP_OK)).
Proof.
  intros x Hat Hfa Hlt Hi Hsz HP Hrange. destruct (segment_of_range fa) as [Hlr Hdr]. fold x in Hlr, Hdr.
  unfold process_segment. wp_step. eapply wp_mono; [apply (read_rule _ _ _ _ _ _ _ fa 8 _ Hat); lia|].
  intros [r b] s1 (Hat1 & Hb & Hup1). cbn [fst snd] in *. unfold ok_then. case_decide as Hr.
  2: { apply wp_ret. do 5 eexists. split; [exact Hat1|]. split_and!; try done.
    intros Hu Hf4 _ HK HP2. apply Hup1; try done; [lia|]. by apply small_room. }
  rewrite Hb by done. fold x. wp_step. unfold put_segment. rewrite decide_True by (unfold ESP_IMAGE_MAX_SEGMENTS; lia).
  eapply wp_mono; [by eapply on_data_rule|]. intros [] s2 Hat2. wp_step.
  assert (zlen (ldbytes c fa 8) = 8) as Hl8 by (apply zlen_ldbytes; lia).
  eapply wp_mono; [apply (sha_opt_rule _ _ _ _ _ _ _ _ _ _ Hat2); [apply ldbytes_byte|by rewrite Hl8|rewrite Hl8; lia]|].
  intros [] s3 Hat3. change sizeof_segment_header with 8. rewrite u32_small by lia. wp_step.
  eapply wp_mono; [by eapply verify_segment_header_rule|]. intros e s4 (d4 & Hat4 & Hiff & Hd4). cbv beta iota.
  case_decide as He.
  2: { apply wp_ret. do 5 eexists. split; [exact Hat4|]. split_and!; try done. intros. by apply Hiff. }
  pose proof (proj1 Hiff He) as Hok. rewrite (Hd4 He) in Hat4. clear Hiff Hd4 He.
  rewrite (ho_words _ _ Hok). cbn [Z.eqb negb]. wp_step.
  eapply (wp_mono _ _ (λ valid s', valid = true ∧ s' = s4)).
  { case_match eqn:Eload; [|by apply wp_ret]. apply andb_true_iff in Eload as [Eload Epos]. apply Z.ltb_lt in Epos.
    unfold wp. by rewrite (Hrange Eload Epos). }
  intros valid s' [-> ->]. cbn [negb]. wp_step. wp_step. rewrite (fo_pages _ _ (at_flash _ _ _ _ _ _ _ _ _ Hat4)).
  pose proof (ho_max _ _ Hok). pose proof (ho_words _ _ Hok) as Hx4.
  eapply wp_mono; [apply (pieces_rule i (load_addr x) (fa + 8) (data_len x) (loaded ld x) _ _ _ _ _ _ _ _ Hat4); try done; try lia|].
  { rewrite zlen_app, Hl8. lia. }
  intros r' s5 (bs' & ck' & m' & o' & Hat5 & Hk & Hnl & Hres & Hup5). do 5 eexists. split; [exact Hat5|]. split_and!; [done| | |].
  - intros Hb0. apply Hnl. unfold loaded. destruct (BOOTLOADER_BUILD C), ld; done.
  - intros Hr'. destruct (Hres Hr') as (-> & -> & Hm' & Hne). split_and!; try done.
    by rewrite ldbytes_app, app_assoc by lia.
  - intros Hu _ _ HK HP2. apply Hup5; (done || lia).
Qed.

(** ** All segments *)

(** The headers of [n] segments from [a] on, and the end of segments at [a]. *)
Fixpoint parse (a : Z) (n : nat) : list esp_image_segment_header_t :=
  match n with
  | O => []
  | S n => let x := segment_of (ldbytes c a 8) in x :: parse (a + 8 + data_len x) n
  end.

Fixpoint seg_end (a : Z) (xs : list esp_image_segment_header_t) : Z :=
  match xs with [] => a | x :: l => seg_end (a + 8 + data_len x) l end.

Fixpoint headers_ok (a : Z) (xs : list esp_image_segment_header_t) : Prop :=
  match xs with [] => True | x :: l => header_ok x (a + 8) ∧ headers_ok (a + 8 + data_len x) l end.

(** All words of the segments, the metadata and the RAM. *)
Fixpoint seg_words (a : Z) (xs : list esp_image_segment_header_t) : list Z :=
  match xs with
  | [] => []
  | x :: l => words_of c (a + 8) (Z.to_nat (data_len x / 4)) ++ seg_words (a + 8 + data_len x) l
  end.

Fixpoint filled (i : nat) (a : Z) (xs : list esp_image_segment_header_t) (d : esp_image_metadata_t) : esp_image_metadata_t :=
  match xs with
  | [] => d
  | x :: l => filled (S i) (a + 8 + data_len x) l (set_segment_data i (a + 8) (set_page_size MMU_PAGE_SIZE (set_segment i x d)))
  end.

Fixpoint ram_all (ld : bool) (o : Z * Z) (a : Z) (xs : list esp_image_segment_header_t) (m : mem) : mem :=
  match xs with
  | [] => m
  | x :: l => ram_all ld o (a + 8 + data_len x) l
                (load_ram (loaded ld x) o (load_addr x) (words_of c (a + 8) (Z.to_nat (data_len x / 4))) m)
  end.

Definition one_piece (x : esp_image_segment_header_t) : Prop := data_len x ≤ (P - 1) * MMU_PAGE_SIZE.

Definition some_data (xs : list esp_image_segment_header_t) : Prop := Exists (λ x, 0 < data_len x) xs.

Abbreviation MAXSEG := (8 + ESP_IMAGE_MAX_FLASH_ADDR_SIZE C).

Lemma parse_len a n : Forall (λ x, 0 ≤ data_len x) (parse a n).
Proof. revert a. induction n as [|n IH]; intros a; constructor; [apply (segment_of_range a)|apply IH]. Qed.

Lemma length_parse a n : length (parse a n) = n.
Proof. revert a. induction n as [|n IH]; intros a; [done|]. cbn. by rewrite IH. Qed.

Lemma seg_end_ge a xs : Forall (λ x, 0 ≤ data_len x) xs → a ≤ seg_end a xs.
Proof.
  revert a. induction xs as [|x l IH]; intros a Hx; cbn; [lia|]. apply Forall_cons in Hx as [Hx Hl].
  specialize (IH (a + 8 + data_len x) Hl). lia.
Qed.

Lemma segments_rule n i a ld h bs d ck m o off s :
  let xs := parse a n in
  at_ false h bs d ck m o off s → 0 ≤ a → a + Z.of_nat n * MAXSEG < 2 ^ 32 → (i + n ≤ 16)%nat → length (segments d) = 16%nat →
  zlen bs + Z.of_nat n * MAXSEG < SHA_MAX → 0 ≤ P →
  Forall (λ x, BOOTLOADER_BUILD C && loaded ld x = true → 0 < data_len x → range_ok x) xs →
  wp (segments_loop C i a n ld h true) s (λ r s',
    ∃ bs' d' ck' m' o', at_ false h bs' d' ck' m' o' off s' ∧ obfs_kept o o' ∧ (BOOTLOADER_BUILD C && ld = false → m' = m) ∧
      (r.1 = ESP_OK → headers_ok a xs ∧ r.2 = seg_end a xs ∧ seg_end a xs ≤ a + Z.of_nat n * MAXSEG ∧ d' = filled i a xs d ∧
         bs' = bs ++ ldbytes c a (seg_end a xs - a) ∧ ck' = fold_left Z.lxor (seg_words a xs) ck ∧
         (Forall one_piece xs → m' = ram_all ld o' a xs m) ∧ (BOOTLOADER_BUILD C = true → some_data xs → o'.1 ≠ 0 ∧ o'.2 ≠ 0)) ∧
      (up → a mod 4 = 0 → headers_ok a xs → seg_end a xs ≤ K → 2 ≤ P → r.1 = ESP_OK)).
Proof.
  revert i a bs d ck m o s. induction n as [|n IH]; intros i a bs d ck m o s xs Hat Ha Hlt Hi Hls Hsz HP Hrange.
  - cbn [segments_loop]. apply wp_ret. do 5 eexists. split; [exact Hat|]. split_and!; try done. intros _. cbn.
    split_and!; try done; [lia| |by intros _ ?%Exists_nil]. by rewrite Z.sub_diag, ldbytes_0, app_nil_r.
  - subst xs. cbn [segments_loop parse seg_end headers_ok filled seg_words ram_all] in *. set (x := segment_of (ldbytes c a 8)) in *.
    apply Forall_cons in Hrange as [Hrx Hrl]. destruct (segment_of_range a) as [Hlr Hdr]. fold x in Hlr, Hdr.
    wp_step. eapply wp_mono; [apply (segment_rule i a ld _ _ _ _ _ _ _ _ Hat); (done || lia)|]. fold x.
    intros e s1 (bs1 & d1 & ck1 & m1 & o1 & Hat1 & Hk1 & Hnl1 & Hok1 & Hup1).
    pose proof (seg_end_ge (a + 8 + data_len x) _ (parse_len (a + 8 + data_len x) n)) as Hge.
    case_decide as He.
    2: { apply wp_ret. do 5 eexists. split; [exact Hat1|]. split_and!; try done. intros Hu Ha4 [Hhx _] HK HP2. apply Hup1; (done || lia). }
    destruct (Hok1 He) as (Hhx & -> & -> & -> & Hm1 & Ho1). pose proof (ho_max _ _ Hhx). pose proof (ho_words _ _ Hhx).
    change sizeof_segment_header with 8. rewrite (u32_small (a + 8)) by lia. wp_step. unfold put_segment_data.
    rewrite decide_True by (unfold ESP_IMAGE_MAX_SEGMENTS; lia).
    eapply wp_mono; [by eapply on_data_rule|]. intros [] s2 Hat2. wp_step. wp_step.
    rewrite (at_data _ _ _ _ _ _ _ _ _ Hat2). cbn [set_segment_data set_page_size set_segment segments].
    rewrite list_lookup_total_insert_eq by lia. rewrite u32_small by lia.
    eapply wp_mono; [apply (IH (S i) (a + 8 + data_len x) _ _ _ _ _ _ Hat2); try done; try lia|].
    { cbn. by rewrite length_insert. }
    { rewrite zlen_app, zlen_ldbytes by lia. lia. }
    intros [r a'] s3 (bs3 & d3 & ck3 & m3 & o3 & Hat3 & Hk3 & Hnl3 & Hok3 & Hup3). cbn [fst snd] in *.
    assert (obfs_kept o o3) as Hk by (by eapply obfs_kept_trans).
    do 5 eexists. split; [exact Hat3|]. split_and!; [done| | |].
    + intros Hb. rewrite (Hnl3 Hb). auto.
    + intros Hr. destruct (Hok3 Hr) as (Hhl & -> & Hle & -> & -> & -> & Hm3 & Ho3). split_and!; try done; [lia|..].
      * rewrite <- app_assoc. f_equal. replace (seg_end (a + 8 + data_len x) (parse (a + 8 + data_len x) n) - a)
          with ((8 + data_len x) + (seg_end (a + 8 + data_len x) (parse (a + 8 + data_len x) n) - (a + 8 + data_len x))) by lia.
        rewrite (ldbytes_app c a (8 + data_len x)) by lia. by rewrite Z.add_assoc.
      * by rewrite fold_left_app.
      * intros [Hpx Hpl]%Forall_cons. rewrite (Hm3 Hpl), (Hm1 Hpx). f_equal. unfold load_ram.
        destruct (BOOTLOADER_BUILD C) eqn:EB; [|done]. destruct (loaded ld x); [|done]. cbn [andb].
        destruct (Z.eq_dec (data_len x) 0) as [->|]; [done|]. destruct (Ho1 eq_refl ltac:(lia)) as [Hn1 Hn2]. by rewrite (Hk3 Hn1 Hn2).
      * intros HB [Hpos|Hsome]%Exists_cons; [|by apply Ho3]. destruct (Ho1 HB Hpos) as [Hn1 Hn2]. by rewrite (Hk3 Hn1 Hn2).
    + intros Hu Ha4 [_ Hhl] HK HP2. apply Hup3; try done. Z.to_euclidean_division_equations; lia.
Qed.

(** ** The header of the image *)

Definition boot_at (off a : Z) : bool :=
  (a =? ESP_PRIMARY_BOOTLOADER_OFFSET C) || (a =? off) || match recovery_bootloader C with Some o => a =? o | None => false end.

Lemma is_bootloader_at b h bs d ck m o off a s : at_ b h bs d ck m o off s → is_bootloader C a s = boot_at off a.
Proof. intros Hat. unfold is_bootloader. by rewrite (at_off _ _ _ _ _ _ _ _ _ Hat). Qed.

Definition type_at (off a : Z) : esp_image_type := if boot_at off a then ESP_IMAGE_BOOTLOADER else ESP_IMAGE_APPLICATION.

Record image_header_ok (off a : Z) (hdr : esp_image_header_t) : Prop := mkImageHeaderOk {
  ih_magic : magic hdr = ESP_IMAGE_HEADER_MAGIC;
  ih_chip : bootloader_common_check_chip_validity C hdr (type_at off a) = ESP_OK;
  ih_count : segment_count hdr ≤ ESP_IMAGE_MAX_SEGMENTS }.

Lemma verify_image_header_rule b h bs d ck m o off a hdr s : at_ b h bs d ck m o off s →
  wp (verify_image_header C a hdr) s (λ r s', s' = s ∧ (r = ESP_OK ↔ image_header_ok off a hdr)).
Proof.
  intros Hat. unfold verify_image_header. wp_step. wp_step. rewrite (is_bootloader_at _ _ _ _ _ _ _ _ a _ Hat).
  change (if boot_at off a then _ else _) with (type_at off a).
  destruct (Z.eqb_spec (magic hdr) ESP_IMAGE_HEADER_MAGIC) as [Hm|Hm]; cbn [negb].
  2: { apply wp_ret. split; [done|]. split; [done|]. by intros []. }
  unfold ok_then. case_decide as Hc; [|apply wp_ret; split; [done|]; split; [done|by intros []]].
  destruct (Z.ltb_spec ESP_IMAGE_MAX_SEGMENTS (segment_count hdr)); apply wp_ret; (split; [done|]); split; try done. intros []. lia.
Qed.

(** The metadata when the header was read. *)
Definition header_data (a : Z) : esp_image_metadata_t :=
  set_len sizeof_image_header (set_image (ldbytes c a 24) (set_start a metadata0)).

Definition hash_on (a : Z) : bool := negb (hash_appended (ldbytes c a 24) =? 0).

Lemma image_header_rule a (wanted : bool) bs d ck m o off s : at_ false None bs d ck m o off s → 0 ≤ a → a + 24 < 2 ^ 32 →
  wp (process_image_header C a wanted true) s (λ r s',
    ∃ d', at_ false r.2 (ldbytes c a 24) d' ck m o off s' ∧
      (r.1 = ESP_OK → image_header_ok off a (ldbytes c a 24) ∧ d' = header_data a ∧
         (is_Some r.2 ↔ hash_on a && wanted = true)) ∧
      (up → a mod 4 = 0 → image_header_ok off a (ldbytes c a 24) → a + 24 ≤ K → 2 ≤ P → r.1 = ESP_OK)).
Proof.
  intros Hat Ha Hlt. unfold process_image_header. wp_step. eapply wp_mono; [by eapply on_data_rule|]. intros [] s1 Hat1. wp_step.
  change sizeof_image_header with 24.
  eapply wp_mono; [apply (read_rule _ _ _ _ _ _ _ a 24 _ Hat1); lia|]. intros [r b] s2 (Hat2 & Hb & Hup2). cbn [fst snd] in *.
  case_decide as Hr.
  2: { apply wp_ret. cbn [fst snd]. exists (set_start a metadata0). split; [by eapply at_none|]. split; [done|].
    intros Hu Ha4 _ HK HP2. apply Hup2; try done. by apply small_room. }
  rewrite Hb by done. cbv zeta. set (hdr := ldbytes c a 24) in *. clear Hb b Hup2. wp_step.
  eapply wp_mono; [by eapply on_data_rule|]. intros [] s3 Hat3.
  assert (∀ h s4, at_ false h hdr (set_image hdr (set_start a metadata0)) ck m o off s4 → (is_Some h ↔ hash_on a && wanted = true) →
    wp (e ← verify_image_header C a hdr; if decide (e = ESP_OK) then on_data (set_len 24);; mret (ESP_OK, h) else mret (e, h)) s4 (λ r s',
      ∃ d', at_ false r.2 hdr d' ck m o off s' ∧
        (r.1 = ESP_OK → image_header_ok off a hdr ∧ d' = header_data a ∧ (is_Some r.2 ↔ hash_on a && wanted = true)) ∧
        (up → a mod 4 = 0 → image_header_ok off a hdr → a + 24 ≤ K → 2 ≤ P → r.1 = ESP_OK))) as Hverify.
  { intros h s4 Hat4 Hsome. wp_step. eapply wp_mono; [by eapply verify_image_header_rule|]. intros e s' [-> Hiff]. case_decide as He.
    - wp_step. eapply wp_mono; [by eapply on_data_rule|]. intros [] s5 Hat5. apply wp_ret. eexists. split; [exact Hat5|].
      split; [|done]. intros _. split_and!; [by apply Hiff|done|apply Hsome..].
    - apply wp_ret. eexists. split; [exact Hat4|]. split; [done|]. intros. by apply Hiff. }
  revert Hverify. unfold hash_on. fold hdr. destruct (negb (hash_appended hdr =? 0) && wanted) eqn:Ehash; intros Hverify.
  2: { apply Hverify; [by eapply at_none|]. split; [by intros [? ?]|done]. }
  wp_step. destruct Hat3 as [Hf3 [Hi3 Hr3] Hd3 Hc3 Hm3 Ho3 Hoff3]. unfold shaI at 1. apply wp_zoom.
  apply start_law; [done| |].
  - intros h x Hx. wp_step. eapply wp_mono; [eapply (sha_rule false h [] hdr)|].
    + by split.
    + apply ldbytes_byte.
    + unfold hdr. by rewrite zlen_ldbytes.
    + unfold hdr. by rewrite zlen_ldbytes.
    + intros [] s4 Hat4. apply Hverify; [exact Hat4|]. split; [done|by eexists].
  - intros Hnr x Hx. apply wp_ret. eexists. split; [split; try done; split; [done|intros Hu; by destruct Hnr; auto]|]. split; [done|].
    intros Hu. by destruct Hnr; auto.
Qed.

(** ** The image at [a] *)

Definition segs_at (a : Z) : list esp_image_segment_header_t := parse (a + 24) (Z.to_nat (segment_count (ldbytes c a 24))).

(** Its length without and with the checksum, and with the digest. *)
Definition body_len (a : Z) : Z := seg_end (a + 24) (segs_at a) - a.
Definition sum_len (a : Z) : Z := body_len a + (16 - body_len a mod 16).
Definition full_len (a : Z) : Z := sum_len a + (if hash_on a then HASH_LEN else 0).

Definition image_sum (a : Z) : Z := fold_left Z.lxor (seg_words (a + 24) (segs_at a)) ESP_ROM_CHECKSUM_INITIAL.

(** The four bytes of a word, added without carry. *)
Definition sum_byte (w : Z) : Z :=
  u8 (Z.lxor (Z.lxor (Z.lxor (Z.shiftr w 24) (Z.shiftr w 16)) (Z.shiftr w 8)) (Z.shiftr w 0)).

Definition segs_data (a : Z) : esp_image_metadata_t := filled 0 (a + 24) (segs_at a) (header_data a).

Definition image_data (a : Z) : esp_image_metadata_t :=
  set_len (full_len a) (if hash_on a then set_digest (ldbytes c (a + sum_len a) HASH_LEN) (segs_data a) else segs_data a).

(** The addresses of an image at [a] do not wrap. *)
Definition room_at (a : Z) : Prop := 0 ≤ a ∧ a + 24 + 16 * MAXSEG + 64 < 2 ^ 32.

Lemma filled_fields i a xs d :
  start_addr (filled i a xs d) = start_addr d ∧ image (filled i a xs d) = image d ∧ image_len (filled i a xs d) = image_len d.
Proof. revert i a d. induction xs as [|x l IH]; intros i a d; [done|]. cbn [filled]. by rewrite !(proj1 (IH _ _ _)), !(proj1 (proj2 (IH _ _ _))), !(proj2 (proj2 (IH _ _ _))). Qed.

Lemma headers_ok_mod a xs : headers_ok a xs → seg_end a xs mod 4 = a mod 4.
Proof.
  revert a. induction xs as [|x l IH]; intros a; [done|]. cbn. intros [Hx Hl]. rewrite IH by done.
  pose proof (ho_words _ _ Hx). Z.to_euclidean_division_equations; lia.
Qed.

Lemma segment_count_range a : 0 ≤ segment_count (ldbytes c a 24) < 256.
Proof. unfold segment_count. change 1%nat with (Z.to_nat 1). rewrite ldbytes_lookup by lia. apply c_byte. Qed.

Context (sha_room : 24 + 16 * MAXSEG + 64 < SHA_MAX).

Lemma process_segments_rule a ld h ck m o off s :
  at_ false h (ldbytes c a 24) (header_data a) ck m o off s → room_at a → segment_count (ldbytes c a 24) ≤ 16 → 0 ≤ P →
  Forall (λ x, BOOTLOADER_BUILD C && loaded ld x = true → 0 < data_len x → range_ok x) (segs_at a) →
  wp (process_segments C ld h true) s (λ r s',
    ∃ bs' d' ck' m' o', at_ false h bs' d' ck' m' o' off s' ∧ obfs_kept o o' ∧ (BOOTLOADER_BUILD C && ld = false → m' = m) ∧
      (r = ESP_OK → headers_ok (a + 24) (segs_at a) ∧ 24 ≤ body_len a ≤ 24 + 16 * MAXSEG ∧ body_len a mod 4 = 0 ∧
         d' = set_len (body_len a) (segs_data a) ∧ bs' = ldbytes c a (body_len a) ∧
         ck' = fold_left Z.lxor (seg_words (a + 24) (segs_at a)) ck ∧
         (Forall one_piece (segs_at a) → m' = ram_all ld o' (a + 24) (segs_at a) m) ∧
         (BOOTLOADER_BUILD C = true → some_data (segs_at a) → o'.1 ≠ 0 ∧ o'.2 ≠ 0)) ∧
      (up → a mod 4 = 0 → headers_ok (a + 24) (segs_at a) → a + body_len a ≤ K → 2 ≤ P → r = ESP_OK)).
Proof.
  intros Hat [Ha Hlt] Hcnt HP Hrange. unfold process_segments. wp_step. wp_step. rewrite (at_data _ _ _ _ _ _ _ _ _ Hat).
  cbn [header_data set_len set_image set_start start_addr image_len image]. change sizeof_image_header with 24.
  rewrite (u32_small (a + 24)) by lia. pose proof (segment_count_range a) as Hr. set (n := Z.to_nat (segment_count (ldbytes c a 24))) in *.
  wp_step. eapply wp_mono; [apply (segments_rule n 0 (a + 24) ld _ _ _ _ _ _ _ _ Hat); try done; try lia|].
  { nia. } { rewrite zlen_ldbytes by lia. nia. }
  change (parse (a + 24) n) with (segs_at a). intros [r e] s1 (bs' & d' & ck' & m' & o' & Hat1 & Hk & Hnl & Hok & Hup). cbn [fst snd] in *.
  pose proof (seg_end_ge (a + 24) _ (parse_len (a + 24) n)) as Hge. change (parse (a + 24) n) with (segs_at a) in Hge.
  case_decide as Hr1.
  2: { apply wp_ret. do 5 eexists. split; [exact Hat1|]. split_and!; try done.
    intros Hu Ha4 Hh HK HP2. apply Hup; try done; [|unfold body_len in HK; lia]. Z.to_euclidean_division_equations; lia. }
  destruct (Hok Hr1) as (Hh & -> & Hle & -> & -> & -> & Hm & Hnz). destruct (Z.ltb_spec (seg_end (a + 24) (segs_at a)) a) as [?|_]; [lia|].
  wp_step. eapply wp_mono; [by eapply on_data_rule|]. intros [] s2 Hat2. apply wp_ret.
  pose proof (headers_ok_mod _ _ Hh) as Hmod.
  destruct (filled_fields 0 (a + 24) (segs_at a) (header_data a)) as (_ & _ & Hil). rewrite Hil in Hat2.
  change (image_len (header_data a)) with 24 in Hat2.
  assert (u32 (24 + (seg_end (a + 24) (segs_at a) - (a + 24))) = body_len a) as Hbl by (unfold body_len; rewrite u32_small by nia; lia).
  rewrite Hbl in Hat2. do 5 eexists. split; [exact Hat2|]. split_and!; try done.
  intros _. unfold body_len in *. split_and!; try done; [lia|nia|Z.to_euclidean_division_equations; lia|].
  rewrite <- ldbytes_app by lia. f_equal. lia.
Qed.

(** ** The checksum and the digest *)

Lemma pad_len n : 0 ≤ n → n + 16 < 2 ^ 32 → u32 (clear (u32 (u32 (n + 1) + 15)) 15 - n) = 16 - n mod 16.
Proof.
  intros Hn Hlt. rewrite (u32_small (n + 1)), (u32_small (n + 1 + 15)) by lia. unfold clear. change 15 with (Z.ones 4) at 2.
  rewrite Z.ldiff_ones_r, Z.shiftl_mul_pow2, Z.shiftr_div_pow2 by lia. change (2 ^ 4) with 16.
  rewrite u32_small; Z.to_euclidean_division_equations; lia.
Qed.

Lemma checksum_rule a n h ck d m o off s :
  at_ false h (ldbytes c a n) d ck m o off s → start_addr d = a → image_len d = n → 0 ≤ a → 0 ≤ n → a + n + 16 < 2 ^ 32 →
  n mod 4 = 0 → n + 16 < SHA_MAX →
  let k := 16 - n mod 16 in
  wp (process_checksum h ck false) s (λ r s', ∃ d' bs', at_ false h bs' d' ck m o off s' ∧
    (r = ESP_OK → c (a + n + k - 1) = sum_byte ck ∧ d' = set_len (n + k) d ∧ bs' = ldbytes c a (n + k)) ∧
    (up → a mod 4 = 0 → c (a + n + k - 1) = sum_byte ck → a + n + k ≤ K → 2 ≤ P → r = ESP_OK)).
Proof.
  intros Hat Hda Hdn Ha Hn Hlt H4 Hsz k. assert (1 ≤ k ≤ 16 ∧ k mod 4 = 0) as [Hk Hk4] by (unfold k; Z.to_euclidean_division_equations; lia).
  unfold process_checksum. wp_step. wp_step. rewrite (at_data _ _ _ _ _ _ _ _ _ Hat), Hda, Hdn, pad_len by lia. fold k.
  rewrite (u32_small (a + n)) by lia. cbn [negb orb andb]. wp_step.
  eapply wp_mono; [apply (read_rule _ _ _ _ _ _ _ (a + n) k _ Hat); lia|]. intros [r b] s1 (Hat1 & Hb & Hup1). cbn [fst snd] in *.
  unfold ok_then. case_decide as Hr.
  2: { apply wp_ret. do 2 eexists. split; [exact Hat1|]. split; [done|]. intros Hu Ha4 _ HK HP2. apply Hup1; try done.
    - Z.to_euclidean_division_equations; lia.
    - apply small_room; [done|]. unfold MMU_PAGE_SIZE. lia. }
  rewrite Hb by done. rewrite ldbytes_lookup by lia. replace (a + n + (k - 1)) with (a + n + k - 1) by lia.
  fold (sum_byte ck). destruct (Z.eqb_spec (sum_byte ck) (c (a + n + k - 1))) as [Heq|Hne]; cbn [negb].
  2: { apply wp_ret. do 2 eexists. split; [exact Hat1|]. split; [done|]. intros Hu _ Hs. congruence. }
  wp_step. rewrite take_ge by (rewrite length_ldbytes; lia).
  assert (zlen (ldbytes c (a + n) k) = k) as Hlk by (apply zlen_ldbytes; lia).
  eapply wp_mono; [apply (sha_opt_rule _ _ _ _ _ _ _ _ _ _ Hat1); [apply ldbytes_byte|by rewrite Hlk|rewrite Hlk, zlen_ldbytes by lia; lia]|].
  intros [] s2 Hat2. wp_step. eapply wp_mono; [by eapply on_data_rule|]. intros [] s3 Hat3. apply wp_ret.
  rewrite Hdn, u32_small in Hat3 by lia. rewrite <- ldbytes_app in Hat3 by lia.
  do 2 eexists. split; [exact Hat3|]. split_and!; done.
Qed.

Lemma hash_rule a n size h bs ck d m o off s :
  at_ false h bs d ck m o off s → start_addr d = a → image_len d = n → image d = ldbytes c a 24 → 0 ≤ a → 0 ≤ n → a + n + 32 < 2 ^ 32 →
  let n' := n + (if hash_on a then HASH_LEN else 0) in
  wp (process_appended_hash_and_sig size true) s (λ r s', ∃ d', at_ false h bs d' ck m o off s' ∧
    (r = ESP_OK → n' ≤ size ∧ d' = set_len n' (if hash_on a then set_digest (ldbytes c (a + n) HASH_LEN) d else d)) ∧
    (up → a mod 4 = 0 → n mod 4 = 0 → n' ≤ size → a + n' ≤ K → 2 ≤ P → r = ESP_OK)).
Proof.
  intros Hat Hda Hdn Hdi Ha Hn Hlt n'. unfold process_appended_hash_and_sig. wp_step. wp_step.
  rewrite (at_data _ _ _ _ _ _ _ _ _ Hat), Hda, Hdn, Hdi. fold (hash_on a). unfold HASH_LEN in *. rewrite (u32_small (a + n)) by lia.
  assert (∀ d1 s1, at_ false h bs d1 ck m o off s1 → image_len d1 = n' → d1 = set_len n' (if hash_on a then set_digest (ldbytes c (a + n) 32) d else d) →
    wp (s ← get; if size <? image_len (data s) then mret ESP_ERR_IMAGE_INVALID else mret ESP_OK) s1 (λ r s', ∃ d', at_ false h bs d' ck m o off s' ∧
      (r = ESP_OK → n' ≤ size ∧ d' = set_len n' (if hash_on a then set_digest (ldbytes c (a + n) 32) d else d)) ∧
      (up → a mod 4 = 0 → n mod 4 = 0 → n' ≤ size → a + n' ≤ K → 2 ≤ P → r = ESP_OK))) as Hcheck.
  { intros d1 s1 Hat1 Hl1 Hd1. wp_step. wp_step. rewrite (at_data _ _ _ _ _ _ _ _ _ Hat1), Hl1.
    destruct (Z.ltb_spec size n'); apply wp_ret; exists d1; (split; [done|]); split; try done. intros; lia. }
  unfold n' in *. destruct (hash_on a) eqn:Eh.
  - wp_step. eapply wp_mono; [apply (read_rule _ _ _ _ _ _ _ (a + n) 32 _ Hat); lia|]. intros [r b] s1 (Hat1 & Hb & Hup1). cbn [fst snd] in *.
    unfold ok_then. case_decide as Hr.
    2: { apply wp_ret. eexists. split; [exact Hat1|]. split; [done|]. intros Hu Ha4 Hn4 _ HK HP2. apply Hup1; try done; [|lia|].
      - Z.to_euclidean_division_equations; lia.
      - by apply small_room. }
    rewrite Hb by done. wp_step. eapply wp_mono; [by eapply on_data_rule|]. intros [] s2 Hat2. wp_step.
    eapply wp_mono; [by eapply on_data_rule|]. intros [] s3 Hat3. cbn [set_digest image_len] in Hat3. rewrite Hdn, u32_small in Hat3 by lia.
    eapply Hcheck; [exact Hat3|done|done].
  - eapply Hcheck; [exact Hat|lia|]. rewrite Z.add_0_r, <- Hdn. by destruct d.
Qed.

(** ** The end *)

Lemma load_failed_rule b h bs d ck m o off e s : at_ b h bs d ck m o off s → e ≠ ESP_OK →
  wp (load_failed e h) s (λ r s', r = e ∧ flash_ok b (ifl s') ∧ sha_idle (isha s') ∧ data s' = metadata0 ∧ ram s' = m ∧
    s_bootloader_partition_offset s' = off).
Proof.
  intros Hat He. unfold load_failed. wp_step.
  eapply (wp_mono _ _ (λ _ s', flash_ok b (ifl s') ∧ sha_idle (isha s') ∧ ram s' = m ∧ s_bootloader_partition_offset s' = off)).
  - destruct Hat as [Hf Hs Hd Hc Hm Ho Hoff]. destruct h as [h|]; [|apply wp_ret; by destruct Hs].
    wp_step. unfold shaI. apply wp_zoom. eapply finish_law; [exact Hs|done|]. intros _ x Hx _. apply wp_ret. done.
  - intros [] s1 (Hf & Hi & Hm & Hoff). wp_step. unfold on_data. wp_steps. rewrite decide_False by done. done.
Qed.

(** Restoring the words of a segment. *)
Fixpoint unmask_words (o : Z * Z) (addr j : Z) (n : nat) (m : mem) : mem :=
  match n with
  | O => m
  | S n => unmask_words o addr (j + 1) n (st32 m (u32 (addr + 4 * j)) (Z.lxor (ld32 m (u32 (addr + 4 * j))) (mask_of o j)))
  end.

Definition unmask_segment (o : Z * Z) (x : esp_image_segment_header_t) (m : mem) : mem :=
  if should_load C (load_addr x) then unmask_words o (load_addr x) 0 (Z.to_nat (data_len x / 4)) m else m.

Lemma deobfuscate_words_rule n addr j s :
  wp (deobfuscate_words addr j n) s (λ _ s', s' = set_ram (unmask_words (ram_obfs_value s) addr j n (ram s)) s).
Proof.
  revert j s. induction n as [|n IH]; intros j s; cbn [deobfuscate_words unmask_words]; [apply wp_ret; by destruct s|].
  wp_step. wp_step. eapply wp_mono; [apply IH|]. by intros [] s' ->.
Qed.

Lemma deobfuscate_rule n i s xs : take n (drop i (segments (data s))) = xs → length xs = n →
  wp (deobfuscate C i n) s (λ _ s', s' = set_ram (foldl (λ m x, unmask_segment (ram_obfs_value s) x m) (ram s) xs) s).
Proof.
  revert i s xs. induction n as [|n IH]; intros i s xs Hxs Hl; cbn [deobfuscate].
  - destruct xs; [|done]. apply wp_ret. by destruct s.
  - wp_step. wp_step. destruct (segments (data s) !! i) as [x|] eqn:Ei.
    2: { apply lookup_ge_None in Ei. rewrite drop_ge in Hxs by done. subst xs. done. }
    rewrite (drop_S _ x) in Hxs by done. cbn [take] in Hxs. subst xs. cbn [length] in Hl. injection Hl as Hl. wp_step.
    eapply (wp_mono _ _ (λ _ s', s' = set_ram (unmask_segment (ram_obfs_value s) x (ram s)) s)).
    + unfold unmask_segment. apply wp_when; intros ->; [apply deobfuscate_words_rule|by destruct s].
    + intros [] s1 ->. eapply wp_mono; [by apply IH|]. by intros [] s2 ->.
Qed.

Record accepted (off a size : Z) : Prop := mkAccepted {
  ac_header : image_header_ok off a (ldbytes c a 24);
  ac_segments : headers_ok (a + 24) (segs_at a);
  ac_sum : c (a + sum_len a - 1) = sum_byte (image_sum a);
  ac_size : full_len a ≤ size;
  ac_max : size ≤ ESP_IMAGE_MAX_FLASH_ADDR_SIZE C;
  ac_hash : hash_on a = true → boot_at off a = false → ldbytes c (a + sum_len a) HASH_LEN = sha256 (ldbytes c a (sum_len a)) }.

(** RAM after loading with the words [o]. *)
Definition ram_loaded (o : Z * Z) (a : Z) (m : mem) : mem :=
  let masked := ram_all true o (a + 24) (segs_at a) m in
  if negb (o.1 =? 0) && negb (o.2 =? 0) then foldl (λ m x, unmask_segment o x m) masked (segs_at a) else masked.

Lemma filled_segments i a xs d : (i + length xs ≤ length (segments d))%nat →
  take (length xs) (drop i (segments (filled i a xs d))) = xs ∧ length (segments (filled i a xs d)) = length (segments d) ∧
  ∀ j, (j < i)%nat → segments (filled i a xs d) !! j = segments d !! j.
Proof.
  revert i a d. induction xs as [|x l IH]; intros i a d Hl; [done|]. cbn [filled length] in *.
  set (d1 := set_segment_data i (a + 8) (set_page_size MMU_PAGE_SIZE (set_segment i x d))).
  assert (segments d1 = <[i := x]> (segments d)) as Hd1 by done.
  destruct (IH (S i) (a + 8 + data_len x) d1) as (Htake & Hlen & Hlow); [rewrite Hd1, length_insert; lia|].
  split_and!.
  - rewrite (drop_S _ x); [cbn [take]; by rewrite Htake|]. rewrite Hlow by lia. rewrite Hd1. apply list_lookup_insert_eq. lia.
  - by rewrite Hlen, Hd1, length_insert.
  - intros j Hj. rewrite Hlow by lia. rewrite Hd1. by rewrite list_lookup_insert_ne by lia.
Qed.

Lemma sum_len_mod a : sum_len a mod 16 = 0.
Proof. unfold sum_len. Z.to_euclidean_division_equations; lia. Qed.

Context (no_dbgr : dbgr_is_attached C = false).

(** The state when the digest is finished. *)
Record at_end (d : esp_image_metadata_t) (m : mem) (o : Z * Z) (off : Z) s : Prop := mkEnd {
  ae_flash : flash_ok false (ifl s);
  ae_sha : sha_idle (isha s);
  ae_data : data s = d;
  ae_ram : ram s = m;
  ae_obfs : ram_obfs_value s = o;
  ae_off : s_bootloader_partition_offset s = off }.

Lemma load_end_rule a ld h ck m o off s : at_ false h (ldbytes c a (sum_len a)) (image_data a) ck m o off s →
  room_at a → segment_count (ldbytes c a 24) ≤ 16 → 0 ≤ sum_len a → (is_Some h ↔ hash_on a && negb (boot_at off a) = true) →
  wp (load_end C ld (negb (boot_at off a)) h) s (λ r s', flash_ok false (ifl s') ∧ sha_idle (isha s') ∧
    s_bootloader_partition_offset s' = off ∧ (BOOTLOADER_BUILD C && ld = false → ram s' = m) ∧
    (r = ESP_OK → data s' = image_data a ∧
       (hash_on a = true → boot_at off a = false → ldbytes c (a + sum_len a) HASH_LEN = sha256 (ldbytes c a (sum_len a))) ∧
       (BOOTLOADER_BUILD C && ld = true → ram s' = if negb (o.1 =? 0) && negb (o.2 =? 0) then foldl (λ m x, unmask_segment o x m) m (segs_at a) else m)) ∧
    (r ≠ ESP_OK → data s' = metadata0) ∧
    ((hash_on a = true → boot_at off a = false → ldbytes c (a + sum_len a) HASH_LEN = sha256 (ldbytes c a (sum_len a))) → r = ESP_OK)).
Proof.
  intros Hat Hroom Hcnt Hsum Hsome. unfold load_end. wp_step.
  assert (image_digest (image_data a) = if hash_on a then ldbytes c (a + sum_len a) HASH_LEN else image_digest (segs_data a)) as Hdig.
  { unfold image_data. by destruct (hash_on a). }
  eapply (wp_mono _ _ (λ r s', at_end (image_data a) m o off s' ∧ (r = ESP_OK ∨ r = ESP_ERR_IMAGE_INVALID) ∧
    (r = ESP_OK ↔ (hash_on a = true → boot_at off a = false → ldbytes c (a + sum_len a) HASH_LEN = sha256 (ldbytes c a (sum_len a)))))).
  { destruct Hat as [Hf Hs Hd Hc Hm Ho Hoff]. destruct h as [h|].
    - pose proof (proj1 Hsome (mk_is_Some _ _ eq_refl)) as Hon. apply andb_true_iff in Hon as [Hon Hboot].
      rewrite Hboot, no_dbgr. cbn [negb andb]. unfold verify_simple_hash. wp_step. unfold shaI. apply wp_zoom.
      eapply finish_law; [exact Hs|intros _; rewrite zlen_ldbytes by done; apply sum_len_mod|]. intros dg x Hx Hdg. wp_step. wp_step.
      cbn [set_sha data]. rewrite Hd, Hdig, Hon, Hdg by done. apply negb_true_iff in Hboot.
      case_decide as Heq; apply wp_ret; (split; [by split|]); (split; [auto|]); split; try done; auto.
      intros Hgo. by destruct Heq; apply Hgo.
    - apply wp_ret. split; [split; try done; apply Hs|]. split; [auto|]. split; [|done]. intros _ Hon Hboot.
      destruct (proj2 Hsome) as [? ?]; [by rewrite Hon, Hboot|done]. }
  intros r s1 (Hend & Hcase & Hiff). case_decide as Hr.
  - wp_step. wp_step. wp_step.
    assert (segment_count (image (image_data a)) = segment_count (ldbytes c a 24)) as Hsc.
    { unfold image_data. destruct (filled_fields 0 (a + 24) (segs_at a) (header_data a)) as (_ & Himg & _).
      destruct (hash_on a); cbn [set_len set_digest image]; unfold segs_data; by rewrite Himg. }
    assert (segments (image_data a) = segments (segs_data a)) as Hseg by (unfold image_data; by destruct (hash_on a)).
    pose proof (segment_count_range a).
    assert (length (segs_at a) = Z.to_nat (segment_count (ldbytes c a 24))) as Hlen by apply length_parse.
    destruct (filled_segments 0 (a + 24) (segs_at a) (header_data a)) as (Htake & _ & _); [cbn; lia|].
    destruct Hend as [Hf Hi Hd Hm Ho Hoff]. rewrite Hd, Hsc, Ho.
    apply wp_when; intros Hload.
    + apply andb_true_iff in Hload as [Hload Hz2]. apply andb_true_iff in Hload as [Hload Hz1].
      eapply wp_mono; [eapply (deobfuscate_rule _ 0 s1 (segs_at a)); [|done]|].
      { rewrite Hd, Hseg. unfold segs_data. by rewrite <- Hlen. }
      intros [] s2 ->. apply wp_ret. split_and!; try done.
      * by rewrite Hload.
      * intros _. split_and!; [done|by apply Hiff|]. intros _. cbn. by rewrite Hz1, Hz2, Ho, Hm.
    + apply wp_ret. split_and!; try done. intros _. split_and!; [done|by apply Hiff|]. intros HB. rewrite HB in Hload. cbn [andb] in Hload.
      by rewrite Hload.
  - destruct Hcase as [?|Hcase]; [done|]. unfold load_failed. wp_step. wp_step. unfold on_data. wp_steps. rewrite decide_False by done.
    destruct Hend as [Hf Hi Hd Hm Ho Hoff]. split_and!; try done. intros Hgo. by apply Hiff.
Qed.

(** ** Verifying and loading *)

Definition loads (mode : esp_image_load_mode_t) : bool := BOOTLOADER_BUILD C && bool_decide (mode = ESP_IMAGE_LOAD).

Lemma sum_len_range a : 24 ≤ body_len a ≤ 24 + 16 * MAXSEG → body_len a < sum_len a ≤ 40 + 16 * MAXSEG.
Proof. intros Hb. unfold sum_len. Z.to_euclidean_division_equations; lia. Qed.

Lemma len_order a : 24 ≤ body_len a < sum_len a ∧ sum_len a ≤ full_len a.
Proof.
  unfold full_len, sum_len, body_len. pose proof (seg_end_ge (a + 24) _ (parse_len (a + 24) (Z.to_nat (segment_count (ldbytes c a 24))))) as Hge.
  fold (segs_at a) in Hge. pose proof (Z.mod_pos_bound (seg_end (a + 24) (segs_at a) - a) 16). unfold HASH_LEN. destruct (hash_on a); lia.
Qed.

Lemma segs_data_fields a : start_addr (segs_data a) = a ∧ image (segs_data a) = ldbytes c a 24.
Proof. destruct (filled_fields 0 (a + 24) (segs_at a) (header_data a)) as (Hs & Hi & _). unfold segs_data. by rewrite Hs, Hi. Qed.

Lemma image_load_rule mode a size bs d ck m o off s :
  at_ false None bs d ck m o off s → mode ≠ ESP_IMAGE_LOAD_NO_VALIDATE → room_at a → 0 ≤ P →
  (segment_count (ldbytes c a 24) ≤ 16 →
   Forall (λ x, BOOTLOADER_BUILD C && loaded (loads mode) x = true → 0 < data_len x → range_ok x) (segs_at a)) →
  wp (image_load C mode (Some (mkPos a size)) true) s (λ r s', flash_ok false (ifl s') ∧ sha_idle (isha s') ∧
    s_bootloader_partition_offset s' = off ∧ (loads mode = false → ram s' = m) ∧
    (r = ESP_OK → accepted off a size ∧ data s' = image_data a ∧
       (loads mode = true → Forall one_piece (segs_at a) → ∃ o', (some_data (segs_at a) → o'.1 ≠ 0 ∧ o'.2 ≠ 0) ∧ ram s' = ram_loaded o' a m)) ∧
    (r ≠ ESP_OK → data s' = metadata0) ∧
    (up → a mod 4 = 0 → accepted off a size → a + full_len a ≤ K → 2 ≤ P → r = ESP_OK)).
Proof.
  intros Hat Hmode Hroom HP Hrange. unfold image_load.
  replace (BOOTLOADER_BUILD C && bool_decide (mode = ESP_IMAGE_LOAD ∨ mode = ESP_IMAGE_LOAD_NO_VALIDATE)) with (loads mode)
    by (unfold loads; by destruct (BOOTLOADER_BUILD C), mode).
  replace (if BOOTLOADER_BUILD C then _ else true) with true by (by destruct (BOOTLOADER_BUILD C), mode).
  cbv zeta. cbn [negb pos_offset pos_size]. wp_step. wp_step. wp_step. wp_step.
  assert (at_ false None bs d ESP_ROM_CHECKSUM_INITIAL m o off (set_checksum ESP_ROM_CHECKSUM_INITIAL s)) as Hat0 by (destruct Hat; by split).
  rewrite (is_bootloader_at _ _ _ _ _ _ _ _ a _ Hat0), andb_true_r.
  set (Q := λ (r : esp_err_t) (s' : img F H), _).
  assert (∀ h bs1 d1 ck1 m1 o1 e s1, at_ false h bs1 d1 ck1 m1 o1 off s1 → e ≠ ESP_OK → (loads mode = false → m1 = m) →
    (up → a mod 4 = 0 → accepted off a size → a + full_len a ≤ K → 2 ≤ P → False) → wp (load_failed e h) s1 Q) as Hfail.
  { intros h bs1 d1 ck1 m1 o1 e s1 Hat1 He Hm1 Hno. eapply wp_mono; [by eapply load_failed_rule|].
    intros r s2 (-> & Hf & Hi & Hd & Hm & Hoff). unfold Q. split_and!; try done; [by intros ?; rewrite Hm; auto|].
    intros. destruct Hno; done. }
  destruct (Z.ltb_spec (ESP_IMAGE_MAX_FLASH_ADDR_SIZE C) size) as [Hbig|Hmax].
  { eapply Hfail; [exact Hat0|done|done|]. intros _ _ [] _ _. lia. }
  destruct Hroom as [Ha Hlt]. wp_step. eapply wp_mono; [by eapply (image_header_rule a (negb (boot_at off a))); [exact Hat0|done|lia]|].
  intros [e h] s1 (d1 & Hat1 & Hok1 & Hup1). cbn [fst snd] in *. unfold ok_then. case_decide as He.
  2: { eapply Hfail; [exact Hat1|done|done|]. intros Hu Ha4 [] HK HP2. apply He, Hup1; try done.
    pose proof (len_order a). lia. }
  destruct (Hok1 He) as (Hhdr & -> & Hsome). pose proof (ih_count _ _ _ Hhdr) as Hcnt. change ESP_IMAGE_MAX_SEGMENTS with 16 in Hcnt.
  pose proof (len_order a) as Hord. wp_step.
  eapply wp_mono; [eapply (process_segments_rule a (loads mode)); [exact Hat1|done|done|done|by apply Hrange]|].
  intros e2 s2 (bs2 & d2 & ck2 & m2 & o2 & Hat2 & Hk2 & Hnl2 & Hok2 & Hup2).
  assert (loads mode = false → m2 = m) as Hm2 by (intros Hl; apply Hnl2; rewrite Hl; apply andb_false_r). cbv beta iota.
  case_decide as He2.
  2: { eapply Hfail; [exact Hat2|done|done|]. intros Hu Ha4 [] HK HP2. apply He2, Hup2; (done || lia). }
  destruct (Hok2 He2) as (Hsegs & Hbl & Hb4 & -> & -> & -> & Hram & Hnz). rewrite no_dbgr. cbn [negb orb]. wp_step. wp_step. wp_step.
  rewrite (at_ck _ _ _ _ _ _ _ _ _ Hat2). fold (image_sum a) in Hat2 |- *. destruct (segs_data_fields a) as [Hsa Hsi].
  pose proof (sum_len_range a Hbl) as Hsr.
  eapply wp_mono; [apply (checksum_rule a (body_len a) h (image_sum a) _ _ _ _ _ Hat2); (done || lia)|].
  intros e3 s3 (d3 & bs3 & Hat3 & Hok3 & Hup3). fold (sum_len a) in Hok3, Hup3.
  replace (a + body_len a + (16 - body_len a mod 16)) with (a + sum_len a) in Hok3, Hup3 by (unfold sum_len; lia). cbv beta iota.
  case_decide as He3.
  2: { eapply Hfail; [exact Hat3|done|done|]. intros Hu Ha4 [] HK HP2. apply He3, Hup3; (done || lia). }
  destruct (Hok3 He3) as (Hsum & -> & ->). wp_step.
  eapply wp_mono; [apply (hash_rule a (sum_len a) size _ _ _ _ _ _ _ _ Hat3); (done || lia)|].
  intros e4 s4 (d4 & Hat4 & Hok4 & Hup4). fold (full_len a) in Hok4, Hup4. cbv beta iota. pose proof (sum_len_mod a) as Hs16.
  case_decide as He4.
  2: { eapply Hfail; [exact Hat4|done|done|]. intros Hu Ha4 [] HK HP2. apply He4, Hup4; try done. Z.to_euclidean_division_equations; lia. }
  destruct (Hok4 He4) as (Hsize & ->).
  assert (set_len (full_len a) (if hash_on a then set_digest (ldbytes c (a + sum_len a) HASH_LEN) (set_len (sum_len a) (set_len (body_len a) (segs_data a)))
    else set_len (sum_len a) (set_len (body_len a) (segs_data a))) = image_data a) as Hd by (unfold image_data; by destruct (hash_on a)).
  rewrite Hd in Hat4.
  eapply wp_mono; [apply (load_end_rule a (loads mode) h _ _ _ _ _ Hat4); (done || lia)|].
  intros r s5 (Hf & Hi & Hoff & Hnl5 & Hok5 & Hbad & Hup5). unfold Q. split_and!; try done.
  - intros Hl. rewrite Hnl5; [auto|]. rewrite Hl. apply andb_false_r.
  - intros Hr. destruct (Hok5 Hr) as (Hd5 & Hhash & Hram5). split_and!; [by split|done|]. intros Hl Hone. exists o2.
    assert (BOOTLOADER_BUILD C = true) as HB by (unfold loads in Hl; by destruct (BOOTLOADER_BUILD C)). split; [by apply Hnz|].
    unfold ram_loaded. rewrite Hram5, (Hram Hone), Hl; [done|]. unfold loads in *. by destruct (BOOTLOADER_BUILD C).
  - intros Hu _ [] _ _. by apply Hup5.
Qed.
End rules.
