(* ===== verification/ImageFormat.v ===== *)
(** * Application images: the format

    An image as a file: the header, the segments, the padding with the checksum, the digest;
    and what the code reads from a flash that holds such a file. *)
From Stdlib Require Import ZArith Lia.
From stdpp Require Import base numbers option list.
From S2P Require Import Prelude Flash ImageFlash ImageSha ImageShaSpec Image ImageSpec.

Open Scope Z_scope.

(** ** The file *)

(** A segment is the address it is for and its data. *)
Definition seg_bytes (x : Z * list Z) : list Z := le_bytes 4 x.1 ++ le_bytes 4 (zlen x.2) ++ x.2.

Definition image_body (hdr : list Z) (segs : list (Z * list Z)) : list Z := hdr ++ concat (seg_bytes <$> segs).

(** The checksum is over the bytes of the data. *)
Definition image_checksum (segs : list (Z * list Z)) : Z := fold_left Z.lxor (concat (snd <$> segs)) ESP_ROM_CHECKSUM_INITIAL.

Definition image_summed (hdr : list Z) (segs : list (Z * list Z)) (pad : list Z) : list Z :=
  image_body hdr segs ++ pad ++ [image_checksum segs].

Definition image_file `{Sha256} (hdr : list Z) (segs : list (Z * list Z)) (pad : list Z) : list Z :=
  let b := image_summed hdr segs pad in
  b ++ (if hash_appended hdr =? 0 then [] else sha256 b).

Definition seg_header (x : Z * list Z) : esp_image_segment_header_t := mkSegment x.1 (zlen x.2).

Record seg_wf (x : Z * list Z) : Prop := mkSegWf {
  sw_addr : 0 ≤ x.1 < 2 ^ 32;
  sw_len : zlen x.2 < 2 ^ 32;
  sw_bytes : Forall is_byte x.2 }.

(** ** Little-endian words *)

Lemma le_word_bytes w : 0 ≤ w < 2 ^ 32 → le_word (le_bytes 4 w) = w.
Proof.
  intros Hw. unfold le_word, le_bytes. cbn [fmap list_fmap seq fold_right].
  change (8 * Z.of_nat 0) with 0. change (8 * Z.of_nat 1) with 8. change (8 * Z.of_nat 2) with 16. change (8 * Z.of_nat 3) with 24.
  change (2 ^ 0) with 1. change (2 ^ 8) with 256. change (2 ^ 16) with 65536. change (2 ^ 24) with 16777216.
  change (2 ^ 32) with 4294967296 in Hw. Z.to_euclidean_division_equations; lia.
Qed.

Lemma le_bytes_word b : length b = 4%nat → Forall is_byte b → le_bytes 4 (le_word b) = b.
Proof.
  intros Hl Hb. destruct b as [|b0 [|b1 [|b2 [|b3 [|]]]]]; try discriminate.
  repeat match goal with H : Forall _ (_ :: _) |- _ => apply Forall_cons in H as [? H] end.
  unfold is_byte in *. unfold le_word, le_bytes. cbn [fmap list_fmap seq fold_right].
  change (8 * Z.of_nat 0) with 0. change (8 * Z.of_nat 1) with 8. change (8 * Z.of_nat 2) with 16. change (8 * Z.of_nat 3) with 24.
  change (2 ^ 0) with 1. change (2 ^ 8) with 256 in *. change (2 ^ 16) with 65536. change (2 ^ 24) with 16777216.
  do 4 (apply (f_equal2 cons); [Z.to_euclidean_division_equations; lia|]). done.
Qed.

Lemma length_le_bytes n w : length (le_bytes n w) = n.
Proof. unfold le_bytes. by rewrite length_fmap, length_seq. Qed.

Lemma le_bytes_byte n w : Forall is_byte (le_bytes n w).
Proof. apply Forall_fmap, Forall_true. intros k. apply Z.mod_pos_bound. lia. Qed.

Lemma zlen_seg_bytes x : zlen (seg_bytes x) = 8 + zlen x.2.
Proof. unfold seg_bytes. rewrite !zlen_app. unfold zlen. rewrite !length_le_bytes. lia. Qed.

Lemma segment_of_bytes x rest : seg_wf x → segment_of (take 8 (seg_bytes x ++ rest)) = seg_header x.
Proof.
  intros [Ha Hl Hb]. pose proof (zlen_nonneg x.2). unfold seg_bytes. rewrite <- !app_assoc.
  rewrite (app_assoc (le_bytes 4 x.1)), take_app_length' by (rewrite length_app, !length_le_bytes; done).
  unfold segment_of, seg_header. rewrite take_app_length' by (by rewrite length_le_bytes).
  rewrite drop_app_length' by (by rewrite length_le_bytes). rewrite take_ge by (by rewrite length_le_bytes).
  by rewrite !le_word_bytes by lia.
Qed.

(** ** Reading *)

Section reading.
Context (c : mem) (c_byte : ∀ x, is_byte (c x)).

(** The segments in flash whose headers are [xs]. *)
Fixpoint segs_in (a : Z) (xs : list esp_image_segment_header_t) : list (Z * list Z) :=
  match xs with
  | [] => []
  | x :: l => (load_addr x, ldbytes c (a + 8) (data_len x)) :: segs_in (a + 8 + data_len x) l
  end.

Lemma ldbytes_split a n k bs bs' : 0 ≤ n → 0 ≤ k → zlen bs = n → zlen bs' = k →
  ldbytes c a (n + k) = bs ++ bs' → ldbytes c a n = bs ∧ ldbytes c (a + n) k = bs'.
Proof.
  intros Hn Hk Hb Hb' He. rewrite ldbytes_app in He by done. apply app_inj_1 in He; [done|].
  rewrite length_ldbytes. unfold zlen in Hb. lia.
Qed.

(** What was written is what is parsed. *)
Lemma parse_segs segs a : Forall seg_wf segs → ldbytes c a (zlen (concat (seg_bytes <$> segs))) = concat (seg_bytes <$> segs) →
  parse c a (length segs) = seg_header <$> segs ∧ segs_in a (seg_header <$> segs) = segs ∧
  seg_end a (seg_header <$> segs) = a + zlen (concat (seg_bytes <$> segs)).
Proof.
  revert a. induction segs as [|x l IH]; intros a Hwf He; [split_and!; [done|done|]; change (zlen (concat (seg_bytes <$> []))) with 0; cbn; lia|].
  apply Forall_cons in Hwf as [Hx Hl]. cbn [fmap list_fmap concat] in *. rewrite zlen_app, zlen_seg_bytes in *. pose proof (zlen_nonneg x.2).
  pose proof (zlen_nonneg (concat (seg_bytes <$> l))).
  apply ldbytes_split in He as [E1 E2]; [|lia|done|apply zlen_seg_bytes|done].
  assert (segment_of (ldbytes c a 8) = seg_header x) as Hseg.
  { rewrite <- (segment_of_bytes x [] Hx), app_nil_r, <- E1. f_equal. rewrite ldbytes_app by lia.
    rewrite take_app_length'; [done|]. rewrite length_ldbytes. done. }
  assert (ldbytes c (a + 8) (zlen x.2) = x.2) as Hdata.
  { rewrite ldbytes_app in E1 by lia. apply (f_equal (drop 8)) in E1. rewrite drop_app_length' in E1 by (rewrite length_ldbytes; done).
    rewrite E1. unfold seg_bytes. rewrite app_assoc, drop_app_length'; [done|]. rewrite length_app, !length_le_bytes. done. }
  cbn [length parse]. rewrite Hseg. cbn [seg_header data_len segs_in load_addr seg_end].
  replace (a + 8 + zlen x.2) with (a + (8 + zlen x.2)) by lia.
  destruct (IH _ Hl E2) as (-> & -> & ->). split_and!; [done| |lia]. rewrite Hdata. by destruct x.
Qed.

(** What is parsed is what is there. *)
Lemma segs_parse n a :
  let xs := parse c a n in
  concat (seg_bytes <$> segs_in a xs) = ldbytes c a (seg_end a xs - a) ∧ Forall seg_wf (segs_in a xs) ∧ seg_header <$> segs_in a xs = xs.
Proof.
  revert a. induction n as [|n IH]; intros a; cbn [parse segs_in seg_end fmap list_fmap concat].
  - split_and!; [by rewrite Z.sub_diag, ldbytes_0|constructor|done].
  - set (x := segment_of (ldbytes c a 8)). destruct (segment_of_range c c_byte a) as [Hlr Hdr]. fold x in Hlr, Hdr.
    destruct (IH (a + 8 + data_len x)) as (H1 & H2 & H3).
    pose proof (seg_end_ge (a + 8 + data_len x) _ (parse_len c c_byte (a + 8 + data_len x) n)) as Hge.
    assert (zlen (ldbytes c (a + 8) (data_len x)) = data_len x) as Hlen by (apply zlen_ldbytes; lia).
    split_and!.
    + rewrite H1. set (e := seg_end _ _) in *. replace (e - a) with (8 + (data_len x + (e - (a + 8 + data_len x)))) by lia.
      rewrite ldbytes_app by lia. rewrite (ldbytes_app c (a + 8)) by lia. rewrite !app_assoc. f_equal.
      unfold seg_bytes. cbn [fst snd]. rewrite Hlen.
      assert (length (ldbytes c a 8) = 8%nat) as H8 by (rewrite length_ldbytes; done).
      pose proof (ldbytes_byte c c_byte a 8) as Hb.
      assert (ldbytes c a 8 = take 4 (ldbytes c a 8) ++ take 4 (drop 4 (ldbytes c a 8))) as Hsplit.
      { done. }
      rewrite app_assoc. f_equal. rewrite Hsplit. unfold x, segment_of. cbn [load_addr data_len]. f_equal; apply le_bytes_word.
      * rewrite length_take. lia.
      * by apply Forall_take.
      * rewrite length_take, length_drop. lia.
      * by apply Forall_take, Forall_drop.
    + constructor; [|done]. split; cbn [fst snd]; [done|lia|apply ldbytes_byte, c_byte].
    + rewrite H3. f_equal. unfold seg_header. cbn [fst snd]. rewrite Hlen. by destruct x.
Qed.
End reading.

(** ** The checksum: by words and by bytes *)

Lemma u8_land z : u8 z = Z.land z (Z.ones 8).
Proof. unfold u8. by rewrite Z.land_ones by lia. Qed.

Lemma sum_byte_lxor v w : sum_byte (Z.lxor v w) = Z.lxor (sum_byte v) (sum_byte w).
Proof.
  unfold sum_byte. rewrite !Z.shiftr_lxor, !u8_land. apply Z.bits_inj'. intros n Hn.
  repeat rewrite ?Z.land_spec, ?Z.lxor_spec.
  destruct (Z.testbit (Z.ones 8) n); [rewrite !andb_true_r|rewrite !andb_false_r; done].
  repeat match goal with |- context [Z.testbit ?x n] => destruct (Z.testbit x n) end; done.
Qed.

Lemma byte_land z : is_byte z → u8 z = z.
Proof. intros Hz. by apply Z.mod_small. Qed.

Lemma u8_lxor v w : u8 (Z.lxor v w) = Z.lxor (u8 v) (u8 w).
Proof.
  rewrite !u8_land. apply Z.bits_inj'. intros n Hn. repeat rewrite ?Z.land_spec, ?Z.lxor_spec.
  destruct (Z.testbit (Z.ones 8) n); [by rewrite !andb_true_r|by rewrite !andb_false_r].
Qed.

Lemma sum_byte_word c a : (∀ x, is_byte (c x)) → sum_byte (ld32 c a) = fold_left Z.lxor (ldbytes c a 4) 0.
Proof.
  intros Hc. pose proof (Hc a) as B0. pose proof (Hc (a + 1)) as B1. pose proof (Hc (a + 2)) as B2. pose proof (Hc (a + 3)) as B3.
  assert (ldbytes c a 4 = [c a; c (a + 1); c (a + 2); c (a + 3)]) as ->.
  { unfold ldbytes. change (Z.to_nat 4) with 4%nat. cbn [seq fmap list_fmap]. by rewrite Z.add_0_r. }
  cbn [fold_left]. rewrite Z.lxor_0_l. unfold sum_byte. rewrite !u8_lxor. unfold u8, ld32, is_byte in *.
  rewrite !Z.shiftr_div_pow2 by lia. change (2 ^ 24) with 16777216. change (2 ^ 16) with 65536. change (2 ^ 8) with 256 in *. change (2 ^ 0) with 1.
  generalize dependent (c a). generalize dependent (c (a + 1)). generalize dependent (c (a + 2)). generalize dependent (c (a + 3)).
  intros b3 B3 b2 B2 b1 B1 b0 B0. set (w := b0 + 256 * b1 + 65536 * b2 + 16777216 * b3).
  assert (w / 16777216 mod 256 = b3) as -> by (unfold w; Z.to_euclidean_division_equations; lia).
  assert (w / 65536 mod 256 = b2) as -> by (unfold w; Z.to_euclidean_division_equations; lia).
  assert (w / 256 mod 256 = b1) as -> by (unfold w; Z.to_euclidean_division_equations; lia).
  assert (w / 1 mod 256 = b0) as -> by (unfold w; Z.to_euclidean_division_equations; lia).
  apply Z.bits_inj'. intros n Hn. rewrite !Z.lxor_spec.
  destruct (Z.testbit b0 n), (Z.testbit b1 n), (Z.testbit b2 n), (Z.testbit b3 n); done.
Qed.

Lemma fold_lxor_acc l a : fold_left Z.lxor l a = Z.lxor a (fold_left Z.lxor l 0).
Proof.
  revert a. induction l as [|x l IH]; intros a; cbn [fold_left]; [by rewrite Z.lxor_0_r|].
  rewrite IH, (IH (Z.lxor 0 x)), Z.lxor_0_l. by rewrite Z.lxor_assoc.
Qed.

Lemma sum_byte_words c a n w : (∀ x, is_byte (c x)) →
  sum_byte (fold_left Z.lxor (words_of c a n) w) = fold_left Z.lxor (ldbytes c a (4 * Z.of_nat n)) (sum_byte w).
Proof.
  intros Hc. revert a w. induction n as [|n IH]; intros a w.
  - change (4 * Z.of_nat 0) with 0. by rewrite ldbytes_0.
  - rewrite words_of_S. cbn [fold_left]. rewrite IH, sum_byte_lxor, (sum_byte_word c a Hc).
    replace (4 * Z.of_nat (S n)) with (4 + 4 * Z.of_nat n) by lia. rewrite ldbytes_app, fold_left_app by lia.
    by rewrite (fold_lxor_acc (ldbytes c a 4) (sum_byte w)).
Qed.

Section format.
Context `{Sha256} (C : img_cfg) (c : mem) (c_byte : ∀ x, is_byte (c x)).

Lemma seg_words_sum a xs w : headers_ok C a xs → Forall (λ x, 0 ≤ data_len x) xs →
  sum_byte (fold_left Z.lxor (seg_words c a xs) w) = fold_left Z.lxor (concat (snd <$> segs_in c a xs)) (sum_byte w).
Proof.
  revert a w. induction xs as [|x l IH]; intros a w Hok Hx; [done|].
  apply Forall_cons in Hx as [Hx Hl]. destruct Hok as [[H4 _ _] Hok]. cbn [seg_words segs_in fmap list_fmap concat].
  rewrite !fold_left_app, IH by done. f_equal. cbn [snd].
  rewrite sum_byte_words by done. do 2 f_equal. Z.to_euclidean_division_equations; lia.
Qed.

Lemma sha256_length msg : zlen (sha256 msg) = 32.
Proof.
  assert (∀ l, (length l = 8)%nat → zlen (concat (be_bytes 4 <$> l)) = 32) as Hc.
  { intros l Hl. assert (zlen (concat (be_bytes 4 <$> l)) = 4 * zlen l) as ->; [|unfold zlen; lia].
    clear Hl. induction l as [|x l IH]; [done|]. cbn [fmap list_fmap concat]. rewrite zlen_app, zlen_cons, IH.
    change (zlen (be_bytes 4 x)) with 4. lia. }
  apply Hc. rewrite length_take, fold_compress_length; [done|].
  unfold sha_blocks, sha_pad. intros Hnil. apply (f_equal (@concat Z)) in Hnil. rewrite chunks_concat in Hnil by lia.
  apply (f_equal length) in Hnil. rewrite length_fmap in Hnil.
  set (l := msg ++ _) in Hnil. assert (l ≠ []) as Hl by (unfold l; by destruct msg).
  rewrite chunks_step in Hnil by (done || lia). done.
Qed.

(** An image in the format, for the address [a]. *)
Record wf_image (off a : Z) (hdr : list Z) (segs : list (Z * list Z)) (pad : list Z) : Prop := mkWf {
  wi_length : zlen hdr = 24;
  wi_header : image_header_ok C off a hdr;
  wi_count : segment_count hdr = zlen segs;
  wi_segs : Forall seg_wf segs;
  wi_headers : headers_ok C (a + 24) (seg_header <$> segs);
  wi_pad : zlen pad = 15 - zlen (image_body hdr segs) mod 16 }.

Lemma zlen_summed hdr segs pad : zlen pad = 15 - zlen (image_body hdr segs) mod 16 →
  zlen (image_summed hdr segs pad) = zlen (image_body hdr segs) + (16 - zlen (image_body hdr segs) mod 16).
Proof. intros Hp. unfold image_summed. rewrite !zlen_app, Hp. change (zlen [image_checksum segs]) with 1. lia. Qed.

(** What the code finds in a flash that holds a file. *)
Lemma file_found off a hdr segs pad :
  let b := image_summed hdr segs pad in
  wf_image off a hdr segs pad → ldbytes c a (zlen b) = b →
  ldbytes c a 24 = hdr ∧ segs_at c a = seg_header <$> segs ∧ segs_in c (a + 24) (segs_at c a) = segs ∧
  body_len c a = zlen (image_body hdr segs) ∧ sum_len c a = zlen b ∧ c (a + zlen b - 1) = image_checksum segs.
Proof.
  intros b [Hl Hh Hn Hs Hok Hp] He. pose proof (zlen_summed hdr segs pad Hp) as Hlb. fold b in Hlb.
  unfold b, image_summed in He. rewrite !zlen_app in He. change (zlen [image_checksum segs]) with 1 in He.
  pose proof (zlen_nonneg (image_body hdr segs)) as Hb0. pose proof (zlen_nonneg pad) as Hp0.
  apply ldbytes_split in He as [Ebody Esum]; [|lia|lia|done|by rewrite zlen_app].
  apply ldbytes_split in Esum as [_ Eck]; [|lia|lia|done|done].
  unfold image_body in Ebody. rewrite zlen_app, Hl in Ebody. pose proof (zlen_nonneg (concat (seg_bytes <$> segs))) as Hc0.
  apply ldbytes_split in Ebody as [Ehdr Esegs]; [|lia|lia|done|done].
  destruct (parse_segs c segs (a + 24) Hs Esegs) as (Eparse & Ein & Eend).
  assert (segs_at c a = seg_header <$> segs) as Hat.
  { unfold segs_at. rewrite Ehdr, Hn. unfold zlen. by rewrite Nat2Z.id. }
  assert (body_len c a = zlen (image_body hdr segs)) as Hbl.
  { unfold body_len. rewrite Hat, Eend. unfold image_body. rewrite zlen_app, Hl. lia. }
  split_and!; [done|done|by rewrite Hat|done|unfold sum_len; rewrite Hbl; lia|].
  assert (ldbytes c (a + zlen (image_body hdr segs) + zlen pad) 1 = [c (a + zlen b - 1)]) as E1.
  { unfold ldbytes. change (Z.to_nat 1) with 1%nat. cbn [seq fmap list_fmap]. do 2 f_equal. lia. }
  rewrite E1 in Eck. by injection Eck.
Qed.

Lemma sum_byte_initial : sum_byte ESP_ROM_CHECKSUM_INITIAL = ESP_ROM_CHECKSUM_INITIAL.
Proof. done. Qed.

Lemma seg_headers_len segs : Forall (λ x, 0 ≤ data_len x) (seg_header <$> segs).
Proof. apply Forall_fmap, Forall_true. intros x. apply zlen_nonneg. Qed.

Lemma hash_on_of a hdr : ldbytes c a 24 = hdr → hash_on c a = negb (hash_appended hdr =? 0).
Proof. intros <-. done. Qed.

(** A file in flash is accepted. *)
Lemma file_accepted off a size hdr segs pad :
  let file := image_file hdr segs pad in
  wf_image off a hdr segs pad → ldbytes c a (zlen file) = file → zlen file ≤ size → size ≤ ESP_IMAGE_MAX_FLASH_ADDR_SIZE C →
  accepted C c off a size ∧ full_len c a = zlen file.
Proof.
  intros file Hwf He Hsz Hmax. unfold file, image_file in *. set (b := image_summed hdr segs pad) in *.
  set (dg := if hash_appended hdr =? 0 then [] else sha256 b) in *. rewrite zlen_app in *.
  pose proof (zlen_nonneg b). pose proof (zlen_nonneg dg).
  apply ldbytes_split in He as [Eb Edg]; [|done|done|done|done].
  destruct (file_found off a hdr segs pad Hwf Eb) as (Ehdr & Eat & Ein & Ebl & Esl & Eck). fold b in Esl, Eck.
  assert (full_len c a = zlen b + zlen dg) as Hfl.
  { unfold full_len. rewrite Esl, (hash_on_of a hdr Ehdr). unfold dg. destruct (hash_appended hdr =? 0); cbn; [done|]. by rewrite sha256_length. }
  split; [|done]. pose proof Hwf as [Hl Hh Hn Hs Hok Hp]. split.
  - by rewrite Ehdr.
  - by rewrite Eat.
  - rewrite Esl, Eck. unfold image_sum. rewrite seg_words_sum by (rewrite Eat; apply Hok || apply seg_headers_len).
    by rewrite Ein.
  - lia.
  - done.
  - rewrite (hash_on_of a hdr Ehdr), Esl. intros Hon _. apply negb_true_iff in Hon. unfold dg in Edg. rewrite Hon, sha256_length in Edg.
    unfold HASH_LEN. by rewrite Edg, Eb.
Qed.

(** What is accepted is a file. *)
Lemma accepted_file off a size : accepted C c off a size →
  let segs := segs_in c (a + 24) (segs_at c a) in
  let pad := ldbytes c (a + body_len c a) (15 - body_len c a mod 16) in
  wf_image off a (ldbytes c a 24) segs pad ∧
  ldbytes c a (sum_len c a) = image_summed (ldbytes c a 24) segs pad ∧
  (boot_at C off a = false → ldbytes c a (full_len c a) = image_file (ldbytes c a 24) segs pad).
Proof.
  intros [Hh Hok Hsum Hsz Hmax Hhash] segs pad. destruct (segs_parse c c_byte (Z.to_nat (segment_count (ldbytes c a 24))) (a + 24)) as (Ecat & Hwf & Ehdrs).
  fold (segs_at c a) in Ecat, Hwf, Ehdrs. fold segs in Ecat, Hwf, Ehdrs.
  pose proof (len_order c c_byte a) as Hord. assert (zlen (ldbytes c a 24) = 24) as H24 by (by apply zlen_ldbytes).
  assert (image_body (ldbytes c a 24) segs = ldbytes c a (body_len c a)) as Hbody.
  { unfold image_body. rewrite Ecat, <- ldbytes_app by (unfold body_len in Hord; lia). f_equal. unfold body_len. lia. }
  assert (zlen (image_body (ldbytes c a 24) segs) = body_len c a) as Hbl by (rewrite Hbody; apply zlen_ldbytes; lia).
  assert (0 ≤ body_len c a mod 16 < 16) as Hm16 by (apply Z.mod_pos_bound; lia).
  assert (wf_image off a (ldbytes c a 24) segs pad) as Hwi.
  { split; [done|done| |done|by rewrite Ehdrs|].
    - pose proof (segment_count_range c c_byte a). apply (f_equal length) in Ehdrs. rewrite length_fmap in Ehdrs.
      unfold zlen. rewrite Ehdrs. unfold segs_at. rewrite length_parse. lia.
    - rewrite Hbl. apply zlen_ldbytes. lia. }
  assert (ldbytes c a (sum_len c a) = image_summed (ldbytes c a 24) segs pad) as Hsummed.
  { unfold image_summed. rewrite Hbody. unfold sum_len. replace (16 - body_len c a mod 16) with ((15 - body_len c a mod 16) + 1) by lia.
    rewrite !ldbytes_app by lia. do 2 f_equal. unfold ldbytes at 1. change (Z.to_nat 1) with 1%nat. cbn [seq fmap list_fmap]. f_equal.
    transitivity (c (a + sum_len c a - 1)); [f_equal; unfold sum_len; lia|]. rewrite Hsum. unfold image_sum, image_checksum.
    rewrite seg_words_sum; [done|done|]. unfold segs_at. apply parse_len, c_byte. }
  split_and!; [done|done|]. intros Hboot. unfold image_file, full_len. rewrite <- Hsummed. fold (negb (negb (hash_appended (ldbytes c a 24) =? 0))).
  unfold hash_on in *. destruct (hash_appended (ldbytes c a 24) =? 0) eqn:E0; cbn [negb].
  - by rewrite Z.add_0_r, app_nil_r.
  - rewrite ldbytes_app by (unfold HASH_LEN; lia). f_equal. by apply Hhash.
Qed.
End format.
