(* ===== verification/ImageRam.v ===== *)
(** * Application images: segments in RAM

    The bootloader copies segments masked and removes the mask when the image is verified:
    then RAM has the data of the segments and is otherwise as before.  The addresses that
    the code accepts for a segment. *)
From Stdlib Require Import ZArith Lia.
From stdpp Require Import base numbers option list.
From S2P Require Import Prelude Flash ImageFlash ImageSha Image ImageSpec ImageFormat.

Open Scope Z_scope.

(** ** Words in memory *)

Lemma st32_at m a v t : 0 ≤ t < 4 → st32 m a v (a + t) = (v / 2 ^ (8 * t)) mod 2 ^ 8.
Proof.
  intros Ht. unfold st32. rewrite (proj2 (Z.leb_le _ _)), (proj2 (Z.ltb_lt _ _)) by lia. cbn [andb]. by replace (a + t - a) with t by lia.
Qed.

Lemma ld32_st32_mod m a v : ld32 (st32 m a v) a = u32 v.
Proof.
  assert (ld32 (st32 m a v) a = ld32 (st32 m a (u32 v)) a) as ->.
  { unfold ld32. pose proof (st32_at m a v 0) as E0. pose proof (st32_at m a (u32 v) 0) as F0. rewrite Z.add_0_r in E0, F0.
    rewrite E0, F0, !st32_at by lia. unfold u32. change (8 * 0) with 0. change (8 * 1) with 8. change (8 * 2) with 16. change (8 * 3) with 24.
    change (2 ^ 0) with 1. change (2 ^ 8) with 256. change (2 ^ 16) with 65536. change (2 ^ 24) with 16777216. change (2 ^ 32) with 4294967296.
    Z.to_euclidean_division_equations; lia. }
  apply ld32_st32_eq. apply u32_range.
Qed.

Lemma u32_land z : u32 z = Z.land z (Z.ones 32).
Proof. unfold u32. by rewrite Z.land_ones by lia. Qed.

(** A mask that is put on twice is gone. *)
Lemma mask_twice w k : 0 ≤ w < 2 ^ 32 → u32 (Z.lxor (u32 (Z.lxor w k)) k) = w.
Proof.
  intros Hw. rewrite <- (u32_small w Hw) at 2. rewrite !u32_land. apply Z.bits_inj'. intros n Hn.
  rewrite !Z.land_spec, !Z.lxor_spec, !Z.land_spec, !Z.lxor_spec. destruct (Z.testbit (Z.ones 32) n); [|by rewrite !andb_false_r].
  rewrite !andb_true_r. by destruct (Z.testbit w n), (Z.testbit k n).
Qed.

Lemma byte_of_u32 v t : 0 ≤ t < 4 → (v / 2 ^ (8 * t)) mod 2 ^ 8 = (u32 v / 2 ^ (8 * t)) mod 2 ^ 8.
Proof.
  intros Ht. unfold u32. assert (t = 0 ∨ t = 1 ∨ t = 2 ∨ t = 3) as [-> | [-> | [-> | ->]]] by lia;
    [change (2 ^ (8 * 0)) with 1|change (2 ^ (8 * 1)) with 256|change (2 ^ (8 * 2)) with 65536|change (2 ^ (8 * 3)) with 16777216];
    change (2 ^ 8) with 256; change (2 ^ 32) with 4294967296; Z.to_euclidean_division_equations; lia.
Qed.

Lemma ld32_byte c a t : (∀ x, is_byte (c x)) → 0 ≤ t < 4 → (ld32 c a / 2 ^ (8 * t)) mod 2 ^ 8 = c (a + t).
Proof.
  intros Hc Ht. pose proof (Hc a) as B0. pose proof (Hc (a + 1)) as B1. pose proof (Hc (a + 2)) as B2. pose proof (Hc (a + 3)) as B3.
  unfold ld32, is_byte in *. assert (t = 0 ∨ t = 1 ∨ t = 2 ∨ t = 3) as [-> | [-> | [-> | ->]]] by lia;
    [change (2 ^ (8 * 0)) with 1; rewrite Z.add_0_r|change (2 ^ (8 * 1)) with 256|change (2 ^ (8 * 2)) with 65536|change (2 ^ (8 * 3)) with 16777216];
    change (2 ^ 8) with 256 in *; change (2 ^ 16) with 65536 in *; change (2 ^ 24) with 16777216 in *; Z.to_euclidean_division_equations; lia.
Qed.

Lemma ld32_range c a : (∀ x, is_byte (c x)) → 0 ≤ ld32 c a < 2 ^ 32.
Proof.
  intros Hc. pose proof (Hc a). pose proof (Hc (a + 1)). pose proof (Hc (a + 2)). pose proof (Hc (a + 3)).
  unfold ld32, is_byte in *. change (2 ^ 32) with 4294967296. lia.
Qed.

(** ** A segment *)

Lemma masked_copy_out o dest j ws m x : 0 ≤ dest + 4 * j → dest + 4 * (j + zlen ws) ≤ 2 ^ 32 →
  x < dest + 4 * j ∨ dest + 4 * (j + zlen ws) ≤ x → masked_copy o dest j ws m x = m x.
Proof.
  revert j m. induction ws as [|w l IH]; intros j m H0 Hlt Hx; [done|]. rewrite zlen_cons in *. pose proof (zlen_nonneg l).
  cbn [masked_copy]. rewrite IH by lia. rewrite u32_small by lia. apply st32_other. lia.
Qed.

Lemma masked_copy_in o dest j ws m k : 0 ≤ dest + 4 * j → dest + 4 * (j + zlen ws) ≤ 2 ^ 32 → (k < length ws)%nat →
  ld32 (masked_copy o dest j ws m) (dest + 4 * (j + Z.of_nat k)) = u32 (Z.lxor (ws !!! k) (mask_of o (j + Z.of_nat k))).
Proof.
  revert j m k. induction ws as [|w l IH]; intros j m k H0 Hlt Hk; [cbn in Hk; lia|]. rewrite zlen_cons in *. pose proof (zlen_nonneg l).
  cbn [masked_copy]. destruct k as [|k].
  - rewrite Z.add_0_r. cbn. rewrite (ld32_ext _ (st32 m (u32 (dest + 4 * j)) (Z.lxor w (mask_of o j)))).
    + rewrite u32_small by lia. apply ld32_st32_mod.
    + intros x Hx. apply masked_copy_out; lia.
  - cbn in Hk. replace (j + Z.of_nat (S k)) with (j + 1 + Z.of_nat k) by lia. apply IH; lia.
Qed.

Lemma unmask_out o addr j n m x : 0 ≤ addr + 4 * j → addr + 4 * (j + Z.of_nat n) ≤ 2 ^ 32 →
  x < addr + 4 * j ∨ addr + 4 * (j + Z.of_nat n) ≤ x → unmask_words o addr j n m x = m x.
Proof.
  revert j m. induction n as [|n IH]; intros j m H0 Hlt Hx; [done|]. cbn [unmask_words].
  rewrite IH by lia. rewrite u32_small by lia. apply st32_other. lia.
Qed.

Lemma unmask_in o addr j n m k t : 0 ≤ addr + 4 * j → addr + 4 * (j + Z.of_nat n) ≤ 2 ^ 32 → (k < n)%nat → 0 ≤ t < 4 →
  let a := addr + 4 * (j + Z.of_nat k) in
  unmask_words o addr j n m (a + t) = (Z.lxor (ld32 m a) (mask_of o (j + Z.of_nat k)) / 2 ^ (8 * t)) mod 2 ^ 8.
Proof.
  revert j m k. induction n as [|n IH]; intros j m k H0 Hlt Hk Ht a; [lia|]. cbn [unmask_words]. destruct k as [|k].
  - unfold a. rewrite Z.add_0_r in *. rewrite unmask_out by lia. rewrite u32_small by lia. by apply st32_at.
  - unfold a. replace (j + Z.of_nat (S k)) with (j + 1 + Z.of_nat k) by lia. rewrite IH by lia. do 3 f_equal.
    apply ld32_ext. intros x Hx. rewrite u32_small by lia. apply st32_other. lia.
Qed.

(** ** All segments: pairs of an address and words *)

Definition range_of (p : Z * list Z) : Z * Z := (p.1, p.1 + 4 * zlen p.2).
Definition apart (p q : Z * list Z) : Prop := (range_of p).2 ≤ (range_of q).1 ∨ (range_of q).2 ≤ (range_of p).1.
Definition in_memory (p : Z * list Z) : Prop := 0 ≤ p.1 ∧ p.1 + 4 * zlen p.2 ≤ 2 ^ 32.
Definition outside (x : Z) (p : Z * list Z) : Prop := x < (range_of p).1 ∨ (range_of p).2 ≤ x.

Fixpoint all_apart (ps : list (Z * list Z)) : Prop :=
  match ps with [] => True | p :: l => Forall (apart p) l ∧ all_apart l end.

Definition mask_all (o : Z * Z) (m : mem) (ps : list (Z * list Z)) : mem := foldl (λ m p, masked_copy o p.1 0 p.2 m) m ps.
Definition unmask_all (o : Z * Z) (m : mem) (ps : list (Z * list Z)) : mem := foldl (λ m p, unmask_words o p.1 0 (length p.2) m) m ps.

Lemma mask_all_out o ps m x : Forall in_memory ps → Forall (outside x) ps → mask_all o m ps x = m x.
Proof.
  revert m. induction ps as [|p l IH]; intros m Hin Hout; [done|]. apply Forall_cons in Hin as [[Hp1 Hp2] Hin]. apply Forall_cons in Hout as [Hp Hout].
  unfold mask_all in *. cbn [foldl]. rewrite IH by done. unfold outside, range_of in Hp. cbn in Hp. apply masked_copy_out; lia.
Qed.

Lemma unmask_all_out o ps m x : Forall in_memory ps → Forall (outside x) ps → unmask_all o m ps x = m x.
Proof.
  revert m. induction ps as [|p l IH]; intros m Hin Hout; [done|]. apply Forall_cons in Hin as [[Hp1 Hp2] Hin]. apply Forall_cons in Hout as [Hp Hout].
  unfold unmask_all in *. cbn [foldl]. rewrite IH by done. unfold outside, range_of, zlen in *. cbn in Hp. apply unmask_out; lia.
Qed.

Lemma apart_outside p l x : Forall (apart p) l → (range_of p).1 ≤ x < (range_of p).2 → Forall (outside x) l.
Proof. intros Ha Hx. eapply Forall_impl; [exact Ha|]. intros q [Hq|Hq]; unfold outside; lia. Qed.

Lemma mask_all_in o ps m p k : Forall in_memory ps → all_apart ps → p ∈ ps → (k < length p.2)%nat →
  ld32 (mask_all o m ps) (p.1 + 4 * Z.of_nat k) = u32 (Z.lxor (p.2 !!! k) (mask_of o (Z.of_nat k))).
Proof.
  revert m. induction ps as [|q l IH]; intros m Hin Hap Hp Hk; [by apply not_elem_of_nil in Hp|].
  apply Forall_cons in Hin as [[Hq1 Hq2] Hin]. destruct Hap as [Hq Hap]. unfold mask_all in *. cbn [foldl].
  apply elem_of_cons in Hp as [->|Hp]; [|by apply IH].
  rewrite (ld32_ext _ (masked_copy o q.1 0 q.2 m)).
  - apply (masked_copy_in o q.1 0); [lia|unfold zlen in *; lia|done].
  - intros x Hx. apply mask_all_out; [done|]. eapply apart_outside; [exact Hq|]. unfold range_of, zlen. cbn. lia.
Qed.

Lemma apart_sym p q : apart p q → apart q p.
Proof. unfold apart. tauto. Qed.

(** The words that were masked are as they were given. *)
Lemma unmask_all_in o ps m p k t : Forall in_memory ps → all_apart ps → p ∈ ps → (k < length p.2)%nat → 0 ≤ t < 4 →
  let a := p.1 + 4 * Z.of_nat k in
  unmask_all o m ps (a + t) = (Z.lxor (ld32 m a) (mask_of o (Z.of_nat k)) / 2 ^ (8 * t)) mod 2 ^ 8.
Proof.
  revert m. induction ps as [|q l IH]; intros m Hin Hap Hp Hk Ht a; [by apply not_elem_of_nil in Hp|].
  apply Forall_cons in Hin as [[Hq1 Hq2] Hin]. destruct Hap as [Hq Hap]. unfold unmask_all in *. cbn [foldl].
  apply elem_of_cons in Hp as [->|Hp].
  - etrans; [apply (unmask_all_out o l); [done|]|].
    + eapply apart_outside; [exact Hq|]. unfold range_of, zlen, a. cbn. lia.
    + apply (unmask_in o q.1 0); unfold zlen in *; (done || lia).
  - rewrite IH by done. do 3 f_equal. apply ld32_ext. intros x Hx. rewrite Forall_forall in Hq, Hin. pose proof (Hq p Hp) as Hqp. destruct (Hin p Hp).
    unfold apart, range_of, zlen, a in *. cbn in *. apply unmask_out; lia.
Qed.

Lemma mask_unmask_in o ps m p k t : Forall in_memory ps → all_apart ps → p ∈ ps → (k < length p.2)%nat → 0 ≤ t < 4 → 0 ≤ p.2 !!! k < 2 ^ 32 →
  unmask_all o (mask_all o m ps) ps (p.1 + 4 * Z.of_nat k + t) = (p.2 !!! k / 2 ^ (8 * t)) mod 2 ^ 8.
Proof.
  intros Hin Hap Hp Hk Ht Hw. rewrite unmask_all_in, mask_all_in by done. rewrite byte_of_u32 by done. by rewrite mask_twice.
Qed.

(** ** The segments of an image *)

Section loading.
Context (C : img_cfg) (c : mem) (c_byte : ∀ x, is_byte (c x)) (boot : BOOTLOADER_BUILD C = true).

(** Where the segments with headers [xs] go, with their words. *)
Fixpoint load_list (a : Z) (xs : list esp_image_segment_header_t) : list (Z * list Z) :=
  match xs with
  | [] => []
  | x :: l =>
      let rest := load_list (a + 8 + data_len x) l in
      if should_load C (load_addr x) then (load_addr x, words_of c (a + 8) (Z.to_nat (data_len x / 4))) :: rest else rest
  end.

Lemma ram_all_list o a xs m : ram_all C c true o a xs m = mask_all o m (load_list a xs).
Proof.
  revert a m. induction xs as [|x l IH]; intros a m; [done|]. cbn [ram_all load_list]. rewrite IH. unfold load_ram, loaded.
  rewrite boot. cbn [andb]. by destruct (should_load C (load_addr x)).
Qed.

Lemma length_words_of a n : length (words_of c a n) = n.
Proof. unfold words_of. by rewrite length_fmap, length_seq. Qed.

Lemma unmask_list o a xs m : foldl (λ m x, unmask_segment C o x m) m xs = unmask_all o m (load_list a xs).
Proof.
  revert a m. induction xs as [|x l IH]; intros a m; [done|]. cbn [foldl load_list]. rewrite (IH (a + 8 + data_len x)). unfold unmask_segment.
  destruct (should_load C (load_addr x)); [|done]. unfold unmask_all. cbn [foldl fst snd]. by rewrite length_words_of.
Qed.

Lemma words_of_lookup a n k : (k < n)%nat → words_of c a n !!! k = ld32 c (a + 4 * Z.of_nat k).
Proof.
  intros Hk. apply list_lookup_total_correct. unfold words_of. rewrite list_lookup_fmap, lookup_seq_lt by done. done.
Qed.

(** The segments that are loaded, as they are in the file. *)
Definition to_load (segs : list (Z * list Z)) : list (Z * list Z) := filter (λ x, should_load C x.1 = true) segs.

Lemma load_list_data a xs p : headers_ok C a xs → Forall (λ x, 0 ≤ data_len x) xs → p ∈ to_load (segs_in c a xs) →
  ∃ q, q ∈ load_list a xs ∧ q.1 = p.1 ∧ 4 * zlen q.2 = zlen p.2 ∧
    ∀ k t, (k < length q.2)%nat → 0 ≤ t < 4 → 0 ≤ q.2 !!! k < 2 ^ 32 ∧ (q.2 !!! k / 2 ^ (8 * t)) mod 2 ^ 8 = p.2 !!! Z.to_nat (4 * Z.of_nat k + t).
Proof.
  revert a. induction xs as [|x l IH]; intros a Hok Hpos Hp; [by apply not_elem_of_nil in Hp|].
  destruct Hok as [[H4 _ _] Hok]. apply Forall_cons in Hpos as [Hx Hpos]. unfold to_load in *. cbn [segs_in load_list] in *. rewrite filter_cons in Hp. cbn [fst] in Hp.
  destruct (should_load C (load_addr x)) eqn:El; [rewrite decide_True in Hp by done|rewrite decide_False in Hp by done; by apply IH].
  apply elem_of_cons in Hp as [->|Hp].
  - exists (load_addr x, words_of c (a + 8) (Z.to_nat (data_len x / 4))). cbn [fst snd]. unfold zlen. rewrite length_words_of, length_ldbytes.
    split_and!; [by left|done|Z.to_euclidean_division_equations; lia|]. intros k t Hk Ht. rewrite words_of_lookup by done.
    split; [by apply ld32_range|]. rewrite ld32_byte by done. rewrite ldbytes_lookup by (Z.to_euclidean_division_equations; lia).
    f_equal. lia.
  - destruct (IH _ Hok Hpos Hp) as (q & Hq & ?). exists q. split; [by right|done].
Qed.

(** Addresses in the range of a segment of the file are in the range of its words. *)
Lemma load_list_ranges a xs : headers_ok C a xs → Forall (λ x, 0 ≤ data_len x) xs →
  range_of <$> load_list a xs = (λ p, (p.1, p.1 + zlen p.2)) <$> to_load (segs_in c a xs).
Proof.
  revert a. induction xs as [|x l IH]; intros a Hok Hpos; [done|]. destruct Hok as [[H4 _ _] Hok]. apply Forall_cons in Hpos as [Hx Hpos].
  unfold to_load in *. cbn [segs_in load_list]. rewrite filter_cons. cbn [fst].
  destruct (should_load C (load_addr x)) eqn:El; [rewrite decide_True by done|rewrite decide_False by done; by apply IH].
  cbn [fmap list_fmap]. f_equal; [|by apply IH]. unfold range_of. cbn [fst snd]. f_equal. rewrite zlen_ldbytes by done. unfold zlen. rewrite length_words_of.
  Z.to_euclidean_division_equations; lia.
Qed.

Definition file_apart (p q : Z * list Z) : Prop := p.1 + zlen p.2 ≤ q.1 ∨ q.1 + zlen q.2 ≤ p.1.

Fixpoint file_all_apart (ps : list (Z * list Z)) : Prop :=
  match ps with [] => True | p :: l => Forall (file_apart p) l ∧ file_all_apart l end.

(** The same statements on words and on bytes, by their ranges. *)
Lemma ranges_apart ps (qs : list (Z * list Z)) : range_of <$> ps = (λ p, (p.1, p.1 + zlen p.2)) <$> qs → file_all_apart qs → all_apart ps.
Proof.
  revert qs. induction ps as [|p l IH]; intros [|q qs] He Hap; try done. cbn [fmap list_fmap] in He. injection He as E1 E2 He.
  destruct Hap as [Hq Hap]. split; [|by eapply IH]. apply Forall_forall. intros p' Hp'.
  assert (range_of p' ∈ range_of <$> l) as Hin by (by apply list_elem_of_fmap_2). rewrite He in Hin.
  apply list_elem_of_fmap in Hin as (q' & Hr & Hq'). rewrite Forall_forall in Hq. specialize (Hq q' Hq'). unfold apart, file_apart in *.
  rewrite Hr. unfold range_of in *. cbn [fst snd] in *. lia.
Qed.

Lemma ranges_forall ps (qs : list (Z * list Z)) (R : Z → Z → Prop) : range_of <$> ps = (λ p, (p.1, p.1 + zlen p.2)) <$> qs →
  Forall (λ q, R q.1 (q.1 + zlen q.2)) qs → Forall (λ p, R (range_of p).1 (range_of p).2) ps.
Proof.
  revert qs. induction ps as [|p l IH]; intros [|q qs] He Hq; try done. cbn [fmap list_fmap] in He.
  injection He as E1 E2 He. apply Forall_cons in Hq as [Hq Hqs]. constructor; [|by eapply IH]. unfold range_of. cbn. by rewrite E2, E1.
Qed.

(** RAM after loading: the data of the segments, and what was there before. *)
Lemma ram_loaded_data o a m :
  let xs := segs_at c a in
  let loaded := to_load (segs_in c (a + 24) xs) in
  headers_ok C (a + 24) xs → (some_data xs → o.1 ≠ 0 ∧ o.2 ≠ 0) → file_all_apart loaded →
  Forall (λ p, 0 ≤ p.1 ∧ p.1 + zlen p.2 ≤ 2 ^ 32) loaded →
  Forall (λ p, ldbytes (ram_loaded C c o a m) p.1 (zlen p.2) = p.2) loaded ∧
  ∀ x, Forall (λ p, x < p.1 ∨ p.1 + zlen p.2 ≤ x) loaded → ram_loaded C c o a m x = m x.
Proof.
  intros xs ld Hok Hnz Hap Hin. assert (Forall (λ x, 0 ≤ data_len x) xs) as Hpos by apply parse_len, c_byte.
  pose proof (load_list_ranges (a + 24) xs Hok Hpos) as Hr. fold ld in Hr. set (ps := load_list (a + 24) xs) in *.
  pose proof (ranges_apart _ _ Hr Hap) as Hap'.
  assert (Forall in_memory ps) as Hin' by (exact (ranges_forall _ _ (λ a e, 0 ≤ a ∧ e ≤ 2 ^ 32) Hr Hin)).
  assert (ram_loaded C c o a m = unmask_all o (mask_all o m ps) ps ∨ ram_loaded C c o a m = mask_all o m ps ∧ ∀ p, p ∈ ld → p.2 = []) as Hcase.
  { unfold ram_loaded. fold xs. rewrite ram_all_list, (unmask_list o (a + 24)). fold ps.
    destruct (decide (some_data xs)) as [Hs|Hs].
    - destruct (Hnz Hs) as [H1 H2]. rewrite (proj2 (Z.eqb_neq _ _) H1), (proj2 (Z.eqb_neq _ _) H2). by left.
    - assert (∀ p, p ∈ ld → p.2 = []) as Hempty.
      { intros p Hp. apply list_elem_of_filter in Hp as [_ Hp]. revert Hs Hp. clear. generalize (a + 24). unfold some_data.
        induction xs as [|x l IH]; intros a' Hs Hp; [by apply not_elem_of_nil in Hp|]. rewrite Exists_cons in Hs.
        cbn [segs_in] in Hp. apply elem_of_cons in Hp as [->|Hp]; [|eapply IH; [tauto|exact Hp]]. cbn. unfold ldbytes.
        replace (Z.to_nat (data_len x)) with 0%nat by lia. done. }
      case_match; [by left|right; done]. }
  split.
  - apply Forall_forall. intros p Hp. destruct (load_list_data (a + 24) xs p Hok Hpos Hp) as (q & Hq & E1 & E2 & Hw).
    destruct Hcase as [->|[_ He]]; [|by rewrite (He p Hp)].
    apply ldbytes_eq. intros i Hi. set (k := Z.to_nat (i / 4)). assert (0 ≤ i mod 4 < 4) as Ht by (apply Z.mod_pos_bound; lia).
    assert (i = 4 * Z.of_nat k + i mod 4) as Hik by (unfold k; Z.to_euclidean_division_equations; lia).
    assert (k < length q.2)%nat as Hk by (unfold zlen in *; lia). destruct (Hw k (i mod 4) Hk Ht) as [Hrange Hbyte].
    rewrite Hik at 2. rewrite <- Hbyte, <- (mask_unmask_in o ps m q k (i mod 4)) by done. f_equal. lia.
  - intros x Hx. assert (Forall (outside x) ps) as Hout by (exact (ranges_forall _ _ (λ a e, x < a ∨ e ≤ x) Hr Hx)).
    destruct Hcase as [->|[-> _]]; [rewrite unmask_all_out by done|]; by apply mask_all_out.
Qed.
End loading.

(** ** The addresses that are accepted for a segment *)

Definition meets (r : region) (a e : Z) : Prop := a < high r ∧ low r < e.
Definition within (r : region) (a e : Z) : Prop := low r ≤ a ∧ e ≤ high r.

Section ranges.
Context {F H : Type} (C : img_cfg).
Implicit Types s : img F H.

Definition boot_stack : region := mkRegion (i32 (esp_cpu_sp C - STACK_LOAD_HEADROOM)) (ROM_STACK_START C).

(** Memory that is not on the buses of data and instructions. *)
Definition special (r : region) : Prop := r = SOC_RTC_IRAM C ∨ r = SOC_RTC_DRAM C ∨ r = SOC_RTC_DATA C ∨ r = SOC_TCM C.

(** The layout of a chip whose D/IRAM has its words in the same order on both buses. *)
Record layout : Prop := mkLayout {
  ly_order : SOC_DIRAM_INVERTED C = false;
  ly_pos r : r ∈ [SOC_DRAM C; SOC_IRAM C; SOC_DIRAM_DRAM C; SOC_DIRAM_IRAM C] → 0 ≤ low r ∧ low r < high r < 2 ^ 31;
  ly_buses : high (SOC_DRAM C) ≤ low (SOC_IRAM C) ∨ high (SOC_IRAM C) ≤ low (SOC_DRAM C);
  ly_diram : high (SOC_DIRAM_DRAM C) - low (SOC_DIRAM_DRAM C) = high (SOC_DIRAM_IRAM C) - low (SOC_DIRAM_IRAM C);
  ly_dram : within (SOC_DRAM C) (low (SOC_DIRAM_DRAM C)) (high (SOC_DIRAM_DRAM C));
  ly_iram : within (SOC_IRAM C) (low (SOC_DIRAM_IRAM C)) (high (SOC_DIRAM_IRAM C));
  ly_stack : within (SOC_DRAM C) (low boot_stack) (high boot_stack);
  ly_data : within (SOC_DRAM C) (low (dram_data C)) (high (dram_data C));
  ly_text : within (SOC_IRAM C) (low (loader_text C)) (high (loader_text C));
  ly_special r : special r → ¬ meets (SOC_DRAM C) (low r) (high r) ∧ ¬ meets (SOC_IRAM C) (low r) (high r) }.

Lemma overlap_inv a b x y s s' r : bootloader_util_regions_overlap a b x y s = Done s' r →
  s' = s ∧ a < b ∧ (r = false → ¬ (x < b ∧ a < y)) ∧ (r = true → x < b ∧ a < y).
Proof.
  unfold bootloader_util_regions_overlap, assertM, mbind, M_bind. destruct (Z.ltb_spec a b); [|done]. destruct (x <? y); [|done].
  intros [= <- <-]. split_and!; [done|done|..]; destruct (Z.ltb_spec x b), (Z.ltb_spec a y); cbn; (lia || done).
Qed.

Lemma in_ptr_small r p : 0 ≤ p < 2 ^ 31 → in_ptr r p = true ↔ low r ≤ p < high r.
Proof. intros Hp. unfold in_ptr. rewrite i32_small by lia. rewrite andb_true_iff, Z.leb_le, Z.ltb_lt. done. Qed.

(** What a check that succeeds has seen. *)
Lemma check_inv rec nr a e s s' : check_load_range C rec nr a e s = Done s' true → 0 ≤ a → a < e → e < 2 ^ 31 →
  (within (SOC_DRAM C) a e ∧ ¬ meets boot_stack a e ∧ ¬ meets (dram_data C) a e ∧
   (nr = false → meets (SOC_DIRAM_DRAM C) a e →
      let ia := diram_dram_to_iram C (if in_ptr (SOC_DIRAM_DRAM C) a then a else low (SOC_DIRAM_DRAM C)) in
      let ie := diram_dram_to_iram C (if in_ptr (SOC_DIRAM_DRAM C) (e - 1) then e else high (SOC_DIRAM_DRAM C)) in
      (if ie <? ia then rec ie ia else rec ia ie) s = Done s' true)) ∨
  (within (SOC_IRAM C) a e ∧ ¬ meets (loader_text C) a e ∧
   (nr = false → meets (SOC_DIRAM_IRAM C) a e →
      let da := diram_iram_to_dram C (if esp_ptr_in_diram_iram C a then a else low (SOC_DIRAM_IRAM C)) in
      let de := diram_iram_to_dram C (if esp_ptr_in_diram_iram C (e - 1) then e else high (SOC_DIRAM_IRAM C)) in
      (if de <? da then rec de da else rec da de) s = Done s' true)) ∨
  (∃ r, special r ∧ within r a e).
Proof.
  intros Hrun Ha He Hlt. unfold check_load_range in Hrun. rewrite (proj2 (Z.eqb_neq e a)), (i32_small (e - 1)) in Hrun by lia.
  unfold assertM, mbind at 1, M_bind at 1 in Hrun. rewrite (proj2 (Z.ltb_lt a e)) in Hrun by done.
  destruct (in_ptr (SOC_DRAM C) a && in_ptr (SOC_DRAM C) (e - 1)) eqn:Ed.
  - left. apply andb_true_iff in Ed as [Ed1 Ed2]. rewrite in_ptr_small in Ed1, Ed2 by lia. unfold within, meets.
    unfold mbind at 1, M_bind at 1 in Hrun. destruct (bootloader_util_regions_overlap _ _ _ _ s) as [s1 b1| | |] eqn:E1 in Hrun; try done.
    destruct (overlap_inv _ _ _ _ _ _ _ E1) as (-> & _ & Hno1 & _). destruct b1; [done|].
    unfold mbind at 1, M_bind at 1 in Hrun. destruct (bootloader_util_regions_overlap _ _ _ _ s) as [s2 b2| | |] eqn:E2 in Hrun; try done.
    destruct (overlap_inv _ _ _ _ _ _ _ E2) as (-> & _ & Hno2 & _). destruct b2; [done|].
    split_and!; [lia|lia|by apply Hno1|by apply Hno2|]. intros -> Hm.
    unfold mbind at 1, M_bind at 1 in Hrun. destruct (bootloader_util_regions_overlap _ _ _ _ s) as [s3 b3| | |] eqn:E3 in Hrun; try done.
    destruct (overlap_inv _ _ _ _ _ _ _ E3) as (-> & _ & Hno3 & _). destruct b3; cbn [negb] in Hrun; [|by destruct (Hno3 eq_refl)].
    cbv zeta. destruct (in_ptr (SOC_DIRAM_DRAM C) a), (in_ptr (SOC_DIRAM_DRAM C) (e - 1)); case_match; done.
  - destruct (in_ptr (SOC_IRAM C) a && in_ptr (SOC_IRAM C) (e - 1)) eqn:Ei.
    + right; left. apply andb_true_iff in Ei as [Ei1 Ei2]. rewrite in_ptr_small in Ei1, Ei2 by lia. unfold within, meets.
      unfold mbind at 1, M_bind at 1 in Hrun. destruct (bootloader_util_regions_overlap _ _ _ _ s) as [s1 b1| | |] eqn:E1 in Hrun; try done.
      destruct (overlap_inv _ _ _ _ _ _ _ E1) as (-> & _ & Hno1 & _). destruct b1; [done|].
      split_and!; [lia|lia|by apply Hno1|]. intros -> Hm.
      unfold mbind at 1, M_bind at 1 in Hrun. destruct (bootloader_util_regions_overlap _ _ _ _ s) as [s3 b3| | |] eqn:E3 in Hrun; try done.
      destruct (overlap_inv _ _ _ _ _ _ _ E3) as (-> & _ & Hno3 & _). destruct b3; cbn [negb] in Hrun; [|by destruct (Hno3 eq_refl)].
      cbv zeta. destruct (esp_ptr_in_diram_iram C a), (esp_ptr_in_diram_iram C (e - 1)); case_match; done.
    + right; right. injection Hrun as _ Hrun. unfold special, within.
      repeat (apply orb_true_iff in Hrun as [Hrun|Hrun]); apply andb_true_iff in Hrun as [R1 R2];
        rewrite in_ptr_small in R1, R2 by lia;
        first [exists (SOC_RTC_IRAM C); split; [tauto|lia]|exists (SOC_RTC_DRAM C); split; [tauto|lia]
              |exists (SOC_RTC_DATA C); split; [tauto|lia]|exists (SOC_TCM C); split; [tauto|lia]].
Qed.

(** The memory of the bootloader itself. *)
Definition own (p : Z) : Prop :=
  low boot_stack ≤ p < high boot_stack ∨ low (dram_data C) ≤ p < high (dram_data C) ∨ low (loader_text C) ≤ p < high (loader_text C).

(** Where D/IRAM is on the other bus. *)
Definition other_bus (p : Z) : option Z :=
  if bool_decide (low (SOC_DIRAM_DRAM C) ≤ p < high (SOC_DIRAM_DRAM C)) then Some (low (SOC_DIRAM_IRAM C) + (p - low (SOC_DIRAM_DRAM C)))
  else if bool_decide (low (SOC_DIRAM_IRAM C) ≤ p < high (SOC_DIRAM_IRAM C)) then Some (low (SOC_DIRAM_DRAM C) + (p - low (SOC_DIRAM_IRAM C)))
  else None.

Context (ly : layout).

Lemma not_meets_not_in r a e p : ¬ meets r a e → a ≤ p < e → ¬ (low r ≤ p < high r).
Proof. unfold meets. lia. Qed.

(** A range on the bus of data, or of instructions, and its alias. *)
Lemma dram_not_text p : low (SOC_DRAM C) ≤ p < high (SOC_DRAM C) → ¬ (low (loader_text C) ≤ p < high (loader_text C)).
Proof. destruct (ly_text ly), (ly_buses ly); lia. Qed.

Lemma iram_not_data p : low (SOC_IRAM C) ≤ p < high (SOC_IRAM C) →
  ¬ (low boot_stack ≤ p < high boot_stack) ∧ ¬ (low (dram_data C) ≤ p < high (dram_data C)).
Proof. destruct (ly_stack ly), (ly_data ly), (ly_buses ly); lia. Qed.

Lemma special_not_own r p : special r → low r ≤ p < high r → ¬ own p ∧ other_bus p = None.
Proof.
  intros Hr Hp. destruct (ly_special ly r Hr) as [Hd Hi]. unfold meets in Hd, Hi.
  destruct (ly_stack ly), (ly_data ly), (ly_text ly), (ly_dram ly), (ly_iram ly). split; [unfold own; lia|].
  unfold other_bus. rewrite !bool_decide_false by lia. done.
Qed.

(** One level of the check keeps a range off the memory of the bootloader. *)
Lemma check_not_own rec nr a e s s' : check_load_range C rec nr a e s = Done s' true → 0 ≤ a → e < 2 ^ 31 →
  ∀ p, a ≤ p < e → ¬ own p.
Proof.
  intros Hrun Ha Hlt p Hp. unfold own.
  destruct (check_inv rec nr a e s s' Hrun Ha ltac:(lia) Hlt) as [([Hw1 Hw2] & Hs & Hd & _)|[([Hw1 Hw2] & Ht & _)|(r & Hr & [Hw1 Hw2])]].
  - pose proof (not_meets_not_in _ _ _ p Hs Hp). pose proof (not_meets_not_in _ _ _ p Hd Hp). pose proof (dram_not_text p ltac:(lia)). tauto.
  - pose proof (not_meets_not_in _ _ _ p Ht Hp). destruct (iram_not_data p ltac:(lia)). tauto.
  - by apply (special_not_own r p Hr ltac:(lia)).
Qed.

(** C19: addresses that are accepted for a segment are not those of the stack, the data or
    the loader code of the bootloader, nor do they lead there on the other bus, on chips
    whose D/IRAM is in the same order on both. *)
Theorem loads_keep_off a e s s' : verify_load_addresses C a e s = Done s' true → 0 ≤ a → e < 2 ^ 31 →
  ∀ p, a ≤ p < e → ¬ own p ∧ ∀ q, other_bus p = Some q → ¬ own q.
Proof.
  intros Hrun Ha Hlt p Hp. split; [by eapply check_not_own|]. intros q Hq. unfold verify_load_addresses in Hrun.
  destruct (ly_pos ly (SOC_DIRAM_DRAM C) ltac:(rewrite !elem_of_cons; tauto)) as [D0 [D1 D2]]. destruct (ly_pos ly (SOC_DIRAM_IRAM C) ltac:(rewrite !elem_of_cons; tauto)) as [I0 [I1 I2]].
  pose proof (ly_diram ly) as Hsame. destruct (ly_dram ly) as [Hdl Hdh], (ly_iram ly) as [Hil Hih]. pose proof (ly_buses ly) as Hbus.
  set (DD := SOC_DIRAM_DRAM C) in *. set (DI := SOC_DIRAM_IRAM C) in *.
  destruct (check_inv _ _ _ _ _ _ Hrun Ha ltac:(lia) Hlt) as [([Hw1 Hw2] & _ & _ & Hrec)|[([Hw1 Hw2] & _ & Hrec)|(r & Hr & [Hw1 Hw2])]].
  - unfold other_bus in Hq. fold DD DI in Hq. case_bool_decide as Hin; [|case_bool_decide; [|done]; lia]. injection Hq as <-.
    fold DD DI in Hrec. specialize (Hrec eq_refl ltac:(unfold meets; lia)). cbv zeta in Hrec. unfold diram_dram_to_iram in Hrec. rewrite (ly_order ly) in Hrec. fold DD DI in Hrec.
    set (x := if in_ptr DD a then a else low DD) in Hrec. set (y := if in_ptr DD (e - 1) then e else high DD) in Hrec.
    assert (low DD ≤ x ≤ p) as Hx by (unfold x; destruct (in_ptr DD a) eqn:E; [rewrite in_ptr_small in E by lia|]; lia).
    assert (p < y ≤ high DD) as Hy by (unfold y; destruct (in_ptr DD (e - 1)) eqn:E; [rewrite in_ptr_small in E by lia|]; lia).
    rewrite !i32_small in Hrec by lia. rewrite (proj2 (Z.ltb_ge _ _)) in Hrec by lia. eapply check_not_own; [exact Hrec|lia|lia|lia].
  - unfold other_bus in Hq. fold DD DI in Hq. case_bool_decide as Hin; [lia|]. case_bool_decide as Hin'; [|done]. injection Hq as <-.
    fold DD DI in Hrec. specialize (Hrec eq_refl ltac:(unfold meets; lia)). cbv zeta in Hrec. unfold diram_iram_to_dram in Hrec. rewrite (ly_order ly) in Hrec. fold DD DI in Hrec.
    set (x := if esp_ptr_in_diram_iram C a then a else low DI) in Hrec. set (y := if esp_ptr_in_diram_iram C (e - 1) then e else high DI) in Hrec.
    assert (∀ z, 0 ≤ z < 2 ^ 31 → esp_ptr_in_diram_iram C z = true ↔ low DI ≤ z < high DI) as Hptr.
    { intros z Hz. unfold esp_ptr_in_diram_iram. fold DD DI. rewrite (proj2 (Z.eqb_neq _ _)) by lia. by apply in_ptr_small. }
    assert (low DI ≤ x ≤ p) as Hx.
    { unfold x. pose proof (Hptr a ltac:(lia)). destruct (esp_ptr_in_diram_iram C a); [|lia]. assert (low DI ≤ a < high DI) by tauto. lia. }
    assert (p < y ≤ high DI) as Hy.
    { unfold y. pose proof (Hptr (e - 1) ltac:(lia)). destruct (esp_ptr_in_diram_iram C (e - 1)); [|lia]. assert (low DI ≤ e - 1 < high DI) by tauto. lia. }
    rewrite !i32_small in Hrec by lia. rewrite (proj2 (Z.ltb_ge _ _)) in Hrec by lia. eapply check_not_own; [exact Hrec|lia|lia|lia].
  - destruct (special_not_own r p Hr ltac:(lia)) as [_ Hn]. by rewrite Hn in Hq.
Qed.
End ranges.
