(* ===== verification/ImageProps.v ===== *)
(** * Application images: properties

    An image is accepted if and only if it is one; what the bootloader loads is what the
    image says; and the cases in which the code goes wrong. *)
From Stdlib Require Import ZArith Lia.
From stdpp Require Import base numbers option list gmap.
From S2P Require Import Prelude Flash ImageFlash ImageSha ImageShaSpec Image ImageSpec ImageFormat ImageRam.

Open Scope Z_scope.

(** The chip of the theorems: the ESP32, with images up to 16 MB, and no debugger. *)
Record esp32_build (C : img_cfg) : Prop := mkEsp32 {
  eb_chip : CONFIG_IDF_TARGET_ESP32 C = true;
  eb_page : SOC_MMU_PAGE_SIZE_CONFIGURABLE C = false;
  eb_max : ESP_IMAGE_MAX_FLASH_ADDR_SIZE C = 0x1000000;
  eb_dbgr : dbgr_is_attached C = false }.

(** The metadata of an image at [a] that is [len] bytes long. *)
Record describes (c : mem) (d : esp_image_metadata_t) (a : Z) (hdr : list Z) (segs : list (Z * list Z)) (len : Z) : Prop := mkDescribes {
  ds_start : start_addr d = a;
  ds_image : image d = hdr;
  ds_segments : take (length segs) (segments d) = seg_header <$> segs;
  ds_data i x : segs !! i = Some x → ∃ p, segment_data d !! i = Some p ∧ ldbytes c p (zlen x.2) = x.2;
  ds_len : image_len d = len }.

Section props.
Context {F H : Type} `{!ImageFlash F} `{!ImageFlashLaws F} `{!Sha256} `{!ShaDriver H} `{!ShaLaws H}.
Context (C : img_cfg).
Implicit Types s : img F H.

(** Nothing is mapped and no digest is open. *)
Definition at_rest s : Prop := idle (ifl s) ∧ sha_idle (isha s) ∧ 0 ≤ bootloader_mmap_get_free_pages (ifl s).

(** The flash works on its first [k] bytes and a digest can be started. *)
Definition can_verify s (k : Z) : Prop := works (ifl s) k ∧ sha_ready (isha s) ∧ 2 ≤ bootloader_mmap_get_free_pages (ifl s).

Abbreviation off s := (s_bootloader_partition_offset s).
Abbreviation flash_of s := (content (ifl s)).

Lemma at_start (up : Prop) K s : at_rest s → (up → works (ifl s) K ∧ sha_ready (isha s)) →
  at_ (flash_of s) (bootloader_mmap_get_free_pages (ifl s)) K up false None [] (data s) (checksum_word s) (ram s) (ram_obfs_value s) (off s) s.
Proof.
  intros (Hi & Hs & _) Hup. split; try done.
  - split; try done. intros Hu. by apply Hup.
  - split; [done|]. intros Hu. by apply Hup.
Qed.

Lemma filled_segment_data c i a xs d : (i + length xs ≤ length (segment_data d))%nat → Forall (λ x, 0 ≤ data_len x) xs →
  (∀ k x, segs_in c a xs !! k = Some x → ∃ p, segment_data (filled i a xs d) !! (i + k)%nat = Some p ∧ ldbytes c p (zlen x.2) = x.2) ∧
  ∀ j, (j < i)%nat → segment_data (filled i a xs d) !! j = segment_data d !! j.
Proof.
  revert i a d. induction xs as [|x l IH]; intros i a d Hl Hx; [done|]. apply Forall_cons in Hx as [Hx Hpos]. cbn [filled length segs_in] in *.
  set (d1 := set_segment_data i (a + 8) (set_page_size MMU_PAGE_SIZE (set_segment i x d))).
  assert (segment_data d1 = <[i := a + 8]> (segment_data d)) as Hd1 by done.
  destruct (IH (S i) (a + 8 + data_len x) d1) as [Hin Hlow]; [rewrite Hd1, length_insert; lia|done|]. split.
  - intros [|k] y Hy.
    + injection Hy as <-. exists (a + 8). rewrite Nat.add_0_r, Hlow, Hd1 by lia. split; [apply list_lookup_insert_eq; lia|].
      cbn. by rewrite zlen_ldbytes.
    + replace (i + S k)%nat with (S i + k)%nat by lia. by apply Hin.
  - intros j Hj. rewrite Hlow, Hd1 by lia. by rewrite list_lookup_insert_ne by lia.
Qed.

Lemma image_data_describes c a : (∀ x, is_byte (c x)) → segment_count (ldbytes c a 24) ≤ 16 →
  describes c (image_data c a) a (ldbytes c a 24) (segs_in c (a + 24) (segs_at c a)) (full_len c a).
Proof.
  intros Hc Hn. destruct (segs_data_fields c a) as [Hs Hi]. pose proof (segment_count_range c Hc a) as Hr.
  assert (length (segs_at c a) = Z.to_nat (segment_count (ldbytes c a 24))) as Hlen by apply length_parse.
  assert (∀ A (f : esp_image_metadata_t → A), (∀ n d, f (set_len n d) = f d) → (∀ b d, f (set_digest b d) = f d) →
    f (image_data c a) = f (segs_data c a)) as Hf.
  { intros A f H1 H2. unfold image_data. by destruct (hash_on c a); rewrite H1, ?H2. }
  destruct (segs_parse c Hc (Z.to_nat (segment_count (ldbytes c a 24))) (a + 24)) as (_ & _ & Eh). fold (segs_at c a) in Eh.
  split.
  - by rewrite (Hf _ start_addr).
  - by rewrite (Hf _ image).
  - rewrite (Hf _ segments) by done. rewrite Eh. apply (f_equal length) in Eh. rewrite length_fmap in Eh. rewrite Eh.
    destruct (filled_segments 0 (a + 24) (segs_at c a) (header_data c a)) as (Ht & _); [cbn; lia|]. exact Ht.
  - rewrite (Hf _ segment_data) by done. destruct (filled_segment_data c 0 (a + 24) (segs_at c a) (header_data c a)) as [Hin _]; [cbn; lia|apply parse_len, Hc|].
    exact Hin.
  - unfold image_data. by destruct (hash_on c a).
Qed.

Lemma zlen_file hdr segs pad : zlen (image_file hdr segs pad) =
  zlen (image_summed hdr segs pad) + (if hash_appended hdr =? 0 then 0 else HASH_LEN).
Proof. unfold image_file. rewrite zlen_app. destruct (_ =? 0); [done|]. by rewrite sha256_length. Qed.

Context (build : esp32_build C).

Lemma esp32_room a : 0 ≤ a < 2 ^ 31 → room_at C a.
Proof. intros Ha. unfold room_at. rewrite (eb_max _ build). lia. Qed.

(** The rule of [image_load] on this chip. *)
Lemma esp32_load_rule (up : Prop) K mode a size s : at_rest s → (up → works (ifl s) K ∧ sha_ready (isha s)) →
  mode ≠ ESP_IMAGE_LOAD_NO_VALIDATE → 0 ≤ a < 2 ^ 31 →
  (segment_count (ldbytes (flash_of s) a 24) ≤ 16 →
   Forall (λ x, BOOTLOADER_BUILD C && loaded C (loads C mode) x = true → 0 < data_len x → range_ok (F := F) (H := H) C x) (segs_at (flash_of s) a)) →
  wp (image_load C mode (Some (mkPos a size)) true) s (λ r s', idle (ifl s') ∧ sha_idle (isha s') ∧
    (loads C mode = false → ram s' = ram s) ∧
    (r = ESP_OK → accepted C (flash_of s) (off s) a size ∧ data s' = image_data (flash_of s) a ∧
       (loads C mode = true → Forall (one_piece (bootloader_mmap_get_free_pages (ifl s))) (segs_at (flash_of s) a) →
          ∃ o, (some_data (segs_at (flash_of s) a) → o.1 ≠ 0 ∧ o.2 ≠ 0) ∧ ram s' = ram_loaded C (flash_of s) o a (ram s))) ∧
    (r ≠ ESP_OK → data s' = metadata0) ∧
    (up → a mod 4 = 0 → accepted C (flash_of s) (off s) a size → a + full_len (flash_of s) a ≤ K →
       2 ≤ bootloader_mmap_get_free_pages (ifl s) → r = ESP_OK)).
Proof.
  intros Hrest Hup Hmode Ha Hrange. pose proof (at_start up K s Hrest Hup) as Hat. destruct Hrest as (_ & _ & HP). pose proof (eb_max _ build) as Hmax.
  eapply wp_mono; [apply (image_load_rule C (flash_of s) _ K up (content_byte (ifl s)) (eb_chip _ build) (eb_page _ build) ltac:(lia)
    ltac:(rewrite Hmax; unfold SHA_MAX; lia) (eb_dbgr _ build) mode a size _ _ _ _ _ _ _ Hat Hmode (esp32_room a Ha) HP Hrange)|].
  intros r s' (Hf & Hs & _ & Hrest). split; [apply (fo_idle _ _ _ _ _ _ Hf)|]. by split.
Qed.

(** An image of the format at [a] in the flash [c], with its metadata [d]. *)
Definition image_found (c : mem) (off a size : Z) (d : esp_image_metadata_t) : Prop := ∃ hdr segs pad,
  wf_image C off a hdr segs pad ∧
  ldbytes c a (zlen (image_summed hdr segs pad)) = image_summed hdr segs pad ∧
  (boot_at C off a = false → ldbytes c a (zlen (image_file hdr segs pad)) = image_file hdr segs pad) ∧
  zlen (image_file hdr segs pad) ≤ size ∧ describes c d a hdr segs (zlen (image_file hdr segs pad)).

Lemma accepted_found c off a size : (∀ x, is_byte (c x)) → accepted C c off a size → image_found c off a size (image_data c a).
Proof.
  intros Hc Hacc. pose proof (accepted_file C c Hc off a size Hacc) as (Hwf & Hsum & Hfile).
  set (segs := segs_in c (a + 24) (segs_at c a)) in *. set (pad := ldbytes c (a + body_len c a) (15 - body_len c a mod 16)) in *.
  exists (ldbytes c a 24), segs, pad. pose proof (len_order c Hc a) as Hord.
  assert (zlen (image_summed (ldbytes c a 24) segs pad) = sum_len c a) as Hsl by (rewrite <- Hsum; apply zlen_ldbytes; lia).
  assert (zlen (image_file (ldbytes c a 24) segs pad) = full_len c a) as Hfl.
  { rewrite zlen_file, Hsl. unfold full_len, hash_on. by destruct (hash_appended _ =? 0). }
  split_and!; [done|by rewrite Hsl|by rewrite Hfl|rewrite Hfl; apply Hacc|]. rewrite Hfl.
  apply image_data_describes; [done|apply (ih_count _ _ _ _ (ac_header _ _ _ _ _ Hacc))].
Qed.

(** The rule of [esp_image_verify]. *)
Lemma wp_image_verify mode a size s : at_rest s → mode = ESP_IMAGE_VERIFY ∨ mode = ESP_IMAGE_VERIFY_SILENT → 0 ≤ a < 2 ^ 31 →
  wp (esp_image_verify C mode (Some (mkPos a size)) true) s (λ r s', idle (ifl s') ∧ sha_idle (isha s') ∧ ram s' = ram s ∧
    (r ≠ ESP_OK → data s' = metadata0) ∧ (r = ESP_OK → image_found (flash_of s) (off s) a size (data s'))).
Proof.
  intros Hrest Hmode Ha. unfold esp_image_verify.
  assert (loads C mode = false) as Hl by (unfold loads; destruct Hmode as [-> | ->]; apply andb_false_r).
  eapply wp_mono; [apply (esp32_load_rule False 0 mode a size s Hrest); [done|by destruct Hmode as [-> | ->]|done|]|].
  { intros _. apply Forall_true. intros x. unfold loaded. rewrite Hl. by rewrite andb_false_r. }
  intros r s' (Hi & Hs & Hram & Hok & Hbad & _). split_and!; [done|done|by apply Hram|done|]. intros Hr.
  destruct (Hok Hr) as (Hacc & -> & _). apply accepted_found; [apply content_byte|done].
Qed.

(** C16: verifying whatever is in flash returns, with every mapping released and every digest
    closed, whatever the flash and the allocation answer.  If the result is success, then
    at the offset there is an image of the format: a header for this chip with up to 16
    segments of whole words that are aligned as their addresses ask, whose bytes add up to
    the checksum behind the padding, and, unless it is the bootloader, with the SHA-256
    digest of all of this when the header says so.  The image fits into the partition and
    the metadata describes it.  Otherwise the metadata is zero.  RAM is not touched. *)
Theorem image_verify_sound mode a size s :
  at_rest s → mode = ESP_IMAGE_VERIFY ∨ mode = ESP_IMAGE_VERIFY_SILENT → 0 ≤ a < 2 ^ 31 →
  wp (esp_image_verify C mode (Some (mkPos a size)) true) s (λ r s', idle (ifl s') ∧ sha_idle (isha s') ∧ ram s' = ram s ∧
    (r ≠ ESP_OK → data s' = metadata0) ∧
    (r = ESP_OK → ∃ hdr segs pad, wf_image C (off s) a hdr segs pad ∧
       ldbytes (flash_of s) a (zlen (image_summed hdr segs pad)) = image_summed hdr segs pad ∧
       (boot_at C (off s) a = false → ldbytes (flash_of s) a (zlen (image_file hdr segs pad)) = image_file hdr segs pad) ∧
       zlen (image_file hdr segs pad) ≤ size ∧ describes (flash_of s) (data s') a hdr segs (zlen (image_file hdr segs pad)))).
Proof. apply wp_image_verify. Qed.

(** C17: an image of the format that is in flash and fits into the partition is accepted, as
    long as the flash works, a digest can be started and two pages can be mapped; the
    metadata describes it. *)
Theorem image_verify_complete mode a size hdr segs pad s :
  at_rest s → can_verify s (a + zlen (image_file hdr segs pad)) → mode = ESP_IMAGE_VERIFY ∨ mode = ESP_IMAGE_VERIFY_SILENT →
  0 ≤ a < 2 ^ 31 → a mod 4 = 0 → wf_image C (off s) a hdr segs pad → zlen (image_file hdr segs pad) ≤ size ≤ 0x1000000 →
  ldbytes (flash_of s) a (zlen (image_file hdr segs pad)) = image_file hdr segs pad →
  wp (esp_image_verify C mode (Some (mkPos a size)) true) s (λ r s', r = ESP_OK ∧ idle (ifl s') ∧ sha_idle (isha s') ∧
    describes (flash_of s) (data s') a hdr segs (zlen (image_file hdr segs pad))).
Proof.
  intros Hrest (Hw & Hready & H2) Hmode Ha Ha4 Hwf Hsz Hfile. unfold esp_image_verify. set (c := flash_of s) in *.
  assert (loads C mode = false) as Hl by (unfold loads; destruct Hmode as [-> | ->]; apply andb_false_r).
  destruct (file_accepted C c (content_byte (ifl s)) (off s) a size hdr segs pad Hwf Hfile) as [Hacc Hfl]; [lia|rewrite (eb_max _ build); lia|].
  eapply wp_mono; [apply (esp32_load_rule True (a + zlen (image_file hdr segs pad)) mode a size s Hrest); [done|by destruct Hmode as [-> | ->]|done|]|].
  { intros _. apply Forall_true. intros x. unfold loaded. rewrite Hl. by rewrite andb_false_r. }
  fold c. intros r s' (Hi & Hs & _ & Hok & _ & Hup). assert (r = ESP_OK) as Hr by (apply Hup; (done || lia)).
  destruct (Hok Hr) as (_ & Hd & _). split_and!; [done|done|done|]. rewrite Hd, <- Hfl.
  pose proof (image_data_describes c a (content_byte (ifl s)) (ih_count _ _ _ _ (ac_header _ _ _ _ _ Hacc))) as Hdesc.
  assert (ldbytes c a (zlen (image_summed hdr segs pad)) = image_summed hdr segs pad) as Hsum.
  { unfold image_file in Hfile. rewrite zlen_app in Hfile. by apply ldbytes_split in Hfile as [? _]; [|apply zlen_nonneg..| |]. }
  destruct (file_found C c (off s) a hdr segs pad Hwf Hsum) as (E1 & E2 & E3 & _). by rewrite E1, E3 in Hdesc.
Qed.

(** C18: the bootloader loads an image of the format: it verifies it and then RAM has the data
    of each segment that is to be loaded at the address of the segment, and is unchanged
    elsewhere, if these segments are apart from each other, each of them can be mapped at
    once and its addresses are accepted. *)
Theorem image_load_ram a size hdr segs pad s :
  BOOTLOADER_BUILD C = true → at_rest s → can_verify s (a + zlen (image_file hdr segs pad)) → 0 ≤ a < 2 ^ 31 → a mod 4 = 0 →
  wf_image C (off s) a hdr segs pad → zlen (image_file hdr segs pad) ≤ size ≤ 0x1000000 →
  ldbytes (flash_of s) a (zlen (image_file hdr segs pad)) = image_file hdr segs pad →
  Forall (λ p, zlen p.2 ≤ (bootloader_mmap_get_free_pages (ifl s) - 1) * MMU_PAGE_SIZE) segs →
  Forall (λ p, p.1 + zlen p.2 ≤ 2 ^ 32 ∧ (0 < zlen p.2 → range_ok (F := F) (H := H) C (seg_header p))) (to_load C segs) →
  file_all_apart (to_load C segs) →
  wp (bootloader_load_image C false (Some (mkPos a size)) true) s (λ r s', r = ESP_OK ∧ idle (ifl s') ∧ sha_idle (isha s') ∧
    Forall (λ p, ldbytes (ram s') p.1 (zlen p.2) = p.2) (to_load C segs) ∧
    ∀ x, Forall (λ p, x < p.1 ∨ p.1 + zlen p.2 ≤ x) (to_load C segs) → ram s' x = ram s x).
Proof.
  intros HB Hrest (Hw & Hready & H2) Ha Ha4 Hwf Hsz Hfile Hone Hld Hap. unfold bootloader_load_image. rewrite HB. cbn [negb]. set (c := flash_of s) in *.
  destruct (file_accepted C c (content_byte (ifl s)) (off s) a size hdr segs pad Hwf Hfile) as [Hacc Hfl]; [lia|rewrite (eb_max _ build); lia|].
  assert (ldbytes c a (zlen (image_summed hdr segs pad)) = image_summed hdr segs pad) as Hsum.
  { unfold image_file in Hfile. rewrite zlen_app in Hfile. by apply ldbytes_split in Hfile as [? _]; [|apply zlen_nonneg..| |]. }
  destruct (file_found C c (off s) a hdr segs pad Hwf Hsum) as (E1 & E2 & E3 & _).
  assert (loads C ESP_IMAGE_LOAD = true) as Hl by (unfold loads; by rewrite HB).
  eapply wp_mono; [apply (esp32_load_rule True (a + zlen (image_file hdr segs pad)) ESP_IMAGE_LOAD a size s Hrest); [done|done|done|]|].
  { intros _. fold c. rewrite E2. apply Forall_fmap, Forall_forall. intros p Hp Hb Hpos. cbn in Hb, Hpos. rewrite HB, Hl in Hb. cbn in Hb.
    rewrite Forall_forall in Hld. apply Hld; [|done]. apply list_elem_of_filter. by split. }
  fold c. intros r s' (Hi & Hs & _ & Hok & _ & Hup). assert (r = ESP_OK) as Hr by (apply Hup; (done || lia)).
  destruct (Hok Hr) as (_ & _ & Hram). destruct (Hram Hl) as (o & Hnz & Heq).
  { rewrite E2. apply Forall_fmap. eapply Forall_impl; [exact Hone|]. done. }
  destruct (ram_loaded_data C c (content_byte (ifl s)) HB o a (ram s)) as [Hdata Hout]; rewrite ?E3; try done.
  - apply Hacc.
  - rewrite Forall_forall in *. intros p Hp. split; [|by apply Hld]. apply list_elem_of_filter in Hp as [_ Hp].
    pose proof (wi_segs _ _ _ _ _ _ Hwf) as Hsw. rewrite Forall_forall in Hsw. apply (sw_addr _ (Hsw p Hp)).
  - rewrite E3 in Hdata, Hout. split_and!; [done|done|done|by rewrite Heq|]. intros x Hx. rewrite Heq. by apply Hout.
Qed.
End props.
