(* ===== verification/ImageCases.v ===== *)
(** * Application images: instances

    The theorems on an image in the flash of an ESP32, and what the code does with images
    that it should refuse. *)
From Stdlib Require Import ZArith Lia.
From stdpp Require Import base numbers option list gmap.
From S2P Require Import Prelude Flash ImageFlash ImageSha ImageShaSpec Image ImageSpec ImageFormat ImageRam ImageProps.

Open Scope Z_scope.
#[local] Existing Instance mix_sha.

(** ** An image for the ESP32 *)

Definition cfg32 (bootloader : bool) : img_cfg := {|
  BOOTLOADER_BUILD := bootloader; CONFIG_IDF_TARGET_ESP32 := true; SOC_MMU_PAGE_SIZE_CONFIGURABLE := false;
  CONFIG_IDF_FIRMWARE_CHIP_ID := 0; ESP_IMAGE_MAX_FLASH_ADDR_SIZE := 0x1000000;
  ESP_PRIMARY_BOOTLOADER_OFFSET := 0x1000; ESP_BOOTLOADER_SIZE := 0x7000; recovery_bootloader := None;
  SOC_IROM := mkRegion 0x400D0000 0x40400000; SOC_DROM := mkRegion 0x3F400000 0x3F800000; SOC_EXTRAM := mkRegion 0 0;
  SOC_DRAM := mkRegion 0x3FFAE000 0x40000000; SOC_IRAM := mkRegion 0x40080000 0x400AA000;
  SOC_DIRAM_DRAM := mkRegion 0x3FFE0000 0x40000000; SOC_DIRAM_IRAM := mkRegion 0x400A0000 0x400C0000;
  SOC_RTC_IRAM := mkRegion 0x400C0000 0x400C2000; SOC_RTC_DRAM := mkRegion 0x3FF80000 0x3FF82000;
  SOC_RTC_DATA := mkRegion 0x50000000 0x50002000; SOC_TCM := mkRegion 0 0; SOC_DIRAM_INVERTED := true;
  dram_data := mkRegion 0x3FFF0000 0x3FFF8000; loader_text := mkRegion 0x40078000 0x40080000;
  ROM_STACK_START := 0x3FFE3F20; esp_cpu_sp := 0x3FFE3000;
  efuse_chip_revision := 300; disable_wafer_version_major := false; efuse_blk_version := 0; disable_blk_version_major := false;
  dbgr_is_attached := false; deep_sleep_reset := false |}.

Lemma cfg32_build b : esp32_build (cfg32 b).
Proof. by split. Qed.

(** The header: magic, number of segments, chip and revisions, digest or not. *)
Definition header_with (n chip hash : Z) : list Z :=
  [0xE9; n; 2; 0x20; 0; 0; 8; 0x40; 0xEE; 0; 0; 0; chip; 0; 0; 0; 0; 0xFF; 0xFF; 0; 0; 0; 0; hash].

(** Two segments for RAM, one of padding. *)
Definition segs32 : list (Z * list Z) := [(0x3FFB0000, [1; 2; 3; 4; 5; 6; 7; 8]); (0, replicate 4 0xAA); (0x40080000, [9; 10; 11; 12])].
Definition hdr32 : list Z := header_with 3 0 1.
Definition pad32 : list Z := replicate 15 0.
Definition file32 : list Z := image_file hdr32 segs32 pad32.

(** A flash with a file at an offset; the rest is erased. *)
Definition flash_with (a : Z) (file : list Z) : mem := λ x,
  if (a <=? x) && (x <? a + zlen file) then u8 (file !!! Z.to_nat (x - a)) else 0xFF.

Lemma flash_with_byte a file x : is_byte (flash_with a file x).
Proof. unfold flash_with. case_match; [apply Z.mod_pos_bound; lia|by unfold is_byte]. Qed.

Definition valid_any (_ : Z) : bool := true.
Definition boot_size : Z := 0x320000.
Lemma valid_any_ok n : 0 < n ≤ boot_size → valid_any n = true.
Proof. done. Qed.

Definition boot0 : boot_flash := mkBoot 0 false 0 (2 ^ 32 - 1).

(** The bootloader before it reads an image. *)
Definition state0 : img boot_flash engine := mkImg boot0 engine0 metadata0 0 (λ _, 0x55) (0, 0) [(7, 0); (0x11223344, 0xA5A5A5A5)] 0x1000.

Section esp32.
#[local] Instance flash32 : ImageFlash boot_flash := boot_image_flash (flash_with 0x10000 file32) boot_size valid_any.
#[local] Instance laws32 : ImageFlashLaws boot_flash :=
  boot_image_laws (flash_with 0x10000 file32) boot_size valid_any (flash_with_byte 0x10000 file32) valid_any_ok.

Lemma state0_rest : at_rest state0.
Proof. split_and!; done. Qed.

Lemma state0_can k : can_verify state0 k.
Proof. split_and!; done. Qed.

Lemma wf32 : wf_image (cfg32 true) 0x1000 0x10000 hdr32 segs32 pad32.
Proof.
  split; [done| |done| | |done].
  - by split.
  - repeat constructor; cbn; unfold is_byte; lia.
  - cbn [headers_ok seg_header fmap list_fmap segs32]. split_and!; [..|done]; (split; [done|done|]); vm_compute; done.
Qed.

Lemma image_verify_complete_witness :
  wp (esp_image_verify (cfg32 true) ESP_IMAGE_VERIFY (Some (mkPos 0x10000 0x1000)) true) state0 (λ r s', r = ESP_OK ∧ idle (ifl s') ∧
    sha_idle (isha s') ∧ describes (content (ifl state0)) (data s') 0x10000 hdr32 segs32 (zlen (image_file hdr32 segs32 pad32))).
Proof.
  apply (image_verify_complete (cfg32 true) (cfg32_build true) ESP_IMAGE_VERIFY 0x10000 0x1000 hdr32 segs32 pad32 state0);
    [apply state0_rest|apply state0_can|by left|done|done|apply wf32|by vm_compute|by vm_compute].
Defined.

Lemma image_verify_sound_witness :
  wp (esp_image_verify (cfg32 true) ESP_IMAGE_VERIFY (Some (mkPos 0x10000 0x1000)) true) state0 (λ r s',
    (r = ESP_OK → ∃ hdr segs pad, wf_image (cfg32 true) 0x1000 0x10000 hdr segs pad ∧ zlen (image_file hdr segs pad) ≤ 0x1000)).
Proof.
  refine (wp_mono _ _ _ _ (image_verify_sound (cfg32 true) (cfg32_build true) ESP_IMAGE_VERIFY 0x10000 0x1000 state0 state0_rest (or_introl eq_refl) _) _).
  - split; [done|by vm_compute].
  - intros r s' (_ & _ & _ & _ & Hok) Hr. destruct (Hok Hr) as (hdr & segs & pad & Hwf & _ & _ & Hsz & _). by exists hdr, segs, pad.
Defined.

Lemma image_load_ram_witness :
  wp (bootloader_load_image (cfg32 true) false (Some (mkPos 0x10000 0x1000)) true) state0 (λ r s', r = ESP_OK ∧ idle (ifl s') ∧ sha_idle (isha s') ∧
    Forall (λ p, ldbytes (ram s') p.1 (zlen p.2) = p.2) (to_load (cfg32 true) segs32) ∧
    ∀ x, Forall (λ p, x < p.1 ∨ p.1 + zlen p.2 ≤ x) (to_load (cfg32 true) segs32) → ram s' x = ram state0 x).
Proof.
  apply (image_load_ram (cfg32 true) (cfg32_build true) 0x10000 0x1000 hdr32 segs32 pad32 state0);
    [done|apply state0_rest|apply state0_can|done|done|apply wf32|by vm_compute|by vm_compute|..].
  - repeat constructor; by vm_compute.
  - change (to_load (cfg32 true) segs32) with [(0x3FFB0000, [1; 2; 3; 4; 5; 6; 7; 8]); (0x40080000, [9; 10; 11; 12])].
    repeat constructor; (by vm_compute) || (intros s; vm_compute; reflexivity).
  - change (to_load (cfg32 true) segs32) with [(0x3FFB0000, [1; 2; 3; 4; 5; 6; 7; 8]); (0x40080000, [9; 10; 11; 12])].
    split; [constructor; [left; by vm_compute|constructor]|split; [constructor|done]].
Defined.
End esp32.

(** The loads of the ESP32-S3. *)
Definition cfg_s3 : img_cfg := {|
  BOOTLOADER_BUILD := true; CONFIG_IDF_TARGET_ESP32 := false; SOC_MMU_PAGE_SIZE_CONFIGURABLE := false;
  CONFIG_IDF_FIRMWARE_CHIP_ID := 9; ESP_IMAGE_MAX_FLASH_ADDR_SIZE := 0x1000000;
  ESP_PRIMARY_BOOTLOADER_OFFSET := 0; ESP_BOOTLOADER_SIZE := 0x8000; recovery_bootloader := None;
  SOC_IROM := mkRegion 0x42000000 0x44000000; SOC_DROM := mkRegion 0x3C000000 0x3E000000; SOC_EXTRAM := mkRegion 0 0;
  SOC_DRAM := mkRegion 0x3FC88000 0x3FD00000; SOC_IRAM := mkRegion 0x40370000 0x403E0000;
  SOC_DIRAM_DRAM := mkRegion 0x3FC88000 0x3FCF0000; SOC_DIRAM_IRAM := mkRegion 0x40378000 0x403E0000;
  SOC_RTC_IRAM := mkRegion 0x600FE000 0x60100000; SOC_RTC_DRAM := mkRegion 0x600FE000 0x60100000;
  SOC_RTC_DATA := mkRegion 0x50000000 0x50002000; SOC_TCM := mkRegion 0 0; SOC_DIRAM_INVERTED := false;
  dram_data := mkRegion 0x3FCD5000 0x3FCDA000; loader_text := mkRegion 0x403CB000 0x403D2000;
  ROM_STACK_START := 0x3FCEB710; esp_cpu_sp := 0x3FCEB000;
  efuse_chip_revision := 2; disable_wafer_version_major := false; efuse_blk_version := 3; disable_blk_version_major := false;
  dbgr_is_attached := false; deep_sleep_reset := false |}.

Lemma layout_s3 : layout cfg_s3.
Proof.
  split; [done| |left; by vm_compute|by vm_compute|split; by vm_compute..|].
  - intros r Hr. rewrite !elem_of_cons in Hr.
    destruct Hr as [-> |[-> |[-> |[-> |Hr]]]]; [cbn; lia..|by apply not_elem_of_nil in Hr].
  - intros r [-> |[-> |[-> | ->]]]; unfold meets; cbn; lia.
Qed.

Lemma loads_keep_off_witness :
  verify_load_addresses cfg_s3 0x3FC88000 0x3FC90000 state0 = Done state0 true ∧
  verify_load_addresses cfg_s3 0x3FCDB000 0x3FCDC000 state0 = Done state0 false ∧
  (∀ p, 0x3FC88000 ≤ p < 0x3FC90000 → ¬ own cfg_s3 p ∧ ∀ q, other_bus cfg_s3 p = Some q → ¬ own cfg_s3 q).
Proof.
  split_and!; [vm_compute; reflexivity|vm_compute; reflexivity|].
  apply (loads_keep_off cfg_s3 layout_s3 0x3FC88000 0x3FC90000 state0 state0); [vm_compute; reflexivity|lia|by vm_compute].
Defined.

(** ** Images that the code should refuse, or should accept

    The flash is a function of the address, so that an image needs no list. *)

Definition bytes_at (a : Z) (bs : list Z) (rest : mem) : mem := λ x,
  if (a <=? x) && (x <? a + zlen bs) then bs !!! Z.to_nat (x - a) else rest x.

Definition with_cfg (C : img_cfg) (text : region) (page_configurable : bool) : img_cfg := {|
  BOOTLOADER_BUILD := BOOTLOADER_BUILD C; CONFIG_IDF_TARGET_ESP32 := CONFIG_IDF_TARGET_ESP32 C;
  SOC_MMU_PAGE_SIZE_CONFIGURABLE := page_configurable;
  CONFIG_IDF_FIRMWARE_CHIP_ID := CONFIG_IDF_FIRMWARE_CHIP_ID C; ESP_IMAGE_MAX_FLASH_ADDR_SIZE := ESP_IMAGE_MAX_FLASH_ADDR_SIZE C;
  ESP_PRIMARY_BOOTLOADER_OFFSET := ESP_PRIMARY_BOOTLOADER_OFFSET C; ESP_BOOTLOADER_SIZE := ESP_BOOTLOADER_SIZE C;
  recovery_bootloader := recovery_bootloader C;
  SOC_IROM := SOC_IROM C; SOC_DROM := SOC_DROM C; SOC_EXTRAM := SOC_EXTRAM C; SOC_DRAM := SOC_DRAM C; SOC_IRAM := SOC_IRAM C;
  SOC_DIRAM_DRAM := SOC_DIRAM_DRAM C; SOC_DIRAM_IRAM := SOC_DIRAM_IRAM C; SOC_RTC_IRAM := SOC_RTC_IRAM C;
  SOC_RTC_DRAM := SOC_RTC_DRAM C; SOC_RTC_DATA := SOC_RTC_DATA C; SOC_TCM := SOC_TCM C; SOC_DIRAM_INVERTED := SOC_DIRAM_INVERTED C;
  dram_data := dram_data C; loader_text := text; ROM_STACK_START := ROM_STACK_START C; esp_cpu_sp := esp_cpu_sp C;
  efuse_chip_revision := efuse_chip_revision C; disable_wafer_version_major := disable_wafer_version_major C;
  efuse_blk_version := efuse_blk_version C; disable_blk_version_major := disable_blk_version_major C;
  dbgr_is_attached := dbgr_is_attached C; deep_sleep_reset := deep_sleep_reset C |}.

(** The code on a flash [f] through a window of [size] bytes. *)
Abbreviation on_flash f size := (boot_image_flash f size valid_any).
Abbreviation app_part := (Some (mkPos 0x10000 0x100000)).

(** A header with seventeen empty segments: [esp_image_get_metadata] does not verify the
    count, and writes behind the array of sixteen. *)
Definition flash_17 : mem := bytes_at 0x10000 (header_with 17 0 0) (λ _, 0).

Theorem metadata_overrun :
  @esp_image_get_metadata _ _ (on_flash flash_17 boot_size) _ (cfg32 true) app_part true state0 = MemFault ∧
  wp (@esp_image_verify _ _ (on_flash flash_17 boot_size) _ (cfg32 true) ESP_IMAGE_VERIFY app_part true) state0 (λ r _, r = ESP_ERR_IMAGE_INVALID).
Proof. split; by vm_compute. Qed.

(** After an image was verified, loading without verification copies the segments plainly
    and then unmasks them all the same. *)
Definition verify_then_load : M (img boot_flash engine) (esp_err_t * esp_err_t * list Z) :=
  e1 ← @esp_image_verify _ _ (on_flash (flash_with 0x10000 file32) boot_size) _ (cfg32 true) ESP_IMAGE_VERIFY app_part true;
  e2 ← @bootloader_load_image_no_verify _ _ (on_flash (flash_with 0x10000 file32) boot_size) _ (cfg32 true) app_part true;
  s ← get;
  mret (e1, e2, ldbytes (ram s) 0x3FFB0000 8).

Theorem no_validate_garbles :
  wp verify_then_load state0 (λ r _, r = (ESP_OK, ESP_OK, [0xA4; 0xA7; 0xA6; 0xA1; 0x41; 0x35; 0x25; 0x19])).
Proof. by vm_compute. Qed.

(** The first segment of an ESP32-S3 image, in two pieces when two pages can be mapped: the
    revisions of the eFuse block are then read from data of the second piece too. *)
Definition flash_pieces : mem :=
  bytes_at 0x10000 (header_with 1 9 0) (bytes_at 0x10018 [0x20; 0; 0; 0x3C; 0; 1; 1; 0]
    (λ x, if x =? 0x200D0 then 5 else if x =? 0x2012F then 0xEA else 0)).

Theorem efuse_check_of_pieces :
  wp (@esp_image_verify _ _ (on_flash flash_pieces 0x40000) _ cfg_s3 ESP_IMAGE_VERIFY app_part true) state0 (λ r _, r = ESP_OK) ∧
  wp (@esp_image_verify _ _ (on_flash flash_pieces 0x20000) _ cfg_s3 ESP_IMAGE_VERIFY app_part true) state0 (λ r _, r = ESP_FAIL).
Proof. split; by vm_compute. Qed.

(** A page size of [2 ^ 200] in the descriptor of the application: the code shifts by the
    byte that it read. *)
Definition flash_page_size : mem :=
  bytes_at 0x10000 (header_with 1 9 0) (bytes_at 0x10018 [0x20; 0; 0; 0x3C; 0; 1; 0; 0]
    (bytes_at 0x10020 [0x32; 0x54; 0xCD; 0xAB] (λ x, if x =? 0x100D4 then 200 else 0))).

Theorem page_size_shift :
  @esp_image_verify _ _ (on_flash flash_page_size boot_size) _ (with_cfg cfg_s3 (loader_text cfg_s3) true) ESP_IMAGE_VERIFY app_part true state0 = MemFault.
Proof. by vm_compute. Qed.

(** A segment that ends at [0x80000004]: as signed numbers its end is before its start. *)
Definition flash_wrap : mem :=
  bytes_at 0x10000 (header_with 1 0 0) (bytes_at 0x10018 [0xFC; 0xFF; 0xFF; 0x7F; 8; 0; 0; 0] (λ _, 0)).

Theorem load_range_assertion :
  @bootloader_load_image _ _ (on_flash flash_wrap boot_size) _ (cfg32 true) false app_part true state0 = AssertFailed.
Proof. by vm_compute. Qed.

(** Where the words of D/IRAM are in reverse order, the range on the other bus is one word
    too low: the first word of the load, [0x400A0FFC] there, is not looked at. *)
Theorem inverted_range_shifted :
  diram_dram_to_iram (cfg32 true) 0x3FFFF000 = 0x400A0FFC ∧
  wp (verify_load_addresses (with_cfg (cfg32 true) (mkRegion 0x400A0FFC 0x400A1000) false) 0x3FFFF000 0x3FFFF010) state0 (λ r _, r = true).
Proof. split; by vm_compute. Qed.
