(* ===== verification/ImageOta.v ===== *)
(** * Updates and images together

    [OtaWrite.v] takes the verification of an image as a parameter.  Here the parameter is
    [esp_image_verify] as [Image.v] has it, in an application on the flash driver: an
    update that succeeds has put an image of the format into the partition. *)
From Stdlib Require Import ZArith Lia.
From stdpp Require Import base numbers option list gmap sets.
From S2P Require Import Prelude Ota OtaSpec OtaBoot Flash Partition PartitionSpec PartitionAccess PartitionTable PartitionRegion OtaWrite OtaWriteSpec OtaUpdate.
From S2P Require Import ImageFlash ImageSha ImageShaSpec Image ImageSpec ImageFormat ImageProps ImageCases.

Open Scope Z_scope.

Section update.
Context {F H : Type} `{!FlashDriver F, !FlashLaws F, !WorkingFlash F} `{!Sha256} `{!ShaDriver H} `{!ShaLaws H}.
Context (C : img_cfg) (h0 : H).

(** The state in which the application calls [esp_image_verify]: nothing is mapped, and no
    digest is open in [h0]. *)
Definition verify_state (offset : Z) (f : F) : img (app_flash F) H :=
  mkImg (mkApp f false) h0 metadata0 0 (λ _, 0) (0, 0) [] offset.

(** The call of [esp_image_verify] in [ota_verify_partition].  Verifying reads the flash and
    does not write it. *)
Definition verify_image (offset : Z) (f : F) (address size : Z) : bool :=
  match esp_image_verify C ESP_IMAGE_VERIFY (Some (mkPos address size)) true (verify_state offset f) with
  | Done _ r => bool_decide (r = ESP_OK)
  | _ => false
  end.

Lemma verify_image_found offset f a n :
  esp32_build C → sha_idle h0 → 0 ≤ spi_flash_mmap_get_free_pages f → 0 ≤ a < 2 ^ 31 → verify_image offset f a n = true →
  ∃ d, image_found C (seen esp_flash_encryption_enabled f esp_flash_default_chip) offset a n d.
Proof.
  intros Hb Hh Hp Ha. unfold verify_image.
  pose proof (wp_image_verify C Hb ESP_IMAGE_VERIFY a n (verify_state offset f)) as Hwp.
  destruct (wp_done _ _ _ (Hwp ltac:(by split_and!) (or_introl eq_refl) Ha)) as (r & s' & -> & _ & _ & _ & _ & Hok).
  intros Hr%bool_decide_eq_true. by exists (data s'); apply Hok.
Qed.

(** C15: an update with [esp_ota_begin], any pieces of an image and [esp_ota_end] that
    succeeds has put the pieces into the partition one after the other, and what is there
    is an image of the format for this chip, with its checksum and digest, that fits into
    the partition; the partition is not the running one.  It succeeds or not, no entry of an
    update is left, and the flash keeps its content outside of the partition and of the
    otadata partition.  Of otadata, whose two entries are [otasel], at most the entry that
    is not active is erased: the active one, by which the device boots, stays.  The
    conditions: the partition and the running one are registered and memory is there for the
    entry ([ready]), the flash works, the pieces fit the announced size, and with erasing as
    it goes and flash encryption the pieces together do not end within the first 16 bytes of
    a sector (then the last block goes to a sector that was not erased:
    [ota_end_writes_unerased]). *)
Theorem ota_update_valid_image md5 E phys_offs s p r n image_size x y chunks :
  esp32_build C → sha_idle h0 → 0 ≤ spi_flash_mmap_get_free_pages (fl (parts s)) →
  ready E s p r n x y → flash_chip (info x) = esp_flash_default_chip → address (info x) < 2 ^ 31 →
  boot_at C (bootloader_partition_offset s) (address (info x)) = false →
  0 ≤ image_size < 2 ^ 32 → Forall (Forall is_byte) chunks → zlen (concat chunks) + 16 < 2 ^ 31 →
  (if image_size =? OTA_WITH_SEQUENTIAL_WRITES
   then esp_flash_encryption_enabled = true → ¬ 0 < zlen (concat chunks) mod 4096 < 16
   else image_size = 0 ∨ image_size = OTA_SIZE_UNKNOWN ∨ zlen (concat chunks) ≤ image_size < 2 ^ 31) →
  wp (ota_update md5 E (verify_image (bootloader_partition_offset s)) phys_offs (ESP_PRIMARY_BOOTLOADER_OFFSET C) p image_size chunks) s (λ e s',
    s_ota_ops_entries s' = s_ota_ops_entries s ∧ heap (parts s') = heap (parts s) ∧
    flash_eq_but (flash_chip (info x)) (address (info x)) (size (info x)) (fl (parts s)) (fl (parts s')) ∧
    inactive_erased E (otadata (otasel s)) (otadata (otasel s')) ∧
    (e = ESP_OK → p ≠ r ∧ let c := seen (encrypted (info x)) (fl (parts s')) (flash_chip (info x)) in
       ldbytes c (address (info x)) (zlen (concat chunks)) = concat chunks ∧
       ∃ hdr segs pad, wf_image C (bootloader_partition_offset s) (address (info x)) hdr segs pad ∧
         zlen (image_file hdr segs pad) ≤ size (info x) ∧
         ldbytes c (address (info x)) (zlen (image_file hdr segs pad)) = image_file hdr segs pad)).
Proof.
  intros Hb Hh Hp Hready Hchip Hadr Hboot Hsz Hbytes Hlen Hcond.
  destruct (wf_items _ (ready_wf _ _ _ _ _ _ _ Hready) p (ready_in _ _ _ _ _ _ _ Hready)) as (x' & Hx & Hok).
  rewrite (ready_heap _ _ _ _ _ _ _ Hready) in Hx. injection Hx as <-.
  eapply wp_mono; [by eapply ota_update_writes_image|]. intros e s' (Hent & Hheap & Hbut & Hsel & Him).
  split_and!; [done|done|done|done|]. intros He. destruct (Him He) as (Hpr & Hdata & Hver). split; [done|]. cbv zeta. split; [done|].
  assert (0 ≤ spi_flash_mmap_get_free_pages (fl (parts s'))) as Hp' by (by destruct Hbut as [-> _]).
  pose proof (ok_address _ Hok) as Hadr0.
  destruct (verify_image_found _ _ _ _ Hb Hh Hp' (conj Hadr0 Hadr) Hver) as (d & hdr & segs & pad & Hwf & _ & Hfile & Hfit & _).
  exists hdr, segs, pad. rewrite (ready_encrypted _ _ _ _ _ _ _ Hready), Hchip. by split_and!; [| |apply Hfile].
Qed.
End update.

(** ** An update on a NOR flash *)
#[local] Existing Instance mix_sha.

(** The image of [ImageCases.v] in three pieces, into the second OTA slot. *)
Definition mbedtls_ready : mbedtls := mkMbedtls ∅ 1 [] [].
Definition file_chunks : list (list Z) := [take 30 file32; take 7 (drop 30 file32); drop 37 file32].

Definition image_update : OW nor esp_err_t :=
  ota_update example_md5 example_env (verify_image (cfg32 false) mbedtls_ready 0x1000) None 0x1000 2 OTA_WITH_SEQUENTIAL_WRITES file_chunks.

Lemma ota_update_valid_image_witness :
  wp image_update example_ws (λ e s', e = ESP_OK) ∧
  wp image_update example_ws (λ e s', s_ota_ops_entries s' = [] ∧
    (e = ESP_OK → ∃ hdr segs pad, wf_image (cfg32 false) 0x1000 0x20000 hdr segs pad ∧ zlen (image_file hdr segs pad) ≤ 0x10000 ∧
      ldbytes (seen true (fl (parts s')) 0) 0x20000 (zlen (image_file hdr segs pad)) = image_file hdr segs pad)).
Proof.
  split; [by vm_compute|]. unfold image_update.
  refine (wp_mono _ _ _ _ (ota_update_valid_image (cfg32 false) mbedtls_ready example_md5 example_env None example_ws 2 1 2
    OTA_WITH_SEQUENTIAL_WRITES item2 item1 file_chunks _ _ _ _ _ _ _ _ _ _ _) _).
  - apply cfg32_build.
  - by split.
  - done.
  - apply example_ready.
  - done.
  - done.
  - done.
  - unfold OTA_WITH_SEQUENTIAL_WRITES. lia.
  - apply (bool_decide_eq_true_1 (Forall (Forall (λ b, 0 ≤ b < 256)) file_chunks)). vm_compute. reflexivity.
  - vm_compute. reflexivity.
  - cbn [Z.eqb]. intros _. vm_compute. intros [_ Hlt]. discriminate Hlt.
  - cbv beta. intros e s' (Hent & _ & _ & _ & Him). split; [exact Hent|]. intros He. exact (proj2 (proj2 (Him He))).
Defined.
