(* ===== verification/EthPhy.v ===== *)
(** * The Ethernet driver: state, mediator and PHY

    Model of the mediator functions of [components/esp_eth/src/esp_eth.c], of
    [components/esp_eth/src/phy/esp_eth_phy_802_3.c] and of
    [components/esp_eth/src/spi/dm9051/esp_eth_phy_dm9051.c].  The functions of the MAC
    object are the class [EthMac], of which the driver in [Dm9051] is an instance.  A
    register of the PHY is a word, its fields are bits. *)
From Stdlib Require Import ZArith Lia.
From stdpp Require Import base numbers option list.
From S2P Require Import Prelude Dm9051.

Open Scope Z_scope.

#[export] Instance eth_link_eq_dec : EqDecision eth_link_t.
Proof. solve_decision. Defined.
#[export] Instance eth_speed_eq_dec : EqDecision eth_speed_t.
Proof. solve_decision. Defined.
#[export] Instance eth_duplex_eq_dec : EqDecision eth_duplex_t.
Proof. solve_decision. Defined.

Inductive esp_eth_fsm_t : Type := ESP_ETH_FSM_STOP | ESP_ETH_FSM_START.
#[export] Instance fsm_eq_dec : EqDecision esp_eth_fsm_t.
Proof. solve_decision. Defined.

Inductive eth_event_t : Type :=
| ETHERNET_EVENT_START | ETHERNET_EVENT_STOP | ETHERNET_EVENT_CONNECTED | ETHERNET_EVENT_DISCONNECTED.

Inductive eth_phy_autoneg_cmd_t : Type :=
| ESP_ETH_PHY_AUTONEGO_RESTART | ESP_ETH_PHY_AUTONEGO_EN | ESP_ETH_PHY_AUTONEGO_DIS | ESP_ETH_PHY_AUTONEGO_G_STAT.

(** ** Registers *)

Definition ETH_PHY_BMCR_REG_ADDR : Z := 0x00.
Definition ETH_PHY_BMSR_REG_ADDR : Z := 0x01.
Definition ETH_PHY_IDR1_REG_ADDR : Z := 0x02.
Definition ETH_PHY_IDR2_REG_ADDR : Z := 0x03.
Definition ETH_PHY_ANAR_REG_ADDR : Z := 0x04.
Definition ETH_PHY_ANLPAR_REG_ADDR : Z := 0x05.
Definition ETH_PHY_MMDCTRL_REG_ADDR : Z := 0x0D.
Definition ETH_PHY_MMDAD_REG_ADDR : Z := 0x0E.
Definition ETH_PHY_DSCR_REG_ADDR : Z := 0x10.
Definition ETH_PHY_SCR_REG_ADDR : Z := 0x14.

(** Bits of BMCR, BMSR, ANAR and ANLPAR, DSCR and SCR. *)
Definition duplex_mode : Z := 8.
Definition restart_auto_nego : Z := 9.
Definition power_down : Z := 11.
Definition en_auto_nego : Z := 12.
Definition speed_select : Z := 13.
Definition en_loopback : Z := 14.
Definition reset_bit : Z := 15.
Definition bmsr_link_status : Z := 2.
Definition auto_nego_complete : Z := 5.
Definition base10_t : Z := 5.
Definition base10_t_fd : Z := 6.
Definition base100_tx : Z := 7.
Definition base100_tx_fd : Z := 8.
Definition symmetric_pause : Z := 10.
Definition asymmetric_pause : Z := 11.
Definition smrst : Z := 3.
Definition autoneg_lpbk : Z := 6.

Definition bit (v n : Z) : bool := Z.testbit v n.
Definition put_bit (v n : Z) (b : bool) : Z := if b then Z.setbit v n else Z.clearbit v n.

Definition ESP_ETH_PHY_ADDR_AUTO : Z := -1.
Definition PHY_RESET_ASSERTION_TIME_US : Z := 100.
Definition ESP_ETH_NO_POST_HW_RESET_DELAY : Z := -1.

(** ** The MAC object

    The answers of the mediator to the calls that the MAC makes in its [init] are
    arguments of it; a function that may be missing is an option.  A read gives what it
    stores, if anything. *)
Class EthMac (X : Type) : Type := {
  mac_set_mediator : bool → M X esp_err_t;
  mac_init : esp_err_t → esp_err_t → M X esp_err_t;
  mac_deinit : esp_err_t → M X esp_err_t;
  mac_set_link : eth_link_t → M X esp_err_t;
  mac_set_speed : eth_speed_t → M X esp_err_t;
  mac_set_duplex : eth_duplex_t → M X esp_err_t;
  mac_set_peer_pause_ability : Z → M X esp_err_t;
  mac_read_phy_reg : Z → Z → M X (esp_err_t * option Z);
  mac_write_phy_reg : Z → Z → Z → M X esp_err_t;
  mac_transmit : list Z → M X esp_err_t;
  mac_transmit_ctrl_vargs : option (list (list Z) → M X esp_err_t);
  mac_set_addr : list Z → M X esp_err_t;
  mac_get_addr : M X (esp_err_t * list Z);
  mac_set_promiscuous : bool → M X esp_err_t;
  mac_set_all_multicast : option (bool → M X esp_err_t);
  mac_enable_flow_ctrl : bool → M X esp_err_t;
  mac_add_mac_filter : option (list Z → M X esp_err_t);
  mac_rm_mac_filter : option (list Z → M X esp_err_t)
}.

(** ** State *)

(** [check_link_timer] is whether the timer exists and is armed.  An input function is
    its address; a callback of the user is its result. *)
Record esp_eth_driver_t : Type := mkDriver {
  check_link_timer : option bool;
  check_link_period_ms : Z;
  auto_nego_en : bool;
  speed : eth_speed_t;
  duplex : eth_duplex_t;
  link : eth_link_t;
  ref_count : Z;
  priv : Z;
  fsm : esp_eth_fsm_t;
  transmit_mutex : option bool;
  input_fun : option Z;
  input_info_fun : option Z;
  on_lowlevel_init_done : option esp_err_t;
  on_lowlevel_deinit_done : option esp_err_t
}.

Record phy_802_3_t : Type := mkPhy {
  phy_eth : bool;
  phy_addr : Z;
  reset_timeout_ms : Z;
  autonego_timeout_ms : Z;
  link_status : eth_link_t;
  reset_gpio_num : Z;
  hw_reset_assert_time_us : Z;
  post_hw_reset_delay_ms : Z
}.

(** [driver] is none when it is not allocated.  [answers] are the results to come of
    allocations and of taking the transmit mutex, [event_answers] those of
    [esp_event_post] and [input_answers] those of an input function; [events] were posted,
    [inputs] are the frames passed to an input function or freed, and [levels] those of
    the reset pin. *)
Record eth_sys (X : Type) : Type := mkSys {
  driver : option esp_eth_driver_t;
  phy : phy_802_3_t;
  mac : X;
  answers : list bool;
  event_answers : list esp_err_t;
  input_answers : list esp_err_t;
  events : list eth_event_t;
  inputs : list (option Z * list Z);
  levels : list Z
}.
Arguments mkSys {X}.
Arguments driver {X}.
Arguments phy {X}.
Arguments mac {X}.
Arguments answers {X}.
Arguments event_answers {X}.
Arguments input_answers {X}.
Arguments events {X}.
Arguments inputs {X}.
Arguments levels {X}.

Section eth.
Context {X : Type} `{!EthMac X}.
Abbreviation sys := (eth_sys X).
Definition ES (A : Type) : Type := M sys A.

Definition with_driver (d : option esp_eth_driver_t) (s : sys) : sys :=
  mkSys d (phy s) (mac s) (answers s) (event_answers s) (input_answers s) (events s) (inputs s) (levels s).
Definition with_phy (p : phy_802_3_t) (s : sys) : sys :=
  mkSys (driver s) p (mac s) (answers s) (event_answers s) (input_answers s) (events s) (inputs s) (levels s).
Definition with_mac (x : X) (s : sys) : sys :=
  mkSys (driver s) (phy s) x (answers s) (event_answers s) (input_answers s) (events s) (inputs s) (levels s).
Definition with_answers (l : list bool) (s : sys) : sys :=
  mkSys (driver s) (phy s) (mac s) l (event_answers s) (input_answers s) (events s) (inputs s) (levels s).

Definition on_mac {A : Type} (m : M X A) : ES A := zoom mac with_mac m.

(** The driver behind a handle, which is null or points to the driver. *)
Definition the_driver : ES esp_eth_driver_t := λ s,
  match driver s with Some d => Done s d | None => MemFault end.
Definition mod_driver (f : esp_eth_driver_t → esp_eth_driver_t) : ES unit :=
  d ← the_driver; modify (with_driver (Some (f d))).
Definition mod_phy (f : phy_802_3_t → phy_802_3_t) : ES unit := modify (λ s, with_phy (f (phy s)) s).

(** Fields of the driver. *)
Definition set_timer (t : option bool) (d : esp_eth_driver_t) : esp_eth_driver_t :=
  mkDriver t (check_link_period_ms d) (auto_nego_en d) (speed d) (duplex d) (link d) (ref_count d) (priv d) (fsm d)
    (transmit_mutex d) (input_fun d) (input_info_fun d) (on_lowlevel_init_done d) (on_lowlevel_deinit_done d).
Definition set_auto_nego (b : bool) (d : esp_eth_driver_t) : esp_eth_driver_t :=
  mkDriver (check_link_timer d) (check_link_period_ms d) b (speed d) (duplex d) (link d) (ref_count d) (priv d) (fsm d)
    (transmit_mutex d) (input_fun d) (input_info_fun d) (on_lowlevel_init_done d) (on_lowlevel_deinit_done d).
Definition set_speed (v : eth_speed_t) (d : esp_eth_driver_t) : esp_eth_driver_t :=
  mkDriver (check_link_timer d) (check_link_period_ms d) (auto_nego_en d) v (duplex d) (link d) (ref_count d) (priv d) (fsm d)
    (transmit_mutex d) (input_fun d) (input_info_fun d) (on_lowlevel_init_done d) (on_lowlevel_deinit_done d).
Definition set_duplex (v : eth_duplex_t) (d : esp_eth_driver_t) : esp_eth_driver_t :=
  mkDriver (check_link_timer d) (check_link_period_ms d) (auto_nego_en d) (speed d) v (link d) (ref_count d) (priv d) (fsm d)
    (transmit_mutex d) (input_fun d) (input_info_fun d) (on_lowlevel_init_done d) (on_lowlevel_deinit_done d).
Definition set_link (v : eth_link_t) (d : esp_eth_driver_t) : esp_eth_driver_t :=
  mkDriver (check_link_timer d) (check_link_period_ms d) (auto_nego_en d) (speed d) (duplex d) v (ref_count d) (priv d) (fsm d)
    (transmit_mutex d) (input_fun d) (input_info_fun d) (on_lowlevel_init_done d) (on_lowlevel_deinit_done d).
Definition set_ref_count (n : Z) (d : esp_eth_driver_t) : esp_eth_driver_t :=
  mkDriver (check_link_timer d) (check_link_period_ms d) (auto_nego_en d) (speed d) (duplex d) (link d) n (priv d) (fsm d)
    (transmit_mutex d) (input_fun d) (input_info_fun d) (on_lowlevel_init_done d) (on_lowlevel_deinit_done d).
Definition set_fsm (v : esp_eth_fsm_t) (d : esp_eth_driver_t) : esp_eth_driver_t :=
  mkDriver (check_link_timer d) (check_link_period_ms d) (auto_nego_en d) (speed d) (duplex d) (link d) (ref_count d) (priv d) v
    (transmit_mutex d) (input_fun d) (input_info_fun d) (on_lowlevel_init_done d) (on_lowlevel_deinit_done d).
Definition set_mutex (m : option bool) (d : esp_eth_driver_t) : esp_eth_driver_t :=
  mkDriver (check_link_timer d) (check_link_period_ms d) (auto_nego_en d) (speed d) (duplex d) (link d) (ref_count d) (priv d) (fsm d)
    m (input_fun d) (input_info_fun d) (on_lowlevel_init_done d) (on_lowlevel_deinit_done d).
Definition set_input (i ii : option Z) (p : Z) (d : esp_eth_driver_t) : esp_eth_driver_t :=
  mkDriver (check_link_timer d) (check_link_period_ms d) (auto_nego_en d) (speed d) (duplex d) (link d) (ref_count d) p (fsm d)
    (transmit_mutex d) i ii (on_lowlevel_init_done d) (on_lowlevel_deinit_done d).

(** Fields of the PHY. *)
Definition set_link_status (v : eth_link_t) (p : phy_802_3_t) : phy_802_3_t :=
  mkPhy (phy_eth p) (phy_addr p) (reset_timeout_ms p) (autonego_timeout_ms p) v (reset_gpio_num p) (hw_reset_assert_time_us p)
    (post_hw_reset_delay_ms p).
Definition set_phy_addr (a : Z) (p : phy_802_3_t) : phy_802_3_t :=
  mkPhy (phy_eth p) a (reset_timeout_ms p) (autonego_timeout_ms p) (link_status p) (reset_gpio_num p) (hw_reset_assert_time_us p)
    (post_hw_reset_delay_ms p).
Definition set_phy_eth (b : bool) (p : phy_802_3_t) : phy_802_3_t :=
  mkPhy b (phy_addr p) (reset_timeout_ms p) (autonego_timeout_ms p) (link_status p) (reset_gpio_num p) (hw_reset_assert_time_us p)
    (post_hw_reset_delay_ms p).

(** [ESP_GOTO_ON_ERROR] in functions that return the error. *)
Definition try_ (m k : ES esp_err_t) : ES esp_err_t :=
  e ← m; if decide (e = ESP_OK) then k else mret e.
Definition try_val {A : Type} (m : ES (esp_err_t * A)) (k : A → ES esp_err_t) : ES esp_err_t :=
  r ← m; if decide (r.1 = ESP_OK) then k r.2 else mret r.1.

(** ** The mediator

    [custom_read] and [custom_write] are the functions of the user for the registers of
    the PHY. *)
Context (custom_read : option (Z → Z → ES (esp_err_t * option Z))) (custom_write : option (Z → Z → Z → ES esp_err_t)).

Definition eth_phy_reg_read (phy_addr phy_reg : Z) : ES (esp_err_t * option Z) :=
  _ ← the_driver;
  match custom_read with
  | Some f => f phy_addr phy_reg
  | None => on_mac (mac_read_phy_reg phy_addr phy_reg)
  end.

Definition eth_phy_reg_write (phy_addr phy_reg reg_value : Z) : ES esp_err_t :=
  _ ← the_driver;
  match custom_write with
  | Some f => f phy_addr phy_reg reg_value
  | None => on_mac (mac_write_phy_reg phy_addr phy_reg reg_value)
  end.

(** The input function [f] gets the frame. *)
Definition call_input (f : Z) (buffer : list Z) : ES esp_err_t := λ s,
  let s' := mkSys (driver s) (phy s) (mac s) (answers s) (event_answers s) (tail (input_answers s)) (events s)
              (inputs s ++ [(Some f, buffer)]) (levels s) in
  Done s' (default ESP_OK (head (input_answers s))).
Definition free_buffer (buffer : list Z) : ES unit :=
  modify (λ s, mkSys (driver s) (phy s) (mac s) (answers s) (event_answers s) (input_answers s) (events s)
                 (inputs s ++ [(None, buffer)]) (levels s)).

Definition eth_stack_input (buffer : list Z) : ES esp_err_t :=
  d ← the_driver;
  match input_fun d, input_info_fun d with
  | Some f, _ => call_input f buffer
  | None, Some f => call_input f buffer
  | None, None => free_buffer buffer;; mret ESP_OK
  end.

Definition eth_stack_input_info (buffer : list Z) : ES esp_err_t :=
  d ← the_driver;
  match input_info_fun d, input_fun d with
  | Some f, _ => call_input f buffer
  | None, Some f => call_input f buffer
  | None, None => free_buffer buffer;; mret ESP_OK
  end.

(** [esp_event_post], which does not wait. *)
Definition eth_event_post (e : eth_event_t) : ES esp_err_t := λ s,
  let r := default ESP_OK (head (event_answers s)) in
  let evs := if decide (r = ESP_OK) then events s ++ [e] else events s in
  Done (mkSys (driver s) (phy s) (mac s) (answers s) (tail (event_answers s)) (input_answers s) evs (inputs s) (levels s)) r.

(** [eth_on_state_changed], by its state. *)
Definition eth_on_llinit : ES esp_err_t := d ← the_driver; mret (default ESP_OK (on_lowlevel_init_done d)).
Definition eth_on_deinit : ES esp_err_t := d ← the_driver; mret (default ESP_OK (on_lowlevel_deinit_done d)).
Definition eth_on_link (l : eth_link_t) : ES esp_err_t :=
  _ ← the_driver;
  try_ (on_mac (mac_set_link l))
    (mod_driver (set_link l);;
     match l with
     | ETH_LINK_UP => try_ (eth_event_post ETHERNET_EVENT_CONNECTED) (mret ESP_OK)
     | ETH_LINK_DOWN => try_ (eth_event_post ETHERNET_EVENT_DISCONNECTED) (mret ESP_OK)
     | ETH_LINK_OTHER => mret ESP_OK
     end).
Definition eth_on_speed (v : eth_speed_t) : ES esp_err_t :=
  _ ← the_driver; try_ (on_mac (mac_set_speed v)) (mod_driver (set_speed v);; mret ESP_OK).
Definition eth_on_duplex (v : eth_duplex_t) : ES esp_err_t :=
  _ ← the_driver; try_ (on_mac (mac_set_duplex v)) (mod_driver (set_duplex v);; mret ESP_OK).
Definition eth_on_pause (ability : Z) : ES esp_err_t :=
  _ ← the_driver; try_ (on_mac (mac_set_peer_pause_ability ability)) (mret ESP_OK).

(** ** [esp_eth_phy_802_3.c] *)

(** A register of the PHY, through the mediator, which must be set; a successful read
    that stores nothing is a use of an uninitialised variable. *)
Definition read_reg (reg : Z) (k : Z → ES esp_err_t) : ES esp_err_t :=
  s ← get;
  if negb (phy_eth (phy s)) then fault
  else try_val (eth_phy_reg_read (phy_addr (phy s)) reg) (λ v, match v with Some v => k v | None => fault end).
Definition write_reg (reg v : Z) (k : ES esp_err_t) : ES esp_err_t :=
  s ← get;
  if negb (phy_eth (phy s)) then fault else try_ (eth_phy_reg_write (phy_addr (phy s)) reg v) k.

Definition esp_eth_phy_802_3_set_mediator (m : bool) : ES esp_err_t :=
  if negb m then mret ESP_ERR_INVALID_ARG else mod_phy (set_phy_eth true);; mret ESP_OK.

(** At most [n] polls of a register until [done]. *)
Fixpoint poll_reg (n : nat) (reg : Z) (done : Z → bool) (timeout k : ES esp_err_t) : ES esp_err_t :=
  match n with
  | O => timeout
  | S n' => read_reg reg (λ v, if done v then k else poll_reg n' reg done timeout k)
  end.

Definition esp_eth_phy_802_3_reset : ES esp_err_t :=
  mod_phy (set_link_status ETH_LINK_DOWN);;
  s ← get;
  write_reg ETH_PHY_BMCR_REG_ADDR (put_bit 0 reset_bit true)
    (poll_reg (Z.to_nat (reset_timeout_ms (phy s) / 10)) ETH_PHY_BMCR_REG_ADDR (λ v, negb (bit v reset_bit)) (mret ESP_FAIL) (mret ESP_OK)).

(** The result is the error; [stat] stores the status. *)
Definition esp_eth_phy_802_3_autonego_ctrl (cmd : eth_phy_autoneg_cmd_t) (stat : bool → ES unit) : ES esp_err_t :=
  let finish bmcr := stat (bit bmcr en_auto_nego);; mret ESP_OK in
  read_reg ETH_PHY_BMCR_REG_ADDR (λ bmcr,
    match cmd with
    | ESP_ETH_PHY_AUTONEGO_RESTART =>
        if negb (bit bmcr en_auto_nego) then mret ESP_ERR_INVALID_STATE
        else
          mod_phy (set_link_status ETH_LINK_DOWN);;
          let bmcr := put_bit bmcr restart_auto_nego true in
          s ← get;
          write_reg ETH_PHY_BMCR_REG_ADDR bmcr
            (poll_reg (Z.to_nat (autonego_timeout_ms (phy s) / 100)) ETH_PHY_BMSR_REG_ADDR (λ v, bit v auto_nego_complete)
               (finish bmcr) (finish bmcr))
    | ESP_ETH_PHY_AUTONEGO_DIS =>
        if bit bmcr en_auto_nego then
          write_reg ETH_PHY_BMCR_REG_ADDR (put_bit bmcr en_auto_nego false)
            (read_reg ETH_PHY_BMCR_REG_ADDR (λ bmcr, if bit bmcr en_auto_nego then mret ESP_FAIL else finish bmcr))
        else finish bmcr
    | ESP_ETH_PHY_AUTONEGO_EN =>
        if negb (bit bmcr en_auto_nego) then
          write_reg ETH_PHY_BMCR_REG_ADDR (put_bit bmcr en_auto_nego true)
            (read_reg ETH_PHY_BMCR_REG_ADDR (λ bmcr, if bit bmcr en_auto_nego then finish bmcr else mret ESP_FAIL))
        else finish bmcr
    | ESP_ETH_PHY_AUTONEGO_G_STAT => finish bmcr
    end).

(** Speed and duplex that both sides advertise. *)
Definition negotiated (anar anlpar : Z) : option (eth_speed_t * eth_duplex_t) :=
  if bit anar base100_tx_fd && bit anlpar base100_tx_fd then Some (ETH_SPEED_100M, ETH_DUPLEX_FULL)
  else if bit anar base100_tx && bit anlpar base100_tx then Some (ETH_SPEED_100M, ETH_DUPLEX_HALF)
  else if bit anar base10_t_fd && bit anlpar base10_t_fd then Some (ETH_SPEED_10M, ETH_DUPLEX_FULL)
  else if bit anar base10_t && bit anlpar base10_t then Some (ETH_SPEED_10M, ETH_DUPLEX_HALF)
  else None.

Definition selected_mode (bmcr : Z) : eth_speed_t * eth_duplex_t :=
  (if bit bmcr speed_select then ETH_SPEED_100M else ETH_SPEED_10M,
   if bit bmcr duplex_mode then ETH_DUPLEX_FULL else ETH_DUPLEX_HALF).

(** Report a mode and the pause ability of the peer. *)
Definition report_mode (mode : eth_speed_t * eth_duplex_t) (anlpar : Z) (k : ES esp_err_t) : ES esp_err_t :=
  try_ (eth_on_speed mode.1)
    (try_ (eth_on_duplex mode.2)
       (try_ (eth_on_pause (if bool_decide (mode.2 = ETH_DUPLEX_FULL) && bit anlpar symmetric_pause then 1 else 0)) k)).

Definition report_link (l : eth_link_t) : ES esp_err_t :=
  try_ (eth_on_link l) (mod_phy (set_link_status l);; mret ESP_OK).

Definition link_of (bmsr : Z) : eth_link_t := if bit bmsr bmsr_link_status then ETH_LINK_UP else ETH_LINK_DOWN.

Definition esp_eth_phy_802_3_updt_link_dup_spd : ES esp_err_t :=
  read_reg ETH_PHY_BMSR_REG_ADDR (λ bmsr,
    let l := link_of bmsr in
    s ← get;
    if decide (link_status (phy s) = l) then mret ESP_OK
    else if decide (l = ETH_LINK_UP) then
      read_reg ETH_PHY_BMCR_REG_ADDR (λ bmcr,
        read_reg ETH_PHY_ANAR_REG_ADDR (λ anar,
          read_reg ETH_PHY_ANLPAR_REG_ADDR (λ anlpar,
            match (if bit bmcr en_auto_nego then negotiated anar anlpar else Some (selected_mode bmcr)) with
            | None => mret ESP_FAIL
            | Some mode => report_mode mode anlpar (report_link l)
            end)))
    else report_link l).

Definition esp_eth_phy_802_3_pwrctl (enable : bool) : ES esp_err_t :=
  read_reg ETH_PHY_BMCR_REG_ADDR (λ bmcr,
    s ← get;
    write_reg ETH_PHY_BMCR_REG_ADDR (put_bit bmcr power_down (negb enable))
      (if negb enable then
         read_reg ETH_PHY_BMCR_REG_ADDR (λ bmcr, if bit bmcr power_down then mret ESP_OK else mret ESP_FAIL)
       else
         poll_reg (Z.to_nat (reset_timeout_ms (phy s) / 10)) ETH_PHY_BMCR_REG_ADDR (λ v, negb (bit v power_down)) (mret ESP_FAIL) (mret ESP_OK))).

Definition esp_eth_phy_802_3_set_addr (a : Z) : ES esp_err_t := mod_phy (set_phy_addr a);; mret ESP_OK.
Definition esp_eth_phy_802_3_get_addr (out : bool) : ES (esp_err_t * Z) :=
  s ← get; mret (if negb out then (ESP_ERR_INVALID_ARG, 0) else (ESP_OK, phy_addr (phy s))).

Definition esp_eth_phy_802_3_advertise_pause_ability (ability : Z) : ES esp_err_t :=
  read_reg ETH_PHY_ANAR_REG_ADDR (λ anar,
    let b := negb (ability =? 0) in
    write_reg ETH_PHY_ANAR_REG_ADDR (put_bit (put_bit anar asymmetric_pause b) symmetric_pause b) (mret ESP_OK)).

Definition esp_eth_phy_802_3_loopback (enable : bool) : ES esp_err_t :=
  read_reg ETH_PHY_BMCR_REG_ADDR (λ bmcr, write_reg ETH_PHY_BMCR_REG_ADDR (put_bit bmcr en_loopback enable) (mret ESP_OK)).

Definition esp_eth_phy_802_3_set_speed (v : eth_speed_t) : ES esp_err_t :=
  mod_phy (set_link_status ETH_LINK_DOWN);;
  read_reg ETH_PHY_BMCR_REG_ADDR (λ bmcr,
    write_reg ETH_PHY_BMCR_REG_ADDR (put_bit bmcr speed_select (bool_decide (v = ETH_SPEED_100M))) (mret ESP_OK)).

(** [v] is the value of the enumeration, where full duplex is 1; the field is one bit. *)
Definition esp_eth_phy_802_3_set_duplex (v : Z) : ES esp_err_t :=
  mod_phy (set_link_status ETH_LINK_DOWN);;
  read_reg ETH_PHY_BMCR_REG_ADDR (λ bmcr,
    if bit bmcr en_loopback && negb (v =? 1) then mret ESP_ERR_INVALID_STATE
    else write_reg ETH_PHY_BMCR_REG_ADDR (put_bit bmcr duplex_mode (Z.odd v)) (mret ESP_OK)).

Definition esp_eth_phy_802_3_set_link (l : eth_link_t) : ES esp_err_t :=
  s ← get;
  if decide (link_status (phy s) = l) then mret ESP_OK
  else
    mod_phy (set_link_status l);;
    if negb (phy_eth (phy s)) then fault else try_ (eth_on_link l) (mret ESP_OK).

Definition set_level (v : Z) : ES unit :=
  modify (λ s, mkSys (driver s) (phy s) (mac s) (answers s) (event_answers s) (input_answers s) (events s) (inputs s) (levels s ++ [v])).

(** Delays have no effect. *)
Definition esp_eth_phy_802_3_reset_hw : ES esp_err_t :=
  s ← get;
  if 0 <=? reset_gpio_num (phy s) then set_level 0;; set_level 1;; mret ESP_OK else mret ESP_ERR_NOT_ALLOWED.
Definition esp_eth_phy_802_3_reset_hw_internal : ES esp_err_t := esp_eth_phy_802_3_reset_hw.

(** The addresses from [a] on; [reg_value] keeps its value when a read stores nothing. *)
Fixpoint try_addrs (n : nat) (a reg_value : Z) : ES (option Z * Z) :=
  match n with
  | O => mret (None, reg_value)
  | S n' =>
      r ← eth_phy_reg_read a ETH_PHY_IDR1_REG_ADDR;
      let reg_value := default reg_value r.2 in
      if negb (reg_value =? 0xFFFF) && negb (reg_value =? 0x00) then mret (Some a, reg_value)
      else try_addrs n' (a + 1) reg_value
  end.
Fixpoint detect_rounds (n : nat) (reg_value : Z) : ES (esp_err_t * Z) :=
  match n with
  | O => mret (ESP_ERR_NOT_FOUND, 0)
  | S n' =>
      r ← try_addrs 32 0 reg_value;
      match r.1 with
      | Some a => mret (ESP_OK, a)
      | None => detect_rounds n' r.2
      end
  end.
(** The mediator and the pointer to the address are null or not. *)
Definition esp_eth_phy_802_3_detect_phy_addr (eth detected_addr : bool) : ES (esp_err_t * Z) :=
  if negb eth || negb detected_addr then mret (ESP_ERR_INVALID_ARG, 0) else detect_rounds 3 0.

Definition esp_eth_phy_802_3_basic_phy_init : ES esp_err_t :=
  s ← get;
  let power_and_reset := try_ (esp_eth_phy_802_3_pwrctl true) (try_ esp_eth_phy_802_3_reset (mret ESP_OK)) in
  if phy_addr (phy s) =? ESP_ETH_PHY_ADDR_AUTO then
    try_val (esp_eth_phy_802_3_detect_phy_addr (phy_eth (phy s)) true) (λ a, mod_phy (set_phy_addr a);; power_and_reset)
  else power_and_reset.
Definition esp_eth_phy_802_3_basic_phy_deinit : ES esp_err_t := try_ (esp_eth_phy_802_3_pwrctl false) (mret ESP_OK).
Definition esp_eth_phy_802_3_init : ES esp_err_t := esp_eth_phy_802_3_basic_phy_init.
Definition esp_eth_phy_802_3_deinit : ES esp_err_t := esp_eth_phy_802_3_basic_phy_deinit.

Definition esp_eth_phy_802_3_read_oui (k : Z → ES esp_err_t) : ES esp_err_t :=
  read_reg ETH_PHY_IDR1_REG_ADDR (λ id1, read_reg ETH_PHY_IDR2_REG_ADDR (λ id2,
    k (Z.lor (Z.shiftl (Z.land id1 0xFFFF) 6) (Z.land (Z.shiftr id2 10) 0x3F)))).
(** The model and the revision. *)
Definition esp_eth_phy_802_3_read_manufac_info (k : Z → Z → ES esp_err_t) : ES esp_err_t :=
  read_reg ETH_PHY_IDR2_REG_ADDR (λ id2, k (Z.land (Z.shiftr id2 4) 0x3F) (Z.land id2 0xF)).

(** The registers of the MMDs.  The control and the address register are local variables
    that are not initialised: [ctrl] and [ad] are what they hold before their fields are
    set. *)
Inductive esp_eth_phy_802_3_mmd_func_t : Type := MMD_FUNC_ADDRESS | MMD_FUNC_DATA_NOINCR | MMD_FUNC_DATA_RWINCR | MMD_FUNC_DATA_WINCR.
Definition mmd_func (f : esp_eth_phy_802_3_mmd_func_t) : Z :=
  match f with MMD_FUNC_ADDRESS => 0 | MMD_FUNC_DATA_NOINCR => 1 | MMD_FUNC_DATA_RWINCR => 2 | MMD_FUNC_DATA_WINCR => 3 end.
Definition mmdctrl (ctrl devaddr : Z) (f : esp_eth_phy_802_3_mmd_func_t) : Z :=
  Z.lor (Z.ldiff ctrl 0xC01F) (Z.lor (Z.land devaddr 0x1F) (Z.shiftl (mmd_func f) 14)).
Definition mmdad (ad adrdata : Z) : Z := Z.lor (Z.ldiff ad 0xFFFF) (Z.land adrdata 0xFFFF).

Definition esp_eth_phy_802_3_get_mmd_addr (ctrl devaddr : Z) (k : Z → ES esp_err_t) : ES esp_err_t :=
  if negb (devaddr <=? 31) then mret ESP_ERR_INVALID_ARG
  else write_reg ETH_PHY_MMDCTRL_REG_ADDR (mmdctrl ctrl devaddr MMD_FUNC_ADDRESS)
         (read_reg ETH_PHY_MMDAD_REG_ADDR (λ v, k (Z.land v 0xFFFF))).
Definition esp_eth_phy_802_3_set_mmd_addr (ctrl ad devaddr mmd_addr : Z) : ES esp_err_t :=
  if negb (devaddr <=? 31) then mret ESP_ERR_INVALID_ARG
  else write_reg ETH_PHY_MMDCTRL_REG_ADDR (mmdctrl ctrl devaddr MMD_FUNC_ADDRESS)
         (write_reg ETH_PHY_MMDAD_REG_ADDR (mmdad ad mmd_addr) (mret ESP_OK)).
Definition esp_eth_phy_802_3_read_mmd_data (ctrl devaddr : Z) (f : esp_eth_phy_802_3_mmd_func_t) (k : Z → ES esp_err_t) : ES esp_err_t :=
  if negb (devaddr <=? 31) then mret ESP_ERR_INVALID_ARG
  else match f with
       | MMD_FUNC_ADDRESS => mret ESP_ERR_INVALID_ARG
       | _ => write_reg ETH_PHY_MMDCTRL_REG_ADDR (mmdctrl ctrl devaddr f) (read_reg ETH_PHY_MMDAD_REG_ADDR (λ v, k (Z.land v 0xFFFF)))
       end.
Definition esp_eth_phy_802_3_write_mmd_data (ctrl ad devaddr : Z) (f : esp_eth_phy_802_3_mmd_func_t) (data : Z) : ES esp_err_t :=
  if negb (devaddr <=? 31) then mret ESP_ERR_INVALID_ARG
  else match f with
       | MMD_FUNC_ADDRESS => mret ESP_ERR_INVALID_ARG
       | _ => write_reg ETH_PHY_MMDCTRL_REG_ADDR (mmdctrl ctrl devaddr f) (write_reg ETH_PHY_MMDAD_REG_ADDR (mmdad ad data) (mret ESP_OK))
       end.
Definition esp_eth_phy_802_3_read_mmd_register (ctrl ad devaddr mmd_addr : Z) (k : Z → ES esp_err_t) : ES esp_err_t :=
  try_ (esp_eth_phy_802_3_set_mmd_addr ctrl ad devaddr mmd_addr) (esp_eth_phy_802_3_read_mmd_data ctrl devaddr MMD_FUNC_DATA_NOINCR k).
Definition esp_eth_phy_802_3_write_mmd_register (ctrl ad devaddr mmd_addr data : Z) : ES esp_err_t :=
  try_ (esp_eth_phy_802_3_set_mmd_addr ctrl ad devaddr mmd_addr) (esp_eth_phy_802_3_write_mmd_data ctrl ad devaddr MMD_FUNC_DATA_NOINCR data).

Definition esp_eth_phy_802_3_obj_config_init (config : option (Z * Z * Z * Z * Z * Z)) : ES esp_err_t :=
  match config with
  | None => mret ESP_ERR_INVALID_ARG
  | Some (a, reset_ms, autonego_ms, gpio, hw_us, post_ms) =>
      mod_phy (λ p, mkPhy (phy_eth p) a reset_ms autonego_ms ETH_LINK_DOWN gpio
                      (if 0 <? hw_us then hw_us else PHY_RESET_ASSERTION_TIME_US)
                      (if 0 <? post_ms then post_ms else ESP_ETH_NO_POST_HW_RESET_DELAY));;
      mret ESP_OK
  end.

(** ** [esp_eth_phy_dm9051.c] *)

(** BMSR latches a low link, so it is read twice. *)
Definition dm9051_update_link_duplex_speed : ES esp_err_t :=
  read_reg ETH_PHY_BMSR_REG_ADDR (λ _,
    read_reg ETH_PHY_BMSR_REG_ADDR (λ bmsr,
      read_reg ETH_PHY_ANLPAR_REG_ADDR (λ anlpar,
        let l := link_of bmsr in
        s ← get;
        if decide (link_status (phy s) = l) then mret ESP_OK
        else if decide (l = ETH_LINK_UP) then
          read_reg ETH_PHY_BMCR_REG_ADDR (λ bmcr, report_mode (selected_mode bmcr) anlpar (report_link l))
        else report_link l))).

Definition dm9051_get_link : ES esp_err_t := try_ dm9051_update_link_duplex_speed (mret ESP_OK).

(** At most [n] polls until both reset bits are clear. *)
Fixpoint wait_phy_reset (n : nat) : ES esp_err_t :=
  match n with
  | O => mret ESP_FAIL
  | S n' =>
      read_reg ETH_PHY_BMCR_REG_ADDR (λ bmcr,
        read_reg ETH_PHY_DSCR_REG_ADDR (λ dscr,
          if negb (bit bmcr reset_bit) && negb (bit dscr smrst) then mret ESP_OK else wait_phy_reset n'))
  end.
Definition dm9051_phy_reset : ES esp_err_t :=
  mod_phy (set_link_status ETH_LINK_DOWN);;
  s ← get;
  read_reg ETH_PHY_DSCR_REG_ADDR (λ dscr,
    write_reg ETH_PHY_DSCR_REG_ADDR (put_bit dscr smrst true)
      (write_reg ETH_PHY_BMCR_REG_ADDR (put_bit 0 reset_bit true)
         (wait_phy_reset (Z.to_nat (reset_timeout_ms (phy s) / 10))))).

Definition dm9051_init : ES esp_err_t :=
  try_ esp_eth_phy_802_3_basic_phy_init
    (esp_eth_phy_802_3_read_oui (λ oui,
       esp_eth_phy_802_3_read_manufac_info (λ model _,
         if (oui =? 0x606E) && (model =? 0x0A) then mret ESP_OK else mret ESP_FAIL))).

Definition dm9051_loopback (enable : bool) : ES esp_err_t :=
  read_reg ETH_PHY_BMCR_REG_ADDR (λ bmcr,
    read_reg ETH_PHY_SCR_REG_ADDR (λ scr,
      write_reg ETH_PHY_BMCR_REG_ADDR (put_bit bmcr en_loopback enable)
        (write_reg ETH_PHY_SCR_REG_ADDR (put_bit scr autoneg_lpbk enable) (mret ESP_OK)))).

Definition dm9051_set_speed (v : eth_speed_t) : ES esp_err_t :=
  read_reg ETH_PHY_BMCR_REG_ADDR (λ bmcr,
    if bit bmcr en_loopback && negb (bool_decide (v = ETH_SPEED_100M)) then mret ESP_ERR_INVALID_STATE
    else esp_eth_phy_802_3_set_speed v).

(** ** The PHY object: the functions that a chip redefines *)

Record esp_eth_phy_t : Type := mkPhyFuns {
  phy_init : ES esp_err_t;
  phy_reset : ES esp_err_t;
  phy_get_link : ES esp_err_t;
  phy_loopback : bool → ES esp_err_t;
  phy_set_speed : eth_speed_t → ES esp_err_t
}.
Definition phy_802_3_funs : esp_eth_phy_t :=
  mkPhyFuns esp_eth_phy_802_3_init esp_eth_phy_802_3_reset esp_eth_phy_802_3_updt_link_dup_spd esp_eth_phy_802_3_loopback esp_eth_phy_802_3_set_speed.
Definition esp_eth_phy_new_dm9051 : esp_eth_phy_t := mkPhyFuns dm9051_init dm9051_phy_reset dm9051_get_link dm9051_loopback dm9051_set_speed.

End eth.
Arguments ES X A : clear implicits.
Arguments esp_eth_phy_t X : clear implicits.
