(* ===== verification/Eth.v ===== *)
(** * The Ethernet driver

    Model of the user functions of [components/esp_eth/src/esp_eth.c], with the transmit
    mutex.  There is one driver; a handle is null ([false]) or the pointer to it. *)
From Stdlib Require Import ZArith Lia.
From stdpp Require Import base numbers option list.
From S2P Require Import Prelude Dm9051 EthPhy.

Open Scope Z_scope.

(** What the user sets. *)
Record esp_eth_config_t : Type := mkConfig {
  conf_stack_input : option Z;
  conf_stack_input_info : option Z;
  conf_on_lowlevel_init_done : option esp_err_t;
  conf_on_lowlevel_deinit_done : option esp_err_t;
  conf_check_link_period_ms : Z
}.

(** The argument of [esp_eth_ioctl]: a null pointer, bytes, or a register with the pointer
    to its value. *)
Inductive ioctl_data : Type :=
| NoData
| Bytes (l : list Z)
| RegData (reg_addr : Z) (reg_value_p : option Z).

Inductive esp_eth_io_cmd_t : Type :=
| ETH_CMD_G_MAC_ADDR | ETH_CMD_S_MAC_ADDR | ETH_CMD_G_PHY_ADDR | ETH_CMD_S_PHY_ADDR | ETH_CMD_G_AUTONEGO | ETH_CMD_S_AUTONEGO
| ETH_CMD_G_SPEED | ETH_CMD_S_SPEED | ETH_CMD_S_PROMISCUOUS | ETH_CMD_S_FLOW_CTRL | ETH_CMD_G_DUPLEX_MODE | ETH_CMD_S_DUPLEX_MODE
| ETH_CMD_S_PHY_LOOPBACK | ETH_CMD_READ_PHY_REG | ETH_CMD_WRITE_PHY_REG | ETH_CMD_S_ALL_MULTICAST | ETH_CMD_ADD_MAC_FILTER
| ETH_CMD_DEL_MAC_FILTER | ETH_CMD_UNKNOWN.

Definition speed_of (v : Z) : eth_speed_t := if v =? 0 then ETH_SPEED_10M else if v =? 1 then ETH_SPEED_100M else ETH_SPEED_OTHER.
Definition of_speed (v : eth_speed_t) : Z := match v with ETH_SPEED_10M => 0 | ETH_SPEED_100M => 1 | ETH_SPEED_OTHER => 2 end.
Definition of_duplex (v : eth_duplex_t) : Z := match v with ETH_DUPLEX_HALF => 0 | ETH_DUPLEX_FULL => 1 | ETH_DUPLEX_OTHER => 2 end.
Definition u32_bytes (v : Z) : list Z := [u8 v; u8 (v / 2 ^ 8); u8 (v / 2 ^ 16); u8 (v / 2 ^ 24)].

Section driver.
Context {X : Type} `{!EthMac X}.
Context (custom_read : option (Z → Z → ES X (esp_err_t * option Z))) (custom_write : option (Z → Z → Z → ES X esp_err_t)).
Context (P : esp_eth_phy_t X).
Abbreviation sys := (eth_sys X).

(** ** Timer, memory, mutex *)

(** The next answer of the system. *)
Definition next_answer : ES X bool := λ s, Done (with_answers (tail (answers s)) s) (default true (head (answers s))).

(** [esp_timer_start_periodic], [esp_timer_stop] and [esp_timer_delete] on the link timer.
    A driver that an uninstall has begun to take down points to a timer and to a mutex that
    are gone. *)
Definition link_timer_start : ES X esp_err_t :=
  d ← the_driver;
  match check_link_timer d with
  | None => fault
  | Some true => mret ESP_ERR_INVALID_STATE
  | Some false => mod_driver (set_timer (Some true));; mret ESP_OK
  end.
Definition link_timer_stop : ES X esp_err_t :=
  d ← the_driver;
  match check_link_timer d with
  | None => fault
  | Some false => mret ESP_ERR_INVALID_STATE
  | Some true => mod_driver (set_timer (Some false));; mret ESP_OK
  end.
Definition link_timer_delete : ES X esp_err_t :=
  d ← the_driver;
  match check_link_timer d with
  | None => fault
  | Some true => mret ESP_ERR_INVALID_STATE
  | Some false => mod_driver (set_timer None);; mret ESP_OK
  end.

Definition free_driver : ES X unit := _ ← the_driver; modify (with_driver None).

Definition eth_check_link_timer_cb : ES X unit := _ ← phy_get_link P; mret ().

Abbreviation autonego_ctrl cmd := (esp_eth_phy_802_3_autonego_ctrl custom_read custom_write cmd (λ b, mod_driver (set_auto_nego b))).

(** ** Installing *)

(** [config] is none for a null pointer, its first part whether the MAC and the PHY are
    given; [out] is whether [out_hdl] is not null. *)
Definition esp_eth_driver_install (config : option (bool * esp_eth_config_t)) (out : bool) : ES X esp_err_t :=
  match config with
  | None => mret ESP_ERR_INVALID_ARG
  | Some (objects, c) =>
      if negb out then mret ESP_ERR_INVALID_ARG
      else if negb objects then mret ESP_ERR_INVALID_ARG
      else
        memory ← next_answer;
        if negb memory then mret ESP_ERR_NO_MEM
        else
          modify (with_driver (Some (mkDriver None 0 false ETH_SPEED_10M ETH_DUPLEX_HALF ETH_LINK_UP 0 0 ESP_ETH_FSM_STOP None None None None None)));;
          timer ← next_answer;
          ret ← (if negb timer then mret ESP_ERR_NO_MEM
                 else
                   mod_driver (set_timer (Some false));;
                   mutex ← next_answer;
                   if negb mutex then mret ESP_ERR_NO_MEM
                   else
                     modify (with_driver (Some (mkDriver (Some false) (conf_check_link_period_ms c) false ETH_SPEED_10M ETH_DUPLEX_HALF
                       ETH_LINK_DOWN 1 0 ESP_ETH_FSM_STOP (Some false) (conf_stack_input c) (conf_stack_input_info c)
                       (conf_on_lowlevel_init_done c) (conf_on_lowlevel_deinit_done c))));;
                     _ ← on_mac (mac_set_mediator true);
                     _ ← esp_eth_phy_802_3_set_mediator true;
                     _ ← esp_eth_phy_802_3_reset_hw_internal;
                     llinit ← eth_on_llinit;
                     deinit ← eth_on_deinit;
                     try_ (on_mac (mac_init llinit deinit))
                       (try_ (phy_init P) (autonego_ctrl ESP_ETH_PHY_AUTONEGO_G_STAT)));
          if decide (ret = ESP_OK) then mret ESP_OK
          else
            d ← the_driver;
            _ ← (match check_link_timer d with Some _ => link_timer_delete | None => mret ESP_OK end);
            free_driver;; mret ret
  end.

Definition esp_eth_driver_uninstall (hdl : bool) : ES X esp_err_t :=
  if negb hdl then mret ESP_ERR_INVALID_ARG
  else
    d ← the_driver;
    if decide (fsm d = ESP_ETH_FSM_STOP) then
      if negb (ref_count d =? 1) then mret ESP_ERR_INVALID_STATE
      else
        mod_driver (set_ref_count 0);;
        try_ link_timer_delete
          (mod_driver (set_mutex None);;
           try_ (esp_eth_phy_802_3_deinit custom_read custom_write)
             (deinit ← eth_on_deinit;
              try_ (on_mac (mac_deinit deinit)) (free_driver;; mret ESP_OK)))
    else mret ESP_ERR_INVALID_STATE.

(** ** Starting and stopping *)

Definition esp_eth_start (hdl : bool) : ES X esp_err_t :=
  if negb hdl then mret ESP_ERR_INVALID_ARG
  else
    d ← the_driver;
    if decide (fsm d = ESP_ETH_FSM_STOP) then
      mod_driver (set_fsm ESP_ETH_FSM_START);;
      try_ (if auto_nego_en d then autonego_ctrl ESP_ETH_PHY_AUTONEGO_RESTART else mret ESP_OK)
        (try_ (eth_event_post ETHERNET_EVENT_START)
           (try_ (phy_get_link P) (try_ link_timer_start (mret ESP_OK))))
    else mret ESP_ERR_INVALID_STATE.

Definition esp_eth_stop (hdl : bool) : ES X esp_err_t :=
  if negb hdl then mret ESP_ERR_INVALID_ARG
  else
    d ← the_driver;
    if decide (fsm d = ESP_ETH_FSM_START) then
      mod_driver (set_fsm ESP_ETH_FSM_STOP);;
      try_ link_timer_stop
        (d ← the_driver;
         try_ (if decide (link d = ETH_LINK_UP) then mod_driver (set_link ETH_LINK_DOWN);; esp_eth_phy_802_3_set_link ETH_LINK_DOWN
               else mret ESP_OK)
           (try_ (eth_event_post ETHERNET_EVENT_STOP) (mret ESP_OK)))
    else mret ESP_ERR_INVALID_STATE.

(** ** Input path, references *)

Definition esp_eth_update_input_path (hdl : bool) (stack_input : option Z) (priv : Z) : ES X esp_err_t :=
  if negb hdl then mret ESP_ERR_INVALID_ARG else mod_driver (set_input stack_input None priv);; mret ESP_OK.
Definition esp_eth_update_input_path_info (hdl : bool) (stack_input_info : option Z) (priv : Z) : ES X esp_err_t :=
  if negb hdl then mret ESP_ERR_INVALID_ARG else mod_driver (set_input None stack_input_info priv);; mret ESP_OK.

Definition esp_eth_increase_reference (hdl : bool) : ES X esp_err_t :=
  if negb hdl then mret ESP_ERR_INVALID_ARG else d ← the_driver; mod_driver (set_ref_count (i32 (ref_count d + 1)));; mret ESP_OK.
Definition esp_eth_decrease_reference (hdl : bool) : ES X esp_err_t :=
  if negb hdl then mret ESP_ERR_INVALID_ARG else d ← the_driver; mod_driver (set_ref_count (i32 (ref_count d - 1)));; mret ESP_OK.

(** [out] is whether the pointer for the object is not null. *)
Definition esp_eth_get_phy_instance (hdl out : bool) : ES X esp_err_t :=
  if negb hdl then mret ESP_ERR_INVALID_ARG else if negb out then mret ESP_ERR_INVALID_ARG else _ ← the_driver; mret ESP_OK.
Definition esp_eth_get_mac_instance (hdl out : bool) : ES X esp_err_t :=
  if negb hdl then mret ESP_ERR_INVALID_ARG else if negb out then mret ESP_ERR_INVALID_ARG else _ ← the_driver; mret ESP_OK.

(** ** Transmission *)

(** Run [m] with the transmit mutex. *)
Definition transmit_locked (m : ES X esp_err_t) : ES X esp_err_t :=
  d ← the_driver;
  match transmit_mutex d with
  | None => fault
  | Some _ =>
      taken ← next_answer;
      if negb taken then mret ESP_ERR_TIMEOUT
      else
        mod_driver (set_mutex (Some true));;
        ret ← m;
        mod_driver (set_mutex (Some false));;
        mret ret
  end.

(** The link is read before the handle is checked. *)
Definition esp_eth_transmit (hdl : bool) (buf : option (list Z)) : ES X esp_err_t :=
  d ← (if hdl then the_driver else fault);
  if decide (link d = ETH_LINK_UP) then
    match buf with
    | None => mret ESP_ERR_INVALID_ARG
    | Some [] => mret ESP_ERR_INVALID_ARG
    | Some data => transmit_locked (on_mac (mac_transmit data))
    end
  else mret ESP_ERR_INVALID_STATE.

Definition esp_eth_transmit_ctrl_vargs (hdl : bool) (args : list (list Z)) : ES X esp_err_t :=
  d ← (if hdl then the_driver else fault);
  if decide (link d = ETH_LINK_UP) then
    transmit_locked (match mac_transmit_ctrl_vargs with Some f => on_mac (f args) | None => fault end)
  else mret ESP_ERR_INVALID_STATE.

(** ** [esp_eth_ioctl] *)

(** Reading the argument. *)
Definition data_bytes (data : ioctl_data) (n : nat) (k : list Z → ES X (esp_err_t * list Z)) : ES X (esp_err_t * list Z) :=
  match data with
  | NoData => mret (ESP_ERR_INVALID_ARG, [])
  | Bytes l => if decide (n ≤ length l)%nat then k (take n l) else fault
  | RegData _ _ => fault
  end.
Definition data_bool (data : ioctl_data) (k : bool → ES X (esp_err_t * list Z)) : ES X (esp_err_t * list Z) :=
  data_bytes data 1 (λ l, k (negb (l !!! 0%nat =? 0))).
Definition u32_of (l : list Z) : Z := l !!! 0%nat + 2 ^ 8 * l !!! 1%nat + 2 ^ 16 * l !!! 2%nat + 2 ^ 24 * l !!! 3%nat.
Definition data_u32 (data : ioctl_data) (k : Z → ES X (esp_err_t * list Z)) : ES X (esp_err_t * list Z) :=
  data_bytes data 4 (λ l, k (u32_of l)).

Definition no_value (m : ES X esp_err_t) : ES X (esp_err_t * list Z) := e ← m; mret (e, []).

(** The result is the error and what is stored behind the argument. *)
Definition esp_eth_ioctl (hdl : bool) (cmd : esp_eth_io_cmd_t) (data : ioctl_data) : ES X (esp_err_t * list Z) :=
  if negb hdl then mret (ESP_ERR_INVALID_ARG, [])
  else
    d ← the_driver;
    let stopped (k : ES X (esp_err_t * list Z)) := if decide (fsm d = ESP_ETH_FSM_STOP) then k else mret (ESP_ERR_INVALID_STATE, []) in
    let fixed (k : ES X (esp_err_t * list Z)) := if auto_nego_en d then mret (ESP_ERR_INVALID_STATE, []) else k in
    match cmd with
    | ETH_CMD_S_MAC_ADDR => data_bytes data 6 (λ l, no_value (on_mac (mac_set_addr l)))
    | ETH_CMD_G_MAC_ADDR => data_bytes data 6 (λ _, on_mac mac_get_addr)
    | ETH_CMD_S_PHY_ADDR =>
        match data with
        | NoData => fault
        | _ => data_u32 data (λ a, no_value (esp_eth_phy_802_3_set_addr (i32 a)))
        end
    | ETH_CMD_G_PHY_ADDR => data_u32 data (λ _, r ← esp_eth_phy_802_3_get_addr true; mret (r.1, u32_bytes r.2))
    | ETH_CMD_S_AUTONEGO =>
        data_bytes data 0 (λ _, stopped (data_bool data (λ b,
          no_value (if b then autonego_ctrl ESP_ETH_PHY_AUTONEGO_EN else autonego_ctrl ESP_ETH_PHY_AUTONEGO_DIS))))
    | ETH_CMD_G_AUTONEGO => data_bytes data 1 (λ _, mret (ESP_OK, [if auto_nego_en d then 1 else 0]))
    | ETH_CMD_S_SPEED => data_bytes data 0 (λ _, stopped (fixed (data_u32 data (λ v, no_value (phy_set_speed P (speed_of v))))))
    | ETH_CMD_G_SPEED => data_bytes data 4 (λ _, mret (ESP_OK, u32_bytes (of_speed (speed d))))
    | ETH_CMD_S_PROMISCUOUS => data_bool data (λ b, no_value (on_mac (mac_set_promiscuous b)))
    | ETH_CMD_S_ALL_MULTICAST =>
        data_bytes data 0 (λ _,
          match mac_set_all_multicast with
          | None => mret (ESP_ERR_NOT_SUPPORTED, [])
          | Some f => data_bool data (λ b, no_value (on_mac (f b)))
          end)
    | ETH_CMD_S_FLOW_CTRL =>
        data_bool data (λ b, no_value (on_mac (mac_enable_flow_ctrl b)) ≫= λ r,
          if decide (r.1 = ESP_OK)
          then data_u32 data (λ v, no_value (esp_eth_phy_802_3_advertise_pause_ability custom_read custom_write v))
          else mret r)
    | ETH_CMD_S_DUPLEX_MODE =>
        data_bytes data 0 (λ _, fixed (stopped (data_u32 data (λ v, no_value (esp_eth_phy_802_3_set_duplex custom_read custom_write v)))))
    | ETH_CMD_G_DUPLEX_MODE => data_bytes data 4 (λ _, mret (ESP_OK, u32_bytes (of_duplex (duplex d))))
    | ETH_CMD_S_PHY_LOOPBACK => data_bool data (λ b, no_value (phy_loopback P b))
    | ETH_CMD_READ_PHY_REG =>
        match data with
        | NoData | RegData _ None => mret (ESP_ERR_INVALID_ARG, [])
        | Bytes _ => fault
        | RegData reg (Some old) =>
            a ← esp_eth_phy_802_3_get_addr true;
            r ← eth_phy_reg_read custom_read a.2 reg;
            mret (r.1, u32_bytes (default old r.2))
        end
    | ETH_CMD_WRITE_PHY_REG =>
        match data with
        | NoData | RegData _ None => mret (ESP_ERR_INVALID_ARG, [])
        | Bytes _ => fault
        | RegData reg (Some v) =>
            a ← esp_eth_phy_802_3_get_addr true;
            no_value (eth_phy_reg_write custom_write a.2 reg v)
        end
    | ETH_CMD_ADD_MAC_FILTER =>
        data_bytes data 0 (λ _,
          match mac_add_mac_filter with
          | None => mret (ESP_ERR_NOT_SUPPORTED, [])
          | Some f => data_bytes data 6 (λ l, no_value (on_mac (f l)))
          end)
    | ETH_CMD_DEL_MAC_FILTER =>
        data_bytes data 0 (λ _,
          match mac_rm_mac_filter with
          | None => mret (ESP_ERR_NOT_SUPPORTED, [])
          | Some f => data_bytes data 6 (λ l, no_value (on_mac (f l)))
          end)
    | ETH_CMD_UNKNOWN => mret (ESP_ERR_INVALID_ARG, [])
    end.

End driver.
