(* ===== verification/EthSpec.v ===== *)
(** * The Ethernet driver: link, events and life cycle

    The laws of a MAC whose calls succeed, with a PHY whose status register latches, and
    rules for the functions of the driver with such a MAC: what a tick of the link timer
    does, and the detection of the PHY. *)
From Stdlib Require Import ZArith Lia.
From stdpp Require Import base numbers option list relations.
From S2P Require Import Prelude Dm9051 EthPhy Eth.

Open Scope Z_scope.

(** ** A MAC that does what it is asked *)

(** [mac_up] is whether the MAC receives and transmits, and [mac_ok] what the functions of
    the MAC rely on and keep.  While [phy_steady], the PHYs do not change by themselves:
    [regs] is what the next read of a register gives, by address.  BMSR latches a link that
    was lost until it is read, and [bmsr_now] is the status at present, which it shows
    after that. *)
Class MacView (X : Type) : Type := {
  mac_up : X → bool;
  mac_ok : X → Prop;
  phy_steady : X → Prop;
  regs : X → Z → Z → Z;
  bmsr_now : X → Z → Z
}.

Section laws.
Context {X : Type} `{!EthMac X, !MacView X}.

(** A steady PHY stays so, and BMSR may have been read. *)
Record same_phy (x x' : X) : Prop := mkSamePhy {
  same_steady : phy_steady x';
  same_now a : bmsr_now x' a = bmsr_now x a;
  same_regs a r : 0 ≤ r < 32 → r ≠ ETH_PHY_BMSR_REG_ADDR → regs x' a r = regs x a r;
  same_bmsr a : regs x' a ETH_PHY_BMSR_REG_ADDR = regs x a ETH_PHY_BMSR_REG_ADDR ∨ regs x' a ETH_PHY_BMSR_REG_ADDR = bmsr_now x a
}.
(** The MAC goes up or down. *)
Record switched (b : bool) (x x' : X) : Prop := mkSwitched {
  sw_up : mac_up x' = b;
  sw_ok : mac_ok x';
  sw_phy : phy_steady x → same_phy x x'
}.
Definition same_view (x x' : X) : Prop := switched (mac_up x) x x'.
(** A read of [v] from a register, which ends the latch of BMSR. *)
Definition phy_read_step (a r v : Z) (x x' : X) : Prop :=
  phy_steady x → v = regs x a r ∧ same_phy x x' ∧ (r = ETH_PHY_BMSR_REG_ADDR → regs x' a r = bmsr_now x a).

Definition keeps {A : Type} (m : M X A) (Q : A → Prop) : Prop := ∀ x, mac_ok x → wp m x (λ r x', Q r ∧ same_view x x').
Definition keeps_up {A : Type} (m : M X A) (Q : A → Prop) : Prop :=
  ∀ x, mac_ok x → wp m x (λ r x', Q r ∧ mac_up x' = mac_up x ∧ mac_ok x').
Definition maybe_keeps_up {B : Type} (f : option (B → M X esp_err_t)) : Prop :=
  match f with None => True | Some f => ∀ b, keeps_up (f b) (λ _, True) end.
(** Code that leaves a MAC off that is off. *)
Definition keeps_off {A : Type} (m : M X A) : Prop :=
  ∀ x, mac_ok x → mac_up x = false → wp m x (λ _ x', mac_up x' = false ∧ mac_ok x').
End laws.

(** The calls that follow the link succeed, and reading and writing a register of the PHY;
    the others may fail. *)
Class ReliableMac (X : Type) `{!EthMac X, !MacView X} : Prop := {
  rel_up x : mac_ok x → mac_up x = false → wp (mac_set_link ETH_LINK_UP) x (λ r x', r = ESP_OK ∧ switched true x x');
  rel_down x : mac_ok x → mac_up x = true → wp (mac_set_link ETH_LINK_DOWN) x (λ r x', r = ESP_OK ∧ switched false x x');
  rel_speed v : v ≠ ETH_SPEED_OTHER → keeps (mac_set_speed v) (λ r, r = ESP_OK);
  rel_duplex v : v ≠ ETH_DUPLEX_OTHER → keeps (mac_set_duplex v) (λ r, r = ESP_OK);
  rel_pause a : keeps (mac_set_peer_pause_ability a) (λ r, r = ESP_OK);
  rel_read a r x : mac_ok x → wp (mac_read_phy_reg a r) x (λ v x',
    ∃ w, v = (ESP_OK, Some w) ∧ mac_up x' = mac_up x ∧ mac_ok x' ∧ phy_read_step a r w x x');
  rel_write a r v : keeps_up (mac_write_phy_reg a r v) (λ r, r = ESP_OK);
  rel_mediator : keeps_off (mac_set_mediator true);
  rel_init l d : keeps_off (mac_init l d);
  rel_deinit d : keeps_off (mac_deinit d);
  rel_vargs : maybe_keeps_up mac_transmit_ctrl_vargs;
  rel_transmit data : keeps_up (mac_transmit data) (λ _, True);
  rel_set_addr l : length l = 6%nat → keeps_up (mac_set_addr l) (λ _, True);
  rel_get_addr : keeps_up mac_get_addr (λ _, True);
  rel_promiscuous b : keeps_up (mac_set_promiscuous b) (λ _, True);
  rel_flow b : keeps_up (mac_enable_flow_ctrl b) (λ _, True);
  rel_multicast : maybe_keeps_up mac_set_all_multicast;
  rel_add_filter : maybe_keeps_up mac_add_mac_filter;
  rel_rm_filter : maybe_keeps_up mac_rm_mac_filter
}.

(** ** The events that are allowed *)

Inductive phase : Type := Stopped | NoLink | LinkUp.
Definition next_phase (p : phase) (e : eth_event_t) : option phase :=
  match p, e with
  | Stopped, ETHERNET_EVENT_START => Some NoLink
  | NoLink, ETHERNET_EVENT_CONNECTED => Some LinkUp
  | LinkUp, ETHERNET_EVENT_DISCONNECTED => Some NoLink
  | NoLink, ETHERNET_EVENT_STOP => Some Stopped
  | _, _ => None
  end.
Definition trace (l : list eth_event_t) : option phase := foldl (λ o e, o ≫= λ p, next_phase p e) (Some Stopped) l.

Lemma trace_snoc l e p : trace l = Some p → trace (l ++ [e]) = next_phase p e.
Proof. intros H. unfold trace in *. by rewrite foldl_app, H. Qed.

Section spec.
Context {X : Type} `{!EthMac X, !MacView X, !ReliableMac X}.
Abbreviation sys := (eth_sys X).
Implicit Types (s : sys) (d : esp_eth_driver_t) (x : X).
Abbreviation P := (esp_eth_phy_new_dm9051 (X := X) None None).

(** ** Rules *)

Lemma wp_the_driver s d (Q : esp_eth_driver_t → sys → Prop) : driver s = Some d → Q d s → wp the_driver s Q.
Proof. intros Hd HQ. unfold wp, the_driver. by rewrite Hd. Qed.

Lemma wp_mod_driver f s d (Q : () → sys → Prop) : driver s = Some d → Q () (with_driver (Some (f d)) s) → wp (mod_driver f) s Q.
Proof. intros Hd HQ. apply wp_bind. eapply wp_the_driver; [done|]. by apply wp_modify. Qed.

Lemma wp_on_mac {A} (m : M X A) s (Q : A → sys → Prop) : wp m (mac s) (λ a x, Q a (with_mac x s)) → wp (on_mac m) s Q.
Proof. apply wp_zoom. Qed.

Lemma wp_try m k s (Q : esp_err_t → sys → Prop) :
  wp m s (λ e s', if decide (e = ESP_OK) then wp k s' Q else Q e s') → wp (try_ m k) s Q.
Proof. intros H. apply wp_bind. eapply wp_mono; [exact H|]. cbv beta. intros e s'. case_decide; [done|]. apply wp_ret. Qed.

Lemma with_mac_mac x x' s : with_mac x (with_mac x' s) = with_mac x s.
Proof. done. Qed.

Lemma same_phy_trans x1 x2 x3 : same_phy x1 x2 → same_phy x2 x3 → same_phy x1 x3.
Proof.
  intros [_ N1 R1 B1] [S2 N2 R2 B2]. split; [done|..].
  - intros a. by rewrite N2.
  - intros a r Hr Hn. by rewrite R2, R1.
  - intros a. destruct (B2 a) as [->| ->]; [apply B1|]. right. apply N1.
Qed.
Lemma switched_trans b x1 x2 x3 : same_view x1 x2 → switched b x2 x3 → switched b x1 x3.
Proof.
  intros [_ _ H1] [U2 O2 H2]. split; [done|done|]. intros Hs. specialize (H1 Hs). eapply same_phy_trans; [done|]. apply H2, H1.
Qed.
Lemma same_view_trans x1 x2 x3 : same_view x1 x2 → same_view x2 x3 → same_view x1 x3.
Proof. intros H1 H2. eapply switched_trans; [done|]. rewrite <- (sw_up _ _ _ H1). exact H2. Qed.
Lemma read_same_view a r v x x' : mac_up x' = mac_up x → mac_ok x' → phy_read_step a r v x x' → same_view x x'.
Proof. intros Hu Ho Hr. split; [done|done|]. intros Hs. apply (Hr Hs). Qed.

(** A register of the PHY. *)
Lemma wp_read_reg reg k s d (Q : esp_err_t → sys → Prop) :
  driver s = Some d → phy_eth (phy s) = true → mac_ok (mac s) →
  (∀ x v, same_view (mac s) x → phy_read_step (phy_addr (phy s)) reg v (mac s) x → wp (k v) (with_mac x s) Q) →
  wp (read_reg None reg k) s Q.
Proof.
  intros Hd He Hok HQ. unfold read_reg. wp_steps. rewrite He. cbn [negb]. unfold try_val, eth_phy_reg_read. wp_steps.
  eapply wp_the_driver; [done|]. apply wp_on_mac. eapply wp_mono; [by apply rel_read|]. intros v x (w & -> & Hu & Ho & Hr). cbn [fst snd].
  rewrite decide_True by done. apply HQ; [by eapply read_same_view|done].
Qed.

Lemma wp_write_reg reg v k s d (Q : esp_err_t → sys → Prop) :
  driver s = Some d → phy_eth (phy s) = true → mac_ok (mac s) →
  (∀ x, mac_up x = mac_up (mac s) → mac_ok x → wp k (with_mac x s) Q) → wp (write_reg None reg v k) s Q.
Proof.
  intros Hd He Hok HQ. unfold write_reg. wp_steps. rewrite He. cbn [negb]. apply wp_try. unfold eth_phy_reg_write. wp_steps.
  eapply wp_the_driver; [done|]. apply wp_on_mac. eapply wp_mono; [by apply rel_write|]. intros r x (-> & Hx & Hxok).
  rewrite decide_True by done. by apply HQ.
Qed.

Lemma wp_event_post e s (Q : esp_err_t → sys → Prop) :
  event_answers s = [] →
  Q ESP_OK (mkSys (driver s) (phy s) (mac s) (answers s) [] (input_answers s) (events s ++ [e]) (inputs s) (levels s)) →
  wp (eth_event_post e) s Q.
Proof. intros He HQ. unfold wp, eth_event_post. by rewrite He. Qed.

(** ** A tick of the link timer *)

(** The event of a link. *)
Definition link_event (l : eth_link_t) : eth_event_t :=
  if decide (l = ETH_LINK_UP) then ETHERNET_EVENT_CONNECTED else ETHERNET_EVENT_DISCONNECTED.

(** The state after a change of the link. *)
Definition relinked s d (l : eth_link_t) x : sys :=
  mkSys (Some d) (set_link_status l (phy s)) x (answers s) [] (input_answers s)
    (events s ++ [link_event l]) (inputs s) (levels s).

Definition linked d (l : eth_link_t) (bmcr : Z) : esp_eth_driver_t :=
  set_link l (if decide (l = ETH_LINK_UP) then set_duplex (selected_mode bmcr).2 (set_speed (selected_mode bmcr).1 d) else d).

(** The MAC is up exactly when the PHY has reported a link. *)
Record synced s d : Prop := {
  synced_driver : driver s = Some d;
  synced_eth : phy_eth (phy s) = true;
  synced_events : event_answers s = [];
  synced_status : link_status (phy s) ≠ ETH_LINK_OTHER;
  synced_ok : mac_ok (mac s);
  synced_mac : mac_up (mac s) = bool_decide (link_status (phy s) = ETH_LINK_UP)
}.

Definition phy_reg s (r : Z) : Z := regs (mac s) (phy_addr (phy s)) r.
(** The link at present. *)
Definition phy_link s : eth_link_t := link_of (bmsr_now (mac s) (phy_addr (phy s))).

Lemma wp_on_link l s d (Q : esp_err_t → sys → Prop) :
  driver s = Some d → mac_ok (mac s) → event_answers s = [] → l = ETH_LINK_UP ∨ l = ETH_LINK_DOWN → mac_up (mac s) = negb (bool_decide (l = ETH_LINK_UP)) →
  (∀ x, switched (bool_decide (l = ETH_LINK_UP)) (mac s) x →
     Q ESP_OK (mkSys (Some (set_link l d)) (phy s) x (answers s) [] (input_answers s) (events s ++ [link_event l]) (inputs s) (levels s))) →
  wp (eth_on_link l) s Q.
Proof.
  intros Hd Hok He Hl Hm HQ. unfold eth_on_link. wp_steps. eapply wp_the_driver; [done|]. apply wp_try, wp_on_mac.
  assert (wp (mac_set_link l) (mac s) (λ r x, r = ESP_OK ∧ switched (bool_decide (l = ETH_LINK_UP)) (mac s) x)) as H.
  { destruct Hl as [-> | ->]; cbn in *; [by apply rel_up|by apply rel_down]. }
  eapply wp_mono; [exact H|]. intros r x [-> Hx]. rewrite decide_True by done. wp_steps. eapply wp_mod_driver; [done|].
  destruct Hl as [-> | ->]; apply wp_try, wp_event_post; try done; rewrite decide_True by done; apply wp_ret; by apply (HQ x).
Qed.

Lemma wp_report_link l s d (Q : esp_err_t → sys → Prop) :
  driver s = Some d → mac_ok (mac s) → event_answers s = [] → l = ETH_LINK_UP ∨ l = ETH_LINK_DOWN → mac_up (mac s) = negb (bool_decide (l = ETH_LINK_UP)) →
  (∀ x, switched (bool_decide (l = ETH_LINK_UP)) (mac s) x → Q ESP_OK (relinked s (set_link l d) l x)) →
  wp (report_link l) s Q.
Proof.
  intros Hd Hok He Hl Hm HQ. unfold report_link. apply wp_try. eapply wp_on_link; [done..|]. intros x Hx. rewrite decide_True by done.
  unfold mod_phy. wp_steps. by apply HQ.
Qed.

Lemma wp_report_mode mode anlpar k s d (Q : esp_err_t → sys → Prop) :
  driver s = Some d → mac_ok (mac s) → mode.1 ≠ ETH_SPEED_OTHER → mode.2 ≠ ETH_DUPLEX_OTHER →
  (∀ x, same_view (mac s) x → wp k (with_mac x (with_driver (Some (set_duplex mode.2 (set_speed mode.1 d))) s)) Q) →
  wp (report_mode mode anlpar k) s Q.
Proof.
  intros Hd Hok Hsp Hdu HQ. unfold report_mode, eth_on_speed, eth_on_duplex, eth_on_pause.
  apply wp_try. wp_steps. eapply wp_the_driver; [done|]. apply wp_try, wp_on_mac. eapply wp_mono; [by apply rel_speed|]. intros r x1 [-> H1].
  rewrite decide_True by done. wp_steps. eapply wp_mod_driver; [done|]. wp_steps. rewrite decide_True by done.
  apply wp_try. wp_steps. eapply wp_the_driver; [done|]. apply wp_try, wp_on_mac. eapply wp_mono; [by apply rel_duplex; [|apply H1]|]. intros r x2 [-> H2].
  rewrite decide_True by done. wp_steps. eapply wp_mod_driver; [done|]. wp_steps. rewrite decide_True by done.
  apply wp_try. wp_steps. eapply wp_the_driver; [done|]. apply wp_try, wp_on_mac. eapply wp_mono; [by apply rel_pause; apply H2|]. intros r x3 [-> H3].
  rewrite decide_True by done. wp_steps. rewrite decide_True by done. apply HQ. cbn in *.
  eapply same_view_trans; [exact H1|]. by eapply same_view_trans.
Qed.

Lemma link_of_cases v : link_of v = ETH_LINK_UP ∨ link_of v = ETH_LINK_DOWN.
Proof. unfold link_of. destruct (bit v bmsr_link_status); auto. Qed.

(** The second read of BMSR is that of the present. *)
Lemma second_read a v1 v2 x x1 x2 :
  phy_read_step a ETH_PHY_BMSR_REG_ADDR v1 x x1 → phy_read_step a ETH_PHY_BMSR_REG_ADDR v2 x1 x2 → phy_steady x → v2 = bmsr_now x a.
Proof. intros H1 H2 Hs. destruct (H1 Hs) as (_ & Hp & <-); [|done]. by destruct (H2 (same_steady _ _ Hp)) as [-> _]. Qed.

(** A tick brings the driver to a link that was read: the present one, with the mode of
    BMCR, when the PHY is steady. *)
Lemma wp_get_link s d (Q : esp_err_t → sys → Prop) :
  synced s d →
  (∀ l bmcr,
    l = ETH_LINK_UP ∨ l = ETH_LINK_DOWN →
    (phy_steady (mac s) → l = phy_link s ∧ bmcr = phy_reg s ETH_PHY_BMCR_REG_ADDR) →
    (link_status (phy s) = l → ∀ x, same_view (mac s) x → Q ESP_OK (with_mac x s)) ∧
    (link_status (phy s) ≠ l → ∀ x, switched (bool_decide (l = ETH_LINK_UP)) (mac s) x → Q ESP_OK (relinked s (linked d l bmcr) l x))) →
  wp (phy_get_link P) s Q.
Proof.
  intros [Hd He Hev Hst Hok Hm] HQ. cbn [phy_get_link esp_eth_phy_new_dm9051]. unfold dm9051_get_link. apply wp_try.
  unfold dm9051_update_link_duplex_speed. eapply wp_read_reg; [done..|]. intros x1 v1 H1 R1.
  eapply wp_read_reg; [done|done|apply H1|]. intros x2 v2 H2 R2.
  eapply wp_read_reg; [done|done|apply H2|]. intros x3 v3 H3 R3. cbn [mac with_mac phy] in *. rewrite !with_mac_mac. cbv zeta.
  pose proof (second_read _ _ _ _ _ _ R1 R2) as Hv2. clear R1 R2 R3.
  assert (same_view (mac s) x3) as Hx3 by exact (same_view_trans _ _ _ H1 (same_view_trans _ _ _ H2 H3)). clear H1 H2 H3.
  pose proof (link_of_cases v2) as Hl. assert (phy_steady (mac s) → link_of v2 = phy_link s) as Hl2 by (intros Hs; by rewrite Hv2).
  clear Hv2. set (l := link_of v2) in *. clearbody l. wp_steps. cbn [phy with_mac].
  destruct (decide (link_status (phy s) = l)) as [Heq|Heq].
  { apply wp_ret. rewrite decide_True by done. apply wp_ret. apply (HQ l (phy_reg s ETH_PHY_BMCR_REG_ADDR)); [done|by intros; split; [apply Hl2|]|done|done]. }
  assert (mac_up x3 = negb (bool_decide (l = ETH_LINK_UP))) as Hup.
  { rewrite (sw_up _ _ _ Hx3), Hm. clear - Hst Heq Hl. destruct (link_status (phy s)), Hl as [Hl|Hl]; rewrite Hl in *; done. }
  destruct (decide (l = ETH_LINK_UP)) as [Hlu|Hlu].
  - eapply wp_read_reg; [done|done|apply Hx3|]. intros x4 bmcr H4 R4. cbn [mac with_mac phy] in *. rewrite with_mac_mac.
    assert (phy_steady (mac s) → l = phy_link s ∧ bmcr = phy_reg s ETH_PHY_BMCR_REG_ADDR) as Hval.
    { intros Hs. split; [by apply Hl2|]. pose proof (sw_phy _ _ _ Hx3 Hs) as Hp. destruct (R4 (same_steady _ _ Hp)) as [-> _]. apply Hp; [unfold ETH_PHY_BMCR_REG_ADDR; lia|done]. }
    destruct (HQ l bmcr Hl Hval) as [_ Hchange]. specialize (Hchange Heq). unfold linked in Hchange. rewrite decide_True in Hchange by done.
    set (mode := selected_mode _) in *. eapply wp_report_mode; [done|apply H4|unfold mode, selected_mode; cbn; case_match; done..|].
    intros x5 H5. cbn [mac with_mac with_driver] in *. eapply wp_report_link; [done|apply H5|done|done| |].
    + cbn. rewrite (sw_up _ _ _ H5), (sw_up _ _ _ H4). done.
    + intros x6 H6. rewrite decide_True by done. wp_steps. apply Hchange. eapply switched_trans; [|exact H6].
      exact (same_view_trans _ _ _ Hx3 (same_view_trans _ _ _ H4 H5)).
  - destruct (HQ l (phy_reg s ETH_PHY_BMCR_REG_ADDR) Hl) as [_ Hchange]; [by intros; split; [apply Hl2|]|]. specialize (Hchange Heq).
    unfold linked in Hchange. rewrite decide_False in Hchange by done.
    eapply wp_report_link; [done|apply Hx3|done|done|done|]. intros x6 H6. rewrite decide_True by done. wp_steps. apply Hchange. by eapply switched_trans.
Qed.

(** ** Detection of the PHY *)

(** A PHY answers at the address. *)
Definition responds s (a : Z) : Prop :=
  regs (mac s) a ETH_PHY_IDR1_REG_ADDR ≠ 0xFFFF ∧ regs (mac s) a ETH_PHY_IDR1_REG_ADDR ≠ 0x00.

Lemma wp_try_addrs n a v s d :
  driver s = Some d → mac_ok (mac s) → phy_steady (mac s) →
  wp (try_addrs None n a v) s (λ r s', driver s' = Some d ∧ mac_ok (mac s') ∧ same_phy (mac s) (mac s') ∧
    match r.1 with
    | Some a' => a ≤ a' < a + Z.of_nat n ∧ responds s a' ∧ ∀ b, a ≤ b < a' → ¬ responds s b
    | None => ∀ b, a ≤ b < a + Z.of_nat n → ¬ responds s b
    end).
Proof.
  revert a v s. induction n as [|n IH]; intros a v s Hd Hok Hs; cbn [try_addrs].
  { apply wp_ret; cbn; split_and!; [done|done| |lia]. split; [done|done|done|by left]. }
  unfold eth_phy_reg_read. wp_steps. eapply wp_the_driver; [done|]. apply wp_on_mac. eapply wp_mono; [by apply rel_read|].
  intros r x (w & -> & _ & Hxok & Hr). destruct (Hr Hs) as (-> & Hx & _). clear Hr. cbn [snd from_option id]. set (v' := regs (mac s) a ETH_PHY_IDR1_REG_ADDR).
  destruct (negb (v' =? 0xFFFF) && negb (v' =? 0x00)) eqn:E.
  - apply andb_true_iff in E as [?%negb_true_iff%Z.eqb_neq ?%negb_true_iff%Z.eqb_neq]. wp_steps. cbn [fst].
    split_and!; [done|done|done|lia|lia|done|lia].
  - assert (¬ responds s a) as Ha.
    { intros [H1%Z.eqb_neq H2%Z.eqb_neq]. fold v' in H1, H2. rewrite H1, H2 in E. done. }
    eapply wp_mono; [apply IH; [done|done|apply Hx]|]. intros r s' (Hd' & Hok' & Hv & Hr). cbn [mac with_mac] in Hv.
    assert (∀ b, responds (with_mac x s) b ↔ responds s b) as Heq.
    { intros b. unfold responds. cbn [mac with_mac]. by rewrite (same_regs _ _ Hx) by (unfold ETH_PHY_IDR1_REG_ADDR; lia || done). }
    split_and!; [done|done|exact (same_phy_trans _ _ _ Hx Hv)|].
    destruct (r.1) as [a'|].
    + destruct Hr as (Hr & Hres & Hno). split_and!; [lia|lia|by apply Heq|]. intros b Hb. destruct (decide (b = a)) as [->|]; [done|].
      rewrite <- Heq. apply Hno. lia.
    + intros b Hb. destruct (decide (b = a)) as [->|]; [done|]. rewrite <- Heq. apply Hr. lia.
Qed.

(** with a MAC that reads what the registers hold, the detection of the PHY ends and
    gives the first of the 32 addresses where a PHY answers, or [ESP_ERR_NOT_FOUND] when
    none does. *)
Theorem detect_finds_first s d :
  driver s = Some d → mac_ok (mac s) → phy_steady (mac s) →
  wp (esp_eth_phy_802_3_detect_phy_addr None true true) s (λ r _,
    (∃ a, r = (ESP_OK, a) ∧ 0 ≤ a < 32 ∧ responds s a ∧ ∀ b, 0 ≤ b < a → ¬ responds s b) ∨
    r.1 = ESP_ERR_NOT_FOUND ∧ ∀ b, 0 ≤ b < 32 → ¬ responds s b).
Proof.
  intros Hd Hok Hs. unfold esp_eth_phy_802_3_detect_phy_addr. cbn [negb orb detect_rounds].
  apply wp_bind. eapply wp_mono; [by apply (wp_try_addrs 32)|]. intros [[a|] v] s1 (Hd1 & Ho1 & Hv1 & Hr); cbn [fst snd] in *.
  { apply wp_ret. left. by exists a. }
  assert (∀ s', same_phy (mac s) (mac s') → ∀ b, responds s' b ↔ responds s b) as Heq.
  { intros s' Hs' b. unfold responds. by rewrite (same_regs _ _ Hs') by (unfold ETH_PHY_IDR1_REG_ADDR; lia || done). }
  apply wp_bind. eapply wp_mono; [apply (wp_try_addrs 32); [done|done|apply Hv1]|]. intros [[a|] v2] s2 (Hd2 & Ho2 & Hv2 & Hr2); cbn [fst snd] in *.
  { destruct Hr2 as (Ha & Hres & _). exfalso. apply (Hr a); [lia|]. by apply (Heq s1). }
  apply wp_bind. eapply wp_mono; [apply (wp_try_addrs 32); [done|done|apply Hv2]|]. intros [[a|] v3] s3 (_ & _ & _ & Hr3); cbn [fst snd] in *.
  { destruct Hr3 as (Ha & Hres & _). exfalso. apply (Hr a); [lia|]. apply (Heq s2); [exact (same_phy_trans _ _ _ Hv1 Hv2)|done]. }
  apply wp_ret. right. split; [done|]. intros b Hb. apply Hr. lia.
Qed.

End spec.

(** ** A simulated MAC, with a PHY at address 1 *)

(** [sim_now] is BMSR at present. *)
Record sim : Type := mkSim { sim_up : bool; sim_reg : Z → Z; sim_now : Z }.

Definition sim_regs (x : sim) (a r : Z) : Z := if a =? 1 then sim_reg x r else 0xFFFF.
(** A read ends the latch of BMSR. *)
Definition sim_read (a r : Z) : M sim (esp_err_t * option Z) := λ x,
  Done (if (a =? 1) && (r =? ETH_PHY_BMSR_REG_ADDR) then mkSim (sim_up x) (λ r', if r' =? r then sim_now x else sim_reg x r') (sim_now x) else x)
    (ESP_OK, Some (sim_regs x a r)).
(** A reset of the PHY gives BMCR its default. *)
Definition sim_write (a r v : Z) (x : sim) : sim :=
  if a =? 1 then
    mkSim (sim_up x) (λ r', if r' =? r then (if (r =? ETH_PHY_BMCR_REG_ADDR) && bit v reset_bit then 0x3100 else v) else sim_reg x r') (sim_now x)
  else x.
(** It is started and stopped only once. *)
Definition sim_link (l : eth_link_t) : M sim esp_err_t := λ x,
  match l, sim_up x with
  | ETH_LINK_UP, false => Done (mkSim true (sim_reg x) (sim_now x)) ESP_OK
  | ETH_LINK_DOWN, true => Done (mkSim false (sim_reg x) (sim_now x)) ESP_OK
  | _, _ => Done x ESP_ERR_INVALID_STATE
  end.

#[export] Instance sim_mac : EthMac sim := {|
  mac_set_mediator _ := mret ESP_OK;
  mac_init llinit _ := modify (λ x, mkSim false (sim_reg x) (sim_now x));; mret llinit;
  mac_deinit deinit := mret deinit;
  mac_set_link := sim_link;
  mac_set_speed _ := mret ESP_OK;
  mac_set_duplex _ := mret ESP_OK;
  mac_set_peer_pause_ability _ := mret ESP_OK;
  mac_read_phy_reg := sim_read;
  mac_write_phy_reg a r v := modify (sim_write a r v);; mret ESP_OK;
  mac_transmit _ := mret ESP_OK;
  mac_transmit_ctrl_vargs := None;
  mac_set_addr _ := mret ESP_OK;
  mac_get_addr := mret (ESP_OK, [0; 0; 0; 0; 0; 1]);
  mac_set_promiscuous _ := mret ESP_OK;
  mac_set_all_multicast := None;
  mac_enable_flow_ctrl _ := mret ESP_OK;
  mac_add_mac_filter := None;
  mac_rm_mac_filter := None
|}.
#[export] Instance sim_view : MacView sim := {|
  mac_up := sim_up; mac_ok _ := True; phy_steady _ := True; regs := sim_regs; bmsr_now x a := if a =? 1 then sim_now x else 0xFFFF
|}.
Lemma sim_same x u : same_phy x (mkSim u (sim_reg x) (sim_now x)).
Proof. split; [done|done|done|by left]. Qed.
#[export] Instance sim_reliable : ReliableMac sim.
Proof.
  split; try done.
  - intros [] _ Hx. cbn in *. subst. split; [done|]. split; [done|done|]. intros _. apply (sim_same (mkSim _ _ _)).
  - intros [] _ Hx. cbn in *. subst. split; [done|]. split; [done|done|]. intros _. apply (sim_same (mkSim _ _ _)).
  - intros v _ x _. split; [done|]. split; [done|done|]. intros _. destruct x. apply sim_same.
  - intros v _ x _. split; [done|]. split; [done|done|]. intros _. destruct x. apply sim_same.
  - intros a x _. split; [done|]. split; [done|done|]. intros _. destruct x. apply sim_same.
  - intros a r x _. exists (sim_regs x a r). split_and!; [done|by cbn; case_match|done|]. intros _. split; [done|].
    cbn. unfold sim_regs. destruct (Z.eqb_spec a 1) as [->|Ha]; cbn [andb].
    + destruct (Z.eqb_spec r ETH_PHY_BMSR_REG_ADDR) as [->|Hr].
      * split; [|done]. split; [done|done| |].
        -- intros a r _ Hr%Z.eqb_neq. cbn. unfold sim_regs. cbn. by rewrite Hr.
        -- intros a. cbn. unfold sim_regs. destruct (a =? 1); by right.
      * split; [|done]. destruct x. apply sim_same.
    + split; [destruct x; apply sim_same|done].
  - intros a r v x _. cbn. split_and!; try done. unfold sim_write. by destruct (a =? 1).
Qed.

(** A link at 100 Mbit/s, full duplex, autonegotiation on, and the identity of the DM9051. *)
Definition sim_phy : Z → Z := λ r,
  if r =? ETH_PHY_BMCR_REG_ADDR then 0x3100 else if r =? ETH_PHY_BMSR_REG_ADDR then 0x0024
  else if r =? ETH_PHY_IDR1_REG_ADDR then 0x0181 else if r =? ETH_PHY_IDR2_REG_ADDR then 0xB8A0 else 0.
Definition sim_sys (d : option esp_eth_driver_t) : eth_sys sim :=
  mkSys d (mkPhy true ESP_ETH_PHY_ADDR_AUTO 100 4000 ETH_LINK_DOWN (-1) 100 (-1)) (mkSim false sim_phy 0x0024) [] [] [] [] [] [].
Definition sim_driver : esp_eth_driver_t :=
  mkDriver (Some false) 2000 true ETH_SPEED_10M ETH_DUPLEX_HALF ETH_LINK_DOWN 1 0 ESP_ETH_FSM_STOP (Some false) None None None None.

Lemma detect_finds_first_witness :
  wp (esp_eth_phy_802_3_detect_phy_addr None true true) (sim_sys (Some sim_driver)) (λ r _, r = (ESP_OK, 1)) ∧
  wp (esp_eth_phy_802_3_detect_phy_addr None true true) (sim_sys (Some sim_driver)) (λ r _,
    (∃ a, r = (ESP_OK, a) ∧ 0 ≤ a < 32 ∧ responds (sim_sys (Some sim_driver)) a ∧
       ∀ b, 0 ≤ b < a → ¬ responds (sim_sys (Some sim_driver)) b) ∨
    r.1 = ESP_ERR_NOT_FOUND ∧ ∀ b, 0 ≤ b < 32 → ¬ responds (sim_sys (Some sim_driver)) b).
Proof. split; [vm_compute; reflexivity|]. by apply (detect_finds_first _ sim_driver). Defined.
