(* ===== verification/EthLife.v ===== *)
(** * The Ethernet driver: every run of the API

    The API, the link timer and the frames that arrive are the steps of a system.  In
    every state that it reaches with a MAC whose calls succeed ([ReliableMac]) and an event
    loop that accepts every event, the link of the driver, the link status of the PHY, the
    state of the MAC, the timer and the events agree, and a tick of the timer brings them
    to the present link.  [EthSafe] is about what holds when calls fail. *)
From Stdlib Require Import ZArith Lia.
From stdpp Require Import base numbers option list relations.
From S2P Require Import Prelude Dm9051 EthPhy Eth EthSpec.

Open Scope Z_scope.

Section life.
Context {X : Type} `{!EthMac X, !MacView X, !ReliableMac X}.
Abbreviation sys := (eth_sys X).
Implicit Types (s : sys) (d : esp_eth_driver_t) (x : X).
Abbreviation P := (esp_eth_phy_new_dm9051 (X := X) None None).

(** ** The invariant *)

(** Where the events stand. *)
Definition phase_of d : phase :=
  if decide (link d = ETH_LINK_UP) then LinkUp
  else if decide (check_link_timer d = Some true) then NoLink else Stopped.

Record good s d : Prop := {
  good_driver : driver s = Some d;
  good_eth : phy_eth (phy s) = true;
  good_events : event_answers s = [];
  good_status : link_status (phy s) = link d;
  good_link : link d ≠ ETH_LINK_OTHER;
  good_ok : mac_ok (mac s);
  good_mac : mac_up (mac s) = bool_decide (link d = ETH_LINK_UP);
  good_timer : check_link_timer d ≠ None;
  good_armed : check_link_timer d = Some true → fsm d = ESP_ETH_FSM_START;
  good_up : link d = ETH_LINK_UP → check_link_timer d = Some true;
  good_mutex : transmit_mutex d = Some false;
  good_trace : trace (events s) = Some (phase_of d)
}.

Lemma good_synced s d : good s d → synced s d.
Proof. intros []. split; [done..|congruence|done|]. by rewrite good_status0. Qed.

(** With the timer off there is no link. *)
Lemma good_down s d : good s d → check_link_timer d = Some false → link d = ETH_LINK_DOWN.
Proof. intros [] Ht. destruct (link d); [|done..]. by rewrite good_up0 in Ht. Qed.

Lemma good_stop s d : good s d → fsm d = ESP_ETH_FSM_STOP → check_link_timer d = Some false.
Proof. intros [] Hf. destruct (check_link_timer d) as [[]|]; [|done..]. by rewrite good_armed0 in Hf. Qed.

(** ** Code that keeps the invariant

    [Φ] is a property of the driver that does not depend on autonegotiation. *)
Section pres.
Context (Φ : esp_eth_driver_t → Prop) (HΦ : ∀ b d, Φ d → Φ (set_auto_nego b d)).

Definition at_ s : Prop := ∃ d, good s d ∧ Φ d.
Record Pres {A : Type} (m : ES X A) : Prop := mkPres { pres : ∀ s, at_ s → wp m s (λ _ s', at_ s') }.

Lemma pres_ret {A} (a : A) : Pres (mret a).
Proof. split. intros s Hs. by apply wp_ret. Qed.
Lemma pres_bind {A B} (m : ES X A) (k : A → ES X B) : Pres m → (∀ a, Pres (k a)) → Pres (m ≫= k).
Proof. intros Hm Hk. split. intros s Hs. apply wp_bind. eapply wp_mono; [by apply Hm|]. intros a s' Hs'. by apply Hk. Qed.
Lemma pres_get : Pres get.
Proof. split. intros s Hs. by apply wp_get. Qed.
Lemma pres_try m k : Pres m → Pres k → Pres (try_ m k).
Proof. intros Hm Hk. apply pres_bind; [done|]. intros e. destruct (decide (e = ESP_OK)); [done|apply pres_ret]. Qed.
Lemma pres_the_driver : Pres the_driver.
Proof. split. intros s (d & Hg & Hd). eapply wp_the_driver; [apply Hg|]. by exists d. Qed.

(** The MAC may change as long as it stays up or down, the PHY as long as its link status
    stays. *)
Lemma at_mac x s : mac_up x = mac_up (mac s) → mac_ok x → at_ s → at_ (with_mac x s).
Proof. intros Hx Hxok (d & [] & Hd). exists d. split; [|done]. split; cbn; done || congruence. Qed.
Lemma at_phy p s : link_status p = link_status (phy s) → phy_eth p = phy_eth (phy s) → at_ s → at_ (with_phy p s).
Proof. intros Hp Hp' (d & [] & Hd). exists d. split; [|done]. split; cbn; done || congruence. Qed.

Lemma at_ok s : at_ s → mac_ok (mac s).
Proof. intros (d & Hg & _). apply Hg. Qed.

Lemma pres_on_mac {A} (m : M X A) Q : keeps_up m Q → Pres (on_mac m).
Proof.
  intros Hm. split. intros s Hs. apply wp_on_mac. eapply wp_mono; [apply Hm, (at_ok _ Hs)|]. intros r x (_ & Hx & Hxok). by apply at_mac.
Qed.

Lemma pres_reg_read a r : Pres (eth_phy_reg_read None a r).
Proof.
  apply pres_bind; [apply pres_the_driver|]. intros _. split. intros s Hs. apply wp_on_mac. eapply wp_mono; [apply rel_read, (at_ok _ Hs)|].
  intros v x (w & _ & Hx & Hxok & _). by apply at_mac.
Qed.
Lemma pres_reg_write a r v : Pres (eth_phy_reg_write None a r v).
Proof. apply pres_bind; [apply pres_the_driver|]. intros _. eapply pres_on_mac, rel_write. Qed.

Lemma pres_read_reg reg k : (∀ v, Pres (k v)) → Pres (read_reg None reg k).
Proof.
  intros Hk. split. intros s (d & Hg & Hd). eapply wp_read_reg; [apply Hg..|]. intros x v Hx _. apply Hk, at_mac; [apply Hx..|]. by exists d.
Qed.
Lemma pres_write_reg reg v k : Pres k → Pres (write_reg None reg v k).
Proof. intros Hk. split. intros s (d & Hg & Hd). eapply wp_write_reg; [apply Hg..|]. intros x Hx Hxok. apply Hk, at_mac; [done..|]. by exists d. Qed.

Lemma pres_poll_reg n reg done timeout k : Pres timeout → Pres k → Pres (poll_reg None n reg done timeout k).
Proof. intros Ht Hk. induction n as [|n IH]; cbn; [done|]. apply pres_read_reg. intros v. by destruct (done v). Qed.

Lemma pres_set_addr a : Pres (mod_phy (set_phy_addr a)).
Proof. split. intros s Hs. apply wp_modify, at_phy; done. Qed.
Lemma pres_auto_nego b : Pres (mod_driver (set_auto_nego b)).
Proof.
  split. intros s (d & Hg & Hd). eapply wp_mod_driver; [apply Hg|]. exists (set_auto_nego b d). split; [|by apply HΦ].
  destruct Hg. by split.
Qed.
Lemma pres_down : (∀ d, Φ d → check_link_timer d = Some false) → Pres (mod_phy (set_link_status ETH_LINK_DOWN)).
Proof.
  intros Hoff. split. intros s (d & Hg & Hd). apply wp_modify, at_phy; [|done|by exists d]. cbn. symmetry. rewrite (good_status _ _ Hg).
  eapply good_down; [done|by apply Hoff].
Qed.
End pres.

(** Execution by these rules and by what is known of whole functions. *)
Create HintDb eth_pres discriminated.
Ltac pres_step :=
  first
    [ solve [auto with eth_pres nocore]
    | lazymatch goal with
      | |- Pres _ (mret _) => apply pres_ret
      | |- Pres _ (try_ _ _) => apply pres_try
      | |- Pres _ (read_reg _ _ _) => apply pres_read_reg; intros
      | |- Pres _ (write_reg _ _ _ _) => apply pres_write_reg
      | |- Pres _ (poll_reg _ _ _ _ _ _) => apply pres_poll_reg
      | |- Pres _ get => apply pres_get
      | |- Pres _ the_driver => apply pres_the_driver
      | |- Pres _ (eth_phy_reg_read _ _ _) => apply pres_reg_read
      | |- Pres _ (eth_phy_reg_write _ _ _ _) => apply pres_reg_write
      | |- Pres _ (mod_phy (set_phy_addr _)) => apply pres_set_addr
      | |- Pres _ (mod_phy (set_link_status _)) => by apply pres_down
      | |- Pres _ (mod_driver (set_auto_nego _)) => by apply pres_auto_nego
      | |- Pres _ (on_mac _) =>
          eapply pres_on_mac; solve [by apply rel_set_addr | apply rel_get_addr | apply rel_promiscuous | apply rel_flow | apply rel_transmit]
      | |- Pres _ (_ ≫= _) => apply pres_bind; [|intros]
      | |- Pres _ (match ?x with _ => _ end) => destruct x eqn:?
      end ].
Ltac pres_steps := repeat pres_step.

(** ** The PHY *)

Section phy.
Context (Φ : esp_eth_driver_t → Prop) (HΦ : ∀ b d, Φ d → Φ (set_auto_nego b d)).
Abbreviation Pres := (Pres Φ).
Abbreviation autonego_ctrl cmd := (esp_eth_phy_802_3_autonego_ctrl None None cmd (λ b, mod_driver (set_auto_nego b))).

Lemma pres_pwrctl b : Pres (esp_eth_phy_802_3_pwrctl None None b).
Proof using All. unfold esp_eth_phy_802_3_pwrctl. pres_steps. Qed.
Lemma pres_loopback b : Pres (dm9051_loopback None None b).
Proof using All. unfold dm9051_loopback. pres_steps. Qed.
Lemma pres_advertise v : Pres (esp_eth_phy_802_3_advertise_pause_ability None None v).
Proof using All. unfold esp_eth_phy_802_3_advertise_pause_ability. pres_steps. Qed.

Lemma pres_try_addrs n a v : Pres (try_addrs None n a v).
Proof using All. revert a v. induction n as [|n IH]; intros a v; cbn; pres_steps; apply IH. Qed.
Lemma pres_detect_rounds n v : Pres (detect_rounds None n v).
Proof using All. revert v. induction n as [|n IH]; intros v; cbn [detect_rounds]; [pres_steps|]. apply pres_bind; [apply pres_try_addrs|]. intros r. pres_steps. Qed.
Lemma pres_detect b b' : Pres (esp_eth_phy_802_3_detect_phy_addr None b b').
Proof using All. unfold esp_eth_phy_802_3_detect_phy_addr. pres_steps. apply pres_detect_rounds. Qed.

Context (Hoff : ∀ d, Φ d → check_link_timer d = Some false).

Lemma pres_reset : Pres (esp_eth_phy_802_3_reset None None).
Proof using All. unfold esp_eth_phy_802_3_reset. pres_steps. Qed.
#[local] Hint Resolve pres_pwrctl pres_reset pres_detect : eth_pres.
Lemma pres_dm9051_init : Pres (dm9051_init None None).
Proof using All.
  unfold dm9051_init, esp_eth_phy_802_3_basic_phy_init, esp_eth_phy_802_3_read_oui, esp_eth_phy_802_3_read_manufac_info, try_val.
  pres_steps.
Qed.
Lemma pres_autonego cmd : Pres (autonego_ctrl cmd).
Proof using All. unfold esp_eth_phy_802_3_autonego_ctrl. pres_steps. Qed.
Lemma pres_set_speed v : Pres (dm9051_set_speed None None v).
Proof using All. unfold dm9051_set_speed, esp_eth_phy_802_3_set_speed. pres_steps. Qed.
Lemma pres_set_duplex v : Pres (esp_eth_phy_802_3_set_duplex None None v).
Proof using All. unfold esp_eth_phy_802_3_set_duplex. pres_steps. Qed.
End phy.
#[local] Hint Resolve pres_pwrctl pres_loopback pres_advertise pres_dm9051_init pres_autonego pres_set_speed pres_set_duplex : eth_pres.

(** ** [esp_eth_ioctl] *)

(** The bytes that a command reads or writes behind its argument. *)
Definition data_size (cmd : esp_eth_io_cmd_t) : nat :=
  match cmd with
  | ETH_CMD_G_MAC_ADDR | ETH_CMD_S_MAC_ADDR | ETH_CMD_ADD_MAC_FILTER | ETH_CMD_DEL_MAC_FILTER => 6
  | ETH_CMD_G_AUTONEGO | ETH_CMD_S_AUTONEGO | ETH_CMD_S_PROMISCUOUS | ETH_CMD_S_PHY_LOOPBACK | ETH_CMD_S_ALL_MULTICAST => 1
  | _ => 4
  end.
(** The argument is null, except for the address of the PHY, or large enough. *)
Definition data_ok (cmd : esp_eth_io_cmd_t) (data : ioctl_data) : Prop :=
  match cmd, data with
  | (ETH_CMD_READ_PHY_REG | ETH_CMD_WRITE_PHY_REG), (NoData | RegData _ _) => True
  | (ETH_CMD_READ_PHY_REG | ETH_CMD_WRITE_PHY_REG), Bytes _ => False
  | ETH_CMD_S_PHY_ADDR, NoData => False
  | _, NoData => True
  | _, Bytes l => (data_size cmd ≤ length l)%nat
  | _, RegData _ _ => False
  end.

Lemma pres_data_bytes Φ data n k :
  match data with NoData => True | Bytes l => (n ≤ length l)%nat | RegData _ _ => False end →
  (∀ l, length l = n → Pres Φ (k l)) → Pres Φ (data_bytes (X := X) data n k).
Proof.
  intros Hd Hk. unfold data_bytes. destruct data as [|l|]; [apply pres_ret| |done].
  rewrite decide_True by done. apply Hk. rewrite length_take. lia.
Qed.

Lemma pres_no_value Φ m : Pres Φ m → Pres Φ (no_value (X := X) m).
Proof. intros. unfold no_value. pres_steps. Qed.

Lemma pres_maybe {B} Φ (f : option (B → M X esp_err_t)) g b : f = Some g → maybe_keeps_up f → Pres Φ (on_mac (g b)).
Proof. intros -> Hf. eapply pres_on_mac, Hf. Qed.

Lemma wp_ioctl s d cmd data :
  good s d → data_ok cmd data → wp (esp_eth_ioctl None None P true cmd data) s (λ _ s', ∃ d', good s' d').
Proof.
  intros Hg Hok. set (Φ d' := fsm d' = fsm d ∧ check_link_timer d' = check_link_timer d).
  assert (HΦ : ∀ b d', Φ d' → Φ (set_auto_nego b d')) by done.
  assert (Hoff : fsm d = ESP_ETH_FSM_STOP → ∀ d', Φ d' → check_link_timer d' = Some false).
  { intros Hf d' [_ ->]. by eapply good_stop. }
  unfold esp_eth_ioctl. cbn [negb]. apply wp_bind. eapply wp_the_driver; [apply Hg|]. cbv zeta.
  match goal with |- wp ?m _ _ => enough (Pres Φ m) as Hm end.
  { eapply wp_mono; [apply (pres _ _ Hm); by exists d|]. intros _ s' (d' & Hd' & _). by exists d'. }
  clearbody Φ. destruct cmd; cbn [phy_set_speed phy_loopback esp_eth_phy_new_dm9051].
  all: unfold data_bool, data_u32, esp_eth_phy_802_3_set_addr, esp_eth_phy_802_3_get_addr.
  all: repeat first
    [ pres_step | apply pres_no_value | done
    | apply pres_data_bytes; [by destruct data; cbn in *; lia || done|intros]
    | eapply pres_maybe; [eassumption|first [apply rel_multicast|apply rel_add_filter|apply rel_rm_filter]] ].
Qed.

(** ** The link timer *)

(** What a tick makes of the driver and which event it posts, for the link [l]. *)
Definition tick_driver d (l : eth_link_t) (bmcr : Z) : esp_eth_driver_t := if decide (link d = l) then d else linked d l bmcr.
Definition tick_events d (l : eth_link_t) : list eth_event_t :=
  if decide (link d = l) then [] else [link_event l].

(** The invariant, but for the timer, which is to be armed. *)
Definition running s d : Prop := driver s = Some d ∧ good (with_driver (Some (set_timer (Some true) d)) s) (set_timer (Some true) d).

Lemma running_good s d : check_link_timer d = Some true → running s d ↔ good s d.
Proof.
  intros Ht. assert (set_timer (Some true) d = d) as Hd by (destruct d; cbn in Ht; by subst).
  assert (driver s = Some d → with_driver (Some d) s = s) as Hs by (intros Hs; destruct s; cbn in Hs; by subst).
  unfold running. rewrite Hd. split; [intros [??]; by rewrite <- Hs|]. intros Hg. pose proof (good_driver _ _ Hg). by rewrite Hs.
Qed.

Lemma running_synced s d : running s d → synced s d.
Proof. intros [Hd []]. cbn in *. split; [done..|congruence|done|]. by rewrite good_status0. Qed.

Lemma wp_running_get_link s d :
  running s d →
  wp (phy_get_link P) s (λ r s', r = ESP_OK ∧ ∃ l bmcr,
    (phy_steady (mac s) → l = phy_link s ∧ bmcr = phy_reg s ETH_PHY_BMCR_REG_ADDR) ∧
    running s' (tick_driver d l bmcr) ∧ events s' = events s ++ tick_events d l).
Proof.
  intros Hr. pose proof (running_synced _ _ Hr) as Hs. destruct Hr as [Hd Hg]. pose proof (good_status _ _ Hg) as Hst. cbn in Hst.
  apply (wp_get_link s d _ Hs). intros l bmcr Hl Hval. rewrite Hst. split.
  - intros Heq x Hx. split; [done|]. exists l, bmcr. unfold tick_driver, tick_events. rewrite !decide_True, app_nil_r by done.
    split_and!; [done| |done]. split; [done|]. destruct Hg.
    split; cbn in *; try done; [apply Hx|]. by rewrite (sw_up _ _ _ Hx).
  - intros Heq x Hx. split; [done|]. exists l, bmcr. unfold tick_driver, tick_events. rewrite !(decide_False (P := link d = l)) by done.
    split_and!; [done| |done]. split; [done|].
    destruct Hg as [_ He Hev _ Hk _ _ _ Ha _ Hmu Htr]. pose proof (sw_ok _ _ _ Hx). pose proof (sw_up _ _ _ Hx). clear Hs Hval. destruct Hl as [-> | ->]; destruct (link d) eqn:Hld; try done.
    + split; try done. cbn [events with_driver relinked]. erewrite trace_snoc by exact Htr. unfold phase_of. cbn. by rewrite Hld.
    + split; try done. cbn [events with_driver relinked]. erewrite trace_snoc by exact Htr. unfold phase_of. cbn. by rewrite Hld.
Qed.

(** ** Starting and stopping *)

Lemma good_set_fsm_start s d : good s d → good (with_driver (Some (set_fsm ESP_ETH_FSM_START d)) s) (set_fsm ESP_ETH_FSM_START d).
Proof. intros []. by split. Qed.

Lemma good_starting s d :
  good s d → fsm d = ESP_ETH_FSM_START → check_link_timer d = Some false →
  running (mkSys (driver s) (phy s) (mac s) (answers s) [] (input_answers s) (events s ++ [ETHERNET_EVENT_START]) (inputs s) (levels s)) d.
Proof.
  intros Hg Hf Ht. pose proof (good_down _ _ Hg Ht) as Hl. destruct Hg. split; [done|]. split; cbn [events with_driver]; try done.
  erewrite trace_snoc by done. unfold phase_of. cbn. by rewrite Hl, Ht.
Qed.

Lemma tick_driver_timer d l bmcr : check_link_timer (tick_driver d l bmcr) = check_link_timer d.
Proof. unfold tick_driver, linked. by repeat destruct (decide _). Qed.

Lemma wp_start s d :
  good s d →
  wp (esp_eth_start None None P true) s (λ r s', ∃ d', good s' d' ∧ (r = ESP_OK → check_link_timer d' = Some true)).
Proof.
  intros Hg. unfold esp_eth_start. cbn [negb]. apply wp_bind. eapply wp_the_driver; [apply Hg|].
  destruct (decide (fsm d = ESP_ETH_FSM_STOP)) as [Hf|Hf]; [|apply wp_ret; by exists d].
  apply wp_bind. eapply wp_mod_driver; [apply Hg|]. pose proof (good_stop _ _ Hg Hf) as Ht.
  set (Φ d := fsm d = ESP_ETH_FSM_START ∧ check_link_timer d = Some false).
  assert (at_ Φ (with_driver (Some (set_fsm ESP_ETH_FSM_START d)) s)) as Hs.
  { exists (set_fsm ESP_ETH_FSM_START d). split; [by apply good_set_fsm_start|done]. }
  apply wp_try. eapply wp_mono.
  { apply (pres Φ); [|exact Hs]. destruct (auto_nego_en d); [|apply pres_ret]. apply pres_autonego; [done|by intros ? []]. }
  intros r s1 (d1 & Hg1 & Hf1 & Ht1). destruct (decide (r = ESP_OK)) as [->|]; [|by exists d1].
  apply wp_try, wp_event_post; [apply Hg1|]. rewrite decide_True by done. apply wp_try.
  eapply wp_mono; [by apply wp_running_get_link, good_starting|]. intros r s2 (-> & l & bmcr & _ & [Hd2 Hg2] & _). rewrite decide_True by done.
  apply wp_try. unfold link_timer_start. apply wp_bind. eapply wp_the_driver; [done|].
  rewrite tick_driver_timer, Ht1. apply wp_bind. eapply wp_mod_driver; [done|]. apply wp_ret. rewrite decide_True by done.
  apply wp_ret. eauto.
Qed.

(** The state after a stop, from a link or without one. *)
Lemma good_stopped s d s' d' (evs : list eth_event_t) :
  good s d → check_link_timer d = Some true →
  evs = (if decide (link d = ETH_LINK_UP) then [ETHERNET_EVENT_DISCONNECTED] else []) →
  driver s' = Some d' → phy_eth (phy s') = true → event_answers s' = [] → link_status (phy s') = ETH_LINK_DOWN →
  mac_ok (mac s') → mac_up (mac s') = false → events s' = (events s ++ evs) ++ [ETHERNET_EVENT_STOP] →
  d' = set_link ETH_LINK_DOWN (set_timer (Some false) (set_fsm ESP_ETH_FSM_STOP d)) →
  good s' d'.
Proof.
  intros [] Ht -> Hd He Hev Hst Hok Hm Hevs ->. split; try done. rewrite Hevs, (trace_snoc _ _ NoLink); [done|]. unfold phase_of in good_trace0.
  destruct (decide (link d = ETH_LINK_UP)); [by rewrite (trace_snoc _ _ LinkUp)|]. rewrite app_nil_r, good_trace0. by rewrite decide_True.
Qed.

Lemma wp_stop s d :
  good s d →
  wp (esp_eth_stop true) s (λ r s', ∃ d', good s' d' ∧ (r = ESP_OK → fsm d' = ESP_ETH_FSM_STOP)).
Proof.
  intros Hg. unfold esp_eth_stop. cbn [negb]. apply wp_bind. eapply wp_the_driver; [apply Hg|].
  destruct (decide (fsm d = ESP_ETH_FSM_START)) as [Hf|Hf]; [|apply wp_ret; by exists d].
  apply wp_bind. eapply wp_mod_driver; [apply Hg|]. apply wp_try. unfold link_timer_stop. apply wp_bind. eapply wp_the_driver; [done|].
  cbn [check_link_timer set_fsm]. destruct (check_link_timer d) as [[]|] eqn:Ht; [| |by destruct (good_timer _ _ Hg)].
  2:{ apply wp_ret. rewrite decide_False by done. exists (set_fsm ESP_ETH_FSM_STOP d). split; [|done].
      pose proof (good_down _ _ Hg Ht) as Hl. destruct Hg. split; cbn; try done; by rewrite ?Ht, ?Hl. }
  apply wp_bind. eapply wp_mod_driver; [done|]. apply wp_ret. rewrite decide_True by done. apply wp_bind. eapply wp_the_driver; [done|].
  apply wp_try. cbn [link set_timer set_fsm].
  pose proof Hg as [_ He Hev Hst Hk Hok Hm _ _ _ _ _]. destruct (decide (link d = ETH_LINK_UP)) as [Hl|Hl].
  - apply wp_bind. eapply wp_mod_driver; [done|]. unfold esp_eth_phy_802_3_set_link. wp_steps. cbn [phy with_driver]. rewrite decide_False by congruence.
    unfold mod_phy. wp_steps. cbn [phy with_driver]. rewrite He. cbn [negb]. apply wp_try. eapply wp_on_link; [done|done|done|by right| |].
    { cbn. by rewrite Hm, Hl. }
    intros x Hx. rewrite decide_True by done. apply wp_ret. rewrite decide_True by done.
    apply wp_try, wp_event_post; [done|]. rewrite decide_True by done. apply wp_ret.
    exists (set_link ETH_LINK_DOWN (set_timer (Some false) (set_fsm ESP_ETH_FSM_STOP d))). split; [|done].
    eapply good_stopped; try done; [apply Hx..|by rewrite decide_True].
  - assert (link d = ETH_LINK_DOWN) as Hld by (destruct (link d); done).
    apply wp_ret. rewrite decide_True by done. apply wp_try, wp_event_post; [done|]. rewrite decide_True by done. apply wp_ret.
    exists (set_timer (Some false) (set_fsm ESP_ETH_FSM_STOP d)). split; [|done].
    eapply (good_stopped _ _ _ _ []); [done|done| |done|done|done|by cbn; congruence|done| | |].
    + by rewrite decide_False.
    + cbn. by rewrite Hm, Hld.
    + cbn. by rewrite app_nil_r.
    + unfold set_link, set_timer, set_fsm. cbn. by rewrite Hld.
Qed.

(** ** Transmission, input path, references *)

(** The driver may change where the invariant does not look. *)
Lemma good_same s d d' :
  good s d → check_link_timer d' = check_link_timer d → link d' = link d → fsm d' = fsm d → transmit_mutex d' = transmit_mutex d →
  good (with_driver (Some d') s) d'.
Proof. intros [] Ht Hl Hf Hm. unfold phase_of in *. split; cbn [driver with_driver phy mac events]; unfold phase_of; rewrite ?Ht, ?Hl, ?Hf, ?Hm; done. Qed.

Lemma good_answers s d l : good s d → good (with_answers l s) d.
Proof. intros []. by split. Qed.

Lemma wp_transmit_locked {B} s d (f : option (B → M X esp_err_t)) g b :
  good s d → f = Some g → maybe_keeps_up f → wp (transmit_locked (on_mac (g b))) s (λ _ s', ∃ d', good s' d').
Proof.
  intros Hg -> Hf. unfold transmit_locked. apply wp_bind. eapply wp_the_driver; [apply Hg|]. rewrite (good_mutex _ _ Hg). apply wp_bind. unfold next_answer. cbn. destruct (default true (head (answers s))); cbn [negb].
  2:{ apply wp_ret. exists d. by apply good_answers. }
  apply wp_bind. eapply wp_mod_driver; [apply Hg|]. apply wp_bind, wp_on_mac. eapply wp_mono; [apply Hf, Hg|]. intros r x (_ & Hx & Hxok).
  apply wp_bind. eapply wp_mod_driver; [done|]. apply wp_ret. eexists. destruct Hg. split; try done. cbn in *. congruence.
Qed.

Lemma wp_transmit s d buf : good s d → wp (esp_eth_transmit true buf) s (λ _ s', ∃ d', good s' d').
Proof.
  intros Hg. unfold esp_eth_transmit. apply wp_bind. eapply wp_the_driver; [apply Hg|].
  destruct (decide (link d = ETH_LINK_UP)); [|apply wp_ret; by exists d]. destruct buf as [[|b data]|]; try by (apply wp_ret; exists d).
  eapply (wp_transmit_locked _ _ (Some mac_transmit)); [done|done|]. intros ?. apply rel_transmit.
Qed.

Lemma wp_transmit_vargs s d args :
  good s d → mac_transmit_ctrl_vargs (X := X) ≠ None → wp (esp_eth_transmit_ctrl_vargs true args) s (λ _ s', ∃ d', good s' d').
Proof.
  intros Hg Hv. unfold esp_eth_transmit_ctrl_vargs. apply wp_bind. eapply wp_the_driver; [apply Hg|].
  destruct (decide (link d = ETH_LINK_UP)); [|apply wp_ret; by exists d]. destruct mac_transmit_ctrl_vargs eqn:Hf; [|done].
  eapply wp_transmit_locked; [done|done|apply rel_vargs].
Qed.

(** A change of the driver by its user. *)
Lemma wp_good_mod s d f (r : esp_err_t) :
  good s d → check_link_timer (f d) = check_link_timer d → link (f d) = link d → fsm (f d) = fsm d → transmit_mutex (f d) = transmit_mutex d →
  wp (mod_driver f;; mret r) s (λ _ s', ∃ d', good s' d').
Proof. intros. apply wp_bind. eapply wp_mod_driver; [by eapply good_driver|]. apply wp_ret. eexists. by eapply good_same. Qed.

Lemma wp_stack_input s d buffer : good s d → wp (eth_stack_input buffer) s (λ _ s', ∃ d', good s' d').
Proof.
  intros Hg. unfold eth_stack_input. apply wp_bind. eapply wp_the_driver; [apply Hg|]. unfold call_input, free_buffer.
  destruct (input_fun d), (input_info_fun d); exists d; destruct Hg; by split.
Qed.

(** ** Installing and uninstalling *)

(** What holds of the events, of the PHY and of the MAC without a link. *)
Definition calm s : Prop :=
  event_answers s = [] ∧ trace (events s) = Some Stopped ∧ link_status (phy s) = ETH_LINK_DOWN ∧ mac_up (mac s) = false ∧ mac_ok (mac s).
(** An uninstall has begun to take the driver down. *)
Definition given_up s d : Prop := check_link_timer d = None ∧ calm s.
Definition inv s : Prop := match driver s with None => calm s | Some d => good s d ∨ given_up s d end.
(** A driver that is to be freed. *)
Definition failed_install s : Prop := ∃ d, driver s = Some d ∧ check_link_timer d ≠ Some true ∧ calm s.

Lemma good_calm s d : good s d → check_link_timer d = Some false → calm s.
Proof.
  intros Hg Ht. pose proof (good_down _ _ Hg Ht) as Hl. destruct Hg. split_and!; [done| |congruence| |done].
  - rewrite good_trace0. unfold phase_of. by rewrite Hl, Ht.
  - by rewrite good_mac0, Hl.
Qed.

Lemma wp_cleanup s (ret : esp_err_t) :
  failed_install s →
  wp (d ← the_driver; _ ← (match check_link_timer d with Some _ => link_timer_delete | None => mret ESP_OK end); free_driver;; mret ret) s
    (λ _ s', inv s').
Proof.
  intros (d & Hd & Ht & Hc). apply wp_bind. eapply wp_the_driver; [done|]. unfold free_driver, link_timer_delete.
  destruct (check_link_timer d) as [[]|] eqn:Hct; [done| |]; wp_steps.
  - eapply wp_the_driver; [done|]. rewrite Hct. wp_steps. eapply wp_mod_driver; [done|]. wp_steps. by eapply wp_the_driver.
  - by eapply wp_the_driver.
Qed.

Lemma wp_next_answer s (Q : bool → sys → Prop) : (∀ b, Q b (with_answers (tail (answers s)) s)) → wp next_answer s Q.
Proof. intros HQ. apply HQ. Qed.

Lemma wp_reset_hw s (Q : esp_err_t → sys → Prop) :
  (∀ r l, Q r (mkSys (driver s) (phy s) (mac s) (answers s) (event_answers s) (input_answers s) (events s) (inputs s) l)) →
  wp esp_eth_phy_802_3_reset_hw s Q.
Proof. intros HQ. unfold esp_eth_phy_802_3_reset_hw, set_level. wp_steps. destruct (0 <=? _); wp_steps; [apply HQ|]. destruct s. apply HQ. Qed.

(** The MAC and the PHY of a new driver. *)
Lemma wp_init s d Q :
  driver s = Some d → phy_eth (phy s) = true → calm s → link d = ETH_LINK_DOWN → check_link_timer d = Some false →
  transmit_mutex d = Some false →
  (∀ s', (∃ d', good s' d') → Q ESP_OK s') → (∀ r s', r ≠ ESP_OK → failed_install s' → Q r s') →
  wp (llinit ← eth_on_llinit; deinit ← eth_on_deinit;
      try_ (on_mac (mac_init llinit deinit))
        (try_ (phy_init P) (esp_eth_phy_802_3_autonego_ctrl None None ESP_ETH_PHY_AUTONEGO_G_STAT (λ b, mod_driver (set_auto_nego b))))) s Q.
Proof.
  intros Hd He Hc Hl Ht Hm Hok Hfail. unfold eth_on_llinit, eth_on_deinit. wp_steps. eapply wp_the_driver; [done|]. wp_steps.
  eapply wp_the_driver; [done|]. wp_steps. apply wp_try, wp_on_mac.
  destruct Hc as (Hev & Htr & Hst & Hoff & Hmok). eapply wp_mono; [by apply rel_init|]. intros r x [Hx Hxok].
  destruct (decide (r = ESP_OK)) as [->|]; [|apply Hfail; [done|]; exists d; split_and!; [done|congruence|done]].
  set (Φ d := check_link_timer d = Some false). assert (at_ Φ (with_mac x s)) as Hs.
  { exists d. split; [|done]. split; try done.
    - cbn. congruence.
    - by rewrite Hl.
    - cbn. by rewrite Hl.
    - by rewrite Ht.
    - by rewrite Ht.
    - by rewrite Hl.
    - unfold phase_of. by rewrite Hl, Ht. }
  apply wp_try. eapply wp_mono; [apply (pres Φ); [by apply pres_dm9051_init|exact Hs]|]. intros r s1 H1.
  assert (∀ s', at_ Φ s' → failed_install s') as Hfi.
  { intros s' (d' & Hg & Ht'). exists d'. split_and!; [apply Hg|congruence|by eapply good_calm]. }
  destruct (decide (r = ESP_OK)) as [->|]; [|by apply Hfail; [|apply Hfi]].
  eapply wp_mono; [apply (pres Φ); [by apply pres_autonego|exact H1]|]. intros r s2 H2.
  destruct (decide (r = ESP_OK)) as [->|]; [|by apply Hfail; [|apply Hfi]]. destruct H2 as (d2 & Hg2 & _). apply Hok. by exists d2.
Qed.

Lemma wp_install s config out : driver s = None → calm s → wp (esp_eth_driver_install None None P config out) s (λ _ s', inv s').
Proof.
  intros Hd Hc. assert (inv s) as Hi by (unfold inv; by rewrite Hd). unfold esp_eth_driver_install.
  destruct config as [[objects c]|]; [|by apply wp_ret]. destruct out; [|by apply wp_ret]. destruct objects; [|by apply wp_ret]. cbn [negb].
  assert (∀ l, inv (with_answers l s)) as Hi' by (intros l; unfold inv; cbn; by rewrite Hd).
  apply wp_bind, wp_next_answer. intros [|]; cbn [negb]; [|by apply wp_ret]. apply wp_bind, wp_modify, wp_bind, wp_next_answer.
  assert (Hfail : ∀ r s', r ≠ ESP_OK → failed_install s' →
    wp (if decide (r = ESP_OK) then mret ESP_OK
        else d ← the_driver; _ ← (match check_link_timer d with Some _ => link_timer_delete | None => mret ESP_OK end); free_driver;; mret r)
       s' (λ (_ : esp_err_t) s'', inv s'')).
  { intros r s' Hr Hf. rewrite decide_False by done. by apply wp_cleanup. }
  intros [|]; cbn [negb]; [|apply wp_bind, wp_ret, Hfail; [done|by eexists]]. apply wp_bind, wp_bind. eapply wp_mod_driver; [done|].
  apply wp_bind, wp_next_answer. intros [|]; cbn [negb]; [|apply wp_ret, Hfail; [done|by eexists]].
  apply wp_bind, wp_modify, wp_bind, wp_on_mac. eapply wp_mono; [apply rel_mediator; apply Hc|]. intros _ x [Hx Hxok]. apply wp_bind.
  unfold esp_eth_phy_802_3_set_mediator, mod_phy. cbn [negb]. wp_steps.
  apply wp_reset_hw. intros _ lv. eapply wp_init; [done|done| |done..| |].
  - destruct Hc as (?&?&?&_). done.
  - intros s' [d' Hg]. rewrite decide_True by done. apply wp_ret. unfold inv. rewrite (good_driver _ _ Hg). by left.
  - exact Hfail.
Qed.

(** An uninstall is refused, frees the driver or leaves it half taken down. *)
Lemma wp_uninstall s d :
  good s d → wp (esp_eth_driver_uninstall None None true) s (λ r s', inv s' ∧ (driver s' = None ↔ r = ESP_OK)).
Proof.
  intros Hg. unfold esp_eth_driver_uninstall. cbn [negb]. apply wp_bind. eapply wp_the_driver; [apply Hg|].
  pose proof (good_driver _ _ Hg) as Hd.
  assert (inv s ∧ (driver s = None ↔ ESP_ERR_INVALID_STATE = ESP_OK)) as Hrefused.
  { split; [unfold inv; rewrite Hd; by left|]. by rewrite Hd. }
  destruct (decide (fsm d = ESP_ETH_FSM_STOP)) as [Hf|Hf]; [|by apply wp_ret].
  destruct (ref_count d =? 1); cbn [negb]; [|by apply wp_ret].
  pose proof (good_stop _ _ Hg Hf) as Ht. apply wp_bind. eapply wp_mod_driver; [done|].
  apply wp_try. unfold link_timer_delete. apply wp_bind. eapply wp_the_driver; [done|]. cbn [check_link_timer set_ref_count]. rewrite Ht.
  apply wp_bind. eapply wp_mod_driver; [done|]. apply wp_ret. rewrite decide_True by done.
  apply wp_bind. eapply wp_mod_driver; [done|]. apply wp_try.
  pose proof (good_calm _ _ Hg Ht) as (Hev & Htr & Hst & Hoff & _).
  unfold esp_eth_phy_802_3_deinit, esp_eth_phy_802_3_basic_phy_deinit, esp_eth_phy_802_3_pwrctl. apply wp_try.
  eapply wp_read_reg; [done|apply Hg..|]. intros x1 v1 H1 _. wp_steps. cbn [negb]. eapply wp_write_reg; [done|apply Hg|apply H1|]. intros x2 H2 H2ok.
  eapply wp_read_reg; [done|apply Hg|done|]. intros x3 v3 H3 _.
  assert (mac_up x3 = false) as Hoff3 by (cbn in *; by rewrite (sw_up _ _ _ H3), H2, (sw_up _ _ _ H1)).
  destruct (bit _ power_down); apply wp_ret.
  2:{ rewrite !decide_False by done. split; [|done]. right. split; [done|]. split_and!; try done. apply H3. }
  rewrite decide_True by done. apply wp_ret. rewrite decide_True by done. unfold eth_on_deinit. wp_steps. eapply wp_the_driver; [done|]. wp_steps.
  apply wp_try, wp_on_mac. eapply wp_mono; [apply rel_deinit; [apply H3|done]|].
  intros r x4 [H4 H4ok]. destruct (decide (r = ESP_OK)) as [->|Hr]; [|split; [|done]; right; split; [done|by split_and!]].
  unfold free_driver. wp_steps. eapply wp_the_driver; [done|]. wp_steps. split; [|done]. by split_and!.
Qed.

(** ** Runs *)

Inductive eth_op : Type :=
| OpInstall (config : option (bool * esp_eth_config_t)) (out : bool)
| OpUninstall
| OpStart
| OpStop
| OpTick
| OpInput (buffer : list Z)
| OpTransmit (buf : option (list Z))
| OpTransmitVargs (args : list (list Z))
| OpIoctl (cmd : esp_eth_io_cmd_t) (data : ioctl_data)
| OpUpdateInput (stack_input : option Z) (priv : Z)
| OpUpdateInputInfo (stack_input_info : option Z) (priv : Z)
| OpIncrease
| OpDecrease.

Definition run_op (op : eth_op) : ES X esp_err_t :=
  match op with
  | OpInstall config out => esp_eth_driver_install None None P config out
  | OpUninstall => esp_eth_driver_uninstall None None true
  | OpStart => esp_eth_start None None P true
  | OpStop => esp_eth_stop true
  | OpTick => eth_check_link_timer_cb P;; mret ESP_OK
  | OpInput buffer => eth_stack_input buffer
  | OpTransmit buf => esp_eth_transmit true buf
  | OpTransmitVargs args => esp_eth_transmit_ctrl_vargs true args
  | OpIoctl cmd data => r ← esp_eth_ioctl None None P true cmd data; mret r.1
  | OpUpdateInput f p => esp_eth_update_input_path true f p
  | OpUpdateInputInfo f p => esp_eth_update_input_path_info true f p
  | OpIncrease => esp_eth_increase_reference true
  | OpDecrease => esp_eth_decrease_reference true
  end.

(** A driver is installed once, the handle is that of a driver that no uninstall has begun
    to take down, the timer calls back when it is armed, and the arguments are large
    enough. *)
Definition allowed (op : eth_op) s : Prop :=
  match op, driver s with
  | OpInstall _ _, d => d = None
  | _, None => False
  | OpTick, Some d => check_link_timer d = Some true
  | OpIoctl cmd data, Some d => check_link_timer d ≠ None ∧ data_ok cmd data
  | OpTransmitVargs _, Some d => check_link_timer d ≠ None ∧ mac_transmit_ctrl_vargs (X := X) ≠ None
  | _, Some d => check_link_timer d ≠ None
  end.

(** A call, or a change of the PHY. *)
Inductive eth_step s : sys → Prop :=
| step_op op s' r : allowed op s → run_op op s = Done s' r → eth_step s s'
| step_phy x : mac_up x = mac_up (mac s) → mac_ok x → eth_step s (with_mac x s).

Lemma good_inv s : (∃ d, good s d) → inv s.
Proof. intros [d Hg]. unfold inv. rewrite (good_driver _ _ Hg). by left. Qed.

Lemma wp_tick s d :
  good s d → check_link_timer d = Some true →
  wp (eth_check_link_timer_cb P) s (λ _ s', ∃ l bmcr,
    (phy_steady (mac s) → l = phy_link s ∧ bmcr = phy_reg s ETH_PHY_BMCR_REG_ADDR) ∧
    good s' (tick_driver d l bmcr) ∧ events s' = events s ++ tick_events d l).
Proof.
  intros Hg Ht. unfold eth_check_link_timer_cb. apply wp_bind. eapply wp_mono; [by apply wp_running_get_link, running_good|].
  intros r s' (_ & l & bmcr & Hv & Hr & He). apply wp_ret. exists l, bmcr. split_and!; [done| |done].
  apply running_good; [|done]. by rewrite tick_driver_timer.
Qed.

(** A call is made with a driver that is in order. *)
Lemma allowed_good op s d : inv s → allowed op s → driver s = Some d → good s d.
Proof. unfold inv, allowed. intros Hi Ha Hd. rewrite Hd in *. destruct Hi as [Hi|[Hi _]]; [done|]. destruct op; naive_solver congruence. Qed.

(** Every call is safe and keeps the invariant. *)
Lemma wp_run_op op s : inv s → allowed op s → wp (run_op op) s (λ _ s', inv s').
Proof.
  intros Hi Ha. pose proof (λ d, allowed_good op s d Hi Ha) as Hgood. unfold inv in Hi. unfold allowed in Ha.
  destruct (driver s) as [d|] eqn:Hd; [clear Hi; specialize (Hgood d eq_refl)|]; destruct op; try done; cbn [run_op].
  2-12: eapply wp_mono; [|intros r s' H; exact (good_inv _ H)].
  - eapply wp_mono; [by eapply wp_uninstall|]. by intros r s' [].
  - eapply wp_mono; [by eapply wp_start|]. intros r s' (d' & Hg & _). by exists d'.
  - eapply wp_mono; [by eapply wp_stop|]. intros r s' (d' & Hg & _). by exists d'.
  - apply wp_bind. eapply wp_mono; [by apply wp_tick|]. intros _ s' (l & bmcr & _ & Hg & _). apply wp_ret. eauto.
  - by eapply wp_stack_input.
  - by eapply wp_transmit.
  - by eapply wp_transmit_vargs; [|apply Ha].
  - apply wp_bind. eapply wp_mono; [eapply wp_ioctl; [done|apply Ha]|done].
  - by eapply wp_good_mod.
  - by eapply wp_good_mod.
  - apply wp_bind. eapply wp_the_driver; [done|]. by eapply wp_good_mod.
  - apply wp_bind. eapply wp_the_driver; [done|]. by eapply wp_good_mod.
  - by apply wp_install.
Qed.

Lemma inv_step s s' : inv s → eth_step s s' → inv s'.
Proof.
  intros Hi [op s'' r Ha Hrun|x Hx Hxok].
  - pose proof (wp_run_op op s Hi Ha) as Hw. unfold wp in Hw. by rewrite Hrun in Hw.
  - unfold inv in *. cbn. assert (calm s → calm (with_mac x s)) as Hcalm.
    { intros (?&?&?&?&?). split_and!; done || (cbn [mac with_mac]; congruence). }
    destruct (driver s) as [d|]; [|by apply Hcalm]. destruct Hi as [[]|[? ?]]; [left|right; split; [done|by apply Hcalm]].
    split; cbn; done || congruence.
Qed.

Lemma inv_run s0 s : driver s0 = None → calm s0 → rtc eth_step s0 s → inv s.
Proof.
  intros Hd Hc Hr. assert (inv s0) as Hi by (unfold inv; by rewrite Hd). clear Hd Hc. induction Hr; [done|]. eauto using inv_step.
Qed.

(** C8: for every run of the API, of the link timer, of arriving frames and of changes of
    the PHY that starts without a driver, with a MAC whose calls succeed ([ReliableMac],
    which says what the functions of the MAC do) and an event loop that accepts every event:
    unless an uninstall has begun to take the driver down, its link is the link status of
    the PHY object, the MAC is on exactly with a link, a link goes with an armed timer, an
    armed timer with a started driver, the mutex is free, and the events that were posted
    are a history that ends where the driver is; a stopped driver has no link, its MAC is
    off and its events end stopped.  Every allowed call returns: none faults or fails an
    assertion. *)
Theorem eth_run_invariant s0 s :
  driver s0 = None → calm s0 → rtc eth_step s0 s →
  inv s ∧
  (∀ d, driver s = Some d → check_link_timer d ≠ None →
     good s d ∧
     (fsm d = ESP_ETH_FSM_STOP → link d = ETH_LINK_DOWN ∧ mac_up (mac s) = false ∧ trace (events s) = Some Stopped)) ∧
  (∀ op, allowed op s → ∃ s' r, run_op op s = Done s' r).
Proof.
  intros Hd Hc Hr. pose proof (inv_run _ _ Hd Hc Hr) as Hi. split_and!; [done| |].
  - intros d Hsd Hn. assert (good s d) as Hg by (by apply (allowed_good OpStart); [|unfold allowed; rewrite Hsd|]).
    split; [done|]. intros Hf. pose proof (good_stop _ _ Hg Hf) as Ht.
    pose proof (good_down _ _ Hg Ht) as Hl. split_and!; [done|by rewrite (good_mac _ _ Hg), Hl|].
    apply (good_calm _ _ Hg Ht).
  - intros op Ha. destruct (wp_done _ _ _ (wp_run_op op s Hi Ha)) as (r & s' & Hrun & _). eauto.
Qed.

(** The driver after a tick. *)
Definition followed s d s' : Prop := ∃ d',
  driver s' = Some d' ∧ link d' = phy_link s ∧ mac_up (mac s') = bool_decide (phy_link s = ETH_LINK_UP) ∧
  (phy_link s = ETH_LINK_UP → link d ≠ ETH_LINK_UP → (speed d', duplex d') = selected_mode (phy_reg s ETH_PHY_BMCR_REG_ADDR)) ∧
  events s' = events s ++ (if decide (link d = phy_link s) then [] else [link_event (phy_link s)]).

(** While the PHY is steady, a tick of the link timer brings the driver to the present
    link, also when BMSR still shows a link that was lost before: a new link has the speed
    and the duplex mode of BMCR, the MAC is on exactly with a link, and one event is posted
    exactly when the link has changed. *)
Lemma tick_follows s d :
  good s d → check_link_timer d = Some true → phy_steady (mac s) → wp (eth_check_link_timer_cb P) s (λ _ s', followed s d s').
Proof.
  intros Hgs Ht Hst. eapply wp_mono; [by apply wp_tick|]. intros _ s' (l & bmcr & Hv & Hg & He). destruct (Hv Hst) as [-> ->]. eexists. split; [apply Hg|].
  set (l := phy_link s) in *.
  assert (link (tick_driver d l (phy_reg s ETH_PHY_BMCR_REG_ADDR)) = l) as Hl.
  { unfold tick_driver. by destruct (decide (link d = l)). }
  split_and!; [done|by rewrite (good_mac _ _ Hg), Hl| |done].
  intros Hup Hn. unfold tick_driver, linked. rewrite decide_False, decide_True by congruence. by destruct (selected_mode _).
Qed.

End life.

(** ** A run with the simulated MAC *)

Definition after (op : eth_op) (s : eth_sys sim) : eth_sys sim := match run_op op s with Done s' _ => s' | _ => s end.
Definition sim_installed : eth_sys sim := after (OpInstall (Some (true, mkConfig None None None None 2000)) true) (sim_sys None).
Definition sim_started : eth_sys sim := after OpStart sim_installed.
(** The cable was pulled and is back: BMSR has latched the lost link. *)
Definition sim_replugged : eth_sys sim :=
  with_mac (mkSim true (λ r, if r =? ETH_PHY_BMSR_REG_ADDR then 0 else sim_phy r) 0x0024) sim_started.

Lemma sim_run_started : rtc eth_step (sim_sys None) sim_started.
Proof.
  eapply rtc_l; [eapply (step_op _ (OpInstall (Some (true, mkConfig None None None None 2000)) true) sim_installed ESP_OK)|].
  - done.
  - vm_compute. reflexivity.
  - eapply rtc_l; [|apply rtc_refl]. eapply (step_op _ OpStart sim_started ESP_OK); [vm_compute; discriminate|vm_compute; reflexivity].
Qed.

Lemma sim_calm : calm (sim_sys None).
Proof. by split_and!. Qed.

Lemma sim_run_replugged : rtc eth_step (sim_sys None) sim_replugged.
Proof. eapply rtc_r; [apply sim_run_started|]. by apply step_phy. Qed.

Lemma eth_run_invariant_witness :
  events sim_started = [ETHERNET_EVENT_START; ETHERNET_EVENT_CONNECTED] ∧
  inv sim_started ∧
  (∀ d, driver sim_started = Some d → check_link_timer d ≠ None →
     good sim_started d ∧
     (fsm d = ESP_ETH_FSM_STOP → link d = ETH_LINK_DOWN ∧ mac_up (mac sim_started) = false ∧ trace (events sim_started) = Some Stopped)) ∧
  (∀ op, allowed op sim_started → ∃ s' r, run_op op sim_started = Done s' r).
Proof. split; [vm_compute; reflexivity|]. exact (eth_run_invariant (sim_sys None) sim_started eq_refl sim_calm sim_run_started). Defined.

Definition sim_driver_up : esp_eth_driver_t :=
  mkDriver (Some true) 2000 true ETH_SPEED_100M ETH_DUPLEX_FULL ETH_LINK_UP 1 0 ESP_ETH_FSM_START (Some false) None None None None.

(** The first reading of BMSR shows the lost link, and yet the tick keeps the link. *)
Lemma replugged_follows :
  phy_reg sim_replugged ETH_PHY_BMSR_REG_ADDR = 0 ∧ phy_link sim_replugged = ETH_LINK_UP ∧
  wp (eth_check_link_timer_cb (esp_eth_phy_new_dm9051 None None)) sim_replugged (λ _ s', followed sim_replugged sim_driver_up s').
Proof.
  split; [reflexivity|]. split; [reflexivity|].
  assert (driver sim_replugged = Some sim_driver_up) as Hd by (vm_compute; reflexivity).
  apply tick_follows; [|reflexivity|exact I]. apply (allowed_good OpTick); [|unfold allowed; by rewrite Hd|done].
  exact (inv_run (sim_sys None) sim_replugged eq_refl sim_calm sim_run_replugged).
Qed.

(** ** An uninstall that fails *)

Section uninstall.
Context {X : Type} `{!EthMac X}.
Abbreviation sys := (eth_sys X).
Implicit Types (s : sys) (d : esp_eth_driver_t).

(** If [m] returns, the driver is as before. *)
Definition keeps_driver {A} (m : ES X A) : Prop := ∀ s s' a, m s = Done s' a → driver s' = driver s.

Lemma bind_done {A B} (m : ES X A) (k : A → ES X B) s s' b :
  (m ≫= k) s = Done s' b → ∃ s1 a, m s = Done s1 a ∧ k a s1 = Done s' b.
Proof. unfold mbind, M_bind. destruct (m s); [eauto|done..]. Qed.

Lemma kd_ret {A} (a : A) : keeps_driver (mret a).
Proof. intros s s' b [=]. by subst. Qed.
Lemma kd_fault {A} : keeps_driver (fault (A := A)).
Proof. intros s s' b [=]. Qed.
Lemma kd_get : keeps_driver get.
Proof. intros s s' b [=]. by subst. Qed.
Lemma kd_bind {A B} (m : ES X A) (k : A → ES X B) : keeps_driver m → (∀ a, keeps_driver (k a)) → keeps_driver (m ≫= k).
Proof. intros Hm Hk s s' b (s1 & a & H1 & H2)%bind_done. rewrite (Hk _ _ _ _ H2). by apply Hm in H1. Qed.
Lemma kd_the_driver : keeps_driver the_driver.
Proof. intros s s' b. unfold the_driver. destruct (driver s) eqn:E; [|done]. intros [= <- <-]. by rewrite E. Qed.
Lemma kd_on_mac {A} (m : M X A) : keeps_driver (on_mac m).
Proof. intros s s' b. unfold on_mac, zoom. destruct (m (mac s)); [|done..]. by intros [= <- _]. Qed.
Lemma kd_try m k : keeps_driver m → keeps_driver k → keeps_driver (try_ m k).
Proof. intros. apply kd_bind; [done|]. intros e. destruct (decide (e = ESP_OK)); [done|apply kd_ret]. Qed.
Lemma kd_read reg k : (∀ v, keeps_driver (k v)) → keeps_driver (read_reg None reg k).
Proof.
  intros Hk. apply kd_bind; [apply kd_get|]. intros s0. destruct (negb _); [apply kd_fault|].
  apply kd_bind; [apply kd_bind; [apply kd_the_driver|intros; apply kd_on_mac]|]. intros r. destruct (decide (r.1 = ESP_OK)); [|apply kd_ret].
  destruct (r.2); [apply Hk|apply kd_fault].
Qed.
Lemma kd_write reg v k : keeps_driver k → keeps_driver (write_reg None reg v k).
Proof.
  intros Hk. apply kd_bind; [apply kd_get|]. intros s0. destruct (negb _); [apply kd_fault|].
  apply kd_try; [apply kd_bind; [apply kd_the_driver|intros; apply kd_on_mac]|done].
Qed.
Lemma kd_power_off : keeps_driver (esp_eth_phy_802_3_deinit None None).
Proof.
  apply kd_try; [|apply kd_ret]. apply kd_read. intros bmcr. apply kd_bind; [apply kd_get|]. intros s0. cbn [negb].
  apply kd_write, kd_read. intros v. destruct (bit v power_down); apply kd_ret.
Qed.

Lemma mod_driver_done f s s' u : mod_driver f s = Done s' u → ∃ d, driver s = Some d ∧ s' = with_driver (Some (f d)) s.
Proof. intros (s1 & d & H1 & H2)%bind_done. unfold the_driver in H1. destruct (driver s) as [d'|]; [|done]. injection H1 as <- <-. injection H2 as <-. eauto. Qed.

(** A stopped driver without a reference. *)
Definition zeroed s : Prop := ∃ d, driver s = Some d ∧ ref_count d = 0 ∧ fsm d = ESP_ETH_FSM_STOP.
(** [m] fails only with such a driver. *)
Definition fails_zeroed (m : ES X esp_err_t) : Prop := ∀ s s' r, zeroed s → m s = Done s' r → r ≠ ESP_OK → zeroed s'.
Definition keeps_zeroed {A} (m : ES X A) : Prop := ∀ s s' a, zeroed s → m s = Done s' a → zeroed s'.

Lemma kz_driver {A} (m : ES X A) : keeps_driver m → keeps_zeroed m.
Proof. intros Hm s s' a (d & Hd & Hz) H. exists d. by rewrite (Hm _ _ _ H). Qed.
Lemma kz_mod f : (∀ d, ref_count (f d) = ref_count d ∧ fsm (f d) = fsm d) → keeps_zeroed (mod_driver f).
Proof. intros Hf s s' u (d & Hd & Hz) (d' & Hd' & ->)%mod_driver_done. exists (f d'). simplify_eq. destruct (Hf d) as [-> ->]. done. Qed.
Lemma kz_bind {A B} (m : ES X A) (k : A → ES X B) : keeps_zeroed m → (∀ a, keeps_zeroed (k a)) → keeps_zeroed (m ≫= k).
Proof. intros Hm Hk s s' b Hs (s1 & a & H1 & H2)%bind_done. by eapply Hk; [eapply Hm|]. Qed.
Lemma fz_bind {A} (m : ES X A) k : keeps_zeroed m → (∀ a, fails_zeroed (k a)) → fails_zeroed (m ≫= k).
Proof. intros Hm Hk s s' b Hs (s1 & a & H1 & H2)%bind_done Hr. by eapply Hk; [eapply Hm| |]. Qed.
Lemma fz_try m k : keeps_zeroed m → fails_zeroed k → fails_zeroed (try_ m k).
Proof.
  intros Hm Hk. apply fz_bind; [done|]. intros e. destruct (decide (e = ESP_OK)); [done|].
  intros s s' r Hs [=] _. by subst.
Qed.

Lemma fz_uninstall :
  fails_zeroed (try_ link_timer_delete (mod_driver (set_mutex None);;
    try_ (esp_eth_phy_802_3_deinit None None) (deinit ← eth_on_deinit; try_ (on_mac (mac_deinit deinit)) (free_driver;; mret ESP_OK)))).
Proof.
  apply fz_try.
  { apply kz_bind; [apply kz_driver, kd_the_driver|]. intros d. destruct (check_link_timer d) as [[]|]; [apply kz_driver, kd_ret| |apply kz_driver, kd_fault].
    apply kz_bind; [by apply kz_mod|]. intros. apply kz_driver, kd_ret. }
  apply fz_bind; [by apply kz_mod|]. intros _. apply fz_try; [apply kz_driver, kd_power_off|].
  apply fz_bind; [apply kz_driver, kd_bind; [apply kd_the_driver|intros; apply kd_ret]|]. intros de.
  apply fz_try; [apply kz_driver, kd_on_mac|]. intros s s' r _ (s1 & u & _ & [=])%bind_done Hr. by subst.
Qed.

(** an uninstall that has passed its checks and then fails leaves the driver
    allocated with no reference, so that every later uninstall is refused and changes
    nothing. *)
Theorem uninstall_failure_is_final s s' d r :
  driver s = Some d → fsm d = ESP_ETH_FSM_STOP → ref_count d = 1 →
  esp_eth_driver_uninstall None None true s = Done s' r → r ≠ ESP_OK →
  ∃ d', driver s' = Some d' ∧ ref_count d' = 0 ∧ esp_eth_driver_uninstall None None true s' = Done s' ESP_ERR_INVALID_STATE.
Proof.
  intros Hd Hf Hc Hrun Hr. enough (zeroed s') as (d' & Hd' & Hc' & Hf').
  { exists d'. split_and!; [done|done|]. unfold esp_eth_driver_uninstall. cbn [negb]. unfold mbind, M_bind, the_driver. rewrite Hd'.
    rewrite decide_True, Hc' by done. reflexivity. }
  unfold esp_eth_driver_uninstall in Hrun. cbn [negb] in Hrun. apply bind_done in Hrun as (s1 & d1 & H1 & Hrun).
  unfold the_driver in H1. rewrite Hd in H1. injection H1 as <- <-. rewrite decide_True, Hc in Hrun by done. cbn [Z.eqb Pos.eqb negb] in Hrun.
  apply bind_done in Hrun as (s1 & u & (d1 & Hd1 & ->)%mod_driver_done & Hrun). simplify_eq.
  eapply fz_uninstall; [|exact Hrun|done]. by eexists.
Qed.

End uninstall.

(** The driver of a user whose callback fails. *)
Definition sim_failing : eth_sys sim :=
  sim_sys (Some (mkDriver (Some false) 2000 true ETH_SPEED_10M ETH_DUPLEX_HALF ETH_LINK_DOWN 1 0 ESP_ETH_FSM_STOP (Some false) None None None (Some ESP_FAIL))).
Definition sim_failed : eth_sys sim := after OpUninstall sim_failing.

Lemma uninstall_failure_is_final_witness :
  ∃ d', driver sim_failed = Some d' ∧ ref_count d' = 0 ∧ esp_eth_driver_uninstall None None true sim_failed = Done sim_failed ESP_ERR_INVALID_STATE.
Proof. eapply (uninstall_failure_is_final sim_failing sim_failed _ ESP_FAIL); [reflexivity|reflexivity|reflexivity|vm_compute; reflexivity|done]. Defined.
