(* ===== verification/EthDm9051.v ===== *)
(** * The Ethernet driver on the DM9051

    The DM9051 MAC as an instance of [EthMac], what detection of the PHY finds, and what
    is left when an event cannot be posted or when an uninstall fails half way. *)
From Stdlib Require Import ZArith Lia.
From stdpp Require Import base numbers option list.
From S2P Require Import Prelude Dm9051 Dm9051Safe Dm9051Regs EthPhy Eth EthSpec.

Open Scope Z_scope.

Section dm9051.
Context {dev : Type} `{!SpiDriver dev}.
Context (crc32 : list Z → Z) (fuel : nat).
Abbreviation X := (dm9051_state dev).
Implicit Types x : X.

(** The answers of the mediator to the calls of the MAC. *)
Definition with_mediator (l : list esp_err_t) (m : M X esp_err_t) : M X esp_err_t :=
  modify (λ x, set_mediator l (mediator_calls x) x);; m.

Definition dm9051_mac : EthMac X := {|
  mac_set_mediator := emac_dm9051_set_mediator;
  mac_init llinit deinit := with_mediator [llinit; deinit] emac_dm9051_init;
  mac_deinit deinit := with_mediator [deinit] emac_dm9051_deinit;
  mac_set_link := emac_dm9051_set_link;
  mac_set_speed := emac_dm9051_set_speed;
  mac_set_duplex := emac_dm9051_set_duplex;
  mac_set_peer_pause_ability := emac_dm9051_set_peer_pause_ability;
  mac_read_phy_reg a r := emac_dm9051_read_phy_reg a r true;
  mac_write_phy_reg := emac_dm9051_write_phy_reg;
  mac_transmit data := emac_dm9051_transmit fuel data (zlen data);
  mac_transmit_ctrl_vargs := None;
  mac_set_addr l := emac_dm9051_set_addr (Some l);
  mac_get_addr := emac_dm9051_get_addr true;
  mac_set_promiscuous := emac_dm9051_set_promiscuous;
  mac_set_all_multicast := Some emac_dm9051_set_all_multicast;
  mac_enable_flow_ctrl := emac_dm9051_enable_flow_ctrl;
  mac_add_mac_filter := Some (emac_dm9051_add_mac_filter crc32);
  mac_rm_mac_filter := Some (emac_dm9051_rm_mac_filter crc32)
|}.
#[local] Existing Instance dm9051_mac.

(** ** The MAC with any chip *)

(** The MAC polls and its mutex is free. *)
Definition polling x : Prop := poll_timer (emac x) = Some true ∧ mutex_held x = false.

Lemma polling_chip x x' : chip_only x x' → polling x → polling x'.
Proof. unfold chip_only. intros ->. done. Qed.
Lemma polling_balanced x x' : lock_balanced x x' → polling x → polling x'.
Proof. intros [Hm He] [Hp Hf]. split; congruence. Qed.

(** A MAC that polls refuses a second start, and goes on polling. *)
Lemma polling_refuses x : polling x → wp (emac_dm9051_set_link ETH_LINK_UP) x (λ r x', r ≠ ESP_OK ∧ polling x').
Proof.
  intros Hp. unfold emac_dm9051_set_link, then_ at 1, on_error. wp_steps. eapply wp_mono; [apply on_chip_start|]. intros e x' Hx.
  pose proof (polling_chip _ _ Hx Hp) as Hp'. destruct (decide (e = ESP_OK)); [|by wp_steps].
  rewrite (proj1 Hp). unfold then_, on_error, start_poll_timer. wp_steps. rewrite (proj1 Hp'). by wp_steps.
Qed.

(** Code that stores a value when it succeeds. *)
Definition stores (m : M X (esp_err_t * option Z)) : Prop :=
  ∀ x, wp m x (λ v x', chip_only x x' ∧ (v.1 = ESP_OK → is_Some v.2)).
Definition err (e : esp_err_t) : M X (esp_err_t * option Z) := mret (e, None).

Lemma stores_error m k : on_chip m → stores k → stores (on_error err m k).
Proof.
  intros Hm Hk x. apply wp_bind. eapply wp_mono; [apply Hm|]. intros e x1 H1. destruct (decide (e = ESP_OK)); [|by apply wp_ret].
  eapply wp_mono; [apply Hk|]. intros v x2 [H2 ?]. split; [exact (chip_only_trans _ _ _ H1 H2)|done].
Qed.
Lemma stores_error_val (m : M X (esp_err_t * Z)) k : on_chip m → (∀ a, stores (k a)) → stores (on_error_val err m k).
Proof.
  intros Hm Hk x. apply wp_bind. eapply wp_mono; [apply Hm|]. intros [e a] x1 H1. cbn [fst snd].
  destruct (decide (e = ESP_OK)); [|by apply wp_ret].
  eapply wp_mono; [apply Hk|]. intros v x2 [H2 ?]. split; [exact (chip_only_trans _ _ _ H1 H2)|done].
Qed.
Lemma stores_ret v : stores (mret (ESP_OK, Some v)).
Proof. intros x. apply wp_ret. split; [apply chip_only_refl|done]. Qed.

(** A register that was read successfully was stored. *)
Lemma read_phy_reg_stores a r x :
  polling x → wp (emac_dm9051_read_phy_reg a r true) x (λ v x', polling x' ∧ (v.1 = ESP_OK → is_Some v.2)).
Proof.
  intros Hp. unfold emac_dm9051_read_phy_reg, dm9051_mutex_lock. cbn [negb]. wp_steps.
  destruct (mutex_answers x) as [|[] l]; wp_steps; cbn [negb]; wp_steps; [| |split; [exact Hp|done]].
  all: eapply wp_mono;
    [apply stores_error; [apply on_chip_phy_wait|]; apply stores_error; [apply on_chip_writes|];
     apply stores_error; [apply on_chip_phy_wait|]; apply stores_error_val; [apply on_chip_reg_read|]; intros;
     apply stores_error_val; [apply on_chip_reg_read|]; intros; apply stores_ret|].
  all: intros v x' [Hx Hv]; unfold dm9051_mutex_unlock; wp_steps; split; [|done]; split; [|done]; cbn; rewrite Hx; apply Hp.
Qed.

(** ** The link is not reported *)

Abbreviation sys := (eth_sys X).
Implicit Types s : sys.
Abbreviation P := (esp_eth_phy_new_dm9051 (X := X) None None).

(** The MAC polls, and the PHY takes the link for down. *)
Definition stuck s : Prop :=
  driver s ≠ None ∧ phy_eth (phy s) = true ∧ link_status (phy s) = ETH_LINK_DOWN ∧ polling (mac s).

Definition remains_stuck {A} (m : ES X A) : Prop := ∀ s, stuck s → wp m s (λ _ s', stuck s' ∧ events s' = events s).

Lemma stuck_ret {A} (a : A) : remains_stuck (mret a).
Proof. intros s Hs. by apply wp_ret. Qed.
Lemma stuck_bind {A B} (m : ES X A) (k : A → ES X B) : remains_stuck m → (∀ a, remains_stuck (k a)) → remains_stuck (m ≫= k).
Proof.
  intros Hm Hk s Hs. apply wp_bind. eapply wp_mono; [by apply Hm|]. intros a s1 [H1 E1].
  eapply wp_mono; [by apply Hk|]. intros b s2 [H2 E2]. split; congruence.
Qed.
Lemma stuck_try m k : remains_stuck m → remains_stuck k → remains_stuck (try_ m k).
Proof. intros Hm Hk. apply stuck_bind; [done|]. intros e. destruct (decide (e = ESP_OK)); [done|apply stuck_ret]. Qed.
Lemma stuck_driver : remains_stuck the_driver.
Proof. intros s Hs. unfold wp, the_driver. destruct (driver s) as [d|] eqn:E; [done|]. by destruct Hs as [Hd _]. Qed.
Lemma stuck_mod f : remains_stuck (mod_driver f).
Proof. apply stuck_bind; [apply stuck_driver|]. intros d s (_ & Hs). by apply wp_modify. Qed.
Lemma stuck_mac {A} (m : M X A) : (∀ x, polling x → wp m x (λ _ x', polling x')) → remains_stuck (on_mac m).
Proof.
  intros Hm s (Hd & He & Hl & Hp). apply wp_on_mac. eapply wp_mono; [by apply Hm|]. done.
Qed.
Lemma stuck_chip {A} (m : M X A) : on_chip m → remains_stuck (on_mac m).
Proof. intros Hm. apply stuck_mac. intros x Hx. eapply wp_mono; [apply Hm|]. intros a x' H'. exact (polling_chip _ _ H' Hx). Qed.
Lemma stuck_read reg k : (∀ v, remains_stuck (k v)) → remains_stuck (read_reg None reg k).
Proof.
  intros Hk s Hs. unfold read_reg. wp_steps. rewrite (proj1 (proj2 Hs)). cbn [negb]. unfold try_val, eth_phy_reg_read. wp_steps.
  eapply wp_mono; [by apply stuck_driver|]. intros _ s1 [H1 E1]. apply wp_on_mac. destruct H1 as (Hd & He & Hl & Hp).
  eapply wp_mono; [by apply read_phy_reg_stores|]. intros [e v] x [Hx Hv]. cbn [fst snd] in *.
  assert (stuck (with_mac x s1)) by done.
  destruct (decide (e = ESP_OK)) as [->|]; [|by apply wp_ret]. destruct (Hv eq_refl) as [v' ->].
  eapply wp_mono; [by apply Hk|]. intros _ s2 [H2 E2]. split; [done|]. by rewrite E2.
Qed.

(** A link that is up is not reported again. *)
Lemma stuck_link : remains_stuck (report_link ETH_LINK_UP).
Proof.
  intros s Hs. unfold report_link, eth_on_link. apply wp_try. apply wp_bind. eapply wp_mono; [by apply stuck_driver|].
  intros _ s1 [(Hd & He & Hl & Hp) E1]. apply wp_try, wp_on_mac. eapply wp_mono; [by apply polling_refuses|]. intros r x [Hr Hx].
  rewrite decide_False by done. by rewrite decide_False.
Qed.

Lemma stuck_mode mode anlpar k : remains_stuck k → remains_stuck (report_mode mode anlpar k).
Proof.
  intros Hk. unfold report_mode, eth_on_speed, eth_on_duplex, eth_on_pause.
  assert (∀ m f, remains_stuck (on_mac m) → remains_stuck (_ ← the_driver; try_ (on_mac m) (mod_driver f;; mret ESP_OK))) as Hmod.
  { intros m f Hm. apply stuck_bind; [apply stuck_driver|]. intros _. apply stuck_try; [done|]. apply stuck_bind; [apply stuck_mod|].
    intros _. apply stuck_ret. }
  apply stuck_try; [|apply stuck_try; [|apply stuck_try; [|done]]].
  - apply Hmod, stuck_chip. cbn. by destruct (mode.1); apply on_chip_ret.
  - apply Hmod, stuck_chip. cbn. by destruct (mode.2); apply on_chip_ret.
  - apply stuck_bind; [apply stuck_driver|]. intros _. apply stuck_try; [|apply stuck_ret]. apply stuck_mac. intros x Hx.
    cbn [mac_set_peer_pause_ability dm9051_mac]. unfold emac_dm9051_set_peer_pause_ability. wp_steps.
    eapply wp_mono; [unfold dm9051_enable_flow_ctrl; case_match; apply on_chip_writes|]. intros a x' H'. wp_steps. exact (polling_chip _ _ H' Hx).
Qed.

Lemma stuck_tick : remains_stuck (eth_check_link_timer_cb P).
Proof.
  apply stuck_bind; [|intros; apply stuck_ret]. cbn [phy_get_link esp_eth_phy_new_dm9051]. apply stuck_try; [|apply stuck_ret].
  unfold dm9051_update_link_duplex_speed. do 2 (apply stuck_read; intros ?). apply stuck_read. intros anlpar. cbv zeta.
  intros s Hs. wp_steps. rewrite (proj1 (proj2 (proj2 Hs))).
  destruct (decide (ETH_LINK_DOWN = link_of v0)) as [|Hl]; [by apply stuck_ret|].
  destruct (link_of_cases v0) as [E|E]; [|congruence]. rewrite E. rewrite decide_True by done.
  revert s Hs. apply stuck_read. intros bmcr. apply stuck_mode, stuck_link.
Qed.

(** Starting a MAC that does not poll. *)
Lemma idle_starts x :
  poll_timer (emac x) = Some false → mutex_held x = false →
  wp (emac_dm9051_set_link ETH_LINK_UP) x (λ r x', r = ESP_OK ∧ polling x' ∨ r ≠ ESP_OK ∧ poll_timer (emac x') = Some false).
Proof.
  intros Hp Hf. unfold emac_dm9051_set_link, then_ at 1, on_error. wp_steps. eapply wp_mono; [apply on_chip_start|]. intros e x' Hx.
  assert (poll_timer (emac x') = Some false) as Hp' by by rewrite Hx.
  assert (mutex_held x' = false) as Hf' by by rewrite Hx.
  destruct (decide (e = ESP_OK)); [|wp_steps; by right].
  rewrite Hp. unfold then_, on_error, start_poll_timer, mod_emac. wp_steps. rewrite Hp'. wp_steps. by left.
Qed.

(** Stopping does not reach the MAC when the PHY takes the link for down. *)
Lemma stop_keeps_mac s :
  stuck s → (∀ d, driver s = Some d → check_link_timer d ≠ None) → wp (esp_eth_stop true) s (λ _ s', poll_timer (emac (mac s')) = Some true).
Proof.
  intros (Hd & He & Hl & Hp & _) Ht. destruct (driver s) as [d|] eqn:E; [clear Hd|done]. specialize (Ht d eq_refl). unfold esp_eth_stop. cbn [negb].
  apply wp_bind. eapply wp_the_driver; [done|]. destruct (decide (fsm d = ESP_ETH_FSM_START)); [|by apply wp_ret].
  apply wp_bind. eapply wp_mod_driver; [done|]. apply wp_try. unfold link_timer_stop. apply wp_bind. eapply wp_the_driver; [done|].
  cbn [check_link_timer set_fsm]. destruct (check_link_timer d) as [[]|]; [|by apply wp_ret; rewrite decide_False|done].
  apply wp_bind. eapply wp_mod_driver; [done|]. apply wp_ret. rewrite decide_True by done. apply wp_bind. eapply wp_the_driver; [done|].
  apply wp_try. destruct (decide _).
  - apply wp_bind. eapply wp_mod_driver; [done|]. unfold esp_eth_phy_802_3_set_link. wp_steps. rewrite decide_True by done.
    wp_steps. rewrite decide_True by done. apply wp_try. unfold wp, eth_event_post. by destruct (decide _).
  - wp_steps. rewrite decide_True by done. apply wp_try. unfold wp, eth_event_post. by destruct (decide _).
Qed.

(** when the event of a new link cannot be posted while the DM9051 polls, the MAC is
    left running and the PHY object still takes the link for down.  From there no tick of
    the link timer ever posts an event, whether the cable stays in or not and whatever
    the chip answers, and stopping the driver leaves the MAC running. *)
Theorem refused_event_is_final s :
  (∀ d e rest, driver s = Some d → phy_eth (phy s) = true → link_status (phy s) = ETH_LINK_DOWN →
     poll_timer (emac (mac s)) = Some false → mutex_held (mac s) = false → event_answers s = e :: rest → e ≠ ESP_OK →
     wp (report_link ETH_LINK_UP) s (λ r s', r ≠ ESP_OK ∧ events s' = events s ∧
       (stuck s' ∨ poll_timer (emac (mac s')) = Some false ∧ event_answers s' = event_answers s))) ∧
  (stuck s → ∀ n, wp (Nat.iter n (λ m, eth_check_link_timer_cb P;; m) (mret ())) s (λ _ s', stuck s' ∧ events s' = events s)) ∧
  (stuck s → (∀ d, driver s = Some d → check_link_timer d ≠ None) →
   wp (esp_eth_stop true) s (λ _ s', poll_timer (emac (mac s')) = Some true)).
Proof.
  split_and!.
  - intros d e rest Hd He Hl Hp Hf Hev Hne. unfold report_link, eth_on_link. apply wp_try, wp_bind. eapply wp_the_driver; [done|].
    apply wp_try, wp_on_mac. eapply wp_mono; [by apply idle_starts|]. intros r x [[-> Hx]|(Hr & Hx)].
    + rewrite decide_True by done. apply wp_bind. eapply wp_mod_driver; [done|]. apply wp_try. unfold wp, eth_event_post.
      cbn [event_answers with_driver with_mac]. rewrite Hev. cbn [head default tail]. rewrite !decide_False by done.
      split_and!; [done|done|]. left. by split_and!.
    + rewrite !decide_False by done. split_and!; [done|done|]. by right.
  - intros Hs n. revert s Hs. change (remains_stuck (Nat.iter n (λ m, eth_check_link_timer_cb P;; m) (mret ()))).
    induction n as [|n IH]; [apply stuck_ret|]. cbn. apply stuck_bind; [apply stuck_tick|]. done.
  - apply stop_keeps_mac.
Qed.

End dm9051.

(** ** A chip whose PHY reports a link, and an event that is refused *)

Definition linked_chip : reg_chip := λ r,
  if r =? DM9051_EPDRH then 0x21 else if r =? DM9051_EPDRL then 0x04 else chip_ids r.
Definition polled_mac : dm9051_state reg_chip :=
  mkSt (mkEmac true 100 (-1) (Some false) (replicate 6 0) false false (replicate 1522 0) (replicate 64 0)) linked_chip
    [] false Z.of_nat false [] [] [] [].
Definition crc_none : list Z → Z := λ _, 0.
#[local] Instance polled_dm9051 : EthMac (dm9051_state reg_chip) := dm9051_mac crc_none 100.
Definition refusing_sys : eth_sys (dm9051_state reg_chip) :=
  mkSys (Some (mkDriver (Some true) 2000 false ETH_SPEED_10M ETH_DUPLEX_HALF ETH_LINK_DOWN 1 0 ESP_ETH_FSM_START (Some false) None None None None))
    (mkPhy true 1 100 4000 ETH_LINK_DOWN (-1) 100 (-1)) polled_mac [] [ESP_ERR_TIMEOUT] [] [ETHERNET_EVENT_START] [] [].
Definition refused_sys : eth_sys (dm9051_state reg_chip) :=
  match eth_check_link_timer_cb (esp_eth_phy_new_dm9051 None None) refusing_sys with Done s _ => s | _ => refusing_sys end.

Lemma refused_event_is_final_witness :
  (link <$> driver refused_sys = Some ETH_LINK_UP ∧ events refused_sys = [ETHERNET_EVENT_START]) ∧
  (∀ n, wp (Nat.iter n (λ m, eth_check_link_timer_cb (esp_eth_phy_new_dm9051 None None);; m) (mret ())) refused_sys
     (λ _ s', stuck s' ∧ events s' = events refused_sys)) ∧
  wp (esp_eth_stop true) refused_sys (λ _ s', poll_timer (emac (mac s')) = Some true).
Proof.
  assert (stuck refused_sys) as Hs by (vm_compute; split_and!; reflexivity || discriminate).
  split; [vm_compute; done|]. destruct (refused_event_is_final crc_none 100 refused_sys) as (_ & Hn & Hstop).
  split; [exact (Hn Hs)|apply (Hstop Hs)]. vm_compute. by intros d [= <-].
Defined.
