(* ===== verification/EthChip.v ===== *)
(** * The DM9051 as a reliable MAC

    [ViewChip] states what the driver relies on of the chip: SPI transfers succeed, RCR is a
    register, and the registers of the PHY are reached through a window: a command moves a
    word, EPCR shows that it is under way, and until it has ended the window may show and do
    anything.  BMSR latches a link that was lost until it is read.  With such a chip the
    DM9051 MAC satisfies the laws of [ReliableMac], so that what is proved of every run of
    the Ethernet driver holds of the driver on the DM9051. *)
From Stdlib Require Import ZArith Lia.
From stdpp Require Import base numbers option list relations.
From S2P Require Import Prelude Dm9051 Dm9051Safe Dm9051Regs EthPhy Eth EthSpec EthLife EthDm9051.

Open Scope Z_scope.

(** ** The chip *)

(** The receive control register, how often EPCR will still say that a command is under
    way, the window to the PHY, and the registers of the PHY by the value of EPAR that
    selects them: what the next read gives, and BMSR at present. *)
Record chip_view : Type := mkView {
  v_rcr : Z;
  v_busy : nat;
  v_epar : Z;
  v_epdrl : Z;
  v_epdrh : Z;
  v_phy : Z → Z;
  v_now : Z → Z
}.

(** Whether the chip may receive. *)
Definition rxen (w : chip_view) : bool := Z.testbit (v_rcr w) 0.
Arguments rxen : simpl never.

(** A command ends before the driver gives up, after [DM9051_PHY_OPERATION_TIMEOUT_US],
    where it looks at EPCR once and then every 100 microseconds. *)
Definition busy_max : nat := 10.

Definition is_bmsr (e : Z) : bool := e mod 64 =? ETH_PHY_BMSR_REG_ADDR.
(** A read of the register that [e] selects ends its latch. *)
Definition unlatch (e : Z) (phy now : Z → Z) : Z → Z := λ e', if (e' =? e) && is_bmsr e then now e else phy e'.

(** The window and the PHY are the same. *)
Record same_window (w w' : chip_view) : Prop := {
  sw_epar : v_epar w' = v_epar w;
  sw_epdrl : v_epdrl w' = v_epdrl w;
  sw_epdrh : v_epdrh w' = v_epdrh w;
  sw_phy_regs e : v_phy w' e = v_phy w e;
  sw_now e : v_now w' e = v_now w e
}.
(** EPAR was written. *)
Definition epar_written (v : Z) (w w' : chip_view) : Prop :=
  v_epar w' = v ∧ (∀ e, v_phy w' e = v_phy w e) ∧ (∀ e, v_now w' e = v_now w e).
(** A command to read was given. *)
Definition phy_fetched (w w' : chip_view) : Prop :=
  v_epdrl w' = u8 (v_phy w (v_epar w)) ∧ v_epdrh w' = u8 (v_phy w (v_epar w) / 256) ∧
  (∀ e, v_phy w' e = unlatch (v_epar w) (v_phy w) (v_now w) e) ∧ (∀ e, v_now w' e = v_now w e).

Definition window_reg (r : Z) : bool := existsb (Z.eqb r) [DM9051_EPAR; DM9051_EPDRL; DM9051_EPDRH; DM9051_EPCR].

(** [steady] is whether the PHY does not change by itself.  A reset through NCR may clear
    RCR. *)
Class ViewChip (dev : Type) `{!SpiDriver dev} : Type := {
  view : dev → chip_view;
  steady : dev → Prop;
  view_spi_read c r n : ∃ c' d, spi_read DM9051_SPI_RD r n c = (c', ESP_OK, d) ∧
    let w := view c in let w' := view c' in let v := as_bytes 1 d !!! O in
    v_rcr w' = v_rcr w ∧ (v_busy w' ≤ if (r =? DM9051_EPCR)%Z then pred (v_busy w) else v_busy w)%nat ∧
    (n = 1%nat → (r = DM9051_RCR → v = v_rcr w) ∧ (r = DM9051_EPCR → flag v EPCR_ERRE = negb (v_busy w =? 0)%nat)) ∧
    (steady c → steady c' ∧ same_window w w' ∧
       (n = 1%nat → v_busy w = 0%nat → (r = DM9051_EPDRL → v = v_epdrl w) ∧ (r = DM9051_EPDRH → v = v_epdrh w)));
  view_spi_write c r d : ∃ c', spi_write DM9051_SPI_WR r d c = (c', ESP_OK) ∧
    let w := view c in let w' := view c' in let v := u8 (default 0 (head d)) in
    (r = DM9051_NCR → (v_rcr w' = 0 ∨ v_rcr w' = v_rcr w) ∧ (v_busy w' ≤ busy_max)%nat) ∧
    (r ≠ DM9051_NCR →
       v_rcr w' = (if r =? DM9051_RCR then v else v_rcr w) ∧
       (v_busy w' ≤ if (r =? DM9051_EPCR)%Z then busy_max else v_busy w)%nat ∧
       (steady c → window_reg r = false → steady c' ∧ same_window w w') ∧
       (steady c → r = DM9051_EPAR → v_busy w = 0%nat → steady c' ∧ epar_written v w w') ∧
       (steady c → r = DM9051_EPCR → v_busy w = 0%nat → flag v EPCR_ERPRR = true → steady c' ∧ phy_fetched w w'))
}.

Section chip.
Context {dev : Type} `{!SpiDriver dev, !ViewChip dev}.
Context (crc32 : list Z → Z) (fuel : nat) (Hfuel : (102 ≤ fuel)%nat).
Abbreviation X := (dm9051_state dev).
Implicit Types (x : X) (w : chip_view).
#[local] Instance chip_mac : EthMac X := dm9051_mac crc32 fuel.
Abbreviation vw x := (view (chip x)).

(** The MAC is on when it may receive.  It relies on the mutex being free and taken in
    time, on the poll timer being that of its state, on the counters of the filter, on
    a clock that advances between readings and on commands that end in time. *)
#[local] Instance chip_macview : MacView X := {|
  mac_up x := rxen (vw x);
  phy_steady x := steady (chip x);
  regs x a r := u16 (v_phy (vw x) (epar a r));
  bmsr_now x a := u16 (v_now (vw x) (epar a ETH_PHY_BMSR_REG_ADDR));
  mac_ok x :=
    mutex_held x = false ∧ Forall (eq true) (mutex_answers x) ∧
    (poll_timer (emac x) = None ∨ poll_timer (emac x) = Some (rxen (vw x))) ∧
    length (hash_filter_cnt (emac x)) = 64%nat ∧ (∀ n, clock x n + 1 ≤ clock x (S n)) ∧ (v_busy (vw x) ≤ busy_max)%nat
|}.

(** ** Single accesses *)

Lemma u8_u8 v : u8 (u8 v) = u8 v.
Proof. unfold u8. by rewrite Z.mod_mod. Qed.

Lemma same_window_refl w : same_window w w.
Proof. by split. Qed.
Lemma same_window_trans w1 w2 w3 : same_window w1 w2 → same_window w2 w3 → same_window w1 w3.
Proof. intros [] []. split; intros; congruence. Qed.

(** A read of one byte from a register. *)
Lemma wp_view_read r x (Q : esp_err_t * Z → X → Prop) :
  (∀ c v, v_rcr (view c) = v_rcr (vw x) → (v_busy (view c) ≤ if (r =? DM9051_EPCR)%Z then pred (v_busy (vw x)) else v_busy (vw x))%nat →
     (r = DM9051_RCR → v = v_rcr (vw x)) → (r = DM9051_EPCR → flag v EPCR_ERRE = negb (v_busy (vw x) =? 0)%nat) →
     (steady (chip x) → steady c ∧ same_window (vw x) (view c) ∧
        (v_busy (vw x) = 0%nat → (r = DM9051_EPDRL → v = v_epdrl (vw x)) ∧ (r = DM9051_EPDRH → v = v_epdrh (vw x)))) →
     Q (ESP_OK, v) (set_chip c x)) →
  wp (dm9051_register_read r) x Q.
Proof.
  intros HQ. destruct (view_spi_read (chip x) r 1) as (c & d & E & H1 & H2 & H3 & H4). destruct (H3 eq_refl) as [H5 H6].
  unfold dm9051_register_read, bus_read. apply wp_bind. unfold wp. rewrite E. apply HQ; try done.
  intros Hs. destruct (H4 Hs) as (Hs' & Hw & Hv). split_and!; [done|done|]. by apply Hv.
Qed.
Lemma wp_view_write r v x (Q : esp_err_t → X → Prop) :
  r ≠ DM9051_NCR →
  (∀ c, v_rcr (view c) = (if r =? DM9051_RCR then u8 v else v_rcr (vw x)) →
     (v_busy (view c) ≤ if (r =? DM9051_EPCR)%Z then busy_max else v_busy (vw x))%nat →
     (steady (chip x) → window_reg r = false → steady c ∧ same_window (vw x) (view c)) →
     (steady (chip x) → r = DM9051_EPAR → v_busy (vw x) = 0%nat → steady c ∧ epar_written (u8 v) (vw x) (view c)) →
     (steady (chip x) → r = DM9051_EPCR → v_busy (vw x) = 0%nat → flag (u8 v) EPCR_ERPRR = true → steady c ∧ phy_fetched (vw x) (view c)) →
     Q ESP_OK (set_chip c x)) →
  wp (dm9051_register_write r v) x Q.
Proof.
  intros Hr HQ. destruct (view_spi_write (chip x) r [u8 v]) as (c & E & _ & Hc). unfold dm9051_register_write, bus_write, wp.
  rewrite E. cbn [head from_option id] in Hc. rewrite u8_u8 in Hc. destruct (Hc Hr) as (H1 & H2 & H3 & H4 & H5). by apply HQ.
Qed.

(** Code that succeeds, does [f] to RCR and leaves the PHY as it is. *)
Definition rcr_becomes (f : Z → Z) x x' : Prop :=
  chip_only x x' ∧ v_rcr (vw x') = f (v_rcr (vw x)) ∧ (v_busy (vw x') ≤ v_busy (vw x))%nat ∧
  (steady (chip x) → steady (chip x') ∧ same_window (vw x) (vw x')).
Definition chip_does (m : D (dev := dev) esp_err_t) (f : Z → Z) : Prop := ∀ x, wp m x (λ r x', r = ESP_OK ∧ rcr_becomes f x x').

Lemma rcr_becomes_trans f g x1 x2 x3 : rcr_becomes f x1 x2 → rcr_becomes g x2 x3 → rcr_becomes (λ v, g (f v)) x1 x3.
Proof.
  intros (C1 & R1 & B1 & S1) (C2 & R2 & B2 & S2). split_and!; [exact (chip_only_trans _ _ _ C1 C2)|by rewrite R2, R1|lia|].
  intros Hs. destruct (S1 Hs) as [Hs1 W1]. destruct (S2 Hs1) as [Hs2 W2]. split; [done|]. exact (same_window_trans _ _ _ W1 W2).
Qed.
Lemma does_write r v : r ≠ DM9051_NCR → window_reg r = false → chip_does (dm9051_register_write r v) (λ rcr, if r =? DM9051_RCR then u8 v else rcr).
Proof.
  intros Hr Hw x. apply wp_view_write; [done|]. intros c H1 H2 H3 _ _. split; [done|]. split_and!; [done|done| |].
  - cbn [chip set_chip]. destruct (Z.eqb_spec r DM9051_EPCR) as [->|]; [done|lia].
  - intros Hs. by apply H3.
Qed.
Lemma does_then m k f g : chip_does m f → chip_does k g → chip_does (then_ m k) (λ v, g (f v)).
Proof.
  intros Hm Hk x. apply wp_bind. eapply wp_mono; [apply Hm|]. intros r x1 (-> & H1). rewrite decide_True by done.
  eapply wp_mono; [apply Hk|]. intros r x2 (-> & H2). split; [done|]. exact (rcr_becomes_trans _ _ _ _ _ H1 H2).
Qed.
Lemma does_ret : chip_does (mret ESP_OK) (λ v, v).
Proof. intros x. apply wp_ret. split; [done|]. split_and!; [apply chip_only_refl|done|lia|]. intros Hs. split; [done|apply same_window_refl]. Qed.
(** The registers that are not in the view. *)
Definition other (r : Z) : bool := negb (window_reg r || existsb (Z.eqb r) [DM9051_NCR; DM9051_RCR]).
Lemma does_others l : forallb (λ rv, other rv.1) l = true → chip_does (write_registers l) (λ v, v).
Proof.
  induction l as [|[r v] l IH]; cbn [forallb write_registers]; [intros _; apply does_ret|].
  intros [Hr Hl]%andb_true_iff. apply (does_then _ _ (λ v, v) (λ v, v)); [|by apply IH].
  unfold other in Hr. cbn [existsb fst] in Hr. apply negb_true_iff in Hr. rewrite !orb_false_iff in Hr. destruct Hr as (Hw & Hn & Hc & _).
  pose proof (does_write r v (proj1 (Z.eqb_neq _ _) Hn) Hw) as H. by rewrite Hc in H.
Qed.
Lemma does_rcr f : chip_does (update_rcr f) (λ v, u8 (f v)).
Proof.
  intros x. unfold update_rcr, then_val, on_error_val. apply wp_bind, wp_view_read. intros c v H1 H2 Hv _ H4. rewrite decide_True by done.
  cbn [snd]. rewrite (Hv eq_refl). eapply wp_mono; [by apply does_write|]. intros e x' (-> & H). split; [done|].
  eapply (rcr_becomes_trans (λ v, v) (λ _, u8 (f (v_rcr (vw x)))) x (set_chip c x)); [|exact H].
  split_and!; [done|done|exact H2|]. intros Hs. by destruct (H4 Hs) as (? & ? & _).
Qed.

(** ** Starting and stopping *)

Definition rx_on (v : Z) : Z := u8 (Z.lor v RCR_RXEN).
Definition rx_off (v : Z) : Z := u8 (Z.ldiff v RCR_RXEN).

Lemma does_start : chip_does emac_dm9051_start rx_on.
Proof. eapply (does_then _ _ (λ v, v)); [|apply does_rcr]. by apply does_others. Qed.
Lemma does_stop : chip_does emac_dm9051_stop rx_off.
Proof. eapply (does_then _ _ (λ v, v)); [|apply does_rcr]. by apply (does_write DM9051_IMR). Qed.

Lemma rx_on_up v : Z.testbit (rx_on v) 0 = true.
Proof. unfold rx_on, u8. rewrite Z.mod_pow2_bits_low, Z.lor_spec by lia. apply orb_true_r. Qed.
Lemma rx_off_up v : Z.testbit (rx_off v) 0 = false.
Proof. unfold rx_off, u8. rewrite Z.mod_pow2_bits_low, Z.ldiff_spec by lia. apply andb_false_r. Qed.

Lemma window_same_phy x c p :
  steady c → same_window (vw x) (view c) → same_phy x (set_emac p (set_chip c x)).
Proof.
  intros Hs [_ _ _ Hphy Hnow]. split; cbn; [done|..]; intros.
  - by rewrite Hnow.
  - by rewrite Hphy.
  - left. by rewrite Hphy.
Qed.

(** The MAC and the timer of one that polls are switched. *)
Lemma switched_chip b f x x' p :
  mac_ok x → rcr_becomes f x x' → Z.testbit (f (v_rcr (vw x))) 0 = b → p = None ∨ p = Some b →
  switched b x (set_emac (with_poll_timer p (emac x)) (set_chip (chip x') x)).
Proof.
  intros (Hf & Hm & _ & Hc & Ht & Hbusy) (_ & Hr & Hb & Hs) Hup Hp.
  assert (rxen (vw x') = b) as Hrx by (unfold rxen; by rewrite Hr). split; cbn; [done| |].
  - rewrite Hrx. split_and!; try done. lia.
  - intros H. destruct (Hs H). by apply (window_same_phy x (chip x')).
Qed.

Lemma poll_timer_same p x : poll_timer (emac x) = p → set_emac (with_poll_timer p (emac x)) x = x.
Proof. intros <-. by destruct x as [[]]. Qed.

Lemma chip_up x : mac_ok x → mac_up x = false → wp (emac_dm9051_set_link ETH_LINK_UP) x (λ r x', r = ESP_OK ∧ switched true x x').
Proof.
  intros Hok Hup. pose proof Hok as (_ & _ & Hp & _). cbn in Hup. rewrite Hup in Hp.
  unfold emac_dm9051_set_link, then_, on_error, start_poll_timer, mod_emac. wp_steps.
  eapply wp_mono; [apply does_start|]. intros r x1 (-> & H1). rewrite decide_True by done. pose proof (proj1 H1) as C1. rewrite C1.
  pose proof (λ p, switched_chip true rx_on x x1 p Hok H1 (rx_on_up _)) as Hsw.
  destruct Hp as [Hp|Hp]; rewrite Hp; wp_steps.
  - split; [done|]. rewrite <- (poll_timer_same None (set_chip (chip x1) x)) by done. by apply Hsw; left.
  - cbn [emac set_chip]. rewrite Hp. wp_steps. rewrite decide_True by done. wp_steps. split; [done|]. by apply Hsw; right.
Qed.

Lemma chip_down x : mac_ok x → mac_up x = true → wp (emac_dm9051_set_link ETH_LINK_DOWN) x (λ r x', r = ESP_OK ∧ switched false x x').
Proof.
  intros Hok Hup. pose proof Hok as (_ & _ & Hp & _). cbn in Hup. rewrite Hup in Hp.
  unfold emac_dm9051_set_link, then_, on_error, stop_poll_timer, mod_emac. wp_steps.
  eapply wp_mono; [apply does_stop|]. intros r x1 (-> & H1). rewrite decide_True by done. pose proof (proj1 H1) as C1. rewrite C1.
  pose proof (λ p, switched_chip false rx_off x x1 p Hok H1 (rx_off_up _)) as Hsw.
  destruct Hp as [Hp|Hp]; rewrite Hp; wp_steps.
  - split; [done|]. rewrite <- (poll_timer_same None (set_chip (chip x1) x)) by done. by apply Hsw; left.
  - cbn [emac set_chip]. rewrite Hp. wp_steps. rewrite decide_True by done. wp_steps. split; [done|]. by apply Hsw; right.
Qed.

(** ** The registers of the PHY *)

(** The wait ends with no command under way. *)
Lemma phy_wait x :
  (v_busy (vw x) ≤ busy_max)%nat →
  wp (emac_dm9051_phy_access_compl DM9051_PHY_OPERATION_TIMEOUT_US) x (λ r x', r = ESP_OK ∧ rcr_becomes (λ v, v) x x' ∧ v_busy (vw x') = 0%nat).
Proof.
  intros Hb. unfold emac_dm9051_phy_access_compl, then_val, on_error_val. apply wp_bind, wp_view_read. intros c v H1 H2 _ Hf H4.
  rewrite decide_True by done. cbn [snd]. rewrite (Hf eq_refl). cbn [Z.eqb] in H2. rewrite Z.eqb_refl in H2.
  assert (rcr_becomes (λ v, v) x (set_chip c x)) as Hx.
  { split_and!; [done|done|cbn [chip set_chip]; lia|]. intros Hs. by destruct (H4 Hs) as (? & ? & _). }
  destruct (Nat.eqb_spec (v_busy (vw x)) 0) as [E|E]; cbn [negb]; [apply wp_ret; split_and!; [done|done|cbn [chip set_chip]; lia]|].
  apply (wp_iter _ (λ n to x', rcr_becomes (λ v, v) x x' ∧ (v_busy (vw x') ≤ n)%nat ∧ to = 900 - 100 * Z.of_nat n ∧ (n ≤ 9)%nat)) with (n := 9%nat);
    [|split_and!; [done|unfold busy_max in Hb; cbn [chip set_chip]; lia|lia|lia]|unfold DM9051_PHY_OPERATION_TIMEOUT_US; lia].
  clear c v H1 H2 Hf H4 Hx E. intros n to x1 (Hx1 & Hn & -> & Hn9). unfold phy_wait_step, on_error_val. apply wp_bind, wp_view_read.
  intros c v H1 H2 _ Hf H4. rewrite decide_True by done. cbn [snd]. rewrite (Hf eq_refl). rewrite Z.eqb_refl in H2.
  assert (rcr_becomes (λ v, v) x (set_chip c x1)) as Hx2.
  { apply (rcr_becomes_trans (λ v, v) (λ v, v) x x1); [done|]. split_and!; [done|done|cbn [chip set_chip]; lia|].
    intros Hs. by destruct (H4 Hs) as (? & ? & _). }
  unfold DM9051_PHY_OPERATION_TIMEOUT_US.
  destruct (Nat.eqb_spec (v_busy (vw x1)) 0) as [E|E]; cbn [negb andb]; [apply wp_ret; split_and!; [done|done|cbn [chip set_chip]; lia]|].
  rewrite (proj2 (Z.ltb_lt _ _)) by lia. apply wp_ret. exists (pred n). split; [lia|]. split_and!; [done|cbn [chip set_chip]; lia|lia|lia].
Qed.

(** The mutex is taken. *)
Lemma wp_lock x (Q : bool → X → Prop) : mac_ok x → Q true (Dm9051.set_mutex (tail (mutex_answers x)) true x) → wp dm9051_mutex_lock x Q.
Proof.
  intros (_ & Hm & _) HQ. unfold dm9051_mutex_lock. wp_steps. destruct (mutex_answers x) as [|[] l]; wp_steps; [exact HQ..|].
  apply Forall_cons in Hm as [[=] _].
Qed.

Lemma phy_word p : Z.lor (Z.shiftl (u8 (p / 256)) 8) (u8 p) = u16 p.
Proof.
  rewrite lor_shiftl_small; [|lia|apply Z.mod_pos_bound; lia]. unfold u8, u16. change (2 ^ 8) with 256. change (2 ^ 16) with (256 * 256).
  rewrite Z.rem_mul_r by lia. lia.
Qed.

Lemma epar_byte a r : u8 (epar a r) = epar a r.
Proof. apply u8_u8. Qed.
(** EPAR selects BMSR exactly for the register BMSR. *)
Lemma epar_reg a r : 0 ≤ r < 32 → epar a r mod 64 = r.
Proof.
  intros Hr. unfold epar, u8, u32. change 64 with (2 ^ 6). rewrite <- Z.land_ones by lia.
  rewrite <- (Z.mod_small r (2 ^ 6)) at 2 by lia. rewrite <- (Z.land_ones r 6) by lia. apply Z.bits_inj_iff'. intros i Hi.
  rewrite !Z.land_spec. destruct (Z.ltb_spec i 6).
  - rewrite Z.mod_pow2_bits_low, Z.lor_spec, Z.land_spec, Z.mod_pow2_bits_low, Z.shiftl_spec_low by lia. done.
  - rewrite (Z.ones_spec_high 6 i), !andb_false_r by lia. done.
Qed.
Lemma is_bmsr_epar a r : 0 ≤ r < 32 → is_bmsr (epar a r) = (r =? ETH_PHY_BMSR_REG_ADDR).
Proof. intros Hr. unfold is_bmsr. by rewrite epar_reg. Qed.

(** The word of a register of the PHY is brought to the window. *)
Lemma phy_fetch e x :
  u8 e = e → v_busy (vw x) = 0%nat →
  wp (write_registers [(DM9051_EPAR, e); (DM9051_EPCR, Z.lor EPCR_EPOS EPCR_ERPRR)]) x (λ r x', r = ESP_OK ∧
    chip_only x x' ∧ v_rcr (vw x') = v_rcr (vw x) ∧ (v_busy (vw x') ≤ busy_max)%nat ∧
    (steady (chip x) → steady (chip x') ∧ v_epdrl (vw x') = u8 (v_phy (vw x) e) ∧ v_epdrh (vw x') = u8 (v_phy (vw x) e / 256) ∧
       (∀ e', v_phy (vw x') e' = unlatch e (v_phy (vw x)) (v_now (vw x)) e') ∧ (∀ e', v_now (vw x') e' = v_now (vw x) e'))).
Proof.
  intros He Hb. cbn [write_registers]. unfold then_, on_error. apply wp_bind, wp_view_write; [done|]. intros c1 R1 B1 _ S1 _. rewrite decide_True by done.
  cbn [Z.eqb DM9051_EPAR DM9051_EPCR DM9051_RCR Pos.eqb] in R1, B1. rewrite He in S1.
  apply wp_bind, wp_view_write; [done|]. intros c2 R2 B2 _ _ S2. rewrite decide_True by done. apply wp_ret.
  cbn [Z.eqb DM9051_EPAR DM9051_EPCR DM9051_RCR Pos.eqb chip set_chip] in *. split_and!; [done|done|by rewrite R2, R1|done|]. intros Hs.
  destruct (S1 Hs eq_refl Hb) as (Hs1 & E1 & P1 & N1). destruct (S2 Hs1 eq_refl ltac:(lia) eq_refl) as (Hs2 & L2 & H2 & P2 & N2).
  rewrite E1 in *. split_and!; [done|by rewrite L2, P1|by rewrite H2, P1| |].
  - intros e'. rewrite P2. unfold unlatch. by rewrite N1, P1.
  - intros e'. by rewrite N2, N1.
Qed.

(** The mutex is given back. *)
Lemma unlocked_ok x c :
  mac_ok x → v_rcr (view c) = v_rcr (vw x) → (v_busy (view c) ≤ busy_max)%nat →
  mac_ok (Dm9051.set_mutex (tail (mutex_answers x)) false (set_chip c x)).
Proof.
  intros (Hf & Hm & Hp & Hc & Ht & _) Hv Hb. cbn. unfold rxen in *. rewrite Hv. split_and!; try done. by destruct Hm.
Qed.

Lemma chip_read_phy a r x :
  mac_ok x → wp (emac_dm9051_read_phy_reg a r true) x (λ v x',
    ∃ val, v = (ESP_OK, Some val) ∧ mac_up x' = mac_up x ∧ mac_ok x' ∧ phy_read_step a r val x x').
Proof.
  intros Hok. pose proof Hok as (_ & _ & _ & _ & _ & Hbusy). unfold emac_dm9051_read_phy_reg. cbn [negb]. apply wp_bind. apply wp_lock; [done|]. cbn [negb].
  set (x0 := Dm9051.set_mutex _ true x). change (vw x) with (vw x0) in Hbusy.
  apply wp_bind. unfold on_error at 1. apply wp_bind. eapply wp_mono; [by apply phy_wait|]. intros e x1 (-> & (C1 & R1 & _ & S1) & B1). rewrite decide_True by done.
  unfold on_error at 1. apply wp_bind. eapply wp_mono; [apply phy_fetch; [apply epar_byte|done]|]. intros e x2 (-> & C2 & R2 & B2 & S2). rewrite decide_True by done.
  unfold on_error. apply wp_bind. eapply wp_mono; [by apply phy_wait|]. intros e x3 (-> & (C3 & R3 & _ & S3) & B3). rewrite decide_True by done.
  unfold on_error_val. apply wp_bind, wp_view_read. intros c4 h R4 B4 _ _ S4. rewrite decide_True by done. cbn [snd].
  apply wp_bind, wp_view_read. intros c5 l R5 B5 _ _ S5. rewrite decide_True by done. cbn [snd chip set_chip Z.eqb DM9051_EPDRH DM9051_EPDRL DM9051_EPCR Pos.eqb] in *. wp_steps.
  assert (chip_only x0 x3) as C by exact (chip_only_trans _ _ _ C1 (chip_only_trans _ _ _ C2 C3)).
  assert (v_rcr (view c5) = v_rcr (vw x)) as Hr by (rewrite R5, R4, R3, R2, R1; done).
  exists (Z.lor (Z.shiftl h 8) l). rewrite C.
  split; [done|]. split; [cbn; unfold rxen; by rewrite Hr|]. split; [apply (unlocked_ok x c5); [done|done|lia]|]. clear C R1 R2 R3 R4 R5.
  intros Hs. cbn in Hs. destruct (S1 Hs) as (Hs1 & [_ _ _ P1 N1]). destruct (S2 Hs1) as (Hs2 & L2 & H2 & P2 & N2).
  destruct (S3 Hs2) as (Hs3 & [_ L3 H3 P3 N3]). destruct (S4 Hs3) as (Hs4 & [_ L4 H4 P4 N4] & V4). destruct (S5 Hs4) as (Hs5 & [_ _ _ P5 N5] & V5).
  destruct (V4 B3) as [_ ->]; [|done]. destruct (V5 ltac:(lia)) as [-> _]; [|done].
  rewrite H3, H2, L4, L3, L2, phy_word, P1. split; [done|].
  assert (∀ e, v_phy (view c5) e = unlatch (epar a r) (v_phy (vw x)) (v_now (vw x)) e) as P.
  { intros e. rewrite P5, P4, P3, P2. unfold unlatch. by rewrite P1, N1. }
  assert (∀ e, v_now (view c5) e = v_now (vw x) e) as N by (intros e; by rewrite N5, N4, N3, N2, N1).
  split; [split; cbn; [done|..]|].
  - intros a'. by rewrite N.
  - intros a' r' Hr' Hn'. rewrite P. unfold unlatch. destruct (Z.eqb_spec (epar a' r') (epar a r)) as [E|]; [|done].
    rewrite <- E, (is_bmsr_epar a' r'), (proj2 (Z.eqb_neq r' _)) by done. done.
  - intros a'. rewrite P. unfold unlatch. destruct (Z.eqb_spec (epar a' ETH_PHY_BMSR_REG_ADDR) (epar a r)) as [E|]; [|by left].
    cbn [andb]. destruct (is_bmsr (epar a r)); [right; by rewrite E|by left].
  - intros ->. cbn. rewrite P. unfold unlatch. by rewrite Z.eqb_refl, is_bmsr_epar.
Qed.

(** A write to a register other than NCR. *)
Lemma wp_write_any r v x (Q : esp_err_t → X → Prop) :
  r ≠ DM9051_NCR → r ≠ DM9051_RCR → (v_busy (vw x) ≤ busy_max)%nat →
  (∀ c, v_rcr (view c) = v_rcr (vw x) → (v_busy (view c) ≤ busy_max)%nat → Q ESP_OK (set_chip c x)) →
  wp (dm9051_register_write r v) x Q.
Proof.
  intros Hn Hr Hb HQ. apply wp_view_write; [done|]. intros c H1 H2 _ _ _. rewrite (proj2 (Z.eqb_neq _ _)) in H1 by done. apply HQ; [done|].
  destruct (r =? DM9051_EPCR); lia.
Qed.

Lemma chip_write_phy a r v : keeps_up (emac_dm9051_write_phy_reg a r v) (λ r, r = ESP_OK).
Proof.
  intros x Hok. pose proof Hok as (_ & _ & _ & _ & _ & Hbusy). unfold emac_dm9051_write_phy_reg, phy_locked. apply wp_bind. apply wp_lock; [done|]. cbn [negb].
  set (x0 := Dm9051.set_mutex _ true x). change (vw x) with (vw x0) in Hbusy. apply wp_bind. unfold then_ at 1, on_error. apply wp_bind.
  eapply wp_mono; [by apply phy_wait|]. intros e x1 (-> & (C1 & R1 & B1 & _) & _). rewrite decide_True by done. unfold then_ at 1, on_error. apply wp_bind.
  cbn [write_registers]. unfold then_, on_error. apply wp_bind, wp_write_any; [done|done|lia|]. intros c2 R2 B2. rewrite decide_True by done.
  do 3 (apply wp_bind, wp_write_any; [done|done|done|]; cbn [chip set_chip]; intros ? ? ?; rewrite decide_True by done).
  apply wp_ret. rewrite decide_True by done. eapply wp_mono; [by apply phy_wait|]. intros e x2 (-> & (C2 & R3 & B3 & _) & B4).
  unfold dm9051_mutex_unlock. wp_steps. cbn [chip set_chip] in *.
  assert (chip_only x0 x2) as C.
  { apply (chip_only_trans _ _ _ C1). rewrite C2. by destruct x1. }
  assert (v_rcr (vw x2) = v_rcr (vw x)) as Hr by (rewrite R3; change (vw x0) with (vw x) in R1; congruence).
  rewrite C. split; [done|]. split; [cbn; unfold rxen; by rewrite Hr|]. apply (unlocked_ok x (chip x2)); [done|done|lia].
Qed.

(** ** Code that keeps the MAC on or off *)

Definition holds (b : bool) {A} (m : D (dev := dev) A) : Prop := ∀ x, mac_ok x → mac_up x = b → wp m x (λ _ x', mac_up x' = b ∧ mac_ok x').

Lemma holds_ret b {A} (a : A) : holds b (mret a).
Proof. intros x Hok Hup. by apply wp_ret. Qed.
Lemma holds_get b : holds b get.
Proof. intros x Hok Hup. by apply wp_get. Qed.
Lemma holds_bind b {A B} (m : D A) (k : A → D B) : holds b m → (∀ a, holds b (k a)) → holds b (m ≫= k).
Proof. intros Hm Hk x Hok Hup. apply wp_bind. eapply wp_mono; [by apply Hm|]. intros a x' [??]. by apply Hk. Qed.
Lemma holds_error b {A} (fail : esp_err_t → D A) m k : (∀ e, holds b (fail e)) → holds b m → holds b k → holds b (on_error fail m k).
Proof. intros. apply holds_bind; [done|]. intros e. by destruct (decide (e = ESP_OK)). Qed.
Lemma holds_then b m k : holds b m → holds b k → holds b (then_ m k).
Proof. intros. apply holds_error; [|done..]. intros. apply holds_ret. Qed.
Lemma holds_error_val b {A B} (fail : esp_err_t → D B) (m : D (esp_err_t * A)) k :
  (∀ e, holds b (fail e)) → holds b m → (∀ a, holds b (k a)) → holds b (on_error_val fail m k).
Proof. intros. apply holds_bind; [done|]. intros r. by destruct (decide (r.1 = ESP_OK)). Qed.
Lemma holds_then_val b {A} (m : D (esp_err_t * A)) k : holds b m → (∀ a, holds b (k a)) → holds b (then_val m k).
Proof. intros. apply holds_error_val; [|done..]. intros. apply holds_ret. Qed.

(** Only the chip changes. *)
Lemma ok_chip x c :
  mac_ok x → rxen (view c) = rxen (vw x) → (v_busy (view c) ≤ busy_max)%nat → mac_up (set_chip c x) = mac_up x ∧ mac_ok (set_chip c x).
Proof. intros (Hf & Hm & Hp & Hc & Ht & _) Hr Hb. cbn. rewrite Hr. done. Qed.
Lemma ok_becomes f x x' :
  mac_ok x → rcr_becomes f x x' → Z.testbit (f (v_rcr (vw x))) 0 = rxen (vw x) → mac_up x' = mac_up x ∧ mac_ok x'.
Proof.
  intros Hok (C & R & B & _) Hf. rewrite C. apply ok_chip; [done|unfold rxen; by rewrite R|]. destruct Hok as (_&_&_&_&_&?). lia.
Qed.

Lemma holds_read b r : holds b (dm9051_register_read r).
Proof.
  intros x Hok <-. apply wp_view_read. intros c v H1 H2 _ _ _. apply ok_chip; [done|unfold rxen; by rewrite H1|].
  destruct Hok as (_&_&_&_&_&?). destruct (r =? DM9051_EPCR); lia.
Qed.
(** A write that does not touch the receiver, a reset of a chip that is off, and a write of
    RCR that leaves the bit. *)
Lemma holds_write b r v :
  r ≠ DM9051_RCR ∧ r ≠ DM9051_NCR ∨ r = DM9051_NCR ∧ b = false ∨ r = DM9051_RCR ∧ Z.testbit (u8 v) 0 = b →
  holds b (dm9051_register_write r v).
Proof.
  intros Hr x Hok <-. pose proof Hok as (_ & _ & _ & _ & _ & Hb). destruct (decide (r = DM9051_NCR)) as [->|Hn].
  - unfold dm9051_register_write, bus_write, wp. destruct (view_spi_write (chip x) DM9051_NCR [u8 v]) as (c & -> & Hc & _).
    destruct (Hc eq_refl) as [Hrcr Hbusy]. apply ok_chip; [done| |done]. destruct Hr as [[_ []]|[[_ Hb']|[? _]]]; [done| |done].
    cbn in Hb'. rewrite Hb'. unfold rxen in *. by destruct Hrcr as [-> | ->].
  - apply wp_view_write; [done|]. intros c H1 H2 _ _ _. apply ok_chip; [done| |destruct (r =? DM9051_EPCR); lia].
    destruct Hr as [[H3 _]|[[? _]|[-> Hb']]]; [|done|].
    + unfold rxen. by rewrite H1, (proj2 (Z.eqb_neq _ _)).
    + unfold rxen. by rewrite H1.
Qed.
Lemma holds_writes b l : Forall (λ rv, rv.1 ≠ DM9051_RCR ∧ rv.1 ≠ DM9051_NCR ∨ rv.1 = DM9051_NCR ∧ b = false ∨ rv.1 = DM9051_RCR ∧ Z.testbit (u8 rv.2) 0 = b) l →
  holds b (write_registers l).
Proof. induction 1 as [|[r v] l Hr Hl IH]; cbn [write_registers]; [apply holds_ret|]. apply holds_then; [by apply holds_write|done]. Qed.
Lemma holds_rcr b f : (∀ v, Z.testbit (f v) 0 = Z.testbit v 0) → holds b (update_rcr f).
Proof.
  intros Hf x Hok <-. eapply wp_mono; [apply does_rcr|]. intros e x' (_ & H). eapply ok_becomes; [done|exact H|].
  unfold u8. by rewrite Z.mod_pow2_bits_low, Hf by lia.
Qed.

(** The driver changes where the MAC does not look. *)
Lemma holds_emac b f : (∀ e, poll_timer (f e) = poll_timer e ∧ length (hash_filter_cnt (f e)) = length (hash_filter_cnt e)) → holds b (mod_emac f).
Proof.
  intros Hf x (Hx & Hm & Hp & Hc & Ht) Hup. unfold mod_emac. wp_steps. cbn. destruct (Hf (emac x)) as [-> ->]. done.
Qed.

(** So does the rest of the state. *)
Lemma holds_modify b (f : X → X) :
  (∀ x, emac (f x) = emac x ∧ chip (f x) = chip x ∧ mutex_held (f x) = mutex_held x ∧ mutex_answers (f x) = mutex_answers x ∧ clock (f x) = clock x) →
  holds b (modify f).
Proof. intros Hf x Hok Hup. wp_steps. destruct (Hf x) as (He & Hc & Hh & Hm & Ht). cbn in *. by rewrite He, Hc, Hh, Hm, Ht. Qed.

Lemma holds_state b st : holds b (on_state_changed st).
Proof.
  apply holds_bind; [apply holds_get|]. intros x. destruct (mediator_answers x);
    (apply holds_bind; [by apply holds_modify|intros _; apply holds_ret]).
Qed.
Lemma holds_mediator b l m : holds b m → holds b (with_mediator l m).
Proof. intros. apply holds_bind; [by apply holds_modify|done]. Qed.

Lemma holds_get_mac b i n : holds b (get_mac_from i n).
Proof.
  revert i. induction n as [|n IH]; intros i; [apply holds_ret|]. apply holds_bind; [apply holds_read|]. intros r.
  apply holds_bind; [by apply holds_emac|]. intros _. destruct (decide _); [apply IH|apply holds_ret].
Qed.
(** Eight registers of the station address or of the filter. *)
Lemma other_range b r v : 0x10 ≤ r ≤ 0x1D → holds b (dm9051_register_write r v).
Proof. intros Hr. apply holds_write. left. unfold DM9051_RCR, DM9051_NCR. lia. Qed.
Lemma holds_set_mac b i n : (i + n ≤ 6)%nat → holds b (set_mac_from i n).
Proof.
  revert i. induction n as [|n IH]; intros i Hi; [apply holds_ret|]. apply holds_bind; [apply holds_get|]. intros x.
  apply holds_then; [apply other_range; unfold DM9051_PAR; lia|]. apply IH. lia.
Qed.
Lemma holds_clear_mar b i n : (i + n ≤ 8)%nat → holds b (clear_mar_from i n).
Proof.
  revert i. induction n as [|n IH]; intros i Hi; [apply holds_ret|]. apply holds_then; [apply other_range; unfold DM9051_MAR; lia|].
  apply IH. lia.
Qed.
Lemma holds_filter b a add : holds b (dm9051_hash_filter_modify crc32 a add).
Proof.
  unfold dm9051_hash_filter_modify. apply holds_then_val; [apply holds_read|]. intros mar x Hok Hup. wp_steps.
  pose proof Hok as (_ & _ & _ & Hc & _). pose proof (hash_range crc32 a) as Hh.
  destruct (lookup_lt_is_Some_2 (hash_filter_cnt (emac x)) (Z.to_nat (hash_of crc32 a))) as [c Hl]; [lia|]. rewrite Hl.
  assert (∀ cnt v, length cnt = length (hash_filter_cnt (emac x)) →
    wp (mod_emac (with_hash_cnt cnt);; dm9051_register_write (DM9051_MAR + hash_of crc32 a / 8) v) x (λ _ x', mac_up x' = b ∧ mac_ok x')) as Hgo.
  { intros cnt v Hlen. apply wp_bind. eapply wp_mono with (Q := λ _ x', mac_up x' = b ∧ mac_ok x').
    - unfold mod_emac. wp_steps. destruct Hok as (?&?&?&?&?&?). split; [done|]. split_and!; try done. cbn. congruence.
    - intros _ x' [Hu Ho]. apply (other_range b); [|done..]. unfold DM9051_MAR. Z.to_euclidean_division_equations. lia. }
  destruct add; apply Hgo; by rewrite length_insert.
Qed.

Lemma holds_wait_reset b n : holds b (wait_reset n).
Proof. induction n as [|n IH]; [apply holds_ret|]. apply holds_then_val; [apply holds_read|]. intros v. by destruct (negb _); [apply holds_ret|]. Qed.
Lemma holds_reset : holds false dm9051_reset.
Proof.
  apply holds_bind; [apply holds_get|]. intros x. apply holds_then; [apply holds_write; by left|].
  apply holds_then; [apply holds_write; by right; left|]. apply holds_wait_reset.
Qed.
Lemma holds_verify b : holds b dm9051_verify_id.
Proof.
  unfold dm9051_verify_id. do 2 (apply holds_then_val; [apply holds_read|]; intros ?). destruct (negb _); [apply holds_ret|].
  do 2 (apply holds_then_val; [apply holds_read|]; intros ?). destruct (negb _); apply holds_ret.
Qed.
Lemma holds_setup : holds false dm9051_setup_default.
Proof. apply holds_writes. repeat (apply Forall_cons; split; [first [by left|by right; left|by right; right]|]). apply Forall_nil. done. Qed.

Lemma holds_isr b (c v : bool) : holds b (if c then modify (set_isr v) else mret ()).
Proof. destruct c; [by apply holds_modify|apply holds_ret]. Qed.

Lemma holds_init : holds false emac_dm9051_init.
Proof.
  apply holds_bind; [apply holds_get|]. intros x. cbv zeta. apply holds_bind; [apply holds_isr|]. intros _. apply holds_bind.
  - apply holds_then; [apply holds_state|]. apply holds_then; [apply holds_reset|]. apply holds_then; [apply holds_verify|].
    apply holds_then; [apply holds_setup|]. apply holds_then; [apply holds_clear_mar; lia|apply holds_get_mac].
  - intros r. destruct (decide _); [apply holds_ret|]. apply holds_bind; [apply holds_isr|]. intros _.
    apply holds_bind; [apply holds_state|]. intros _. apply holds_ret.
Qed.

Lemma holds_stop : holds false emac_dm9051_stop.
Proof.
  intros x Hok Hup. eapply wp_mono; [apply does_stop|]. intros e x' (_ & H).
  destruct (ok_becomes _ x x' Hok H) as [Hu Ho]; [by rewrite rx_off_up|]. by rewrite Hu.
Qed.

(** The timer of a MAC that is off does not run. *)
Lemma holds_deinit : holds false emac_dm9051_deinit.
Proof.
  intros x Hok Hup. unfold emac_dm9051_deinit. wp_steps. pose proof Hok as (_ & _ & Hp & _). cbn in Hup. rewrite Hup in Hp.
  rewrite decide_False by (destruct Hp as [-> | ->]; done).
  eapply wp_mono; [by apply holds_stop|]. intros e x1 [Hu1 Ho1]. cbv beta.
  apply (holds_bind false); [apply holds_isr| |done..]. intros _. apply holds_bind; [apply holds_ret|]. intros _. apply holds_bind; [apply holds_state|].
  intros _. apply holds_ret.
Qed.

(** ** Transmission ends *)

Lemma ok_clock x : mac_ok x → mac_ok (set_clock (λ n, clock x (S n)) x).
Proof. intros (?&?&?&?&Ht&?). split_and!; try done. intros n. apply Ht. Qed.

(** Every turn of the wait takes a microsecond at least. *)
Lemma holds_tx_wait b x t :
  mac_ok x → mac_up x = b → t + 1 ≤ clock x O → wp (iterM fuel (nsr_wait_step t) ()) x (λ _ x', mac_up x' = b ∧ mac_ok x').
Proof.
  intros Hok Hup Ht.
  apply (wp_iter _ (λ n _ x', mac_ok x' ∧ mac_up x' = b ∧ t + 101 - clock x' O ≤ Z.of_nat n)) with (n := 100%nat);
    [|split_and!; [done|done|lia]|lia].
  intros n u x1 (Ho & Hu & Hn). unfold nsr_wait_step, on_error_val. apply wp_bind. eapply wp_view_read. intros c v Hv Hbu _ _ _.
  destruct (ok_chip x1 c Ho) as [Hu1 Ho1]; [unfold rxen; by rewrite Hv|destruct Ho as (_&_&_&_&_&?); cbn in Hbu; lia|]. rewrite Hu in Hu1. rewrite decide_True by done. cbn [fst snd].
  destruct (Z.land v _ =? 0); [|by wp_steps]. apply wp_bind. change (wp esp_timer_get_time ?s ?Q) with (Q (clock s O) (set_clock (λ n, clock s (S n)) s)).
  cbn [clock set_chip]. pose proof (ok_clock _ Ho1) as Ho2. destruct Ho as (_&_&_&_&Hc&_). pose proof (Hc O).
  destruct (Z.ltb_spec (clock x1 O - t) 100); wp_steps; [|done]. exists (pred n). cbn [clock set_clock set_chip]. split; [lia|]. split_and!; [done|done|lia].
Qed.

Lemma chip_transmit data : keeps_up (emac_dm9051_transmit fuel data (zlen data)) (λ _, True).
Proof.
  intros x Hok. unfold emac_dm9051_transmit. destruct (negb _); [by apply wp_ret|]. apply wp_bind.
  change (wp esp_timer_get_time ?s ?Q) with (Q (clock s O) (set_clock (λ n, clock s (S n)) s)).
  apply wp_bind. eapply wp_mono; [apply (holds_tx_wait (mac_up x)); [by apply ok_clock|done|]|].
  { destruct Hok as (_&_&_&_&Hc&_). apply (Hc O). }
  intros r x1 [Hu Ho]. enough (holds (mac_up x) (if decide (r.1 = ESP_OK) then
    if r.2 =? 0 then mret ESP_ERR_INVALID_STATE
    else
      then_ (if r.2 =? Z.lor NSR_TX2END NSR_TX1END then dm9051_register_write DM9051_MPTRCR MPTRCR_RST_TX else mret ESP_OK)
        (then_ (write_registers [(DM9051_TXPLL, Z.land (zlen data) 0xFF); (DM9051_TXPLH, Z.land (Z.shiftr (zlen data) 8) 0xFF)])
          (dm9051_memory_write (take (Z.to_nat (zlen data)) data))) else mret r.1)) as H.
  { eapply wp_mono; [by apply H|]. by intros ? ? []. }
  destruct (decide _); [|apply holds_ret]. destruct (r.2 =? 0); [apply holds_ret|].
  apply holds_then; [destruct (r.2 =? _); [apply holds_write; by left|apply holds_ret]|].
  apply holds_then; [apply holds_writes; repeat (apply Forall_cons; split; [by left|]); by apply Forall_nil|].
  intros x2 Ho2 Hu2. unfold dm9051_memory_write, bus_write, wp. destruct (view_spi_write (chip x2) DM9051_MWCMD (take (Z.to_nat (zlen data)) data)) as (c & -> & _ & Hc).
  destruct Hc as (H1 & H2 & _); [done|].
  destruct (ok_chip x2 c Ho2) as [Hu3 Ho3]; [unfold rxen; by rewrite H1|destruct Ho2 as (_&_&_&_&_&?); cbn in H2; lia|]. by rewrite Hu3.
Qed.

(** ** The laws *)

Lemma keeps_up_holds {A} (m : D (dev := dev) A) : (∀ b, holds b m) → keeps_up m (λ _, True).
Proof. intros Hm x Hok. eapply wp_mono; [by apply (Hm (mac_up x))|]. by intros ? ? []. Qed.
Lemma keeps_does m : chip_does m (λ v, v) → keeps m (λ r, r = ESP_OK).
Proof.
  intros Hm x Hok. eapply wp_mono; [apply Hm|]. intros r x' (-> & H). split; [done|]. destruct (ok_becomes _ x x' Hok H) as [Hu Ho]; [done|].
  split; [done|done|]. intros Hs. destruct H as (C & _ & _ & S). destruct (S Hs) as [Hs' Hw]. rewrite C. exact (window_same_phy x (chip x') (emac x) Hs' Hw).
Qed.

Lemma does_flow b : chip_does (dm9051_enable_flow_ctrl b) (λ v, v).
Proof. unfold dm9051_enable_flow_ctrl. destruct b; by apply does_others. Qed.

#[local] Instance chip_reliable : ReliableMac X.
Proof using Hfuel.
  split.
  - apply chip_up.
  - apply chip_down.
  - intros [] Hv; [apply keeps_does, does_ret..|done].
  - intros [] Hv; [apply keeps_does, does_ret..|done].
  - intros a. apply keeps_does. intros x. cbn [mac_set_peer_pause_ability chip_mac dm9051_mac]. unfold emac_dm9051_set_peer_pause_ability.
    wp_steps. eapply wp_mono; [apply does_flow|]. intros r x' (_ & H). by wp_steps.
  - intros a r x Hok. by apply chip_read_phy.
  - apply chip_write_phy.
  - apply holds_bind; [by apply holds_emac|]. intros _. apply holds_ret.
  - intros l d. apply holds_mediator, holds_init.
  - intros d. apply holds_mediator, holds_deinit.
  - done.
  - apply chip_transmit.
  - intros l _. apply keeps_up_holds. intros b. apply holds_bind; [by apply holds_emac|]. intros _.
    apply holds_then; [apply holds_set_mac; done|apply holds_ret].
  - apply keeps_up_holds. intros b. apply holds_bind; [apply holds_get|]. intros. apply holds_ret.
  - intros b. apply keeps_up_holds. intros b'. apply holds_rcr. intros v.
    destruct b; rewrite ?Z.lor_spec, ?Z.ldiff_spec; cbn -[Z.testbit]; rewrite ?orb_false_r, ?andb_true_r; done.
  - intros b. apply keeps_up_holds. intros b'. apply holds_bind; [by apply holds_emac|]. intros _. apply holds_ret.
  - intros b. apply keeps_up_holds. intros b'. apply holds_rcr. intros v.
    destruct b; rewrite ?Z.lor_spec, ?Z.ldiff_spec; cbn -[Z.testbit]; rewrite ?orb_false_r, ?andb_true_r; done.
  - intros a. apply keeps_up_holds. intros b. apply holds_then; [apply holds_filter|apply holds_ret].
  - intros a. apply keeps_up_holds. intros b. apply holds_then; [apply holds_filter|apply holds_ret].
Qed.


End chip.

(** ** A chip with a PHY at address 1

    A command takes three looks at EPCR; until then the window shows another byte and
    refuses what is written. *)

Definition norm (c : chip_view) : chip_view := mkView (u8 (v_rcr c)) (v_busy c) (v_epar c) (u8 (v_epdrl c)) (u8 (v_epdrh c)) (v_phy c) (v_now c).

(** The identity of the chip; both transmit slots are free. *)
Definition sheet_reg (r : Z) (c : chip_view) : Z :=
  if r =? DM9051_RCR then v_rcr c
  else if r =? DM9051_EPCR then if (v_busy c =? 0)%nat then 0 else 1
  else if r =? DM9051_EPDRL then if (v_busy c =? 0)%nat then v_epdrl c else 0xAA
  else if r =? DM9051_EPDRH then if (v_busy c =? 0)%nat then v_epdrh c else 0xAA
  else if r =? DM9051_VIDL then 0x46 else if r =? DM9051_VIDH then 0x0A else if r =? DM9051_PIDL then 0x51
  else if r =? DM9051_PIDH then 0x90 else if r =? DM9051_NSR then 12 else 0.

Definition looked (r : Z) (c : chip_view) : chip_view :=
  if r =? DM9051_EPCR then mkView (v_rcr c) (pred (v_busy c)) (v_epar c) (v_epdrl c) (v_epdrh c) (v_phy c) (v_now c) else c.

(** A reset gives BMCR its default. *)
Definition sheet_phy_write (a v : Z) (phy : Z → Z) : Z → Z :=
  λ a', if a' =? a then (if (a mod 64 =? ETH_PHY_BMCR_REG_ADDR) && bit v reset_bit then 0x3100 else v) else phy a'.

Definition sheet_write (r v : Z) (c : chip_view) : chip_view :=
  if r =? DM9051_NCR then mkView 0 (v_busy c) (v_epar c) (v_epdrl c) (v_epdrh c) (v_phy c) (v_now c)
  else if r =? DM9051_RCR then mkView v (v_busy c) (v_epar c) (v_epdrl c) (v_epdrh c) (v_phy c) (v_now c)
  else if negb (v_busy c =? 0)%nat then c
  else if r =? DM9051_EPAR then mkView (v_rcr c) (v_busy c) v (v_epdrl c) (v_epdrh c) (v_phy c) (v_now c)
  else if r =? DM9051_EPDRL then mkView (v_rcr c) (v_busy c) (v_epar c) v (v_epdrh c) (v_phy c) (v_now c)
  else if r =? DM9051_EPDRH then mkView (v_rcr c) (v_busy c) (v_epar c) (v_epdrl c) v (v_phy c) (v_now c)
  else if r =? DM9051_EPCR then
    if flag v EPCR_ERPRR then
      mkView (v_rcr c) 3 (v_epar c) (u8 (v_phy c (v_epar c))) (u8 (v_phy c (v_epar c) / 256)) (unlatch (v_epar c) (v_phy c) (v_now c)) (v_now c)
    else if flag v EPCR_ERPRW then
      mkView (v_rcr c) 3 (v_epar c) (v_epdrl c) (v_epdrh c) (sheet_phy_write (v_epar c) (v_epdrh c * 256 + v_epdrl c) (v_phy c)) (v_now c)
    else c
  else c.

(** At most ten looks, whatever the state was. *)
Definition bounded (c : chip_view) : chip_view := mkView (v_rcr c) (v_busy c `min` busy_max) (v_epar c) (v_epdrl c) (v_epdrh c) (v_phy c) (v_now c).

#[export] Instance sheet_spi : SpiDriver chip_view := {|
  spi_read cmd r n c := (looked r c, ESP_OK, replicate n (sheet_reg r c));
  spi_write cmd r d c := (sheet_write r (u8 (default 0 (head d))) (norm (bounded c)), ESP_OK)
|}.

Lemma norm_window c c' :
  v_epar c' = v_epar c → u8 (v_epdrl c') = u8 (v_epdrl c) → u8 (v_epdrh c') = u8 (v_epdrh c) → v_phy c' = v_phy c → v_now c' = v_now c →
  same_window (norm c) (norm c').
Proof. intros H1 H2 H3 H4 H5. split; cbn; intros; by rewrite ?H4, ?H5. Qed.

#[export] Instance sheet_chip : ViewChip chip_view.
Proof.
  refine {| view := norm; steady _ := True |}.
  - intros c r n. exists (looked r c), (replicate n (sheet_reg r c)). split; [done|]. cbv zeta. unfold looked.
    split_and!; [by case_match|case_match; cbn; lia| |].
    + intros ->. change (as_bytes 1 (replicate 1 (sheet_reg r c)) !!! O) with (u8 (sheet_reg r c)).
      split; intros ->; [done|]. cbn. by destruct (v_busy c =? 0)%nat.
    + intros _. split; [done|]. split; [by case_match; apply norm_window|]. intros -> Hb.
      change (as_bytes 1 (replicate 1 (sheet_reg r c)) !!! O) with (u8 (sheet_reg r c)). cbn in Hb.
      split; intros ->; unfold sheet_reg; cbn; by rewrite Hb.
  - intros c r d. eexists. split; [done|]. cbv zeta. set (v := u8 (default 0 (head d))).
    assert (u8 v = v) as Hv by apply u8_u8. assert ((v_busy c `min` busy_max ≤ busy_max)%nat) as Hm by lia.
    assert ((v_busy c `min` busy_max ≤ v_busy c)%nat) as Hm' by lia.
    split; [intros ->; split; [by left|exact Hm]|]. intros Hn. unfold sheet_write. rewrite (proj2 (Z.eqb_neq r DM9051_NCR)) by done.
    split_and!.
    + destruct (r =? DM9051_RCR); [done|]. repeat case_match; cbn; by rewrite ?u8_u8.
    + destruct (Z.eqb_spec r DM9051_RCR) as [->|]; [exact Hm'|]. cbn [v_busy norm bounded].
      destruct (negb _); [cbn; case_match; lia|]. repeat case_match; cbn; unfold busy_max; lia.
    + intros _ Hw. split; [done|]. unfold window_reg in Hw. cbn [existsb] in Hw. rewrite !orb_false_iff in Hw. destruct Hw as (H1 & H2 & H3 & H4 & _).
      rewrite H1, H2, H3, H4. repeat case_match; apply norm_window; cbn; by rewrite ?u8_u8.
    + intros _ -> Hb. cbn in Hb. split; [done|]. cbn. by rewrite Hb.
    + intros _ -> Hb Hf. cbn in Hb. split; [done|]. cbn. rewrite Hb. cbn. rewrite Hf. unfold phy_fetched. cbn. by rewrite !u8_u8.
Defined.

(** A link; the cable was pulled before, which BMSR has latched. *)
Definition sheet_view : chip_view :=
  mkView 0 0 0 0 0 (λ a, if a / 64 =? 1 then if a mod 64 =? ETH_PHY_BMSR_REG_ADDR then 0x0020 else sim_phy (a mod 64) else 0xFFFF)
    (λ a, if a / 64 =? 1 then 0x0024 else 0xFFFF).
Definition sheet_mac : dm9051_state chip_view :=
  mkSt (mkEmac false 100 (-1) (Some false) (replicate 6 0) false false (replicate 1522 0) (replicate 64 0)) sheet_view
    [] false Z.of_nat false [] [] [] [].
Definition sheet_sys : eth_sys (dm9051_state chip_view) :=
  mkSys None (mkPhy false 1 100 4000 ETH_LINK_DOWN (-1) 100 (-1)) sheet_mac [] [] [] [] [] [].

#[local] Instance sheet_ethmac : EthMac (dm9051_state chip_view) := chip_mac crc_none 102.
#[local] Instance sheet_macview : MacView (dm9051_state chip_view) := chip_macview.

Definition sheet_config : esp_eth_config_t := mkConfig None None None None 2000.
Definition sheet_installed : eth_sys (dm9051_state chip_view) :=
  match run_op (OpInstall (Some (true, sheet_config)) true) sheet_sys with Done s _ => s | _ => sheet_sys end.
Definition sheet_started : eth_sys (dm9051_state chip_view) := match run_op OpStart sheet_installed with Done s _ => s | _ => sheet_sys end.

Lemma sheet_run : rtc eth_step sheet_sys sheet_started.
Proof.
  eapply rtc_l; [eapply (step_op _ (OpInstall (Some (true, sheet_config)) true) sheet_installed ESP_OK)|].
  - done.
  - vm_compute. reflexivity.
  - eapply rtc_l; [|apply rtc_refl]. eapply (step_op _ OpStart sheet_started ESP_OK); [vm_compute; discriminate|vm_compute; reflexivity].
Qed.

Lemma sheet_calm : calm sheet_sys.
Proof.
  split_and!; [reflexivity|reflexivity|reflexivity|reflexivity|].
  split_and!; [reflexivity|constructor|right; reflexivity|reflexivity| |cbn; lia]. intros n. unfold sheet_sys, sheet_mac. cbn [mac clock]. lia.
Qed.

