(* ===== verification/EthSafe.v ===== *)
(** * The Ethernet driver when calls fail

    With a MAC of which nothing is known but that its functions return ([SafeMac]), with an
    event loop that may refuse events, with allocations that may fail and with uninstalls
    that may fail half way, no call on a driver that is in use faults.  The DM9051 with any
    chip at all is such a MAC, also when every transfer on the SPI bus fails. *)
From Stdlib Require Import ZArith Lia.
From stdpp Require Import base numbers option list relations.
From S2P Require Import Prelude Dm9051 Dm9051Safe Dm9051Regs EthPhy Eth EthSpec EthLife EthDm9051 EthChip.

Open Scope Z_scope.

(** [m] returns, with a result in [Q], and keeps [I]. *)
Definition returns {X A : Type} (I : X → Prop) (m : M X A) (Q : A → Prop) : Prop := ∀ x, I x → wp m x (λ a x', Q a ∧ I x').
Definition maybe_returns {X B : Type} (I : X → Prop) (f : option (B → M X esp_err_t)) : Prop :=
  match f with None => True | Some f => ∀ b, returns I (f b) (λ _, True) end.

(** A MAC whose functions return, whatever they return, and store what they read when they
    say so. *)
Class SafeMac (X : Type) `{!EthMac X} : Type := {
  mac_sane : X → Prop;
  safe_mediator : returns mac_sane (mac_set_mediator true) (λ _, True);
  safe_init l d : returns mac_sane (mac_init l d) (λ _, True);
  safe_deinit d : returns mac_sane (mac_deinit d) (λ _, True);
  safe_link l : returns mac_sane (mac_set_link l) (λ _, True);
  safe_speed v : returns mac_sane (mac_set_speed v) (λ _, True);
  safe_duplex v : returns mac_sane (mac_set_duplex v) (λ _, True);
  safe_pause a : returns mac_sane (mac_set_peer_pause_ability a) (λ _, True);
  safe_read a r : returns mac_sane (mac_read_phy_reg a r) (λ v, v.1 = ESP_OK → is_Some v.2);
  safe_write a r v : returns mac_sane (mac_write_phy_reg a r v) (λ _, True);
  safe_transmit data : returns mac_sane (mac_transmit data) (λ _, True);
  safe_vargs : maybe_returns mac_sane mac_transmit_ctrl_vargs;
  safe_set_addr l : length l = 6%nat → returns mac_sane (mac_set_addr l) (λ _, True);
  safe_get_addr : returns mac_sane mac_get_addr (λ _, True);
  safe_promiscuous b : returns mac_sane (mac_set_promiscuous b) (λ _, True);
  safe_multicast : maybe_returns mac_sane mac_set_all_multicast;
  safe_flow b : returns mac_sane (mac_enable_flow_ctrl b) (λ _, True);
  safe_add_filter : maybe_returns mac_sane mac_add_mac_filter;
  safe_rm_filter : maybe_returns mac_sane mac_rm_mac_filter
}.

Section safe.
Context {X : Type} `{!EthMac X, !SafeMac X}.
Abbreviation sys := (eth_sys X).
Implicit Types (s : sys) (d : esp_eth_driver_t) (x : X).
Abbreviation P := (esp_eth_phy_new_dm9051 (X := X) None None).

(** ** Code that keeps the timer, the state and the mutex of the driver

    [Φ] is a property of these three. *)
Section pres.
Context (Φ : option bool → esp_eth_fsm_t → option bool → Prop).

Definition holds_ s : Prop :=
  ∃ d, driver s = Some d ∧ phy_eth (phy s) = true ∧ mac_sane (mac s) ∧ Φ (check_link_timer d) (fsm d) (transmit_mutex d).
Record Stays {A : Type} (m : ES X A) : Prop := mkStays { stays : ∀ s, holds_ s → wp m s (λ _ s', holds_ s') }.

Lemma stays_ret {A} (a : A) : Stays (mret a).
Proof. split. intros s Hs. by apply wp_ret. Qed.
Lemma stays_get : Stays get.
Proof. split. intros s Hs. by apply wp_get. Qed.
Lemma stays_bind {A B} (m : ES X A) (k : A → ES X B) : Stays m → (∀ a, Stays (k a)) → Stays (m ≫= k).
Proof. intros Hm Hk. split. intros s Hs. apply wp_bind. eapply wp_mono; [by apply Hm|]. intros a s' Hs'. by apply Hk. Qed.
Lemma stays_try m k : Stays m → Stays k → Stays (try_ m k).
Proof. intros Hm Hk. apply stays_bind; [done|]. intros e. destruct (decide (e = ESP_OK)); [done|apply stays_ret]. Qed.
Lemma stays_driver : Stays the_driver.
Proof. split. intros s Hs. pose proof Hs as (d & Hd & _). by eapply wp_the_driver. Qed.
Lemma stays_mod f :
  (∀ d, check_link_timer (f d) = check_link_timer d ∧ fsm (f d) = fsm d ∧ transmit_mutex (f d) = transmit_mutex d) → Stays (mod_driver f).
Proof.
  intros Hf. split. intros s (d & Hd & He & Hm & HΦ). eapply wp_mod_driver; [done|]. exists (f d). destruct (Hf d) as (-> & -> & ->). done.
Qed.
Lemma stays_phy f : (∀ p, phy_eth (f p) = phy_eth p) → Stays (mod_phy f).
Proof. intros Hf. split. intros s (d & Hd & He & Hm & HΦ). apply wp_modify. exists d. split_and!; try done. cbn. by rewrite Hf. Qed.
Lemma stays_mac {A} (m : M X A) Q : returns mac_sane m Q → Stays (on_mac m).
Proof.
  intros Hm. split. intros s (d & Hd & He & Hs & HΦ). apply wp_on_mac. eapply wp_mono; [by apply Hm|]. intros a x [_ Hx]. by exists d.
Qed.
Lemma stays_maybe {B} (f : option (B → M X esp_err_t)) g b : f = Some g → maybe_returns mac_sane f → Stays (on_mac (g b)).
Proof. intros -> Hf. eapply stays_mac, Hf. Qed.
Lemma stays_post e : Stays (eth_event_post e).
Proof. split. intros s (d & Hs). by exists d. Qed.

Lemma stays_reg_read a r : Stays (eth_phy_reg_read None a r).
Proof. apply stays_bind; [apply stays_driver|]. intros _. eapply stays_mac, safe_read. Qed.
Lemma stays_reg_write a r v : Stays (eth_phy_reg_write None a r v).
Proof. apply stays_bind; [apply stays_driver|]. intros _. eapply stays_mac, safe_write. Qed.
Lemma stays_read reg k : (∀ v, Stays (k v)) → Stays (read_reg None reg k).
Proof.
  intros Hk. split. intros s (d & Hd & He & Hs & HΦ). unfold read_reg. wp_steps. rewrite He. cbn [negb].
  unfold try_val, eth_phy_reg_read. wp_steps. eapply wp_the_driver; [done|]. apply wp_on_mac. eapply wp_mono; [by apply safe_read|].
  intros [e v] x [Hv Hx]. cbn [fst snd] in *. assert (holds_ (with_mac x s)) by by exists d.
  destruct (decide (e = ESP_OK)); [|by apply wp_ret]. destruct Hv as [w ->]; [done|]. by apply Hk.
Qed.
Lemma stays_write reg v k : Stays k → Stays (write_reg None reg v k).
Proof.
  intros Hk. split. intros s Hs. pose proof Hs as (d & Hd & He & _). unfold write_reg. wp_steps. rewrite He. cbn [negb].
  by apply stays_try; [apply stays_reg_write| |].
Qed.
Lemma stays_poll n reg done timeout k : Stays timeout → Stays k → Stays (poll_reg None n reg done timeout k).
Proof. intros Ht Hk. induction n as [|n IH]; cbn; [done|]. apply stays_read. intros v. by destruct (done v). Qed.
End pres.

Ltac stays_step :=
  lazymatch goal with
  | |- Stays _ (mret _) => apply stays_ret
  | |- Stays _ get => apply stays_get
  | |- Stays _ the_driver => apply stays_driver
  | |- Stays _ (try_ _ _) => apply stays_try
  | |- Stays _ (read_reg _ _ _) => apply stays_read; intros
  | |- Stays _ (write_reg _ _ _ _) => apply stays_write
  | |- Stays _ (poll_reg _ _ _ _ _ _) => apply stays_poll
  | |- Stays _ (eth_phy_reg_read _ _ _) => apply stays_reg_read
  | |- Stays _ (eth_phy_reg_write _ _ _ _) => apply stays_reg_write
  | |- Stays _ (eth_event_post _) => apply stays_post
  | |- Stays _ (mod_phy _) => by apply stays_phy
  | |- Stays _ (mod_driver _) => by apply stays_mod
  | |- Stays _ (on_mac _) =>
      first
        [ eapply stays_mac;
          solve [by apply safe_set_addr | apply safe_get_addr | apply safe_promiscuous | apply safe_flow | apply safe_transmit
                | apply safe_link | apply safe_speed | apply safe_duplex | apply safe_pause | apply safe_deinit | apply safe_init | apply safe_mediator]
        | eapply stays_maybe; [eassumption|first [apply safe_multicast|apply safe_add_filter|apply safe_rm_filter|apply safe_vargs]] ]
  | |- Stays _ (_ ≫= _) => apply stays_bind; [|intros]
  | |- Stays _ (match ?x with _ => _ end) => destruct x eqn:?
  | |- Stays _ (let x := _ in _) => cbv zeta
  end.
Ltac stays_steps := repeat stays_step.

(** ** The PHY *)

Section phy.
Context (Φ : option bool → esp_eth_fsm_t → option bool → Prop).
Abbreviation Stays := (Stays Φ).

Lemma stays_pwrctl b : Stays (esp_eth_phy_802_3_pwrctl None None b).
Proof. unfold esp_eth_phy_802_3_pwrctl. stays_steps. Qed.
Lemma stays_autonego cmd : Stays (esp_eth_phy_802_3_autonego_ctrl None None cmd (λ b, mod_driver (set_auto_nego b))).
Proof. unfold esp_eth_phy_802_3_autonego_ctrl. stays_steps. Qed.
Lemma stays_get_link : Stays (phy_get_link P).
Proof.
  cbn [phy_get_link esp_eth_phy_new_dm9051].
  unfold dm9051_get_link, dm9051_update_link_duplex_speed, report_mode, report_link, eth_on_speed, eth_on_duplex, eth_on_pause, eth_on_link.
  stays_steps.
Qed.
Lemma stays_set_link l : Stays (esp_eth_phy_802_3_set_link l).
Proof.
  split. intros s Hs. pose proof Hs as (d & Hd & He & _). unfold esp_eth_phy_802_3_set_link. wp_steps.
  destruct (decide _); [by apply wp_ret|]. rewrite He. cbn [negb].
  match goal with |- wp ?m _ _ => enough (Stays m) as Hm by by apply Hm end. unfold eth_on_link. stays_steps.
Qed.
Lemma stays_try_addrs n a v : Stays (try_addrs None n a v).
Proof. revert a v. induction n as [|n IH]; intros a v; cbn; stays_steps. apply IH. Qed.
Lemma stays_detect_rounds n v : Stays (detect_rounds None n v).
Proof. revert v. induction n as [|n IH]; intros v; cbn [detect_rounds]; [stays_steps|]. apply stays_bind; [apply stays_try_addrs|]. intros r. stays_steps. apply IH. Qed.
Lemma stays_init : Stays (phy_init P).
Proof.
  cbn [phy_init esp_eth_phy_new_dm9051].
  unfold dm9051_init, esp_eth_phy_802_3_basic_phy_init, esp_eth_phy_802_3_read_oui, esp_eth_phy_802_3_read_manufac_info, try_val,
    esp_eth_phy_802_3_reset, esp_eth_phy_802_3_detect_phy_addr.
  stays_steps; first [apply stays_pwrctl|apply stays_detect_rounds].
Qed.
Lemma stays_ioctl cmd data : data_ok cmd data → Stays (esp_eth_ioctl None None P true cmd data).
Proof.
  intros Hok. unfold esp_eth_ioctl. cbn [negb]. apply stays_bind; [apply stays_driver|]. intros d.
  unfold data_bool, data_u32, data_bytes, no_value, esp_eth_phy_802_3_set_addr, esp_eth_phy_802_3_get_addr,
    esp_eth_phy_802_3_advertise_pause_ability, esp_eth_phy_802_3_set_duplex.
  destruct cmd, data; try done; cbn [phy_set_speed phy_loopback esp_eth_phy_new_dm9051] in *;
    unfold dm9051_set_speed, esp_eth_phy_802_3_set_speed, dm9051_loopback; cbn in Hok.
  all: repeat first
    [ stays_step
    | apply stays_autonego
    | solve [exfalso; lia]
    | solve [eapply stays_mac, safe_set_addr; rewrite length_take; lia] ].
Qed.
End phy.

(** ** The invariant *)

(** A driver that is in use. *)
Definition in_use (t : option bool) (f : esp_eth_fsm_t) (m : option bool) : Prop :=
  t ≠ None ∧ (t = Some true → f = ESP_ETH_FSM_START) ∧ m = Some false.
Definition sound s : Prop :=
  mac_sane (mac s) ∧ ∀ d, driver s = Some d → check_link_timer d ≠ None → holds_ in_use s.

Lemma holds_sound s : holds_ in_use s → sound s.
Proof. intros Hs. split; [|done]. by destruct Hs as (d & _ & _ & Hm & _). Qed.
Lemma holds_mono (Φ Ψ : option bool → esp_eth_fsm_t → option bool → Prop) s : (∀ t f m, Φ t f m → Ψ t f m) → holds_ Φ s → holds_ Ψ s.
Proof. intros H (d & Hd & He & Hm & HΦ). exists d. split_and!; try done. by apply H. Qed.

Lemma wp_stays {A} Φ (m : ES X A) s : Stays Φ m → holds_ Φ s → wp m s (λ _ s', holds_ Φ s').
Proof. intros Hm. apply Hm. Qed.

Lemma safe_start s : holds_ in_use s → wp (esp_eth_start None None P true) s (λ _ s', holds_ in_use s').
Proof.
  intros Hs. pose proof Hs as (d & Hd & He & Hm & Ht & Ha & Hx). unfold esp_eth_start. cbn [negb]. apply wp_bind. eapply wp_the_driver; [done|].
  destruct (decide (fsm d = ESP_ETH_FSM_STOP)) as [Hf|]; [|by apply wp_ret].
  assert (check_link_timer d = Some false) as Hoff by (destruct (check_link_timer d) as [[]|]; [by rewrite Ha in Hf|done|done]).
  apply wp_bind. eapply wp_mod_driver; [done|]. set (Φ t f m := t = Some false ∧ f = ESP_ETH_FSM_START ∧ m = Some false).
  assert (∀ s', holds_ Φ s' → holds_ in_use s') as HΦ by (intros s'; apply holds_mono; by intros t f m (-> & -> & ->)).
  apply wp_try. eapply wp_mono; [apply (wp_stays Φ); [destruct (auto_nego_en d); [apply stays_autonego|apply stays_ret]|]|].
  { exists (set_fsm ESP_ETH_FSM_START d). by split_and!. }
  intros r s1 H1. destruct (decide _); [|by apply HΦ]. apply wp_try.
  eapply wp_mono; [apply (wp_stays Φ); [apply stays_post|done]|]. intros r2 s2 H2. destruct (decide _); [|by apply HΦ]. apply wp_try.
  eapply wp_mono; [apply (wp_stays Φ); [apply stays_get_link|done]|]. intros r3 s3 H3. destruct (decide _); [|by apply HΦ]. apply wp_try.
  destruct H3 as (d3 & Hd3 & He3 & Hm3 & Ht3 & Hf3 & Hx3). unfold link_timer_start. apply wp_bind. eapply wp_the_driver; [done|]. rewrite Ht3.
  apply wp_bind. eapply wp_mod_driver; [done|]. apply wp_ret. rewrite decide_True by done. apply wp_ret.
  exists (set_timer (Some true) d3). by split_and!.
Qed.

Lemma safe_stop s : holds_ in_use s → wp (esp_eth_stop true) s (λ _ s', holds_ in_use s').
Proof.
  intros Hs. pose proof Hs as (d & Hd & He & Hm & Ht & Ha & Hx). unfold esp_eth_stop. cbn [negb]. apply wp_bind. eapply wp_the_driver; [done|].
  destruct (decide (fsm d = ESP_ETH_FSM_START)) as [Hf|]; [|by apply wp_ret].
  apply wp_bind. eapply wp_mod_driver; [done|]. apply wp_try. unfold link_timer_stop. apply wp_bind. eapply wp_the_driver; [done|].
  cbn [check_link_timer set_fsm]. destruct (check_link_timer d) as [[]|] eqn:Htd; [| |done].
  2:{ apply wp_ret. rewrite decide_False by done. exists (set_fsm ESP_ETH_FSM_STOP d). split_and!; try done; cbn; by rewrite Htd. }
  apply wp_bind. eapply wp_mod_driver; [done|]. apply wp_ret. rewrite decide_True by done.
  match goal with |- wp ?m _ _ => enough (Stays in_use m) as Hk end.
  { apply wp_stays; [done|]. exists (set_timer (Some false) (set_fsm ESP_ETH_FSM_STOP d)). by split_and!. }
  stays_steps. apply stays_set_link.
Qed.

Lemma safe_uninstall s : holds_ in_use s → wp (esp_eth_driver_uninstall None None true) s (λ _ s', sound s').
Proof.
  intros Hs. pose proof Hs as (d & Hd & He & Hm & Ht & Ha & Hx). unfold esp_eth_driver_uninstall. cbn [negb]. apply wp_bind.
  eapply wp_the_driver; [done|]. destruct (decide (fsm d = ESP_ETH_FSM_STOP)) as [Hf|]; [|by apply wp_ret, holds_sound].
  destruct (ref_count d =? 1); cbn [negb]; [|by apply wp_ret, holds_sound]. apply wp_bind. eapply wp_mod_driver; [done|].
  apply wp_try. unfold link_timer_delete. apply wp_bind. eapply wp_the_driver; [done|]. cbn [check_link_timer set_ref_count].
  destruct (check_link_timer d) as [[]|] eqn:Htd; [by rewrite Ha in Hf| |done].
  apply wp_bind. eapply wp_mod_driver; [done|]. apply wp_ret. rewrite decide_True by done. apply wp_bind. eapply wp_mod_driver; [done|].
  set (Φ t (_ : esp_eth_fsm_t) (_ : option bool) := t = @None bool).
  assert (∀ s', holds_ Φ s' → sound s') as HΦ.
  { intros s' (d' & Hd' & _ & Hm' & Ht'). split; [done|]. intros d2 Hd2 H2. rewrite Hd' in Hd2. by injection Hd2 as <-. }
  apply wp_try. eapply wp_mono; [apply (wp_stays Φ)|].
  { unfold esp_eth_phy_802_3_deinit, esp_eth_phy_802_3_basic_phy_deinit. apply stays_try; [apply stays_pwrctl|apply stays_ret]. }
  { eexists. by split_and!. }
  intros r s1 H1. destruct (decide _); [|by apply HΦ]. unfold eth_on_deinit. apply wp_bind, wp_bind.
  destruct H1 as (d1 & Hd1 & He1 & Hm1 & Ht1). eapply wp_the_driver; [done|]. apply wp_ret. apply wp_try, wp_on_mac.
  eapply wp_mono; [by apply safe_deinit|]. intros r2 x2 [_ H2]. destruct (decide _); [|apply HΦ; by exists d1].
  unfold free_driver. apply wp_bind, wp_bind. eapply wp_the_driver; [done|]. by apply wp_modify, wp_ret.
Qed.

(** The end of an installation that fails. *)
Lemma safe_cleanup s (ret : esp_err_t) d :
  driver s = Some d → mac_sane (mac s) → check_link_timer d ≠ Some true →
  wp (d ← the_driver; _ ← (match check_link_timer d with Some _ => link_timer_delete | None => mret ESP_OK end); free_driver;; mret ret) s
    (λ _ s', sound s').
Proof.
  intros Hd Hm Ht. apply wp_bind. eapply wp_the_driver; [done|]. unfold free_driver, link_timer_delete.
  destruct (check_link_timer d) as [[]|] eqn:E; [done| |]; wp_steps.
  - eapply wp_the_driver; [done|]. rewrite E. wp_steps. eapply wp_mod_driver; [done|]. wp_steps. by eapply wp_the_driver.
  - by eapply wp_the_driver.
Qed.

Lemma safe_install s config out :
  driver s = None → mac_sane (mac s) → wp (esp_eth_driver_install None None P config out) s (λ _ s', sound s').
Proof.
  intros Hd Hm. assert (sound s) as Hi by (split; [done|]; intros d; by rewrite Hd). unfold esp_eth_driver_install.
  destruct config as [[objects c]|]; [|by apply wp_ret]. destruct out; [|by apply wp_ret]. destruct objects; [|by apply wp_ret]. cbn [negb].
  apply wp_bind, wp_next_answer. intros [|]; cbn [negb]; [|apply wp_ret; split; [done|]; intros d; cbn; by rewrite Hd].
  apply wp_bind, wp_modify, wp_bind, wp_next_answer.
  assert (Hfail : ∀ r s' d, driver s' = Some d → mac_sane (mac s') → check_link_timer d ≠ Some true → r ≠ ESP_OK →
    wp (if decide (r = ESP_OK) then mret ESP_OK
        else d ← the_driver; _ ← (match check_link_timer d with Some _ => link_timer_delete | None => mret ESP_OK end); free_driver;; mret r)
       s' (λ (_ : esp_err_t) s'', sound s'')).
  { intros r s' d ??? Hr. rewrite decide_False by done. by eapply safe_cleanup. }
  intros [|]; cbn [negb]; [|by eapply wp_bind, wp_ret, Hfail]. apply wp_bind, wp_bind. eapply wp_mod_driver; [done|].
  apply wp_bind, wp_next_answer. intros [|]; cbn [negb]; [|by eapply wp_ret, Hfail].
  apply wp_bind, wp_modify, wp_bind, wp_on_mac. eapply wp_mono; [by apply safe_mediator|]. intros _ x [_ Hx]. apply wp_bind.
  unfold esp_eth_phy_802_3_set_mediator, mod_phy. cbn [negb]. wp_steps.
  apply wp_reset_hw. intros _ lv. set (Φ t f m := t = Some false ∧ f = ESP_ETH_FSM_STOP ∧ m = Some false).
  assert (∀ (r : esp_err_t) s', holds_ Φ s' →
    wp (if decide (r = ESP_OK) then mret ESP_OK
        else d ← the_driver; _ ← (match check_link_timer d with Some _ => link_timer_delete | None => mret ESP_OK end); free_driver;; mret r)
       s' (λ (_ : esp_err_t) s'', sound s'')) as Hend.
  { intros r s' Hs'. destruct (decide (r = ESP_OK)) as [->|Hr].
    - apply wp_ret, holds_sound. eapply holds_mono; [|done]. by intros t f m (-> & -> & ->).
    - destruct Hs' as (d' & Hd' & _ & Hm' & Ht' & _). eapply safe_cleanup; [done|done|]. by rewrite Ht'. }
  match goal with |- wp _ ?st _ => enough (holds_ Φ st) as Hs end; [|eexists; by split_and!].
  match goal with |- wp ?m ?st ?Q => enough (Stays Φ m) as Hk; [eapply wp_mono; [by apply wp_stays|]; intros r s' Hs'; by apply Hend|] end.
  unfold eth_on_llinit, eth_on_deinit. stays_steps; [apply stays_init|apply stays_autonego].
Qed.

Lemma safe_transmit_locked {B} s (f : option (B → M X esp_err_t)) g b :
  holds_ in_use s → f = Some g → maybe_returns mac_sane f → wp (transmit_locked (on_mac (g b))) s (λ _ s', holds_ in_use s').
Proof.
  intros (d & Hd & He & Hm & Ht & Ha & Hx) -> Hf. unfold transmit_locked. apply wp_bind. eapply wp_the_driver; [done|]. rewrite Hx.
  apply wp_bind, wp_next_answer. intros [|]; cbn [negb]; [|apply wp_ret; by exists d].
  apply wp_bind. eapply wp_mod_driver; [done|]. apply wp_bind, wp_on_mac. eapply wp_mono; [by apply Hf|]. intros r x [_ Hxs].
  apply wp_bind. eapply wp_mod_driver; [done|]. apply wp_ret. eexists. by split_and!.
Qed.

(** ** Runs *)

(** A call, or any change of the MAC and of the answers that are to come. *)
Inductive any_step s : sys → Prop :=
| any_op op s' r : allowed op s → run_op op s = Done s' r → any_step s s'
| any_world x answers events inputs : mac_sane x →
    any_step s (mkSys (driver s) (phy s) x answers events inputs (EthPhy.events s) (EthPhy.inputs s) (levels s)).

Lemma allowed_holds op s d : sound s → allowed op s → driver s = Some d → holds_ in_use s.
Proof. unfold allowed. intros [_ Hs] Ha Hd. rewrite Hd in Ha. apply (Hs d Hd). destruct op; naive_solver congruence. Qed.

Lemma safe_run_op op s : sound s → allowed op s → wp (run_op op) s (λ _ s', sound s').
Proof.
  intros Hi Ha. pose proof (λ d, allowed_holds op s d Hi Ha) as Hs. unfold allowed in Ha.
  destruct (driver s) as [d|] eqn:Hd; [specialize (Hs d eq_refl)|]; destruct op; try done; cbn [run_op].
  2-12: eapply wp_mono; [|intros r s' H; exact (holds_sound _ H)].
  - by apply safe_uninstall.
  - by apply safe_start.
  - by apply safe_stop.
  - apply wp_stays; [|done]. unfold eth_check_link_timer_cb. apply stays_bind; [|intros; apply stays_ret]. apply stays_bind; [apply stays_get_link|]. intros. apply stays_ret.
  - apply wp_bind. eapply wp_the_driver; [done|]. destruct Hs as (d' & Hs'). destruct (input_fun d), (input_info_fun d); by exists d'.
  - unfold esp_eth_transmit. apply wp_bind. eapply wp_the_driver; [done|]. destruct (decide _); [|by apply wp_ret].
    destruct buf as [[|b data]|]; [by apply wp_ret| |by apply wp_ret]. eapply (safe_transmit_locked _ (Some mac_transmit)); [done|done|]. intros ?. apply safe_transmit.
  - unfold esp_eth_transmit_ctrl_vargs. apply wp_bind. eapply wp_the_driver; [done|]. destruct (decide _); [|by apply wp_ret].
    destruct mac_transmit_ctrl_vargs eqn:Hf; [|by destruct Ha]. eapply safe_transmit_locked; [done|done|apply safe_vargs].
  - apply wp_stays; [|done]. apply stays_bind; [apply stays_ioctl, Ha|]. intros. apply stays_ret.
  - apply wp_stays; [|done]. unfold esp_eth_update_input_path. cbn [negb]. stays_steps.
  - apply wp_stays; [|done]. unfold esp_eth_update_input_path_info. cbn [negb]. stays_steps.
  - apply wp_stays; [|done]. unfold esp_eth_increase_reference. cbn [negb]. stays_steps.
  - apply wp_stays; [|done]. unfold esp_eth_decrease_reference. cbn [negb]. stays_steps.
  - apply safe_install; [done|apply Hi].
Qed.

Lemma sound_run s0 s : driver s0 = None → mac_sane (mac s0) → rtc any_step s0 s → sound s.
Proof.
  intros Hd Hm Hr. assert (sound s0) as Hi by (split; [done|]; intros d; by rewrite Hd). clear Hd Hm.
  induction Hr as [|s1 s2 s3 Hs _ IH]; [done|]. apply IH. destruct Hs as [op s2 r Ha Hrun|x a e i Hx].
  - pose proof (safe_run_op op s1 Hi Ha) as Hw. unfold wp in Hw. by rewrite Hrun in Hw.
  - split; [done|]. intros d Hd Ht. destruct Hi as [_ Hi]. destruct (Hi d Hd Ht) as (d' & Hd' & He & _ & HΦ). by exists d'.
Qed.


End safe.

(** ** The DM9051 with any chip *)

Section dm9051.
Context {dev : Type} `{!SpiDriver dev}.
Context (crc32 : list Z → Z) (fuel : nat) (Hfuel : (102 ≤ fuel)%nat).
Abbreviation X := (dm9051_state dev).
Implicit Types x : X.
#[local] Instance any_mac : EthMac X := dm9051_mac crc32 fuel.

(** The table of counters of the filter has its size, and the clock advances between
    readings. *)
Definition dm9051_sane x : Prop := length (hash_filter_cnt (emac x)) = 64%nat ∧ ∀ n, clock x n + 1 ≤ clock x (S n).
Abbreviation Returns m := (returns dm9051_sane m (λ _, True)).

Lemma sane_chip x x' : chip_only x x' → dm9051_sane x → dm9051_sane x'.
Proof. intros ->. done. Qed.
Lemma ret_on_chip {A} (m : D (dev := dev) A) : on_chip m → Returns m.
Proof. intros Hm x Hx. eapply wp_mono; [apply Hm|]. intros a x' Hc. split; [done|exact (sane_chip _ _ Hc Hx)]. Qed.
Lemma ret_ret {A} (a : A) : Returns (mret (M := M X) a).
Proof. intros x Hx. by apply wp_ret. Qed.
Lemma ret_get : Returns (get (S := X)).
Proof. intros x Hx. by apply wp_get. Qed.
Lemma ret_modify (f : X → X) : (∀ x, dm9051_sane x → dm9051_sane (f x)) → Returns (modify f).
Proof. intros Hf x Hx. apply wp_modify. split; [done|by apply Hf]. Qed.
Lemma ret_bind {A B} (m : M X A) (k : A → M X B) : Returns m → (∀ a, Returns (k a)) → Returns (m ≫= k).
Proof. intros Hm Hk x Hx. apply wp_bind. eapply wp_mono; [by apply Hm|]. intros a x' [_ Hx']. by apply Hk. Qed.
Lemma ret_then m k : Returns m → Returns k → Returns (then_ m k).
Proof. intros Hm Hk. apply ret_bind; [done|]. intros e. by destruct (decide _); [|apply ret_ret]. Qed.

Lemma ret_get_mac i n : Returns (get_mac_from i n).
Proof.
  revert i. induction n as [|n IH]; intros i; [apply ret_ret|]. apply ret_bind; [apply ret_on_chip, on_chip_reg_read|]. intros r.
  apply ret_bind; [by apply ret_modify|]. intros _. by destruct (decide _); [|apply ret_ret].
Qed.
Lemma ret_set_mac i n : Returns (set_mac_from i n).
Proof.
  revert i. induction n as [|n IH]; intros i; [apply ret_ret|]. apply ret_bind; [apply ret_get|]. intros x.
  apply ret_then; [apply ret_on_chip, on_chip_reg_write|apply IH].
Qed.
Lemma ret_clear_mar i n : Returns (clear_mar_from i n).
Proof. revert i. induction n as [|n IH]; intros i; [apply ret_ret|]. apply ret_then; [apply ret_on_chip, on_chip_reg_write|apply IH]. Qed.
Lemma ret_wait_reset n : Returns (wait_reset n).
Proof. apply ret_on_chip. induction n as [|n IH]; [apply on_chip_ret|]. apply on_chip_then_val; [apply on_chip_reg_read|]. intros v. by destruct (negb _); [apply on_chip_ret|]. Qed.
Lemma ret_state l : Returns (on_state_changed l).
Proof. apply ret_bind; [apply ret_get|]. intros x. destruct (mediator_answers x); (apply ret_bind; [by apply ret_modify|]; intros; apply ret_ret). Qed.
Lemma ret_verify : Returns dm9051_verify_id.
Proof.
  apply ret_on_chip. unfold dm9051_verify_id. do 2 (apply on_chip_then_val; [apply on_chip_reg_read|]; intros ?). destruct (negb _); [apply on_chip_ret|].
  do 2 (apply on_chip_then_val; [apply on_chip_reg_read|]; intros ?). destruct (negb _); apply on_chip_ret.
Qed.
Lemma ret_isr (c v : bool) : Returns (if c then modify (Dm9051.set_isr v) else mret ()).
Proof. destruct c; [by apply ret_modify|apply ret_ret]. Qed.

Lemma ret_init : Returns emac_dm9051_init.
Proof.
  apply ret_bind; [apply ret_get|]. intros x. cbv zeta. apply ret_bind; [apply ret_isr|]. intros _. apply ret_bind.
  - apply ret_then; [apply ret_state|]. apply ret_then.
    { apply ret_bind; [apply ret_get|]. intros y. apply ret_then; [apply ret_on_chip, on_chip_reg_write|].
      apply ret_then; [apply ret_on_chip, on_chip_reg_write|apply ret_wait_reset]. }
    apply ret_then; [apply ret_verify|]. apply ret_then; [apply ret_on_chip, on_chip_writes|].
    apply ret_then; [apply ret_clear_mar|apply ret_get_mac].
  - intros r. destruct (decide _); [apply ret_ret|]. apply ret_bind; [apply ret_isr|]. intros _.
    apply ret_bind; [apply ret_state|]. intros _. apply ret_ret.
Qed.
Lemma ret_deinit : Returns emac_dm9051_deinit.
Proof.
  apply ret_bind; [apply ret_get|]. intros x. apply ret_bind; [apply ret_on_chip, on_chip_stop|]. intros _.
  apply ret_bind; [apply ret_isr|]. intros _. apply ret_bind; [destruct (decide _); [by apply ret_modify|apply ret_ret]|]. intros _.
  apply ret_bind; [apply ret_state|]. intros _. apply ret_ret.
Qed.
Lemma ret_mediator l (m : M X esp_err_t) : Returns m → Returns (with_mediator l m).
Proof. intros Hm. apply ret_bind; [by apply ret_modify|]. by intros _. Qed.

Lemma ret_set_link l : Returns (emac_dm9051_set_link l).
Proof.
  apply ret_bind; [apply ret_get|]. intros x. destruct l; [| |apply ret_ret]; apply ret_then.
  1,3: apply ret_on_chip; first [apply on_chip_start|apply on_chip_stop].
  all: destruct (poll_timer (emac x)); [|apply ret_ret]; apply ret_then; [|apply ret_ret].
  all: apply ret_bind; [apply ret_get|]; intros y; destruct (poll_timer (emac y)) as [[]|]; try apply ret_ret.
  all: apply ret_bind; [by apply ret_modify|]; intros; apply ret_ret.
Qed.

Lemma ret_filter a add : Returns (dm9051_hash_filter_modify crc32 a add).
Proof.
  unfold dm9051_hash_filter_modify. apply ret_bind; [apply ret_on_chip, on_chip_reg_read|]. intros r.
  destruct (decide _); [|apply ret_ret]. intros x Hx. wp_steps. cbv zeta.
  pose proof Hx as [Hc _]. pose proof (hash_range crc32 a) as Hh.
  destruct (lookup_lt_is_Some_2 (hash_filter_cnt (emac x)) (Z.to_nat (hash_of crc32 a))) as [c Hl]; [lia|]. rewrite Hl.
  assert (∀ cnt v, length cnt = length (hash_filter_cnt (emac x)) →
    wp (mod_emac (with_hash_cnt cnt);; dm9051_register_write (DM9051_MAR + hash_of crc32 a / 8) v) x (λ _ x', True ∧ dm9051_sane x')) as Hgo.
  { intros cnt v Hlen. apply wp_bind, wp_modify. apply ret_on_chip; [apply on_chip_reg_write|]. split; [|apply Hx]. cbn. congruence. }
  destruct add; apply Hgo; by rewrite length_insert.
Qed.

(** A turn of the wait for a transmit slot takes a microsecond at least. *)
Lemma ret_tx_wait x t :
  dm9051_sane x → t + 1 ≤ clock x O → wp (iterM fuel (nsr_wait_step t) ()) x (λ _ x', dm9051_sane x').
Proof.
  intros Hx Ht. apply (wp_iter _ (λ n _ x', dm9051_sane x' ∧ t + 101 - clock x' O ≤ Z.of_nat n)) with (n := 100%nat); [|split; [done|lia]|lia].
  intros n u x1 (Hx1 & Hn). unfold nsr_wait_step, on_error_val. apply wp_bind. eapply wp_mono; [apply on_chip_reg_read|]. intros r x2 ->.
  destruct (decide _); [|by apply wp_ret]. destruct (Z.land _ _ =? 0); [|by apply wp_ret]. apply wp_bind.
  change (wp esp_timer_get_time ?s ?Q) with (Q (clock s O) (set_clock (λ n, clock s (S n)) s)). cbn [clock set_chip].
  pose proof Hx1 as [Hc Hclk]. pose proof (Hclk O).
  assert (dm9051_sane (set_clock (λ n, clock x1 (S n)) (set_chip (chip x2) x1))) as H2 by (split; [done|intros m; apply Hclk]).
  destruct (Z.ltb_spec (clock x1 O - t) 100); apply wp_ret; [|exact H2]. exists (pred n). cbn [clock set_clock set_chip]. split; [lia|]. split; [exact H2|lia].
Qed.

Lemma ret_transmit data : Returns (emac_dm9051_transmit fuel data (zlen data)).
Proof using Hfuel.
  intros x Hx. unfold emac_dm9051_transmit. destruct (negb _); [by apply wp_ret|]. apply wp_bind.
  change (wp esp_timer_get_time ?s ?Q) with (Q (clock s O) (set_clock (λ n, clock s (S n)) s)).
  pose proof Hx as [Hc Hclk]. apply wp_bind. eapply wp_mono; [apply ret_tx_wait; [split; [done|intros m; apply Hclk]|apply Hclk]|].
  intros r x1 H1. destruct (decide _); [|by apply wp_ret]. destruct (r.2 =? 0); [by apply wp_ret|].
  apply ret_on_chip; [|done]. apply on_chip_then; [destruct (r.2 =? _); [apply on_chip_reg_write|apply on_chip_ret]|].
  apply on_chip_then; [apply on_chip_writes|apply on_chip_write].
Qed.

Lemma ret_read_phy a r : returns dm9051_sane (emac_dm9051_read_phy_reg a r true) (λ v, v.1 = ESP_OK → is_Some v.2).
Proof.
  intros x Hx. unfold emac_dm9051_read_phy_reg, dm9051_mutex_lock. cbn [negb]. wp_steps.
  destruct (mutex_answers x) as [|[] l]; wp_steps; cbn [negb]; wp_steps; [| |split; [done|exact Hx]].
  all: eapply wp_mono;
    [apply stores_error; [apply on_chip_phy_wait|]; apply stores_error; [apply on_chip_writes|];
     apply stores_error; [apply on_chip_phy_wait|]; apply stores_error_val; [apply on_chip_reg_read|]; intros;
     apply stores_error_val; [apply on_chip_reg_read|]; intros; apply stores_ret|].
  all: intros v x' [Hc Hv]; unfold dm9051_mutex_unlock; wp_steps; split; [done|]; rewrite Hc; exact Hx.
Qed.
Lemma ret_write_phy a r v : Returns (emac_dm9051_write_phy_reg a r v).
Proof.
  apply ret_bind; [apply ret_bind; [apply ret_get|]; intros x; destruct (mutex_answers x) as [|[] l]; (apply ret_bind; [by apply ret_modify|]; intros; apply ret_ret)|].
  intros b. destruct (negb b); [apply ret_ret|]. apply ret_bind.
  - apply ret_on_chip. apply on_chip_then; [apply on_chip_phy_wait|]. apply on_chip_then; [apply on_chip_writes|apply on_chip_phy_wait].
  - intros e. apply ret_bind; [by apply ret_modify|]. intros. apply ret_ret.
Qed.

#[local] Instance dm9051_safe : SafeMac X.
Proof using Hfuel.
  refine {| mac_sane := dm9051_sane |}; cbn -[returns].
  - apply ret_bind; [by apply ret_modify|]. intros. apply ret_ret.
  - intros. apply ret_mediator, ret_init.
  - intros. apply ret_mediator, ret_deinit.
  - apply ret_set_link.
  - intros []; apply ret_ret.
  - intros []; apply ret_ret.
  - intros a. apply ret_bind; [apply ret_get|]. intros x. apply ret_bind; [apply ret_on_chip; unfold dm9051_enable_flow_ctrl; case_match; apply on_chip_writes|].
    intros. apply ret_ret.
  - apply ret_read_phy.
  - apply ret_write_phy.
  - apply ret_transmit.
  - done.
  - intros l _. apply ret_bind; [by apply ret_modify|]. intros. apply ret_then; [apply (ret_set_mac 0 6)|apply ret_ret].
  - apply ret_bind; [apply ret_get|]. intros. apply ret_ret.
  - intros b. apply ret_on_chip, on_chip_rcr.
  - intros b. apply ret_on_chip, on_chip_rcr.
  - intros b. apply ret_bind; [by apply ret_modify|]. intros. apply ret_ret.
  - intros a. apply ret_then; [apply ret_filter|apply ret_ret].
  - intros a. apply ret_then; [apply ret_filter|apply ret_ret].
Defined.
End dm9051.

(** ** A run in which the bus breaks

    The chip of [sheet_spi] behind a bus on which, when it is broken, every transfer
    fails. *)
Record fragile : Type := mkFragile { works : bool; behind : chip_view }.
#[export] Instance fragile_spi : SpiDriver fragile := {|
  spi_read cmd r n c :=
    if works c then let '(v, e, d) := spi_read cmd r n (behind c) in (mkFragile true v, e, d) else (c, ESP_FAIL, []);
  spi_write cmd r d c :=
    if works c then let '(v, e) := spi_write cmd r d (behind c) in (mkFragile true v, e) else (c, ESP_FAIL)
|}.
Definition fragile_mac : dm9051_state fragile :=
  mkSt (mkEmac false 100 (-1) (Some false) (replicate 6 0) false false (replicate 1522 0) (replicate 64 0)) (mkFragile true sheet_view)
    [] false Z.of_nat false [] [] [] [].
#[local] Instance fragile_ethmac : EthMac (dm9051_state fragile) := any_mac crc_none 102.
#[local] Instance fragile_safe : SafeMac (dm9051_state fragile) := dm9051_safe crc_none 102 (le_n 102).

Definition after_op (op : eth_op) (s : eth_sys (dm9051_state fragile)) : eth_sys (dm9051_state fragile) :=
  match run_op op s with Done s' _ => s' | _ => s end.
Definition result_of (op : eth_op) (s : eth_sys (dm9051_state fragile)) : esp_err_t := match run_op op s with Done _ r => r | _ => ESP_OK end.
(** The event loop refuses the event of the link. *)
Definition fragile_sys : eth_sys (dm9051_state fragile) :=
  mkSys None (mkPhy false 1 100 4000 ETH_LINK_DOWN (-1) 100 (-1)) fragile_mac [] [ESP_OK; ESP_ERR_TIMEOUT] [] [] [] [].
Definition fragile_installed := after_op (OpInstall (Some (true, sheet_config)) true) fragile_sys.
Definition fragile_started := after_op OpStart fragile_installed.
Definition broken_mac : dm9051_state fragile :=
  mkSt (emac (mac fragile_started)) (mkFragile false (behind (chip (mac fragile_started)))) [] false Z.of_nat false [] [] [] [].
Definition broken_sys : eth_sys (dm9051_state fragile) :=
  mkSys (driver fragile_started) (phy fragile_started) broken_mac [] [] [] (events fragile_started) (inputs fragile_started) (levels fragile_started).
Definition broken_stopped := after_op OpStop broken_sys.

Lemma fragile_run : rtc any_step fragile_sys broken_stopped.
Proof.
  eapply rtc_l; [eapply (any_op _ (OpInstall (Some (true, sheet_config)) true) fragile_installed ESP_OK)|].
  - done.
  - vm_compute. reflexivity.
  - eapply rtc_l; [eapply (any_op _ OpStart fragile_started ESP_ERR_TIMEOUT); [vm_compute; discriminate|vm_compute; reflexivity]|].
    eapply rtc_l; [apply (any_world fragile_started broken_mac [] [] [])|].
    { split; [vm_compute; reflexivity|]. intros n. unfold broken_mac. cbn [clock]. lia. }
    eapply rtc_l; [|apply rtc_refl]. eapply (any_op _ OpStop broken_stopped); [vm_compute; discriminate|vm_compute; reflexivity].
Qed.

