(* ===== verification/ConsoleSplit.v ===== *)
(** * Console: splitting a command line ([console/split_argv.c])

    [esp_console_split_argv] cuts a line into arguments in place: it reads the line with
    one pointer and writes the arguments, without quotes and escapes, back into the same
    buffer with another.  The model keeps the buffer and the array [argv] as they are in
    memory; pointers into the line are offsets.  The theorems show that reads and writes
    stay inside, that the arguments are those of a function on the characters alone,
    although source and destination are one buffer, and that quoting is undone. *)
From Stdlib Require Import ZArith Lia.
From stdpp Require Import base numbers option list.
From S2P Require Import Prelude.

(** ** Data *)

Definition SS_FLAG_ESCAPE : Z := 0x8.

Inductive split_state_t : Type :=
| SS_SPACE
| SS_ARG
| SS_QUOTED_ARG
| SS_ARG_ESCAPED
| SS_QUOTED_ARG_ESCAPED.

#[export] Instance split_state_eq_dec : EqDecision split_state_t.
Proof. solve_decision. Defined.

(** The numbers behind the enumerators. *)
Definition split_state_value (st : split_state_t) : Z :=
  match st with
  | SS_SPACE => 0x0
  | SS_ARG => 0x1
  | SS_QUOTED_ARG => 0x2
  | SS_ARG_ESCAPED => Z.lor 0x1 SS_FLAG_ESCAPE
  | SS_QUOTED_ARG_ESCAPED => Z.lor 0x2 SS_FLAG_ESCAPE
  end.

(** [(split_state_t)(state & (~SS_FLAG_ESCAPE))] *)
Definition split_state_unescape (st : split_state_t) : split_state_t :=
  match st with
  | SS_ARG_ESCAPED => SS_ARG
  | SS_QUOTED_ARG_ESCAPED => SS_QUOTED_ARG
  | st => st
  end.

Definition QUOTE : Z := 34.
Definition ESCAPE : Z := 92.
Definition SPACE : Z := 32.

(** The two objects of the caller: the line and the array of pointers, [None] for NULL. *)
Record split_mem : Type := SplitMem { line : list Z; argv : list (option nat) }.

(** The local variables of the loop. *)
Record split_locals : Type := SplitLocals {
  state : split_state_t;
  argc : Z;
  next_arg_start : nat;
  out_ptr : nat;
  in_ptr : nat }.

(** ** Memory access *)

Definition line_read (p : nat) : M split_mem Z := λ s,
  match line s !! p with Some c => Done s c | None => MemFault end.

Definition line_write (p : nat) (c : Z) : M split_mem unit := λ s,
  if decide (p < length (line s))%nat
  then Done (SplitMem (<[p := c]> (line s)) (argv s)) () else MemFault.

Definition argv_write (i : Z) (v : option nat) : M split_mem unit := λ s,
  if decide (0 ≤ i < zlen (argv s))
  then Done (SplitMem (line s) (<[Z.to_nat i := v]> (argv s))) () else MemFault.

(** ** The function *)

(** [END_ARG()] *)
Definition END_ARG (l : split_locals) : M split_mem (split_locals * Z) :=
  argv_write (argc l) (Some (next_arg_start l));;
  mret (SplitLocals SS_SPACE (u32 (argc l + 1)) (next_arg_start l) (out_ptr l) (in_ptr l), 0).

Definition set_state (st : split_state_t) (l : split_locals) : split_locals :=
  SplitLocals st (argc l) (next_arg_start l) (out_ptr l) (in_ptr l).
Definition start_arg (st : split_state_t) (l : split_locals) : split_locals :=
  SplitLocals st (argc l) (out_ptr l) (out_ptr l) (in_ptr l).

(** The [switch]: the new locals and [char_out], -1 when nothing is output. *)
Definition split_switch (l : split_locals) (char_in : Z) : M split_mem (split_locals * Z) :=
  match state l with
  | SS_SPACE =>
      if char_in =? SPACE then mret (l, -1)
      else if char_in =? QUOTE then mret (start_arg SS_QUOTED_ARG l, -1)
      else if char_in =? ESCAPE then mret (start_arg SS_ARG_ESCAPED l, -1)
      else mret (start_arg SS_ARG l, char_in)
  | SS_QUOTED_ARG =>
      if char_in =? QUOTE then END_ARG l
      else if char_in =? ESCAPE then mret (set_state SS_QUOTED_ARG_ESCAPED l, -1)
      else mret (l, char_in)
  | SS_ARG_ESCAPED | SS_QUOTED_ARG_ESCAPED =>
      mret (set_state (split_state_unescape (state l)) l,
            if (char_in =? ESCAPE) || (char_in =? QUOTE) || (char_in =? SPACE) then char_in else -1)
  | SS_ARG =>
      if char_in =? SPACE then END_ARG l
      else if char_in =? ESCAPE then mret (set_state SS_ARG_ESCAPED l, -1)
      else mret (l, char_in)
  end.

(** The body of the [for] loop with its condition. *)
Definition split_body (argv_size : Z) (l : split_locals)
    : M split_mem (split_locals + split_locals) :=
  if argc l <? u32 (argv_size - 1) then
    char_in ← line_read (in_ptr l);
    if char_in =? 0 then mret (inr l) else
    '(l1, char_out) ← split_switch l char_in;
    l2 ← (if 0 <=? char_out then
            line_write (out_ptr l1) char_out;;
            mret (SplitLocals (state l1) (argc l1) (next_arg_start l1) (S (out_ptr l1)) (in_ptr l1))
          else mret l1);
    mret (inl (SplitLocals (state l2) (argc l2) (next_arg_start l2) (out_ptr l2) (S (in_ptr l2))))
  else mret (inr l).

(** [fuel]: one turn per character of the line, and one for the end. *)
Definition esp_console_split_argv (argv_size : Z) : M split_mem Z :=
  s ← get;
  l ← iterM (S (length (line s))) (split_body argv_size) (SplitLocals SS_SPACE 0 0 0 0);
  line_write (out_ptr l) 0;;
  argc' ← (if negb (bool_decide (state l = SS_SPACE)) && (argc l <? u32 (argv_size - 1)) then
             argv_write (argc l) (Some (next_arg_start l));; mret (u32 (argc l + 1))
           else mret (argc l));
  argv_write argc' None;;
  mret argc'.

(** ** The arguments of a line, on characters alone *)

(** What has been split so far: the complete arguments and the one being read. *)
Definition split_acc : Type := split_state_t * list (list Z) * list Z.

Definition word_step (a : split_acc) (c : Z) : split_acc :=
  let '(st, done, cur) := a in
  match st with
  | SS_SPACE =>
      if c =? SPACE then a
      else if c =? QUOTE then (SS_QUOTED_ARG, done, [])
      else if c =? ESCAPE then (SS_ARG_ESCAPED, done, [])
      else (SS_ARG, done, [c])
  | SS_QUOTED_ARG =>
      if c =? QUOTE then (SS_SPACE, done ++ [cur], [])
      else if c =? ESCAPE then (SS_QUOTED_ARG_ESCAPED, done, cur)
      else (st, done, cur ++ [c])
  | SS_ARG =>
      if c =? SPACE then (SS_SPACE, done ++ [cur], [])
      else if c =? ESCAPE then (SS_ARG_ESCAPED, done, cur)
      else (st, done, cur ++ [c])
  | SS_ARG_ESCAPED | SS_QUOTED_ARG_ESCAPED =>
      (split_state_unescape st, done,
       if (c =? ESCAPE) || (c =? QUOTE) || (c =? SPACE) then cur ++ [c] else cur)
  end.

Definition word_end (a : split_acc) : list (list Z) :=
  let '(st, done, cur) := a in if decide (st = SS_SPACE) then done else done ++ [cur].

Definition words (cs : list Z) : list (list Z) := word_end (foldl word_step (SS_SPACE, [], []) cs).

(** The C string at an offset of a buffer. *)
Fixpoint cstring (bs : list Z) : option (list Z) :=
  match bs with
  | [] => None
  | c :: bs => if c =? 0 then Some [] else (c ::.) <$> cstring bs
  end.
Definition string_at (buf : list Z) (p : option nat) : option (list Z) :=
  p ← p; cstring (drop p buf).

(** The arguments that [argc] and [argv] stand for. *)
Definition args_of (s : split_mem) (n : Z) : option (list (list Z)) :=
  mapM (string_at (line s)) (take (Z.to_nat n) (argv s)).

(** ** Quoting *)

Definition needs_escape (c : Z) : bool := (c =? ESCAPE) || (c =? QUOTE).
Definition quote_char (c : Z) : list Z := if needs_escape c then [ESCAPE; c] else [c].
Definition quote (arg : list Z) : list Z := QUOTE :: concat (quote_char <$> arg) ++ [QUOTE].

(** A command line: the quoted arguments with spaces between them. *)
Definition print_args (args : list (list Z)) : list Z := concat ((λ a, quote a ++ [SPACE]) <$> args).

(** ** Lemmas *)

Lemma split_state_unescape_value st :
  split_state_value (split_state_unescape st) = Z.ldiff (split_state_value st) SS_FLAG_ESCAPE.
Proof. by destruct st. Qed.

(** *** The buffer while it is rewritten *)

(** The bytes written for the complete arguments. *)
Definition packed (args : list (list Z)) : list Z := concat ((λ a, a ++ [0]) <$> args).

(** Where the arguments start. *)
Fixpoint starts (base : nat) (args : list (list Z)) : list nat :=
  match args with
  | [] => []
  | a :: args => base :: starts (base + S (length a)) args
  end.

Lemma packed_snoc args a : packed (args ++ [a]) = packed args ++ a ++ [0].
Proof. unfold packed. by rewrite fmap_app, concat_app; simpl; rewrite app_nil_r. Qed.

Lemma starts_length base args : length (starts base args) = length args.
Proof. revert base. induction args; intros; simpl; auto. Qed.

Lemma starts_snoc base args a :
  starts base (args ++ [a]) = starts base args ++ [(base + length (packed args))%nat].
Proof.
  revert base. induction args as [|b args IH]; intros base; [by rewrite Nat.add_0_r|].
  cbn [app starts]. rewrite IH. unfold packed. cbn [fmap list_fmap concat].
  rewrite !length_app. cbn [app length]. do 3 f_equal. lia.
Qed.

Lemma cstring_app a rest : Forall (λ c, c ≠ 0) a → cstring (a ++ 0 :: rest) = Some a.
Proof.
  induction 1 as [|c a Hc Ha IH]; [done|]. simpl. rewrite (proj2 (Z.eqb_neq c 0)) by done.
  by rewrite IH.
Qed.

Lemma string_at_length pre buf : string_at (pre ++ buf) (Some (length pre)) = cstring buf.
Proof. unfold string_at. simpl. by rewrite drop_app_length. Qed.

Lemma packed_cons a args : packed (a :: args) = a ++ 0 :: packed args.
Proof. unfold packed. simpl. by rewrite <- app_assoc. Qed.

Lemma cstring_shorter bs a : cstring bs = Some a → (length a < length bs)%nat.
Proof.
  revert a. induction bs as [|c bs IH]; intros a; [done|]. simpl. destruct (c =? 0).
  - intros [= <-]. simpl. lia.
  - destruct (cstring bs) as [b|]; [|done]. intros [= <-]. specialize (IH b eq_refl). simpl. lia.
Qed.

Lemma cstring_bound buf p a : string_at buf (Some p) = Some a → (p + length a < length buf)%nat.
Proof. unfold string_at. simpl. intros H%cstring_shorter. rewrite length_drop in H. lia. Qed.

Lemma args_of_starts pre args rest :
  Forall (Forall (λ c, c ≠ 0)) args →
  mapM (string_at (pre ++ packed args ++ rest)) (Some <$> starts (length pre) args) = Some args.
Proof.
  intros H. revert pre. induction H as [|a args Ha Hargs IH]; intros pre; [done|].
  cbn [starts fmap list_fmap]. rewrite packed_cons, <- app_assoc. cbn [app mapM].
  rewrite string_at_length, cstring_app by done. cbn [mbind option_bind].
  specialize (IH (pre ++ a ++ [0])). rewrite !length_app in IH. cbn [length] in IH.
  replace (length pre + (length a + 1))%nat with (length pre + S (length a))%nat in IH by lia.
  rewrite <- !app_assoc in IH. cbn [app] in IH. by rewrite IH.
Qed.

Lemma insert_at_end {A} n (pre : list A) x y rest :
  n = length pre → <[n := x]> (pre ++ y :: rest) = pre ++ x :: rest.
Proof. intros ->. by rewrite insert_app_r_alt, Nat.sub_diag by done. Qed.

(** *** Facts on [word_step] *)

Lemma word_step_prefix a c : ∃ more, (word_step a c).1.2 = a.1.2 ++ more.
Proof.
  destruct a as [[st done] cur]. destruct st; cbn [word_step fst snd];
    repeat (destruct (_ =? _); cbn [fst snd]); eauto using app_nil_r.
  all: exists []; by rewrite app_nil_r.
Qed.

Lemma words_prefix a cs : ∃ more, word_end (foldl word_step a cs) = a.1.2 ++ more.
Proof.
  revert a. induction cs as [|c cs IH]; intros a; cbn [foldl].
  - destruct a as [[st done] cur]. simpl. destruct (decide _); [exists []; by rewrite app_nil_r|by eexists].
  - destruct (IH (word_step a c)) as [m1 ->], (word_step_prefix a c) as [m2 ->].
    exists (m2 ++ m1). by rewrite app_assoc.
Qed.

Definition acc_ok (a : split_acc) : Prop :=
  Forall (Forall (λ c, c ≠ 0)) a.1.2 ∧ Forall (λ c, c ≠ 0) a.2 ∧ (a.1.1 = SS_SPACE → a.2 = []).

Lemma word_step_ok a c : c ≠ 0 → acc_ok a → acc_ok (word_step a c).
Proof.
  intros Hc (H1 & H2 & H3). destruct a as [[st done] cur]. unfold acc_ok. simpl in *.
  destruct st; cbn [word_step fst snd]; repeat (destruct (_ =? _); cbn [fst snd orb]);
    split_and!; rewrite ?Forall_app, ?Forall_singleton; auto; done.
Qed.

Lemma foldl_word_ok cs a : Forall (λ c, c ≠ 0) cs → acc_ok a → acc_ok (foldl word_step a cs).
Proof. intros H. revert a. induction H; intros a Ha; simpl; auto using word_step_ok. Qed.

Lemma words_ok cs : Forall (λ c, c ≠ 0) cs → Forall (Forall (λ c, c ≠ 0)) (words cs).
Proof.
  intros H. unfold words.
  destruct (foldl_word_ok cs (SS_SPACE, [], []) H) as (H1 & H2 & _); [by split_and!|].
  destruct (foldl _ _ cs) as [[st done] cur]. simpl in *.
  destruct (decide _); rewrite ?Forall_app, ?Forall_singleton; auto.
Qed.

(** *** The loop *)

Section split_loop.
Context (cs tail : list Z) (av : list (option nat)) (argv_size : Z).
Hypothesis cs_nonzero : Forall (λ c, 0 < c) cs.
Hypothesis av_size : zlen av = argv_size.
Hypothesis argv_size_bound : 1 ≤ argv_size < 2 ^ 32.

(** The line and the array stand for the arguments of the characters read so far. *)
Definition split_rel (a : split_acc) (l : split_locals) (s : split_mem) : Prop :=
  let '(st, done, cur) := a in
  state l = st ∧ argc l = zlen done ∧ zlen done < argv_size ∧
  out_ptr l = length (packed done ++ cur) ∧ (out_ptr l ≤ in_ptr l)%nat ∧
  line s = (packed done ++ cur) ++ drop (out_ptr l) (cs ++ 0 :: tail) ∧
  argv s = (Some <$> starts 0 done) ++ drop (length done) av ∧
  (st ≠ SS_SPACE → next_arg_start l = length (packed done)).

Abbreviation acc k := (foldl word_step (SS_SPACE, [], []) (take k cs)).

Lemma size_minus_1 : u32 (argv_size - 1) = argv_size - 1.
Proof. apply u32_small. lia. Qed.

Lemma drop_orig n : (n ≤ length cs)%nat →
  ∃ x, drop n (cs ++ 0 :: tail) = x :: drop (S n) (cs ++ 0 :: tail).
Proof.
  intros H. destruct (lookup_lt_is_Some_2 (cs ++ 0 :: tail) n) as [x Hx]; [rewrite length_app; simpl; lia|].
  exists x. by rewrite (drop_S _ _ _ Hx).
Qed.

(** Writing a byte at [out_ptr]. *)
Lemma line_write_out n pre c s Q :
  n = length pre → line s = pre ++ drop n (cs ++ 0 :: tail) → (n ≤ length cs)%nat →
  Q () (SplitMem ((pre ++ [c]) ++ drop (S n) (cs ++ 0 :: tail)) (argv s)) →
  wp (line_write n c) s Q.
Proof.
  intros -> Hl Hn HQ. destruct (drop_orig _ Hn) as [x Hx]. rewrite Hx in Hl.
  unfold wp, line_write. rewrite decide_True.
  - rewrite Hl, insert_at_end by done. by rewrite <- !app_assoc in *.
  - rewrite Hl, !length_app. simpl. lia.
Qed.

(** Storing the start of an argument. *)
Lemma argv_write_arg done cur s Q :
  argv s = (Some <$> starts 0 done) ++ drop (length done) av → zlen done < argv_size - 1 →
  Q () (SplitMem (line s) ((Some <$> starts 0 (done ++ [cur])) ++ drop (length (done ++ [cur])) av)) →
  wp (argv_write (zlen done) (Some (length (packed done)))) s Q.
Proof.
  intros Ha Hn HQ. unfold wp, argv_write, zlen in *.
  destruct (lookup_lt_is_Some_2 av (length done)) as [x Hx]; [lia|].
  assert (length (argv s) = length av) as Hlen.
  { rewrite Ha, length_app, length_fmap, starts_length, length_drop. lia. }
  rewrite decide_True by lia. rewrite Nat2Z.id.
  replace (<[length done:=Some (length (packed done))]> (argv s))
    with ((Some <$> starts 0 (done ++ [cur])) ++ drop (length (done ++ [cur])) av); [done|].
  rewrite Ha, (drop_S _ _ _ Hx), starts_snoc, fmap_app, <- app_assoc, length_app. simpl.
  rewrite Nat.add_1_r, insert_at_end by (by rewrite length_fmap, starts_length). done.
Qed.

(** [argv[argc] = NULL] at the end. *)
Lemma argv_write_null done s Q :
  argv s = (Some <$> starts 0 done) ++ drop (length done) av → zlen done ≤ argv_size - 1 →
  Q () (SplitMem (line s) ((Some <$> starts 0 done) ++ None :: drop (S (length done)) av)) →
  wp (argv_write (zlen done) None) s Q.
Proof.
  intros Ha Hn HQ. unfold wp, argv_write, zlen in *.
  destruct (lookup_lt_is_Some_2 av (length done)) as [x Hx]; [lia|].
  assert (length (argv s) = length av) as Hlen.
  { rewrite Ha, length_app, length_fmap, starts_length, length_drop. lia. }
  rewrite decide_True by lia. rewrite Nat2Z.id, Ha, (drop_S _ _ _ Hx).
  by rewrite insert_at_end by (by rewrite length_fmap, starts_length).
Qed.

(** What the [switch] leaves for the output that follows it. *)
Definition switch_rel (a : split_acc) (c : Z) (l : split_locals) (s : split_mem)
    (r : split_locals * Z) (s1 : split_mem) : Prop :=
  let '(l1, char_out) := r in
  let '(st', done', cur') := word_step a c in
  in_ptr l1 = in_ptr l ∧ out_ptr l1 = out_ptr l ∧ line s1 = line s ∧
  state l1 = st' ∧ argc l1 = zlen done' ∧ zlen done' < argv_size ∧
  argv s1 = (Some <$> starts 0 done') ++ drop (length done') av ∧
  (st' ≠ SS_SPACE → next_arg_start l1 = length (packed done')) ∧
  packed done' ++ cur' = (packed a.1.2 ++ a.2) ++ (if 0 <=? char_out then [char_out] else []).

Lemma end_arg_spec st c done cur l s :
  state l = st → word_step (st, done, cur) c = (SS_SPACE, done ++ [cur], []) →
  split_rel (st, done, cur) l s → zlen done < argv_size - 1 → st ≠ SS_SPACE →
  wp (END_ARG l) s (switch_rel (st, done, cur) c l s).
Proof.
  intros Hst Hw (_ & Hargc & Hlt & Hout & Hle & Hline & Hargv & Hnext) Hn Hne.
  unfold END_ARG. wp_step. rewrite Hargc, (Hnext Hne).
  eapply (argv_write_arg done cur); [done|done|]. apply wp_ret. unfold switch_rel. rewrite Hw. simpl.
  rewrite u32_small by (unfold zlen in *; lia).
  assert (zlen (done ++ [cur]) = zlen done + 1) as -> by by rewrite zlen_app.
  split_and!; try done; [lia|]. by rewrite packed_snoc, app_nil_r, <- !app_assoc.
Qed.

(** The [switch] does a [word_step]. *)
Lemma switch_spec a c l s :
  0 < c → acc_ok a → split_rel a l s → zlen a.1.2 < argv_size - 1 →
  wp (split_switch l c) s (switch_rel a c l s).
Proof.
  intros Hc Hok Hrel Hn. destruct a as [[st done] cur]. pose proof Hrel as Hrel'.
  destruct Hok as (_ & _ & Hcur).
  destruct Hrel as (Hst & Hargc & Hlt & Hout & Hle & Hline & Hargv & Hnext).
  unfold split_switch. rewrite Hst. simpl in Hcur.
  assert ((0 <=? c) = true) as Hc0 by (apply Z.leb_le; lia).
  assert (st ≠ SS_SPACE → next_arg_start l = length (packed done)) by done.
  destruct st; cbn [split_state_unescape]; try (rewrite (Hcur eq_refl) in *).
  all: repeat match goal with |- wp (if ?b then _ else _) _ _ => destruct b eqn:? end.
  all: lazymatch goal with
    | |- wp (END_ARG _) _ _ => apply end_arg_spec; try done; cbn [word_step]
    | |- _ => apply wp_ret; unfold switch_rel; cbn [word_step split_state_unescape]
    end.
  all: repeat match goal with H : (_ =? _) = _ |- _ => rewrite H; clear H end; try done.
  all: try (destruct (_ || _)).
  all: split_and!; simpl; rewrite ?Hc0, ?app_nil_r, <- ?app_assoc in *; auto; try done.
Qed.

Lemma acc_is_ok k : acc_ok (acc k).
Proof.
  apply foldl_word_ok; [|by split_and!]. apply Forall_take.
  eapply Forall_impl; [exact cs_nonzero|]. simpl. lia.
Qed.

Lemma read_ahead a l s : split_rel a l s → (in_ptr l ≤ length cs)%nat →
  line s !! in_ptr l = Some (default 0 (cs !! in_ptr l)).
Proof.
  destruct a as [[st done] cur]. intros (_ & _ & _ & Hout & Hle & Hline & _) Hk.
  rewrite Hline, lookup_app_r, lookup_drop by lia. rewrite <- Hout.
  replace (out_ptr l + (in_ptr l - out_ptr l))%nat with (in_ptr l) by lia.
  destruct (decide (in_ptr l < length cs)%nat) as [Hlt|Hge].
  - destruct (lookup_lt_is_Some_2 cs (in_ptr l) Hlt) as [c Hc]. by rewrite lookup_app_l, Hc by done.
  - rewrite lookup_app_r, (lookup_ge_None_2 cs (in_ptr l)) by lia.
    by replace (in_ptr l - length cs)%nat with 0%nat by lia.
Qed.

(** When the loop is left: all is read, or there is no room for another argument. *)
Definition split_done (l : split_locals) : Prop :=
  in_ptr l = length cs ∨ zlen (acc (in_ptr l)).1.2 = argv_size - 1.

Lemma body_spec l s :
  (in_ptr l ≤ length cs)%nat → split_rel (acc (in_ptr l)) l s →
  wp (split_body argv_size l) s (λ r s', match r with
    | inl l' => in_ptr l' = S (in_ptr l) ∧ (in_ptr l' ≤ length cs)%nat ∧ split_rel (acc (in_ptr l')) l' s'
    | inr l' => l' = l ∧ s' = s ∧ split_done l
    end).
Proof.
  intros Hk Hrel. unfold split_body. rewrite size_minus_1. unfold split_done.
  assert (argc l = zlen (acc (in_ptr l)).1.2 ∧ zlen (acc (in_ptr l)).1.2 < argv_size) as [Hargc Hlt].
  { destruct (acc (in_ptr l)) as [[st done] cur]. by destruct Hrel as (? & ? & ? & _). }
  destruct (Z.ltb_spec (argc l) (argv_size - 1)); [|apply wp_ret; split_and!; [done|done|right; lia]].
  wp_step. unfold wp at 1, line_read. rewrite (read_ahead _ _ _ Hrel Hk).
  destruct (cs !! in_ptr l) as [c|] eqn:Hc; simpl.
  2:{ apply wp_ret. apply lookup_ge_None_1 in Hc. split_and!; [done|done|left; lia]. }
  pose proof (lookup_lt_Some _ _ _ Hc) as Hkl.
  assert (0 < c) as Hc0 by (by eapply (proj1 (Forall_lookup _ _) cs_nonzero)).
  rewrite (proj2 (Z.eqb_neq c 0)) by lia. wp_step.
  eapply wp_mono; [eapply switch_spec; [done|apply acc_is_ok|done|lia]|].
  intros [l1 co] s1. unfold switch_rel.
  assert (acc (S (in_ptr l)) = word_step (acc (in_ptr l)) c) as Hacc.
  { by rewrite (take_S_r _ _ _ Hc), foldl_app. }
  destruct (acc (in_ptr l)) as [[st done] cur] eqn:Ea. cbn [fst snd].
  destruct Hrel as (_ & _ & _ & Hout & Hle & Hline & _ & _).
  destruct (word_step _ c) as [[st' done'] cur']. intros (Hin & Ho & Hl1 & Hst & Hac & Hlt' & Hav & Hnext & Hp).
  destruct (0 <=? co); wp_step.
  - wp_step. eapply (line_write_out _ (packed done ++ cur)); [by rewrite Ho|by rewrite Hl1, Ho|lia|].
    wp_steps. cbn [in_ptr]. rewrite Hin. split_and!; [done|lia|]. rewrite Hacc. unfold split_rel.
    cbn [state argc out_ptr in_ptr line argv next_arg_start]. rewrite Hp, Ho.
    split_and!; try done; [rewrite length_app; simpl; lia|lia].
  - wp_steps. cbn [in_ptr]. rewrite Hin. split_and!; [done|lia|]. rewrite Hacc. unfold split_rel.
    cbn [state argc out_ptr in_ptr next_arg_start]. rewrite Hp, app_nil_r, Ho, Hl1.
    split_and!; try done. lia.
Qed.

Lemma loop_spec s fuel :
  line s = cs ++ 0 :: tail → argv s = av → (length cs < fuel)%nat →
  wp (iterM fuel (split_body argv_size) (SplitLocals SS_SPACE 0 0 0 0)) s
    (λ l s', (in_ptr l ≤ length cs)%nat ∧ split_rel (acc (in_ptr l)) l s' ∧ split_done l).
Proof.
  intros Hl Ha Hf.
  eapply (wp_iter _ (λ n l s, n = (length cs - in_ptr l)%nat ∧ (in_ptr l ≤ length cs)%nat ∧
                              split_rel (acc (in_ptr l)) l s) _) with (n := length cs); [|..|done].
  - intros n l s1 (-> & Hk & Hrel). eapply wp_mono; [by apply body_spec|].
    intros [l'|l'] s' H; simpl.
    + destruct H as (Hin & Hk' & Hrel'). exists (length cs - in_ptr l')%nat. split_and!; done || lia.
    + by destruct H as (-> & -> & Hd).
  - simpl. rewrite Nat.sub_0_r. split_and!; try done; [lia..| |]; unfold zlen in *; simpl; try lia.
Qed.

(** The arguments when the loop is left. *)
Lemma args_result k st done cur :
  acc k = (st, done, cur) → (k ≤ length cs)%nat → zlen done < argv_size →
  k = length cs ∨ zlen done = argv_size - 1 →
  take (Z.to_nat (argv_size - 1)) (words cs) =
    if negb (bool_decide (st = SS_SPACE)) && (zlen done <? argv_size - 1) then done ++ [cur] else done.
Proof.
  intros Ea Hk Hlt Hd.
  destruct (Z.ltb_spec (zlen done) (argv_size - 1)) as [Hroom|Hfull].
  - destruct Hd as [->|]; [|lia]. unfold words. rewrite take_ge in Ea by done. rewrite Ea. simpl.
    unfold zlen in *. destruct (decide (st = SS_SPACE)) as [E|E].
    + rewrite bool_decide_true by done. simpl. apply take_ge. lia.
    + rewrite bool_decide_false by done. simpl. apply take_ge. rewrite length_app. simpl. lia.
  - rewrite andb_false_r. unfold words. rewrite <- (take_drop k cs), foldl_app, Ea.
    destruct (words_prefix (st, done, cur) (drop k cs)) as [more ->]. simpl.
    rewrite take_app_le by (unfold zlen in *; lia). apply take_ge. unfold zlen in *. lia.
Qed.

(** The whole function: the arguments are packed at the start of the line, nothing is
    written behind the end of the line, and NULL follows the last pointer. *)
Lemma split_argv_spec s :
  line s = cs ++ 0 :: tail → argv s = av →
  let args := take (Z.to_nat (argv_size - 1)) (words cs) in
  wp (esp_console_split_argv argv_size) s (λ n s', n = zlen args ∧ n < argv_size ∧
    (∃ rest, line s' = packed args ++ rest) ∧ drop (S (length cs)) (line s') = tail ∧
    length (line s') = length (line s) ∧
    argv s' = (Some <$> starts 0 args) ++ None :: drop (S (length args)) av).
Proof.
  intros Hl Ha args. unfold esp_console_split_argv. wp_steps.
  eapply wp_mono; [apply loop_spec; [done|done|rewrite Hl, length_app; simpl; lia]|].
  intros l s1 (Hk & Hrel & Hd). destruct (acc (in_ptr l)) as [[st done] cur] eqn:Ea.
  destruct Hrel as (Hst & Hargc & Hlt & Hout & Hle & Hline & Hargv & Hnext).
  unfold split_done in Hd. rewrite Ea in Hd. simpl in Hd.
  pose proof (args_result _ _ _ _ Ea Hk Hlt Hd) as Hargs. fold args in Hargs.
  wp_step. eapply (line_write_out _ (packed done ++ cur)); [done|done|lia|].
  set (buf := _ ++ drop _ _).
  assert (drop (S (length cs)) buf = tail ∧ length buf = length (line s)) as [Htail Hlen].
  { subst buf. rewrite Hl. split.
    - rewrite drop_app_ge, drop_drop by (rewrite length_app; simpl; lia).
      rewrite length_app, <- Hout. cbn [length].
      replace (S (out_ptr l) + (S (length cs) - (out_ptr l + 1)))%nat with (S (length cs)) by lia.
      rewrite drop_app_ge by lia. by replace (S (length cs) - length cs)%nat with 1%nat by lia.
    - rewrite !length_app, length_drop, !length_app in *. simpl. lia. }
  rewrite size_minus_1, Hst, Hargc. wp_step. rewrite Hargs.
  destruct (negb _ && _) eqn:Eb.
  - apply andb_true_iff in Eb as [Eb Hroom]. apply Z.ltb_lt in Hroom.
    apply negb_true_iff, bool_decide_eq_false_1 in Eb. rewrite (Hnext Eb). wp_step.
    eapply (argv_write_arg done cur); [done|done|]. wp_steps.
    rewrite u32_small by (unfold zlen in *; lia).
    replace (zlen done + 1) with (zlen (done ++ [cur])) by (by rewrite zlen_app).
    eapply (argv_write_null (done ++ [cur])); [done|rewrite zlen_app, zlen_cons, zlen_nil; lia|].
    apply wp_ret. cbn [line argv]. split_and!; try done; [rewrite zlen_app, zlen_cons, zlen_nil; lia|].
    eexists. rewrite packed_snoc. subst buf. by rewrite <- !app_assoc.
  - wp_steps. eapply (argv_write_null done); [done|lia|]. apply wp_ret. cbn [line argv].
    split_and!; try done. subst buf. eexists. by rewrite <- !app_assoc.
Qed.
End split_loop.

(** *** Quoting *)

Lemma word_step_quote_char done cur c :
  foldl word_step (SS_QUOTED_ARG, done, cur) (quote_char c) = (SS_QUOTED_ARG, done, cur ++ [c]).
Proof.
  unfold quote_char, needs_escape. destruct (Z.eqb_spec c ESCAPE) as [->|He]; [done|].
  destruct (Z.eqb_spec c QUOTE) as [->|Hq]; [done|]. simpl.
  by rewrite (proj2 (Z.eqb_neq _ _) He), (proj2 (Z.eqb_neq _ _) Hq).
Qed.

Lemma word_step_quote_chars done arg cur :
  foldl word_step (SS_QUOTED_ARG, done, cur) (concat (quote_char <$> arg)) =
    (SS_QUOTED_ARG, done, cur ++ arg).
Proof.
  revert cur. induction arg as [|c arg IH]; intros cur; [by rewrite app_nil_r|].
  cbn [fmap list_fmap concat]. rewrite foldl_app, word_step_quote_char, IH. by rewrite <- app_assoc.
Qed.

Lemma word_step_quote done arg :
  foldl word_step (SS_SPACE, done, []) (quote arg ++ [SPACE]) = (SS_SPACE, done ++ [arg], []).
Proof.
  unfold quote. cbn [app foldl]. rewrite <- app_assoc, foldl_app.
  change (word_step (SS_SPACE, done, []) QUOTE) with (SS_QUOTED_ARG, done, @nil Z).
  by rewrite word_step_quote_chars.
Qed.

Lemma words_print_args args : words (print_args args) = args.
Proof.
  unfold words, print_args.
  enough (∀ done, foldl word_step (SS_SPACE, done, []) (concat ((λ a, quote a ++ [SPACE]) <$> args))
                  = (SS_SPACE, done ++ args, [])) as -> by done.
  induction args as [|a args IH]; intros done; [by rewrite app_nil_r|].
  cbn [fmap list_fmap concat]. rewrite foldl_app, word_step_quote, IH. by rewrite <- app_assoc.
Qed.

Lemma print_args_positive args :
  Forall (Forall (λ c, 0 < c)) args → Forall (λ c, 0 < c) (print_args args).
Proof.
  intros H. unfold print_args. apply Forall_concat, Forall_fmap.
  eapply Forall_impl; [exact H|]. intros a Ha. simpl. unfold quote, QUOTE.
  constructor; [done|]. rewrite !Forall_app. split_and!; [|by repeat constructor..].
  apply Forall_concat, Forall_fmap. eapply Forall_impl; [exact Ha|]. intros c Hc. simpl.
  unfold quote_char, ESCAPE. destruct (needs_escape c); by repeat constructor.
Qed.

Lemma positive_nonzero cs : Forall (λ c, 0 < c) cs → Forall (λ c, c ≠ 0) cs.
Proof. intros H. eapply Forall_impl; [exact H|]. simpl. lia. Qed.

(** The arguments read back through [argv]. *)
Lemma split_args_of cs tail argv_size s :
  line s = cs ++ 0 :: tail → Forall (λ c, 0 < c) cs →
  zlen (argv s) = argv_size → 1 ≤ argv_size < 2 ^ 32 →
  let args := take (Z.to_nat (argv_size - 1)) (words cs) in
  wp (esp_console_split_argv argv_size) s (λ n s', n = zlen args ∧ args_of s' n = Some args).
Proof.
  intros Hl Hcs Ha Hsize args.
  eapply wp_mono; [eapply (split_argv_spec cs tail (argv s)); done|]. fold args.
  intros n s' (-> & Hn & (rest & Hline) & _ & _ & Hav). split; [done|]. unfold args_of.
  unfold zlen. rewrite Nat2Z.id, Hav, take_app_length' by (by rewrite length_fmap, starts_length).
  rewrite Hline. apply (args_of_starts []). apply Forall_take, words_ok. by apply positive_nonzero.
Qed.

Lemma mapM_lookup {A B} (f : A → option B) l k i y :
  mapM f l = Some k → k !! i = Some y → ∃ x, l !! i = Some x ∧ f x = Some y.
Proof. intros H%mapM_Some Hk. destruct (Forall2_lookup_r _ _ _ _ _ H Hk) as (x & ? & ?). eauto. Qed.

(** ** Properties *)

(** for any line and any array of at least one pointer, splitting stops without an
    access outside the line or the array.  It returns fewer arguments than the array has
    elements, puts NULL after them, points each of them to a terminated string inside the
    line, and leaves the length of the buffer and what follows the line as they were. *)
Theorem split_argv_bounds cs tail argv_size s :
  line s = cs ++ 0 :: tail → Forall (λ c, 0 < c) cs →
  zlen (argv s) = argv_size → 1 ≤ argv_size < 2 ^ 32 →
  wp (esp_console_split_argv argv_size) s (λ n s',
    0 ≤ n < argv_size ∧ argv s' !! Z.to_nat n = Some None ∧
    (∀ i, 0 ≤ i < n → ∃ p a, argv s' !! Z.to_nat i = Some (Some p) ∧
       string_at (line s') (Some p) = Some a ∧ (p + length a < length (line s'))%nat) ∧
    length (line s') = length (line s) ∧ zlen (argv s') = argv_size ∧
    drop (S (length cs)) (line s') = tail).
Proof.
  intros Hl Hcs Ha Hsize.
  eapply wp_mono; [eapply (split_argv_spec cs tail (argv s)); done|].
  set (args := take _ _). intros n s' (-> & Hn & (rest & Hline) & Htail & Hlen & Hav).
  unfold zlen in *.
  assert (length (Some <$> starts 0 args) = length args) as Hst by (by rewrite length_fmap, starts_length).
  assert (mapM (string_at (line s')) (Some <$> starts 0 args) = Some args) as Hall.
  { rewrite Hline. apply (args_of_starts []). apply Forall_take, words_ok. by apply positive_nonzero. }
  split_and!; try done; try lia.
  - rewrite Hav, lookup_app_r by lia. rewrite Hst. by replace (_ - _)%nat with 0%nat by lia.
  - intros i Hi. destruct (lookup_lt_is_Some_2 args (Z.to_nat i)) as [a Hargi]; [lia|].
    destruct (mapM_lookup _ _ _ _ _ Hall Hargi) as (p & Hp & Hs).
    destruct p as [p|]; [|done]. exists p, a. split_and!; [|done|].
    + by rewrite Hav, lookup_app_l by lia.
    + eapply cstring_bound; exact Hs.
  - rewrite Hav, length_app, Hst. simpl. rewrite length_drop. lia.
Qed.

(** The line [a "b c"] with room for two arguments. *)
Definition small_line : split_mem :=
  SplitMem [97; SPACE; QUOTE; 98; SPACE; 99; QUOTE; 0; 7] [None; Some 3%nat; Some 4%nat].

Lemma split_argv_bounds_witness :
  wp (esp_console_split_argv 3) small_line (λ n s',
    0 ≤ n < 3 ∧ argv s' !! Z.to_nat n = Some None ∧
    (∀ i, 0 ≤ i < n → ∃ p a, argv s' !! Z.to_nat i = Some (Some p) ∧
       string_at (line s') (Some p) = Some a ∧ (p + length a < length (line s'))%nat) ∧
    length (line s') = 9%nat ∧ zlen (argv s') = 3 ∧ drop 8 (line s') = [7]).
Proof.
  apply (split_argv_bounds [97; SPACE; QUOTE; 98; SPACE; 99; QUOTE] [7] 3 small_line);
    [reflexivity|by repeat constructor|reflexivity|lia].
Defined.

(** C29: although the arguments are written over the line while it is read, they are those
    that a function on the characters alone finds, as many as fit: quotes are stripped,
    escapes are resolved and spaces outside of them separate. *)
Theorem split_argv_words cs tail argv_size s :
  line s = cs ++ 0 :: tail → Forall (λ c, 0 < c) cs →
  zlen (argv s) = argv_size → 1 ≤ argv_size < 2 ^ 32 →
  wp (esp_console_split_argv argv_size) s (λ n s',
    n = zlen (take (Z.to_nat (argv_size - 1)) (words cs)) ∧
    args_of s' n = Some (take (Z.to_nat (argv_size - 1)) (words cs))).
Proof. apply split_args_of. Qed.

Lemma split_argv_words_witness :
  wp (esp_console_split_argv 3) small_line (λ n s', n = 2 ∧ args_of s' n = Some [[97]; [98; SPACE; 99]]).
Proof.
  apply (split_argv_words [97; SPACE; QUOTE; 98; SPACE; 99; QUOTE] [7] 3 small_line);
    [reflexivity|by repeat constructor|reflexivity|lia].
Defined.

(** C30: a command line made of quoted arguments is split into these arguments, whatever
    bytes they have and even when they are empty, if the array has room for them. *)
Theorem split_argv_roundtrip args tail s :
  line s = print_args args ++ 0 :: tail → Forall (Forall (λ c, 0 < c)) args →
  zlen args < zlen (argv s) < 2 ^ 32 →
  wp (esp_console_split_argv (zlen (argv s))) s (λ n s', n = zlen args ∧ args_of s' n = Some args).
Proof.
  intros Hl Hargs Hsize. pose proof (zlen_nonneg args).
  eapply wp_mono; [eapply (split_args_of (print_args args) tail);
                   [done|by apply print_args_positive|done|lia]|].
  rewrite words_print_args, take_ge by (unfold zlen in *; lia). done.
Qed.

Lemma split_argv_roundtrip_witness :
  wp (esp_console_split_argv 3) (SplitMem (print_args [[SPACE; ESCAPE]; []] ++ [0]) [None; None; None])
    (λ n s', n = 2 ∧ args_of s' n = Some [[SPACE; ESCAPE]; []]).
Proof.
  apply (split_argv_roundtrip [[SPACE; ESCAPE]; []] []
           (SplitMem (print_args [[SPACE; ESCAPE]; []] ++ [0]) [None; None; None]));
    [reflexivity|by repeat constructor|done].
Defined.
