(* ===== verification/ConsoleCmd.v ===== *)
(** * Console: the commands ([console/commands.c])

    The registered commands are a singly linked list of items on the heap, each with a
    hint that is a block of its own.  The model keeps both kinds of blocks by address, so
    that a pointer to a freed block is a bad access.  The functions behind commands are
    code of the application: the parameter [call] gives what such a function does with
    [argc], [argv] and the console, the line buffer included, and what it returns; [syntax] is what [argtable3] prints for a table.
    The answers of allocations are a list in the state. *)
From Stdlib Require Import ZArith Lia.
From stdpp Require Import base numbers option list gmap.
From S2P Require Import Prelude ConsoleSplit.

(** ** Data *)

Definition ANSI_COLOR_DEFAULT : Z := 39.
Definition MALLOC_CAP_DEFAULT : Z := 2 ^ 12.
Definition ESP_CONSOLE_HELP_VERBOSE_LEVEL_1 : Z := 1.
Definition ESP_CONSOLE_HELP_VERBOSE_LEVEL_MAX_NUM : Z := 2.

Record esp_console_config_t : Type := mkConfig {
  max_cmdline_length : Z;
  max_cmdline_args : Z;
  heap_alloc_caps : Z;
  hint_color : Z;
  hint_bold : Z }.

(** A command as the application describes it; [None] is NULL. *)
Record esp_console_cmd_t : Type := mkCmd {
  c_command : option (list Z);
  c_help : option (list Z);
  c_hint : option (list Z);
  c_func : option Z;
  c_argtable : option Z;
  c_func_w_context : option Z;
  c_context : Z }.

(** An item of the list; [hint] is the address of a block. *)
Record cmd_item_t : Type := mkItem {
  command : list Z;
  help : option (list Z);
  hint : option Z;
  func : option Z;
  func_w_context : option Z;
  argtable : option Z;
  context : Z }.

(** The static variables and the heap: the items and the hints by address, the number of
    other blocks in use, and the answers of allocations to come. *)
Record console : Type := mkConsole {
  s_cmd_list : list Z;
  s_config : esp_console_config_t;
  s_tmp_line_buf : option (list Z);
  s_verbose_level : Z;
  items : gmap Z cmd_item_t;
  hints : gmap Z (list Z);
  other_blocks : Z;
  next_block : Z;
  supply : list bool }.

Definition CON (A : Type) : Type := M console A.

Definition set_list (l : list Z) (s : console) : console :=
  mkConsole l (s_config s) (s_tmp_line_buf s) (s_verbose_level s) (items s) (hints s)
    (other_blocks s) (next_block s) (supply s).
Definition set_config (c : esp_console_config_t) (s : console) : console :=
  mkConsole (s_cmd_list s) c (s_tmp_line_buf s) (s_verbose_level s) (items s) (hints s)
    (other_blocks s) (next_block s) (supply s).
Definition set_line_buf (b : option (list Z)) (s : console) : console :=
  mkConsole (s_cmd_list s) (s_config s) b (s_verbose_level s) (items s) (hints s)
    (other_blocks s) (next_block s) (supply s).
Definition set_verbose (v : Z) (s : console) : console :=
  mkConsole (s_cmd_list s) (s_config s) (s_tmp_line_buf s) v (items s) (hints s)
    (other_blocks s) (next_block s) (supply s).
Definition set_items (m : gmap Z cmd_item_t) (s : console) : console :=
  mkConsole (s_cmd_list s) (s_config s) (s_tmp_line_buf s) (s_verbose_level s) m (hints s)
    (other_blocks s) (next_block s) (supply s).
Definition set_hints (m : gmap Z (list Z)) (s : console) : console :=
  mkConsole (s_cmd_list s) (s_config s) (s_tmp_line_buf s) (s_verbose_level s) (items s) m
    (other_blocks s) (next_block s) (supply s).
Definition add_blocks (n : Z) (s : console) : console :=
  mkConsole (s_cmd_list s) (s_config s) (s_tmp_line_buf s) (s_verbose_level s) (items s) (hints s)
    (other_blocks s + n) (next_block s) (supply s).
Definition set_supply (nxt : Z) (sup : list bool) (s : console) : console :=
  mkConsole (s_cmd_list s) (s_config s) (s_tmp_line_buf s) (s_verbose_level s) (items s) (hints s)
    (other_blocks s) nxt sup.

(** ** The heap *)

(** A new block, or NULL. *)
Definition alloc : CON (option Z) := λ s,
  match supply s with
  | true :: sup => Done (set_supply (next_block s + 1) sup s) (Some (next_block s))
  | false :: sup => Done (set_supply (next_block s) sup s) None
  | [] => Done s None
  end.

Definition item_read (p : Z) : CON cmd_item_t := λ s,
  match items s !! p with Some it => Done s it | None => MemFault end.
Definition item_write (p : Z) (it : cmd_item_t) : CON unit := λ s,
  match items s !! p with Some _ => Done (set_items (<[p := it]> (items s)) s) () | None => MemFault end.

(** [free] of an item and of a hint: a block that is not in use is a bad access. *)
Definition item_free (p : Z) : CON unit := λ s,
  match items s !! p with Some _ => Done (set_items (delete p (items s)) s) () | None => MemFault end.
Definition hint_free (p : option Z) : CON unit := λ s,
  match p with
  | None => Done s ()
  | Some p =>
      match hints s !! p with Some _ => Done (set_hints (delete p (hints s)) s) () | None => MemFault end
  end.

(** A string on the heap ([strdup], [asprintf]). *)
Definition new_string (cs : list Z) : CON (option Z) :=
  p ← alloc;
  match p with
  | None => mret None
  | Some p => modify (λ s, set_hints (<[p := cs]> (hints s)) s);; mret (Some p)
  end.

(** ** Strings *)

(** The sign of [strcmp] on strings given by their characters. *)
Fixpoint strcmp (a b : list Z) : Z :=
  match a, b with
  | [], [] => 0
  | [], y :: _ => - y
  | x :: _, [] => x
  | x :: a, y :: b => if x =? y then strcmp a b else x - y
  end.

(** [strncmp(a, b, n) == 0] *)
Fixpoint strncmp_eq (a b : list Z) (n : nat) {struct n} : bool :=
  match n with
  | O => true
  | S n => match a, b with
           | [], [] => true
           | x :: a, y :: b => (x =? y) && strncmp_eq a b n
           | _, _ => false
           end
  end.

(** ** Init and deinit *)

Definition esp_console_init (config : option esp_console_config_t) : CON esp_err_t :=
  match config with
  | None => mret ESP_ERR_INVALID_ARG
  | Some config =>
      s ← get;
      if decide (s_tmp_line_buf s ≠ None) then mret ESP_ERR_INVALID_STATE else
      let caps := if heap_alloc_caps config =? 0 then MALLOC_CAP_DEFAULT else heap_alloc_caps config in
      let color := if hint_color config =? 0 then ANSI_COLOR_DEFAULT else hint_color config in
      modify (set_config (mkConfig (max_cmdline_length config) (max_cmdline_args config) caps color
                            (hint_bold config)));;
      p ← alloc;
      match p with
      | None => mret ESP_ERR_NO_MEM
      | Some _ =>
          modify (λ s, add_blocks 1
            (set_line_buf (Some (replicate (Z.to_nat (max_cmdline_length config)) 0)) s));;
          mret ESP_OK
      end
  end.

(** [SLIST_REMOVE]: the element must be on the list. *)
Fixpoint slist_remove (l : list Z) (p : Z) : option (list Z) :=
  match l with
  | [] => None
  | q :: l' => if q =? p then Some l' else (q ::.) <$> slist_remove l' p
  end.
Definition SLIST_REMOVE (p : Z) : CON unit := λ s,
  match slist_remove (s_cmd_list s) p with Some l => Done (set_list l s) () | None => MemFault end.

(** The loop of [esp_console_deinit] over the items present when it starts. *)
Fixpoint deinit_items (l : list Z) : CON unit :=
  match l with
  | [] => mret ()
  | p :: l =>
      SLIST_REMOVE p;;
      it ← item_read p;
      hint_free (hint it);;
      item_free p;;
      deinit_items l
  end.

Definition esp_console_deinit : CON esp_err_t :=
  s ← get;
  match s_tmp_line_buf s with
  | None => mret ESP_ERR_INVALID_STATE
  | Some _ =>
      modify (λ s, add_blocks (-1) (set_line_buf None s));;
      deinit_items (s_cmd_list s);;
      mret ESP_OK
  end.

(** ** The list *)

Fixpoint find_command (l : list Z) (name : list Z) : CON (option Z) :=
  match l with
  | [] => mret None
  | p :: l =>
      it ← item_read p;
      if (length (command it) =? length name)%nat && (strcmp name (command it) =? 0)
      then mret (Some p) else find_command l name
  end.
Definition find_command_by_name (name : list Z) : CON (option Z) :=
  s ← get; find_command (s_cmd_list s) name.

Definition esp_console_rm_item_free_hint (p : Z) : CON unit :=
  SLIST_REMOVE p;; it ← item_read p; hint_free (hint it).

Definition esp_console_cmd_deregister (cmd_name : list Z) : CON esp_err_t :=
  item ← find_command_by_name cmd_name;
  match item with
  | None => mret ESP_ERR_INVALID_ARG
  | Some p => esp_console_rm_item_free_hint p;; item_free p;; mret ESP_OK
  end.

(** The last item that does not come after [name] (for [CONFIG_CONSOLE_SORTED_HELP]). *)
Fixpoint last_not_after (l : list Z) (name : list Z) (last : option Z) : CON (option Z) :=
  match l with
  | [] => mret last
  | p :: l =>
      it ← item_read p;
      if 0 <? strcmp (command it) name then mret last else last_not_after l name (Some p)
  end.

(** [SLIST_INSERT_AFTER] *)
Fixpoint insert_after (l : list Z) (q p : Z) : list Z :=
  match l with
  | [] => []
  | x :: l => if x =? q then x :: p :: l else x :: insert_after l q p
  end.

Definition link_item (sorted : bool) (p : Z) (name : list Z) : CON unit :=
  s ← get;
  last ← (if sorted then last_not_after (s_cmd_list s) name None
          else mret (list.last (s_cmd_list s)));
  modify (λ s, set_list (match last with
                         | None => p :: s_cmd_list s
                         | Some q => insert_after (s_cmd_list s) q p
                         end) s).

Section with_application.
Context (sorted : bool) (syntax : Z → list Z).
Context (call : Z → option Z → Z → list (option nat) → CON (Z * list (option nat))).

(** The hint of a command: given, printed from the argument table, or as it was. *)
Definition make_hint (cmd : esp_console_cmd_t) (old : option Z) : CON (option Z) :=
  match c_hint cmd, c_argtable cmd with
  | Some h, _ => p ← new_string (SPACE :: h); mret (match p with Some p => Some p | None => old end)
  | None, Some t => new_string (syntax t)
  | None, None => mret old
  end.

(** The item of a new command, all zero, or that of the old one taken from the list. *)
Definition get_item (name : list Z) : CON (option Z) :=
  item ← find_command_by_name name;
  match item with
  | None =>
      p ← alloc;
      match p with
      | None => mret None
      | Some p =>
          modify (λ s, set_items (<[p := mkItem [] None None None None None 0]> (items s)) s);;
          mret (Some p)
      end
  | Some p => esp_console_rm_item_free_hint p;; mret (Some p)
  end.

Definition esp_console_cmd_register (cmd : option esp_console_cmd_t) : CON esp_err_t :=
  match cmd with
  | None => mret ESP_ERR_INVALID_ARG
  | Some cmd =>
      match c_command cmd with
      | None => mret ESP_ERR_INVALID_ARG
      | Some name =>
          if decide (SPACE ∈ name) then mret ESP_ERR_INVALID_ARG else
          if decide ((c_func cmd = None ∧ c_func_w_context cmd = None) ∨
                     (c_func cmd ≠ None ∧ c_func_w_context cmd ≠ None))
          then mret ESP_ERR_INVALID_ARG else
          item ← get_item name;
          match item with
          | None => mret ESP_ERR_NO_MEM
          | Some p =>
              it ← item_read p;
              h ← make_hint cmd (hint it);
              item_write p
                (match c_func cmd with
                 | Some f => mkItem name (c_help cmd) h (Some f) (func_w_context it) (c_argtable cmd) (context it)
                 | None => mkItem name (c_help cmd) h (func it) (c_func_w_context cmd) (c_argtable cmd) (c_context cmd)
                 end);;
              link_item sorted p name;;
              mret ESP_OK
          end
      end
  end.

(** ** Completion and hints *)

Fixpoint completions (l : list Z) (buf : list Z) : CON (list (list Z)) :=
  match l with
  | [] => mret []
  | p :: l =>
      it ← item_read p;
      r ← completions l buf;
      mret (if strncmp_eq buf (command it) (length buf) then command it :: r else r)
  end.

(** What is handed to [linenoiseAddCompletion], in order. *)
Definition esp_console_get_completion (buf : list Z) : CON (list (list Z)) :=
  if (length buf =? 0)%nat then mret [] else s ← get; completions (s_cmd_list s) buf.

Fixpoint find_hint (l : list Z) (buf : list Z) : CON (option (option Z)) :=
  match l with
  | [] => mret None
  | p :: l =>
      it ← item_read p;
      if (length (command it) =? length buf)%nat && strncmp_eq buf (command it) (length buf)
      then mret (Some (hint it)) else find_hint l buf
  end.

(** The hint with its colour and weight, when there is such a command. *)
Definition esp_console_get_hint (buf : list Z) : CON (option (option Z * Z * Z)) :=
  s ← get;
  h ← find_hint (s_cmd_list s) buf;
  mret ((λ h, (h, hint_color (s_config s), hint_bold (s_config s))) <$> h).

(** ** Running a command line *)

(** [strlcpy(dst, src, size)]; a buffer that is too short is a bad access. *)
Definition strlcpy (dst src : list Z) (size : Z) : CON (list Z) :=
  if size =? 0 then mret dst else
  let n := Nat.min (length src) (Z.to_nat (size - 1)) in
  if decide (n < length dst)%nat then mret (take n src ++ 0 :: drop (S n) dst) else fault.

(** [esp_console_split_argv] on the line buffer and a fresh array. *)
Definition split_line (buf : list Z) (argv_size : Z) : CON (Z * list (option nat)) := λ s,
  match ConsoleSplit.esp_console_split_argv argv_size
          (SplitMem buf (replicate (Z.to_nat argv_size) None)) with
  | Done m n => Done (set_line_buf (Some (line m)) s) (n, argv m)
  | AssertFailed => AssertFailed
  | MemFault => MemFault
  | OutOfFuel => OutOfFuel
  end.

(** The string at [argv[0]]. *)
Definition read_arg0 (av : list (option nat)) : CON (list Z) := λ s,
  match s_tmp_line_buf s, av with
  | Some buf, p :: _ => match string_at buf p with Some cs => Done s cs | None => MemFault end
  | _, _ => MemFault
  end.

(** [free(argv)] *)
Definition free_argv : CON unit := modify (add_blocks (-1)).

(** A call of a function of a command, when there is one. *)
Definition call_if (f : option Z) (ctx : option Z) (argc : Z) (av : list (option nat)) (r : option Z) :
    CON (option Z * list (option nat)) :=
  match f with
  | Some f => '(x, av) ← call f ctx argc av; mret (Some x, av)
  | None => mret (r, av)
  end.

(** The error and, when a command ran, what is stored in [*cmd_ret]. *)
Definition esp_console_run (cmdline : list Z) : CON (esp_err_t * option Z) :=
  s ← get;
  match s_tmp_line_buf s with
  | None => mret (ESP_ERR_INVALID_STATE, None)
  | Some buf =>
      block ← alloc;
      match block with
      | None => mret (ESP_ERR_NO_MEM, None)
      | Some _ =>
          modify (add_blocks 1);;
          buf ← strlcpy buf cmdline (max_cmdline_length (s_config s));
          '(argc, av) ← split_line buf (max_cmdline_args (s_config s));
          if argc =? 0 then free_argv;; mret (ESP_ERR_INVALID_ARG, None) else
          name ← read_arg0 av;
          cmd ← find_command_by_name name;
          match cmd with
          | None => free_argv;; mret (ESP_ERR_NOT_FOUND, None)
          | Some p =>
              it ← item_read p;
              '(r, av) ← call_if (func it) None argc av None;
              it ← item_read p;
              '(r, av) ← call_if (func_w_context it) (Some (context it)) argc av r;
              free_argv;; mret (ESP_OK, r)
          end
      end
  end.

Definition esp_console_set_help_verbose_level (verbose_level : Z) : CON esp_err_t :=
  if ESP_CONSOLE_HELP_VERBOSE_LEVEL_MAX_NUM <=? u32 verbose_level then mret ESP_ERR_INVALID_ARG else
  modify (set_verbose (u32 verbose_level));; mret ESP_OK.

End with_application.
