(* ===== verification/ConsoleSpec.v ===== *)
(** * Console: the list of commands as a table

    A console represents a table of commands in the order in which they are listed.
    [rep] says so, with the ownership of the blocks behind it: every item on the heap is
    on the list, every hint belongs to one item, and nothing else is allocated.  The
    operations are followed from table to table, allocation failures included. *)
From Stdlib Require Import ZArith Lia.
From stdpp Require Import base numbers option list gmap.
From S2P Require Import Prelude ConsoleSplit ConsoleCmd.

(** ** The table *)

Record entry : Type := mkEntry {
  e_name : list Z;
  e_help : option (list Z);
  e_hint : option (list Z);
  e_func : option Z;
  e_func_ctx : option Z;
  e_argtable : option Z;
  e_context : Z }.

Definition entry_of (m : gmap Z (list Z)) (it : cmd_item_t) : entry :=
  mkEntry (command it) (help it) (h ← hint it; m !! h) (func it) (func_w_context it)
    (argtable it) (context it).

(** The entries without the one of a name, and the one of a name. *)
Definition tbl_remove (name : list Z) (t : list entry) : list entry :=
  filter (λ e, e_name e ≠ name) t.
Definition tbl_find (name : list Z) (t : list entry) : option entry :=
  snd <$> list_find (λ e, e_name e = name) t.

(** Where a new entry goes: to the end, or before the first one with a greater name. *)
Fixpoint tbl_sorted_pos (name : list Z) (t : list entry) : nat :=
  match t with
  | [] => 0
  | e :: t => if 0 <? strcmp (e_name e) name then 0 else S (tbl_sorted_pos name t)
  end.
Definition tbl_insert (sorted : bool) (e : entry) (t : list entry) : list entry :=
  let k := if sorted then tbl_sorted_pos (e_name e) t else length t in
  take k t ++ e :: drop k t.

(** ** Ownership *)

(** All is in order but for an item [d] that was taken from the list. *)
Record inv (d : option Z) (s : console) : Prop := mkInv {
  inv_nodup : NoDup (s_cmd_list s);
  inv_items p : is_Some (items s !! p) ↔ p ∈ s_cmd_list s ∨ d = Some p;
  inv_detached p : d = Some p → p ∉ s_cmd_list s;
  inv_names p q it jt : p ∈ s_cmd_list s → q ∈ s_cmd_list s →
    items s !! p = Some it → items s !! q = Some jt → command it = command jt → p = q;
  inv_hint p it h : p ∈ s_cmd_list s → items s !! p = Some it → hint it = Some h → is_Some (hints s !! h);
  inv_owner p q it jt h : p ∈ s_cmd_list s → q ∈ s_cmd_list s →
    items s !! p = Some it → items s !! q = Some jt → hint it = Some h → hint jt = Some h → p = q;
  inv_used h : is_Some (hints s !! h) →
    ∃ p it, p ∈ s_cmd_list s ∧ items s !! p = Some it ∧ hint it = Some h;
  inv_fresh p : next_block s ≤ p → items s !! p = None ∧ hints s !! p = None }.

(** Addresses [l] hold the entries [t]. *)
Definition views (s : console) (l : list Z) (t : list entry) : Prop :=
  Forall2 (λ p e, ∃ it, items s !! p = Some it ∧ e = entry_of (hints s) it) l t.

Definition rep (s : console) (t : list entry) : Prop := inv None s ∧ views s (s_cmd_list s) t.

(** What no operation on the list touches. *)
Definition same_rest (s s' : console) : Prop :=
  s_config s' = s_config s ∧ s_tmp_line_buf s' = s_tmp_line_buf s ∧
  s_verbose_level s' = s_verbose_level s ∧ other_blocks s' = other_blocks s.

(** ** Lemmas *)

Lemma strcmp_eq a b : strcmp a b = 0 ∧ length a = length b → a = b.
Proof.
  revert b. induction a as [|x a IH]; intros [|y b] [H Hl]; try done. simpl in *.
  destruct (Z.eqb_spec x y) as [->|]; [|lia]. f_equal. apply IH. split; [done|lia].
Qed.

Lemma strcmp_refl a : strcmp a a = 0.
Proof. induction a; simpl; [done|]. by rewrite Z.eqb_refl. Qed.

Lemma name_test_spec (a b : list Z) : ((length a =? length b)%nat && (strcmp b a =? 0)) = bool_decide (a = b).
Proof.
  destruct (decide (a = b)) as [->|Hne].
  - by rewrite Nat.eqb_refl, strcmp_refl, bool_decide_true.
  - rewrite bool_decide_false by done. apply andb_false_iff.
    destruct (Nat.eqb_spec (length a) (length b)); [right|by left]. apply Z.eqb_neq.
    intros E. apply Hne. symmetry. by apply strcmp_eq.
Qed.

Lemma wp_item_read p it s Q : items s !! p = Some it → Q it s → wp (item_read p) s Q.
Proof. unfold wp, item_read. by intros ->. Qed.

Lemma wp_item_write p it s Q :
  is_Some (items s !! p) → Q () (set_items (<[p := it]> (items s)) s) → wp (item_write p it) s Q.
Proof. unfold wp, item_write. by intros [? ->]. Qed.

Lemma wp_con_alloc s (Q : option Z → console → Prop) :
  (head (supply s) = Some true → Q (Some (next_block s)) (set_supply (next_block s + 1) (tail (supply s)) s)) →
  (head (supply s) ≠ Some true → Q None (set_supply (next_block s) (tail (supply s)) s)) →
  wp alloc s Q.
Proof.
  intros H1 H2. unfold wp, alloc. destruct (supply s) as [|[] sup] eqn:E; [|by apply H1|by apply H2].
  specialize (H2 ltac:(done)). unfold set_supply in H2. cbn [tail] in H2. rewrite <- E in H2. by destruct s.
Qed.

(** A frame for views: items and hints that are kept. *)
Lemma views_frame s s' l t :
  (∀ p it, p ∈ l → items s !! p = Some it → items s' !! p = Some it) →
  (∀ p it h, p ∈ l → items s !! p = Some it → hint it = Some h → hints s' !! h = hints s !! h) →
  views s l t → views s' l t.
Proof.
  intros Hi Hh Hv. unfold views in *. induction Hv as [|p e l t (it & Hp & ->) Hv IH]; constructor.
  - exists it. split; [apply Hi; [set_solver|done]|]. unfold entry_of. f_equal.
    destruct (hint it) as [h|] eqn:Eh; [|done]. simpl. symmetry. apply (Hh p it h); [set_solver|done|done].
  - apply IH; [intros q jt Hq; apply Hi; set_solver|intros q jt h Hq; apply Hh; set_solver].
Qed.

Lemma views_find s l t name :
  views s l t →
  wp (find_command l name) s (λ r s', s' = s ∧
    match r with
    | Some p => ∃ it, p ∈ l ∧ items s !! p = Some it ∧ command it = name ∧
                      tbl_find name t = Some (entry_of (hints s) it)
    | None => tbl_find name t = None ∧ Forall (λ e, e_name e ≠ name) t
    end).
Proof.
  unfold tbl_find. induction 1 as [|p e l t (it & Hp & ->) Hv IH]; simpl; [by apply wp_ret|].
  wp_step. eapply wp_item_read; [done|]. cbv beta. rewrite name_test_spec.
  change (command it) with (e_name (entry_of (hints s) it)).
  destruct (decide (e_name (entry_of (hints s) it) = name)) as [Hn|Hn].
  - rewrite bool_decide_true by done. apply wp_ret. split; [done|]. exists it. split_and!; [set_solver|done..].
  - rewrite bool_decide_false by done. eapply wp_mono; [exact IH|]. intros [q|] s' [-> H]; (split; [done|]).
    + destruct H as (jt & Hq & Hit & Hc & Hf). exists jt. split_and!; [set_solver|done|done|].
      destruct (list_find _ t) as [[i x]|]; simpl in *; congruence.
    + destruct H as [Hf Hall]. split; [|by constructor].
      by destruct (list_find _ t) as [[i x]|].
Qed.

Lemma slist_remove_spec l p : NoDup l → p ∈ l → slist_remove l p = Some (filter (λ q, q ≠ p) l).
Proof.
  induction 1 as [|q l Hq Hl IH]; [set_solver|]. intros Hp. simpl.
  destruct (Z.eqb_spec q p) as [->|Hne].
  - rewrite filter_cons_False by naive_solver. f_equal. symmetry. apply filter_all.
    apply Forall_forall. set_solver.
  - rewrite filter_cons_True by done. rewrite IH by set_solver. done.
Qed.

Lemma views_filter s l t p it :
  views s l t → items s !! p = Some it →
  (∀ q jt, q ∈ l → items s !! q = Some jt → command jt = command it → q = p) →
  views s (filter (λ q, q ≠ p) l) (tbl_remove (command it) t).
Proof.
  intros Hv Hp Hu. unfold views in *. induction Hv as [|q e l t (jt & Hq & ->) Hv IH]; [constructor|].
  unfold tbl_remove. destruct (decide (q = p)) as [->|Hne].
  - rewrite (filter_cons_False _ p) by naive_solver. rewrite filter_cons_False; [apply IH; set_solver|].
    simpl. rewrite Hp in Hq. injection Hq as <-. naive_solver.
  - rewrite (filter_cons_True _ q) by done. rewrite filter_cons_True.
    + constructor; [by eauto|]. apply IH. set_solver.
    + simpl. intros E. apply Hne. eapply Hu; [set_solver|done|done].
Qed.

(** *** Taking an item from the list *)

(** The state after an item was unlinked and its hint freed. *)
Definition unlinked (p : Z) (it : cmd_item_t) (s : console) : console :=
  let s := set_list (filter (λ q, q ≠ p) (s_cmd_list s)) s in
  match hint it with None => s | Some h => set_hints (delete h (hints s)) s end.

Lemma unlinked_hints p it s h :
  hint it ≠ Some h → hints (unlinked p it s) !! h = hints s !! h.
Proof.
  intros Hh. unfold unlinked. destruct (hint it) as [h'|]; [|done]. simpl.
  rewrite lookup_delete_ne; [done|congruence].
Qed.

Lemma unlinked_fields p it s :
  s_cmd_list (unlinked p it s) = filter (λ q, q ≠ p) (s_cmd_list s) ∧
  items (unlinked p it s) = items s ∧ next_block (unlinked p it s) = next_block s ∧
  supply (unlinked p it s) = supply s ∧ same_rest s (unlinked p it s).
Proof. unfold unlinked. by destruct (hint it). Qed.

Lemma wp_rm_item d p it s Q :
  inv d s → p ∈ s_cmd_list s → items s !! p = Some it → Q () (unlinked p it s) →
  wp (esp_console_rm_item_free_hint p) s Q.
Proof.
  intros Hinv Hp Hit HQ. unfold esp_console_rm_item_free_hint. wp_step.
  unfold wp at 1, SLIST_REMOVE. rewrite slist_remove_spec by (done || apply Hinv). wp_step.
  eapply wp_item_read; [done|]. unfold wp, hint_free. unfold unlinked in HQ.
  destruct (hint it) as [h|] eqn:Eh; [|done]. cbn [set_list hints].
  destruct (inv_hint _ _ Hinv p it h Hp Hit Eh) as [cs ->]. done.
Qed.

Lemma unlinked_inv p it s :
  inv None s → p ∈ s_cmd_list s → items s !! p = Some it → inv (Some p) (unlinked p it s).
Proof.
  intros Hinv Hp Hit. destruct (unlinked_fields p it s) as (El & Ei & En & _ & _).
  assert (∀ q jt h, q ∈ s_cmd_list s → items s !! q = Some jt → hint jt = Some h → q ≠ p → hint it ≠ Some h)
    as Hother.
  { intros q jt h Hq Hjt Hh Hne E. apply Hne. by eapply (inv_owner _ _ Hinv q p). }
  split; rewrite ?El, ?Ei, ?En.
  - apply NoDup_filter, Hinv.
  - intros q. rewrite (inv_items _ _ Hinv), list_elem_of_filter. destruct (decide (q = p)); naive_solver.
  - intros q [= <-]. rewrite list_elem_of_filter. naive_solver.
  - intros q r jt kt [_ Hq]%list_elem_of_filter [_ Hr]%list_elem_of_filter. by apply (inv_names _ _ Hinv).
  - intros q jt h [Hne Hq]%list_elem_of_filter Hjt Hh. rewrite unlinked_hints by (by eapply Hother).
    by eapply (inv_hint _ _ Hinv q).
  - intros q r jt kt h [_ Hq]%list_elem_of_filter [_ Hr]%list_elem_of_filter. by apply (inv_owner _ _ Hinv).
  - intros h Hh. assert (hint it ≠ Some h) as Hne.
    { intros E. unfold unlinked in Hh. rewrite E in Hh. simpl in Hh. rewrite lookup_delete_eq in Hh. by destruct Hh. }
    rewrite unlinked_hints in Hh by done. destruct (inv_used _ _ Hinv h Hh) as (q & jt & Hq & Hjt & Hj).
    exists q, jt. rewrite list_elem_of_filter. split_and!; try done. intros ->. congruence.
  - intros q Hq. destruct (inv_fresh _ _ Hinv q Hq) as [H1 H2]. split; [done|]. unfold unlinked.
    destruct (hint it); [|done]. simpl. by rewrite lookup_delete_None; right.
Qed.

Lemma unlinked_views p it s t :
  rep s t → p ∈ s_cmd_list s → items s !! p = Some it →
  views (unlinked p it s) (s_cmd_list (unlinked p it s)) (tbl_remove (command it) t).
Proof.
  intros [Hinv Hv] Hp Hit. destruct (unlinked_fields p it s) as (El & Ei & _).
  eapply (views_frame s); [by rewrite Ei| |].
  - intros q jt h Hq Hjt Hh. rewrite El in Hq. apply list_elem_of_filter in Hq as [Hne Hq].
    apply unlinked_hints. intros E. apply Hne. by eapply (inv_owner _ _ Hinv q p).
  - rewrite El. eapply views_filter; [done|done|]. intros q jt Hq Hjt E.
    by eapply (inv_names _ _ Hinv q p).
Qed.

(** *** Putting an item on the list *)

(** The state after a hint was made, the item [p] written and linked at position [k]. *)
Definition with_hint (ho : option (list Z)) (sup : list bool) (s : console) : console :=
  match ho with
  | None => set_supply (next_block s) sup s
  | Some cs => set_hints (<[next_block s := cs]> (hints s)) (set_supply (next_block s + 1) sup s)
  end.
Definition linked (p : Z) (it : cmd_item_t) (k : nat) (s : console) : console :=
  set_list (take k (s_cmd_list s) ++ p :: drop k (s_cmd_list s)) (set_items (<[p := it]> (items s)) s).

Lemma elem_of_linked p k (l : list Z) q : q ∈ take k l ++ p :: drop k l ↔ q = p ∨ q ∈ l.
Proof. rewrite elem_of_app, elem_of_cons. rewrite <- (take_drop k l) at 3. rewrite elem_of_app. tauto. Qed.

Lemma with_hint_fields ho sup s :
  s_cmd_list (with_hint ho sup s) = s_cmd_list s ∧ items (with_hint ho sup s) = items s ∧
  next_block s ≤ next_block (with_hint ho sup s) ∧ same_rest s (with_hint ho sup s).
Proof. destruct ho; simpl; split_and!; try done; lia. Qed.

Lemma with_hint_kept d ho sup s h cs :
  inv d s → hints s !! h = Some cs → hints (with_hint ho sup s) !! h = Some cs ∧ h ≠ next_block s.
Proof.
  intros Hinv Hh. assert (h ≠ next_block s).
  { intros ->. destruct (inv_fresh _ _ Hinv (next_block s)); [lia|congruence]. }
  split; [|done]. destruct ho; simpl; [|done]. by rewrite lookup_insert_ne.
Qed.

Section attach.
Context (p : Z) (it : cmd_item_t) (k : nat) (ho : option (list Z)) (sup : list bool).
Context (s : console) (t : list entry).
Hypothesis Hinv : inv (Some p) s.
Hypothesis Hv : views s (s_cmd_list s) t.
Hypothesis Hname : Forall (λ e, e_name e ≠ command it) t.
Hypothesis Hhint : hint it = (λ _, next_block s) <$> ho.

Abbreviation s' := (linked p it k (with_hint ho sup s)).

Lemma attach_not_in : p ∉ s_cmd_list s.
Proof. by apply (inv_detached _ _ Hinv). Qed.

Lemma attach_other q jt : q ∈ s_cmd_list s → items s !! q = Some jt →
  command jt ≠ command it ∧ (∀ h, hint jt = Some h → hint it ≠ Some h).
Proof.
  intros Hq Hjt. split.
  - unfold views in Hv. apply list_elem_of_lookup in Hq as [i Hi].
    destruct (Forall2_lookup_l _ _ _ _ _ Hv Hi) as (e & He & jt' & Hjt' & ->).
    rewrite Hjt in Hjt'. injection Hjt' as <-.
    by apply (proj1 (Forall_lookup _ _) Hname i _ He).
  - intros h Hh Hit. destruct (inv_hint _ _ Hinv q jt h Hq Hjt Hh) as [cs Hcs].
    destruct (with_hint_kept _ ho sup s h cs Hinv Hcs) as [_ Hne]. rewrite Hhint in Hit.
    destruct ho; simplify_eq/=.
Qed.

Lemma attach_items q : items s' !! q = if decide (q = p) then Some it else items s !! q.
Proof.
  unfold linked. simpl. destruct (with_hint_fields ho sup s) as (_ & -> & _).
  destruct (decide (q = p)) as [->|]; [by rewrite lookup_insert_eq|by rewrite lookup_insert_ne].
Qed.

Lemma attach_case q jt :
  (q = p ∨ q ∈ s_cmd_list s) → items s' !! q = Some jt →
  (q = p ∧ jt = it) ∨ (q ≠ p ∧ q ∈ s_cmd_list s ∧ items s !! q = Some jt).
Proof.
  rewrite attach_items. intros Hq Hjt. destruct (decide (q = p)) as [->|Hne]; [left; naive_solver|].
  right. destruct Hq; [done|]. done.
Qed.

Lemma attach_hints h : is_Some (hints s' !! h) ↔ is_Some (hints s !! h) ∨ hint it = Some h.
Proof.
  rewrite Hhint. unfold linked. destruct ho as [cs|]; simpl; [|naive_solver].
  destruct (decide (h = next_block s)) as [->|Hne].
  - rewrite lookup_insert_eq. naive_solver.
  - rewrite lookup_insert_ne by done. naive_solver.
Qed.

Lemma attach_hint_kept q jt h : q ∈ s_cmd_list s → items s !! q = Some jt → hint jt = Some h →
  hints s' !! h = hints s !! h.
Proof.
  intros Hq Hjt Hh. destruct (inv_hint _ _ Hinv q jt h Hq Hjt Hh) as [cs Hcs].
  rewrite Hcs. by apply (with_hint_kept _ _ _ _ _ _ Hinv).
Qed.

Lemma attach_list : s_cmd_list s' = take k (s_cmd_list s) ++ p :: drop k (s_cmd_list s).
Proof. unfold linked. simpl. by destruct (with_hint_fields ho sup s) as (-> & _). Qed.

Lemma attach_inv : inv None s'.
Proof.
  pose proof attach_not_in as Hp. split; rewrite ?attach_list.
  - rewrite <- Permutation_middle, take_drop. constructor; [done|apply Hinv].
  - intros q. rewrite elem_of_linked, attach_items. pose proof (inv_items _ _ Hinv q) as Hi.
    destruct (decide (q = p)); naive_solver.
  - done.
  - intros q r jt kt Hq Hr Hjt Hkt E. rewrite elem_of_linked in Hq, Hr.
    apply attach_case in Hjt; [|done]. apply attach_case in Hkt; [|done].
    destruct Hjt as [[-> ->]|(? & ? & Hjt)], Hkt as [[-> ->]|(? & ? & Hkt)]; [done|..].
    + by destruct (attach_other r kt) as [? _].
    + by destruct (attach_other q jt) as [? _].
    + by eapply (inv_names _ _ Hinv).
  - intros q jt h Hq Hjt Hh. rewrite elem_of_linked in Hq. apply attach_hints.
    apply attach_case in Hjt as [[-> ->]|(? & ? & Hjt)]; [by right| |done].
    left. by eapply (inv_hint _ _ Hinv).
  - intros q r jt kt h Hq Hr Hjt Hkt H1 H2. rewrite elem_of_linked in Hq, Hr.
    apply attach_case in Hjt; [|done]. apply attach_case in Hkt; [|done].
    destruct Hjt as [[-> ->]|(? & ? & Hjt)], Hkt as [[-> ->]|(? & ? & Hkt)]; [done|..].
    + by destruct (proj2 (attach_other r kt ltac:(done) Hkt) h).
    + by destruct (proj2 (attach_other q jt ltac:(done) Hjt) h).
    + by eapply (inv_owner _ _ Hinv).
  - intros h. rewrite attach_hints. intros [Hh|Hh].
    + destruct (inv_used _ _ Hinv h Hh) as (q & jt & Hq & Hjt & Hj). exists q, jt.
      rewrite elem_of_linked, attach_items, decide_False by naive_solver. auto.
    + exists p, it. rewrite elem_of_linked, attach_items, decide_True by done. auto.
  - intros q Hq. destruct (with_hint_fields ho sup s) as (_ & _ & Hn & _).
    change (next_block s') with (next_block (with_hint ho sup s)) in Hq.
    destruct (inv_fresh _ _ Hinv q) as [H1 H2]; [lia|]. rewrite attach_items.
    destruct (decide (q = p)) as [->|].
    + destruct (proj2 (inv_items _ _ Hinv p) (or_intror eq_refl)). congruence.
    + split; [done|]. destruct (hints s' !! q) eqn:E; [|done].
      destruct (proj1 (attach_hints q)) as [[? ?]|Hh]; [by rewrite E|congruence|].
      rewrite Hhint in Hh. destruct ho; simplify_eq/=. lia.
Qed.

Lemma attach_rep : rep s' (take k t ++ entry_of (hints s') it :: drop k t).
Proof.
  split; [apply attach_inv|]. rewrite attach_list.
  assert (views s' (s_cmd_list s) t) as Hv'.
  { eapply views_frame; [..|exact Hv].
    - intros q jt Hq Hjt. rewrite attach_items, decide_False; [done|].
      intros ->. by apply attach_not_in.
    - apply attach_hint_kept. }
  unfold views in *. apply Forall2_app; [by apply Forall2_take|]. constructor; [|by apply Forall2_drop].
  exists it. by rewrite attach_items, decide_True.
Qed.
End attach.

(** *** The place of a command *)

Definition tbl_pos (sorted : bool) (name : list Z) (t : list entry) : nat :=
  if sorted then tbl_sorted_pos name t else length t.

Lemma last_not_after_spec s l t name last :
  views s l t →
  wp (last_not_after l name last) s (λ r s', s' = s ∧
    r = match tbl_sorted_pos name t with O => last | S i => l !! i end).
Proof.
  intros Hv. revert last. unfold views in Hv.
  induction Hv as [|p e l t (it & Hp & ->) Hv IH]; intros last; simpl; [by apply wp_ret|].
  wp_step. eapply wp_item_read; [done|]. change (command it) with (e_name (entry_of (hints s) it)).
  destruct (0 <? _); [by apply wp_ret|].
  eapply wp_mono; [apply IH|]. intros r s' [-> ->]. split; [done|].
  by destruct (tbl_sorted_pos name t).
Qed.

Lemma insert_after_spec l q p i :
  NoDup l → l !! i = Some q → insert_after l q p = take (S i) l ++ p :: drop (S i) l.
Proof.
  intros Hl. revert i. induction Hl as [|x l Hx Hl IH]; intros i Hi; [done|]. simpl.
  destruct i as [|i]; simpl in Hi.
  - injection Hi as ->. by rewrite Z.eqb_refl.
  - destruct (Z.eqb_spec x q) as [->|]; [|by rewrite (IH i)].
    exfalso. apply Hx. by eapply list_elem_of_lookup_2.
Qed.

Lemma tbl_sorted_pos_le name t : (tbl_sorted_pos name t ≤ length t)%nat.
Proof. induction t; simpl; [lia|]. destruct (0 <? _); simpl; lia. Qed.

Lemma link_item_spec sorted p name s t :
  NoDup (s_cmd_list s) → views s (s_cmd_list s) t →
  let k := tbl_pos sorted name t in
  wp (link_item sorted p name) s (λ _ s',
    s' = set_list (take k (s_cmd_list s) ++ p :: drop k (s_cmd_list s)) s).
Proof.
  intros Hnd Hv k. unfold link_item. wp_steps.
  assert (∀ r, r = match k with O => None | S i => s_cmd_list s !! i end →
    wp (modify (λ s, set_list (match r with
                               | None => p :: s_cmd_list s
                               | Some q => insert_after (s_cmd_list s) q p
                               end) s)) s
      (λ _ s', s' = set_list (take k (s_cmd_list s) ++ p :: drop k (s_cmd_list s)) s)) as Hend.
  { intros r ->. apply wp_modify. destruct k as [|i] eqn:Ek; [by rewrite drop_0|].
    assert (k ≤ length (s_cmd_list s))%nat.
    { rewrite (Forall2_length _ _ _ Hv). subst k. unfold tbl_pos. destruct sorted; [apply tbl_sorted_pos_le|lia]. }
    destruct (lookup_lt_is_Some_2 (s_cmd_list s) i) as [q Hq]; [lia|].
    by rewrite Hq, (insert_after_spec _ _ _ i). }
  destruct sorted.
  - eapply wp_mono; [by eapply last_not_after_spec|]. intros r s' [-> ->]. by apply Hend.
  - apply wp_ret, Hend. subst k. unfold tbl_pos. rewrite last_lookup, (Forall2_length _ _ _ Hv).
    destruct (length t) eqn:E; [|done]. rewrite <- (Forall2_length _ _ _ Hv) in E.
    by apply nil_length_inv in E as ->.
Qed.

(** *** Registering *)

Definition valid_cmd (cmd : esp_console_cmd_t) (name : list Z) : Prop :=
  c_command cmd = Some name ∧ SPACE ∉ name ∧
  ((∃ f, c_func cmd = Some f ∧ c_func_w_context cmd = None) ∨
   (∃ f, c_func cmd = None ∧ c_func_w_context cmd = Some f)).

Section register.
Context (sorted : bool) (syntax : Z → list Z).

(** The text of the hint of a command. *)
Definition hint_text (cmd : esp_console_cmd_t) : option (list Z) :=
  match c_hint cmd with
  | Some h => Some (SPACE :: h)
  | None => syntax <$> c_argtable cmd
  end.

(** The hint that is made, with the answers of allocations [sup]: the text, or none when
    memory runs out. *)
Definition hint_made (cmd : esp_console_cmd_t) (sup : list bool) : option (list Z) :=
  if decide (head sup = Some true) then hint_text cmd else None.

(** What the code leaves in the item: the new function; the other kind of function and, for
    a function without context, the context stay what they were. *)
Definition register_entry (cmd : esp_console_cmd_t) (name : list Z) (ho : option (list Z)) (old : option entry)
    : entry :=
  match c_func cmd with
  | Some f => mkEntry name (c_help cmd) ho (Some f) (e ← old; e_func_ctx e) (c_argtable cmd)
                (default 0 (e_context <$> old))
  | None => mkEntry name (c_help cmd) ho (e ← old; e_func e) (c_func_w_context cmd) (c_argtable cmd) (c_context cmd)
  end.

(** The entry of a command as it was described; a command without context has any. *)
Definition command_entry (cmd : esp_console_cmd_t) (name : list Z) (ho : option (list Z)) (ctx : Z) : entry :=
  mkEntry name (c_help cmd) ho (c_func cmd) (c_func_w_context cmd) (c_argtable cmd) ctx.

(** A command that is registered again must be of the same kind, with or without context. *)
Definition same_kind (cmd : esp_console_cmd_t) (old : option entry) : Prop :=
  ∀ e, old = Some e → (c_func cmd = None → e_func e = None) ∧ (c_func_w_context cmd = None → e_func_ctx e = None).

Lemma register_entry_command cmd name ho old :
  valid_cmd cmd name → same_kind cmd old →
  ∃ ctx, register_entry cmd name ho old = command_entry cmd name ho ctx ∧
         (c_func_w_context cmd ≠ None → ctx = c_context cmd).
Proof.
  unfold same_kind, register_entry, command_entry.
  intros (_ & _ & [(f & Hf & Hc)|(f & Hf & Hc)]) Hk; rewrite Hf, Hc in *.
  - exists (default 0 (e_context <$> old)). split; [|done]. destruct old as [e|]; [|done].
    destruct (Hk e eq_refl) as [_ Hn]. simpl. by rewrite Hn.
  - exists (c_context cmd). split; [|done]. destruct old as [e|]; [|done].
    destruct (Hk e eq_refl) as [Hn _]. simpl. by rewrite Hn.
Qed.

(** A command that is registered again must get a hint in place of the one that is
    freed. *)
Definition hint_safe (cmd : esp_console_cmd_t) (old : option entry) (s : console) : Prop :=
  ∀ e, old = Some e → e_hint e = None ∨ (c_hint cmd = None ∧ c_argtable cmd ≠ None) ∨
                      (c_hint cmd ≠ None ∧ head (supply s) = Some true).

Lemma make_hint_spec cmd old s :
  wp (make_hint syntax cmd old) s (λ h s', ∃ sup,
    s' = with_hint (hint_made cmd (supply s)) sup s ∧
    (old = None ∨ (c_hint cmd = None ∧ c_argtable cmd ≠ None) ∨
       (c_hint cmd ≠ None ∧ head (supply s) = Some true) →
     h = (λ _, next_block s) <$> hint_made cmd (supply s))).
Proof.
  unfold make_hint, hint_made, hint_text.
  destruct (c_hint cmd) as [h|]; [|destruct (c_argtable cmd) as [tb|]]; unfold new_string.
  - wp_steps. apply wp_con_alloc; intros Hs.
    + rewrite decide_True by done. wp_steps. exists (tail (supply s)). by split.
    + rewrite decide_False by done. wp_steps. exists (tail (supply s)). split; [done|naive_solver].
  - wp_steps. apply wp_con_alloc; intros Hs.
    + rewrite decide_True by done. wp_steps. exists (tail (supply s)). by split.
    + rewrite decide_False by done. wp_steps. exists (tail (supply s)). by split.
  - apply wp_ret. exists (supply s). replace (if decide _ then _ else _) with (@None (list Z)) by by case_decide.
    split; [by destruct s|naive_solver].
Qed.

(** From an item off the list to the end of the registration. *)
Lemma register_tail cmd name p it0 (old : option entry) s t :
  inv (Some p) s → views s (s_cmd_list s) t → items s !! p = Some it0 →
  Forall (λ e, e_name e ≠ name) t →
  func it0 = (e ← old; e_func e) → func_w_context it0 = (e ← old; e_func_ctx e) →
  context it0 = default 0 (e_context <$> old) →
  (hint it0 = None ∨ (c_hint cmd = None ∧ c_argtable cmd ≠ None) ∨
     (c_hint cmd ≠ None ∧ head (supply s) = Some true)) →
  wp (it ← item_read p;
      h ← make_hint syntax cmd (hint it);
      item_write p
        (match c_func cmd with
         | Some f => mkItem name (c_help cmd) h (Some f) (func_w_context it) (c_argtable cmd) (context it)
         | None => mkItem name (c_help cmd) h (func it) (c_func_w_context cmd) (c_argtable cmd) (c_context cmd)
         end);;
      link_item sorted p name;;
      mret ESP_OK) s (λ r s', r = ESP_OK ∧ same_rest s s' ∧
        rep s' (tbl_insert sorted (register_entry cmd name (hint_made cmd (supply s)) old) t)).
Proof.
  intros Hinv Hv Hit Hname Hf Hfc Hctx Hsafe. wp_step. eapply wp_item_read; [done|]. wp_step.
  eapply wp_mono; [apply make_hint_spec|]. intros h s1 (sup & -> & Hh).
  set (ho := hint_made cmd (supply s)) in *. specialize (Hh Hsafe). destruct (with_hint_fields ho sup s) as (Hl & Hi & _ & Hrest). wp_step.
  set (it := match c_func cmd with Some _ => _ | None => _ end).
  apply wp_item_write; [by rewrite Hi, Hit|]. wp_step.
  assert (command it = name ∧ hint it = h) as [Hc Hhi] by (subst it; by destruct (c_func cmd)).
  eapply wp_mono; [eapply (link_item_spec _ _ _ _ t)|].
  - simpl. rewrite Hl. apply Hinv.
  - simpl. rewrite Hl. eapply views_frame; [..|exact Hv].
    + intros q jt Hq Hjt. simpl. rewrite Hi, lookup_insert_ne; [done|].
      intros ->. by apply (inv_detached _ _ Hinv q).
    + intros q jt hh Hq Hjt Hhh. destruct (inv_hint _ _ Hinv q jt hh Hq Hjt Hhh) as [cs Hcs].
      rewrite Hcs. simpl. by eapply with_hint_kept.
  - intros _ s2 ->. apply wp_ret. split_and!; [done|done|].
    pose proof (attach_rep p it (tbl_pos sorted name t) ho sup s t Hinv Hv) as Hrep.
    rewrite Hc, Hhi, Hh in Hrep. specialize (Hrep Hname eq_refl).
    unfold tbl_insert, register_entry.
    assert (entry_of (hints (linked p it (tbl_pos sorted name t) (with_hint ho sup s))) it =
            register_entry cmd name ho old) as He.
    { unfold entry_of. rewrite Hc, Hhi, Hh. unfold linked, register_entry. simpl.
      replace (h0 ← (λ _, next_block s) <$> ho; hints (with_hint ho sup s) !! h0) with ho.
      - subst it. rewrite Hf, Hfc, Hctx. by destruct (c_func cmd).
      - destruct ho; simpl; [by rewrite lookup_insert_eq|done]. }
    rewrite He in Hrep. unfold register_entry, tbl_pos in Hrep.
    destruct (c_func cmd); exact Hrep.
Qed.
End register.
