(* ===== verification/ConsoleProps.v ===== *)
(** * Console: properties of the commands

    Registering, removing and running commands in terms of the table of [ConsoleSpec],
    and the case in which registering a command again leaves a pointer to freed memory. *)
From Stdlib Require Import ZArith Lia.
From stdpp Require Import base numbers option list gmap.
From S2P Require Import Prelude ConsoleSplit ConsoleCmd ConsoleSpec.

(** ** Lemmas *)

Lemma tbl_remove_names name t : Forall (λ e, e_name e ≠ name) (tbl_remove name t).
Proof. apply Forall_forall. intros e [H _]%list_elem_of_filter. done. Qed.

Lemma tbl_remove_absent name t : Forall (λ e, e_name e ≠ name) t → tbl_remove name t = t.
Proof. intros. by apply filter_all. Qed.

Lemma same_rest_trans s1 s2 s3 : same_rest s1 s2 → same_rest s2 s3 → same_rest s1 s3.
Proof. unfold same_rest. intros (-> & -> & -> & ->) (-> & -> & -> & ->). done. Qed.

(** A new item of zeros, off the list. *)
Lemma new_item_inv it sup s : inv None s →
  inv (Some (next_block s))
    (set_items (<[next_block s := it]> (items s)) (set_supply (next_block s + 1) sup s)).
Proof.
  intros Hinv. destruct (inv_fresh _ _ Hinv (next_block s)) as [Hf _]; [lia|].
  assert (∀ q, q ∈ s_cmd_list s → q ≠ next_block s) as Hne.
  { intros q Hq ->. destruct (proj2 (inv_items _ _ Hinv (next_block s)) (or_introl Hq)). congruence. }
  split; simpl.
  - apply Hinv.
  - intros q. destruct (decide (q = next_block s)) as [->|Hq].
    + rewrite lookup_insert_eq. naive_solver.
    + rewrite lookup_insert_ne by done. rewrite (inv_items _ _ Hinv). naive_solver.
  - intros q [= <-] Hq. by apply Hne in Hq.
  - intros q r jt kt Hq Hr. rewrite !lookup_insert_ne by (symmetry; auto). by apply (inv_names _ _ Hinv).
  - intros q jt h Hq. rewrite lookup_insert_ne by (symmetry; auto). by apply (inv_hint _ _ Hinv).
  - intros q r jt kt h Hq Hr. rewrite !lookup_insert_ne by (symmetry; auto). by apply (inv_owner _ _ Hinv).
  - intros h Hh. destruct (inv_used _ _ Hinv h Hh) as (q & jt & Hq & Hjt & Hj). exists q, jt.
    rewrite lookup_insert_ne by (symmetry; auto). done.
  - intros q Hq. rewrite lookup_insert_ne by lia. apply (inv_fresh _ _ Hinv). lia.
Qed.

Lemma supply_inv d sup s : inv d s → inv d (set_supply (next_block s) sup s).
Proof. intros []. by split. Qed.

(** *** Removing *)

Lemma freed_inv p s : inv (Some p) s → inv None (set_items (delete p (items s)) s).
Proof.
  intros Hinv. pose proof (inv_detached _ _ Hinv p eq_refl) as Hp.
  assert (∀ q, q ∈ s_cmd_list s → p ≠ q) as Hne by (intros q Hq ->; done).
  split; simpl.
  - apply Hinv.
  - intros q. destruct (decide (q = p)) as [->|Hq].
    + rewrite lookup_delete_eq. split; [by intros []|naive_solver].
    + rewrite lookup_delete_ne by done. rewrite (inv_items _ _ Hinv). naive_solver.
  - done.
  - intros q r jt kt Hq Hr. rewrite !lookup_delete_ne by auto. by apply (inv_names _ _ Hinv).
  - intros q jt h Hq. rewrite lookup_delete_ne by auto. by apply (inv_hint _ _ Hinv).
  - intros q r jt kt h Hq Hr. rewrite !lookup_delete_ne by auto. by apply (inv_owner _ _ Hinv).
  - intros h Hh. destruct (inv_used _ _ Hinv h Hh) as (q & jt & Hq & Hjt & Hj). exists q, jt.
    rewrite lookup_delete_ne by auto. done.
  - intros q Hq. destruct (inv_fresh _ _ Hinv q Hq) as [H1 H2]. split; [|done].
    by rewrite lookup_delete_None; right.
Qed.

Lemma remove_item_rep p it s t :
  rep s t → p ∈ s_cmd_list s → items s !! p = Some it →
  rep (set_items (delete p (items (unlinked p it s))) (unlinked p it s)) (tbl_remove (command it) t).
Proof.
  intros Hrep Hp Hit. destruct (unlinked_fields p it s) as (El & Ei & _).
  pose proof (unlinked_inv p it s (proj1 Hrep) Hp Hit) as Hi.
  split; [by apply freed_inv|]. eapply views_frame; [..|by eapply unlinked_views]; [|done].
  intros q jt Hq Hjt. simpl. rewrite lookup_delete_ne; [done|].
  intros <-. by apply (inv_detached _ _ Hi p).
Qed.

Lemma wp_item_free p s Q :
  is_Some (items s !! p) → Q () (set_items (delete p (items s)) s) → wp (item_free p) s Q.
Proof. unfold wp, item_free. by intros [? ->]. Qed.

(** *** Removing all *)

Lemma filter_head p (l : list Z) : NoDup (p :: l) → filter (λ q, q ≠ p) (p :: l) = l.
Proof.
  intros [Hp Hl]%NoDup_cons. rewrite filter_cons_False by naive_solver.
  apply filter_all, Forall_forall. intros q Hq ->. done.
Qed.

Lemma deinit_items_spec l s t :
  s_cmd_list s = l → rep s t →
  wp (deinit_items l) s (λ _ s', rep s' [] ∧ same_rest s s').
Proof.
  revert s t. induction l as [|p l IH]; intros s t Hl Hrep.
  { apply wp_ret. destruct Hrep as [Hinv Hv]. split; [split; [done|]|done]. rewrite Hl. constructor. }
  assert (p ∈ s_cmd_list s) as Hp by (rewrite Hl; set_solver).
  destruct (proj2 (inv_items _ _ (proj1 Hrep) p) (or_introl Hp)) as [it Hit].
  destruct (unlinked_fields p it s) as (El & Ei & _ & _ & Hrest).
  cbn [deinit_items].
  assert (wp (esp_console_rm_item_free_hint p) s (λ _ s', wp (item_free p;; deinit_items l) s'
            (λ _ s', rep s' [] ∧ same_rest s s'))) as H.
  { eapply wp_rm_item; [apply Hrep|done..|]. wp_step. apply wp_item_free; [by rewrite Ei, Hit|].
    eapply wp_mono; [eapply IH; [|by apply remove_item_rep]|].
    - simpl. rewrite El, Hl. apply filter_head. rewrite <- Hl. apply Hrep.
    - intros _ s' [? ?]. split; [done|]. eapply same_rest_trans; [exact Hrest|done]. }
  clear -H. unfold esp_console_rm_item_free_hint, wp, mbind, M_bind in *.
  destruct (SLIST_REMOVE p s) as [s1 []| | |]; try done. destruct (item_read p s1) as [s2 it| | |]; try done.
  destruct (hint_free (hint it) s2) as [s3 []| | |]; done.
Qed.

(** An empty table owns nothing. *)
Lemma rep_empty s : rep s [] → s_cmd_list s = [] ∧ items s = ∅ ∧ hints s = ∅.
Proof.
  intros [Hinv Hv]. assert (s_cmd_list s = []) as El by by eapply Forall2_nil_inv_r. split; [done|].
  assert (∀ p, items s !! p = None) as Hi.
  { intros p. apply eq_None_not_Some. rewrite (inv_items _ _ Hinv), El. set_solver. }
  split; apply map_eq; intros p; rewrite lookup_empty; [done|].
  apply eq_None_not_Some. intros (q & it & Hq & _)%(inv_used _ _ Hinv). rewrite El in Hq. set_solver.
Qed.

(** *** Running *)

(** The arguments of a command line: what fits into the buffer and into [argv]. *)
Definition line_args (c : esp_console_config_t) (cmdline : list Z) : list (list Z) :=
  take (Z.to_nat (max_cmdline_args c - 1)) (words (take (Z.to_nat (max_cmdline_length c - 1)) cmdline)).

(** The function of a command with its context, when it has exactly one. *)
Definition entry_fn (e : entry) : option (Z * option Z) :=
  match e_func e, e_func_ctx e with
  | Some f, None => Some (f, None)
  | None, Some f => Some (f, Some (e_context e))
  | _, _ => None
  end.

Lemma rep_frame s s' t :
  s_cmd_list s' = s_cmd_list s → items s' = items s → hints s' = hints s → next_block s ≤ next_block s' →
  rep s t → rep s' t.
Proof.
  intros El Ei Eh En [Hinv Hv]. split.
  - destruct Hinv. split; rewrite ?El, ?Ei, ?Eh; try done. intros p Hp. apply inv_fresh. lia.
  - unfold views in *. by rewrite El, Ei, Eh.
Qed.

(** Copying the line into the buffer and splitting it there. *)
Lemma split_line_spec buf cmdline size n s :
  Forall (λ c, 0 < c) cmdline → 1 ≤ size → zlen buf = size → 1 ≤ n < 2 ^ 32 →
  let args := take (Z.to_nat (n - 1)) (words (take (Z.to_nat (size - 1)) cmdline)) in
  wp (buf ← strlcpy buf cmdline size; split_line buf n) s (λ '(argc, av) s',
    argc = zlen args ∧ ∃ buf', s' = set_line_buf (Some buf') s ∧ args_of (SplitMem buf' av) argc = Some args).
Proof.
  intros Hcs Hsize Hbuf Hn args. unfold strlcpy. rewrite (proj2 (Z.eqb_neq size 0)) by lia.
  set (k := Nat.min (length cmdline) (Z.to_nat (size - 1))).
  rewrite decide_True by (unfold zlen in Hbuf; lia). wp_steps. unfold split_line.
  assert (take k cmdline = take (Z.to_nat (size - 1)) cmdline) as ->.
  { subst k. by rewrite <- take_take, take_ge by (rewrite length_take; lia). }
  set (m0 := SplitMem _ _).
  assert (wp (ConsoleSplit.esp_console_split_argv n) m0 (λ k m, k = zlen args ∧ args_of m k = Some args)) as H.
  { eapply split_args_of; [done|by apply Forall_take| |done]. unfold zlen. simpl. rewrite length_replicate. lia. }
  unfold wp in *. destruct (ConsoleSplit.esp_console_split_argv n m0) as [m j| | |]; try done.
  destruct H as [-> Hargs]. split; [done|]. exists (line m). split; [done|]. destruct m. exact Hargs.
Qed.

Lemma args_of_head m n a args :
  args_of m n = Some (a :: args) → ∃ p av, argv m = p :: av ∧ string_at (line m) p = Some a.
Proof.
  unfold args_of. intros H%mapM_Some. destruct (argv m) as [|p av]; [by rewrite take_nil in H; inversion H|].
  destruct (Z.to_nat n); inversion H; subst. eauto.
Qed.

(** The part of [esp_console_run] that has found its command. *)
Definition run_found (call : Z → option Z → Z → list (option nat) → CON (Z * list (option nat)))
    (p argc : Z) (av : list (option nat)) : CON (esp_err_t * option Z) :=
  it ← item_read p;
  '(r, av) ← call_if call (func it) None argc av None;
  it ← item_read p;
  '(r, av) ← call_if call (func_w_context it) (Some (context it)) argc av r;
  free_argv;; mret (ESP_OK, r).

(** It calls the function of the command once and returns its answer, when the item is still
    there where it is read again. *)
Lemma run_found_calls call p it argc av f ctx s s2 x av2 :
  items s !! p = Some it → entry_fn (entry_of (hints s) it) = Some (f, ctx) →
  call f ctx argc av s = Done s2 (x, av2) → (ctx = None → items s2 !! p = Some it) →
  run_found call p argc av s = Done (add_blocks (-1) s2) (ESP_OK, Some x).
Proof.
  unfold entry_fn, run_found. simpl. intros Hit Hfn Hcall Hkeep.
  unfold mbind at 1, M_bind at 1, item_read at 1. rewrite Hit. unfold call_if.
  destruct (func it) as [f1|] eqn:Ef, (func_w_context it) as [f2|] eqn:Ec; simplify_eq;
    unfold mbind, M_bind, mret, M_ret, item_read; [rewrite Hcall, Hkeep, Ec by done|rewrite Hit, Ec, Hcall]; done.
Qed.

(** A command without context that frees its own item makes the code read a freed item. *)
Lemma run_found_freed call p it argc av f s s2 x av2 :
  items s !! p = Some it → func it = Some f → call f None argc av s = Done s2 (x, av2) → items s2 !! p = None →
  run_found call p argc av s = MemFault.
Proof.
  unfold run_found. intros Hit Hf Hcall Hgone. unfold call_if, mbind, M_bind, mret, M_ret, item_read.
  rewrite Hit. cbv beta iota. rewrite Hf. cbv beta iota. rewrite Hcall. cbv beta iota. by rewrite Hgone.
Qed.

(** The state in which the function of a command is called: the array is allocated and the
    buffer holds the line, cut into arguments. *)
Definition called_state (s : console) (buf : list Z) : console :=
  set_line_buf (Some buf) (add_blocks 1 (set_supply (next_block s + 1) (tail (supply s)) s)).

(** Up to the search for the command. *)
Lemma run_splits call cmdline s t buf :
  rep s t → s_tmp_line_buf s = Some buf → zlen buf = max_cmdline_length (s_config s) →
  Forall (λ c, 0 < c) cmdline → 1 ≤ max_cmdline_length (s_config s) → 1 ≤ max_cmdline_args (s_config s) < 2 ^ 32 →
  head (supply s) = Some true →
  ∃ argc av buf', let s1 := called_state s buf' in
    argc = zlen (line_args (s_config s) cmdline) ∧ rep s1 t ∧
    args_of (SplitMem buf' av) argc = Some (line_args (s_config s) cmdline) ∧
    esp_console_run call cmdline s =
      match line_args (s_config s) cmdline with
      | [] => Done (add_blocks (-1) s1) (ESP_ERR_INVALID_ARG, None)
      | name :: _ => (cmd ← find_command_by_name name;
                      match cmd with
                      | None => free_argv;; mret (ESP_ERR_NOT_FOUND, None)
                      | Some p => run_found call p argc av
                      end) s1
      end.
Proof.
  intros Hrep Hbuf Hlen Hcs Hsize Hn Hsup. destruct (supply s) as [|[] sup] eqn:Esup; try done.
  pose proof (split_line_spec buf cmdline _ _ (add_blocks 1 (set_supply (next_block s + 1) sup s)) Hcs Hsize Hlen Hn) as H.
  cbv zeta in H. fold (line_args (s_config s) cmdline) in H.
  apply wp_done in H as ([argc av] & s1 & Hrun & -> & buf' & -> & Hargs).
  set (args := line_args (s_config s) cmdline) in *.
  exists (zlen args), av, buf'. unfold called_state. rewrite Esup. cbn [tail].
  split_and!; [done|eapply rep_frame; [..|exact Hrep]; done || simpl; lia|done|].
  unfold esp_console_run, mbind at 1, M_bind at 1, get. rewrite Hbuf.
  unfold mbind at 1, M_bind at 1, alloc. rewrite Esup. unfold modify, mbind at 1, M_bind at 1.
  revert Hrun. unfold mbind at 1 2 3, M_bind at 1 2 3.
  destruct (strlcpy _ _ _ _) as [s2 b| | |] eqn:Ecpy; try done. intros Hrun. rewrite Hrun.
  destruct args as [|name rest] eqn:Eargs; [done|].
  rewrite (proj2 (Z.eqb_neq _ 0)) by (rewrite zlen_cons; pose proof (zlen_nonneg rest); lia).
  destruct (args_of_head _ _ _ _ Hargs) as (p0 & av' & Hav & Hstr). simpl in Hav, Hstr. subst av.
  unfold mbind at 1, M_bind at 1, read_arg0 at 1. cbn [s_tmp_line_buf set_line_buf]. by rewrite Hstr.
Qed.

(** *** A hint that is freed and kept *)

(** The state after a command was registered again without a hint: its item still has the
    pointer to the old one. *)
Definition stale (p : Z) (name : list Z) (h : Z) (s : console) : Prop :=
  NoDup (s_cmd_list s) ∧ p ∈ s_cmd_list s ∧ hints s !! h = None ∧
  (∃ it, items s !! p = Some it ∧ hint it = Some h) ∧
  ∃ t, views s (s_cmd_list s) t ∧
    (∀ q it, q ∈ s_cmd_list s → items s !! q = Some it → command it = name → q = p) ∧
    tbl_find name t ≠ None.

Lemma stale_faults p name h s : stale p name h s → esp_console_cmd_deregister name s = MemFault.
Proof.
  intros (Hnd & Hp & Hh & (it & Hit & Hhi) & t & Hv & Hu & Hfind).
  pose proof (views_find s (s_cmd_list s) t name Hv) as Hf.
  unfold esp_console_cmd_deregister, find_command_by_name, wp in *. unfold mbind, M_bind, get.
  destruct (find_command (s_cmd_list s) name s) as [s1 [q|]| | |]; try done.
  - destruct Hf as [-> (jt & Hq & Hjt & Hc & _)]. rewrite (Hu q jt Hq Hjt Hc) in *.
    unfold esp_console_rm_item_free_hint, mbind, M_bind, SLIST_REMOVE, item_read.
    rewrite slist_remove_spec by done. cbn [items set_list]. rewrite Hit. unfold hint_free. rewrite Hhi.
    cbn [hints set_list]. by rewrite Hh.
  - by destruct Hf as [_ [? _]].
Qed.

(** Linking an item [p] of a name that is not in the table gives a list without repetition
    on which [p] alone has the name. *)
Lemma linked_stale p it h k s t :
  NoDup (s_cmd_list s) → p ∉ s_cmd_list s → views s (s_cmd_list s) t →
  Forall (λ e, e_name e ≠ command it) t → hint it = Some h → hints s !! h = None →
  stale p (command it) h (linked p it k s).
Proof.
  intros Hnd Hp Hv Hname Hhi Hh. unfold linked.
  assert (∀ q, q ∈ s_cmd_list s → q ≠ p) as Hne by (intros q Hq ->; done).
  assert (views (linked p it k s) (s_cmd_list s) t) as Hv'.
  { eapply views_frame; [..|exact Hv]; [|done]. intros q jt Hq Hjt. simpl.
    by rewrite lookup_insert_ne by (symmetry; auto). }
  split_and!; simpl.
  - rewrite <- Permutation_middle, take_drop. by constructor.
  - apply elem_of_linked. by left.
  - done.
  - exists it. by rewrite lookup_insert_eq.
  - exists (take k t ++ entry_of (hints s) it :: drop k t). split_and!.
    + apply Forall2_app; [by apply Forall2_take|]. constructor; [|by apply Forall2_drop].
      exists it. simpl. by rewrite lookup_insert_eq.
    + intros q jt [->|Hq]%elem_of_linked; [done|]. rewrite lookup_insert_ne by (symmetry; auto).
      intros Hjt Hc. exfalso. apply list_elem_of_lookup in Hq as [i Hi]. unfold views in Hv.
      destruct (Forall2_lookup_l _ _ _ _ _ Hv Hi) as (e & He & jt' & Hjt' & ->).
      rewrite Hjt in Hjt'. injection Hjt' as <-. by apply (proj1 (Forall_lookup _ _) Hname i _ He).
    + unfold tbl_find. intros E%fmap_None. apply list_find_None in E.
      rewrite Forall_app, Forall_cons in E. by destruct E as (_ & E & _).
Qed.

Lemma reregister_stale sorted syntax cmd p it h s t :
  rep s t → p ∈ s_cmd_list s → items s !! p = Some it → hint it = Some h →
  valid_cmd cmd (command it) → c_hint cmd = None → c_argtable cmd = None →
  wp (esp_console_cmd_register sorted syntax (Some cmd)) s (λ r s', r = ESP_OK ∧ stale p (command it) h s').
Proof.
  intros Hrep Hp Hit Hh (Hc & Hs & Hf) Hn1 Hn2. unfold esp_console_cmd_register.
  rewrite Hc, decide_False, decide_False by (done || naive_solver).
  unfold get_item, find_command_by_name. wp_steps.
  eapply wp_mono; [eapply views_find, Hrep|]. intros r s1 [-> Hfind]. destruct r as [q|].
  2:{ destruct Hfind as [_ Hall]. exfalso. apply list_elem_of_lookup in Hp as [i Hi].
      destruct (Forall2_lookup_l _ _ _ _ _ (proj2 Hrep) Hi) as (e & He & jt & Hjt & ->).
      rewrite Hit in Hjt. injection Hjt as <-. by apply (proj1 (Forall_lookup _ _) Hall i _ He). }
  destruct Hfind as (jt & Hq & Hjt & Hcj & _).
  rewrite (inv_names _ _ (proj1 Hrep) q p jt it Hq Hp Hjt Hit Hcj) in *. clear q jt Hq Hjt Hcj.
  destruct (unlinked_fields p it s) as (El & Ei & _). cbv beta iota. wp_step.
  eapply wp_rm_item; [apply Hrep|done..|]. wp_step. cbv beta iota. wp_step.
  eapply wp_item_read; [by rewrite Ei|]. unfold make_hint. rewrite Hn1, Hn2. do 3 wp_step.
  set (it' := match c_func cmd with Some _ => _ | None => _ end).
  apply wp_item_write; [by rewrite Ei, Hit|]. wp_step.
  pose proof (unlinked_inv p it s (proj1 Hrep) Hp Hit) as Hi.
  pose proof (unlinked_views p it s t Hrep Hp Hit) as Hv.
  assert (command it' = command it ∧ hint it' = Some h) as [Hc' Hh'] by (subst it'; by destruct (c_func cmd)).
  eapply wp_mono; [eapply (link_item_spec _ _ _ _ (tbl_remove (command it) t));
                   [exact (inv_nodup _ _ Hi)|]|].
  - eapply (views_frame (unlinked p it s)); [..|exact Hv]; [|done]. intros q jt Hq Hjt. simpl.
    rewrite lookup_insert_ne; [done|]. intros <-. by apply (inv_detached _ _ Hi p).
  - intros _ s2 ->. apply wp_ret. split; [done|]. rewrite <- Hc'.
    eapply (linked_stale p it' h _ (unlinked p it s));
      [apply Hi|by apply (inv_detached _ _ Hi)|exact Hv| |done|].
    + rewrite Hc'. apply tbl_remove_names.
    + unfold unlinked. rewrite Hh. simpl. apply lookup_delete_eq.
Qed.

(** *** Completion *)

Lemma strncmp_eq_prefix a b : strncmp_eq a b (length a) = bool_decide (a `prefix_of` b).
Proof.
  revert b. induction a as [|x a IH]; intros b.
  - symmetry. apply bool_decide_eq_true. apply prefix_nil.
  - destruct b as [|y b]; cbn [strncmp_eq length].
    + symmetry. apply bool_decide_eq_false, prefix_nil_not.
    + rewrite IH. destruct (Z.eqb_spec x y) as [->|Hne]; simpl.
      * apply bool_decide_ext. split; [apply prefix_cons|apply prefix_cons_inv_2].
      * symmetry. apply bool_decide_eq_false. intros H%prefix_cons_inv_1. done.
Qed.

Lemma completions_spec s l t buf :
  views s l t →
  wp (completions l buf) s (λ r s', s' = s ∧ r = filter (λ n, buf `prefix_of` n) (e_name <$> t)).
Proof.
  unfold views. induction 1 as [|p e l t (it & Hp & ->) Hv IH]; [by apply wp_ret|]. cbn [completions].
  wp_step. eapply wp_item_read; [done|]. wp_step. eapply wp_mono; [exact IH|].
  intros r s' [-> ->]. apply wp_ret. split; [done|]. rewrite strncmp_eq_prefix. cbn [fmap list_fmap].
  change (e_name (entry_of (hints s) it)) with (command it).
  destruct (decide (buf `prefix_of` command it)) as [Hb|Hb].
  - by rewrite bool_decide_true, filter_cons_True by done.
  - by rewrite bool_decide_false, filter_cons_False by done.
Qed.

(** ** Properties *)

Section properties.
Context (sorted : bool) (syntax : Z → list Z).

(** C31: registering a command changes the table as it should.  An invalid command changes
    nothing; out of memory leaves the table alone; otherwise the table has the command as it
    was described, in its place, in order of names when help is sorted and at the end when
    not, once, with the hint that was given or is printed from the argument table (none when
    memory for it runs out), and the others as before.  Every item and every hint stays
    owned by one command, so that nothing leaks.  The conditions on a command that is
    registered again: the new description has a hint, for which there is memory, or an
    argument table, unless the old one had no hint ([hint_safe]; otherwise the freed hint
    stays in the item, [reregister_frees_twice]); and it has the kind of function that the
    old one had ([same_kind]; otherwise both stay in the item, [reregister_keeps_both]). *)
Theorem cmd_register_refines cmd s t :
  rep s t →
  (∀ name, c_command cmd = Some name → hint_safe cmd (tbl_find name t) s ∧ same_kind cmd (tbl_find name t)) →
  wp (esp_console_cmd_register sorted syntax (Some cmd)) s (λ r s', same_rest s s' ∧
    match r with
    | ESP_ERR_INVALID_ARG => (∀ name, ¬ valid_cmd cmd name) ∧ s' = s
    | ESP_ERR_NO_MEM => ∃ name, valid_cmd cmd name ∧ tbl_find name t = None ∧ head (supply s) ≠ Some true ∧ rep s' t
    | ESP_OK => ∃ name ctx, valid_cmd cmd name ∧ (c_func_w_context cmd ≠ None → ctx = c_context cmd) ∧
        let sup := if tbl_find name t then supply s else tail (supply s) in
        rep s' (tbl_insert sorted (command_entry cmd name (hint_made syntax cmd sup) ctx) (tbl_remove name t))
    | _ => False
    end).
Proof.
  intros Hrep Hsafe. unfold esp_console_cmd_register.
  destruct (c_command cmd) as [name|] eqn:Ec.
  2:{ apply wp_ret. split_and!; [done| |done]. unfold valid_cmd. naive_solver. }
  destruct (decide (SPACE ∈ name)) as [Hs|Hs].
  { apply wp_ret. split_and!; [done| |done]. unfold valid_cmd. naive_solver. }
  destruct (decide (_ ∨ _)) as [Hb|Hb].
  { apply wp_ret. split_and!; [done| |done]. unfold valid_cmd. naive_solver. }
  assert (valid_cmd cmd name) as Hvalid.
  { unfold valid_cmd. split_and!; [done..|]. destruct (c_func cmd), (c_func_w_context cmd); naive_solver. }
  destruct (Hsafe name eq_refl) as [Hhint Hkind]. clear Hsafe.
  assert (∀ s', same_rest s s' → (let sup := if tbl_find name t then supply s else tail (supply s) in
    rep s' (tbl_insert sorted (register_entry cmd name (hint_made syntax cmd sup) (tbl_find name t)) (tbl_remove name t))) →
    same_rest s s' ∧ ∃ name ctx, valid_cmd cmd name ∧ (c_func_w_context cmd ≠ None → ctx = c_context cmd) ∧
      let sup := if tbl_find name t then supply s else tail (supply s) in
      rep s' (tbl_insert sorted (command_entry cmd name (hint_made syntax cmd sup) ctx) (tbl_remove name t))) as Hend.
  { intros s' Hrest Hr. split; [done|]. cbv zeta in *.
    destruct (register_entry_command cmd name (hint_made syntax cmd (if tbl_find name t then supply s else tail (supply s)))
      (tbl_find name t) Hvalid Hkind) as (ctx & He & Hctx).
    exists name, ctx. rewrite <- He. done. }
  destruct Hrep as [Hinv Hv]. unfold get_item, find_command_by_name. wp_steps.
  eapply wp_mono; [by eapply views_find|]. intros [p|] s1 [-> Hfind]; cbv beta iota.
  - destruct Hfind as (it & Hp & Hit & <- & Hfind). rewrite Hfind in *.
    destruct (unlinked_fields p it s) as (El & Ei & En & Es & Hrest). wp_steps.
    eapply wp_rm_item; [done..|]. wp_step. cbv beta iota.
    eapply wp_mono; [eapply (register_tail _ _ cmd (command it) p it (Some (entry_of (hints s) it)));
      [by apply unlinked_inv|by apply unlinked_views; [split|..]|by rewrite Ei|apply tbl_remove_names|done..|]|].
    + rewrite Es. specialize (Hhint _ eq_refl). simpl in Hhint. destruct (hint it) as [h|] eqn:Eh; [|by left].
      destruct Hhint as [Hn|?]; [|by right]. simpl in Hn.
      destruct (inv_hint _ _ Hinv p it h Hp Hit Eh) as [? ?]. congruence.
    + intros r s2 (-> & Hr & Hrep). rewrite Es in Hrep. apply Hend; [by eapply same_rest_trans|done].
  - destruct Hfind as [Hfind Hnames]. wp_steps. apply wp_con_alloc; intros Hs'; cbv beta iota.
    + do 3 wp_step. cbv beta iota.
      eapply wp_mono; [eapply (register_tail _ _ cmd name (next_block s) _ None);
        [exact (new_item_inv _ _ _ Hinv)| |apply lookup_insert_eq|exact Hnames|done..|by left]|].
      * simpl. eapply views_frame; [..|exact Hv]; [|done]. intros q jt Hq Hjt. simpl.
        rewrite lookup_insert_ne; [done|]. intros <-.
        destruct (inv_fresh _ _ Hinv (next_block s)); [lia|congruence].
      * intros r s2 (-> & Hr & Hrep). rewrite Hfind, tbl_remove_absent in Hend by done. by apply Hend.
    + wp_step. cbv beta iota. apply wp_ret. split; [done|]. exists name. split_and!; [done..|]. split; [by apply supply_inv|done].
Qed.

(** Removing a command takes its entry out of the table and frees its item and its
    hint; a name that is not in the table is refused and nothing changes. *)
Theorem cmd_deregister_refines name s t :
  rep s t →
  wp (esp_console_cmd_deregister name) s (λ r s', same_rest s s' ∧
    match tbl_find name t with
    | None => r = ESP_ERR_INVALID_ARG ∧ s' = s
    | Some _ => r = ESP_OK ∧ rep s' (tbl_remove name t)
    end).
Proof.
  intros Hrep. unfold esp_console_cmd_deregister, find_command_by_name. wp_steps.
  eapply wp_mono; [eapply views_find, Hrep|]. intros [p|] s1 [-> Hfind]; cbv beta iota.
  - destruct Hfind as (it & Hp & Hit & <- & ->). destruct (unlinked_fields p it s) as (El & Ei & _ & _ & Hrest).
    wp_step. eapply wp_rm_item; [apply Hrep|done..|]. wp_step. apply wp_item_free; [by rewrite Ei, Hit|].
    apply wp_ret. split_and!; [done|done|by apply remove_item_rep].
  - destruct Hfind as [-> _]. by apply wp_ret.
Qed.

(** Shutting the console down frees the line buffer and every item and hint. *)
Theorem console_deinit_frees_all s t buf :
  rep s t → s_tmp_line_buf s = Some buf →
  wp esp_console_deinit s (λ r s', r = ESP_OK ∧ s_tmp_line_buf s' = None ∧ s_cmd_list s' = [] ∧
    items s' = ∅ ∧ hints s' = ∅ ∧ other_blocks s' = other_blocks s - 1).
Proof.
  intros Hrep Hbuf. unfold esp_console_deinit. wp_step. wp_step. rewrite Hbuf. wp_steps.
  eapply wp_mono; [eapply (deinit_items_spec _ _ t); [done|]|].
  - destruct Hrep as [[] Hv]. split; [by split|done].
  - intros _ s' [He Hrest]. apply wp_ret. apply rep_empty in He as (-> & -> & ->).
    destruct Hrest as (_ & -> & _ & ->). done.
Qed.

(** The outcome of a line that is refused: the commands stay and no block is left. *)
Definition refused (s : console) (t : list entry) (run : res console (esp_err_t * option Z)) (r : esp_err_t) : Prop :=
  ∃ s', run = Done s' (r, None) ∧ rep s' t ∧ other_blocks s' = other_blocks s.

(** C32: running a command line on a console that was initialised is one call of the
    function of the command that its first argument names: in the state in which the array
    for the arguments is allocated and holds the arguments of the line as quoting and
    escapes give them, with its context if it has one.  What the function returns is the
    answer, and after it only the array is freed: the state is otherwise what the function
    leaves.  Without memory for the array, for a line without an argument and for an unknown
    command the error is reported, nothing is called and nothing changes.  The conditions:
    the command has exactly one function, as [esp_console.h] demands, and a function without
    context leaves the item of its own command alone, which is read again after the call
    ([run_after_deregister_faults]). *)
Theorem console_run_dispatches call cmdline s t buf :
  rep s t → s_tmp_line_buf s = Some buf → zlen buf = max_cmdline_length (s_config s) →
  Forall (λ c, 0 < c) cmdline → 1 ≤ max_cmdline_length (s_config s) → 1 ≤ max_cmdline_args (s_config s) < 2 ^ 32 →
  let run := esp_console_run call cmdline s in
  if decide (head (supply s) ≠ Some true) then refused s t run ESP_ERR_NO_MEM else
  match line_args (s_config s) cmdline with
  | [] => refused s t run ESP_ERR_INVALID_ARG
  | name :: rest =>
      match tbl_find name t with
      | None => refused s t run ESP_ERR_NOT_FOUND
      | Some e => ∀ f ctx, entry_fn e = Some (f, ctx) →
          ∃ p it argc av buf', let s1 := called_state s buf' in
            rep s1 t ∧ items s1 !! p = Some it ∧ entry_of (hints s1) it = e ∧
            argc = zlen (name :: rest) ∧ args_of (SplitMem buf' av) argc = Some (name :: rest) ∧
            ∀ s2 x av2, call f ctx argc av s1 = Done s2 (x, av2) → (ctx = None → items s2 !! p = Some it) →
              run = Done (add_blocks (-1) s2) (ESP_OK, Some x)
      end
  end.
Proof.
  intros Hrep Hbuf Hlen Hcs Hsize Hn run. unfold refused. case_decide as Hsup.
  { subst run. unfold esp_console_run, mbind, M_bind, get, alloc. rewrite Hbuf.
    destruct (supply s) as [|[] sup]; try done; eexists; (split; [reflexivity|split; [|done]]); [done|].
    eapply rep_frame; [..|exact Hrep]; done || simpl; lia. }
  destruct (run_splits call cmdline s t buf) as (argc & av & buf' & -> & Hrep1 & Hargs & Hrun); [done..|].
  fold run in Hrun. set (args := line_args (s_config s) cmdline) in *. clearbody run.
  destruct args as [|name rest].
  { eexists. split; [exact Hrun|]. split; [by eapply rep_frame; [..|exact Hrep1]|simpl; lia]. }
  pose proof (views_find (called_state s buf') _ t name (proj2 Hrep1)) as Hfind. apply wp_done in Hfind as (o & s1 & Ho & -> & Hfind).
  unfold find_command_by_name, mbind, M_bind, get in Hrun. rewrite Ho in Hrun. destruct o as [p|].
  - destruct Hfind as (it & Hp & Hit & Hc & Hfind). rewrite Hfind. intros f ctx Hfn.
    exists p, it, (zlen (name :: rest)), av, buf'. split_and!; [done..|]. intros s2 x av2 Hcall Hkeep.
    rewrite Hrun. by eapply run_found_calls.
  - destruct Hfind as [-> _]. eexists. split; [exact Hrun|].
    split; [by eapply rep_frame; [..|exact Hrep1]|simpl; lia].
Qed.

(** a command that has a hint and is registered again without a hint and without an
    argument table keeps the pointer to the hint that was freed: the registration
    succeeds, and removing the command frees the hint a second time. *)
Theorem reregister_frees_twice cmd name e s t :
  rep s t → tbl_find name t = Some e → e_hint e ≠ None →
  valid_cmd cmd name → c_hint cmd = None → c_argtable cmd = None →
  ∃ s', esp_console_cmd_register sorted syntax (Some cmd) s = Done s' ESP_OK ∧
        esp_console_cmd_deregister name s' = MemFault.
Proof.
  intros Hrep Hfind Hhint Hvalid Hn1 Hn2. unfold tbl_find in Hfind.
  destruct (list_find _ t) as [[i e']|] eqn:El; [|done]. injection Hfind as ->.
  apply list_find_Some in El as (Hi & Hname & _).
  destruct (Forall2_lookup_r _ _ _ _ _ (proj2 Hrep) Hi) as (p & Hp & it & Hit & ->).
  simpl in Hname, Hhint. subst name. destruct (hint it) as [h|] eqn:Eh; [|done].
  pose proof (reregister_stale sorted syntax cmd p it h s t Hrep (list_elem_of_lookup_2 _ _ _ Hp) Hit Eh
    Hvalid Hn1 Hn2) as H.
  unfold wp in H. destruct (esp_console_cmd_register _ _ _ _) as [s' r| | |]; try done.
  destruct H as [-> Hst]. exists s'. split; [done|]. by eapply stale_faults.
Qed.

Lemma deregister_frees p it s t :
  rep s t → p ∈ s_cmd_list s → items s !! p = Some it →
  wp (esp_console_cmd_deregister (command it)) s (λ r s', r = ESP_OK ∧ items s' !! p = None).
Proof.
  intros Hrep Hp Hit. unfold esp_console_cmd_deregister, find_command_by_name. wp_steps.
  eapply wp_mono; [eapply views_find, Hrep|]. intros [q|] s1 [-> Hfind]; cbv beta iota.
  - destruct Hfind as (jt & Hq & Hjt & Hc & _).
    assert (q = p) as -> by (by eapply (inv_names _ _ (proj1 Hrep))). simplify_eq.
    destruct (unlinked_fields p it s) as (_ & Ei & _).
    wp_step. eapply wp_rm_item; [apply Hrep|done..|]. wp_step. apply wp_item_free; [by rewrite Ei, Hit|].
    apply wp_ret. split; [done|]. simpl. apply lookup_delete_eq.
  - destruct Hfind as [_ Hnames]. exfalso. destruct Hrep as [_ Hv].
    destruct (proj1 (list_elem_of_lookup _ _) Hp) as [i Hi].
    destruct (Forall2_lookup_l _ _ _ _ _ Hv Hi) as (e & He & it' & Hit' & ->). simplify_eq.
    by eapply (proj1 (Forall_lookup _ _) Hnames).
Qed.

(** A command without context that deregisters itself: the item is freed during the call,
    and the code reads it again after the call. *)
Theorem run_after_deregister_faults call cmdline s t buf name rest e f :
  rep s t → s_tmp_line_buf s = Some buf → zlen buf = max_cmdline_length (s_config s) →
  Forall (λ c, 0 < c) cmdline → 1 ≤ max_cmdline_length (s_config s) → 1 ≤ max_cmdline_args (s_config s) < 2 ^ 32 →
  head (supply s) = Some true → line_args (s_config s) cmdline = name :: rest → tbl_find name t = Some e →
  e_func e = Some f →
  (∀ argc av, call f None argc av = (_ ← esp_console_cmd_deregister name; mret (0, av))) →
  esp_console_run call cmdline s = MemFault.
Proof.
  intros Hrep Hbuf Hlen Hcs Hsize Hn Hsup Hargs Hfind Hf Hcall.
  destruct (run_splits call cmdline s t buf) as (argc & av & buf' & _ & Hrep1 & _ & ->); [done..|]. rewrite Hargs.
  pose proof (views_find (called_state s buf') _ t name (proj2 Hrep1)) as Hv. apply wp_done in Hv as (o & s1 & Ho & -> & Hv).
  unfold find_command_by_name, mbind, M_bind, get. rewrite Ho. destruct o as [p|]; [|destruct Hv; congruence].
  destruct Hv as (it & Hp & Hit & <- & Hv). rewrite Hfind in Hv. injection Hv as ->. simpl in Hf.
  assert (∃ s2, esp_console_cmd_deregister (command it) (called_state s buf') = Done s2 ESP_OK ∧ items s2 !! p = None)
    as (s2 & Hd & Hgone).
  { pose proof (deregister_frees p it (called_state s buf') t Hrep1 Hp Hit) as H. apply wp_done in H as (r & s2 & ? & -> & ?).
    eauto. }
  eapply run_found_freed; [done..| |exact Hgone]. rewrite Hcall. unfold mbind, M_bind. rewrite Hd. reflexivity.
Qed.

(** Completion offers the names that start with what was typed, in the order of the table. *)
Theorem completion_offers_prefixes buf s t :
  rep s t → buf ≠ [] →
  wp (esp_console_get_completion buf) s (λ r s', s' = s ∧
    r = filter (λ n, buf `prefix_of` n) (e_name <$> t)).
Proof.
  intros [_ Hv] Hbuf. unfold esp_console_get_completion. destruct buf as [|c buf]; [done|]. simpl.
  wp_steps. by apply completions_spec.
Qed.

End properties.

(** ** Instances *)

(** A console with one command, [go], whose hint is [ x] and whose function is number 7. *)
Definition go_name : list Z := [103; 111].
Definition go_item : cmd_item_t := mkItem go_name None (Some 2) (Some 7) None None 0.
Definition go_entry : entry := mkEntry go_name None (Some [SPACE; 120]) (Some 7) None None 0.
Definition go_console : console :=
  mkConsole [1] (mkConfig 32 4 MALLOC_CAP_DEFAULT ANSI_COLOR_DEFAULT 0) (Some (replicate 32 0)) 1
    {[1 := go_item]} {[2 := [SPACE; 120]]} 1 3 [true; true; true].
Definition go_again : esp_console_cmd_t := mkCmd (Some go_name) None None (Some 8) None None 0.
Definition go_hint : esp_console_cmd_t := mkCmd (Some go_name) None (Some [121]) (Some 8) None None 0.

Lemma args_of_length m n args : args_of m n = Some args → length args = length (take (Z.to_nat n) (argv m)).
Proof. intros H%mapM_Some. symmetry. by eapply Forall2_length. Qed.

Lemma go_rep : rep go_console [go_entry].
Proof.
  split; [|repeat constructor; by exists go_item].
  assert (∀ p it, items go_console !! p = Some it → p = 1 ∧ it = go_item) as Hi.
  { intros p it. change (items go_console) with ({[1 := go_item]} : gmap Z cmd_item_t).
    by intros [<- <-]%lookup_singleton_Some. }
  split.
  - repeat constructor. set_solver.
  - intros p. change (s_cmd_list go_console) with [1]. split.
    + intros [it [-> _]%Hi]. set_solver.
    + intros [->%list_elem_of_singleton|]; done.
  - done.
  - intros p q it jt _ _ [-> _]%Hi [-> _]%Hi. done.
  - intros p it h _ [-> ->]%Hi [= <-]. by exists [SPACE; 120].
  - intros p q it jt h _ _ [-> _]%Hi [-> _]%Hi. done.
  - intros h. change (hints go_console) with ({[2 := [SPACE; 120]]} : gmap Z (list Z)).
    intros [cs [<- _]%lookup_singleton_Some]. exists 1, go_item. split_and!; [set_solver|done..].
  - intros p Hp. simpl in Hp. split; apply lookup_singleton_None; lia.
Qed.

Lemma cmd_register_refines_witness :
  wp (esp_console_cmd_register true (λ _, []) (Some go_hint)) go_console (λ r s',
    same_rest go_console s' ∧
    match r with
    | ESP_ERR_INVALID_ARG => (∀ name, ¬ valid_cmd go_hint name) ∧ s' = go_console
    | ESP_ERR_NO_MEM => ∃ name, valid_cmd go_hint name ∧ tbl_find name [go_entry] = None ∧
        head [true; true; true] ≠ Some true ∧ rep s' [go_entry]
    | ESP_OK => ∃ name ctx, valid_cmd go_hint name ∧ (None ≠ @None Z → ctx = 0) ∧
        let sup := if tbl_find name [go_entry] then [true; true; true] else [true; true] in
        rep s' (tbl_insert true (command_entry go_hint name (hint_made (λ _, []) go_hint sup) ctx)
                  (tbl_remove name [go_entry]))
    | _ => False
    end).
Proof.
  apply (cmd_register_refines true (λ _, []) go_hint go_console [go_entry] go_rep).
  intros name Hname. injection Hname as <-. split.
  - intros e He. right. right. done.
  - intros e He. injection He as <-. done.
Defined.

(** Registering [go], which has a function without context, again with a function that takes
    one leaves both in the item: a run of the command calls both. *)
Definition go_ctx : esp_console_cmd_t := mkCmd (Some go_name) None (Some [121]) None None (Some 9) 5.

Theorem reregister_keeps_both :
  match esp_console_cmd_register false (λ _, []) (Some go_ctx) go_console with
  | Done s' r => r = ESP_OK ∧ ∃ it, items s' !! 1 = Some it ∧ func it = Some 7 ∧ func_w_context it = Some 9
  | _ => False
  end.
Proof. vm_compute. split; [done|]. eexists. split_and!; reflexivity. Qed.

(** Functions that return the number of their arguments and count their calls in the
    verbose level. *)
Definition count_call (f : Z) (ctx : option Z) (argc : Z) (av : list (option nat)) : CON (Z * list (option nat)) :=
  modify (λ s, set_verbose (s_verbose_level s + 1) s);; mret (zlen (take (Z.to_nat argc) av), av).

(** The line [go "a b"]: the function is called once, with two arguments. *)
Lemma console_run_dispatches_witness :
  match esp_console_run count_call (go_name ++ [SPACE; QUOTE; 97; SPACE; 98; QUOTE]) go_console with
  | Done s' x => x = (ESP_OK, Some 2) ∧ s_verbose_level s' = 2 ∧ other_blocks s' = 1
  | _ => False
  end.
Proof.
  destruct (console_run_dispatches count_call (go_name ++ [SPACE; QUOTE; 97; SPACE; 98; QUOTE]) go_console [go_entry]
    (replicate 32 0) go_rep eq_refl eq_refl) with (f := 7) (ctx := @None Z) as (p & it & argc & av & buf' & H1 & H2 & H3 & -> & Hargs & Hrun);
    [by repeat constructor|done|done|reflexivity|].
  rewrite (Hrun _ _ _ eq_refl (λ _, H2)). apply args_of_length in Hargs. cbn [argv] in Hargs.
  split_and!; [|done|done]. do 2 f_equal. unfold zlen at 1. rewrite <- Hargs. reflexivity.
Defined.

Lemma reregister_frees_twice_witness :
  ∃ s', esp_console_cmd_register false (λ _, []) (Some go_again) go_console = Done s' ESP_OK ∧
        esp_console_cmd_deregister go_name s' = MemFault.
Proof.
  apply (reregister_frees_twice false (λ _, []) go_again go_name go_entry go_console [go_entry] go_rep);
    [reflexivity|done| |reflexivity|reflexivity].
  split_and!; [reflexivity|set_solver|left; by exists 8].
Defined.
