(* ===== verification/Vfs.v ===== *)
(** * Virtual file system: registration and descriptors ([vfs/vfs.c])

    File systems register the functions they have under a path prefix, or without one for
    descriptors that they hand out themselves; [s_vfs] holds what is registered and
    [s_fd_table] maps the descriptors of the application to the file system and its own
    descriptor.  A structure of function pointers is a function from its members to
    pointers.  A block of memory is a number, and the blocks in use are a set in the
    state, so that a block that is freed twice is a bad access and a block that is not
    freed can be seen.  Structures of the application are not in that set.  The lock of
    the table makes each access to it one step. *)
From Stdlib Require Import ZArith Lia.
From stdpp Require Import base numbers option list gmap.
From S2P Require Import Prelude.

(** ** Constants *)

Definition ESP_VFS_PATH_MAX : Z := 15.
Definition ESP_VFS_FLAG_CONTEXT_PTR : Z := Z.shiftl 1 1.
Definition ESP_VFS_FLAG_READONLY_FS : Z := Z.shiftl 1 2.
Definition ESP_VFS_FLAG_STATIC : Z := Z.shiftl 1 3.
(** [SIZE_MAX] *)
Definition LEN_PATH_PREFIX_IGNORED : Z := 2 ^ 32 - 1.
Definition SLASH : Z := 47.

(** ** Data *)

(** The members of the structures of functions. *)
Inductive io_op : Type :=
| Write | Lseek | Read | Pread | Pwrite | Open | Close | Fstat | Fcntl | Ioctl | Fsync.
Inductive dir_op : Type :=
| Stat | Link | Unlink | Rename | Opendir | Readdir | Readdir_r | Telldir | Seekdir | Closedir
| Mkdir | Rmdir | Access | Truncate | Ftruncate | Utime.
Inductive termios_op : Type :=
| Tcsetattr | Tcgetattr | Tcdrain | Tcflush | Tcflow | Tcgetsid | Tcsendbreak.
Inductive select_op : Type :=
| Start_select | Socket_select | Stop_socket_select | Stop_socket_select_isr
| Get_socket_select_semaphore | End_select.

Definition dir_ops : list dir_op :=
  [Stat; Link; Unlink; Rename; Opendir; Readdir; Readdir_r; Telldir; Seekdir; Closedir;
   Mkdir; Rmdir; Access; Truncate; Ftruncate; Utime].
Definition termios_ops : list termios_op :=
  [Tcsetattr; Tcgetattr; Tcdrain; Tcflush; Tcflow; Tcgetsid; Tcsendbreak].
Definition select_ops : list select_op :=
  [Start_select; Socket_select; Stop_socket_select; Stop_socket_select_isr;
   Get_socket_select_semaphore; End_select].

(** A structure on the heap or in the application: its block and its members. *)
Record ops_struct (op : Type) : Type := mkOps { block : Z; member : op → option Z }.
Arguments mkOps {op} block member.
Arguments block {op} _.
Arguments member {op} _ _.

Record esp_vfs_fs_ops_t : Type := mkFsOps {
  ops_block : Z;
  io : io_op → option Z;
  dir : option (ops_struct dir_op);
  termios : option (ops_struct termios_op);
  select : option (ops_struct select_op) }.

(** The older structure, with all functions and flags in one. *)
Record esp_vfs_t : Type := mkVfs {
  v_flags : Z;
  v_io : io_op → option Z;
  v_dir : dir_op → option Z;
  v_termios : termios_op → option Z;
  v_select : select_op → option Z }.

Record vfs_entry_t : Type := mkEntry {
  entry_block : Z;
  flags : Z;
  vfs : esp_vfs_fs_ops_t;
  ctx : Z;
  offset : Z;
  path_prefix_len : Z;
  path_prefix : list Z }.

(** An entry of the table of descriptors; [vfs_index] is an [int8_t] and [local_fd] a
    [uint8_t]. *)
Record fd_table_t : Type := mkFd {
  permanent : bool;
  has_pending_close : bool;
  has_pending_select : bool;
  vfs_index : Z;
  local_fd : Z }.

Definition FD_TABLE_ENTRY_UNUSED : fd_table_t := mkFd false false false (-1) 255.

(** The static variables, the blocks in use with the answers of allocations to come,
    [errno], the member [dd_vfs_idx] of the open directories, and what the file systems
    keep ([world]). *)
Record vfs_state (W : Type) : Type := mkState {
  s_vfs : list (option vfs_entry_t);
  s_vfs_count : Z;
  s_fd_table : list fd_table_t;
  live : gset Z;
  next_block : Z;
  supply : list bool;
  errno : Z;
  dirs : gmap Z Z;
  world : W }.
Arguments mkState {W} _ _ _ _ _ _ _ _ _.
Arguments s_vfs {W} _.
Arguments s_vfs_count {W} _.
Arguments s_fd_table {W} _.
Arguments live {W} _.
Arguments next_block {W} _.
Arguments supply {W} _.
Arguments errno {W} _.
Arguments dirs {W} _.
Arguments world {W} _.

Section vfs.
Context {W : Type}.
(** [CONFIG_VFS_MAX_COUNT] and [FD_SETSIZE] *)
Context (VFS_MAX_COUNT MAX_FDS : nat).

Definition VM (A : Type) : Type := M (vfs_state W) A.

Definition set_vfs (l : list (option vfs_entry_t)) (s : vfs_state W) : vfs_state W :=
  mkState l (s_vfs_count s) (s_fd_table s) (live s) (next_block s) (supply s) (errno s) (dirs s) (world s).
Definition set_count (n : Z) (s : vfs_state W) : vfs_state W :=
  mkState (s_vfs s) n (s_fd_table s) (live s) (next_block s) (supply s) (errno s) (dirs s) (world s).
Definition set_table (t : list fd_table_t) (s : vfs_state W) : vfs_state W :=
  mkState (s_vfs s) (s_vfs_count s) t (live s) (next_block s) (supply s) (errno s) (dirs s) (world s).
Definition set_heap (l : gset Z) (n : Z) (sup : list bool) (s : vfs_state W) : vfs_state W :=
  mkState (s_vfs s) (s_vfs_count s) (s_fd_table s) l n sup (errno s) (dirs s) (world s).
Definition set_errno (e : Z) (s : vfs_state W) : vfs_state W :=
  mkState (s_vfs s) (s_vfs_count s) (s_fd_table s) (live s) (next_block s) (supply s) e (dirs s) (world s).
Definition set_dirs (d : gmap Z Z) (s : vfs_state W) : vfs_state W :=
  mkState (s_vfs s) (s_vfs_count s) (s_fd_table s) (live s) (next_block s) (supply s) (errno s) d (world s).
Definition set_world (w : W) (s : vfs_state W) : vfs_state W :=
  mkState (s_vfs s) (s_vfs_count s) (s_fd_table s) (live s) (next_block s) (supply s) (errno s) (dirs s) w.

(** ** The heap *)

Definition heap_caps_malloc : VM (option Z) := λ s,
  match supply s with
  | true :: sup => Done (set_heap ({[next_block s]} ∪ live s) (next_block s + 1) sup s) (Some (next_block s))
  | false :: sup => Done (set_heap (live s) (next_block s) sup s) None
  | [] => Done s None
  end.

Definition free (p : option Z) : VM unit := λ s,
  match p with
  | None => Done s ()
  | Some b => if decide (b ∈ live s) then Done (set_heap (live s ∖ {[b]}) (next_block s) (supply s) s) ()
              else MemFault
  end.

(** ** Registration *)

Definition esp_get_free_index : VM Z :=
  s ← get;
  mret (match list_find (λ e, e = None) (take VFS_MAX_COUNT (s_vfs s)) with
        | Some (i, _) => Z.of_nat i
        | None => -1
        end).

Definition esp_vfs_free_fs_ops (o : esp_vfs_fs_ops_t) : VM unit :=
  free (block <$> termios o);;
  free (block <$> dir o);;
  free (block <$> select o);;
  free (Some (ops_block o)).

Definition esp_vfs_free_entry (entry : option vfs_entry_t) : VM unit :=
  match entry with
  | None => mret ()
  | Some e =>
      whenM (negb (flag (flags e) ESP_VFS_FLAG_STATIC)) (esp_vfs_free_fs_ops (vfs e));;
      free (Some (entry_block e))
  end.

(** The structures made so far for a copy. *)
Record vfs_component_proxy_t : Type := mkProxy {
  p_dir : option Z; p_termios : option Z; p_select : option Z }.

Definition free_proxy_members (p : vfs_component_proxy_t) : VM unit :=
  free (p_dir p);; free (p_termios p);; free (p_select p).

(** [proxy.x = heap_caps_malloc(...)] when there is something to put into it; [None] is a
    failed allocation. *)
Definition malloc_if (b : bool) : VM (option (option Z)) :=
  if b then p ← heap_caps_malloc; mret (match p with Some p => Some (Some p) | None => None end)
  else mret (Some None).

(** The blocks of a copy, or all of them freed. *)
Definition make_proxy (want_dir want_termios want_select : bool) : VM (option vfs_component_proxy_t) :=
  d ← malloc_if want_dir;
  match d with
  | None => free_proxy_members (mkProxy None None None);; mret None
  | Some d =>
      t ← malloc_if want_termios;
      match t with
      | None => free_proxy_members (mkProxy d None None);; mret None
      | Some t =>
          l ← malloc_if want_select;
          match l with
          | None => free_proxy_members (mkProxy d t None);; mret None
          | Some l => mret (Some (mkProxy d t l))
          end
      end
  end.

Definition esp_minify_vfs (v : esp_vfs_t) (proxy : vfs_component_proxy_t) : VM (option esp_vfs_fs_ops_t) :=
  out ← heap_caps_malloc;
  mret ((λ out, mkFsOps out (v_io v)
           ((λ b, mkOps b (v_dir v)) <$> p_dir proxy)
           ((λ b, mkOps b (v_termios v)) <$> p_termios proxy)
           ((λ b, mkOps b (v_select v)) <$> p_select proxy)) <$> out).

(** A copy of a structure in a new block. *)
Definition copy_ops {op : Type} (b : option Z) (o : option (ops_struct op)) : option (ops_struct op) :=
  b ← b; o ← o; Some (mkOps b (member o)).

Definition esp_vfs_duplicate_fs_ops (orig : esp_vfs_fs_ops_t) : VM (option esp_vfs_fs_ops_t) :=
  proxy ← make_proxy (bool_decide (is_Some (dir orig))) (bool_decide (is_Some (termios orig)))
            (bool_decide (is_Some (select orig)));
  match proxy with
  | None => mret None
  | Some proxy =>
      out ← heap_caps_malloc;
      match out with
      | None => free_proxy_members proxy;; mret None
      | Some out =>
          mret (Some (mkFsOps out (io orig) (copy_ops (p_dir proxy) (dir orig))
                        (copy_ops (p_termios proxy) (termios orig)) (copy_ops (p_select proxy) (select orig))))
      end
  end.

(** Some member is not NULL. *)
Definition any_member {op : Type} (ops : list op) (f : op → option Z) : bool :=
  existsb (λ o, bool_decide (is_Some (f o))) ops.

Definition esp_vfs_make_fs_ops (v : option esp_vfs_t) : VM (esp_err_t * option esp_vfs_fs_ops_t) :=
  match v with
  | None => mret (ESP_ERR_INVALID_ARG, None)
  | Some v =>
      proxy ← make_proxy (any_member dir_ops (v_dir v)) (any_member termios_ops (v_termios v))
                (any_member select_ops (v_select v));
      match proxy with
      | None => mret (ESP_ERR_NO_MEM, None)
      | Some proxy =>
          main ← esp_minify_vfs v proxy;
          match main with
          | None => free_proxy_members proxy;; mret (ESP_ERR_NO_MEM, None)
          | Some main => mret (ESP_OK, Some main)
          end
      end
  end.

Definition is_path_prefix_valid (path : list Z) (length : Z) : bool :=
  (2 <=? length) && (length <=? ESP_VFS_PATH_MAX) && (hd 0 path =? SLASH) &&
  negb (path !!! Z.to_nat (length - 1) =? SLASH).

(** The index is what is stored through [vfs_index]. *)
Definition esp_vfs_register_fs_common (base_path : option (list Z)) (v : option esp_vfs_fs_ops_t)
    (fl ctx : Z) : VM (esp_err_t * option Z) :=
  s ← get;
  if Z.of_nat VFS_MAX_COUNT <=? s_vfs_count s then mret (ESP_ERR_NO_MEM, None) else
  match v with
  | None => mret (ESP_ERR_INVALID_ARG, None)
  | Some v =>
      let len := match base_path with Some p => zlen p | None => 0 end in
      if match base_path with
         | Some p => negb (len =? 0) && negb (is_path_prefix_valid p len)
         | None => false
         end
      then mret (ESP_ERR_INVALID_ARG, None) else
      index ← esp_get_free_index;
      if index <? 0 then mret (ESP_ERR_NO_MEM, None) else
      if bool_decide (mjoin (s_vfs s !! Z.to_nat index) ≠ None) then mret (ESP_ERR_INVALID_STATE, None) else
      whenM (index =? s_vfs_count s) (modify (λ s, set_count (s_vfs_count s + 1) s));;
      entry ← heap_caps_malloc;
      match entry with
      | None => mret (ESP_ERR_NO_MEM, None)
      | Some b =>
          let e := mkEntry b fl v ctx index
                     (match base_path with None => LEN_PATH_PREFIX_IGNORED | Some _ => len end)
                     (default [] base_path) in
          modify (λ s, set_vfs (<[Z.to_nat index := Some e]> (s_vfs s)) s);;
          mret (ESP_OK, Some index)
      end
  end.

Definition esp_vfs_register_fs (base_path : option (list Z)) (v : option esp_vfs_fs_ops_t) (fl ctx : Z)
    : VM esp_err_t :=
  match v, base_path with
  | None, _ | _, None => mret ESP_ERR_INVALID_ARG
  | Some v, Some base_path =>
      if flag fl ESP_VFS_FLAG_STATIC then
        '(ret, _) ← esp_vfs_register_fs_common (Some base_path) (Some v) fl ctx; mret ret
      else
        copy ← esp_vfs_duplicate_fs_ops v;
        match copy with
        | None => mret ESP_ERR_NO_MEM
        | Some copy =>
            '(ret, _) ← esp_vfs_register_fs_common (Some base_path) (Some copy) fl ctx;
            if decide (ret ≠ ESP_OK) then esp_vfs_free_fs_ops copy;; mret ret else mret ESP_OK
        end
  end.

Definition esp_vfs_register_common (base_path : option (list Z)) (len : Z) (v : option esp_vfs_t) (ctx : Z)
    : VM (esp_err_t * option Z) :=
  match v with
  | None => mret (ESP_ERR_INVALID_ARG, None)
  | Some v =>
      if flag (v_flags v) ESP_VFS_FLAG_STATIC then mret (ESP_ERR_INVALID_ARG, None) else
      if negb (len =? LEN_PATH_PREFIX_IGNORED) &&
         match base_path with None => true | Some p => negb (zlen p =? len) end
      then mret (ESP_ERR_INVALID_ARG, None) else
      let base_path := if len =? LEN_PATH_PREFIX_IGNORED then None else base_path in
      '(ret, o) ← esp_vfs_make_fs_ops (Some v);
      match o with
      | None => mret (ret, None)
      | Some o =>
          '(ret, index) ← esp_vfs_register_fs_common base_path (Some o) (v_flags v) ctx;
          if decide (ret ≠ ESP_OK) then esp_vfs_free_fs_ops o;; mret (ret, None)
          else mret (ESP_OK, index)
      end
  end.

Definition esp_vfs_register (base_path : list Z) (v : option esp_vfs_t) (ctx : Z) : VM esp_err_t :=
  '(ret, _) ← esp_vfs_register_common (Some base_path) (zlen base_path) v ctx; mret ret.

(** The error and [*vfs_id]. *)
Definition esp_vfs_register_fs_with_id (v : option esp_vfs_fs_ops_t) (fl ctx : Z) : VM (esp_err_t * Z) :=
  '(ret, id) ← esp_vfs_register_fs_common None v fl ctx; mret (ret, default (-1) id).

Definition esp_vfs_register_with_id (v : option esp_vfs_t) (ctx : Z) : VM (esp_err_t * Z) :=
  '(ret, id) ← esp_vfs_register_common (Some []) LEN_PATH_PREFIX_IGNORED v ctx; mret (ret, default (-1) id).

(** ** The table of descriptors *)

(** [s_fd_table[i]] *)
Definition fd_read (i : nat) : VM fd_table_t := λ s,
  match s_fd_table s !! i with Some e => Done s e | None => MemFault end.
Definition fd_write (i : nat) (e : fd_table_t) : VM unit := λ s,
  match s_fd_table s !! i with
  | Some _ => Done (set_table (<[i := e]> (s_fd_table s)) s) ()
  | None => MemFault
  end.

(** The loop of [esp_vfs_register_fd_range] over [n] descriptors from [i]. *)
Fixpoint claim_range (index : Z) (min_fd i n : nat) : VM bool :=
  match n with
  | O => mret true
  | S n =>
      e ← fd_read i;
      if negb (vfs_index e =? -1) then
        s ← get;
        match mjoin (s_vfs s !! Z.to_nat index) with
        | None => fault
        | Some entry => free (Some (entry_block entry))
        end;;
        modify (λ s, set_vfs (<[Z.to_nat index := None]> (s_vfs s)) s);;
        modify (λ s, set_table
          (imap (λ j e, if decide (min_fd ≤ j < i)%nat then
                          if vfs_index e =? index then FD_TABLE_ENTRY_UNUSED else e
                        else e) (s_fd_table s)) s);;
        mret false
      else
        fd_write i (mkFd true (has_pending_close e) (has_pending_select e) (i8 index) (u8 (Z.of_nat i)));;
        claim_range index min_fd (S i) n
  end.

Definition esp_vfs_register_fd_range (v : option esp_vfs_t) (ctx min_fd max_fd : Z) : VM esp_err_t :=
  if (min_fd <? 0) || (max_fd <? 0) || (Z.of_nat MAX_FDS <? min_fd) || (Z.of_nat MAX_FDS <? max_fd) ||
     (max_fd <? min_fd) then mret ESP_ERR_INVALID_ARG else
  '(ret, index) ← esp_vfs_register_common (Some []) LEN_PATH_PREFIX_IGNORED v ctx;
  match index with
  | None => mret ret
  | Some index =>
      ok ← claim_range index (Z.to_nat min_fd) (Z.to_nat min_fd) (Z.to_nat (max_fd - min_fd));
      mret (if ok : bool then ret else ESP_ERR_INVALID_ARG)
  end.

(** The loop of [esp_vfs_unregister_with_id], which runs to [VFS_MAX_COUNT]. *)
Definition drop_refs (vfs_id : Z) : VM unit := λ s,
  if decide (VFS_MAX_COUNT ≤ length (s_fd_table s))%nat then
    Done (set_table (imap (λ j e, if decide (j < VFS_MAX_COUNT)%nat then
                                    if vfs_index e =? vfs_id then FD_TABLE_ENTRY_UNUSED else e
                                  else e) (s_fd_table s)) s) ()
  else MemFault.

Definition esp_vfs_unregister_with_id (vfs_id : Z) : VM esp_err_t :=
  s ← get;
  if (vfs_id <? 0) || (Z.of_nat VFS_MAX_COUNT <=? vfs_id) then mret ESP_ERR_INVALID_ARG else
  match mjoin (s_vfs s !! Z.to_nat vfs_id) with
  | None => mret ESP_ERR_INVALID_ARG
  | Some e =>
      esp_vfs_free_entry (Some e);;
      modify (λ s, set_vfs (<[Z.to_nat vfs_id := None]> (s_vfs s)) s);;
      drop_refs vfs_id;;
      mret ESP_OK
  end.

(** [base_path_len == vfs->path_prefix_len && memcmp(...) == 0] *)
Definition same_prefix (base_path : list Z) (e : vfs_entry_t) : bool :=
  (zlen base_path =? path_prefix_len e) &&
  bool_decide (base_path = take (Z.to_nat (path_prefix_len e)) (path_prefix e)).

Definition has_prefix (base_path : list Z) (o : option vfs_entry_t) : bool :=
  match o with Some e => same_prefix base_path e | None => false end.

(** The first registered entry below [s_vfs_count] with a given prefix. *)
Definition find_prefix (base_path : list Z) : VM (option (nat * vfs_entry_t)) :=
  s ← get;
  mret (match list_find (λ o, has_prefix base_path o = true)
                (take (Z.to_nat (s_vfs_count s)) (s_vfs s)) with
        | Some (i, Some e) => Some (i, e)
        | _ => None
        end).

Definition esp_vfs_unregister (base_path : list Z) : VM esp_err_t :=
  r ← find_prefix base_path;
  match r with
  | Some (i, _) => esp_vfs_unregister_with_id (Z.of_nat i)
  | None => mret ESP_ERR_INVALID_STATE
  end.

Definition esp_vfs_set_readonly_flag (base_path : list Z) : VM esp_err_t :=
  r ← find_prefix base_path;
  match r with
  | Some (i, e) =>
      let e' := mkEntry (entry_block e) (Z.lor (flags e) ESP_VFS_FLAG_READONLY_FS) (vfs e) (ctx e)
                  (offset e) (path_prefix_len e) (path_prefix e) in
      modify (λ s, set_vfs (<[i := Some e']> (s_vfs s)) s);; mret ESP_OK
  | None => mret ESP_ERR_INVALID_STATE
  end.

(** The first unused descriptor. *)
Definition free_fd : VM (option nat) :=
  s ← get;
  mret (fst <$> list_find (λ e, vfs_index e = -1) (take MAX_FDS (s_fd_table s))).

(** [fd] says whether there is a place for the descriptor, which is returned too. *)
Definition esp_vfs_register_fd_with_local_fd (vfs_id local : Z) (perm : bool) (fd : bool)
    : VM (esp_err_t * option Z) :=
  s ← get;
  if (vfs_id <? 0) || (s_vfs_count s <=? vfs_id) || negb fd then mret (ESP_ERR_INVALID_ARG, None) else
  i ← free_fd;
  match i with
  | None => mret (ESP_ERR_NO_MEM, None)
  | Some i =>
      e ← fd_read i;
      fd_write i (mkFd perm (has_pending_close e) (has_pending_select e) (i8 vfs_id)
                    (if 0 <=? local then u8 local else u8 (Z.of_nat i)));;
      mret (ESP_OK, Some (Z.of_nat i))
  end.

Definition esp_vfs_register_fd (vfs_id : Z) (fd : bool) : VM (esp_err_t * option Z) :=
  esp_vfs_register_fd_with_local_fd vfs_id (-1) true fd.

Definition esp_vfs_unregister_fd (vfs_id fd : Z) : VM esp_err_t :=
  s ← get;
  if (vfs_id <? 0) || (s_vfs_count s <=? vfs_id) || (fd <? 0) || (Z.of_nat MAX_FDS <=? fd)
  then mret ESP_ERR_INVALID_ARG else
  item ← fd_read (Z.to_nat fd);
  if permanent item && (vfs_index item =? vfs_id) && (local_fd item =? fd)
  then fd_write (Z.to_nat fd) FD_TABLE_ENTRY_UNUSED;; mret ESP_OK
  else mret ESP_ERR_INVALID_ARG.

(** ** Finding the file system *)

(** [s_vfs_count] never exceeds the array. *)
Definition get_vfs_for_index (index : Z) : VM (option vfs_entry_t) :=
  s ← get;
  if (index <? 0) || (s_vfs_count s <=? index) then mret None
  else match s_vfs s !! Z.to_nat index with Some o => mret o | None => fault end.

Definition fd_valid (fd : Z) : bool := (fd <? Z.of_nat MAX_FDS) && (0 <=? fd).

Definition get_vfs_for_fd (fd : Z) : VM (option vfs_entry_t) :=
  if fd_valid fd then e ← fd_read (Z.to_nat fd); get_vfs_for_index (vfs_index e) else mret None.

Definition get_local_fd (v : option vfs_entry_t) (fd : Z) : VM Z :=
  match v with
  | Some _ => if fd_valid fd then e ← fd_read (Z.to_nat fd); mret (local_fd e) else mret (-1)
  | None => mret (-1)
  end.

(** [strncmp(a, b, n) == 0] on strings given by their characters. *)
Fixpoint strncmp_eq (a b : list Z) (n : nat) {struct n} : bool :=
  match n with
  | O => true
  | S n => match a, b with
           | [], [] => true
           | x :: a, y :: b => (x =? y) && strncmp_eq a b n
           | _, _ => false
           end
  end.

Definition translate_path (e : vfs_entry_t) (src_path : list Z) : VM (list Z) :=
  assertM (strncmp_eq src_path (path_prefix e) (Z.to_nat (path_prefix_len e)));;
  if zlen src_path =? path_prefix_len e then mret [SLASH]
  else mret (drop (Z.to_nat (path_prefix_len e)) src_path).

(** One turn of the loop of [get_vfs_for_path]: the best match so far and the length of
    its prefix. *)
Definition match_step (path : list Z) (best : option vfs_entry_t * Z) (o : option vfs_entry_t)
    : option vfs_entry_t * Z :=
  match o with
  | None => best
  | Some v =>
      if path_prefix_len v =? LEN_PATH_PREFIX_IGNORED then best else
      if (zlen path <? path_prefix_len v) ||
         negb (bool_decide (take (Z.to_nat (path_prefix_len v)) path =
                            take (Z.to_nat (path_prefix_len v)) (path_prefix v))) then best else
      if (path_prefix_len v =? 0) && bool_decide (best.1 = None) then (Some v, best.2) else
      if (path_prefix_len v <? zlen path) && negb (path !!! Z.to_nat (path_prefix_len v) =? SLASH) then best else
      if best.2 <? path_prefix_len v then (Some v, path_prefix_len v) else best
  end.

Definition get_vfs_for_path (path : list Z) : VM (option vfs_entry_t) :=
  s ← get;
  mret (foldl (match_step path) (None, -1) (take (Z.to_nat (s_vfs_count s)) (s_vfs s))).1.

End vfs.
