(* ===== verification/VfsCalls.v ===== *)
(** * Virtual file system: the calls ([vfs/vfs.c])

    Each call of the application finds the file system, by path or by descriptor,
    translates the path or the descriptor and calls the function of the file system.  What
    such a function does is the parameter [drv]: from the pointer to the function, the
    context when the file system asks for one, the arguments, [errno] and what the file
    systems keep, it gives what is returned, [errno] and what they keep afterwards.  The
    functions do not call back into the virtual file system here.  A result of NULL is 0. *)
From Stdlib Require Import ZArith Lia.
From stdpp Require Import base numbers option list gmap.
From S2P Require Import Prelude Vfs.

Definition ENOENT : Z := 2.
Definition EINTR : Z := 4.
Definition EBADF : Z := 9.
Definition ENOMEM : Z := 12.
Definition EXDEV : Z := 18.
Definition EINVAL : Z := 22.
Definition EROFS : Z := 30.
Definition ENOSYS : Z := 88.
Definition O_RDONLY : Z := 0.
Definition O_ACCMODE : Z := 3.

(** The arguments of the functions of a file system, after those that are the same for
    all; pointers of the application are passed on as they are. *)
Inductive fs_args : Type :=
| AWrite (fd data size : Z)
| ALseek (fd size mode : Z)
| ARead (fd dst size : Z)
| APread (fd dst size offset : Z)
| APwrite (fd src size offset : Z)
| AOpen (path : list Z) (flags mode : Z)
| AClose (fd : Z)
| AFstat (fd st : Z)
| AFcntl (fd cmd arg : Z)
| AIoctl (fd cmd args : Z)
| AFsync (fd : Z)
| AStat (path : list Z) (st : Z)
| AUtime (path : list Z) (times : Z)
| ALink (n1 n2 : list Z)
| AUnlink (path : list Z)
| ARename (src dst : list Z)
| AOpendir (name : list Z)
| AReaddir (pdir : Z)
| AReaddir_r (pdir entry out_dirent : Z)
| ATelldir (pdir : Z)
| ASeekdir (pdir loc : Z)
| AClosedir (pdir : Z)
| AMkdir (name : list Z) (mode : Z)
| ARmdir (name : list Z)
| AAccess (path : list Z) (amode : Z)
| ATruncate (path : list Z) (length : Z)
| AFtruncate (fd length : Z)
| ATcgetattr (fd p : Z)
| ATcsetattr (fd optional_actions p : Z)
| ATcdrain (fd : Z)
| ATcflush (fd select : Z)
| ATcflow (fd action : Z)
| ATcgetsid (fd : Z)
| ATcsendbreak (fd duration : Z).

Section calls.
Context {W : Type}.
Context (VFS_MAX_COUNT MAX_FDS : nat).
Context (drv : Z → option Z → fs_args → Z → W → Z * Z * W).

Abbreviation VM := (@Vfs.VM W).
Abbreviation vfs_for_fd := (get_vfs_for_fd (W := W) MAX_FDS).
Abbreviation local_of := (get_local_fd (W := W) MAX_FDS).

(** Set [errno] and return [r]. *)
Definition fail_with {A : Type} (e : Z) (r : A) : VM A := modify (set_errno e);; mret r.

(** The call of a function, with the context when the flag is set. *)
Definition call (v : vfs_entry_t) (f : Z) (args : fs_args) : VM Z := λ s,
  let c := if flag (flags v) ESP_VFS_FLAG_CONTEXT_PTR then Some (ctx v) else None in
  let '(r, e, w) := drv f c args (errno s) (world s) in
  Done (set_world w (set_errno e s)) r.

(** [CHECK_AND_CALL]: the result of the function, or [None] when there is none and the
    caller returns. *)
Definition CHECK_AND_CALL (v : vfs_entry_t) (op : io_op) (args : fs_args) : VM (option Z) :=
  match io (vfs v) op with
  | None => fail_with ENOSYS None
  | Some f => r ← call v f args; mret (Some r)
  end.

(** [CHECK_AND_CALL_SUBCOMPONENT] *)
Definition CHECK_AND_CALL_SUBCOMPONENT {op : Type} (v : vfs_entry_t) (component : option (ops_struct op)) (o : op)
    (args : fs_args) : VM (option Z) :=
  match (c ← component; member c o) with
  | None => fail_with ENOSYS None
  | Some f => r ← call v f args; mret (Some r)
  end.

(** What all calls on a descriptor begin with; [k] gets the file system and its
    descriptor. *)
Definition with_fd (fd : Z) (k : vfs_entry_t → Z → VM Z) : VM Z :=
  v ← vfs_for_fd fd;
  l ← local_of v fd;
  match v with
  | None => fail_with EBADF (-1)
  | Some v => if l <? 0 then fail_with EBADF (-1) else k v l
  end.

(** Return -1 when there was no function. *)
Definition or_minus_1 (r : VM (option Z)) : VM Z := x ← r; mret (default (-1) x).

(** ** Calls on descriptors *)

Definition esp_vfs_write (fd data size : Z) : VM Z :=
  with_fd fd (λ v l, or_minus_1 (CHECK_AND_CALL v Write (AWrite l data size))).
Definition esp_vfs_lseek (fd size mode : Z) : VM Z :=
  with_fd fd (λ v l, or_minus_1 (CHECK_AND_CALL v Lseek (ALseek l size mode))).
Definition esp_vfs_read (fd dst size : Z) : VM Z :=
  with_fd fd (λ v l, or_minus_1 (CHECK_AND_CALL v Read (ARead l dst size))).
Definition esp_vfs_pread (fd dst size offset : Z) : VM Z :=
  with_fd fd (λ v l, or_minus_1 (CHECK_AND_CALL v Pread (APread l dst size offset))).
Definition esp_vfs_pwrite (fd src size offset : Z) : VM Z :=
  with_fd fd (λ v l, or_minus_1 (CHECK_AND_CALL v Pwrite (APwrite l src size offset))).
Definition esp_vfs_fstat (fd st : Z) : VM Z :=
  with_fd fd (λ v l, or_minus_1 (CHECK_AND_CALL v Fstat (AFstat l st))).
Definition esp_vfs_fcntl_r (fd cmd arg : Z) : VM Z :=
  with_fd fd (λ v l, or_minus_1 (CHECK_AND_CALL v Fcntl (AFcntl l cmd arg))).
Definition esp_vfs_ioctl (fd cmd args : Z) : VM Z :=
  with_fd fd (λ v l, or_minus_1 (CHECK_AND_CALL v Ioctl (AIoctl l cmd args))).
Definition esp_vfs_fsync (fd : Z) : VM Z :=
  with_fd fd (λ v l, or_minus_1 (CHECK_AND_CALL v Fsync (AFsync l))).

(** The end of [esp_vfs_close], under the lock. *)
Definition close_fd (fd : Z) : VM unit :=
  e ← fd_read (Z.to_nat fd);
  whenM (negb (permanent e))
    (fd_write (Z.to_nat fd)
       (if has_pending_select e then mkFd (permanent e) true (has_pending_select e) (vfs_index e) (local_fd e)
        else FD_TABLE_ENTRY_UNUSED)).

Definition esp_vfs_close (fd : Z) : VM Z :=
  with_fd fd (λ v l,
    r ← CHECK_AND_CALL v Close (AClose l);
    match r with
    | None => mret (-1)
    | Some r => close_fd fd;; mret r
    end).

Definition esp_vfs_open (path : list Z) (fl mode : Z) : VM Z :=
  v ← get_vfs_for_path path;
  match v with
  | None => fail_with ENOENT (-1)
  | Some v =>
      if negb (Z.land fl O_ACCMODE =? O_RDONLY) && flag (flags v) ESP_VFS_FLAG_READONLY_FS
      then fail_with EROFS (-1) else
      path_within_vfs ← translate_path v path;
      r ← CHECK_AND_CALL v Open (AOpen path_within_vfs fl mode);
      match r with
      | None => mret (-1)
      | Some fd_within_vfs =>
          if 0 <=? fd_within_vfs then
            i ← free_fd MAX_FDS;
            match i with
            | Some i =>
                e ← fd_read i;
                fd_write i (mkFd false (has_pending_close e) (has_pending_select e) (i8 (offset v)) (u8 fd_within_vfs));;
                mret (Z.of_nat i)
            | None =>
                c ← CHECK_AND_CALL v Close (AClose fd_within_vfs);
                match c with
                | None => mret (-1)
                | Some _ => fail_with ENOMEM (-1)
                end
            end
          else mret (-1)
      end
  end.

(** ** Calls on paths *)

(** What calls on one path have in common; [ro] refuses a read-only file system. *)
Definition with_path (ro : bool) (path : list Z) (k : vfs_entry_t → list Z → VM Z) (failed : Z) : VM Z :=
  v ← get_vfs_for_path path;
  match v with
  | None => fail_with ENOENT failed
  | Some v =>
      if ro && flag (flags v) ESP_VFS_FLAG_READONLY_FS then fail_with EROFS failed else
      p ← translate_path v path;
      k v p
  end.

Definition sub_dir (v : vfs_entry_t) (o : dir_op) (args : fs_args) : VM Z :=
  or_minus_1 (CHECK_AND_CALL_SUBCOMPONENT v (dir (vfs v)) o args).

Definition esp_vfs_stat (path : list Z) (st : Z) : VM Z :=
  with_path false path (λ v p, sub_dir v Stat (AStat p st)) (-1).
Definition esp_vfs_utime (path : list Z) (times : Z) : VM Z :=
  with_path false path (λ v p, sub_dir v Utime (AUtime p times)) (-1).
Definition esp_vfs_unlink (path : list Z) : VM Z :=
  with_path true path (λ v p, sub_dir v Unlink (AUnlink p)) (-1).
Definition esp_vfs_mkdir (name : list Z) (mode : Z) : VM Z :=
  with_path true name (λ v p, sub_dir v Mkdir (AMkdir p mode)) (-1).
Definition esp_vfs_rmdir (name : list Z) : VM Z :=
  with_path true name (λ v p, sub_dir v Rmdir (ARmdir p)) (-1).
Definition esp_vfs_access (path : list Z) (amode : Z) : VM Z :=
  with_path false path (λ v p, sub_dir v Access (AAccess p amode)) (-1).
Definition esp_vfs_truncate (path : list Z) (length : Z) : VM Z :=
  with_path true path (λ v p, sub_dir v Truncate (ATruncate p length)) (-1).

(** Entries are compared by address, that is, by their block. *)
Definition same_vfs (v : vfs_entry_t) (o : option vfs_entry_t) : bool :=
  match o with Some v' => entry_block v =? entry_block v' | None => false end.

Definition esp_vfs_link (n1 n2 : list Z) : VM Z :=
  v ← get_vfs_for_path n1;
  match v with
  | None => fail_with ENOENT (-1)
  | Some v =>
      v2 ← get_vfs_for_path n2;
      if negb (same_vfs v v2) then fail_with EXDEV (-1) else
      if flag (flags v) ESP_VFS_FLAG_READONLY_FS then fail_with EROFS (-1) else
      p1 ← translate_path v n1;
      p2 ← translate_path v n2;
      sub_dir v Link (ALink p1 p2)
  end.

Definition esp_vfs_rename (src dst : list Z) : VM Z :=
  v ← get_vfs_for_path src;
  match v with
  | None => fail_with ENOENT (-1)
  | Some v =>
      if flag (flags v) ESP_VFS_FLAG_READONLY_FS then fail_with EROFS (-1) else
      v2 ← get_vfs_for_path dst;
      if negb (same_vfs v v2) then fail_with EXDEV (-1) else
      p1 ← translate_path v src;
      p2 ← translate_path v dst;
      sub_dir v Rename (ARename p1 p2)
  end.

Definition esp_vfs_ftruncate (fd length : Z) : VM Z :=
  with_fd fd (λ v l,
    if flag (flags v) ESP_VFS_FLAG_READONLY_FS then fail_with EROFS (-1) else
    sub_dir v Ftruncate (AFtruncate l length)).

(** ** Directories *)

(** [ret->dd_vfs_idx = vfs->offset], a [uint16_t]. *)
Definition esp_vfs_opendir (name : list Z) : VM Z :=
  with_path false name (λ v p,
    r ← CHECK_AND_CALL_SUBCOMPONENT v (dir (vfs v)) Opendir (AOpendir p);
    match r with
    | None => mret 0
    | Some r =>
        whenM (negb (r =? 0)) (modify (λ s, set_dirs (<[r := u16 (offset v)]> (dirs s)) s));;
        mret r
    end) 0.

(** A call on a directory: the file system of its [dd_vfs_idx]. *)
Definition with_dir (pdir : Z) (failed : Z) (k : vfs_entry_t → VM Z) : VM Z :=
  s ← get;
  match dirs s !! pdir with
  | None => fault
  | Some i =>
      v ← get_vfs_for_index i;
      match v with
      | None => fail_with EBADF failed
      | Some v => k v
      end
  end.

Definition esp_vfs_readdir (pdir : Z) : VM Z :=
  with_dir pdir 0 (λ v,
    r ← CHECK_AND_CALL_SUBCOMPONENT v (dir (vfs v)) Readdir (AReaddir pdir); mret (default 0 r)).
Definition esp_vfs_readdir_r (pdir entry out_dirent : Z) : VM Z :=
  with_dir pdir (-1) (λ v, sub_dir v Readdir_r (AReaddir_r pdir entry out_dirent)).
Definition esp_vfs_telldir (pdir : Z) : VM Z :=
  with_dir pdir (-1) (λ v, sub_dir v Telldir (ATelldir pdir)).
(** [void] *)
Definition esp_vfs_seekdir (pdir loc : Z) : VM unit :=
  with_dir pdir 0 (λ v, sub_dir v Seekdir (ASeekdir pdir loc));; mret ().
Definition esp_vfs_rewinddir (pdir : Z) : VM unit := esp_vfs_seekdir pdir 0.
(** The file system frees the directory. *)
Definition esp_vfs_closedir (pdir : Z) : VM Z :=
  with_dir pdir (-1) (λ v, sub_dir v Closedir (AClosedir pdir)).

(** ** Terminals *)

Definition sub_termios (fd : Z) (o : termios_op) (args : Z → fs_args) : VM Z :=
  with_fd fd (λ v l, or_minus_1 (CHECK_AND_CALL_SUBCOMPONENT v (termios (vfs v)) o (args l))).

Definition tcgetattr (fd p : Z) : VM Z := sub_termios fd Tcgetattr (λ l, ATcgetattr l p).
Definition tcsetattr (fd optional_actions p : Z) : VM Z :=
  sub_termios fd Tcsetattr (λ l, ATcsetattr l optional_actions p).
Definition tcdrain (fd : Z) : VM Z := sub_termios fd Tcdrain ATcdrain.
Definition tcflush (fd select : Z) : VM Z := sub_termios fd Tcflush (λ l, ATcflush l select).
Definition tcflow (fd action : Z) : VM Z := sub_termios fd Tcflow (λ l, ATcflow l action).
Definition tcgetsid (fd : Z) : VM Z := sub_termios fd Tcgetsid ATcgetsid.
Definition tcsendbreak (fd duration : Z) : VM Z := sub_termios fd Tcsendbreak (λ l, ATcsendbreak l duration).

End calls.
