(* ===== verification/VfsSpec.v ===== *)
(** * Virtual file system: what is registered and who owns it

    The invariant of the registry and of the table of descriptors: entries know their
    index, prefixes are valid, descriptors name registered indices, and the blocks in use
    are those of the entries, each owned by one of them.  Registration and removal keep
    it, whichever allocation fails. *)
From Stdlib Require Import ZArith Lia.
From stdpp Require Import base numbers option list gmap.
From S2P Require Import Prelude Vfs.

(** ** Ownership *)

Definition opt_block {op : Type} (o : option (ops_struct op)) : list Z := option_list (block <$> o).
Definition ops_blocks (o : esp_vfs_fs_ops_t) : list Z :=
  ops_block o :: opt_block (dir o) ++ opt_block (termios o) ++ opt_block (select o).
Definition entry_blocks (e : vfs_entry_t) : list Z :=
  entry_block e :: if flag (flags e) ESP_VFS_FLAG_STATIC then [] else ops_blocks (vfs e).
#[global] Arguments entry_blocks : simpl never.
Definition owned (l : list (option vfs_entry_t)) : list Z :=
  concat ((λ o, match o with Some e => entry_blocks e | None => [] end) <$> l).

(** The prefix of an entry: none, the empty one, or a valid one. *)
Definition prefix_ok (e : vfs_entry_t) : Prop :=
  (path_prefix_len e = LEN_PATH_PREFIX_IGNORED ∧ path_prefix e = []) ∨
  (path_prefix_len e = zlen (path_prefix e) ∧
   (path_prefix e = [] ∨ is_path_prefix_valid (path_prefix e) (zlen (path_prefix e)) = true)).

Section spec.
Context {W : Type}.
Context (VFS_MAX_COUNT MAX_FDS : nat).

Abbreviation st := (vfs_state W).
Implicit Types s : st.

Definition fd_ok (count : Z) (e : fd_table_t) : Prop :=
  (vfs_index e = -1 ∨ 0 ≤ vfs_index e < count) ∧ 0 ≤ local_fd e < 256.

(** [extra] are blocks in use that no entry owns. *)
Record vfs_inv (extra : gset Z) (s : st) : Prop := mkVfsInv {
  iv_len : length (s_vfs s) = VFS_MAX_COUNT;
  iv_count : 0 ≤ s_vfs_count s ≤ Z.of_nat VFS_MAX_COUNT;
  iv_above i e : s_vfs s !! i = Some (Some e) → Z.of_nat i < s_vfs_count s;
  iv_entry i e : s_vfs s !! i = Some (Some e) → offset e = Z.of_nat i ∧ prefix_ok e;
  iv_nodup : NoDup (owned (s_vfs s));
  iv_live : live s = list_to_set (owned (s_vfs s)) ∪ extra;
  iv_extra b : b ∈ extra → b ∉ owned (s_vfs s);
  iv_fresh b : b ∈ live s → b < next_block s;
  iv_table_len : length (s_fd_table s) = MAX_FDS;
  iv_table : Forall (fd_ok (s_vfs_count s)) (s_fd_table s) }.

(** ** The heap *)

(** [s'] is [s] with the new blocks [bs]. *)
Definition grown (bs : list Z) (s s' : st) : Prop :=
  ∃ n sup, s' = set_heap (list_to_set bs ∪ live s) n sup s ∧ NoDup bs ∧
    next_block s ≤ n ∧ Forall (λ b, next_block s ≤ b < n) bs.

Definition fresh_above (s : st) : Prop := ∀ b, b ∈ live s → b < next_block s.

Lemma set_heap_same s : set_heap (live s) (next_block s) (supply s) s = s.
Proof. by destruct s. Qed.

Lemma grown_same s : grown [] s s.
Proof.
  exists (next_block s), (supply s). simpl. rewrite union_empty_l_L, set_heap_same.
  split_and!; [done|constructor|lia|constructor].
Qed.

Lemma grown_trans bs cs s s1 s2 : grown bs s s1 → grown cs s1 s2 → grown (cs ++ bs) s s2.
Proof.
  intros (n & sup & -> & Hnd & Hn & Hbs) (n' & sup' & -> & Hnd' & Hn' & Hcs). simpl in *.
  exists n', sup'. split_and!; [|..].
  - by rewrite list_to_set_app_L, (assoc_L (∪)).
  - apply NoDup_app. split_and!; [done| |done]. intros x Hx Hx'.
    rewrite Forall_forall in Hbs, Hcs. specialize (Hbs x Hx'). specialize (Hcs x Hx). lia.
  - lia.
  - apply Forall_app. split; eapply Forall_impl; try eassumption; simpl; lia.
Qed.

Lemma wp_malloc s (Q : option Z → st → Prop) :
  (∀ r s', grown (option_list r) s s' → Q r s') → wp heap_caps_malloc s Q.
Proof.
  intros H. unfold wp, heap_caps_malloc. destruct (supply s) as [|[] sup] eqn:E; apply H.
  - apply grown_same.
  - exists (next_block s + 1), sup. simpl. rewrite union_empty_r_L.
    split_and!; [done|by apply NoDup_singleton|lia|repeat constructor; lia].
  - exists (next_block s), sup. simpl. rewrite union_empty_l_L. split_and!; [done|constructor|lia|constructor].
Qed.

Lemma grown_perm bs cs s s' : bs ≡ₚ cs → grown bs s s' → grown cs s s'.
Proof.
  intros Hp (n & sup & -> & Hnd & Hn & Hbs). exists n, sup. by rewrite <- Hp.
Qed.

(** Freeing one of the new blocks. *)
Lemma wp_free_grown p bs s s1 (Q : () → st → Prop) :
  grown (option_list p ++ bs) s s1 → fresh_above s → (∀ s', grown bs s s' → Q () s') →
  wp (free p) s1 Q.
Proof.
  intros Hg Hf HQ. destruct p as [b|]; [|by apply HQ].
  destruct Hg as (n & sup & -> & Hnd & Hn & Hbs). unfold wp, free. simpl in *.
  apply NoDup_cons in Hnd as [Hb Hnd]. apply Forall_cons in Hbs as [Hbn Hbs].
  rewrite decide_True by set_solver. apply HQ. exists n, sup. split_and!; [|done..].
  unfold set_heap. simpl. f_equal. pose proof (Hf b). apply set_eq. intros x.
  rewrite elem_of_difference, !elem_of_union, elem_of_list_to_set, elem_of_singleton.
  split; [naive_solver|]. intros Hx. split; [naive_solver|]. intros ->. naive_solver lia.
Qed.

(** ** Copies of the structures *)

Definition proxy_blocks (p : vfs_component_proxy_t) : list Z :=
  option_list (p_dir p) ++ option_list (p_termios p) ++ option_list (p_select p).

Lemma wp_free_proxy p bs s s1 (Q : () → st → Prop) :
  grown bs s s1 → bs ≡ₚ proxy_blocks p → fresh_above s → (∀ s', grown [] s s' → Q () s') →
  wp (free_proxy_members p) s1 Q.
Proof.
  intros Hg Hp Hf HQ. apply (grown_perm _ _ _ _ Hp) in Hg. unfold free_proxy_members. unfold proxy_blocks in Hg.
  wp_step. eapply wp_free_grown; [done|done|]. intros s2 Hg2.
  wp_step. eapply wp_free_grown; [done|done|]. intros s3 Hg3.
  eapply (wp_free_grown _ []); [by rewrite app_nil_r|done|]. done.
Qed.

Lemma wp_malloc_if b s (Q : option (option Z) → st → Prop) :
  (∀ r s', grown (option_list r) s s' → bool_decide (is_Some r) = b → Q (Some r) s') →
  (∀ s', grown [] s s' → Q None s') → wp (malloc_if b) s Q.
Proof.
  intros H1 H2. unfold malloc_if. destruct b.
  - wp_step. apply wp_malloc. intros [p|] s' Hg; apply wp_ret; [|by apply H2]. by apply H1.
  - apply wp_ret. apply H1; [apply grown_same|done].
Qed.

Lemma wp_make_proxy d t l s (Q : option vfs_component_proxy_t → st → Prop) :
  fresh_above s →
  (∀ p s', grown (proxy_blocks p) s s' → bool_decide (is_Some (p_dir p)) = d →
     bool_decide (is_Some (p_termios p)) = t → bool_decide (is_Some (p_select p)) = l → Q (Some p) s') →
  (∀ s', grown [] s s' → Q None s') → wp (make_proxy d t l) s Q.
Proof.
  intros Hf H1 H2. unfold make_proxy.
  wp_step. apply wp_malloc_if; [intros od s1 Hg1 Hd|intros s1 Hg1].
  2:{ wp_step. eapply wp_free_proxy; [done|done|done|]. intros s2 Hg. apply wp_ret. by apply H2. }
  wp_step. apply wp_malloc_if; [intros ot s2 Hg2 Ht|intros s2 Hg2].
  2:{ wp_step. eapply (wp_free_proxy _ _ s); [by eapply grown_trans| |done|].
      - unfold proxy_blocks. simpl. by rewrite app_nil_r.
      - intros s3 Hg. apply wp_ret. by apply H2. }
  pose proof (grown_trans _ _ _ _ _ Hg1 Hg2) as Hg12.
  wp_step. apply wp_malloc_if; [intros ol s3 Hg3 Hl|intros s3 Hg3].
  2:{ wp_step. eapply (wp_free_proxy _ _ s); [by eapply grown_trans| |done|].
      - unfold proxy_blocks. simpl. by rewrite app_nil_r, (comm (++)).
      - intros s4 Hg. apply wp_ret. by apply H2. }
  apply wp_ret. apply H1; simpl; [|done..]. eapply grown_perm; [|by eapply grown_trans].
  unfold proxy_blocks. simpl. rewrite (comm (++) (option_list ot)), (comm (++) (option_list ol)).
  by rewrite <- app_assoc.
Qed.

(** What a copy of the functions has to be: the same members, in new blocks. *)
Definition same_members {op : Type} (o : option (ops_struct op)) (f : option (op → option Z)) : Prop :=
  member <$> o = f.

Lemma copy_ops_spec {op : Type} b (o : option (ops_struct op)) :
  bool_decide (is_Some b) = bool_decide (is_Some o) →
  opt_block (copy_ops b o) = option_list b ∧ member <$> copy_ops b o = member <$> o.
Proof. destruct b, o; simpl; intros H; try done. Qed.

Lemma wp_duplicate o s (Q : option esp_vfs_fs_ops_t → st → Prop) :
  fresh_above s →
  (∀ c s', grown (ops_blocks c) s s' → io c = io o → member <$> dir c = member <$> dir o →
     member <$> termios c = member <$> termios o → member <$> select c = member <$> select o → Q (Some c) s') →
  (∀ s', grown [] s s' → Q None s') → wp (esp_vfs_duplicate_fs_ops o) s Q.
Proof.
  intros Hf H1 H2. unfold esp_vfs_duplicate_fs_ops. wp_step.
  apply wp_make_proxy; [done|intros p s1 Hg Hd Ht Hl|intros s1 Hg; apply wp_ret; by apply H2].
  wp_step. apply wp_malloc. intros [b|] s2 Hg2; simpl in Hg2.
  - apply wp_ret.
    destruct (copy_ops_spec _ _ Hd) as [Bd Md], (copy_ops_spec _ _ Ht) as [Bt Mt], (copy_ops_spec _ _ Hl) as [Bl Ml].
    apply H1; simpl; try done. unfold ops_blocks. simpl. rewrite Bd, Bt, Bl.
    apply (grown_trans _ [b] _ _ _ Hg Hg2).
  - wp_step. eapply (wp_free_proxy p _ s); [by eapply grown_trans|done|done|].
    intros s3 Hg3. apply wp_ret. by apply H2.
Qed.

Definition all_members {op : Type} (ops : list op) (f : op → option Z) : option (op → option Z) :=
  if any_member ops f then Some f else None.

Lemma minify_members {op : Type} (ops : list op) (b : option Z) (f : op → option Z) :
  bool_decide (is_Some b) = any_member ops f →
  opt_block ((λ b, mkOps b f) <$> b) = option_list b ∧ member <$> ((λ b, mkOps b f) <$> b) = all_members ops f.
Proof. unfold all_members. intros <-. by destruct b. Qed.

Lemma wp_make_fs_ops v s (Q : esp_err_t * option esp_vfs_fs_ops_t → st → Prop) :
  fresh_above s →
  (∀ c s', grown (ops_blocks c) s s' → io c = v_io v → member <$> dir c = all_members dir_ops (v_dir v) →
     member <$> termios c = all_members termios_ops (v_termios v) →
     member <$> select c = all_members select_ops (v_select v) → Q (ESP_OK, Some c) s') →
  (∀ s', grown [] s s' → Q (ESP_ERR_NO_MEM, None) s') → wp (esp_vfs_make_fs_ops (Some v)) s Q.
Proof.
  intros Hf H1 H2. unfold esp_vfs_make_fs_ops. wp_step.
  apply wp_make_proxy; [done|intros p s1 Hg Hd Ht Hl|intros s1 Hg; apply wp_ret; by apply H2].
  unfold esp_minify_vfs. do 2 wp_step. apply wp_malloc. intros [b|] s2 Hg2; simpl in Hg2; wp_step; simpl.
  - apply wp_ret.
    destruct (minify_members _ _ _ Hd) as [Bd Md], (minify_members _ _ _ Ht) as [Bt Mt],
      (minify_members _ _ _ Hl) as [Bl Ml].
    apply H1; simpl; try done. unfold ops_blocks. simpl. rewrite Bd, Bt, Bl.
    apply (grown_trans _ [b] _ _ _ Hg Hg2).
  - wp_step. eapply (wp_free_proxy p _ s); [by eapply grown_trans|done|done|].
    intros s3 Hg3. apply wp_ret. by apply H2.
Qed.

(** Giving a copy back. *)
Lemma wp_free_fs_ops o bs s s1 (Q : () → st → Prop) :
  grown bs s s1 → bs ≡ₚ ops_blocks o → fresh_above s → (∀ s', grown [] s s' → Q () s') →
  wp (esp_vfs_free_fs_ops o) s1 Q.
Proof.
  intros Hg Hp Hf HQ. unfold esp_vfs_free_fs_ops.
  assert (grown (opt_block (termios o) ++ opt_block (dir o) ++ opt_block (select o) ++ [ops_block o]) s s1) as Hg'.
  { eapply grown_perm; [|done]. rewrite Hp. unfold ops_blocks. rewrite !app_assoc, <- Permutation_cons_append.
    by rewrite (comm (++) (opt_block (termios o))). }
  unfold opt_block in Hg'.
  wp_step. eapply wp_free_grown; [done|done|]. intros s2 Hg2.
  wp_step. eapply wp_free_grown; [done|done|]. intros s3 Hg3.
  wp_step. eapply wp_free_grown; [done|done|]. intros s4 Hg4.
  by eapply (wp_free_grown _ []).
Qed.

(** ** Registration *)

(** The counter after a registration that may have raised it. *)
Definition counted (s : st) (k : Z) : Prop :=
  (k = s_vfs_count s ∨ k = s_vfs_count s + 1) ∧ k ≤ Z.of_nat VFS_MAX_COUNT.

Definition base_len (base_path : option (list Z)) : Z :=
  match base_path with None => LEN_PATH_PREFIX_IGNORED | Some p => zlen p end.

Lemma inv_fresh_above extra s : vfs_inv extra s → fresh_above s.
Proof. intros H b. apply H. Qed.

(** The lowest free place. *)
Definition first_free (s : st) (i : nat) : Prop :=
  s_vfs s !! i = Some None ∧ ∀ j, (j < i)%nat → s_vfs s !! j ≠ Some None.

Lemma free_index_spec extra s i :
  vfs_inv extra s → s_vfs_count s < Z.of_nat VFS_MAX_COUNT →
  list_find (λ e : option vfs_entry_t, e = None) (take VFS_MAX_COUNT (s_vfs s)) = i →
  ∃ j, i = Some (j, None) ∧ first_free s j ∧ Z.of_nat j ≤ s_vfs_count s.
Proof.
  intros Hinv Hc Hf. pose proof (iv_len _ _ Hinv) as Hl. pose proof (iv_count _ _ Hinv).
  rewrite take_ge in Hf by lia. set (c := Z.to_nat (s_vfs_count s)).
  assert (s_vfs s !! c = Some None) as Hnone.
  { destruct (lookup_lt_is_Some_2 (s_vfs s) c) as [[e|] He]; [lia| |done].
    apply (iv_above _ _ Hinv) in He. lia. }
  destruct i as [[j o]|].
  - apply list_find_Some in Hf as (Hj & -> & Hmin). exists j.
    split_and!; [done|split; [done|]|].
    + intros k Hk Hnk. by apply (Hmin k None) in Hnk.
    + destruct (decide (c < j)%nat); [|lia]. by apply (Hmin c None) in Hnone.
  - apply list_find_None in Hf. rewrite Forall_lookup in Hf. by apply (Hf c) in Hnone.
Qed.

Lemma wp_register_common extra base_path v fl c bs s s1 (Q : esp_err_t * option Z → st → Prop) :
  vfs_inv extra s → grown bs s s1 →
  (∀ r k s', r = ESP_ERR_NO_MEM ∨ r = ESP_ERR_INVALID_ARG → counted s k → grown bs (set_count k s) s' →
     Q (r, None) s') →
  (∀ k i b s', let e := mkEntry b fl v c (Z.of_nat i) (base_len base_path) (default [] base_path) in
     counted s k → grown (b :: bs) (set_count k s) s' → first_free s i → Z.of_nat i < k → prefix_ok e →
     Q (ESP_OK, Some (Z.of_nat i)) (set_vfs (<[i := Some e]> (s_vfs s)) s')) →
  wp (esp_vfs_register_fs_common VFS_MAX_COUNT base_path (Some v) fl c) s1 Q.
Proof.
  intros Hinv Hg H1 H2. pose proof (iv_count _ _ Hinv) as Hcount.
  assert (counted s (s_vfs_count s)) as Hc0 by (split; [by left|lia]).
  assert (grown bs (set_count (s_vfs_count s) s) s1) as Hg0 by (by destruct s).
  unfold esp_vfs_register_fs_common. wp_steps.
  destruct (Hg) as (n & sup & Hs1 & _). assert (s_vfs_count s1 = s_vfs_count s ∧ s_vfs s1 = s_vfs s) as [Ec Ev]
    by (rewrite Hs1; done).
  rewrite Ec, Ev. destruct (Z.leb_spec (Z.of_nat VFS_MAX_COUNT) (s_vfs_count s)) as [Hfull|Hroom].
  { apply wp_ret. eapply H1; [by left|done|done]. }
  destruct (match base_path with Some _ => _ | None => false end) eqn:Ebp.
  { apply wp_ret. eapply H1; [by right|done|done]. }
  unfold esp_get_free_index. wp_steps. rewrite Ev.
  destruct (free_index_spec extra s _ Hinv Hroom eq_refl) as (i & -> & Hfirst & Hile).
  destruct (Hfirst) as [Hi _].
  rewrite (proj2 (Z.ltb_ge (Z.of_nat i) 0)), Nat2Z.id, Hi by lia. simpl.
  set (k := if Z.of_nat i =? s_vfs_count s then s_vfs_count s + 1 else s_vfs_count s).
  assert (counted s k ∧ Z.of_nat i < k) as [Hk Hik].
  { subst k. destruct (Z.eqb_spec (Z.of_nat i) (s_vfs_count s)); (split; [|lia]); split; lia. }
  assert (grown bs (set_count k s) (set_count k s1)) as Hgk.
  { destruct Hg as (n' & sup' & -> & Hrest). exists n', sup'. done. }
  wp_step. apply (wp_mono _ _ (λ _ s2, s2 = set_count k s1)).
  { subst k. apply wp_when; intros Ek; rewrite Ek; [apply wp_modify; by rewrite Ec|].
    rewrite <- Ec. by destruct s1. }
  intros _ s2 ->. wp_step. apply wp_malloc. intros [b|] s2 Hg2; simpl in Hg2; wp_steps; cbv beta iota.
  - pose proof (grown_trans _ [b] _ _ _ Hgk Hg2) as Hg3.
    assert (s_vfs s2 = s_vfs s) as -> by (destruct Hg3 as (? & ? & -> & _); done).
    apply wp_ret. unfold default in H2. specialize (H2 k i b s2 Hk Hg3 Hfirst Hik).
    assert ((match base_path with None => LEN_PATH_PREFIX_IGNORED
             | Some _ => match base_path with Some p => zlen p | None => 0 end end) = base_len base_path) as ->
      by by destruct base_path.
    apply H2. destruct base_path as [p|]; [right|by left]. simpl. split; [done|].
    destruct (Z.eqb_spec (zlen p) 0) as [Ez|Ez]; [left|right].
    + destruct p; [done|]. rewrite zlen_cons in Ez. pose proof (zlen_nonneg p). lia.
    + simpl in Ebp. by apply negb_false_iff in Ebp.
  - apply wp_ret. eapply H1; [by left|exact Hk|]. exact (grown_trans _ [] _ _ _ Hgk Hg2).
Qed.

(** *** The blocks of the entries *)

Lemma owned_app l k : owned (l ++ k) = owned l ++ owned k.
Proof. unfold owned. by rewrite fmap_app, concat_app. Qed.

Lemma owned_insert l i e : l !! i = Some None → owned (<[i := Some e]> l) ≡ₚ entry_blocks e ++ owned l.
Proof.
  intros Hi. destruct (insert_split l i (Some e) None Hi) as (l1 & l2 & -> & _ & ->).
  rewrite !owned_app. change (owned (Some e :: l2)) with (entry_blocks e ++ owned l2).
  change (owned (None :: l2)) with (owned l2). rewrite !app_assoc. by rewrite (comm (++) (owned l1)).
Qed.

Lemma owned_remove l i e : l !! i = Some (Some e) → owned l ≡ₚ entry_blocks e ++ owned (<[i := None]> l).
Proof.
  intros Hi. destruct (insert_split l i None (Some e) Hi) as (l1 & l2 & -> & _ & ->).
  rewrite !owned_app. change (owned (Some e :: l2)) with (entry_blocks e ++ owned l2).
  change (owned (None :: l2)) with (owned l2). rewrite !app_assoc. by rewrite (comm (++) (owned l1)).
Qed.

Lemma fd_ok_mono c c' e : c ≤ c' → fd_ok c e → fd_ok c' e.
Proof. intros Hc [[?|?] ?]; split; [by left|done|right; lia|done]. Qed.

Lemma counted_inv extra k s s' :
  vfs_inv extra s → counted s k → grown [] (set_count k s) s' → vfs_inv extra s'.
Proof.
  intros Hinv [Hk Hmax] (n & sup & -> & _ & Hn & _). destruct Hinv. split; simpl in *; try done.
  - lia.
  - intros i e Hi. apply iv_above0 in Hi. lia.
  - by rewrite union_empty_l_L.
  - intros b. rewrite union_empty_l_L. intros Hb%iv_fresh0. lia.
  - eapply Forall_impl; [exact iv_table0|]. intros e. apply fd_ok_mono. lia.
Qed.

Lemma inserted_inv extra bs k i e s s' :
  vfs_inv extra s → counted s k → grown bs (set_count k s) s' → bs ≡ₚ entry_blocks e →
  s_vfs s !! i = Some None → Z.of_nat i < k → offset e = Z.of_nat i → prefix_ok e →
  vfs_inv extra (set_vfs (<[i := Some e]> (s_vfs s)) s').
Proof.
  intros Hinv [Hk Hmax] Hg Hbs Hi Hik Hoff Hpre. apply (grown_perm _ _ _ _ Hbs) in Hg.
  destruct Hg as (n & sup & -> & Hnd & Hn & Hb). cbn [next_block set_count live] in *.
  rewrite Forall_forall in Hb.
  pose proof (owned_insert _ _ e Hi) as Ho.
  assert (∀ b, b ∈ entry_blocks e → b ∉ live s) as Hnew.
  { intros b He Hl. apply (iv_fresh _ _ Hinv) in Hl. specialize (Hb b He). lia. }
  pose proof (iv_live _ _ Hinv) as Hlive.
  split; cbn [s_vfs s_vfs_count s_fd_table live next_block set_vfs set_heap set_count].
  - rewrite length_insert. apply Hinv.
  - pose proof (iv_count _ _ Hinv). lia.
  - intros j f Hj. destruct (decide (j = i)) as [->|Hne]; [done|]. rewrite list_lookup_insert_ne in Hj by done.
    apply (iv_above _ _ Hinv) in Hj. lia.
  - intros j f Hj. destruct (decide (j = i)) as [->|Hne].
    + rewrite list_lookup_insert_eq in Hj by (by eapply lookup_lt_Some). by injection Hj as <-.
    + rewrite list_lookup_insert_ne in Hj by done. by apply (iv_entry _ _ Hinv).
  - rewrite Ho. apply NoDup_app. split_and!; [done| |apply Hinv]. intros b Hb1 Hb2. apply (Hnew b Hb1).
    rewrite Hlive. set_solver.
  - rewrite Ho, list_to_set_app_L, Hlive. by rewrite (assoc_L (∪)).
  - intros b Hx. rewrite Ho, elem_of_app. intros [Hb1|Hb2].
    + apply (Hnew b Hb1). rewrite Hlive. set_solver.
    + by apply (iv_extra _ _ Hinv b).
  - intros b. rewrite elem_of_union, elem_of_list_to_set. intros [Hx|Hx]; [apply Hb in Hx; lia|].
    apply (iv_fresh _ _ Hinv) in Hx. lia.
  - apply Hinv.
  - eapply Forall_impl; [apply Hinv|]. intros f. apply fd_ok_mono. lia.
Qed.

(** *** Freeing an entry *)

(** [s'] is [s] in which, besides [R], the blocks [bs] are in use. *)
Definition holding (R : gset Z) (bs : list Z) (s s' : st) : Prop :=
  s' = set_heap (list_to_set bs ∪ R) (next_block s) (supply s) s ∧ NoDup bs ∧ ∀ b, b ∈ bs → b ∉ R.

Lemma wp_free_holding R p bs s s1 (Q : () → st → Prop) :
  holding R (option_list p ++ bs) s s1 → (∀ s', holding R bs s s' → Q () s') → wp (free p) s1 Q.
Proof.
  intros (-> & Hnd & Hb) HQ. destruct p as [b|]; [|by apply HQ]. simpl in *. apply NoDup_cons in Hnd as [Hn Hnd].
  unfold wp, free. simpl. rewrite decide_True by set_solver. apply HQ. split_and!; [|done|set_solver].
  unfold set_heap. simpl. f_equal. pose proof (Hb b). apply set_eq. intros x.
  rewrite elem_of_difference, !elem_of_union, elem_of_list_to_set, elem_of_singleton.
  split; [naive_solver|]. intros Hx. split; [naive_solver|]. intros ->. set_solver.
Qed.

Lemma holding_perm R bs cs s s' : bs ≡ₚ cs → holding R bs s s' → holding R cs s s'.
Proof.
  intros Hp (-> & Hnd & Hb). unfold holding. rewrite <- Hp. split_and!; [done..|].
  intros b. rewrite <- Hp. apply Hb.
Qed.

Lemma wp_free_entry R e s s1 (Q : () → st → Prop) :
  holding R (entry_blocks e) s s1 → (∀ s', holding R [] s s' → Q () s') →
  wp (esp_vfs_free_entry (Some e)) s1 Q.
Proof.
  intros Hh HQ. unfold esp_vfs_free_entry. wp_step. unfold entry_blocks in Hh.
  assert (∀ s2, holding R [entry_block e] s s2 → wp (free (Some (entry_block e))) s2 Q) as Hend.
  { intros s2 H2. by eapply (wp_free_holding R (Some (entry_block e)) []). }
  destruct (flag (flags e) ESP_VFS_FLAG_STATIC); [by apply wp_ret, Hend|]. cbn [negb whenM].
  apply (holding_perm _ _ (opt_block (termios (vfs e)) ++ opt_block (dir (vfs e)) ++ opt_block (select (vfs e)) ++
    [ops_block (vfs e); entry_block e])) in Hh.
  2:{ unfold ops_blocks. rewrite !app_assoc, <- !Permutation_middle, app_nil_r.
      rewrite (comm (++) (opt_block (termios (vfs e)))), <- app_assoc. by rewrite Permutation_swap. }
  unfold opt_block in Hh. unfold esp_vfs_free_fs_ops.
  wp_step. eapply wp_free_holding; [done|]. intros s2 Hg2.
  wp_step. eapply wp_free_holding; [done|]. intros s3 Hg3.
  wp_step. eapply wp_free_holding; [done|]. intros s4 Hg4.
  eapply (wp_free_holding R (Some (ops_block (vfs e))) [entry_block e]); [done|]. intros s5 Hg5. by apply Hend.
Qed.
End spec.
