(* ===== verification/VfsInv.v ===== *)
(** * Virtual file system: every call keeps the invariant

    The calls of the application as one type, [vfs_call], and the proof that each of them
    returns from a state in order and leaves one: no block is freed twice, no array is
    accessed out of bounds and the assertion on paths holds. *)
From Stdlib Require Import ZArith Lia.
From stdpp Require Import base numbers option list gmap.
From S2P Require Import Prelude Vfs VfsCalls VfsSpec.

Lemma u8_range z : 0 ≤ u8 z < 256.
Proof. unfold u8. apply Z.mod_pos_bound. lia. Qed.

Section inv.
Context {W : Type}.
Context (VFS_MAX_COUNT MAX_FDS : nat).
Hypothesis counts : (VFS_MAX_COUNT ≤ 128)%nat ∧ (VFS_MAX_COUNT ≤ MAX_FDS)%nat ∧ (MAX_FDS ≤ 256)%nat.

Abbreviation st := (vfs_state W).
Abbreviation vfs_inv := (VfsSpec.vfs_inv VFS_MAX_COUNT MAX_FDS).
Implicit Types s : st.

(** ** Registration *)

(** What a registration leaves: nothing but the counter and answers of the heap, or a new
    entry in a free place. *)
Definition unregistered (s s' : st) : Prop :=
  s_vfs s' = s_vfs s ∧ live s' = live s ∧ s_fd_table s' = s_fd_table s.
Definition registered (base_path : option (list Z)) (fl c : Z) (i : nat) (e : vfs_entry_t) (s s' : st) : Prop :=
  s_vfs s !! i = Some None ∧ s_vfs s' = <[i := Some e]> (s_vfs s) ∧ s_fd_table s' = s_fd_table s ∧
  flags e = fl ∧ ctx e = c ∧ path_prefix e = default [] base_path ∧ path_prefix_len e = base_len base_path ∧
  ∀ j, (j < i)%nat → s_vfs s !! j ≠ Some None.

Lemma grown_nil_inv extra k s s' :
  vfs_inv extra s → counted VFS_MAX_COUNT s k → grown [] (set_count k s) s' → vfs_inv extra s' ∧ unregistered s s'.
Proof.
  intros Hinv Hk Hg. split; [by eapply counted_inv|]. destruct Hg as (n & sup & -> & _).
  unfold unregistered. simpl. by rewrite union_empty_l_L.
Qed.

Lemma grown_here s s' bs : grown bs s s' → grown bs (set_count (s_vfs_count s) s) s'.
Proof. intros (n & sup & -> & H). exists n, sup. split; [by destruct s|done]. Qed.

Lemma counted_here extra s : vfs_inv extra s → counted VFS_MAX_COUNT s (s_vfs_count s).
Proof. intros Hinv. split; [by left|apply Hinv]. Qed.

(** Registering a copy, which is given back when that fails. *)
Lemma wp_register_copy {A} extra base_path o fl c s s1 (kf : esp_err_t → VM A) (ks : option Z → VM A)
    (Q : A → st → Prop) :
  vfs_inv extra s → grown (ops_blocks o) s s1 → flag fl ESP_VFS_FLAG_STATIC = false →
  (∀ r s', r = ESP_ERR_NO_MEM ∨ r = ESP_ERR_INVALID_ARG → vfs_inv extra s' → unregistered s s' → wp (kf r) s' Q) →
  (∀ i e s', vfs_inv extra s' → registered base_path fl c i e s s' → vfs e = o → wp (ks (Some (Z.of_nat i))) s' Q) →
  wp ('(ret, index) ← esp_vfs_register_fs_common VFS_MAX_COUNT base_path (Some o) fl c;
      if decide (ret ≠ ESP_OK) then esp_vfs_free_fs_ops o;; kf ret else ks index) s1 Q.
Proof.
  intros Hinv Hg Hstatic H1 H2. wp_step.
  eapply (wp_register_common _ MAX_FDS extra); [done|exact Hg| |].
  - intros r k s' Hr Hk Hg'. rewrite decide_True by (by destruct Hr as [-> | ->]). wp_step.
    eapply (wp_free_fs_ops o _ (set_count k s)); [done|done|exact (inv_fresh_above _ _ _ _ Hinv)|].
    intros s'' Hg''. destruct (grown_nil_inv _ _ _ _ Hinv Hk Hg''). by apply H1.
  - intros k i b s' e Hk Hg' [Hi Hfirst] Hik Hpre. rewrite decide_False by auto. apply (H2 i e); [| |done].
    + eapply inserted_inv; [done|done|exact Hg'| |done..]. unfold entry_blocks. simpl. by rewrite Hstatic.
    + destruct Hg' as (n & sup & -> & _). done.
Qed.

Definition same_functions (o o' : esp_vfs_fs_ops_t) : Prop :=
  io o = io o' ∧ member <$> dir o = member <$> dir o' ∧ member <$> termios o = member <$> termios o' ∧
  member <$> select o = member <$> select o'.

Lemma register_fs_inv extra base_path v fl c s :
  vfs_inv extra s →
  wp (esp_vfs_register_fs VFS_MAX_COUNT base_path v fl c) s (λ r s', vfs_inv extra s' ∧
    match r with
    | ESP_OK => ∃ i e o, v = Some o ∧ base_path ≠ None ∧ registered base_path fl c i e s s' ∧
                         same_functions (vfs e) o
    | _ => unregistered s s'
    end).
Proof.
  intros Hinv. unfold esp_vfs_register_fs.
  destruct v as [v|]; [|by apply wp_ret]. destruct base_path as [p|]; [|by apply wp_ret].
  destruct (flag fl ESP_VFS_FLAG_STATIC) eqn:Estatic; wp_step.
  - eapply (wp_register_common _ MAX_FDS extra _ _ _ _ []); [done|apply grown_same| |].
    + intros r k s' Hr Hk Hg. apply wp_ret. destruct (grown_nil_inv _ _ _ _ Hinv Hk Hg).
      destruct Hr as [-> | ->]; done.
    + intros k i b s' e Hk Hg [Hi Hfirst] Hik Hpre. apply wp_ret. split.
      * eapply inserted_inv; [done|done|exact Hg| |done..]. unfold entry_blocks. simpl. by rewrite Estatic.
      * exists i, e, v. split_and!; [done..| |done]. destruct Hg as (n & sup & -> & _). done.
  - apply wp_duplicate; [by eapply inv_fresh_above| |].
    + intros o s1 Hg Hio Hd Ht Hl.
      eapply (wp_register_copy extra (Some p) o fl c s s1 mret (λ _, mret ESP_OK)); [done..| |].
      * intros r s' Hr Hi Hu. apply wp_ret. split; [done|]. destruct Hr as [-> | ->]; done.
      * intros i e s' Hi Hr <-. apply wp_ret. split; [done|]. by exists i, e, v.
    + intros s' Hg. apply wp_ret. eapply grown_nil_inv; [done|by eapply counted_here|by apply grown_here].
Qed.

Lemma register_common_inv extra base_path len v c s :
  vfs_inv extra s →
  wp (esp_vfs_register_common VFS_MAX_COUNT base_path len v c) s (λ '(r, id) s', vfs_inv extra s' ∧
    match id with
    | Some id => r = ESP_OK ∧ ∃ i e w, id = Z.of_nat i ∧ v = Some w ∧
        registered (if len =? LEN_PATH_PREFIX_IGNORED then None else base_path) (v_flags w) c i e s s' ∧
        flag (v_flags w) ESP_VFS_FLAG_STATIC = false ∧
        io (vfs e) = v_io w ∧ member <$> dir (vfs e) = all_members dir_ops (v_dir w) ∧
        member <$> termios (vfs e) = all_members termios_ops (v_termios w) ∧
        member <$> select (vfs e) = all_members select_ops (v_select w)
    | None => r ≠ ESP_OK ∧ unregistered s s'
    end).
Proof.
  intros Hinv. unfold esp_vfs_register_common. destruct v as [v|]; [|by apply wp_ret].
  destruct (flag (v_flags v) ESP_VFS_FLAG_STATIC) eqn:Estatic; [by apply wp_ret|].
  destruct (negb (len =? LEN_PATH_PREFIX_IGNORED) && _); [by apply wp_ret|]. wp_step.
  apply wp_make_fs_ops; [by eapply inv_fresh_above| |].
  - intros o s1 Hg Hio Hd Ht Hl.
    eapply (wp_register_copy extra _ o (v_flags v) c s s1 (λ r, mret (r, None)) (λ i, mret (ESP_OK, i))); [done..| |].
    + intros r s' Hr Hi Hu. apply wp_ret. destruct Hr as [-> | ->]; done.
    + intros i e s' Hi Hr <-. apply wp_ret. split_and!; [done|done|]. by exists i, e, v.
  - intros s' Hg. apply wp_ret.
    destruct (grown_nil_inv extra _ _ _ Hinv (counted_here _ _ Hinv) (grown_here _ _ _ Hg)). done.
Qed.

(** ** Removal *)

Lemma unused_ok c : fd_ok c FD_TABLE_ENTRY_UNUSED.
Proof. split; [by left|]. simpl. lia. Qed.

(** A table with entries that are kept or become unused. *)
Lemma imap_ok c t (f : nat → fd_table_t → fd_table_t) :
  (∀ j e, f j e = e ∨ f j e = FD_TABLE_ENTRY_UNUSED) → Forall (fd_ok c) t → Forall (fd_ok c) (imap f t).
Proof.
  intros Hf Ht. apply Forall_lookup. intros j e. rewrite list_lookup_imap.
  destruct (t !! j) as [x|] eqn:Ex; [|done]. simpl. intros [= <-].
  destruct (Hf j x) as [-> | ->]; [|apply unused_ok]. by eapply (proj1 (Forall_lookup _ _) Ht).
Qed.

(** The state in which the place of an entry is empty, its blocks [bs] are freed and its
    blocks [ls] are left without an owner. *)
Lemma removed_leak extra i e bs ls s :
  vfs_inv extra s → s_vfs s !! i = Some (Some e) → entry_blocks e ≡ₚ bs ++ ls →
  let extra' := list_to_set ls ∪ extra in
  let R := list_to_set (owned (<[i := None]> (s_vfs s))) ∪ extra' in
  holding R bs s s ∧
  (∀ s', holding R [] s s' → vfs_inv extra' (set_vfs (<[i := None]> (s_vfs s')) s')).
Proof.
  intros Hinv Hi Hsplit extra' R. pose proof (owned_remove _ _ _ Hi) as Ho. rewrite Hsplit in Ho.
  pose proof (iv_nodup _ _ _ _ Hinv) as Hnd. rewrite Ho in Hnd.
  apply NoDup_app in Hnd as ((Hnd1 & Hdis1 & Hnd2)%NoDup_app & Hdis & Hnd3).
  assert (live s = list_to_set bs ∪ R) as Hlive.
  { subst R extra'. rewrite (iv_live _ _ _ _ Hinv), Ho, !list_to_set_app_L. set_solver. }
  assert (∀ b, b ∈ extra → b ∉ bs ∧ b ∉ ls ∧ b ∉ owned (<[i := None]> (s_vfs s))) as Hex.
  { intros b Hb%(iv_extra _ _ _ _ Hinv). rewrite Ho in Hb. set_solver. }
  split.
  - split_and!; [by rewrite <- Hlive, set_heap_same|done|]. intros b Hb. subst R extra'.
    rewrite !elem_of_union, !elem_of_list_to_set. intros [Hx|[Hx|Hx]].
    + apply (Hdis b); [set_solver|done].
    + by apply (Hdis1 b).
    + by apply Hex in Hx as [? _].
  - intros s' (-> & _). destruct Hinv. split; cbn [s_vfs s_vfs_count s_fd_table live next_block set_vfs set_heap]; try done.
    + by rewrite length_insert.
    + intros j f Hj. destruct (decide (j = i)) as [->|Hne].
      * rewrite list_lookup_insert_eq in Hj by (by eapply lookup_lt_Some). done.
      * rewrite list_lookup_insert_ne in Hj by done. by eapply iv_above.
    + intros j f Hj. destruct (decide (j = i)) as [->|Hne].
      * rewrite list_lookup_insert_eq in Hj by (by eapply lookup_lt_Some). done.
      * rewrite list_lookup_insert_ne in Hj by done. by eapply iv_entry.
    + subst R. by rewrite list_to_set_nil, union_empty_l_L.
    + intros b. subst extra'. rewrite elem_of_union, elem_of_list_to_set. intros [Hb|Hb] Hin.
      * apply (Hdis b); [set_solver|done].
      * by apply Hex in Hb as (_ & _ & ?).
    + rewrite list_to_set_nil, union_empty_l_L. intros b Hb. apply iv_fresh. rewrite Hlive. set_solver.
Qed.

Lemma removed_inv extra i e s :
  vfs_inv extra s → s_vfs s !! i = Some (Some e) →
  let R := list_to_set (owned (<[i := None]> (s_vfs s))) ∪ extra in
  holding R (entry_blocks e) s s ∧
  (∀ s', holding R [] s s' → vfs_inv extra (set_vfs (<[i := None]> (s_vfs s')) s')).
Proof.
  intros Hinv Hi R. assert (entry_blocks e ≡ₚ entry_blocks e ++ []) as Hs by by rewrite app_nil_r.
  destruct (removed_leak extra i e (entry_blocks e) [] s Hinv Hi Hs) as [H1 H2].
  rewrite list_to_set_nil, union_empty_l_L in H1, H2. done.
Qed.

Lemma table_inv extra t s :
  vfs_inv extra s → length t = MAX_FDS → Forall (fd_ok (s_vfs_count s)) t → vfs_inv extra (set_table t s).
Proof. intros [] ? ?. by split. Qed.

Lemma drop_refs_inv extra id s :
  vfs_inv extra s →
  wp (drop_refs VFS_MAX_COUNT id) s (λ _ s', vfs_inv extra s' ∧
    s' = set_table (imap (λ j e, if decide (j < VFS_MAX_COUNT)%nat then
                                   if vfs_index e =? id then FD_TABLE_ENTRY_UNUSED else e
                                 else e) (s_fd_table s)) s).
Proof.
  intros Hinv. unfold wp, drop_refs. rewrite decide_True by (rewrite (iv_table_len _ _ _ _ Hinv); lia).
  split; [|done]. apply table_inv; [done|rewrite length_imap; apply Hinv|]. apply imap_ok; [|apply Hinv].
  intros j e. destruct (decide _); [destruct (_ =? _)|]; auto.
Qed.

Lemma unregister_with_id_inv extra id s :
  vfs_inv extra s →
  wp (esp_vfs_unregister_with_id VFS_MAX_COUNT id) s (λ r s', vfs_inv extra s' ∧
    match r with
    | ESP_OK => ∃ e, 0 ≤ id ∧ s_vfs s !! Z.to_nat id = Some (Some e) ∧
        s_vfs s' = <[Z.to_nat id := None]> (s_vfs s) ∧ s_vfs_count s' = s_vfs_count s ∧
        live s' = live s ∖ list_to_set (entry_blocks e) ∧
        ∀ j f, s_fd_table s !! j = Some f →
          s_fd_table s' !! j = Some (if decide ((j < VFS_MAX_COUNT)%nat ∧ vfs_index f = id)
                                     then FD_TABLE_ENTRY_UNUSED else f)
    | _ => s' = s ∧ ∀ e, 0 ≤ id → s_vfs s !! Z.to_nat id ≠ Some (Some e)
    end).
Proof.
  intros Hinv. unfold esp_vfs_unregister_with_id. wp_steps.
  destruct (_ || _) eqn:Erange.
  { apply wp_ret. split_and!; [done|done|]. intros e Hge Hi%lookup_lt_Some.
    rewrite (iv_len _ _ _ _ Hinv) in Hi. apply orb_true_iff in Erange as [?%Z.ltb_lt|?%Z.leb_le]; lia. }
  apply orb_false_iff in Erange as [Hge%Z.ltb_ge _].
  destruct (s_vfs s !! Z.to_nat id) as [[e|]|] eqn:Hi; simpl; [|by apply wp_ret..].
  destruct (removed_inv _ _ _ _ Hinv Hi) as [Hh Hrem]. wp_step. eapply wp_free_entry; [exact Hh|].
  intros s1 Hh1. specialize (Hrem s1 Hh1). do 2 wp_step. wp_step.
  eapply wp_mono; [by apply drop_refs_inv|]. intros _ s2 [Hinv2 ->]. apply wp_ret. split; [done|].
  destruct Hh as (Hs & Hnd & Hdis). destruct Hh1 as (-> & _). exists e.
  cbn [s_vfs s_vfs_count live s_fd_table set_table set_vfs set_heap]. split_and!; try done.
  - apply (f_equal live) in Hs. cbn [live set_heap] in Hs. rewrite Hs. set_solver.
  - intros j f Hj. rewrite list_lookup_imap, Hj. simpl. f_equal.
    destruct (decide (j < VFS_MAX_COUNT)%nat) as [Hjl|Hjl].
    + destruct (Z.eqb_spec (vfs_index f) id) as [Ev|Ev].
      * by rewrite decide_True.
      * by rewrite decide_False by naive_solver.
    + by rewrite decide_False by naive_solver.
Qed.

(** ** Descriptors *)

Lemma wp_fd_read extra i s (Q : fd_table_t → st → Prop) :
  vfs_inv extra s → (i < MAX_FDS)%nat →
  (∀ e, s_fd_table s !! i = Some e → fd_ok (s_vfs_count s) e → Q e s) → wp (fd_read i) s Q.
Proof.
  intros Hinv Hi HQ. unfold wp, fd_read.
  destruct (lookup_lt_is_Some_2 (s_fd_table s) i) as [e He]; [by rewrite (iv_table_len _ _ _ _ Hinv)|].
  rewrite He. apply HQ; [done|]. by eapply (proj1 (Forall_lookup _ _) (iv_table _ _ _ _ Hinv)).
Qed.

Lemma wp_fd_write extra i e s (Q : () → st → Prop) :
  vfs_inv extra s → (i < MAX_FDS)%nat → fd_ok (s_vfs_count s) e →
  (vfs_inv extra (set_table (<[i := e]> (s_fd_table s)) s) → Q () (set_table (<[i := e]> (s_fd_table s)) s)) →
  wp (fd_write i e) s Q.
Proof.
  intros Hinv Hi He HQ. unfold wp, fd_write.
  destruct (lookup_lt_is_Some_2 (s_fd_table s) i) as [x ->]; [by rewrite (iv_table_len _ _ _ _ Hinv)|].
  apply HQ. apply table_inv; [done|rewrite length_insert; apply Hinv|].
  apply Forall_insert; [apply Hinv|done].
Qed.

Lemma free_fd_spec extra s (Q : option nat → st → Prop) :
  vfs_inv extra s →
  (∀ i e, s_fd_table s !! i = Some e → vfs_index e = -1 → (i < MAX_FDS)%nat →
     (∀ j f, (j < i)%nat → s_fd_table s !! j = Some f → vfs_index f ≠ -1) → Q (Some i) s) →
  (Forall (λ e, vfs_index e ≠ -1) (s_fd_table s) → Q None s) →
  wp (free_fd MAX_FDS) s Q.
Proof.
  intros Hinv H1 H2. unfold free_fd. wp_steps. rewrite take_ge by (by rewrite (iv_table_len _ _ _ _ Hinv)).
  destruct (list_find _ (s_fd_table s)) as [[i e]|] eqn:E; simpl.
  - apply list_find_Some in E as (Hi & He & Hmin). apply (H1 i e); try done.
    + apply lookup_lt_Some in Hi. by rewrite (iv_table_len _ _ _ _ Hinv) in Hi.
    + intros j f Hj Hf. exact (Hmin j f Hf Hj).
  - apply H2. apply list_find_None in E. exact E.
Qed.

Lemma register_fd_inv extra id local perm fd s :
  vfs_inv extra s →
  wp (esp_vfs_register_fd_with_local_fd MAX_FDS id local perm fd) s (λ '(r, x) s', vfs_inv extra s' ∧
    match x with
    | Some fd => r = ESP_OK ∧ ∃ i f, fd = Z.of_nat i ∧ s_fd_table s !! i = Some f ∧ vfs_index f = -1 ∧
        s' = set_table (<[i := mkFd perm (has_pending_close f) (has_pending_select f) id
                               (if 0 <=? local then u8 local else Z.of_nat i)]> (s_fd_table s)) s
    | None => r ≠ ESP_OK ∧ s' = s
    end).
Proof.
  intros Hinv. pose proof (iv_count _ _ _ _ Hinv). unfold esp_vfs_register_fd_with_local_fd. wp_step. wp_step.
  destruct (_ || _) eqn:Eargs; [by apply wp_ret|]. wp_step.
  apply orb_false_iff in Eargs as [[Hid%Z.ltb_ge Hc%Z.leb_gt]%orb_false_iff _].
  eapply free_fd_spec; [done| |intros _; by apply wp_ret].
  intros i e Hi He Hm _. wp_step. eapply wp_fd_read; [done..|]. intros f Hf Hok.
  rewrite Hi in Hf. injection Hf as <-. wp_step.
  assert (i8 id = id ∧ u8 (Z.of_nat i) = Z.of_nat i) as [-> ->].
  { split; [apply i8_small; lia|]. unfold u8. apply Z.mod_small. lia. }
  eapply wp_fd_write; [done..| |].
  - split; simpl; [right; lia|]. destruct (0 <=? local); [apply u8_range|lia].
  - intros Hinv'. apply wp_ret. split_and!; [done|done|]. by exists i, e.
Qed.

Lemma unregister_fd_inv extra id fd s :
  vfs_inv extra s →
  wp (esp_vfs_unregister_fd MAX_FDS id fd) s (λ r s', vfs_inv extra s' ∧
    match r with
    | ESP_OK => ∃ f, s_fd_table s !! Z.to_nat fd = Some f ∧ permanent f = true ∧ vfs_index f = id ∧
        local_fd f = fd ∧ s' = set_table (<[Z.to_nat fd := FD_TABLE_ENTRY_UNUSED]> (s_fd_table s)) s
    | _ => s' = s
    end).
Proof.
  intros Hinv. unfold esp_vfs_unregister_fd. wp_step. wp_step.
  destruct (_ || _) eqn:Eargs; [by apply wp_ret|].
  apply orb_false_iff in Eargs as [[_ Hfd%Z.ltb_ge]%orb_false_iff Hm%Z.leb_gt]. wp_step.
  eapply wp_fd_read; [done|lia|]. intros f Hf Hok.
  destruct (permanent f && _ && _) eqn:Ef; [|by apply wp_ret].
  apply andb_true_iff in Ef as [[Hp Hv%Z.eqb_eq]%andb_true_iff Hl%Z.eqb_eq]. wp_step.
  eapply wp_fd_write; [done|lia|apply unused_ok|]. intros Hinv'. apply wp_ret. split; [done|]. by exists f.
Qed.

(** ** Changing what is registered *)

Lemma find_prefix_spec base_path s (Q : option (nat * vfs_entry_t) → st → Prop) :
  (∀ i e, s_vfs s !! i = Some (Some e) → same_prefix base_path e = true → Q (Some (i, e)) s) →
  Q None s → wp (find_prefix base_path) s Q.
Proof.
  intros H1 H2. unfold find_prefix. wp_steps.
  destruct (list_find _ _) as [[i [e|]]|] eqn:E; [|done..].
  apply list_find_Some in E as (Hi & He & _). apply H1; [|done].
  by apply lookup_take_Some in Hi as [? _].
Qed.

Lemma unregister_inv extra base_path s :
  vfs_inv extra s → wp (esp_vfs_unregister VFS_MAX_COUNT base_path) s (λ _ s', vfs_inv extra s').
Proof.
  intros Hinv. unfold esp_vfs_unregister. wp_step. apply find_prefix_spec; [intros i e Hi _|by apply wp_ret].
  eapply wp_mono; [by apply unregister_with_id_inv|]. by intros r s' [? _].
Qed.

Lemma readonly_inv extra base_path s :
  vfs_inv extra s → wp (esp_vfs_set_readonly_flag base_path) s (λ _ s', vfs_inv extra s').
Proof.
  intros Hinv. unfold esp_vfs_set_readonly_flag. wp_step.
  apply find_prefix_spec; [intros i e Hi _|by apply wp_ret]. wp_steps.
  set (e' := mkEntry _ _ _ _ _ _ _).
  assert (owned (<[i := Some e']> (s_vfs s)) = owned (s_vfs s)) as Ho.
  { assert (entry_blocks e' = entry_blocks e) as He'.
    { unfold entry_blocks. subst e'. simpl. by rewrite flag_lor_disjoint by done. }
    unfold owned. f_equal. rewrite list_fmap_insert. apply list_insert_id.
    rewrite list_lookup_fmap, Hi. simpl. by rewrite He'. }
  pose proof (lookup_lt_Some _ _ _ Hi) as Hlt.
  destruct Hinv. split; simpl; rewrite ?Ho, ?length_insert; try done.
  - intros j f Hj. destruct (decide (j = i)) as [->|Hne]; [by eapply iv_above|].
    rewrite list_lookup_insert_ne in Hj by done. by eapply iv_above.
  - intros j f Hj. destruct (decide (j = i)) as [->|Hne].
    + rewrite list_lookup_insert_eq in Hj by done. injection Hj as <-. by apply (iv_entry i e).
    + rewrite list_lookup_insert_ne in Hj by done. by eapply iv_entry.
Qed.

(** ** Finding a file system by path *)

(** The entry handles the path: its prefix starts the path and ends it or is followed by a
    separator; the empty prefix handles every path. *)
Definition path_matches (path : list Z) (e : vfs_entry_t) : Prop :=
  path_prefix_len e ≠ LEN_PATH_PREFIX_IGNORED ∧ path_prefix e `prefix_of` path ∧
  (path_prefix e = [] ∨ length path = length (path_prefix e) ∨ path !! length (path_prefix e) = Some SLASH).

(** [v] is the longest match in [l], and the first one of its length. *)
Definition best_match (path : list Z) (l : list (option vfs_entry_t)) (v : vfs_entry_t) : Prop :=
  ∃ i, l !! i = Some (Some v) ∧ path_matches path v ∧
    ∀ j e, l !! j = Some (Some e) → path_matches path e →
      path_prefix_len e ≤ path_prefix_len v ∧
      (path_prefix_len e = path_prefix_len v → 0 < path_prefix_len v → (i ≤ j)%nat).
Definition no_match (path : list Z) (l : list (option vfs_entry_t)) : Prop :=
  ∀ j e, l !! j = Some (Some e) → ¬ path_matches path e.

(** What the loop knows after the entries [l]. *)
Definition best_ok (path : list Z) (l : list (option vfs_entry_t)) (b : option vfs_entry_t * Z) : Prop :=
  match b.1 with
  | None => b.2 = -1 ∧ no_match path l
  | Some v => 0 ≤ path_prefix_len v ∧ (b.2 = path_prefix_len v ∨ (b.2 = -1 ∧ path_prefix_len v = 0)) ∧
              best_match path l v
  end.

Lemma ignored_large : LEN_PATH_PREFIX_IGNORED = 4294967295.
Proof. done. Qed.

Lemma prefix_len_ok e : prefix_ok e → path_prefix_len e ≠ LEN_PATH_PREFIX_IGNORED →
  path_prefix_len e = zlen (path_prefix e) ∧ (path_prefix e = [] ∨ 2 ≤ path_prefix_len e ≤ 15).
Proof.
  intros [[? _]|[Hl Hv]] Hn; [done|]. split; [done|]. destruct Hv as [?|Hv]; [by left|right].
  unfold is_path_prefix_valid in Hv. apply andb_true_iff in Hv as [[[H1%Z.leb_le H2%Z.leb_le]%andb_true_iff _]%andb_true_iff _].
  unfold ESP_VFS_PATH_MAX in H2. lia.
Qed.

Lemma prefix_take (p path : list Z) : take (length p) path = p ↔ p `prefix_of` path.
Proof.
  split.
  - intros E. exists (drop (length p) path). rewrite <- E at 1. by rewrite take_drop.
  - intros [k ->]. apply take_app_length.
Qed.

Lemma no_match_step path l o :
  no_match path l → (∀ e, o = Some e → ¬ path_matches path e) → no_match path (l ++ [o]).
Proof.
  intros Hl Ho j e Hj. apply lookup_app_Some in Hj as [Hj|[_ Hj]]; [by apply (Hl j)|].
  apply list_lookup_singleton_Some in Hj as [_ ->]. by apply Ho.
Qed.

Lemma best_match_keep path l v o :
  best_match path l v →
  (∀ e, o = Some e → path_matches path e → path_prefix_len e ≤ path_prefix_len v) →
  best_match path (l ++ [o]) v.
Proof.
  intros (i & Hi & Hm & Hmax) Ho. pose proof (lookup_lt_Some _ _ _ Hi). exists i.
  split_and!; [by apply lookup_app_l_Some|done|]. intros j e Hj He.
  apply lookup_app_Some in Hj as [Hj|[Hlen Hj]]; [by apply Hmax|].
  apply list_lookup_singleton_Some in Hj as [_ ->]. split; [by apply Ho|lia].
Qed.

Lemma best_match_new path l v :
  path_matches path v →
  (∀ j e, l !! j = Some (Some e) → path_matches path e →
     path_prefix_len e < path_prefix_len v ∨ (path_prefix_len e ≤ path_prefix_len v ∧ path_prefix_len v ≤ 0)) →
  best_match path (l ++ [Some v]) v.
Proof.
  intros Hm Hl. exists (length l). rewrite lookup_app_r, Nat.sub_diag by lia. split_and!; [done|done|].
  intros j e Hj He. apply lookup_app_Some in Hj as [Hj|[Hlen Hj]].
  - destruct (Hl j e Hj He); lia.
  - apply list_lookup_singleton_Some in Hj as [Hj [= <-]]. lia.
Qed.

Lemma match_step_ok path l o b :
  (∀ e, o = Some e → prefix_ok e) → best_ok path l b → best_ok path (l ++ [o]) (match_step path b o).
Proof.
  intros Ho Hb. unfold match_step.
  assert ((∀ e, o = Some e → ¬ path_matches path e) → best_ok path (l ++ [o]) b) as Hskip.
  { intros Hno. unfold best_ok in *. destruct b as [[v|] n]; simpl in *.
    - destruct Hb as (? & ? & Hb). split_and!; [done..|]. apply best_match_keep; [done|].
      intros e He Hm. by destruct (Hno e He).
    - destruct Hb as [? Hb]. split; [done|]. by apply no_match_step. }
  destruct o as [v|]; [|by apply Hskip]. specialize (Ho v eq_refl).
  destruct (Z.eqb_spec (path_prefix_len v) LEN_PATH_PREFIX_IGNORED) as [Ei|Ei].
  { apply Hskip. intros e [= <-] [? _]. done. }
  destruct (prefix_len_ok v Ho Ei) as [Hlen Hsize].
  assert (Z.to_nat (path_prefix_len v) = length (path_prefix v)) as En by (rewrite Hlen; unfold zlen; lia).
  rewrite En, (take_ge (path_prefix v)) by lia.
  destruct ((zlen path <? path_prefix_len v) || _) eqn:Epre.
  { apply Hskip. intros e [= <-] (_ & Hp & _). apply orb_true_iff in Epre as [Hl%Z.ltb_lt|Hne].
    - apply prefix_length in Hp. unfold zlen in *. lia.
    - apply negb_true_iff, bool_decide_eq_false_1 in Hne. by apply Hne, prefix_take. }
  apply orb_false_iff in Epre as [Hle%Z.ltb_ge Hpre].
  apply negb_false_iff, bool_decide_eq_true_1, prefix_take in Hpre.
  destruct ((path_prefix_len v =? 0) && bool_decide (b.1 = None)) eqn:Edef.
  { apply andb_true_iff in Edef as [Ez%Z.eqb_eq En0%bool_decide_eq_true_1].
    assert (path_prefix v = []) as Enil by (destruct Hsize; [done|lia]).
    unfold best_ok in *. simpl. rewrite En0 in Hb. destruct Hb as [-> Hno]. split_and!; [lia|by right|].
    apply best_match_new; [|intros j e Hj Hm; by destruct (Hno j e Hj)].
    split_and!; [done|done|by left]. }
  destruct ((path_prefix_len v <? zlen path) && _) eqn:Esep.
  { apply andb_true_iff in Esep as [Hlt%Z.ltb_lt Hs%negb_true_iff%Z.eqb_neq].
    destruct (decide (path_prefix v = [])) as [Enil|Hnil].
    - (* the empty prefix, after some match *)
      unfold best_ok in *. destruct b as [[w|] n]; simpl in *.
      + destruct Hb as (? & ? & Hb). split_and!; [done..|]. apply best_match_keep; [done|]. intros e [= <-] _.
        rewrite Hlen, Enil, zlen_nil. lia.
      + rewrite Hlen, Enil in Edef. done.
    - apply Hskip. intros e [= <-] (_ & _ & [?|[Hl|Hsl]]); [done|unfold zlen in *; lia|].
      apply Hs. by apply list_lookup_total_correct. }
  assert (path_matches path v) as Hm.
  { split_and!; [done|done|]. destruct (decide (path_prefix v = [])) as [?|Hnil]; [by left|right].
    apply andb_false_iff in Esep as [Hge%Z.ltb_ge|Hs%negb_false_iff%Z.eqb_eq]; [left; unfold zlen in *; lia|].
    destruct (decide (length path = length (path_prefix v))) as [|Hne]; [by left|right].
    apply list_lookup_alt. split; [unfold zlen in *; lia|done]. }
  pose proof (zlen_nonneg (path_prefix v)). unfold best_ok in *.
  destruct (Z.ltb_spec b.2 (path_prefix_len v)) as [Hlt|Hge]; simpl.
  - split_and!; [lia|by left|]. apply best_match_new; [done|]. intros j e Hj He.
    destruct b as [[w|] n]; simpl in *; [|by destruct Hb as [_ Hno]; destruct (Hno j e Hj)].
    destruct Hb as (? & Hn & (i & _ & _ & Hmax)). destruct (Hmax j e Hj He) as [Hmax' _]. lia.
  - destruct b as [[w|] n]; simpl in *; [|lia].
    destruct Hb as (? & Hn & Hb). split_and!; [done..|]. apply best_match_keep; [done|].
    intros e [= <-] _. lia.
Qed.

Lemma get_vfs_for_path_spec extra path s :
  vfs_inv extra s →
  wp (get_vfs_for_path path) s (λ r s', s' = s ∧
    match r with Some v => best_match path (s_vfs s) v | None => no_match path (s_vfs s) end).
Proof.
  intros Hinv. unfold get_vfs_for_path. wp_steps. split; [done|].
  pose proof (iv_count _ _ _ _ Hinv). pose proof (iv_len _ _ _ _ Hinv).
  set (n := Z.to_nat (s_vfs_count s)).
  assert (∀ k, best_ok path (take k (s_vfs s)) (foldl (match_step path) (None, -1) (take k (s_vfs s)))) as Hall.
  { induction k as [|k IH]; [by split; [|intros j e]|].
    destruct (s_vfs s !! k) as [o|] eqn:Ek.
    - rewrite (take_S_r _ _ _ Ek), foldl_app. apply match_step_ok; [|done].
      intros e ->. by apply (iv_entry _ _ _ _ Hinv k e).
    - apply lookup_ge_None_1 in Ek. rewrite (take_ge _ (S k)) by lia. by rewrite (take_ge _ k) in IH by lia. }
  specialize (Hall n). destruct (foldl _ _ _) as [[v|] m]; unfold best_ok in Hall; simpl in *.
  - destruct Hall as (_ & _ & i & Hi & Hm & Hmax). exists i. apply lookup_take_Some in Hi as [Hi _].
    split_and!; [done|done|]. intros j e Hj. apply (Hmax j e), lookup_take_Some. split; [done|].
    apply (iv_above _ _ _ _ Hinv) in Hj. lia.
  - destruct Hall as [_ Hno]. intros j e Hj. apply (Hno j e), lookup_take_Some. split; [done|].
    apply (iv_above _ _ _ _ Hinv) in Hj. lia.
Qed.

(** The assertion of [translate_path] holds for a match. *)
Lemma strncmp_prefix (p path : list Z) : p `prefix_of` path → strncmp_eq path p (length p) = true.
Proof. intros [k ->]. induction p; simpl; [done|]. by rewrite Z.eqb_refl. Qed.

Lemma translate_path_spec path e s (Q : list Z → st → Prop) :
  prefix_ok e → path_matches path e →
  Q (if decide (path = path_prefix e) then [SLASH] else drop (length (path_prefix e)) path) s →
  wp (translate_path e path) s Q.
Proof.
  intros Hok (Hn & Hp & _) HQ. destruct (prefix_len_ok e Hok Hn) as [Hlen _]. unfold translate_path. wp_step.
  assert (Z.to_nat (path_prefix_len e) = length (path_prefix e)) as En by (rewrite Hlen; unfold zlen; lia).
  rewrite En. apply wp_assert; [by apply strncmp_prefix|]. rewrite Hlen.
  destruct (Z.eqb_spec (zlen path) (zlen (path_prefix e))) as [El|El]; apply wp_ret.
  - rewrite decide_True in HQ; [done|]. symmetry. destruct Hp as [k ->]. unfold zlen in El.
    rewrite length_app in El. assert (length k = 0)%nat as ->%nil_length_inv by lia. by rewrite app_nil_r.
  - rewrite decide_False in HQ; [done|]. by intros ->.
Qed.

(** ** Calls that only pass on

    Most calls change nothing that the invariant speaks of. *)

Context (drv : Z → option Z → fs_args → Z → W → Z * Z * W).

Definition same_reg (s s' : st) : Prop :=
  s_vfs s' = s_vfs s ∧ s_vfs_count s' = s_vfs_count s ∧ s_fd_table s' = s_fd_table s ∧
  live s' = live s ∧ next_block s' = next_block s ∧ supply s' = supply s.

#[local] Instance same_reg_preorder : PreOrder same_reg.
Proof.
  split; [done|]. unfold same_reg.
  intros s1 s2 s3 (-> & -> & -> & -> & -> & ->) (-> & -> & -> & -> & -> & ->). done.
Qed.

Lemma same_reg_inv extra s s' : same_reg s s' → vfs_inv extra s → vfs_inv extra s'.
Proof.
  intros (E1 & E2 & E3 & E4 & E5 & _) []. split; rewrite ?E1, ?E2, ?E3, ?E4, ?E5; done.
Qed.

(** [m] returns from a state in order and changes nothing of it. *)
Definition passive {A} (m : VM A) : Prop :=
  ∀ extra s, vfs_inv extra s → wp m s (λ _ s', same_reg s s').

Lemma passive_ret {A} (a : A) : passive (mret a).
Proof. intros extra s _. by apply wp_ret. Qed.

Lemma passive_bind {A B} (m : VM A) (k : A → VM B) : passive m → (∀ a, passive (k a)) → passive (m ≫= k).
Proof.
  intros Hm Hk extra s Hinv. wp_step. eapply wp_mono; [by eapply Hm|]. intros a s' Hs.
  eapply wp_mono; [by apply (Hk a extra), (same_reg_inv extra s)|]. intros b s'' Hs'. by trans s'.
Qed.

Lemma passive_fail {A} e (r : A) : passive (fail_with e r).
Proof. intros extra s _. unfold fail_with. by wp_steps. Qed.

Lemma passive_call v f args : passive (call drv v f args).
Proof. intros extra s _. unfold wp, call. by destruct (drv _ _ _ _ _) as [[r e] w]. Qed.

Lemma passive_check v op args : passive (CHECK_AND_CALL drv v op args).
Proof.
  unfold CHECK_AND_CALL. destruct (io (vfs v) op); [|apply passive_fail].
  apply passive_bind; [apply passive_call|]. intros; apply passive_ret.
Qed.

Lemma passive_check_sub {op} v (c : option (ops_struct op)) o args :
  passive (CHECK_AND_CALL_SUBCOMPONENT drv v c o args).
Proof.
  unfold CHECK_AND_CALL_SUBCOMPONENT. destruct (_ ≫= _); [|apply passive_fail].
  apply passive_bind; [apply passive_call|]. intros; apply passive_ret.
Qed.

Lemma passive_or_minus_1 m : passive m → passive (or_minus_1 m).
Proof. intros Hm. unfold or_minus_1. apply passive_bind; [done|]. intros; apply passive_ret. Qed.

Lemma passive_sub_dir v o args : passive (sub_dir drv v o args).
Proof. apply passive_or_minus_1, passive_check_sub. Qed.

Lemma get_vfs_for_index_spec extra index s :
  vfs_inv extra s →
  wp (get_vfs_for_index index) s (λ r s', s' = s ∧
    match r with Some v => 0 ≤ index ∧ s_vfs s !! Z.to_nat index = Some (Some v) | None => True end).
Proof.
  intros Hinv. unfold get_vfs_for_index. wp_steps. destruct (_ || _) eqn:E; [by apply wp_ret|].
  apply orb_false_iff in E as [Hge%Z.ltb_ge Hlt%Z.leb_gt].
  destruct (lookup_lt_is_Some_2 (s_vfs s) (Z.to_nat index)) as [o Ho].
  { rewrite (iv_len _ _ _ _ Hinv). pose proof (iv_count _ _ _ _ Hinv). lia. }
  rewrite Ho. apply wp_ret. split; [done|]. destruct o; done.
Qed.

(** A descriptor in use leads to the file system of its index and to its own descriptor. *)
Lemma with_fd_spec extra fd k s (Q : Z → st → Prop) :
  vfs_inv extra s →
  (∀ v f, 0 ≤ fd < Z.of_nat MAX_FDS → s_fd_table s !! Z.to_nat fd = Some f → 0 ≤ vfs_index f →
     s_vfs s !! Z.to_nat (vfs_index f) = Some (Some v) → wp (k v (local_fd f)) s Q) →
  Q (-1) (set_errno EBADF s) → wp (with_fd MAX_FDS fd k) s Q.
Proof.
  intros Hinv H1 H2. unfold with_fd, get_vfs_for_fd. wp_step.
  destruct (fd_valid MAX_FDS fd) eqn:Ev; [|wp_steps; unfold fail_with; by wp_steps].
  unfold fd_valid in Ev. apply andb_true_iff in Ev as [Hlt%Z.ltb_lt Hge%Z.leb_le]. wp_step.
  eapply wp_fd_read; [done|lia|]. intros f Hf [_ Hok]. eapply wp_mono; [by eapply get_vfs_for_index_spec|].
  intros o s1 [-> Hv]. wp_step. unfold get_local_fd. destruct o as [v|]; [|unfold fail_with; by wp_steps].
  unfold fd_valid. rewrite (proj2 (Z.ltb_lt _ _) Hlt), (proj2 (Z.leb_le _ _) Hge). simpl. wp_step.
  eapply wp_fd_read; [done|lia|]. intros f' Hf' _. rewrite Hf in Hf'. injection Hf' as <-. apply wp_ret.
  rewrite (proj2 (Z.ltb_ge (local_fd f) 0)) by lia. destruct Hv. by apply H1.
Qed.

(** The same for a descriptor that is known to be in use. *)
Lemma with_fd_known extra fd k v f s (Q : Z → st → Prop) :
  vfs_inv extra s → s_fd_table s !! fd = Some f → 0 ≤ vfs_index f →
  s_vfs s !! Z.to_nat (vfs_index f) = Some (Some v) → wp (k v (local_fd f)) s Q →
  wp (with_fd MAX_FDS (Z.of_nat fd) k) s Q.
Proof.
  intros Hinv Hf Hge Hv Hk. pose proof (iv_above _ _ _ _ Hinv _ _ Hv) as Hlt.
  assert (fd < MAX_FDS)%nat as Hfd by (rewrite <- (iv_table_len _ _ _ _ Hinv); by eapply lookup_lt_Some).
  assert (fd_valid MAX_FDS (Z.of_nat fd) = true) as Hval.
  { unfold fd_valid. by rewrite (proj2 (Z.ltb_lt _ _)), (proj2 (Z.leb_le _ _)) by lia. }
  destruct (proj1 (Forall_lookup _ _) (iv_table _ _ _ _ Hinv) _ _ Hf) as [_ Hl].
  unfold with_fd, get_vfs_for_fd, get_vfs_for_index. rewrite Hval, Nat2Z.id. do 2 wp_step.
  eapply wp_fd_read; [done|done|]. intros f' Hf' _. rewrite Hf in Hf'. injection Hf' as <-. wp_steps.
  rewrite (proj2 (Z.ltb_ge (vfs_index f) 0)), (proj2 (Z.leb_gt (s_vfs_count s) (vfs_index f))) by lia.
  cbn [orb]. rewrite Hv. wp_steps. unfold get_local_fd. rewrite Hval, Nat2Z.id. wp_step.
  eapply wp_fd_read; [done|done|]. intros f' Hf' _. rewrite Hf in Hf'. injection Hf' as <-. apply wp_ret.
  by rewrite (proj2 (Z.ltb_ge (local_fd f) 0)) by lia.
Qed.

Lemma passive_with_fd fd k : (∀ v l, passive (k v l)) → passive (with_fd MAX_FDS fd k).
Proof. intros Hk extra s Hinv. eapply with_fd_spec; [done| |done]. intros v f _ _ _ _. by eapply Hk. Qed.

Lemma best_match_ok extra path v s : vfs_inv extra s → best_match path (s_vfs s) v → prefix_ok v ∧ path_matches path v.
Proof. intros Hinv (i & Hi & Hm & _). split; [|done]. by apply (iv_entry _ _ _ _ Hinv i v). Qed.

Lemma passive_with_path ro path k failed : (∀ v p, passive (k v p)) → passive (with_path ro path k failed).
Proof.
  intros Hk extra s Hinv. unfold with_path. wp_step. eapply wp_mono; [by eapply get_vfs_for_path_spec|].
  intros [v|] s1 [-> Hm]; [|by eapply passive_fail].
  destruct (ro && _); [by eapply passive_fail|]. wp_step.
  destruct (best_match_ok _ _ _ _ Hinv Hm). apply translate_path_spec; [done|done|]. by eapply Hk.
Qed.

(** A call on a directory that was opened. *)
Lemma passive_with_dir pdir failed k s extra :
  vfs_inv extra s → is_Some (dirs s !! pdir) → (∀ v, passive (k v)) →
  wp (with_dir pdir failed k) s (λ _ s', same_reg s s').
Proof.
  intros Hinv [i Hi] Hk. unfold with_dir. wp_steps. rewrite Hi. wp_step.
  eapply wp_mono; [by eapply get_vfs_for_index_spec|]. intros [v|] s1 [-> _]; [by eapply Hk|by eapply passive_fail].
Qed.

(** ** Opening and closing *)

Lemma open_inv extra path fl mode s :
  vfs_inv extra s → wp (esp_vfs_open MAX_FDS drv path fl mode) s (λ _ s', vfs_inv extra s').
Proof.
  intros Hinv. unfold esp_vfs_open. wp_step. eapply wp_mono; [by eapply get_vfs_for_path_spec|].
  assert (∀ e r, wp (fail_with e r) s (λ (_ : Z) s', vfs_inv extra s')) as Hfail.
  { intros e r. eapply wp_mono; [by eapply passive_fail|]. intros x s' Hs. by apply (same_reg_inv extra s). }
  intros [v|] s1 [-> Hm]; [|done]. destruct (negb _ && _); [done|]. wp_step.
  destruct (best_match_ok _ _ _ _ Hinv Hm). apply translate_path_spec; [done|done|]. wp_step.
  eapply wp_mono; [by eapply passive_check|]. intros [r|] s1 Hs; [|by apply wp_ret; eapply same_reg_inv].
  apply (same_reg_inv extra) in Hs as Hinv1; [|done].
  destruct (0 <=? r); [|by apply wp_ret]. wp_step. eapply free_fd_spec; [done| |].
  - intros i e Hi He Hlt _. wp_step. eapply wp_fd_read; [done|done|]. intros e' _ _. wp_step.
    destruct Hm as (j & Hj & _). pose proof (iv_above _ _ _ _ Hinv j v Hj).
    destruct (iv_entry _ _ _ _ Hinv j v Hj) as [Ho _]. pose proof (iv_count _ _ _ _ Hinv).
    destruct Hs as (_ & Ec & _).
    eapply wp_fd_write; [done|done| |intros; by apply wp_ret].
    split; simpl; [right; rewrite i8_small by lia; lia|apply u8_range].
  - intros _. wp_step. eapply wp_mono; [by eapply passive_check|]. intros [c|] s2 Hs2.
    + eapply wp_mono; [eapply passive_fail; by eapply (same_reg_inv extra s1)|].
      intros x s3 Hs3. apply (same_reg_inv extra s2 s3 Hs3). by apply (same_reg_inv extra s1).
    + apply wp_ret. by apply (same_reg_inv extra s1).
Qed.

Lemma close_inv extra fd s :
  vfs_inv extra s → wp (esp_vfs_close MAX_FDS drv fd) s (λ _ s', vfs_inv extra s').
Proof.
  intros Hinv. unfold esp_vfs_close. eapply with_fd_spec; [done| |by apply (same_reg_inv extra s)].
  intros v f Hfd Hf _ _. wp_step. eapply wp_mono; [by eapply passive_check|]. intros [r|] s1 Hs.
  2:{ apply wp_ret. by apply (same_reg_inv extra s). }
  apply (same_reg_inv extra) in Hs as Hinv1; [|done]. unfold close_fd. do 2 wp_step.
  eapply wp_fd_read; [done|lia|]. intros e He Hok.
  apply wp_when; intros Ep; [|by apply wp_ret].
  eapply wp_fd_write; [done|lia| |intros; by apply wp_ret].
  destruct (has_pending_select e); [done|apply unused_ok].
Qed.

(** ** A range of descriptors *)

Lemma claim_range_inv extra index min_fd n i e s :
  vfs_inv extra s → (i + n ≤ MAX_FDS)%nat → s_vfs s !! index = Some (Some e) →
  flag (flags e) ESP_VFS_FLAG_STATIC = false →
  wp (claim_range (Z.of_nat index) min_fd i n) s (λ ok s',
    if ok : bool then vfs_inv extra s' else vfs_inv (list_to_set (ops_blocks (vfs e)) ∪ extra) s').
Proof.
  intros Hinv Hn He Hstatic. revert i s Hinv Hn He.
  pose proof counts as Hcounts.
  induction n as [|n IH]; intros i s Hinv Hn He; [by apply wp_ret|]. cbn [claim_range]. wp_step.
  pose proof (iv_above _ _ _ _ Hinv _ _ He) as Hi. pose proof (iv_count _ _ _ _ Hinv).
  eapply wp_fd_read; [done|lia|]. intros f Hf Hok. destruct (negb _); wp_step.
  - wp_step. rewrite Nat2Z.id, He. cbn [mjoin option_join]. wp_step.
    destruct (removed_leak extra index e [entry_block e] (ops_blocks (vfs e)) s Hinv He) as [Hh Hrem].
    { unfold entry_blocks. by rewrite Hstatic. }
    eapply (wp_free_holding _ (Some (entry_block e)) []); [exact Hh|]. intros s1 Hh1.
    specialize (Hrem s1 Hh1). wp_steps. eapply table_inv; [exact Hrem|rewrite length_imap; apply Hrem|].
    apply imap_ok; [|apply Hrem]. intros j g. destruct (decide _); [destruct (_ =? _)|]; auto.
  - eapply wp_fd_write; [done|lia| |intros Hinv'; apply IH; [done|lia|done]].
    split; simpl; [right; rewrite i8_small by lia; lia|apply u8_range].
Qed.

Lemma register_fd_range_inv extra v c min_fd max_fd s :
  vfs_inv extra s →
  wp (esp_vfs_register_fd_range VFS_MAX_COUNT MAX_FDS v c min_fd max_fd) s (λ r s',
    ∃ extra', extra ⊆ extra' ∧ (r ≠ ESP_ERR_INVALID_ARG → extra' = extra) ∧ vfs_inv extra' s').
Proof.
  intros Hinv. unfold esp_vfs_register_fd_range. destruct (_ || _) eqn:Eargs; [by apply wp_ret; eauto|].
  rewrite !orb_false_iff, !Z.ltb_ge in Eargs. wp_step.
  eapply wp_mono; [by eapply register_common_inv|]. intros [r id] s1 [Hinv1 Hid].
  destruct id as [id|]; [|by apply wp_ret; eauto].
  destruct Hid as (-> & i & e & w & -> & -> & (Hi & Hs & _ & Hfl & _) & Hst & _). wp_step.
  eapply wp_mono; [eapply (claim_range_inv extra i _ _ _ e); [done|lia| |by rewrite Hfl]|].
  - rewrite Hs, list_lookup_insert_eq; [done|]. by eapply lookup_lt_Some.
  - intros ok s2 Hok. apply wp_ret. destruct ok; eexists; (split_and!; [| |exact Hok]); done || set_solver.
Qed.
End inv.
