(* ===== verification/VfsProps.v ===== *)
(** * Virtual file system: properties

    Any sequence of calls is safe and keeps the ownership of memory, a path goes to the
    file system with the longest prefix, a descriptor leads to what was opened until it is
    closed; and the cases in which the code does not do what it should. *)
From Stdlib Require Import ZArith Lia.
From stdpp Require Import base numbers option list gmap.
From S2P Require Import Prelude Vfs VfsCalls VfsSpec VfsInv.

(** ** The calls of an application *)

Inductive vfs_call : Type :=
| CRegisterFs (base_path : option (list Z)) (v : option esp_vfs_fs_ops_t) (fl ctx : Z)
| CRegister (base_path : option (list Z)) (len : Z) (v : option esp_vfs_t) (ctx : Z)
| CRegisterFsWithId (v : option esp_vfs_fs_ops_t) (fl ctx : Z)
| CRegisterFdRange (v : option esp_vfs_t) (ctx min_fd max_fd : Z)
| CUnregisterWithId (id : Z)
| CUnregister (base_path : list Z)
| CSetReadonly (base_path : list Z)
| CRegisterFd (id local : Z) (perm fd : bool)
| CUnregisterFd (id fd : Z)
| COpen (path : list Z) (fl mode : Z)
| CClose (fd : Z)
| CWrite (fd data size : Z) | CLseek (fd size mode : Z) | CRead (fd dst size : Z)
| CPread (fd dst size offset : Z) | CPwrite (fd src size offset : Z) | CFstat (fd st : Z)
| CFcntl (fd cmd arg : Z) | CIoctl (fd cmd args : Z) | CFsync (fd : Z)
| CStat (path : list Z) (st : Z) | CUtime (path : list Z) (times : Z) | CLink (n1 n2 : list Z)
| CUnlink (path : list Z) | CRename (src dst : list Z) | CMkdir (name : list Z) (mode : Z)
| CRmdir (name : list Z) | CAccess (path : list Z) (amode : Z) | CTruncate (path : list Z) (length : Z)
| CFtruncate (fd length : Z)
| COpendir (name : list Z) | CReaddir (pdir : Z) | CReaddirR (pdir entry out : Z) | CTelldir (pdir : Z)
| CSeekdir (pdir loc : Z) | CRewinddir (pdir : Z) | CClosedir (pdir : Z)
| CTcgetattr (fd p : Z) | CTcsetattr (fd actions p : Z) | CTcdrain (fd : Z) | CTcflush (fd sel : Z)
| CTcflow (fd action : Z) | CTcgetsid (fd : Z) | CTcsendbreak (fd duration : Z).

Section run.
Context {W : Type}.
Context (VFS_MAX_COUNT MAX_FDS : nat).
Context (drv : Z → option Z → fs_args → Z → W → Z * Z * W).

Abbreviation st := (vfs_state W).
Abbreviation vfs_inv := (VfsSpec.vfs_inv VFS_MAX_COUNT MAX_FDS).
Implicit Types s : st.

(** Each call answers whether it was a range of descriptors that was refused. *)
Definition ignore {A} (m : VM (W := W) A) : VM bool := m;; mret false.

(** A call on a directory: only on one that was opened. *)
Definition on_dir {A} (pdir : Z) (m : VM (W := W) A) : VM bool :=
  s ← get; if decide (is_Some (dirs s !! pdir)) then ignore m else mret false.

Definition run_call (c : vfs_call) : VM (W := W) bool :=
  match c with
  | CRegisterFs p v fl x => ignore (esp_vfs_register_fs VFS_MAX_COUNT p v fl x)
  | CRegister p len v x => ignore (esp_vfs_register_common VFS_MAX_COUNT p len v x)
  | CRegisterFsWithId v fl x => ignore (esp_vfs_register_fs_with_id VFS_MAX_COUNT v fl x)
  | CRegisterFdRange v x a b => r ← esp_vfs_register_fd_range VFS_MAX_COUNT MAX_FDS v x a b; mret (bool_decide (r = ESP_ERR_INVALID_ARG))
  | CUnregisterWithId id => ignore (esp_vfs_unregister_with_id VFS_MAX_COUNT id)
  | CUnregister p => ignore (esp_vfs_unregister VFS_MAX_COUNT p)
  | CSetReadonly p => ignore (esp_vfs_set_readonly_flag p)
  | CRegisterFd id l perm fd => ignore (esp_vfs_register_fd_with_local_fd MAX_FDS id l perm fd)
  | CUnregisterFd id fd => ignore (esp_vfs_unregister_fd MAX_FDS id fd)
  | COpen p fl mode => ignore (esp_vfs_open MAX_FDS drv p fl mode)
  | CClose fd => ignore (esp_vfs_close MAX_FDS drv fd)
  | CWrite fd d n => ignore (esp_vfs_write MAX_FDS drv fd d n)
  | CLseek fd n m => ignore (esp_vfs_lseek MAX_FDS drv fd n m)
  | CRead fd d n => ignore (esp_vfs_read MAX_FDS drv fd d n)
  | CPread fd d n o => ignore (esp_vfs_pread MAX_FDS drv fd d n o)
  | CPwrite fd d n o => ignore (esp_vfs_pwrite MAX_FDS drv fd d n o)
  | CFstat fd x => ignore (esp_vfs_fstat MAX_FDS drv fd x)
  | CFcntl fd x a => ignore (esp_vfs_fcntl_r MAX_FDS drv fd x a)
  | CIoctl fd x a => ignore (esp_vfs_ioctl MAX_FDS drv fd x a)
  | CFsync fd => ignore (esp_vfs_fsync MAX_FDS drv fd)
  | CStat p x => ignore (esp_vfs_stat drv p x)
  | CUtime p x => ignore (esp_vfs_utime drv p x)
  | CLink a b => ignore (esp_vfs_link drv a b)
  | CUnlink p => ignore (esp_vfs_unlink drv p)
  | CRename a b => ignore (esp_vfs_rename drv a b)
  | CMkdir p m => ignore (esp_vfs_mkdir drv p m)
  | CRmdir p => ignore (esp_vfs_rmdir drv p)
  | CAccess p m => ignore (esp_vfs_access drv p m)
  | CTruncate p n => ignore (esp_vfs_truncate drv p n)
  | CFtruncate fd n => ignore (esp_vfs_ftruncate MAX_FDS drv fd n)
  | COpendir p => ignore (esp_vfs_opendir drv p)
  | CReaddir d => on_dir d (esp_vfs_readdir drv d)
  | CReaddirR d a b => on_dir d (esp_vfs_readdir_r drv d a b)
  | CTelldir d => on_dir d (esp_vfs_telldir drv d)
  | CSeekdir d n => on_dir d (esp_vfs_seekdir drv d n)
  | CRewinddir d => on_dir d (esp_vfs_rewinddir drv d)
  | CClosedir d => on_dir d (esp_vfs_closedir drv d)
  | CTcgetattr fd p => ignore (tcgetattr MAX_FDS drv fd p)
  | CTcsetattr fd a p => ignore (tcsetattr MAX_FDS drv fd a p)
  | CTcdrain fd => ignore (tcdrain MAX_FDS drv fd)
  | CTcflush fd x => ignore (tcflush MAX_FDS drv fd x)
  | CTcflow fd x => ignore (tcflow MAX_FDS drv fd x)
  | CTcgetsid fd => ignore (tcgetsid MAX_FDS drv fd)
  | CTcsendbreak fd x => ignore (tcsendbreak MAX_FDS drv fd x)
  end.

(** Whether a range was refused in a sequence of calls. *)
Fixpoint run_calls (cs : list vfs_call) : VM (W := W) bool :=
  match cs with [] => mret false | c :: cs => refused ← run_call c; more ← run_calls cs; mret (refused || more) end.

(** A file system that is registered for descriptors must say that its functions are
    static, since they are not copied. *)
Definition allowed (c : vfs_call) : Prop :=
  match c with CRegisterFsWithId _ fl _ => flag fl ESP_VFS_FLAG_STATIC = true | _ => True end.

Definition no_range (c : vfs_call) : Prop :=
  match c with CRegisterFdRange _ _ _ _ => False | _ => True end.

(** ** Each call *)

Hypothesis counts : (VFS_MAX_COUNT ≤ 128)%nat ∧ (VFS_MAX_COUNT ≤ MAX_FDS)%nat ∧ (MAX_FDS ≤ 256)%nat.

Lemma ignore_inv {A} (m : VM A) (Q : A → st → Prop) extra s :
  wp m s Q → (∀ a s', Q a s' → vfs_inv extra s') → wp (ignore m) s (λ _ s', vfs_inv extra s').
Proof.
  intros Hm HQ. unfold ignore. wp_step. eapply wp_mono; [exact Hm|]. intros a s' Ha. apply wp_ret. by eapply HQ.
Qed.

Lemma passive_inv {A} (m : VM A) extra s :
  passive VFS_MAX_COUNT MAX_FDS m → vfs_inv extra s → wp (ignore m) s (λ _ s', vfs_inv extra s').
Proof.
  intros Hm Hinv. eapply ignore_inv; [by eapply Hm|]. intros a s' Hs.
  by apply (same_reg_inv VFS_MAX_COUNT MAX_FDS extra s).
Qed.

Lemma fs_with_id_inv extra v fl x s :
  vfs_inv extra s → flag fl ESP_VFS_FLAG_STATIC = true →
  wp (esp_vfs_register_fs_with_id VFS_MAX_COUNT v fl x) s (λ _ s', vfs_inv extra s').
Proof.
  intros Hinv Hst. unfold esp_vfs_register_fs_with_id. wp_step. destruct v as [v|].
  - eapply (wp_register_common _ MAX_FDS extra _ _ _ _ []); [done|apply grown_same| |].
    + intros r k s' Hr Hk Hg. apply wp_ret. by eapply counted_inv.
    + intros k i b s' e Hk Hg [Hi Hfirst] Hik Hpre. apply wp_ret.
      eapply inserted_inv; [done|done|exact Hg| |done..]. unfold entry_blocks. simpl. by rewrite Hst.
  - unfold esp_vfs_register_fs_common. wp_steps. destruct (_ <=? _); by wp_steps.
Qed.

Lemma owned_elem l i e b : l !! i = Some (Some e) → b ∈ entry_blocks e → b ∈ owned l.
Proof.
  intros Hi Hb. destruct (insert_split l i None (Some e) Hi) as (l1 & l2 & -> & _).
  rewrite owned_app, elem_of_app. right. change (owned (Some e :: l2)) with (entry_blocks e ++ owned l2).
  rewrite elem_of_app. by left.
Qed.

(** Entries with a block in common are one. *)
Lemma owned_inj l i j e f b :
  NoDup (owned l) → l !! i = Some (Some e) → l !! j = Some (Some f) → b ∈ entry_blocks e → b ∈ entry_blocks f → i = j.
Proof.
  revert i j. induction l as [|o l IH]; intros i j Hnd Hi Hj He Hf; [done|].
  apply NoDup_app in Hnd as (_ & Hdis & Hnd). fold (owned l) in Hdis, Hnd.
  destruct i as [|i], j as [|j]; simpl in Hi, Hj; [done|..].
  - injection Hi as ->. exfalso. apply (Hdis b He). by eapply owned_elem.
  - injection Hj as ->. exfalso. apply (Hdis b Hf). by eapply owned_elem.
  - f_equal. by apply IH.
Qed.

Lemma same_vfs_eq extra s p q v o :
  vfs_inv extra s → best_match p (s_vfs s) v → same_vfs v o = true →
  match o with Some w => best_match q (s_vfs s) w | None => no_match q (s_vfs s) end →
  best_match q (s_vfs s) v.
Proof.
  intros Hinv (i & Hi & _) Hs Hq. destruct o as [w|]; [|done]. pose proof Hq as (j & Hj & _).
  simpl in Hs. apply Z.eqb_eq in Hs. assert (i = j) as ->.
  { eapply (owned_inj _ i j v w (entry_block v)); [apply Hinv|done|done|..]; unfold entry_blocks; [|rewrite Hs]; set_solver. }
  rewrite Hi in Hj. by injection Hj as ->.
Qed.

Lemma passive_translate path v s extra (Q : list Z → st → Prop) :
  vfs_inv extra s → best_match path (s_vfs s) v → (∀ p, Q p s) → wp (translate_path v path) s Q.
Proof. intros Hinv Hm HQ. destruct (best_match_ok _ _ _ _ _ _ Hinv Hm). by apply (translate_path_spec VFS_MAX_COUNT MAX_FDS counts). Qed.

Lemma passive_link n1 n2 : passive VFS_MAX_COUNT MAX_FDS (esp_vfs_link drv n1 n2).
Proof.
  intros extra s Hinv. unfold esp_vfs_link. wp_step. eapply wp_mono; [by eapply get_vfs_for_path_spec|].
  intros [v|] s1 [-> Hm]; [|by eapply passive_fail]. wp_step.
  eapply wp_mono; [by eapply get_vfs_for_path_spec|]. intros o s1 [-> Hm2].
  destruct (same_vfs v o) eqn:Es; simpl; [|by eapply passive_fail]. destruct (flag _ _); [by eapply passive_fail|].
  pose proof (same_vfs_eq _ _ _ _ _ _ Hinv Hm Es Hm2) as Hm3.
  wp_step. eapply passive_translate; [done|done|intros p1]. wp_step.
  eapply passive_translate; [done|done|intros p2]. by eapply passive_sub_dir.
Qed.

Lemma passive_rename n1 n2 : passive VFS_MAX_COUNT MAX_FDS (esp_vfs_rename drv n1 n2).
Proof.
  intros extra s Hinv. unfold esp_vfs_rename. wp_step. eapply wp_mono; [by eapply get_vfs_for_path_spec|].
  intros [v|] s1 [-> Hm]; [|by eapply passive_fail]. destruct (flag _ _); [by eapply passive_fail|]. wp_step.
  eapply wp_mono; [by eapply get_vfs_for_path_spec|]. intros o s1 [-> Hm2].
  destruct (same_vfs v o) eqn:Es; simpl; [|by eapply passive_fail].
  pose proof (same_vfs_eq _ _ _ _ _ _ Hinv Hm Es Hm2) as Hm3.
  wp_step. eapply passive_translate; [done|done|intros p1]. wp_step.
  eapply passive_translate; [done|done|intros p2]. by eapply passive_sub_dir.
Qed.

Lemma passive_opendir name : passive VFS_MAX_COUNT MAX_FDS (esp_vfs_opendir drv name).
Proof.
  unfold esp_vfs_opendir. apply passive_with_path; [done|]. intros v p. apply passive_bind; [apply passive_check_sub|].
  intros [r|]; [|apply passive_ret]. apply passive_bind; [|intros; apply passive_ret].
  intros extra s _. apply wp_when; intros; [by apply wp_modify|done].
Qed.

Lemma on_dir_inv {A} pdir (m : VM A) extra s :
  vfs_inv extra s → (is_Some (dirs s !! pdir) → wp m s (λ _ s', same_reg s s')) →
  wp (on_dir pdir m) s (λ _ s', vfs_inv extra s').
Proof.
  intros Hinv Hm. unfold on_dir. wp_steps. destruct (decide _) as [Hd|]; [|by apply wp_ret].
  eapply ignore_inv; [by apply Hm|]. intros a s' Hs. by apply (same_reg_inv VFS_MAX_COUNT MAX_FDS extra s).
Qed.

(** Calls on a descriptor or a path that only pass on. *)
Ltac passive_tac :=
  first [ apply passive_with_fd; [done|]; intros ? ?; apply passive_or_minus_1;
          first [apply passive_check | apply passive_check_sub]
        | apply passive_with_path; [done|]; intros ? ?; apply passive_sub_dir
        | apply passive_link | apply passive_rename | apply passive_opendir ].

Lemma passive_ftruncate fd length : passive VFS_MAX_COUNT MAX_FDS (esp_vfs_ftruncate MAX_FDS drv fd length).
Proof.
  apply passive_with_fd; [done|]. intros v l. destruct (flag _ _); [apply passive_fail|apply passive_sub_dir].
Qed.

Lemma seekdir_reg pdir loc extra s :
  vfs_inv extra s → is_Some (dirs s !! pdir) →
  wp (esp_vfs_seekdir drv pdir loc) s (λ _ s', same_reg s s').
Proof.
  intros Hinv Hd. unfold esp_vfs_seekdir. wp_step.
  eapply wp_mono; [eapply passive_with_dir; [done..|intros; by apply passive_sub_dir]|].
  intros a s' Hs. by apply wp_ret.
Qed.

Lemma readdir_reg pdir extra s :
  vfs_inv extra s → is_Some (dirs s !! pdir) → wp (esp_vfs_readdir drv pdir) s (λ _ s', same_reg s s').
Proof.
  intros Hinv Hd. eapply passive_with_dir; [done..|]. intros v.
  apply passive_bind; [apply passive_check_sub|intros; apply passive_ret].
Qed.

(** A call other than that for a range of descriptors. *)
Lemma run_call_inv c extra s :
  vfs_inv extra s → allowed c → no_range c → wp (run_call c) s (λ _ s', vfs_inv extra s').
Proof.
  intros Hinv Ha Hn. destruct c; cbn [run_call];
    try (apply passive_inv; [|exact Hinv]; passive_tac || apply passive_ftruncate).
  1: eapply ignore_inv; [by eapply register_fs_inv|intros r s' [? _]; done].
  1: eapply ignore_inv; [by eapply register_common_inv|intros [r id] s' [? _]; done].
  1: eapply ignore_inv; [by eapply fs_with_id_inv|done].
  1: done.
  1: eapply ignore_inv; [by eapply unregister_with_id_inv|intros r s' [? _]; done].
  1: eapply ignore_inv; [by eapply unregister_inv|done].
  1: eapply ignore_inv; [by eapply readonly_inv|done].
  1: eapply ignore_inv; [by eapply register_fd_inv|intros [r x] s' [? _]; done].
  1: eapply ignore_inv; [by eapply unregister_fd_inv|intros r s' [? _]; done].
  1: eapply ignore_inv; [by eapply open_inv|done].
  1: eapply ignore_inv; [by eapply close_inv|done].
  all: apply on_dir_inv; [done|intros Hd].
  1: by eapply readdir_reg.
  all: first [ by eapply seekdir_reg | by eapply passive_with_dir; [done..|intros; apply passive_sub_dir] ].
Qed.

Lemma run_call_safe c extra s :
  vfs_inv extra s → allowed c →
  wp (run_call c) s (λ refused s', ∃ extra', extra ⊆ extra' ∧ (refused = false → extra' = extra) ∧ vfs_inv extra' s').
Proof.
  intros Hinv Ha. assert (no_range c ∨ ∃ v x a b, c = CRegisterFdRange v x a b) as [Hn|(v & x & a & b & ->)].
  { destruct c; simpl; eauto 10. }
  - eapply wp_mono; [by apply run_call_inv|]. intros x s' Hs. by exists extra.
  - cbn [run_call]. wp_step. eapply wp_mono; [by eapply register_fd_range_inv|].
    intros r s' (extra' & Hsub & Hr & Hs). apply wp_ret. exists extra'. split_and!; [done| |done].
    intros Hno%bool_decide_eq_false. by apply Hr.
Qed.

(** ** Properties *)


(** C23: a path goes to the registered file system with the longest prefix that starts the
    path and is followed by a separator or by nothing, the one registered at the lowest
    index among equals; the empty prefix takes what no other one does; and no file system
    is found only when none handles the path. *)
Theorem vfs_longest_prefix path extra s :
  vfs_inv extra s →
  wp (get_vfs_for_path path) s (λ r s', s' = s ∧
    match r with
    | Some v => ∃ i, s_vfs s !! i = Some (Some v) ∧ path_matches path v ∧
        ∀ j e, s_vfs s !! j = Some (Some e) → path_matches path e →
          path_prefix_len e ≤ path_prefix_len v ∧
          (path_prefix_len e = path_prefix_len v → 0 < path_prefix_len v → (i ≤ j)%nat)
    | None => ∀ j e, s_vfs s !! j = Some (Some e) → ¬ path_matches path e
    end).
Proof. intros Hinv. by eapply get_vfs_for_path_spec. Qed.

(** *** One file from opening to closing *)

(** What a call of [f] gives: the context goes along when the file system asks for it. *)
Definition drv_call (v : vfs_entry_t) (f : Z) (args : fs_args) (e : Z) (w : W) : Z * Z * W :=
  drv f (if flag (flags v) ESP_VFS_FLAG_CONTEXT_PTR then Some (ctx v) else None) args e w.

Lemma call_spec v f args s r e w (Q : Z → st → Prop) :
  drv_call v f args (errno s) (world s) = (r, e, w) → Q r (set_world w (set_errno e s)) →
  wp (call drv v f args) s Q.
Proof. unfold wp, call, drv_call. intros ->. done. Qed.

Lemma best_match_unique path l v w : best_match path l v → best_match path l w →
  0 < path_prefix_len v → v = w.
Proof.
  intros (i & Hi & Hm & Hmax) (j & Hj & Hm' & Hmax') Hpos.
  destruct (Hmax j w Hj Hm') as [Hle Hij], (Hmax' i v Hi Hm) as [Hle' Hji].
  assert (i = j) as -> by lia. rewrite Hi in Hj. by injection Hj.
Qed.

Lemma open_fresh path fl mode v fo local e1 w1 i extra s (Q : Z → st → Prop) :
  vfs_inv extra s → best_match path (s_vfs s) v → 0 < path_prefix_len v →
  (Z.land fl O_ACCMODE =? O_RDONLY) || negb (flag (flags v) ESP_VFS_FLAG_READONLY_FS) = true →
  io (vfs v) Open = Some fo →
  drv_call v fo (AOpen (if decide (path = path_prefix v) then [SLASH] else drop (length (path_prefix v)) path)
                   fl mode) (errno s) (world s) = (local, e1, w1) →
  0 ≤ local < 256 → s_fd_table s !! i = Some FD_TABLE_ENTRY_UNUSED →
  (∀ j f, (j < i)%nat → s_fd_table s !! j = Some f → vfs_index f ≠ -1) →
  (let s1 := set_world w1 (set_errno e1 s) in
   let s2 := set_table (<[i := mkFd false false false (offset v) local]> (s_fd_table s1)) s1 in
   vfs_inv extra s2 → Q (Z.of_nat i) s2) →
  wp (esp_vfs_open MAX_FDS drv path fl mode) s Q.
Proof.
  intros Hinv Hbest Hpos Hro Ho Hdrv Hlocal Hi Hmin HQ. unfold esp_vfs_open. wp_step.
  eapply wp_mono; [by eapply get_vfs_for_path_spec|]. intros [v'|] s' [-> Hm].
  2:{ destruct Hbest as (j & Hj & Hmj & _). by destruct (Hm j v Hj). }
  rewrite <- (best_match_unique _ _ _ _ Hbest Hm Hpos) in *. clear v' Hm.
  replace (negb _ && _) with false by (destruct (_ =? _), (flag _ _); done). wp_step.
  destruct (best_match_ok _ _ _ _ _ _ Hinv Hbest).
  apply (translate_path_spec VFS_MAX_COUNT MAX_FDS counts); [done|done|]. wp_step.
  unfold CHECK_AND_CALL. rewrite Ho. wp_step. eapply call_spec; [exact Hdrv|]. apply wp_ret.
  rewrite (proj2 (Z.leb_le 0 local)) by lia. wp_step.
  set (s1 := set_world w1 (set_errno e1 s)).
  assert (vfs_inv extra s1) as Hinv1 by (by apply (same_reg_inv VFS_MAX_COUNT MAX_FDS extra s)).
  assert (i < MAX_FDS)%nat as Hlt by (rewrite <- (iv_table_len _ _ _ _ Hinv); by eapply lookup_lt_Some).
  destruct Hbest as (j & Hj & _). pose proof (iv_above _ _ _ _ Hinv j v Hj).
  destruct (iv_entry _ _ _ _ Hinv j v Hj) as [Hoff _]. pose proof (iv_count _ _ _ _ Hinv).
  eapply free_fd_spec; [done| |].
  - intros i' f Hi' Hf Hlt' Hmin'. assert (i' = i) as ->.
    { destruct (lt_eq_lt_dec i' i) as [[Hl| ->]|Hl]; [|done|].
      - by destruct (Hmin i' f Hl Hi').
      - by destruct (Hmin' i _ Hl Hi). }
    simpl in Hi'. rewrite Hi in Hi'. injection Hi' as <-. wp_step.
    eapply wp_fd_read; [done|done|]. intros f' Hf' _. simpl in Hf'. rewrite Hi in Hf'. injection Hf' as <-. wp_step.
    rewrite i8_small by lia. assert (u8 local = local) as -> by (unfold u8; apply Z.mod_small; lia).
    eapply wp_fd_write; [done|done| |].
    + split; simpl; [right; lia|lia].
    + intros Hinv2. apply wp_ret. by apply HQ.
  - intros Hall. rewrite Forall_lookup in Hall. by destruct (Hall i _ Hi).
Qed.

(** The updates of the state commute, and the last one of a field counts. *)
Lemma world_world w w' s : set_world w (set_world w' s) = set_world w s.
Proof. by destruct s. Qed.
Lemma errno_errno e e' s : set_errno e (set_errno e' s) = set_errno e s.
Proof. by destruct s. Qed.
Lemma errno_world e w s : set_errno e (set_world w s) = set_world w (set_errno e s).
Proof. by destruct s. Qed.
Lemma table_world t w s : set_table t (set_world w s) = set_world w (set_table t s).
Proof. by destruct s. Qed.
Lemma table_errno t e s : set_table t (set_errno e s) = set_errno e (set_table t s).
Proof. by destruct s. Qed.
Lemma table_table t t' s : set_table t (set_table t' s) = set_table t s.
Proof. by destruct s. Qed.
Lemma table_self s : set_table (s_fd_table s) s = s.
Proof. by destruct s. Qed.
Lemma fd_table_world w s : s_fd_table (set_world w s) = s_fd_table s.
Proof. done. Qed.
Lemma fd_table_errno e s : s_fd_table (set_errno e s) = s_fd_table s.
Proof. done. Qed.
Lemma fd_table_table t s : s_fd_table (set_table t s) = t.
Proof. done. Qed.

(** Taking the entry and giving it back. *)
Lemma table_restored i f e w1 e1 w2 e2 w3 e3 s :
  s_fd_table s !! i = Some e →
  let s1 := set_world w1 (set_errno e1 s) in
  let s2 := set_table (<[i := f]> (s_fd_table s1)) s1 in
  let s4 := set_world w3 (set_errno e3 (set_world w2 (set_errno e2 s2))) in
  set_table (<[i := e]> (s_fd_table s4)) s4 = set_world w3 (set_errno e3 s).
Proof.
  intros Hi. cbv zeta.
  assert (s_fd_table (set_world w3 (set_errno e3 (set_world w2 (set_errno e2
    (set_table (<[i:=f]> (s_fd_table s)) (set_world w1 (set_errno e1 s))))))) = <[i:=f]> (s_fd_table s)) as Ht.
  { by rewrite fd_table_world, fd_table_errno, fd_table_world, fd_table_errno, fd_table_table. }
  rewrite (fd_table_world w1), (fd_table_errno e1), Ht, list_insert_insert_eq, list_insert_id by done.
  rewrite table_world, table_errno, table_world, table_errno, table_table.
  rewrite table_world, table_errno, table_self.
  by rewrite (errno_world e3 w2), world_world, (errno_world e2 w1), errno_errno, (errno_world e3 w1), world_world, errno_errno.
Qed.

(** C24: opening a file gives the lowest descriptor that is not in use; writing to it
    reaches the file system that the path names, with the descriptor that this file system
    gave and with its context, and returns what it answers; closing it closes that
    descriptor and leaves the table as it was before. *)
Theorem open_write_close path fl mode data n v fo fw fc local e1 w1 r2 e2 w2 r3 e3 w3 i extra s :
  vfs_inv extra s → best_match path (s_vfs s) v → 0 < path_prefix_len v →
  (Z.land fl O_ACCMODE =? O_RDONLY) || negb (flag (flags v) ESP_VFS_FLAG_READONLY_FS) = true →
  io (vfs v) Open = Some fo → io (vfs v) Write = Some fw → io (vfs v) Close = Some fc →
  drv_call v fo (AOpen (if decide (path = path_prefix v) then [SLASH] else drop (length (path_prefix v)) path)
                   fl mode) (errno s) (world s) = (local, e1, w1) →
  drv_call v fw (AWrite local data n) e1 w1 = (r2, e2, w2) →
  drv_call v fc (AClose local) e2 w2 = (r3, e3, w3) →
  0 ≤ local < 256 → s_fd_table s !! i = Some FD_TABLE_ENTRY_UNUSED →
  (∀ j f, (j < i)%nat → s_fd_table s !! j = Some f → vfs_index f ≠ -1) →
  wp (fd ← esp_vfs_open MAX_FDS drv path fl mode;
      r ← esp_vfs_write MAX_FDS drv fd data n;
      c ← esp_vfs_close MAX_FDS drv fd;
      mret (fd, r, c)) s (λ x s',
    x = (Z.of_nat i, r2, r3) ∧ s' = set_world w3 (set_errno e3 s)).
Proof.
  intros Hinv Hbest Hpos Hro Ho Hw Hc D1 D2 D3 Hlocal Hi Hmin.
  pose proof Hbest as (j & Hj & _). pose proof (iv_above _ _ _ _ Hinv j v Hj).
  destruct (iv_entry _ _ _ _ Hinv j v Hj) as [Hoff _]. pose proof (lookup_lt_Some _ _ _ Hi) as Hlt.
  wp_step. eapply open_fresh; [done..|]. intros s1 s2 Hinv2. set (f := mkFd false false false (offset v) local).
  assert (s_fd_table s2 !! i = Some f) as Hf2 by (simpl; by rewrite list_lookup_insert_eq).
  assert (0 ≤ vfs_index f ∧ s_vfs s2 !! Z.to_nat (vfs_index f) = Some (Some v)) as [Hge Hv2].
  { simpl. rewrite Hoff, Nat2Z.id. split; [lia|done]. }
  wp_step. eapply (with_fd_known VFS_MAX_COUNT MAX_FDS counts extra _ _ v f); [done..|].
  unfold or_minus_1, CHECK_AND_CALL. rewrite Hw. do 2 wp_step. eapply call_spec; [exact D2|]. wp_steps.
  set (s3 := set_world w2 (set_errno e2 s2)).
  assert (vfs_inv extra s3) as Hinv3 by (by apply (same_reg_inv VFS_MAX_COUNT MAX_FDS extra s2)).
  eapply (with_fd_known VFS_MAX_COUNT MAX_FDS counts extra _ _ v f); [done..|].
  unfold CHECK_AND_CALL. rewrite Hc. do 2 wp_step. eapply call_spec; [exact D3|]. apply wp_ret.
  unfold close_fd. do 2 wp_step. set (s4 := set_world w3 (set_errno e3 s3)).
  unfold wp at 1, fd_read. rewrite Nat2Z.id. change (s_fd_table s4) with (s_fd_table s2). rewrite Hf2.
  cbn [negb permanent whenM has_pending_select f]. unfold wp at 1, fd_write.
  change (s_fd_table s4) with (s_fd_table s2). rewrite Hf2. wp_steps. split; [done|].
  exact (table_restored i f _ w1 e1 w2 e2 w3 e3 s Hi).
Qed.

(** *** What goes wrong *)

Lemma wp_get_vfs_for_fd extra j f v s (Q : option vfs_entry_t → st → Prop) :
  vfs_inv extra s → s_fd_table s !! j = Some f → 0 ≤ vfs_index f →
  s_vfs s !! Z.to_nat (vfs_index f) = Some (Some v) → Q (Some v) s →
  wp (get_vfs_for_fd MAX_FDS (Z.of_nat j)) s Q.
Proof.
  intros Hinv Hf Hge Hv HQ. pose proof (iv_above _ _ _ _ Hinv _ _ Hv).
  assert (j < MAX_FDS)%nat by (rewrite <- (iv_table_len _ _ _ _ Hinv); by eapply lookup_lt_Some).
  unfold get_vfs_for_fd, fd_valid. rewrite (proj2 (Z.ltb_lt _ _)), (proj2 (Z.leb_le _ _)) by lia. cbn [andb].
  wp_step. unfold wp at 1, fd_read. rewrite Nat2Z.id, Hf. unfold get_vfs_for_index. wp_steps.
  rewrite (proj2 (Z.ltb_ge _ _)), (proj2 (Z.leb_gt _ _)) by lia. cbn [orb]. rewrite Hv. by apply wp_ret.
Qed.

(** removing a file system clears its descriptors only below the greatest number of
    file systems.  A descriptor above that stays, and when the next file system is
    registered in the place that became free, the descriptor of a file of the old one
    leads to the new one. *)
Theorem stale_descriptor_rebinds id e j f p o fl c extra s :
  vfs_inv extra s → s_vfs s !! id = Some (Some e) → (∀ i, (i < id)%nat → s_vfs s !! i ≠ Some None) →
  (VFS_MAX_COUNT ≤ j)%nat → s_fd_table s !! j = Some f → vfs_index f = Z.of_nat id →
  wp (_ ← esp_vfs_unregister_with_id VFS_MAX_COUNT (Z.of_nat id);
      r ← esp_vfs_register_fs VFS_MAX_COUNT (Some p) (Some o) fl c;
      v ← get_vfs_for_fd MAX_FDS (Z.of_nat j);
      mret (r, v)) s (λ '(r, v) s',
    r = ESP_OK → ∃ e', v = Some e' ∧ path_prefix e' = p ∧ ctx e' = c ∧ io (vfs e') = io o ∧
                       s_fd_table s' !! j = Some f).
Proof.
  intros Hinv He Hlow Hj Hf Hid. pose proof (iv_above _ _ _ _ Hinv _ _ He). pose proof (iv_count _ _ _ _ Hinv).
  pose proof (lookup_lt_Some _ _ _ He) as Hlen.
  wp_step. eapply wp_mono; [by eapply unregister_with_id_inv|]. intros r1 s1 [Hinv1 H1]. wp_step.
  eapply wp_mono; [by eapply register_fs_inv|]. intros r2 s2 [Hinv2 H2]. wp_step.
  assert (wp (get_vfs_for_fd MAX_FDS (Z.of_nat j)) s2 (λ v s3, s3 = s2)) as Hany.
  { unfold get_vfs_for_fd. destruct (fd_valid _ _) eqn:Ev; [|by apply wp_ret]. unfold fd_valid in Ev.
    apply andb_true_iff in Ev as [Hlt%Z.ltb_lt _]. wp_step. eapply wp_fd_read; [done|lia|]. intros g _ _.
    eapply wp_mono; [by eapply get_vfs_for_index_spec|]. by intros v s3 [-> _]. }
  destruct (decide (r2 = ESP_OK)) as [->|Hr2].
  2:{ eapply wp_mono; [exact Hany|]. intros v s3 ->. by apply wp_ret. }
  destruct H2 as (i & e' & o' & [= <-] & _ & (Hi & Hs & Ht & Hfl & Hc & Hp & _ & Hfirst) & Hfun).
  assert (r1 = ESP_OK) as ->.
  { destruct r1; try done; destruct H1 as [_ Hno]; destruct (Hno e ltac:(lia)); by rewrite Nat2Z.id. }
  destruct H1 as (e0 & _ & _ & Hs1 & _ & _ & Htab). rewrite Nat2Z.id in Hs1.
  assert (i = id) as ->.
  { destruct (lt_eq_lt_dec i id) as [[Hl| ->]|Hl]; [|done|].
    - destruct (Hlow i Hl). rewrite Hs1, list_lookup_insert_ne in Hi by lia. done.
    - destruct (Hfirst id Hl). by rewrite Hs1, list_lookup_insert_eq. }
  specialize (Htab j f Hf). rewrite decide_False in Htab by lia.
  assert (s_fd_table s2 !! j = Some f) as Hf2 by by rewrite Ht.
  eapply (wp_get_vfs_for_fd extra j f e'); [done|done|lia| |].
  - rewrite Hid, Nat2Z.id, Hs, list_lookup_insert_eq; [done|]. by rewrite Hs1, length_insert.
  - apply wp_ret. intros _. exists e'. destruct Hfun as [Hio _]. done.
Qed.

Lemma full_register p o fl c extra s :
  vfs_inv extra s → s_vfs_count s = Z.of_nat VFS_MAX_COUNT →
  wp (esp_vfs_register_fs VFS_MAX_COUNT (Some p) (Some o) fl c) s (λ r _, r = ESP_ERR_NO_MEM).
Proof.
  intros Hinv Hc.
  assert (∀ s1 v, s_vfs_count s1 = s_vfs_count s →
    wp (esp_vfs_register_fs_common VFS_MAX_COUNT (Some p) (Some v) fl c) s1
      (λ x s', x = (ESP_ERR_NO_MEM, None) ∧ s' = s1)) as Hcommon.
  { intros s1 v Hs1. unfold esp_vfs_register_fs_common. wp_steps.
    rewrite (proj2 (Z.leb_le _ _)) by lia. by apply wp_ret. }
  unfold esp_vfs_register_fs. destruct (flag fl ESP_VFS_FLAG_STATIC); wp_step.
  - eapply wp_mono; [by apply Hcommon|]. intros x s1 [-> ->]. by apply wp_ret.
  - apply wp_duplicate; [exact (inv_fresh_above _ _ _ _ Hinv)| |intros; by apply wp_ret].
    intros o' s1 Hg _ _ _ _. wp_step. eapply wp_mono; [apply Hcommon; by destruct Hg as (? & ? & -> & _)|].
    intros x s2 [-> ->]. rewrite decide_True by done. wp_step.
    eapply (wp_free_fs_ops o' _ s); [exact Hg|done|exact (inv_fresh_above _ _ _ _ Hinv)|].
    intros s3 _. by apply wp_ret.
Qed.

(** once as many file systems were registered as there are places, none can be
    registered again, even after one was removed and its place is free: the counter of
    places in use is never lowered. *)
Theorem vfs_full_for_good id e p o fl c extra s :
  vfs_inv extra s → s_vfs_count s = Z.of_nat VFS_MAX_COUNT → s_vfs s !! id = Some (Some e) →
  wp (r1 ← esp_vfs_unregister_with_id VFS_MAX_COUNT (Z.of_nat id);
      r2 ← esp_vfs_register_fs VFS_MAX_COUNT (Some p) (Some o) fl c;
      mret (r1, r2)) s (λ r s', r = (ESP_OK, ESP_ERR_NO_MEM) ∧ s_vfs s' !! id = Some None).
Proof.
  intros Hinv Hc He. wp_step. eapply wp_mono; [by eapply unregister_with_id_inv|]. intros r1 s1 [Hinv1 H1].
  assert (r1 = ESP_OK) as ->.
  { destruct r1; try done; destruct H1 as [_ Hno]; destruct (Hno e ltac:(lia)); by rewrite Nat2Z.id. }
  destruct H1 as (e0 & _ & _ & Hs1 & Hc1 & _). rewrite Nat2Z.id in Hs1. wp_step.
  assert (wp (esp_vfs_register_fs VFS_MAX_COUNT (Some p) (Some o) fl c) s1
            (λ r s', r = ESP_ERR_NO_MEM ∧ s_vfs s' = s_vfs s1)) as H.
  { pose proof (full_register p o fl c extra s1 Hinv1) as HA. rewrite Hc1 in HA. specialize (HA Hc).
    pose proof (register_fs_inv _ _ extra (Some p) (Some o) fl c s1 Hinv1) as HB.
    unfold wp in *. destruct (esp_vfs_register_fs _ _ _ _ _ _) as [s2 r| | |]; try done. subst r.
    by destruct HB as [_ (? & _)]. }
  eapply wp_mono; [exact H|]. intros r s2 [-> Hs2]. apply wp_ret. split; [done|].
  rewrite Hs2, Hs1. apply list_lookup_insert_eq. by eapply lookup_lt_Some.
Qed.
End run.

(** ** Instances *)

(** A file system without state: opening gives its descriptor 5, writing writes all. *)
Definition drv0 (f : Z) (c : option Z) (args : fs_args) (e : Z) (w : unit) : Z * Z * unit :=
  match args with AOpen _ _ _ => (5, e, w) | AWrite _ _ n => (n, e, w) | _ => (0, e, w) end.

(** Its functions, in the application and as copied to block 1. *)
Definition app_ops : esp_vfs_fs_ops_t := mkFsOps (-1) (λ _, Some 1) None None None.
Definition app_vfs : esp_vfs_t := mkVfs 0 (λ _, Some 1) (λ _, None) (λ _, None) (λ _, None).
Definition path_d : list Z := [SLASH; 100].
Definition d_entry : vfs_entry_t := mkEntry 2 0 (mkFsOps 1 (λ _, Some 1) None None None) 0 0 2 path_d.

(** One of two places in use; the descriptor 3 is one of [/d]. *)
Definition d_fd : fd_table_t := mkFd false false false 0 5.
Definition one_fs : vfs_state unit :=
  mkState [Some d_entry; None] 1 [FD_TABLE_ENTRY_UNUSED; FD_TABLE_ENTRY_UNUSED; FD_TABLE_ENTRY_UNUSED; d_fd]
    {[1; 2]} 3 [true; true; true] 0 ∅ ().
(** The only place in use. *)
Definition full_fs : vfs_state unit :=
  mkState [Some d_entry] 1 [FD_TABLE_ENTRY_UNUSED; d_fd] {[1; 2]} 3 [true; true; true] 0 ∅ ().

Lemma d_entry_ok : offset d_entry = 0 ∧ prefix_ok d_entry.
Proof. split; [done|]. right. split; [done|]. by right. Qed.

Lemma one_fs_inv : vfs_inv 2 4 ∅ one_fs.
Proof.
  assert (∀ i e, s_vfs one_fs !! i = Some (Some e) → i = 0%nat ∧ e = d_entry) as Hone.
  { intros [|[|i]] e; simpl; intros H; [by injection H as <-|done..]. }
  split.
  - done.
  - simpl. lia.
  - intros i e [-> ->]%Hone. simpl. lia.
  - intros i e [-> ->]%Hone. apply d_entry_ok.
  - change (owned (s_vfs one_fs)) with [2; 1]. apply NoDup_cons. split; [set_solver|by apply NoDup_singleton].
  - change (owned (s_vfs one_fs)) with [2; 1]. set_solver.
  - set_solver.
  - intros b Hb. change (live one_fs) with ({[1; 2]} : gset Z) in Hb. simpl. set_solver by lia.
  - done.
  - repeat constructor; simpl; lia.
Qed.

Lemma full_fs_inv : vfs_inv 1 2 ∅ full_fs.
Proof.
  assert (∀ i e, s_vfs full_fs !! i = Some (Some e) → i = 0%nat ∧ e = d_entry) as Hone.
  { intros [|i] e; simpl; intros H; [by injection H as <-|done]. }
  split.
  - done.
  - simpl. lia.
  - intros i e [-> ->]%Hone. simpl. lia.
  - intros i e [-> ->]%Hone. apply d_entry_ok.
  - change (owned (s_vfs full_fs)) with [2; 1]. apply NoDup_cons. split; [set_solver|by apply NoDup_singleton].
  - change (owned (s_vfs full_fs)) with [2; 1]. set_solver.
  - set_solver.
  - intros b Hb. change (live full_fs) with ({[1; 2]} : gset Z) in Hb. simpl. set_solver by lia.
  - done.
  - repeat constructor; simpl; lia.
Qed.

Lemma counts_2_4 : (2 ≤ 128)%nat ∧ (2 ≤ 4)%nat ∧ (4 ≤ 256)%nat.
Proof. lia. Qed.
Lemma counts_1_2 : (1 ≤ 128)%nat ∧ (1 ≤ 2)%nat ∧ (2 ≤ 256)%nat.
Proof. lia. Qed.

Definition some_calls : list vfs_call :=
  [CRegisterFs (Some [SLASH; 101]) (Some app_ops) 0 0; COpen (path_d ++ [SLASH; 120]) 0 0; CWrite 0 7 3;
   CUnregister path_d; CClose 3; CRegister (Some path_d) 2 (Some app_vfs) 0; CUnlink [120]; CReaddir 9;
   CRegisterFdRange (Some app_vfs) 0 1 3].


Lemma vfs_longest_prefix_witness :
  wp (get_vfs_for_path (path_d ++ [SLASH; 120])) one_fs (λ r s', s' = one_fs ∧
    match r with
    | Some v => ∃ i, s_vfs one_fs !! i = Some (Some v) ∧ path_matches (path_d ++ [SLASH; 120]) v ∧
        ∀ j e, s_vfs one_fs !! j = Some (Some e) → path_matches (path_d ++ [SLASH; 120]) e →
          path_prefix_len e ≤ path_prefix_len v ∧
          (path_prefix_len e = path_prefix_len v → 0 < path_prefix_len v → (i ≤ j)%nat)
    | None => ∀ j e, s_vfs one_fs !! j = Some (Some e) → ¬ path_matches (path_d ++ [SLASH; 120]) e
    end).
Proof. apply (vfs_longest_prefix 2 4 counts_2_4 (path_d ++ [SLASH; 120]) ∅ one_fs one_fs_inv). Defined.

Lemma d_best : best_match (path_d ++ [SLASH; 120]) (s_vfs one_fs) d_entry.
Proof.
  exists 0%nat. split_and!; [done|split_and!; [done|by exists [SLASH; 120]|by right; right]|].
  intros [|[|j]] e; simpl; intros H; [injection H as <-; intros _; split; [done|lia]|done..].
Qed.

Lemma open_write_close_witness :
  wp (fd ← esp_vfs_open 4 drv0 (path_d ++ [SLASH; 120]) 1 0;
      r ← esp_vfs_write 4 drv0 fd 7 3;
      c ← esp_vfs_close 4 drv0 fd;
      mret (fd, r, c)) one_fs (λ x s', x = (0, 3, 0) ∧ s' = set_world () (set_errno 0 one_fs)).
Proof.
  apply (open_write_close 2 4 drv0 counts_2_4 (path_d ++ [SLASH; 120]) 1 0 7 3 d_entry 1 1 1 5 0 () 3 0 () 0 0 ()
           0%nat ∅ one_fs one_fs_inv d_best); try reflexivity; try (simpl; lia).
Defined.

Lemma stale_descriptor_rebinds_witness :
  wp (_ ← esp_vfs_unregister_with_id 2 (Z.of_nat 0);
      r ← esp_vfs_register_fs 2 (Some [SLASH; 101]) (Some app_ops) 0 9;
      v ← get_vfs_for_fd 4 (Z.of_nat 3);
      mret (r, v)) one_fs (λ '(r, v) s',
    r = ESP_OK → ∃ e', v = Some e' ∧ path_prefix e' = [SLASH; 101] ∧ ctx e' = 9 ∧ io (vfs e') = io app_ops ∧
                       s_fd_table s' !! 3%nat = Some d_fd).
Proof.
  apply (stale_descriptor_rebinds 2 4 counts_2_4 0 d_entry 3 d_fd [SLASH; 101] app_ops 0 9 ∅ one_fs one_fs_inv);
    [reflexivity|lia|lia|reflexivity|reflexivity].
Defined.

(** The registration of this instance succeeds. *)
Example stale_descriptor_ok :
  match (_ ← esp_vfs_unregister_with_id 2 0; esp_vfs_register_fs 2 (Some [SLASH; 101]) (Some app_ops) 0 9) one_fs with
  | Done _ r => r = ESP_OK
  | _ => False
  end.
Proof. vm_compute. reflexivity. Qed.

Lemma vfs_full_for_good_witness :
  wp (r1 ← esp_vfs_unregister_with_id 1 (Z.of_nat 0);
      r2 ← esp_vfs_register_fs 1 (Some [SLASH; 101]) (Some app_ops) 0 0;
      mret (r1, r2)) full_fs (λ r s', r = (ESP_OK, ESP_ERR_NO_MEM) ∧ s_vfs s' !! 0%nat = Some None).
Proof.
  apply (vfs_full_for_good 1 2 counts_1_2 0 d_entry [SLASH; 101] app_ops 0 0 ∅ full_fs full_fs_inv); reflexivity.
Defined.

(** ** Memory that is lost or freed by mistake *)

(** registering a range of descriptors in which one is in use is refused, but of the
    blocks made for it only the entry is freed: the copy of the functions stays allocated
    and belongs to no entry. *)
Theorem fd_range_conflict_leaks :
  match esp_vfs_register_fd_range 2 4 (Some app_vfs) 0 2 4 one_fs with
  | Done s' r => r = ESP_ERR_INVALID_ARG ∧ s_vfs s' = s_vfs one_fs ∧ s_fd_table s' = s_fd_table one_fs ∧
                 3 ∈ live s' ∧ 3 ∉ owned (s_vfs s') ∧ 3 ∉ live one_fs
  | _ => False
  end.
Proof.
  assert (3 ∉ [2; 1]) as Hno by set_solver. vm_compute. split_and!; try reflexivity; [exact Hno|].
  intros H. discriminate H.
Qed.

(** a file system that is registered for descriptors with its functions in memory of
    the application, without the flag that says so, is accepted; when it is removed, the
    memory of the application is freed. *)
Theorem fs_with_id_frees_application :
  (_ ← esp_vfs_register_fs_with_id 2 (Some app_ops) 0 0; esp_vfs_unregister_with_id 2 1) one_fs = MemFault.
Proof. vm_compute. reflexivity. Qed.
