(* ===== verification/VfsSelect.v ===== *)
(** * Virtual file system: select ([vfs/vfs.c])

    [esp_vfs_select] hands the descriptors it is asked about to their file systems, each
    with its own numbers, waits, and collects what they report.  A set of descriptors is a
    list of [MAX_FDS] bits; setting or testing a bit beyond it is a bad access.  The
    functions of the file systems and of the socket layer are parameters: they get the sets
    whose addresses they were given, which stay theirs until [end_select], so that the
    passage of time may change them as well.  [meanwhile] is what other tasks do with the
    virtual file system during the wait.  The three sets of the caller are distinct. *)
From Stdlib Require Import ZArith Lia.
From stdpp Require Import base numbers option list gmap.
From S2P Require Import Prelude Vfs VfsCalls.

Definition portMAX_DELAY : Z := 2 ^ 32 - 1.

(** ** Data *)

Abbreviation fd_set := (list bool).
Inductive fd_kind : Type := KRead | KWrite | KError.

(** The three sets of a file system. *)
Record fd_sets : Type := mkSets { readfds : fd_set; writefds : fd_set; errorfds : fd_set }.

Definition get_set (k : fd_kind) (x : fd_sets) : fd_set :=
  match k with KRead => readfds x | KWrite => writefds x | KError => errorfds x end.
Definition put_set (k : fd_kind) (f : fd_set) (x : fd_sets) : fd_sets :=
  match k with
  | KRead => mkSets f (writefds x) (errorfds x)
  | KWrite => mkSets (readfds x) f (errorfds x)
  | KError => mkSets (readfds x) (writefds x) f
  end.

Record fds_triple_t : Type := mkTriple { isset : bool; fds : fd_sets }.

(** The three sets of the caller, which may be NULL. *)
Record user_sets : Type := mkUser { u_read : option fd_set; u_write : option fd_set; u_error : option fd_set }.

Definition get_user (k : fd_kind) (x : user_sets) : option fd_set :=
  match k with KRead => u_read x | KWrite => u_write x | KError => u_error x end.
Definition put_user (k : fd_kind) (f : fd_set) (x : user_sets) : user_sets :=
  match k with
  | KRead => mkUser (Some f) (u_write x) (u_error x)
  | KWrite => mkUser (u_read x) (Some f) (u_error x)
  | KError => mkUser (u_read x) (u_write x) (Some f)
  end.

Record esp_vfs_select_sem_t : Type := mkSem { is_sem_local : bool; sem : option Z }.

(** [struct timeval] *)
Record timeval : Type := mkTimeval { tv_sec : Z; tv_usec : Z }.

(** What the functions of file systems do: from the address of the function, its
    arguments and what file systems keep, the result, the sets and what they keep. *)
Record sel_drivers (W : Type) : Type := mkDrivers {
  drv_get_sem : Z → W → option Z * W;
  drv_start : Z → Z → fd_sets → esp_vfs_select_sem_t → W → esp_err_t * fd_sets * Z * W;
  drv_end : Z → Z → fd_sets → W → fd_sets * W;
  drv_socket : Z → Z → user_sets → option timeval → W → Z * user_sets * W;
  drv_take : Z → W → W;
  drv_give : Z → W → W;
  drv_stop : Z → option Z → W → W;
  drv_pass : Z → W → (nat → fd_sets → fd_sets) * W }.
Arguments drv_get_sem {W} _ _ _.
Arguments drv_start {W} _ _ _ _ _ _.
Arguments drv_end {W} _ _ _ _ _.
Arguments drv_socket {W} _ _ _ _ _ _.
Arguments drv_take {W} _ _ _.
Arguments drv_give {W} _ _ _.
Arguments drv_stop {W} _ _ _ _.
Arguments drv_pass {W} _ _ _.

Section select.
Context {W : Type}.
Context (VFS_MAX_COUNT MAX_FDS : nat) (portTICK_PERIOD_MS : Z).
Context (sd : sel_drivers W) (meanwhile : @Vfs.VM W unit).

Abbreviation VM := (@Vfs.VM W).

(** ** Sets *)

Definition FD_ISSET (fd : Z) (f : fd_set) : VM bool := λ s,
  if decide (0 ≤ fd) then match f !! Z.to_nat fd with Some b => Done s b | None => MemFault end else MemFault.
Definition FD_SET (fd : Z) (f : fd_set) : VM fd_set := λ s,
  if decide (0 ≤ fd ∧ (Z.to_nat fd < length f)%nat) then Done s (<[Z.to_nat fd := true]> f) else MemFault.
Definition FD_CLR (fd : Z) (f : fd_set) : VM fd_set := λ s,
  if decide (0 ≤ fd ∧ (Z.to_nat fd < length f)%nat) then Done s (<[Z.to_nat fd := false]> f) else MemFault.
Definition FD_ZERO : fd_set := replicate MAX_FDS false.

Definition esp_vfs_safe_fd_isset (fd : Z) (f : option fd_set) : VM bool :=
  match f with None => mret false | Some f => FD_ISSET fd f end.

Definition calloc_triples (n : nat) : list fds_triple_t :=
  replicate n (mkTriple false (mkSets FD_ZERO FD_ZERO FD_ZERO)).

(** A pointer into an array. *)
Definition item_at {A : Type} (l : list A) (i : Z) : VM A := λ s,
  if decide (0 ≤ i) then match l !! Z.to_nat i with Some x => Done s x | None => MemFault end else MemFault.

(** Change what file systems keep. *)
Definition on_world {A : Type} (f : W → A * W) : VM A := λ s,
  let '(a, w) := f (world s) in Done (set_world w s) a.

(** ** Handing out the descriptors *)

(** One of the three blocks at the end of the first loop. *)
Definition move_fd (k : fd_kind) (fd index local : Z) (x : list fds_triple_t * user_sets)
    : VM (list fds_triple_t * user_sets) :=
  let '(ts, u) := x in
  b ← esp_vfs_safe_fd_isset fd (get_user k u);
  match get_user k u with
  | Some f =>
      if negb b then mret x else
      item ← item_at ts index;
      g ← FD_SET local (get_set k (fds item));
      f' ← FD_CLR fd f;
      mret (<[Z.to_nat index := mkTriple true (put_set k g (fds item))]> ts, put_user k f' u)
  | None => mret x
  end.

(** The function [op] of a file system, when there is one. *)
Definition select_member (op : select_op) (v : option vfs_entry_t) : option Z :=
  match v with
  | Some v => match select (vfs v) with Some o => member o op | None => None end
  | None => None
  end.

(** [vfs->vfs->select], where NULL pointers are followed. *)
Definition select_of (index : Z) : VM (ops_struct select_op) :=
  s ← get;
  v ← item_at (s_vfs s) index;
  match v with
  | Some v => match select (vfs v) with Some o => mret o | None => fault end
  | None => fault
  end.

(** What the first loop carries along: the sets, [socket_select] and the semaphore. *)
Record sel_locals : Type := mkLocals {
  triples : list fds_triple_t;
  user : user_sets;
  socket_select : option Z;
  sel_sem : option Z }.

(** One turn of the first loop. *)
Definition hand_out (fd : nat) (l : sel_locals) : VM sel_locals :=
  e ← fd_read fd;
  err ← esp_vfs_safe_fd_isset (Z.of_nat fd) (u_error (user l));
  whenM err (fd_write fd (mkFd (permanent e) (has_pending_close e) true (vfs_index e) (local_fd e)));;
  if vfs_index e <? 0 then mret l else
  if permanent e then
    match socket_select l with
    | Some _ => mret l
    | None =>
        r ← esp_vfs_safe_fd_isset (Z.of_nat fd) (u_read (user l));
        w ← esp_vfs_safe_fd_isset (Z.of_nat fd) (u_write (user l));
        if negb (r || w || err) then mret l else
        o ← select_of (vfs_index e);
        match member o Get_socket_select_semaphore with
        | None => fault
        | Some f =>
            sm ← on_world (drv_get_sem sd f);
            mret (mkLocals (triples l) (user l) (member o Socket_select) sm)
        end
    end
  else
    x ← move_fd KRead (Z.of_nat fd) (vfs_index e) (local_fd e) (triples l, user l);
    x ← move_fd KWrite (Z.of_nat fd) (vfs_index e) (local_fd e) x;
    '(ts, u) ← move_fd KError (Z.of_nat fd) (vfs_index e) (local_fd e) x;
    mret (mkLocals ts u (socket_select l) (sel_sem l)).

(** A loop over numbers that carries a value. *)
Fixpoint for_each {A : Type} (body : nat → A → VM A) (l : list nat) (a : A) : VM A :=
  match l with
  | [] => mret a
  | i :: l => a ← body i a; for_each body l a
  end.

(** ** Collecting *)

(** One of the three tests for a descriptor. *)
Definition collect_kind (k : fd_kind) (fd : nat) (local : Z) (item : fds_triple_t) (x : Z * user_sets)
    : VM (Z * user_sets) :=
  let '(ret, u) := x in
  match get_user k u with
  | None => mret x
  | Some f =>
      b ← FD_ISSET local (get_set k (fds item));
      if (b : bool) then f' ← FD_SET (Z.of_nat fd) f; mret (ret + 1, put_user k f' u) else mret x
  end.

Definition collect_fd (i : nat) (item : fds_triple_t) (fd : nat) (x : Z * user_sets) : VM (Z * user_sets) :=
  e ← fd_read fd;
  if vfs_index e =? Z.of_nat i then
    x ← collect_kind KRead fd (local_fd e) item x;
    x ← collect_kind KWrite fd (local_fd e) item x;
    collect_kind KError fd (local_fd e) item x
  else mret x.

Definition set_global_fd_sets (ts : list fds_triple_t) (size : nat) (u : user_sets) : VM (Z * user_sets) :=
  for_each (λ (i : nat) (x : Z * user_sets),
    item ← item_at ts (Z.of_nat i);
    if isset item then for_each (collect_fd i item) (seq 0 MAX_FDS) x else mret x) (seq 0 size) (0, u).

(** ** The functions of the file systems *)

(** The function [op] of the file system at an index, when it has one. *)
Definition select_fn (op : select_op) (i : Z) : VM (option Z) :=
  v ← get_vfs_for_index i;
  mret (select_member op v).

Definition call_end_selects (end_index : nat) (ts : list fds_triple_t) (args : list Z) : VM (list fds_triple_t) :=
  for_each (λ (i : nat) (ts : list fds_triple_t),
    f ← select_fn End_select (Z.of_nat i);
    item ← item_at ts (Z.of_nat i);
    match f with
    | Some f =>
        if isset item then
          a ← item_at args (Z.of_nat i);
          x ← on_world (drv_end sd f a (fds item));
          mret (<[i := mkTriple (isset item) x]> ts)
        else mret ts
    | None => mret ts
    end) (seq 0 end_index) ts.

(** One turn of the loop that starts the file systems: the sets and the arguments, and the
    error with which the loop is left. *)
Definition start_one (nfds : Z) (sm : esp_vfs_select_sem_t) (i : nat)
    (x : list fds_triple_t * list Z * option (nat * esp_err_t)) : VM (list fds_triple_t * list Z * option (nat * esp_err_t)) :=
  let '(ts, args, failed) := x in
  match failed with
  | Some _ => mret x
  | None =>
      f ← select_fn Start_select (Z.of_nat i);
      item ← item_at ts (Z.of_nat i);
      match f with
      | Some f =>
          if negb (isset item) then mret x else
          '(err, y, a) ← on_world (λ w, let '(err, y, a, w) := drv_start sd f nfds (fds item) sm w in ((err, y, a), w));
          mret (<[i := mkTriple (isset item) y]> ts, <[i := a]> args,
                if decide (err = ESP_OK) then None else Some (i, err))
      | None => mret x
      end
  end.

(** ** Waiting *)

(** The number of ticks to wait. *)
Definition ticks_to_wait (timeout : option timeval) : Z :=
  match timeout with
  | None => portMAX_DELAY
  | Some t =>
      let timeout_ms := u32 (tv_sec t * 1000 + tv_usec t `quot` 1000) in
      u32 (u32 (timeout_ms + portTICK_PERIOD_MS - 1) `div` portTICK_PERIOD_MS + 1)
  end.

(** Time passes: the file systems that were started change their sets, other tasks run. *)
Definition started (ts : list fds_triple_t) (i : nat) : VM bool :=
  f ← select_fn Start_select (Z.of_nat i);
  mret (match ts !! i, f with Some item, Some _ => isset item | _, _ => false end).
Definition pass_time (ticks : Z) (vfs_count : nat) (ts : list fds_triple_t) : VM (list fds_triple_t) :=
  change ← on_world (drv_pass sd ticks);
  ts ← for_each (λ (i : nat) (ts : list fds_triple_t),
         b ← started ts i;
         mret (if (b : bool) then alter (λ item, mkTriple (isset item) (change i (fds item))) i ts else ts))
       (seq 0 vfs_count) ts;
  meanwhile;;
  mret ts.

(** ** select *)

(** The descriptors that were closed during the call. *)
Definition finish_closes (nfds : nat) : VM unit :=
  for_each (λ (fd : nat) (_ : unit), e ← fd_read fd; whenM (has_pending_close e) (fd_write fd FD_TABLE_ENTRY_UNUSED)) (seq 0 nfds) ().

(** Waiting for the sockets or for the semaphore: the result, the sets of the caller and
    those of the file systems. *)
Definition wait_ready (nfds : Z) (timeout : option timeval) (vfs_count : nat) (l : sel_locals) (ts : list fds_triple_t)
    : VM (Z * user_sets * list fds_triple_t) :=
  match socket_select l with
  | Some f =>
      '(ret, u) ← on_world (λ w, let '(ret, u, w) := drv_socket sd f nfds (user l) timeout w in ((ret, u), w));
      ts ← pass_time (ticks_to_wait timeout) vfs_count ts;
      mret (ret, u, ts)
  | None =>
      let zero (f : option fd_set) := (λ _, FD_ZERO) <$> f in
      let u := mkUser (zero (u_read (user l))) (zero (u_write (user l))) (zero (u_error (user l))) in
      ts ← pass_time (ticks_to_wait timeout) vfs_count ts;
      mret (0, u, ts)
  end.

(** Deleting or clearing the semaphore. *)
Definition drop_sem (l : sel_locals) (sm : esp_vfs_select_sem_t) : VM unit :=
  match sem sm with
  | None => mret ()
  | Some b =>
      if is_sem_local sm then free (Some b)
      else if decide (socket_select l ≠ None) then on_world (λ w, ((), drv_take sd b w)) else mret ()
  end.

(** From the start of the file systems to the end; [bt] and [ba] are the two blocks. *)
Definition run_select (nfds : Z) (timeout : option timeval) (vfs_count : nat) (l : sel_locals)
    (sm : esp_vfs_select_sem_t) (bt ba : option Z) : VM (Z * user_sets) :=
  '(ts, args, failed) ← for_each (start_one nfds sm) (seq 0 vfs_count) (triples l, replicate vfs_count 0, None);
  match failed with
  | Some (i, err) =>
      ts ← (if decide (err = ESP_ERR_NOT_SUPPORTED) then mret ts else call_end_selects i ts args);
      '(_, u) ← set_global_fd_sets ts vfs_count (user l);
      whenM (is_sem_local sm) (free (sem sm));;
      free bt;; free ba;;
      fail_with EINTR (-1, u)
  | None =>
      '(ret, u, ts) ← wait_ready nfds timeout vfs_count l ts;
      ts ← call_end_selects vfs_count ts args;
      '(ret, u) ← (if 0 <=? ret then '(n, u) ← set_global_fd_sets ts vfs_count u; mret (ret + n, u)
                   else mret (ret, u));
      drop_sem l sm;;
      finish_closes (Z.to_nat nfds);;
      free bt;; free ba;;
      mret (ret, u)
  end.

(** The result and the sets of the caller afterwards. *)
Definition esp_vfs_select (nfds : Z) (u : user_sets) (timeout : option timeval) : VM (Z * user_sets) :=
  if (Z.of_nat MAX_FDS <? nfds) || (nfds <? 0) then fail_with EINVAL (-1, u) else
  s ← get;
  let vfs_count := Z.to_nat (s_vfs_count s) in
  bt ← heap_caps_malloc;
  match bt with
  | None => fail_with ENOMEM (-1, u)
  | Some _ =>
      l ← for_each hand_out (seq 0 (Z.to_nat nfds)) (mkLocals (calloc_triples vfs_count) u None None);
      sm ← match socket_select l with
           | Some _ => mret (Some (mkSem false (sel_sem l)))
           | None => b ← heap_caps_malloc; mret ((λ b, mkSem true (Some b)) <$> b)
           end;
      match sm with
      | None => free bt;; fail_with ENOMEM (-1, user l)
      | Some sm =>
          ba ← heap_caps_malloc;
          match ba with
          | None => free bt;; fail_with ENOMEM (-1, user l)
          | Some _ => run_select nfds timeout vfs_count l sm bt ba
          end
      end
  end.

(** ** Waking up *)

(** The first of the file systems that has the function [op]. *)
Fixpoint first_stop (op : select_op) (l : list (option vfs_entry_t)) : option Z :=
  match l with
  | [] => None
  | v :: l => match select_member op v with
              | Some f => Some f
              | None => first_stop op l
              end
  end.

Definition triggered (op : select_op) (sm : esp_vfs_select_sem_t) : VM unit :=
  if is_sem_local sm then
    match sem sm with Some b => on_world (λ w, ((), drv_give sd b w)) | None => fault end
  else
    s ← get;
    match first_stop op (take (Z.to_nat (s_vfs_count s)) (s_vfs s)) with
    | Some f => on_world (λ w, ((), drv_stop sd f (sem sm) w))
    | None => mret ()
    end.

Definition esp_vfs_select_triggered (sm : esp_vfs_select_sem_t) : VM unit := triggered Stop_socket_select sm.
Definition esp_vfs_select_triggered_isr (sm : esp_vfs_select_sem_t) : VM unit := triggered Stop_socket_select_isr sm.

End select.
