(* ===== verification/VfsSelectProps.v ===== *)
(** * Virtual file system: what select does

    A call of select, with file systems and sockets that answer anything and other tasks
    that use the virtual file system meanwhile, returns and gives its memory back, one
    failure of an allocation apart; with file systems that keep their side, it reports the
    descriptors it was asked about that are ready, in the caller's numbers. *)
From Stdlib Require Import ZArith Lia.
From stdpp Require Import base numbers option list gmap.
From S2P Require Import Prelude Vfs VfsCalls VfsSpec VfsInv VfsSelect.

Lemma get_put_set k f x : get_set k (put_set k f x) = f.
Proof. by destruct k. Qed.
Lemma get_put_set_ne k k' f x : k ≠ k' → get_set k (put_set k' f x) = get_set k x.
Proof. by destruct k, k'. Qed.
Lemma get_put_user k f x : get_user k (put_user k f x) = Some f.
Proof. by destruct k. Qed.
Lemma get_put_user_ne k k' f x : k ≠ k' → get_user k (put_user k' f x) = get_user k x.
Proof. by destruct k, k'. Qed.

#[export] Instance fd_kind_eq_dec : EqDecision fd_kind.
Proof. solve_decision. Defined.

(** ** Loops *)

Section loops.
Context {W A : Type}.

(** A loop over the numbers below [n] with an invariant that knows the number. *)
Lemma wp_for_seq (body : nat → A → @Vfs.VM W A) (I : nat → A → vfs_state W → Prop) m n a s :
  (∀ i a s, (m ≤ i < m + n)%nat → I i a s → wp (body i a) s (I (S i))) →
  I m a s → wp (for_each body (seq m n) a) s (I (m + n)%nat).
Proof.
  revert m a s. induction n as [|n IH]; intros m a s Hb Hi; simpl.
  { apply wp_ret. by rewrite Nat.add_0_r. }
  apply wp_bind. eapply wp_mono; [apply Hb; [lia|done]|]. intros a' s' Hi'.
  replace (m + S n)%nat with (S m + n)%nat by lia. apply IH; [|done]. intros i b t Hr. apply Hb. lia.
Qed.

Lemma wp_for_below (body : nat → A → @Vfs.VM W A) (I : A → vfs_state W → Prop) n a s :
  (∀ i a s, (i < n)%nat → I a s → wp (body i a) s I) → I a s → wp (for_each body (seq 0 n) a) s I.
Proof.
  intros Hb Hi. apply (wp_for_seq body (λ _, I) 0 n); [|done]. intros i b t Hr. apply Hb. lia.
Qed.
End loops.

Section props.
Context {W : Type}.
Context (VFS_MAX_COUNT MAX_FDS : nat) (portTICK_PERIOD_MS : Z).
Context (sd : sel_drivers W) (meanwhile : @Vfs.VM W unit).

Abbreviation st := (vfs_state W).
Abbreviation vfs_inv := (VfsSpec.vfs_inv VFS_MAX_COUNT MAX_FDS).
Implicit Types s : st.

(** ** What select needs *)

(** Descriptors of file systems fit into a set. *)
Definition locals_ok s : Prop :=
  Forall (λ e, 0 ≤ vfs_index e → local_fd e < Z.of_nat MAX_FDS) (s_fd_table s).

(** The file system at an index has the function that gives the semaphore of sockets. *)
Definition socket_fns (index : Z) s : Prop :=
  ∃ v o f, s_vfs s !! Z.to_nat index = Some (Some v) ∧ select (vfs v) = Some o ∧
    member o Get_socket_select_semaphore = Some f.

(** Permanent descriptors are those of sockets. *)
Definition sockets_ok s : Prop :=
  Forall (λ e, permanent e = true → 0 ≤ vfs_index e → socket_fns (vfs_index e) s) (s_fd_table s).

Definition asked (u : user_sets) (k : fd_kind) (fd : nat) : bool :=
  match get_user k u with Some f => f !!! fd | None => false end.

(** The permanent descriptors below [n] that the caller asks about are those of sockets. *)
Definition asked_sockets (u : user_sets) (n : nat) s : Prop :=
  ∀ fd e k, (fd < n)%nat → s_fd_table s !! fd = Some e → permanent e = true → 0 ≤ vfs_index e →
    asked u k fd = true → socket_fns (vfs_index e) s.

Definition sets_ok (x : fd_sets) : Prop := ∀ k, length (get_set k x) = MAX_FDS.
Definition user_ok (u : user_sets) : Prop := ∀ k f, get_user k u = Some f → length f = MAX_FDS.
Definition triples_ok (n : nat) (ts : list fds_triple_t) : Prop :=
  length ts = n ∧ Forall (λ t, sets_ok (fds t)) ts.

(** The functions of file systems and sockets leave sets of the right size. *)
Class SetLaws : Prop := mkSetLaws {
  start_size f nfds x sm w : sets_ok x → sets_ok (drv_start sd f nfds x sm w).1.1.2;
  end_size f a x w : sets_ok x → sets_ok (drv_end sd f a x w).1;
  pass_size t w i x : sets_ok x → sets_ok ((drv_pass sd t w).1 i x);
  socket_size f nfds u t w : user_ok u → user_ok (drv_socket sd f nfds u t w).1.2 }.

(** What other tasks do keeps the registry in order. *)
Class TasksLaws : Prop := mkTasksLaws {
  tasks_keep extra s : vfs_inv extra s → locals_ok s →
    wp meanwhile s (λ _ s', vfs_inv extra s' ∧ locals_ok s') }.

(** ** Memory *)

Definition same_but_heap s s' : Prop :=
  s_vfs s' = s_vfs s ∧ s_vfs_count s' = s_vfs_count s ∧ s_fd_table s' = s_fd_table s ∧
  world s' = world s ∧ errno s' = errno s ∧ dirs s' = dirs s.

Lemma inv_grown extra b n sup s :
  vfs_inv extra s → next_block s ≤ b < n →
  b ∉ extra ∧ vfs_inv ({[b]} ∪ extra) (set_heap ({[b]} ∪ live s) n sup s).
Proof.
  intros [H1 H2 H3 H4 H5 H6 H7 H8 H9 H10] Hb.
  assert (b ∉ live s) as Hn by (intros ?%H8; lia).
  rewrite H6 in Hn. split; [set_solver|]. split; simpl; try done.
  - rewrite H6. set_solver.
  - intros c [->%elem_of_singleton|Hc]%elem_of_union; [set_solver|by apply H7].
  - intros c [->%elem_of_singleton|Hc%H8]%elem_of_union; lia.
Qed.

Lemma malloc_inv extra s :
  vfs_inv extra s →
  wp heap_caps_malloc s (λ r s', same_but_heap s s' ∧
    match r with None => vfs_inv extra s' | Some b => b ∉ extra ∧ vfs_inv ({[b]} ∪ extra) s' end).
Proof.
  intros Hinv. unfold wp, heap_caps_malloc. destruct (supply s) as [|[] sup].
  - done.
  - split; [done|]. apply inv_grown; [done|lia].
  - split; [done|]. by destruct Hinv; split.
Qed.

Lemma free_inv extra b s :
  b ∉ extra → vfs_inv ({[b]} ∪ extra) s →
  wp (free (Some b)) s (λ _ s', same_but_heap s s' ∧ vfs_inv extra s').
Proof.
  intros Hb [H1 H2 H3 H4 H5 H6 H7 H8 H9 H10]. unfold wp, free.
  rewrite decide_True by (rewrite H6; set_solver). split; [done|].
  assert (b ∉ owned (s_vfs s)) by (apply H7; set_solver).
  split; simpl; try done.
  - rewrite H6. apply set_eq. intros c. rewrite elem_of_difference, !elem_of_union, elem_of_singleton, elem_of_list_to_set.
    split; [naive_solver|]. intros [Hc|Hc]; (split; [tauto|]); intros ->; done.
  - intros c Hc. apply H7. set_solver.
  - intros c Hc. apply H8. set_solver.
Qed.

Lemma world_inv extra w s : vfs_inv extra s → vfs_inv extra (set_world w s).
Proof. intros []. by split. Qed.
Lemma errno_inv extra e s : vfs_inv extra s → vfs_inv extra (set_errno e s).
Proof. intros []. by split. Qed.

(** ** Bits *)

Lemma wp_isset fd (f : fd_set) s (Q : bool → st → Prop) :
  0 ≤ fd → (Z.to_nat fd < length f)%nat → Q (f !!! Z.to_nat fd) s → wp (FD_ISSET fd f) s Q.
Proof.
  intros H0 Hlt HQ. unfold wp, FD_ISSET. rewrite decide_True by done. destruct (lookup_lt_is_Some_2 _ _ Hlt) as [b Hb]. rewrite Hb.
  by rewrite (list_lookup_total_correct _ _ _ Hb) in HQ.
Qed.

Lemma wp_set fd (f : fd_set) s (Q : fd_set → st → Prop) :
  0 ≤ fd → (Z.to_nat fd < length f)%nat → Q (<[Z.to_nat fd := true]> f) s → wp (FD_SET fd f) s Q.
Proof. intros H0 Hlt HQ. unfold wp, FD_SET. by rewrite decide_True. Qed.

Lemma wp_clr fd (f : fd_set) s (Q : fd_set → st → Prop) :
  0 ≤ fd → (Z.to_nat fd < length f)%nat → Q (<[Z.to_nat fd := false]> f) s → wp (FD_CLR fd f) s Q.
Proof. intros H0 Hlt HQ. unfold wp, FD_CLR. by rewrite decide_True. Qed.

Lemma wp_item_at {A} (l : list A) i x s (Q : A → st → Prop) :
  0 ≤ i → l !! Z.to_nat i = Some x → Q x s → wp (item_at l i) s Q.
Proof. intros Hi Hx HQ. unfold wp, item_at. by rewrite decide_True, Hx. Qed.

Lemma wp_safe_isset fd u k s (Q : bool → st → Prop) :
  user_ok u → 0 ≤ fd → (Z.to_nat fd < MAX_FDS)%nat → Q (asked u k (Z.to_nat fd)) s →
  wp (esp_vfs_safe_fd_isset fd (get_user k u)) s Q.
Proof.
  intros Hu H0 Hfd HQ. unfold asked in HQ. unfold esp_vfs_safe_fd_isset.
  destruct (get_user k u) as [f|] eqn:Ef; [|by apply wp_ret]. apply wp_isset; [done| |done]. by rewrite (Hu k f Ef).
Qed.

Lemma alter_known {A} (g : A → A) (l : list A) i x : l !! i = Some x → alter g i l = <[i := g x]> l.
Proof.
  intros Hx. apply list_eq. intros j. destruct (decide (i = j)) as [<-|Hj].
  - rewrite list_lookup_alter_eq, Hx. simpl. by rewrite list_lookup_insert_eq by by eapply lookup_lt_Some.
  - by rewrite list_lookup_alter_ne, list_lookup_insert_ne.
Qed.

(** ** Handing out *)

(** A bit of the file system at [index] is set for a descriptor of the caller, whose own
    bit is cleared. *)
Definition moved (k : fd_kind) (fd index local : nat) (x : list fds_triple_t * user_sets)
    : list fds_triple_t * user_sets :=
  match get_user k x.2 with
  | Some f =>
      if (f !!! fd : bool) then
        (alter (λ t, mkTriple true (put_set k (<[local := true]> (get_set k (fds t))) (fds t))) index x.1,
         put_user k (<[fd := false]> f) x.2)
      else x
  | None => x
  end.

Definition pair_ok (n : nat) (x : list fds_triple_t * user_sets) : Prop := triples_ok n x.1 ∧ user_ok x.2.

Lemma put_user_ok k f u : length f = MAX_FDS → user_ok u → user_ok (put_user k f u).
Proof.
  intros Hf Hu k' g. destruct (decide (k' = k)) as [->|Hk].
  - rewrite get_put_user. by intros [= <-].
  - rewrite get_put_user_ne by done. apply Hu.
Qed.

Lemma put_set_ok k f x : length f = MAX_FDS → sets_ok x → sets_ok (put_set k f x).
Proof.
  intros Hf Hu k'. destruct (decide (k' = k)) as [->|Hk].
  - by rewrite get_put_set.
  - rewrite get_put_set_ne by done. apply Hu.
Qed.

Lemma moved_ok k fd index local n x : pair_ok n x → pair_ok n (moved k fd index local x).
Proof.
  intros [[Hlen Hts] Hu]. unfold moved. destruct (get_user k x.2) as [f|] eqn:Ef; [|done].
  destruct (f !!! fd); [|done]. split; [split; simpl; [by rewrite length_alter|]|].
  - apply Forall_alter; [done|]. intros t Ht Hok. apply put_set_ok; [|done]. rewrite length_insert. apply Hok.
  - apply put_user_ok; [|done]. rewrite length_insert. by eapply Hu.
Qed.

Lemma wp_move_fd k fd index local n x s (Q : list fds_triple_t * user_sets → st → Prop) :
  pair_ok n x → (fd < MAX_FDS)%nat → 0 ≤ index < Z.of_nat n → 0 ≤ local < Z.of_nat MAX_FDS →
  Q (moved k fd (Z.to_nat index) (Z.to_nat local) x) s →
  wp (move_fd k (Z.of_nat fd) index local x) s Q.
Proof.
  intros [[Hlen Hts] Hu] Hfd Hi Hl HQ. unfold move_fd, moved in *. destruct x as [ts u]. simpl in *.
  apply wp_bind, wp_safe_isset; [done|lia|lia|]. unfold asked. rewrite Nat2Z.id.
  destruct (get_user k u) as [f|] eqn:Ef; [|by apply wp_ret].
  destruct (f !!! fd) eqn:Eb; simpl; [|by apply wp_ret].
  destruct (lookup_lt_is_Some_2 ts (Z.to_nat index)) as [t Ht]; [lia|].
  pose proof (proj1 (Forall_lookup _ _) Hts _ _ Ht) as Hok. simpl in Hok.
  apply wp_bind, (wp_item_at _ _ t); [lia|done|].
  apply wp_bind, wp_set; [lia|rewrite (Hok k); lia|].
  apply wp_bind, wp_clr; [lia|rewrite (Hu k f Ef); lia|].
  apply wp_ret. rewrite Nat2Z.id. by rewrite (alter_known _ _ _ _ Ht) in HQ.
Qed.

(** What one turn of the first loop does to the sets and to the entry of the table. *)
Definition handed (e : fd_table_t) (fd : nat) (x : list fds_triple_t * user_sets) : list fds_triple_t * user_sets :=
  if (vfs_index e <? 0) || permanent e then x else
  let mv k := moved k fd (Z.to_nat (vfs_index e)) (Z.to_nat (local_fd e)) in
  mv KError (mv KWrite (mv KRead x)).

Definition flagged (b : bool) (e : fd_table_t) : fd_table_t :=
  mkFd (permanent e) (has_pending_close e) (b || has_pending_select e) (vfs_index e) (local_fd e).

Lemma handed_ok e fd n x : pair_ok n x → pair_ok n (handed e fd x).
Proof. intros H. unfold handed. destruct (_ || _); [done|]. by do 3 apply moved_ok. Qed.

Lemma flagged_false e : flagged false e = e.
Proof. by destruct e. Qed.

Lemma set_same s : set_world (world s) (set_table (s_fd_table s) s) = s.
Proof. by destruct s. Qed.

(** The state after a turn for descriptor [fd]. *)
Definition turned (u : user_sets) (fd : nat) (e : fd_table_t) (w : W) s : st :=
  set_world w (set_table (<[fd := flagged (asked u KError fd) e]> (s_fd_table s)) s).

Lemma wp_flag fd e u extra s (Q : unit → st → Prop) :
  vfs_inv extra s → s_fd_table s !! fd = Some e → Q () (turned u fd e (world s) s) →
  wp (whenM (asked u KError fd)
        (fd_write fd (mkFd (permanent e) (has_pending_close e) true (vfs_index e) (local_fd e)))) s Q.
Proof.
  intros Hinv He HQ. unfold turned in HQ. destruct (asked u KError fd); simpl whenM.
  - unfold wp, fd_write. rewrite He. by destruct s.
  - apply wp_ret. rewrite flagged_false, list_insert_id, set_same in HQ by done. done.
Qed.

Lemma one_asked u fd :
  asked u KRead fd || asked u KWrite fd || asked u KError fd = true → ∃ k, asked u k fd = true.
Proof. rewrite !orb_true_iff. intros [[H|H]|H]; by eexists. Qed.

(** Descriptors leave the sets of the caller but do not enter them. *)
Lemma asked_moved k fd index local x k' j : asked (moved k fd index local x).2 k' j = true → asked x.2 k' j = true.
Proof.
  unfold asked, moved. destruct (get_user k x.2) as [f|] eqn:Ef; [|done]. destruct (f !!! fd); [|done]. simpl.
  destruct (decide (k' = k)) as [->|Hk]; [rewrite get_put_user, Ef|by rewrite get_put_user_ne].
  destruct (decide (fd = j)) as [->|Hj]; [|by rewrite list_lookup_total_insert_ne].
  destruct (decide (j < length f)%nat); [by rewrite list_lookup_total_insert_eq|by rewrite list_insert_ge by lia].
Qed.

Lemma asked_handed e fd x k j : asked (handed e fd x).2 k j = true → asked x.2 k j = true.
Proof. unfold handed. destruct (_ || _); [done|]. by intros H%asked_moved%asked_moved%asked_moved. Qed.

Lemma hand_out_spec extra n fd e l s :
  vfs_inv extra s → locals_ok s →
  (∀ k, permanent e = true → 0 ≤ vfs_index e → asked (user l) k fd = true → socket_fns (vfs_index e) s) →
  s_vfs_count s = Z.of_nat n → pair_ok n (triples l, user l) → s_fd_table s !! fd = Some e →
  wp (hand_out sd fd l) s (λ l' s', ∃ w, s' = turned (user l) fd e w s ∧
    (triples l', user l') = handed e fd (triples l, user l) ∧
    ((permanent e = true → ∀ k, asked (user l) k fd = false) →
     w = world s ∧ socket_select l' = socket_select l ∧ sel_sem l' = sel_sem l)).
Proof.
  intros Hinv Hloc Hsock Hn Hok He.
  assert (fd < MAX_FDS)%nat as Hfd by (rewrite <- (iv_table_len _ _ _ _ Hinv); by eapply lookup_lt_Some).
  pose proof (proj1 (Forall_lookup _ _) (iv_table _ _ _ _ Hinv) _ _ He) as [Hix Hl].
  pose proof (proj1 (Forall_lookup _ _) Hloc _ _ He) as Hl'. simpl in Hl'.
  unfold hand_out. apply wp_bind. unfold wp at 1, fd_read. rewrite He.
  apply wp_bind, (wp_safe_isset _ _ KError); [apply Hok|lia|lia|]. rewrite Nat2Z.id.
  apply wp_bind. eapply (wp_flag _ _ (user l)); [done..|].
  unfold handed. destruct (Z.ltb_spec (vfs_index e) 0) as [Hneg|Hpos]; cbn [orb].
  { apply wp_ret. by exists (world s). }
  destruct (permanent e) eqn:Ep.
  2:{ apply wp_bind, (wp_move_fd _ _ _ _ n); [done|done|lia|lia|].
      apply wp_bind, (wp_move_fd _ _ _ _ n); [by apply moved_ok|done|lia|lia|].
      apply wp_bind, (wp_move_fd _ _ _ _ n); [by do 2 apply moved_ok|done|lia|lia|].
      destruct (moved KError _ _ _ _) as [ts u]. apply wp_ret. by exists (world s). }
  destruct (socket_select l) as [f|] eqn:Es; [apply wp_ret; by exists (world s)|].
  apply wp_bind, (wp_safe_isset _ _ KRead); [apply Hok|lia|lia|].
  apply wp_bind, (wp_safe_isset _ _ KWrite); [apply Hok|lia|lia|]. rewrite Nat2Z.id.
  destruct (_ || _) eqn:Ea; cbn [negb]; [|apply wp_ret; by exists (world s)].
  destruct (one_asked (user l) fd Ea) as [k Hk]. destruct (Hsock k eq_refl Hpos Hk) as (v & o & f & Hv & Ho & Hf).
  apply wp_bind. unfold select_of. apply wp_bind, wp_get, wp_bind, (wp_item_at _ _ (Some v)); [lia|done|].
  rewrite Ho. apply wp_ret. rewrite Hf. apply wp_bind. unfold wp at 1, on_world.
  destruct (drv_get_sem sd f _) as [sm w]. apply wp_ret. exists w. split_and!; [done|done|].
  intros Hno. rewrite (Hno eq_refl KRead), (Hno eq_refl KWrite), (Hno eq_refl KError) in Ea. done.
Qed.

Lemma turned_inv extra u fd e w s :
  vfs_inv extra s → s_fd_table s !! fd = Some e → vfs_inv extra (turned u fd e w s).
Proof.
  intros Hinv He. unfold turned. apply world_inv, table_inv; [done|rewrite length_insert; apply Hinv|].
  apply Forall_insert; [apply Hinv|]. by apply (proj1 (Forall_lookup _ _) (iv_table _ _ _ _ Hinv) _ _ He).
Qed.

Lemma turned_forall (P : fd_table_t → Prop) u fd e w s :
  (∀ b e, P e → P (flagged b e)) → Forall P (s_fd_table s) → s_fd_table s !! fd = Some e →
  Forall P (s_fd_table (turned u fd e w s)).
Proof.
  intros HP Hall He. simpl. apply Forall_insert; [done|]. apply HP. by eapply (proj1 (Forall_lookup _ _) Hall).
Qed.

(** The first loop with any descriptors. *)
Lemma hand_out_all extra n m l s :
  vfs_inv extra s → locals_ok s → asked_sockets (user l) m s → s_vfs_count s = Z.of_nat n →
  (m ≤ MAX_FDS)%nat → pair_ok n (triples l, user l) →
  wp (for_each (hand_out sd) (seq 0 m) l) s (λ l' s', vfs_inv extra s' ∧ locals_ok s' ∧
    s_vfs_count s' = Z.of_nat n ∧ pair_ok n (triples l', user l') ∧ errno s' = errno s).
Proof.
  intros Hinv Hloc Hsock Hn Hm Hok.
  apply (wp_mono _ _ (λ l' s', (vfs_inv extra s' ∧ locals_ok s' ∧ asked_sockets (user l') m s') ∧
    s_vfs_count s' = Z.of_nat n ∧ pair_ok n (triples l', user l') ∧ errno s' = errno s)); [|by naive_solver].
  apply wp_for_below; [|done]. clear Hinv Hloc Hsock Hn Hok.
  intros i l1 s1 Hi ((Hinv & Hloc & Hsock) & Hn & Hok & Herr).
  destruct (lookup_lt_is_Some_2 (s_fd_table s1) i) as [e He]; [rewrite (iv_table_len _ _ _ _ Hinv); lia|].
  eapply wp_mono; [eapply hand_out_spec; [done|done| |done..]; intros k; by apply (Hsock i e k)|].
  intros l2 s2 (w & -> & Hx & _). split_and!; try done; [by apply turned_inv|by apply turned_forall|..].
  - assert (user l2 = (handed e i (triples l1, user l1)).2) as Hu by by rewrite <- Hx.
    intros fd e' k Hfd He' Hp Hix Ha. rewrite Hu in Ha. apply asked_handed in Ha. simpl in Ha, He'.
    change (socket_fns (vfs_index e') s1). destruct (decide (i = fd)) as [<-|Hne].
    + rewrite list_lookup_insert_eq in He' by by eapply lookup_lt_Some. injection He' as <-.
      by apply (Hsock i e k).
    + rewrite list_lookup_insert_ne in He' by done. by apply (Hsock fd e' k).
  - rewrite Hx. by apply handed_ok.
Qed.

(** ** Starting, waiting and ending *)

Definition fn_at (op : select_op) s (i : nat) : option Z := select_member op (mjoin (s_vfs s !! i)).

Lemma wp_select_fn extra op i s (Q : option Z → st → Prop) :
  vfs_inv extra s → Q (fn_at op s i) s → wp (select_fn op (Z.of_nat i)) s Q.
Proof.
  intros Hinv HQ. unfold select_fn, get_vfs_for_index, fn_at in *. apply wp_bind, wp_bind, wp_get.
  rewrite (proj2 (Z.ltb_ge _ _)) by lia. rewrite Nat2Z.id. simpl orb.
  destruct (Z.leb_spec (s_vfs_count s) (Z.of_nat i)) as [Hge|Hlt].
  - apply wp_ret, wp_ret. destruct (s_vfs s !! i) as [[v|]|] eqn:Hv; try done.
    pose proof (iv_above _ _ _ _ Hinv _ _ Hv). lia.
  - destruct (lookup_lt_is_Some_2 (s_vfs s) i) as [o Ho].
    { rewrite (iv_len _ _ _ _ Hinv). pose proof (iv_count _ _ _ _ Hinv). lia. }
    rewrite Ho in *. by apply wp_ret, wp_ret.
Qed.

Lemma set_world_world w w' s : set_world w (set_world w' s) = set_world w s.
Proof. by destruct s. Qed.
Lemma set_world_id s : set_world (world s) s = s.
Proof. by destruct s. Qed.

(** [s'] is [s] but for what file systems keep. *)
Definition only_world s s' : Prop := ∃ w, s' = set_world w s.

Lemma only_world_refl s : only_world s s.
Proof. exists (world s). by rewrite set_world_id. Qed.

Lemma only_world_set w s s' : only_world s s' → only_world s (set_world w s').
Proof. intros [w' ->]. exists w. apply set_world_world. Qed.

Lemma only_world_inv extra s s' : only_world s s' → vfs_inv extra s → vfs_inv extra s'.
Proof. intros [w ->]. apply world_inv. Qed.

Lemma triples_item n ts i : triples_ok n ts → (i < n)%nat → ∃ t, ts !! i = Some t ∧ sets_ok (fds t).
Proof.
  intros [Hlen Hall] Hi. destruct (lookup_lt_is_Some_2 ts i) as [t Ht]; [lia|]. exists t. split; [done|].
  by apply (proj1 (Forall_lookup _ _) Hall _ _ Ht).
Qed.

Lemma triples_insert n ts i b x : triples_ok n ts → sets_ok x → triples_ok n (<[i := mkTriple b x]> ts).
Proof. intros [Hlen Hall] Hx. split; [by rewrite length_insert|]. by apply Forall_insert. Qed.

Lemma start_one_safe `{!SetLaws} extra n nfds sm i x s :
  vfs_inv extra s → triples_ok n x.1.1 → length x.1.2 = n → (i < n)%nat →
  wp (start_one sd nfds sm i x) s (λ x' s', only_world s s' ∧ triples_ok n x'.1.1 ∧ length x'.1.2 = n ∧
    (x'.2 = x.2 ∨ ∃ err, x'.2 = Some (i, err))).
Proof.
  intros Hinv Hts Hargs Hi. destruct x as [[ts args] failed]. unfold start_one. simpl in *.
  pose proof (only_world_refl s).
  destruct failed as [p|]; [apply wp_ret; by auto|].
  apply wp_bind. eapply wp_select_fn; [done|].
  destruct (triples_item _ _ _ Hts Hi) as (t & Ht & Hok).
  apply wp_bind, (wp_item_at _ _ t); [lia|by rewrite Nat2Z.id|].
  destruct (fn_at Start_select s i) as [f|]; [|apply wp_ret; by auto].
  destruct (isset t) eqn:Eset; cbn [negb]; [|apply wp_ret; by auto].
  apply wp_bind. unfold wp at 1, on_world.
  pose proof (start_size f nfds (fds t) sm (world s) Hok) as Hy.
  destruct (drv_start sd f nfds (fds t) sm (world s)) as [[[err y] a] w]. simpl in Hy. apply wp_ret. simpl.
  split_and!; [by exists w|by apply triples_insert|by rewrite length_insert|].
  destruct (decide _); [by left|]. right. by exists err.
Qed.

Lemma start_all_safe `{!SetLaws} extra n nfds sm ts s :
  vfs_inv extra s → triples_ok n ts →
  wp (for_each (start_one sd nfds sm) (seq 0 n) (ts, replicate n 0, None)) s (λ x s',
    only_world s s' ∧ triples_ok n x.1.1 ∧ length x.1.2 = n ∧ ∀ i err, x.2 = Some (i, err) → (i < n)%nat).
Proof.
  intros Hinv Hts. apply wp_for_below.
  2:{ split_and!; [apply only_world_refl|done|apply length_replicate|done]. }
  intros i x s' Hi (Hw & Hts' & Hargs & Hf).
  eapply wp_mono; [eapply start_one_safe; [by eapply only_world_inv|done..]|].
  intros x' s'' ([w ->] & H1 & H2 & H3). split_and!; [by apply only_world_set|done|done|].
  intros j err Hj. destruct H3 as [E|[err' E]]; rewrite E in Hj; [by eapply Hf|by injection Hj as -> ->].
Qed.

Lemma end_selects_safe `{!SetLaws} extra n m ts args s :
  vfs_inv extra s → triples_ok n ts → length args = n → (m ≤ n)%nat →
  wp (call_end_selects sd m ts args) s (λ ts' s', only_world s s' ∧ triples_ok n ts').
Proof.
  intros Hinv Hts Hargs Hm. unfold call_end_selects. apply wp_for_below; [|split; [apply only_world_refl|done]].
  intros i ts1 s1 Hi [Hw Hts1]. apply wp_bind. eapply wp_select_fn; [by eapply only_world_inv|].
  destruct (triples_item _ _ i Hts1) as (t & Ht & Hok); [lia|].
  apply wp_bind, (wp_item_at _ _ t); [lia|by rewrite Nat2Z.id|].
  destruct (fn_at End_select s1 i) as [f|]; [|by apply wp_ret].
  destruct (isset t); [|by apply wp_ret].
  destruct (lookup_lt_is_Some_2 args i) as [a Ha]; [lia|].
  apply wp_bind, (wp_item_at _ _ a); [lia|by rewrite Nat2Z.id|].
  apply wp_bind. unfold wp at 1, on_world. pose proof (end_size f a (fds t) (world s1) Hok) as Hx.
  destruct (drv_end sd f a (fds t) (world s1)) as [x w]. simpl in Hx. apply wp_ret.
  split; [by apply only_world_set|by apply triples_insert].
Qed.

Lemma pass_time_safe `{!SetLaws, !TasksLaws} extra n t ts s :
  vfs_inv extra s → locals_ok s → triples_ok n ts →
  wp (pass_time sd meanwhile t n ts) s (λ ts' s', vfs_inv extra s' ∧ locals_ok s' ∧ triples_ok n ts').
Proof.
  intros Hinv Hloc Hts. unfold pass_time. apply wp_bind. unfold wp at 1, on_world.
  pose proof (pass_size t (world s)) as Hsize. destruct (drv_pass sd t (world s)) as [change w]. simpl in Hsize.
  apply wp_bind. apply (wp_mono _ _ (λ ts' s', s' = set_world w s ∧ triples_ok n ts')).
  - apply wp_for_below; [|done]. intros i ts1 s1 Hi [-> Hts1]. apply wp_bind. unfold started. apply wp_bind.
    eapply wp_select_fn; [by apply world_inv|]. apply wp_ret, wp_ret. split; [done|].
    destruct (triples_item _ _ i Hts1 Hi) as (x & Hx & Hok). rewrite Hx.
    destruct (fn_at _ _ _); [|done]. destruct (isset x); [|done]. rewrite (alter_known _ _ _ _ Hx).
    by apply triples_insert; [|apply Hsize].
  - intros ts1 s1 [-> Hts1]. apply wp_bind. eapply wp_mono; [by apply tasks_keep; [apply world_inv|]|].
    intros _ s2 [H1 H2]. by apply wp_ret.
Qed.

(** ** Collecting *)

Lemma collect_kind_safe k fd local t x s :
  sets_ok (fds t) → user_ok x.2 → (fd < MAX_FDS)%nat → 0 ≤ local < Z.of_nat MAX_FDS →
  wp (collect_kind k fd local t x) s (λ x' s', s' = s ∧ user_ok x'.2).
Proof.
  intros Ht Hu Hfd Hl. destruct x as [ret u]. unfold collect_kind. simpl in *.
  destruct (get_user k u) as [f|] eqn:Ef; [|by apply wp_ret].
  apply wp_bind, wp_isset; [lia|rewrite (Ht k); lia|]. destruct (_ !!! _); [|by apply wp_ret].
  apply wp_bind, wp_set; [lia|rewrite (Hu k f Ef); lia|]. apply wp_ret. split; [done|].
  apply put_user_ok; [|done]. rewrite length_insert. by eapply Hu.
Qed.

Lemma set_global_safe extra n ts u s :
  vfs_inv extra s → locals_ok s → triples_ok n ts → user_ok u →
  wp (set_global_fd_sets MAX_FDS ts n u) s (λ x s', s' = s ∧ user_ok x.2).
Proof.
  intros Hinv Hloc Hts Hu. unfold set_global_fd_sets. apply wp_for_below; [|done].
  intros i x s1 Hi [-> Hx]. destruct (triples_item _ _ i Hts Hi) as (t & Ht & Hok).
  apply wp_bind, (wp_item_at _ _ t); [lia|by rewrite Nat2Z.id|].
  destruct (isset t); [|by apply wp_ret]. apply wp_for_below; [|done].
  intros fd y s2 Hfd [-> Hy]. unfold collect_fd. apply wp_bind. eapply wp_fd_read; [done|done|].
  intros e He [_ Hl]. destruct (Z.eqb_spec (vfs_index e) (Z.of_nat i)) as [Hix|]; [|by apply wp_ret].
  pose proof (proj1 (Forall_lookup _ _) Hloc _ _ He) as Hl'. simpl in Hl'.
  apply wp_bind. eapply wp_mono; [apply collect_kind_safe; [done..|lia]|]. intros y1 s3 [-> Hy1].
  apply wp_bind. eapply wp_mono; [apply collect_kind_safe; [done..|lia]|]. intros y2 s3 [-> Hy2].
  apply collect_kind_safe; [done..|lia].
Qed.

Lemma finish_closes_safe extra n s :
  vfs_inv extra s → (n ≤ MAX_FDS)%nat →
  wp (finish_closes n) s (λ _ s', vfs_inv extra s' ∧ errno s' = errno s ∧ world s' = world s).
Proof.
  intros Hinv Hn. apply wp_for_below; [|done]. intros fd [] s1 Hfd (Hinv1 & He1 & Hw1).
  apply wp_bind. eapply wp_fd_read; [done|lia|]. intros e He _. destruct (has_pending_close e); [|by apply wp_ret].
  eapply wp_fd_write; [done|lia|split; [by left|simpl; lia]|]. done.
Qed.

(** ** The whole call *)

Lemma wait_ready_safe `{!SetLaws, !TasksLaws} extra n nfds timeout l ts s :
  vfs_inv extra s → locals_ok s → triples_ok n ts → user_ok (user l) →
  wp (wait_ready MAX_FDS portTICK_PERIOD_MS sd meanwhile nfds timeout n l ts) s (λ x s',
    vfs_inv extra s' ∧ locals_ok s' ∧ user_ok x.1.2 ∧ triples_ok n x.2).
Proof.
  intros Hinv Hloc Hts Hu. unfold wait_ready. destruct (socket_select l) as [f|].
  - apply wp_bind. unfold wp at 1, on_world. pose proof (socket_size f nfds (user l) timeout (world s) Hu) as Hs.
    destruct (drv_socket sd f nfds (user l) timeout (world s)) as [[ret u] w]. simpl in Hs.
    apply wp_bind. eapply wp_mono; [apply (pass_time_safe extra); [by apply world_inv|done|done]|].
    intros ts' s' (H1 & H2 & H3). by apply wp_ret.
  - apply wp_bind. eapply wp_mono; [by apply (pass_time_safe extra)|].
    intros ts' s' (H1 & H2 & H3). apply wp_ret. split_and!; [done|done| |done].
    intros k f Hf. enough (f = FD_ZERO MAX_FDS) as -> by apply length_replicate.
    destruct k; simpl in Hf; by apply fmap_Some in Hf as (? & _ & ->).
Qed.

(** The blocks of a call: the sets, the local semaphore and the arguments. *)
Definition sem_block (sm : esp_vfs_select_sem_t) : option Z := if is_sem_local sm then sem sm else None.

Lemma free_opt_inv extra b s :
  (∀ x, b = Some x → x ∉ extra) → vfs_inv (list_to_set (option_list b) ∪ extra) s →
  wp (free b) s (λ _ s', same_but_heap s s' ∧ vfs_inv extra s').
Proof.
  intros Hb Hinv. destruct b as [x|]; simpl in *.
  - apply free_inv; [by apply Hb|]. by rewrite union_empty_r_L in Hinv.
  - rewrite union_empty_l_L in Hinv. by split.
Qed.

Lemma same_locals s s' : same_but_heap s s' → locals_ok s → locals_ok s'.
Proof. unfold locals_ok. by intros (_ & _ & -> & _). Qed.

Lemma drop_sem_safe extra l sm s :
  (∀ x, sem_block sm = Some x → x ∉ extra) → vfs_inv (list_to_set (option_list (sem_block sm)) ∪ extra) s →
  wp (drop_sem sd l sm) s (λ _ s', vfs_inv extra s').
Proof.
  unfold sem_block, drop_sem. intros Hb Hinv. destruct (is_sem_local sm), (sem sm) as [b|]; simpl in *.
  - eapply wp_mono; [apply (free_opt_inv extra (Some b)); [done|exact Hinv]|]. by intros _ s' [_ ?].
  - rewrite union_empty_l_L in Hinv. by apply wp_ret.
  - rewrite union_empty_l_L in Hinv. destruct (decide _); [|by apply wp_ret]. by apply world_inv.
  - rewrite union_empty_l_L in Hinv. by apply wp_ret.
Qed.

Section run.
Context (extra : gset Z) (bt ba : Z) (sm : esp_vfs_select_sem_t).
Hypothesis (fresh_sem : ∀ x, sem_block sm = Some x → x ∉ ({[bt]} ∪ ({[ba]} ∪ extra) : gset Z)).
Hypothesis (fresh_bt : bt ∉ ({[ba]} ∪ extra : gset Z)) (fresh_ba : ba ∉ extra).

Definition run_extra : gset Z := list_to_set (option_list (sem_block sm)) ∪ ({[bt]} ∪ ({[ba]} ∪ extra)).

(** The end of a call, after the semaphore is gone. *)
Lemma wp_free_both {A} (k : @Vfs.VM W A) s (Q : A → st → Prop) :
  vfs_inv ({[bt]} ∪ ({[ba]} ∪ extra)) s →
  (∀ s', same_but_heap s s' → vfs_inv extra s' → wp k s' Q) → wp (free (Some bt);; free (Some ba);; k) s Q.
Proof.
  intros Hinv HQ. apply wp_bind. eapply wp_mono; [by apply free_inv|]. intros _ s1 [Hs1 Hinv1].
  apply wp_bind. eapply wp_mono; [by apply free_inv|]. intros _ s2 [Hs2 Hinv2]. apply HQ; [|done].
  unfold same_but_heap in *. naive_solver congruence.
Qed.

Lemma run_select_safe `{!SetLaws, !TasksLaws} n nfds timeout l s :
  vfs_inv run_extra s → locals_ok s → pair_ok n (triples l, user l) → 0 ≤ nfds ≤ Z.of_nat MAX_FDS →
  wp (run_select MAX_FDS portTICK_PERIOD_MS sd meanwhile nfds timeout n l sm (Some bt) (Some ba)) s (λ x s',
    vfs_inv extra s' ∧ user_ok x.2).
Proof.
  intros Hinv Hloc [Hts Hu] Hn. simpl in Hts, Hu. unfold run_select.
  apply wp_bind. eapply wp_mono; [by apply (start_all_safe run_extra)|].
  intros [[ts args] failed] s1 (Hw & Hts1 & Hargs & Hfail). simpl in *.
  pose proof (only_world_inv _ _ _ Hw Hinv) as Hinv1.
  assert (locals_ok s1) as Hloc1 by by destruct Hw as [w ->].
  destruct failed as [[i err]|].
  - specialize (Hfail i err eq_refl). apply wp_bind.
    apply (wp_mono _ _ (λ ts' s', only_world s1 s' ∧ triples_ok n ts')).
    { destruct (decide _); [apply wp_ret; split; [apply only_world_refl|done]|].
      apply (end_selects_safe run_extra); [done..|lia]. }
    intros ts' s2 [Hw2 Hts2]. pose proof (only_world_inv _ _ _ Hw2 Hinv1) as Hinv2.
    assert (locals_ok s2) as Hloc2 by by destruct Hw2 as [w ->].
    apply wp_bind. eapply wp_mono; [by apply (set_global_safe run_extra)|].
    intros [r u] s3 [-> Hu']. simpl in Hu'. apply wp_bind.
    apply (wp_mono _ _ (λ _ s', vfs_inv ({[bt]} ∪ ({[ba]} ∪ extra)) s')).
    { unfold run_extra, sem_block in *. destruct (is_sem_local sm); simpl whenM.
      - eapply wp_mono; [by apply free_opt_inv|]. by intros _ s' [_ ?].
      - simpl in Hinv2. rewrite union_empty_l_L in Hinv2. by apply wp_ret. }
    intros _ s3 Hinv3. apply wp_free_both; [done|]. intros s4 _ Hinv4.
    unfold fail_with. apply wp_bind, wp_modify, wp_ret. split; [by apply errno_inv|done].
  - apply wp_bind. eapply wp_mono; [by apply (wait_ready_safe run_extra)|].
    intros [[ret u] ts'] s2 (Hinv2 & Hloc2 & Hu2 & Hts2). simpl in Hu2, Hts2.
    apply wp_bind. eapply wp_mono; [by apply (end_selects_safe run_extra n)|].
    intros ts3 s3 [Hw3 Hts3]. pose proof (only_world_inv _ _ _ Hw3 Hinv2) as Hinv3.
    assert (locals_ok s3) as Hloc3 by by destruct Hw3 as [w ->].
    apply wp_bind. apply (wp_mono _ _ (λ x s', s' = s3 ∧ user_ok x.2)).
    { destruct (0 <=? ret); [|by apply wp_ret]. apply wp_bind.
      eapply wp_mono; [by apply (set_global_safe run_extra)|]. intros [r u'] s' [-> Hu']. by apply wp_ret. }
    intros [ret' u'] s' [-> Hu']. simpl in Hu'.
    apply wp_bind. eapply wp_mono; [by apply (drop_sem_safe ({[bt]} ∪ ({[ba]} ∪ extra)))|]. intros [] s4 Hinv4.
    apply wp_bind. eapply wp_mono; [apply (finish_closes_safe _ _ _ Hinv4); lia|]. intros _ s5 [Hinv5 _].
    apply wp_free_both; [done|]. intros s6 _ Hinv6. by apply wp_ret.
Qed.
End run.

Lemma calloc_ok n u : user_ok u → pair_ok n (calloc_triples MAX_FDS n, u).
Proof.
  intros Hu. split; [|done]. simpl. split; [apply length_replicate|].
  apply Forall_replicate. intros k. destruct k; apply length_replicate.
Qed.

(** C25: a call of select returns, whatever the functions of file systems and sockets answer
    and whatever other tasks do with the virtual file system while it waits: no array and
    no set is accessed out of bounds, and the registry stays in order.  All blocks that the
    call has taken are given back, except for the semaphore when there is no memory for the
    array of arguments after it was created.  The code leaves three things to its users and
    they are assumed here: the descriptors that file systems use for themselves are below
    the size of a set, also those of files that other tasks open meanwhile ([locals_ok],
    [TasksLaws]); a permanent descriptor that the caller asks about belongs to a file system
    with the functions for sockets ([asked_sockets]); and the functions of file systems
    write only inside the sets they are given ([SetLaws]). *)
Theorem select_balanced `{!SetLaws, !TasksLaws} extra nfds u timeout s :
  vfs_inv extra s → locals_ok s → asked_sockets u (Z.to_nat nfds) s → user_ok u →
  wp (esp_vfs_select MAX_FDS portTICK_PERIOD_MS sd meanwhile nfds u timeout) s (λ '(r, u') s',
    user_ok u' ∧
    (vfs_inv extra s' ∨
     (r = -1 ∧ errno s' = ENOMEM ∧ ∃ b, b ∉ extra ∧ vfs_inv ({[b]} ∪ extra) s'))).
Proof.
  intros Hinv Hloc Hsock Hu. unfold esp_vfs_select. destruct (_ || _) eqn:En.
  { unfold fail_with. apply wp_bind, wp_modify, wp_ret. split; [done|left; by apply errno_inv]. }
  apply orb_false_iff in En as [Hle%Z.ltb_ge Hge%Z.ltb_ge].
  apply wp_bind, wp_get, wp_bind. eapply wp_mono; [by apply (malloc_inv extra)|].
  intros [bt|] s1 [Hs1 Hinv1].
  2:{ unfold fail_with. apply wp_bind, wp_modify, wp_ret. split; [done|left; by apply errno_inv]. }
  destruct Hinv1 as [Hbt Hinv1]. destruct Hs1 as (E1 & E2 & E3 & E4 & E5 & E6).
  apply wp_bind. eapply wp_mono.
  { apply (hand_out_all ({[bt]} ∪ extra) (Z.to_nat (s_vfs_count s))); [done| | | |lia|by apply calloc_ok].
    - unfold locals_ok. by rewrite E3.
    - unfold asked_sockets, socket_fns. by rewrite E1, E3.
    - pose proof (iv_count _ _ _ _ Hinv). rewrite E2. lia. }
  intros l s2 (Hinv2 & Hloc2 & Hn2 & Hok & _).
  apply wp_bind. apply (wp_mono _ _ (λ o s', locals_ok s' ∧ match o with
    | None => vfs_inv ({[bt]} ∪ extra) s'
    | Some sm => vfs_inv (list_to_set (option_list (sem_block sm)) ∪ ({[bt]} ∪ extra)) s' ∧
        ∀ x, sem_block sm = Some x → x ∉ ({[bt]} ∪ extra : gset Z)
    end)).
  { destruct (socket_select l); [apply wp_ret; simpl; by rewrite union_empty_l_L|].
    apply wp_bind. eapply wp_mono; [by apply malloc_inv|]. intros b s3 [Hs3 Hb]. apply wp_ret.
    split; [by eapply same_locals|]. destruct b as [b|]; [|done]. simpl. rewrite union_empty_r_L.
    split; [apply Hb|]. intros x [= <-]. apply Hb. }
  intros [sm|] s3 [Hloc3 Hinv3].
  2:{ apply wp_bind. eapply wp_mono; [by apply free_inv|]. intros _ s4 [_ Hinv4].
      unfold fail_with. apply wp_bind, wp_modify, wp_ret. split; [apply Hok|left; by apply errno_inv]. }
  destruct Hinv3 as [Hinv3 Hfresh]. apply wp_bind.
  eapply wp_mono; [by apply malloc_inv|]. intros [ba|] s4 [Hs4 Hb].
  - destruct Hb as [Hba Hinv4].
    eapply wp_mono; [apply (run_select_safe extra bt ba sm)|].
    + intros x Hx. specialize (Hfresh x Hx). rewrite Hx in Hba. set_solver.
    + set_solver.
    + set_solver.
    + apply _.
    + apply _.
    + unfold run_extra.
      replace (list_to_set (option_list (sem_block sm)) ∪ ({[bt]} ∪ ({[ba]} ∪ extra))) with
        ({[ba]} ∪ (list_to_set (option_list (sem_block sm)) ∪ ({[bt]} ∪ extra)) : gset Z) by set_solver. done.
    + by eapply same_locals.
    + done.
    + lia.
    + intros [r u'] s5 [Hinv5 Hu5]. auto.
  - apply wp_bind. rewrite (assoc_L (∪)), (comm_L (∪) (list_to_set _)), <- (assoc_L (∪)) in Hb.
    eapply wp_mono; [apply free_inv; [|done]|].
    + destruct (sem_block sm) as [x|]; [|set_solver]. specialize (Hfresh x eq_refl). set_solver.
    + intros _ s5 [_ Hinv5]. unfold fail_with. apply wp_bind, wp_modify, wp_ret. split; [apply Hok|].
      destruct (sem_block sm) as [x|] eqn:Ex; simpl in Hinv5.
      * right. split_and!; [done|done|]. exists x. specialize (Hfresh x eq_refl).
        rewrite union_empty_r_L in Hinv5. split; [set_solver|by apply errno_inv].
      * rewrite union_empty_l_L in Hinv5. left. by apply errno_inv.
Qed.
End props.
