(* ===== verification/VfsSelectReport.v ===== *)
(** * Virtual file system: what select reports

    With file systems that keep their side of select, the call reports a descriptor exactly
    when it was asked about it and its file system says that it is ready, returns their
    number, and leaves no file system started. *)
From Stdlib Require Import ZArith Lia.
From stdpp Require Import base numbers option list gmap.
From S2P Require Import Prelude Vfs VfsCalls VfsSpec VfsInv VfsSelect VfsSelectProps.

(** ** Sets after moving and collecting *)

(** The bit of file system [i] for its descriptor [loc]. *)
Definition bit_of (ts : list fds_triple_t) (k : fd_kind) (i loc : nat) : bool :=
  match ts !! i with Some t => get_set k (fds t) !!! loc | None => false end.
Definition isset_of (ts : list fds_triple_t) (i : nat) : bool :=
  match ts !! i with Some t => isset t | None => false end.

Definition same_null (u u' : user_sets) : Prop := ∀ k, get_user k u = None ↔ get_user k u' = None.

Lemma same_null_put k f u : get_user k u ≠ None → same_null u (put_user k f u).
Proof.
  intros Hk k'. destruct (decide (k' = k)) as [->|Hne].
  - rewrite get_put_user. naive_solver.
  - by rewrite get_put_user_ne.
Qed.

Lemma asked_put k f u k' fd :
  asked (put_user k f u) k' fd = if decide (k' = k) then f !!! fd else asked u k' fd.
Proof.
  unfold asked. destruct (decide (k' = k)) as [->|Hne]; [by rewrite get_put_user|by rewrite get_put_user_ne].
Qed.

Lemma lookup_total_insert_bit (f : list bool) i j b :
  (i < length f)%nat → <[i := b]> f !!! j = if decide (j = i) then b else f !!! j.
Proof.
  intros Hi. destruct (decide (j = i)) as [->|Hne].
  - by apply list_lookup_total_insert_eq.
  - by apply list_lookup_total_insert_ne.
Qed.

Section moving.
Context (MAX_FDS n : nat).
Abbreviation pair_ok := (pair_ok MAX_FDS n).

Lemma moved_bit k fd i loc x k' i' loc' :
  pair_ok x → (i < n)%nat → (loc < MAX_FDS)%nat →
  bit_of (moved k fd i loc x).1 k' i' loc' =
    (bool_decide (k' = k ∧ i' = i ∧ loc' = loc) && asked x.2 k fd) || bit_of x.1 k' i' loc'.
Proof.
  intros [[Hlen Hts] Hu] Hi Hloc. unfold moved, asked. destruct (get_user k x.2) as [f|]; [|by rewrite andb_false_r].
  destruct (f !!! fd); [|by rewrite andb_false_r]. rewrite andb_true_r. simpl. unfold bit_of.
  destruct (decide (i' = i)) as [->|Hne].
  2:{ rewrite list_lookup_alter_ne by done. by rewrite bool_decide_false by naive_solver. }
  rewrite list_lookup_alter_eq. destruct (lookup_lt_is_Some_2 x.1 i) as [t Ht]; [lia|]. rewrite Ht. simpl.
  pose proof (proj1 (Forall_lookup _ _) Hts _ _ Ht) as Hok. simpl in Hok.
  destruct (decide (k' = k)) as [->|Hk].
  - rewrite get_put_set, lookup_total_insert_bit by (rewrite Hok; lia).
    destruct (decide (loc' = loc)) as [->|Hl]; [by rewrite bool_decide_true|].
    by rewrite bool_decide_false by naive_solver.
  - rewrite get_put_set_ne by done. by rewrite bool_decide_false by naive_solver.
Qed.

Lemma moved_isset k fd i loc x i' :
  pair_ok x → (i < n)%nat →
  isset_of (moved k fd i loc x).1 i' = (bool_decide (i' = i) && asked x.2 k fd) || isset_of x.1 i'.
Proof.
  intros [[Hlen Hts] Hu] Hi. unfold moved, asked. destruct (get_user k x.2) as [f|]; [|by rewrite andb_false_r].
  destruct (f !!! fd); [|by rewrite andb_false_r]. rewrite andb_true_r. simpl. unfold isset_of.
  destruct (decide (i' = i)) as [->|Hne].
  2:{ rewrite list_lookup_alter_ne by done. by rewrite bool_decide_false by naive_solver. }
  rewrite list_lookup_alter_eq, bool_decide_true by done.
  destruct (lookup_lt_is_Some_2 x.1 i) as [t Ht]; [lia|]. by rewrite Ht.
Qed.

Lemma moved_asked k fd i loc x k' j :
  j ≠ fd ∨ k' ≠ k → asked (moved k fd i loc x).2 k' j = asked x.2 k' j.
Proof.
  intros Hne. unfold moved. destruct (get_user k x.2) as [f|] eqn:Ef; [|done].
  destruct (f !!! fd); [|done]. simpl. rewrite asked_put. destruct (decide (k' = k)) as [->|]; [|done].
  unfold asked. rewrite Ef. apply list_lookup_total_insert_ne. naive_solver.
Qed.

Lemma moved_null k fd i loc x : same_null x.2 (moved k fd i loc x).2.
Proof.
  unfold moved. destruct (get_user k x.2) as [f|] eqn:Ef; [|done]. destruct (f !!! fd); [|done].
  apply same_null_put. by rewrite Ef.
Qed.

(** A turn of the first loop for a descriptor that is not one of a socket. *)
Lemma handed_spec e fd x :
  pair_ok x → permanent e = false → 0 ≤ vfs_index e < Z.of_nat n → 0 ≤ local_fd e < Z.of_nat MAX_FDS →
  let x' := handed e fd x in
  (∀ k i loc, bit_of x'.1 k i loc =
     (bool_decide (i = Z.to_nat (vfs_index e) ∧ loc = Z.to_nat (local_fd e)) && asked x.2 k fd) || bit_of x.1 k i loc) ∧
  (∀ i, isset_of x'.1 i =
     (bool_decide (i = Z.to_nat (vfs_index e)) && (asked x.2 KRead fd || asked x.2 KWrite fd || asked x.2 KError fd))
     || isset_of x.1 i) ∧
  (∀ k j, j ≠ fd → asked x'.2 k j = asked x.2 k j) ∧ same_null x.2 x'.2.
Proof.
  intros Hok Hp Hi Hl. unfold handed. rewrite Hp, (proj2 (Z.ltb_ge _ _)) by lia. cbn [orb]. cbv zeta.
  set (i0 := Z.to_nat (vfs_index e)). set (l0 := Z.to_nat (local_fd e)).
  set (x1 := moved KRead fd i0 l0 x). set (x2 := moved KWrite fd i0 l0 x1).
  assert (pair_ok x1) as Hok1 by by apply moved_ok. assert (pair_ok x2) as Hok2 by by apply moved_ok.
  assert (i0 < n)%nat by lia. assert (l0 < MAX_FDS)%nat by lia.
  assert (∀ k j, k ≠ KRead → asked x1.2 k j = asked x.2 k j) as A1 by (intros; apply moved_asked; auto).
  assert (∀ k j, k ≠ KWrite → asked x2.2 k j = asked x1.2 k j) as A2 by (intros; apply moved_asked; auto).
  split_and!.
  - intros k i loc. rewrite moved_bit by done. unfold x2 at 2. rewrite moved_bit by done.
    unfold x1 at 2. rewrite moved_bit by done. rewrite A2, A1, A1 by done.
    rewrite !(bool_decide_and _ (i = i0 ∧ loc = l0)).
    generalize (bool_decide (i = i0 ∧ loc = l0)). intros b. generalize (bit_of x.1 k i loc). intros c.
    destruct k; [generalize (asked x.2 KRead fd)|generalize (asked x.2 KWrite fd)|generalize (asked x.2 KError fd)];
      intros d; cbn; by destruct b, d.
  - intros i. rewrite moved_isset by done. unfold x2 at 2. rewrite moved_isset by done.
    unfold x1 at 2. rewrite moved_isset by done. rewrite A2, A1, A1 by done.
    case_bool_decide; simpl; [|done].
    destruct (asked x.2 KRead fd), (asked x.2 KWrite fd), (asked x.2 KError fd); done.
  - intros k j Hj. rewrite !moved_asked by auto. unfold x2. rewrite moved_asked by auto. unfold x1. by rewrite moved_asked by auto.
  - pose proof (moved_null KRead fd i0 l0 x) as N1. pose proof (moved_null KWrite fd i0 l0 x1) as N2.
    pose proof (moved_null KError fd i0 l0 x2) as N3. fold x1 in N1. fold x2 in N2.
    intros k. rewrite (N1 k), (N2 k). apply N3.
Qed.
End moving.

Section report.
Context {W : Type}.
Context (VFS_MAX_COUNT MAX_FDS : nat) (portTICK_PERIOD_MS : Z).
Context (sd : sel_drivers W) (meanwhile : @Vfs.VM W unit).

Abbreviation st := (vfs_state W).
Abbreviation vfs_inv := (VfsSpec.vfs_inv VFS_MAX_COUNT MAX_FDS).
Abbreviation locals_ok := (locals_ok MAX_FDS).
Implicit Types s : st.

(** ** Handing out *)

(** What select does not change in an entry of the table. *)
Definition shape (e : fd_table_t) : bool * Z * Z := (permanent e, vfs_index e, local_fd e).

Definition same_shape s s' : Prop := ∃ t, s' = set_table t s ∧ shape <$> t = shape <$> s_fd_table s.

Lemma same_shape_refl s : same_shape s s.
Proof. exists (s_fd_table s). by destruct s. Qed.

Lemma shape_lookup (t t' : list fd_table_t) j e :
  shape <$> t' = shape <$> t → t' !! j = Some e → ∃ e', t !! j = Some e' ∧ shape e' = shape e.
Proof.
  intros Hs Hj. apply (f_equal (lookup j)) in Hs. rewrite !list_lookup_fmap, Hj in Hs. simpl in Hs.
  symmetry in Hs. apply fmap_Some in Hs as (e' & He' & Hs'). by exists e'.
Qed.

Lemma shape_forall (P : fd_table_t → Prop) (t t' : list fd_table_t) :
  (∀ e e', shape e = shape e' → P e → P e') → shape <$> t' = shape <$> t → Forall P t → Forall P t'.
Proof.
  intros HP Hs Hall. apply Forall_lookup. intros j e Hj. destruct (shape_lookup _ _ _ _ Hs Hj) as (e' & He' & Hsh).
  eapply HP; [exact Hsh|]. by eapply (proj1 (Forall_lookup _ _) Hall).
Qed.

Lemma same_shape_ok extra s s' :
  same_shape s s' → vfs_inv extra s → locals_ok s → sockets_ok s → vfs_inv extra s' ∧ locals_ok s' ∧ sockets_ok s'.
Proof.
  intros (t & -> & Hs) Hinv Hloc Hsock. split_and!.
  - apply table_inv; [done| |].
    + apply (f_equal length) in Hs. rewrite !length_fmap in Hs. rewrite Hs. apply Hinv.
    + eapply shape_forall; [|exact Hs|apply Hinv]. intros e e' [= _ E1 E2]. unfold fd_ok. by rewrite E1, E2.
  - eapply shape_forall; [|exact Hs|exact Hloc]. intros e e' [= _ E1 E2]. by rewrite E1, E2.
  - eapply shape_forall; [|exact Hs|exact Hsock]. intros e e' [= E0 E1 E2]. simpl. by rewrite E0, E1.
Qed.

(** Only descriptors of file systems are asked about, and no two descriptors stand for the
    same descriptor of a file system. *)
Record plain (u : user_sets) (m : nat) s : Prop := mkPlain {
  pl_sock fd e k : (fd < m)%nat → s_fd_table s !! fd = Some e → permanent e = true → asked u k fd = false;
  pl_inj i j e e' : s_fd_table s !! i = Some e → s_fd_table s !! j = Some e' → 0 ≤ vfs_index e →
    vfs_index e = vfs_index e' → local_fd e = local_fd e' → i = j }.

(** The sets after [m] turns of the first loop. *)
Record handed_out (u : user_sets) (n m : nat) s (l : sel_locals) : Prop := mkHanded {
  ho_ok : pair_ok MAX_FDS n (triples l, user l);
  ho_sock : socket_select l = None;
  ho_null : same_null u (user l);
  ho_later k j : (m ≤ j)%nat → asked (user l) k j = asked u k j;
  ho_bits k j e : s_fd_table s !! j = Some e → 0 ≤ vfs_index e →
    bit_of (triples l) k (Z.to_nat (vfs_index e)) (Z.to_nat (local_fd e)) = bool_decide (j < m)%nat && asked u k j;
  ho_isset k j e : (j < m)%nat → s_fd_table s !! j = Some e → 0 ≤ vfs_index e → asked u k j = true →
    isset_of (triples l) (Z.to_nat (vfs_index e)) = true }.

Lemma zero_bits q : (q < MAX_FDS)%nat → FD_ZERO MAX_FDS !!! q = false.
Proof. intros Hq. by apply lookup_total_replicate_2. Qed.

Lemma local_bound extra s j e :
  vfs_inv extra s → locals_ok s → s_fd_table s !! j = Some e → 0 ≤ vfs_index e →
  0 ≤ local_fd e < Z.of_nat MAX_FDS ∧ vfs_index e < s_vfs_count s.
Proof.
  intros Hinv Hloc He Hpos.
  pose proof (proj1 (Forall_lookup _ _) (iv_table _ _ _ _ Hinv) _ _ He) as [Hix Hl].
  pose proof (proj1 (Forall_lookup _ _) Hloc _ _ He) as Hl'. simpl in Hl'. lia.
Qed.

Lemma calloc_handed extra u n s :
  vfs_inv extra s → locals_ok s → user_ok MAX_FDS u →
  handed_out u n 0 s (mkLocals (calloc_triples MAX_FDS n) u None None).
Proof.
  intros Hinv Hloc Hu. split; cbn [triples user socket_select]; try done.
  - by apply calloc_ok.
  - intros k j e He Hpos. destruct (local_bound _ _ _ _ Hinv Hloc He Hpos) as [Hl _].
    rewrite (bool_decide_false (j < 0)%nat) by lia. unfold bit_of, calloc_triples.
    destruct (replicate n _ !! _) as [t|] eqn:Et; [|done]. apply lookup_replicate in Et as [-> _].
    destruct k; apply zero_bits; lia.
  - intros; lia.
Qed.

Lemma handed_step extra u n m e l l' s :
  vfs_inv extra s → locals_ok s → s_vfs_count s = Z.of_nat n → plain u (S m) s →
  s_fd_table s !! m = Some e → handed_out u n m s l →
  (triples l', user l') = handed e m (triples l, user l) → socket_select l' = socket_select l →
  handed_out u n (S m) s l'.
Proof.
  intros Hinv Hloc Hn Hpl He [H1 H2 H3 H4 H5 H6] Hx Hs.
  pose proof (proj1 (Forall_lookup _ _) (iv_table _ _ _ _ Hinv) _ _ He) as [Hix Hl].
  pose proof (proj1 (Forall_lookup _ _) Hloc _ _ He) as Hl'. simpl in Hl'.
  pose proof (handed_ok MAX_FDS e m n _ H1) as Hok. rewrite <- Hx in Hok.
  (* a turn that hands nothing out *)
  assert (handed e m (triples l, user l) = (triples l, user l) →
          (0 ≤ vfs_index e → ∀ k, asked u k m = false) → handed_out u n (S m) s l') as Hkeep.
  { intros E Hno. rewrite E in Hx. injection Hx as Ht Hu. split; rewrite ?Ht, ?Hu, ?Hs; try done.
    - intros k j Hj. apply H4. lia.
    - intros k j f Hf Hpos. rewrite (H5 k j f Hf Hpos). destruct (decide (j = m)) as [->|Hne].
      + rewrite He in Hf. injection Hf as <-. rewrite (Hno Hpos k). by rewrite !andb_false_r.
      + f_equal. apply bool_decide_ext. lia.
    - intros k j f Hj Hf Hpos Ha. destruct (decide (j = m)) as [->|Hne].
      + rewrite He in Hf. injection Hf as <-. by rewrite (Hno Hpos k) in Ha.
      + eapply H6; [|done..]. lia. }
  destruct (Z.ltb_spec (vfs_index e) 0) as [Hneg|Hpos].
  { apply Hkeep; [|lia]. unfold handed. by rewrite (proj2 (Z.ltb_lt _ _) Hneg). }
  destruct (permanent e) eqn:Ep.
  { apply Hkeep; [unfold handed; by rewrite Ep, orb_true_r|]. intros _ k. eapply (pl_sock _ _ _ Hpl); [lia|done..]. }
  destruct (handed_spec MAX_FDS n e m (triples l, user l) H1 Ep) as (B1 & B2 & B3 & B4); [lia..|].
  rewrite <- Hx in B1, B2, B3, B4. simpl in *. split; rewrite ?Hs; try done.
  - intros k. rewrite (H3 k). apply B4.
  - intros k j Hj. rewrite B3 by lia. apply H4. lia.
  - intros k j f Hf Hfpos. rewrite B1, (H5 k j f Hf Hfpos), H4 by lia.
    destruct (decide (j = m)) as [->|Hne].
    + rewrite He in Hf. injection Hf as <-. rewrite bool_decide_true by done.
      rewrite (bool_decide_false (m < m)%nat), (bool_decide_true (m < S m)%nat) by lia. simpl. by rewrite orb_false_r.
    + rewrite (bool_decide_false (Z.to_nat _ = _ ∧ _)).
      * simpl. f_equal. apply bool_decide_ext. lia.
      * intros [E1 E2]. apply Hne. pose proof (proj1 (Forall_lookup _ _) (iv_table _ _ _ _ Hinv) _ _ Hf) as [_ Hfl].
        eapply (pl_inj _ _ _ Hpl); [exact Hf|exact He|done|lia|lia].
  - intros k j f Hj Hf Hfpos Ha. rewrite B2. destruct (decide (j = m)) as [->|Hne].
    + rewrite He in Hf. injection Hf as <-. rewrite bool_decide_true, !H4 by done || lia.
      destruct k; rewrite Ha; by rewrite ?orb_true_r.
    + rewrite (H6 k j f); [by rewrite orb_true_r|lia|done..].
Qed.

(** Facts about the table that a state of the same shape shares. *)
Lemma shape_plain u m s s' : same_shape s s' → plain u m s → plain u m s'.
Proof.
  intros (t & -> & Hs) [P1 P2]. split; simpl.
  - intros fd e k Hm He Hp. destruct (shape_lookup _ _ _ _ Hs He) as (e' & He' & [= E0 E1 E2]).
    eapply P1; [done|exact He'|]. by rewrite E0.
  - intros i j e e' He He' Hpos Hi Hl.
    destruct (shape_lookup _ _ _ _ Hs He) as (f & Hf & [= _ E1 E2]).
    destruct (shape_lookup _ _ _ _ Hs He') as (f' & Hf' & [= _ E1' E2']).
    eapply P2; [exact Hf|exact Hf'|lia|lia|lia].
Qed.

Lemma shape_handed u n m s s' l : same_shape s s' → handed_out u n m s l → handed_out u n m s' l.
Proof.
  intros (t & -> & Hs) [H1 H2 H3 H4 H5 H6]. split; try done; simpl.
  - intros k j e He Hpos. destruct (shape_lookup _ _ _ _ Hs He) as (f & Hf & [= _ E1 E2]).
    rewrite <- E1, <- E2. eapply H5; [done|lia].
  - intros k j e Hj He Hpos Ha. destruct (shape_lookup _ _ _ _ Hs He) as (f & Hf & [= _ E1 E2]).
    rewrite <- E1. eapply H6; [done|done|lia|done].
Qed.

Lemma same_shape_sym s s' : same_shape s s' → same_shape s' s.
Proof. intros (t & -> & Hs). exists (s_fd_table s). split; [by destruct s|done]. Qed.

Lemma turned_shape u fd e s s' :
  same_shape s s' → s_fd_table s' !! fd = Some e → same_shape s (turned u fd e (world s') s').
Proof.
  intros (t & -> & Hs) He. simpl in He. exists (<[fd := flagged (asked u KError fd) e]> t). split; [by destruct s|].
  rewrite list_fmap_insert, <- Hs. apply list_insert_id. by rewrite list_lookup_fmap, He.
Qed.

(** The first loop when no sockets are asked about. *)
Lemma hand_out_plain extra u n m s :
  vfs_inv extra s → locals_ok s → sockets_ok s → s_vfs_count s = Z.of_nat n → (m ≤ MAX_FDS)%nat →
  user_ok MAX_FDS u → plain u m s →
  wp (for_each (hand_out sd) (seq 0 m) (mkLocals (calloc_triples MAX_FDS n) u None None)) s (λ l s',
    same_shape s s' ∧ handed_out u n m s l).
Proof.
  intros Hinv Hloc Hsock Hn Hm Hu Hpl.
  apply (wp_for_seq (hand_out sd) (λ i l s', same_shape s s' ∧ handed_out u n i s l) 0 m).
  2:{ split; [apply same_shape_refl|by eapply calloc_handed]. }
  intros i l s1 Hi [Hsh Hho]. destruct (same_shape_ok _ _ _ Hsh Hinv Hloc Hsock) as (Hinv1 & Hloc1 & Hsock1).
  destruct (lookup_lt_is_Some_2 (s_fd_table s1) i) as [e He]; [rewrite (iv_table_len _ _ _ _ Hinv1); lia|].
  assert (plain u (S i) s1) as Hpl1.
  { eapply shape_plain; [done|]. destruct Hpl as [P1 P2]. split; [|done]. intros fd f k Hfd. apply P1. lia. }
  assert (s_vfs_count s1 = Z.of_nat n) as Hn1 by by destruct Hsh as (t & -> & _).
  eapply wp_mono; [eapply hand_out_spec; [done|done| |done|by apply Hho|done]; intros k Hp Hix _; by apply (proj1 (Forall_lookup _ _) Hsock1 _ _ He)|].
  intros l' s2 (w & -> & Hx & Hq). destruct Hq as (-> & Hs & _).
  { intros Hp k. rewrite (ho_later _ _ _ _ _ Hho) by done. eapply (pl_sock _ _ _ Hpl1); [lia|done..]. }
  split; [by apply turned_shape|].
  eapply (shape_handed _ _ _ s1); [by apply same_shape_sym|].
  eapply handed_step; [done..| |done|done]. by eapply shape_handed.
Qed.

(** ** Collecting *)

Definition count_set (o : option (list bool)) : Z :=
  match o with Some f => zlen (filter (λ b, b = true) f) | None => 0 end.
(** The number of bits in the sets of the caller. *)
Definition total (u : user_sets) : Z := count_set (u_read u) + count_set (u_write u) + count_set (u_error u).

Lemma count_insert (f : list bool) j :
  f !! j = Some false → count_set (Some (<[j := true]> f)) = count_set (Some f) + 1.
Proof.
  simpl. revert j. induction f as [|b f IH]; intros j Hj; [done|]. destruct j as [|j]; simpl in Hj.
  - injection Hj as ->. simpl. rewrite !filter_cons, decide_True, decide_False by done. unfold zlen. simpl. lia.
  - specialize (IH j Hj). simpl. rewrite !filter_cons. destruct (decide (b = true)); unfold zlen in *; simpl; lia.
Qed.

Lemma total_put k f j u :
  get_user k u = Some f → f !! j = Some false → total (put_user k (<[j := true]> f) u) = total u + 1.
Proof.
  intros Hk Hj. pose proof (count_insert f j Hj). unfold total.
  destruct k; simpl in *; rewrite Hk in *; simpl in *; lia.
Qed.

(** The bits [P] were collected from nothing, and their number is the result so far. *)
Record coll (u0 : user_sets) (P : fd_kind → nat → bool) (x : Z * user_sets) : Prop := mkColl {
  co_total : x.1 = total x.2;
  co_null : same_null u0 x.2;
  co_ok : user_ok MAX_FDS x.2;
  co_bits k j : (j < MAX_FDS)%nat → get_user k u0 ≠ None → asked x.2 k j = P k j }.

Lemma coll_ext u0 P P' x :
  (∀ k j, (j < MAX_FDS)%nat → P k j = P' k j) → coll u0 P x → coll u0 P' x.
Proof. intros HP [H1 H2 H3 H4]. split; [done..|]. intros k j Hj Hk. rewrite <- HP by done. by apply H4. Qed.

Lemma collect_kind_spec u0 P k fd local t x s :
  sets_ok MAX_FDS (fds t) → coll u0 P x → (fd < MAX_FDS)%nat → 0 ≤ local < Z.of_nat MAX_FDS → P k fd = false →
  wp (collect_kind k fd local t x) s (λ x' s', s' = s ∧
    coll u0 (λ k' j, if decide (k' = k ∧ j = fd) then get_set k (fds t) !!! Z.to_nat local else P k' j) x').
Proof.
  intros Ht [H1 H2 H3 H4] Hfd Hl HP. destruct x as [ret u]. unfold collect_kind. simpl in *.
  destruct (get_user k u) as [f|] eqn:Ef.
  2:{ apply wp_ret. split; [done|]. split; try done. simpl. intros k' j Hj Hk'. rewrite H4 by done.
      rewrite decide_False; [done|]. intros [-> _]. by apply Hk', H2. }
  apply wp_bind, wp_isset; [lia|rewrite (Ht k); lia|].
  destruct (get_set k (fds t) !!! Z.to_nat local) eqn:Eb.
  - apply wp_bind, wp_set; [lia|rewrite (H3 k f Ef); lia|]. rewrite Nat2Z.id. apply wp_ret. split; [done|].
    assert (get_user k u0 ≠ None) as Hk0 by (intros E; apply H2 in E; congruence).
    assert (f !! fd = Some false) as Hf.
    { specialize (H4 k fd Hfd Hk0). unfold asked in H4. rewrite Ef, HP in H4.
      destruct (lookup_lt_is_Some_2 f fd) as [b Hb]; [by rewrite (H3 k f Ef)|].
      rewrite (list_lookup_total_correct _ _ _ Hb) in H4. congruence. }
    split; simpl.
    + rewrite (total_put k f fd u Ef Hf). lia.
    + intros k'. rewrite (H2 k'). apply same_null_put. by rewrite Ef.
    + apply put_user_ok; [|done]. rewrite length_insert. by eapply H3.
    + intros k' j Hj Hk'. rewrite asked_put. destruct (decide (k' = k)) as [->|Hne].
      * rewrite lookup_total_insert_bit by (rewrite (H3 k f Ef); lia).
        destruct (decide (j = fd)) as [->|Hj']; [by rewrite decide_True|].
        rewrite decide_False by naive_solver. rewrite <- H4 by done. unfold asked. by rewrite Ef.
      * rewrite decide_False by naive_solver. by apply H4.
  - apply wp_ret. split; [done|]. split; try done. simpl. intros k' j Hj Hk'. rewrite H4 by done.
    destruct (decide (k' = k ∧ j = fd)) as [[-> ->]|]; [by rewrite HP|done].
Qed.

Lemma collect_fd_spec extra u0 P i t fd x s :
  vfs_inv extra s → locals_ok s → sets_ok MAX_FDS (fds t) → coll u0 P x → (fd < MAX_FDS)%nat →
  (∀ k e, s_fd_table s !! fd = Some e → vfs_index e = Z.of_nat i → P k fd = false) →
  wp (collect_fd i t fd x) s (λ x' s', s' = s ∧ coll u0 (λ k j,
    match s_fd_table s !! j with
    | Some e => if decide (j = fd ∧ vfs_index e = Z.of_nat i) then get_set k (fds t) !!! Z.to_nat (local_fd e)
                else P k j
    | None => P k j
    end) x').
Proof.
  intros Hinv Hloc Ht Hc Hfd HP. unfold collect_fd. apply wp_bind. eapply wp_fd_read; [done|done|].
  intros e He _. destruct (Z.eqb_spec (vfs_index e) (Z.of_nat i)) as [Hi|Hi].
  2:{ apply wp_ret. split; [done|]. eapply coll_ext; [|exact Hc]. intros k j _. destruct (s_fd_table s !! j) eqn:Ej; [|done].
      rewrite decide_False; [done|]. intros [-> ?]. congruence. }
  destruct (local_bound _ _ _ _ Hinv Hloc He) as [Hl _]; [lia|].
  assert (∀ k, P k fd = false) as HPf by (intros k; by eapply HP).
  apply wp_bind. eapply wp_mono; [by apply collect_kind_spec|]. intros x1 s1 [-> Hc1].
  apply wp_bind. eapply wp_mono; [apply collect_kind_spec; [done..|]|].
  { cbn beta. by rewrite decide_False by naive_solver. }
  intros x2 s2 [-> Hc2]. eapply wp_mono; [apply collect_kind_spec; [done..|]|].
  { cbn beta. by rewrite !decide_False by naive_solver. }
  intros x3 s3 [-> Hc3]. split; [done|]. eapply coll_ext; [|exact Hc3]. intros k j _. cbn beta.
  destruct (decide (j = fd)) as [->|Hj].
  - rewrite He, (decide_True (P := fd = fd ∧ _)) by done.
    destruct k; repeat first [rewrite (decide_True (P := _ ∧ fd = fd)) by done
                             |rewrite (decide_False (P := _ ∧ fd = fd)) by (intros [? _]; done)]; done.
  - repeat (rewrite decide_False by naive_solver). destruct (s_fd_table s !! j); [|done].
    by rewrite decide_False by naive_solver.
Qed.

(** What the sets of the file systems say about a descriptor of the caller. *)
Definition val (ts : list fds_triple_t) s (k : fd_kind) (j : nat) : bool :=
  match s_fd_table s !! j with
  | Some e => (0 <=? vfs_index e) && isset_of ts (Z.to_nat (vfs_index e)) &&
              bit_of ts k (Z.to_nat (vfs_index e)) (Z.to_nat (local_fd e))
  | None => false
  end.

(** The descriptors seen before [fd] at index [i]. *)
Definition seen s (i fd j : nat) : bool :=
  match s_fd_table s !! j with
  | Some e => (vfs_index e <? Z.of_nat i) || ((vfs_index e =? Z.of_nat i) && bool_decide (j < fd)%nat)
  | None => false
  end.

Definition zeroed (u : user_sets) : Prop := ∀ k f, get_user k u = Some f → f = FD_ZERO MAX_FDS.

Lemma zeroed_coll u P : zeroed u → (∀ k j, P k j = false) → coll u P (0, u).
Proof.
  intros Hz HP. assert (∀ k, count_set (get_user k u) = 0) as Hc.
  { intros k. destruct (get_user k u) as [f|] eqn:Ef; [|done]. rewrite (Hz k f Ef). unfold FD_ZERO. simpl.
    clear. induction MAX_FDS as [|m IH]; [done|]. simpl. done. }
  split; simpl; try done.
  - pose proof (Hc KRead). pose proof (Hc KWrite). pose proof (Hc KError). simpl in *. unfold total. lia.
  - intros k f Ef. rewrite (Hz k f Ef). apply length_replicate.
  - intros k j Hj Hk. unfold asked. destruct (get_user k u) as [f|] eqn:Ef; [|done].
    by rewrite (Hz k f Ef), zero_bits, HP.
Qed.

(** How the bits that were seen grow. *)
Lemma seen_none ts s k j : val ts s k j && seen s 0 0 j = false.
Proof.
  unfold val, seen. destruct (s_fd_table s !! j) as [e|]; [|done]. destruct (Z.leb_spec 0 (vfs_index e)) as [Hp|]; [|done].
  rewrite (proj2 (Z.ltb_ge _ _)), (bool_decide_false (j < 0)%nat) by lia. by rewrite andb_false_r, andb_false_r.
Qed.

Lemma seen_every extra n ts s k j :
  vfs_inv extra s → locals_ok s → s_vfs_count s = Z.of_nat n → val ts s k j && seen s n 0 j = val ts s k j.
Proof.
  intros Hinv Hloc Hn. unfold val, seen. destruct (s_fd_table s !! j) as [e|] eqn:He; [|done].
  destruct (Z.leb_spec 0 (vfs_index e)) as [Hp|]; [|done].
  destruct (local_bound _ _ _ _ Hinv Hloc He Hp) as [_ Hlt]. rewrite (proj2 (Z.ltb_lt _ _)) by lia. by rewrite andb_true_r.
Qed.

Lemma seen_row ts s i fd k j :
  (isset_of ts i = true → (j < fd)%nat) → val ts s k j && seen s i fd j = val ts s k j && seen s (S i) 0 j.
Proof.
  intros Hj. unfold val, seen. destruct (s_fd_table s !! j) as [e|]; [|done].
  destruct (Z.leb_spec 0 (vfs_index e)) as [Hp|]; [|done].
  rewrite (bool_decide_false (j < 0)%nat), andb_false_r, orb_false_r by lia.
  destruct (Z.eqb_spec (vfs_index e) (Z.of_nat i)) as [E|E].
  - rewrite E, Nat2Z.id. destruct (isset_of ts i) eqn:Es; [|done].
    rewrite (bool_decide_true (j < fd)%nat) by auto. rewrite (proj2 (Z.ltb_lt _ (Z.of_nat (S i)))) by lia.
    by rewrite orb_true_r.
  - f_equal. simpl. rewrite orb_false_r.
    destruct (Z.ltb_spec (vfs_index e) (Z.of_nat i)), (Z.ltb_spec (vfs_index e) (Z.of_nat (S i))); lia || done.
Qed.

Lemma seen_one ts s i t fd k j :
  ts !! i = Some t → isset t = true →
  match s_fd_table s !! j with
  | Some e => if decide (j = fd ∧ vfs_index e = Z.of_nat i) then get_set k (fds t) !!! Z.to_nat (local_fd e)
              else val ts s k j && seen s i fd j
  | None => val ts s k j && seen s i fd j
  end = val ts s k j && seen s i (S fd) j.
Proof.
  intros Ht Es. unfold val, seen. destruct (s_fd_table s !! j) as [e|] eqn:He; [|done].
  destruct (decide (j = fd ∧ vfs_index e = Z.of_nat i)) as [[-> E]|Hne].
  - rewrite E, Nat2Z.id, Z.eqb_refl, (bool_decide_true (fd < S fd)%nat), orb_true_r, andb_true_r by lia.
    rewrite (proj2 (Z.leb_le _ _)) by lia. unfold isset_of, bit_of. by rewrite Ht, Es.
  - f_equal. f_equal. destruct (Z.eqb_spec (vfs_index e) (Z.of_nat i)) as [E|]; [|done].
    simpl. apply bool_decide_ext. assert (j ≠ fd) by naive_solver. lia.
Qed.

Lemma set_global_spec extra n ts u s :
  vfs_inv extra s → locals_ok s → (∀ i, (i < n)%nat → ∃ t, ts !! i = Some t ∧ sets_ok MAX_FDS (fds t)) →
  s_vfs_count s = Z.of_nat n → zeroed u →
  wp (set_global_fd_sets MAX_FDS ts n u) s (λ x s', s' = s ∧ coll u (val ts s) x).
Proof.
  intros Hinv Hloc Hts Hn Hz. unfold set_global_fd_sets.
  apply (wp_mono _ _ (λ x s', s' = s ∧ coll u (λ k j, val ts s k j && seen s n 0 j) x)).
  2:{ intros x s' [-> Hc]. split; [done|]. eapply coll_ext; [|exact Hc]. intros k j _. by eapply seen_every. }
  eapply (wp_for_seq _ (λ i x s', s' = s ∧ coll u (λ k j, val ts s k j && seen s i 0 j) x) 0 n).
  2:{ split; [done|]. apply zeroed_coll; [done|]. apply seen_none. }
  intros i x s1 Hi [-> Hc]. destruct (Hts i) as (t & Ht & Hok); [lia|].
  apply wp_bind, (wp_item_at _ _ t); [lia|by rewrite Nat2Z.id|].
  destruct (isset t) eqn:Es.
  2:{ apply wp_ret. split; [done|]. eapply coll_ext; [|exact Hc]. intros k j _. apply seen_row.
      unfold isset_of. by rewrite Ht, Es. }
  apply (wp_mono _ _ (λ x s', s' = s ∧ coll u (λ k j, val ts s k j && seen s i MAX_FDS j) x)).
  2:{ intros y s' [-> Hy]. split; [done|]. eapply coll_ext; [|exact Hy]. intros k j Hj. by apply seen_row. }
  apply (wp_for_seq _ (λ fd x s', s' = s ∧ coll u (λ k j, val ts s k j && seen s i fd j) x) 0 MAX_FDS); [|done].
  intros fd y s2 Hfd [-> Hy]. eapply wp_mono; [eapply collect_fd_spec; [done|done|exact Hok|exact Hy|lia|]|].
  - intros k e He E. cbn beta. unfold seen. rewrite He, E, Z.ltb_irrefl, Z.eqb_refl.
    rewrite bool_decide_false by lia. by rewrite andb_false_r.
  - intros z s3 [-> Hz3]. split; [done|]. eapply coll_ext; [|exact Hz3]. intros k j Hj. by apply seen_one.
Qed.

(** ** File systems that keep their side *)

(** [pending] are the selects that file systems have started, by argument, with the sets
    they were started with; [ready f k j] says that descriptor [j] is ready for the file
    system whose [end_select] is [f]. *)
Context (pending : W → gmap Z fd_sets) (ready : Z → fd_kind → nat → bool).

Class SelectLaws : Prop := mkSelectLaws {
  start_accepts f nfds x sm w : sets_ok MAX_FDS x →
    ∃ y a w', drv_start sd f nfds x sm w = (ESP_OK, y, a, w') ∧
      pending w !! a = None ∧ pending w' = <[a := x]> (pending w);
  end_answers f a x y w : sets_ok MAX_FDS y → pending w !! a = Some x →
    pending (drv_end sd f a y w).2 = delete a (pending w) ∧
    ∀ k j, (j < MAX_FDS)%nat → get_set k (drv_end sd f a y w).1 !!! j = get_set k x !!! j && ready f k j;
  pass_keeps t w : pending (drv_pass sd t w).2 = pending w }.

(** Other tasks that neither open nor close anything. *)
Class QuietTasks : Prop := mkQuiet {
  quiet s : wp meanwhile s (λ _ s', ∃ w, s' = set_world w s ∧ pending w = pending (world s)) }.

Section run.
Context `{!SetLaws MAX_FDS sd, !SelectLaws, !QuietTasks}.
Context (extra : gset Z) (n : nat) (s0 : st) (ts0 : list fds_triple_t).
Hypothesis (inv0 : vfs_inv extra s0) (ts0_ok : triples_ok MAX_FDS n ts0).
Hypothesis (both : ∀ i, is_Some (fn_at Start_select s0 i) ↔ is_Some (fn_at End_select s0 i)).

Definition ready_at (i : nat) (k : fd_kind) (j : nat) : bool :=
  match fn_at End_select s0 i with Some f => ready f k j | None => true end.
Definition started_at (i : nat) : bool := isset_of ts0 i && bool_decide (is_Some (fn_at Start_select s0 i)).

(** The selects started at the indices from [m], [k] of them. *)
Definition acts (args : list Z) (m k : nat) : list (Z * fd_sets) :=
  omap (λ i, if started_at i then (λ t, (args !!! i, fds t)) <$> ts0 !! i else None) (seq m k).

Definition pends (l : list (Z * fd_sets)) s : Prop :=
  pending (world s) = list_to_map l ∪ pending (world s0) ∧ NoDup l.*1 ∧
  Forall (λ a, pending (world s0) !! a = None) l.*1.

(** The sets are those handed out, but for what the started file systems changed. *)
Definition keeps (ts : list fds_triple_t) : Prop :=
  ∀ i t0, ts0 !! i = Some t0 → ∃ t, ts !! i = Some t ∧ isset t = isset t0 ∧ sets_ok MAX_FDS (fds t) ∧
    (started_at i = false → fds t = fds t0).

Definition act_at (args : list Z) (i : nat) : list (Z * fd_sets) :=
  if started_at i then option_list ((λ t, (args !!! i, fds t)) <$> ts0 !! i) else [].

Lemma acts_cons args m k : acts args m (S k) = act_at args m ++ acts args (S m) k.
Proof. unfold acts, act_at. simpl. destruct (started_at m); [|done]. by destruct (ts0 !! m). Qed.

Lemma acts_snoc args m k : acts args m (S k) = acts args m k ++ act_at args (m + k).
Proof.
  unfold acts, act_at. rewrite seq_S, omap_app. f_equal. simpl. destruct (started_at (m + k)); [|done].
  by destruct (ts0 !! (m + k)%nat).
Qed.

Lemma acts_ext args args' m k :
  (∀ i, (m ≤ i < m + k)%nat → args !!! i = args' !!! i) → acts args m k = acts args' m k.
Proof.
  revert m. induction k as [|k IH]; intros m Hext; [done|]. rewrite !acts_cons. unfold act_at.
  rewrite (IH (S m)) by (intros i Hi; apply Hext; lia). by rewrite (Hext m) by lia.
Qed.

Lemma keeps_insert ts i t0 y :
  ts0 !! i = Some t0 → keeps ts → started_at i = true → sets_ok MAX_FDS y →
  keeps (<[i := mkTriple (isset t0) y]> ts).
Proof.
  intros Ht0 Hk Hst Hy j t Hj. destruct (decide (i = j)) as [<-|Hne].
  - rewrite Ht0 in Hj. injection Hj as <-. destruct (Hk i t0 Ht0) as (t & Ht & _).
    eexists. rewrite list_lookup_insert_eq by by eapply lookup_lt_Some. split_and!; [done..|].
    by rewrite Hst.
  - rewrite list_lookup_insert_ne by done. by apply Hk.
Qed.

Lemma ts0_item i : (i < n)%nat → ∃ t0, ts0 !! i = Some t0 ∧ sets_ok MAX_FDS (fds t0).
Proof. intros Hi. by eapply triples_item. Qed.

Lemma started_true i t0 f :
  ts0 !! i = Some t0 → fn_at Start_select s0 i = Some f → started_at i = isset t0.
Proof. intros Ht Hf. unfold started_at, isset_of. rewrite Ht, Hf. by rewrite bool_decide_true, andb_true_r. Qed.

Lemma started_none i : fn_at Start_select s0 i = None → started_at i = false.
Proof. intros Hf. unfold started_at. rewrite Hf. by rewrite bool_decide_false, andb_false_r by by intros []. Qed.

(** One more select is started. *)
Lemma pends_snoc l a x s w :
  pends l s → pending (world s) !! a = None → pending w = <[a := x]> (pending (world s)) →
  pends (l ++ [(a, x)]) (set_world w s).
Proof.
  intros (Hp & Hnd & Hall) Ha Hw. rewrite Hp in Ha, Hw. apply lookup_union_None in Ha as [Ha1 Ha2].
  apply not_elem_of_list_to_map in Ha1. split_and!; simpl.
  - rewrite Hw, list_to_map_snoc by done. by rewrite insert_union_l.
  - rewrite fmap_app. apply NoDup_app. split_and!; [done| |apply NoDup_singleton].
    intros b Hb ->%list_elem_of_singleton. done.
  - rewrite fmap_app. apply Forall_app. split; [done|]. by repeat constructor.
Qed.

Lemma start_all_plain nfds sm s :
  only_world s0 s → pends [] s →
  wp (for_each (start_one sd nfds sm) (seq 0 n) (ts0, replicate n 0, None)) s (λ x s',
    x.2 = None ∧ keeps x.1.1 ∧ length x.1.2 = n ∧ only_world s0 s' ∧ pends (acts x.1.2 0 n) s').
Proof.
  intros Hw0 Hp0.
  apply (wp_mono _ _ (λ x s', x.2 = None ∧ keeps x.1.1 ∧ (∀ j, (n ≤ j)%nat → x.1.1 !! j = ts0 !! j) ∧ length x.1.2 = n ∧
    only_world s0 s' ∧ pends (acts x.1.2 0 n) s')); [|naive_solver].
  apply (wp_for_seq (start_one sd nfds sm) (λ i x s', x.2 = None ∧ keeps x.1.1 ∧
    (∀ j, (i ≤ j)%nat → x.1.1 !! j = ts0 !! j) ∧ length x.1.2 = n ∧ only_world s0 s' ∧ pends (acts x.1.2 0 i) s') 0 n).
  2:{ split_and!; try done; [|apply length_replicate]. intros i t0 Ht0. exists t0. split_and!; try done.
      by apply (proj1 (Forall_lookup _ _) (proj2 ts0_ok) _ _ Ht0). }
  intros i [[ts args] failed] s1 Hi (Hf & Hk & Hlater & Hlen & Hw & Hp). simpl in *. subst failed.
  unfold start_one. apply wp_bind. eapply wp_select_fn; [by eapply only_world_inv|].
  replace (fn_at Start_select s1 i) with (fn_at Start_select s0 i) by by destruct Hw as [w ->].
  destruct (ts0_item i) as (t0 & Ht0 & Hok0); [lia|].
  apply wp_bind, (wp_item_at _ _ t0); [lia|by rewrite Nat2Z.id, Hlater|].
  (* nothing is started at this index *)
  assert (started_at i = false → wp (mret (ts, args, @None (nat * esp_err_t))) s1 (λ x s', x.2 = None ∧ keeps x.1.1 ∧
    (∀ j, (S i ≤ j)%nat → x.1.1 !! j = ts0 !! j) ∧ length x.1.2 = n ∧ only_world s0 s' ∧
    pends (acts x.1.2 0 (S i)) s')) as Hskip.
  { intros Hst. apply wp_ret. simpl. split_and!; try done; [intros j Hj; apply Hlater; lia|].
    rewrite acts_snoc. unfold act_at. simpl. by rewrite Hst, app_nil_r. }
  destruct (fn_at Start_select s0 i) as [f|] eqn:Ef; [|by apply Hskip, started_none].
  pose proof (started_true _ _ _ Ht0 Ef) as Hst.
  destruct (isset t0) eqn:Es; cbn [negb]; [|by apply Hskip].
  apply wp_bind. unfold wp at 1, on_world.
  pose proof (start_size _ _ f nfds (fds t0) sm (world s1) Hok0) as Hy.
  destruct (start_accepts f nfds (fds t0) sm (world s1) Hok0) as (y & a & w & E & Ha & Hpw).
  rewrite E in *. simpl in Hy. apply wp_ret. simpl. split_and!; try done.
  - rewrite <- Es. by apply keeps_insert.
  - intros j Hj. rewrite list_lookup_insert_ne by lia. apply Hlater. lia.
  - by rewrite length_insert.
  - by apply only_world_set.
  - rewrite acts_snoc. unfold act_at. simpl. rewrite Hst, Ht0. simpl.
    rewrite list_lookup_total_insert_eq by lia.
    rewrite (acts_ext _ args) by (intros j Hj; apply list_lookup_total_insert_ne; lia).
    by apply pends_snoc.
Qed.

Lemma pends_world l s s' : pends l s → pending (world s') = pending (world s) → pends l s'.
Proof. intros (H1 & H2 & H3) E. split_and!; [|done..]. by rewrite E. Qed.

Lemma pass_time_plain l t ts s :
  keeps ts → only_world s0 s → pends l s →
  wp (pass_time sd meanwhile t n ts) s (λ ts' s', keeps ts' ∧ only_world s0 s' ∧ pends l s').
Proof.
  intros Hk Hw Hp. unfold pass_time. apply wp_bind. unfold wp at 1, on_world.
  pose proof (pass_size _ _ t (world s)) as Hsize. pose proof (pass_keeps t (world s)) as Hpk.
  destruct (drv_pass sd t (world s)) as [change w]. simpl in Hsize, Hpk.
  apply wp_bind. apply (wp_mono _ _ (λ ts' s', s' = set_world w s ∧ keeps ts')).
  - apply wp_for_below; [|done]. intros i ts1 s1 Hi [-> Hk1]. apply wp_bind. unfold started. apply wp_bind.
    eapply wp_select_fn; [apply world_inv; by eapply only_world_inv|].
    apply wp_ret, wp_ret. split; [done|].
    replace (fn_at Start_select (set_world w s) i) with (fn_at Start_select s0 i) by by destruct Hw as [w' ->].
    destruct (ts0_item i Hi) as (t0 & Ht0 & _). destruct (Hk1 i t0 Ht0) as (t1 & Ht1 & Eset & Hok1 & _).
    rewrite Ht1. destruct (fn_at Start_select s0 i) as [f|] eqn:Ef; [|done].
    destruct (isset t1) eqn:Es; [|done]. rewrite (alter_known _ _ _ _ Ht1), Es, Eset.
    apply keeps_insert; [done|done| |by apply Hsize]. rewrite (started_true _ _ _ Ht0 Ef). congruence.
  - intros ts1 s1 [-> Hk1]. apply wp_bind. eapply wp_mono; [apply quiet|].
    intros _ s2 (w2 & -> & Hw2). apply wp_ret. split_and!; [done| |].
    + apply only_world_set. by apply only_world_set.
    + eapply pends_world; [done|]. simpl in *. by rewrite Hw2.
Qed.

(** The sets at the end: what was handed out and is ready. *)
Definition final_at (i : nat) (t0 t : fds_triple_t) : Prop :=
  ∀ k j, (j < MAX_FDS)%nat → get_set k (fds t) !!! j = get_set k (fds t0) !!! j && ready_at i k j.
Definition final (ts : list fds_triple_t) : Prop :=
  ∀ i t0, ts0 !! i = Some t0 → ∃ t, ts !! i = Some t ∧ isset t = isset t0 ∧ sets_ok MAX_FDS (fds t) ∧
    (isset t0 = true → final_at i t0 t).

Lemma pends_cons a x l s w :
  pends ((a, x) :: l) s → pending w = delete a (pending (world s)) → pends l (set_world w s).
Proof.
  intros (Hp & Hnd & Hall) Hw. simpl in *. apply NoDup_cons in Hnd as [Ha Hnd]. apply Forall_cons in Hall as [Ha0 Hall].
  split_and!; [|done..]. simpl. rewrite Hw, Hp. rewrite <- insert_union_l, delete_insert_id; [done|].
  apply lookup_union_None. split; [by apply not_elem_of_list_to_map|done].
Qed.

Lemma pends_head a x l s : pends ((a, x) :: l) s → pending (world s) !! a = Some x.
Proof. intros (Hp & _). rewrite Hp. simpl. apply lookup_union_Some_l. apply lookup_insert_eq. Qed.

Lemma unstarted_final i t0 t :
  ts0 !! i = Some t0 → isset t0 = true → started_at i = false → fds t = fds t0 → final_at i t0 t.
Proof.
  intros Ht0 Es Hst Hf k j _. rewrite Hf. unfold ready_at.
  destruct (fn_at End_select s0 i) as [g|] eqn:Eg; [|by rewrite andb_true_r].
  destruct (proj2 (both i)) as [f Ef]; [by rewrite Eg|]. rewrite (started_true _ _ _ Ht0 Ef) in Hst. congruence.
Qed.

(** The sets and the file systems after those below [m] were ended. *)
Definition ended (args : list Z) (m : nat) (ts : list fds_triple_t) s : Prop :=
  (keeps ts ∧ ∀ i t0 t, (i < m)%nat → ts0 !! i = Some t0 → ts !! i = Some t → isset t0 = true → final_at i t0 t) ∧
  only_world s0 s ∧ pends (acts args m (n - m)) s.

Lemma ended_skip args i t0 t ts s :
  ended args i ts s → (i < n)%nat → ts0 !! i = Some t0 → ts !! i = Some t → started_at i = false →
  ended args (S i) ts s.
Proof.
  intros ((Hk & Hf) & Hw & Hp) Hi Ht0 Ht Hst. replace (n - i)%nat with (S (n - S i)) in Hp by lia.
  rewrite acts_cons in Hp. unfold act_at in Hp. rewrite Hst in Hp. split_and!; try done.
  intros j t2 t3 Hj Ht2 Ht3 Es. destruct (decide (j = i)) as [->|Hne]; [|eapply Hf; [|done..]; lia].
  simplify_eq. destruct (Hk i t0 Ht0) as (t' & Ht' & _ & _ & Hun). simplify_eq.
  apply unstarted_final; [done..|by apply Hun].
Qed.

Lemma ended_one args i t0 g a x w ts s :
  ended args i ts s → (i < n)%nat → ts0 !! i = Some t0 → started_at i = true → isset t0 = true →
  fn_at End_select s0 i = Some g → args !! i = Some a → sets_ok MAX_FDS x →
  pending w = delete a (pending (world s)) →
  (∀ k j, (j < MAX_FDS)%nat → get_set k x !!! j = get_set k (fds t0) !!! j && ready g k j) →
  ended args (S i) (<[i := mkTriple (isset t0) x]> ts) (set_world w s).
Proof.
  intros ((Hk & Hf) & Hw & Hp) Hi Ht0 Hst Es Eg Ha Hx Hdel Hans.
  replace (n - i)%nat with (S (n - S i)) in Hp by lia.
  rewrite acts_cons in Hp. unfold act_at in Hp. rewrite Hst, Ht0 in Hp. simpl in Hp.
  rewrite (list_lookup_total_correct _ _ _ Ha) in Hp.
  split_and!; [by apply keeps_insert| |by apply only_world_set|by eapply pends_cons].
  intros j t2 t3 Hj Ht2 Ht3 Es2. destruct (decide (j = i)) as [->|Hne].
  - destruct (Hk i t0 Ht0) as (t' & Ht' & _).
    rewrite list_lookup_insert_eq in Ht3 by by eapply lookup_lt_Some. simplify_eq.
    intros k q Hq. simpl. rewrite Hans by done. unfold ready_at. by rewrite Eg.
  - rewrite list_lookup_insert_ne in Ht3 by done. eapply Hf; [|done..]. lia.
Qed.

Lemma ended_pending args i t0 a ts s :
  ended args i ts s → (i < n)%nat → ts0 !! i = Some t0 → started_at i = true → args !! i = Some a →
  pending (world s) !! a = Some (fds t0).
Proof.
  intros (_ & _ & Hp) Hi Ht0 Hst Ha. replace (n - i)%nat with (S (n - S i)) in Hp by lia.
  rewrite acts_cons in Hp. unfold act_at in Hp. rewrite Hst, Ht0 in Hp. simpl in Hp.
  rewrite (list_lookup_total_correct _ _ _ Ha) in Hp.
  by eapply pends_head.
Qed.

Lemma end_all_plain ts args s :
  keeps ts → length args = n → only_world s0 s → pends (acts args 0 n) s →
  wp (call_end_selects sd n ts args) s (λ ts' s', final ts' ∧ only_world s0 s' ∧ pends [] s').
Proof.
  intros Hk Hlen Hw Hp. unfold call_end_selects. apply (wp_mono _ _ (ended args n)).
  2:{ intros ts' s' ((Hk' & Hf) & Hw' & Hp'). rewrite Nat.sub_diag in Hp'. split_and!; [|done..].
      intros i t0 Ht0. destruct (Hk' i t0 Ht0) as (t & Ht & E & Hok & _). exists t. split_and!; [done..|].
      intros Es. eapply Hf; [|done..]. rewrite <- (proj1 ts0_ok). by eapply lookup_lt_Some. }
  apply (wp_for_seq _ (ended args) 0 n).
  2:{ unfold ended. rewrite Nat.sub_0_r. split_and!; try done. intros; lia. }
  intros i ts1 s1 Hi He. pose proof He as ((Hk1 & _) & Hw1 & _).
  apply wp_bind. eapply wp_select_fn; [by eapply only_world_inv|].
  replace (fn_at End_select s1 i) with (fn_at End_select s0 i) by by destruct Hw1 as [w ->].
  destruct (ts0_item i) as (t0 & Ht0 & _); [lia|]. destruct (Hk1 i t0 Ht0) as (t1 & Ht1 & Eset & Hok1 & Hun).
  apply wp_bind, (wp_item_at _ _ t1); [lia|by rewrite Nat2Z.id|].
  destruct (fn_at End_select s0 i) as [g|] eqn:Eg.
  2:{ apply wp_ret. eapply ended_skip; [done|lia|done..|]. apply started_none.
      destruct (fn_at Start_select s0 i) as [f|] eqn:Ef; [|done].
      destruct (proj1 (both i)) as [g' Eg']; [by rewrite Ef|]. congruence. }
  destruct (proj2 (both i)) as [f Ef]; [by rewrite Eg|]. pose proof (started_true _ _ _ Ht0 Ef) as Hst.
  destruct (isset t1) eqn:Es; [|apply wp_ret; eapply ended_skip; [done|lia|done..|congruence]].
  destruct (lookup_lt_is_Some_2 args i) as [a Ha]; [lia|].
  apply wp_bind, (wp_item_at _ _ a); [lia|by rewrite Nat2Z.id|]. apply wp_bind. unfold wp at 1, on_world.
  pose proof (end_size _ _ g a (fds t1) (world s1) Hok1) as Hx.
  destruct (end_answers g a (fds t0) (fds t1) (world s1) Hok1) as [Hdel Hans].
  { eapply ended_pending; [done|lia|done|congruence|done]. }
  destruct (drv_end sd g a (fds t1) (world s1)) as [x w]. apply wp_ret. rewrite Eset.
  eapply ended_one; [done|lia|done|congruence|congruence|done..].
Qed.
End run.

(** ** The whole call *)

(** The descriptors that are to be reported. *)
Definition reported s (u : user_sets) (nfds : Z) (k : fd_kind) (j : nat) : bool :=
  match s_fd_table s !! j with
  | Some e => (0 <=? vfs_index e) && bool_decide (j < Z.to_nat nfds)%nat && asked u k j &&
              ready_at s (Z.to_nat (vfs_index e)) k (Z.to_nat (local_fd e))
  | None => false
  end.

Lemma wp_malloc_true extra sup s (Q : option Z → st → Prop) :
  vfs_inv extra s → supply s = true :: sup →
  (∀ b s', b ∉ extra → vfs_inv ({[b]} ∪ extra) s' → same_but_heap s s' → supply s' = sup → Q (Some b) s') →
  wp heap_caps_malloc s Q.
Proof.
  intros Hinv Hsup HQ. unfold wp, heap_caps_malloc. rewrite Hsup.
  destruct (inv_grown VFS_MAX_COUNT MAX_FDS extra (next_block s) (next_block s + 1) sup s Hinv) as [H1 H2]; [lia|].
  by apply HQ.
Qed.

Lemma final_val extra n u nfds s l ts :
  vfs_inv extra s → locals_ok s → s_vfs_count s = Z.of_nat n →
  handed_out u n (Z.to_nat nfds) s l → final s (triples l) ts →
  ∀ k j, val ts s k j = reported s u nfds k j.
Proof.
  intros Hinv Hloc Hn Hho Hfin k j. unfold val, reported. destruct (s_fd_table s !! j) as [e|] eqn:He; [|done].
  destruct (Z.leb_spec 0 (vfs_index e)) as [Hp|]; [|done]. simpl.
  destruct (local_bound _ _ _ _ Hinv Hloc He Hp) as [Hl Hi].
  destruct (triples_item _ _ _ (Z.to_nat (vfs_index e)) (proj1 (ho_ok _ _ _ _ _ Hho))) as (t0 & Ht0 & _); [lia|].
  destruct (Hfin _ _ Ht0) as (t & Ht & Es & _ & Hbits).
  pose proof (ho_bits _ _ _ _ _ Hho k j e He Hp) as Hb. unfold bit_of in Hb. simpl in Ht0. rewrite Ht0 in Hb.
  unfold isset_of, bit_of. rewrite Ht. rewrite <- Hb.
  destruct (isset t) eqn:Et.
  - simpl. rewrite Hbits by lia || congruence. done.
  - rewrite Hb. destruct (bool_decide _) eqn:Hj; [|done]. apply bool_decide_eq_true in Hj.
    destruct (asked u k j) eqn:Ha; [|done].
    pose proof (ho_isset _ _ _ _ _ Hho k j e Hj He Hp Ha) as Hs. unfold isset_of in Hs. rewrite Ht0 in Hs. congruence.
Qed.

Lemma reported_shape s s' u nfds k j :
  s_vfs s' = s_vfs s → shape <$> s_fd_table s' = shape <$> s_fd_table s →
  reported s' u nfds k j = reported s u nfds k j.
Proof.
  intros Hv Hs. unfold reported, ready_at, fn_at. rewrite Hv.
  destruct (s_fd_table s' !! j) as [e|] eqn:He.
  - destruct (shape_lookup _ _ _ _ Hs He) as (e' & -> & [= _ E1 E2]). by rewrite E1, E2.
  - destruct (s_fd_table s !! j) as [e|] eqn:He'; [|done].
    destruct (shape_lookup _ _ _ _ (eq_sym Hs) He') as (e' & He2 & _). congruence.
Qed.

Lemma handed_table u n m s s' l : s_fd_table s' = s_fd_table s → handed_out u n m s l → handed_out u n m s' l.
Proof. intros E [H1 H2 H3 H4 H5 H6]. split; rewrite ?E; done. Qed.

Definition both_or_none s : Prop :=
  ∀ i, is_Some (fn_at Start_select s i) ↔ is_Some (fn_at End_select s i).

Lemma run_select_plain `{!SetLaws MAX_FDS sd, !SelectLaws, !QuietTasks} extra bt ba bs n u nfds timeout l s :
  let sm := mkSem true (Some bs) in
  vfs_inv (run_extra extra bt ba sm) s → locals_ok s → s_vfs_count s = Z.of_nat n →
  bs ∉ ({[bt]} ∪ ({[ba]} ∪ extra) : gset Z) → bt ∉ ({[ba]} ∪ extra : gset Z) → ba ∉ extra →
  0 ≤ nfds ≤ Z.of_nat MAX_FDS → handed_out u n (Z.to_nat nfds) s l → both_or_none s →
  wp (run_select MAX_FDS portTICK_PERIOD_MS sd meanwhile nfds timeout n l sm (Some bt) (Some ba)) s (λ '(r, u') s',
    coll u (reported s u nfds) (r, u') ∧ pending (world s') = pending (world s)).
Proof.
  intros sm Hinv Hloc Hn Hbs Hbt Hba Hnf Hho Hboth. destruct (ho_ok _ _ _ _ _ Hho) as [Hts _]. simpl in Hts.
  unfold run_select. apply wp_bind. eapply wp_mono.
  { eapply start_all_plain; [exact Hinv|exact Hts|exact Hboth|apply only_world_refl|].
    split_and!; [|constructor|constructor]. by rewrite list_to_map_nil, (left_id_L ∅ (∪)). }
  intros [[ts args] failed] s1 (Hf & Hk & Hlen & Hw & Hp). simpl in Hf, Hk, Hlen, Hp. subst failed.
  unfold wait_ready. rewrite (ho_sock _ _ _ _ _ Hho). apply wp_bind, wp_bind.
  eapply wp_mono; [by eapply pass_time_plain|]. intros ts2 s2 (Hk2 & Hw2 & Hp2). apply wp_ret.
  apply wp_bind. eapply wp_mono; [by eapply end_all_plain|]. intros ts3 s3 (Hfin & Hw3 & Hp3).
  pose proof (only_world_inv _ _ _ _ _ Hw3 Hinv) as Hinv3. destruct Hw3 as [w3 E3].
  assert (∀ i, (i < n)%nat → ∃ t, ts3 !! i = Some t ∧ sets_ok MAX_FDS (fds t)) as Hts3.
  { intros i Hi. destruct (triples_item _ _ _ i Hts Hi) as (t0 & Ht0 & _).
    destruct (Hfin i t0 Ht0) as (t & Ht & _ & Hok & _). by exists t. }
  apply wp_bind. simpl (0 <=? 0). cbv iota. apply wp_bind.
  eapply wp_mono; [eapply (set_global_spec _ n); [exact Hinv3|by rewrite E3|done|by rewrite E3|]|].
  { intros k f. destruct k; simpl; by intros (? & _ & ->)%fmap_Some. }
  match goal with |- context [coll ?z _ _] => assert (∀ k, get_user k u = None ↔ get_user k z = None) as zero_null end.
  { intros k. rewrite (ho_null _ _ _ _ _ Hho k). destruct k; simpl; by rewrite fmap_None. }
  intros [r u'] s4 [-> Hc]. apply wp_ret. rewrite Z.add_0_l.
  unfold drop_sem. simpl. apply wp_bind. eapply wp_mono; [apply (free_inv VFS_MAX_COUNT MAX_FDS ({[bt]} ∪ ({[ba]} ∪ extra))); [done|]|].
  { unfold run_extra in Hinv3. simpl in Hinv3. by rewrite union_empty_r_L in Hinv3. }
  intros _ s5 [Hs5 Hinv5]. apply wp_bind.
  eapply wp_mono; [eapply finish_closes_safe; [exact Hinv5|lia]|]. intros _ s6 (Hinv6 & _ & Hw6).
  apply (wp_free_both VFS_MAX_COUNT MAX_FDS extra bt ba); [done..|]. intros s7 Hs7 _. apply wp_ret. split.
  - split; [apply Hc| |apply Hc|].
    + intros k. rewrite (zero_null k). apply Hc.
    + intros k j Hj Hnn. rewrite <- (final_val _ n u nfds s l ts3) by done. subst s3.
      apply (co_bits _ _ _ Hc); [done|]. by rewrite <- zero_null.
  - destruct Hs7 as (_ & _ & _ & -> & _). rewrite Hw6. destruct Hs5 as (_ & _ & _ & -> & _).
    destruct Hp3 as [Hp3 _]. by rewrite list_to_map_nil, (left_id_L ∅ (∪)) in Hp3.
Qed.

(** C26: select on descriptors of file systems, with memory and with file systems that keep
    their side, reports a descriptor in a set of the caller exactly when the caller asked
    about it there, it is below [nfds] and in use, and its file system says that its own
    descriptor is ready.  The result is the number of descriptors reported, and every file
    system that was started was also ended.  The file systems that take no part in select
    are always ready. *)
Theorem select_reports `{!SetLaws MAX_FDS sd, !SelectLaws, !QuietTasks} extra nfds u timeout sup s :
  vfs_inv extra s → locals_ok s → sockets_ok s → user_ok MAX_FDS u → 0 ≤ nfds ≤ Z.of_nat MAX_FDS →
  plain u (Z.to_nat nfds) s → both_or_none s → supply s = true :: true :: true :: sup →
  wp (esp_vfs_select MAX_FDS portTICK_PERIOD_MS sd meanwhile nfds u timeout) s (λ '(r, u') s',
    r = total u' ∧ same_null u u' ∧
    (∀ k j, (j < MAX_FDS)%nat → get_user k u ≠ None → asked u' k j = reported s u nfds k j) ∧
    pending (world s') = pending (world s)).
Proof.
  intros Hinv Hloc Hsock Hu Hn Hpl Hboth Hsup. unfold esp_vfs_select.
  rewrite (proj2 (Z.ltb_ge _ _)), (proj2 (Z.ltb_ge _ _)) by lia. cbn [orb].
  apply wp_bind, wp_get, wp_bind. eapply wp_malloc_true; [done..|].
  intros bt s1 Hbt Hinv1 (E1 & E2 & E3 & E4 & E5 & E6) Hsup1.
  pose proof (iv_count _ _ _ _ Hinv) as Hcount.
  apply wp_bind. eapply wp_mono.
  { eapply (hand_out_plain ({[bt]} ∪ extra)); [done| | | |lia|done|].
    - unfold VfsSelectProps.locals_ok. by rewrite E3.
    - unfold sockets_ok, socket_fns. by rewrite E1, E3.
    - rewrite E2. lia.
    - destruct Hpl as [P1 P2]. split; rewrite E3; [apply P1|apply P2]. }
  intros l s2 [Hsh Hho].
  destruct (same_shape_ok ({[bt]} ∪ extra) _ _ Hsh) as (Hinv2 & Hloc2 & _); [done| | |].
  { unfold VfsSelectProps.locals_ok. by rewrite E3. }
  { unfold sockets_ok, socket_fns. by rewrite E1, E3. }
  pose proof (shape_handed _ _ _ _ _ _ Hsh Hho) as Hho2. destruct Hsh as (t & E & Ht).
  assert (supply s2 = true :: true :: sup) as Hsup2 by by rewrite E.
  rewrite (ho_sock _ _ _ _ _ Hho). apply wp_bind, wp_bind. eapply wp_malloc_true; [exact Hinv2|exact Hsup2|].
  intros bs s3 Hbs Hinv3 F3 Hsup3. apply wp_ret. simpl.
  apply wp_bind. eapply wp_malloc_true; [exact Hinv3|exact Hsup3|]. intros ba s4 Hba Hinv4 F4 _.
  assert (same_but_heap s2 s4) as (G1 & G2 & G3 & G4 & _) by (unfold same_but_heap in *; naive_solver congruence).
  assert (s_vfs s4 = s_vfs s) as Hv4 by (rewrite G1, E; simpl; congruence).
  eapply wp_mono; [apply (run_select_plain extra bt ba bs (Z.to_nat (s_vfs_count s)) u)|].
  - unfold run_extra. simpl.
    replace ({[bs]} ∪ ∅ ∪ ({[bt]} ∪ ({[ba]} ∪ extra)) : gset Z) with ({[ba]} ∪ ({[bs]} ∪ ({[bt]} ∪ extra)) : gset Z)
      by set_solver. done.
  - unfold VfsSelectProps.locals_ok. by rewrite G3.
  - rewrite G2, E. simpl. rewrite E2. lia.
  - set_solver.
  - set_solver.
  - set_solver.
  - done.
  - eapply handed_table; [|exact Hho2]. done.
  - intros i. unfold fn_at. rewrite Hv4. apply Hboth.
  - intros [r u'] s5 [[C1 C2 C3 C4] Hp]. simpl in *. split_and!; [done|done| |].
    + intros k j Hj Hk. rewrite C4 by done. apply reported_shape; [done|]. rewrite G3, E. simpl. by rewrite Ht, E3.
    + rewrite Hp, G4, E. simpl. congruence.
Qed.
End report.
