(* ===== verification/VfsSelectCases.v ===== *)
(** * Virtual file system: cases of select

    The time select waits, a small system in which the theorems on select apply, and three
    cases in which the call leaves something behind: a descriptor that can no longer be
    freed, a file system that is never told that select ended, and a semaphore. *)
From Stdlib Require Import ZArith Lia.
From stdpp Require Import base numbers option list gmap.
From S2P Require Import Prelude Vfs VfsCalls VfsSpec VfsInv VfsSelect VfsSelectProps VfsSelectReport.

(** ** The time *)

(** With a timeout in milliseconds that fits, the number of ticks is the least one whose
    ticks, the first of which may be cut short, last for the milliseconds of the timeout. *)
Theorem select_waits period t :
  0 < period → 0 ≤ tv_sec t → 0 ≤ tv_usec t →
  let ms := tv_sec t * 1000 + tv_usec t `div` 1000 in
  ms + 2 * period < 2 ^ 32 →
  let ticks := ticks_to_wait period (Some t) in
  ms ≤ (ticks - 1) * period < ms + period ∧ ticks < portMAX_DELAY.
Proof.
  intros Hp Hs Hu ms Hms ticks. unfold ticks, ticks_to_wait, portMAX_DELAY.
  rewrite Z.quot_div_nonneg by lia. fold ms.
  assert (0 ≤ ms) by (unfold ms; pose proof (Z.div_pos (tv_usec t) 1000 Hu); lia).
  rewrite (u32_small ms) by lia. rewrite (u32_small (ms + period - 1)) by lia.
  pose proof (Z.div_mod (ms + period - 1) period). pose proof (Z.mod_pos_bound (ms + period - 1) period Hp).
  set (q := (ms + period - 1) `div` period) in *. assert (0 ≤ q) by (apply Z.div_pos; lia).
  assert (q ≤ ms + period - 1) by nia. rewrite u32_small by lia. nia.
Qed.

Lemma select_waits_witness :
  let t := mkTimeval 1 500 in
  1000 ≤ (ticks_to_wait 10 (Some t) - 1) * 10 < 1010 ∧ ticks_to_wait 10 (Some t) < portMAX_DELAY.
Proof. apply (select_waits 10 (mkTimeval 1 500)); vm_compute; congruence. Defined.

(** A timeout of 49 days and 17 hours wraps around: select waits less than a second. *)
Example select_timeout_wraps : ticks_to_wait 1 (Some (mkTimeval 4294968 0)) = 705.
Proof. reflexivity. Qed.

(** ** Closing keeps what select needs *)

Lemma close_locals {W} (m n : nat) (drv : Z → option Z → fs_args → Z → W → Z * Z * W) extra fd (s : vfs_state W) :
  (m ≤ 128)%nat ∧ (m ≤ n)%nat ∧ (n ≤ 256)%nat → vfs_inv m n extra s → locals_ok n s →
  wp (esp_vfs_close n drv fd) s (λ _ s', vfs_inv m n extra s' ∧ locals_ok n s').
Proof.
  intros Hc Hinv Hloc. unfold esp_vfs_close. eapply with_fd_spec; [exact Hc|exact Hinv| |by split; [apply errno_inv|]].
  intros v f Hfd Hf _ _. apply wp_bind. eapply wp_mono; [by eapply passive_check|]. intros r s1 Hs.
  assert (locals_ok n s1) as Hloc1 by (unfold locals_ok in *; by destruct Hs as (_ & _ & -> & _)).
  apply (same_reg_inv m n extra) in Hs; [|done]. destruct r as [r|]; [|by apply wp_ret].
  unfold close_fd. do 2 apply wp_bind. eapply wp_fd_read; [done|lia|]. intros e He Hok.
  destruct (negb (permanent e)); cbn [whenM]; [|by apply wp_ret].
  eapply wp_fd_write; [done|lia| |].
  - destruct (has_pending_select e); [done|by apply (unused_ok m n)].
  - intros Hinv2. apply wp_ret. split; [done|]. apply Forall_insert; [done|].
    pose proof (proj1 (Forall_lookup _ _) Hloc1 _ _ He). by destruct (has_pending_select e).
Qed.

(** ** A small system *)

(** File systems that keep the sets of the selects they have started; a descriptor of
    theirs is ready when it is even. *)
Definition even_ready (f : Z) (k : fd_kind) (j : nat) : bool := Nat.even j.
Definition answer_set (x y : list bool) : list bool := imap (λ j _, x !!! j && Nat.even j) y.
Definition answer_sets (x y : fd_sets) : fd_sets :=
  mkSets (answer_set (readfds x) (readfds y)) (answer_set (writefds x) (writefds y))
    (answer_set (errorfds x) (errorfds y)).

Definition even_start (f nfds : Z) (x : fd_sets) (sm : esp_vfs_select_sem_t) (w : gmap Z fd_sets)
    : esp_err_t * fd_sets * Z * gmap Z fd_sets :=
  let a := fresh (dom w) in (ESP_OK, x, a, <[a := x]> w).
Definition even_end (f a : Z) (y : fd_sets) (w : gmap Z fd_sets) : fd_sets * gmap Z fd_sets :=
  match w !! a with Some x => (answer_sets x y, delete a w) | None => (y, w) end.

Definition even_drivers : sel_drivers (gmap Z fd_sets) :=
  mkDrivers _ (λ _ w, (None, w)) even_start even_end (λ _ _ u _ w, (0, u, w)) (λ _ w, w) (λ _ w, w) (λ _ _ w, w)
    (λ _ w, (λ _ x, x, w)).

#[export] Instance even_set_laws n : SetLaws n even_drivers.
Proof.
  split; try done.
  - intros f a x w Hx. simpl. unfold even_end. destruct (w !! a) as [z|]; [|done]. intros k.
    specialize (Hx k). destruct k; simpl in *; unfold answer_set; by rewrite length_imap.
Qed.

#[export] Instance even_laws n : SelectLaws n even_drivers id even_ready.
Proof.
  split.
  - intros f nfds x sm w _. exists x, (fresh (dom w)), (<[fresh (dom w) := x]> w). split_and!; [done| |done].
    apply not_elem_of_dom. apply is_fresh.
  - intros f a x y w Hy Ha. simpl in *. unfold even_end. unfold id in Ha. rewrite Ha. split; [done|].
    intros k j Hj. specialize (Hy k). unfold even_ready.
    assert (∀ x y : list bool, (j < length y)%nat → answer_set x y !!! j = x !!! j && Nat.even j) as Hb.
    { intros p q Hq. unfold answer_set. destruct (lookup_lt_is_Some_2 q j Hq) as [b Eb].
      apply list_lookup_total_correct. by rewrite list_lookup_imap, Eb. }
    destruct k; apply Hb; simpl in Hy; lia.
  - done.
Qed.

Definition no_tasks : @Vfs.VM (gmap Z fd_sets) unit := mret ().
#[export] Instance no_tasks_quiet : QuietTasks no_tasks id.
Proof. split. intros s. apply wp_ret. exists (world s). by destruct s. Qed.
#[export] Instance no_tasks_laws m n : TasksLaws m n no_tasks.
Proof. split. intros extra s H1 H2. by apply wp_ret. Qed.

(** Two file systems in memory of the application, with two descriptors and one. *)
Definition sel_ops (start stop : Z) : esp_vfs_fs_ops_t :=
  mkFsOps (-1) (λ _, Some 1) None None
    (Some (mkOps (-2) (λ op, match op with Start_select => Some start | End_select => Some stop | _ => None end))).
Definition sel_a : vfs_entry_t := mkEntry 1 ESP_VFS_FLAG_STATIC (sel_ops 10 11) 0 0 2 [SLASH; 97].
Definition sel_b : vfs_entry_t := mkEntry 2 ESP_VFS_FLAG_STATIC (sel_ops 20 21) 0 1 2 [SLASH; 98].
Definition sel_fs (sup : list bool) : vfs_state (gmap Z fd_sets) :=
  mkState [Some sel_a; Some sel_b] 2
    [mkFd false false false 0 2; mkFd false false false 0 3; mkFd false false false 1 2; FD_TABLE_ENTRY_UNUSED]
    {[1; 2]} 3 sup 0 ∅ ∅.

Lemma sel_fs_inv sup : vfs_inv 2 4 ∅ (sel_fs sup).
Proof.
  split.
  - done.
  - simpl. lia.
  - intros [|[|i]] e; simpl; intros H; [lia|lia|done].
  - intros [|[|i]] e; simpl; intros H; [injection H as <-|injection H as <-|done];
      (split; [done|right; split; [done|by right]]).
  - change (owned (s_vfs (sel_fs sup))) with [1; 2]. apply NoDup_cons. split; [set_solver|by apply NoDup_singleton].
  - change (owned (s_vfs (sel_fs sup))) with [1; 2]. set_solver.
  - set_solver.
  - intros b Hb. change (live (sel_fs sup)) with ({[1; 2]} : gset Z) in Hb. simpl. set_solver by lia.
  - done.
  - repeat constructor; simpl; lia.
Qed.

Lemma sel_fs_locals sup : locals_ok 4 (sel_fs sup).
Proof. repeat constructor; simpl; lia. Qed.
Lemma sel_fs_sockets sup : sockets_ok (sel_fs sup).
Proof. by repeat constructor. Qed.

(** Reading from the descriptors 0 to 2. *)
Definition ask_all : user_sets := mkUser (Some [true; true; true; false]) None None.

Lemma ask_all_ok : user_ok 4 ask_all.
Proof. intros [] f; simpl; intros H; by simplify_eq. Qed.

Lemma sel_fs_plain sup : plain ask_all 3 (sel_fs sup).
Proof.
  split.
  - intros fd e k _ He Hp. exfalso. assert (Forall (λ e, permanent e = false) (s_fd_table (sel_fs sup))) as Hall.
    { by repeat constructor. }
    pose proof (proj1 (Forall_lookup _ _) Hall _ _ He). simpl in *. congruence.
  - intros i j e e'. simpl.
    destruct i as [|[|[|[|i]]]]; simpl; intros He; try done; injection He as <-;
      destruct j as [|[|[|[|j]]]]; simpl; intros He'; try done; injection He' as <-; simpl; intros; lia || done.
Qed.

Lemma sel_fs_both sup : both_or_none (sel_fs sup).
Proof. intros [|[|i]]; unfold fn_at; simpl; split; intros []; eauto; done. Qed.

(** A file and a socket, and another task that closes the file while select waits. *)
Definition sock_ops : esp_vfs_fs_ops_t :=
  mkFsOps (-1) (λ _, Some 1) None None
    (Some (mkOps (-2) (λ op, match op with Socket_select => Some 30 | Get_socket_select_semaphore => Some 31 | _ => None end))).
Definition sel_sock : vfs_entry_t := mkEntry 2 ESP_VFS_FLAG_STATIC sock_ops 0 1 2 [SLASH; 98].
Definition sock_fs (sup : list bool) : vfs_state (gmap Z fd_sets) :=
  mkState [Some sel_a; Some sel_sock] 2
    [mkFd false false false 0 2; FD_TABLE_ENTRY_UNUSED; mkFd true false false 1 2; FD_TABLE_ENTRY_UNUSED]
    {[1; 2]} 3 sup 0 ∅ ∅.

(** The functions of the file systems for the other calls: all succeed. *)
Definition ok_drv (f : Z) (c : option Z) (args : fs_args) (e : Z) (w : gmap Z fd_sets) : Z * Z * gmap Z fd_sets :=
  (0, e, w).
Definition closing_task : @Vfs.VM (gmap Z fd_sets) unit := esp_vfs_close 4 ok_drv 0;; mret ().

#[export] Instance closing_task_laws : TasksLaws 2 4 closing_task.
Proof.
  split. intros extra s Hinv Hloc. unfold closing_task. apply wp_bind.
  eapply wp_mono; [apply (close_locals 2 4); [lia|done..]|]. intros r s' H. by apply wp_ret.
Qed.

Lemma sock_fs_inv sup : vfs_inv 2 4 ∅ (sock_fs sup).
Proof.
  destruct (sel_fs_inv sup) as [H1 H2 H3 H4 H5 H6 H7 H8 H9 H10]. split; try done.
  - intros [|[|i]] e; simpl; intros H; [lia|lia|done].
  - intros [|[|i]] e; simpl; intros H; [injection H as <-|injection H as <-|done];
      (split; [done|right; split; [done|by right]]).
  - repeat constructor; simpl; lia.
Qed.

Lemma sock_fs_locals sup : locals_ok 4 (sock_fs sup).
Proof. repeat constructor; simpl; lia. Qed.
Lemma sock_fs_sockets sup : asked_sockets ask_all 3 (sock_fs sup).
Proof.
  intros [|[|[|fd]]] e k Hfd He; simpl in He; try lia; injection He as <-; try done.
  intros _ _ _. by exists sel_sock, (default (mkOps 0 (λ _, None)) (select sock_ops)), 31.
Qed.

Lemma select_balanced_witness :
  wp (esp_vfs_select 4 1 even_drivers closing_task 3 ask_all None) (sock_fs [true; true; false]) (λ '(r, u') s',
    user_ok 4 u' ∧
    (vfs_inv 2 4 ∅ s' ∨ (r = -1 ∧ errno s' = ENOMEM ∧ ∃ b, b ∉ (∅ : gset Z) ∧ vfs_inv 2 4 ({[b]} ∪ ∅) s'))).
Proof.
  apply (select_balanced 2 4 1 even_drivers closing_task ∅ 3 ask_all None (sock_fs [true; true; false])
    (sock_fs_inv _) (sock_fs_locals _) (sock_fs_sockets _) ask_all_ok).
Defined.

Lemma select_reports_witness :
  wp (esp_vfs_select 4 1 even_drivers no_tasks 3 ask_all None) (sel_fs [true; true; true]) (λ '(r, u') s',
    r = total u' ∧ same_null ask_all u' ∧
    (∀ k j, (j < 4)%nat → get_user k ask_all ≠ None →
       asked u' k j = reported even_ready (sel_fs [true; true; true]) ask_all 3 k j) ∧
    id (world s') = id (world (sel_fs [true; true; true]))).
Proof.
  apply (select_reports 2 4 1 even_drivers no_tasks id even_ready ∅ 3 ask_all None [] (sel_fs [true; true; true])
    (sel_fs_inv _) (sel_fs_locals _) (sel_fs_sockets _) ask_all_ok); [lia|apply sel_fs_plain|apply sel_fs_both|reflexivity].
Defined.

(** Here descriptors 0 and 2 are reported. *)
Example select_reports_even :
  match esp_vfs_select 4 1 even_drivers no_tasks 3 ask_all None (sel_fs [true; true; true]) with
  | Done s' (r, u') => r = 2 ∧ u_read u' = Some [true; false; true; false]
  | _ => False
  end.
Proof. vm_compute. done. Qed.

(** ** What is left behind *)

(** After a select that asked about errors of descriptor 0, closing the descriptor
    succeeds but leaves its entry in the table: the mark for a pending select is never
    taken away.  The entry still leads to the file system, and another select is needed to
    free it. *)
Theorem select_pins_descriptor :
  match (_ ← esp_vfs_select 4 1 even_drivers no_tasks 1 (mkUser None None (Some [true; false; false; false])) None;
         c ← esp_vfs_close 4 ok_drv 0;
         v ← get_vfs_for_fd 4 0;
         mret (c, v)) (sel_fs [true; true; true]) with
  | Done s' (c, v) => c = 0 ∧ v = Some sel_a ∧ s_fd_table s' !! 0%nat = Some (mkFd false true true 0 2)
  | _ => False
  end.
Proof. vm_compute. done. Qed.

(** File systems of which the second refuses to start. *)
Definition refusing_drivers : sel_drivers (gmap Z fd_sets) :=
  mkDrivers _ (λ _ w, (None, w))
    (λ f nfds x sm w, if f =? 20 then (ESP_ERR_NOT_SUPPORTED, x, 0, w) else even_start f nfds x sm w)
    even_end (λ _ _ u _ w, (0, u, w)) (λ _ w, w) (λ _ w, w) (λ _ _ w, w) (λ _ w, (λ _ x, x, w)).

(** When a file system answers [ESP_ERR_NOT_SUPPORTED], select fails without ending those
    that were started before: one select stays pending although its sets, its argument
    and the semaphore are freed. *)
Theorem refused_start_leaves_pending :
  match esp_vfs_select 4 1 refusing_drivers no_tasks 3 ask_all None (sel_fs [true; true; true]) with
  | Done s' (r, _) => r = -1 ∧ errno s' = EINTR ∧ size (world s') = 1%nat ∧ live s' = {[1; 2]}
  | _ => False
  end.
Proof. vm_compute. done. Qed.

(** When there is no memory for the array of arguments, the semaphore is not deleted. *)
Theorem select_leaks_semaphore :
  match esp_vfs_select 4 1 even_drivers no_tasks 3 ask_all None (sel_fs [true; true; false]) with
  | Done s' (r, _) => r = -1 ∧ errno s' = ENOMEM ∧ live s' = {[1; 2; 4]}
  | _ => False
  end.
Proof. vm_compute. done. Qed.
