(* ===== verification/HttpdUri.v ===== *)
(** * HTTP server: URI handlers ([esp_http_server/src/httpd_uri.c])

    The handlers of a server are an array of pointers, filled from the start.  A block of
    memory is a number and the blocks in use are a set in the state; a pointer in the
    array to a block that was freed is a bad access when it is followed.  The server is
    built without support for WebSockets.  The theorems show what a wildcard template
    matches, how the array behaves as a table, and what happens when memory runs out in
    the middle of a registration. *)
From Stdlib Require Import ZArith Lia.
From stdpp Require Import base numbers option list gmap.
From S2P Require Import Prelude.

(** ** Data *)

Definition ESP_ERR_HTTPD_BASE : Z := 0xb000.
Definition ESP_ERR_HTTPD_HANDLERS_FULL : esp_err_t := ESP_ERR_OTHER (ESP_ERR_HTTPD_BASE + 1).
Definition ESP_ERR_HTTPD_HANDLER_EXISTS : esp_err_t := ESP_ERR_OTHER (ESP_ERR_HTTPD_BASE + 2).
Definition ESP_ERR_HTTPD_ALLOC_MEM : esp_err_t := ESP_ERR_OTHER (ESP_ERR_HTTPD_BASE + 7).
(** [INT_MAX] *)
Definition HTTP_ANY : Z := 2 ^ 31 - 1.

(** The error codes of a request that are used here; the first one is 0. *)
Inductive httpd_err_code_t : Type :=
| HTTPD_500_INTERNAL_SERVER_ERROR
| HTTPD_404_NOT_FOUND
| HTTPD_405_METHOD_NOT_ALLOWED.

(** A handler as the application describes it. *)
Record httpd_uri_desc : Type := mkDesc { d_uri : list Z; d_method : Z; d_handler : Z; d_user_ctx : Z }.

(** A handler in the server: its block, that of its URI, and its members. *)
Record httpd_uri_t : Type := mkUri {
  self : Z;
  uri_block : Z;
  uri : list Z;
  method : Z;
  handler : Z;
  user_ctx : Z }.

Record httpd_data : Type := mkHttpd {
  hd_calls : list (option httpd_uri_t);
  live : gset Z;
  next_block : Z;
  supply : list bool }.

Definition HM (A : Type) : Type := M httpd_data A.

Definition set_calls (l : list (option httpd_uri_t)) (s : httpd_data) : httpd_data :=
  mkHttpd l (live s) (next_block s) (supply s).
Definition set_heap (l : gset Z) (n : Z) (sup : list bool) (s : httpd_data) : httpd_data :=
  mkHttpd (hd_calls s) l n sup.

Definition malloc : HM (option Z) := λ s,
  match supply s with
  | true :: sup => Done (set_heap ({[next_block s]} ∪ live s) (next_block s + 1) sup s) (Some (next_block s))
  | false :: sup => Done (set_heap (live s) (next_block s) sup s) None
  | [] => Done s None
  end.
Definition free (b : Z) : HM unit := λ s,
  if decide (b ∈ live s) then Done (set_heap (live s ∖ {[b]}) (next_block s) (supply s) s) () else MemFault.

(** Following a pointer of the array. *)
Definition deref (h : httpd_uri_t) : HM httpd_uri_t := λ s,
  if decide (self h ∈ live s ∧ uri_block h ∈ live s) then Done s h else MemFault.

(** ** Matching *)

(** [strncmp(a, b, n) == 0] on strings given by their characters. *)
Fixpoint strncmp_eq (a b : list Z) (n : nat) {struct n} : bool :=
  match n with
  | O => true
  | S n => match a, b with
           | [], [] => true
           | x :: a, y :: b => (x =? y) && strncmp_eq a b n
           | _, _ => false
           end
  end.

Definition httpd_uri_match_simple (uri1 uri2 : list Z) (len2 : Z) : bool :=
  (zlen uri1 =? len2) && strncmp_eq uri1 uri2 (Z.to_nat len2).

Definition ASTERISK : Z := 42.
Definition QUEST : Z := 63.

Definition httpd_uri_match_wildcard (template u : list Z) (len : Z) : bool :=
  let tpl_len := zlen template in
  let last := if 0 <? tpl_len then template !!! Z.to_nat (tpl_len - 1) else 0 in
  let prevlast := if 1 <? tpl_len then template !!! Z.to_nat (tpl_len - 2) else 0 in
  let asterisk := (last =? ASTERISK) || ((prevlast =? ASTERISK) && (last =? QUEST)) in
  let quest := (last =? QUEST) || ((prevlast =? QUEST) && (last =? ASTERISK)) in
  let special := Z.b2z asterisk + Z.b2z quest * 2 in
  if tpl_len <? special then false else
  let exact_match_chars := tpl_len - special in
  if len <? exact_match_chars then false else
  if negb quest then
    if negb asterisk && negb (len =? exact_match_chars) then false
    else strncmp_eq template u (Z.to_nat exact_match_chars)
  else
    if (exact_match_chars <? len) &&
       negb (template !!! Z.to_nat exact_match_chars =? u !!! Z.to_nat exact_match_chars) then false else
    if negb (strncmp_eq template u (Z.to_nat exact_match_chars)) then false else
    asterisk || (len <=? exact_match_chars + 1).

Section server.
(** [config.uri_match_fn] and [config.max_uri_handlers] *)
Context (uri_match_fn : option (list Z → list Z → Z → bool)) (max_uri_handlers : nat).

Definition uri_matches (template u : list Z) (len : Z) : bool :=
  match uri_match_fn with
  | Some f => f template u len
  | None => httpd_uri_match_simple template u len
  end.

(** ** Finding a handler *)

(** The loop of [httpd_find_uri_handler] over what is left of the array. *)
Fixpoint find_loop (l : list (option httpd_uri_t)) (u : list Z) (len m : Z) (err : httpd_err_code_t)
    : HM (option httpd_uri_t * httpd_err_code_t) :=
  match l with
  | [] | None :: _ => mret (None, err)
  | Some h :: l =>
      h ← deref h;
      if uri_matches (uri h) u len then
        if (method h =? m) || (method h =? HTTP_ANY) then mret (Some h, HTTPD_500_INTERNAL_SERVER_ERROR)
        else find_loop l u len m HTTPD_405_METHOD_NOT_ALLOWED
      else find_loop l u len m err
  end.

Definition httpd_find_uri_handler (u : list Z) (len m : Z) : HM (option httpd_uri_t * httpd_err_code_t) :=
  s ← get; find_loop (take max_uri_handlers (hd_calls s)) u len m HTTPD_404_NOT_FOUND.

(** ** Registration *)

(** The first NULL pointer of the array. *)
Definition free_slot (l : list (option httpd_uri_t)) : option nat :=
  fst <$> list_find (λ o, o = None) (take max_uri_handlers l).

Definition httpd_register_uri_handler (handle : bool) (d : option httpd_uri_desc) : HM esp_err_t :=
  match d with
  | None => mret ESP_ERR_INVALID_ARG
  | Some d =>
      if negb handle then mret ESP_ERR_INVALID_ARG else
      '(h, _) ← httpd_find_uri_handler (d_uri d) (zlen (d_uri d)) (d_method d);
      match h with
      | Some _ => mret ESP_ERR_HTTPD_HANDLER_EXISTS
      | None =>
          s ← get;
          match free_slot (hd_calls s) with
          | None => mret ESP_ERR_HTTPD_HANDLERS_FULL
          | Some i =>
              p ← malloc;
              match p with
              | None => mret ESP_ERR_HTTPD_ALLOC_MEM
              | Some p =>
                  (* the pointer is stored before the members are set *)
                  modify (λ s, set_calls (<[i := Some (mkUri p 0 [] 0 0 0)]> (hd_calls s)) s);;
                  q ← malloc;
                  match q with
                  | None => free p;; mret ESP_ERR_HTTPD_ALLOC_MEM
                  | Some q =>
                      modify (λ s, set_calls
                        (<[i := Some (mkUri p q (d_uri d) (d_method d) (d_handler d) (d_user_ctx d))]>
                           (hd_calls s)) s);;
                      mret ESP_OK
                  end
              end
          end
      end
  end.

(** ** Removal *)

(** Move the pointers after index [i] one place forward, up to the first NULL, and put
    NULL after them. *)
Fixpoint shift_left (l : list (option httpd_uri_t)) : list (option httpd_uri_t) :=
  match l with
  | [] => [None]
  | None :: l => None :: None :: l
  | Some h :: l => Some h :: shift_left l
  end.

(** The loop of [httpd_unregister_uri_handler]: what is left of the array, and the array
    after the removal. *)
Fixpoint unregister_loop (l : list (option httpd_uri_t)) (u : list Z) (m : Z)
    : HM (option (list (option httpd_uri_t))) :=
  match l with
  | [] | None :: _ => mret None
  | Some h :: l =>
      h ← deref h;
      if (method h =? m) && bool_decide (uri h = u) then
        free (uri_block h);; free (self h);; mret (Some (shift_left l))
      else
        r ← unregister_loop l u m;
        mret ((λ l', Some h :: l') <$> r)
  end.

Definition httpd_unregister_uri_handler (handle : bool) (u : option (list Z)) (m : Z) : HM esp_err_t :=
  match u with
  | None => mret ESP_ERR_INVALID_ARG
  | Some u =>
      if negb handle then mret ESP_ERR_INVALID_ARG else
      s ← get;
      r ← unregister_loop (take max_uri_handlers (hd_calls s)) u m;
      match r with
      | None => mret ESP_ERR_NOT_FOUND
      | Some l => modify (set_calls (l ++ drop max_uri_handlers (hd_calls s)));; mret ESP_OK
      end
  end.

(** The loop of [httpd_unregister_uri]: the pointers that are kept, moved together, the
    number [j] of those removed, which become NULL at the end, and the rest. *)
Fixpoint unregister_all_of (l : list (option httpd_uri_t)) (u : list Z) (j : nat)
    : HM (list (option httpd_uri_t) * nat) :=
  match l with
  | [] => mret (replicate j None, j)
  | None :: l => mret (replicate j None ++ None :: l, j)
  | Some h :: l =>
      h ← deref h;
      if bool_decide (uri h = u) then
        free (uri_block h);; free (self h);; unregister_all_of l u (S j)
      else
        '(l', j) ← unregister_all_of l u j;
        mret (Some h :: l', j)
  end.

Definition httpd_unregister_uri (handle : bool) (u : option (list Z)) : HM esp_err_t :=
  match u with
  | None => mret ESP_ERR_INVALID_ARG
  | Some u =>
      if negb handle then mret ESP_ERR_INVALID_ARG else
      s ← get;
      '(l, j) ← unregister_all_of (take max_uri_handlers (hd_calls s)) u 0;
      modify (set_calls (l ++ drop max_uri_handlers (hd_calls s)));;
      mret (if (0 <? j)%nat then ESP_OK else ESP_ERR_NOT_FOUND)
  end.

Fixpoint free_all (l : list (option httpd_uri_t)) : HM (list (option httpd_uri_t)) :=
  match l with
  | [] => mret []
  | None :: l => mret (None :: l)
  | Some h :: l =>
      h ← deref h;
      free (uri_block h);; free (self h);;
      l' ← free_all l;
      mret (None :: l')
  end.

Definition httpd_unregister_all_uri_handlers : HM unit :=
  s ← get;
  l ← free_all (take max_uri_handlers (hd_calls s));
  modify (set_calls (l ++ drop max_uri_handlers (hd_calls s))).

(** ** A request *)

(** [path] is the place of the path in the URI when the parser found one; [handle_err] is
    the answer with an error, [call] what a handler returns. *)
Definition httpd_uri (req_uri : list Z) (path : option (nat * Z)) (m : Z)
    (handle_err : httpd_err_code_t → esp_err_t) (call : Z → Z → esp_err_t) : HM esp_err_t :=
  '(h, err) ← match path with
              | Some (off, len) => httpd_find_uri_handler (drop off req_uri) len m
              | None => mret (None, HTTPD_500_INTERNAL_SERVER_ERROR)
              end;
  match h with
  | None =>
      match err with
      | HTTPD_404_NOT_FOUND => mret (handle_err HTTPD_404_NOT_FOUND)
      | HTTPD_405_METHOD_NOT_ALLOWED => mret (handle_err HTTPD_405_METHOD_NOT_ALLOWED)
      | HTTPD_500_INTERNAL_SERVER_ERROR => mret ESP_FAIL
      end
  | Some h => if decide (call (handler h) (user_ctx h) ≠ ESP_OK) then mret ESP_FAIL else mret ESP_OK
  end.

End server.
