(* ===== verification/HttpdProps.v ===== *)
(** * HTTP server: what the URI handlers do

    A template for [httpd_uri_match_wildcard] is parsed into one of five forms, whose
    meaning is a predicate on paths; the C function decides it.  The array of handlers
    refines a table of descriptions: as long as memory lasts, every sequence of
    registrations, removals and requests answers as the table does.  When the copy of the
    URI cannot be allocated the array keeps a pointer to a freed handler. *)
From Stdlib Require Import ZArith Lia.
From stdpp Require Import base numbers option list gmap.
From S2P Require Import Prelude HttpdUri.

(** ** Templates *)

(** What a template means. *)
Inductive template : Type :=
| Exact (p : list Z)
| Prefix (p : list Z)
| Optional (p : list Z) (c : Z)
| OptionalPrefix (p : list Z) (c : Z)
| Invalid.

Definition optional_prefix (r : list Z) : template :=
  match r with
  | [] => Invalid
  | c :: r => OptionalPrefix (reverse r) c
  end.

(** The form of a template, from its last characters. *)
Definition parse_template (t : list Z) : template :=
  match reverse t with
  | [] => Exact []
  | l :: r =>
      if l =? ASTERISK then
        match r with
        | q :: r' => if q =? QUEST then optional_prefix r' else Prefix (reverse r)
        | [] => Prefix []
        end
      else if l =? QUEST then
        match r with
        | [] => Invalid
        | q :: r' => if q =? ASTERISK then optional_prefix r' else Optional (reverse r') q
        end
      else Exact t
  end.

Definition template_matches (t : template) (u : list Z) : Prop :=
  match t with
  | Exact p => u = p
  | Prefix p => p `prefix_of` u
  | Optional p c => u = p ∨ u = p ++ [c]
  | OptionalPrefix p c => u = p ∨ p ++ [c] `prefix_of` u
  | Invalid => False
  end.

Lemma strncmp_is_prefix (p x u rest : list Z) :
  (length p ≤ length u)%nat →
  strncmp_eq (p ++ x) (u ++ rest) (length p) = true ↔ p `prefix_of` u.
Proof.
  revert u. induction p as [|c p IH]; intros u Hle; simpl in *.
  { split; [intros _; apply prefix_nil|done]. }
  destruct u as [|d u]; simpl in *; [lia|]. rewrite andb_true_iff, IH by lia. rewrite Z.eqb_eq.
  split.
  - intros [-> H]. by apply prefix_cons.
  - intros [k [= -> ->]]. split; [done|]. by exists k.
Qed.

Lemma prefix_same_length (p u : list Z) : p `prefix_of` u → length u = length p → u = p.
Proof. intros [k ->]. rewrite length_app. intros ?. by rewrite (nil_length_inv k), app_nil_r by lia. Qed.

Lemma Z_to_nat_zlen (a : list Z) : Z.to_nat (zlen a) = length a.
Proof. unfold zlen. lia. Qed.

(** The two ways the function ends, for a template [p ++ x] whose mandatory part is [p]. *)
Lemma match_prefix p x u rest (any : bool) :
  (if zlen u <? zlen p then false else
   if negb any && negb (zlen u =? zlen p) then false
   else strncmp_eq (p ++ x) (u ++ rest) (Z.to_nat (zlen p))) = true ↔
  template_matches (if any then Prefix p else Exact p) u.
Proof.
  rewrite Z_to_nat_zlen. destruct (Z.ltb_spec (zlen u) (zlen p)) as [Hlt|Hge].
  { split; [done|]. destruct any; simpl; [intros ?%prefix_length; unfold zlen in *; lia|intros ->; lia]. }
  destruct any; simpl; [by apply strncmp_is_prefix; unfold zlen in *; lia|].
  destruct (Z.eqb_spec (zlen u) (zlen p)) as [Heq|Hne]; simpl.
  - unfold zlen in *. rewrite strncmp_is_prefix by lia. split; [|by intros ->].
    intros H. by apply prefix_same_length; [|lia].
  - split; [done|]. intros ->. lia.
Qed.

Lemma match_optional p c x u rest (any : bool) :
  (if zlen u <? zlen p then false else
   if (zlen p <? zlen u) &&
      negb ((p ++ c :: x) !!! Z.to_nat (zlen p) =? (u ++ rest) !!! Z.to_nat (zlen p)) then false else
   if negb (strncmp_eq (p ++ c :: x) (u ++ rest) (Z.to_nat (zlen p))) then false else
   any || (zlen u <=? zlen p + 1)) = true ↔
  template_matches (if any then OptionalPrefix p c else Optional p c) u.
Proof.
  rewrite Z_to_nat_zlen. rewrite list_lookup_total_middle by done.
  destruct (Z.ltb_spec (zlen u) (zlen p)) as [Hlt|Hge].
  { split; [done|]. unfold zlen in *. destruct any; simpl; intros [->| H]; try lia.
    - apply prefix_length in H. rewrite length_app in H. lia.
    - rewrite H, length_app in Hlt. simpl in Hlt. lia. }
  destruct (strncmp_eq (p ++ c :: x) (u ++ rest) (length p)) eqn:Es; simpl.
  2:{ assert (¬ p `prefix_of` u) as Hno.
      { intros H. rewrite (proj2 (strncmp_is_prefix p (c :: x) u rest ltac:(unfold zlen in *; lia)) H) in Es. done. }
      split; [by destruct (_ && _)|]. intros H. destruct Hno. destruct any; simpl in H.
      - destruct H as [->|[k ->]]; [done|]. rewrite <- app_assoc. by eexists.
      - destruct H as [->| ->]; [done|]. by eexists. }
  apply strncmp_is_prefix in Es as [k ->]; [|unfold zlen in *; lia].
  rewrite <- app_assoc. unfold zlen. rewrite length_app. destruct k as [|d k]; simpl.
  - rewrite app_nil_r. rewrite (proj2 (Z.ltb_ge _ _)) by lia. simpl.
    rewrite (proj2 (Z.leb_le _ _)) by lia. rewrite orb_true_r. destruct any; simpl; naive_solver.
  - rewrite (proj2 (Z.ltb_lt _ _)) by lia. rewrite list_lookup_total_middle by done. simpl.
    assert (p ++ d :: k ≠ p) as Hne.
    { intros H%(f_equal length). rewrite length_app in H. simpl in H. lia. }
    destruct (Z.eqb_spec c d) as [<-|Hcd]; simpl.
    + destruct any; simpl.
      * split; [|done]. intros _. right. exists k. by rewrite <- app_assoc.
      * rewrite Z.leb_le. split.
        -- intros ?. right. destruct k; [done|simpl in *; lia].
        -- intros [?|[= ->]%(inj (app p))]; [done|]. simpl. lia.
    + split; [done|]. destruct any; simpl.
      * intros [?|[k' Hk]]; [done|]. rewrite <- app_assoc in Hk. by apply (inj (app p)) in Hk as [= -> _].
      * by intros [?|[= ->]%(inj (app p))].
Qed.

(** The last characters of a template as the function reads them. *)
Lemma last_char (t : list Z) l :
  (if 0 <? zlen (t ++ [l]) then (t ++ [l]) !!! Z.to_nat (zlen (t ++ [l]) - 1) else 0) = l.
Proof.
  rewrite zlen_app. change (zlen [l]) with 1. pose proof (zlen_nonneg t).
  rewrite (proj2 (Z.ltb_lt _ _)) by lia. apply list_lookup_total_middle. unfold zlen. lia.
Qed.

Lemma prevlast_char (t : list Z) q l :
  (if 1 <? zlen (t ++ [q; l]) then (t ++ [q; l]) !!! Z.to_nat (zlen (t ++ [q; l]) - 2) else 0) = q.
Proof.
  rewrite zlen_app. change (zlen [q; l]) with 2. pose proof (zlen_nonneg t).
  rewrite (proj2 (Z.ltb_lt _ _)) by lia. apply list_lookup_total_middle. unfold zlen. lia.
Qed.

(** The function for a template [p ++ x] with its last two characters known, where [x] is
    the part that is not mandatory. *)
Lemma wildcard_special p x u rest last prevlast (asterisk quest : bool) :
  (if 0 <? zlen (p ++ x) then (p ++ x) !!! Z.to_nat (zlen (p ++ x) - 1) else 0) = last →
  (if 1 <? zlen (p ++ x) then (p ++ x) !!! Z.to_nat (zlen (p ++ x) - 2) else 0) = prevlast →
  (last =? ASTERISK) || ((prevlast =? ASTERISK) && (last =? QUEST)) = asterisk →
  (last =? QUEST) || ((prevlast =? QUEST) && (last =? ASTERISK)) = quest →
  zlen x = Z.b2z asterisk + Z.b2z quest * 2 →
  httpd_uri_match_wildcard (p ++ x) (u ++ rest) (zlen u) = true ↔
  template_matches
    match x with
    | c :: _ => if quest then if asterisk then OptionalPrefix p c else Optional p c
                else if asterisk then Prefix p else Exact p
    | [] => if asterisk then Prefix p else Exact p
    end u.
Proof.
  intros Hl Hp Ha Hq Hx. unfold httpd_uri_match_wildcard.
  rewrite Hl, Hp, Ha, Hq, zlen_app, <- Hx. pose proof (zlen_nonneg p).
  rewrite (proj2 (Z.ltb_ge _ _)) by lia. rewrite Z.add_simpl_r.
  destruct quest; simpl negb; cbv iota.
  - destruct x as [|c x]; [destruct asterisk; done|]. by apply match_optional.
  - destruct x as [|c x]; by apply match_prefix.
Qed.

Lemma wildcard_both t q l u rest :
  (q = QUEST ∧ l = ASTERISK) ∨ (q = ASTERISK ∧ l = QUEST) →
  httpd_uri_match_wildcard (t ++ [q; l]) (u ++ rest) (zlen u) = true ↔
  template_matches (optional_prefix (reverse t)) u.
Proof.
  intros Hql. pose proof (last_char (t ++ [q]) l) as Hl. rewrite <- app_assoc in Hl.
  pose proof (prevlast_char t q l) as Hp.
  destruct t as [|c t _] using rev_ind; [by destruct Hql as [[-> ->]|[-> ->]]|].
  rewrite reverse_snoc. simpl. rewrite reverse_involutive, <- app_assoc in *.
  apply (wildcard_special t [c; q; l] u rest l q true true Hl Hp); by destruct Hql as [[-> ->]|[-> ->]].
Qed.

(** C28: [httpd_uri_match_wildcard] decides the meaning of its template on the first [len]
    characters of the URI: an exact path, a prefix before a final asterisk, a path whose
    last character is optional before a final question mark, both for either order of the
    two signs, and nothing for a template that lacks the optional character. *)
Theorem wildcard_decides t u rest :
  httpd_uri_match_wildcard t (u ++ rest) (zlen u) = true ↔ template_matches (parse_template t) u.
Proof.
  destruct t as [|l t _] using rev_ind.
  { by apply (wildcard_special [] [] u rest 0 0 false false). }
  unfold parse_template. rewrite reverse_snoc.
  destruct t as [|q t _] using rev_ind; simpl reverse.
  { destruct (Z.eqb_spec l ASTERISK) as [->|Ha]; [|destruct (Z.eqb_spec l QUEST) as [->|Hq]].
    - by apply (wildcard_special [] [ASTERISK] u rest ASTERISK 0 true false).
    - done.
    - apply Z.eqb_neq in Ha, Hq.
      apply (wildcard_special [l] [] u rest l 0 false false); [done..| | |done]; by rewrite Ha, Hq. }
  rewrite reverse_snoc. simpl.
  pose proof (last_char (t ++ [q]) l) as Hl. rewrite <- app_assoc in *. simpl in *.
  pose proof (prevlast_char t q l) as Hp.
  destruct (Z.eqb_spec l ASTERISK) as [->|Ha]; [|destruct (Z.eqb_spec l QUEST) as [->|Hq]].
  - destruct (Z.eqb_spec q QUEST) as [->|Hq]; [by apply wildcard_both; auto|].
    rewrite reverse_cons, reverse_involutive. apply Z.eqb_neq in Hq.
    replace (t ++ [q; ASTERISK]) with ((t ++ [q]) ++ [ASTERISK]) in * by by rewrite <- app_assoc.
    apply (wildcard_special (t ++ [q]) [ASTERISK] u rest ASTERISK q true false Hl Hp); simpl; [done| |done].
    by rewrite Hq.
  - destruct (Z.eqb_spec q ASTERISK) as [->|Ha']; [by apply wildcard_both; auto|].
    rewrite reverse_involutive. apply Z.eqb_neq in Ha'.
    apply (wildcard_special t [q; QUEST] u rest QUEST q false true Hl Hp); simpl; [|done..].
    by rewrite Ha'.
  - apply Z.eqb_neq in Ha, Hq. pose proof (wildcard_special (t ++ [q; l]) [] u rest l q false false) as H.
    rewrite app_nil_r in H. apply H; rewrite ?Ha, ?Hq, ?andb_false_r; done.
Qed.

(** ** The table of handlers *)

Definition described (h : httpd_uri_t) : httpd_uri_desc := mkDesc (uri h) (method h) (handler h) (user_ctx h).
Definition blocks (hs : list httpd_uri_t) : list Z := hs ≫= λ h, [self h; uri_block h].

Section table.
Context (uri_match_fn : option (list Z → list Z → Z → bool)) (max_uri_handlers : nat).

Definition serves (m : Z) (d : httpd_uri_desc) : bool := (d_method d =? m) || (d_method d =? HTTP_ANY).

(** The first description that matches the path and serves the method. *)
Definition tbl_find (t : list httpd_uri_desc) (u : list Z) (len m : Z)
    : option httpd_uri_desc * httpd_err_code_t :=
  let matching := filter (λ d, uri_matches uri_match_fn (d_uri d) u len = true) t in
  match filter (λ d, serves m d = true) matching, matching with
  | d :: _, _ => (Some d, HTTPD_500_INTERNAL_SERVER_ERROR)
  | [], [] => (None, HTTPD_404_NOT_FOUND)
  | [], _ :: _ => (None, HTTPD_405_METHOD_NOT_ALLOWED)
  end.

Definition tbl_register (d : httpd_uri_desc) (t : list httpd_uri_desc) : esp_err_t * list httpd_uri_desc :=
  match fst (tbl_find t (d_uri d) (zlen (d_uri d)) (d_method d)) with
  | Some _ => (ESP_ERR_HTTPD_HANDLER_EXISTS, t)
  | None => if (length t <? max_uri_handlers)%nat then (ESP_OK, t ++ [d]) else (ESP_ERR_HTTPD_HANDLERS_FULL, t)
  end.

Definition tbl_unregister_handler (u : list Z) (m : Z) (t : list httpd_uri_desc)
    : esp_err_t * list httpd_uri_desc :=
  match list_find (λ d, d_method d = m ∧ d_uri d = u) t with
  | Some (i, _) => (ESP_OK, delete i t)
  | None => (ESP_ERR_NOT_FOUND, t)
  end.

Definition tbl_unregister (u : list Z) (t : list httpd_uri_desc) : esp_err_t * list httpd_uri_desc :=
  match filter (λ d, d_uri d = u) t with
  | [] => (ESP_ERR_NOT_FOUND, t)
  | _ :: _ => (ESP_OK, filter (λ d, d_uri d ≠ u) t)
  end.

(** ** The array represents a table *)

Record rep (s : httpd_data) (hs : list httpd_uri_t) : Prop := mkRep {
  rep_calls : hd_calls s = (Some <$> hs) ++ replicate (max_uri_handlers - length hs) None;
  rep_fits : (length hs ≤ max_uri_handlers)%nat;
  rep_nodup : NoDup (blocks hs);
  rep_live : live s = list_to_set (blocks hs);
  rep_fresh : ∀ b, b ∈ blocks hs → b < next_block s }.

Lemma rep_take s hs : rep s hs → take max_uri_handlers (hd_calls s) = hd_calls s.
Proof.
  intros [Hc Hf _ _ _]. apply take_ge. rewrite Hc, length_app, length_fmap, length_replicate. lia.
Qed.

Lemma rep_drop s hs : rep s hs → drop max_uri_handlers (hd_calls s) = [].
Proof.
  intros [Hc Hf _ _ _]. apply drop_ge. rewrite Hc, length_app, length_fmap, length_replicate. lia.
Qed.

Lemma blocks_cons h hs : blocks (h :: hs) = self h :: uri_block h :: blocks hs.
Proof. done. Qed.

Lemma blocks_elem h hs : h ∈ hs → self h ∈ blocks hs ∧ uri_block h ∈ blocks hs.
Proof. intros H. split; apply list_elem_of_bind; exists h; set_solver. Qed.

Definition held (s : httpd_data) (hs : list httpd_uri_t) : Prop :=
  ∀ b, b ∈ blocks hs → b ∈ live s.

Lemma held_cons s h hs : held s (h :: hs) → self h ∈ live s ∧ uri_block h ∈ live s ∧ held s hs.
Proof. intros H. split_and!; [apply H|apply H|intros b Hb; apply H]; rewrite blocks_cons; set_solver. Qed.

Lemma rep_held s hs : rep s hs → held s hs.
Proof. intros [_ _ _ Hl _] b Hb. rewrite Hl. set_solver. Qed.

Lemma wp_follow h s (Q : httpd_uri_t → httpd_data → Prop) :
  self h ∈ live s → uri_block h ∈ live s → Q h s → wp (deref h) s Q.
Proof. intros H1 H2 HQ. unfold wp, deref. by rewrite decide_True. Qed.

Lemma wp_free_block b s (Q : unit → httpd_data → Prop) :
  b ∈ live s → Q () (set_heap (live s ∖ {[b]}) (next_block s) (supply s) s) → wp (free b) s Q.
Proof. intros H HQ. unfold wp, free. by rewrite decide_True. Qed.

(** The array after the blocks [bs] were freed. *)
Definition freed (bs : list Z) (s : httpd_data) : httpd_data :=
  set_heap (live s ∖ list_to_set bs) (next_block s) (supply s) s.

Lemma freed_nil s : freed [] s = s.
Proof. destruct s. unfold freed, set_heap. simpl. f_equal. set_solver. Qed.

Lemma freed_freed a b s : freed b (freed a s) = freed (a ++ b) s.
Proof. unfold freed, set_heap. simpl. f_equal. rewrite list_to_set_app_L. set_solver. Qed.

Lemma wp_free_handler {A} h (k : HM A) s (Q : A → httpd_data → Prop) :
  self h ∈ live s → uri_block h ∈ live s → self h ≠ uri_block h →
  wp k (freed [self h; uri_block h] s) Q → wp (free (uri_block h);; free (self h);; k) s Q.
Proof.
  intros H1 H2 Hne HQ. apply wp_bind, wp_free_block; [done|]. apply wp_bind, wp_free_block; [simpl; set_solver|].
  match goal with |- wp k ?x Q => replace x with (freed [self h; uri_block h] s); [done|] end.
  unfold freed, set_heap. simpl. f_equal. set_solver.
Qed.

Lemma held_freed h hs s : NoDup (blocks (h :: hs)) → held s (h :: hs) → held (freed [self h; uri_block h] s) hs.
Proof.
  rewrite blocks_cons. intros [H1 [H2 _]%NoDup_cons]%NoDup_cons (_ & _ & H)%held_cons b Hb.
  simpl. specialize (H b Hb). set_solver.
Qed.

Lemma nodup_handler h hs : NoDup (blocks (h :: hs)) → self h ≠ uri_block h ∧ NoDup (blocks hs).
Proof. rewrite blocks_cons. intros [H1 [H2 H3]%NoDup_cons]%NoDup_cons. split; [set_solver|done]. Qed.

(** ** The loops *)

Lemma find_loop_spec hs n u len m err s :
  held s hs →
  wp (find_loop uri_match_fn ((Some <$> hs) ++ replicate n None) u len m err) s (λ '(h, err') s', s' = s ∧
    (described <$> h, err') =
      let matching := filter (λ d, uri_matches uri_match_fn (d_uri d) u len = true) (described <$> hs) in
      match filter (λ d, serves m d = true) matching, matching with
      | d :: _, _ => (Some d, HTTPD_500_INTERNAL_SERVER_ERROR)
      | [], [] => (None, err)
      | [], _ :: _ => (None, HTTPD_405_METHOD_NOT_ALLOWED)
      end).
Proof.
  revert err. induction hs as [|h hs IH]; intros err Hheld; simpl.
  { destruct n; by apply wp_ret. }
  apply held_cons in Hheld as (H1 & H2 & Hheld).
  apply wp_bind, wp_follow; [done..|]. rewrite filter_cons. cbn [d_uri described].
  destruct (uri_matches _ (uri h) u len) eqn:Em; [|by rewrite decide_False by done; apply IH].
  rewrite decide_True, filter_cons by done.
  change ((method h =? m) || (method h =? HTTP_ANY)) with (serves m (described h)).
  case_decide as Es; [rewrite Es; by apply wp_ret|]. apply not_true_iff_false in Es. rewrite Es.
  eapply wp_mono; [by apply IH|]. intros [h' err'] s' [-> Hr]. split; [done|]. rewrite Hr. simpl.
  by destruct (filter _ (filter _ _)), (filter _ (described <$> hs)).
Qed.

Lemma shift_left_spec hs n :
  shift_left ((Some <$> hs) ++ replicate n None) = (Some <$> hs) ++ replicate (S n) None.
Proof. induction hs as [|h hs IH]; simpl; [by destruct n|f_equal; apply IH]. Qed.

Lemma unregister_loop_spec hs n u m s :
  held s hs → NoDup (blocks hs) →
  wp (unregister_loop ((Some <$> hs) ++ replicate n None) u m) s (λ r s',
    match list_find (λ h, method h = m ∧ uri h = u) hs with
    | None => r = None ∧ s' = s
    | Some (i, h) => r = Some ((Some <$> delete i hs) ++ replicate (S n) None) ∧
        s' = freed [self h; uri_block h] s
    end).
Proof.
  induction hs as [|h hs IH]; intros Hheld Hnd; simpl.
  { destruct n; by apply wp_ret. }
  pose proof (held_cons _ _ _ Hheld) as (H1 & H2 & Hheld'). apply nodup_handler in Hnd as [Hne Hnd].
  apply wp_bind, wp_follow; [done..|]. 
  destruct (decide (method h = m ∧ uri h = u)) as [[<- <-]|Hno].
  - rewrite Z.eqb_refl, bool_decide_true by done. simpl. apply wp_free_handler; [done..|].
    apply wp_ret. split; [f_equal; apply shift_left_spec|done].
  - replace ((method h =? m) && bool_decide (uri h = u)) with false.
    2:{ symmetry. apply andb_false_iff. rewrite Z.eqb_neq, bool_decide_eq_false.
        destruct (decide (method h = m)); tauto. }
    apply wp_bind. eapply wp_mono; [by apply IH|]. intros r s' Hr. apply wp_ret.
    destruct (list_find _ hs) as [[i h']|]; simpl; [|by destruct Hr as [-> ->]].
    by destruct Hr as [-> ->].
Qed.

Lemma unregister_all_of_spec hs n u j s :
  held s hs → NoDup (blocks hs) →
  wp (unregister_all_of ((Some <$> hs) ++ replicate n None) u j) s (λ '(l, j') s',
    j' = (j + length (filter (λ h, uri h = u) hs))%nat ∧
    l = (Some <$> filter (λ h, uri h ≠ u) hs) ++ replicate (j' + n) None ∧
    s' = freed (blocks (filter (λ h, uri h = u) hs)) s).
Proof.
  revert j s. induction hs as [|h hs IH]; intros j s Hheld Hnd; simpl.
  { rewrite freed_nil. destruct n; apply wp_ret; simpl; (split_and!; [lia| |done]).
    - by rewrite Nat.add_0_r.
    - by rewrite replicate_add. }
  pose proof (held_cons _ _ _ Hheld) as (H1 & H2 & Hheld').
  pose proof (held_freed _ _ _ Hnd Hheld) as Hheld''.
  apply nodup_handler in Hnd as [Hne Hnd].
  apply wp_bind, wp_follow; [done..|]. rewrite !filter_cons.
  destruct (decide (uri h = u)) as [Hu|Hu].
  - rewrite bool_decide_true by done. rewrite decide_False by tauto. apply wp_free_handler; [done..|].
    eapply wp_mono; [by apply IH|]. intros [l j'] s' (-> & -> & ->). simpl.
    rewrite freed_freed. split_and!; [lia|done|done].
  - rewrite bool_decide_false, decide_True by done. apply wp_bind.
    eapply wp_mono; [by apply IH|]. intros [l j'] s' (-> & -> & ->). by apply wp_ret.
Qed.

Lemma free_all_spec hs n s :
  held s hs → NoDup (blocks hs) →
  wp (free_all ((Some <$> hs) ++ replicate n None)) s (λ l s',
    l = replicate (length hs + n) None ∧ s' = freed (blocks hs) s).
Proof.
  revert s. induction hs as [|h hs IH]; intros s Hheld Hnd; simpl.
  { rewrite freed_nil. destruct n; by apply wp_ret. }
  pose proof (held_cons _ _ _ Hheld) as (H1 & H2 & Hheld').
  pose proof (held_freed _ _ _ Hnd Hheld) as Hheld''.
  apply nodup_handler in Hnd as [Hne Hnd].
  apply wp_bind, wp_follow; [done..|]. apply wp_free_handler; [done..|].
  apply wp_bind. eapply wp_mono; [by apply IH|]. intros l s' (-> & ->). apply wp_ret.
  by rewrite freed_freed.
Qed.

(** ** The operations *)

Lemma find_spec hs u len m s :
  rep s hs →
  wp (httpd_find_uri_handler uri_match_fn max_uri_handlers u len m) s (λ '(h, err) s', s' = s ∧
    (described <$> h, err) = tbl_find (described <$> hs) u len m).
Proof.
  intros Hrep. unfold httpd_find_uri_handler. apply wp_bind, wp_get. rewrite (rep_take _ _ Hrep).
  rewrite (rep_calls _ _ Hrep). by apply find_loop_spec, rep_held.
Qed.

Lemma free_slot_spec s hs :
  rep s hs →
  free_slot max_uri_handlers (hd_calls s) =
    if (length hs <? max_uri_handlers)%nat then Some (length hs) else None.
Proof.
  intros Hrep. unfold free_slot. rewrite (rep_take _ _ Hrep), (rep_calls _ _ Hrep).
  assert (list_find (λ o, o = None) (Some <$> hs) = None) as Hno.
  { apply list_find_None, Forall_fmap, Forall_true. done. }
  rewrite (list_find_app_r _ _ _ Hno).
  destruct (Nat.ltb_spec (length hs) max_uri_handlers) as [Hlt|Hge].
  - destruct (max_uri_handlers - length hs)%nat eqn:E; [lia|]. simpl. by rewrite length_fmap.
  - by replace (max_uri_handlers - length hs)%nat with 0%nat by lia.
Qed.

Lemma replicate_insert_first {A} (l : list A) (x y : A) n :
  <[length l := y]> (l ++ replicate (S n) x) = (l ++ [y]) ++ replicate n x.
Proof. rewrite insert_app_r_alt, Nat.sub_diag by done. simpl. by rewrite <- app_assoc. Qed.

(** The array after a handler with blocks [p] and [p + 1] was added. *)
Lemma rep_snoc s hs d sup l :
  rep s hs → (length hs < max_uri_handlers)%nat →
  l = list_to_set [next_block s; next_block s + 1] ∪ live s →
  rep (mkHttpd (<[length hs := Some (mkUri (next_block s) (next_block s + 1) (d_uri d) (d_method d)
                                      (d_handler d) (d_user_ctx d))]>
                  (<[length hs := Some (mkUri (next_block s) 0 [] 0 0 0)]> (hd_calls s)))
         l (next_block s + 1 + 1) sup)
    (hs ++ [mkUri (next_block s) (next_block s + 1) (d_uri d) (d_method d) (d_handler d) (d_user_ctx d)]).
Proof.
  intros Hrep Hlt ->. destruct Hrep as [Hc Hf Hnd Hl Hfr].
  assert (blocks (hs ++ [mkUri (next_block s) (next_block s + 1) (d_uri d) (d_method d) (d_handler d)
                           (d_user_ctx d)]) = blocks hs ++ [next_block s; next_block s + 1]) as Hb.
  { unfold blocks. by rewrite bind_app. }
  split; simpl; rewrite ?Hb.
  - rewrite list_insert_insert_eq, Hc, length_app. simpl.
    destruct (max_uri_handlers - length hs)%nat as [|n] eqn:E; [lia|].
    replace (max_uri_handlers - (length hs + 1))%nat with n by lia.
    rewrite <- (length_fmap Some hs), fmap_app. apply replicate_insert_first.
  - rewrite length_app. simpl. lia.
  - apply NoDup_app. split_and!; [done| |].
    + intros b Hin%Hfr. rewrite !elem_of_cons. intros [->|[->|Hnil]]; [lia|lia|by apply not_elem_of_nil in Hnil].
    + apply NoDup_cons. split; [|apply NoDup_singleton]. rewrite list_elem_of_singleton. lia.
  - rewrite Hl, list_to_set_app_L. set_solver.
  - intros b. rewrite elem_of_app, !elem_of_cons. intros [H%Hfr|[->|[->|Hnil]]]; [lia..|by apply not_elem_of_nil in Hnil].
Qed.

Lemma register_spec hs d sup s :
  rep s hs → supply s = true :: true :: sup →
  wp (httpd_register_uri_handler uri_match_fn max_uri_handlers true (Some d)) s (λ e s',
    ∃ hs', rep s' hs' ∧ (e, described <$> hs') = tbl_register d (described <$> hs) ∧
           (supply s' = sup ∨ supply s' = supply s)).
Proof.
  intros Hrep Hsup. unfold httpd_register_uri_handler. apply wp_bind. eapply wp_mono; [by apply find_spec|].
  intros [h err] s' [-> Hfind]. unfold tbl_register. rewrite <- Hfind. simpl.
  destruct h as [h|]; simpl; [apply wp_ret; exists hs; by auto|].
  apply wp_bind, wp_get. rewrite (free_slot_spec _ _ Hrep), length_fmap.
  destruct (Nat.ltb_spec (length hs) max_uri_handlers) as [Hlt|Hge]; [|apply wp_ret; exists hs; by auto].
  apply wp_bind. unfold wp at 1, malloc. rewrite Hsup.
  apply wp_bind, wp_modify, wp_bind. unfold wp at 1, malloc. simpl supply.
  apply wp_bind, wp_modify, wp_ret. eexists. split_and!.
  - apply (rep_snoc s hs d); [done..|]. simpl. set_solver.
  - rewrite fmap_app. by destruct d.
  - by left.
Qed.

(** The array after the handlers outside [hs'] were freed and [hs'] was kept. *)
Lemma rep_kept s hs hs' bs :
  rep s hs → sublist hs' hs → blocks hs ≡ₚ bs ++ blocks hs' →
  rep (set_calls ((Some <$> hs') ++ replicate (max_uri_handlers - length hs') None) (freed bs s)) hs'.
Proof.
  intros [Hc Hf Hnd Hl Hfr] Hsub Hperm. apply sublist_length in Hsub.
  rewrite Hperm in Hnd. apply NoDup_app in Hnd as (_ & Hdisj & Hnd').
  split; simpl; [done|lia|done| |].
  - rewrite Hl, Hperm, list_to_set_app_L. apply set_eq. intros b.
    rewrite elem_of_difference, elem_of_union, !elem_of_list_to_set. specialize (Hdisj b). tauto.
  - intros b Hb. apply Hfr. rewrite Hperm. set_solver.
Qed.

#[local] Instance blocks_proper : Proper ((≡ₚ) ==> (≡ₚ)) blocks.
Proof. intros hs hs' H. unfold blocks. by rewrite H. Qed.

Lemma delete_perm hs i h : hs !! i = Some h → blocks hs ≡ₚ [self h; uri_block h] ++ blocks (delete i hs).
Proof.
  intros Hi. rewrite (delete_Permutation hs i h Hi) at 1. done.
Qed.

Lemma filter_perm u hs :
  blocks hs ≡ₚ blocks (filter (λ h, uri h = u) hs) ++ blocks (filter (λ h, uri h ≠ u) hs).
Proof. unfold blocks. rewrite <- bind_app. by rewrite (filter_app_complement (λ h, uri h = u) hs). Qed.

Lemma filter_lengths u (hs : list httpd_uri_t) :
  (length (filter (λ h, uri h = u) hs) + length (filter (λ h, uri h ≠ u) hs))%nat = length hs.
Proof. rewrite <- length_app. by rewrite (filter_app_complement (λ h, uri h = u) hs). Qed.

Lemma nothing_removed u (hs : list httpd_uri_t) :
  filter (λ h, uri h = u) hs = [] → filter (λ h, uri h ≠ u) hs = hs.
Proof.
  induction hs as [|h hs IH]; [done|]. rewrite !filter_cons.
  destruct (decide (uri h = u)) as [|Hu]; [done|]. intros H%IH. by rewrite decide_True, H.
Qed.

Lemma filter_described (P : httpd_uri_desc → Prop) `{!∀ d, Decision (P d)} (hs : list httpd_uri_t) :
  filter P (described <$> hs) = described <$> filter (λ h, P (described h)) hs.
Proof.
  induction hs as [|h hs IH]; [done|]. rewrite fmap_cons, !filter_cons, IH. by case_decide.
Qed.

Lemma unregister_handler_spec hs u m s :
  rep s hs →
  wp (httpd_unregister_uri_handler max_uri_handlers true (Some u) m) s (λ e s',
    ∃ hs', rep s' hs' ∧ (e, described <$> hs') = tbl_unregister_handler u m (described <$> hs) ∧
           supply s' = supply s).
Proof.
  intros Hrep. unfold httpd_unregister_uri_handler. apply wp_bind, wp_get.
  rewrite (rep_take _ _ Hrep), (rep_drop _ _ Hrep). rewrite (rep_calls _ _ Hrep) at 1.
  apply wp_bind. eapply wp_mono; [apply unregister_loop_spec; [by apply rep_held|by apply Hrep]|].
  intros r s' Hr. unfold tbl_unregister_handler. rewrite list_find_fmap.
  change ((λ d, d_method d = m ∧ d_uri d = u) ∘ described) with (λ h, method h = m ∧ uri h = u).
  destruct (list_find _ hs) as [[i h]|] eqn:El; destruct Hr as [-> ->]; simpl.
  2:{ apply wp_ret. by exists hs. }
  apply list_find_Some in El as (Hi & _). apply wp_bind, wp_modify, wp_ret. exists (delete i hs).
  pose proof (length_delete _ _ (mk_is_Some _ _ Hi)) as Hlen. pose proof (lookup_lt_Some _ _ _ Hi).
  pose proof (rep_fits _ _ Hrep).
  split_and!; [|f_equal; apply list_fmap_delete|done].
  rewrite app_nil_r. change (None :: replicate ?n None) with (replicate (S n) (@None httpd_uri_t)).
  replace (S (max_uri_handlers - length hs)) with (max_uri_handlers - length (delete i hs))%nat by lia.
  apply (rep_kept s hs); [done|apply sublist_delete|by apply delete_perm].
Qed.

Lemma unregister_spec hs u s :
  rep s hs →
  wp (httpd_unregister_uri max_uri_handlers true (Some u)) s (λ e s',
    ∃ hs', rep s' hs' ∧ (e, described <$> hs') = tbl_unregister u (described <$> hs) ∧
           supply s' = supply s).
Proof.
  intros Hrep. unfold httpd_unregister_uri. apply wp_bind, wp_get.
  rewrite (rep_take _ _ Hrep), (rep_drop _ _ Hrep). rewrite (rep_calls _ _ Hrep) at 1.
  apply wp_bind. eapply wp_mono; [apply unregister_all_of_spec; [by apply rep_held|by apply Hrep]|].
  intros [l j] s' (-> & -> & ->). apply wp_bind, wp_modify, wp_ret. exists (filter (λ h, uri h ≠ u) hs).
  split_and!; [| |done].
  - rewrite app_nil_r. 
    replace (0 + _ + _)%nat with (max_uri_handlers - length (filter (λ h, uri h ≠ u) hs))%nat.
    + apply (rep_kept s hs); [done|apply sublist_filter|apply filter_perm].
    + pose proof (rep_fits _ _ Hrep). pose proof (filter_lengths u hs). lia.
  - unfold tbl_unregister. rewrite !filter_described. simpl.
    destruct (filter (λ h, uri h = u) hs) as [|h l] eqn:E; [|done]. simpl in *.
    by rewrite (nothing_removed _ _ E).
Qed.

Lemma unregister_all_spec hs s :
  rep s hs →
  wp (httpd_unregister_all_uri_handlers max_uri_handlers) s (λ _ s', rep s' [] ∧ supply s' = supply s).
Proof.
  intros Hrep. unfold httpd_unregister_all_uri_handlers. apply wp_bind, wp_get.
  rewrite (rep_take _ _ Hrep), (rep_drop _ _ Hrep). rewrite (rep_calls _ _ Hrep) at 1.
  apply wp_bind. eapply wp_mono; [apply free_all_spec; [by apply rep_held|by apply Hrep]|].
  intros l s' (-> & ->). apply wp_modify. split; [|done]. rewrite app_nil_r.
  replace (length hs + _)%nat with (max_uri_handlers - 0)%nat by (pose proof (rep_fits _ _ Hrep); lia).
  apply (rep_kept s hs []); [done|apply sublist_nil_l|by rewrite app_nil_r].
Qed.

(** ** Sequences of operations *)

Context (handle_err : httpd_err_code_t → esp_err_t) (call : Z → Z → esp_err_t).

Inductive server_op : Type :=
| Register (d : httpd_uri_desc)
| UnregisterHandler (u : list Z) (m : Z)
| Unregister (u : list Z)
| UnregisterAll
| Request (req_uri : list Z) (path : option (nat * Z)) (m : Z).

Definition perform (o : server_op) : HM esp_err_t :=
  match o with
  | Register d => httpd_register_uri_handler uri_match_fn max_uri_handlers true (Some d)
  | UnregisterHandler u m => httpd_unregister_uri_handler max_uri_handlers true (Some u) m
  | Unregister u => httpd_unregister_uri max_uri_handlers true (Some u)
  | UnregisterAll => httpd_unregister_all_uri_handlers max_uri_handlers;; mret ESP_OK
  | Request r path m => httpd_uri uri_match_fn max_uri_handlers r path m handle_err call
  end.

Fixpoint perform_all (os : list server_op) : HM (list esp_err_t) :=
  match os with
  | [] => mret []
  | o :: os => e ← perform o; es ← perform_all os; mret (e :: es)
  end.

(** What a request for a path does with a table: it runs the first handler for the path
    that serves the method, and otherwise answers with 405 when the path is known and
    with 404 when it is not. *)
Definition tbl_request (t : list httpd_uri_desc) (r : list Z) (path : option (nat * Z)) (m : Z) : esp_err_t :=
  match path with
  | None => ESP_FAIL
  | Some (off, len) =>
      match tbl_find t (drop off r) len m with
      | (Some d, _) => if decide (call (d_handler d) (d_user_ctx d) = ESP_OK) then ESP_OK else ESP_FAIL
      | (None, err) => handle_err err
      end
  end.

Definition tbl_perform (o : server_op) (t : list httpd_uri_desc) : esp_err_t * list httpd_uri_desc :=
  match o with
  | Register d => tbl_register d t
  | UnregisterHandler u m => tbl_unregister_handler u m t
  | Unregister u => tbl_unregister u t
  | UnregisterAll => (ESP_OK, [])
  | Request r path m => (tbl_request t r path m, t)
  end.

Fixpoint tbl_perform_all (os : list server_op) (t : list httpd_uri_desc) : list esp_err_t * list httpd_uri_desc :=
  match os with
  | [] => ([], t)
  | o :: os => let '(e, t1) := tbl_perform o t in let '(es, t2) := tbl_perform_all os t1 in (e :: es, t2)
  end.

Lemma request_spec hs r path m s :
  rep s hs →
  wp (httpd_uri uri_match_fn max_uri_handlers r path m handle_err call) s (λ e s',
    s' = s ∧ e = tbl_request (described <$> hs) r path m).
Proof.
  intros Hrep. unfold httpd_uri, tbl_request. apply wp_bind.
  destruct path as [[off len]|]; [|by apply wp_ret, wp_ret].
  eapply wp_mono; [by apply find_spec|]. intros [h err] s' [-> Hfind].
  unfold tbl_find in *. destruct (filter _ (filter _ _)) as [|d ds].
  - destruct (filter _ _); injection Hfind as Hh ->; apply fmap_None in Hh as ->; by apply wp_ret.
  - injection Hfind as Hh ->. apply fmap_Some in Hh as (h' & -> & ->). simpl.
    destruct (decide (call _ _ = ESP_OK)) as [Hc|Hc].
    + rewrite decide_False by tauto. by apply wp_ret.
    + rewrite decide_True by done. by apply wp_ret.
Qed.

Lemma perform_spec hs o sup s :
  rep s hs → supply s = true :: true :: sup →
  wp (perform o) s (λ e s', ∃ hs', rep s' hs' ∧
    (e, described <$> hs') = tbl_perform o (described <$> hs) ∧ (supply s' = sup ∨ supply s' = supply s)).
Proof.
  intros Hrep Hsup. destruct o as [d|u m|u| |r path m]; simpl perform.
  - by apply register_spec.
  - eapply wp_mono; [by apply unregister_handler_spec|]. naive_solver.
  - eapply wp_mono; [by apply unregister_spec|]. naive_solver.
  - apply wp_bind. eapply wp_mono; [by apply (unregister_all_spec hs)|]. intros [] s' [Hr Hs].
    apply wp_ret. by exists []; auto.
  - eapply wp_mono; [by apply request_spec|]. intros e s' [-> ->]. by exists hs; auto.
Qed.

Lemma perform_all_spec os hs s :
  rep s hs → Forall (eq true) (supply s) → (2 * length os ≤ length (supply s))%nat →
  wp (perform_all os) s (λ es s', ∃ hs', rep s' hs' ∧ (es, described <$> hs') = tbl_perform_all os (described <$> hs)).
Proof.
  revert hs s. induction os as [|o os IH]; intros hs s Hrep Hall Hlen; simpl.
  { apply wp_ret. by exists hs. }
  destruct (supply s) as [|a [|b sup]] eqn:Hsup; simpl in Hlen; [lia..|].
  inversion Hall as [|? ? <- Hall1]; subst. inversion Hall1 as [|? ? <- Hall2]; subst.
  apply wp_bind. eapply wp_mono; [by apply (perform_spec hs o sup)|].
  intros e s1 (hs1 & Hrep1 & Ho & Hs1). rewrite <- Ho.
  apply wp_bind. eapply wp_mono; [apply (IH hs1 s1 Hrep1)|].
  - destruct Hs1 as [->| ->]; [done|by rewrite Hsup].
  - destruct Hs1 as [->| ->]; [lia|]. rewrite Hsup. simpl. lia.
  - intros es s2 (hs2 & Hrep2 & Hos). rewrite <- Hos. apply wp_ret. by exists hs2.
Qed.

(** C27: as long as memory lasts, every sequence of registrations, removals and requests on
    the array of handlers returns normally, without a bad access, and answers as the
    table of descriptions does. *)
Theorem uri_table_refines os hs s :
  rep s hs → Forall (eq true) (supply s) → (2 * length os ≤ length (supply s))%nat →
  ∃ s' hs', rep s' hs' ∧
    perform_all os s = Done s' (fst (tbl_perform_all os (described <$> hs))) ∧
    described <$> hs' = snd (tbl_perform_all os (described <$> hs)).
Proof.
  intros Hrep Hall Hlen. destruct (wp_done _ _ _ (perform_all_spec os hs s Hrep Hall Hlen))
    as (es & s' & Hd & hs' & Hrep' & He).
  exists s', hs'. rewrite Hd, <- He. done.
Qed.

Lemma bind_returns {A B} (m : HM A) (k : A → HM B) s s' a : m s = Done s' a → (m ≫= k) s = k a s'.
Proof. intros H. unfold mbind, M_bind. by rewrite H. Qed.

(** A request that reaches a pointer to a freed handler follows it. *)
Lemma find_loop_faults hs h l u len m err s :
  held s hs → self h ∉ live s → fst (tbl_find (described <$> hs) u len m) = None →
  find_loop uri_match_fn ((Some <$> hs) ++ Some h :: l) u len m err s = MemFault.
Proof.
  intros Hheld Hdead. unfold tbl_find. revert err. induction hs as [|h' hs IH]; intros err Hnone.
  { simpl. unfold mbind, M_bind, deref. rewrite decide_False; [done|tauto]. }
  apply held_cons in Hheld as (H1 & H2 & Hheld). specialize (IH Hheld). simpl.
  erewrite bind_returns; [|unfold deref; by rewrite decide_True].
  rewrite fmap_cons, filter_cons in Hnone. cbn [d_uri described] in Hnone.
  destruct (uri_matches _ (uri h') u len) eqn:Em.
  - rewrite decide_True, filter_cons in Hnone by done. case_decide as Es; [done|].
    apply not_true_iff_false in Es. unfold serves in Es. simpl in Es. rewrite Es. apply IH.
    repeat case_match; simplify_eq; done.
  - rewrite decide_False in Hnone by done. by apply IH.
Qed.

(** when the second allocation of a registration, the copy of the URI, fails, the
    caller is told that there is no memory, but the array keeps a pointer to the handler
    that was freed: the next request that no earlier handler serves is a bad access. *)
Theorem failed_copy_dangles d hs sup r off len m s :
  rep s hs → fst (tbl_register d (described <$> hs)) = ESP_OK →
  supply s = true :: false :: sup →
  fst (tbl_find (described <$> hs) (drop off r) len m) = None →
  ∃ s', httpd_register_uri_handler uri_match_fn max_uri_handlers true (Some d) s = Done s' ESP_ERR_HTTPD_ALLOC_MEM ∧
        httpd_uri uri_match_fn max_uri_handlers r (Some (off, len)) m handle_err call s' = MemFault.
Proof.
  intros Hrep Hok Hsup Hnone. unfold tbl_register in Hok.
  destruct (wp_done _ _ _ (find_spec hs (d_uri d) (zlen (d_uri d)) (d_method d) s Hrep))
    as ([h err] & s0 & Hf & -> & Hfind).
  rewrite <- Hfind in Hok. destruct h as [h|]; [done|]. simpl in Hok. rewrite length_fmap in Hok.
  pose proof (free_slot_spec _ _ Hrep) as Hslot.
  destruct (Nat.ltb_spec (length hs) max_uri_handlers) as [Hlt|Hge]; [|done].
  set (p := next_block s). set (dead := mkUri p 0 [] 0 0 0).
  set (s' := mkHttpd (<[length hs := Some dead]> (hd_calls s)) (({[p]} ∪ live s) ∖ {[p]}) (p + 1) sup).
  exists s'. split.
  - unfold httpd_register_uri_handler. simpl. rewrite (bind_returns _ _ _ _ _ Hf). cbv beta iota.
    erewrite bind_returns by done. rewrite Hslot.
    erewrite bind_returns by (unfold malloc; by rewrite Hsup). cbv iota.
    erewrite bind_returns by done. erewrite bind_returns by done. cbv iota.
    erewrite bind_returns; [done|]. unfold free. simpl. rewrite decide_True by set_solver. done.
  - assert (held s' hs) as Hheld.
    { intros b Hb. pose proof (rep_held _ _ Hrep b Hb). pose proof (rep_fresh _ _ Hrep b Hb).
      simpl. apply elem_of_difference. split; [set_solver|]. rewrite elem_of_singleton. subst p. lia. }
    unfold httpd_uri. unfold mbind, M_bind at 1. unfold httpd_find_uri_handler.
    erewrite bind_returns by done. 
    assert (hd_calls s' = (Some <$> hs) ++ Some dead :: replicate (max_uri_handlers - length hs - 1) None) as Hc.
    { simpl. rewrite (rep_calls _ _ Hrep).
      destruct (max_uri_handlers - length hs)%nat as [|n] eqn:E; [lia|].
      rewrite <- (length_fmap Some hs), replicate_insert_first, <- app_assoc. simpl. by rewrite Nat.sub_0_r. }
    rewrite take_ge.
    + rewrite Hc. rewrite find_loop_faults; [done|done| |done]. simpl. set_solver.
    + rewrite Hc, length_app, length_fmap. simpl. rewrite length_replicate. lia.
Qed.
End table.

(** ** Instances *)

(** A server with room for three handlers and one handler, [GET /a?]. *)
Definition slash_a : list Z := [47; 97; 63].
Definition a_handler : httpd_uri_t := mkUri 1 2 slash_a 1 7 0.
Definition a_server (sup : list bool) : httpd_data :=
  mkHttpd [Some a_handler; None; None] (list_to_set [1; 2]) 3 sup.
Definition b_desc : httpd_uri_desc := mkDesc [47; 98; 42] 1 8 0.

Lemma a_server_rep sup : rep 3 (a_server sup) [a_handler].
Proof.
  split; [done|simpl; lia| |done|].
  - repeat constructor; set_solver.
  - intros b Hb. change (blocks [a_handler]) with [1; 2] in Hb.
    rewrite !elem_of_cons in Hb. simpl. destruct Hb as [->|[->|Hb]]; [lia..|set_solver].
Qed.

(** Add [GET /b*], ask for [/bc], ask for [/a] with another method, remove [/b*], ask
    for [/bc] again. *)
Definition a_ops : list server_op :=
  [Register b_desc; Request [47; 98; 99] (Some (0%nat, 3)) 1; Request [47; 97] (Some (0%nat, 2)) 3;
   Unregister (d_uri b_desc); Request [47; 98; 99] (Some (0%nat, 3)) 1].
Definition a_err (e : httpd_err_code_t) : esp_err_t :=
  match e with
  | HTTPD_404_NOT_FOUND => ESP_ERR_OTHER 404
  | HTTPD_405_METHOD_NOT_ALLOWED => ESP_ERR_OTHER 405
  | HTTPD_500_INTERNAL_SERVER_ERROR => ESP_FAIL
  end.
Definition a_call (f ctx : Z) : esp_err_t := ESP_OK.

Lemma uri_table_refines_witness :
  ∃ s' hs', rep 3 s' hs' ∧
    perform_all (Some httpd_uri_match_wildcard) 3 a_err a_call a_ops (a_server (replicate 10 true)) =
      Done s' [ESP_OK; ESP_OK; ESP_ERR_OTHER 405; ESP_OK; ESP_ERR_OTHER 404] ∧
    described <$> hs' = [described a_handler].
Proof.
  apply (uri_table_refines (Some httpd_uri_match_wildcard) 3 a_err a_call a_ops [a_handler]
           (a_server (replicate 10 true)) (a_server_rep _)).
  - by repeat constructor.
  - simpl. lia.
Defined.

Lemma failed_copy_dangles_witness :
  ∃ s', httpd_register_uri_handler (Some httpd_uri_match_wildcard) 3 true (Some b_desc)
          (a_server [true; false]) = Done s' ESP_ERR_HTTPD_ALLOC_MEM ∧
        httpd_uri (Some httpd_uri_match_wildcard) 3 [47; 99] (Some (0%nat, 2)) 1 a_err a_call s' = MemFault.
Proof.
  apply (failed_copy_dangles (Some httpd_uri_match_wildcard) 3 a_err a_call b_desc [a_handler] []
           [47; 99] 0 2 1 (a_server [true; false]) (a_server_rep _)); vm_compute; reflexivity.
Defined.
