(* ===== verification/Pthread.v ===== *)
(** * POSIX threads: mutexes, condition variables, read-write locks

    [pthread/pthread.c] (mutexes, once), [pthread_cond_var.c], [pthread_rwlock.c] and
    [pthread_semaphore.c].  A call is a machine: its position says which step comes next,
    a step is one access to shared state, and steps of different threads interleave in any
    way.  A step that has to wait gives [None].  The mutexes and semaphores of FreeRTOS
    are primitives.  Threads are numbers. *)
From Stdlib Require Import ZArith Lia.
From stdpp Require Import base numbers option list gmap.
From S2P Require Import Prelude.

Open Scope Z_scope.

(** ** Errors *)

Definition EPERM : Z := 1.
Definition EAGAIN : Z := 11.
Definition ENOMEM : Z := 12.
Definition EBUSY : Z := 16.
Definition EINVAL : Z := 22.
Definition EDEADLK : Z := 45.
Definition ENOSYS : Z := 88.
Definition ETIMEDOUT : Z := 116.

(** ** Mutexes *)

Inductive mutex_type : Type := PTHREAD_MUTEX_NORMAL | PTHREAD_MUTEX_RECURSIVE | PTHREAD_MUTEX_ERRORCHECK.

#[export] Instance mutex_type_eq_dec : EqDecision mutex_type.
Proof. solve_decision. Defined.

(** A mutex of FreeRTOS: its holder, and how often a recursive one was taken. *)
Record sem : Type := mkSem { sem_holder : option nat; sem_depth : Z }.

Record esp_pthread_mutex_t : Type := mkMux { mux_sem : sem; mux_type : mutex_type }.

(** [*mutex]: 0, the value of a static initializer, or a pointer to a structure. *)
Inductive pthread_mutex_t : Type :=
| MUTEX_NULL
| PTHREAD_MUTEX_INITIALIZER
| Mutex (mux : esp_pthread_mutex_t).

(** The mutex, the answers of allocations to come (then they succeed), and the number of
    blocks and semaphores that are allocated. *)
Record mutex_state : Type := mkMS { the_mutex : pthread_mutex_t; ms_allocs : list bool; ms_live : Z }.

Definition MU (A : Type) : Type := M mutex_state A.

Definition put_mutex (m : pthread_mutex_t) : MU unit := modify (λ s, mkMS m (ms_allocs s) (ms_live s)).

Definition mu_alloc : MU bool := λ s,
  let ok := hd true (ms_allocs s) in
  Done (mkMS (the_mutex s) (tl (ms_allocs s)) (if ok then ms_live s + 1 else ms_live s)) ok.
Definition mu_free : MU unit := modify (λ s, mkMS (the_mutex s) (ms_allocs s) (ms_live s - 1)).

(** [xSemaphoreTake] on a mutex by [me].  [expired]: the time to wait is over; with
    [portMAX_DELAY] it never is, with a time of 0 it is at once. *)
Definition xSemaphoreTake (me : nat) (expired : bool) (m : sem) : option (bool * sem) :=
  match sem_holder m with
  | None => Some (true, mkSem (Some me) 1)
  | Some _ => if expired then Some (false, m) else None
  end.

Definition xSemaphoreTakeRecursive (me : nat) (expired : bool) (m : sem) : option (bool * sem) :=
  match sem_holder m with
  | None => Some (true, mkSem (Some me) 1)
  | Some t => if decide (t = me) then Some (true, mkSem (Some me) (sem_depth m + 1))
              else if expired then Some (false, m) else None
  end.

(** Giving: the kernel asserts that a mutex is given back by its holder, except that giving
    a free one fails.  A recursive mutex of another task is not given. *)
Definition xSemaphoreGive {S} (me : nat) (m : sem) : M S (bool * sem) :=
  match sem_holder m with
  | None => mret (false, m)
  | Some t => assertM (bool_decide (t = me));; mret (true, mkSem None 0)
  end.

Definition xSemaphoreGiveRecursive (me : nat) (m : sem) : bool * sem :=
  match sem_holder m with
  | Some t => if decide (t = me) then (true, if sem_depth m =? 1 then mkSem None 0 else mkSem (Some me) (sem_depth m - 1))
              else (false, m)
  | None => (false, m)
  end.

(** [attr]: no attributes, or whether they are initialised and their type. *)
Definition pthread_mutex_init (attr : option (bool * mutex_type)) : MU Z :=
  match attr with
  | Some (false, _) => mret EINVAL
  | _ =>
      let type := from_option snd PTHREAD_MUTEX_NORMAL attr in
      mux ← mu_alloc;
      if negb mux then mret ENOMEM else
      sem ← mu_alloc;
      if negb sem then mu_free;; mret EAGAIN else
      put_mutex (Mutex (mkMux (mkSem None 0) type));;
      mret 0
  end.

(** [pthread_mutex_lock_internal] on a structure: the result and the structure, or [None]
    while the caller waits. *)
Definition pthread_mutex_lock_internal (me : nat) (expired : bool) (mux : esp_pthread_mutex_t) : option (Z * esp_pthread_mutex_t) :=
  if bool_decide (mux_type mux = PTHREAD_MUTEX_ERRORCHECK) && bool_decide (sem_holder (mux_sem mux) = Some me) then Some (EDEADLK, mux)
  else
    match (if decide (mux_type mux = PTHREAD_MUTEX_RECURSIVE) then xSemaphoreTakeRecursive me expired (mux_sem mux)
           else xSemaphoreTake me expired (mux_sem mux)) with
    | None => None
    | Some (true, m) => Some (0, mkMux m (mux_type mux))
    | Some (false, m) => Some (EBUSY, mkMux m (mux_type mux))
    end.

Definition pthread_mutex_init_if_static : MU Z :=
  s ← get;
  match the_mutex s with
  | PTHREAD_MUTEX_INITIALIZER => pthread_mutex_init None
  | _ => mret 0
  end.

(** [pthread_mutex_lock] never expires, [pthread_mutex_trylock] at once. *)
Definition mutex_lock (me : nat) (expired : bool) : MU (option Z) :=
  res ← pthread_mutex_init_if_static;
  if negb (res =? 0) then mret (Some res) else
  s ← get;
  match the_mutex s with
  | MUTEX_NULL => mret (Some EINVAL)
  | PTHREAD_MUTEX_INITIALIZER => fault
  | Mutex mux =>
      match pthread_mutex_lock_internal me expired mux with
      | None => mret None
      | Some (r, mux) => put_mutex (Mutex mux);; mret (Some r)
      end
  end.

Definition pthread_mutex_lock (me : nat) : MU (option Z) := mutex_lock me false.
Definition pthread_mutex_trylock (me : nat) : MU (option Z) := mutex_lock me true.

(** [pthread_mutex_unlock] on a structure. *)
Definition mux_unlock {S} (me : nat) (mux : esp_pthread_mutex_t) : M S (Z * esp_pthread_mutex_t) :=
  if negb (bool_decide (mux_type mux = PTHREAD_MUTEX_NORMAL)) && negb (bool_decide (sem_holder (mux_sem mux) = Some me)) then mret (EPERM, mux)
  else
    r ← (if decide (mux_type mux = PTHREAD_MUTEX_RECURSIVE) then mret (xSemaphoreGiveRecursive me (mux_sem mux))
         else xSemaphoreGive me (mux_sem mux));
    assertM r.1;;
    mret (0, mkMux r.2 (mux_type mux)).

Definition pthread_mutex_unlock (me : nat) : MU Z :=
  s ← get;
  match the_mutex s with
  | MUTEX_NULL => mret EINVAL
  | PTHREAD_MUTEX_INITIALIZER => fault
  | Mutex mux => r ← mux_unlock me mux; put_mutex (Mutex r.2);; mret r.1
  end.

(** [pthread_mutex_destroy]; the variable keeps its value. *)
Definition pthread_mutex_destroy (me : nat) : MU Z :=
  s ← get;
  match the_mutex s with
  | MUTEX_NULL => mret EINVAL
  | PTHREAD_MUTEX_INITIALIZER => mret 0
  | Mutex mux =>
      match pthread_mutex_lock_internal me true mux with
      | None => fault
      | Some (res, mux) =>
          if res =? EBUSY then mret EBUSY else
          r ← (if decide (mux_type mux = PTHREAD_MUTEX_RECURSIVE) then mret (xSemaphoreGiveRecursive me (mux_sem mux))
               else xSemaphoreGive me (mux_sem mux));
          assertM r.1;;
          mu_free;; mu_free;;
          mret 0
      end
  end.

(** ** Times *)

Record timespec : Type := mkTS { ts_sec : Z; ts_nsec : Z }.
Record timeval : Type := mkTV { tv_sec : Z; tv_usec : Z }.

Section time.
Context (portTICK_PERIOD_MS : Z).

(** The ticks that [pthread_mutex_timedlock] waits. *)
Definition mutex_ticks (timeout currtime : timespec) : Z :=
  u32 (Z.quot (i64 ((ts_sec timeout - ts_sec currtime) * 1000 + Z.quot (ts_nsec timeout - ts_nsec currtime) 1000000)) portTICK_PERIOD_MS).

(** The ticks that [pthread_cond_timedwait] waits; [None] when it does not wait. *)
Definition cond_ticks (to : timespec) (cur_time : timeval) : option Z :=
  let abs_sec := ts_sec to in
  let abs_usec := Z.quot (ts_nsec to + 1000 - 1) 1000 in
  let timeout_msec :=
    if (if abs_sec =? tv_sec cur_time then abs_usec <? tv_usec cur_time else abs_sec <? tv_sec cur_time) then 0
    else
      let borrow := if abs_usec - tv_usec cur_time <? 0 then 1 else 0 in
      let diff_sec := abs_sec - tv_sec cur_time - borrow in
      let diff_usec := abs_usec - tv_usec cur_time + borrow * 1000000 in
      i32 (diff_sec * 1000 + Z.quot (diff_usec + 1000 - 1) 1000) in
  if timeout_msec <=? 0 then None
  else Some (u32 (u32 (timeout_msec + portTICK_PERIOD_MS - 1) / portTICK_PERIOD_MS + 1)).

(** The ticks that [sem_timedwait] waits. *)
Definition sem_ticks (abstime cur_time : timespec) : Z :=
  if (if ts_sec abstime =? ts_sec cur_time then ts_nsec abstime <? ts_nsec cur_time else ts_sec abstime <? ts_sec cur_time) then 0
  else
    let borrow := if ts_nsec abstime - ts_nsec cur_time <? 0 then 1 else 0 in
    let diff_sec := ts_sec abstime - ts_sec cur_time - borrow in
    let diff_nsec := ts_nsec abstime - ts_nsec cur_time + borrow * 1000000000 in
    let timeout_msec := i32 (diff_sec * 1000 + Z.quot (diff_nsec + 1 * 1000000 - 1) (1 * 1000000)) in
    u32 (u32 (timeout_msec + portTICK_PERIOD_MS - 1) / portTICK_PERIOD_MS + 1).
End time.

(** ** Condition variables *)

(** [*cv], with the list of waiters by their threads and the semaphore of each, which is on
    the stack of its thread: [true] after a give. *)
Inductive cv_value : Type := CV_NULL | PTHREAD_COND_INITIALIZER | CV.

Record esp_pthread_cond_t : Type := mkCond { cv : cv_value; waiter_list : list nat; wait_sem : gmap nat bool }.

(** [esp_pthread_rwlock_t].  [rw_freed]: its memory was given back. *)
Record rwlock : Type := mkRw {
  rw_cv : esp_pthread_cond_t; resource_mutex : esp_pthread_mutex_t;
  active_readers : Z; active_writers : Z; waiting_writers : Z; rw_freed : bool }.

Definition set_cv (c : esp_pthread_cond_t) (s : rwlock) : rwlock :=
  mkRw c (resource_mutex s) (active_readers s) (active_writers s) (waiting_writers s) (rw_freed s).
Definition set_mutex (m : esp_pthread_mutex_t) (s : rwlock) : rwlock :=
  mkRw (rw_cv s) m (active_readers s) (active_writers s) (waiting_writers s) (rw_freed s).
Definition set_counts (r w ww : Z) (s : rwlock) : rwlock :=
  mkRw (rw_cv s) (resource_mutex s) r w ww (rw_freed s).
Definition set_freed (s : rwlock) : rwlock :=
  mkRw (rw_cv s) (resource_mutex s) (active_readers s) (active_writers s) (waiting_writers s) true.

Definition RW (A : Type) : Type := M rwlock A.

(** Every access to the structure comes after this. *)
Definition alive : RW unit := s ← get; if rw_freed s then fault else mret ().

Definition on_cond {A} (m : M esp_pthread_cond_t A) : RW A := alive;; zoom rw_cv set_cv m.

(** [s_check_and_init_if_static], where the allocation of a static one succeeds. *)
Definition s_check_and_init_if_static : M esp_pthread_cond_t Z :=
  c ← get;
  match cv c with
  | CV_NULL => mret EINVAL
  | PTHREAD_COND_INITIALIZER => modify (λ _, mkCond CV [] ∅);; mret 0
  | CV => mret 0
  end.

(** [xSemaphoreGive] on the semaphore of a waiter; it holds at most one. *)
Definition give (t : nat) : M esp_pthread_cond_t unit :=
  c ← get;
  match wait_sem c !! t with
  | None => fault
  | Some _ => modify (λ c, mkCond (cv c) (waiter_list c) (<[t := true]> (wait_sem c)))
  end.

Fixpoint give_all (l : list nat) : M esp_pthread_cond_t unit :=
  match l with
  | [] => mret ()
  | t :: l => give t;; give_all l
  end.

Definition pthread_cond_signal : M esp_pthread_cond_t Z :=
  res ← s_check_and_init_if_static;
  if negb (res =? 0) then mret res else
  c ← get;
  match waiter_list c with
  | [] => mret 0
  | t :: _ => give t;; mret 0
  end.

Definition pthread_cond_broadcast : M esp_pthread_cond_t Z :=
  res ← s_check_and_init_if_static;
  if negb (res =? 0) then mret res else
  c ← get;
  give_all (waiter_list c);;
  mret 0.

Definition pthread_cond_destroy : M esp_pthread_cond_t Z :=
  c ← get;
  match cv c with
  | CV_NULL => mret EINVAL
  | PTHREAD_COND_INITIALIZER => mret 0
  | CV =>
      if decide (waiter_list c = []) then modify (λ c, mkCond CV_NULL (waiter_list c) (wait_sem c));; mret 0
      else mret EBUSY
  end.

(** Where a thread is in [pthread_cond_timedwait]: before it joins the list, before it
    unlocks the mutex, at its semaphore, before it leaves the list and before it locks the
    mutex again, the last two with the result. *)
Inductive wait_pc : Type :=
| W_insert | W_unlock | W_take | W_remove (ret : Z) | W_lock (ret : Z).

(** Locking and unlocking [resource_mutex]. *)
Definition lock_resource (me : nat) (expired : bool) : RW (option Z) :=
  alive;;
  s ← get;
  match pthread_mutex_lock_internal me expired (resource_mutex s) with
  | None => mret None
  | Some (r, mux) => modify (set_mutex mux);; mret (Some r)
  end.

Definition unlock_resource (me : nat) : RW Z :=
  alive;;
  s ← get;
  r ← mux_unlock me (resource_mutex s);
  modify (set_mutex r.2);;
  mret r.1.

(** A step of [pthread_cond_timedwait]: the next position, or the result.  [ticks]: [None]
    without a timeout, else what [cond_ticks] gives; [expired]: that time is over. *)
Definition cond_wait_step (me : nat) (ticks : option (option Z)) (expired : bool) (pc : wait_pc) : RW (option (wait_pc + Z)) :=
  match pc with
  | W_insert =>
      res ← on_cond s_check_and_init_if_static;
      if negb (res =? 0) then mret (Some (inr res)) else
      match ticks with
      | Some None => mret (Some (inr ETIMEDOUT))
      | _ =>
          on_cond (modify (λ c, mkCond (cv c) (waiter_list c ++ [me]) (<[me := false]> (wait_sem c))));;
          mret (Some (inl W_unlock))
      end
  | W_unlock => unlock_resource me;; mret (Some (inl W_take))
  | W_take =>
      c ← gets rw_cv;
      match wait_sem c !! me with
      | None => fault
      | Some true =>
          modify (λ s, set_cv (mkCond (cv c) (waiter_list c) (<[me := false]> (wait_sem c))) s);;
          mret (Some (inl (W_remove 0)))
      | Some false =>
          if from_option (λ _, expired) false ticks then mret (Some (inl (W_remove ETIMEDOUT))) else mret None
      end
  | W_remove ret =>
      on_cond (modify (λ c, mkCond (cv c) (filter (λ t, t ≠ me) (waiter_list c)) (delete me (wait_sem c))));;
      mret (Some (inl (W_lock ret)))
  | W_lock ret =>
      r ← lock_resource me false;
      match r with
      | None => mret None
      | Some _ => mret (Some (inr ret))
      end
  end.

(** [pthread_cond_wait] *)
Definition pthread_cond_wait (me : nat) (pc : wait_pc) : RW (option (wait_pc + Z)) := cond_wait_step me None false pc.

(** ** Read-write locks *)

Definition add_readers (n : Z) : RW unit := alive;; modify (λ s, set_counts (i8 (active_readers s + n)) (active_writers s) (waiting_writers s) s).
Definition add_writers (n : Z) : RW unit := alive;; modify (λ s, set_counts (active_readers s) (u8 (active_writers s + n)) (waiting_writers s) s).
Definition add_waiting (n : Z) : RW unit := alive;; modify (λ s, set_counts (active_readers s) (active_writers s) (u8 (waiting_writers s + n)) s).

(** [pthread_rwlock_rdlock]: at the mutex, at the first test, waiting, at the test after it,
    and before the mutex is unlocked. *)
Inductive rd_pc : Type := RD_mutex | RD_first | RD_wait (w : wait_pc) | RD_test | RD_unlock.

Definition rdlock_step (me : nat) (pc : rd_pc) : RW (option (rd_pc + Z)) :=
  match pc with
  | RD_mutex =>
      r ← lock_resource me false;
      match r with
      | None => mret None
      | Some r => if r =? 0 then mret (Some (inl RD_first)) else mret (Some (inr r))
      end
  | RD_first =>
      alive;; s ← get;
      if active_writers s =? 0 then add_readers 1;; mret (Some (inl RD_unlock))
      else mret (Some (inl (RD_wait W_insert)))
  | RD_wait w =>
      r ← pthread_cond_wait me w;
      match r with
      | None => mret None
      | Some (inl w) => mret (Some (inl (RD_wait w)))
      | Some (inr _) => mret (Some (inl RD_test))
      end
  | RD_test =>
      alive;; s ← get;
      if (active_writers s =? 0) && (waiting_writers s =? 0) then add_readers 1;; mret (Some (inl RD_unlock))
      else mret (Some (inl (RD_wait W_insert)))
  | RD_unlock => unlock_resource me;; mret (Some (inr 0))
  end.

(** [pthread_rwlock_wrlock] *)
Inductive wr_pc : Type := WR_mutex | WR_enter | WR_test | WR_wait (w : wait_pc) | WR_take | WR_unlock.

Definition wrlock_step (me : nat) (pc : wr_pc) : RW (option (wr_pc + Z)) :=
  match pc with
  | WR_mutex =>
      r ← lock_resource me false;
      match r with
      | None => mret None
      | Some r => if r =? 0 then mret (Some (inl WR_enter)) else mret (Some (inr r))
      end
  | WR_enter => add_waiting 1;; mret (Some (inl WR_test))
  | WR_test =>
      alive;; s ← get;
      if (0 <? active_readers s) || (0 <? active_writers s) then mret (Some (inl (WR_wait W_insert)))
      else mret (Some (inl WR_take))
  | WR_wait w =>
      r ← pthread_cond_wait me w;
      match r with
      | None => mret None
      | Some (inl w) => mret (Some (inl (WR_wait w)))
      | Some (inr _) => mret (Some (inl WR_test))
      end
  | WR_take => add_waiting (-1);; add_writers 1;; mret (Some (inl WR_unlock))
  | WR_unlock => unlock_resource me;; mret (Some (inr 0))
  end.

(** [pthread_rwlock_tryrdlock] and [pthread_rwlock_trywrlock]: at the mutex, at the test,
    and with the result before the mutex is unlocked. *)
Inductive try_pc : Type := TRY_mutex | TRY_test | TRY_unlock (res : Z).

Definition try_step (me : nat) (test : RW Z) (pc : try_pc) : RW (option (try_pc + Z)) :=
  match pc with
  | TRY_mutex =>
      r ← lock_resource me true;
      match r with
      | None => mret None
      | Some r => if r =? 0 then mret (Some (inl TRY_test)) else mret (Some (inr r))
      end
  | TRY_test => res ← test; mret (Some (inl (TRY_unlock res)))
  | TRY_unlock res => unlock_resource me;; mret (Some (inr res))
  end.

Definition tryrdlock_step (me : nat) : try_pc → RW (option (try_pc + Z)) :=
  try_step me (alive;; s ← get; if active_writers s =? 0 then add_readers 1;; mret 0 else mret EBUSY).

Definition trywrlock_step (me : nat) : try_pc → RW (option (try_pc + Z)) :=
  try_step me (alive;; s ← get;
    if (0 <? active_readers s) || (0 <? active_writers s) || (0 <? waiting_writers s) then mret EBUSY
    else add_writers 1;; mret 0).

(** [pthread_rwlock_unlock] *)
Inductive ul_pc : Type := UL_mutex | UL_leave | UL_broadcast | UL_unlock.

Definition unlock_step (me : nat) (pc : ul_pc) : RW (option (ul_pc + Z)) :=
  match pc with
  | UL_mutex =>
      r ← lock_resource me false;
      match r with
      | None => mret None
      | Some r => if r =? 0 then mret (Some (inl UL_leave)) else mret (Some (inr r))
      end
  | UL_leave =>
      alive;; s ← get;
      assertM (negb ((0 <? active_readers s) && (0 <? active_writers s)));;
      if 0 <? active_readers s then
        add_readers (-1);;
        s ← get;
        if active_readers s =? 0 then mret (Some (inl UL_broadcast)) else mret (Some (inl UL_unlock))
      else
        modify (λ s, set_counts (active_readers s) 0 (waiting_writers s) s);;
        mret (Some (inl UL_broadcast))
  | UL_broadcast => on_cond pthread_cond_broadcast;; mret (Some (inl UL_unlock))
  | UL_unlock => unlock_resource me;; mret (Some (inr 0))
  end.

(** [pthread_rwlock_destroy] of an initialised lock.  The results of destroying the
    condition variable and the mutex are not looked at; the mutex and the structure go in
    one step. *)
Inductive ds_pc : Type := DS_mutex | DS_test | DS_busy | DS_cond | DS_unlock | DS_free.

Definition destroy_step (me : nat) (pc : ds_pc) : RW (option (ds_pc + Z)) :=
  match pc with
  | DS_mutex =>
      r ← lock_resource me false;
      match r with None => mret None | Some _ => mret (Some (inl DS_test)) end
  | DS_test =>
      alive;; s ← get;
      if negb (active_readers s =? 0) || (0 <? active_writers s) || (0 <? waiting_writers s)
      then mret (Some (inl DS_busy)) else mret (Some (inl DS_cond))
  | DS_busy => unlock_resource me;; mret (Some (inr EBUSY))
  | DS_cond => on_cond pthread_cond_destroy;; mret (Some (inl DS_unlock))
  | DS_unlock => unlock_resource me;; mret (Some (inl DS_free))
  | DS_free => alive;; modify set_freed;; mret (Some (inr 0))
  end.

(** [pthread_rwlock_init]: the answers of allocations to come and the number of blocks and
    semaphores allocated; the result and the lock. *)
Record init_state : Type := mkIS { is_allocs : list bool; is_live : Z }.

Definition is_alloc : M init_state bool := λ s,
  let ok := hd true (is_allocs s) in
  Done (mkIS (tl (is_allocs s)) (if ok then is_live s + 1 else is_live s)) ok.
Definition is_free : M init_state unit := modify (λ s, mkIS (is_allocs s) (is_live s - 1)).

(** [pthread_mutex_init] and [pthread_cond_init] as this function calls them. *)
Definition init_mutex : M init_state (Z * option esp_pthread_mutex_t) := λ s,
  match pthread_mutex_init None (mkMS MUTEX_NULL (is_allocs s) (is_live s)) with
  | Done t r => Done (mkIS (ms_allocs t) (ms_live t)) (r, match the_mutex t with Mutex m => Some m | _ => None end)
  | AssertFailed => AssertFailed | MemFault => MemFault | OutOfFuel => OutOfFuel
  end.

Definition pthread_cond_init : M init_state (Z * option esp_pthread_cond_t) :=
  cond ← is_alloc;
  if negb cond then mret (ENOMEM, None) else mret (0, Some (mkCond CV [] ∅)).

Definition pthread_rwlock_init (has_attr : bool) : M init_state (Z * option rwlock) :=
  if has_attr then mret (ENOSYS, None) else
  esp_rwlock ← is_alloc;
  if negb esp_rwlock then mret (ENOMEM, None) else
  m ← init_mutex;
  match m with
  | (0, Some mux) =>
      c ← pthread_cond_init;
      match c with
      | (0, Some cond) => mret (0, Some (mkRw cond mux 0 0 0 false))
      | _ => is_free;; is_free;; is_free;; mret (ENOMEM, None)
      end
  | _ => is_free;; mret (ENOMEM, None)
  end.

(** What it makes when memory suffices. *)
Definition rwlock_new : rwlock :=
  mkRw (mkCond CV [] ∅) (mkMux (mkSem None 0) PTHREAD_MUTEX_NORMAL) 0 0 0 false.

(** ** [pthread_once] *)

(** The control block and how often the routine was started and has ended. *)
Record once_state : Type := mkOnce { is_initialized : bool; init_executed : bool; routines_begun : Z; routines_ended : Z }.

(** At the compare-and-set, and in the routine. *)
Inductive once_pc : Type := ONCE_cas | ONCE_routine.

Definition once_step (pc : once_pc) : M once_state (once_pc + Z) :=
  match pc with
  | ONCE_cas =>
      s ← get;
      if negb (is_initialized s) then mret (inr EINVAL) else
      if negb (init_executed s) then
        modify (λ s, mkOnce (is_initialized s) true (routines_begun s + 1) (routines_ended s));;
        mret (inl ONCE_routine)
      else mret (inr 0)
  | ONCE_routine =>
      modify (λ s, mkOnce (is_initialized s) (init_executed s) (routines_begun s) (routines_ended s + 1));;
      mret (inr 0)
  end.

(** ** Semaphores *)

Definition SEM_VALUE_MAX : Z := 0x7FFF.
Definition ENOSPC : Z := 28.

(** The semaphore of FreeRTOS behind a [sem_t], [errno] and the answers of allocations. *)
Record sem_state : Type := mkSS { sem_count : option Z; errno : Z; ss_allocs : list bool }.

Definition sem_fail (e : Z) : M sem_state Z := modify (λ s, mkSS (sem_count s) e (ss_allocs s));; mret (-1).
Definition set_count (n : option Z) : M sem_state unit := modify (λ s, mkSS n (errno s) (ss_allocs s)).

(** The semaphore must exist. *)
Definition count_of : M sem_state Z := s ← get; match sem_count s with Some n => mret n | None => fault end.

Definition sem_init (value : Z) : M sem_state Z :=
  if SEM_VALUE_MAX <? value then sem_fail EINVAL else
  s ← get;
  modify (λ s, mkSS (sem_count s) (errno s) (tl (ss_allocs s)));;
  if hd true (ss_allocs s) then set_count (Some value);; mret 0 else sem_fail ENOSPC.

Definition sem_destroy : M sem_state Z := count_of;; set_count None;; mret 0.

Definition sem_post : M sem_state Z :=
  n ← count_of;
  if n <? SEM_VALUE_MAX then set_count (Some (n + 1));; mret 0 else sem_fail EAGAIN.

(** [xSemaphoreTake]: [None] while the caller waits. *)
Definition sem_take (expired : bool) : M sem_state (option bool) :=
  n ← count_of;
  if 0 <? n then set_count (Some (n - 1));; mret (Some true)
  else if expired then mret (Some false) else mret None.

Definition sem_wait : M sem_state (option Z) :=
  r ← sem_take false; mret (match r with None => None | Some _ => Some 0 end).

Definition sem_trywait : M sem_state Z :=
  r ← sem_take true;
  match r with Some true => mret 0 | _ => sem_fail EAGAIN end.

(** [expired]: the ticks that [sem_ticks] gives are over. *)
Definition sem_timedwait (abstime : option timespec) (expired : bool) : M sem_state (option Z) :=
  match abstime with
  | None => e ← sem_fail EINVAL; mret (Some e)
  | Some ts =>
      if (1000000000 <=? ts_nsec ts) || (ts_nsec ts <? 0) then e ← sem_fail EINVAL; mret (Some e) else
      r ← sem_take expired;
      match r with
      | None => mret None
      | Some true => mret (Some 0)
      | Some false => e ← sem_fail ETIMEDOUT; mret (Some e)
      end
  end.

Definition sem_getvalue : M sem_state (Z * Z) := n ← count_of; mret (0, n).
