(* ===== verification/PthreadLock.v ===== *)
(** * Read-write locks: threads that interleave

    Any number of threads lock and unlock one read-write lock; a step of the system is a
    step of one of them.  The invariant of all reachable states gives mutual exclusion, the
    absence of failed assertions and of bad accesses, and that no wake-up is lost. *)
From Stdlib Require Import ZArith Lia.
From stdpp Require Import base numbers option list gmap relations.
From S2P Require Import Prelude Pthread.

Open Scope Z_scope.

(** ** The system *)

Inductive call : Type :=
| Rdlock (pc : rd_pc) | Tryrdlock (pc : try_pc) | Wrlock (pc : wr_pc) | Trywrlock (pc : try_pc) | Unlock (pc : ul_pc).

Definition next {P Q : Type} (f : P → Q) (r : option (P + Z)) : option (Q + Z) :=
  match r with
  | None => None
  | Some (inl p) => Some (inl (f p))
  | Some (inr z) => Some (inr z)
  end.

(** A step of a call by the thread [me]. *)
Definition call_step (me : nat) (c : call) : RW (option (call + Z)) :=
  match c with
  | Rdlock pc => r ← rdlock_step me pc; mret (next Rdlock r)
  | Tryrdlock pc => r ← tryrdlock_step me pc; mret (next Tryrdlock r)
  | Wrlock pc => r ← wrlock_step me pc; mret (next Wrlock r)
  | Trywrlock pc => r ← trywrlock_step me pc; mret (next Trywrlock r)
  | Unlock pc => r ← unlock_step me pc; mret (next Unlock r)
  end.

(** What a thread holds after its calls so far, and the call it is in. *)
Inductive hold : Type := Nothing | Reading | Writing.

#[export] Instance hold_eq_dec : EqDecision hold.
Proof. solve_decision. Defined.

Record thread : Type := mkThread { holds : hold; doing : option call }.

Record sys : Type := mkSys { lock : rwlock; threads : list thread }.

(** A thread locks when it holds nothing, and unlocks when it holds the lock. *)
Inductive begins : hold → call → Prop :=
| begin_rd : begins Nothing (Rdlock RD_mutex)
| begin_tryrd : begins Nothing (Tryrdlock TRY_mutex)
| begin_wr : begins Nothing (Wrlock WR_mutex)
| begin_trywr : begins Nothing (Trywrlock TRY_mutex)
| begin_unlock h : h ≠ Nothing → begins h (Unlock UL_mutex).

Definition held_after (c : call) (r : Z) (h : hold) : hold :=
  if negb (r =? 0) then h else
  match c with
  | Rdlock _ | Tryrdlock _ => Reading
  | Wrlock _ | Trywrlock _ => Writing
  | Unlock _ => Nothing
  end.

Inductive step : sys → sys → Prop :=
| step_begin s t h c :
    threads s !! t = Some (mkThread h None) → begins h c →
    step s (mkSys (lock s) (<[t := mkThread h (Some c)]> (threads s)))
| step_go s t h c l c' :
    threads s !! t = Some (mkThread h (Some c)) → call_step t c (lock s) = Done l (Some (inl c')) →
    step s (mkSys l (<[t := mkThread h (Some c')]> (threads s)))
| step_return s t h c l r :
    threads s !! t = Some (mkThread h (Some c)) → call_step t c (lock s) = Done l (Some (inr r)) →
    step s (mkSys l (<[t := mkThread (held_after c r h) None]> (threads s))).

(** [n] threads that have not done anything yet. *)
Definition start (n : nat) : sys := mkSys rwlock_new (replicate n (mkThread Nothing None)).

Definition reachable (n : nat) (s : sys) : Prop := rtc step (start n) s.

(** ** Where a thread is *)

Definition waits_in (w : wait_pc) : bool := match w with W_unlock | W_take | W_remove _ => true | _ => false end.
Definition wait_inside (w : wait_pc) : bool := match w with W_insert | W_unlock => true | _ => false end.

(** It holds [resource_mutex]. *)
Definition inside (c : call) : bool :=
  match c with
  | Rdlock (RD_wait w) | Wrlock (WR_wait w) => wait_inside w
  | Rdlock RD_mutex | Wrlock WR_mutex | Tryrdlock TRY_mutex | Trywrlock TRY_mutex | Unlock UL_mutex => false
  | _ => true
  end.

(** It is on the list of waiters. *)
Definition listed (c : call) : bool :=
  match c with
  | Rdlock (RD_wait w) | Wrlock (WR_wait w) => waits_in w
  | _ => false
  end.

Definition does (p : call → bool) (th : thread) : bool := from_option p false (doing th).

(** It counts in [active_readers], [active_writers] and [waiting_writers]. *)
Definition reads (th : thread) : nat :=
  match doing th with
  | Some (Rdlock RD_unlock) | Some (Tryrdlock (TRY_unlock 0)) => 1
  | Some (Unlock UL_broadcast) | Some (Unlock UL_unlock) => 0
  | _ => match holds th with Reading => 1 | _ => 0 end
  end.

Definition writes (th : thread) : nat :=
  match doing th with
  | Some (Wrlock WR_unlock) | Some (Trywrlock (TRY_unlock 0)) => 1
  | Some (Unlock UL_broadcast) | Some (Unlock UL_unlock) => 0
  | _ => match holds th with Writing => 1 | _ => 0 end
  end.

Definition queues (th : thread) : nat :=
  match doing th with
  | Some (Wrlock WR_test) | Some (Wrlock (WR_wait _)) | Some (Wrlock WR_take) => 1
  | _ => 0
  end.

Definition total (f : thread → nat) (l : list thread) : Z := Z.of_nat (sum_list_with f l).

(** It is about to wake the waiters. *)
Definition broadcasts (th : thread) : Prop := doing th = Some (Unlock UL_broadcast).

(** What the thread has seen of the lock since it got the mutex, or why it waits. *)
Definition readers_wait (l : rwlock) : Prop := 0 < active_writers l ∨ 0 < waiting_writers l.
Definition writers_wait (l : rwlock) : Prop := 0 < active_readers l ∨ 0 < active_writers l.

Definition seen (l : rwlock) (c : call) : Prop :=
  match c with
  | Rdlock (RD_wait W_insert) => readers_wait l
  | Wrlock (WR_wait W_insert) => writers_wait l
  | Wrlock WR_take => ¬ writers_wait l
  | _ => True
  end.

Definition proper (th : thread) : Prop :=
  match doing th with
  | None => True
  | Some (Unlock _) => holds th ≠ Nothing
  | Some _ => holds th = Nothing
  end.

(** It sleeps, or is about to, and the reason for that. *)
Definition sleeps (c : call) : bool :=
  match c with
  | Rdlock (RD_wait W_unlock) | Rdlock (RD_wait W_take) | Wrlock (WR_wait W_unlock) | Wrlock (WR_wait W_take) => true
  | _ => false
  end.

Definition reason (l : rwlock) (c : call) : Prop :=
  match c with
  | Rdlock _ => readers_wait l
  | Wrlock _ => writers_wait l
  | _ => True
  end.

Abbreviation holder l := (sem_holder (mux_sem (resource_mutex l))).
Abbreviation waiters l := (waiter_list (rw_cv l)).
Abbreviation sems l := (wait_sem (rw_cv l)).

(** ** The invariant *)

(** What holds of the lock by itself. *)
Record fit (l : rwlock) : Prop := mkFit {
  f_freed : rw_freed l = false;
  f_type : mux_type (resource_mutex l) = PTHREAD_MUTEX_NORMAL;
  f_cv : cv (rw_cv l) = CV }.

Record inv (s : sys) : Prop := mkInv {
  i_fit : fit (lock s);
  i_readers : active_readers (lock s) = total reads (threads s);
  i_writers : active_writers (lock s) = total writes (threads s);
  i_waiting : waiting_writers (lock s) = total queues (threads s);
  i_excl : total writes (threads s) ≤ 1 ∧ (0 < total writes (threads s) → total reads (threads s) = 0);
  i_holder t : holder (lock s) = Some t → ∃ th, threads s !! t = Some th ∧ does inside th = true;
  i_inside t th : threads s !! t = Some th → does inside th = true → holder (lock s) = Some t;
  i_proper t th : threads s !! t = Some th → proper th;
  i_seen t th c : threads s !! t = Some th → doing th = Some c → seen (lock s) c;
  i_listed t : t ∈ waiters (lock s) → is_Some (sems (lock s) !! t);
  i_sems t : is_Some (sems (lock s) !! t) ↔ ∃ th, threads s !! t = Some th ∧ does listed th = true;
  i_in_list t th : threads s !! t = Some th → does listed th = true → t ∈ waiters (lock s);
  i_wake t th c : threads s !! t = Some th → doing th = Some c → sleeps c = true → sems (lock s) !! t = Some false →
    reason (lock s) c ∨ ∃ u tu, threads s !! u = Some tu ∧ broadcasts tu }.

(** The thread [t] moves from [th] to [th'] and the lock becomes [l']. *)
Record moved (t : nat) (l l' : rwlock) (th th' : thread) : Prop := mkMoved {
  m_fit : fit l';
  m_readers : active_readers l' = active_readers l - Z.of_nat (reads th) + Z.of_nat (reads th');
  m_writers : active_writers l' = active_writers l - Z.of_nat (writes th) + Z.of_nat (writes th');
  m_waiting : waiting_writers l' = waiting_writers l - Z.of_nat (queues th) + Z.of_nat (queues th');
  m_excl : active_writers l' ≤ 1 ∧ (0 < active_writers l' → active_readers l' = 0);
  m_holder : holder l' = if does inside th' then Some t else if does inside th then None else holder l;
  m_locked : does inside th' = true → does inside th = true ∨ holder l = None;
  m_proper : proper th';
  m_seen c : doing th' = Some c → seen l' c;
  m_others : does inside th = true ∨
    active_readers l' = active_readers l ∧ active_writers l' = active_writers l ∧ waiting_writers l' = waiting_writers l;
  m_sems u : u ≠ t → is_Some (sems l' !! u) ↔ is_Some (sems l !! u);
  m_list u : u ≠ t → u ∈ waiters l' ↔ u ∈ waiters l;
  m_mine : (is_Some (sems l' !! t) ↔ does listed th' = true) ∧ (t ∈ waiters l' ↔ does listed th' = true);
  m_asleep u : u ≠ t → sems l' !! u = Some false → sems l !! u = Some false ∧ (u ∈ waiters l → ¬ broadcasts th);
  m_reason c : doing th' = Some c → sleeps c = true → sems l' !! t = Some false → reason l' c;
  m_readers_wait : readers_wait l → readers_wait l' ∨ broadcasts th';
  m_writers_wait : writers_wait l → writers_wait l' ∨ broadcasts th' }.

Lemma sum_insert (f : thread → nat) t th th' l : l !! t = Some th →
  (sum_list_with f (<[t := th']> l) + f th = sum_list_with f l + f th')%nat.
Proof.
  revert t. induction l as [|x l IH]; intros [|t] Hl; [done|done|injection Hl as ->; simpl; lia|].
  specialize (IH t Hl). simpl in *. lia.
Qed.

Lemma total_insert (f : thread → nat) t th th' l : l !! t = Some th →
  total f (<[t := th']> l) = total f l - Z.of_nat (f th) + Z.of_nat (f th').
Proof. intros Hl. unfold total. pose proof (sum_insert f t th th' l Hl). lia. Qed.

Lemma seen_same l l' c : active_readers l' = active_readers l → active_writers l' = active_writers l → waiting_writers l' = waiting_writers l →
  seen l c → seen l' c.
Proof. intros H1 H2 H3. unfold seen, readers_wait, writers_wait. by rewrite H1, H2, H3. Qed.

Lemma seen_outside l c : inside c = false → seen l c.
Proof. by destruct c as [[]| |[]| |]; cbn; try done; destruct w. Qed.

Lemma listed_wait th : does listed th = true → ∃ c, doing th = Some c ∧ listed c = true.
Proof. unfold does. destruct (doing th) as [c|]; [eauto|done]. Qed.

Lemma inv_moved s t th th' l' : inv s → threads s !! t = Some th → moved t (lock s) l' th th' →
  inv (mkSys l' (<[t := th']> (threads s))).
Proof.
  intros I Ht Mv. pose proof (lookup_lt_Some _ _ _ Ht) as Hlt.
  assert (∀ u x, <[t := th']> (threads s) !! u = Some x → u = t ∧ x = th' ∨ u ≠ t ∧ threads s !! u = Some x) as Hin.
  { intros u x Hx. destruct (decide (u = t)) as [->|]; [|by rewrite list_lookup_insert_ne in Hx by done; right].
    rewrite list_lookup_insert_eq in Hx by done. injection Hx as <-. by left. }
  assert (<[t := th']> (threads s) !! t = Some th') as Hme by (by apply list_lookup_insert_eq).
  assert (∀ u, u ≠ t → <[t := th']> (threads s) !! u = threads s !! u) as Hot by (intros; by apply list_lookup_insert_ne).
  assert (∀ u x, u ≠ t → threads s !! u = Some x → does inside x = true → does inside th = false ∧ holder (lock s) = Some u) as Hone.
  { intros u x Hu Hx Hi. pose proof (i_inside s I u x Hx Hi) as Hh. split; [|done]. destruct (does inside th) eqn:E; [|done].
    rewrite (i_inside s I t th Ht E) in Hh. congruence. }
  split; cbn [lock threads].
  - apply Mv.
  - rewrite (total_insert reads t th th') by done. rewrite (m_readers _ _ _ _ _ Mv). by rewrite (i_readers s I).
  - rewrite (total_insert writes t th th') by done. rewrite (m_writers _ _ _ _ _ Mv). by rewrite (i_writers s I).
  - rewrite (total_insert queues t th th') by done. rewrite (m_waiting _ _ _ _ _ Mv). by rewrite (i_waiting s I).
  - rewrite (total_insert writes t th th'), (total_insert reads t th th') by done.
    pose proof (m_excl _ _ _ _ _ Mv) as He. rewrite (m_writers _ _ _ _ _ Mv), (m_readers _ _ _ _ _ Mv), (i_writers s I), (i_readers s I) in He. done.
  - intros u Hu. rewrite (m_holder _ _ _ _ _ Mv) in Hu. destruct (does inside th') eqn:E'; [injection Hu as <-; eauto|].
    destruct (does inside th) eqn:E; [done|]. destruct (i_holder s I u Hu) as (x & Hx & Hi). exists x. rewrite Hot; [done|]. intros ->. congruence.
  - intros u x Hx Hi. rewrite (m_holder _ _ _ _ _ Mv). destruct (Hin u x Hx) as [[-> ->]|[Hu Hx']]; [by rewrite Hi|].
    destruct (Hone u x Hu Hx' Hi) as [E Hh]. rewrite E. destruct (does inside th') eqn:E'; [|done].
    destruct (m_locked _ _ _ _ _ Mv E'); congruence.
  - intros u x Hx. destruct (Hin u x Hx) as [[-> ->]|[Hu Hx']]; [apply Mv|by eapply (i_proper s I)].
  - intros u x c Hx Hc. destruct (Hin u x Hx) as [[-> ->]|[Hu Hx']]; [by apply (m_seen _ _ _ _ _ Mv)|].
    destruct (inside c) eqn:Ei; [|by apply seen_outside]. destruct (m_others _ _ _ _ _ Mv) as [Hi|(H1 & H2 & H3)].
    + assert (does inside x = true) as Hix by (unfold does; by rewrite Hc). destruct (Hone u x Hu Hx' Hix). congruence.
    + eapply seen_same; [done..|]. by eapply (i_seen s I).
  - intros u Hu. destruct (decide (u = t)) as [->|Hne].
    + apply (m_mine _ _ _ _ _ Mv). by apply (m_mine _ _ _ _ _ Mv).
    + apply (m_sems _ _ _ _ _ Mv); [done|]. apply (i_listed s I). by apply (m_list _ _ _ _ _ Mv).
  - intros u. destruct (decide (u = t)) as [->|Hne].
    + rewrite (proj1 (m_mine _ _ _ _ _ Mv)), Hme. split; [eauto|]. by intros (x & [= <-] & ?).
    + rewrite (m_sems _ _ _ _ _ Mv), Hot by done. apply (i_sems s I).
  - intros u x Hx Hl. destruct (Hin u x Hx) as [[-> ->]|[Hu Hx']]; [by apply (m_mine _ _ _ _ _ Mv)|].
    apply (m_list _ _ _ _ _ Mv); [done|]. by eapply (i_in_list s I).
  - intros u x c Hx Hc Hs Hf. destruct (Hin u x Hx) as [[-> ->]|[Hu Hx']]; [left; by apply (m_reason _ _ _ _ _ Mv)|].
    destruct (m_asleep _ _ _ _ _ Mv u Hu Hf) as [Hf0 Hb].
    assert (u ∈ waiters (lock s)) as Hul.
    { eapply (i_in_list s I); [done|]. unfold does. rewrite Hc. by destruct c as [[]| |[]| |]; cbn in *; try done; destruct w. }
    destruct (i_wake s I u x c Hx' Hc Hs Hf0) as [Hr|(v & tv & Hv & Hbv)].
    + assert (reason l' c ∨ broadcasts th') as [?|?]; [|by left|right; by exists t, th'].
      destruct c; cbn in *; try (by left); [by apply (m_readers_wait _ _ _ _ _ Mv)|by apply (m_writers_wait _ _ _ _ _ Mv)].
    + destruct (decide (v = t)) as [->|Hv']; [|right; exists v, tv; by rewrite Hot].
      rewrite Ht in Hv. injection Hv as <-. by destruct (Hb Hul).
Qed.

(** ** The steps keep it *)

Definition with_holder (o : option nat) (l : rwlock) : rwlock :=
  set_mutex (mkMux (mkSem o (match o with Some _ => 1 | None => 0 end)) (mux_type (resource_mutex l))) l.

Lemma fit_holder o l : fit l → fit (with_holder o l).
Proof. by intros [H1 H2 H3]. Qed.

Lemma lock_free t b l : fit l → holder l = None → lock_resource t b l = Done (with_holder (Some t) l) (Some 0).
Proof. intros [Hf Ht _] Hh. destruct l as [c [[o d] ty] r w ww fr]. cbn in *. by subst. Qed.

Lemma lock_taken t b u l : fit l → holder l = Some u → lock_resource t b l = Done l (if b then Some EBUSY else None).
Proof. intros [Hf Ht _] Hh. destruct l as [c [[o d] ty] r w ww fr]. cbn in *. subst. by destruct b. Qed.

Lemma unlock_held t l : fit l → holder l = Some t → unlock_resource t l = Done (with_holder None l) 0.
Proof.
  intros [Hf Ht _] Hh. destruct l as [c [[o d] ty] r w ww fr]. cbn in *. subst.
  cbv -[bool_decide]. rewrite (bool_decide_eq_true_2 (PTHREAD_MUTEX_NORMAL = _)) by done. by rewrite (bool_decide_eq_true_2 (t = t)).
Qed.

(** Giving to all of a list. *)
Lemma give_all_ok ts c : (∀ t, t ∈ ts → is_Some (wait_sem c !! t)) →
  ∃ m, give_all ts c = Done (mkCond (cv c) (waiter_list c) m) () ∧
    (∀ t, is_Some (m !! t) ↔ is_Some (wait_sem c !! t)) ∧ (∀ t, t ∈ ts → m !! t = Some true) ∧
    (∀ t, m !! t = Some false → wait_sem c !! t = Some false).
Proof.
  revert c. induction ts as [|t ts IH]; intros c Hin; cbn [give_all].
  - exists (wait_sem c). split; [by destruct c|]. split_and!; [done| |done]. by intros t Ht%not_elem_of_nil.
  - destruct (Hin t) as [b Hb]; [by left|]. unfold give, mbind, M_bind, get. rewrite Hb. cbn.
    set (c1 := mkCond (cv c) (waiter_list c) (<[t := true]> (wait_sem c))).
    assert (∀ u, is_Some (wait_sem c1 !! u) ↔ is_Some (wait_sem c !! u)) as H1.
    { intros u. cbn. destruct (decide (u = t)) as [->|]; [rewrite lookup_insert_eq, Hb; split; eauto|by rewrite lookup_insert_ne]. }
    destruct (IH c1) as (m & -> & Hs & Ht & Hf); [intros u Hu; apply H1, Hin; by right|].
    exists m. split; [done|]. split_and!.
    + intros u. by rewrite Hs, H1.
    + intros u [->|Hu]%elem_of_cons; [|by apply Ht]. destruct (proj2 (Hs t)) as [[] Hm]; [by rewrite H1, Hb|done|].
      apply Hf in Hm. cbn in Hm. by rewrite lookup_insert_eq in Hm.
    + intros u Hu%Hf. cbn in Hu. destruct (decide (u = t)) as [->|]; [by rewrite lookup_insert_eq in Hu|by rewrite lookup_insert_ne in Hu].
Qed.

Lemma u8_small z : 0 ≤ z < 256 → u8 z = z.
Proof. intros. unfold u8. by rewrite Z.mod_small. Qed.

Lemma total_bound (f : thread → nat) l : (∀ th, (f th ≤ 1)%nat) → 0 ≤ total f l ≤ zlen l.
Proof.
  intros Hf. unfold total, zlen. split; [lia|]. apply inj_le. induction l as [|th l IH]; simpl; [lia|]. specialize (Hf th). lia.
Qed.

Lemma total_ge (f : thread → nat) l t th : l !! t = Some th → Z.of_nat (f th) ≤ total f l.
Proof.
  unfold total. intros Ht. apply inj_le. revert t Ht. induction l as [|x l IH]; intros [|t] Ht; simpl; [done..|injection Ht as ->; lia|].
  specialize (IH t Ht). lia.
Qed.

Lemma total_room (f : thread → nat) l t th : (∀ x, (f x ≤ 1)%nat) → l !! t = Some th → total f l + 1 ≤ zlen l + Z.of_nat (f th).
Proof.
  intros Hf. unfold total, zlen. intros Ht. enough (sum_list_with f l + 1 ≤ length l + f th)%nat by lia.
  revert t Ht. induction l as [|x l IH]; intros [|t] Ht; simpl; [done|done|injection Ht as ->|].
  - pose proof (total_bound f l Hf) as Hb. unfold total, zlen in Hb. lia.
  - specialize (IH t Ht). specialize (Hf x). lia.
Qed.

Lemma total_two (f : thread → nat) l t th u tu : f (mkThread Nothing None) = 0%nat → l !! t = Some th → l !! u = Some tu → t ≠ u →
  Z.of_nat (f th) + Z.of_nat (f tu) ≤ total f l.
Proof.
  intros Hf Ht Hu Hne. pose proof (total_insert f t th (mkThread Nothing None) l Ht) as He.
  assert (<[t := mkThread Nothing None]> l !! u = Some tu) as Hu' by (by rewrite list_lookup_insert_ne).
  pose proof (total_ge f _ u tu Hu'). rewrite Hf in He. lia.
Qed.

(** Goals on what is seen of the counters. *)
Ltac counting := intros; unfold readers_wait, writers_wait in *; cbn in *;
  first [done | lia | by simplify_eq/= | left; lia | by right].

Section moves.
Context (s : sys) (I : inv s) (few : (length (threads s) ≤ 127)%nat).
Context (t : nat) (h : hold) (c : call) (Ht : threads s !! t = Some (mkThread h (Some c))).
Abbreviation l := (lock s).
Abbreviation th := (mkThread h (Some c)).

Lemma mine : (is_Some (sems l !! t) ↔ does listed th = true) ∧ (t ∈ waiters l ↔ does listed th = true).
Proof.
  assert (is_Some (sems l !! t) ↔ does listed th = true) as H1.
  { rewrite (i_sems s I). rewrite Ht. split; [by intros (x & [= <-] & ?)|eauto]. }
  split; [done|]. split; [intros Hl%(i_listed s I); by apply H1|by apply (i_in_list s I)].
Qed.

Lemma excl : active_writers l ≤ 1 ∧ (0 < active_writers l → active_readers l = 0).
Proof. rewrite (i_writers s I), (i_readers s I). apply (i_excl s I). Qed.

Lemma counts : 0 ≤ active_readers l ≤ 127 ∧ 0 ≤ active_writers l ≤ 1 ∧ 0 ≤ waiting_writers l ≤ 127.
Proof.
  rewrite (i_writers s I), (i_readers s I), (i_waiting s I). pose proof (i_excl s I) as [Hw _].
  assert (∀ f : thread → nat, (∀ x, (f x ≤ 1)%nat) → 0 ≤ total f (threads s) ≤ 127) as Hb.
  { intros f Hf. pose proof (total_bound f (threads s) Hf). unfold zlen in *. lia. }
  split_and!; try (apply Hb; intros x; unfold reads, writes, queues; repeat case_match; lia); try lia.
Qed.

Lemma my_counts : Z.of_nat (reads th) ≤ active_readers l ∧ Z.of_nat (writes th) ≤ active_writers l ∧ Z.of_nat (queues th) ≤ waiting_writers l.
Proof. rewrite (i_writers s I), (i_readers s I), (i_waiting s I). split_and!; by eapply total_ge. Qed.

Lemma my_room : active_readers l ≤ 126 + Z.of_nat (reads th) ∧ waiting_writers l ≤ 126 + Z.of_nat (queues th).
Proof.
  rewrite (i_readers s I), (i_waiting s I).
  assert (∀ x, (reads x ≤ 1)%nat) as Hr by (intros x; unfold reads; repeat case_match; lia).
  assert (∀ x, (queues x ≤ 1)%nat) as Hq by (intros x; unfold queues; repeat case_match; lia).
  pose proof (total_room reads (threads s) t th Hr Ht). pose proof (total_room queues (threads s) t th Hq Ht). unfold zlen in *. lia.
Qed.

(** A thread inside that wakes others is the only one there. *)
Lemma nobody_else u tu : inside c = true → threads s !! u = Some tu → broadcasts tu → c = Unlock UL_broadcast.
Proof.
  intros Hi Hu Hb. assert (holder l = Some t) as H1 by (by apply (i_inside s I t th)).
  assert (holder l = Some u) as H2 by (apply (i_inside s I u tu Hu); unfold does; by rewrite Hb).
  rewrite H1 in H2. injection H2 as <-. rewrite Ht in Hu. injection Hu as <-. by injection Hb.
Qed.

(** The counters and the condition variable are as before. *)
Lemma moved_quiet th' l' :
  fit l' → rw_cv l' = rw_cv l → active_readers l' = active_readers l → active_writers l' = active_writers l → waiting_writers l' = waiting_writers l →
  reads th' = reads th → writes th' = writes th → queues th' = queues th → does listed th' = listed c → c ≠ Unlock UL_broadcast →
  holder l' = (if does inside th' then Some t else if inside c then None else holder l) →
  (does inside th' = true → inside c = true ∨ holder l = None) → proper th' → (∀ c', doing th' = Some c' → seen l c') →
  (∀ c', doing th' = Some c' → sleeps c' = true → sems l !! t = Some false → reason l c') → moved t l l' th th'.
Proof.
  intros Hfit Hcv Hr Hw Hq R W Q L B Hh Hl Hp Hs Hre. pose proof mine as [M1 M2]. pose proof excl.
  assert (readers_wait l' ↔ readers_wait l) as Er by (unfold readers_wait; by rewrite Hw, Hq).
  assert (writers_wait l' ↔ writers_wait l) as Ew by (unfold writers_wait; by rewrite Hw, Hr).
  split; rewrite ?Hcv; try done; try lia.
  - intros c' Hc'. by eapply seen_same, Hs.
  - rewrite L. done.
  - intros u _ Hf. split; [done|]. intros _ Hb. apply B. by injection Hb.
  - intros c' Hc' Hsl Hf. specialize (Hre c' Hc' Hsl Hf). destruct c'; cbn in *; try done; [by apply Er|by apply Ew].
  - intros Hx. left. by apply Er.
  - intros Hx. left. by apply Ew.
Qed.

(** The counters change, by a thread that holds the mutex and keeps it. *)
Lemma moved_counts th' r w q :
  let l' := set_counts r w q l in
  r = active_readers l - Z.of_nat (reads th) + Z.of_nat (reads th') → w = active_writers l - Z.of_nat (writes th) + Z.of_nat (writes th') →
  q = waiting_writers l - Z.of_nat (queues th) + Z.of_nat (queues th') → w ≤ 1 → (0 < w → r = 0) →
  does listed th' = false → listed c = false → c ≠ Unlock UL_broadcast → inside c = true → does inside th' = true → proper th' →
  (∀ c', doing th' = Some c' → seen l' c' ∧ sleeps c' = false) →
  (readers_wait l → readers_wait l' ∨ broadcasts th') → (writers_wait l → writers_wait l' ∨ broadcasts th') → moved t l l' th th'.
Proof.
  intros l' Hr Hw Hq H1 H0 L' L B Hi Hi' Hp Hs Hrw Hww. pose proof mine as [M1 M2]. pose proof (i_inside s I t th Ht Hi) as Hh.
  split; try done.
  - destruct (i_fit s I). by split.
  - rewrite Hi'. exact Hh.
  - by left.
  - intros c' Hc'. by apply Hs.
  - by left.
  - rewrite L'. unfold does in M1, M2. cbn in *. rewrite L in M1, M2. done.
  - intros u _ Hf. split; [done|]. intros _ Hb. apply B. by injection Hb.
  - intros c' Hc' Hsl. destruct (Hs c' Hc'). congruence.
Qed.

(** The list of waiters changes. *)
Lemma moved_cv c' d :
  let th' := mkThread h (Some c') in let l' := set_cv d l in
  cv d = CV → reads th' = reads th → writes th' = writes th → queues th' = queues th → inside c' = inside c → proper th' → seen l c' →
  (∀ u, u ≠ t → is_Some (wait_sem d !! u) ↔ is_Some (sems l !! u)) → (∀ u, u ≠ t → u ∈ waiter_list d ↔ u ∈ waiters l) →
  (is_Some (wait_sem d !! t) ↔ listed c' = true) → (t ∈ waiter_list d ↔ listed c' = true) →
  (∀ u, u ≠ t → wait_sem d !! u = Some false → sems l !! u = Some false ∧ (u ∈ waiters l → c ≠ Unlock UL_broadcast)) →
  (sleeps c' = true → wait_sem d !! t = Some false → reason l c') → moved t l l' th th'.
Proof.
  intros th' l' Hcv R W Q Hi Hp Hs H1 H2 H3 H4 H5 H6. pose proof excl.
  assert (holder l = if inside c then Some t else holder l) as Hh.
  { destruct (inside c) eqn:E; [|done]. by apply (i_inside s I t th). }
  split; try done; cbn [active_readers active_writers waiting_writers set_cv rw_cv l']; try lia.
  - destruct (i_fit s I). by split.
  - unfold th', does. cbn. rewrite Hi, Hh at 1. by destruct (inside c).
  - unfold th', does. cbn. rewrite Hi. by left.
  - intros c2 [= <-]. done.
  - intros u Hu Hf. destruct (H5 u Hu Hf) as [Hf' Hb]. split; [done|]. intros Hl [= Hc]. by apply Hb.
  - intros c2 [= <-] Hsl Hf. by destruct c'; cbn in *; try done; apply H6.
  - by left.
  - by left.
Qed.

(** The steps of [pthread_cond_wait], in a lock call [f]. *)
Section waiting.
Context (f : wait_pc → call).

Record waiting_call : Prop := mkWaiting {
  w_inside w : inside (f w) = wait_inside w;
  w_listed w : listed (f w) = waits_in w;
  w_same w w' : reads (mkThread h (Some (f w'))) = reads (mkThread h (Some (f w))) ∧
    writes (mkThread h (Some (f w'))) = writes (mkThread h (Some (f w))) ∧ queues (mkThread h (Some (f w'))) = queues (mkThread h (Some (f w)));
  w_proper w : proper (mkThread h (Some (f w))) ↔ h = Nothing;
  w_seen lk w : w ≠ W_insert → seen lk (f w);
  w_start lk : seen lk (f W_insert) ↔ reason lk (f W_unlock);
  w_sleeps w : sleeps (f w) = true ↔ w = W_unlock ∨ w = W_take;
  w_reason lk w w' : reason lk (f w) ↔ reason lk (f w');
  w_call w : f w ≠ Unlock UL_broadcast }.

(** What a step of it does: the thread moves on, or waits, or is back with the mutex. *)
Definition wait_result (w : wait_pc) : Prop :=
  match pthread_cond_wait t w l with
  | Done l' None => l' = l ∧ (w = W_take ∧ sems l !! t = Some false ∨ ∃ r u, w = W_lock r ∧ holder l = Some u)
  | Done l' (Some (inl w')) => moved t l l' th (mkThread h (Some (f w')))
  | Done l' (Some (inr _)) => l' = with_holder (Some t) l ∧ holder l = None ∧ ∃ r, w = W_lock r
  | _ => False
  end.

Lemma wait_ok w : waiting_call → c = f w → wait_result w.
Proof.
  intros [wi wl ws wp wsn wst wsl wre wc] Hc. pose proof mine as [M1 M2]. pose proof (i_fit s I) as Hfit.
  assert (h = Nothing) as Hn. { apply (wp w). rewrite <- Hc. by apply (i_proper s I t). }
  assert (does listed th = waits_in w) as Hlw by (unfold does; cbn; by rewrite Hc, wl). rewrite Hlw in M1, M2.
  assert (∀ w', proper (mkThread h (Some (f w')))) as Hp by (intros w'; by apply wp).
  assert (∀ w', reads (mkThread h (Some (f w'))) = reads th ∧ writes (mkThread h (Some (f w'))) = writes th ∧ queues (mkThread h (Some (f w'))) = queues th) as Hsame.
  { intros w'. rewrite Hc. apply ws. }
  assert (inside c = wait_inside w) as Hin by (by rewrite Hc, wi).
  unfold wait_result, pthread_cond_wait, cond_wait_step. destruct w.
  - (* W_insert *)
    unfold on_cond, alive, s_check_and_init_if_static, zoom, mbind, M_bind, get. rewrite (f_freed _ Hfit). cbn. rewrite (f_cv _ Hfit). cbn.
    rewrite (f_freed _ Hfit). cbn. destruct (Hsame W_unlock) as (S1 & S2 & S3).
    set (d := mkCond _ _ _). change (moved t l (set_cv d (set_cv (rw_cv l) l)) th (mkThread h (Some (f W_unlock)))).
    replace (set_cv d (set_cv (rw_cv l) l)) with (set_cv d l) by done.
    apply moved_cv; try done.
    + cbn. apply Hfit.
    + by rewrite wi, Hin.
    + by apply wsn.
    + intros u Hu. cbn. by rewrite lookup_insert_ne.
    + intros u Hu. cbn. rewrite elem_of_app, list_elem_of_singleton. by split; [intros [?| ->]|by left].
    + cbn. rewrite wl, lookup_insert_eq. cbn. by split.
    + cbn. rewrite wl, elem_of_app, list_elem_of_singleton. by split; [|right].
    + intros u Hu Hf. cbn in Hf. rewrite lookup_insert_ne in Hf by done. split; [done|]. intros _. rewrite Hc. apply wc.
    + intros _ _. apply wst. eapply (i_seen s I t th); [done|]. by rewrite <- Hc.
  - (* W_unlock *)
    assert (holder l = Some t) as Hh by (by apply (i_inside s I t th)).
    unfold mbind, M_bind. rewrite unlock_held by done. cbn. destruct (Hsame W_take) as (S1 & S2 & S3).
    apply moved_quiet; try done.
    + by apply fit_holder.
    + unfold does. cbn. by rewrite Hc, !wl.
    + rewrite Hc. apply wc.
    + unfold does. cbn. by rewrite Hin, wi.
    + unfold does. cbn. rewrite wi. by left.
    + intros c' [= <-]. by apply wsn.
    + intros c' [= <-] _ Hf. apply (wre _ W_take W_unlock).
      destruct (i_wake s I t th c) as [Hr|(u & tu & Hu & Hb)]; [done|done|rewrite Hc; by apply wsl; left|done|by rewrite Hc in Hr|].
      exfalso. apply (wc W_unlock). rewrite <- Hc. by eapply nobody_else.
  - (* W_take *)
    unfold gets, mbind, M_bind. destruct (proj2 M1 eq_refl) as [b Hb]. rewrite Hb. destruct b; cbn; [|split; [done|by left]].
    destruct (Hsame (W_remove 0)) as (S1 & S2 & S3). apply moved_cv; try done.
    + cbn. apply Hfit.
    + by rewrite wi, Hin.
    + by apply wsn.
    + intros u Hu. cbn. by rewrite lookup_insert_ne.
    + cbn. rewrite wl, lookup_insert_eq. cbn. by split.
    + cbn. rewrite wl. by rewrite M2.
    + intros u Hu Hf. cbn in Hf. rewrite lookup_insert_ne in Hf by done. split; [done|]. intros _. rewrite Hc. apply wc.
    + intros Hs%wsl. by destruct Hs.
  - (* W_remove *)
    unfold on_cond, alive, zoom, mbind, M_bind, get. rewrite (f_freed _ Hfit). cbn. destruct (Hsame (W_lock ret)) as (S1 & S2 & S3).
    apply moved_cv; try done.
    + cbn. apply Hfit.
    + by rewrite wi, Hin.
    + by apply wsn.
    + intros u Hu. cbn. by rewrite lookup_delete_ne.
    + intros u Hu. cbn. rewrite list_elem_of_filter. by split; [intros []|].
    + cbn. rewrite wl, lookup_delete_eq. cbn. by split; [intros []|].
    + cbn. rewrite wl, list_elem_of_filter. cbn. by split; [intros []|].
    + intros u Hu Hf. cbn in Hf. rewrite lookup_delete_ne in Hf by done. split; [done|]. intros _. rewrite Hc. apply wc.
    + intros Hs%wsl. by destruct Hs.
  - (* W_lock *)
    unfold mbind, M_bind. destruct (holder l) as [u|] eqn:Hh.
    + rewrite (lock_taken t false u l Hfit Hh). cbn. split; [done|]. right. eauto.
    + rewrite (lock_free t false l Hfit Hh). cbn. split_and!; [done|done|eauto].
Qed.
End waiting.

Lemma rd_waiting : h = Nothing → waiting_call (λ w, Rdlock (RD_wait w)).
Proof. intros ->. split; intros; try done; destruct w; try done; by split; [eauto|intros []]. Qed.

Lemma wr_waiting : h = Nothing → waiting_call (λ w, Wrlock (WR_wait w)).
Proof. intros ->. split; intros; try done; destruct w; try done; by split; [eauto|intros []]. Qed.

(** Taking the mutex, giving it back, and going on with it. *)
Lemma moved_acquire c' : let th' := mkThread h (Some c') in
  holder l = None → inside c' = true → inside c = false → reads th' = reads th → writes th' = writes th → queues th' = queues th →
  listed c' = listed c → sleeps c' = false → proper th' → seen l c' → moved t l (with_holder (Some t) l) th th'.
Proof.
  intros th' Hh Hi' Hi R W Q L Sl Hp Hs. apply moved_quiet; try done.
  - apply fit_holder, (i_fit s I).
  - by intros ->.
  - unfold does. cbn. by rewrite Hi'.
  - by right.
  - by intros c2 [= <-].
  - intros c2 [= <-]. by rewrite Sl.
Qed.

Lemma moved_release th' :
  inside c = true → doing th' = None → reads th' = reads th → writes th' = writes th → queues th = 0%nat →
  listed c = false → c ≠ Unlock UL_broadcast → moved t l (with_holder None l) th th'.
Proof.
  intros Hi Hd R W Q L B. assert (queues th' = queues th) as Q' by (rewrite Q; unfold queues; by rewrite Hd).
  apply moved_quiet; try done; unfold does, proper; rewrite ?Hd; cbn; try done.
  - apply fit_holder, (i_fit s I).
  - by rewrite Hi.
Qed.

Lemma moved_on c' : let th' := mkThread h (Some c') in
  inside c = true → inside c' = true → reads th' = reads th → writes th' = writes th → queues th' = queues th → listed c = false →
  listed c' = false → sleeps c' = false → c ≠ Unlock UL_broadcast → proper th' → seen l c' → moved t l l th th'.
Proof.
  intros th' Hi Hi' R W Q L L' Sl B Hp Hs. assert (holder l = Some t) as Hh by (by apply (i_inside s I t th)).
  apply moved_quiet; try done.
  - apply (i_fit s I).
  - unfold does. cbn. by rewrite L, L'.
  - unfold does. cbn. by rewrite Hi'.
  - by left.
  - by intros c2 [= <-].
  - intros c2 [= <-]. by rewrite Sl.
Qed.

Definition call_result : Prop :=
  match call_step t c l with
  | Done l' None => l' = l ∧ inside c = false ∧ (is_Some (holder l) ∨ sleeps c = true ∧ sems l !! t = Some false)
  | Done l' (Some (inl c')) => moved t l l' th (mkThread h (Some c'))
  | Done l' (Some (inr r)) => moved t l l' th (mkThread (held_after c r h) None)
  | _ => False
  end.

Lemma is_proper : proper th.
Proof. by apply (i_proper s I t). Qed.

Lemma rdlock_ok pc : c = Rdlock pc → call_result.
Proof.
  intros Hc. pose proof is_proper as Hp. rewrite Hc in Hp. cbn in Hp. unfold call_result. rewrite Hc. pose proof (i_fit s I) as Hfit. pose proof counts as (Hr & Hw & Hq).
  pose proof excl as [_ Hex]. pose proof my_room as [Hrr Hrq]. rewrite Hc, Hp in Hrr, Hrq. unfold call_step, mbind, M_bind. destruct pc; cbn in Hrr, Hrq; cbn [rdlock_step]; unfold mbind, M_bind.
  - destruct (holder l) as [u|] eqn:Hh; [rewrite (lock_taken t false u l Hfit Hh); cbn; split_and!; eauto|].
    rewrite (lock_free t false l Hfit Hh). cbn. rewrite <- Hc. apply moved_acquire; rewrite ?Hc; by subst h.
  - unfold alive, add_readers, mbind, M_bind, get. rewrite (f_freed _ Hfit). cbn. destruct (Z.eqb_spec (active_writers l) 0) as [E|E]; cbn; unfold alive, mbind, M_bind, get; rewrite ?(f_freed _ Hfit); cbn; rewrite <- Hc.
    + rewrite i8_small by lia. apply moved_counts; rewrite ?Hc; subst h; counting.
    + apply moved_on; rewrite ?Hc; subst h; try done. cbn. left. lia.
  - rewrite <- Hc. pose proof (wait_ok (λ w, Rdlock (RD_wait w)) w (rd_waiting Hp) Hc) as Hwt. unfold wait_result in Hwt.
    destruct (pthread_cond_wait t w l) as [l' [[w'|r]|]| | |]; try done; cbn.
    + destruct Hwt as (-> & Hh & r' & ->). apply moved_acquire; rewrite ?Hc; by subst h.
    + destruct Hwt as (-> & [(-> & Hs)|(r & u & -> & Hh)]); rewrite Hc; cbn; split_and!; eauto.
  - unfold alive, add_readers, mbind, M_bind, get. rewrite (f_freed _ Hfit). cbn.
    destruct (Z.eqb_spec (active_writers l) 0) as [E|E]; cbn [andb]; [destruct (Z.eqb_spec (waiting_writers l) 0) as [E2|E2]|]; cbn;
      unfold alive, mbind, M_bind, get; rewrite ?(f_freed _ Hfit); cbn; rewrite <- Hc.
    + rewrite i8_small by lia. apply moved_counts; rewrite ?Hc; subst h; counting.
    + apply moved_on; rewrite ?Hc; subst h; try done. cbn. right. lia.
    + apply moved_on; rewrite ?Hc; subst h; try done. cbn. left. lia.
  - rewrite unlock_held; [|done|apply (i_inside s I t th Ht); unfold does; cbn; by rewrite Hc]. cbn. rewrite <- Hc.
    apply moved_release; rewrite ?Hc; by subst h.
Qed.

Lemma wrlock_ok pc : c = Wrlock pc → call_result.
Proof.
  intros Hc. pose proof is_proper as Hp. rewrite Hc in Hp. cbn in Hp. unfold call_result. rewrite Hc.
  pose proof (i_fit s I) as Hfit. pose proof counts as (Hr & Hw & Hq). pose proof excl as [_ Hex]. pose proof my_room as [_ Hrq]. pose proof my_counts as (_ & _ & Hmq).
  assert (seen l c) as Hsn by (by apply (i_seen s I t th)). rewrite Hc, Hp in Hrq, Hmq. rewrite Hc in Hsn.
  unfold call_step, mbind, M_bind. destruct pc; cbn in Hrq, Hmq, Hsn; cbn [wrlock_step]; unfold mbind, M_bind.
  - destruct (holder l) as [u|] eqn:Hh; [rewrite (lock_taken t false u l Hfit Hh); cbn; split_and!; eauto|].
    rewrite (lock_free t false l Hfit Hh). cbn. rewrite <- Hc. apply moved_acquire; rewrite ?Hc; by subst h.
  - unfold add_waiting, alive, mbind, M_bind, get. rewrite (f_freed _ Hfit). cbn. rewrite <- Hc. rewrite u8_small by lia.
    apply moved_counts; rewrite ?Hc; subst h; counting.
  - unfold alive, mbind, M_bind, get. rewrite (f_freed _ Hfit). cbn.
    destruct (Z.ltb_spec 0 (active_readers l)) as [E|E]; cbn [orb]; [|destruct (Z.ltb_spec 0 (active_writers l)) as [E2|E2]]; cbn; rewrite <- Hc;
      apply moved_on; rewrite ?Hc; subst h; try done; cbn; unfold writers_wait; lia.
  - rewrite <- Hc. pose proof (wait_ok (λ w, Wrlock (WR_wait w)) w (wr_waiting Hp) Hc) as Hwt. unfold wait_result in Hwt.
    destruct (pthread_cond_wait t w l) as [l' [[w'|r]|]| | |]; try done; cbn.
    + destruct Hwt as (-> & Hh & r' & ->). apply moved_acquire; rewrite ?Hc; by subst h.
    + destruct Hwt as (-> & [(-> & Hs)|(r & u & -> & Hh)]); rewrite Hc; cbn; split_and!; eauto.
  - unfold add_waiting, add_writers, alive, mbind, M_bind, get. rewrite (f_freed _ Hfit). cbn.
    unfold alive, mbind, M_bind, get. cbn. rewrite (f_freed _ Hfit). cbn. rewrite <- Hc. rewrite !u8_small by lia.
    unfold writers_wait in Hsn.
    change (moved t l (set_counts (active_readers l) (active_writers l + 1) (waiting_writers l + -1) l) th (mkThread h (Some (Wrlock WR_unlock)))).
    apply moved_counts; rewrite ?Hc; subst h; counting.
  - rewrite unlock_held; [|done|apply (i_inside s I t th Ht); unfold does; cbn; by rewrite Hc]. cbn. rewrite <- Hc.
    apply moved_release; rewrite ?Hc; by subst h.
Qed.

Lemma tryrd_ok pc : c = Tryrdlock pc → call_result.
Proof.
  intros Hc. pose proof is_proper as Hp. rewrite Hc in Hp. cbn in Hp. unfold call_result. rewrite Hc.
  pose proof (i_fit s I) as Hfit. pose proof counts as (Hr & Hw & Hq). pose proof excl as [_ Hex]. pose proof my_room as [Hrr _]. rewrite Hc, Hp in Hrr.
  unfold call_step, mbind, M_bind. destruct pc; cbn in Hrr; cbn [tryrdlock_step try_step]; unfold mbind, M_bind.
  - destruct (holder l) as [u|] eqn:Hh.
    + rewrite (lock_taken t true u l Hfit Hh). cbn. rewrite <- Hc. apply moved_quiet; rewrite ?Hc; subst h; done.
    + rewrite (lock_free t true l Hfit Hh). cbn. rewrite <- Hc. apply moved_acquire; rewrite ?Hc; by subst h.
  - unfold alive, add_readers, mbind, M_bind, get. rewrite (f_freed _ Hfit). cbn. destruct (Z.eqb_spec (active_writers l) 0) as [E|E]; cbn;
      unfold alive, mbind, M_bind, get; rewrite ?(f_freed _ Hfit); cbn; rewrite <- Hc.
    + rewrite i8_small by lia. apply moved_counts; rewrite ?Hc; subst h; counting.
    + apply moved_on; rewrite ?Hc; by subst h.
  - rewrite unlock_held; [|done|apply (i_inside s I t th Ht); unfold does; cbn; by rewrite Hc]. cbn. rewrite <- Hc.
    apply moved_release; rewrite ?Hc; subst h; try done; unfold held_after; by destruct res.
Qed.

Lemma trywr_ok pc : c = Trywrlock pc → call_result.
Proof.
  intros Hc. pose proof is_proper as Hp. rewrite Hc in Hp. cbn in Hp. unfold call_result. rewrite Hc.
  pose proof (i_fit s I) as Hfit. pose proof counts as (Hr & Hw & Hq). pose proof excl as [_ Hex].
  unfold call_step, mbind, M_bind. destruct pc; cbn [trywrlock_step try_step]; unfold mbind, M_bind.
  - destruct (holder l) as [u|] eqn:Hh.
    + rewrite (lock_taken t true u l Hfit Hh). cbn. rewrite <- Hc. apply moved_quiet; rewrite ?Hc; subst h; done.
    + rewrite (lock_free t true l Hfit Hh). cbn. rewrite <- Hc. apply moved_acquire; rewrite ?Hc; by subst h.
  - unfold alive, add_writers, mbind, M_bind, get. rewrite (f_freed _ Hfit). cbn.
    destruct (Z.ltb_spec 0 (active_readers l)) as [E1|E1]; cbn [orb]; [|destruct (Z.ltb_spec 0 (active_writers l)) as [E2|E2]; cbn [orb]; [|destruct (Z.ltb_spec 0 (waiting_writers l)) as [E3|E3]]];
      cbn; unfold alive, mbind, M_bind, get; rewrite ?(f_freed _ Hfit); cbn; rewrite <- Hc; try (apply moved_on; rewrite ?Hc; by subst h).
    rewrite u8_small by lia. apply moved_counts; rewrite ?Hc; subst h; counting.
  - rewrite unlock_held; [|done|apply (i_inside s I t th Ht); unfold does; cbn; by rewrite Hc]. cbn. rewrite <- Hc.
    apply moved_release; rewrite ?Hc; subst h; try done; unfold held_after; by destruct res.
Qed.

(** Leaving the lock. *)
Lemma unlock_leave : c = Unlock UL_leave → call_result.
Proof.
  intros Hc. pose proof is_proper as Hp. rewrite Hc in Hp. cbn in Hp. unfold call_result. rewrite Hc. pose proof (i_fit s I) as Hfit.
  pose proof counts as (Hr & Hw & Hq). pose proof excl as [_ Hex]. pose proof my_counts as (Hmr & Hmw & _). rewrite Hc in Hmr, Hmw. cbn in Hmr, Hmw.
  unfold call_step, mbind, M_bind. cbn [unlock_step]. unfold alive, add_readers, assertM, mbind, M_bind, get. rewrite (f_freed _ Hfit). cbn.
  assert (negb ((0 <? active_readers l) && (0 <? active_writers l)) = true) as -> by (destruct (Z.ltb_spec 0 (active_readers l)), (Z.ltb_spec 0 (active_writers l)); (done || lia)).
  assert (h = Reading ∨ h = Writing) as [Hh|Hh] by (destruct h; tauto); rewrite Hh in Hmr, Hmw; cbn in Hmr, Hmw.
  - rewrite (proj2 (Z.ltb_lt 0 (active_readers l))) by lia. cbn. unfold alive, mbind, M_bind, get. rewrite (f_freed _ Hfit). cbn. rewrite i8_small by lia.
    rewrite <- Hc. destruct (Z.eqb_spec (active_readers l + -1) 0) as [E|E]; cbn; apply moved_counts; rewrite ?Hc, ?Hh; counting.
  - rewrite (proj2 (Z.ltb_ge 0 (active_readers l))) by lia. cbn. rewrite <- Hc. apply moved_counts; rewrite ?Hc, ?Hh; counting.
Qed.

Lemma unlock_wake : c = Unlock UL_broadcast → call_result.
Proof.
  intros Hc. pose proof is_proper as Hp. rewrite Hc in Hp. cbn in Hp. unfold call_result. rewrite Hc. pose proof (i_fit s I) as Hfit.
  pose proof mine as [M1 M2]. unfold does in M1, M2. rewrite Hc in M1, M2. cbn in M1, M2.
  unfold call_step, mbind, M_bind. cbn [unlock_step]. unfold on_cond, alive, zoom, pthread_cond_broadcast, s_check_and_init_if_static, mbind, M_bind, get.
  rewrite (f_freed _ Hfit). cbn. rewrite (f_cv _ Hfit). cbn. unfold mbind, M_bind.
  destruct (give_all_ok (waiters l) (rw_cv l)) as (m & -> & Hs & Hgiven & Hold); [apply (i_listed s I)|]. cbn. rewrite <- Hc.
  apply moved_cv; rewrite ?Hc; try done.
  - cbn. apply Hfit.
  - cbn. by rewrite Hs.
  - intros u _ Hf. cbn in Hf. split; [by apply Hold|]. intros Hu%Hgiven. congruence.
Qed.

Lemma unlock_ok pc : c = Unlock pc → call_result.
Proof.
  intros Hc. pose proof is_proper as Hp. rewrite Hc in Hp. cbn in Hp. pose proof (i_fit s I) as Hfit.
  destruct pc; [|by apply unlock_leave|by apply unlock_wake|]; unfold call_result; rewrite Hc; unfold call_step, mbind, M_bind; cbn [unlock_step]; unfold mbind, M_bind.
  - destruct (holder l) as [u|] eqn:Hh; [rewrite (lock_taken t false u l Hfit Hh); cbn; split_and!; eauto|].
    rewrite (lock_free t false l Hfit Hh). cbn. rewrite <- Hc. apply moved_acquire; rewrite ?Hc; done.
  - rewrite unlock_held; [|done|apply (i_inside s I t th Ht); unfold does; cbn; by rewrite Hc]. cbn. rewrite <- Hc. apply moved_release; rewrite ?Hc; done.
Qed.

Lemma call_ok : call_result.
Proof. case_eq c; intros pc Hc; [by eapply rdlock_ok|by eapply tryrd_ok|by eapply wrlock_ok|by eapply trywr_ok|by eapply unlock_ok]. Qed.
End moves.
