(* ===== verification/PthreadProps.v ===== *)
(** * POSIX threads: properties

    Mutual exclusion and progress of read-write locks, the time that waits with a timeout
    take, and what the code gets wrong. *)
From Stdlib Require Import ZArith Lia.
From stdpp Require Import base numbers option list gmap relations.
From S2P Require Import Prelude Pthread PthreadLock.

Open Scope Z_scope.

(** ** Read-write locks *)

Lemma total_start f n : f (mkThread Nothing None) = 0%nat → total f (replicate n (mkThread Nothing None)) = 0.
Proof. intros Hf. unfold total. induction n as [|n IH]; simpl; lia. Qed.

Lemma inv_start n : inv (start n).
Proof.
  assert (∀ t th, threads (start n) !! t = Some th → th = mkThread Nothing None) as Hth by (by intros t th [-> _]%lookup_replicate).
  split; try (by intros t th Hl; rewrite (Hth t th Hl)).
  - done.
  - cbn [lock threads start]. by rewrite total_start.
  - cbn [lock threads start]. by rewrite total_start.
  - cbn [lock threads start]. by rewrite total_start.
  - cbn [threads start]. rewrite !total_start by done. lia.
  - done.
  - intros t th c Hl. by rewrite (Hth t th Hl).
  - by intros t Ht%not_elem_of_nil.
  - intros t. cbn. rewrite lookup_empty. split; [by intros []|]. intros (th & Hl & Hd). by rewrite (Hth t th Hl) in Hd.
  - intros t th c Hl. by rewrite (Hth t th Hl).
Qed.

Lemma begin_moved s t h c : inv s → threads s !! t = Some (mkThread h None) → begins h c →
  moved t (lock s) (lock s) (mkThread h None) (mkThread h (Some c)).
Proof.
  intros I Ht Hb.
  assert (does listed (mkThread h (Some c)) = false ∧ does inside (mkThread h (Some c)) = false ∧ proper (mkThread h (Some c)) ∧ sleeps c = false ∧
    (∀ l, seen l c) ∧ reads (mkThread h (Some c)) = reads (mkThread h None) ∧ writes (mkThread h (Some c)) = writes (mkThread h None) ∧ queues (mkThread h (Some c)) = 0%nat) as (E1 & E2 & E3 & E4 & E5 & E6 & E7 & E8) by (by destruct Hb).
  assert (is_Some (wait_sem (rw_cv (lock s)) !! t) ↔ false = true) as Hs.
  { rewrite (i_sems s I), Ht. split; [by intros (x & [= <-] & ?)|done]. }
  split; rewrite ?E1, ?E2, ?E6, ?E7, ?E8; try done; try lia.
  - apply (i_fit s I).
  - change (queues (mkThread h None)) with 0%nat. lia.
  - rewrite (i_writers s I), (i_readers s I). apply (i_excl s I).
  - intros c' [= <-]. done.
  - split; [done|]. split; [|done]. intros Hw%(i_listed s I). by apply Hs.
  - intros c' [= <-]. by rewrite E4.
  - by left.
  - by left.
Qed.

Lemma step_inv s s' : inv s → (length (threads s) ≤ 127)%nat → step s s' → inv s' ∧ length (threads s') = length (threads s).
Proof.
  intros I Hlen Hst. destruct Hst as [s t h c Ht Hb|s t h c l c' Ht Hc|s t h c l r Ht Hc]; cbn [threads]; (split; [|apply length_insert]).
  - eapply inv_moved; [done|done|]. by apply begin_moved.
  - eapply inv_moved; [done|done|]. pose proof (call_ok s I Hlen t h c Ht) as Hr. unfold call_result in Hr. by rewrite Hc in Hr.
  - eapply inv_moved; [done|done|]. pose proof (call_ok s I Hlen t h c Ht) as Hr. unfold call_result in Hr. by rewrite Hc in Hr.
Qed.

Lemma reachable_inv n s : (n ≤ 127)%nat → reachable n s → inv s ∧ length (threads s) = n.
Proof.
  intros Hn Hr. assert (inv (start n) ∧ length (threads (start n)) = n) as H0 by (split; [apply inv_start|apply length_replicate]).
  unfold reachable in Hr. revert H0. generalize (start n), Hr. clear Hr. induction 1 as [|y z w Hst _ IH]; [done|].
  intros [I Hl]. apply IH. destruct (step_inv y z I) as [I' Hl']; [lia|done|]. split; [done|lia].
Qed.

(** A thread between a lock that succeeded and its unlock. *)
Definition has_lock (h : hold) (th : thread) : Prop := holds th = h ∧ doing th = None.

(** C21: with up to 127 threads that lock and unlock in any interleaving, a thread that has
    the lock for writing is alone: no other thread has it for reading or writing.  No step of
    any call fails an assertion, uses memory that is gone or a semaphore that does not
    exist, and the counters are the numbers of the threads that read, write and wait. *)
Theorem rwlock_exclusion n s : (n ≤ 127)%nat → reachable n s →
  (∀ t u tt tu, t ≠ u → threads s !! t = Some tt → threads s !! u = Some tu → has_lock Writing tt →
     ¬ has_lock Reading tu ∧ ¬ has_lock Writing tu) ∧
  (∀ t h c, threads s !! t = Some (mkThread h (Some c)) → ∃ l r, call_step t c (lock s) = Done l r) ∧
  active_readers (lock s) = total reads (threads s) ∧ active_writers (lock s) = total writes (threads s) ∧
  waiting_writers (lock s) = total queues (threads s).
Proof.
  intros Hn Hr. destruct (reachable_inv n s Hn Hr) as [I Hl]. split_and!; [..|apply I|apply I|apply I].
  - intros t u tt tu Hne Ht Hu [Hw Hd]. pose proof (i_excl s I) as [H1 H0].
    assert (writes tt = 1%nat) as Hwt by (unfold writes; by rewrite Hd, Hw).
    pose proof (total_ge writes _ t tt Ht). split; intros [Hh Hd'].
    + assert (reads tu = 1%nat) by (unfold reads; by rewrite Hd', Hh). pose proof (total_ge reads _ u tu Hu). lia.
    + assert (writes tu = 1%nat) by (unfold writes; by rewrite Hd', Hh). pose proof (total_two writes _ t tt u tu eq_refl Ht Hu Hne). lia.
  - intros t h c Ht. pose proof (call_ok s I ltac:(lia) t h c Ht) as Hres. unfold call_result in Hres. destruct (call_step t c (lock s)) as [l r| | |]; [eauto|done..].
Qed.

Lemma total_pos (f : thread → nat) l : 0 < total f l → ∃ u tu, l !! u = Some tu ∧ (0 < f tu)%nat.
Proof.
  unfold total. induction l as [|x l IH]; simpl; [lia|]. intros Hp. destruct (f x) eqn:E.
  - destruct IH as (u & tu & Hu & Hf); [lia|]. by exists (S u), tu.
  - exists 0%nat, x. split; [done|lia].
Qed.

Section progress.
Context (s : sys) (I : inv s) (few : (length (threads s) ≤ 127)%nat).

(** Some call can go on, or some thread has the lock and is in no call. *)
Definition some_progress : Prop :=
  (∃ t h c l r, threads s !! t = Some (mkThread h (Some c)) ∧ call_step t c (lock s) = Done l (Some r)) ∨
  ∃ t th h, threads s !! t = Some th ∧ has_lock h th ∧ h ≠ Nothing.

Lemma goes t h c : threads s !! t = Some (mkThread h (Some c)) →
  (inside c = false → sem_holder (mux_sem (resource_mutex (lock s))) = None ∧ (sleeps c = true → wait_sem (rw_cv (lock s)) !! t ≠ Some false)) →
  some_progress.
Proof.
  intros Ht Hc. pose proof (call_ok s I few t h c Ht) as Hr. unfold call_result in Hr.
  destruct (call_step t c (lock s)) as [l [r|]| | |] eqn:E; [left; by eexists t, h, c, l, r| |done..].
  destruct Hr as (_ & Hi & Hor). destruct (Hc Hi) as [Hn Hs]. rewrite Hn in Hor. destruct Hor as [[]|[Hsl Hf]]; [done|]. by destruct (Hs Hsl).
Qed.

Context (Hfree : sem_holder (mux_sem (resource_mutex (lock s))) = None).

Lemma none_inside t th c : threads s !! t = Some th → doing th = Some c → inside c = false.
Proof.
  intros Ht Hd. destruct (inside c) eqn:E; [|done]. assert (does inside th = true) as Hi by (unfold does; by rewrite Hd).
  pose proof (i_inside s I t th Ht Hi). congruence.
Qed.

(** Someone reads or writes. *)
Lemma active_progress t th : threads s !! t = Some th → (0 < reads th ∨ 0 < writes th)%nat → some_progress.
Proof.
  intros Ht Hp. destruct th as [h [c|]].
  - pose proof (none_inside t _ c Ht eq_refl) as Hi. pose proof (i_proper s I t _ Ht) as Hpr. cbn in Hpr.
    assert (c = Unlock UL_mutex) as ->; [|by eapply goes].
    destruct c as [pc|pc|pc|pc|pc]; destruct pc; cbn in Hi, Hpr, Hp; subst; cbn in Hp; try done; lia.
  - right. exists t, (mkThread h None), h. split; [done|]. split; [done|]. intros ->. cbn in Hp. lia.
Qed.

Lemma writers_wait_progress : writers_wait (lock s) → some_progress.
Proof.
  unfold writers_wait. rewrite (i_readers s I), (i_writers s I).
  intros [Hp|Hp]; apply total_pos in Hp as (u & tu & Hu & Hf); eapply active_progress; eauto.
Qed.

(** A thread that sleeps without having been woken. *)
Lemma asleep_reason t h c : threads s !! t = Some (mkThread h (Some c)) → sleeps c = true → wait_sem (rw_cv (lock s)) !! t = Some false → reason (lock s) c.
Proof.
  intros Ht Hs Hf. destruct (i_wake s I t _ c Ht eq_refl Hs Hf) as [?|(u & tu & Hu & Hb)]; [done|].
  pose proof (none_inside u tu _ Hu Hb). done.
Qed.

Lemma writer_progress t h w : threads s !! t = Some (mkThread h (Some (Wrlock (WR_wait w)))) → some_progress.
Proof.
  intros Ht. destruct (decide (sleeps (Wrlock (WR_wait w)) = true ∧ wait_sem (rw_cv (lock s)) !! t = Some false)) as [[Hs Hf]|Hn].
  - apply writers_wait_progress. by apply (asleep_reason t h _ Ht).
  - eapply goes; [done|]. intros _. split; [done|]. intros Hs Hf. by apply Hn.
Qed.

Lemma free_progress t h c : threads s !! t = Some (mkThread h (Some c)) → some_progress.
Proof.
  intros Ht. destruct (decide (sleeps c = true ∧ wait_sem (rw_cv (lock s)) !! t = Some false)) as [[Hs Hf]|Hn].
  - pose proof (asleep_reason t h c Ht Hs Hf) as Hr. destruct c as [[]| |[]| |]; try done; cbn in Hr; [|by eapply writer_progress].
    destruct Hr as [Hr|Hr]; [apply writers_wait_progress; by right|]. rewrite (i_waiting s I) in Hr.
    apply total_pos in Hr as (u & [h' [c'|]] & Hu & Hq); [|cbn in Hq; lia].
    pose proof (none_inside u _ c' Hu eq_refl). destruct c' as [| |[]| |]; cbn in *; try lia; try done. by eapply writer_progress.
  - eapply goes; [done|]. intros _. split; [done|]. intros Hs Hf. by apply Hn.
Qed.
End progress.

(** C22: no wake-up is lost and the threads do not lock each other out: whenever a thread is
    in a call, some call can take a step, or some thread has the lock and is not in a call,
    so that all goes on when it unlocks. *)
Theorem rwlock_progress n s t h c : (n ≤ 127)%nat → reachable n s → threads s !! t = Some (mkThread h (Some c)) → some_progress s.
Proof.
  intros Hn Hr Ht. destruct (reachable_inv n s Hn Hr) as [I Hl]. assert (length (threads s) ≤ 127)%nat as few by lia.
  destruct (sem_holder (mux_sem (resource_mutex (lock s)))) as [u|] eqn:Hh; [|by eapply free_progress].
  destruct (i_holder s I u Hh) as ([h' [c'|]] & Hu & Hi); [|done]. eapply (goes s I few u h' c' Hu). unfold does in Hi. cbn in Hi. by rewrite Hi.
Qed.

(** ** Runs *)

Definition may_begin (h : hold) (c : call) : bool :=
  match c with
  | Rdlock RD_mutex | Tryrdlock TRY_mutex | Wrlock WR_mutex | Trywrlock TRY_mutex => bool_decide (h = Nothing)
  | Unlock UL_mutex => bool_decide (h ≠ Nothing)
  | _ => false
  end.

(** A thread begins a call, or goes on with its call. *)
Definition exec1 (s : sys) (mv : nat * option call) : option sys :=
  let t := mv.1 in
  match threads s !! t, mv.2 with
  | Some (mkThread h None), Some c => if may_begin h c then Some (mkSys (lock s) (<[t := mkThread h (Some c)]> (threads s))) else None
  | Some (mkThread h (Some c)), None =>
      match call_step t c (lock s) with
      | Done l (Some (inl c')) => Some (mkSys l (<[t := mkThread h (Some c')]> (threads s)))
      | Done l (Some (inr r)) => Some (mkSys l (<[t := mkThread (held_after c r h) None]> (threads s)))
      | _ => None
      end
  | _, _ => None
  end.

(** The moves that are possible, one after the other. *)
Fixpoint play (s : sys) (mvs : list (nat * option call)) : sys :=
  match mvs with
  | [] => s
  | mv :: mvs => play (default s (exec1 s mv)) mvs
  end.

Lemma exec1_step s mv s' : exec1 s mv = Some s' → step s s'.
Proof.
  unfold exec1. destruct (threads s !! mv.1) as [[h [c|]]|] eqn:Ht; [|destruct mv.2 as [c|]|done]; [destruct mv.2; [done|]|..|done].
  - destruct (call_step mv.1 c (lock s)) as [l [[c'|r]|]| | |] eqn:Hc; intros [= <-]; [by eapply step_go|by eapply step_return].
  - destruct (may_begin h c) eqn:Hb; [|done]. intros [= <-]. apply step_begin; [done|].
    destruct c as [pc|pc|pc|pc|pc]; destruct pc; cbn in Hb; try done; apply bool_decide_eq_true in Hb; subst; by constructor.
Qed.

Lemma play_reachable n mvs s : reachable n s → reachable n (play s mvs).
Proof.
  revert s. induction mvs as [|mv mvs IH]; intros s Hr; [done|]. cbn [play]. apply IH. destruct (exec1 s mv) as [s'|] eqn:E; [|done].
  eapply rtc_r; [exact Hr|]. by eapply exec1_step.
Qed.

(** A call from its begin, with [k] steps. *)
Definition call_of (t : nat) (c : call) (k : nat) : list (nat * option call) := (t, Some c) :: replicate k (t, None).

(** The first thread has the lock for writing, the second waits to read and the third to write. *)
Definition contended : sys :=
  play (start 3) (call_of 0 (Wrlock WR_mutex) 5 ++ call_of 1 (Rdlock RD_mutex) 4 ++ call_of 2 (Wrlock WR_mutex) 5).

Lemma rwlock_exclusion_witness :
  threads contended !! 0%nat = Some (mkThread Writing None) ∧
  (∀ tu, threads contended !! 1%nat = Some tu → ¬ has_lock Reading tu ∧ ¬ has_lock Writing tu) ∧ waiting_writers (lock contended) = 1.
Proof.
  assert (reachable 3 contended) as Hr by (apply play_reachable, rtc_refl).
  destruct (rwlock_exclusion 3 contended ltac:(lia) Hr) as (Hex & _ & _ & _ & Hw).
  split_and!; [vm_compute; reflexivity| |vm_compute; reflexivity].
  intros tu Hu. apply (Hex 0%nat 1%nat (mkThread Writing None) tu); [done|vm_compute; reflexivity|exact Hu|by split].
Defined.

(** After the first thread has unlocked. *)
Definition released : sys := play contended (call_of 0 (Unlock UL_mutex) 4).

Lemma rwlock_progress_witness :
  doing <$> threads released = [None; Some (Rdlock (RD_wait W_take)); Some (Wrlock (WR_wait W_take))] ∧ some_progress released.
Proof.
  split; [vm_compute; reflexivity|].
  apply (rwlock_progress 3 released 1 Nothing (Rdlock (RD_wait W_take))); [lia|apply play_reachable, play_reachable, rtc_refl|vm_compute; reflexivity].
Defined.

(** With 128 readers the counter of readers is negative, and a writer is let in. *)
Definition many_readers : sys :=
  play (start 129) (concat ((λ t, call_of t (Rdlock RD_mutex) 3) <$> seq 0 128) ++ call_of 128 (Wrlock WR_mutex) 5).

Theorem reader_count_wraps :
  reachable 129 many_readers ∧ active_readers (lock many_readers) = -128 ∧
  threads many_readers !! 0%nat = Some (mkThread Reading None) ∧ threads many_readers !! 128%nat = Some (mkThread Writing None).
Proof. split_and!; [apply play_reachable, rtc_refl|vm_compute; reflexivity..]. Qed.

(** A run of a call on a lock, up to [k] steps or until it waits. *)
Fixpoint drive {P : Type} (f : P → RW (option (P + Z))) (k : nat) (p : P) : RW (P + Z) :=
  match k with
  | O => mret (inl p)
  | S k =>
      r ← f p;
      match r with
      | None => mret (inl p)
      | Some (inl p) => drive f k p
      | Some (inr z) => mret (inr z)
      end
  end.

(** A writer unlocks and the lock is destroyed before a reader that waited has gone on:
    this is not refused, and the reader then uses the memory that was freed. *)
Definition destroy_under_reader : RW ((rd_pc + Z) * (ds_pc + Z)) :=
  drive (wrlock_step 0) 9 WR_mutex;;
  r ← drive (rdlock_step 1) 9 RD_mutex;
  drive (unlock_step 0) 9 UL_mutex;;
  d ← drive (destroy_step 2) 9 DS_mutex;
  mret (r, d).

Theorem destroy_frees_under_reader :
  wp destroy_under_reader rwlock_new (λ r _, r = (inl (RD_wait W_take), inr 0)) ∧
  (destroy_under_reader;; drive (rdlock_step 1) 9 (RD_wait W_take)) rwlock_new = MemFault.
Proof. split; by vm_compute. Qed.

(** A second caller of [pthread_once] returns while the routine has not ended. *)
Theorem once_returns_early :
  wp (once_step ONCE_cas;; once_step ONCE_cas) (mkOnce true false 0 0) (λ r s, r = inr 0 ∧ routines_begun s = 1 ∧ routines_ended s = 0).
Proof. by vm_compute. Qed.

(** The owner of a mutex can destroy it while it is locked, if its type is not the normal one. *)
Theorem destroys_locked_mutex ty : ty ≠ PTHREAD_MUTEX_NORMAL →
  wp (pthread_mutex_lock 0;; pthread_mutex_destroy 0) (mkMS (Mutex (mkMux (mkSem None 0) ty)) [] 2) (λ r s, r = 0 ∧ ms_live s = 0).
Proof. destruct ty; [done|by vm_compute..]. Qed.

(** When memory runs out nothing stays allocated. *)
Theorem rwlock_init_balanced s : wp (pthread_rwlock_init false) s (λ r s',
  match r with
  | (0, Some l) => l = rwlock_new ∧ is_live s' = is_live s + 4
  | (e, o) => e = ENOMEM ∧ o = None ∧ is_live s' = is_live s
  end).
Proof. destruct s as [[|[] [|[] [|[] [|[] l]]]] n]; cbv -[Z.add Z.sub]; split_and!; try done; lia. Qed.

(** ** Times *)

Section ticks.
Context (P : Z) (HP : 0 < P ≤ 1000).

(** Whole ticks: at least [m] milliseconds, and less than a tick more, and one tick. *)
Lemma whole_ticks m : 0 < m < 2 ^ 31 → let n := u32 (u32 (m + P - 1) / P + 1) in m ≤ (n - 1) * P < m + P.
Proof.
  intros Hm n. assert (0 ≤ (m + P - 1) / P < 2 ^ 31 + 1000) as Hq by (split; [apply Z.div_pos; lia|apply Z.div_lt_upper_bound; nia]).
  subst n. rewrite (u32_small (m + P - 1)) by lia. rewrite u32_small by lia. pose proof (Z.div_mod (m + P - 1) P ltac:(lia)) as E.
  pose proof (Z.mod_pos_bound (m + P - 1) P ltac:(lia)). nia.
Qed.

(** The ticks for a time in the future that is less than 24 days away: all of them but the
    first, of which only a part may be left, last at least up to the given time and less than
    a tick longer. *)
Lemma cond_ticks_last to now :
  0 ≤ ts_nsec to < 1000000000 → 0 ≤ tv_usec now < 1000000 → ts_sec to - tv_sec now < 2000000 →
  let left_us := (ts_sec to - tv_sec now) * 1000000 + ((ts_nsec to + 999) / 1000 - tv_usec now) in
  match cond_ticks P to now with
  | None => left_us ≤ 0
  | Some n => 0 < left_us ∧ left_us ≤ (n - 1) * P * 1000 < left_us + P * 1000
  end.
Proof.
  intros Hn Hu Hs left_us. unfold cond_ticks. rewrite Z.quot_div_nonneg by lia. replace (ts_nsec to + 1000 - 1) with (ts_nsec to + 999) by lia.
  assert (0 ≤ (ts_nsec to + 999) / 1000 ≤ 1000000) as Ha by (Z.to_euclidean_division_equations; lia).
  set (a := (ts_nsec to + 999) / 1000) in *. set (d := ts_sec to - tv_sec now) in *.
  assert (left_us = d * 1000000 + (a - tv_usec now)) as HL by done. clearbody left_us a.
  destruct (if ts_sec to =? tv_sec now then a <? tv_usec now else ts_sec to <? tv_sec now) eqn:Hb; cbn [Z.leb Z.compare].
  { destruct (Z.eqb_spec (ts_sec to) (tv_sec now)); apply Z.ltb_lt in Hb; lia. }
  assert (0 ≤ left_us) as Hl0. { destruct (Z.eqb_spec (ts_sec to) (tv_sec now)); apply Z.ltb_ge in Hb; lia. }
  set (b := if a - tv_usec now <? 0 then 1 else 0).
  assert (0 ≤ a - tv_usec now + b * 1000000 ≤ 1000000 ∧ 0 ≤ b ≤ 1) as [Hd Hb01] by (unfold b; destruct (Z.ltb_spec (a - tv_usec now) 0); lia).
  rewrite Z.quot_div_nonneg by lia. set (m := (d - b) * 1000 + (a - tv_usec now + b * 1000000 + 1000 - 1) / 1000).
  assert (left_us ≤ m * 1000 < left_us + 1000 ∧ m < 2 ^ 31) as [Hm Hm31] by (unfold m; Z.to_euclidean_division_equations; lia).
  rewrite i32_small by lia. destruct (Z.leb_spec m 0); [lia|]. pose proof (whole_ticks m ltac:(lia)) as Ht. cbv zeta in Ht.
  set (n := u32 (u32 (m + P - 1) / P + 1)) in *. nia.
Qed.

(** *** A timed wait among other threads *)

(** Times are in microseconds.  The tick interrupts come every [P] milliseconds, at
    [phase]; a wait of [n] ticks is over with the [n]th interrupt after its start. *)
Definition tick_count (phase time : Z) : Z := (time - phase) / (P * 1000).
Definition wait_over (phase since time : Z) (n : option (option Z)) : bool :=
  match n with Some (Some n) => n <=? tick_count phase time - tick_count phase since | _ => false end.

Definition gettimeofday (time : Z) : timeval := mkTV (time / 1000000) (time mod 1000000).

(** A call of [pthread_cond_timedwait]: its position, the ticks to wait once they are known
    and when the wait at the semaphore began; or its result. *)
Inductive timed_call : Type :=
| Timed (pc : wait_pc) (ticks : option (option Z)) (since : Z)
| Returned (ret : Z).

Definition timed_next (ticks : option (option Z)) (time : Z) (since : Z) (r : wait_pc + Z) : timed_call :=
  match r with
  | inl W_take => Timed W_take ticks time
  | inl pc => Timed pc ticks since
  | inr ret => Returned ret
  end.

(** The thread [me] makes a step of its call, or time passes in which other threads do with
    the mutex and the condition variable what they want. *)
Inductive timed_step (me : nat) (to : timespec) (phase : Z) : Z * rwlock * timed_call → Z * rwlock * timed_call → Prop :=
| timed_others time time' s s' x : time ≤ time' → timed_step me to phase (time, s, x) (time', s', x)
| timed_start time s s' ticks since r :
    cond_wait_step me (Some (cond_ticks P to (gettimeofday time))) false W_insert s = Done s' (Some r) →
    timed_step me to phase (time, s, Timed W_insert ticks since)
      (time, s', timed_next (Some (cond_ticks P to (gettimeofday time))) time since r)
| timed_move time s s' pc ticks since r :
    pc ≠ W_insert → cond_wait_step me ticks (wait_over phase since time ticks) pc s = Done s' (Some r) →
    timed_step me to phase (time, s, Timed pc ticks since) (time, s', timed_next ticks time since r).

(** The time that is asked for, in microseconds and rounded up. *)
Definition due (to : timespec) : Z := ts_sec to * 1000000 + (ts_nsec to + 999) / 1000.

(** The number of ticks was computed at [began] and lasts until the time that is due. *)
Definition ticks_for (to : timespec) (began : Z) (ticks : option (option Z)) : Prop :=
  ∃ n, ticks = Some (Some n) ∧ 0 < due to - began ∧ due to - began ≤ (n - 1) * P * 1000 < due to - began + P * 1000.

Definition timed_inv (to : timespec) (time0 : Z) (c : Z * rwlock * timed_call) : Prop :=
  time0 ≤ c.1.1 ∧
  match c.2 with
  | Timed W_insert _ _ => True
  | Timed pc ticks since => ∃ began, time0 ≤ began ≤ c.1.1 ∧ ticks_for to began ticks ∧
      match pc with
      | W_take => began ≤ since ≤ c.1.1
      | W_remove ret | W_lock ret => ret = ETIMEDOUT → due to ≤ c.1.1
      | _ => True
      end
  | Returned ret => ret = ETIMEDOUT → due to ≤ c.1.1
  end.

Lemma wait_over_due to phase began since time n :
  ticks_for to began (Some (Some n)) → began ≤ since →
  (wait_over phase since time (Some (Some n)) = true → due to ≤ time) ∧
  (since + (due to - began) + 2 * P * 1000 ≤ time → wait_over phase since time (Some (Some n)) = true).
Proof.
  intros (n' & [= <-] & Hn) Hb. unfold wait_over, tick_count. rewrite Z.leb_le. set (T := P * 1000).
  assert (0 < T) by (unfold T; lia). replace ((n - 1) * P * 1000) with ((n - 1) * T) in Hn by (unfold T; lia).
  replace (2 * P * 1000) with (2 * T) by (unfold T; lia). replace (P * 1000) with T in Hn by done. clearbody T.
  pose proof (Z.div_mod (time - phase) T ltac:(lia)). pose proof (Z.mod_pos_bound (time - phase) T ltac:(lia)).
  pose proof (Z.div_mod (since - phase) T ltac:(lia)). pose proof (Z.mod_pos_bound (since - phase) T ltac:(lia)).
  set (a := (time - phase) / T) in *. set (b := (since - phase) / T) in *. clearbody a b. split; intros; nia.
Qed.

Lemma timed_step_inv me to phase time0 c c' :
  0 ≤ ts_nsec to < 1000000000 → ts_sec to - time0 / 1000000 < 2000000 →
  timed_inv to time0 c → timed_step me to phase c c' → timed_inv to time0 c'.
Proof.
  intros Hns Hsec Hinv Hstep. destruct Hstep as [time time' s s' x Hle|time s s' ticks since r Hr|time s s' pc ticks since r Hpc Hr];
    unfold timed_inv in *; cbn [fst snd] in *; destruct Hinv as [H0 Hinv].
  - split; [lia|]. destruct x as [[] ticks since|ret]; try done; try (intros Hret; specialize (Hinv Hret); lia);
      destruct Hinv as (began & Hb & Ht & Hx); exists began; (split; [lia|split; [done|]]); try done; try lia;
      intros Hret; specialize (Hx Hret); lia.
  - split; [done|].
    assert (time0 / 1000000 ≤ time / 1000000) by (apply Z.div_le_mono; lia).
    pose proof (Z.mod_pos_bound time 1000000 ltac:(lia)). pose proof (Z.div_mod time 1000000 ltac:(lia)).
    pose proof (cond_ticks_last to (gettimeofday time) Hns ltac:(cbn; lia) ltac:(cbn; lia)) as Hc. cbv zeta in Hc. cbn [tv_sec tv_usec gettimeofday] in Hc.
    replace ((ts_sec to - time / 1000000) * 1000000 + ((ts_nsec to + 999) / 1000 - time mod 1000000)) with (due to - time) in Hc by (unfold due; lia).
    unfold cond_wait_step, on_cond, s_check_and_init_if_static, alive, zoom, mbind, M_bind, get, modify, mret, M_ret in Hr.
    destruct (cond_ticks P to (gettimeofday time)) as [n|];
      repeat (case_match; simplify_eq/=); try (intros ?; done); try (intros ?; lia).
    all: exists time; split_and!; [lia|lia|exists n; split; [done|lia]|done].
  - split; [done|]. destruct pc; [done|..]; destruct Hinv as (began & Hb & Ht & Hx).
    + unfold cond_wait_step, unlock_resource, alive, mbind, M_bind, get, mret, M_ret in Hr. repeat (case_match; simplify_eq/=); exists began; split_and!; (lia || done).
    + pose proof Ht as (n & -> & _). destruct (wait_over_due to phase began since time n Ht ltac:(lia)) as [Hover _].
      unfold cond_wait_step, gets, mbind, M_bind, mret, M_ret, fault in Hr. cbn [from_option] in Hr.
      repeat (case_match; simplify_eq/=); exists began; (split; [lia|split; [done|]]); try done; by intros _; apply Hover.
    + unfold cond_wait_step, on_cond, alive, zoom, mbind, M_bind, get, mret, M_ret, modify in Hr. repeat (case_match; simplify_eq/=). exists began. split_and!; (lia || done).
    + unfold cond_wait_step, lock_resource, alive, mbind, M_bind, get, mret, M_ret in Hr. repeat (case_match; simplify_eq/=). done.
Qed.

(** C38: whatever other threads do with the mutex and the condition variable meanwhile,
    [pthread_cond_timedwait] does not return [ETIMEDOUT] before the time that is due, given in
    nanoseconds and rounded up to a microsecond.  And the wait at the semaphore is over at
    the latest two ticks after that time, counted from when the wait began: then, unless the
    semaphore was given, the thread leaves with [ETIMEDOUT].  The nanoseconds are below a
    second, and the time is less than 2,000,000 seconds away: beyond 2^31 milliseconds, 24.8
    days, the code does not wait at all ([cond_wait_overflows]). *)
Theorem cond_wait_time me to phase time0 s0 ticks0 since0 time s x :
  0 ≤ ts_nsec to < 1000000000 → ts_sec to - time0 / 1000000 < 2000000 →
  rtc (timed_step me to phase) (time0, s0, Timed W_insert ticks0 since0) (time, s, x) →
  (x = Returned ETIMEDOUT → due to ≤ time) ∧
  ∀ ticks since, x = Timed W_take ticks since →
    ∃ began, time0 ≤ began ≤ since ∧ began < due to ∧
      ∀ time' s', since + (due to - began) + 2 * P * 1000 ≤ time' → wait_sem (rw_cv s') !! me = Some false →
        cond_wait_step me ticks (wait_over phase since time' ticks) W_take s' = Done s' (Some (inl (W_remove ETIMEDOUT))).
Proof.
  intros Hns Hsec Hrun.
  assert (timed_inv to time0 (time, s, x)) as [_ Hinv].
  { eapply (rtc_ind_r (λ c, timed_inv to time0 c)); [|by intros c c' _ Hs Hi; eapply timed_step_inv|exact Hrun]. by split; cbn. }
  cbn [fst snd] in Hinv. split; [intros ->; by apply Hinv|]. intros ticks since ->.
  destruct Hinv as (began & Hb & Ht & Hs). exists began. pose proof Ht as (n & -> & Hn). split_and!; [lia|lia|lia|].
  intros time' s' Hlate Hsem. destruct (wait_over_due to phase began since time' n Ht ltac:(lia)) as [_ Hover].
  unfold cond_wait_step, gets, mbind, M_bind. rewrite Hsem. cbn [from_option]. by rewrite Hover.
Qed.

(** The same for a wait on a semaphore, which takes a time in the past as none. *)
Theorem sem_wait_time to now :
  0 ≤ ts_nsec to < 1000000000 → 0 ≤ ts_nsec now < 1000000000 → ts_sec to - ts_sec now < 2000000 →
  let left_ns := (ts_sec to - ts_sec now) * 1000000000 + (ts_nsec to - ts_nsec now) in
  0 < left_ns → left_ns ≤ (sem_ticks P to now - 1) * P * 1000000 < left_ns + P * 1000000.
Proof.
  intros Hn Hu Hs left_ns Hl0. unfold sem_ticks. set (d := ts_sec to - ts_sec now) in *.
  assert (left_ns = d * 1000000000 + (ts_nsec to - ts_nsec now)) as HL by done. clearbody left_ns.
  destruct (if ts_sec to =? ts_sec now then ts_nsec to <? ts_nsec now else ts_sec to <? ts_sec now) eqn:Hb.
  { destruct (Z.eqb_spec (ts_sec to) (ts_sec now)); apply Z.ltb_lt in Hb; lia. }
  set (b := if ts_nsec to - ts_nsec now <? 0 then 1 else 0).
  assert (0 ≤ ts_nsec to - ts_nsec now + b * 1000000000 < 1000000000 ∧ 0 ≤ b ≤ 1) as [Hd Hb01] by (unfold b; destruct (Z.ltb_spec (ts_nsec to - ts_nsec now) 0); lia).
  rewrite Z.quot_div_nonneg by lia. set (m := (d - b) * 1000 + (ts_nsec to - ts_nsec now + b * 1000000000 + 1 * 1000000 - 1) / (1 * 1000000)).
  assert (left_ns ≤ m * 1000000 < left_ns + 1000000 ∧ m < 2 ^ 31) as [Hm Hm31] by (unfold m; Z.to_euclidean_division_equations; lia).
  rewrite i32_small by lia. pose proof (whole_ticks m ltac:(lia)) as Ht. cbv zeta in Ht.
  set (n := u32 (u32 (m + P - 1) / P + 1)) in *. nia.
Qed.
End ticks.

(** A lock nobody uses, with its mutex held by thread 0. *)
Definition idle_lock : rwlock :=
  mkRw (mkCond CV [] ∅) (mkMux (mkSem (Some 0%nat) 0) PTHREAD_MUTEX_NORMAL) 0 0 0 false.
Definition waiting_lock : rwlock :=
  mkRw (mkCond CV [0%nat] {[ 0%nat := false ]}) (mkMux (mkSem None 0) PTHREAD_MUTEX_NORMAL) 0 0 0 false.

(** At 100.003 s a thread waits until 100.015000001 s, with ticks of 10 ms: it joins the list,
    unlocks the mutex and waits for three ticks, which are over at 100.030 s. *)
Lemma cond_wait_time_witness :
  rtc (timed_step 10 0 (mkTS 100 15000001) 0) (100003000, idle_lock, Timed W_insert None 0)
    (100003000, waiting_lock, Timed W_take (Some (Some 3)) 100003000) ∧
  ∃ began, 100003000 ≤ began ≤ 100003000 ∧ began < 100015001 ∧
    ∀ time' s', 100003000 + (100015001 - began) + 2 * 10 * 1000 ≤ time' → wait_sem (rw_cv s') !! 0%nat = Some false →
      cond_wait_step 0 (Some (Some 3)) (wait_over 10 0 100003000 time' (Some (Some 3))) W_take s' =
        Done s' (Some (inl (W_remove ETIMEDOUT))).
Proof.
  assert (0 < 10 ≤ 1000) as HP by lia.
  assert (rtc (timed_step 10 0 (mkTS 100 15000001) 0) (100003000, idle_lock, Timed W_insert None 0)
    (100003000, waiting_lock, Timed W_take (Some (Some 3)) 100003000)) as Hrun.
  { eapply rtc_l; [eapply (timed_start 10 0 (mkTS 100 15000001) 0 100003000 idle_lock _ None 0 (inl W_unlock)); reflexivity|].
    eapply rtc_once. eapply (timed_move 10 0 (mkTS 100 15000001) 0 100003000 _ _ W_unlock (Some (Some 3)) 0 (inl W_take)); [done|reflexivity]. }
  split; [exact Hrun|].
  exact (proj2 (cond_wait_time 10 HP 0 (mkTS 100 15000001) 0 100003000 idle_lock None 0 100003000 waiting_lock
    (Timed W_take (Some (Some 3)) 100003000) ltac:(cbn; lia) ltac:(vm_compute; reflexivity) Hrun) _ _ eq_refl).
Defined.

(** A wait until a time 2,200,000 seconds away, 25.5 days, is not a wait: the milliseconds do
    not fit into their 32 bits, and the call returns [ETIMEDOUT] at once. *)
Theorem cond_wait_overflows :
  match cond_wait_step 0 (Some (cond_ticks 10 (mkTS 2200100 0) (mkTV 100 0))) false W_insert idle_lock with
  | Done s r => r = Some (inr ETIMEDOUT)
  | _ => False
  end.
Proof. vm_compute. reflexivity. Qed.

(** A mutex with a timeout that has passed is waited for, for more than a year. *)
Theorem timedlock_in_the_past : mutex_ticks 10 (mkTS 99 0) (mkTS 100 0) = 2 ^ 32 - 100.
Proof. by vm_compute. Qed.

(** And a timeout in the future is rounded down: here the wait is not any time at all. *)
Theorem timedlock_too_short : mutex_ticks 10 (mkTS 100 9999999) (mkTS 100 0) = 0.
Proof. by vm_compute. Qed.
