(* ===== verification/PthreadTls.v ===== *)
(** * POSIX threads: thread-local storage ([pthread/pthread_local_storage.c])

    Keys with destructors in one list, and a list of values per thread.  The storage
    refines a map from threads and keys to values; at the end of a thread each value is
    given to the destructor of its key, and the memory is freed. *)
From Stdlib Require Import ZArith Lia.
From stdpp Require Import base numbers option list gmap.
From S2P Require Import Prelude Pthread.

Open Scope Z_scope.

(** ** The code *)

Definition ENOENT : Z := 2.

(** [key_entry_t] and [value_entry_t]; a destructor and a value are pointers, 0 is NULL. *)
Record key_entry_t : Type := mkKey { ke_key : Z; destructor : Z }.
Record value_entry_t : Type := mkValue { ve_key : Z; ve_value : Z }.

(** The list of keys, the list of values of each thread that has one, the answers of
    allocations to come (then they succeed), the number of blocks, and the calls of
    destructors so far. *)
Record tls_state : Type := mkTls {
  s_keys : list key_entry_t; tls : gmap nat (list value_entry_t); tl_allocs : list bool; tl_live : Z; destroyed : list (Z * Z) }.

Definition TL (A : Type) : Type := M tls_state A.

Definition set_keys (l : list key_entry_t) (s : tls_state) : tls_state := mkTls l (tls s) (tl_allocs s) (tl_live s) (destroyed s).
Definition set_tls (m : gmap nat (list value_entry_t)) (s : tls_state) : tls_state := mkTls (s_keys s) m (tl_allocs s) (tl_live s) (destroyed s).
Definition log_call (d v : Z) (s : tls_state) : tls_state := mkTls (s_keys s) (tls s) (tl_allocs s) (tl_live s) (destroyed s ++ [(d, v)]).

Definition tl_alloc : TL bool := λ s,
  let ok := hd true (tl_allocs s) in
  Done (mkTls (s_keys s) (tls s) (tl (tl_allocs s)) (if ok then tl_live s + 1 else tl_live s) (destroyed s)) ok.
Definition tl_free : TL unit := modify (λ s, mkTls (s_keys s) (tls s) (tl_allocs s) (tl_live s - 1) (destroyed s)).

Definition pthread_key_create (d : Z) : TL (Z * Z) :=
  new_key ← tl_alloc;
  if negb new_key then mret (ENOMEM, 0) else
  s ← get;
  let key := match s_keys s with [] => 1 | head :: _ => u32 (ke_key head + 1) end in
  modify (set_keys (mkKey key d :: s_keys s));;
  mret (0, key).

Fixpoint find_in (key : Z) (l : list key_entry_t) : option key_entry_t :=
  match l with
  | [] => None
  | e :: l => if ke_key e =? key then Some e else find_in key l
  end.

Definition find_key (key : Z) : TL (option key_entry_t) := s ← get; mret (find_in key (s_keys s)).

(** [SLIST_REMOVE] of the entry that was found. *)
Fixpoint remove_key (key : Z) (l : list key_entry_t) : list key_entry_t :=
  match l with
  | [] => []
  | e :: l => if ke_key e =? key then l else e :: remove_key key l
  end.

Definition pthread_key_delete (key : Z) : TL Z :=
  entry ← find_key key;
  match entry with
  | None => mret 0
  | Some _ => modify (λ s, set_keys (remove_key key (s_keys s)) s);; tl_free;; mret 0
  end.

Fixpoint find_value (key : Z) (l : list value_entry_t) : option value_entry_t :=
  match l with
  | [] => None
  | e :: l => if ve_key e =? key then Some e else find_value key l
  end.

Fixpoint put_value (key value : Z) (l : list value_entry_t) : list value_entry_t :=
  match l with
  | [] => []
  | e :: l => if ve_key e =? key then mkValue (ve_key e) value :: l else e :: put_value key value l
  end.

Fixpoint remove_value (key : Z) (l : list value_entry_t) : list value_entry_t :=
  match l with
  | [] => []
  | e :: l => if ve_key e =? key then l else e :: remove_value key l
  end.

Definition pthread_getspecific (me : nat) (key : Z) : TL Z :=
  s ← get;
  match tls s !! me with
  | None => mret 0
  | Some l => mret (from_option ve_value 0 (find_value key l))
  end.

Definition put_tls (me : nat) (l : list value_entry_t) : TL unit := modify (λ s, set_tls (<[me := l]> (tls s)) s).

(** The list of the thread, made when it has none. *)
Definition my_tls (me : nat) : TL (option (list value_entry_t)) :=
  s ← get;
  match tls s !! me with
  | Some l => mret (Some l)
  | None => ok ← tl_alloc; if negb ok then mret None else put_tls me [];; mret (Some [])
  end.

Definition pthread_setspecific (me : nat) (key value : Z) : TL Z :=
  key_entry ← find_key key;
  match key_entry with
  | None => mret ENOENT
  | Some _ =>
      t ← my_tls me;
      match t with
      | None => mret ENOMEM
      | Some l =>
          match find_value key l with
          | Some _ =>
              if negb (value =? 0) then put_tls me (put_value key value l);; mret 0
              else put_tls me (remove_value key l);; tl_free;; mret 0
          | None =>
              if negb (value =? 0) then
                ok ← tl_alloc;
                if negb ok then mret ENOMEM else
                put_tls me (l ++ [mkValue key value]);; mret 0
              else mret 0
          end
      end
  end.

Section cleanup.
(** What a destructor sets, as keys and values, when it is called with a value. *)
Context (sets : Z → Z → list (Z * Z)).

Fixpoint set_all (me : nat) (l : list (Z * Z)) : TL unit :=
  match l with
  | [] => mret ()
  | (k, v) :: l => pthread_setspecific me k v;; set_all me l
  end.

(** A turn of the loop of [pthread_cleanup_thread_specific_data_callback]. *)
Definition cleanup_turn (me : nat) (_ : unit) : TL (unit + unit) :=
  s ← get;
  match tls s !! me with
  | None => fault
  | Some [] => mret (inr ())
  | Some (entry :: l) =>
      put_tls me l;;
      key ← find_key (ve_key entry);
      match key with
      | Some k =>
          whenM (negb (destructor k =? 0)) (modify (log_call (destructor k) (ve_value entry));; set_all me (sets (destructor k) (ve_value entry)))
      | None => mret ()
      end;;
      tl_free;;
      mret (inl ())
  end.

Definition pthread_cleanup_thread_specific_data_callback (me : nat) (fuel : nat) : TL unit :=
  iterM fuel (cleanup_turn me) ();; tl_free.

Definition pthread_internal_local_storage_destructor_callback (me : nat) (fuel : nat) : TL unit :=
  s ← get;
  match tls s !! me with
  | None => mret ()
  | Some _ => pthread_cleanup_thread_specific_data_callback me fuel;; modify (λ s, set_tls (delete me (tls s)) s)
  end.
End cleanup.

(** ** The map that it stands for *)

Definition value_of (s : tls_state) (t : nat) (key : Z) : Z :=
  from_option (λ l, from_option ve_value 0 (find_value key l)) 0 (tls s !! t).

(** The blocks of memory that are in use. *)
Definition in_use (s : tls_state) : Z :=
  zlen (s_keys s) + map_fold (λ _ l n, n + 1 + zlen l) 0 (tls s).

(** No key twice in a list, and no NULL. *)
Definition values_ok (l : list value_entry_t) : Prop := NoDup (ve_key <$> l) ∧ Forall (λ e, ve_value e ≠ 0) l.

(** [extra]: blocks that are in use elsewhere. *)
Record tls_wf (extra : Z) (s : tls_state) : Prop := mkWf {
  tw_values t l : tls s !! t = Some l → values_ok l;
  tw_blocks : tl_live s = in_use s + extra }.

Definition weight (m : gmap nat (list value_entry_t)) : Z := map_fold (λ _ l n, n + 1 + zlen l) 0 m.

Lemma weight_insert m t l : m !! t = None → weight (<[t := l]> m) = weight m + 1 + zlen l.
Proof. intros Hm. unfold weight. rewrite map_fold_insert_L; [done| |done]. intros. lia. Qed.

Lemma weight_delete m t l : m !! t = Some l → weight (delete t m) = weight m - 1 - zlen l.
Proof.
  intros Hm. pose proof (weight_insert (delete t m) t l (lookup_delete_eq m t)) as Hw.
  rewrite insert_delete_id in Hw by done. lia.
Qed.

Lemma weight_update m t l l' : m !! t = Some l → weight (<[t := l']> m) = weight m - zlen l + zlen l'.
Proof.
  intros Hm. rewrite <- (insert_delete_eq m t l'), weight_insert by apply lookup_delete_eq.
  rewrite (weight_delete m t l Hm). lia.
Qed.

Lemma in_use_eq s : in_use s = zlen (s_keys s) + weight (tls s).
Proof. done. Qed.

Lemma find_value_put k v k' l : find_value k' (put_value k v l) =
  if k' =? k then (match find_value k l with Some _ => Some (mkValue k v) | None => None end) else find_value k' l.
Proof.
  induction l as [|[x y] l IH]; cbn; [by destruct (k' =? k)|]. destruct (Z.eqb_spec x k) as [->|Hx]; cbn.
  - rewrite (Z.eqb_sym k k'). destruct (k' =? k); done.
  - rewrite IH. destruct (Z.eqb_spec x k') as [->|]; [|done]. by rewrite (proj2 (Z.eqb_neq k' k)).
Qed.

Lemma find_value_none k l : k ∉ ve_key <$> l → find_value k l = None.
Proof.
  induction l as [|[x y] l IH]; cbn; [done|]. rewrite not_elem_of_cons. intros [Hne Hl]. rewrite (proj2 (Z.eqb_neq x k)) by congruence. by apply IH.
Qed.

Lemma find_value_some k l e : find_value k l = Some e → k ∈ ve_key <$> l ∧ ve_key e = k ∧ e ∈ l.
Proof.
  induction l as [|[x y] l IH]; cbn; [done|]. destruct (Z.eqb_spec x k) as [->|].
  - intros [= <-]. split_and!; [by left|done|by left].
  - intros He%IH. destruct He as (? & ? & ?). split_and!; [by right|done|by right].
Qed.

Lemma remove_keys k l : ve_key <$> remove_value k l ⊆ ve_key <$> l.
Proof.
  induction l as [|[x y] l IH]; cbn; [done|]. destruct (x =? k); [by apply list_subseteq_cons|]. cbn. by apply list_subseteq_skip.
Qed.

Lemma find_value_remove k k' l : NoDup (ve_key <$> l) → find_value k' (remove_value k l) = if k' =? k then None else find_value k' l.
Proof.
  induction l as [|[x y] l IH]; cbn; [by destruct (k' =? k)|]. intros [Hx Hnd]%NoDup_cons. destruct (Z.eqb_spec x k) as [->|Hne]; cbn.
  - rewrite (Z.eqb_sym k k'). destruct (Z.eqb_spec k' k) as [->|]; [by apply find_value_none|done].
  - rewrite IH by done. destruct (Z.eqb_spec x k') as [->|]; [|done]. by rewrite (proj2 (Z.eqb_neq k' k)).
Qed.

Lemma find_value_snoc k v k' l : find_value k l = None → find_value k' (l ++ [mkValue k v]) = if k' =? k then Some (mkValue k v) else find_value k' l.
Proof.
  induction l as [|[x y] l IH]; cbn; [by rewrite Z.eqb_sym|]. destruct (Z.eqb_spec x k) as [->|Hne]; [done|]. intros Hn.
  rewrite IH by done. destruct (Z.eqb_spec x k') as [->|]; [|done]. by rewrite (proj2 (Z.eqb_neq k' k)).
Qed.

Lemma put_ok k v l : v ≠ 0 → values_ok l → values_ok (put_value k v l).
Proof.
  intros Hv [Hnd Hz]. assert (ve_key <$> put_value k v l = ve_key <$> l) as Ek.
  { clear. induction l as [|[x y] l IH]; cbn; [done|]. destruct (x =? k); cbn; [done|]. by rewrite IH. }
  split; [by rewrite Ek|]. clear -Hv Hz. induction l as [|[x y] l IH]; cbn; [done|]. apply Forall_cons in Hz as [Hy Hl].
  destruct (x =? k); constructor; [done|done|done|by apply IH].
Qed.

Lemma values_ok_remove k l : values_ok l → values_ok (remove_value k l).
Proof.
  intros [Hnd Hz]. induction l as [|[x y] l IH]; cbn; [done|]. apply NoDup_cons in Hnd as [Hx Hnd]. apply Forall_cons in Hz as [Hy Hl].
  destruct (x =? k); [done|]. destruct (IH Hnd Hl) as [H1 H2]. split; cbn; [|by constructor]. apply NoDup_cons. split; [|done].
  intros Hin. by apply Hx, (remove_keys k l).
Qed.

Lemma snoc_ok k v l : v ≠ 0 → find_value k l = None → values_ok l → values_ok (l ++ [mkValue k v]).
Proof.
  intros Hv Hn [Hnd Hz]. split; [|by apply Forall_app; split; [|constructor]]. rewrite fmap_app. apply NoDup_app. split_and!; [done| |apply NoDup_singleton].
  intros x Hx Hx'%list_elem_of_singleton. cbn in Hx'. subst x. apply list_elem_of_fmap in Hx as (e & -> & He).
  clear -Hn He. induction l as [|y l IH]; [by apply not_elem_of_nil in He|]. cbn in Hn. destruct (Z.eqb_spec (ve_key y) (ve_key e)); [done|].
  apply elem_of_cons in He as [->|He]; [done|by apply IH].
Qed.

Lemma zlen_put k v l : zlen (put_value k v l) = zlen l.
Proof. unfold zlen. f_equal. induction l as [|[x y] l IH]; cbn; [done|]. destruct (x =? k); cbn; lia. Qed.

Lemma zlen_remove k l e : find_value k l = Some e → zlen (remove_value k l) = zlen l - 1.
Proof.
  unfold zlen. induction l as [|[x y] l IH]; cbn [find_value remove_value]; [done|]. cbn. destruct (x =? k); [lia|]. intros He%IH. cbn [length]. lia.
Qed.

(** ** Properties *)

(** Where it stands after a list was changed: the others are as they were. *)
Lemma value_tls s s' u k : tls s = tls s' → value_of s u k = value_of s' u k.
Proof. intros Hs. unfold value_of. by rewrite Hs. Qed.

Lemma value_update s t l k : value_of (set_tls (<[t := l]> (tls s)) s) t k = from_option ve_value 0 (find_value k l).
Proof. unfold value_of. cbn. by rewrite lookup_insert_eq. Qed.

Lemma value_other s t l u k : u ≠ t → value_of (set_tls (<[t := l]> (tls s)) s) u k = value_of s u k.
Proof. intros Hu. unfold value_of. cbn. by rewrite lookup_insert_ne. Qed.

(** The list of a thread becomes [l]. *)
Lemma wf_put x y s t l0 l : tls_wf x s → tls s !! t = Some l0 → values_ok l → x + zlen l0 = y + zlen l → tls_wf y (set_tls (<[t := l]> (tls s)) s).
Proof.
  intros [Hv Hb] Ht Hl Hx. split.
  - intros u l' Hu. cbn in Hu. destruct (decide (u = t)) as [->|]; [rewrite lookup_insert_eq in Hu; by injection Hu as <-|].
    rewrite lookup_insert_ne in Hu by done. by eapply Hv.
  - rewrite !in_use_eq in *. cbn. rewrite (weight_update _ t l0) by done. lia.
Qed.

(** Memory is taken or given back. *)
Lemma wf_live x y s a n : tls_wf x s → n - tl_live s = y - x → tls_wf y (mkTls (s_keys s) (tls s) a n (destroyed s)).
Proof. intros [Hv Hb] Hn. split; [done|]. rewrite !in_use_eq in *. cbn. lia. Qed.

Lemma my_tls_spec x s t : tls_wf x s →
  wp (my_tls t) s (λ r s', tls_wf x s' ∧ s_keys s' = s_keys s ∧ destroyed s' = destroyed s ∧ (∀ u k, value_of s' u k = value_of s u k) ∧
    (∀ u, u ≠ t → tls s' !! u = tls s !! u) ∧ match r with Some l => tls s' !! t = Some l ∧ default [] (tls s !! t) = l | None => tls s' !! t = tls s !! t end).
Proof.
  intros Hwf. unfold my_tls. wp_step. wp_step. destruct (tls s !! t) as [l|] eqn:Ht; [by apply wp_ret|].
  wp_step. unfold wp, tl_alloc. destruct (hd true (tl_allocs s)); cbn.
  - split_and!; [|done|done|..].
    + destruct Hwf as [Hv Hb]. split.
      * intros u l Hu. cbn in Hu. destruct (decide (u = t)) as [->|]; [rewrite lookup_insert_eq in Hu; injection Hu as <-; split; constructor|].
        rewrite lookup_insert_ne in Hu by done. by eapply Hv.
      * rewrite !in_use_eq in *. cbn. rewrite weight_insert by done. change (zlen []) with 0. lia.
    + intros u k. unfold value_of. cbn. destruct (decide (u = t)) as [->|]; [by rewrite lookup_insert_eq, Ht|by rewrite lookup_insert_ne].
    + intros u Hu. cbn. by rewrite lookup_insert_ne.
    + cbn. by rewrite lookup_insert_eq.
    + done.
  - split_and!; try done. eapply wf_live; [done|]. lia.
Qed.

(** Setting a value: the map changes at one place, or not at all. *)
Lemma setspecific_spec x s t k v : tls_wf x s →
  wp (pthread_setspecific t k v) s (λ r s', tls_wf x s' ∧ s_keys s' = s_keys s ∧ destroyed s' = destroyed s ∧
    (∀ u, u ≠ t → tls s' !! u = tls s !! u) ∧ (is_Some (tls s !! t) → is_Some (tls s' !! t)) ∧
    (r = 0 ∧ is_Some (find_in k (s_keys s)) ∧ (∀ u k', value_of s' u k' = if bool_decide (u = t) && (k' =? k) then v else value_of s u k') ∨
     (r = ENOMEM ∨ r = ENOENT ∧ find_in k (s_keys s) = None) ∧ ∀ u k', value_of s' u k' = value_of s u k')).
Proof.
  intros Hwf. unfold pthread_setspecific, find_key. wp_steps. destruct (find_in k (s_keys s)) as [e|] eqn:Hk; [|apply wp_ret; split_and!; [done..|right; eauto]].
  wp_step. eapply wp_mono; [by apply my_tls_spec|]. intros r s1 (Hwf1 & Hk1 & Hd1 & Hv1 & Ho1 & Hr).
  destruct r as [l|]; [|apply wp_ret; rewrite Hr; split_and!; eauto]. destruct Hr as [Ht1 _].
  pose proof (tw_values _ _ Hwf1 t l Ht1) as Hl.
  assert (∀ u k' l', value_of (set_tls (<[t := l']> (tls s1)) s1) u k' = if bool_decide (u = t) then from_option ve_value 0 (find_value k' l') else value_of s u k') as Hval.
  { intros u k' l'. case_bool_decide as Hu; [subst; apply value_update|]. by rewrite value_other, Hv1. }
  assert (∀ k', value_of s t k' = from_option ve_value 0 (find_value k' l)) as Hmine by (intros k'; rewrite <- Hv1; unfold value_of; by rewrite Ht1).
  assert (∀ u l', u ≠ t → <[t := l']> (tls s1) !! u = tls s !! u) as Hoth by (intros u l' Hu; rewrite lookup_insert_ne by done; by apply Ho1).
  destruct (find_value k l) as [e'|] eqn:Hf; destruct (Z.eqb_spec v 0) as [->|Hv]; cbn [negb].
  - wp_steps. cbn. split_and!; [|done|done|by intros; apply Hoth|cbn; rewrite lookup_insert_eq; eauto|left; split_and!; [done|eauto|]].
    + eapply (wf_live (x + 1)); [|cbn; lia]. eapply wf_put; [done|done|by apply values_ok_remove|]. rewrite (zlen_remove k l e') by done. lia.
    + intros u k'. etrans; [apply (value_tls _ (set_tls (<[t := remove_value k l]> (tls s1)) s1) u k' eq_refl)|]. rewrite Hval, find_value_remove by apply Hl.
      destruct (bool_decide (u = t)) eqn:Hu; [|done]. apply bool_decide_eq_true in Hu as ->. cbn. rewrite Hmine. by destruct (k' =? k).
  - wp_steps. cbn. split_and!; [|done|done|by intros; apply Hoth|cbn; rewrite lookup_insert_eq; eauto|left; split_and!; [done|eauto|]].
    + eapply wf_put; [done|done|by apply put_ok|]. by rewrite zlen_put.
    + intros u k'. etrans; [apply (value_tls _ (set_tls (<[t := put_value k v l]> (tls s1)) s1) u k' eq_refl)|]. rewrite Hval, find_value_put, Hf.
      destruct (bool_decide (u = t)) eqn:Hu; [|done]. apply bool_decide_eq_true in Hu as ->. cbn. rewrite Hmine. by destruct (k' =? k).
  - apply wp_ret. split_and!; [done|done|done|done|by rewrite Ht1; eauto|left; split_and!; [done|eauto|]]. intros u k'. rewrite Hv1.
    destruct (bool_decide (u = t)) eqn:Hu; [|done]. apply bool_decide_eq_true in Hu as ->. destruct (Z.eqb_spec k' k) as [->|]; [|done]. by rewrite Hmine, Hf.
  - wp_step. unfold wp, tl_alloc. destruct (hd true (tl_allocs s1)); cbn.
    + split_and!; [|done|done|by intros; apply Hoth|cbn; rewrite lookup_insert_eq; eauto|left; split_and!; [done|eauto|]].
      * destruct (wf_put x (x - 1) s1 t l (l ++ [mkValue k v]) Hwf1 Ht1 (snoc_ok k v l Hv Hf Hl)) as [H1 H2]; [rewrite zlen_app; change (zlen [mkValue k v]) with 1; lia|].
        split; [done|]. rewrite !in_use_eq in *. cbn in *. lia.
      * intros u k'. etrans; [apply (value_tls _ (set_tls (<[t := l ++ [mkValue k v]]> (tls s1)) s1) u k' eq_refl)|]. rewrite Hval, find_value_snoc by done.
        destruct (bool_decide (u = t)) eqn:Hu; [|done]. apply bool_decide_eq_true in Hu as ->. cbn. rewrite Hmine. by destruct (k' =? k).
    + split_and!; [eapply wf_live; [done|lia]|done|done|done|by rewrite Ht1; eauto|]. right. split; [by left|]. intros. by apply Hv1.
Qed.

(** C37: a value that a thread sets for a key that exists is what it then reads for this key;
    other keys and other threads read what they read before.  When memory is out nothing
    changes.  No memory is lost. *)
Theorem tls_set_get s t k v u k' : tls_wf 0 s → is_Some (find_in k (s_keys s)) →
  wp (r ← pthread_setspecific t k v; x ← pthread_getspecific u k'; mret (r, x)) s (λ rx s', tls_wf 0 s' ∧
    (rx.1 = 0 ∨ rx.1 = ENOMEM) ∧
    (rx.1 = 0 → rx.2 = if bool_decide (u = t) && (k' =? k) then v else value_of s u k') ∧ (rx.1 ≠ 0 → rx.2 = value_of s u k')).
Proof.
  intros Hwf Hk. wp_step. eapply wp_mono; [by apply setspecific_spec|]. intros r s1 (Hwf1 & _ & _ & _ & _ & Hor).
  unfold pthread_getspecific. wp_steps. assert (∀ (Q : Z → tls_state → Prop), Q (value_of s1 u k') s1 →
    wp (match tls s1 !! u with None => mret 0 | Some l => mret (from_option ve_value 0 (find_value k' l)) end) s1 Q) as Hget.
  { intros Q HQ. unfold value_of in HQ. by destruct (tls s1 !! u). }
  apply Hget. apply wp_ret. cbn. split; [done|]. destruct Hor as [(-> & _ & Hv)|(Hr & Hv)]; rewrite Hv.
  - split_and!; [by left|done|done].
  - split_and!; [|intros ->; by destruct Hr as [|[]]|done]. right. destruct Hr as [?|[_ Hn]]; [done|]. rewrite Hn in Hk. by destruct Hk.
Qed.

(** ** The end of a thread *)

(** The values of a thread as a queue, with the answers of allocations to come: a value for a
    key that has one replaces it in its place, NULL takes it out, and a value for another key
    goes to the end. *)
Definition queue_set (keys : list key_entry_t) (x : list bool * list value_entry_t) (kv : Z * Z) : list bool * list value_entry_t :=
  let '(al, l) := x in
  match find_in kv.1 keys with
  | None => x
  | Some _ =>
      if decide (kv.1 ∈ ve_key <$> l) then
        (al, if kv.2 =? 0 then filter (λ e, ve_key e ≠ kv.1) l
             else (λ e, if ve_key e =? kv.1 then mkValue kv.1 kv.2 else e) <$> l)
      else if kv.2 =? 0 then x else (tail al, if hd true al then l ++ [mkValue kv.1 kv.2] else l)
  end.

(** The calls of destructors until no value is left: the first value is taken out and, if its
    key has a destructor, given to it, and what the destructor [d] sets for [v], [sets d v],
    changes the queue before the next value is taken. *)
Inductive cleaned (sets : Z → Z → list (Z * Z)) (keys : list key_entry_t) :
    list bool → list value_entry_t → list (Z * Z) → Prop :=
| cleaned_nil al : cleaned sets keys al [] []
| cleaned_skip al k v l tr :
    from_option destructor 0 (find_in k keys) = 0 → cleaned sets keys al l tr → cleaned sets keys al (mkValue k v :: l) tr
| cleaned_call al k v l d al' l' tr :
    from_option destructor 0 (find_in k keys) = d → d ≠ 0 →
    (al', l') = foldl (queue_set keys) (al, l) (sets d v) → cleaned sets keys al' l' tr →
    cleaned sets keys al (mkValue k v :: l) ((d, v) :: tr).

Lemma put_value_map k v l : NoDup (ve_key <$> l) → put_value k v l = (λ e, if ve_key e =? k then mkValue k v else e) <$> l.
Proof.
  induction l as [|[x y] l IH]; cbn; [done|]. intros [Hx Hnd]%NoDup_cons. destruct (Z.eqb_spec x k) as [->|Hne]; cbn.
  - f_equal. clear -Hx. induction l as [|[x y] l IH]; cbn in *; [done|]. apply not_elem_of_cons in Hx as [Hne Hx].
    rewrite (proj2 (Z.eqb_neq x k)) by congruence. f_equal. by apply IH.
  - f_equal. by apply IH.
Qed.

Lemma remove_value_filter k l : NoDup (ve_key <$> l) → remove_value k l = filter (λ e, ve_key e ≠ k) l.
Proof.
  induction l as [|[x y] l IH]; [done|]. cbn [remove_value ve_key]. rewrite fmap_cons. intros [Hx Hnd]%NoDup_cons. destruct (Z.eqb_spec x k) as [->|Hne].
  - rewrite filter_cons_False by (cbn; tauto). clear -Hx. induction l as [|[x0 y0] l IH]; [done|]. apply not_elem_of_cons in Hx as [Hne Hx].
    cbn in Hne. rewrite filter_cons_True by (cbn; congruence). f_equal. by apply IH.
  - rewrite filter_cons_True by done. f_equal. by apply IH.
Qed.

(** Setting a value on the list of a thread is setting it in the queue. *)
Lemma setspecific_queue x s t k v l : tls_wf x s → tls s !! t = Some l →
  wp (pthread_setspecific t k v) s (λ _ s', ∃ l', tls s' !! t = Some l' ∧ (tl_allocs s', l') = queue_set (s_keys s) (tl_allocs s, l) (k, v)).
Proof.
  intros Hwf Hl. destruct (tw_values _ _ Hwf t l Hl) as [Hnd _]. unfold pthread_setspecific, find_key, queue_set. cbn [fst snd]. wp_steps.
  destruct (find_in k (s_keys s)); [|apply wp_ret; eauto]. wp_step. unfold my_tls. wp_step. wp_step. rewrite Hl. apply wp_ret.
  destruct (find_value k l) as [e|] eqn:Hf.
  - rewrite decide_True by (by eapply find_value_some). destruct (v =? 0) eqn:Hv; cbn [negb]; wp_steps;
      (eexists; split; [apply lookup_insert_eq|]); [by rewrite remove_value_filter|by rewrite put_value_map].
  - rewrite decide_False.
    2:{ clear -Hf. induction l as [|[x y] l IH]; cbn in *; [by apply not_elem_of_nil|]. destruct (Z.eqb_spec x k); [done|].
        apply not_elem_of_cons. split; [congruence|by apply IH]. }
    destruct (v =? 0) eqn:Hv; cbn [negb]; [apply wp_ret; eauto|]. wp_step. unfold wp, tl_alloc.
    destruct (tl_allocs s) as [|[] al]; cbn; (eexists; split; [first [apply lookup_insert_eq|exact Hl]|done]).
Qed.

Section ends.
Context (sets : Z → Z → list (Z * Z)).
(** Destructors set at most [K] values, each of a lower rank than the value they got. *)
Context (rank : Z → nat) (K : nat).
Context (few : ∀ d v, (length (sets d v) ≤ K)%nat)
  (lower : ∀ d v k v', (k, v') ∈ sets d v → v' ≠ 0 → (rank v' < rank v)%nat).

Definition cost (v : Z) : nat := (S K) ^ rank v.
Definition costs (l : list value_entry_t) : nat := sum_list_with (λ e, cost (ve_value e)) l.
Definition cost_of (s : tls_state) (t : nat) : nat := from_option costs 0%nat (tls s !! t).

Lemma cost_pos v : (1 ≤ cost v)%nat.
Proof. unfold cost. pose proof (Nat.pow_nonzero (S K) (rank v)). lia. Qed.

Lemma costs_app l l' : costs (l ++ l') = (costs l + costs l')%nat.
Proof. unfold costs. by rewrite sum_list_with_app. Qed.

Lemma costs_put k v l : (costs (put_value k v l) ≤ costs l + cost v)%nat.
Proof. induction l as [|[x y] l IH]; cbn; [lia|]. fold (costs l) in *. destruct (x =? k); cbn; fold (costs (put_value k v l)); fold (costs l); lia. Qed.

Lemma costs_remove k l : (costs (remove_value k l) ≤ costs l)%nat.
Proof. induction l as [|[x y] l IH]; cbn; [lia|]. fold (costs l) in *. destruct (x =? k); cbn; fold (costs (remove_value k l)); fold (costs l); lia. Qed.

Lemma setspecific_cost s t k v : is_Some (tls s !! t) →
  wp (pthread_setspecific t k v) s (λ _ s', (cost_of s' t ≤ cost_of s t + if (v =? 0)%Z then 0 else cost v)%nat).
Proof.
  intros [l Hl]. unfold pthread_setspecific, find_key. wp_steps. assert (cost_of s t = costs l) as Hc by (unfold cost_of; by rewrite Hl).
  destruct (find_in k (s_keys s)); [|apply wp_ret; lia]. wp_step. unfold my_tls. wp_step. wp_step. rewrite Hl. apply wp_ret.
  assert (∀ l', (costs l' ≤ costs l + if (v =? 0)%Z then 0 else cost v)%nat → ∀ s' : tls_state, tls s' = <[t := l']> (tls s) →
    (cost_of s' t ≤ cost_of s t + if (v =? 0)%Z then 0 else cost v)%nat) as Hput.
  { intros l' Hle s' Hs. unfold cost_of at 1. rewrite Hs, lookup_insert_eq. cbn. lia. }
  destruct (find_value k l); destruct (Z.eqb_spec v 0); cbn [negb].
  - wp_steps. eapply Hput; [|done]. pose proof (costs_remove k l). lia.
  - wp_steps. eapply Hput; [|done]. apply costs_put.
  - apply wp_ret. lia.
  - wp_step. unfold wp, tl_alloc. destruct (hd true (tl_allocs s)); cbn; [|unfold cost_of; cbn; lia]. eapply Hput; [|done]. rewrite costs_app. cbn. lia.
Qed.

Definition set_cost (l : list (Z * Z)) : nat := sum_list_with (λ p, if p.2 =? 0 then 0%nat else cost p.2) l.

Lemma set_all_spec x t l s : tls_wf x s → is_Some (tls s !! t) →
  wp (set_all t l) s (λ _ s', tls_wf x s' ∧ s_keys s' = s_keys s ∧ destroyed s' = destroyed s ∧ (∀ u, u ≠ t → tls s' !! u = tls s !! u) ∧
    is_Some (tls s' !! t) ∧ (cost_of s' t ≤ cost_of s t + set_cost l)%nat ∧
    ∀ l0, tls s !! t = Some l0 → ∃ l', tls s' !! t = Some l' ∧ (tl_allocs s', l') = foldl (queue_set (s_keys s)) (tl_allocs s, l0) l).
Proof.
  revert s. induction l as [|[k v] l IH]; intros s Hwf Ht; cbn [set_all]; [apply wp_ret; split_and!; try done; [lia|eauto]|].
  pose proof Ht as [l0 Hl0].
  wp_step. eapply wp_mono; [apply wp_and; [by apply setspecific_spec|apply wp_and; [by apply setspecific_cost|by eapply setspecific_queue]]|].
  intros r s1 ((Hwf1 & Hk1 & Hd1 & Ho1 & Ht1 & _) & Hc1 & l1 & Hl1 & Hq1). eapply wp_mono; [apply IH; [done|by apply Ht1]|].
  intros _ s2 (Hwf2 & Hk2 & Hd2 & Ho2 & Ht2 & Hc2 & Hq2). split_and!; [done|congruence|congruence| |done| |].
  - intros u Hu. rewrite Ho2, Ho1; done.
  - cbn. fold (set_cost l). destruct (v =? 0); lia.
  - intros l0' Hl0'. rewrite Hl0 in Hl0'. injection Hl0' as <-. cbn [foldl]. rewrite <- Hq1, <- Hk1. by apply Hq2.
Qed.

Lemma set_cost_lower d v : (set_cost (sets d v) < cost v)%nat.
Proof.
  assert (∀ l, (length l ≤ K)%nat → (∀ k v', (k, v') ∈ l → v' ≠ 0 → (rank v' < rank v)%nat) → (set_cost l ≤ length l * (S K) ^ (rank v - 1))%nat) as Hb.
  { clear few lower. intros l _ Hlow. induction l as [|[k v'] l IH]; [cbn; lia|]. cbn [set_cost sum_list_with length]. fold (set_cost l). cbn [snd].
    assert ((if (v' =? 0)%Z then 0 else cost v') ≤ (S K) ^ (rank v - 1))%nat as H1.
    { destruct (Z.eqb_spec v' 0); [lia|]. unfold cost. apply Nat.pow_le_mono_r; [lia|]. specialize (Hlow k v' ltac:(by left) ltac:(done)). lia. }
    specialize (IH ltac:(intros; eapply Hlow; [by right|done])). cbn. lia. }
  pose proof (Hb (sets d v) (few d v) (lower d v)) as Hle. specialize (few d v). unfold cost. destruct (rank v) as [|n] eqn:Hr.
  - assert (∀ k v', (k, v') ∈ sets d v → v' = 0) as Hz.
    { intros k2 v2 Hin. destruct (decide (v2 = 0)) as [|Hne]; [done|]. pose proof (lower d v k2 v2 Hin Hne). lia. }
    enough (set_cost (sets d v) = 0%nat) as -> by (cbn; lia).
    clear -Hz. induction (sets d v) as [|[k2 v2] l0 IH]; [done|]. cbn.
    rewrite (Hz k2 v2) by (by left). cbn. apply IH. intros k3 v3 Hin. eapply Hz. by right.
  - replace (S n - 1)%nat with n in Hle by lia. cbn [Nat.pow]. pose proof (Nat.pow_nonzero (S K) n). nia.
Qed.

(** The calls of destructors for a list of values. *)
Definition calls (keys : list key_entry_t) (l : list value_entry_t) : list (Z * Z) :=
  omap (λ e, k ← find_in (ve_key e) keys; if destructor k =? 0 then None else Some (destructor k, ve_value e)) l.

Lemma calls_cons keys k v l : calls keys (mkValue k v :: l) =
  match find_in k keys with
  | Some ke => if destructor ke =? 0 then calls keys l else (destructor ke, v) :: calls keys l
  | None => calls keys l
  end.
Proof. unfold calls. cbn. destruct (find_in k keys) as [ke|]; cbn; [|done]. by destruct (destructor ke =? 0). Qed.

Definition quiet : Prop := ∀ d v, sets d v = [].

(** What holds between the turns of the loop; [n] bounds those that are left. *)
Record cleaning (s0 : tls_state) (t : nat) (n : nat) (s : tls_state) : Prop := mkCleaning {
  cl_wf : tls_wf 0 s;
  cl_list : is_Some (tls s !! t);
  cl_cost : (cost_of s t ≤ n)%nat;
  cl_others u : u ≠ t → tls s !! u = tls s0 !! u;
  cl_keys : s_keys s = s_keys s0;
  cl_calls : ∃ done_, destroyed s = destroyed s0 ++ done_ ∧ ∀ rest,
    cleaned sets (s_keys s0) (tl_allocs s) (default [] (tls s !! t)) rest →
    cleaned sets (s_keys s0) (tl_allocs s0) (default [] (tls s0 !! t)) (done_ ++ rest) }.

Lemma cleanup_turn_ok s0 t n s : cleaning s0 t n s →
  wp (cleanup_turn sets t ()) s (λ r s', match r with
    | inl _ => ∃ n', (n' < n)%nat ∧ cleaning s0 t n' s'
    | inr _ => s' = s ∧ tls s !! t = Some []
    end).
Proof.
  intros [Hwf [l0 Hl0] Hn Ho Hk (tr & Hd0 & Hca)]. unfold cleanup_turn. wp_step. wp_step. rewrite Hl0. destruct l0 as [|[k v] l]; [by apply wp_ret|].
  assert (cost_of s t = cost v + costs l)%nat as Hc by (unfold cost_of; by rewrite Hl0). rewrite Hl0 in Hca. change (default [] (Some (mkValue k v :: l))) with (mkValue k v :: l) in Hca.
  wp_step. apply wp_modify. set (s1 := set_tls (<[t := l]> (tls s)) s).
  assert (tls s1 !! t = Some l) as Hl1 by apply lookup_insert_eq.
  assert (tls_wf 1 s1) as Hwf1.
  { eapply (wf_put 0 1 s t (mkValue k v :: l)); [done|done| |unfold zlen; cbn [length]; lia].
    destruct (tw_values _ _ Hwf t _ Hl0) as [Hnd Hz]. apply NoDup_cons in Hnd as [_ ?]. apply Forall_cons in Hz as [_ ?]. by split. }
  assert (∀ u, u ≠ t → tls s1 !! u = tls s0 !! u) as Ho1 by (intros u Hu; cbn; rewrite lookup_insert_ne by done; by apply Ho).
  assert (∀ s2 l2 new, tls_wf 1 s2 → s_keys s2 = s_keys s0 → tls s2 !! t = Some l2 → (cost_of s2 t < costs l + cost v)%nat → (∀ u, u ≠ t → tls s2 !! u = tls s0 !! u) →
    destroyed s2 = destroyed s ++ new →
    (∀ rest, cleaned sets (s_keys s0) (tl_allocs s2) l2 rest → cleaned sets (s_keys s0) (tl_allocs s) (mkValue k v :: l) (new ++ rest)) →
    wp (tl_free;; mret (inl ()) : TL (unit + unit)) s2 (λ r s', match r with inl _ => ∃ n', (n' < n)%nat ∧ cleaning s0 t n' s' | inr _ => s' = s ∧ tls s !! t = Some [] end)) as Hend.
  { intros s2 l2 new Hwf2 Hk2 Ht2 Hc2 Ho2 Hd2 Hq2. wp_steps. exists (cost_of s2 t). split; [lia|]. split; cbn; try done.
    - eapply (wf_live 1); [done|lia].
    - exists (tr ++ new). rewrite Hd2, Hd0, app_assoc. split; [done|]. intros rest Hrest. rewrite <- app_assoc. apply Hca, Hq2.
      rewrite Ht2 in Hrest. exact Hrest. }
  unfold find_key. wp_step. wp_step. wp_step. cbn [ve_key]. change (s_keys s1) with (s_keys s). rewrite Hk.
  assert (cost_of s1 t = costs l) as Hc1 by (unfold cost_of; by rewrite Hl1). pose proof (cost_pos v).
  destruct (find_in k (s_keys s0)) as [ke|] eqn:Hf.
  2: { wp_step. apply (Hend s1 l []); [done|done|done|lia|done|by rewrite app_nil_r|]. intros rest Hrest. apply cleaned_skip; [by rewrite Hf|done]. }
  wp_step. cbn [ve_value]. destruct (Z.eqb_spec (destructor ke) 0) as [Hd|Hd]; cbn [negb whenM].
  - apply wp_ret. apply (Hend s1 l []); [done|done|done|lia|done|by rewrite app_nil_r|]. intros rest Hrest. apply cleaned_skip; [by rewrite Hf|done].
  - wp_step. apply wp_modify. set (s2 := log_call (destructor ke) v s1). eapply wp_mono; [apply (set_all_spec 1 t (sets (destructor ke) v) s2)|].
    + destruct Hwf1. by split.
    + change (tls s2) with (tls s1). rewrite Hl1. eauto.
    + intros _ s3 (Hwf3 & Hk3 & Hd3 & Ho3 & Ht3 & Hc3 & Hq3). pose proof (set_cost_lower (destructor ke) v).
      change (cost_of s2 t) with (cost_of s1 t) in Hc3. destruct (Hq3 l Hl1) as (l3 & Hl3 & Hq).
      apply (Hend s3 l3 [(destructor ke, v)]); [done|by rewrite Hk3|done|lia| |by rewrite Hd3|].
      * intros u Hu. rewrite Ho3 by done. by apply Ho1.
      * intros rest Hrest. change (s_keys s2) with (s_keys s) in Hq. rewrite Hk in Hq.
        apply (cleaned_call _ _ _ _ _ _ _ (tl_allocs s3) l3); [by rewrite Hf|done|exact Hq|exact Hrest].
Qed.

(** Without values that are set again, these are the values in order. *)
Lemma cleaned_quiet keys al l tr : quiet → cleaned sets keys al l tr → tr = calls keys l.
Proof.
  intros Hq. induction 1 as [|al k v l tr Hd _ IH|al k v l d al' l' tr Hd Hne Hs _ IH]; [done|..]; rewrite calls_cons.
  - destruct (find_in k keys) as [ke|]; [|done]. cbn in Hd. by rewrite Hd.
  - rewrite (Hq d v) in Hs. injection Hs as -> ->. destruct (find_in k keys) as [ke|]; cbn in Hd; [|congruence].
    by rewrite Hd, (proj2 (Z.eqb_neq d 0)), IH.
Qed.

(** C36: at the end of a thread its values are taken out one by one, first the one that was
    set first, and each is given to the destructor of its key if the key has one; what a
    destructor sets joins the values that are left, at the end when its key has none, and is
    taken out in its turn ([cleaned]).  When destructors set nothing, these calls are those
    for the values in the order in which they were set.  At the end no value is left and all
    memory of the list is freed; the values of other threads and the keys stay as they are.
    The loop of the code has no bound of its own: the condition is a rank of values that gets
    lower with each value that a destructor sets, and a bound on how many it sets. *)
Theorem tls_cleanup s t l fuel : tls_wf 0 s → tls s !! t = Some l → (costs l < fuel)%nat →
  wp (pthread_internal_local_storage_destructor_callback sets t fuel) s (λ _ s', tls_wf 0 s' ∧ tls s' !! t = None ∧
    (∀ u, u ≠ t → tls s' !! u = tls s !! u) ∧ s_keys s' = s_keys s ∧
    ∃ tr, destroyed s' = destroyed s ++ tr ∧ cleaned sets (s_keys s) (tl_allocs s) l tr ∧ (quiet → tr = calls (s_keys s) l)).
Proof.
  intros Hwf Hl Hfuel. unfold pthread_internal_local_storage_destructor_callback, pthread_cleanup_thread_specific_data_callback.
  wp_step. wp_step. rewrite Hl. wp_step. wp_step.
  assert (cleaning s t (costs l) s) as H0.
  { split; try done; [unfold cost_of; rewrite Hl; eauto..|]. exists []. by rewrite app_nil_r. }
  eapply wp_mono; [apply (wp_iter (cleanup_turn sets t) (λ n _ s', cleaning s t n s') (λ _ s', (∃ n, cleaning s t n s') ∧ tls s' !! t = Some [])) with (n := costs l); [|done|done]|].
  { intros n [] s' Hcl. eapply wp_mono; [by apply cleanup_turn_ok|]. intros [[]|[]] s2 Hr; [done|]. destruct Hr as [-> Hnil]. split; [by exists n|done]. }
  intros [] s' ((n & [Hwf' _ _ Ho Hk (tr & Hd & Hca)]) & Hnil). wp_steps. cbn. split_and!; [|apply lookup_delete_eq|by intros u Hu; rewrite lookup_delete_ne; [apply Ho|]|done|].
  - destruct Hwf' as [Hv Hb]. split.
    + intros u l' Hu. cbn in Hu. apply lookup_delete_Some in Hu as [_ Hu]. by eapply Hv.
    + rewrite !in_use_eq in *. cbn. rewrite (weight_delete _ t []) by done. change (zlen []) with 0. lia.
  - rewrite Hnil, Hl in Hca. specialize (Hca [] (cleaned_nil _ _ _)). rewrite app_nil_r in Hca.
    exists tr. split_and!; [done|done|]. intros Hq. by eapply cleaned_quiet.
Qed.
End ends.

(** ** Instances *)

(** Two keys, the first with a destructor, and a thread with a value for each. *)
Definition two_keys : tls_state :=
  mkTls [mkKey 2 0; mkKey 1 70] {[ 0%nat := [mkValue 1 5; mkValue 2 6] ]} [] 5 [].

Lemma two_keys_wf : tls_wf 0 two_keys.
Proof.
  split; [|by vm_compute]. intros t l Hl. cbn in Hl. destruct (decide (t = 0%nat)) as [->|]; [|by rewrite lookup_singleton_ne in Hl].
  rewrite lookup_singleton_eq in Hl. injection Hl as <-. split; [|by repeat constructor].
  apply NoDup_cons. split; [|apply NoDup_singleton]. cbn. intros ?%list_elem_of_singleton. done.
Qed.

Lemma tls_set_get_witness :
  wp (r ← pthread_setspecific 1 2 9; x ← pthread_getspecific 1 2; mret (r, x)) two_keys (λ rx s', tls_wf 0 s' ∧
    (rx.1 = 0 ∨ rx.1 = ENOMEM) ∧ (rx.1 = 0 → rx.2 = 9) ∧ (rx.1 ≠ 0 → rx.2 = 0)).
Proof. exact (tls_set_get two_keys 1 2 9 1 2 two_keys_wf ltac:(by eexists)). Defined.

(** A destructor that sets a smaller value for its key again, until none is left. *)
Definition again (d v : Z) : list (Z * Z) := if (1 <? v) && (v <? 10) then [(1, v - 1)] else [].

(** The thread starts with the value 3 for the first key and 16 for the second: the values of
    the first key come again behind the one of the second. *)
Definition resetting : tls_state :=
  mkTls [mkKey 2 80; mkKey 1 70] {[ 0%nat := [mkValue 1 3; mkValue 2 16] ]} [] 5 [].

Lemma resetting_wf : tls_wf 0 resetting.
Proof.
  split; [|by vm_compute]. intros t l Hl. cbn in Hl. destruct (decide (t = 0%nat)) as [->|]; [|by rewrite lookup_singleton_ne in Hl].
  rewrite lookup_singleton_eq in Hl. injection Hl as <-. split; [|by repeat constructor].
  apply NoDup_cons. split; [|apply NoDup_singleton]. cbn. intros ?%list_elem_of_singleton. done.
Qed.

#[local] Ltac next_call H :=
  let H' := fresh in let Hz := fresh in let Hq := fresh in
  inversion H as [|? ? ? ? ? Hz H'|? ? ? ? ? ? ? ? Hz _ Hq H']; subst;
  [vm_compute in Hz; discriminate Hz|vm_compute in Hq; injection Hq as -> ->; clear H; rename H' into H].

Lemma tls_cleanup_witness :
  wp (pthread_internal_local_storage_destructor_callback again 0 10) resetting (λ _ s', tls_wf 0 s' ∧ tls s' !! 0%nat = None ∧
    destroyed s' = [(70, 3); (80, 16); (70, 2); (70, 1)]).
Proof.
  refine (wp_mono _ _ _ _ (tls_cleanup again (λ v, if v <? 10 then Z.to_nat v else 0%nat) 1 _ _ resetting 0 [mkValue 1 3; mkValue 2 16] 10 resetting_wf eq_refl _) _).
  - intros d v. unfold again. destruct (_ && _); cbn; lia.
  - intros d v k v' Hin Hv. unfold again in Hin. destruct (Z.ltb_spec 1 v), (Z.ltb_spec v 10); cbn in Hin; try by apply not_elem_of_nil in Hin.
    apply list_elem_of_singleton in Hin. injection Hin as -> ->. rewrite (proj2 (Z.ltb_lt (v - 1) 10)) by lia. lia.
  - apply Nat.ltb_lt. vm_compute. reflexivity.
  - intros [] s' (Hwf & Hnone & _ & _ & tr & Hd & Hcl & _). split_and!; [exact Hwf|exact Hnone|]. rewrite Hd. clear -Hcl.
    change (s_keys resetting) with [mkKey 2 80; mkKey 1 70] in Hcl. change (tl_allocs resetting) with (@nil bool) in Hcl.
    do 4 next_call Hcl. inversion Hcl. reflexivity.
Defined.

(** The number of a deleted key is used again, and the new key reads the value of the old
    one. *)
Definition reuse_key : TL (Z * Z * Z) :=
  k1 ← pthread_key_create 0;
  pthread_setspecific 0 k1.2 5;;
  pthread_key_delete k1.2;;
  k2 ← pthread_key_create 0;
  v ← pthread_getspecific 0 k2.2;
  mret (k1.2, k2.2, v).

Theorem key_reuse_shows_value : wp reuse_key (mkTls [] ∅ [] 0 []) (λ r _, r = (1, 1, 5)).
Proof. by vm_compute. Qed.
